(* ===== verification/_CoqProject ===== *)
-Q . S2P
Prelude.v
Cbor.v
Sha256.v
Digest.v
Fields.v
Journal.v
Durable.v
Authority.v
Job.v
Recovery.v
StepEngine.v
Effect.v
FlashStep.v
Projection.v
Identity.v
Verification.v
Profile.v
Superseding.v
Wire.v
Plan.v
PlanCodec.v
PlanSound.v
Engine.v
PlanFiles.v
Bits.v
Huffman.v
Inflate.v
Text.v
Source.v
Gzip.v
Tar.v
TarSound.v
Manifest.v
Dayu200.v
Dayu200Grammar.v
Cas.v
CasLogic.v
CasSound.v
CasImport.v
CasLease.v
Yaml.v
YamlRound.v
ShippedProfile.v
ProfileLoad.v
ProfileRound.v
Assessment.v
Rockchip.v
ProjectionAccepts.v
RockchipPlan.v
RockchipSafe.v
RockchipSample.v
Interaction.v
Rockusb.v
RockusbSound.v
GptSound.v
Port.v
Execute.v
NativePort.v
Dispatch.v
PortSound.v
NativeSound.v
ExecuteSound.v
DispatchSound.v
DispatchSafe.v
DispatchSample.v
Deliver.v
DeliverSample.v
