(* ===== verification/Prelude.v ===== *)
(** * A verified model of the ArkForge core

    ArkForge flashes devices under an external authority.  A plan is a public part
    (steps and effects, shown and approved) and a private part (the actions a
    provider runs); the authority issues one permit per step; the engine records
    every move in a hash-chained journal before and after it acts, so that after a
    crash it can say what may have happened and never repeats an action.  This
    development models that core as executable functions, translated from the
    sources, and proves what each part promises the next.

    ** The parts, their files and their sources

    - [Prelude] (this file): Rust's [Result], machine integers as [Z] with their
      ranges, bytes, big-endian conversion, UTF-8 strings, slices, [sort_by], loops
      and [BTreeMap]; the tactics and hint database the other files use.
    - [Cbor] (crates/arkforge-core/src/digest/cbor.rs): the canonical encoder and
      the strict decoder.  Encodings determine values up to map order, the decoder
      accepts exactly the encodings, and the two are inverse.
    - [Sha256] (digest/sha256.rs): the incremental hasher, equal to FIPS 180-4 on
      the concatenation of its inputs; digest text.
    - [Digest] (digest/mod.rs, ids.rs): domain separation, ordered digests, HMAC,
      identifiers, and [CborModel], the interface between a type and its digest:
      a well-formed encoding that determines the value up to a stated equivalence.
      What a digest binds is proved once against that interface.
    - [Fields]: reading named fields of a decoded map, and building encodable maps.
    - [Journal] (crates/arkforge-engine/src/journal.rs): records, their storage
      codec, the hash chain, append, adopt and verify.
    - [Durable] (durable.rs): the journal file, its frames, open with replay and
      torn-tail truncation, append, sync and poisoning.  The file system is the
      bytes of a file, a position and a synced prefix; each call's outcome is an
      input, and [World] interleaves operations with crashes.
    - [Authority] (crates/arkforge-core/src/authority.rs,
      crates/arkforge-authority-api/src/lib.rs): admission snapshots and their
      freshness, step permits, their codec, minting and verification.
    - [Job] (crates/arkforge-engine/src/lib.rs): the job state machine.
    - [Recovery] (recovery.rs): the permit ledger replayed from a journal and the
      crash table.
    - [StepEngine] (step.rs): admission, dispatch, evidence, receipt and checkpoint
      of one step over the durable journal, as a state and error monad over the
      journal, composed in the order of the code; [sys_step] interleaves them with
      failures, crashes and restarts.
    - [Effect], [FlashStep], [Projection] (crates/arkforge-core/src/effect.rs,
      step.rs, outcome.rs, projection.rs): effect sets, public steps, and
      [validate_projection], which checks the private plan against the public one.
    - [Superseding] (crates/arkforge-engine/src/superseding.rs): what unresolved
      permits may have done, reconciliation, and recovery eligibility, over the
      ledger of [Recovery] and the actions of [Projection].
    - [Wire] (crates/arkforge-ipc/src/wire.rs, framing.rs): the wire codec and the
      frame layer of the daemon's socket.
    - [Identity], [Plan], [Assessment] (crates/arkforge-core/src/identity.rs, plan.rs):
      what a sealed plan names, its digest body, [seal], and the report of a plan that
      is not sealed.
    - [PlanCodec] (crates/arkforge-engine/src/plan_codec.rs): [encode], [decode] and
      [validate] of a sealed plan with its private actions, one decoder per type;
      [PlanSound] shows that whatever is decoded is well-typed.
    - [Engine] (crates/arkforge-engine/src/lib.rs): the plan store over host storage,
      whose contract is the class [PlanStorageLaws], and the execution gate.
    - [PlanFiles] (cmd/arkforged/src/plan_storage.rs): that storage over a directory,
      as an error monad over a disk whose unsynced bytes and names a crash can take;
      it is an instance of the contract.
    - [Bits], [Huffman], [Inflate], [Gzip] (crates/arkforge-artifact/src/inflate.rs):
      the bit reader, the canonical codes, the streaming DEFLATE decoder and the gzip
      framing of the archive readers.  The decoder is written once over the class
      [BitSource]; the code is its instance for the bit reader and the fast tables, the
      reference its instance for lists of bits and code lengths.
    - [Text], [Source], [Tar], [TarSound] (tar.rs): the archive reader over any byte
      source; [Manifest], [Dayu200], [Dayu200Grammar] (manifest.rs, dayu200.rs): the
      facts of an archive and the parser that finds them.
    - [Cas], [CasLogic], [CasSound], [CasImport], [CasLease] (cas.rs): the
      content-addressed store as programs of file-system calls, interleaved call by call
      with other processes, failures and crashes; [CasLogic] is a weakest precondition
      over any reading of the calls.
    - [Yaml], [YamlRound], [Profile], [ProfileLoad], [ProfileRound], [ShippedProfile],
      [Verification] (crates/arkforge-core/src/yaml.rs, profile.rs, verification.rs):
      profile documents from text to validated facts and back, and verdicts on readback.
    - [Rockchip], [ProjectionAccepts], [RockchipPlan], [RockchipSafe], [RockchipSample]
      (crates/arkforge-provider/src/lib.rs, rockchip.rs): maturity, validation, the
      lowering of a restore into public steps and private actions, materialization, the
      stored actions, and the selection for reconciliation.
    - [Interaction]: programs of calls to their surroundings, with a state and errors
      threaded through; [run] plays one against an environment.  The files below are
      written in it.
    - [Rockusb], [RockusbSound], [GptSound] (rockusb_protocol.rs): the USB protocol and
      the device's partition table.
    - [Port], [Execute] (rockchip_execute/): the calls of the host, the [RockUsbPort]
      trait as a record of programs, staged images, sessions, and [execute_action].
    - [NativePort] (cmd/arkforged/src/dispatch.rs, crates/arkforge-usb/src/lib.rs): the
      port over a claimed USB interface.  [PortSound] states what a port promises as the
      class [PortLaws], over a device that obeys the messages sent to it; [NativeSound]
      is its instance for the native port.
    - [Dispatch] (dispatch.rs): the dispatcher with its sessions, staging, runs,
      reconciliation and release.  [ExecuteSound], [DispatchSound] and [DispatchSafe]
      prove it against [PortLaws]; [DispatchSample] is a host and device to try.
    - [Deliver], [DeliverSample] (jobs/parts/helpers_01_finish_queued_cancellation.rs):
      the actions of a step, and the way of a restore from the provider's plan through
      the dispatcher to the medium.

    ** What the theorems show

    - Safety of execution: over every history of operations, failures and restarts a
      permit is dispatched at most once, an admitted permit is never admitted again,
      and a receipt settles its permit ([StepEngine], on [Recovery]'s
      characterisation of the ledger and [Durable]'s acknowledged records).
    - Safety of the device: over every history of a dispatcher, whatever the host
      answers, only sectors of allowed partitions change, where both the profile and a
      table the port read in that history have them; a report of success, and one of no
      effect for a step that writes last, are true; reconciling changes nothing and finds
      only what is there ([DispatchSafe], from [PortLaws] through [ExecuteSound]).
    - From plan to medium: an executable plan writes exactly the selected targets, behind
      a gate of four conditions that leaves the profile's own execution blockers out
      ([RockchipSample] shows one it lets through), and always projects ([RockchipSafe]);
      the writes of a full restore are accepted by the dispatcher's reading of its plan, and
      what is reported as restored is the manifest's member, on the medium at the
      profile's sector ([Deliver]).
    - The wire: a write puts exactly its padded data where it was asked to, a read is
      exact, looking does not write ([RockusbSound]); a device's table is a true account
      of the array it was read from, with no sector in two partitions ([GptSound]).
    - Durability: what an append acknowledged survives every crash and reopening; any
      prefix of a file that keeps its header reopens as the records wholly inside it
      ([Durable]).
    - Integrity: journal heads, permits, effect sets and steps are bound by their
      digests or tags, each theorem naming the two strings SHA-256 would have to
      collide on; no collision resistance is assumed globally.
    - Authorisation: [verify_permit] is characterised exactly, and so are its
      refusals ([Authority]).
    - Projection: an accepted private plan does nothing its public steps and effect
      set do not declare, for the steps that have to declare effects, and every
      action is covered by the digests ([Projection]).  A destructive action behind
      a step of another kind is accepted; [destructive_probe_is_accepted] shows it.
    - Recovery: the possible effects are the conservative union, and an eligible
      recovery overwrites every one of them ([Superseding]).
    - Sealed plans: the digest binds every field, the storage bytes round-trip,
      what is decoded is a valid, well-typed sealed plan ([PlanCodec], [PlanSound]);
      the store serves exactly what was asked for ([Engine]), and, over the files, an
      acknowledged plan survives every crash, unless it was acknowledged over what an
      earlier failed insertion had left unsynced ([PlanFiles], through the contract).
    - Archive reading: however its input is fragmented and whatever the sizes of the
      reads, the streaming decoder gives out what the reference does and then its error
      ([Inflate]); a gzip stream ends only when the bytes behind it are its CRC-32 and its
      length and nothing else ([Gzip]).
      Kraft's inequality decides which codes are accepted ([Huffman]), the bit buffer is
      the bits of the source ([Bits]), and memory is bounded however much is inflated.
      An accepted archive is metadata, headers, bodies and an end marker and nothing
      else, its members have the paths and sizes these give and hashed bodies, reading it
      always ends, and what the builder writes is read back ([TarSound]); an accepted
      manifest is a true account of its archive ([Dayu200]).
    - The store: what is published under a digest has it, through any interleaving,
      failure and crash, while no name of a staged file is used twice ([CasSound]); an
      import publishes exactly what it read, and on a machine that works it succeeds or is
      refused for a true reason ([CasImport]); leases protect from a collection that runs
      alone on such a machine, and what takes objects away or mixes them up otherwise is
      shown ([CasLease]).
    - Profiles: what loads is valid, well-formed and the digest it pins
      ([ProfileLoad]); documents and trees round-trip ([ProfileRound], [YamlRound]).
    - Codecs: round trips, exact acceptance, totality on arbitrary input and
      independence of stream fragmentation ([Cbor], [Authority], [Journal], [Wire]).

    ** Conventions

    Integers are [Z] with [u8], [u32], [u64] and [i64] ranges as predicates, and
    wrap-around written with [wrap].  A Rocq [string] holds UTF-8 bytes.  Fuel occurs
    where the code recurses on input: [Cbor.read_value] and [Yaml] count the levels the
    code's own depth limit leaves; [Durable.open] and [Wire.read_message] take the
    length of the input, [observe_archive] more than the length of the archive, and
    [Inflate.fuel_for] two rounds for every bit left and four more; each is proved never
    to run out.  [Wire]'s varint loops take the number of rounds a [u64] allows; the
    loops that hash or copy a file take [2 ^ 64], which a byte count in a [u64] cannot
    exceed; the loop that fills a transfer buffer of [2 ^ 23] bytes takes [2 ^ 24]; and
    the loops over chunks of a transfer take the number of chunks it has.

    A device is a function from sectors to their bytes, with the address of the write it
    waits for.  It obeys whole messages in the order they are sent; claiming the
    interface starts the dialogue over; what a message that was not acknowledged did is
    counted as done.  A host may answer anything its types allow.  A theorem on what is
    read back says so where it needs a device that serves one medium.

    ** Not modelled

    Display texts (parameters where they are hashed), serialisation for presentation,
    threads and processes, and operating-system calls other than those named above.  In
    detail, with the reason:
    - the messages over the modelled wire codec (arkforge-ipc/src/messages): one encoder
      and decoder per message, without decisions of their own;
    - the job registry, service and rescue of the daemon (cmd/arkforged/src/jobs,
      service, rescue): threads and request handling around the modelled engine and
      dispatcher; of them [Deliver] has the choice of a step's actions;
    - staging.rs and pac.rs: the extraction of members is one call of the host in
      [Dispatch], which checks what it reports; a half-built cache is cleared away by one
      call whose answer nobody reads; PAC containers serve the Unisoc provider, which
      materializes nothing executable and is left out with them;
    - the hashing child process of macOS and file fingerprints of hosts that are not
      Unix; a hashing worker is modelled as reading when it is started;
    - transports and transcripts, USB backends, platform services, the client library,
      the ArkDeck adapter, the standalone authority, the command line, the conformance
      runner and the fuzz targets: operating-system I/O, presentation, or glue around
      the parts above.

    The engine is modelled as the single writer of its journal and its plan directory,
    which is how the daemon runs it. *)

(** ** Shared vocabulary

    Everything below is a part of the Rust language or its standard library; the
    components of the program are in the files that require this one. *)

From stdpp Require Export base numbers list sets strings sorting.
From Stdlib Require Export ZArith Lia.
Open Scope Z_scope.

(** ** Results *)

(** [Result<A, E>]; the error type comes first so that [result E] is the monad. *)
Inductive result (E A : Type) : Type :=
| Ok (a : A)
| Err (e : E).
Arguments Ok {E A} a.
Arguments Err {E A} e.

Declare Scope ark_scope.
Delimit Scope ark_scope with ark.
Open Scope ark_scope.

(** The [?] operator. *)
Notation "'let?' p ':=' m 'in' k" :=
  (match m with Ok p => k | Err e => Err e end)
  (at level 10, p pattern, m at level 200, k at level 200,
   format "'[v' 'let?'  p  ':='  m  'in' '/' k ']'") : ark_scope.

(** [Result::map_err]. *)
Definition map_err {E F A} (f : E -> F) (r : result E A) : result F A :=
  match r with Ok a => Ok a | Err e => Err (f e) end.

(** [Option::ok_or]. *)
Definition ok_or {E A} (o : option A) (e : E) : result E A :=
  match o with Some a => Ok a | None => Err e end.

Definition is_ok {E A} (r : result E A) : bool :=
  match r with Ok _ => true | Err _ => false end.

#[global] Instance result_eq_dec {E A} `{EqDecision E, EqDecision A} :
  EqDecision (result E A).
Proof. solve_decision. Defined.

(** Collecting an iterator of results ([collect::<Result<Vec<_>, _>>]). *)
Fixpoint collect_results {E A} (l : list (result E A)) : result E (list A) :=
  match l with
  | [] => Ok []
  | r :: l => let? a := r in let? rest := collect_results l in Ok (a :: rest)
  end.

(** ** Tactics *)

Create HintDb ark.
Create Rewrite HintDb ark.

(** Case analysis on every [match] and [if] a hypothesis scrutinises, keeping
    the equation. *)
Ltac case_hyp H :=
  repeat match type of H with
  | context [match ?x with _ => _ end] =>
      lazymatch x with
      | context [match _ with _ => _ end] => fail
      | _ => destruct x eqn:?; try discriminate H
      end
  end.

Ltac case_goal :=
  repeat match goal with
  | |- context [match ?x with _ => _ end] =>
      lazymatch x with
      | context [match _ with _ => _ end] => fail
      | _ => destruct x eqn:?
      end
  end.

(** One step of the same analysis. *)
Ltac case_hyp1 H :=
  match type of H with
  | context [match ?x with _ => _ end] =>
      lazymatch x with
      | context [match _ with _ => _ end] => fail
      | _ => destruct x eqn:?; try discriminate H
      end
  end.

Ltac ok_inv H := injection H; clear H; intros; subst.

(** Turn boolean comparisons in the context into propositions. *)
Ltac breflect :=
  repeat match goal with
  | H : andb _ _ = true |- _ => apply andb_true_iff in H as [? ?]
  | H : orb _ _ = false |- _ => apply orb_false_iff in H as [? ?]
  | H : negb _ = true |- _ => apply negb_true_iff in H
  | H : negb _ = false |- _ => apply negb_false_iff in H
  | H : (_ <? _) = true |- _ => apply Z.ltb_lt in H
  | H : (_ <? _) = false |- _ => apply Z.ltb_ge in H
  | H : (_ <=? _) = true |- _ => apply Z.leb_le in H
  | H : (_ <=? _) = false |- _ => apply Z.leb_gt in H
  | H : (_ =? _) = true |- _ => apply Z.eqb_eq in H
  | H : (_ =? _) = false |- _ => apply Z.eqb_neq in H
  | H : bool_decide _ = true |- _ => apply bool_decide_eq_true in H
  | H : bool_decide _ = false |- _ => apply bool_decide_eq_false in H
  end.

(** ** Machine integers *)

Definition U8_MAX : Z := 255.
Definition U16_MAX : Z := 65535.
Definition U32_MAX : Z := 4294967295.
Definition U64_MAX : Z := 18446744073709551615.
Definition I64_MIN : Z := -9223372036854775808.
Definition I64_MAX : Z := 9223372036854775807.

Definition u8 (z : Z) : Prop := 0 <= z <= U8_MAX.
Definition u32 (z : Z) : Prop := 0 <= z <= U32_MAX.
Definition u64 (z : Z) : Prop := 0 <= z <= U64_MAX.
Definition i64 (z : Z) : Prop := I64_MIN <= z <= I64_MAX.

(** Two's-complement wrap-around ([wrapping_add] and the [as] casts to an
    unsigned type). *)
Definition wrap (w : Z) (z : Z) : Z := z mod 2 ^ w.

(** [u64::checked_add] (and [usize::checked_add] on the 64-bit hosts the
    daemon supports). *)
Definition checked_add (a b : Z) : option Z :=
  if a + b <=? U64_MAX then Some (a + b) else None.

(** [u64::saturating_sub]. *)
Definition saturating_sub (a b : Z) : Z := Z.max 0 (a - b).

Ltac ints := unfold u8, u32, u64, i64, U8_MAX, U16_MAX, U32_MAX, U64_MAX, I64_MIN, I64_MAX in *.
Ltac zlia := ints; lia.

(** [slice.len() as u64]. *)
Definition zlen {A} (l : list A) : Z := Z.of_nat (length l).

Lemma zlen_nonneg {A} (l : list A) : 0 <= zlen l.
Proof. unfold zlen. lia. Qed.

Lemma zlen_app {A} (l k : list A) : zlen (l ++ k) = zlen l + zlen k.
Proof. unfold zlen. rewrite length_app. lia. Qed.

Lemma zlen_cons {A} (x : A) (l : list A) : zlen (x :: l) = 1 + zlen l.
Proof. unfold zlen. simpl. lia. Qed.

Lemma zlen_nil {A} : zlen (@nil A) = 0.
Proof. reflexivity. Qed.

Lemma zlen_Forall2 {A B} (R : A -> B -> Prop) l k : Forall2 R l k -> zlen l = zlen k.
Proof. unfold zlen. intros H. by rewrite (Forall2_length _ _ _ H). Qed.

Lemma zlen_Permutation {A} (l k : list A) : l ≡ₚ k -> zlen l = zlen k.
Proof. unfold zlen. intros H. by rewrite (Permutation_length H). Qed.

#[export] Hint Rewrite @zlen_app @zlen_cons @zlen_nil : ark.
#[export] Hint Resolve zlen_nonneg : ark.

(** ** Bytes *)

(** [Vec<u8>] and [&[u8]]: lists of integers in [0, 255]. *)
Abbreviation bytes := (list Z).
Definition bytes_ok (l : bytes) : Prop := Forall u8 l.

Lemma bytes_ok_app l k : bytes_ok (l ++ k) <-> bytes_ok l /\ bytes_ok k.
Proof. apply Forall_app. Qed.

Lemma bytes_ok_nil : bytes_ok [].
Proof. constructor. Qed.

Lemma bytes_ok_cons b l : u8 b -> bytes_ok l -> bytes_ok (b :: l).
Proof. by constructor. Qed.

#[export] Hint Resolve bytes_ok_nil bytes_ok_cons : ark.

(** [uN::to_be_bytes] and [uN::from_be_bytes] for N = 8 n. *)
Fixpoint to_be_bytes (n : nat) (v : Z) : bytes :=
  match n with
  | O => []
  | S n => to_be_bytes n (v / 256) ++ [v mod 256]
  end.

Definition from_be_bytes (l : bytes) : Z := fold_left (fun acc b => acc * 256 + b) l 0.

Lemma from_be_snoc l b : from_be_bytes (l ++ [b]) = from_be_bytes l * 256 + b.
Proof. unfold from_be_bytes. by rewrite fold_left_app. Qed.

Lemma to_be_length n v : length (to_be_bytes n v) = n.
Proof. revert v; induction n; intros; simpl; [done|]. rewrite length_app, IHn. simpl; lia. Qed.

Lemma to_be_ok n v : bytes_ok (to_be_bytes n v).
Proof.
  revert v; induction n; intros; simpl; [constructor|].
  apply bytes_ok_app; split; [done|]. repeat constructor;
  pose proof (Z.mod_pos_bound v 256); zlia.
Qed.

Lemma from_to_be n v : from_be_bytes (to_be_bytes n v) = v mod 256 ^ Z.of_nat n.
Proof.
  revert v; induction n; intros v.
  - simpl. by rewrite Z.mod_1_r.
  - cbn [to_be_bytes]. rewrite from_be_snoc, IHn, Nat2Z.inj_succ, Z.pow_succ_r by lia.
    rewrite Z.rem_mul_r by lia. lia.
Qed.

Lemma from_be_bound l : bytes_ok l -> 0 <= from_be_bytes l < 256 ^ zlen l.
Proof.
  induction l as [|b l IH] using rev_ind; intros H; [cbv; split; congruence|].
  apply bytes_ok_app in H as [Hl Hb]. inversion Hb; subst.
  rewrite from_be_snoc. pose proof (zlen_nonneg l).
  replace (zlen (l ++ [b])) with (Z.succ (zlen l)) by (autorewrite with ark; lia).
  rewrite Z.pow_succ_r by done. specialize (IH Hl). ints. nia.
Qed.

Lemma to_from_be l : bytes_ok l -> to_be_bytes (length l) (from_be_bytes l) = l.
Proof.
  induction l as [|b l IH] using rev_ind; intros H; [done|].
  apply bytes_ok_app in H as [Hl Hb]. inversion Hb; subst.
  rewrite length_app, Nat.add_comm. cbn [length Nat.add to_be_bytes].
  rewrite from_be_snoc. f_equal.
  - rewrite Z.div_add_l by lia. rewrite Z.div_small by zlia. rewrite Z.add_0_r. auto.
  - f_equal. rewrite Z.add_comm, Z.mod_add by lia. apply Z.mod_small. zlia.
Qed.

Lemma to_from_be_n n l : bytes_ok l -> length l = n -> to_be_bytes n (from_be_bytes l) = l.
Proof. intros ? <-. by apply to_from_be. Qed.

#[export] Hint Resolve to_be_ok : ark.

(** Byte-wise lexicographic comparison: [Ord] for [Vec<u8>] and [str]. *)
Fixpoint bytes_compare (l k : bytes) : comparison :=
  match l, k with
  | [], [] => Eq
  | [], _ :: _ => Lt
  | _ :: _, [] => Gt
  | a :: l, b :: k =>
      match a ?= b with
      | Eq => bytes_compare l k
      | c => c
      end
  end.

Definition bytes_lt (l k : bytes) : Prop := bytes_compare l k = Lt.
Definition bytes_leb (l k : bytes) : bool :=
  match bytes_compare l k with Gt => false | _ => true end.

Lemma bytes_compare_eq l k : bytes_compare l k = Eq <-> l = k.
Proof.
  revert k; induction l as [|a l IH]; intros [|b k]; simpl; try (split; congruence).
  destruct (Z.compare_spec a b).
  - subst. rewrite IH. split; congruence.
  - split; [congruence|]. intros [=]; subst; lia.
  - split; [congruence|]. intros [=]; subst; lia.
Qed.

Lemma bytes_compare_antisym l k : bytes_compare k l = CompOpp (bytes_compare l k).
Proof.
  revert k; induction l as [|a l IH]; intros [|b k]; simpl; try done.
  rewrite (Z.compare_antisym a b). destruct (a ?= b); simpl; auto.
Qed.

Lemma bytes_lt_trans l k m : bytes_lt l k -> bytes_lt k m -> bytes_lt l m.
Proof.
  unfold bytes_lt. revert k m; induction l as [|a l IH]; intros [|b k] [|c m]; simpl; try done.
  destruct (Z.compare_spec a b), (Z.compare_spec b c), (Z.compare_spec a c);
    subst; try done; try lia; eauto.
Qed.

Lemma bytes_lt_irrefl l : ~ bytes_lt l l.
Proof. unfold bytes_lt. by rewrite (proj2 (bytes_compare_eq l l) eq_refl). Qed.

Lemma bytes_leb_total l k : bytes_leb l k = true \/ bytes_leb k l = true.
Proof.
  unfold bytes_leb. rewrite (bytes_compare_antisym l k).
  destruct (bytes_compare l k); simpl; auto.
Qed.

Lemma bytes_leb_lt_eq l k : bytes_leb l k = true <-> bytes_lt l k \/ l = k.
Proof.
  unfold bytes_leb, bytes_lt. rewrite <- bytes_compare_eq.
  destruct (bytes_compare l k); intuition congruence.
Qed.

Lemma bytes_leb_trans l k m : bytes_leb l k = true -> bytes_leb k m = true -> bytes_leb l m = true.
Proof.
  rewrite !bytes_leb_lt_eq. intros [?| ->] [?| ->]; eauto using bytes_lt_trans.
Qed.

Lemma bytes_leb_antisym l k : bytes_leb l k = true -> bytes_leb k l = true -> l = k.
Proof.
  rewrite !bytes_leb_lt_eq. intros [?| ->] [?|?]; auto.
  exfalso. eapply bytes_lt_irrefl, bytes_lt_trans; eauto.
Qed.

(** ** Slices *)

(** [slice.get(from..to)] with [from <= to]: [None] when it overruns. *)
Definition slice_get {A} (l : list A) (start stop : Z) : option (list A) :=
  if stop <=? zlen l
  then Some (take (Z.to_nat (stop - start)) (drop (Z.to_nat start) l))
  else None.

Lemma slice_get_app {A} (pre mid post : list A) start stop :
  start = zlen pre -> stop = zlen pre + zlen mid ->
  slice_get (pre ++ mid ++ post) start stop = Some mid.
Proof.
  intros -> ->. unfold slice_get.
  pose proof (zlen_nonneg post).
  destruct (Z.leb_spec (zlen pre + zlen mid) (zlen (pre ++ mid ++ post)));
    [|autorewrite with ark in *; lia].
  f_equal. unfold zlen.
  rewrite Nat2Z.id, drop_app_length.
  replace (Z.to_nat _) with (length mid) by lia. apply take_app_length.
Qed.

Lemma slice_get_Some {A} (pre rest s : list A) start stop :
  start = zlen pre -> start <= stop ->
  slice_get (pre ++ rest) start stop = Some s ->
  exists post, rest = s ++ post /\ stop = start + zlen s.
Proof.
  intros -> Hle. unfold slice_get.
  destruct (Z.leb_spec stop (zlen (pre ++ rest))); [|done]. intros [= <-].
  unfold zlen in *. rewrite Nat2Z.id, drop_app_length.
  rewrite length_app in *.
  exists (drop (Z.to_nat (stop - Z.of_nat (length pre))) rest).
  rewrite take_drop, length_take. split; [done|lia].
Qed.

(** ** Stable sorting *)

Section StableSort.
Context {A : Type} (leb : A -> A -> bool).
Hypothesis leb_total : forall x y, leb x y = true \/ leb y x = true.
Hypothesis leb_trans : forall x y z, leb x y = true -> leb y z = true -> leb x z = true.

(** [slice::sort_by] is a stable sort, so its result is determined by the
    comparison: equal elements keep their order. *)
Fixpoint sort_insert (x : A) (l : list A) : list A :=
  match l with
  | [] => [x]
  | y :: l' => if leb x y then x :: y :: l' else y :: sort_insert x l'
  end.

Definition sort_by (l : list A) : list A := foldr sort_insert [] l.

Lemma sort_insert_perm x l : sort_insert x l ≡ₚ x :: l.
Proof.
  induction l as [|y l IH]; simpl; [done|]. destruct (leb x y); [done|].
  rewrite IH. constructor.
Qed.

Lemma sort_by_perm l : sort_by l ≡ₚ l.
Proof. induction l as [|x l IH]; simpl; [done|]. by rewrite sort_insert_perm, IH. Qed.

Lemma sort_insert_sorted x l :
  StronglySorted (fun a b => leb a b = true) l ->
  StronglySorted (fun a b => leb a b = true) (sort_insert x l).
Proof using leb_total leb_trans.
  induction 1 as [|y l Hs IH Hall]; simpl; [repeat constructor|].
  destruct (leb x y) eqn:E.
  - constructor; [by constructor|]. constructor; [done|].
    eapply Forall_impl; [exact Hall|]. eauto.
  - constructor; [done|]. rewrite sort_insert_perm. constructor; [|done].
    destruct (leb_total x y); congruence.
Qed.

Lemma sort_by_sorted l : StronglySorted (fun a b => leb a b = true) (sort_by l).
Proof using leb_total leb_trans.
  induction l; simpl; [constructor|]. by apply sort_insert_sorted.
Qed.

(** A sorted list is left as it is. *)
Lemma sort_by_id l : StronglySorted (fun a b => leb a b = true) l -> sort_by l = l.
Proof.
  induction 1 as [|x l Hs IH Hall]; simpl; [done|]. rewrite IH.
  destruct Hall as [|y l Hy _]; simpl; [done|]. by rewrite Hy.
Qed.
End StableSort.

(** Two lists sorted strictly by the same order with the same elements are equal. *)
Lemma strict_sorted_unique {A} (R : A -> A -> Prop) `{!Irreflexive R, !Transitive R} l k :
  StronglySorted R l -> StronglySorted R k -> l ≡ₚ k -> l = k.
Proof.
  intros Hl. revert k. induction Hl as [|x l Hl IH Hx]; intros k Hk Hp.
  - by apply Permutation_nil_l in Hp.
  - destruct Hk as [|y k Hk Hy]; [by apply Permutation_nil_r in Hp|].
    assert (x = y) as ->.
    { assert (x ∈ y :: k) as Hin by (rewrite <- Hp; left).
      assert (y ∈ x :: l) as Hin' by (rewrite Hp; left).
      apply elem_of_cons in Hin as [?|Hin], Hin' as [?|Hin']; auto.
      rewrite Forall_forall in Hx, Hy.
      exfalso. eapply (irreflexivity R x). etrans; [by apply Hx|by apply Hy]. }
    f_equal. apply IH; [done|]. by eapply Permutation_cons_inv.
Qed.

(** ** Bounded loops *)

Section Loop.
Context {E S : Type}.

(** [for _ in 0..n { body }] with a body that may return early with an error.
    The recursion is on the binary digits of the bound, so a bound read from
    the input can be any [u64] and the loop still stops at its first error. *)
Fixpoint for_pos (p : positive) (body : S -> result E S) (s : S) : result E S :=
  match p with
  | xH => body s
  | xO p => let? s1 := for_pos p body s in for_pos p body s1
  | xI p => let? s0 := body s in let? s1 := for_pos p body s0 in for_pos p body s1
  end.

Definition for_range (n : Z) (body : S -> result E S) (s : S) : result E S :=
  match n with Zpos p => for_pos p body s | _ => Ok s end.

(** The reference loop, on a unary counter. *)
Fixpoint for_nat (n : nat) (body : S -> result E S) (s : S) : result E S :=
  match n with
  | O => Ok s
  | Datatypes.S n => let? s1 := body s in for_nat n body s1
  end.

Lemma for_nat_add n m body s :
  for_nat (n + m) body s = let? s1 := for_nat n body s in for_nat m body s1.
Proof.
  revert s; induction n; intros s; simpl; [done|]. destruct (body s); auto.
Qed.

Lemma for_pos_nat p body s : for_pos p body s = for_nat (Pos.to_nat p) body s.
Proof.
  revert s; induction p; intros s; cbn [for_pos].
  - rewrite Pos2Nat.inj_xI. simpl. destruct (body s) as [s1|]; [|done].
    rewrite Nat.add_0_r, for_nat_add, IHp. destruct (for_nat _ body s1); auto.
  - rewrite Pos2Nat.inj_xO. simpl. rewrite Nat.add_0_r, for_nat_add, IHp.
    destruct (for_nat _ body s); auto.
  - simpl. by destruct (body s).
Qed.

Lemma for_range_nat n body s : 0 <= n -> for_range n body s = for_nat (Z.to_nat n) body s.
Proof. destruct n; simpl; [done| |lia]. intros. apply for_pos_nat. Qed.
End Loop.

(** ** Strings *)

(** [str] and [String] are UTF-8 byte sequences; a character of a Rocq
    [string] is one byte of the sequence. *)
Definition bytes_of_string (s : string) : bytes :=
  map (fun a => Z.of_N (Ascii.N_of_ascii a)) (String.list_ascii_of_string s).
Definition string_of_bytes (l : bytes) : string :=
  String.string_of_list_ascii (map (fun z => Ascii.ascii_of_N (Z.to_N z)) l).

(** [str::len], in bytes. *)
Definition str_len (s : string) : Z := zlen (bytes_of_string s).

Lemma bytes_of_string_app s t : bytes_of_string (s +:+ t) = bytes_of_string s ++ bytes_of_string t.
Proof.
  unfold bytes_of_string. induction s as [|a s IH]; [done|].
  change (String.String a s +:+ t) with (String.String a (s +:+ t)). cbn. f_equal. apply IH.
Qed.

Lemma string_of_bytes_of_string s : string_of_bytes (bytes_of_string s) = s.
Proof.
  unfold string_of_bytes, bytes_of_string. rewrite map_map.
  rewrite <- (String.string_of_list_ascii_of_string s) at 2. f_equal.
  rewrite <- (map_id (String.list_ascii_of_string s)) at 2. apply map_ext.
  intros a. rewrite N2Z.id. apply Ascii.ascii_N_embedding.
Qed.

Lemma bytes_of_string_inj s t : bytes_of_string s = bytes_of_string t -> s = t.
Proof. intros H. by rewrite <- (string_of_bytes_of_string s), H, string_of_bytes_of_string. Qed.

Lemma bytes_of_string_ok s : bytes_ok (bytes_of_string s).
Proof.
  unfold bytes_ok, bytes_of_string. apply Forall_map, Forall_true. intros a.
  pose proof (Ascii.N_ascii_bounded a). zlia.
Qed.

Lemma bytes_of_string_of_bytes l : bytes_ok l -> bytes_of_string (string_of_bytes l) = l.
Proof.
  unfold string_of_bytes, bytes_of_string. intros H.
  rewrite String.list_ascii_of_string_of_list_ascii, map_map.
  rewrite <- (map_id l) at 2. apply map_ext_in. intros a Ha.
  unfold bytes_ok in H. rewrite Forall_forall in H. specialize (H a (proj2 (list_elem_of_In _ _) Ha)).
  rewrite Ascii.N_ascii_embedding by zlia. zlia.
Qed.

#[export] Hint Resolve bytes_of_string_ok : ark.

Definition in_range (lo hi z : Z) : bool := (lo <=? z) && (z <=? hi).

(** [core::str::from_utf8]'s validation (Unicode table 3-7). *)
Fixpoint utf8_valid (l : bytes) : bool :=
  let cont := in_range 128 191 in
  match l with
  | [] => true
  | b0 :: l1 =>
      if b0 <? 128 then utf8_valid l1
      else match l1 with
      | [] => false
      | b1 :: l2 =>
          if in_range 194 223 b0 then cont b1 && utf8_valid l2
          else match l2 with
          | [] => false
          | b2 :: l3 =>
              let three :=
                ((b0 =? 224) && in_range 160 191 b1)
                || (in_range 225 236 b0 && cont b1)
                || ((b0 =? 237) && in_range 128 159 b1)
                || (in_range 238 239 b0 && cont b1) in
              if three then cont b2 && utf8_valid l3
              else match l3 with
              | [] => false
              | b3 :: l4 =>
                  (((b0 =? 240) && in_range 144 191 b1)
                   || (in_range 241 243 b0 && cont b1)
                   || ((b0 =? 244) && in_range 128 143 b1))
                  && cont b2 && cont b3 && utf8_valid l4
              end
          end
      end
  end.

(** The invariant the type [String] carries. *)
Definition str_ok (s : string) : Prop := utf8_valid (bytes_of_string s) = true.

#[global] Instance str_ok_dec s : Decision (str_ok s).
Proof. unfold str_ok. apply _. Defined.

(** [std::str::from_utf8]. *)
Definition from_utf8 (l : bytes) : option string :=
  if utf8_valid l then Some (string_of_bytes l) else None.

Lemma from_utf8_of_string s : str_ok s -> from_utf8 (bytes_of_string s) = Some s.
Proof. unfold from_utf8, str_ok. intros ->. by rewrite string_of_bytes_of_string. Qed.

Lemma from_utf8_Some l s :
  bytes_ok l -> from_utf8 l = Some s -> bytes_of_string s = l /\ str_ok s.
Proof.
  unfold from_utf8, str_ok. intros Hl. destruct (utf8_valid l) eqn:E; [|done].
  intros [= <-]. by rewrite bytes_of_string_of_bytes.
Qed.

(** An all-ASCII string is valid UTF-8. *)
Lemma utf8_ascii l : Forall (fun b => b < 128) l -> utf8_valid l = true.
Proof.
  induction 1 as [|b l Hb _ IH]; [done|]. cbn [utf8_valid].
  by rewrite (proj2 (Z.ltb_lt b 128) Hb).
Qed.

Definition str_compare (s t : string) : comparison :=
  bytes_compare (bytes_of_string s) (bytes_of_string t).

Lemma str_compare_eq s t : str_compare s t = Eq <-> s = t.
Proof.
  unfold str_compare. rewrite bytes_compare_eq. split; [apply bytes_of_string_inj|congruence].
Qed.

Definition str_lt (s t : string) : Prop := str_compare s t = Lt.

(** ** [BTreeMap<String, V>] *)

Section BTreeMap.
Context {V : Type}.

(** The entries in ascending key order, which is the iteration order. *)
Definition btree : Type := list (string * V).

Fixpoint bt_get (k : string) (m : btree) : option V :=
  match m with
  | [] => None
  | (k', v) :: m' =>
      match str_compare k k' with
      | Eq => Some v
      | Lt => None
      | Gt => bt_get k m'
      end
  end.

Fixpoint bt_insert (k : string) (v : V) (m : btree) : btree :=
  match m with
  | [] => [(k, v)]
  | (k', v') :: m' =>
      match str_compare k k' with
      | Eq => (k, v) :: m'
      | Lt => (k, v) :: (k', v') :: m'
      | Gt => (k', v') :: bt_insert k v m'
      end
  end.

Definition bt_ok (m : btree) : Prop := StronglySorted str_lt (map fst m).

Lemma bt_get_insert_eq k v m : bt_get k (bt_insert k v m) = Some v.
Proof.
  assert (str_compare k k = Eq) as Hk by by apply str_compare_eq.
  induction m as [|[k' v'] m IH]; simpl; [by rewrite Hk|].
  destruct (str_compare k k') eqn:E; simpl; rewrite ?Hk, ?E; auto.
Qed.

Lemma str_lt_Gt s t : str_compare s t = Gt <-> str_lt t s.
Proof.
  unfold str_lt, str_compare. rewrite (bytes_compare_antisym (bytes_of_string s)).
  destruct (bytes_compare _ _); simpl; intuition congruence.
Qed.

Lemma str_lt_trans s t u : str_lt s t -> str_lt t u -> str_lt s u.
Proof. apply bytes_lt_trans. Qed.

Lemma str_lt_irrefl s : ~ str_lt s s.
Proof. apply bytes_lt_irrefl. Qed.

Lemma bt_get_insert_ne k k' v m : k <> k' -> bt_get k' (bt_insert k v m) = bt_get k' m.
Proof.
  intros Hne. induction m as [|[k0 v0] m IH]; simpl.
  - destruct (str_compare k' k) eqn:E; try done.
    apply str_compare_eq in E. congruence.
  - destruct (str_compare k k0) eqn:E; simpl.
    + apply str_compare_eq in E. subst k0.
      destruct (str_compare k' k) eqn:E'; try done. apply str_compare_eq in E'. congruence.
    + destruct (str_compare k' k) eqn:E'.
      * apply str_compare_eq in E'. congruence.
      * assert (str_compare k' k0 = Lt) as ->; [|done].
        apply (str_lt_trans k' k k0); [exact E'|exact E].
      * done.
    + destruct (str_compare k' k0); auto.
Qed.

Lemma bt_insert_ok k v m : bt_ok m -> bt_ok (bt_insert k v m).
Proof.
  unfold bt_ok. induction m as [|[k' v'] m IH]; simpl; [repeat constructor|].
  intros Hs. inversion Hs as [|? ? Hs' Hall]; subst.
  destruct (str_compare k k') eqn:E; simpl.
  - apply str_compare_eq in E. subst. by constructor.
  - constructor; [by constructor|]. constructor; [done|].
    eapply Forall_impl; [exact Hall|]. intros x Hx. by eapply str_lt_trans.
  - constructor; [auto|]. apply str_lt_Gt in E.
    clear -E Hall. induction m as [|[k0 v0] m IH]; simpl; [by repeat constructor|].
    inversion Hall; subst. destruct (str_compare k k0) eqn:E'; simpl;
      repeat constructor; auto.
Qed.

Lemma bt_get_None_lt k m : Forall (str_lt k) (map fst m) -> bt_get k m = None.
Proof. destruct m as [|[k' v] m]; simpl; [done|]. inversion 1; subst. by rewrite H2. Qed.

Lemma bt_get_In k v m : bt_ok m -> bt_get k m = Some v <-> In (k, v) m.
Proof.
  unfold bt_ok. induction m as [|[k' v'] m IH]; simpl; [done|].
  intros Hs. inversion Hs as [|? ? Hs' Hall]; subst. specialize (IH Hs').
  rewrite Forall_forall in Hall.
  assert (forall w, In (k, w) m -> str_lt k' k) as Hin.
  { intros w Hw. apply Hall, list_elem_of_In, in_map_iff. by exists (k, w). }
  destruct (str_compare k k') eqn:E.
  - apply str_compare_eq in E. subst. split; [intros [= ->]; auto|].
    intros [[= ->]|Hw]; [done|]. by apply Hin, str_lt_irrefl in Hw.
  - split; [done|]. intros [[= -> ->]|Hw]; [by apply str_lt_irrefl in E|].
    apply Hin in Hw. exfalso. by eapply str_lt_irrefl, str_lt_trans.
  - rewrite IH. split; [auto|]. intros [[= -> ->]|]; [|done].
    by apply str_lt_Gt, str_lt_irrefl in E.
Qed.
End BTreeMap.
Arguments btree : clear implicits.

(** ** Bit fields *)

(** Setting the low [n] bits of a shifted value is addition. *)
Lemma lor_shiftl_add m a n :
  0 <= n -> 0 <= a < 2 ^ n -> Z.lor (Z.shiftl m n) a = m * 2 ^ n + a.
Proof.
  intros Hn Ha. rewrite <- Z.shiftl_mul_pow2 by done.
  assert (Z.land (Z.shiftl m n) a = 0) as Hl.
  { apply Z.bits_inj'. intros i Hi. rewrite Z.land_spec, Z.bits_0.
    destruct (Z.lt_ge_cases i n).
    - by rewrite Z.shiftl_spec_low.
    - rewrite <- (Z.mod_small a (2 ^ n)) by done.
      rewrite Z.mod_pow2_bits_high by lia. apply andb_false_r. }
  by rewrite <- Z.lxor_lor, Z.add_nocarry_lxor.
Qed.

Lemma wrap_small w z : 0 <= z < 2 ^ w -> wrap w z = z.
Proof. apply Z.mod_small. Qed.

Lemma wrap_range w z : 0 <= w -> 0 <= wrap w z < 2 ^ w.
Proof. intros. apply Z.mod_pos_bound. lia. Qed.
