(* ===== verification/Cbor.v ===== *)
(** * Deterministic CBOR (crates/arkforge-core/src/digest/cbor.rs)

    The value model, the canonical encoder and the strict decoder that carry
    every digest of the system.  [Cursor] keeps the whole input and a position,
    as the decoder does; [read_value] recurses on the levels of nesting that
    are left before [MAX_DEPTH] is exceeded. *)

From S2P Require Import Prelude.

(** ** Data *)

Inductive CborValue : Type :=
| Unsigned (value : Z)
| Negative (value : Z)
| Bytes (value : bytes)
| Text (value : string)
| Array (values : list CborValue)
| Map (entries : list (CborValue * CborValue))
| Bool (value : bool)
| Null.

Inductive CborError : Type :=
| ModelViolation (message : string)
| NegativeNotNegative (value : Z)
| DuplicateMapKey (key : bytes)
| Truncated
| NonCanonicalHead
| UnsupportedMajorType (major : Z)
| UnsupportedSimpleValue (value : Z)
| IndefiniteLength
| UnsortedMapKeys
| InvalidUtf8
| TrailingBytes (count : Z)
| DepthLimit.

#[global] Instance CborError_eq_dec : EqDecision CborError.
Proof. solve_decision. Defined.

(** [CborValue::integer]. *)
Definition integer (value : Z) : CborValue :=
  if value <? 0 then Negative value else Unsigned value.

(** [CborValue::map]: string-literal keys. *)
Definition map_of (entries : list (string * CborValue)) : CborValue :=
  Map (map (fun '(key, value) => (Text key, value)) entries).

(** ** Encoder *)

Definition encode_head (out : bytes) (major argument : Z) : bytes :=
  let major := wrap 8 (Z.shiftl major 5) in
  if argument <? 24 then out ++ [Z.lor major (wrap 8 argument)]
  else if argument <=? U8_MAX then (out ++ [Z.lor major 24]) ++ [wrap 8 argument]
  else if argument <=? U16_MAX then (out ++ [Z.lor major 25]) ++ to_be_bytes 2 (wrap 16 argument)
  else if argument <=? U32_MAX then (out ++ [Z.lor major 26]) ++ to_be_bytes 4 (wrap 32 argument)
  else (out ++ [Z.lor major 27]) ++ to_be_bytes 8 argument.

(** The duplicate scan over the sorted keys, [seen] being the [BTreeSet]. *)
Fixpoint check_duplicates (seen : list bytes) (keys : list bytes) : result CborError unit :=
  match keys with
  | [] => Ok tt
  | key :: keys =>
      if bool_decide (key ∈ seen) then Err (DuplicateMapKey key)
      else check_duplicates (key :: seen) keys
  end.

Definition entry_leb (left right : bytes * bytes) : bool := bytes_leb left.1 right.1.

Fixpoint encode_into (v : CborValue) (out : bytes) {struct v} : result CborError bytes :=
  match v with
  | Unsigned value => Ok (encode_head out 0 value)
  | Negative value =>
      if 0 <=? value then Err (NegativeNotNegative value)
      else Ok (encode_head out 1 (wrap 64 (- value - 1)))
  | Bytes value => Ok (encode_head out 2 (zlen value) ++ value)
  | Text value => Ok (encode_head out 3 (str_len value) ++ bytes_of_string value)
  | Array values =>
      (fix go (vs : list CborValue) (out : bytes) : result CborError bytes :=
         match vs with
         | [] => Ok out
         | value :: vs => let? out := encode_into value out in go vs out
         end) values (encode_head out 4 (zlen values))
  | Map entries =>
      let? encoded :=
        (fix go (es : list (CborValue * CborValue)) : result CborError (list (bytes * bytes)) :=
           match es with
           | [] => Ok []
           | (key, value) :: es =>
               let? key_bytes := encode_into key [] in
               let? value_bytes := encode_into value [] in
               let? rest := go es in
               Ok ((key_bytes, value_bytes) :: rest)
           end) entries in
      let encoded := sort_by entry_leb encoded in
      let? _ := check_duplicates [] (map fst encoded) in
      Ok (foldl (fun out '(key_bytes, value_bytes) => (out ++ key_bytes) ++ value_bytes)
                (encode_head out 5 (zlen encoded)) encoded)
  | Bool value => Ok (out ++ [Z.lor 224 (if value then 21 else 20)])
  | Null => Ok (out ++ [246])
  end.

Definition to_canonical_bytes (v : CborValue) : result CborError bytes := encode_into v [].

(** ** Decoder *)

Definition MAX_DEPTH : nat := 64.

Record Cursor := mkCursor { input : bytes; position : Z }.

Definition take_bytes (c : Cursor) (count : Z) : result CborError (bytes * Cursor) :=
  let? stop := ok_or (checked_add (position c) count) Truncated in
  match slice_get (input c) (position c) stop with
  | None => Err Truncated
  | Some slice => Ok (slice, mkCursor (input c) stop)
  end.

(** [raw[i]] on a slice whose length the caller fixed. *)
Definition at_index (raw : bytes) (i : nat) : Z := nth i raw 0.

Definition read_head (c : Cursor) : result CborError ((Z * Z) * Cursor) :=
  let? (first, c) := take_bytes c 1 in
  let? byte := ok_or (head first) Truncated in
  let major := Z.shiftr byte 5 in
  let additional := Z.land byte 31 in
  if additional <=? 23 then Ok ((major, additional), c)
  else if additional =? 24 then
    let? (raw, c) := take_bytes c 1 in
    let value := at_index raw 0 in
    if value <? 24 then Err NonCanonicalHead else Ok ((major, value), c)
  else if additional =? 25 then
    let? (raw, c) := take_bytes c 2 in
    let value := from_be_bytes raw in
    if value <=? U8_MAX then Err NonCanonicalHead else Ok ((major, value), c)
  else if additional =? 26 then
    let? (raw, c) := take_bytes c 4 in
    let value := from_be_bytes raw in
    if value <=? U16_MAX then Err NonCanonicalHead else Ok ((major, value), c)
  else if additional =? 27 then
    let? (raw, c) := take_bytes c 8 in
    let value := from_be_bytes raw in
    if value <=? U32_MAX then Err NonCanonicalHead else Ok ((major, value), c)
  else if additional =? 31 then Err IndefiniteLength
  else Err NonCanonicalHead.

(** One iteration of the array loop. *)
Definition array_step (read : Cursor -> result CborError (CborValue * Cursor))
    (st : list CborValue * Cursor) : result CborError (list CborValue * Cursor) :=
  let '(values, c) := st in
  let? (value, c) := read c in Ok (values ++ [value], c).

(** One iteration of the map loop: the entries so far and the encoded previous key. *)
Definition map_step (read : Cursor -> result CborError (CborValue * Cursor))
    (st : (list (CborValue * CborValue) * option bytes) * Cursor) :
    result CborError ((list (CborValue * CborValue) * option bytes) * Cursor) :=
  let '((entries, previous_key), c) := st in
  let key_start := position c in
  let? (key, c) := read c in
  let key_bytes := take (Z.to_nat (position c - key_start)) (drop (Z.to_nat key_start) (input c)) in
  if match previous_key with Some previous => bytes_leb key_bytes previous | None => false end
  then Err UnsortedMapKeys
  else
    let? (value, c) := read c in
    Ok ((entries ++ [(key, value)], Some key_bytes), c).

(** [read_value(depth)] with [levels = MAX_DEPTH + 1 - depth], so that the test
    [depth > MAX_DEPTH] is [levels = 0]. *)
Fixpoint read_value (levels : nat) (c : Cursor) : result CborError (CborValue * Cursor) :=
  match levels with
  | O => Err DepthLimit
  | S levels =>
      let? ((major, argument), c) := read_head c in
      if major =? 0 then Ok (Unsigned argument, c)
      else if major =? 1 then
        let value := - argument - 1 in
        if value <? I64_MIN then Err (UnsupportedMajorType 1) else Ok (Negative value, c)
      else if major =? 2 then
        let? (raw, c) := take_bytes c argument in Ok (Bytes raw, c)
      else if major =? 3 then
        let? (raw, c) := take_bytes c argument in
        let? text := ok_or (from_utf8 raw) InvalidUtf8 in
        Ok (Text text, c)
      else if major =? 4 then
        let? (values, c) := for_range argument (array_step (read_value levels)) ([], c) in
        Ok (Array values, c)
      else if major =? 5 then
        let? ((entries, _), c) := for_range argument (map_step (read_value levels)) (([], None), c) in
        Ok (Map entries, c)
      else if major =? 7 then
        if argument =? 20 then Ok (Bool false, c)
        else if argument =? 21 then Ok (Bool true, c)
        else if argument =? 22 then Ok (Null, c)
        else Err (UnsupportedSimpleValue (wrap 8 argument))
      else Err (UnsupportedMajorType major)
  end.

Definition decode_canonical (input_bytes : bytes) : result CborError CborValue :=
  let? (value, c) := read_value (S MAX_DEPTH) (mkCursor input_bytes 0) in
  if position c =? zlen input_bytes then Ok value
  else Err (TrailingBytes (zlen input_bytes - position c)).

(** ** Values *)

(** The invariants the Rust types carry. *)
Inductive cbor_ok : CborValue -> Prop :=
| ok_Unsigned n : u64 n -> cbor_ok (Unsigned n)
| ok_Negative n : i64 n -> cbor_ok (Negative n)
| ok_Bytes l : bytes_ok l -> u64 (zlen l) -> cbor_ok (Bytes l)
| ok_Text s : str_ok s -> u64 (str_len s) -> cbor_ok (Text s)
| ok_Array l : u64 (zlen l) -> Forall cbor_ok l -> cbor_ok (Array l)
| ok_Map l : u64 (zlen l) -> Forall (fun e => cbor_ok e.1 /\ cbor_ok e.2) l -> cbor_ok (Map l)
| ok_Bool b : cbor_ok (Bool b)
| ok_Null : cbor_ok Null.
#[export] Hint Constructors cbor_ok : ark.

(** Levels of nesting below a value. *)
Fixpoint depth (v : CborValue) : nat :=
  match v with
  | Array l => foldr (fun v acc => Nat.max (S (depth v)) acc) O l
  | Map l => foldr (fun e acc => Nat.max (Nat.max (S (depth e.1)) (S (depth e.2))) acc) O l
  | _ => O
  end.

(** The same value up to the order of map entries. *)
Inductive cbor_eq : CborValue -> CborValue -> Prop :=
| eq_Unsigned n : cbor_eq (Unsigned n) (Unsigned n)
| eq_Negative n : cbor_eq (Negative n) (Negative n)
| eq_Bytes l : cbor_eq (Bytes l) (Bytes l)
| eq_Text s : cbor_eq (Text s) (Text s)
| eq_Array l k : Forall2 cbor_eq l k -> cbor_eq (Array l) (Array k)
| eq_Map l p k :
    l ≡ₚ p -> Forall2 (fun d e => cbor_eq d.1 e.1 /\ cbor_eq d.2 e.2) p k ->
    cbor_eq (Map l) (Map k)
| eq_Bool b : cbor_eq (Bool b) (Bool b)
| eq_Null : cbor_eq Null Null.
#[export] Hint Constructors cbor_eq : ark.

Section Induction.
Context (P : CborValue -> Prop).
Hypothesis HU : forall n, P (Unsigned n).
Hypothesis HN : forall n, P (Negative n).
Hypothesis HB : forall l, P (Bytes l).
Hypothesis HT : forall s, P (Text s).
Hypothesis HA : forall l, Forall P l -> P (Array l).
Hypothesis HM : forall l, Forall (fun e => P e.1 /\ P e.2) l -> P (Map l).
Hypothesis HBool : forall b, P (Bool b).
Hypothesis HNull : P Null.

Fixpoint CborValue_nested_ind (v : CborValue) : P v :=
  match v with
  | Unsigned n => HU n
  | Negative n => HN n
  | Bytes l => HB l
  | Text s => HT s
  | Array l =>
      HA l ((fix go l : Forall P l :=
               match l with
               | [] => Forall_nil_2 _
               | v :: l => Forall_cons_2 _ _ _ (CborValue_nested_ind v) (go l)
               end) l)
  | Map l =>
      HM l ((fix go l : Forall (fun e => P e.1 /\ P e.2) l :=
               match l with
               | [] => Forall_nil_2 _
               | e :: l =>
                   Forall_cons_2 _ _ _
                     (conj (CborValue_nested_ind e.1) (CborValue_nested_ind e.2)) (go l)
               end) l)
  | Bool b => HBool b
  | Null => HNull
  end.
End Induction.

Lemma cbor_eq_refl v : cbor_eq v v.
Proof.
  induction v using CborValue_nested_ind; try constructor.
  - induction H; constructor; auto.
  - econstructor; [done|]. induction H; constructor; auto.
Qed.

Lemma cbor_eq_sym v w : cbor_eq v w -> cbor_eq w v.
Proof.
  revert w. induction v as [| | | |l IH|l IH| |] using CborValue_nested_ind; intros w Hw;
    inversion Hw as [| | | |? k Hlk|? p k Hlp Hpk| |]; subst; try constructor.
  - clear Hw. revert k Hlk.
    induction IH; intros k Hk; inversion Hk; subst; constructor; auto.
  - assert (Forall (fun e => (forall w, cbor_eq e.1 w -> cbor_eq w e.1) /\
                             (forall w, cbor_eq e.2 w -> cbor_eq w e.2)) p) as Hp
      by by rewrite <- Hlp.
    assert (Forall2 (fun d e => cbor_eq e.1 d.1 /\ cbor_eq e.2 d.2) p k) as Hkp.
    { clear -Hp Hpk. revert k Hpk. induction Hp as [|? ? [? ?]]; intros k Hk;
        inversion Hk as [|? ? ? ? [? ?]]; subst; constructor; auto. }
    symmetry in Hlp.
    destruct (Permutation_Forall2 Hlp Hkp) as (k' & ? & ?).
    econstructor; [eassumption|]. by apply Forall2_flip.
Qed.

(** ** The encoder, declaratively *)

(** [enc v b]: [b] is the canonical encoding of [v]. *)
Definition enc (v : CborValue) (b : bytes) : Prop := to_canonical_bytes v = Ok b.
Definition head_bytes (major argument : Z) : bytes := encode_head [] major argument.

Fixpoint encode_all (vs : list CborValue) (out : bytes) : result CborError bytes :=
  match vs with
  | [] => Ok out
  | value :: vs => let? out := encode_into value out in encode_all vs out
  end.

Fixpoint encode_entries (es : list (CborValue * CborValue)) :
    result CborError (list (bytes * bytes)) :=
  match es with
  | [] => Ok []
  | (key, value) :: es =>
      let? key_bytes := encode_into key [] in
      let? value_bytes := encode_into value [] in
      let? rest := encode_entries es in
      Ok ((key_bytes, value_bytes) :: rest)
  end.

Definition emit_entries (out : bytes) (kvs : list (bytes * bytes)) : bytes :=
  foldl (fun out '(key_bytes, value_bytes) => (out ++ key_bytes) ++ value_bytes) out kvs.

Lemma encode_into_Array l out :
  encode_into (Array l) out = encode_all l (encode_head out 4 (zlen l)).
Proof. reflexivity. Qed.

Lemma encode_into_Map l out :
  encode_into (Map l) out =
    let? encoded := encode_entries l in
    let? _ := check_duplicates [] (map fst (sort_by entry_leb encoded)) in
    Ok (emit_entries (encode_head out 5 (zlen (sort_by entry_leb encoded)))
                     (sort_by entry_leb encoded)).
Proof. reflexivity. Qed.

Lemma encode_head_app out m a : encode_head out m a = out ++ head_bytes m a.
Proof. unfold head_bytes, encode_head. repeat case_match; by rewrite <- ?app_assoc. Qed.

Lemma emit_entries_app out kvs :
  emit_entries out kvs = out ++ concat (map (fun kv => kv.1 ++ kv.2) kvs).
Proof.
  revert out. induction kvs as [|[k v] kvs IH]; intros out; simpl; [by rewrite app_nil_r|].
  rewrite IH. simpl. by rewrite <- !app_assoc.
Qed.

Definition appending (out : bytes) (r : result CborError bytes) : result CborError bytes :=
  let? b := r in Ok (out ++ b).

Lemma encode_into_app v out : encode_into v out = appending out (encode_into v []).
Proof.
  revert out. induction v using CborValue_nested_ind; intros out; unfold appending.
  1,3,4: simpl; rewrite encode_head_app; unfold head_bytes; by rewrite <- ?app_assoc.
  - simpl. case_match; [done|]. by rewrite encode_head_app.
  - rewrite !encode_into_Array, (encode_head_app out).
    assert (forall a b, encode_all l (a ++ b) = appending a (encode_all l b)) as Hall.
    { induction H as [|v l Hv Hl IH]; intros a b; [done|]. simpl.
      rewrite (Hv (a ++ b)), (Hv b). unfold appending. destruct (encode_into v []) as [c|]; [|done].
      rewrite <- app_assoc. apply IH. }
    apply Hall.
  - rewrite !encode_into_Map. destruct (encode_entries l) as [kvs|]; [|done].
    destruct (check_duplicates _ _); [|done].
    by rewrite !emit_entries_app, encode_head_app, <- app_assoc.
  - done.
  - done.
Qed.

Lemma encode_all_Ok l out b :
  encode_all l out = Ok b <-> exists bs, Forall2 enc l bs /\ b = out ++ concat bs.
Proof.
  revert out b. induction l as [|v l IH]; intros out b; simpl.
  - split.
    + intros [= <-]. exists []. split; [constructor|]. simpl. by rewrite app_nil_r.
    + intros (bs & Hbs & ->). inversion Hbs. simpl. by rewrite app_nil_r.
  - rewrite encode_into_app. unfold appending. split.
    + destruct (encode_into v []) as [c|] eqn:E; [|done]. intros H.
      apply IH in H as (bs & Hbs & ->). exists (c :: bs).
      split; [by constructor|]. simpl. by rewrite app_assoc.
    + intros (bs & Hbs & ->). inversion Hbs as [|? c ? bs' Hc Hbs']; subst.
      unfold enc, to_canonical_bytes in Hc. rewrite Hc. apply IH.
      exists bs'. simpl. by rewrite app_assoc.
Qed.

Lemma encode_entries_Ok l kvs :
  encode_entries l = Ok kvs <-> Forall2 (fun e kv => enc e.1 kv.1 /\ enc e.2 kv.2) l kvs.
Proof.
  revert kvs. induction l as [|[k v] l IH]; intros kvs; simpl.
  - split; [intros [= <-]; constructor|]. by inversion 1.
  - split.
    + destruct (encode_into k []) eqn:Ek; [|done]. destruct (encode_into v []) eqn:Ev; [|done].
      destruct (encode_entries l); [|done]. intros [= <-]. constructor; [done|]. by apply IH.
    + inversion 1 as [|? [kb vb] ? ? [Hk Hv] Hl]; subst. simpl in *.
      unfold enc, to_canonical_bytes in *. rewrite Hk, Hv.
      apply IH in Hl. by rewrite Hl.
Qed.

Lemma check_duplicates_Ok seen keys :
  check_duplicates seen keys = Ok tt <-> NoDup keys /\ forall k, k ∈ keys -> k ∉ seen.
Proof.
  revert seen. induction keys as [|k keys IH]; intros seen; simpl.
  - split; [|done]. intros _. split; [constructor|]. set_solver.
  - case_bool_decide as E.
    + split; [done|]. intros [_ H]. exfalso. apply (H k); [left|done].
    + rewrite IH, NoDup_cons. clear IH.
      split; [intros [? ?]|intros [[? ?] ?]]; set_solver.
Qed.

Lemma entry_leb_total x y : entry_leb x y = true \/ entry_leb y x = true.
Proof. apply bytes_leb_total. Qed.
Lemma entry_leb_trans x y z : entry_leb x y = true -> entry_leb y z = true -> entry_leb x z = true.
Proof. apply bytes_leb_trans. Qed.

Lemma enc_Array l b :
  enc (Array l) b <-> exists bs, Forall2 enc l bs /\ b = head_bytes 4 (zlen l) ++ concat bs.
Proof. unfold enc, to_canonical_bytes. rewrite encode_into_Array. apply encode_all_Ok. Qed.

(** The entries in the order they are emitted. *)
Lemma enc_Map l b :
  enc (Map l) b <->
  exists kvs, Forall2 (fun e kv => enc e.1 kv.1 /\ enc e.2 kv.2) l kvs /\ NoDup (map fst kvs) /\
    b = head_bytes 5 (zlen l) ++ concat (map (fun kv => kv.1 ++ kv.2) (sort_by entry_leb kvs)).
Proof.
  unfold enc at 1, to_canonical_bytes. rewrite encode_into_Map.
  assert (forall kvs, Forall2 (fun e kv => enc e.1 kv.1 /\ enc e.2 kv.2) l kvs ->
            zlen (sort_by entry_leb kvs) = zlen l) as Hlen.
  { intros kvs H. unfold zlen. rewrite (Permutation_length (sort_by_perm entry_leb kvs)).
    by rewrite (Forall2_length _ _ _ H). }
  assert (forall kvs : list (bytes * bytes),
            map fst (sort_by entry_leb kvs) ≡ₚ map fst kvs) as Hperm.
  { intros kvs. apply Permutation_map, sort_by_perm. }
  split.
  - destruct (encode_entries l) as [kvs|] eqn:E; [|done]. apply encode_entries_Ok in E.
    destruct (check_duplicates _ _) as [[]|] eqn:D; [|done].
    apply check_duplicates_Ok in D as [D _]. rewrite Hperm in D.
    intros [= <-]. exists kvs. rewrite emit_entries_app, Hlen by done. auto.
  - intros (kvs & E & D & ->). pose proof (Hlen kvs E) as Hl.
    apply encode_entries_Ok in E as E'. rewrite E'.
    assert (check_duplicates [] (map fst (sort_by entry_leb kvs)) = Ok tt) as ->.
    { apply check_duplicates_Ok. rewrite Hperm. set_solver. }
    by rewrite emit_entries_app, Hl.
Qed.

Lemma sorted_entries kvs :
  NoDup (map fst kvs) ->
  StronglySorted (fun a b => bytes_lt a.1 b.1) (sort_by entry_leb kvs).
Proof.
  intros Hnd.
  pose proof (sort_by_sorted _ entry_leb_total entry_leb_trans kvs) as Hs.
  rewrite <- (sort_by_perm entry_leb kvs) in Hnd. revert Hnd.
  induction Hs as [|x l Hs IH Hall]; simpl; [constructor|].
  intros Hnd. apply NoDup_cons in Hnd as [Hx Hnd]. constructor; [auto|].
  rewrite Forall_forall in *. intros y Hy. specialize (Hall y Hy).
  apply bytes_leb_lt_eq in Hall as [?|Heq]; [done|]. destruct Hx. rewrite Heq.
  apply list_elem_of_fmap. eauto.
Qed.

(** ** Heads *)

(** A cursor that has consumed [pre] and has [rest] before it. *)
Definition at_ (pre rest : bytes) : Cursor := mkCursor (pre ++ rest) (zlen pre).

Lemma at_shift pre s rest :
  mkCursor (pre ++ s ++ rest) (zlen pre + zlen s) = at_ (pre ++ s) rest.
Proof. unfold at_. by rewrite zlen_app, app_assoc. Qed.

Lemma take_at pre s rest n :
  u64 (zlen (pre ++ s ++ rest)) -> n = zlen s ->
  take_bytes (at_ pre (s ++ rest)) n = Ok (s, at_ (pre ++ s) rest).
Proof.
  intros Hu ->. autorewrite with ark in Hu. pose proof (zlen_nonneg rest).
  unfold take_bytes, checked_add. cbn [position input at_].
  destruct (Z.leb_spec (zlen pre + zlen s) U64_MAX); [|zlia]. cbn [ok_or].
  rewrite slice_get_app by done. by rewrite at_shift.
Qed.

Lemma take_one pre b rest :
  u64 (zlen (pre ++ b :: rest)) ->
  take_bytes (at_ pre (b :: rest)) 1 = Ok ([b], at_ (pre ++ [b]) rest).
Proof. intros. by apply (take_at pre [b] rest). Qed.

Lemma take_at_inv pre rest n s c :
  0 <= n -> take_bytes (at_ pre rest) n = Ok (s, c) ->
  exists rest', rest = s ++ rest' /\ zlen s = n /\ c = at_ (pre ++ s) rest'.
Proof.
  intros Hn. unfold take_bytes, checked_add. cbn [position input at_].
  destruct (Z.leb_spec (zlen pre + n) U64_MAX); cbn [ok_or]; [|done].
  destruct (slice_get _ _ _) as [s'|] eqn:E; [|done]. intros [= -> <-].
  apply slice_get_Some in E as (post & -> & Hs); [|done|lia].
  exists post. split_and!; [done|lia|]. rewrite Hs. apply at_shift.
Qed.

Lemma head_length_pos m a : head_bytes m a <> [].
Proof. unfold head_bytes, encode_head. repeat case_match; destruct m; simpl; congruence. Qed.

(** The two fields of an initial byte. *)
Lemma initial_byte m a :
  0 <= m < 8 -> 0 <= a < 32 ->
  let b := Z.lor (wrap 8 (Z.shiftl m 5)) a in
  u8 b /\ Z.shiftr b 5 = m /\ Z.land b 31 = a.
Proof.
  intros Hm Ha b.
  assert (b = m * 32 + a) as Hb.
  { unfold b. rewrite wrap_small; [by rewrite lor_shiftl_add|].
    rewrite Z.shiftl_mul_pow2 by lia. lia. }
  rewrite Hb, Z.shiftr_div_pow2 by lia. change 31 with (Z.ones 5). rewrite Z.land_ones by lia.
  change (2 ^ 5) with 32. split_and!; [zlia| |].
  - rewrite Z.div_add_l by lia. rewrite Z.div_small; lia.
  - rewrite Z.add_comm, Z.mod_add by lia. apply Z.mod_small; lia.
Qed.

Lemma from_be_small n v : 0 <= v < 256 ^ Z.of_nat n -> from_be_bytes (to_be_bytes n v) = v.
Proof. intros. rewrite from_to_be. by apply Z.mod_small. Qed.

(** What [encode_head] writes: an initial byte and the argument in its shortest width. *)
Lemma head_shape m a :
  0 <= m < 8 -> u64 a ->
  (a < 24 /\ head_bytes m a = [Z.lor (wrap 8 (Z.shiftl m 5)) a]) \/
  (exists n ai lo,
     head_bytes m a = Z.lor (wrap 8 (Z.shiftl m 5)) ai :: to_be_bytes n a /\
     lo < a < 256 ^ Z.of_nat n /\
     ((n, ai, lo) = (1%nat, 24, 23) \/ (n, ai, lo) = (2%nat, 25, U8_MAX) \/
      (n, ai, lo) = (4%nat, 26, U16_MAX) \/ (n, ai, lo) = (8%nat, 27, U32_MAX))).
Proof.
  intros Hm Ha. unfold head_bytes, encode_head.
  destruct (Z.ltb_spec a 24). { left. split; [done|]. rewrite (wrap_small 8 a); [done|zlia]. }
  right.
  destruct (Z.leb_spec a U8_MAX).
  { exists 1%nat, 24, 23. split_and!; [|lia|zlia|auto]. simpl.
    by rewrite (wrap_small 8 a), (Z.mod_small a) by zlia. }
  destruct (Z.leb_spec a U16_MAX).
  { exists 2%nat, 25, U8_MAX. split_and!; [|lia|zlia|auto]. by rewrite (wrap_small 16 a) by zlia. }
  destruct (Z.leb_spec a U32_MAX).
  { exists 4%nat, 26, U16_MAX. split_and!; [|lia|zlia|auto]. by rewrite (wrap_small 32 a) by zlia. }
  exists 8%nat, 27, U32_MAX. split_and!; [done|lia|zlia|auto 6].
Qed.

Lemma head_ok m a : 0 <= m < 8 -> u64 a -> bytes_ok (head_bytes m a).
Proof.
  intros Hm Ha. destruct (head_shape m a Hm Ha) as [[? ->]|(n & ai & lo & -> & ? & Hn)].
  - apply bytes_ok_cons; [|auto with ark]. apply initial_byte; zlia.
  - apply bytes_ok_cons; [|auto with ark]. apply initial_byte; [done|].
    destruct Hn as [?|[?|[?|?]]]; simplify_eq; lia.
Qed.

Lemma read_head_at pre m a rest :
  0 <= m < 8 -> u64 a -> u64 (zlen (pre ++ head_bytes m a ++ rest)) ->
  read_head (at_ pre (head_bytes m a ++ rest)) = Ok ((m, a), at_ (pre ++ head_bytes m a) rest).
Proof.
  intros Hm Ha Hu. unfold read_head.
  destruct (head_shape m a Hm Ha) as [[Hs Hh]|(n & ai & lo & Hh & Hlo & Hn)];
    rewrite Hh in *; cbn [app] in *.
  - rewrite take_one by done. cbn [ok_or head hd_error].
    destruct (initial_byte m a Hm ltac:(zlia)) as (_ & -> & ->).
    by destruct (Z.leb_spec a 23); [|lia].
  - rewrite take_one by done. cbn [ok_or head hd_error].
    assert (0 <= ai < 32) as Hai by (destruct Hn as [?|[?|[?|?]]]; simplify_eq; lia).
    destruct (initial_byte m ai Hm Hai) as (_ & -> & ->).
    assert (forall k, k = Z.of_nat n ->
      take_bytes (at_ (pre ++ [Z.lor (wrap 8 (Z.shiftl m 5)) ai]) (to_be_bytes n a ++ rest)) k
      = Ok (to_be_bytes n a,
            at_ (pre ++ Z.lor (wrap 8 (Z.shiftl m 5)) ai :: to_be_bytes n a) rest)) as Ht.
    { intros k ->. rewrite take_at; [by rewrite <- app_assoc| |unfold zlen; by rewrite to_be_length].
      by rewrite <- app_assoc. }
    assert (from_be_bytes (to_be_bytes n a) = a) as Hv by (apply from_be_small; zlia).
    destruct Hn as [?|[?|[?|?]]]; simplify_eq; cbn [Z.leb Z.eqb Z.compare Pos.compare
      Pos.compare_cont Pos.eqb]; rewrite Ht by done; rewrite ?Hv.
    + assert (at_index (to_be_bytes 1 a) 0 = a) as ->.
      { unfold at_index. simpl. apply Z.mod_small. zlia. }
      by destruct (Z.ltb_spec a 24); [lia|].
    + by destruct (Z.leb_spec a U8_MAX); [lia|].
    + by destruct (Z.leb_spec a U16_MAX); [lia|].
    + by destruct (Z.leb_spec a U32_MAX); [lia|].
Qed.

Definition head_width (n : nat) (ai lo : Z) : Prop :=
  (n, ai, lo) = (1%nat, 24, 23) \/ (n, ai, lo) = (2%nat, 25, U8_MAX) \/
  (n, ai, lo) = (4%nat, 26, U16_MAX) \/ (n, ai, lo) = (8%nat, 27, U32_MAX).

(** The width is determined by the argument. *)
Lemma head_of_width m a n ai lo :
  head_width n ai lo -> lo < a < 256 ^ Z.of_nat n -> 0 <= m < 8 ->
  head_bytes m a = Z.lor (wrap 8 (Z.shiftl m 5)) ai :: to_be_bytes n a.
Proof.
  intros Hw Ha Hm.
  assert (u64 a) as Hu by (destruct Hw as [?|[?|[?|?]]]; simplify_eq; zlia).
  destruct (head_shape m a Hm Hu) as [[? _]|(n' & ai' & lo' & -> & Ha' & Hw')].
  - destruct Hw as [?|[?|[?|?]]]; simplify_eq; zlia.
  - destruct Hw as [?|[?|[?|?]]], Hw' as [?|[?|[?|?]]]; simplify_eq; done || zlia.
Qed.

Lemma head_of_small m a :
  0 <= a < 24 -> 0 <= m < 8 -> head_bytes m a = [Z.lor (wrap 8 (Z.shiftl m 5)) a].
Proof.
  intros Ha Hm. unfold head_bytes, encode_head.
  destruct (Z.ltb_spec a 24); [|lia]. by rewrite (wrap_small 8 a) by zlia.
Qed.

Lemma initial_byte_inv b :
  u8 b ->
  0 <= Z.shiftr b 5 < 8 /\ 0 <= Z.land b 31 < 32 /\
  b = Z.lor (wrap 8 (Z.shiftl (Z.shiftr b 5) 5)) (Z.land b 31).
Proof.
  intros Hb. change 31 with (Z.ones 5). rewrite Z.land_ones, Z.shiftr_div_pow2 by lia.
  change (2 ^ 5) with 32. pose proof (Z.mod_pos_bound b 32 ltac:(lia)).
  assert (0 <= b / 32 < 8) by (ints; split; [apply Z.div_pos; lia|apply Z.div_lt_upper_bound; lia]).
  split_and!; try lia.
  rewrite wrap_small by (rewrite Z.shiftl_mul_pow2 by lia; lia).
  rewrite lor_shiftl_add by lia. pose proof (Z.div_mod b 32). lia.
Qed.

Lemma wide_head_inv pre m n ai lo k rest raw c :
  head_width n ai lo -> 0 <= m < 8 -> bytes_ok rest -> k = Z.of_nat n ->
  take_bytes (at_ (pre ++ [Z.lor (wrap 8 (Z.shiftl m 5)) ai]) rest) k = Ok (raw, c) ->
  lo < from_be_bytes raw ->
  let a := from_be_bytes raw in
  exists rest', Z.lor (wrap 8 (Z.shiftl m 5)) ai :: rest = head_bytes m a ++ rest' /\
    c = at_ (pre ++ head_bytes m a) rest' /\ u64 a /\ bytes_ok rest'.
Proof.
  intros Hw Hm Hr -> Ht Hlo a.
  apply take_at_inv in Ht as (rest' & -> & Hl & ->); [|lia].
  apply bytes_ok_app in Hr as [Hraw Hr].
  pose proof (from_be_bound raw Hraw) as Hb. fold a in Hb. rewrite Hl in Hb.
  exists rest'. rewrite (head_of_width m a n ai lo) by (auto; lia).
  unfold a. rewrite to_from_be_n; [|done|unfold zlen in Hl; lia].
  split_and!; [done| |destruct Hw as [?|[?|[?|?]]]; simplify_eq; zlia|done].
  by rewrite <- app_assoc.
Qed.

Lemma read_head_inv pre rest m a c :
  bytes_ok rest -> read_head (at_ pre rest) = Ok ((m, a), c) ->
  exists rest', rest = head_bytes m a ++ rest' /\ c = at_ (pre ++ head_bytes m a) rest' /\
    0 <= m < 8 /\ u64 a /\ bytes_ok rest'.
Proof.
  intros Hr. unfold read_head.
  destruct (take_bytes (at_ pre rest) 1) as [[first c1]|] eqn:E; [|done].
  apply take_at_inv in E as (rest1 & -> & Hl & ->); [|lia].
  destruct first as [|b [|? first]]; try (unfold zlen in Hl; simpl in Hl; lia).
  apply bytes_ok_app in Hr as [Hb Hr]. inversion Hb as [|? ? Hb8 _]; subst. cbn [ok_or head hd_error app].
  destruct (initial_byte_inv b Hb8) as (Hm & Had & Hbyte).
  set (mj := Z.shiftr b 5) in *. set (ad := Z.land b 31) in *.
  assert (forall n lo k raw c2, head_width n ad lo -> k = Z.of_nat n ->
    take_bytes (at_ (pre ++ [b]) rest1) k = Ok (raw, c2) -> lo < from_be_bytes raw ->
    exists rest', b :: rest1 = head_bytes mj (from_be_bytes raw) ++ rest' /\
      c2 = at_ (pre ++ head_bytes mj (from_be_bytes raw)) rest' /\
      0 <= mj < 8 /\ u64 (from_be_bytes raw) /\ bytes_ok rest') as Hwide.
  { intros n lo k raw c2 Hw Hk Ht Hlo. rewrite Hbyte in Ht |- *.
    destruct (wide_head_inv _ _ _ _ _ _ _ _ _ Hw Hm Hr Hk Ht Hlo) as (r & ? & ? & ? & ?).
    by exists r. }
  destruct (Z.leb_spec ad 23).
  { intros [= <- <- <-]. exists rest1. rewrite head_of_small, <- Hbyte by lia.
    split_and!; try done; zlia. }
  unfold head_width in Hwide.
  destruct (Z.eqb_spec ad 24) as [E|_].
  { destruct (take_bytes _ 1) as [[raw c2]|] eqn:Ht; [|done].
    assert (at_index raw 0 = from_be_bytes raw) as ->.
    { apply take_at_inv in Ht as (? & ? & Hl1 & ?); [|lia].
      destruct raw as [|? [|? ?]]; try done. unfold zlen in Hl1. simpl in Hl1. lia. }
    destruct (Z.ltb_spec (from_be_bytes raw) 24); [done|]. intros [= <- <- <-].
    eapply (Hwide 1%nat 23); try done; [rewrite E; auto|lia]. }
  destruct (Z.eqb_spec ad 25) as [E|_].
  { destruct (take_bytes _ 2) as [[raw c2]|] eqn:Ht; [|done].
    destruct (Z.leb_spec (from_be_bytes raw) U8_MAX); [done|]. intros [= <- <- <-].
    eapply (Hwide 2%nat U8_MAX); try done. rewrite E; auto. }
  destruct (Z.eqb_spec ad 26) as [E|_].
  { destruct (take_bytes _ 4) as [[raw c2]|] eqn:Ht; [|done].
    destruct (Z.leb_spec (from_be_bytes raw) U16_MAX); [done|]. intros [= <- <- <-].
    eapply (Hwide 4%nat U16_MAX); try done. rewrite E; auto. }
  destruct (Z.eqb_spec ad 27) as [E|_].
  { destruct (take_bytes _ 8) as [[raw c2]|] eqn:Ht; [|done].
    destruct (Z.leb_spec (from_be_bytes raw) U32_MAX); [done|]. intros [= <- <- <-].
    eapply (Hwide 8%nat U32_MAX); try done. rewrite E; auto 6. }
  by case_match.
Qed.

(** ** Decoding what was encoded *)

(** [reads v b n]: a decoder with at least [n] levels left reads [v] from [b]
    and consumes exactly [b]. *)
Definition reads (v : CborValue) (b : bytes) (n : nat) : Prop :=
  forall levels pre rest, (n <= levels)%nat -> u64 (zlen (pre ++ b ++ rest)) ->
    read_value levels (at_ pre (b ++ rest)) = Ok (v, at_ (pre ++ b) rest).

Lemma reads_mono v b n m : (n <= m)%nat -> reads v b n -> reads v b m.
Proof. intros Hnm H levels pre rest Hl. apply H. lia. Qed.

Lemma array_loop levels vs bs pre rest acc :
  Forall2 (fun v b => reads v b levels) vs bs ->
  u64 (zlen (pre ++ concat bs ++ rest)) ->
  for_nat (length vs) (array_step (read_value levels)) (acc, at_ pre (concat bs ++ rest)) =
    Ok (acc ++ vs, at_ (pre ++ concat bs) rest).
Proof.
  intros H. revert pre acc. induction H as [|v b vs bs Hv _ IH]; intros pre acc Hu; cbn [length for_nat].
  - simpl. by rewrite !app_nil_r.
  - cbn [concat array_step] in *. rewrite <- app_assoc in Hu |- *.
    rewrite Hv by done. rewrite IH by (by rewrite <- app_assoc). by rewrite <- !app_assoc.
Qed.

Definition key_above (prev : option bytes) (kvs : list (bytes * bytes)) : Prop :=
  match prev with Some p => Forall (fun kv => bytes_lt p kv.1) kvs | None => True end.

Lemma map_loop levels es kvs pre rest acc prev :
  Forall2 (fun e kv => reads e.1 kv.1 levels /\ reads e.2 kv.2 levels) es kvs ->
  StronglySorted (fun a b => bytes_lt a.1 b.1) kvs -> key_above prev kvs ->
  let b := concat (map (fun kv => kv.1 ++ kv.2) kvs) in
  u64 (zlen (pre ++ b ++ rest)) ->
  exists prev',
    for_nat (length es) (map_step (read_value levels)) ((acc, prev), at_ pre (b ++ rest)) =
      Ok ((acc ++ es, prev'), at_ (pre ++ b) rest).
Proof.
  intros H. revert pre acc prev. induction H as [|[k v] [kb vb] es kvs [Hk Hv] _ IH];
    intros pre acc prev Hs Hp b Hu; cbn [length for_nat].
  - exists prev. simpl. by rewrite !app_nil_r.
  - cbn [fst snd] in *. inversion Hs as [|? ? Hs' Hall]; subst.
    unfold b in *. cbn [map concat fst snd] in *. clear b.
    set (b := concat (map (fun kv => kv.1 ++ kv.2) kvs)) in *.
    assert (zlen ((pre ++ kb ++ vb) ++ b ++ rest) = zlen (pre ++ ((kb ++ vb) ++ b) ++ rest))
      as Hlen by (by rewrite <- !app_assoc).
    destruct (IH (pre ++ kb ++ vb) (acc ++ [(k, v)]) (Some kb)) as (prev' & IH');
      [done|exact Hall|by fold b; rewrite Hlen|].
    exists prev'. unfold map_step at 1.
    rewrite <- !app_assoc in Hu |- *. rewrite Hk by done. cbn [position input at_].
    assert (take (Z.to_nat (zlen (pre ++ kb) - zlen pre))
      (drop (Z.to_nat (zlen pre)) ((pre ++ kb) ++ vb ++ b ++ rest)) = kb) as ->.
    { rewrite zlen_app. unfold zlen. rewrite Nat2Z.id, <- app_assoc, drop_app_length.
      replace (Z.to_nat _) with (length kb) by lia. apply take_app_length. }
    assert (match prev with Some p => bytes_leb kb p | None => false end = false) as ->.
    { destruct prev as [p|]; [|done]. inversion Hp as [|? ? Hlt _]; subst. cbn in Hlt.
      apply not_true_iff_false. rewrite bytes_leb_lt_eq. intros [Hlt'| ->].
      - eapply bytes_lt_irrefl, bytes_lt_trans; eauto.
      - by eapply bytes_lt_irrefl. }
    rewrite Hv by (done || by rewrite <- app_assoc).
    fold b in IH'. rewrite <- !app_assoc in IH'. rewrite <- !app_assoc. by rewrite IH'.
Qed.

Lemma read_leaf b n levels pre rest m a tail :
  b = head_bytes m a ++ tail -> 0 <= m < 8 -> u64 a ->
  u64 (zlen (pre ++ b ++ rest)) -> (S n <= levels)%nat ->
  exists l, levels = S l /\ (n <= l)%nat /\
    read_head (at_ pre (b ++ rest)) =
      Ok ((m, a), at_ (pre ++ head_bytes m a) (tail ++ rest)) /\
    u64 (zlen ((pre ++ head_bytes m a) ++ tail ++ rest)) /\
    at_ ((pre ++ head_bytes m a) ++ tail) rest = at_ (pre ++ b) rest.
Proof.
  intros -> Hm Ha Hu Hl. destruct levels as [|l]; [lia|]. exists l.
  rewrite <- app_assoc in Hu |- *. rewrite read_head_at by done.
  rewrite <- !app_assoc. split_and!; (done || lia).
Qed.

Lemma depth_Array l : Forall (fun v => (S (depth v) <= depth (Array l))%nat) l.
Proof.
  cbn [depth]. induction l as [|v l IH]; constructor; simpl; [lia|].
  eapply Forall_impl; [exact IH|]. simpl. lia.
Qed.

Lemma depth_Map l :
  Forall (fun e => (S (depth e.1) <= depth (Map l))%nat /\ (S (depth e.2) <= depth (Map l))%nat) l.
Proof.
  cbn [depth]. induction l as [|v l IH]; constructor; simpl; [lia|].
  eapply Forall_impl; [exact IH|]. simpl. lia.
Qed.

(** [v] can be read back from [b] up to the order of map entries. *)
Definition decodes (v : CborValue) (n : nat) (b : bytes) : Prop :=
  exists v', cbor_eq v v' /\ reads v' b n.

Lemma decodes_all l bs n :
  Forall2 (fun v b => decodes v n b) l bs ->
  exists vs, Forall2 cbor_eq l vs /\ Forall2 (fun v b => reads v b n) vs bs.
Proof.
  induction 1 as [|v b l bs (v' & Hv & Hr) _ (vs & ? & ?)].
  - exists []. by split.
  - exists (v' :: vs). split; by constructor.
Qed.

Lemma decodes_entries l kvs n :
  Forall2 (fun e kv => decodes e.1 n kv.1 /\ decodes e.2 n kv.2) l kvs ->
  exists es, Forall2 (fun d e => cbor_eq d.1 e.1 /\ cbor_eq d.2 e.2) l es /\
    Forall2 (fun e kv => reads e.1 kv.1 n /\ reads e.2 kv.2 n) es kvs.
Proof.
  induction 1 as [|e kv l bs [(k' & Hk & Hrk) (v' & Hv & Hrv)] _ (es & ? & ?)].
  - exists []. by split.
  - exists ((k', v') :: es). split; by constructor.
Qed.

Lemma decodes_mono v n m b : (n <= m)%nat -> decodes v n b -> decodes v m b.
Proof. intros ? (v' & ? & ?). exists v'. eauto using reads_mono. Qed.

Ltac start_leaf Hb n :=
  intros levels pre rest Hl Hu;
  destruct (read_leaf _ n levels pre rest _ _ _ Hb ltac:(lia) ltac:(auto with ark) Hu Hl)
    as (l' & -> & Hl' & Hh & Hu' & Ha);
  cbn [read_value]; rewrite Hh; cbn [Z.eqb Pos.eqb].

Lemma enc_decodes_number n b :
  (u64 n /\ enc (Unsigned n) b -> decodes (Unsigned n) 1 b) /\
  (i64 n /\ enc (Negative n) b -> decodes (Negative n) 1 b).
Proof.
  split; intros [Hn Henc].
  - exists (Unsigned n). split; [constructor|]. injection Henc as <-. fold (head_bytes 0 n).
    assert (head_bytes 0 n = head_bytes 0 n ++ []) as Hb by by rewrite app_nil_r.
    start_leaf Hb O. by rewrite <- Ha, app_nil_r.
  - exists (Negative n). split; [constructor|]. unfold enc, to_canonical_bytes in Henc.
    cbn [encode_into] in Henc. destruct (Z.leb_spec 0 n); [done|]. injection Henc as <-.
    rewrite wrap_small by zlia. fold (head_bytes 1 (- n - 1)).
    assert (head_bytes 1 (- n - 1) = head_bytes 1 (- n - 1) ++ []) as Hb by by rewrite app_nil_r.
    assert (u64 (- n - 1)) by zlia.
    start_leaf Hb O. destruct (Z.ltb_spec (- (- n - 1) - 1) I64_MIN); [zlia|].
    rewrite <- Ha, app_nil_r. do 3 f_equal. lia.
Qed.

Lemma enc_decodes_string l s b :
  (u64 (zlen l) /\ enc (Bytes l) b -> decodes (Bytes l) 1 b) /\
  (u64 (str_len s) /\ str_ok s /\ enc (Text s) b -> decodes (Text s) 1 b).
Proof.
  split.
  - intros [Hlen Henc]. exists (Bytes l). split; [constructor|]. injection Henc as <-.
    fold (head_bytes 2 (zlen l)).
    start_leaf (eq_refl (head_bytes 2 (zlen l) ++ l)) O. rewrite take_at by done. by rewrite Ha.
  - intros (Hlen & Hs & Henc). exists (Text s). split; [constructor|]. injection Henc as <-.
    fold (head_bytes 3 (str_len s)).
    start_leaf (eq_refl (head_bytes 3 (str_len s) ++ bytes_of_string s)) O.
    rewrite take_at by done. rewrite from_utf8_of_string by done. cbn [ok_or]. by rewrite Ha.
Qed.

Lemma enc_decodes_simple bv b :
  (enc (Bool bv) b -> decodes (Bool bv) 1 b) /\ (enc Null b -> decodes Null 1 b).
Proof.
  split; intros Henc.
  - exists (Bool bv). split; [constructor|]. injection Henc as <-.
    assert ([Z.lor 224 (if bv then 21 else 20)] = head_bytes 7 (if bv then 21 else 20) ++ []) as Hb
      by by destruct bv.
    assert (u64 (if bv then 21 else 20)) by (destruct bv; zlia).
    start_leaf Hb O. rewrite <- Ha, app_nil_r. by destruct bv.
  - exists Null. split; [constructor|]. injection Henc as <-.
    assert (u64 22) by zlia. change [246] with (head_bytes 7 22 ++ []).
    start_leaf (eq_refl (head_bytes 7 22 ++ [])) O. by rewrite <- Ha, app_nil_r.
Qed.

Lemma enc_decodes_array l bs n :
  u64 (zlen l) -> Forall2 (fun v b => decodes v n b) l bs ->
  decodes (Array l) (S n) (head_bytes 4 (zlen l) ++ concat bs).
Proof.
  intros H1 Hd. apply decodes_all in Hd as (vs & Heq & Hreads).
  exists (Array vs). split; [by constructor|].
  start_leaf (eq_refl (head_bytes 4 (zlen l) ++ concat bs)) n.
  rewrite for_range_nat by zlia. unfold zlen at 1. rewrite Nat2Z.id, (Forall2_length _ _ _ Heq).
  erewrite array_loop; [by rewrite Ha| |done].
  eapply Forall2_impl; [exact Hreads|]. intros. by eapply reads_mono.
Qed.

Lemma enc_decodes_map l kvs n :
  u64 (zlen l) -> Forall2 (fun e kv => decodes e.1 n kv.1 /\ decodes e.2 n kv.2) l kvs ->
  NoDup (map fst kvs) ->
  decodes (Map l) (S n)
    (head_bytes 5 (zlen l) ++ concat (map (fun kv => kv.1 ++ kv.2) (sort_by entry_leb kvs))).
Proof.
  intros H1 Hd Hnd. apply Forall2_flip in Hd.
  pose proof (Permutation_sym (sort_by_perm entry_leb kvs)) as Hp.
  destruct (Permutation_Forall2 Hp Hd) as (p & Hlp & Hd').
  apply Forall2_flip in Hd'. apply decodes_entries in Hd' as (es & Heq & Hreads).
  exists (Map es). split; [by econstructor|].
  start_leaf (eq_refl (head_bytes 5 (zlen l) ++
    concat (map (fun kv => kv.1 ++ kv.2) (sort_by entry_leb kvs)))) n.
  rewrite for_range_nat by zlia. unfold zlen at 1.
  rewrite Nat2Z.id, (Permutation_length Hlp), (Forall2_length _ _ _ Heq).
  destruct (map_loop l' es (sort_by entry_leb kvs) (pre ++ head_bytes 5 (zlen l)) rest [] None)
    as (prev' & ->); [|by apply sorted_entries|done|done|by rewrite Ha].
  eapply Forall2_impl; [exact Hreads|]. intros ? ? [? ?]. split; by eapply reads_mono.
Qed.

Lemma enc_decodes v b : cbor_ok v -> enc v b -> decodes v (S (depth v)) b.
Proof.
  revert b. induction v as [n|n|l|s|l IH|l IH|bv|] using CborValue_nested_ind; intros b Hok Henc;
    inversion Hok as [? H1|? H1|? H1 H2|? H1 H2|? H1 H2|? H1 H2| |]; subst; cbn [depth].
  1,2: by apply enc_decodes_number.
  1: by apply (enc_decodes_string l EmptyString).
  1: by apply (enc_decodes_string [] s).
  3: by apply enc_decodes_simple.
  3: by apply (enc_decodes_simple false).
  - apply enc_Array in Henc as (bs & Hbs & ->). apply enc_decodes_array; [done|].
    pose proof (depth_Array l) as Hdep. cbn [depth] in Hdep. revert Hdep.
    generalize (foldr (fun v acc => Nat.max (S (depth v)) acc) O l). intros d Hdep.
    clear Hok H1. induction Hbs; constructor; inversion IH; inversion H2; inversion Hdep; subst;
      [|by auto]. eapply decodes_mono; [|by eauto]; done.
  - apply enc_Map in Henc as (kvs & Hkvs & Hnd & ->). apply enc_decodes_map; [done| |done].
    pose proof (depth_Map l) as Hdep. cbn [depth] in Hdep. revert Hdep.
    generalize (foldr (fun e acc => Nat.max (Nat.max (S (depth e.1)) (S (depth e.2))) acc) O l).
    intros d Hdep. clear Hok H1 Hnd.
    induction Hkvs as [|? ? ? ? [? ?]]; constructor; inversion IH as [|? ? [? ?]];
      inversion H2 as [|? ? [? ?]]; inversion Hdep as [|? ? [? ?]]; subst; [|by auto].
    split; (eapply decodes_mono; [|by eauto]; done).
Qed.

(** ** The decoder accepts only canonical encodings *)

Definition good (n : nat) (v : CborValue) (b : bytes) : Prop :=
  enc v b /\ cbor_ok v /\ (depth v < n)%nat.

(** What a successful read establishes. *)
Definition read_sound (n : nat) (read : Cursor -> result CborError (CborValue * Cursor)) : Prop :=
  forall pre rest v c, bytes_ok rest -> read (at_ pre rest) = Ok (v, c) ->
    exists b rest', rest = b ++ rest' /\ c = at_ (pre ++ b) rest' /\ good n v b /\ bytes_ok rest'.

Lemma array_loop_inv n read count acc pre rest vs c :
  read_sound n read -> bytes_ok rest ->
  for_nat count (array_step read) (acc, at_ pre rest) = Ok (vs, c) ->
  exists ws bs rest', vs = acc ++ ws /\ length ws = count /\ Forall2 (good n) ws bs /\
    rest = concat bs ++ rest' /\ c = at_ (pre ++ concat bs) rest' /\ bytes_ok rest'.
Proof.
  intros Hread. revert acc pre rest. induction count as [|count IH]; intros acc pre rest Hr;
    cbn [for_nat].
  - intros [= <- <-]. exists [], [], rest. simpl. rewrite !app_nil_r. by repeat constructor.
  - unfold array_step at 1. destruct (read (at_ pre rest)) as [[v c1]|] eqn:E; [|done].
    apply Hread in E as (b & rest1 & -> & -> & Hg & Hr1); [|done]. intros H.
    apply IH in H as (ws & bs & rest' & -> & Hlen & Hws & -> & -> & Hr'); [|done].
    exists (v :: ws), (b :: bs), rest'. simpl. rewrite <- !app_assoc.
    split_and!; auto.
Qed.

Lemma map_loop_inv n read count acc prev pre rest es prev' c :
  read_sound n read -> bytes_ok rest ->
  for_nat count (map_step read) ((acc, prev), at_ pre rest) = Ok ((es, prev'), c) ->
  exists ws kvs rest', es = acc ++ ws /\ length ws = count /\
    Forall2 (fun e kv => good n e.1 kv.1 /\ good n e.2 kv.2) ws kvs /\
    StronglySorted (fun a b => bytes_lt a.1 b.1) kvs /\ key_above prev kvs /\
    rest = concat (map (fun kv => kv.1 ++ kv.2) kvs) ++ rest' /\
    c = at_ (pre ++ concat (map (fun kv => kv.1 ++ kv.2) kvs)) rest' /\ bytes_ok rest'.
Proof.
  intros Hread. revert acc prev pre rest. induction count as [|count IH];
    intros acc prev pre rest Hr; cbn [for_nat].
  - intros [= <- <- <-]. exists [], [], rest. simpl. rewrite !app_nil_r.
    destruct prev; by repeat constructor.
  - unfold map_step at 1. destruct (read (at_ pre rest)) as [[k c1]|] eqn:Ek; [|done].
    apply Hread in Ek as (kb & rest1 & -> & -> & Hgk & Hr1); [|done].
    cbn [position input at_].
    assert (take (Z.to_nat (zlen (pre ++ kb) - zlen pre))
      (drop (Z.to_nat (zlen pre)) ((pre ++ kb) ++ rest1)) = kb) as ->.
    { rewrite zlen_app. unfold zlen. rewrite Nat2Z.id, <- app_assoc, drop_app_length.
      replace (Z.to_nat _) with (length kb) by lia. apply take_app_length. }
    destruct (match prev with Some p => bytes_leb kb p | None => false end) eqn:Eprev; [done|].
    destruct (read (at_ (pre ++ kb) rest1)) as [[v c2]|] eqn:Ev; [|done].
    apply Hread in Ev as (vb & rest2 & -> & -> & Hgv & Hr2); [|done]. intros H.
    apply IH in H as (ws & kvs & rest' & -> & Hlen & Hws & Hs & Hp & -> & -> & Hr'); [|done].
    exists ((k, v) :: ws), ((kb, vb) :: kvs), rest'. simpl. rewrite <- !app_assoc.
    assert (key_above prev ((kb, vb) :: kvs)).
    { destruct prev as [p|]; [|done].
      assert (bytes_lt p kb) as Hpk.
      { unfold bytes_leb in Eprev. unfold bytes_lt. rewrite (bytes_compare_antisym kb p).
        by destruct (bytes_compare kb p). }
      constructor; [done|]. eapply Forall_impl; [exact Hp|]. eauto using bytes_lt_trans. }
    split_and!; auto. by constructor.
Qed.

Lemma sorted_lt_NoDup (kvs : list (bytes * bytes)) :
  StronglySorted (fun a b => bytes_lt a.1 b.1) kvs -> NoDup (map fst kvs).
Proof.
  induction 1 as [|kv kvs _ IH Hall]; simpl; [constructor|]. constructor; [|done].
  rewrite Forall_forall in Hall. intros Hin. apply list_elem_of_fmap in Hin as (kv' & Heq & Hin).
  apply Hall in Hin. rewrite <- Heq in Hin. by eapply bytes_lt_irrefl.
Qed.

Lemma sorted_lt_sort (kvs : list (bytes * bytes)) :
  StronglySorted (fun a b => bytes_lt a.1 b.1) kvs -> sort_by entry_leb kvs = kvs.
Proof.
  intros H. apply sort_by_id. induction H as [|kv kvs _ IH Hall]; constructor; [done|].
  eapply Forall_impl; [exact Hall|]. intros. apply bytes_leb_lt_eq. by left.
Qed.

Lemma depth_Array_lt l n :
  Forall (fun v => depth v < n)%nat l -> (depth (Array l) < S n)%nat.
Proof. cbn [depth]. induction 1; cbn [foldr]; lia. Qed.

Lemma depth_Map_lt l n :
  Forall (fun e => depth e.1 < n /\ depth e.2 < n)%nat l -> (depth (Map l) < S n)%nat.
Proof. cbn [depth]. induction 1; cbn [foldr]; lia. Qed.

Lemma good_array n vs bs a :
  Forall2 (good n) vs bs -> u64 a -> length vs = Z.to_nat a ->
  good (S n) (Array vs) (head_bytes 4 a ++ concat bs).
Proof.
  intros H Ha Hlen. assert (a = zlen vs) as -> by (unfold zlen; zlia).
  assert (Forall (fun v => cbor_ok v /\ (depth v < n)%nat) vs) as Hv.
  { clear -H. induction H as [|? ? ? ? (_ & ? & ?)]; constructor; auto. }
  apply Forall_and in Hv as [Hok Hd].
  split_and!; [|by constructor|by apply depth_Array_lt].
  apply enc_Array. exists bs. split; [|done].
  eapply Forall2_impl; [exact H|]. by intros ? ? (? & _).
Qed.

Lemma good_map n es kvs a :
  Forall2 (fun e kv => good n e.1 kv.1 /\ good n e.2 kv.2) es kvs ->
  StronglySorted (fun a b => bytes_lt a.1 b.1) kvs -> u64 a -> length es = Z.to_nat a ->
  good (S n) (Map es) (head_bytes 5 a ++ concat (map (fun kv => kv.1 ++ kv.2) kvs)).
Proof.
  intros H Hs Ha Hlen. assert (a = zlen es) as -> by (unfold zlen; zlia).
  assert (Forall (fun e => (cbor_ok e.1 /\ cbor_ok e.2) /\ (depth e.1 < n /\ depth e.2 < n)%nat) es)
    as Hv.
  { clear -H. induction H as [|? ? ? ? [(_ & ? & ?) (_ & ? & ?)]]; constructor; auto. }
  apply Forall_and in Hv as [Hok Hd].
  split_and!; [|by constructor|by apply depth_Map_lt].
  apply enc_Map. exists kvs. rewrite sorted_lt_sort by done.
  split_and!; [|by apply sorted_lt_NoDup|done].
  eapply Forall2_impl; [exact H|]. by intros ? ? [(? & _) (? & _)].
Qed.

Lemma good_number n a :
  u64 a -> good (S n) (Unsigned a) (head_bytes 0 a) /\
  (I64_MIN <= - a - 1 -> good (S n) (Negative (- a - 1)) (head_bytes 1 a)).
Proof.
  intros Ha. split; [|intros Hlo]; (split_and!; [|constructor; zlia|simpl; lia]); [done|].
  unfold enc, to_canonical_bytes. cbn [encode_into].
  destruct (Z.leb_spec 0 (- a - 1)); [zlia|]. rewrite wrap_small by zlia. unfold head_bytes.
  do 2 f_equal. lia.
Qed.

Lemma good_string n a raw :
  u64 a -> bytes_ok raw -> zlen raw = a -> good (S n) (Bytes raw) (head_bytes 2 a ++ raw) /\
  (forall s, from_utf8 raw = Some s -> good (S n) (Text s) (head_bytes 3 a ++ raw)).
Proof.
  intros Ha Hraw <-. split; [split_and!; [done|by constructor|simpl; lia]|].
  intros s Hs. apply from_utf8_Some in Hs as [<- Hsok]; [|done].
  split_and!; [done|by constructor|simpl; lia].
Qed.

Lemma good_simple n a w :
  a = 20 /\ w = Bool false \/ a = 21 /\ w = Bool true \/ a = 22 /\ w = Null ->
  good (S n) w (head_bytes 7 a).
Proof. intros [[-> ->]|[[-> ->]|[-> ->]]]; (split_and!; [done|constructor|simpl; lia]). Qed.

Ltac close_read Hg :=
  do 2 eexists; split_and!;
  [by rewrite app_assoc|by rewrite app_assoc|exact Hg|done].

Lemma read_value_sound levels : read_sound levels (read_value levels).
Proof.
  induction levels as [|n IH]; [done|]. intros pre rest v c Hr. cbn [read_value].
  destruct (read_head (at_ pre rest)) as [[[m a] c1]|] eqn:E; [|done].
  apply read_head_inv in E as (rest1 & -> & -> & Hm & Ha & Hr1); [|done].
  destruct (good_number n a Ha) as [HU HN].
  destruct (Z.eqb_spec m 0) as [->|_]; [intros [= <- <-]; eauto 8|].
  destruct (Z.eqb_spec m 1) as [->|_].
  { destruct (Z.ltb_spec (- a - 1) I64_MIN); [done|]. intros [= <- <-]. eauto 8. }
  destruct (Z.eqb_spec m 2) as [->|_].
  { destruct (take_bytes _ a) as [[raw c2]|] eqn:Et; [|done].
    apply take_at_inv in Et as (rest2 & -> & Hlen & ->); [|zlia].
    apply bytes_ok_app in Hr1 as [Hraw Hr2]. intros [= <- <-].
    destruct (good_string n a raw Ha Hraw Hlen) as [Hg _]. close_read Hg. }
  destruct (Z.eqb_spec m 3) as [->|_].
  { destruct (take_bytes _ a) as [[raw c2]|] eqn:Et; [|done].
    apply take_at_inv in Et as (rest2 & -> & Hlen & ->); [|zlia].
    apply bytes_ok_app in Hr1 as [Hraw Hr2].
    destruct (good_string n a raw Ha Hraw Hlen) as [_ Hg].
    destruct (from_utf8 raw) as [s|] eqn:Es; cbn [ok_or]; [|done]. intros [= <- <-].
    specialize (Hg s eq_refl). close_read Hg. }
  destruct (Z.eqb_spec m 4) as [->|_].
  { rewrite for_range_nat by zlia. destruct (for_nat _ _ _) as [[vs c2]|] eqn:El; [|done].
    apply (array_loop_inv n) in El as (ws & bs & rest2 & -> & Hlen & Hws & -> & -> & Hr2); [|done..].
    intros [= <- <-]. pose proof (good_array n ws bs a Hws Ha Hlen) as Hg. close_read Hg. }
  destruct (Z.eqb_spec m 5) as [->|_].
  { rewrite for_range_nat by zlia. destruct (for_nat _ _ _) as [[[es prev] c2]|] eqn:El; [|done].
    apply (map_loop_inv n) in El as (ws & kvs & rest2 & -> & Hlen & Hws & Hs & _ & -> & -> & Hr2);
      [|done..].
    intros [= <- <-]. pose proof (good_map n ws kvs a Hws Hs Ha Hlen) as Hg. close_read Hg. }
  destruct (Z.eqb_spec m 7) as [->|_]; [|done].
  repeat (case_match; breflect;
    [intros [= <- <-]; exists (head_bytes 7 a), rest1; split_and!; auto 8 using good_simple|]).
  done.
Qed.

(** ** Equality up to map order *)

Lemma cbor_eq_trans u v w : cbor_eq u v -> cbor_eq v w -> cbor_eq u w.
Proof.
  revert v w. induction u as [| | | |l IH|l IH| |] using CborValue_nested_ind;
    intros v w Huv Hvw; inversion Huv as [| | | |? k Hlk|? p k Hlp Hpk| |]; subst;
    inversion Hvw as [| | | |? m Hkm|? q m Hkq Hqm| |]; subst; auto.
  - constructor. clear Huv Hvw. revert k m Hlk Hkm.
    induction IH; intros k m Hlk Hkm; inversion Hlk; subst; inversion Hkm; subst;
      constructor; eauto.
  - destruct (Permutation_Forall2 Hkq (proj2 (Forall2_flip _ _ _) Hpk)) as (p' & Hp & Hp').
    apply (eq_Map _ p'); [by etrans|].
    assert (l ≡ₚ p') as Hlp' by by etrans.
    rewrite Hlp' in IH. apply Forall2_flip in Hp'.
    clear -IH Hqm Hp'. revert p' IH Hp'.
    induction Hqm as [|? ? ? ? [? ?] _ IHq]; intros p' IH Hp';
      inversion Hp' as [|? ? ? ? [? ?]]; subst; constructor;
      inversion IH as [|? ? [? ?]]; subst; eauto.
Qed.

#[global] Instance cbor_eq_equivalence : Equivalence cbor_eq.
Proof. split; [exact cbor_eq_refl|exact cbor_eq_sym|exact cbor_eq_trans]. Qed.

Lemma sort_entries_unique (kvs kvs' : list (bytes * bytes)) :
  kvs ≡ₚ kvs' -> NoDup (map fst kvs) -> sort_by entry_leb kvs = sort_by entry_leb kvs'.
Proof.
  intros Hp Hnd.
  assert (Irreflexive (fun a b : bytes * bytes => bytes_lt a.1 b.1)) by (intros x; apply bytes_lt_irrefl).
  assert (Transitive (fun a b : bytes * bytes => bytes_lt a.1 b.1))
    by (intros x y z; apply bytes_lt_trans).
  apply (strict_sorted_unique (fun a b => bytes_lt a.1 b.1)).
  - by apply sorted_entries.
  - apply sorted_entries. by rewrite <- Hp.
  - by rewrite !sort_by_perm.
Qed.

Lemma enc_respects v w b : cbor_eq v w -> enc v b -> enc w b.
Proof.
  revert w b. induction v as [| | | |l IH|l IH|bv|] using CborValue_nested_ind;
    intros w b Hvw; inversion Hvw as [| | | |? k Hlk|? p k Hlp Hpk| |]; subst; auto.
  - rewrite !enc_Array. intros (bs & Hbs & ->). exists bs.
    rewrite (zlen_Forall2 _ _ _ Hlk). split; [|done]. clear Hvw. revert k bs Hlk Hbs.
    induction IH; intros k bs Hlk Hbs; inversion Hlk; subst; inversion Hbs; subst; constructor; eauto.
  - rewrite !enc_Map. intros (kvs & Hkvs & Hnd & ->).
    destruct (Permutation_Forall2 Hlp Hkvs) as (kvs' & Hp & Hkvs'). exists kvs'.
    rewrite (sort_entries_unique kvs kvs') by done.
    rewrite <- (zlen_Forall2 _ _ _ Hpk), <- (zlen_Permutation _ _ Hlp).
    split_and!; [|by rewrite <- Hp|done]. rewrite Hlp in IH. clear -IH Hpk Hkvs'. revert k kvs' Hpk Hkvs'.
    induction IH as [|? ? [? ?]]; intros k kvs' Hpk Hkvs'; inversion Hpk as [|? ? ? ? [? ?]]; subst;
      inversion Hkvs' as [|? ? ? ? [? ?]]; subst; constructor; eauto.
Qed.

#[global] Instance enc_proper : Proper (cbor_eq ==> eq ==> iff) enc.
Proof. intros v w Hvw b ? <-. split; apply enc_respects; [done|by symmetry]. Qed.

(** ** Properties of the codec *)

Lemma bytes_ok_concat ls : Forall bytes_ok ls -> bytes_ok (concat ls).
Proof. induction 1; [constructor|]. cbn [concat]. by apply bytes_ok_app. Qed.

(** The encoder writes bytes. *)
Lemma enc_bytes_ok v b : cbor_ok v -> enc v b -> bytes_ok b.
Proof.
  revert b. induction v as [n|n|l|s|l IH|l IH|bv|] using CborValue_nested_ind; intros b Hok Henc;
    inversion Hok; subst.
  - injection Henc as <-. apply head_ok; [lia|done].
  - unfold enc, to_canonical_bytes in Henc. cbn [encode_into] in Henc. case_hyp Henc.
    injection Henc as <-. apply (head_ok 1); [lia|].
    pose proof (wrap_range 64 (- n - 1) ltac:(lia)). ints. lia.
  - injection Henc as <-. apply bytes_ok_app. split; [apply (head_ok 2); [lia|done]|done].
  - injection Henc as <-. apply bytes_ok_app. split; [apply (head_ok 3); [lia|done]|auto with ark].
  - apply enc_Array in Henc as (bs & Hbs & ->). apply bytes_ok_app. split; [by apply head_ok|].
    apply bytes_ok_concat. match goal with H : Forall cbor_ok l |- _ => rename H into Hl end.
    clear -IH Hbs Hl. revert l IH Hbs Hl. induction bs as [|b bs IHb]; intros l IH Hbs Hl; [constructor|].
    inversion Hbs; subst. apply Forall_cons in IH as [IHv IH]. apply Forall_cons in Hl as [Hv Hl].
    constructor; eauto.
  - apply enc_Map in Henc as (kvs & Hk & _ & ->). apply bytes_ok_app. split; [by apply head_ok|].
    apply bytes_ok_concat, Forall_map. rewrite sort_by_perm.
    match goal with H : Forall _ l |- _ => rename H into Hl end.
    clear -IH Hk Hl. revert l IH Hk Hl. induction kvs as [|[k w] kvs IHk]; intros l IH Hk Hl; [constructor|].
    inversion Hk as [|? ? ? ? [E1 E2]]; subst. apply Forall_cons in IH as [[I1 I2] IH].
    apply Forall_cons in Hl as [[V1 V2] Hl]. constructor; [|eauto]. cbn in *.
    apply bytes_ok_app. split; auto.
  - injection Henc as <-. apply bytes_ok_cons; [|apply bytes_ok_nil]. by destruct bv; vm_compute; split.
  - injection Henc as <-. apply bytes_ok_cons; [|apply bytes_ok_nil]. by vm_compute; split.
Qed.

Lemma decode_levels b v : decode_canonical b = Ok v -> bytes_ok b -> good (S MAX_DEPTH) v b.
Proof.
  unfold decode_canonical. intros H Hb. change (mkCursor b 0) with (at_ [] b) in H.
  destruct (read_value _ _) as [[v' c]|] eqn:E; [|done].
  apply read_value_sound in E as (b1 & rest & -> & -> & Hg & _); [|done].
  cbn [position at_ app] in H. destruct (Z.eqb_spec (zlen b1) (zlen (b1 ++ rest))) as [Hl|]; [|done].
  injection H as <-. autorewrite with ark in Hl.
  assert (rest = []) as -> by (destruct rest; [done|]; autorewrite with ark in Hl;
    pose proof (zlen_nonneg rest); lia).
  by rewrite app_nil_r.
Qed.

Lemma enc_same_read v w b :
  cbor_ok v -> cbor_ok w -> enc v b -> enc w b -> u64 (zlen b) -> cbor_eq v w.
Proof.
  intros Hv Hw Ev Ew Hu.
  destruct (enc_decodes v b Hv Ev) as (v' & Hvv & Rv), (enc_decodes w b Hw Ew) as (w' & Hww & Rw).
  specialize (Rv (S (depth v) + S (depth w))%nat [] [] ltac:(lia)).
  specialize (Rw (S (depth v) + S (depth w))%nat [] [] ltac:(lia)).
  rewrite app_nil_r in *. cbn [app] in *. rewrite Rv in Rw by done.
  injection (Rw ltac:(done)) as <-. by rewrite Hvv, Hww.
Qed.

Lemma enc_decodes_top v b :
  cbor_ok v -> (depth v <= MAX_DEPTH)%nat -> to_canonical_bytes v = Ok b -> u64 (zlen b) ->
  exists v', decode_canonical b = Ok v' /\ cbor_eq v v'.
Proof.
  intros Hok Hd Henc Hu. destruct (enc_decodes v b Hok Henc) as (v' & Heq & Hr).
  exists v'. split; [|done]. unfold decode_canonical.
  specialize (Hr (S MAX_DEPTH) [] [] ltac:(lia)). rewrite app_nil_r in Hr. cbn [app] in Hr.
  change (mkCursor b 0) with (at_ [] b). rewrite Hr by done. cbn [position at_].
  by rewrite Z.eqb_refl.
Qed.

(** A sample value for the witnesses below: [{"bb": [1, -2], "a": null}], with its
    keys in an order the encoding changes. *)
Definition sample_value : CborValue :=
  map_of [("bb"%string, Array [Unsigned 1; Negative (-2)]); ("a"%string, Null)].
Definition sample_bytes : bytes := [162; 97; 97; 246; 98; 98; 98; 130; 1; 33].

Ltac cbor_ok_solver :=
  repeat first [split | constructor | zlia | (vm_compute; congruence)].

(** Decoding the canonical encoding of a value of at most [MAX_DEPTH] levels
    gives that value back, up to the order of map entries, which the encoding
    does not carry. *)
Theorem decode_encode_roundtrip v b :
  cbor_ok v -> (depth v <= MAX_DEPTH)%nat -> to_canonical_bytes v = Ok b -> u64 (zlen b) ->
  exists v', decode_canonical b = Ok v' /\ cbor_eq v v'.
Proof. apply enc_decodes_top. Qed.

Lemma decode_encode_roundtrip_witness :
  exists v', decode_canonical sample_bytes = Ok v' /\ cbor_eq sample_value v'.
Proof.
  apply (decode_encode_roundtrip sample_value sample_bytes);
    [cbor_ok_solver|vm_compute; lia|reflexivity|cbor_ok_solver].
Defined.

(** C37. The decoder accepts nothing but canonical encodings: whatever it
    returns re-encodes to exactly the bytes it was given, is well formed and is
    nested at most [MAX_DEPTH] levels.  So no two byte strings decode to one
    value. *)
Theorem decode_canonical_sound b v :
  bytes_ok b -> decode_canonical b = Ok v ->
  to_canonical_bytes v = Ok b /\ cbor_ok v /\ (depth v <= MAX_DEPTH)%nat.
Proof.
  intros Hb Hd. destruct (decode_levels b v Hd Hb) as (? & ? & ?). split_and!; [done..|lia].
Qed.

Lemma decode_canonical_sound_witness :
  exists v, decode_canonical sample_bytes = Ok v /\ to_canonical_bytes v = Ok sample_bytes.
Proof.
  eexists. split; [vm_compute; reflexivity|].
  refine (proj1 (decode_canonical_sound sample_bytes _ _ _)); [cbor_ok_solver|vm_compute; reflexivity].
Defined.

(** Two well-formed values have the same canonical bytes exactly when they
    are the same value up to the order of map entries. *)
Theorem canonical_bytes_iff v w b :
  cbor_ok v -> cbor_ok w -> to_canonical_bytes v = Ok b -> u64 (zlen b) ->
  to_canonical_bytes w = Ok b <-> cbor_eq v w.
Proof.
  intros Hv Hw Ev Hu. split.
  - intros Ew. by eapply enc_same_read.
  - intros Heq. by eapply enc_respects.
Qed.

Lemma canonical_bytes_iff_witness :
  to_canonical_bytes (map_of [("a"%string, Null); ("bb"%string, Array [Unsigned 1; Negative (-2)])])
    = Ok sample_bytes <->
  cbor_eq sample_value (map_of [("a"%string, Null); ("bb"%string, Array [Unsigned 1; Negative (-2)])]).
Proof.
  apply (canonical_bytes_iff sample_value _ sample_bytes);
    [cbor_ok_solver|cbor_ok_solver|reflexivity|cbor_ok_solver].
Defined.

(** Canonical encodings are self-delimiting: no encoding is a proper prefix
    of another. *)
Theorem canonical_prefix_free v w b x :
  cbor_ok v -> cbor_ok w -> u64 (zlen (b ++ x)) ->
  to_canonical_bytes v = Ok b -> to_canonical_bytes w = Ok (b ++ x) -> x = [].
Proof.
  intros Hv Hw Hu Ev Ew.
  destruct (enc_decodes v b Hv Ev) as (v' & _ & Rv).
  destruct (enc_decodes w (b ++ x) Hw Ew) as (w' & _ & Rw).
  specialize (Rv (S (depth v) + S (depth w))%nat [] x ltac:(lia) Hu).
  specialize (Rw (S (depth v) + S (depth w))%nat [] [] ltac:(lia)).
  rewrite app_nil_r in Rw. cbn [app] in *. rewrite (Rw Hu) in Rv.
  injection Rv as _ _ Hl. autorewrite with ark in Hl. destruct x; [done|].
  autorewrite with ark in Hl. pose proof (zlen_nonneg x). lia.
Qed.

Lemma canonical_prefix_free_witness : @nil Z = [].
Proof.
  apply (canonical_prefix_free sample_value sample_value sample_bytes []);
    [cbor_ok_solver|cbor_ok_solver|cbor_ok_solver|reflexivity|reflexivity].
Defined.
