(* ===== verification/Sha256.v ===== *)
(** * SHA-256 (crates/arkforge-core/src/digest/sha256.rs)

    The streaming hasher as the code keeps it: eight state words, a 64-byte
    buffer whose bytes past [buffered] are stale, and the bit length modulo
    2^64.  [sha256_spec] is the FIPS 180-4 reference, which pads the whole
    message and folds the compression function over its blocks; the main
    theorem is that the streaming hasher computes it however the message is
    split into [update] calls. *)

From S2P Require Import Prelude.

(** ** Data *)

(** The round constants, one row of the source table per line. *)
Definition K : list Z :=
  [0x428a2f98; 0x71374491; 0xb5c0fbcf; 0xe9b5dba5; 0x3956c25b; 0x59f111f1; 0x923f82a4; 0xab1c5ed5] ++
  [0xd807aa98; 0x12835b01; 0x243185be; 0x550c7dc3; 0x72be5d74; 0x80deb1fe; 0x9bdc06a7; 0xc19bf174] ++
  [0xe49b69c1; 0xefbe4786; 0x0fc19dc6; 0x240ca1cc; 0x2de92c6f; 0x4a7484aa; 0x5cb0a9dc; 0x76f988da] ++
  [0x983e5152; 0xa831c66d; 0xb00327c8; 0xbf597fc7; 0xc6e00bf3; 0xd5a79147; 0x06ca6351; 0x14292967] ++
  [0x27b70a85; 0x2e1b2138; 0x4d2c6dfc; 0x53380d13; 0x650a7354; 0x766a0abb; 0x81c2c92e; 0x92722c85] ++
  [0xa2bfe8a1; 0xa81a664b; 0xc24b8b70; 0xc76c51a3; 0xd192e819; 0xd6990624; 0xf40e3585; 0x106aa070] ++
  [0x19a4c116; 0x1e376c08; 0x2748774c; 0x34b0bcb5; 0x391c0cb3; 0x4ed8aa4a; 0x5b9cca4f; 0x682e6ff3] ++
  [0x748f82ee; 0x78a5636f; 0x84c87814; 0x8cc70208; 0x90befffa; 0xa4506ceb; 0xbef9a3f7; 0xc67178f2].

(** The eight chaining words (and the eight working variables). *)
Record words := mkWords { w0 : Z; w1 : Z; w2 : Z; w3 : Z; w4 : Z; w5 : Z; w6 : Z; w7 : Z }.

Definition IV : words :=
  mkWords 0x6a09e667 0xbb67ae85 0x3c6ef372 0xa54ff53a 0x510e527f 0x9b05688c 0x1f83d9ab 0x5be0cd19.

Record Sha256Digest := mkDigest { digest_bytes : bytes }.

#[global] Instance Sha256Digest_eq_dec : EqDecision Sha256Digest.
Proof. solve_decision. Defined.

(** The type is [[u8; 32]]. *)
Definition digest_ok (d : Sha256Digest) : Prop :=
  length (digest_bytes d) = 32%nat /\ bytes_ok (digest_bytes d).

Record Sha256 := mkSha256 {
  state : words;
  buffer : bytes;
  buffered : nat;
  length_bits : Z
}.

(** ** Hex *)

Inductive DigestParseError : Type :=
| Length (found : Z)
| Character (found : Z).

Definition hex_nibble (value : Z) : Z := if value <=? 9 then 48 + value else 97 + value - 10.

Definition hex_value (byte : Z) : result DigestParseError Z :=
  if (48 <=? byte) && (byte <=? 57) then Ok (byte - 48)
  else if (97 <=? byte) && (byte <=? 102) then Ok (byte - 97 + 10)
  else Err (Character byte).

Definition to_hex (d : Sha256Digest) : string :=
  string_of_bytes
    (flat_map (fun byte => [hex_nibble (Z.shiftr byte 4); hex_nibble (Z.land byte 15)])
              (digest_bytes d)).

(** The [while index < 32] loop, two characters at a time. *)
Fixpoint parse_pairs (n : nat) (l : bytes) : result DigestParseError bytes :=
  match n with
  | O => Ok []
  | S n =>
      let? high := hex_value (nth 0 l 0) in
      let? low := hex_value (nth 1 l 0) in
      let? rest := parse_pairs n (drop 2 l) in
      Ok (Z.lor (Z.shiftl high 4) low :: rest)
  end.

Definition parse_hex (text : string) : result DigestParseError Sha256Digest :=
  let l := bytes_of_string text in
  if negb (zlen l =? 64) then Err (Length (zlen l))
  else let? out := parse_pairs 32 l in Ok (mkDigest out).

(** ** Compression *)

Definition wrapping_add (a b : Z) : Z := wrap 32 (a + b).
Definition rotate_right (x n : Z) : Z := Z.lor (Z.shiftr x n) (wrap 32 (Z.shiftl x (32 - n))).
Definition not32 (x : Z) : Z := Z.lxor x U32_MAX.

(** The first sixteen schedule words, big-endian from the block. *)
Fixpoint block_words (n : nat) (block : bytes) : list Z :=
  match n with
  | O => []
  | S n => from_be_bytes (take 4 block) :: block_words n (drop 4 block)
  end.

(** [w[index]] for [index] in [16..64]. *)
Definition extend_schedule (w : list Z) : list Z :=
  let index := length w in
  let x := nth (index - 15) w 0 in
  let y := nth (index - 2) w 0 in
  let s0 := Z.lxor (Z.lxor (rotate_right x 7) (rotate_right x 18)) (Z.shiftr x 3) in
  let s1 := Z.lxor (Z.lxor (rotate_right y 17) (rotate_right y 19)) (Z.shiftr y 10) in
  w ++ [wrapping_add (wrapping_add (wrapping_add (nth (index - 16) w 0) s0)
                                   (nth (index - 7) w 0)) s1].

Definition schedule (block : bytes) : list Z := Nat.iter 48 extend_schedule (block_words 16 block).

(** One of the 64 rounds. *)
Definition round (v : words) (kw : Z * Z) : words :=
  let '(mkWords a b c d e f g h) := v in
  let '(k, w) := kw in
  let s1 := Z.lxor (Z.lxor (rotate_right e 6) (rotate_right e 11)) (rotate_right e 25) in
  let ch := Z.lxor (Z.land e f) (Z.land (not32 e) g) in
  let temp1 := wrapping_add (wrapping_add (wrapping_add (wrapping_add h s1) ch) k) w in
  let s0 := Z.lxor (Z.lxor (rotate_right a 2) (rotate_right a 13)) (rotate_right a 22) in
  let maj := Z.lxor (Z.lxor (Z.land a b) (Z.land a c)) (Z.land b c) in
  let temp2 := wrapping_add s0 maj in
  mkWords (wrapping_add temp1 temp2) a b c (wrapping_add d temp1) e f g.

Definition compress (st : words) (block : bytes) : words :=
  let v := foldl round st (zip K (schedule block)) in
  mkWords (wrapping_add (w0 st) (w0 v)) (wrapping_add (w1 st) (w1 v))
          (wrapping_add (w2 st) (w2 v)) (wrapping_add (w3 st) (w3 v))
          (wrapping_add (w4 st) (w4 v)) (wrapping_add (w5 st) (w5 v))
          (wrapping_add (w6 st) (w6 v)) (wrapping_add (w7 st) (w7 v)).

(** ** Streaming *)

Definition new : Sha256 := mkSha256 IV (replicate 64 0) 0 0.

(** [dst[at..at + src.len()].copy_from_slice(src)]. *)
Definition splice (dst : bytes) (at_ : nat) (src : bytes) : bytes :=
  take at_ dst ++ src ++ drop (at_ + length src) dst.

(** Append to the buffer and compress it when it is full. *)
Definition fill (h : Sha256) (src : bytes) : Sha256 :=
  let buf := splice (buffer h) (buffered h) src in
  let n := (buffered h + length src)%nat in
  if (n =? 64)%nat then mkSha256 (compress (state h) buf) buf 0 (length_bits h)
  else mkSha256 (state h) buf n (length_bits h).

(** [while data.len() >= 64]; [fuel] bounds the iterations by the input length. *)
Fixpoint whole_blocks (fuel : nat) (st : words) (data : bytes) : words * bytes :=
  match fuel with
  | O => (st, data)
  | S fuel =>
      if (64 <=? length data)%nat
      then whole_blocks fuel (compress st (take 64 data)) (drop 64 data)
      else (st, data)
  end.

Definition update (h : Sha256) (data : bytes) : Sha256 :=
  let h := mkSha256 (state h) (buffer h) (buffered h)
             (wrap 64 (length_bits h + wrap 64 (zlen data * 8))) in
  let '(h, data) :=
    if (0 <? buffered h)%nat then
      let want := (64 - buffered h)%nat in
      let taken := Nat.min want (length data) in
      (fill h (take taken data), drop taken data)
    else (h, data) in
  let '(st, data) := whole_blocks (length data) (state h) data in
  match data with
  | [] => mkSha256 st (buffer h) (buffered h) (length_bits h)
  | _ => mkSha256 st (splice (buffer h) 0 data) (length data) (length_bits h)
  end.

(** The loop of [finalize]: feed [tail] through the buffer; [fuel] bounds the
    iterations by the tail's length. *)
Fixpoint feed (fuel : nat) (h : Sha256) (tail : bytes) : Sha256 :=
  match fuel with
  | O => h
  | S fuel =>
      match tail with
      | [] => h
      | _ =>
          let want := (64 - buffered h)%nat in
          let taken := Nat.min want (length tail) in
          feed fuel (fill h (take taken tail)) (drop taken tail)
      end
  end.

Definition output (st : words) : Sha256Digest :=
  mkDigest (flat_map (to_be_bytes 4)
    [w0 st; w1 st; w2 st; w3 st; w4 st; w5 st; w6 st; w7 st]).

Definition finalize (h : Sha256) : Sha256Digest :=
  let pad_len := if (buffered h <? 56)%nat then (56 - buffered h)%nat else (120 - buffered h)%nat in
  let tail := splice (splice (replicate 72 0) 0 [128]) pad_len (to_be_bytes 8 (length_bits h)) in
  let total := (pad_len + 8)%nat in
  output (state (feed total h (take total tail))).

Definition sha256 (data : bytes) : Sha256Digest := finalize (update new data).

(** Published vectors: the empty message and "abc". *)
Example sha256_empty :
  to_hex (sha256 []) = "e3b0c44298fc1c149afbf4c8996fb92427ae41e4649b934ca495991b7852b855"%string.
Proof. vm_compute. reflexivity. Qed.

Example sha256_abc :
  to_hex (sha256 (bytes_of_string "abc")) =
  "ba7816bf8f01cfea414140de5dae2223b00361a396177a9cb410ff61f20015ad"%string.
Proof. vm_compute. reflexivity. Qed.

Example sha256_two_blocks :
  to_hex (sha256 (bytes_of_string "abcdbcdecdefdefgefghfghighijhijkijkljklmklmnlmnomnopnopq")) =
  "248d6a61d20638b8e5c026930c3e6039a33ce45964ff2167f6ecedd419db06c1"%string.
Proof. vm_compute. reflexivity. Qed.

(** ** Reference (FIPS 180-4, 5.1.1 and 6.2.2) *)

(** A one bit, [k] zero bits with [len + 1 + k = 448 mod 512], the 64-bit length. *)
Definition padding (m : bytes) : bytes :=
  128 :: replicate (Z.to_nat ((55 - zlen m) mod 64)) 0 ++ to_be_bytes 8 (wrap 64 (zlen m * 8)).

Fixpoint chunks (n : nat) (m : bytes) : list bytes :=
  match n with
  | O => []
  | S n => take 64 m :: chunks n (drop 64 m)
  end.

Definition sha256_spec (m : bytes) : Sha256Digest :=
  let padded := m ++ padding m in
  output (foldl compress IV (chunks (length padded / 64) padded)).

(** ** Absorbing a message *)

(** Compress every whole block; what is left is shorter than a block. *)
Definition absorb (st : words) (d : bytes) : words * bytes := whole_blocks (length d) st d.

Lemma whole_blocks_fuel f g st d :
  (length d <= f)%nat -> (length d <= g)%nat -> whole_blocks f st d = whole_blocks g st d.
Proof.
  revert g st d. induction f as [|f IH]; intros g st d Hf Hg.
  - destruct d; simpl in *; [by destruct g|lia].
  - destruct g as [|g]; [destruct d; simpl in *; [done|lia]|]. cbn [whole_blocks].
    destruct (Nat.leb_spec 64 (length d)); [|done]. apply IH; rewrite length_drop; lia.
Qed.

Lemma absorb_short st d : (length d < 64)%nat -> absorb st d = (st, d).
Proof.
  intros H. unfold absorb. destruct (length d) eqn:E; [done|]. cbn [whole_blocks].
  rewrite E. destruct (Nat.leb_spec 64 (S n)); [lia|done].
Qed.

Lemma absorb_long st d :
  (64 <= length d)%nat -> absorb st d = absorb (compress st (take 64 d)) (drop 64 d).
Proof.
  intros H. unfold absorb at 1. destruct (length d) eqn:E; [lia|]. cbn [whole_blocks].
  rewrite E. destruct (Nat.leb_spec 64 (S n)); [|lia].
  apply whole_blocks_fuel; rewrite length_drop; lia.
Qed.

Lemma absorb_ind (P : words -> bytes -> Prop) :
  (forall st d, (length d < 64)%nat -> P st d) ->
  (forall st d, (64 <= length d)%nat -> P (compress st (take 64 d)) (drop 64 d) -> P st d) ->
  forall st d, P st d.
Proof.
  intros Hs Hl st d. remember (length d) as n eqn:E. revert st d E.
  induction n as [n IH] using lt_wf_ind. intros st d ->.
  destruct (Nat.lt_ge_cases (length d) 64); [by apply Hs|]. apply Hl; [done|].
  eapply IH; [|done]. rewrite length_drop. lia.
Qed.

Lemma absorb_rest st d : (length (absorb st d).2 < 64)%nat.
Proof.
  revert st d. apply absorb_ind; intros; [by rewrite absorb_short|by rewrite absorb_long].
Qed.

Lemma absorb_app st a b :
  absorb st (a ++ b) = absorb (absorb st a).1 ((absorb st a).2 ++ b).
Proof.
  revert st a. apply absorb_ind; intros st d Hl; [by rewrite (absorb_short st d)|]. intros IH.
  rewrite (absorb_long st d) by done. rewrite absorb_long by (rewrite length_app; lia).
  by rewrite take_app_le, drop_app_le by lia.
Qed.

Lemma absorb_chunks st d : (absorb st d).1 = foldl compress st (chunks (length d / 64) d).
Proof.
  revert st d. apply absorb_ind; [intros st d Hl|intros st d Hl IH].
  - rewrite absorb_short by done. by rewrite Nat.div_small.
  - rewrite absorb_long by done. rewrite IH, length_drop.
    replace (length d / 64)%nat with (S ((length d - 64) / 64)); [done|].
    replace (length d) with (length d - 64 + 1 * 64)%nat at 2 by lia.
    rewrite Nat.div_add by lia. lia.
Qed.

(** ** The hasher absorbs *)

Definition rest (h : Sha256) : bytes := take (buffered h) (buffer h).
Definition sha_ok (h : Sha256) : Prop := length (buffer h) = 64%nat /\ (buffered h < 64)%nat.

(** [h'] has absorbed [d] after [h]. *)
Definition absorbs (h h' : Sha256) (d : bytes) : Prop :=
  sha_ok h' /\ (state h', rest h') = absorb (state h) (rest h ++ d).

Lemma rest_length h : sha_ok h -> length (rest h) = buffered h.
Proof. intros [Hb Hn]. unfold rest. rewrite length_take. lia. Qed.

Lemma splice_length dst n src :
  (n + length src <= length dst)%nat -> length (splice dst n src) = length dst.
Proof. intros H. unfold splice. rewrite !length_app, length_take, length_drop. lia. Qed.

Lemma splice_take dst n src :
  (n + length src <= length dst)%nat -> take (n + length src) (splice dst n src) = take n dst ++ src.
Proof.
  intros H. unfold splice. rewrite app_assoc. apply take_app_length'.
  rewrite length_app, length_take. lia.
Qed.

Lemma fill_absorbs h src :
  sha_ok h -> (length src <= 64 - buffered h)%nat ->
  absorbs h (fill h src) src /\ length_bits (fill h src) = length_bits h.
Proof.
  intros Hok Hl. pose proof Hok as [Hb Hn]. unfold absorbs, fill.
  assert (length (splice (buffer h) (buffered h) src) = 64%nat) as Hlen
    by (rewrite splice_length; lia).
  pose proof (splice_take (buffer h) (buffered h) src ltac:(lia)) as Ht.
  pose proof (rest_length h Hok) as Hr. unfold sha_ok.
  destruct (Nat.eqb_spec (buffered h + length src) 64) as [E|E]; cbn [state buffer buffered length_bits].
  - split_and!; [done|lia| |done]. rewrite E in Ht. rewrite take_ge in Ht by lia.
    unfold rest. cbn [buffer buffered take].
    rewrite absorb_long, absorb_short by (rewrite ?length_drop, length_app, length_take; lia).
    rewrite <- Ht. by rewrite (take_ge _ 64), (drop_ge _ 64), take_0 by lia.
  - split_and!; [done|lia| |done]. unfold rest at 1. cbn [buffer buffered]. rewrite Ht.
    rewrite absorb_short; [done|]. rewrite length_app, Hr. lia.
Qed.

Lemma absorbs_trans h1 h2 h3 a b :
  absorbs h1 h2 a -> absorbs h2 h3 b -> absorbs h1 h3 (a ++ b).
Proof.
  intros [_ H1] [Hok H2]. split; [done|]. rewrite app_assoc, absorb_app, <- H1. exact H2.
Qed.

Lemma feed_absorbs fuel h tail :
  sha_ok h -> (length tail <= fuel)%nat -> absorbs h (feed fuel h tail) tail.
Proof.
  revert h tail. induction fuel as [|fuel IH]; intros h tail Hok Hf.
  - destruct tail; [|simpl in Hf; lia]. split; [done|]. rewrite app_nil_r.
    rewrite absorb_short; [done|]. rewrite rest_length by done. apply Hok.
  - destruct tail as [|x tail].
    { split; [done|]. rewrite app_nil_r, absorb_short; [done|].
      rewrite rest_length by done. apply Hok. }
    cbn [feed]. set (t := x :: tail) in *. set (n := Nat.min _ _).
    destruct (fill_absorbs h (take n t) Hok) as [Hfill _]; [rewrite length_take; lia|].
    rewrite <- (take_drop n t) at 3. eapply absorbs_trans; [exact Hfill|].
    apply IH; [apply Hfill|]. rewrite length_drop. destruct Hok. unfold t in *. simpl in *. lia.
Qed.

(** The part of [update] after the buffer: [data] is what is left and the
    buffer is empty, or there is nothing left. *)
Lemma blocks_absorb h data :
  sha_ok h -> buffered h = O \/ data = [] ->
  absorbs h
    (let '(st, data) := whole_blocks (length data) (state h) data in
     match data with
     | [] => mkSha256 st (buffer h) (buffered h) (length_bits h)
     | _ => mkSha256 st (splice (buffer h) 0 data) (length data) (length_bits h)
     end) data.
Proof.
  intros Hok Hcase. fold (absorb (state h) data). pose proof (absorb_rest (state h) data) as Hlt.
  assert (absorb (state h) (rest h ++ data) =
            if decide (data = []) then (state h, rest h) else absorb (state h) data) as Heq.
  { case_decide as Hd.
    - subst. rewrite app_nil_r, absorb_short; [done|]. rewrite rest_length by done. apply Hok.
    - destruct Hcase as [Hz|]; [|done]. unfold rest. by rewrite Hz. }
  destruct (absorb (state h) data) as [st d] eqn:E. cbn [snd] in Hlt. unfold absorbs.
  destruct d as [|x d].
  - split; [exact Hok|]. rewrite Heq. unfold rest at 1. cbn [state buffer buffered].
    case_decide as Hd; [subst; simpl in E; by injection E as <-|].
    destruct Hcase as [Hz|]; [|done]. by rewrite Hz.
  - destruct Hok as [Hb Hn]. split.
    + split; cbn [buffer buffered]; [rewrite splice_length; lia|done].
    + rewrite Heq. case_decide as Hd; [subst; by injection E|].
      unfold rest. cbn [state buffer buffered].
      pose proof (splice_take (buffer h) 0 (x :: d) ltac:(lia)) as Ht.
      cbn [Nat.add take] in Ht. by rewrite Ht.
Qed.

Lemma update_absorbs h data :
  sha_ok h ->
  absorbs h (update h data) data /\
  length_bits (update h data) = wrap 64 (length_bits h + wrap 64 (zlen data * 8)).
Proof.
  intros Hok. unfold update.
  set (h0 := mkSha256 _ _ _ _). assert (sha_ok h0) as Hok0 by exact Hok.
  destruct (Nat.ltb_spec 0 (buffered h0)) as [Hpos|Hz].
  - set (n := Nat.min _ _).
    destruct (fill_absorbs h0 (take n data) Hok0) as [Hf Hbits]; [rewrite length_take; lia|].
    set (h1 := fill _ _) in *.
    pose proof (blocks_absorb h1 (drop n data) (proj1 Hf)) as Hblk.
    destruct (whole_blocks (length (drop n data)) (state h1) (drop n data)) as [st d]. split.
    + rewrite <- (take_drop n data). eapply absorbs_trans; [exact Hf|]. apply Hblk.
      assert (n = (64 - buffered h0)%nat \/ n = length data) as [Hn|Hn] by lia.
      * left. unfold h1, fill. rewrite length_take.
        destruct Hok0. rewrite (proj2 (Nat.eqb_eq _ 64)); [done|lia].
      * right. apply drop_ge. lia.
    + destruct d; cbn [length_bits]; by rewrite Hbits.
  - pose proof (blocks_absorb h0 data Hok0 ltac:(left; lia)) as Hblk.
    destruct (whole_blocks (length data) (state h0) data) as [st d] eqn:E. split; [exact Hblk|].
    by destruct d.
Qed.

(** ** Correctness *)

(** [h] is the hasher after the message [m]. *)
Definition hashes (h : Sha256) (m : bytes) : Prop :=
  absorbs (mkSha256 IV (replicate 64 0) 0 0) h m /\ length_bits h = wrap 64 (zlen m * 8).

Lemma hashes_new : hashes new [].
Proof. split; [split; [split; simpl; lia|reflexivity]|reflexivity]. Qed.

Lemma hashes_update h m d : hashes h m -> hashes (update h d) (m ++ d).
Proof.
  intros [Ha Hb]. destruct (update_absorbs h d (proj1 Ha)) as [Hu Hl]. split.
  - by eapply absorbs_trans.
  - rewrite Hl, Hb. unfold wrap. rewrite <- Z.add_mod by done. rewrite zlen_app. f_equal. lia.
Qed.

Lemma hashes_fold ds h m : hashes h m -> hashes (foldl update h ds) (m ++ concat ds).
Proof.
  revert h m. induction ds as [|d ds IH]; intros h m H; simpl; [by rewrite app_nil_r|].
  rewrite app_assoc. by apply IH, hashes_update.
Qed.

Lemma absorb_rest_mod st d : length (absorb st d).2 = (length d mod 64)%nat.
Proof.
  revert st d. apply absorb_ind; [intros st d Hl|intros st d Hl IH].
  - rewrite absorb_short by done. by rewrite Nat.mod_small.
  - rewrite absorb_long by done. rewrite IH, length_drop.
    replace (length d) with (length d - 64 + 1 * 64)%nat at 2 by lia. by rewrite Nat.Div0.mod_add.
Qed.

Lemma hashes_buffered h m : hashes h m -> buffered h = (length m mod 64)%nat.
Proof.
  intros [[Hok Ha] _]. rewrite <- (rest_length h Hok).
  change (absorb _ _) with (absorb IV m) in Ha.
  replace (rest h) with (absorb IV m).2 by by rewrite <- Ha. apply absorb_rest_mod.
Qed.

(** The bytes [finalize] feeds are the padding of the message. *)
Lemma finalize_tail h m :
  hashes h m ->
  let pad_len := if (buffered h <? 56)%nat then (56 - buffered h)%nat else (120 - buffered h)%nat in
  take (pad_len + 8)
    (splice (splice (replicate 72 0) 0 [128]) pad_len (to_be_bytes 8 (length_bits h))) = padding m.
Proof.
  intros Hh pad_len. pose proof (hashes_buffered h m Hh) as Hb. destruct Hh as [_ Hl].
  assert (1 <= pad_len <= 64)%nat as Hp.
  { unfold pad_len. pose proof (Nat.mod_upper_bound (length m) 64).
    destruct (Nat.ltb_spec (buffered h) 56); lia. }
  assert (Z.to_nat ((55 - zlen m) mod 64) = (pad_len - 1)%nat) as Hk.
  { unfold pad_len, zlen. rewrite Hb. pose proof (Nat.div_mod_eq (length m) 64) as Hd.
    pose proof (Nat.mod_upper_bound (length m) 64).
    set (q := (length m / 64)%nat) in *. set (r := (length m mod 64)%nat) in *.
    destruct (Nat.ltb_spec r 56).
    - replace (55 - Z.of_nat (length m)) with (55 - Z.of_nat r + (- Z.of_nat q) * 64) by lia.
      rewrite Z.mod_add, Z.mod_small by lia. lia.
    - replace (55 - Z.of_nat (length m)) with (119 - Z.of_nat r + (- Z.of_nat q - 1) * 64) by lia.
      rewrite Z.mod_add, Z.mod_small by lia. lia. }
  change (splice (replicate 72 0) 0 [128]) with (128 :: replicate 71 0).
  rewrite <- (to_be_length 8 (length_bits h)) at 1.
  rewrite splice_take by (rewrite to_be_length; simpl; lia).
  unfold padding. rewrite Hk, Hl. destruct pad_len as [|p]; [lia|]. cbn [take Nat.sub app].
  rewrite take_replicate, Nat.sub_0_r. do 3 f_equal. lia.
Qed.

Lemma finalize_spec h m : hashes h m -> finalize h = sha256_spec m.
Proof.
  intros Hh. pose proof (finalize_tail h m Hh) as Ht. unfold finalize. cbn zeta in Ht.
  rewrite Ht. set (n := (_ + 8)%nat) in *.
  assert (absorbs h (feed n h (padding m)) (padding m)) as Hf.
  { apply feed_absorbs; [apply Hh|]. rewrite <- Ht, length_take. lia. }
  destruct (absorbs_trans _ _ _ _ _ (proj1 Hh) Hf) as [_ Habs].
  change (rest _ ++ _) with (m ++ padding m) in Habs. cbn [state] in Habs.
  unfold sha256_spec. rewrite <- absorb_chunks, <- Habs. done.
Qed.

Lemma output_ok st : digest_ok (output st).
Proof.
  unfold digest_ok, output. cbn [digest_bytes flat_map]. split.
  - rewrite !length_app, !to_be_length. done.
  - repeat (apply bytes_ok_app; split; [apply to_be_ok|]). constructor.
Qed.

Lemma streaming_spec (ds : list bytes) : finalize (foldl update new ds) = sha256_spec (concat ds).
Proof. apply finalize_spec. apply (hashes_fold ds new []). exact hashes_new. Qed.

Lemma two_updates_spec a b : finalize (update (update new a) b) = sha256_spec (a ++ b).
Proof.
  rewrite <- (app_nil_r b) at 2. exact (streaming_spec [a; b]).
Qed.

(** The streaming hasher computes FIPS 180-4 SHA-256 of the concatenation of
    everything it was given, however the message was split into [update] calls:
    its buffering, block loop, padding and length counting are equivalent to
    hashing the padded message block by block.  The result is 32 bytes. *)
Theorem streaming_is_sha256 (ds : list bytes) :
  finalize (foldl update new ds) = sha256_spec (concat ds) /\
  digest_ok (finalize (foldl update new ds)).
Proof. split; [apply streaming_spec|apply output_ok]. Qed.

Lemma sha256_is_spec d : sha256 d = sha256_spec d.
Proof. apply finalize_spec. apply (hashes_update new [] d). exact hashes_new. Qed.

Lemma finalize_ok h : digest_ok (finalize h).
Proof. apply output_ok. Qed.

Lemma sha256_ok d : digest_ok (sha256 d).
Proof. apply output_ok. Qed.

(** ** Hex round trip *)

Lemma hex_value_nibble v : 0 <= v < 16 -> hex_value (hex_nibble v) = Ok v.
Proof.
  intros Hv. unfold hex_nibble, hex_value.
  destruct (Z.leb_spec v 9); repeat case_match; breflect; try lia; f_equal; try lia.
  all: apply andb_false_iff in H0; destruct H0; breflect; lia.
Qed.

Lemma nibbles b : u8 b -> 0 <= Z.shiftr b 4 < 16 /\ 0 <= Z.land b 15 < 16 /\
  Z.lor (Z.shiftl (Z.shiftr b 4) 4) (Z.land b 15) = b.
Proof.
  intros Hb. change 15 with (Z.ones 4). rewrite Z.land_ones, Z.shiftr_div_pow2 by lia.
  change (2 ^ 4) with 16. pose proof (Z.mod_pos_bound b 16 ltac:(lia)).
  assert (0 <= b / 16 < 16) by (ints; split; [apply Z.div_pos; lia|apply Z.div_lt_upper_bound; lia]).
  split_and!; try lia. rewrite lor_shiftl_add by lia. pose proof (Z.div_mod b 16). lia.
Qed.

Definition hex_pairs (l : bytes) : bytes :=
  flat_map (fun byte => [hex_nibble (Z.shiftr byte 4); hex_nibble (Z.land byte 15)]) l.

Lemma parse_hex_pairs l : bytes_ok l -> parse_pairs (length l) (hex_pairs l) = Ok l.
Proof.
  induction 1 as [|b l Hb _ IH]; [done|].
  destruct (nibbles b Hb) as (H1 & H2 & H3).
  change (hex_pairs (b :: l)) with
    (hex_nibble (Z.shiftr b 4) :: hex_nibble (Z.land b 15) :: hex_pairs l).
  cbn [length parse_pairs nth skipn].
  rewrite (hex_value_nibble _ H1), (hex_value_nibble _ H2), drop_0, IH, H3. done.
Qed.

Lemma hex_pairs_ok l : bytes_ok l -> bytes_ok (hex_pairs l) /\ length (hex_pairs l) = (2 * length l)%nat.
Proof.
  induction 1 as [|b l Hb _ [IH1 IH2]]; [split; [constructor|done]|].
  destruct (nibbles b Hb) as (H1 & H2 & _).
  assert (forall v, 0 <= v < 16 -> u8 (hex_nibble v)) as Hu
    by (intros; unfold hex_nibble; case_match; zlia).
  change (hex_pairs (b :: l)) with
    (hex_nibble (Z.shiftr b 4) :: hex_nibble (Z.land b 15) :: hex_pairs l).
  split; [auto with ark|]. simpl. lia.
Qed.

Lemma hex_pairs_ascii l : bytes_ok l -> Forall (fun b => b < 128) (hex_pairs l).
Proof.
  induction 1 as [|b l Hb _ IH]; [constructor|]. destruct (nibbles b Hb) as (H1 & H2 & _).
  assert (forall v, 0 <= v < 16 -> hex_nibble v < 128) by (intros; unfold hex_nibble; case_match; lia).
  cbn [hex_pairs flat_map app]. by repeat constructor; auto.
Qed.

(** A digest printed as hex parses back to itself, so a digest stored as text
    (a receipt digest in a journal fact) identifies the digest. *)
Theorem parse_hex_to_hex d : digest_ok d -> parse_hex (to_hex d) = Ok d.
Proof.
  intros [Hl Hb]. unfold parse_hex, to_hex. fold (hex_pairs (digest_bytes d)).
  destruct (hex_pairs_ok _ Hb) as [Hok Hlen].
  rewrite bytes_of_string_of_bytes by done.
  assert (zlen (hex_pairs (digest_bytes d)) = 64) as -> by (unfold zlen; rewrite Hlen, Hl; done).
  rewrite Z.eqb_refl. cbn [negb].
  assert (parse_pairs 32 (hex_pairs (digest_bytes d)) = Ok (digest_bytes d)) as ->
    by (rewrite <- Hl; by apply parse_hex_pairs).
  by destruct d.
Qed.

Lemma parse_hex_to_hex_witness :
  parse_hex (to_hex (sha256 (bytes_of_string "abc"))) = Ok (sha256 (bytes_of_string "abc")).
Proof. apply (parse_hex_to_hex (sha256 (bytes_of_string "abc"))). apply sha256_ok. Defined.
