(* ===== verification/Digest.v ===== *)
(** * Digest domains, HMAC and identifiers

    crates/arkforge-core/src/digest/mod.rs (domain separation, ordered digests,
    HMAC-SHA-256, constant-time comparison), the [CanonicalCbor] trait of
    digest/cbor.rs, and crates/arkforge-core/src/ids.rs.

    [CborModel] is the promise a type makes to the digest layer: its CBOR is
    well formed and determines the value up to a stated equivalence.  The
    theorems about digests are proved against it once, and the journal, the
    permits and the effect sets are instances. *)

From S2P Require Import Prelude Cbor Sha256.

(** ** Domains *)

Inductive Domain : Type :=
| DPrivateAction
| DProviderExecutionPlan
| DPublicProjection
| DPublicStep
| DEffectSet
| DPlan
| DDeviceObservation
| DAdmissionDeviceFacts
| DUsbTopology
| DUsbDescriptor
| DDeviceSerial
| DRescueDeviceFacts
| DTransportSession
| DProviderFacts
| DToolchainFacts
| DArtifactFacts
| DArtifactManifest
| DDeviceProfile
| DAdmissionSnapshot
| DActionReceipt
| DPossibleEffectSet
| DJournalRecord
| DTranscript
| DRecoveryCoverage
| DRescuePlan
| DRescueReceipt
| DAuthoritySupportKey.

#[global] Instance Domain_eq_dec : EqDecision Domain.
Proof. solve_decision. Defined.

(** The printable part of each prefix; [as_bytes] adds the trailing NUL. *)
Definition domain_label (d : Domain) : string :=
  match d with
  | DPrivateAction => "arkforge/v1/private-action"
  | DProviderExecutionPlan => "arkforge/v1/provider-execution-plan"
  | DPublicProjection => "arkforge/v1/public-projection"
  | DPublicStep => "arkforge/v1/public-step"
  | DEffectSet => "arkforge/v1/effect-set"
  | DPlan => "arkforge/v1/plan"
  | DDeviceObservation => "arkforge/v1/device-observation"
  | DAdmissionDeviceFacts => "arkforge/v1/admission-device-facts"
  | DUsbTopology => "arkforge/v1/usb-topology"
  | DUsbDescriptor => "arkforge/v1/usb-descriptor"
  | DDeviceSerial => "arkforge/v1/device-serial"
  | DRescueDeviceFacts => "arkforge/v1/rescue-device-facts"
  | DTransportSession => "arkforge/v1/transport-session"
  | DProviderFacts => "arkforge/v1/provider-facts"
  | DToolchainFacts => "arkforge/v1/toolchain-facts"
  | DArtifactFacts => "arkforge/v1/artifact-facts"
  | DArtifactManifest => "arkforge/v1/artifact-manifest"
  | DDeviceProfile => "arkforge/v1/device-profile"
  | DAdmissionSnapshot => "arkforge/v1/admission-snapshot"
  | DActionReceipt => "arkforge/v1/action-receipt"
  | DPossibleEffectSet => "arkforge/v1/possible-effect-set"
  | DJournalRecord => "arkforge/v1/journal-record"
  | DTranscript => "arkforge/v1/transcript"
  | DRecoveryCoverage => "arkforge/v1/recovery-coverage"
  | DRescuePlan => "arkforge/v1/rescue-plan"
  | DRescueReceipt => "arkforge/v1/rescue-receipt"
  | DAuthoritySupportKey => "arkforge/v1/authority-support-key"
  end%string.

Definition as_bytes (d : Domain) : bytes := bytes_of_string (domain_label d) ++ [0].

(** [Domain::ALL]. *)
Definition domain_ALL : list Domain :=
  [DPrivateAction; DProviderExecutionPlan; DPublicProjection; DPublicStep; DEffectSet; DPlan;
   DDeviceObservation; DAdmissionDeviceFacts; DUsbTopology; DUsbDescriptor; DDeviceSerial;
   DRescueDeviceFacts; DTransportSession; DProviderFacts; DToolchainFacts; DArtifactFacts;
   DArtifactManifest; DDeviceProfile; DAdmissionSnapshot; DActionReceipt; DPossibleEffectSet;
   DJournalRecord; DTranscript; DRecoveryCoverage; DRescuePlan; DRescueReceipt;
   DAuthoritySupportKey].

(** ** Digests *)

Definition digest_in_domain (domain : Domain) (payload : bytes) : Sha256Digest :=
  finalize (update (update new (as_bytes domain)) payload).

(** The [CanonicalCbor] trait. *)
Class CanonicalCbor (T : Type) := to_cbor : T -> CborValue.

(** The provided method [CanonicalCbor::to_canonical_bytes]. *)
Definition value_bytes {T} `{CanonicalCbor T} (value : T) : result CborError bytes :=
  to_canonical_bytes (to_cbor value).

Definition digest_canonical {T} `{CanonicalCbor T} (domain : Domain) (value : T) :
    result CborError Sha256Digest :=
  let? payload := value_bytes value in Ok (digest_in_domain domain payload).

Definition digest_ordered (domain : Domain) (digests : list Sha256Digest) : Sha256Digest :=
  finalize (foldl update (update new (as_bytes domain)) (map digest_bytes digests)).

#[global] Instance digest_cbor : CanonicalCbor Sha256Digest := fun d => Bytes (digest_bytes d).

(** ** HMAC *)

Definition hmac_sha256 (key message : bytes) : Sha256Digest :=
  let padded :=
    if 64 <? zlen key then splice (replicate 64 0) 0 (digest_bytes (sha256 key))
    else splice (replicate 64 0) 0 key in
  let inner_key := map (fun b => Z.lxor b 0x36) padded in
  let outer_key := map (fun b => Z.lxor b 0x5c) padded in
  let inner_digest := finalize (update (update new inner_key) message) in
  finalize (update (update new outer_key) (digest_bytes inner_digest)).

Definition constant_time_eq (left right : Sha256Digest) : bool :=
  foldl (fun difference '(a, b) => Z.lor difference (Z.lxor a b)) 0
    (zip (digest_bytes left) (digest_bytes right)) =? 0.

(** RFC 4231, test case 2. *)
Example hmac_rfc4231 :
  to_hex (hmac_sha256 (bytes_of_string "Jefe") (bytes_of_string "what do ya want for nothing?")) =
  "5bdcc146bf60754e6a042426089575c75a003f089d2739839dec58b964ec3843"%string.
Proof. vm_compute. reflexivity. Qed.

(** ** Identifiers (ids.rs) *)

Definition MAX_ID_LEN : Z := 128.

(** [InvalidCharacter] names the character by its first byte. *)
Inductive IdError : Type :=
| IdEmpty
| IdTooLong (len : Z)
| IdInvalidCharacter (first_byte : Z).

Record OpaqueId := mkId { as_str : string }.

#[global] Instance OpaqueId_eq_dec : EqDecision OpaqueId.
Proof. solve_decision. Defined.

(** ASCII alphanumeric, or one of [. _ : -]. *)
Definition id_char (b : Z) : bool :=
  in_range 48 57 b || in_range 65 90 b || in_range 97 122 b
  || (b =? 46) || (b =? 95) || (b =? 58) || (b =? 45).

Definition OpaqueId_new (value : string) : result IdError OpaqueId :=
  let l := bytes_of_string value in
  if zlen l =? 0 then Err IdEmpty
  else if MAX_ID_LEN <? zlen l then Err (IdTooLong (zlen l))
  else match List.find (fun b => negb (id_char b)) l with
  | Some b => Err (IdInvalidCharacter b)
  | None => Ok (mkId value)
  end.

#[global] Instance OpaqueId_cbor : CanonicalCbor OpaqueId := fun i => Text (as_str i).

(** The identifiers a constructor returned. *)
Definition id_ok (i : OpaqueId) : Prop := OpaqueId_new (as_str i) = Ok i.

#[global] Instance id_ok_dec i : Decision (id_ok i).
Proof.
  unfold id_ok. destruct (OpaqueId_new (as_str i)) as [j|] eqn:E; [|right; congruence].
  destruct (decide (j = i)) as [->|H]; [by left|right; congruence].
Defined.

(** ** Facts about identifiers *)

Lemma OpaqueId_new_Ok s i :
  OpaqueId_new s = Ok i <->
  i = mkId s /\ 0 < str_len s <= MAX_ID_LEN /\ Forall (fun b => id_char b = true) (bytes_of_string s).
Proof.
  unfold OpaqueId_new, str_len. pose proof (zlen_nonneg (bytes_of_string s)).
  destruct (Z.eqb_spec (zlen (bytes_of_string s)) 0); [split; [done|lia]|].
  destruct (Z.ltb_spec MAX_ID_LEN (zlen (bytes_of_string s))); [split; [done|lia]|].
  destruct (List.find _ _) as [b|] eqn:E.
  - split; [done|]. intros (_ & _ & Hall). apply find_some in E as [Hin Hb].
    rewrite Forall_forall in Hall. rewrite (Hall b) in Hb; [done|by apply list_elem_of_In].
  - split; [|by intros [-> _]]. intros [= <-]. split_and!; try done; try lia.
    apply Forall_forall. intros b Hb. apply list_elem_of_In in Hb.
    pose proof (find_none _ _ E b Hb) as Hn. by apply negb_false_iff in Hn.
Qed.

Lemma id_char_ascii b : id_char b = true -> 45 <= b < 128.
Proof. unfold id_char, in_range. intros H. repeat (apply orb_true_iff in H as [H|H]); breflect; lia. Qed.

Lemma id_ok_new s i : OpaqueId_new s = Ok i -> id_ok i /\ as_str i = s.
Proof. intros H. pose proof H as H'. apply OpaqueId_new_Ok in H as [-> _]. done. Qed.

(** An identifier is ASCII and short, hence a canonical text value. *)
Lemma id_ok_str i : id_ok i -> str_ok (as_str i) /\ u64 (str_len (as_str i)).
Proof.
  intros (_ & Hl & Hall)%OpaqueId_new_Ok. split; [|unfold MAX_ID_LEN in Hl; zlia].
  apply utf8_ascii. eapply Forall_impl; [exact Hall|]. intros b Hb. apply id_char_ascii in Hb. simpl. lia.
Qed.

Lemma id_cbor_ok i : id_ok i -> cbor_ok (to_cbor i).
Proof. intros [? ?]%id_ok_str. by constructor. Qed.

Lemma digest_cbor_ok d : digest_ok d -> cbor_ok (to_cbor d).
Proof. intros [Hl ?]. constructor; [done|]. unfold zlen. rewrite Hl. zlia. Qed.

#[export] Hint Resolve id_cbor_ok digest_cbor_ok : ark.

(** ** Domain separation *)

Lemma nul_terminated_inj (l k p q : bytes) :
  0 ∉ l -> 0 ∉ k -> l ++ 0 :: p = k ++ 0 :: q -> l = k /\ p = q.
Proof.
  revert k. induction l as [|x l IH]; intros [|y k] Hl Hk H; simpl in H.
  - by injection H as ->.
  - injection H as <- _. destruct Hk. left.
  - injection H as -> _. destruct Hl. left.
  - apply not_elem_of_cons in Hl as [_ Hl], Hk as [_ Hk]. injection H as <- H.
    by destruct (IH k Hl Hk H) as [<- <-].
Qed.

Lemma label_no_nul d : 0 ∉ bytes_of_string (domain_label d).
Proof.
  assert (bool_decide (0 ∉ bytes_of_string (domain_label d)) = true) as H
    by by destruct d; vm_compute.
  by apply bool_decide_eq_true in H.
Qed.

(** The labels are pairwise distinct: each is found at its own place in [ALL]. *)
Lemma label_inj d e : domain_label d = domain_label e -> d = e.
Proof.
  intros H.
  assert (forall x, List.find (fun y => String.eqb (domain_label y) (domain_label x)) domain_ALL = Some x)
    as Hfind by by intros []; vm_compute.
  pose proof (Hfind d) as Hd. rewrite H, Hfind in Hd. congruence.
Qed.

Lemma domain_preimage_inj d p e q :
  as_bytes d ++ p = as_bytes e ++ q -> d = e /\ p = q.
Proof.
  unfold as_bytes. rewrite <- !app_assoc. simpl. intros H.
  apply nul_terminated_inj in H as [Hl ->]; [|apply label_no_nul..].
  split; [|done]. by apply label_inj, bytes_of_string_inj.
Qed.

Lemma digest_in_domain_is_spec d p : digest_in_domain d p = sha256_spec (as_bytes d ++ p).
Proof. apply two_updates_spec. Qed.

(** Domain separation: two digests over different (domain, payload) pairs are
    SHA-256 digests of two different byte strings, so no payload of one domain
    stands for a payload of another (a private action is never also a public
    step) unless those two strings are a SHA-256 collision. *)
Theorem digest_domain_separation d p e q :
  (d, p) <> (e, q) ->
  as_bytes d ++ p <> as_bytes e ++ q /\
  digest_in_domain d p = sha256_spec (as_bytes d ++ p) /\
  digest_in_domain e q = sha256_spec (as_bytes e ++ q).
Proof.
  intros Hne. split_and!; try apply digest_in_domain_is_spec.
  intros [-> ->]%domain_preimage_inj. done.
Qed.

Lemma digest_domain_separation_witness :
  as_bytes DPlan ++ [1] <> as_bytes DPublicStep ++ [1] /\
  digest_in_domain DPlan [1] = sha256_spec (as_bytes DPlan ++ [1]) /\
  digest_in_domain DPublicStep [1] = sha256_spec (as_bytes DPublicStep ++ [1]).
Proof. apply (digest_domain_separation DPlan [1] DPublicStep [1]). congruence. Defined.

Lemma concat_same_length (n : nat) (ls ks : list bytes) :
  (0 < n)%nat -> Forall (fun l => length l = n) ls -> Forall (fun l => length l = n) ks ->
  concat ls = concat ks -> ls = ks.
Proof.
  intros Hn Hls. revert ks. induction Hls as [|l ls Hl _ IH]; intros ks Hks H.
  - destruct Hks as [|k ks Hk _]; [done|]. simpl in H. destruct k; simpl in *; [lia|done].
  - destruct Hks as [|k ks Hk Hks]; [destruct l; simpl in *; [lia|done]|]. simpl in H.
    apply app_inj_1 in H as [-> H]; [|lia]. f_equal. auto.
Qed.

(** An ordered-digest digest is SHA-256 over the domain and the digests in
    order, and different digest lists are hashed from different strings: the
    provider execution plan digest fixes both the set and the order of its
    action digests. *)
Theorem digest_ordered_binds d (l k : list Sha256Digest) :
  Forall digest_ok l -> Forall digest_ok k ->
  let pre ds := as_bytes d ++ concat (map digest_bytes ds) in
  digest_ordered d l = sha256_spec (pre l) /\ (pre l = pre k -> l = k).
Proof.
  intros Hl Hk pre. split.
  - apply (streaming_spec (as_bytes d :: map digest_bytes l)).
  - intros [_ H]%domain_preimage_inj.
    apply (concat_same_length 32) in H; [|lia|..].
    + revert k Hk H. induction l as [|[x] l IH]; intros [|[y] k] Hk H; simpl in *; try done.
      injection H as -> H. inversion Hl; inversion Hk; subst. f_equal. auto.
    + apply Forall_map. eapply Forall_impl; [exact Hl|]. by intros ? [? _].
    + apply Forall_map. eapply Forall_impl; [exact Hk|]. by intros ? [? _].
Qed.

Lemma digest_ordered_binds_witness :
  let l := [sha256 [1]; sha256 [2]] in
  digest_ordered DProviderExecutionPlan l =
    sha256_spec (as_bytes DProviderExecutionPlan ++ concat (map digest_bytes l)).
Proof.
  intros l. assert (Forall digest_ok l) as Hl
    by (repeat (apply Forall_cons_2; [apply sha256_ok|]); constructor).
  exact (proj1 (digest_ordered_binds DProviderExecutionPlan l l Hl Hl)).
Defined.

(** ** The interface between a type and its digest *)

(** What a type promises the digest layer. *)
Class CborModel (T : Type) {C : CanonicalCbor T} (ok : T -> Prop) (same : T -> T -> Prop) := {
  model_cbor_ok : forall t, ok t -> cbor_ok (to_cbor t);
  model_inj : forall t u, ok t -> ok u -> cbor_eq (to_cbor t) (to_cbor u) -> same t u
}.

(** SHA-256 does not collide on these two strings. *)
Definition no_collision (x y : bytes) : Prop := sha256_spec x = sha256_spec y -> x = y.

Section Binding.
Context {T} `{CborModel T ok same}.

Lemma digest_canonical_Ok d (t : T) h :
  digest_canonical d t = Ok h <->
  exists b, value_bytes t = Ok b /\ h = sha256_spec (as_bytes d ++ b).
Proof.
  unfold digest_canonical. destruct (value_bytes t) as [b|]; split.
  - intros [= <-]. exists b. by rewrite digest_in_domain_is_spec.
  - intros (b' & [= ->] & ->). by rewrite digest_in_domain_is_spec.
  - done.
  - by intros (? & ? & _).
Qed.

Lemma value_bytes_inj (t u : T) b :
  ok t -> ok u -> u64 (zlen b) -> value_bytes t = Ok b -> value_bytes u = Ok b -> same t u.
Proof.
  intros Ht Hu Hl Et Eu. eapply model_inj; [done..|].
  eapply enc_same_read; [by apply model_cbor_ok..|exact Et|exact Eu|done].
Qed.

(** Two values with one digest are equivalent, SHA-256 not colliding on them. *)
Lemma digest_binding d (t u : T) bt bu h :
  ok t -> ok u -> value_bytes t = Ok bt -> value_bytes u = Ok bu -> u64 (zlen bt) ->
  no_collision (as_bytes d ++ bt) (as_bytes d ++ bu) ->
  digest_canonical d t = Ok h -> digest_canonical d u = Ok h -> same t u.
Proof.
  intros Ht Hu Et Eu Hl Hnc Hdt Hdu.
  apply digest_canonical_Ok in Hdt as (b1 & Et' & ->), Hdu as (b2 & Eu' & Heq).
  rewrite Et in Et'. rewrite Eu in Eu'. injection Et' as <-. injection Eu' as <-.
  apply Hnc, domain_preimage_inj in Heq as [_ <-]. by eapply value_bytes_inj.
Qed.
End Binding.

(** ** HMAC and tags *)

Lemma length_splice_zero n (l : bytes) :
  (length l <= n)%nat -> splice (replicate n 0) 0 l = l ++ replicate (n - length l) 0.
Proof. intros. unfold splice. simpl. by rewrite drop_replicate. Qed.

(** [hmac_sha256] is HMAC over SHA-256 (RFC 2104): the key hashed when longer
    than a block, zero-padded to 64 bytes, xored with the two pads, and hashed
    in two passes. *)
Theorem hmac_sha256_is_rfc2104 key message :
  let k0 := if 64 <? zlen key then digest_bytes (sha256_spec key) else key in
  let padded := k0 ++ replicate (64 - length k0) 0 in
  hmac_sha256 key message =
    sha256_spec (map (fun b => Z.lxor b 0x5c) padded ++
                 digest_bytes (sha256_spec (map (fun b => Z.lxor b 0x36) padded ++ message))).
Proof.
  intros k0 padded. unfold hmac_sha256. rewrite sha256_is_spec.
  assert ((if 64 <? zlen key then splice (replicate 64 0) 0 (digest_bytes (sha256_spec key))
           else splice (replicate 64 0) 0 key) = padded) as ->.
  { unfold padded, k0. destruct (Z.ltb_spec 64 (zlen key)).
    - apply length_splice_zero. rewrite <- sha256_is_spec, (proj1 (sha256_ok key)). lia.
    - apply length_splice_zero. unfold zlen in *. lia. }
  by rewrite !two_updates_spec.
Qed.

Lemma lor_fold_zero (l : list (Z * Z)) acc :
  0 <= acc ->
  foldl (fun difference '(a, b) => Z.lor difference (Z.lxor a b)) acc l = 0 <->
  acc = 0 /\ Forall (fun '(a, b) => a = b) l.
Proof.
  intros _. revert acc. induction l as [|[a b] l IH]; intros acc; simpl.
  - split; [done|]. by intros [? _].
  - rewrite IH, Z.lor_eq_0_iff, Z.lxor_eq_0_iff, Forall_cons. tauto.
Qed.

Lemma constant_time_eq_true d e :
  digest_ok d -> digest_ok e -> constant_time_eq d e = true <-> d = e.
Proof.
  intros [Hd _] [He _]. unfold constant_time_eq. rewrite Z.eqb_eq, lor_fold_zero by lia.
  destruct d as [l], e as [k]. cbn [digest_bytes] in *. split.
  - intros [_ H]. f_equal. assert (length l = length k) as Hlen by lia. clear Hd He.
    revert k H Hlen. induction l as [|a l IH]; intros [|b k] H Hlen; try done.
    simpl in H. inversion H; subst. f_equal. apply IH; [done|]. simpl in Hlen. lia.
  - intros [= ->]. split; [done|]. clear. induction k; simpl; constructor; auto.
Qed.

(** The constant-time comparison, which inspects every byte, decides equality
    of digests. *)
Theorem constant_time_eq_spec d e :
  digest_ok d -> digest_ok e -> constant_time_eq d e = true <-> d = e.
Proof. apply constant_time_eq_true. Qed.

Lemma constant_time_eq_spec_witness :
  constant_time_eq (sha256 [1]) (sha256 [2]) = true <-> sha256 [1] = sha256 [2].
Proof. apply (constant_time_eq_spec (sha256 [1]) (sha256 [2])); apply sha256_ok. Defined.
