(* ===== verification/Fields.v ===== *)
(** * Reading named fields out of a decoded map

    [JournalRecord::from_canonical_bytes] (crates/arkforge-engine/src/journal.rs)
    and [StepPermit::from_canonical_bytes] (crates/arkforge-authority-api/src/lib.rs)
    read a decoded map through the same local closures; they are shared here,
    with the lemmas that say what they return for a map that was written with
    given fields. *)

From S2P Require Import Prelude Cbor Sha256 Digest.

(** ** The closures *)

(** [field(name)]: the first entry whose key is the text [name]. *)
Definition field (entries : list (CborValue * CborValue)) (name : string) : option CborValue :=
  snd <$> List.find (fun '(key, _) =>
    match key with Text text => String.eqb text name | _ => false end) entries.

Section Typed.
Context {E : Type} (malformed : string -> E) (entries : list (CborValue * CborValue)).

Definition field_unsigned (name : string) : result E Z :=
  match field entries name with
  | Some (Unsigned value) => Ok value
  | _ => Err (malformed name)
  end.

Definition field_text (name : string) : result E string :=
  match field entries name with
  | Some (Text value) => Ok value
  | _ => Err (malformed name)
  end.

Definition field_bool (name : string) : result E bool :=
  match field entries name with
  | Some (Bool value) => Ok value
  | _ => Err (malformed name)
  end.

Definition field_digest (name : string) : result E Sha256Digest :=
  match field entries name with
  | Some (Bytes l) => if zlen l =? 32 then Ok (mkDigest l) else Err (malformed name)
  | _ => Err (malformed name)
  end.

(** [OpaqueId::new(text(name)?).map_err(|_| malformed(name))?] *)
Definition field_id (name : string) : result E OpaqueId :=
  let? value := field_text name in
  map_err (fun _ => malformed name) (OpaqueId_new value).
End Typed.

(** ** What they return *)

Definition text_entries (fs : list (string * CborValue)) : list (CborValue * CborValue) :=
  map (fun '(key, value) => (Text key, value)) fs.

Lemma map_of_entries fs : map_of fs = Map (text_entries fs).
Proof. reflexivity. Qed.

(** The decoded entries are the written ones, up to order and up to the order
    of the entries inside each value. *)
Definition carries (k : list (CborValue * CborValue)) (fs : list (string * CborValue)) : Prop :=
  exists gs, gs ≡ₚ fs /\ Forall2 (fun g e => e.1 = Text g.1 /\ cbor_eq g.2 e.2) gs k.

Lemma cbor_eq_map_of fs v : cbor_eq (map_of fs) v -> exists k, v = Map k /\ carries k fs.
Proof.
  rewrite map_of_entries. inversion 1 as [| | | | |? p k Hp Hpk| |]; subst. exists k. split; [done|].
  symmetry in Hp. apply Permutation_map_inv in Hp as (gs & -> & Hgs).
  exists gs. split; [by symmetry|]. clear -Hpk. revert k Hpk.
  induction gs as [|[n w] gs IH]; intros k Hk; inversion Hk as [|? [k1 k2] ? ? [H1 H2]]; subst;
    constructor; auto. simpl in *. by inversion H1.
Qed.

Lemma carries_field k fs name v :
  carries k fs -> NoDup (map fst fs) -> (name, v) ∈ fs ->
  exists v', field k name = Some v' /\ cbor_eq v v'.
Proof.
  intros (gs & Hp & Hk) Hnd Hin. rewrite <- Hp in Hin.
  assert (NoDup (map fst gs)) as Hnd' by (by rewrite Hp).
  clear Hp Hnd. unfold field. induction Hk as [|[n w] [e1 e2] gs k [He1 He2] Hk IH].
  - by apply not_elem_of_nil in Hin.
  - simpl in *. subst e1. apply NoDup_cons in Hnd' as [Hn Hnd'].
    apply elem_of_cons in Hin as [[= -> ->]|Hin].
    + rewrite String.eqb_refl. eexists. split; [done|]. done.
    + destruct (String.eqb_spec n name) as [->|_]; [|auto].
      destruct Hn. apply list_elem_of_fmap. by exists (name, v).
Qed.

(** A field of one map has its counterpart in an equal map. *)
Lemma map_of_field fs gs name v :
  cbor_eq (map_of fs) (map_of gs) -> NoDup (map fst fs) -> (name, v) ∈ fs ->
  exists w, field (text_entries gs) name = Some w /\ cbor_eq v w.
Proof.
  intros (k & Hk & Hc)%cbor_eq_map_of Hnd Hin. rewrite map_of_entries in Hk. injection Hk as <-.
  by eapply carries_field.
Qed.

Lemma cbor_eq_text s t : cbor_eq (Text s) (Text t) -> s = t.
Proof. by inversion 1. Qed.

Lemma cbor_eq_unsigned n m : cbor_eq (Unsigned n) (Unsigned m) -> n = m.
Proof. by inversion 1. Qed.

Lemma cbor_eq_digest (d e : Sha256Digest) : cbor_eq (to_cbor d) (to_cbor e) -> d = e.
Proof. destruct d, e. inversion 1. by subst. Qed.

Lemma cbor_eq_id (i j : OpaqueId) : cbor_eq (to_cbor i) (to_cbor j) -> i = j.
Proof. destruct i, j. inversion 1. by subst. Qed.

(** The values of field [n] in two literal maps [H] says are equal. *)
Ltac same_field H n Hv :=
  let w := fresh "w" in
  let Hw := fresh "Hw" in
  destruct (map_of_field _ _ n%string _ H ltac:(apply (bool_decide_unpack _); vm_compute; exact I)
              ltac:(repeat first [left | right])) as (w & Hw & Hv);
  injection Hw as <-.

Section Reads.
Context {E : Type} (malformed : string -> E) (k : list (CborValue * CborValue))
        (fs : list (string * CborValue)).
Hypothesis Hk : carries k fs.
Hypothesis Hnd : NoDup (map fst fs).

Lemma read_unsigned name n : (name, Unsigned n) ∈ fs -> field_unsigned malformed k name = Ok n.
Proof using Hk Hnd.
  intros Hin. destruct (carries_field k fs name _ Hk Hnd Hin) as (v' & Hf & Heq).
  unfold field_unsigned. rewrite Hf. by inversion Heq.
Qed.

Lemma read_text name s : (name, Text s) ∈ fs -> field_text malformed k name = Ok s.
Proof using Hk Hnd.
  intros Hin. destruct (carries_field k fs name _ Hk Hnd Hin) as (v' & Hf & Heq).
  unfold field_text. rewrite Hf. by inversion Heq.
Qed.

Lemma read_bool name b : (name, Bool b) ∈ fs -> field_bool malformed k name = Ok b.
Proof using Hk Hnd.
  intros Hin. destruct (carries_field k fs name _ Hk Hnd Hin) as (v' & Hf & Heq).
  unfold field_bool. rewrite Hf. by inversion Heq.
Qed.

Lemma read_digest name d :
  digest_ok d -> (name, to_cbor d) ∈ fs -> field_digest malformed k name = Ok d.
Proof using Hk Hnd.
  intros [Hl _] Hin. destruct (carries_field k fs name _ Hk Hnd Hin) as (v' & Hf & Heq).
  unfold field_digest. rewrite Hf. inversion Heq; subst. unfold zlen. rewrite Hl. by destruct d.
Qed.

Lemma read_id name i :
  id_ok i -> (name, to_cbor i) ∈ fs -> field_id malformed k name = Ok i.
Proof using Hk Hnd.
  intros Hi Hin. unfold field_id. rewrite (read_text name (as_str i)) by done.
  unfold id_ok in Hi. by rewrite Hi.
Qed.
End Reads.

(** ** Values built from fields *)

Lemma map_of_ok fs :
  u64 (zlen fs) -> Forall (fun '(n, v) => str_ok n /\ u64 (str_len n) /\ cbor_ok v) fs ->
  cbor_ok (map_of fs).
Proof.
  intros Hl H. rewrite map_of_entries. constructor.
  - unfold text_entries, zlen. by rewrite length_map.
  - apply Forall_map. eapply Forall_impl; [exact H|]. intros [n v] (? & ? & ?). split; [|done].
    by constructor.
Qed.

(** A field whose name is a short literal. *)
Lemma literal_ok (n : string) (v : CborValue) :
  utf8_valid (bytes_of_string n) = true -> (str_len n <=? 64) = true -> cbor_ok v ->
  str_ok n /\ u64 (str_len n) /\ cbor_ok v.
Proof.
  intros ? ? ?. breflect. split_and!; [done| |done]; unfold str_len in *;
    pose proof (zlen_nonneg (bytes_of_string n)); zlia.
Qed.

(** A list of literal fields, each value closed by the hints. *)
Ltac literal_fields :=
  repeat (apply Forall_cons_2; [apply literal_ok; [reflexivity..|auto with ark]|]); try constructor.

(** What a read promises about the value when the map came from the decoder. *)
Section Sound.
Context {E : Type} (malformed : string -> E) (k : list (CborValue * CborValue)).
Hypothesis Hok : cbor_ok (Map k).

Lemma field_sound name v : field k name = Some v -> cbor_ok v.
Proof using Hok.
  unfold field. inversion Hok as [| | | | |? _ Hall| |]; subst. clear Hok.
  induction Hall as [|[n w] k [Hn Hw] _ IH]; [done|]. simpl.
  case_goal; auto; by intros [= <-].
Qed.

Lemma unsigned_sound name n : field_unsigned malformed k name = Ok n -> u64 n.
Proof using Hok.
  unfold field_unsigned. destruct (field k name) as [[]|] eqn:F; try done. intros [= <-].
  apply field_sound in F. by inversion F.
Qed.

Lemma digest_sound name d : field_digest malformed k name = Ok d -> digest_ok d.
Proof using Hok.
  unfold field_digest. destruct (field k name) as [[| |l| | | | |]|] eqn:F; try done.
  destruct (Z.eqb_spec (zlen l) 32) as [Hl|]; [|done]. intros [= <-].
  apply field_sound in F. inversion F; subst. split; [|done]. unfold zlen in Hl. cbn. lia.
Qed.

Lemma id_sound name i : field_id malformed k name = Ok i -> id_ok i.
Proof using Hok.
  unfold field_id. destruct (field_text malformed k name); [|done].
  destruct (OpaqueId_new a) as [j|] eqn:F; [|done]. intros [= <-]. by apply id_ok_new in F as [? _].
Qed.
End Sound.

(** ** When such a map encodes *)

(** Names and identifiers are short. *)
Definition short (s : string) : Prop := str_len s <= U32_MAX.

Lemma head_length_short m a : 0 <= m < 8 -> u64 a -> zlen (head_bytes m a) <= 9.
Proof.
  intros Hm Ha. destruct (head_shape m a Hm Ha) as [[_ ->]|(n & ai & lo & -> & _ & Hn)]; [done|].
  unfold zlen. cbn [length]. rewrite to_be_length.
  destruct Hn as [?|[?|[?|?]]]; simplify_eq; lia.
Qed.

Lemma text_enc_inj s t b : short s -> short t -> enc (Text s) b -> enc (Text t) b -> s = t.
Proof.
  unfold short, enc, to_canonical_bytes. cbn [encode_into]. intros Hs Ht [= <-] [= E].
  fold (head_bytes 3 (str_len s)) (head_bytes 3 (str_len t)) in E.
  assert (forall u, str_len u <= U32_MAX ->
    read_head (at_ [] (head_bytes 3 (str_len u) ++ bytes_of_string u)) =
      Ok ((3, str_len u), at_ (head_bytes 3 (str_len u)) (bytes_of_string u))) as Hread.
  { intros u Hu. pose proof (zlen_nonneg (bytes_of_string u)) as Hn. fold (str_len u) in Hn.
    assert (u64 (str_len u)) by zlia.
    pose proof (head_length_short 3 (str_len u) ltac:(lia) ltac:(done)).
    pose proof (zlen_nonneg (head_bytes 3 (str_len u))).
    apply (read_head_at []); [lia|done|]. cbn [app]. rewrite zlen_app. fold (str_len u). zlia. }
  pose proof (Hread s Hs) as Rs. rewrite <- E, (Hread t Ht) in Rs. injection Rs as Hl _.
  rewrite Hl in E. apply app_inv_head in E. symmetry. by apply bytes_of_string_inj.
Qed.

(** The encoded keys are distinct exactly when the names are. *)
Lemma text_keys_NoDup (l : list (string * CborValue)) kvs :
  Forall (fun e => short e.1) l ->
  Forall2 (fun e kv => enc e.1 kv.1 /\ enc e.2 kv.2) (text_entries l) kvs ->
  NoDup (map fst kvs) <-> NoDup (map fst l).
Proof.
  intros Hall. revert kvs.
  assert (forall n ks, short n -> Forall (fun e => short e.1) ks -> forall kvs k1, enc (Text n) k1 ->
    Forall2 (fun e kv => enc e.1 kv.1 /\ enc e.2 kv.2) (text_entries ks) kvs ->
    k1 ∈ map fst kvs <-> n ∈ map fst ks) as Hmem.
  { intros n ks Hn. induction 1 as [|[m w] ks Hm _ IH]; intros kvs k1 H1 H2;
      inversion H2 as [|? [j1 j2] ? ? [J1 J2]]; subst; cbn; [by rewrite !elem_of_nil|].
    rewrite !elem_of_cons, IH by done. cbn in *. split; (intros [->|?]; [left|by right]).
    - by eapply text_enc_inj.
    - unfold enc in *. congruence. }
  induction Hall as [|[n v] l Hn Hall IH]; intros kvs Hk;
    inversion Hk as [|? [k1 k2] ? ? [H1 H2]]; subst; cbn [map fst] in *; [split; constructor|].
  rewrite !NoDup_cons, IH by done. by rewrite (Hmem n l Hn Hall _ k1).
Qed.

(** A text-keyed map of encodable values encodes exactly when no name repeats. *)
Lemma text_map_encodes (l : list (string * CborValue)) :
  Forall (fun e => short e.1) l -> Forall (fun e => exists b, enc e.2 b) l ->
  (exists b, enc (Map (text_entries l)) b) <-> NoDup (map fst l).
Proof.
  intros Hs Hall.
  assert (exists kvs, Forall2 (fun e kv => enc e.1 kv.1 /\ enc e.2 kv.2) (text_entries l) kvs) as [kvs Hk].
  { clear Hs. induction Hall as [|[n v] l [b Hb] _ [kvs IH]]; [exists []; constructor|].
    eexists ((_, b) :: kvs). constructor; [|exact IH]. split; [reflexivity|exact Hb]. }
  split.
  - intros [b (kvs' & Hk' & Hnd & _)%enc_Map]. by apply (text_keys_NoDup l kvs').
  - intros Hnd. eexists. apply enc_Map. exists kvs. split_and!; [done| |reflexivity].
    by apply (text_keys_NoDup l kvs).
Qed.

(** A text-keyed map of text values: journal facts and runtime facts. *)
Definition fact_entries (facts : list (OpaqueId * string)) : list (CborValue * CborValue) :=
  map (fun '(key, value) => (to_cbor key, Text value)) facts.

Definition facts_ok (facts : list (OpaqueId * string)) : Prop :=
  u64 (zlen facts) /\ Forall (fun f => id_ok f.1 /\ str_ok f.2 /\ u64 (str_len f.2)) facts.

Lemma fact_entries_ok facts : facts_ok facts -> cbor_ok (Map (fact_entries facts)).
Proof.
  intros [Hl H]. constructor; [unfold fact_entries, zlen; by rewrite length_map|].
  apply Forall_map. eapply Forall_impl; [exact H|]. intros [k v] (? & ? & ?).
  split; [by apply id_cbor_ok|by constructor].
Qed.

Lemma fact_entries_depth facts : (depth (Map (fact_entries facts)) <= 1)%nat.
Proof.
  pose proof (depth_Map_lt (fact_entries facts) 1) as H. enough (depth (Map (fact_entries facts)) < 2)%nat by lia.
  apply H, Forall_map, Forall_true. intros [k v]. cbn. lia.
Qed.

Lemma fact_entries_eq facts v :
  cbor_eq (Map (fact_entries facts)) v ->
  exists facts', facts' ≡ₚ facts /\ v = Map (fact_entries facts').
Proof.
  inversion 1 as [| | | | |? p k Hp Hpk| |]; subst. symmetry in Hp.
  apply Permutation_map_inv in Hp as (gs & -> & Hgs). exists gs. split; [by symmetry|].
  f_equal. symmetry. clear -Hpk. revert k Hpk. induction gs as [|[n w] gs IH]; intros k Hk;
    inversion Hk as [|? [k1 k2] ? ? [H1 H2]]; subst; [done|]. simpl in *.
  inversion H1; inversion H2; subst. f_equal. auto.
Qed.

Lemma fact_entries_inj f g : fact_entries f = fact_entries g -> f = g.
Proof.
  revert g. induction f as [|[k v] f IH]; intros [|[k' v'] g]; try done. simpl.
  intros [= H1 -> H2]. destruct k, k'. simpl in *. subst. f_equal. auto.
Qed.

(** The closure that reads a fact map back. *)
Definition read_facts {E} (bad : E) (pairs : list (CborValue * CborValue)) :
    result E (list (OpaqueId * string)) :=
  collect_results (map (fun '(key, value) =>
    match key, value with
    | Text key, Text value =>
        let? key := map_err (fun _ => bad) (OpaqueId_new key) in Ok (key, value)
    | _, _ => Err bad
    end) pairs).

Lemma read_facts_entries {E} (bad : E) facts :
  Forall (fun f => id_ok f.1) facts -> read_facts bad (fact_entries facts) = Ok facts.
Proof.
  unfold read_facts. induction 1 as [|[k v] facts Hk _ IH]; [done|]. simpl in *.
  unfold id_ok in Hk. rewrite Hk. simpl. by rewrite IH.
Qed.

Lemma id_short i : id_ok i -> short (as_str i).
Proof. intros H. apply OpaqueId_new_Ok in H as (_ & [_ Hl] & _). unfold short, MAX_ID_LEN in *. zlia. Qed.

Lemma fact_entries_text facts :
  fact_entries facts = text_entries (map (fun f => (as_str f.1, Text f.2)) facts).
Proof. unfold fact_entries, text_entries. rewrite map_map. apply map_ext. by intros []. Qed.

(** A fact map encodes exactly when no key is given twice. *)
Lemma fact_entries_encode facts :
  Forall (fun f => id_ok f.1) facts ->
  (exists b, enc (Map (fact_entries facts)) b) <-> NoDup (map fst facts).
Proof.
  intros Hf. rewrite fact_entries_text, text_map_encodes, map_map.
  - cbn [fst]. rewrite <- (map_map fst as_str). split; [apply NoDup_fmap_1|].
    apply NoDup_fmap_2. intros [] [] [=]. by subst.
  - apply Forall_map. eapply Forall_impl; [exact Hf|]. intros ? ?. by apply id_short.
  - apply Forall_map, Forall_true. intros f. eexists. reflexivity.
Qed.

(** ** Values that are well formed and encode *)

Definition encodes (v : CborValue) : Prop := exists b, enc v b.

Definition writable (v : CborValue) : Prop := cbor_ok v /\ encodes v.

(** What [String] and [str] promise of a text value. *)
Definition text_ok (s : string) : Prop := str_ok s /\ u64 (str_len s).

#[global] Instance text_ok_dec s : Decision (text_ok s).
Proof. unfold text_ok, u64. apply _. Defined.

Lemma writable_text s : text_ok s -> writable (Text s).
Proof. intros [? ?]. split; [by constructor|]. by eexists. Qed.

(** A literal. *)
Lemma writable_literal (s : string) : bool_decide (text_ok s) = true -> writable (Text s).
Proof. intros ?%bool_decide_eq_true. by apply writable_text. Qed.

Lemma writable_unsigned n : u64 n -> writable (Unsigned n).
Proof. split; [by constructor|]. by eexists. Qed.

Lemma writable_integer n : i64 n -> writable (integer n).
Proof.
  unfold integer. intros Hn. destruct (Z.ltb_spec n 0).
  - split; [by constructor|]. unfold encodes, enc, to_canonical_bytes. cbn [encode_into].
    destruct (Z.leb_spec 0 n); [lia|by eexists].
  - apply writable_unsigned. ints. lia.
Qed.

Lemma writable_bool b : writable (Bool b).
Proof. split; [by constructor|]. by eexists. Qed.

Lemma writable_null : writable Null.
Proof. split; [by constructor|]. by eexists. Qed.

Lemma writable_id i : id_ok i -> writable (to_cbor i).
Proof. intros H. apply writable_text. by apply id_ok_str. Qed.

Lemma writable_digest d : digest_ok d -> writable (to_cbor d).
Proof. intros H. split; [by apply digest_cbor_ok|]. by eexists. Qed.

Lemma writable_array l : u64 (zlen l) -> Forall writable l -> writable (Array l).
Proof.
  intros Hl H. apply Forall_and in H as [Hok Henc]. split; [by constructor|].
  assert (exists bs, Forall2 enc l bs) as [bs Hbs].
  { clear -Henc. induction Henc as [|v l [b Hb] _ [bs IH]]; [by exists []|]. by exists (b :: bs); constructor. }
  eexists. apply enc_Array. by exists bs.
Qed.

(** A map of literal names, the names settled by computation. *)
Definition literal_names (names : list string) : bool :=
  bool_decide (NoDup names) && forallb (fun n => utf8_valid (bytes_of_string n) && (str_len n <=? 64)) names.

Lemma writable_map_of fs :
  literal_names (map fst fs) = true -> (zlen fs <=? U32_MAX) = true ->
  Forall (fun f => writable f.2) fs -> writable (map_of fs).
Proof.
  unfold literal_names. intros [Hnd%bool_decide_eq_true Hn]%andb_true_iff Hl%Z.leb_le Hv.
  rewrite forallb_forall in Hn.
  assert (forall f, f ∈ fs -> str_ok f.1 /\ 0 <= str_len f.1 <= 64) as Hnames.
  { intros [n v] Hf. cbn. specialize (Hn n ltac:(apply in_map_iff; exists (n, v); split;
      [done|by apply list_elem_of_In])). apply andb_true_iff in Hn as [Hu Hlen%Z.leb_le].
    split; [done|]. unfold str_len in *. pose proof (zlen_nonneg (bytes_of_string n)). lia. }
  rewrite Forall_forall in Hv. split.
  - apply map_of_ok; [pose proof (zlen_nonneg fs); zlia|]. apply Forall_forall. intros [n v] Hf.
    destruct (Hnames _ Hf) as [? ?]. destruct (Hv _ Hf) as [? _]. cbn in *. split_and!; try done; zlia.
  - rewrite map_of_entries. apply text_map_encodes; [..|done]; apply Forall_forall; intros f Hf.
    + destruct (Hnames f Hf) as [_ ?]. unfold short. zlia.
    + by destruct (Hv f Hf) as [_ ?].
Qed.

#[export] Hint Resolve writable_text writable_unsigned writable_integer writable_bool writable_null
  writable_id writable_digest : ark.

Ltac writable_literal := apply writable_literal; vm_compute; reflexivity.

(** A value built by [map_of] from literal names, the values left to the hints. *)
Ltac writable_map :=
  apply writable_map_of; [vm_compute; reflexivity..|];
  repeat (apply Forall_cons_2; [cbn [snd]; try first [solve [eauto with ark] | writable_literal]|]);
  try apply Forall_nil_2.

(** Every writable value has a digest, and the digest binds it. *)
Lemma writable_digest_binds {T} `{CborModel T ok same} (d : Domain) (s t : T) :
  (forall t, ok t -> encodes (to_cbor t)) -> ok s -> ok t ->
  exists bs bt,
    digest_canonical d s = Ok (sha256_spec (as_bytes d ++ bs)) /\
    digest_canonical d t = Ok (sha256_spec (as_bytes d ++ bt)) /\
    (u64 (zlen bs) -> no_collision (as_bytes d ++ bs) (as_bytes d ++ bt) ->
     digest_canonical d s = digest_canonical d t -> same s t).
Proof.
  intros Hw Hs Ht. destruct (Hw s Hs) as [bs Es], (Hw t Ht) as [bt Et]. exists bs, bt.
  assert (digest_canonical d s = Ok (sha256_spec (as_bytes d ++ bs))) as Ds
    by (apply digest_canonical_Ok; by exists bs).
  assert (digest_canonical d t = Ok (sha256_spec (as_bytes d ++ bt))) as Dt
    by (apply digest_canonical_Ok; by exists bt).
  split_and!; [done..|]. intros Hu Hnc Heq.
  apply (digest_binding d s t bs bt (sha256_spec (as_bytes d ++ bs))); try done. by rewrite <- Ds, Heq.
Qed.
