(* ===== verification/Journal.v ===== *)
(** * The operational journal (crates/arkforge-engine/src/journal.rs)

    The record model, its canonical body and digest, the stored form and its
    reader, and the append-only hash chain with [append], [adopt] and
    [verify]. *)

From S2P Require Import Prelude Cbor Sha256 Digest Fields.

(** ** Data *)

Definition SCHEMA_VERSION : Z := 1.

Inductive JournalRecordKind : Type :=
| PlanStored
| JobCreated
| LocalExecutorLeaseAcquired
| PreflightObserved
| StepAdmissionRequested
| StepPermitAccepted
| StepIntentRecorded
| PermitConsuming
| ExternalDispatchStarted
| TransportEvidenceRecorded
| SemanticReceiptRecorded
| PermitConsumed
| StepCheckpointed
| RebindObserved
| CancellationRequested
| PostflightRecorded
| OutcomeClassified
| PossibleEffectSetRecorded
| RecoveryAssessmentPublished
| RecoveryGuidePublished
| ReadOnlyObservationRecorded.

#[global] Instance JournalRecordKind_eq_dec : EqDecision JournalRecordKind.
Proof. solve_decision. Defined.

Inductive FsyncPolicy : Type := Durable | Buffered.

#[global] Instance FsyncPolicy_eq_dec : EqDecision FsyncPolicy.
Proof. solve_decision. Defined.

Definition fsync_as_str (p : FsyncPolicy) : string :=
  match p with Durable => "durable" | Buffered => "buffered" end.

Definition fsync_parse (text : string) : option FsyncPolicy :=
  if String.eqb text "durable" then Some Durable
  else if String.eqb text "buffered" then Some Buffered
  else None.

Definition fsync_policy (k : JournalRecordKind) : FsyncPolicy :=
  match k with
  | PreflightObserved | StepAdmissionRequested | TransportEvidenceRecorded
  | RebindObserved | ReadOnlyObservationRecorded => Buffered
  | PlanStored | JobCreated | LocalExecutorLeaseAcquired | StepPermitAccepted
  | StepIntentRecorded | PermitConsuming | ExternalDispatchStarted | SemanticReceiptRecorded
  | PermitConsumed | StepCheckpointed | CancellationRequested | PostflightRecorded
  | OutcomeClassified | PossibleEffectSetRecorded | RecoveryAssessmentPublished
  | RecoveryGuidePublished => Durable
  end.

(** [JournalRecordKind::ALL]. *)
Definition kind_ALL : list JournalRecordKind :=
  [PlanStored; JobCreated; LocalExecutorLeaseAcquired; PreflightObserved; StepAdmissionRequested;
   StepPermitAccepted; StepIntentRecorded; PermitConsuming; ExternalDispatchStarted;
   TransportEvidenceRecorded; SemanticReceiptRecorded; PermitConsumed; StepCheckpointed;
   RebindObserved; CancellationRequested; PostflightRecorded; OutcomeClassified;
   PossibleEffectSetRecorded; RecoveryAssessmentPublished; RecoveryGuidePublished;
   ReadOnlyObservationRecorded].

Definition kind_as_str (k : JournalRecordKind) : string :=
  match k with
  | PlanStored => "planStored"
  | JobCreated => "jobCreated"
  | LocalExecutorLeaseAcquired => "localExecutorLeaseAcquired"
  | PreflightObserved => "preflightObserved"
  | StepAdmissionRequested => "stepAdmissionRequested"
  | StepPermitAccepted => "stepPermitAccepted"
  | StepIntentRecorded => "stepIntentRecorded"
  | PermitConsuming => "permitConsuming"
  | ExternalDispatchStarted => "externalDispatchStarted"
  | TransportEvidenceRecorded => "transportEvidenceRecorded"
  | SemanticReceiptRecorded => "semanticReceiptRecorded"
  | PermitConsumed => "permitConsumed"
  | StepCheckpointed => "stepCheckpointed"
  | RebindObserved => "rebindObserved"
  | CancellationRequested => "cancellationRequested"
  | PostflightRecorded => "postflightRecorded"
  | OutcomeClassified => "outcomeClassified"
  | PossibleEffectSetRecorded => "possibleEffectSetRecorded"
  | RecoveryAssessmentPublished => "recoveryAssessmentPublished"
  | RecoveryGuidePublished => "recoveryGuidePublished"
  | ReadOnlyObservationRecorded => "readOnlyObservationRecorded"
  end.

Definition kind_parse (text : string) : option JournalRecordKind :=
  List.find (fun k => String.eqb (kind_as_str k) text) kind_ALL.

Record JournalRecord := mkRecord {
  schema_version : Z;
  sequence : Z;
  job_revision : Z;
  kind : JournalRecordKind;
  policy : FsyncPolicy;
  at_epoch_ms : Z;
  subject : OpaqueId;
  facts : list (OpaqueId * string);
  previous_digest : Sha256Digest;
  record_digest : Sha256Digest
}.

#[global] Instance JournalRecord_eq_dec : EqDecision JournalRecord.
Proof. solve_decision. Defined.

Inductive JournalError : Type :=
| SequenceBroken (expected found : Z)
| ChainBroken (at_sequence : Z)
| RecordTampered (at_sequence : Z)
| FsyncPolicyMisdeclared (at_sequence : Z) (k : JournalRecordKind) (declared : FsyncPolicy)
| UnknownSchemaVersion (version : Z)
| RecordMalformed (name : string)
| JournalCbor (error : CborError).

(** ** Record *)

(** The fields of [body], in the order the code lists them. *)
Definition body_fields (r : JournalRecord) : list (string * CborValue) :=
  [("schemaVersion", Unsigned (schema_version r));
   ("sequence", Unsigned (sequence r));
   ("jobRevision", Unsigned (job_revision r));
   ("kind", Text (kind_as_str (kind r)));
   ("fsyncPolicy", Text (fsync_as_str (policy r)));
   ("atEpochMs", Unsigned (at_epoch_ms r));
   ("subject", to_cbor (subject r));
   ("facts", Map (fact_entries (facts r)));
   ("previousDigest", to_cbor (previous_digest r))]%string.

Definition body (r : JournalRecord) : CborValue := map_of (body_fields r).

(** [BodyView]: a record is digested through its body. *)
#[global] Instance record_cbor : CanonicalCbor JournalRecord := body.

Definition recompute_digest (r : JournalRecord) : result CborError Sha256Digest :=
  digest_canonical DJournalRecord r.

Definition record_to_bytes (r : JournalRecord) : result CborError bytes :=
  to_canonical_bytes
    (map_of (body_fields r ++ [("recordDigest"%string, to_cbor (record_digest r))])).

Definition record_from_bytes (input_bytes : bytes) : result JournalError JournalRecord :=
  let? value := map_err JournalCbor (decode_canonical input_bytes) in
  match value with
  | Map entries =>
      let unsigned := field_unsigned RecordMalformed entries in
      let text := field_text RecordMalformed entries in
      let digest := field_digest RecordMalformed entries in
      let? version := unsigned "schemaVersion"%string in
      let? version :=
        (if version <=? U32_MAX then Ok version else Err (RecordMalformed "schemaVersion")) in
      let? kind_text := text "kind"%string in
      let? k := ok_or (kind_parse kind_text) (RecordMalformed "kind") in
      let? policy_text := text "fsyncPolicy"%string in
      let? p := ok_or (fsync_parse policy_text) (RecordMalformed "fsyncPolicy") in
      let? subj := field_id RecordMalformed entries "subject"%string in
      let? fs :=
        match field entries "facts"%string with
        | Some (Map pairs) => read_facts (RecordMalformed "facts") pairs
        | _ => Err (RecordMalformed "facts")
        end in
      let? seq := unsigned "sequence"%string in
      let? rev := unsigned "jobRevision"%string in
      let? at_ms := unsigned "atEpochMs"%string in
      let? prev := digest "previousDigest"%string in
      let? own := digest "recordDigest"%string in
      Ok (mkRecord version seq rev k p at_ms subj fs prev own)
  | _ => Err (RecordMalformed "record is not a map")
  end.

(** ** Chain *)

Record Journal := mkJournal { records : list JournalRecord }.

Definition CHAIN_ORIGIN : Sha256Digest := mkDigest (replicate 32 0).

Definition journal_new : Journal := mkJournal [].

Definition head_digest (j : Journal) : Sha256Digest :=
  match last (records j) with
  | Some record => record_digest record
  | None => CHAIN_ORIGIN
  end.

Definition prepare_record (j : Journal) (k : JournalRecordKind) (at_ms revision : Z)
    (subj : OpaqueId) (fs : list (OpaqueId * string)) : result JournalError JournalRecord :=
  let record :=
    mkRecord SCHEMA_VERSION (zlen (records j) + 1) revision k (fsync_policy k) at_ms subj fs
      (head_digest j) CHAIN_ORIGIN in
  let? digest := map_err JournalCbor (recompute_digest record) in
  Ok (mkRecord SCHEMA_VERSION (zlen (records j) + 1) revision k (fsync_policy k) at_ms subj fs
        (head_digest j) digest).

Definition commit_record (j : Journal) (record : JournalRecord) : Journal :=
  mkJournal (records j ++ [record]).

Definition append (j : Journal) (k : JournalRecordKind) (at_ms revision : Z)
    (subj : OpaqueId) (fs : list (OpaqueId * string)) : result JournalError Journal :=
  let? record := prepare_record j k at_ms revision subj fs in
  Ok (commit_record j record).

Definition check_record (r : JournalRecord) : result JournalError unit :=
  if negb (schema_version r =? SCHEMA_VERSION) then Err (UnknownSchemaVersion (schema_version r))
  else if negb (bool_decide (policy r = fsync_policy (kind r)))
  then Err (FsyncPolicyMisdeclared (sequence r) (kind r) (policy r))
  else
    let? recomputed := map_err JournalCbor (recompute_digest r) in
    if negb (bool_decide (recomputed = record_digest r)) then Err (RecordTampered (sequence r))
    else Ok tt.

Definition adopt (j : Journal) (r : JournalRecord) : result JournalError Journal :=
  let expected := zlen (records j) + 1 in
  if negb (sequence r =? expected) then Err (SequenceBroken expected (sequence r))
  else if negb (bool_decide (previous_digest r = head_digest j))
  then Err (ChainBroken (sequence r))
  else
    let? _ := check_record r in
    Ok (mkJournal (records j ++ [r])).

(** The loop of [verify] from record number [index] on. *)
Fixpoint verify_from (previous : Sha256Digest) (index : Z) (rs : list JournalRecord) :
    result JournalError unit :=
  match rs with
  | [] => Ok tt
  | r :: rs =>
      let expected := index + 1 in
      if negb (sequence r =? expected) then Err (SequenceBroken expected (sequence r))
      else if negb (schema_version r =? SCHEMA_VERSION)
      then Err (UnknownSchemaVersion (schema_version r))
      else if negb (bool_decide (previous_digest r = previous)) then Err (ChainBroken (sequence r))
      else
        let? _ := check_record r in
        verify_from (record_digest r) (index + 1) rs
  end.

Definition verify (j : Journal) : result JournalError unit :=
  verify_from CHAIN_ORIGIN 0 (records j).

(** ** Records *)

(** The invariants the Rust types carry. *)
Definition record_ok (r : JournalRecord) : Prop :=
  u32 (schema_version r) /\ u64 (sequence r) /\ u64 (job_revision r) /\ u64 (at_epoch_ms r) /\
  id_ok (subject r) /\ facts_ok (facts r) /\
  digest_ok (previous_digest r) /\ digest_ok (record_digest r).

(** Two records with the same body: every digested field equal, the facts up
    to order. *)
Definition record_same (r s : JournalRecord) : Prop :=
  schema_version r = schema_version s /\ sequence r = sequence s /\
  job_revision r = job_revision s /\ kind r = kind s /\ policy r = policy s /\
  at_epoch_ms r = at_epoch_ms s /\ subject r = subject s /\ facts r ≡ₚ facts s /\
  previous_digest r = previous_digest s.

(** ... and the same stored digest. *)
Definition stored_same (r s : JournalRecord) : Prop :=
  record_same r s /\ record_digest r = record_digest s.

Lemma kind_parse_as_str k : kind_parse (kind_as_str k) = Some k.
Proof. by destruct k. Qed.

Lemma fsync_parse_as_str p : fsync_parse (fsync_as_str p) = Some p.
Proof. by destruct p. Qed.

Lemma kind_as_str_ok k : str_ok (kind_as_str k) /\ u64 (str_len (kind_as_str k)).
Proof. destruct k; (split; [vm_compute; reflexivity|split; vm_compute; congruence]). Qed.

Lemma fsync_as_str_ok p : str_ok (fsync_as_str p) /\ u64 (str_len (fsync_as_str p)).
Proof. destruct p; (split; [vm_compute; reflexivity|split; vm_compute; congruence]). Qed.

Definition stored_fields (r : JournalRecord) : list (string * CborValue) :=
  body_fields r ++ [("recordDigest"%string, to_cbor (record_digest r))].

Lemma stored_names_NoDup r : NoDup (map fst (stored_fields r)).
Proof. apply (bool_decide_unpack _). vm_compute. exact I. Qed.

Lemma body_names_NoDup r : NoDup (map fst (body_fields r)).
Proof. apply (bool_decide_unpack _). vm_compute. exact I. Qed.

(** Membership of a literal field. *)
Ltac in_fields := cbn [app body_fields stored_fields]; repeat first [left | right].

Lemma stored_fields_ok r :
  record_ok r -> Forall (fun '(n, v) => str_ok n /\ u64 (str_len n) /\ cbor_ok v) (stored_fields r).
Proof.
  intros (? & ? & ? & ? & ? & ? & ? & ?).
  destruct (kind_as_str_ok (kind r)), (fsync_as_str_ok (policy r)).
  assert (cbor_ok (Map (fact_entries (facts r)))) by by apply fact_entries_ok.
  unfold stored_fields, body_fields; cbn [app].
  repeat (apply Forall_cons_2; [apply literal_ok; [reflexivity..|auto with ark]|]);
    [constructor; zlia| constructor]. 
Qed.

Lemma body_ok r : record_ok r -> cbor_ok (body r).
Proof.
  intros Hr. apply map_of_ok; [vm_compute; split; congruence|].
  apply stored_fields_ok in Hr. unfold stored_fields in Hr. by apply Forall_app in Hr as [? _].
Qed.

Lemma record_same_of_carries k r s :
  carries k (body_fields r) -> k = text_entries (body_fields s) -> record_same r s.
Proof.
  intros Hk ->. pose proof (body_names_NoDup r) as Hnd.
  assert (forall name v, (name, v) ∈ body_fields r ->
    exists v', field (text_entries (body_fields s)) name = Some v' /\ cbor_eq v v') as Hf
    by (intros; by eapply carries_field).
  repeat split.
  - destruct (Hf "schemaVersion" _ ltac:(in_fields))%string as (v & [= <-] & He). by inversion He.
  - destruct (Hf "sequence" _ ltac:(in_fields))%string as (v & [= <-] & He). by inversion He.
  - destruct (Hf "jobRevision" _ ltac:(in_fields))%string as (v & [= <-] & He). by inversion He.
  - destruct (Hf "kind" _ ltac:(in_fields))%string as (v & [= <-] & He). inversion He as [| | |? Hs Hs'| | | |].
    assert (Some (kind r) = Some (kind s)) as [= ?] by (rewrite <- !kind_parse_as_str; congruence). done.
  - destruct (Hf "fsyncPolicy" _ ltac:(in_fields))%string as (v & [= <-] & He). inversion He as [| | |? Hs Hs'| | | |].
    assert (Some (policy r) = Some (policy s)) as [= ?] by (rewrite <- !fsync_parse_as_str; congruence). done.
  - destruct (Hf "atEpochMs" _ ltac:(in_fields))%string as (v & [= <-] & He). by inversion He.
  - destruct (Hf "subject" _ ltac:(in_fields))%string as (v & [= <-] & He).
    destruct (subject r), (subject s). by inversion He.
  - destruct (Hf "facts" _ ltac:(in_fields))%string as (v & [= <-] & He).
    apply fact_entries_eq in He as (fs & Hp & [= Hfs]). apply fact_entries_inj in Hfs. subst.
    by symmetry.
  - destruct (Hf "previousDigest" _ ltac:(in_fields))%string as (v & [= <-] & He).
    destruct (previous_digest r), (previous_digest s). by inversion He.
Qed.

#[global] Instance record_model : CborModel JournalRecord record_ok record_same.
Proof.
  split; [apply body_ok|]. intros r s _ _ He.
  apply cbor_eq_map_of in He as (k & Hb & Hk). injection Hb as Hb.
  by eapply record_same_of_carries.
Qed.

Lemma record_same_body r s : record_same r s -> cbor_eq (body r) (body s).
Proof.
  intros (E1 & E2 & E3 & E4 & E5 & E6 & E7 & Hf & E9).
  unfold body. rewrite !map_of_entries. econstructor; [done|].
  unfold text_entries, body_fields. rewrite E1, E2, E3, E4, E5, E6, E7, E9.
  repeat (constructor; [split; [reflexivity|]|]); try constructor; try reflexivity.
  econstructor; [apply Permutation_map, Hf|].
  clear. induction (facts s) as [|[k v] l IH]; constructor; [split; reflexivity|done].
Qed.

Lemma recompute_same r s h : record_same r s -> recompute_digest r = Ok h -> recompute_digest s = Ok h.
Proof.
  intros Hs. unfold recompute_digest. rewrite !digest_canonical_Ok. intros (b & Hb & ->).
  exists b. split; [|done]. eapply enc_respects; [by apply record_same_body|done].
Qed.

(** ** Storage round trip *)

Lemma stored_ok r : record_ok r -> cbor_ok (map_of (stored_fields r)).
Proof.
  intros Hr. apply map_of_ok; [vm_compute; split; congruence|]. by apply stored_fields_ok.
Qed.

Lemma stored_depth r : (depth (map_of (stored_fields r)) <= MAX_DEPTH)%nat.
Proof.
  enough (depth (map_of (stored_fields r)) < 3)%nat by (unfold MAX_DEPTH; lia).
  rewrite map_of_entries. apply depth_Map_lt.
  pose proof (fact_entries_depth (facts r)) as Hd.
  unfold text_entries, stored_fields, body_fields. cbn [app map].
  repeat (apply Forall_cons_2; [cbn [fst snd]; split; [cbn; lia|]|]); try first [lia | (cbn; lia)]; constructor.
Qed.

Lemma record_from_carries k r fs b :
  decode_canonical b = Ok (Map k) -> carries k (stored_fields r) -> record_ok r ->
  field k "facts"%string = Some (Map (fact_entries fs)) -> fs ≡ₚ facts r ->
  record_from_bytes b =
    Ok (mkRecord (schema_version r) (sequence r) (job_revision r) (kind r) (policy r)
          (at_epoch_ms r) (subject r) fs (previous_digest r) (record_digest r)).
Proof.
  intros Hd Hk (Hv & _ & _ & _ & Hs & [_ Hf] & Hp & Hr) Hfacts Hperm.
  unfold record_from_bytes. rewrite Hd. cbn [map_err].
  pose proof (stored_names_NoDup r) as Hnd.
  rewrite (read_unsigned RecordMalformed k (stored_fields r) Hk Hnd "schemaVersion" (schema_version r))
    by in_fields.
  destruct (Z.leb_spec (schema_version r) U32_MAX); [|zlia].
  rewrite (read_text RecordMalformed k (stored_fields r) Hk Hnd "kind" (kind_as_str (kind r)))
    by in_fields.
  rewrite kind_parse_as_str. cbn [ok_or].
  rewrite (read_text RecordMalformed k (stored_fields r) Hk Hnd "fsyncPolicy" (fsync_as_str (policy r)))
    by in_fields.
  rewrite fsync_parse_as_str. cbn [ok_or].
  rewrite (read_id RecordMalformed k (stored_fields r) Hk Hnd "subject" (subject r)) by (done || in_fields).
  rewrite Hfacts, read_facts_entries.
  2: { rewrite Hperm. eapply Forall_impl; [exact Hf|]. by intros ? (? & _). }
  rewrite (read_unsigned RecordMalformed k (stored_fields r) Hk Hnd "sequence" (sequence r)) by in_fields.
  rewrite (read_unsigned RecordMalformed k (stored_fields r) Hk Hnd "jobRevision" (job_revision r))
    by in_fields.
  rewrite (read_unsigned RecordMalformed k (stored_fields r) Hk Hnd "atEpochMs" (at_epoch_ms r))
    by in_fields.
  rewrite (read_digest RecordMalformed k (stored_fields r) Hk Hnd "previousDigest" (previous_digest r))
    by (done || in_fields).
  rewrite (read_digest RecordMalformed k (stored_fields r) Hk Hnd "recordDigest" (record_digest r))
    by (done || in_fields).
  done.
Qed.

(** What a stored record reads back as. *)
Lemma record_roundtrip r b :
  record_ok r -> record_to_bytes r = Ok b -> u64 (zlen b) ->
  exists r', record_from_bytes b = Ok r' /\ stored_same r r' /\ record_ok r'.
Proof.
  intros Hr Henc Hu.
  destruct (enc_decodes_top _ _ (stored_ok r Hr) (stored_depth r) Henc Hu) as (v & Hd & He).
  apply cbor_eq_map_of in He as (k & -> & Hk).
  destruct (carries_field k _ "facts" _ Hk (stored_names_NoDup r) ltac:(in_fields))
    as (vf & Hfield & Hf).
  apply fact_entries_eq in Hf as (fs & Hp & ->).
  eexists. split; [by eapply record_from_carries|]. split.
  - repeat split; cbn; done.
  - destruct Hr as (? & ? & ? & ? & ? & [Hl ?] & ? & ?). split_and!; cbn; try done.
    split; [by rewrite (zlen_Permutation _ _ Hp)|by rewrite Hp].
Qed.

(** ** The chain *)

Definition record_valid (r : JournalRecord) : Prop :=
  schema_version r = SCHEMA_VERSION /\ policy r = fsync_policy (kind r) /\
  recompute_digest r = Ok (record_digest r).

Fixpoint chain (previous : Sha256Digest) (index : Z) (rs : list JournalRecord) : Prop :=
  match rs with
  | [] => True
  | r :: rs =>
      sequence r = index + 1 /\ previous_digest r = previous /\ record_valid r /\
      chain (record_digest r) (index + 1) rs
  end.

Definition last_digest (previous : Sha256Digest) (rs : list JournalRecord) : Sha256Digest :=
  match last rs with Some r => record_digest r | None => previous end.

Lemma check_record_Ok r : check_record r = Ok tt <-> record_valid r.
Proof.
  unfold check_record, record_valid.
  destruct (Z.eqb_spec (schema_version r) SCHEMA_VERSION); cbn [negb]; [|split; [done|tauto]].
  case_bool_decide; cbn [negb]; [|split; [done|tauto]].
  destruct (recompute_digest r) as [h|]; cbn [map_err]; [|split; [done|by intros (_ & _ & ?)]].
  case_bool_decide; cbn [negb]; split; try done; [by subst|].
  intros (_ & _ & [= ?]). done.
Qed.

Lemma verify_from_Ok p i rs : verify_from p i rs = Ok tt <-> chain p i rs.
Proof.
  revert p i. induction rs as [|r rs IH]; intros p i; cbn [verify_from chain]; [done|].
  rewrite <- IH.
  destruct (Z.eqb_spec (sequence r) (i + 1)); cbn [negb]; [|split; [done|tauto]].
  destruct (Z.eqb_spec (schema_version r) SCHEMA_VERSION); cbn [negb];
    [|split; [done|by intros (_ & _ & [? _] & _)]].
  case_bool_decide; cbn [negb]; [|split; [done|tauto]].
  rewrite <- check_record_Ok. destruct (check_record r) as [[]|]; [tauto|].
  split; [done|]. by intros (_ & _ & ? & _).
Qed.

Lemma last_digest_cons p r rs : last_digest p (r :: rs) = last_digest (record_digest r) rs.
Proof. unfold last_digest. destruct rs; [done|]. by rewrite last_cons_cons; destruct (last (j :: rs)) eqn:E;
  [|by apply last_None in E]. Qed.

Lemma chain_app p i l k :
  chain p i (l ++ k) <-> chain p i l /\ chain (last_digest p l) (i + zlen l) k.
Proof.
  revert p i. induction l as [|r l IH]; intros p i; cbn [app chain].
  - rewrite zlen_nil, Z.add_0_r. unfold last_digest. simpl. tauto.
  - rewrite IH, last_digest_cons, zlen_cons, Z.add_assoc. tauto.
Qed.

Lemma head_last j : head_digest j = last_digest CHAIN_ORIGIN (records j).
Proof. reflexivity. Qed.

Lemma verify_Ok j : verify j = Ok tt <-> chain CHAIN_ORIGIN 0 (records j).
Proof. apply verify_from_Ok. Qed.

Lemma prepare_record_Ok j k at_ms revision subj fs r :
  prepare_record j k at_ms revision subj fs = Ok r ->
  r = mkRecord SCHEMA_VERSION (zlen (records j) + 1) revision k (fsync_policy k) at_ms subj fs
        (head_digest j) (record_digest r) /\ record_valid r.
Proof.
  unfold prepare_record. set (r0 := mkRecord _ _ _ _ _ _ _ _ _ CHAIN_ORIGIN).
  destruct (recompute_digest r0) as [h|] eqn:E; cbn [map_err]; [|done].
  intros [= <-]. split; [done|]. split_and!; [done|done|exact E].
Qed.

Lemma chain_snoc j r :
  chain CHAIN_ORIGIN 0 (records j ++ [r]) <->
  chain CHAIN_ORIGIN 0 (records j) /\ sequence r = zlen (records j) + 1 /\
  previous_digest r = head_digest j /\ record_valid r.
Proof. rewrite chain_app, <- head_last, Z.add_0_l. cbn [chain]. tauto. Qed.

Lemma prepare_chain j k at_ms revision subj fs r :
  chain CHAIN_ORIGIN 0 (records j) -> prepare_record j k at_ms revision subj fs = Ok r ->
  chain CHAIN_ORIGIN 0 (records j ++ [r]).
Proof. intros Hc [Hr Hv]%prepare_record_Ok. apply chain_snoc. rewrite Hr at 1 2. done. Qed.

Lemma adopt_Ok j r j' :
  adopt j r = Ok j' <->
  j' = mkJournal (records j ++ [r]) /\ sequence r = zlen (records j) + 1 /\
  previous_digest r = head_digest j /\ record_valid r.
Proof.
  unfold adopt. destruct (Z.eqb_spec (sequence r) (zlen (records j) + 1)); cbn [negb];
    [|split; [done|tauto]].
  case_bool_decide; cbn [negb]; [|split; [done|tauto]].
  rewrite <- check_record_Ok. destruct (check_record r) as [[]|].
  - split; [intros [= <-]|intros [-> _]]; tauto.
  - split; [done|]. by intros (_ & _ & _ & ?).
Qed.

(** Adopting records one after another. *)
Fixpoint adopt_all (j : Journal) (rs : list JournalRecord) : result JournalError Journal :=
  match rs with
  | [] => Ok j
  | r :: rs => let? j := adopt j r in adopt_all j rs
  end.

Lemma adopt_all_Ok rs j j' :
  chain CHAIN_ORIGIN 0 (records j) ->
  adopt_all j rs = Ok j' <-> j' = mkJournal (records j ++ rs) /\ chain CHAIN_ORIGIN 0 (records j ++ rs).
Proof.
  revert j. induction rs as [|r rs IH]; intros j Hc; cbn [adopt_all].
  - rewrite app_nil_r. split; [intros [= <-]; split; [by destruct j|done]|].
    intros [-> _]. by destruct j.
  - destruct (adopt j r) as [j1|] eqn:E.
    + apply adopt_Ok in E as (-> & H1 & H2 & H3).
      rewrite IH by (by apply chain_snoc). cbn [records]. by rewrite <- app_assoc.
    + split; [done|]. intros [-> H]. rewrite (app_assoc _ [r] rs : _ ++ r :: rs = _) in H.
      apply chain_app in H as [(_ & ? & ? & ?)%chain_snoc _].
      assert (adopt j r = Ok (mkJournal (records j ++ [r]))) as Ha by by apply adopt_Ok.
      congruence.
Qed.

(** ** Properties of the journal *)

Lemma last_digest_lookup p l r :
  last_digest p (l ++ [r]) = record_digest r.
Proof. unfold last_digest. by rewrite last_snoc. Qed.

(** The chain, record by record. *)
Definition chained (rs : list JournalRecord) : Prop :=
  forall i r, rs !! i = Some r ->
    sequence r = Z.of_nat i + 1 /\ record_valid r /\
    match i with
    | O => previous_digest r = CHAIN_ORIGIN
    | S i' => exists q, rs !! i' = Some q /\ previous_digest r = record_digest q
    end.

Lemma chain_chained rs : chain CHAIN_ORIGIN 0 rs <-> chained rs.
Proof.
  induction rs as [|r rs IH] using rev_ind; [split; [done|]; done|].
  pose proof (chain_snoc (mkJournal rs) r) as Hs. cbn [records] in Hs. rewrite Hs, IH. clear Hs IH.
  assert ((rs ++ [r]) !! length rs = Some r) as Hlast by (by rewrite lookup_app_r, Nat.sub_diag).
  assert (forall i q, rs !! i = Some q -> (rs ++ [r]) !! i = Some q) as Hpre
    by (intros; by apply lookup_app_l_Some).
  unfold chained. split.
  - intros (Hc & Hseq & Hprev & Hv) i q Hi. apply lookup_app_Some in Hi as [Hi|[Hle Hi]].
    + destruct (Hc i q Hi) as (? & ? & Hm). split_and!; try done.
      destruct i as [|i]; [done|]. destruct Hm as (q' & ? & ?). eauto.
    + apply list_lookup_singleton_Some in Hi as [Hi <-].
      assert (i = length rs) as -> by lia. split_and!; try done.
      rewrite head_last in Hprev. cbn [records] in Hprev. unfold last_digest in Hprev.
      destruct rs as [|q rs _] using rev_ind; [done|].
      rewrite last_snoc in Hprev. rewrite length_app, Nat.add_comm. cbn [length Nat.add].
      exists q. split; [|done]. apply Hpre. by rewrite lookup_app_r, Nat.sub_diag.
  - intros Hc. split_and!.
    + intros i q Hi. destruct (Hc i q) as (? & ? & Hm); [auto|]. split_and!; try done.
      destruct i as [|i]; [done|]. destruct Hm as (q' & Hq' & ?). exists q'. split; [|done].
      rewrite lookup_app_l in Hq'; [done|]. apply lookup_lt_Some in Hi. lia.
    + by apply (Hc (length rs)).
    + destruct (Hc _ _ Hlast) as (_ & _ & Hm). rewrite head_last. cbn [records]. unfold last_digest.
      destruct rs as [|q rs _] using rev_ind; [done|]. rewrite last_snoc.
      rewrite length_app, Nat.add_comm in Hm. cbn [length Nat.add] in Hm.
      destruct Hm as (q' & Hq' & ->). rewrite <- app_assoc, lookup_app_r, Nat.sub_diag in Hq' by done.
      by injection Hq' as ->.
    + by apply (Hc (length rs)).
Qed.

(** [verify] accepts a journal exactly when every record carries the schema
    version, its place in the sequence, the digest of the record before it, the
    fsync policy its kind demands and the digest of its own body. *)
Theorem journal_verify_iff j : verify j = Ok tt <-> chained (records j).
Proof. by rewrite verify_Ok, chain_chained. Qed.

(** [append] keeps a verified journal verified and changes nothing but adding
    one record of the requested kind, with that kind's fsync policy, at the
    end. *)
Theorem journal_append_verifies j k at_ms revision subj fs j' :
  verify j = Ok tt -> append j k at_ms revision subj fs = Ok j' ->
  verify j' = Ok tt /\
  exists r, records j' = records j ++ [r] /\ kind r = k /\ policy r = fsync_policy k /\
    subject r = subj /\ facts r = fs /\ sequence r = zlen (records j) + 1.
Proof.
  rewrite !verify_Ok. unfold append. intros Hc.
  destruct (prepare_record _ _ _ _ _ _) as [r|] eqn:E; [|done]. intros [= <-].
  split; [by eapply prepare_chain|]. exists r. apply prepare_record_Ok in E as [-> _]. done.
Qed.

Lemma body_encodes r :
  Forall (fun f => id_ok f.1) (facts r) ->
  (exists b, enc (body r) b) <-> NoDup (map fst (facts r)).
Proof.
  intros Hf. rewrite <- fact_entries_encode by done. unfold body. rewrite map_of_entries. split.
  - intros [b (kvs & Hk & _)%enc_Map]. do 7 apply Forall2_cons_inv_l in Hk as (? & ? & _ & Hk & _).
    apply Forall2_cons_inv_l in Hk as ([kb vb] & ? & [_ Hv] & _). eauto.
  - intros Hfacts. apply text_map_encodes; [|unfold body_fields|apply body_names_NoDup].
    + repeat (apply Forall_cons_2; [vm_compute; congruence|]); constructor.
    + repeat (apply Forall_cons_2; [first [exact Hfacts | (eexists; reflexivity)]|]); constructor.
Qed.

(** The only way [append] fails is a fact key given twice: with well-formed
    keys it succeeds exactly when the keys are distinct, and otherwise the
    journal is not changed. *)
Theorem journal_append_succeeds_iff j k at_ms revision subj fs :
  Forall (fun f => id_ok f.1) fs ->
  (exists j', append j k at_ms revision subj fs = Ok j') <-> NoDup (map fst fs).
Proof.
  intros Hf. unfold append, prepare_record, recompute_digest, digest_canonical.
  set (r := mkRecord _ _ _ _ _ _ _ _ _ CHAIN_ORIGIN).
  pose proof (body_encodes r Hf : _ <-> NoDup (map fst fs)) as <-. unfold enc. change (to_canonical_bytes (body r)) with (value_bytes r).
  destruct (value_bytes r); cbn [map_err]; split; intros [? ?]; eauto; done.
Qed.

(** Replaying stored records through [adopt] succeeds exactly when the whole
    journal verifies, and rebuilds exactly those records. *)
Theorem journal_replay_iff_verify rs j :
  adopt_all journal_new rs = Ok j <-> j = mkJournal rs /\ verify (mkJournal rs) = Ok tt.
Proof. rewrite adopt_all_Ok by done. by rewrite verify_Ok. Qed.

(** SHA-256 does not collide on any two record bodies of the two journals. *)
Definition bodies_do_not_collide (l k : list JournalRecord) : Prop :=
  forall r s br bs, r ∈ l -> s ∈ k -> value_bytes r = Ok br -> value_bytes s = Ok bs ->
    no_collision (as_bytes DJournalRecord ++ br) (as_bytes DJournalRecord ++ bs).

(** Records that fit in memory. *)
Definition journal_ok (l : list JournalRecord) : Prop :=
  Forall (fun r => record_ok r /\ forall b, value_bytes r = Ok b -> u64 (zlen b)) l.

Lemma same_digest_same_record r s :
  record_ok r -> record_ok s -> record_valid r -> record_valid s ->
  (forall b, value_bytes r = Ok b -> u64 (zlen b)) -> bodies_do_not_collide [r] [s] ->
  record_digest r = record_digest s -> stored_same r s.
Proof.
  intros Hr Hs (_ & _ & Hdr) (_ & _ & Hds) Hu Hnc Heq. split; [|done].
  unfold recompute_digest in *. rewrite Heq in Hdr.
  pose proof Hdr as (br & Hbr & _)%digest_canonical_Ok.
  pose proof Hds as (bs & Hbs & _)%digest_canonical_Ok.
  eapply (digest_binding DJournalRecord r s); eauto. eapply Hnc; [left|left|done..].
Qed.

Lemma head_binds l k :
  l <> [] -> k <> [] -> chain CHAIN_ORIGIN 0 l -> chain CHAIN_ORIGIN 0 k ->
  journal_ok l -> journal_ok k -> bodies_do_not_collide l k ->
  last_digest CHAIN_ORIGIN l = last_digest CHAIN_ORIGIN k -> Forall2 stored_same l k.
Proof.
  revert k. induction l as [|r l IH] using rev_ind; intros k Hl Hk Cl Ck Ol Ok_ Hnc Heq; [done|].
  destruct k as [|s k _] using rev_ind; [done|]. rewrite !last_digest_lookup in Heq.
  pose proof (chain_snoc (mkJournal l) r) as Hl'. pose proof (chain_snoc (mkJournal k) s) as Hk'.
  cbn [records] in *. apply Hl' in Cl as (Cl & Sl & Pl & Vl). apply Hk' in Ck as (Ck & Sk & Pk & Vk).
  apply Forall_app in Ol as [Ol [[Or Ur] _]%Forall_cons].
  apply Forall_app in Ok_ as [Ok_ [[Os _] _]%Forall_cons].
  assert (stored_same r s) as Hrs.
  { apply same_digest_same_record; try done. intros ? ? ? ? Hr Hs. 
    apply list_elem_of_singleton in Hr as ->. apply list_elem_of_singleton in Hs as ->. apply Hnc; set_solver. }
  destruct Hrs as [Hsame Hd]. pose proof Hsame as (_ & Hseq & _ & _ & _ & _ & _ & _ & Hprev).
  apply Forall2_app; [|constructor; [done|constructor]].
  rewrite Pl, Pk, !head_last in Hprev. cbn [records] in Hprev.
  assert (zlen l = zlen k) as Hlen by lia.
  destruct (decide (l = [])) as [->|Hne].
  - destruct k; [constructor|]. rewrite zlen_nil, zlen_cons in Hlen.
    pose proof (zlen_nonneg k). lia.
  - apply IH; try done.
    + intros ->. apply Hne. destruct l; [done|]. rewrite zlen_nil, zlen_cons in Hlen.
      pose proof (zlen_nonneg l). lia.
    + intros ? ? ? ? ? ?. apply Hnc; set_solver.
Qed.

(** Tamper evidence: two verified non-empty journals with the same head digest
    hold the same history, record for record (the order of facts inside a
    record apart, which the digest does not cover), unless SHA-256 collides on
    two of their record bodies. *)
Theorem journal_head_binds_history j1 j2 :
  records j1 <> [] -> records j2 <> [] ->
  verify j1 = Ok tt -> verify j2 = Ok tt ->
  journal_ok (records j1) -> journal_ok (records j2) ->
  bodies_do_not_collide (records j1) (records j2) ->
  head_digest j1 = head_digest j2 ->
  Forall2 stored_same (records j1) (records j2).
Proof. rewrite !verify_Ok. intros. by apply head_binds. Qed.

(** A record written by [to_canonical_bytes] is read back by
    [from_canonical_bytes] with every field intact (facts in canonical order),
    so its digest still verifies. *)
Theorem record_storage_roundtrip r b :
  record_ok r -> record_to_bytes r = Ok b -> u64 (zlen b) ->
  exists r', record_from_bytes b = Ok r' /\ stored_same r r' /\
    (record_valid r -> record_valid r').
Proof.
  intros Hr Hb Hu. destruct (record_roundtrip r b Hr Hb Hu) as (r' & ? & Hs & _).
  exists r'. split_and!; [done|done|]. destruct Hs as [Hs Hd]. intros (Hv & Hp & Hc).
  split_and!.
  - destruct Hs as (<- & _). done.
  - destruct Hs as (_ & _ & _ & <- & <- & _). done.
  - rewrite <- Hd. by eapply recompute_same.
Qed.

(** ** Samples for the witnesses *)

Definition sample_job : OpaqueId := mkId "JOB-1".

Definition sample_append (j : Journal) (k : JournalRecordKind) (fs : list (OpaqueId * string)) :
    Journal :=
  match append j k 1000 1 sample_job fs with Ok j' => j' | Err _ => j end.

(** A job created and a permit accepted. *)
Definition sample_journal : Journal :=
  Eval vm_compute in
    sample_append (sample_append journal_new JobCreated [(mkId "jobId", "JOB-1"%string)])
      StepPermitAccepted [(mkId "permitId", "PERMIT-1"%string); (mkId "jobId", "JOB-1"%string)].

(** A decision procedure for [bodies_do_not_collide]. *)
Definition bodies_distinct (l k : list JournalRecord) : bool :=
  forallb (fun r => forallb (fun s =>
    match value_bytes r, value_bytes s with
    | Ok br, Ok bs =>
        bool_decide (br = bs) ||
        negb (bool_decide (digest_in_domain DJournalRecord br = digest_in_domain DJournalRecord bs))
    | _, _ => true
    end) k) l.

Lemma bodies_distinct_sound l k : bodies_distinct l k = true -> bodies_do_not_collide l k.
Proof.
  unfold bodies_distinct. intros H r s br bs Hr Hs Er Es Heq.
  rewrite forallb_forall in H. specialize (H r (proj1 (list_elem_of_In _ _) Hr)).
  rewrite forallb_forall in H. specialize (H s (proj1 (list_elem_of_In _ _) Hs)).
  rewrite Er, Es, !digest_in_domain_is_spec in H.
  rewrite (bool_decide_eq_true_2 (_ = sha256_spec _)) in H by done.
  rewrite orb_false_r in H. apply bool_decide_eq_true in H. by subst.
Qed.

Ltac wf_solver :=
  repeat first [split | constructor | zlia | (vm_compute; congruence)].

Lemma sample_journal_ok : journal_ok (records sample_journal).
Proof.
  unfold journal_ok, sample_journal. cbn [records].
  repeat (apply Forall_cons_2;
    [split; [wf_solver|intros b Hb; vm_compute in Hb; injection Hb as <-; wf_solver]|]).
  constructor.
Qed.

Lemma journal_append_verifies_witness :
  exists j', append sample_journal StepIntentRecorded 2000 1 sample_job [] = Ok j' /\
    verify j' = Ok tt.
Proof.
  eexists. split; [vm_compute; reflexivity|].
  refine (proj1 (journal_append_verifies sample_journal StepIntentRecorded 2000 1 sample_job [] _ _ _));
    vm_compute; reflexivity.
Defined.

Lemma journal_append_succeeds_iff_witness :
  exists j', append sample_journal PermitConsuming 2000 1 sample_job
    [(mkId "permitId", "PERMIT-1"%string); (mkId "stepId", "flash"%string)] = Ok j'.
Proof.
  apply journal_append_succeeds_iff.
  - repeat constructor.
  - apply (bool_decide_unpack _). vm_compute. exact I.
Defined.

Lemma journal_head_binds_history_witness :
  Forall2 stored_same (records sample_journal) (records sample_journal).
Proof.
  apply (journal_head_binds_history sample_journal sample_journal).
  - discriminate.
  - discriminate.
  - vm_compute. reflexivity.
  - vm_compute. reflexivity.
  - exact sample_journal_ok.
  - exact sample_journal_ok.
  - apply bodies_distinct_sound. vm_compute. reflexivity.
  - reflexivity.
Defined.

Definition sample_record : JournalRecord :=
  Eval vm_compute in
    match records sample_journal with _ :: r :: _ => r
    | _ => mkRecord 0 0 0 PlanStored Durable 0 sample_job [] CHAIN_ORIGIN CHAIN_ORIGIN end.

Definition sample_record_bytes : bytes :=
  Eval vm_compute in match record_to_bytes sample_record with Ok b => b | Err _ => [] end.

Lemma record_storage_roundtrip_witness :
  exists r', record_from_bytes sample_record_bytes = Ok r' /\ stored_same sample_record r' /\
    (record_valid sample_record -> record_valid r').
Proof.
  apply (record_storage_roundtrip sample_record sample_record_bytes);
    [wf_solver|vm_compute; reflexivity|wf_solver].
Defined.

(** ** What the record digest does not cover *)

(** The stored form of [r] with one more field. *)
Definition with_extra_field (r : JournalRecord) (name : string) (v : CborValue) :
    result CborError bytes :=
  to_canonical_bytes (map_of (stored_fields r ++ [(name, v)])).

(** Finding: the reader ignores fields it does not know and the digest is
    recomputed from the known ones, so a stored record edited by adding a field
    still reads back as a record that passes every check, although it is not
    the encoding of that record. *)
Lemma edited_record_is_accepted :
  exists b r, with_extra_field sample_record "note" (Text "edited") = Ok b /\
    record_from_bytes b = Ok r /\ check_record r = Ok tt /\ record_to_bytes r <> Ok b.
Proof.
  eexists _, _. split; [vm_compute; reflexivity|]. split; [vm_compute; reflexivity|].
  split; [vm_compute; reflexivity|]. vm_compute. discriminate.
Qed.
