(* ===== verification/Durable.v ===== *)
(** * The journal on disk (crates/arkforge-engine/src/durable.rs)

    The file format (a magic header and length-prefixed frames), [open] with its
    replay loop and torn-tail truncation, [append] and [sync] with every
    outcome the operating system may give them, and the crash theorems: the
    model keeps the file's bytes and how much of them an [fsync] has made
    stable. *)

From S2P Require Import Prelude Cbor Sha256 Digest Fields Journal.

(** ** Data *)

Definition MAGIC : bytes := bytes_of_string "ARKFJRN1".

Definition MAX_FRAME_BYTES : Z := 1048576.

(** An open file: its bytes, the write position, and the length of the prefix
    the last successful [sync_all] covered. *)
Record File := mkFile { content : bytes; offset : Z; stable : Z }.

Record DurableJournal := mkDurable {
  file : File;
  journal : Journal;
  unsynced_records : Z;
  poisoned : bool
}.

Record RecoveryReport := mkReport {
  records_replayed : Z;
  torn_tail_bytes : Z;
  existed : bool
}.

Definition was_torn (r : RecoveryReport) : bool := 0 <? torn_tail_bytes r.

Inductive DurableJournalError : Type :=
| DurableIo
| NotAJournal
| FrameLengthInvalid (at_offset length : Z)
| RecordTooLarge (size : Z)
| Poisoned
| DurableRecord (error : JournalError).

(** ** The file system calls the code makes *)

(** [file.write(data)] that wrote [n] bytes at the current position. *)
Definition file_write (f : File) (data : bytes) (n : nat) : File :=
  let at_ := Z.to_nat (offset f) in
  mkFile (take at_ (content f) ++ take n data ++ drop (at_ + n) (content f))
         (offset f + Z.of_nat n) (stable f).

Definition sync_all (f : File) : File := mkFile (content f) (offset f) (zlen (content f)).

Definition set_len (f : File) (len : Z) : File :=
  mkFile (take (Z.to_nat len) (content f)) (offset f) (Z.min (stable f) len).

Definition seek (f : File) (position : Z) : File := mkFile (content f) position (stable f).

(** What the operating system answers during one [open]: whether the directory,
    the file and its bytes could be had, how many header bytes were written when
    the header write or its sync failed, and whether truncation, its sync and
    the final seek worked. *)
Record OpenIo := mkOpenIo {
  io_readable : bool;
  io_header : option nat;
  io_set_len : bool;
  io_set_len_sync : bool;
  io_seek : bool
}.

Definition io_ok : OpenIo := mkOpenIo true None true true true.

(** ** Opening *)

Record Replay := mkReplay { r_journal : Journal; r_replayed : Z; r_torn : Z; r_cursor : Z }.

(** The [while cursor < bytes.len()] loop; [None] only if [fuel] is exhausted. *)
Fixpoint replay (fuel : nat) (input_bytes : bytes) (cursor : Z) (j : Journal) (replayed : Z) :
    option (result DurableJournalError Replay) :=
  match fuel with
  | O => None
  | S fuel =>
      if negb (cursor <? zlen input_bytes) then Some (Ok (mkReplay j replayed 0 cursor))
      else
        match slice_get input_bytes cursor (cursor + 4) with
        | None => Some (Ok (mkReplay j replayed (zlen input_bytes - cursor) cursor))
        | Some length_bytes =>
            let length := from_be_bytes length_bytes in
            if (length =? 0) || (MAX_FRAME_BYTES <? length)
            then Some (Err (FrameLengthInvalid cursor length))
            else
              let body_start := cursor + 4 in
              match slice_get input_bytes body_start (body_start + length) with
              | None => Some (Ok (mkReplay j replayed (zlen input_bytes - cursor) cursor))
              | Some b =>
                  match map_err DurableRecord (record_from_bytes b) with
                  | Err e => Some (Err e)
                  | Ok record =>
                      match map_err DurableRecord (adopt j record) with
                      | Err e => Some (Err e)
                      | Ok j => replay fuel input_bytes (body_start + length) j (replayed + 1)
                      end
                  end
              end
        end
  end.

(** The end of [open]: cut the torn tail, sync, and seek to the end. *)
Definition finish_open (f : File) (r : Replay) (existed : bool) (io : OpenIo) :
    File * result DurableJournalError (DurableJournal * RecoveryReport) :=
  let report := mkReport (r_replayed r) (r_torn r) existed in
  let truncated : File * bool :=
    if 0 <? r_torn r then
      if negb (io_set_len io) then (f, false)
      else if negb (io_set_len_sync io) then (set_len f (r_cursor r), false)
      else (sync_all (set_len f (r_cursor r)), true)
    else (f, true) in
  match truncated with
  | (f, false) => (f, Err DurableIo)
  | (f, true) =>
      if negb (io_seek io) then (f, Err DurableIo)
      else
        let f := seek f (r_cursor r) in
        (f, Ok (mkDurable f (r_journal r) 0 false, report))
  end.

(** [DurableJournal::open] on what is on disk ([None]: no such file), with what
    it leaves on disk. *)
Definition open (disk : option File) (io : OpenIo) :
    option (File * result DurableJournalError (DurableJournal * RecoveryReport)) :=
  let existed := match disk with Some _ => true | None => false end in
  let f0 := match disk with Some f => mkFile (content f) 0 (stable f) | None => mkFile [] 0 0 end in
  if negb (io_readable io) then Some (f0, Err DurableIo)
  else
    let input_bytes := content f0 in
    let started : File * result DurableJournalError Z :=
      if zlen input_bytes =? 0 then
        match io_header io with
        | Some n => (file_write f0 MAGIC n, Err DurableIo)
        | None => (sync_all (file_write f0 MAGIC (length MAGIC)), Ok (zlen MAGIC))
        end
      else if (zlen input_bytes <? zlen MAGIC)
              || negb (bool_decide (take (length MAGIC) input_bytes = MAGIC))
      then (f0, Err NotAJournal)
      else (f0, Ok (zlen MAGIC)) in
    match started with
    | (f, Err e) => Some (f, Err e)
    | (f, Ok cursor) =>
        match replay (S (length input_bytes)) input_bytes cursor journal_new 0 with
        | None => None
        | Some (Err e) => Some (f, Err e)
        | Some (Ok r) => Some (finish_open f r existed io)
        end
    end.

(** ** Appending *)

(** The answer to [file.write]: the number of bytes taken, or an error. A write
    takes at most the buffer it was given. *)
Inductive WriteOutcome : Type := Wrote (written : nat) | WriteFailed.

Definition frame (b : bytes) : bytes := to_be_bytes 4 (zlen b) ++ b.

Definition durable_append (d : DurableJournal) (k : JournalRecordKind) (at_ms revision : Z)
    (subj : OpaqueId) (fs : list (OpaqueId * string)) (write : WriteOutcome) (synced : bool) :
    DurableJournal * result DurableJournalError Sha256Digest :=
  if poisoned d then (d, Err Poisoned)
  else
    match prepare_record (journal d) k at_ms revision subj fs with
    | Err e => (d, Err (DurableRecord e))
    | Ok record =>
        match record_to_bytes record with
        | Err e => (d, Err (DurableRecord (JournalCbor e)))
        | Ok b =>
            if negb ((0 <? zlen b) && (zlen b <=? MAX_FRAME_BYTES))
            then (d, Err (RecordTooLarge (zlen b)))
            else
              let data := frame b in
              match write with
              | WriteFailed => (mkDurable (file d) (journal d) (unsynced_records d) true, Err DurableIo)
              | Wrote n =>
                  let n := Nat.min n (length data) in
                  let f := file_write (file d) data n in
                  if negb (n =? length data)%nat
                  then (mkDurable f (journal d) (unsynced_records d) true, Err DurableIo)
                  else
                    let j := commit_record (journal d) record in
                    if bool_decide (policy record = Durable) then
                      if negb synced
                      then (mkDurable f j (unsynced_records d + 1) true, Err DurableIo)
                      else (mkDurable (sync_all f) j 0 false, Ok (record_digest record))
                    else (mkDurable f j (unsynced_records d + 1) false, Ok (record_digest record))
              end
        end
    end.

Definition durable_sync (d : DurableJournal) (synced : bool) :
    DurableJournal * result DurableJournalError unit :=
  if poisoned d then (d, Err Poisoned)
  else if negb synced
  then (mkDurable (file d) (journal d) (unsynced_records d) true, Err DurableIo)
  else (mkDurable (sync_all (file d)) (journal d) 0 false, Ok tt).

(** ** Replaying a file of frames *)

Definition frames (bs : list bytes) : bytes := concat (map frame bs).

Definition fits (b : bytes) : Prop := 0 < zlen b <= MAX_FRAME_BYTES.

(** A proper prefix of a frame: what an interrupted write leaves. *)
Definition torn (t : bytes) : Prop :=
  exists b n, fits b /\ (n < length (frame b))%nat /\ t = take n (frame b).

Lemma frame_length b : zlen (frame b) = 4 + zlen b.
Proof. unfold frame. by rewrite zlen_app, (eq_refl : zlen (to_be_bytes 4 (zlen b)) = 4). Qed.

Lemma frame_head b : fits b -> from_be_bytes (to_be_bytes 4 (zlen b)) = zlen b.
Proof. unfold fits, MAX_FRAME_BYTES. intros. apply from_be_small. change (256 ^ Z.of_nat 4) with 4294967296. lia. Qed.

Lemma fits_length b : fits b -> (zlen b =? 0) || (MAX_FRAME_BYTES <? zlen b) = false.
Proof.
  intros [? ?]. apply orb_false_iff. split; [apply Z.eqb_neq|apply Z.ltb_ge]; lia.
Qed.

Lemma slice_past {A} (l : list A) start stop : zlen l < stop -> slice_get l start stop = None.
Proof.
  intros. unfold slice_get. destruct (Z.leb_spec stop (zlen l)); [lia|done].
Qed.

Lemma torn_nil : torn [].
Proof. exists [0], O. split_and!; [done|cbn; lia|done]. Qed.

Lemma replay_end fuel pre t j n :
  torn t -> replay (S fuel) (pre ++ t) (zlen pre) j n = Some (Ok (mkReplay j n (zlen t) (zlen pre))).
Proof.
  intros (b & k & Hb & Hk & ->). cbn [replay]. rewrite zlen_app.
  set (t := take k (frame b)). pose proof (zlen_nonneg t).
  destruct (Z.ltb_spec (zlen pre) (zlen pre + zlen t)) as [Hlt|]; cbn [negb].
  2: { by replace (zlen t) with 0 by lia. }
  replace (zlen pre + zlen t - zlen pre) with (zlen t) by lia.
  assert (zlen t = Z.of_nat k) as Ht by (unfold t, zlen; rewrite length_take_le; lia).
  destruct (Z.lt_ge_cases (zlen t) 4) as [Hs|Hs].
  { rewrite slice_past by (rewrite zlen_app; lia). done. }
  assert (t = to_be_bytes 4 (zlen b) ++ take (k - 4) b) as ->.
  { unfold t, frame. rewrite take_app. rewrite take_ge by (rewrite to_be_length; lia).
    by rewrite to_be_length. }
  rewrite (slice_get_app pre) by (rewrite ?zlen_app; unfold zlen; rewrite ?to_be_length; lia).
  rewrite frame_head by done. rewrite fits_length by done.
  assert (zlen (frame b) = 4 + zlen b) by apply frame_length.
  rewrite slice_past; [done|]. rewrite !zlen_app.
  assert (zlen (take (k - 4) b) = Z.of_nat (k - 4)) by (unfold zlen in *; rewrite length_take_le; lia).
  rewrite (eq_refl : zlen (to_be_bytes 4 (zlen b)) = 4). unfold zlen in *. lia.
Qed.

Lemma replay_frame fuel pre b rest j n :
  fits b ->
  replay (S fuel) (pre ++ frame b ++ rest) (zlen pre) j n =
    match map_err DurableRecord (record_from_bytes b) with
    | Err e => Some (Err e)
    | Ok r =>
        match map_err DurableRecord (adopt j r) with
        | Err e => Some (Err e)
        | Ok j' => replay fuel ((pre ++ frame b) ++ rest) (zlen (pre ++ frame b)) j' (n + 1)
        end
    end.
Proof.
  intros Hb. cbn [replay]. pose proof (frame_length b). pose proof Hb as [? _].
  destruct (Z.ltb_spec (zlen pre) (zlen (pre ++ frame b ++ rest))) as [_|Hge]; cbn [negb].
  2: { rewrite !zlen_app in Hge. pose proof (zlen_nonneg rest). lia. }
  unfold frame at 1. rewrite <- (app_assoc (to_be_bytes 4 (zlen b))).
  rewrite (slice_get_app pre) by done. rewrite frame_head, fits_length by done.
  unfold frame at 1. rewrite <- (app_assoc (to_be_bytes 4 (zlen b))), (app_assoc pre).
  rewrite (slice_get_app (pre ++ to_be_bytes 4 (zlen b)) b rest) by (rewrite zlen_app; done).
  rewrite <- (app_assoc pre). rewrite !zlen_app. unfold frame at 1.
  replace (zlen pre + zlen (frame b)) with (zlen pre + 4 + zlen b) by lia. done.
Qed.

Lemma replay_frames fuel pre bs rs t j j' n :
  Forall fits bs -> Forall2 (fun b r => record_from_bytes b = Ok r) bs rs ->
  adopt_all j rs = Ok j' -> torn t -> (length bs < fuel)%nat ->
  replay fuel (pre ++ frames bs ++ t) (zlen pre) j n =
    Some (Ok (mkReplay j' (n + zlen bs) (zlen t) (zlen (pre ++ frames bs)))).
Proof.
  intros Hf Hr Hadopt Ht. revert fuel pre j n Hf Hadopt.
  induction Hr as [|b r bs rs Hb Hr IH]; intros fuel pre j n Hf Hadopt Hlen.
  - destruct fuel as [|fuel]; [cbn in Hlen; lia|]. injection Hadopt as <-. cbn [frames map concat app].
    rewrite replay_end, app_nil_r, zlen_nil, Z.add_0_r by done. done.
  - destruct fuel as [|fuel]; [cbn in Hlen; lia|]. apply Forall_cons in Hf as [Hfb Hf].
    unfold frames. cbn [map concat]. fold (frames bs). rewrite <- app_assoc, replay_frame by done.
    rewrite Hb. cbn [map_err adopt_all] in *. destruct (adopt j r) as [j1|]; [|done].
    cbn [map_err]. rewrite (IH fuel (pre ++ frame b) j1) by (done || (cbn in Hlen; lia)).
    rewrite zlen_cons, <- app_assoc. do 3 f_equal. lia.
Qed.

Lemma replay_more fuel input_bytes c j n r :
  replay fuel input_bytes c j n = Some r -> replay (S fuel) input_bytes c j n = Some r.
Proof.
  revert c j n. induction fuel as [|fuel IH]; intros c j n; [done|].
  intros H. cbn [replay] in H. remember (S fuel) as k. cbn [replay]. subst k.
  repeat match type of H with
  | match ?x with _ => _ end = _ => destruct x eqn:?; try done
  end. auto.
Qed.

Lemma slice_get_ok l start stop s : bytes_ok l -> slice_get l start stop = Some s -> bytes_ok s.
Proof.
  intros Hl. unfold slice_get. destruct (_ <=? _); [|done]. intros [= <-].
  by apply Forall_take, Forall_drop.
Qed.

(** The loop always ends: each round consumes at least five bytes. *)
Lemma replay_total fuel input_bytes c j n :
  0 <= c -> bytes_ok input_bytes -> Z.max 0 (zlen input_bytes - c) < Z.of_nat fuel ->
  exists r, replay fuel input_bytes c j n = Some r.
Proof.
  intros Hc Hok. revert c j n Hc. induction fuel as [|fuel IH]; intros c j n Hc Hf; [lia|].
  cbn [replay]. destruct (Z.ltb_spec c (zlen input_bytes)); cbn [negb]; [|eauto].
  destruct (slice_get input_bytes c (c + 4)) as [lb|] eqn:E; [|eauto].
  pose proof (from_be_bound lb (slice_get_ok _ _ _ _ Hok E)).
  destruct ((from_be_bytes lb =? 0) || _) eqn:B; [eauto|]. breflect.
  destruct (slice_get _ (c + 4) _); [|eauto].
  destruct (map_err _ (record_from_bytes _)); [|eauto].
  destruct (map_err _ (adopt _ _)); [|eauto]. apply IH; lia.
Qed.

(** ** What an open journal holds *)

(** The file is a header and one frame per record, followed by the rest of an
    interrupted write; the records are the ones in memory. *)
Record stored (f : File) (j : Journal) (bs : list bytes) (t : bytes) : Prop := {
  st_content : content f = MAGIC ++ frames bs ++ t;
  st_torn : torn t;
  st_fits : Forall fits bs;
  st_records : exists rs, Forall2 (fun b r => record_from_bytes b = Ok r) bs rs /\
                          Forall2 stored_same (records j) rs;
  st_chain : chain CHAIN_ORIGIN 0 (records j)
}.

Lemma stored_same_chain l k p i : Forall2 stored_same l k -> chain p i l -> chain p i k.
Proof.
  intros H. revert p i. induction H as [|r s l k [Hs Hd] _ IH]; intros p i; [done|].
  cbn [chain]. intros (H1 & H2 & (V1 & V2 & V3) & Hc). pose proof (recompute_same r s _ Hs V3) as V.
  rewrite Hd in V. destruct Hs as (S1 & S2 & S3 & S4 & S5 & S6 & S7 & S8 & S9).
  split_and!; [congruence|congruence| |rewrite <- Hd; auto].
  split_and!; [congruence|congruence|done].
Qed.

Lemma stored_same_refl r : stored_same r r.
Proof. split; [split_and!|]; done. Qed.

Lemma Forall2_self {A} (R : A -> A -> Prop) l : (forall x, R x x) -> Forall2 R l l.
Proof. intros H. induction l; constructor; auto. Qed.

Lemma frames_app bs cs : frames (bs ++ cs) = frames bs ++ frames cs.
Proof. unfold frames. by rewrite map_app, concat_app. Qed.

(** [open] past the header check. *)
Lemma open_header f rest io :
  content f = MAGIC ++ rest -> io_readable io = true ->
  open (Some f) io =
    let f0 := mkFile (MAGIC ++ rest) 0 (stable f) in
    match replay (S (length (MAGIC ++ rest))) (MAGIC ++ rest) (zlen MAGIC) journal_new 0 with
    | None => None
    | Some (Err e) => Some (f0, Err e)
    | Some (Ok r) => Some (finish_open f0 r true io)
    end.
Proof.
  intros Hc Hio. unfold open. rewrite Hc, Hio. cbn [negb content].
  pose proof (zlen_nonneg rest).
  destruct (Z.eqb_spec (zlen (MAGIC ++ rest)) 0) as [E|_];
    [rewrite zlen_app in E; change (zlen MAGIC) with 8 in E; lia|].
  destruct (Z.ltb_spec (zlen (MAGIC ++ rest)) (zlen MAGIC)) as [E|_];
    [rewrite zlen_app in E; change (zlen MAGIC) with 8 in E; lia|].
  rewrite take_app_length, bool_decide_eq_true_2 by done. cbn [negb orb]. done.
Qed.

Lemma frames_length bs : (length bs <= length (frames bs))%nat.
Proof.
  induction bs as [|b bs IH]; [done|]. unfold frames. cbn [map concat length]. fold (frames bs).
  rewrite length_app. pose proof (frame_length b). pose proof (zlen_nonneg b). unfold zlen in *. lia.
Qed.

(** What replaying a stored journal finds. *)
Lemma open_replays f j bs t io :
  stored f j bs t -> io_readable io = true ->
  exists rs, stored f (mkJournal rs) bs t /\ Forall2 stored_same (records j) rs /\
    open (Some f) io =
      Some (finish_open (mkFile (content f) 0 (stable f))
              (mkReplay (mkJournal rs) (zlen bs) (zlen t) (zlen (MAGIC ++ frames bs))) true io).
Proof.
  intros [Hc Ht Hf (rs & Hr & Hs) Hch] Hio. exists rs.
  assert (chain CHAIN_ORIGIN 0 rs) as Hcr by by eapply stored_same_chain.
  assert (Forall2 stored_same rs rs) by (apply Forall2_self, stored_same_refl).
  split_and!; [split; try done; by exists rs|done|].
  assert (adopt_all journal_new rs = Ok (mkJournal rs)) as Ha by (apply adopt_all_Ok; done).
  rewrite (open_header f _ io Hc Hio), (replay_frames _ MAGIC bs rs t journal_new (mkJournal rs));
    try done; [by rewrite Hc|]. rewrite !length_app. pose proof (frames_length bs). lia.
Qed.

Lemma set_len_stored f j bs t o :
  stored f j bs t -> stored (set_len (mkFile (content f) o (stable f)) (zlen (MAGIC ++ frames bs))) j bs [].
Proof.
  intros [Hc _ Hf Hr Hch]. split; [|exact torn_nil|done..]. cbn [set_len content].
  rewrite Hc, !app_nil_r, (app_assoc MAGIC). unfold zlen. rewrite Nat2Z.id. apply take_app_length.
Qed.

(** ** Losing the end of the file *)

Lemma torn_take t n : torn t -> torn (take n t).
Proof.
  intros (b & m & Hb & Hm & ->). exists b, (n `min` m)%nat.
  rewrite take_take. split_and!; [done|lia|done].
Qed.

(** Cutting a sequence of frames leaves the whole frames before the cut and a
    torn one. *)
Lemma take_frames bs t n :
  Forall fits bs -> torn t ->
  exists k t', take n (frames bs ++ t) = frames (take k bs) ++ t' /\ torn t' /\
    (k <= length bs)%nat /\ (length (frames (take k bs)) <= n)%nat /\
    ((k < length bs)%nat -> (n < length (frames (take (S k) bs)))%nat).
Proof.
  intros Hf Ht. revert n. induction Hf as [|b bs Hb Hf IH]; intros n.
  - exists O, (take n t). split_and!; [done|by apply torn_take|done|cbn; lia|cbn; lia].
  - unfold frames in *. cbn [map concat]. rewrite <- app_assoc.
    destruct (Nat.lt_ge_cases n (length (frame b))) as [Hn|Hn].
    + exists O, (take n (frame b)). rewrite take_app_le by lia.
      split_and!; [done|by exists b, n|cbn; lia|cbn; lia|]. cbn [firstn map concat]. rewrite take_0.
      cbn [map concat]. rewrite app_nil_r. lia.
    + destruct (IH (n - length (frame b))%nat) as (k & t' & E & Ht' & Hk & H1 & H2).
      exists (S k), t'. cbn [firstn map concat length]. rewrite take_app_ge by lia.
      rewrite E, !length_app, app_assoc. split_and!; [done|done|lia|lia|].
      intros ?. specialize (H2 ltac:(lia)). lia.
Qed.

Lemma chain_take p i l k : chain p i l -> chain p i (take k l).
Proof. rewrite <- (take_drop k l) at 1. by intros [? _]%chain_app. Qed.

(** ... so what is left of a stored journal is a stored prefix of it. *)
Lemma cut_stored f f' j bs t n :
  stored f j bs t -> (8 <= n)%nat -> content f' = take n (content f) ->
  exists k t', stored f' (mkJournal (take k (records j))) (take k bs) t' /\
    (k <= length bs)%nat /\ (length (MAGIC ++ frames (take k bs)) <= n)%nat /\
    ((k < length bs)%nat -> (n < length (MAGIC ++ frames (take (S k) bs)))%nat).
Proof.
  intros [Hc Ht Hf (rs & Hr & Hs) Hch] Hn Hcut.
  destruct (take_frames bs t (n - 8) Hf Ht) as (k & t' & E & Ht' & Hk & H1 & H2).
  exists k, t'. rewrite !length_app. change (length MAGIC) with 8%nat. split_and!; [|done|lia|].
  - split; [|done|by apply Forall_take| |].
    + rewrite Hcut, Hc, take_app_ge by (change (length MAGIC) with 8%nat; lia).
      change (length MAGIC) with 8%nat. by rewrite E.
    + exists (take k rs). cbn [records]. split; by apply Forall2_take.
    + cbn [records]. by apply chain_take.
  - intros ?. specialize (H2 ltac:(lia)). lia.
Qed.

(** ** Appending to a stored journal *)

Record args_ok (j : Journal) (at_ms revision : Z) (subj : OpaqueId)
    (fs : list (OpaqueId * string)) : Prop := {
  args_at : u64 at_ms; args_rev : u64 revision; args_subj : id_ok subj; args_facts : facts_ok fs;
  args_room : zlen (records j) < U64_MAX
}.

Lemma valid_digest_ok r : record_valid r -> digest_ok (record_digest r).
Proof.
  intros (_ & _ & H). unfold recompute_digest in H.
  apply digest_canonical_Ok in H as (b & _ & ->). rewrite <- sha256_is_spec. apply finalize_ok.
Qed.

Lemma head_digest_ok j : chain CHAIN_ORIGIN 0 (records j) -> digest_ok (head_digest j).
Proof.
  destruct j as [rs]. unfold head_digest. cbn [records].
  destruct rs as [|r rs _] using rev_ind; intros H; [by repeat constructor|].
  rewrite last_snoc. apply (chain_snoc (mkJournal rs)) in H as (_ & _ & _ & Hv).
  by apply valid_digest_ok.
Qed.

Lemma prepared_ok j k at_ms revision subj fs r :
  chain CHAIN_ORIGIN 0 (records j) -> args_ok j at_ms revision subj fs ->
  prepare_record j k at_ms revision subj fs = Ok r -> record_ok r.
Proof.
  intros Hc [Ha Hr Hs Hf Hroom] [Heq Hv]%prepare_record_Ok.
  pose proof (valid_digest_ok r Hv) as Hd. pose proof (head_digest_ok j Hc) as Hh.
  rewrite Heq. unfold record_ok. cbn. pose proof (zlen_nonneg (records j)).
  split_and!; try done; zlia.
Qed.

Lemma write_at_end f data n :
  offset f = zlen (content f) -> (n <= length data)%nat ->
  content (file_write f data n) = content f ++ take n data /\
  offset (file_write f data n) = zlen (content (file_write f data n)).
Proof.
  intros Ho Hn. unfold file_write. cbn [content offset]. rewrite Ho. unfold zlen. rewrite Nat2Z.id.
  rewrite firstn_all, drop_ge, app_nil_r by lia. split; [done|].
  rewrite length_app, length_take_le by lia. lia.
Qed.

Section Append.
Context (f : File) (j : Journal) (bs : list bytes) (r : JournalRecord) (b : bytes)
  (k : JournalRecordKind) (at_ms revision : Z) (subj : OpaqueId) (fs : list (OpaqueId * string)).
Hypothesis Hst : stored f j bs [].
Hypothesis Hend : offset f = zlen (content f).
Hypothesis Hargs : args_ok j at_ms revision subj fs.
Hypothesis Hprep : prepare_record j k at_ms revision subj fs = Ok r.
Hypothesis Hbytes : record_to_bytes r = Ok b.
Hypothesis Hfits : fits b.

Lemma write_whole : stored (file_write f (frame b) (length (frame b))) (commit_record j r) (bs ++ [b]) [].
Proof using All.
  destruct Hst as [Hc _ Hf (rs & Hr & Hs) Hch].
  destruct (write_at_end f (frame b) (length (frame b)) Hend ltac:(done)) as [Hw _].
  destruct (record_roundtrip r b) as (r' & Hr' & Hsame & _).
  { by eapply prepared_ok. } { done. } { unfold fits, MAX_FRAME_BYTES in Hfits. zlia. }
  split.
  - rewrite Hw, Hc, frames_app, firstn_all, !app_nil_r. unfold frames at 3. cbn [map concat].
    by rewrite app_nil_r, app_assoc.
  - exact torn_nil.
  - apply Forall_app. by split; [|constructor].
  - exists (rs ++ [r']). cbn [commit_record records].
    split; (apply Forall2_app; [done|by constructor]).
  - by eapply prepare_chain.
Qed.

Lemma write_part n :
  (n < length (frame b))%nat -> stored (file_write f (frame b) n) j bs (take n (frame b)).
Proof using All.
  intros Hn. destruct Hst as [Hc _ Hf Hrs Hch].
  destruct (write_at_end f (frame b) n Hend ltac:(lia)) as [Hw _].
  split; [|by exists b, n|done..]. rewrite Hw, Hc, app_nil_r. by rewrite app_assoc.
Qed.
End Append.

(** ** The journal as a system that crashes *)

(** Either a process holds the journal open, or only the file is left. [acked]
    collects the durable records whose [append] returned a digest. *)
Inductive World : Type :=
| Running (d : DurableJournal) (acked : list JournalRecord)
| Down (f : File) (acked : list JournalRecord).

Definition file_of (w : World) : File :=
  match w with Running d _ => file d | Down f _ => f end.

Definition acked (w : World) : list JournalRecord :=
  match w with Running _ a | Down _ a => a end.

(** What one append adds to it. *)
Definition ack (k : JournalRecordKind) (d : DurableJournal)
    (r : result DurableJournalError Sha256Digest) : list JournalRecord :=
  match r with
  | Ok _ =>
      if bool_decide (fsync_policy k = Durable)
      then match last (records (journal d)) with Some record => [record] | None => [] end
      else []
  | Err _ => []
  end.

(** One step: an append or a sync with any outcome, a crash that keeps at least
    what was made stable, and an [open] with any outcome. *)
Inductive durable_step : World -> World -> Prop :=
| step_append d a k at_ms revision subj fs write synced d' r :
    args_ok (journal d) at_ms revision subj fs ->
    durable_append d k at_ms revision subj fs write synced = (d', r) ->
    durable_step (Running d a) (Running d' (a ++ ack k d' r))
| step_sync d a synced d' r :
    durable_sync d synced = (d', r) -> durable_step (Running d a) (Running d' a)
| step_crash w n :
    stable (file_of w) <= Z.of_nat n ->
    durable_step w (Down (mkFile (take n (content (file_of w))) 0 (stable (file_of w))) (acked w))
| step_open f a io f' d report :
    open (Some f) io = Some (f', Ok (d, report)) -> durable_step (Down f a) (Running d a)
| step_open_failed f a io f' e :
    open (Some f) io = Some (f', Err e) -> durable_step (Down f a) (Down f' a).

(** A journal just created. *)
Definition fresh_durable : DurableJournal := mkDurable (mkFile MAGIC 8 8) journal_new 0 false.

Inductive durable_reachable : World -> Prop :=
| reach_fresh : durable_reachable (Running fresh_durable [])
| reach_step w w' : durable_reachable w -> durable_step w w' -> durable_reachable w'.

(** ** Its invariant *)

(** The record is there, as written or as read back. *)
Definition kept (rs : list JournalRecord) (r : JournalRecord) : Prop := Exists (stored_same r) rs.

Lemma kept_take rs n m r : (m <= n)%nat -> kept (take m rs) r -> kept (take n rs) r.
Proof.
  intros Hle H. unfold kept in *. rewrite <- (take_drop m (take n rs)), take_take, Nat.min_l by done.
  apply Exists_app. by left.
Qed.

Lemma stored_same_trans r s u : stored_same r s -> stored_same s u -> stored_same r u.
Proof.
  intros [(?&?&?&?&?&?&?&F&?) ?] [(?&?&?&?&?&?&?&G&?) ?]. split; [|congruence].
  split_and!; try congruence. by rewrite F.
Qed.

Lemma kept_same l k r : Forall2 stored_same l k -> kept l r -> kept k r.
Proof.
  intros H. unfold kept. induction H as [|x y l k Hxy _ IH]; [done|].
  intros [Hr|Hr]%Exists_cons; apply Exists_cons; [left; by eapply stored_same_trans|right; auto].
Qed.

(** The first [m] frames are stable, and they hold every acknowledged record. *)
Definition safe (f : File) (j : Journal) (a : list JournalRecord) (bs : list bytes) (t : bytes)
    (m : nat) : Prop :=
  stored f j bs t /\ 8 <= stable f <= zlen (content f) /\ (m <= length bs)%nat /\
  zlen (MAGIC ++ frames (take m bs)) <= stable f /\
  Forall (kept (take m (records j))) a.

Definition durable_inv (w : World) : Prop :=
  match w with
  | Running d a =>
      exists bs t m, safe (file d) (journal d) a bs t m /\
        (poisoned d = false -> t = [] /\ offset (file d) = zlen (content (file d)))
  | Down f a => exists j bs t m, safe f j a bs t m
  end.

Lemma stored_lengths f j bs t : stored f j bs t -> length bs = length (records j).
Proof.
  intros [_ _ _ (rs & Hr & Hs) _]. apply Forall2_length in Hr, Hs. congruence.
Qed.

Lemma stored_file f f' j bs t : content f' = content f -> stored f j bs t -> stored f' j bs t.
Proof. intros Hc [? ? ? ? ?]. split; try done. congruence. Qed.

(** Growing the journal past the stable prefix keeps it safe. *)
Lemma safe_grow f f' j j' a bs bs' t t' m :
  safe f j a bs t m -> stored f' j' bs' t' -> bs `prefix_of` bs' ->
  (exists rs, records j' = records j ++ rs) ->
  stable f' = stable f -> zlen (content f) <= zlen (content f') -> safe f' j' a bs' t' m.
Proof.
  intros (Hst & Hs & Hm & Hl & Ha) Hst' [cs ->] [rs Hrs] Hstable Hlen.
  pose proof (stored_lengths _ _ _ _ Hst) as Hlen'.
  split_and!; [done|lia|lia|rewrite length_app; lia| |].
  - rewrite Hstable, take_app_le by lia. done.
  - rewrite Hrs, take_app_le by lia. done.
Qed.

(** After a successful sync everything is stable. *)
Lemma safe_synced f j bs a m t :
  safe f j a bs t m ->
  safe (sync_all f) j a bs t (length bs) /\
  (forall r, last (records j) = Some r -> safe (sync_all f) j (a ++ [r]) bs t (length bs)).
Proof.
  intros (Hst & Hs & Hm & Hl & Ha). pose proof (stored_lengths _ _ _ _ Hst) as Hlen.
  assert (stored (sync_all f) j bs t) as Hst' by (by apply (stored_file f)).
  assert (8 <= stable (sync_all f) <= zlen (content (sync_all f))) as Hstable by (cbn; lia).
  assert (zlen (MAGIC ++ frames (take (length bs) bs)) <= stable (sync_all f)) as Hall.
  { cbn [sync_all stable]. destruct Hst as [-> _ _ _ _]. rewrite firstn_all, !zlen_app.
    pose proof (zlen_nonneg t). lia. }
  assert (Forall (kept (take (length bs) (records j))) a) as Ha'.
  { eapply Forall_impl; [exact Ha|]. intros h Hin. by eapply kept_take. }
  split; [by repeat (split; [assumption || done|])|]. intros r Hr. unfold safe. split; [done|]. split; [done|].
  split; [done|]. split; [done|]. apply Forall_app. split; [done|]. constructor; [|constructor]. rewrite Hlen, firstn_all.
  apply last_Some in Hr as [l ->]. apply Exists_app. right. constructor. apply stored_same_refl.
Qed.

Lemma fits_bool b : (0 <? zlen b) && (zlen b <=? MAX_FRAME_BYTES) = true -> fits b.
Proof. intros. breflect. by split. Qed.

Lemma safe_zlen_write f data n :
  offset f = zlen (content f) -> (n <= length data)%nat ->
  zlen (content f) <= zlen (content (file_write f data n)).
Proof.
  intros H Hn. destruct (write_at_end f data n H Hn) as [-> _]. rewrite zlen_app.
  pose proof (zlen_nonneg (take n data)). lia.
Qed.

Lemma append_inv d a k at_ms revision subj fs write synced d' r :
  args_ok (journal d) at_ms revision subj fs ->
  durable_append d k at_ms revision subj fs write synced = (d', r) ->
  durable_inv (Running d a) -> durable_inv (Running d' (a ++ ack k d' r)).
Proof.
  intros Hargs Happ (bs & t & m & Hsafe & Hclean). unfold durable_append in Happ.
  destruct (poisoned d) eqn:Hp; [injection Happ as <- <-; rewrite app_nil_r; exists bs, t, m; by rewrite Hp|].
  destruct (Hclean eq_refl) as [-> Hoff].
  destruct (prepare_record _ _ _ _ _ _) as [record|] eqn:Hprep;
    [|injection Happ as <- <-; rewrite app_nil_r; by exists bs, [], m].
  destruct (record_to_bytes record) as [b|] eqn:Hb;
    [|injection Happ as <- <-; rewrite app_nil_r; by exists bs, [], m].
  destruct ((0 <? zlen b) && _) eqn:Hfit; cbn [negb] in Happ;
    [|injection Happ as <- <-; rewrite app_nil_r; by exists bs, [], m].
  apply fits_bool in Hfit. pose proof Hsafe as (Hst & _).
  destruct write as [n|]; [|injection Happ as <- <-; rewrite app_nil_r; by exists bs, [], m].
  set (n' := Nat.min n (length (frame b))) in *.
  pose proof (safe_zlen_write (file d) (frame b) n' Hoff ltac:(lia)) as Hlen.
  destruct (Nat.eqb_spec n' (length (frame b))) as [Hn|Hn]; cbn [negb] in Happ.
  2: { injection Happ as <- <-. rewrite app_nil_r. exists bs, (take n' (frame b)), m. split; [|done].
       eapply safe_grow; [exact Hsafe|eapply write_part; eauto; lia|done| |done|done].
       exists []. by rewrite app_nil_r. }
  rewrite Hn in *. pose proof (write_whole _ _ _ _ _ _ _ _ _ _ Hst Hoff Hargs Hprep Hb Hfit) as Hst'.
  assert (safe (file_write (file d) (frame b) (length (frame b))) (commit_record (journal d) record)
            a (bs ++ [b]) [] m) as Hgrow.
  { eapply safe_grow; [exact Hsafe|exact Hst'|by exists [b]|by exists [record]|done|done]. }
  destruct (write_at_end (file d) (frame b) (length (frame b)) Hoff ltac:(done)) as [_ Hoff'].
  pose proof (proj1 (prepare_record_Ok _ _ _ _ _ _ _ Hprep)) as Hrec.
  assert (policy record = fsync_policy k) as Hpol by by rewrite Hrec.
  rewrite Hpol in Happ. unfold ack. case_bool_decide as Hdur.
  2: { injection Happ as <- <-. rewrite app_nil_r. exists (bs ++ [b]), [], m. by split. }
  destruct synced; injection Happ as <- <-.
  - exists (bs ++ [b]), [], (length (bs ++ [b])).
    split; [|done]. cbn [journal commit_record records]. rewrite last_snoc.
    apply (safe_synced _ _ _ _ _ _ Hgrow). apply last_snoc.
  - rewrite app_nil_r. exists (bs ++ [b]), [], m. by split.
Qed.

Lemma sync_inv d a synced d' r :
  durable_sync d synced = (d', r) -> durable_inv (Running d a) -> durable_inv (Running d' a).
Proof.
  unfold durable_sync. intros Hs (bs & t & m & Hsafe & Hclean).
  destruct (poisoned d) eqn:Hp; [injection Hs as <- <-; exists bs, t, m; by rewrite Hp|].
  destruct synced; injection Hs as <- <-; [|by exists bs, t, m].
  exists bs, t, (length bs). split; [by eapply safe_synced|done].
Qed.

Lemma inv_safe w : durable_inv w -> exists j bs t m, safe (file_of w) j (acked w) bs t m.
Proof. destruct w as [d a|f a]; cbn; [intros (bs & t & m & ? & _); by eexists _, _, _, _|done]. Qed.

(** A cut that keeps the stable prefix keeps the stable records. *)
Lemma crash_inv w n :
  stable (file_of w) <= Z.of_nat n -> durable_inv w ->
  durable_inv (Down (mkFile (take n (content (file_of w))) 0 (stable (file_of w))) (acked w)).
Proof.
  intros Hn (j & bs & t & m & Hst & Hs & Hm & Hl & Ha)%inv_safe.
  set (f' := mkFile _ _ _).
  destruct (cut_stored _ f' _ _ _ n Hst ltac:(lia) eq_refl) as (k & t' & Hst' & Hk & Hlo & Hhi).
  assert (m <= k)%nat as Hmk.
  { destruct (Nat.le_gt_cases m k) as [|Hlt]; [done|]. exfalso. specialize (Hhi ltac:(lia)).
    assert (length (frames (take (S k) bs)) <= length (frames (take m bs)))%nat.
    { rewrite <- (take_drop (S k) (take m bs)), take_take, frames_app, length_app.
      rewrite Nat.min_l by lia. lia. }
    unfold zlen in Hl. rewrite length_app in *. lia. }
  exists (mkJournal (take k (records j))), (take k bs), t', m. split_and!; [done|cbn| |rewrite length_take; lia| |].
  - lia.
  - cbn. unfold zlen in *. rewrite length_take. lia.
  - rewrite take_take, Nat.min_l by lia. done.
  - cbn [records]. rewrite take_take, Nat.min_l by lia. done.
Qed.

Lemma safe_same f j k a bs t m :
  safe f j a bs t m -> stored f k bs t -> Forall2 stored_same (records j) (records k) ->
  safe f k a bs t m.
Proof.
  intros (_ & Hs & Hm & Hl & Ha) Hst Hsame. split_and!; try done; try lia.
  eapply Forall_impl; [exact Ha|]. intros r Hr. eapply kept_same; [|exact Hr]. by apply Forall2_take.
Qed.

Lemma safe_file f f' j a bs t t' m :
  safe f j a bs t m -> stored f' j bs t' -> 8 <= stable f' <= zlen (content f') ->
  zlen (MAGIC ++ frames (take m bs)) <= stable f' -> safe f' j a bs t' m.
Proof. intros (_ & _ & ? & _ & ?) ? ? ?. by repeat (split; [assumption|]). Qed.

Lemma frames_take_le bs m : zlen (MAGIC ++ frames (take m bs)) <= zlen (MAGIC ++ frames bs).
Proof.
  rewrite <- (take_drop m bs) at 2. rewrite frames_app, !zlen_app.
  pose proof (zlen_nonneg (frames (drop m bs))). lia.
Qed.

(** Opening a safe file, whatever the file system answers. *)
Lemma finish_inv f j a bs t m io f' res :
  safe f j a bs t m ->
  finish_open (mkFile (content f) 0 (stable f))
    (mkReplay j (zlen bs) (zlen t) (zlen (MAGIC ++ frames bs))) true io = (f', res) ->
  match res with
  | Err _ => exists t', safe f' j a bs t' m
  | Ok (d, _) => file d = f' /\ journal d = j /\ poisoned d = false /\ safe f' j a bs [] m /\
                 offset f' = zlen (content f')
  end.
Proof.
  intros Hsafe. pose proof Hsafe as (Hst & Hs & Hm & Hl & Ha). unfold finish_open.
  cbn [r_torn r_cursor r_journal r_replayed].
  set (f0 := mkFile (content f) 0 (stable f)). set (c := zlen (MAGIC ++ frames bs)).
  assert (stored f0 j bs t) as Hst0 by by apply (stored_file f).
  pose proof (set_len_stored f j bs t 0 Hst) as Hcut. fold f0 c in Hcut.
  assert (zlen (content (set_len f0 c)) = c) as Hlc
    by (destruct Hcut as [-> _ _ _ _]; rewrite app_nil_r; done).
  pose proof (frames_take_le bs m) as Hle. fold c in Hle.
  assert (8 <= c) by (unfold c; rewrite zlen_app; pose proof (zlen_nonneg (frames bs)); change (zlen MAGIC) with 8; lia).
  assert (stable (set_len f0 c) = Z.min (stable f) c) by done.
  destruct (Z.ltb_spec 0 (zlen t)) as [Ht|Ht].
  - destruct (io_set_len io); cbn [negb].
    2: { intros [= <- <-]. exists t. by eapply safe_file. }
    destruct (io_set_len_sync io); cbn [negb].
    2: { intros [= <- <-]. exists []. eapply safe_file; [done|done|lia|lia]. }
    assert (forall o, safe (mkFile (content (set_len f0 c)) o c) j a bs [] m) as Hcase.
    { intros o. eapply safe_file; [done| |cbn [stable content]; rewrite Hlc; lia|cbn [stable]; lia].
      by apply (stored_file (set_len f0 c)). }
    unfold sync_all. rewrite Hlc.
    destruct (io_seek io); cbn [negb]; intros [= <- <-]; [|by exists []].
    split_and!; try done. exact (Hcase c).
  - assert (t = []) as -> by (destruct t; [done|rewrite zlen_cons in Ht; pose proof (zlen_nonneg t); lia]).
    destruct (io_seek io); cbn [negb]; intros [= <- <-].
    + repeat (split; [done|]). split; [eapply safe_file; [done|by apply (stored_file f)|done|done]|].
      unfold seek, f0. cbn [offset content]. destruct Hst as [-> _ _ _ _]. by rewrite app_nil_r.
    + exists []. by eapply safe_file.
Qed.

Lemma open_inv f a io f' res :
  open (Some f) io = Some (f', res) -> durable_inv (Down f a) ->
  match res with Ok (d, _) => durable_inv (Running d a) | Err _ => durable_inv (Down f' a) end.
Proof.
  intros Ho (j & bs & t & m & Hsafe). pose proof Hsafe as (Hst & Hs & _).
  destruct (io_readable io) eqn:Hio.
  - destruct (open_replays f j bs t io Hst Hio) as (rs & Hst' & Hsame & Ho').
    rewrite Ho in Ho'. injection Ho' as Hfin. symmetry in Hfin.
    apply (finish_inv f (mkJournal rs) a bs t m) in Hfin; [|by apply (safe_same f j)].
    destruct res as [[d report]|e].
    + destruct Hfin as (<- & <- & Hp & Hsafe' & Hoff). by exists bs, [], m.
    + destruct Hfin as [t' ?]. by exists (mkJournal rs), bs, t', m.
  - unfold open in Ho. rewrite Hio in Ho. cbn [negb] in Ho. injection Ho as <- <-.
    exists j, bs, t, m. eapply safe_file; [done|by apply (stored_file f)|cbn; lia|].
    by destruct Hsafe as (_ & _ & _ & ? & _).
Qed.

Lemma reachable_inv w : durable_reachable w -> durable_inv w.
Proof.
  induction 1 as [|w w' _ IH Hstep].
  - exists [], [], O. split; [|done]. split_and!; try done. split; try done; [exact torn_nil|].
    exists []. split; constructor.
  - destruct Hstep as [d a k at_ms revision subj fs write synced d' r Hargs Happ|d a synced d' r Hs|
      w n Hn|f a io f' d report Ho|f a io f' e Ho].
    + by eapply append_inv.
    + by eapply sync_inv.
    + by apply crash_inv.
    + by apply (open_inv _ _ _ _ _ Ho).
    + by apply (open_inv _ _ _ _ _ Ho).
Qed.

(** ** Properties *)

Lemma safe_acked f j a bs t m :
  safe f j a bs t m -> Forall (kept (records j)) a.
Proof.
  intros (_ & _ & _ & _ & Ha). eapply Forall_impl; [exact Ha|]. intros r Hr.
  unfold kept in *. rewrite <- (take_drop m (records j)). apply Exists_app. by left.
Qed.

(** C5. Durability: through any sequence of appends, syncs, failed or short
    writes, failed syncs, crashes that lose any unsynced part of the file, and
    reopenings, the journal that is open verifies and still holds every durable
    record an append ever acknowledged. *)
Theorem durable_acknowledged_kept d a :
  durable_reachable (Running d a) ->
  verify (journal d) = Ok tt /\ Forall (kept (records (journal d))) a.
Proof.
  intros (bs & t & m & Hsafe & _)%reachable_inv. split; [|by eapply safe_acked].
  apply verify_Ok. by destruct Hsafe as ([] & _).
Qed.

(** C13. Recovery never refuses a journal that was created: after any history that starts
    with the header synced, whatever a crash left on disk opens again when the calls of
    the opening work, as a verified journal that holds every acknowledged durable record,
    with the torn tail cut off. *)
Theorem durable_reopens f a :
  durable_reachable (Down f a) ->
  exists f' d report, open (Some f) io_ok = Some (f', Ok (d, report)) /\
    verify (journal d) = Ok tt /\
    Forall (kept (records (journal d))) a /\
    zlen (content f') = zlen (content f) - torn_tail_bytes report /\
    records_replayed report = zlen (records (journal d)).
Proof.
  intros (j & bs & t & m & Hsafe)%reachable_inv. pose proof Hsafe as (Hst & Hs & _).
  destruct (open_replays f j bs t io_ok Hst eq_refl) as (rs & Hst' & Hsame & Ho).
  destruct (finish_open _ _ _ _) as [f' res] eqn:Hfin. pose proof Hfin as Hfin'.
  apply (finish_inv f (mkJournal rs) a bs t m) in Hfin'; [|by apply (safe_same f j)].
  unfold finish_open in Hfin. cbn [io_set_len io_set_len_sync io_seek io_ok negb] in Hfin.
  destruct res as [[d report]|e]; [|by destruct (0 <? _) in Hfin].
  destruct Hfin' as (<- & Hj & _ & Hsafe' & _). exists (file d), d, report. split; [exact Ho|].
  rewrite Hj. assert (report = mkReport (zlen bs) (zlen t) true) as -> by (by destruct (0 <? _) in Hfin; injection Hfin).
  split_and!.
  - apply verify_Ok. by destruct Hsafe' as ([] & _).
  - by eapply safe_acked.
  - destruct Hst as [-> _ _ _ _], Hsafe' as [[-> _ _ _ _] _]. rewrite !zlen_app, zlen_nil. cbn. lia.
  - cbn. pose proof (stored_lengths _ _ _ _ Hst') as Hl. unfold zlen. cbn in Hl. lia.
Qed.

(** Before that a crash may leave part of the header, and such a file is refused for good. *)
Lemma torn_creation_is_refused n position stable_length io :
  (0 < n < 8)%nat -> io_readable io = true ->
  exists f, open (Some (mkFile (take n MAGIC) position stable_length)) io = Some (f, Err NotAJournal).
Proof. intros [Hlo Hhi] Hio. unfold open. rewrite Hio. do 8 (destruct n as [|n]; [try lia; by eexists|]). lia. Qed.

(** The truncation campaign: cut the file of an open journal at any byte past
    the header, and it reopens as exactly the records whose frames lie wholly
    before the cut, record for record. *)
Theorem truncated_file_reopens d a n position stable_length :
  durable_reachable (Running d a) -> (8 <= n)%nat ->
  exists bs k f' d' report,
    Forall2 (fun b r => exists s, record_from_bytes b = Ok s /\ stored_same r s) bs
      (records (journal d)) /\
    open (Some (mkFile (take n (content (file d))) position stable_length)) io_ok =
      Some (f', Ok (d', report)) /\
    Forall2 stored_same (take k (records (journal d))) (records (journal d')) /\
    (length (MAGIC ++ frames (take k bs)) <= n)%nat /\
    ((k < length bs)%nat -> (n < length (MAGIC ++ frames (take (S k) bs)))%nat).
Proof.
  intros (bs & t & m & (Hst & _) & _)%reachable_inv Hn.
  set (f := mkFile _ _ _).
  destruct (cut_stored (file d) f (journal d) bs t n Hst Hn eq_refl) as (k & t' & Hcut & Hk & Hlo & Hhi).
  destruct (open_replays f _ _ _ io_ok Hcut eq_refl) as (rs & Hst' & Hsame & Ho).
  destruct Hst as [_ _ _ (rs' & Hr & Hs) _].
  assert (Forall2 (fun b r => exists s, record_from_bytes b = Ok s /\ stored_same r s) bs
            (records (journal d))) as Hbs.
  { clear -Hr Hs. revert bs Hr. induction Hs as [|r s l k Hrs _ IH]; intros bs Hr; inversion Hr; subst;
      constructor; eauto. }
  unfold finish_open in Ho. cbn [io_set_len io_set_len_sync io_seek io_ok negb] in Ho.
  exists bs, k. destruct (0 <? r_torn _) in Ho; eexists _, _, _; by split_and!.
Qed.

(** A poisoned journal does nothing until it is reopened: append and sync
    refuse and leave it as it is. *)
Lemma poisoned_refuses d k at_ms revision subj fs write synced :
  poisoned d = true ->
  durable_append d k at_ms revision subj fs write synced = (d, Err Poisoned) /\
  durable_sync d synced = (d, Err Poisoned).
Proof. intros Hp. unfold durable_append, durable_sync. by rewrite Hp. Qed.

(** [open] terminates: whatever bytes are on disk and whatever the file system
    answers, the replay loop ends and a journal or an error is returned. *)
Theorem open_terminates disk io :
  match disk with Some f => bytes_ok (content f) | None => True end ->
  exists f' res, open disk io = Some (f', res).
Proof.
  intros Hok. unfold open. set (f0 := match disk with Some f => _ | None => _ end).
  assert (bytes_ok (content f0)) as Hf0 by (destruct disk; [done|constructor]).
  destruct (io_readable io); cbn [negb]; [|eauto].
  set (started := if zlen (content f0) =? 0 then _ else _).
  assert (forall c, started.2 = Ok c -> c = zlen MAGIC) as Hc.
  { intros c. unfold started. destruct (zlen (content f0) =? 0); [destruct (io_header io)|
      destruct (_ || _)]; cbn; congruence. }
  destruct started as [f [c|e]]; [|eauto]. rewrite (Hc c eq_refl).
  destruct (replay_total (S (length (content f0))) (content f0) (zlen MAGIC) journal_new 0)
    as [[r|e] ->]; [done|done|change (zlen MAGIC) with 8; unfold zlen; lia| |eauto].
  destruct (finish_open f r _ io); eauto.
Qed.

(** The records after an append. *)
Lemma append_records d k at_ms revision subj fs write synced d' r :
  durable_append d k at_ms revision subj fs write synced = (d', r) ->
  records (journal d') = records (journal d) \/
  exists record, records (journal d') = records (journal d) ++ [record] /\
    kind record = k /\ facts record = fs.
Proof.
  intros H. unfold durable_append in H.
  destruct (poisoned d) eqn:Hp; [injection H as <- <-; by left|].
  destruct (prepare_record _ _ _ _ _ _) as [record|] eqn:Hprep; [|injection H as <- <-; by left].
  destruct (record_to_bytes record) as [b|] eqn:Hb; [|injection H as <- <-; by left].
  destruct (_ && _) eqn:Hfit in H; [|injection H as <- <-; by left]. cbn [negb] in H.
  destruct write as [n|]; [|injection H as <- <-; by left].
  destruct (_ =? _)%nat in H; [|injection H as <- <-; by left]. cbn [negb] in H.
  pose proof (proj1 (prepare_record_Ok _ _ _ _ _ _ _ Hprep)) as Hrec. right. exists record.
  case_bool_decide; [destruct synced|]; injection H as <- <-; (split; [done|]); by rewrite Hrec.
Qed.

Lemma append_ok_record d k at_ms revision subj fs write synced d' h :
  durable_append d k at_ms revision subj fs write synced = (d', Ok h) ->
  exists record, records (journal d') = records (journal d) ++ [record] /\
    kind record = k /\ facts record = fs.
Proof.
  intros H. unfold durable_append in H.
  destruct (poisoned d) eqn:Hp; [done|].
  destruct (prepare_record _ _ _ _ _ _) as [record|] eqn:Hprep; [|done].
  destruct (record_to_bytes record) as [b|] eqn:Hb; [|done].
  destruct (_ && _) eqn:Hfit in H; [|done]. cbn [negb] in H.
  destruct write as [n|]; [|done]. destruct (_ =? _)%nat in H; [|done]. cbn [negb] in H.
  pose proof (proj1 (prepare_record_Ok _ _ _ _ _ _ _ Hprep)) as Hrec. exists record.
  case_bool_decide; [destruct synced; [|done]|]; injection H as <- _;
    (split; [done|]); by rewrite Hrec.
Qed.

(** What [append] does: on success exactly one record more, in memory and as
    one frame at the end of the file, synced when its kind is durable; on failure
    either nothing happened at all or the handle is poisoned. *)
Theorem durable_append_outcomes d k at_ms revision subj fs write synced d' r :
  durable_append d k at_ms revision subj fs write synced = (d', r) ->
  offset (file d) = zlen (content (file d)) ->
  match r with
  | Ok h => exists record b,
      record_digest record = h /\ kind record = k /\ facts record = fs /\ subject record = subj /\
      records (journal d') = records (journal d) ++ [record] /\
      record_to_bytes record = Ok b /\ content (file d') = content (file d) ++ frame b /\
      poisoned d' = false /\
      (fsync_policy k = Durable -> stable (file d') = zlen (content (file d')))
  | Err _ => d' = d \/ poisoned d' = true
  end.
Proof.
  intros H Hoff. unfold durable_append in H.
  destruct (poisoned d) eqn:Hp; [injection H as <- <-; by left|].
  destruct (prepare_record _ _ _ _ _ _) as [record|] eqn:Hprep; [|injection H as <- <-; by left].
  destruct (record_to_bytes record) as [b|] eqn:Hb; [|injection H as <- <-; by left].
  destruct (_ && _) eqn:Hfit in H; [|injection H as <- <-; by left]. cbn [negb] in H.
  destruct write as [n|]; [|injection H as <- <-; by right].
  destruct (Nat.eqb_spec (Nat.min n (length (frame b))) (length (frame b))) as [Hn|Hn];
    [|injection H as <- <-; by right].
  rewrite Hn in H. cbn [negb] in H.
  destruct (write_at_end (file d) (frame b) (length (frame b)) Hoff ltac:(done)) as [Hw _].
  rewrite firstn_all in Hw. pose proof (proj1 (prepare_record_Ok _ _ _ _ _ _ _ Hprep)) as Hrec.
  assert (policy record = fsync_policy k) as Hpol by by rewrite Hrec.
  case_bool_decide as Hd; [destruct synced|]; injection H as <- <-; [|by right|];
    exists record, b; (split_and!; try done; try (by rewrite Hrec)); congruence.
Qed.

(** ** Samples for the witnesses *)

Definition run_append (d : DurableJournal) (k : JournalRecordKind) (fs : list (OpaqueId * string))
    (write : WriteOutcome) (synced : bool) : DurableJournal * list JournalRecord :=
  let '(d', r) := durable_append d k 1000 1 sample_job fs write synced in (d', ack k d' r).

(** A durable record, a buffered one, and a write interrupted after 20 bytes. *)
Definition sample_d1 := Eval vm_compute in run_append fresh_durable JobCreated [] (Wrote 4096) true.
Definition sample_d2 := Eval vm_compute in
  run_append sample_d1.1 PreflightObserved [(mkId "mode", "hdc"%string)] (Wrote 4096) true.
Definition sample_d3 := Eval vm_compute in
  run_append sample_d2.1 StepIntentRecorded [] (Wrote 20) true.

Definition sample_acked : list JournalRecord := sample_d1.2.

Lemma run_step d a k fs write synced d' h :
  durable_reachable (Running d a) -> args_ok (journal d) 1000 1 sample_job fs ->
  run_append d k fs write synced = (d', h) -> durable_reachable (Running d' (a ++ h)).
Proof.
  unfold run_append. intros Hr Hargs. destruct (durable_append _ _ _ _ _ _ _ _) as [d1 r] eqn:E.
  intros [= <- <-]. eapply reach_step; [exact Hr|by eapply step_append].
Qed.

Lemma sample_reachable : durable_reachable (Running sample_d3.1 sample_acked).
Proof.
  apply (run_step sample_d2.1 sample_acked StepIntentRecorded [] (Wrote 20) true sample_d3.1 []);
    [|split; wf_solver|vm_compute; reflexivity].
  apply (run_step sample_d1.1 sample_acked PreflightObserved [(mkId "mode", "hdc"%string)]
    (Wrote 4096) true sample_d2.1 []); [|split; wf_solver|vm_compute; reflexivity].
  apply (run_step fresh_durable [] JobCreated [] (Wrote 4096) true sample_d1.1 sample_acked);
    [constructor|split; wf_solver|vm_compute; reflexivity].
Qed.

Lemma durable_acknowledged_kept_witness :
  verify (journal sample_d3.1) = Ok tt /\
  Forall (kept (records (journal sample_d3.1))) sample_acked.
Proof. apply (durable_acknowledged_kept sample_d3.1 sample_acked). exact sample_reachable. Defined.

(** The crash loses the interrupted write and half of the buffered record. *)
Definition sample_crashed : File :=
  mkFile (take 300 (content (file sample_d3.1))) 0 (stable (file sample_d3.1)).

Lemma sample_crash : durable_reachable (Down sample_crashed sample_acked).
Proof.
  eapply reach_step; [exact sample_reachable|].
  apply (step_crash (Running sample_d3.1 sample_acked) 300). vm_compute. congruence.
Qed.

Lemma durable_reopens_witness :
  exists f' d report, open (Some sample_crashed) io_ok = Some (f', Ok (d, report)) /\
    verify (journal d) = Ok tt /\
    Forall (kept (records (journal d))) sample_acked /\
    zlen (content f') = zlen (content sample_crashed) - torn_tail_bytes report /\
    records_replayed report = zlen (records (journal d)).
Proof. apply (durable_reopens sample_crashed sample_acked). exact sample_crash. Defined.

Lemma truncated_file_reopens_witness :
  exists bs k f' d' report,
    Forall2 (fun b r => exists s, record_from_bytes b = Ok s /\ stored_same r s) bs
      (records (journal sample_d3.1)) /\
    open (Some (mkFile (take 300 (content (file sample_d3.1))) 0 0)) io_ok =
      Some (f', Ok (d', report)) /\
    Forall2 stored_same (take k (records (journal sample_d3.1))) (records (journal d')) /\
    (length (MAGIC ++ frames (take k bs)) <= 300)%nat /\
    ((k < length bs)%nat -> (300 < length (MAGIC ++ frames (take (S k) bs)))%nat).
Proof.
  apply (truncated_file_reopens sample_d3.1 sample_acked 300 0 0); [exact sample_reachable|lia].
Defined.

Lemma open_terminates_witness :
  exists f' res, open (Some sample_crashed) io_ok = Some (f', res).
Proof.
  apply (open_terminates (Some sample_crashed) io_ok).
  apply Forall_forall. intros b Hb. apply (bool_decide_unpack (0 <= b <= 255)).
  revert b Hb. apply Forall_forall. apply (bool_decide_unpack _). vm_compute. exact I.
Defined.

Lemma durable_append_outcomes_witness :
  exists record b, kind record = JobCreated /\
    records (journal sample_d1.1) = [record] /\ record_to_bytes record = Ok b /\
    content (file sample_d1.1) = MAGIC ++ frame b.
Proof.
  destruct (durable_append_outcomes fresh_durable JobCreated 1000 1 sample_job [] (Wrote 4096) true
    sample_d1.1 (Ok (match sample_acked with r :: _ => record_digest r | [] => CHAIN_ORIGIN end)))
    as (record & b & _ & Hk & _ & _ & Hr & Hb & Hc & _); [vm_compute; reflexivity|reflexivity|].
  exists record, b. by split_and!.
Defined.
