(* ===== verification/Authority.v ===== *)
(** * Step permits and their verification

    crates/arkforge-core/src/authority.rs (bindings and authority support) and
    crates/arkforge-authority-api/src/lib.rs (admission snapshots, freshness,
    step permits, minting and verification, managed control actions). *)

From S2P Require Import Prelude Cbor Sha256 Digest Fields.

(** ** Authority references (core/src/authority.rs) *)

Record AuthorityNamespace := mkNamespace { namespace_id : OpaqueId }.

#[global] Instance AuthorityNamespace_eq_dec : EqDecision AuthorityNamespace.
Proof. solve_decision. Defined.

Definition AuthorityNamespace_new (value : string) : result IdError AuthorityNamespace :=
  let? i := OpaqueId_new value in Ok (mkNamespace i).

#[global] Instance namespace_cbor : CanonicalCbor AuthorityNamespace :=
  fun n => to_cbor (namespace_id n).

Record AuthorityBindingRef := mkBinding {
  authority_namespace : AuthorityNamespace;
  binding_id : OpaqueId;
  binding_revision : Z;
  stable_identity_digest : Sha256Digest
}.

#[global] Instance AuthorityBindingRef_eq_dec : EqDecision AuthorityBindingRef.
Proof. solve_decision. Defined.

Definition binding_fields (b : AuthorityBindingRef) : list (string * CborValue) :=
  [("authorityNamespace", to_cbor (authority_namespace b));
   ("bindingId", to_cbor (binding_id b));
   ("bindingRevision", Unsigned (binding_revision b));
   ("stableIdentityDigest", to_cbor (stable_identity_digest b))]%string.

#[global] Instance binding_cbor : CanonicalCbor AuthorityBindingRef :=
  fun b => map_of (binding_fields b).

Definition is_same_binding_state (b other : AuthorityBindingRef) : bool := bool_decide (b = other).

Inductive AuthoritySupportState : Type :=
| ProductionVerified
| HardwareCampaign (campaign : string)
| HardwareGated (blocker : string).

Definition permits_execution (s : AuthoritySupportState) : bool :=
  match s with ProductionVerified | HardwareCampaign _ => true | HardwareGated _ => false end.

Definition support_as_str (s : AuthoritySupportState) : string :=
  match s with
  | ProductionVerified => "productionVerified"
  | HardwareCampaign _ => "hardwareCampaign"
  | HardwareGated _ => "hardwareGated"
  end.

Definition support_campaign (s : AuthoritySupportState) : option string :=
  match s with HardwareCampaign c => Some c | _ => None end.

Definition support_blocker (s : AuthoritySupportState) : option string :=
  match s with HardwareGated b => Some b | _ => None end.

Definition text_or_null (o : option string) : CborValue :=
  match o with Some s => Text s | None => Null end.

#[global] Instance support_state_cbor : CanonicalCbor AuthoritySupportState := fun s =>
  map_of [("state", Text (support_as_str s));
          ("campaign", text_or_null (support_campaign s));
          ("blocker", text_or_null (support_blocker s))]%string.

Record AuthoritySupportBinding := mkSupport {
  key_digest : Sha256Digest;
  support_state : AuthoritySupportState
}.

#[global] Instance support_binding_cbor : CanonicalCbor AuthoritySupportBinding := fun b =>
  map_of [("keyDigest", to_cbor (key_digest b)); ("state", to_cbor (support_state b))]%string.

(** ** Admission snapshots and freshness *)

Record StepAdmissionSnapshot := mkSnapshot {
  captured_at_epoch_ms : Z;
  freshness_deadline_epoch_ms : Z;
  snap_device_facts_digest : Sha256Digest;
  snap_transport_session_digest : option Sha256Digest;
  snap_provider_facts_digest : Sha256Digest;
  snap_toolchain_facts_digest : Sha256Digest;
  snap_artifact_facts_digest : Sha256Digest
}.

Definition digest_or_null (o : option Sha256Digest) : CborValue :=
  match o with Some d => to_cbor d | None => Null end.

#[global] Instance snapshot_cbor : CanonicalCbor StepAdmissionSnapshot := fun s =>
  map_of [("capturedAtEpochMs", Unsigned (captured_at_epoch_ms s));
          ("freshnessDeadlineEpochMs", Unsigned (freshness_deadline_epoch_ms s));
          ("deviceFactsDigest", to_cbor (snap_device_facts_digest s));
          ("transportSessionDigest", digest_or_null (snap_transport_session_digest s));
          ("providerFactsDigest", to_cbor (snap_provider_facts_digest s));
          ("toolchainFactsDigest", to_cbor (snap_toolchain_facts_digest s));
          ("artifactFactsDigest", to_cbor (snap_artifact_facts_digest s))]%string.

Definition snapshot_digest (s : StepAdmissionSnapshot) : result CborError Sha256Digest :=
  digest_canonical DAdmissionSnapshot s.

Inductive ContinuityBreak : Type :=
| SessionChanged
| DetachObserved
| DeviceFactsChanged
| ProviderFactsChanged
| ToolchainFactsChanged
| ArtifactFactsChanged.

Inductive FreshnessVerdict : Type :=
| Fresh
| StaleSnapshot (elapsed_ms : Z)
| ContinuityBroken (cause : ContinuityBreak).

Definition permits_dispatch (v : FreshnessVerdict) : bool :=
  match v with Fresh => true | _ => false end.

Definition is_retryable_without_device_blame (v : FreshnessVerdict) : bool :=
  match v with StaleSnapshot _ => true | _ => false end.

Record CurrentFacts := mkCurrent {
  cur_now_epoch_ms : Z;
  cur_device_facts_digest : Sha256Digest;
  cur_transport_session_digest : option Sha256Digest;
  saw_detach_since_snapshot : bool;
  cur_provider_facts_digest : Sha256Digest;
  cur_toolchain_facts_digest : Sha256Digest;
  cur_artifact_facts_digest : Sha256Digest
}.

Definition evaluate_freshness (snapshot : StepAdmissionSnapshot) (current : CurrentFacts) :
    FreshnessVerdict :=
  if saw_detach_since_snapshot current then ContinuityBroken DetachObserved
  else if negb (bool_decide
    (snap_transport_session_digest snapshot = cur_transport_session_digest current))
  then ContinuityBroken SessionChanged
  else if negb (bool_decide (snap_device_facts_digest snapshot = cur_device_facts_digest current))
  then ContinuityBroken DeviceFactsChanged
  else if negb (bool_decide
    (snap_provider_facts_digest snapshot = cur_provider_facts_digest current))
  then ContinuityBroken ProviderFactsChanged
  else if negb (bool_decide
    (snap_toolchain_facts_digest snapshot = cur_toolchain_facts_digest current))
  then ContinuityBroken ToolchainFactsChanged
  else if negb (bool_decide
    (snap_artifact_facts_digest snapshot = cur_artifact_facts_digest current))
  then ContinuityBroken ArtifactFactsChanged
  else if freshness_deadline_epoch_ms snapshot <=? cur_now_epoch_ms current
  then StaleSnapshot (saturating_sub (cur_now_epoch_ms current) (captured_at_epoch_ms snapshot))
  else Fresh.

(** ** Permits *)

Record PermitIntegrityTag := mkTag { tag_epoch : Z; tag : Sha256Digest }.

Record StepPermit := mkPermit {
  permit_id : OpaqueId;
  p_authority_namespace : AuthorityNamespace;
  p_controller_session_id : OpaqueId;
  p_job_id : OpaqueId;
  p_plan_id : OpaqueId;
  p_plan_digest : Sha256Digest;
  p_step_id : OpaqueId;
  p_attempt_id : OpaqueId;
  p_public_step_digest : Sha256Digest;
  p_private_action_digest : Sha256Digest;
  p_effect_set_digest : Sha256Digest;
  p_authority_binding : AuthorityBindingRef;
  p_admitted_device_facts_digest : Sha256Digest;
  issued_at_epoch_ms : Z;
  expires_at_epoch_ms : Z;
  single_use : bool;
  integrity_tag : PermitIntegrityTag
}.

#[global] Instance PermitIntegrityTag_eq_dec : EqDecision PermitIntegrityTag.
Proof. solve_decision. Defined.

#[global] Instance StepPermit_eq_dec : EqDecision StepPermit.
Proof. unfold EqDecision; intros; unfold Decision; repeat decide equality; apply _. Defined.

Definition permit_fields (p : StepPermit) : list (string * CborValue) :=
  [("permitId", to_cbor (permit_id p));
   ("authorityNamespace", to_cbor (p_authority_namespace p));
   ("controllerSessionId", to_cbor (p_controller_session_id p));
   ("jobId", to_cbor (p_job_id p));
   ("planId", to_cbor (p_plan_id p));
   ("planDigest", to_cbor (p_plan_digest p));
   ("stepId", to_cbor (p_step_id p));
   ("attemptId", to_cbor (p_attempt_id p));
   ("publicStepDigest", to_cbor (p_public_step_digest p));
   ("privateActionDigest", to_cbor (p_private_action_digest p));
   ("effectSetDigest", to_cbor (p_effect_set_digest p));
   ("authorityBinding", to_cbor (p_authority_binding p));
   ("admittedDeviceFactsDigest", to_cbor (p_admitted_device_facts_digest p));
   ("issuedAtEpochMs", Unsigned (issued_at_epoch_ms p));
   ("expiresAtEpochMs", Unsigned (expires_at_epoch_ms p));
   ("singleUse", Bool (single_use p))]%string.

(** [permit_body]. *)
Definition permit_body (p : StepPermit) : CborValue := map_of (permit_fields p).

Definition signing_body (p : StepPermit) : result CborError bytes :=
  to_canonical_bytes (permit_body p).

Inductive PermitDecodeError : Type :=
| NotAMap
| PermitField (name : string)
| NotCanonical
| PermitCbor (error : CborError).

(** [AuthorityNamespace::new(text(name)?).map_err(|_| Field(name))?] *)
Definition field_namespace (entries : list (CborValue * CborValue)) (name : string) :
    result PermitDecodeError AuthorityNamespace :=
  let? value := field_text PermitField entries name in
  map_err (fun _ => PermitField name) (AuthorityNamespace_new value).

(** The nested [authorityBinding] map: every failure names the outer field. *)
Definition read_binding (entries : list (CborValue * CborValue)) :
    result PermitDecodeError AuthorityBindingRef :=
  let bad := PermitField "authorityBinding" in
  match field entries "authorityBinding"%string with
  | Some (Map pairs) =>
      let? namespace :=
        match field pairs "authorityNamespace"%string with
        | Some (Text value) => map_err (fun _ => bad) (AuthorityNamespace_new value)
        | _ => Err bad
        end in
      let? binding :=
        match field pairs "bindingId"%string with
        | Some (Text value) => map_err (fun _ => bad) (OpaqueId_new value)
        | _ => Err bad
        end in
      let? revision :=
        match field pairs "bindingRevision"%string with
        | Some (Unsigned value) => Ok value
        | _ => Err bad
        end in
      let? identity :=
        match field pairs "stableIdentityDigest"%string with
        | Some (Bytes l) => if zlen l =? 32 then Ok (mkDigest l) else Err bad
        | _ => Err bad
        end in
      Ok (mkBinding namespace binding revision identity)
  | _ => Err bad
  end.

Definition zero_tag : PermitIntegrityTag := mkTag 0 (mkDigest (replicate 32 0)).

(** The [StepPermit { .. }] literal: fields read in the order it lists them. *)
Definition read_permit (entries : list (CborValue * CborValue)) :
    result PermitDecodeError StepPermit :=
  let id := field_id PermitField entries in
  let digest := field_digest PermitField entries in
  let? binding := read_binding entries in
  let? permit := id "permitId"%string in
  let? namespace := field_namespace entries "authorityNamespace"%string in
  let? session := id "controllerSessionId"%string in
  let? job := id "jobId"%string in
  let? plan := id "planId"%string in
  let? plan_d := digest "planDigest"%string in
  let? step := id "stepId"%string in
  let? attempt := id "attemptId"%string in
  let? public_step := digest "publicStepDigest"%string in
  let? private_action := digest "privateActionDigest"%string in
  let? effect_set := digest "effectSetDigest"%string in
  let? device := digest "admittedDeviceFactsDigest"%string in
  let? issued := field_unsigned PermitField entries "issuedAtEpochMs"%string in
  let? expires := field_unsigned PermitField entries "expiresAtEpochMs"%string in
  let? single := field_bool PermitField entries "singleUse"%string in
  Ok (mkPermit permit namespace session job plan plan_d step attempt public_step private_action
        effect_set binding device issued expires single zero_tag).

Definition permit_from_bytes (input : bytes) : result PermitDecodeError StepPermit :=
  let? value := map_err PermitCbor (decode_canonical input) in
  match value with
  | Map entries =>
      let? permit := read_permit entries in
      let? reencoded := map_err PermitCbor (signing_body permit) in
      if negb (bool_decide (reencoded = input)) then Err NotCanonical else Ok permit
  | _ => Err NotAMap
  end.

(** ** Minting and verification *)

Record ControllerPairingSecret := mkSecret { secret_epoch : Z; secret_bytes : bytes }.

(** [ControllerPairingSecret::compute] *)
Definition compute (s : ControllerPairingSecret) (body : bytes) : Sha256Digest :=
  hmac_sha256 (secret_bytes s) body.

(** [authority_side::mint_integrity_tag] *)
Definition mint_integrity_tag (p : StepPermit) (s : ControllerPairingSecret) :
    result CborError PermitIntegrityTag :=
  let? body := signing_body p in
  Ok (mkTag (secret_epoch s) (hmac_sha256 (secret_bytes s) body)).

Inductive PermitVerificationError : Type :=
| IntegrityTagInvalid
| StalePairingEpoch (permit current : Z)
| Expired (expires_at now : Z)
| ActionMismatch (expected found : Sha256Digest)
| PlanMismatch (expected found : Sha256Digest)
| ContextMismatch (field_name : string)
| AlreadyConsumed
| NotSingleUse
| VerifyCbor (error : CborError).

Record DispatchIntent := mkIntent {
  i_controller_session_id : OpaqueId;
  i_job_id : OpaqueId;
  i_plan_id : OpaqueId;
  i_plan_digest : Sha256Digest;
  i_step_id : OpaqueId;
  i_attempt_id : OpaqueId;
  i_public_step_digest : Sha256Digest;
  i_private_action_digest : Sha256Digest;
  i_effect_set_digest : Sha256Digest;
  i_authority_binding : AuthorityBindingRef;
  i_admitted_device_facts_digest : Sha256Digest;
  now_epoch_ms : Z
}.

Record VerifiedStepPermit := mkVerified { permit : StepPermit }.

(** The array of comparisons, in the order the code lists them. *)
Definition context_checks (p : StepPermit) (i : DispatchIntent) : list (bool * string) :=
  [(bool_decide (p_controller_session_id p = i_controller_session_id i), "controllerSessionId");
   (bool_decide (p_job_id p = i_job_id i), "jobId");
   (bool_decide (p_plan_id p = i_plan_id i), "planId");
   (bool_decide (p_step_id p = i_step_id i), "stepId");
   (bool_decide (p_attempt_id p = i_attempt_id i), "attemptId");
   (bool_decide (p_public_step_digest p = i_public_step_digest i), "publicStepDigest");
   (bool_decide (p_effect_set_digest p = i_effect_set_digest i), "effectSetDigest");
   (bool_decide (p_authority_binding p = i_authority_binding i), "authorityBinding");
   (bool_decide (p_admitted_device_facts_digest p = i_admitted_device_facts_digest i),
    "admittedDeviceFactsDigest")]%string.

(** The loop over them: the first mismatch is the error. *)
Fixpoint first_mismatch (l : list (bool * string)) : result PermitVerificationError unit :=
  match l with
  | [] => Ok tt
  | (matches, name) :: l => if negb matches then Err (ContextMismatch name) else first_mismatch l
  end.

Definition verify_permit (p : StepPermit) (s : ControllerPairingSecret) (i : DispatchIntent)
    (already_consumed : bool) : result PermitVerificationError VerifiedStepPermit :=
  if already_consumed then Err AlreadyConsumed
  else if negb (single_use p) then Err NotSingleUse
  else if negb (tag_epoch (integrity_tag p) =? secret_epoch s)
  then Err (StalePairingEpoch (tag_epoch (integrity_tag p)) (secret_epoch s))
  else
    let? body := map_err VerifyCbor (signing_body p) in
    let expected := compute s body in
    if negb (constant_time_eq expected (tag (integrity_tag p))) then Err IntegrityTagInvalid
    else if expires_at_epoch_ms p <=? now_epoch_ms i
    then Err (Expired (expires_at_epoch_ms p) (now_epoch_ms i))
    else if negb (bool_decide (p_plan_digest p = i_plan_digest i))
    then Err (PlanMismatch (i_plan_digest i) (p_plan_digest p))
    else if negb (bool_decide (p_private_action_digest p = i_private_action_digest i))
    then Err (ActionMismatch (i_private_action_digest i) (p_private_action_digest p))
    else if negb (bool_decide
      (p_authority_namespace p = authority_namespace (i_authority_binding i)))
    then Err (ContextMismatch "authorityNamespace")
    else
      let? _ := first_mismatch (context_checks p i) in
      Ok (mkVerified p).

(** ** Managed device control *)

Inductive ManagedDeviceControlAction : Type :=
| EnterUpdater | RebootToNormal | ReadProductFacts | ReadBuildFacts.

Definition control_as_str (a : ManagedDeviceControlAction) : string :=
  match a with
  | EnterUpdater => "enter-updater"
  | RebootToNormal => "reboot-to-normal"
  | ReadProductFacts => "read-product-facts"
  | ReadBuildFacts => "read-build-facts"
  end.

Definition control_parse (value : string) : option ManagedDeviceControlAction :=
  if String.eqb value "enter-updater" then Some EnterUpdater
  else if String.eqb value "reboot-to-normal" then Some RebootToNormal
  else if String.eqb value "read-product-facts" then Some ReadProductFacts
  else if String.eqb value "read-build-facts" then Some ReadBuildFacts
  else None.

(** ** Freshness *)

(** Nothing the admission was based on has changed. *)
Definition continuous (s : StepAdmissionSnapshot) (c : CurrentFacts) : Prop :=
  saw_detach_since_snapshot c = false /\
  snap_transport_session_digest s = cur_transport_session_digest c /\
  snap_device_facts_digest s = cur_device_facts_digest c /\
  snap_provider_facts_digest s = cur_provider_facts_digest c /\
  snap_toolchain_facts_digest s = cur_toolchain_facts_digest c /\
  snap_artifact_facts_digest s = cur_artifact_facts_digest c.

Ltac freshness_cases :=
  unfold evaluate_freshness;
  repeat match goal with
  | |- context [if saw_detach_since_snapshot ?c then _ else _] =>
      destruct (saw_detach_since_snapshot c) eqn:?
  | |- context [bool_decide ?P] => destruct (bool_decide_reflect P); cbn [negb]
  | |- context [?a <=? ?b] => destruct (Z.leb_spec a b)
  end.

(** Freshness is decided by continuity first and the clock last: dispatch is
    permitted exactly when every admitted fact is unchanged, no detach was seen
    and the deadline lies ahead; a stale snapshot is reported only while
    continuity holds, with the elapsed time; any change is a continuity break
    whatever the clock says. *)
Theorem freshness_verdicts s c :
  (evaluate_freshness s c = Fresh <->
    continuous s c /\ cur_now_epoch_ms c < freshness_deadline_epoch_ms s) /\
  (forall e, evaluate_freshness s c = StaleSnapshot e <->
    continuous s c /\ freshness_deadline_epoch_ms s <= cur_now_epoch_ms c /\
    e = Z.max 0 (cur_now_epoch_ms c - captured_at_epoch_ms s)) /\
  ((exists cause, evaluate_freshness s c = ContinuityBroken cause) <-> ~ continuous s c).
Proof.
  unfold continuous.
  freshness_cases; unfold saturating_sub; (split; [|split; [intros el|]]); split; intros G;
    repeat match goal with
    | H : _ /\ _ |- _ => destruct H
    | H : exists _, _ |- _ => destruct H
    end; try injection G as <-; try congruence; try lia; try (split_and!; congruence || lia);
    try (intros (? & ? & ? & ? & ? & ?); congruence); eauto;
    try (destruct G; split_and!; congruence).
Qed.

(** ** The permit codec *)

Definition binding_ok (b : AuthorityBindingRef) : Prop :=
  id_ok (namespace_id (authority_namespace b)) /\ id_ok (binding_id b) /\
  u64 (binding_revision b) /\ digest_ok (stable_identity_digest b).

(** The invariants the Rust types carry. *)
Definition permit_ok (p : StepPermit) : Prop :=
  id_ok (permit_id p) /\ id_ok (namespace_id (p_authority_namespace p)) /\
  id_ok (p_controller_session_id p) /\ id_ok (p_job_id p) /\ id_ok (p_plan_id p) /\
  digest_ok (p_plan_digest p) /\ id_ok (p_step_id p) /\ id_ok (p_attempt_id p) /\
  digest_ok (p_public_step_digest p) /\ digest_ok (p_private_action_digest p) /\
  digest_ok (p_effect_set_digest p) /\ binding_ok (p_authority_binding p) /\
  digest_ok (p_admitted_device_facts_digest p) /\ u64 (issued_at_epoch_ms p) /\
  u64 (expires_at_epoch_ms p).

(** The same permit with no tag: what travels in the signed bytes. *)
Definition untagged (p : StepPermit) : StepPermit :=
  mkPermit (permit_id p) (p_authority_namespace p) (p_controller_session_id p) (p_job_id p)
    (p_plan_id p) (p_plan_digest p) (p_step_id p) (p_attempt_id p) (p_public_step_digest p)
    (p_private_action_digest p) (p_effect_set_digest p) (p_authority_binding p)
    (p_admitted_device_facts_digest p) (issued_at_epoch_ms p) (expires_at_epoch_ms p)
    (single_use p) zero_tag.

Lemma binding_names_NoDup b : NoDup (map fst (binding_fields b)).
Proof. apply (bool_decide_unpack _). vm_compute. exact I. Qed.

Lemma permit_names_NoDup p : NoDup (map fst (permit_fields p)).
Proof. apply (bool_decide_unpack _). vm_compute. exact I. Qed.

Lemma namespace_cbor_ok n : id_ok (namespace_id n) -> cbor_ok (to_cbor n).
Proof. apply id_cbor_ok. Qed.

Lemma binding_cbor_ok b : binding_ok b -> cbor_ok (to_cbor b).
Proof.
  intros (? & ? & ? & ?). apply map_of_ok; [vm_compute; split; congruence|].
  pose proof namespace_cbor_ok. unfold binding_fields. literal_fields.
Qed.
#[export] Hint Resolve namespace_cbor_ok binding_cbor_ok : ark.

Lemma permit_body_ok p : permit_ok p -> cbor_ok (permit_body p).
Proof.
  intros (? & ? & ? & ? & ? & ? & ? & ? & ? & ? & ? & ? & ? & ? & ?).
  apply map_of_ok; [vm_compute; split; congruence|]. unfold permit_fields. literal_fields.
Qed.

Lemma permit_body_depth p : (depth (permit_body p) <= MAX_DEPTH)%nat.
Proof. change (2 <= 64)%nat. lia. Qed.

Ltac in_permit := cbn [permit_fields binding_fields]; repeat first [left | right].

Lemma read_binding_carries k p :
  carries k (permit_fields p) -> permit_ok p -> read_binding k = Ok (p_authority_binding p).
Proof.
  intros Hk (_ & _ & _ & _ & _ & _ & _ & _ & _ & _ & _ & (Hn & Hi & _ & Hd) & _).
  destruct (carries_field k _ "authorityBinding" _ Hk (permit_names_NoDup p) ltac:(in_permit))
    as (v & Hf & (pairs & -> & Hp)%cbor_eq_map_of).
  unfold read_binding. rewrite Hf. set (b := p_authority_binding p) in *.
  pose proof (binding_names_NoDup b) as Hnd.
  destruct (carries_field _ _ "authorityNamespace" _ Hp Hnd ltac:(in_permit)) as (? & -> & H1).
  destruct (carries_field _ _ "bindingId" _ Hp Hnd ltac:(in_permit)) as (? & -> & H2).
  destruct (carries_field _ _ "bindingRevision" _ Hp Hnd ltac:(in_permit)) as (? & -> & H3).
  destruct (carries_field _ _ "stableIdentityDigest" _ Hp Hnd ltac:(in_permit)) as (? & -> & H4).
  inversion H1; inversion H2; inversion H3; inversion H4; subst.
  unfold AuthorityNamespace_new. unfold id_ok in Hn, Hi. rewrite Hn, Hi. cbn [map_err].
  destruct Hd as [Hd _]. unfold zlen. rewrite Hd. cbn.
  destruct b as [[] ? ? []]. done.
Qed.

Lemma read_permit_carries k p :
  carries k (permit_fields p) -> permit_ok p -> read_permit k = Ok (untagged p).
Proof.
  intros Hk Hp. unfold read_permit. rewrite (read_binding_carries k p Hk Hp).
  destruct Hp as (? & Hn & ? & ? & ? & ? & ? & ? & ? & ? & ? & ? & ? & ? & ?).
  pose proof (permit_names_NoDup p) as Hnd.
  assert (field_namespace k "authorityNamespace" = Ok (p_authority_namespace p)) as ->.
  { unfold field_namespace, AuthorityNamespace_new. unfold id_ok in Hn.
    rewrite (read_text PermitField k _ Hk Hnd _ (as_str (namespace_id (p_authority_namespace p))))
      by in_permit. rewrite Hn. by destruct (p_authority_namespace p). }
  rewrite (read_id PermitField k _ Hk Hnd "permitId" (permit_id p)),
    (read_id PermitField k _ Hk Hnd "controllerSessionId" (p_controller_session_id p)),
    (read_id PermitField k _ Hk Hnd "jobId" (p_job_id p)),
    (read_id PermitField k _ Hk Hnd "planId" (p_plan_id p)),
    (read_digest PermitField k _ Hk Hnd "planDigest" (p_plan_digest p)),
    (read_id PermitField k _ Hk Hnd "stepId" (p_step_id p)),
    (read_id PermitField k _ Hk Hnd "attemptId" (p_attempt_id p)),
    (read_digest PermitField k _ Hk Hnd "publicStepDigest" (p_public_step_digest p)),
    (read_digest PermitField k _ Hk Hnd "privateActionDigest" (p_private_action_digest p)),
    (read_digest PermitField k _ Hk Hnd "effectSetDigest" (p_effect_set_digest p)),
    (read_digest PermitField k _ Hk Hnd "admittedDeviceFactsDigest"
       (p_admitted_device_facts_digest p)),
    (read_unsigned PermitField k _ Hk Hnd "issuedAtEpochMs" (issued_at_epoch_ms p)),
    (read_unsigned PermitField k _ Hk Hnd "expiresAtEpochMs" (expires_at_epoch_ms p)),
    (read_bool PermitField k _ Hk Hnd "singleUse" (single_use p)) by (done || in_permit).
  done.
Qed.

Lemma read_binding_sound k b : cbor_ok (Map k) -> read_binding k = Ok b -> binding_ok b.
Proof.
  unfold read_binding. intros Hk.
  destruct (field k "authorityBinding") as [[| | | | |pairs| |]|] eqn:F; try done.
  apply (field_sound k Hk) in F. unfold AuthorityNamespace_new.
  destruct (field pairs "authorityNamespace") as [[| | |ns| | | |]|] eqn:F1; try done.
  destruct (OpaqueId_new ns) as [n|] eqn:N; [|done]. cbn [map_err].
  destruct (field pairs "bindingId") as [[| | |bi| | | |]|] eqn:F2; try done.
  destruct (OpaqueId_new bi) as [i|] eqn:I; [|done]. cbn [map_err].
  destruct (field pairs "bindingRevision") as [[rev| | | | | | |]|] eqn:F3; try done.
  destruct (field pairs "stableIdentityDigest") as [[| |l| | | | |]|] eqn:F4; try done.
  destruct (Z.eqb_spec (zlen l) 32) as [Hl|]; [|done]. intros [= <-].
  apply id_ok_new in N as [? _], I as [? _].
  apply (field_sound pairs F) in F3, F4. inversion F3. inversion F4. subst.
  split_and!; try done. split; [|done]. unfold zlen in Hl. cbn. lia.
Qed.

Lemma namespace_sound k name n : field_namespace k name = Ok n -> id_ok (namespace_id n).
Proof.
  unfold field_namespace, AuthorityNamespace_new. destruct (field_text PermitField k name); [|done].
  destruct (OpaqueId_new a) as [i|] eqn:N; [|done]. intros [= <-]. by apply id_ok_new in N as [? _].
Qed.

Lemma read_permit_sound k p : cbor_ok (Map k) -> read_permit k = Ok p -> permit_ok p /\ untagged p = p.
Proof.
  intros Hk H. unfold read_permit in H.
  repeat match type of H with
  | match ?x with Ok _ => _ | Err _ => _ end = _ => destruct x eqn:?; [|discriminate H]
  end.
  injection H as <-. split; [|done].
  pose proof (read_binding_sound k). pose proof (namespace_sound k).
  pose proof (id_sound PermitField k). pose proof (digest_sound PermitField k Hk).
  pose proof (unsigned_sound PermitField k Hk).
  split_and!; cbn; eauto.
Qed.

(** Reading a permit succeeds exactly on the canonical signing bytes of a
    well-formed permit, and gives back that permit with no tag: no other byte
    string decodes, and no field is defaulted. *)
Theorem permit_codec_iff b p :
  bytes_ok b -> u64 (zlen b) ->
  permit_from_bytes b = Ok p <-> permit_ok p /\ untagged p = p /\ signing_body p = Ok b.
Proof.
  intros Hb Hu. unfold permit_from_bytes. split.
  - destruct (decode_canonical b) as [v|] eqn:D; [|done]. cbn [map_err].
    destruct v as [| | | | |k| |]; try done.
    destruct (read_permit k) as [q|] eqn:R; [|done].
    destruct (signing_body q) as [b'|] eqn:S; [|done]. cbn [map_err].
    case_bool_decide; [|done]. intros [= <-]. subst b'.
    apply decode_levels in D as (? & Hok & ?); [|done].
    destruct (read_permit_sound k q Hok R). split_and!; assumption.
  - intros (Hok & Hun & Hs).
    destruct (enc_decodes_top _ _ (permit_body_ok p Hok) (permit_body_depth p) Hs Hu)
      as (v & -> & (k & -> & Hk)%cbor_eq_map_of).
    cbn [map_err]. rewrite (read_permit_carries k p Hk Hok), Hun, Hs. cbn [map_err].
    by rewrite bool_decide_eq_true_2.
Qed.

(** ** Verification *)

(** Every signed field describes the pending dispatch. *)
Definition describes (p : StepPermit) (i : DispatchIntent) : Prop :=
  p_controller_session_id p = i_controller_session_id i /\ p_job_id p = i_job_id i /\
  p_plan_id p = i_plan_id i /\ p_plan_digest p = i_plan_digest i /\ p_step_id p = i_step_id i /\
  p_attempt_id p = i_attempt_id i /\ p_public_step_digest p = i_public_step_digest i /\
  p_private_action_digest p = i_private_action_digest i /\
  p_effect_set_digest p = i_effect_set_digest i /\
  p_authority_binding p = i_authority_binding i /\
  p_authority_namespace p = authority_namespace (i_authority_binding i) /\
  p_admitted_device_facts_digest p = i_admitted_device_facts_digest i.

(** The tag endorses the permit's own signing bytes under this secret. *)
Definition endorsed (p : StepPermit) (s : ControllerPairingSecret) : Prop :=
  tag_epoch (integrity_tag p) = secret_epoch s /\
  exists b, signing_body p = Ok b /\ tag (integrity_tag p) = hmac_sha256 (secret_bytes s) b.

Lemma first_mismatch_Ok l : first_mismatch l = Ok tt <-> Forall (fun c => c.1 = true) l.
Proof.
  induction l as [|[[] n] l IH]; cbn; [by split|rewrite Forall_cons; tauto|].
  split; [done|]. by intros [? _]%Forall_cons.
Qed.

Lemma first_mismatch_names l e :
  first_mismatch l = Err e -> exists n, e = ContextMismatch n /\ (false, n) ∈ l.
Proof.
  induction l as [|[[] n] l IH]; cbn; [done| |intros [= <-]; exists n; split; [done|left]].
  intros (m & ? & ?)%IH. exists m. split; [done|by right].
Qed.

Lemma context_checks_Ok p i :
  p_plan_digest p = i_plan_digest i -> p_private_action_digest p = i_private_action_digest i ->
  p_authority_namespace p = authority_namespace (i_authority_binding i) ->
  first_mismatch (context_checks p i) = Ok tt <-> describes p i.
Proof.
  intros. rewrite first_mismatch_Ok. unfold context_checks, describes.
  rewrite !Forall_cons, Forall_nil. cbn [fst]. rewrite !bool_decide_eq_true. tauto.
Qed.

Lemma hmac_ok k m : digest_ok (hmac_sha256 k m).
Proof. apply finalize_ok. Qed.

(** Signing never fails: the field names are distinct. *)
Lemma signing_total p : exists b, signing_body p = Ok b.
Proof.
  apply (text_map_encodes (permit_fields p)); [| |apply permit_names_NoDup].
  - repeat (apply Forall_cons_2; [vm_compute; congruence|]); constructor.
  - assert (exists b, enc (to_cbor (p_authority_binding p)) b) as Hb.
    { apply (text_map_encodes (binding_fields _)); [| |apply binding_names_NoDup].
      - repeat (apply Forall_cons_2; [vm_compute; congruence|]); constructor.
      - repeat (apply Forall_cons_2; [eexists; reflexivity|]); constructor. }
    repeat (apply Forall_cons_2; [first [exact Hb | (eexists; reflexivity)]|]); constructor.
Qed.

#[local] Opaque hmac_sha256 constant_time_eq to_canonical_bytes.

Lemma compute_endorses p s b :
  digest_ok (tag (integrity_tag p)) -> signing_body p = Ok b ->
  tag_epoch (integrity_tag p) = secret_epoch s ->
  constant_time_eq (compute s b) (tag (integrity_tag p)) = true <-> endorsed p s.
Proof.
  intros Ht Hb He. rewrite constant_time_eq_true by (apply hmac_ok || assumption).
  unfold endorsed, compute. split; [by eauto|]. intros [_ (b' & Hb' & ->)]. congruence.
Qed.

Lemma verified_is_permit p s i consumed v :
  verify_permit p s i consumed = Ok v -> v = mkVerified p.
Proof.
  unfold verify_permit. intros H.
  repeat match type of H with
  | (if ?b then _ else _) = _ => destruct b; [discriminate H|]
  | match ?x with Ok _ => _ | Err _ => _ end = _ => destruct x; [|discriminate H]
  end. by injection H.
Qed.

(** C19. [verify_permit] accepts a permit exactly when it has not been consumed, is
    single-use, carries the current pairing epoch and the HMAC of its own
    signing bytes under the current secret, has not expired, and every signed
    field equals the pending dispatch's. *)
Theorem verify_permit_iff p s i consumed v :
  digest_ok (tag (integrity_tag p)) ->
  verify_permit p s i consumed = Ok v <->
  v = mkVerified p /\ consumed = false /\ single_use p = true /\ endorsed p s /\
  now_epoch_ms i < expires_at_epoch_ms p /\ describes p i.
Proof.
  intros Ht. destruct (signing_total p) as [b Hb]. unfold verify_permit. rewrite Hb. cbn [map_err].
  destruct consumed; [split; [done|by intros (_ & ? & _)]|].
  destruct (single_use p); cbn [negb]; [|split; [done|by intros (_ & _ & ? & _)]].
  destruct (Z.eqb_spec (tag_epoch (integrity_tag p)) (secret_epoch s)) as [He|He]; cbn [negb].
  2: { split; [done|]. intros (_ & _ & _ & [? _] & _). contradiction. }
  pose proof (compute_endorses p s b Ht Hb He) as Hend.
  destruct (constant_time_eq _ _); cbn [negb].
  2: { split; [done|]. intros (_ & _ & _ & Hq & _). by apply Hend in Hq. }
  destruct (Z.leb_spec (expires_at_epoch_ms p) (now_epoch_ms i));
    [split; [done|intros (_ & _ & _ & _ & ? & _); lia]|].
  do 3 (case_bool_decide; cbn [negb]; [|split; [done|unfold describes; tauto]]).
  rewrite <- context_checks_Ok by done.
  destruct (first_mismatch _) as [[]|]; [|split; [done|by intros (_ & _ & _ & _ & _ & ?)]].
  split; [intros [= <-]; tauto|by intros [-> _]].
Qed.

(** What each refusal says about the permit. *)
Definition refusal_reason (p : StepPermit) (s : ControllerPairingSecret) (i : DispatchIntent)
    (consumed : bool) (e : PermitVerificationError) : Prop :=
  match e with
  | AlreadyConsumed => consumed = true
  | NotSingleUse => consumed = false /\ single_use p = false
  | StalePairingEpoch a b =>
      a = tag_epoch (integrity_tag p) /\ b = secret_epoch s /\ a <> b
  | IntegrityTagInvalid =>
      tag_epoch (integrity_tag p) = secret_epoch s /\ ~ endorsed p s
  | Expired at_ms now =>
      endorsed p s /\ at_ms = expires_at_epoch_ms p /\ now = now_epoch_ms i /\ at_ms <= now
  | PlanMismatch expected found =>
      endorsed p s /\ expected = i_plan_digest i /\ found = p_plan_digest p /\ expected <> found
  | ActionMismatch expected found =>
      endorsed p s /\ expected = i_private_action_digest i /\ found = p_private_action_digest p /\
      expected <> found
  | ContextMismatch _ => endorsed p s /\ ~ describes p i
  | VerifyCbor _ => False
  end.

(** Every refusal names a true reason: in particular a permit is reported
    expired, for another plan or for another action only when its tag is
    genuine, and verification never fails for want of an encoding. *)
Theorem verify_permit_refusals p s i consumed e :
  digest_ok (tag (integrity_tag p)) ->
  verify_permit p s i consumed = Err e -> refusal_reason p s i consumed e.
Proof.
  intros Ht. destruct (signing_total p) as [b Hb]. unfold verify_permit. rewrite Hb. cbn [map_err].
  destruct consumed; [intros [= <-]; cbn; auto|].
  destruct (single_use p) eqn:Hsu; cbn [negb]; [|intros [= <-]; cbn; auto].
  destruct (Z.eqb_spec (tag_epoch (integrity_tag p)) (secret_epoch s)) as [He|He]; cbn [negb];
    [|intros [= <-]; cbn; auto].
  pose proof (compute_endorses p s b Ht Hb He) as Hend.
  destruct (constant_time_eq _ _); cbn [negb];
    [|intros [= <-]; split; [done|]; by intros ?%Hend].
  assert (endorsed p s) as Hen by by apply Hend. clear Hend.
  destruct (Z.leb_spec (expires_at_epoch_ms p) (now_epoch_ms i)); [intros [= <-]; cbn; auto|].
  do 2 (case_bool_decide; cbn [negb]; [|intros [= <-]; split_and!; congruence || done]).
  case_bool_decide; cbn [negb]; [|intros [= <-]; split; [done|unfold describes; tauto]].
  destruct (first_mismatch _) as [[]|e'] eqn:F; [done|]. intros [= <-].
  pose proof F as (n & -> & _)%first_mismatch_names. split; [done|].
  intros Hd. apply context_checks_Ok in Hd; [|done..]. congruence.
Qed.

(** A permit minted by the authority verifies under the same secret for the
    dispatch it describes. *)
Theorem minted_permit_verifies p s i t :
  mint_integrity_tag (untagged p) s = Ok t -> integrity_tag p = t ->
  single_use p = true -> now_epoch_ms i < expires_at_epoch_ms p -> describes p i ->
  verify_permit p s i false = Ok (mkVerified p).
Proof.
  unfold mint_integrity_tag. change (signing_body (untagged p)) with (signing_body p).
  destruct (signing_body p) as [b|] eqn:Hb; [|done]. intros [= <-] Htag Hs Hnow Hd.
  unfold verify_permit, compute. rewrite Hs, Hb, Htag. cbn [negb map_err tag tag_epoch].
  rewrite Z.eqb_refl, (proj2 (constant_time_eq_true _ _ (hmac_ok _ _) (hmac_ok _ _))) by done.
  cbn [negb]. destruct (Z.leb_spec (expires_at_epoch_ms p) (now_epoch_ms i)); [lia|].
  pose proof Hd as (_ & _ & _ & ? & _ & _ & _ & ? & _ & _ & ? & _).
  rewrite !bool_decide_eq_true_2 by done. cbn [negb].
  by rewrite (proj2 (context_checks_Ok p i ltac:(done) ltac:(done) ltac:(done)) Hd).
Qed.

(** Two permits with the same signing bytes are the same permit. *)
Lemma signing_inj p q b :
  permit_ok p -> permit_ok q -> u64 (zlen b) -> signing_body p = Ok b -> signing_body q = Ok b ->
  untagged p = untagged q.
Proof.
  intros Hp Hq Hu Bp Bq.
  destruct (enc_decodes_top _ _ (permit_body_ok p Hp) (permit_body_depth p) Bp Hu)
    as (v & Dp & (k & -> & Kp)%cbor_eq_map_of).
  destruct (enc_decodes_top _ _ (permit_body_ok q Hq) (permit_body_depth q) Bq Hu)
    as (w & Dq & (k' & -> & Kq)%cbor_eq_map_of).
  assert (k = k') as <- by congruence.
  apply read_permit_carries in Kp, Kq; congruence.
Qed.

(** The HMAC under this secret tells the two permits' signing bytes apart. *)
Definition hmac_separates (s : ControllerPairingSecret) (p q : StepPermit) : Prop :=
  forall bp bq, signing_body p = Ok bp -> signing_body q = Ok bq ->
    hmac_sha256 (secret_bytes s) bp = hmac_sha256 (secret_bytes s) bq -> bp = bq.

(** A tag is good for one permit only: carried over to a permit that differs
    in any signed field, it is refused as invalid, unless HMAC-SHA-256 under the
    pairing secret collides on the two bodies. *)
Theorem altered_permit_refused p q s i t :
  permit_ok p -> permit_ok q -> (forall b, signing_body p = Ok b -> u64 (zlen b)) ->
  mint_integrity_tag p s = Ok t -> integrity_tag q = t -> single_use q = true ->
  untagged q <> untagged p -> hmac_separates s p q ->
  verify_permit q s i false = Err IntegrityTagInvalid.
Proof.
  unfold mint_integrity_tag. intros Hp Hq Hu. destruct (signing_body p) as [bp|] eqn:Bp; [|done].
  intros [= <-] Htag Hs Hne Hsep. destruct (signing_total q) as [bq Bq].
  unfold verify_permit, compute. rewrite Hs, Bq, Htag. cbn [negb map_err tag tag_epoch]. rewrite Z.eqb_refl.
  cbn [negb]. destruct (constant_time_eq _ _) eqn:C; [|done].
  apply constant_time_eq_true in C; [|apply hmac_ok..].
  symmetry in C. apply (Hsep _ _ Bp Bq) in C as ->.
  destruct Hne. symmetry. eapply (signing_inj p q bq); auto.
Qed.

#[local] Transparent hmac_sha256 constant_time_eq to_canonical_bytes.

(** ** Samples for the witnesses *)

Definition sample_binding : AuthorityBindingRef :=
  mkBinding (mkNamespace (mkId "arkdeck")) (mkId "binding-1") 7 (mkDigest (replicate 32 5)).

Definition sample_secret : ControllerPairingSecret := mkSecret 3 (replicate 32 11).

Definition permit_with (job : string) (t : PermitIntegrityTag) : StepPermit :=
  mkPermit (mkId "PERMIT-1") (mkNamespace (mkId "arkdeck")) (mkId "session-1") (mkId job)
    (mkId "PLAN-1") (mkDigest (replicate 32 1)) (mkId "flash") (mkId "attempt-1")
    (mkDigest (replicate 32 2)) (mkDigest (replicate 32 3)) (mkDigest (replicate 32 4))
    sample_binding (mkDigest (replicate 32 6)) 1000 5000 true t.

Definition sample_tag : PermitIntegrityTag :=
  Eval vm_compute in
    match mint_integrity_tag (permit_with "JOB-1" zero_tag) sample_secret with
    | Ok t => t | Err _ => zero_tag end.

Definition sample_permit : StepPermit := permit_with "JOB-1" sample_tag.

Definition sample_intent : DispatchIntent :=
  mkIntent (mkId "session-1") (mkId "JOB-1") (mkId "PLAN-1") (mkDigest (replicate 32 1))
    (mkId "flash") (mkId "attempt-1") (mkDigest (replicate 32 2)) (mkDigest (replicate 32 3))
    (mkDigest (replicate 32 4)) sample_binding (mkDigest (replicate 32 6)) 2000.

Lemma digest_ok_dec d :
  forallb (in_range 0 255) (digest_bytes d) && (length (digest_bytes d) =? 32)%nat = true -> digest_ok d.
Proof.
  intros [H1 H2]%andb_true_iff. split; [by apply Nat.eqb_eq|].
  apply Forall_forall. intros b Hb. rewrite forallb_forall in H1.
  specialize (H1 b (proj1 (list_elem_of_In _ _) Hb)). unfold in_range in H1. breflect. zlia.
Qed.

Lemma sample_tag_ok : digest_ok (tag (integrity_tag sample_permit)).
Proof. apply digest_ok_dec. reflexivity. Qed.

Lemma permit_with_ok job t : id_ok (mkId job) -> permit_ok (permit_with job t).
Proof.
  intros Hj. unfold permit_ok, binding_ok. split_and!; try exact Hj;
    try (vm_compute; reflexivity); try (apply digest_ok_dec; reflexivity); cbn; zlia.
Qed.

Definition sample_permit_bytes : bytes :=
  Eval vm_compute in match signing_body sample_permit with Ok b => b | Err _ => [] end.

Lemma bytes_ok_dec l : forallb (in_range 0 255) l = true -> bytes_ok l.
Proof.
  intros H. apply Forall_forall. intros b Hb. rewrite forallb_forall in H.
  specialize (H b (proj1 (list_elem_of_In _ _) Hb)). unfold in_range in H. breflect. zlia.
Qed.

Lemma permit_codec_iff_witness :
  permit_from_bytes sample_permit_bytes = Ok (untagged sample_permit).
Proof.
  apply permit_codec_iff; [apply bytes_ok_dec; reflexivity|vm_compute; split; congruence|].
  split_and!; [by apply (permit_with_ok "JOB-1")|reflexivity|vm_compute; reflexivity].
Defined.

Lemma verify_permit_iff_witness :
  verify_permit sample_permit sample_secret sample_intent false = Ok (mkVerified sample_permit).
Proof.
  apply (verify_permit_iff sample_permit sample_secret sample_intent false); [exact sample_tag_ok|].
  split_and!; try reflexivity; [|repeat split].
  split; [reflexivity|]. exists sample_permit_bytes. split; vm_compute; reflexivity.
Defined.

Lemma verify_permit_refusals_witness :
  refusal_reason sample_permit (mkSecret 4 (replicate 32 11)) sample_intent false
    (StalePairingEpoch 3 4).
Proof. apply verify_permit_refusals; [exact sample_tag_ok|vm_compute; reflexivity]. Defined.

Lemma minted_permit_verifies_witness :
  verify_permit sample_permit sample_secret sample_intent false = Ok (mkVerified sample_permit).
Proof.
  apply (minted_permit_verifies sample_permit sample_secret sample_intent sample_tag);
    [vm_compute; reflexivity|reflexivity|reflexivity|reflexivity|repeat split].
Defined.

Lemma separates_mint s p q :
  mint_integrity_tag p s <> mint_integrity_tag q s -> hmac_separates s p q.
Proof.
  unfold mint_integrity_tag. intros Hne bp bq Hp Hq Heq. rewrite Hp, Hq, Heq in Hne.
  by destruct (Hne eq_refl).
Qed.

Lemma altered_permit_refused_witness :
  verify_permit (permit_with "JOB-2" sample_tag) sample_secret sample_intent false =
    Err IntegrityTagInvalid.
Proof.
  apply (altered_permit_refused (permit_with "JOB-1" zero_tag) _ sample_secret sample_intent sample_tag).
  - by apply permit_with_ok.
  - by apply permit_with_ok.
  - intros b Hb. vm_compute in Hb. injection Hb as <-. vm_compute. split; congruence.
  - vm_compute. reflexivity.
  - reflexivity.
  - reflexivity.
  - discriminate.
  - apply separates_mint, (bool_decide_unpack _). vm_compute. exact I.
Defined.
