(* ===== verification/Job.v ===== *)
(** * The job state machine (crates/arkforge-engine/src/lib.rs, [JobState])

    The states a job moves through, the transitions the code allows, and what
    every run of them satisfies. *)

From S2P Require Import Prelude.
From stdpp Require Import relations.

Inductive JobState : Type :=
| Planned
| AwaitingStart
| Preflight
| AwaitingPermit
| StepIntentDurable
| Dispatching
| ReceiptDurable
| Checkpointed
| RebindWait
| Postflight
| Succeeded
| ConfirmedFailed
| CancelledSafe
| OutcomeUnknown
| Reconciling
| RecoveryAssessable.

#[global] Instance JobState_eq_dec : EqDecision JobState.
Proof. solve_decision. Defined.

Definition state_as_str (s : JobState) : string :=
  match s with
  | Planned => "planned"
  | AwaitingStart => "awaitingStart"
  | Preflight => "preflight"
  | AwaitingPermit => "awaitingPermit"
  | StepIntentDurable => "stepIntentDurable"
  | Dispatching => "dispatching"
  | ReceiptDurable => "receiptDurable"
  | Checkpointed => "checkpointed"
  | RebindWait => "rebindWait"
  | Postflight => "postflight"
  | Succeeded => "succeeded"
  | ConfirmedFailed => "confirmedFailed"
  | CancelledSafe => "cancelledSafe"
  | OutcomeUnknown => "outcomeUnknown"
  | Reconciling => "reconciling"
  | RecoveryAssessable => "recoveryAssessable"
  end.

Definition is_terminal (s : JobState) : bool :=
  match s with
  | Succeeded | ConfirmedFailed | CancelledSafe | RecoveryAssessable => true
  | _ => false
  end.

Definition permits_external_dispatch (s : JobState) : bool :=
  match s with StepIntentDurable => true | _ => false end.

Definition may_transition_to (s next : JobState) : bool :=
  match s with
  | Planned => bool_decide (next = AwaitingStart)
  | AwaitingStart => bool_decide (next = Preflight)
  | Preflight => match next with AwaitingPermit | CancelledSafe => true | _ => false end
  | AwaitingPermit => match next with StepIntentDurable | CancelledSafe => true | _ => false end
  | StepIntentDurable => match next with Dispatching | OutcomeUnknown => true | _ => false end
  | Dispatching =>
      match next with ReceiptDurable | CancelledSafe | OutcomeUnknown => true | _ => false end
  | ReceiptDurable => match next with Checkpointed | OutcomeUnknown => true | _ => false end
  | Checkpointed =>
      match next with
      | RebindWait | Preflight | Postflight | ConfirmedFailed | CancelledSafe => true
      | _ => false
      end
  | RebindWait =>
      match next with Preflight | CancelledSafe | OutcomeUnknown => true | _ => false end
  | Postflight => match next with Succeeded | ConfirmedFailed => true | _ => false end
  | OutcomeUnknown => match next with Reconciling | RecoveryAssessable => true | _ => false end
  | Reconciling =>
      match next with Succeeded | ConfirmedFailed | OutcomeUnknown => true | _ => false end
  | Succeeded | ConfirmedFailed | CancelledSafe | RecoveryAssessable => false
  end.

(** ** Runs *)

(** A sequence of states the code may walk through. *)
Inductive run : list JobState -> Prop :=
| run_one s : run [s]
| run_cons s t l : may_transition_to s t = true -> run (t :: l) -> run (s :: t :: l).

Definition job_step (s t : JobState) : Prop := may_transition_to s t = true.

(** ** Properties *)

(** Each way a run can enter a state. *)
Lemma step_into_Dispatching s : job_step s Dispatching -> s = StepIntentDurable.
Proof. destruct s; done. Qed.

Lemma step_into_StepIntentDurable s : job_step s StepIntentDurable -> s = AwaitingPermit.
Proof. destruct s; done. Qed.

Lemma run_adjacent l i s t : run l -> l !! i = Some s -> l !! S i = Some t -> job_step s t.
Proof.
  intros H. revert i. induction H as [|s0 t0 l Hst _ IH]; intros [|i]; try done.
  - cbn. by intros [= <-] [= <-].
  - apply IH.
Qed.

(** A dispatch is always entered from a durable step intent, which was itself
    reached from a request for a permit: no run of the state machine sends
    anything to the device without an intent recorded for that very
    dispatch. *)
Theorem dispatch_needs_durable_intent l i :
  run l -> head l = Some Planned -> l !! i = Some Dispatching ->
  exists j, i = S (S j) /\ l !! S j = Some StepIntentDurable /\ l !! j = Some AwaitingPermit.
Proof.
  intros Hr H0 Hi.
  destruct i as [|i]; [by destruct l; simplify_eq/=|].
  destruct (lookup_lt_is_Some_2 l i) as [s Hs]; [apply lookup_lt_Some in Hi; lia|].
  pose proof (step_into_Dispatching s (run_adjacent l i s _ Hr Hs Hi)) as ->.
  destruct i as [|i]; [by destruct l; simplify_eq/=|].
  destruct (lookup_lt_is_Some_2 l i) as [u Hu]; [apply lookup_lt_Some in Hs; lia|].
  pose proof (step_into_StepIntentDurable u (run_adjacent l i u _ Hr Hu Hs)) as ->. eauto.
Qed.

Definition closed_world (P : JobState -> bool) : Prop :=
  forall s t, P s = true -> job_step s t -> P t = true.

Lemma closed_rtc P s t : closed_world P -> P s = true -> rtc job_step s t -> P t = true.
Proof. intros HP Hs Hr. induction Hr as [|s u t Hsu _ IH]; [done|]. apply IH. by eapply HP. Qed.

Definition after_unknown (s : JobState) : bool :=
  match s with
  | OutcomeUnknown | Reconciling | Succeeded | ConfirmedFailed | RecoveryAssessable => true
  | _ => false
  end.

(** An unknown outcome is never dispatched again nor called safely
    cancelled: from [OutcomeUnknown] only reconciliation, its verdicts and a
    recovery assessment can be reached; and a terminal state is never left. *)
Theorem unknown_outcome_never_dispatches s t :
  rtc job_step s t ->
  (s = OutcomeUnknown -> after_unknown t = true /\ permits_external_dispatch t = false /\
     t <> Dispatching /\ t <> CancelledSafe) /\
  (is_terminal s = true -> t = s).
Proof.
  intros Hr. split.
  - intros ->. assert (after_unknown t = true) as Ht.
    { apply (closed_rtc after_unknown OutcomeUnknown t); [|done|done]. intros x y. by destruct x, y. }
    by destruct t.
  - intros Hs. destruct Hr as [|s u t Hsu _]; [done|]. by destruct s.
Qed.

(** The shortest way to a terminal state, for every state. *)
Definition way_out (s : JobState) : list JobState :=
  match s with
  | Planned => [AwaitingStart; Preflight; CancelledSafe]
  | AwaitingStart => [Preflight; CancelledSafe]
  | Preflight | AwaitingPermit | Dispatching | Checkpointed | RebindWait => [CancelledSafe]
  | StepIntentDurable | ReceiptDurable => [OutcomeUnknown; RecoveryAssessable]
  | Postflight | Reconciling => [Succeeded]
  | OutcomeUnknown => [RecoveryAssessable]
  | Succeeded | ConfirmedFailed | CancelledSafe | RecoveryAssessable => []
  end.

Fixpoint walks (s : JobState) (l : list JobState) : bool :=
  match l with [] => true | t :: l => may_transition_to s t && walks t l end.

Lemma walks_rtc s l : walks s l = true -> rtc job_step s (foldl (fun _ t => t) s l).
Proof.
  revert s. induction l as [|t l IH]; intros s; [done|]. cbn [walks]. intros [H1 H2]%andb_true_iff.
  apply (rtc_l _ _ t); [exact H1|]. by apply IH.
Qed.

(** No state is a dead end: the states without a successor are exactly the
    terminal ones, and from every state a terminal one can be reached. *)
Theorem job_can_always_conclude s :
  ((forall t, may_transition_to s t = false) <-> is_terminal s = true) /\
  exists t, rtc job_step s t /\ is_terminal t = true.
Proof.
  split.
  - split; [|by intros Hs t; destruct s].
    intros H. specialize (H (List.hd s (way_out s))). by destruct s.
  - exists (foldl (fun _ t => t) s (way_out s)). split; [|by destruct s].
    apply walks_rtc. by destruct s.
Qed.

Lemma dispatch_needs_durable_intent_witness :
  let l := [Planned; AwaitingStart; Preflight; AwaitingPermit; StepIntentDurable; Dispatching;
            ReceiptDurable; Checkpointed; Postflight; Succeeded] in
  exists j, 5%nat = S (S j) /\ l !! S j = Some StepIntentDurable /\ l !! j = Some AwaitingPermit.
Proof.
  intros l. apply (dispatch_needs_durable_intent l 5); [|reflexivity|reflexivity].
  repeat (constructor; [reflexivity|]). constructor.
Defined.

Lemma unknown_outcome_never_dispatches_witness :
  after_unknown Succeeded = true /\ permits_external_dispatch Succeeded = false /\
  Succeeded <> Dispatching /\ Succeeded <> CancelledSafe.
Proof.
  apply (unknown_outcome_never_dispatches OutcomeUnknown Succeeded); [|reflexivity].
  eapply rtc_l; [|eapply rtc_l; [|apply rtc_refl]]; [exact (eq_refl : may_transition_to OutcomeUnknown Reconciling = true)|reflexivity].
Defined.
