(* ===== verification/Recovery.v ===== *)
(** * What a replayed journal says (crates/arkforge-engine/src/recovery.rs)

    The permit ledger, which replays the journal into one disposition per
    permit, and [CrashDisposition::derive], which picks the row of the crash
    table for a job. *)

From S2P Require Import Prelude Cbor Sha256 Digest Fields Journal Job.

(** ** Data *)

(** [fact]: the keys the engine writes and recovery reads. *)
Definition JOB_ID : string := "jobId".
Definition PLAN_ID : string := "planId".
Definition STEP_ID : string := "stepId".
Definition ATTEMPT_ID : string := "attemptId".
Definition PERMIT_ID : string := "permitId".
Definition RECEIPT_DIGEST : string := "receiptDigest".

Inductive PermitDisposition : Type :=
| Unseen
| AcceptedIntentNotDurable
| IntentDurable
| ConsumingOutcomeUnknown
| Consumed (receipt_digest : string).

#[global] Instance PermitDisposition_eq_dec : EqDecision PermitDisposition.
Proof. solve_decision. Defined.

(** [PermitDisposition::permits_dispatch] *)
Definition disposition_permits_dispatch (d : PermitDisposition) : bool :=
  match d with IntentDurable => true | _ => false end.

Record PermitLedger := mkLedger { permits : btree PermitDisposition }.

Inductive CrashDisposition : Type :=
| NoJob
| SafeToCancel
| DispatchForbiddenUntilIntentDurable (permit_id : string)
| CrashOutcomeUnknown (permit_id : string)
| ReceiptDurableCheckpointMissing (permit_id : string)
| ReplayFromCheckpoint
| Concluded (state : JobState).

(** ** Operations *)

Definition fact_value (fs : list (OpaqueId * string)) (key : string) : option string :=
  snd <$> List.find (fun '(fact_key, _) => String.eqb (as_str fact_key) key) fs.

(** The receipt a record names, if it names one that is not empty. *)
Definition receipt_named (r : JournalRecord) : option string :=
  match fact_value (facts r) RECEIPT_DIGEST with
  | Some digest => if String.eqb digest "" then None else Some digest
  | None => None
  end.

(** The [match record.kind] of the loop: the new value of the permit's entry. *)
Definition advance (entry : PermitDisposition) (r : JournalRecord) : PermitDisposition :=
  match kind r with
  | StepPermitAccepted =>
      match entry with Unseen => AcceptedIntentNotDurable | _ => entry end
  | StepIntentRecorded =>
      match entry with
      | Unseen | AcceptedIntentNotDurable | IntentDurable => IntentDurable
      | _ => entry
      end
  | PermitConsuming | ExternalDispatchStarted =>
      match entry with Consumed _ => entry | _ => ConsumingOutcomeUnknown end
  | SemanticReceiptRecorded | PermitConsumed =>
      match entry with
      | Consumed _ => entry
      | _ =>
          match receipt_named r with
          | Some receipt => Consumed receipt
          | None => ConsumingOutcomeUnknown
          end
      end
  | _ => entry
  end.

(** One round of the loop of [from_records]. *)
Definition ledger_step (m : btree PermitDisposition) (r : JournalRecord) : btree PermitDisposition :=
  match fact_value (facts r) PERMIT_ID with
  | None => m
  | Some permit =>
      let entry := match bt_get permit m with Some d => d | None => Unseen end in
      bt_insert permit (advance entry r) m
  end.

Definition from_records (rs : list JournalRecord) : PermitLedger :=
  mkLedger (fold_left ledger_step rs []).

Definition from_journal (j : Journal) : PermitLedger := from_records (records j).

Definition disposition (l : PermitLedger) (permit : string) : PermitDisposition :=
  match bt_get permit (permits l) with Some d => d | None => Unseen end.

Definition unresolved (l : PermitLedger) : list string :=
  map fst (List.filter (fun '(_, d) =>
    match d with IntentDurable | ConsumingOutcomeUnknown => true | _ => false end) (permits l)).

Definition terminal_state (text : string) : option JobState :=
  if String.eqb text "succeeded" then Some Succeeded
  else if String.eqb text "confirmedFailed" then Some ConfirmedFailed
  else if String.eqb text "cancelledSafe" then Some CancelledSafe
  else if String.eqb text "recoveryAssessable" then Some RecoveryAssessable
  else None.

Definition is_created (r : JournalRecord) : bool := bool_decide (kind r = JobCreated).

(** [is_single_job_journal] *)
Definition single_job (rs : list JournalRecord) (job : string) : bool :=
  match List.filter is_created rs with
  | [created] =>
      match fact_value (facts created) JOB_ID with
      | Some created_job => String.eqb created_job job
      | None => String.eqb (as_str (subject created)) job
      end
  | _ => false
  end.

(** The records [derive] attributes to the job. *)
Definition records_of (rs : list JournalRecord) (job : string) : list JournalRecord :=
  let is_single_job_journal := single_job rs job in
  List.filter (fun r =>
    match fact_value (facts r) JOB_ID with
    | Some record_job => String.eqb record_job job
    | None => String.eqb (as_str (subject r)) job || is_single_job_journal
    end) rs.

(** The terminal outcome a record carries. *)
Definition outcome_of (r : JournalRecord) : option JobState :=
  match kind r with
  | OutcomeClassified =>
      match fact_value (facts r) "outcome" with
      | Some text => terminal_state text
      | None => None
      end
  | _ => None
  end.

(** [Iterator::find_map]: the first value the function gives. *)
Fixpoint find_map {A B} (f : A -> option B) (l : list A) : option B :=
  match l with
  | [] => None
  | x :: l => match f x with Some y => Some y | None => find_map f l end
  end.

(** The permit the newest record that names one names. *)
Definition newest_permit (rs : list JournalRecord) : option string :=
  find_map (fun r => fact_value (facts r) PERMIT_ID) (rev rs).

Definition derive (j : Journal) (job : string) : CrashDisposition :=
  let rs := records_of (records j) job in
  if negb (existsb is_created rs) then NoJob
  else
    match find_map outcome_of rs with
    | Some state => Concluded state
    | None =>
        let ledger := from_records rs in
        match newest_permit rs with
        | None => SafeToCancel
        | Some permit =>
            let checkpointed := existsb (fun r =>
              bool_decide (kind r = StepCheckpointed) &&
              bool_decide (fact_value (facts r) PERMIT_ID = Some permit)) rs in
            match disposition ledger permit with
            | Unseen => SafeToCancel
            | AcceptedIntentNotDurable => DispatchForbiddenUntilIntentDurable permit
            | IntentDurable | ConsumingOutcomeUnknown => CrashOutcomeUnknown permit
            | Consumed _ =>
                if checkpointed then ReplayFromCheckpoint
                else ReceiptDurableCheckpointMissing permit
            end
        end
    end.

(** ** The ledger, permit by permit *)

Definition about (permit : string) (r : JournalRecord) : bool :=
  bool_decide (fact_value (facts r) PERMIT_ID = Some permit).

Lemma ledger_get rs m permit :
  match bt_get permit (fold_left ledger_step rs m) with Some d => d | None => Unseen end =
  fold_left advance (List.filter (about permit) rs)
    (match bt_get permit m with Some d => d | None => Unseen end).
Proof.
  revert m. induction rs as [|r rs IH]; intros m; [done|]. cbn [fold_left List.filter].
  rewrite IH. unfold ledger_step, about. destruct (fact_value (facts r) PERMIT_ID) as [p|].
  - case_bool_decide as E.
    + injection E as ->. cbn [fold_left]. by rewrite bt_get_insert_eq.
    + rewrite bt_get_insert_ne; [done|congruence].
  - by rewrite bool_decide_eq_false_2.
Qed.

Lemma disposition_fold rs permit :
  disposition (from_records rs) permit = fold_left advance (List.filter (about permit) rs) Unseen.
Proof. unfold disposition. cbn [from_records permits]. by rewrite ledger_get. Qed.

(** ** What the ledger means *)

Definition settles (r : JournalRecord) : option string :=
  match kind r with
  | SemanticReceiptRecorded | PermitConsumed => receipt_named r
  | _ => None
  end.

Definition consumes (r : JournalRecord) : bool :=
  match kind r with
  | PermitConsuming | ExternalDispatchStarted | SemanticReceiptRecorded | PermitConsumed => true
  | _ => false
  end.

Definition intends (r : JournalRecord) : bool := bool_decide (kind r = StepIntentRecorded).
Definition accepts (r : JournalRecord) : bool := bool_decide (kind r = StepPermitAccepted).

(** The strongest thing the records say: the first receipt that is named, else
    that consumption began, else that an intent is durable, else that the permit
    was accepted. The order of the records plays no other part. *)
Definition strongest (rs : list JournalRecord) : PermitDisposition :=
  match find_map settles rs with
  | Some receipt => Consumed receipt
  | None =>
      if existsb consumes rs then ConsumingOutcomeUnknown
      else if existsb intends rs then IntentDurable
      else if existsb accepts rs then AcceptedIntentNotDurable
      else Unseen
  end.

Lemma find_map_app {A B} (f : A -> option B) l k :
  find_map f (l ++ k) = match find_map f l with Some y => Some y | None => find_map f k end.
Proof. induction l as [|x l IH]; cbn; [done|]. by destruct (f x). Qed.

Lemma advance_strongest rs r : advance (strongest rs) r = strongest (rs ++ [r]).
Proof.
  unfold strongest. rewrite find_map_app, !existsb_app.
  destruct (find_map settles rs) as [h|]; cbn [find_map existsb].
  - unfold advance. by destruct (kind r).
  - unfold advance, settles, consumes, intends, accepts.
    destruct (kind r); destruct (existsb _ rs), (existsb _ rs), (existsb _ rs);
      cbn; try done; by destruct (receipt_named r).
Qed.

Lemma fold_strongest rs : fold_left advance rs Unseen = strongest rs.
Proof.
  induction rs as [|r rs IH] using rev_ind; [done|].
  rewrite fold_left_app. cbn [fold_left]. by rewrite IH, advance_strongest.
Qed.

(** The ledger replays any journal to the strongest fact it holds about each
    permit, whatever the order of the records: a permit is consumed exactly when
    some receipt names it (the first one counts), unknown when consumption began
    and nothing settles it, and so on down; a later weaker record never
    downgrades it. *)
Theorem ledger_disposition rs permit :
  disposition (from_records rs) permit = strongest (List.filter (about permit) rs).
Proof. by rewrite disposition_fold, fold_strongest. Qed.

(** How far a permit has come. *)
Definition rank (d : PermitDisposition) : nat :=
  match d with
  | Unseen => 0
  | AcceptedIntentNotDurable => 1
  | IntentDurable => 2
  | ConsumingOutcomeUnknown => 3
  | Consumed _ => 4
  end.

Lemma advance_rank d r : (rank d <= rank (advance d r))%nat.
Proof. unfold advance. destruct (kind r), d; cbn; try lia; destruct (receipt_named r); cbn; lia. Qed.

Lemma advance_consumed h r : advance (Consumed h) r = Consumed h.
Proof. unfold advance. by destruct (kind r). Qed.

Lemma fold_advance_rank rs d : (rank d <= rank (fold_left advance rs d))%nat.
Proof.
  revert d. induction rs as [|r rs IH]; intros d; [done|]. cbn [fold_left].
  specialize (IH (advance d r)). pose proof (advance_rank d r). lia.
Qed.

Lemma fold_advance_consumed rs h : fold_left advance rs (Consumed h) = Consumed h.
Proof. induction rs as [|r rs IH]; [done|]. cbn [fold_left]. by rewrite advance_consumed. Qed.

Lemma disposition_app rs ext permit :
  disposition (from_records (rs ++ ext)) permit =
  fold_left advance (List.filter (about permit) ext) (disposition (from_records rs) permit).
Proof. by rewrite !disposition_fold, List.filter_app, fold_left_app. Qed.

(** A journal only ever moves a permit forward: whatever is appended, a seen
    permit stays seen, a consumption that began is never forgotten, and a
    consumed permit keeps its first receipt for good. *)
Theorem ledger_monotone rs ext permit :
  (rank (disposition (from_records rs) permit) <=
   rank (disposition (from_records (rs ++ ext)) permit))%nat /\
  (forall h, disposition (from_records rs) permit = Consumed h ->
             disposition (from_records (rs ++ ext)) permit = Consumed h).
Proof.
  rewrite disposition_app. split; [apply fold_advance_rank|].
  intros h ->. apply fold_advance_consumed.
Qed.

(** ** The unresolved permits *)

Lemma ledger_sorted rs m : bt_ok m -> bt_ok (fold_left ledger_step rs m).
Proof.
  revert m. induction rs as [|r rs IH]; intros m Hm; [done|]. cbn [fold_left]. apply IH.
  unfold ledger_step. destruct (fact_value _ _); [by apply bt_insert_ok|done].
Qed.

Definition is_unresolved (d : PermitDisposition) : bool :=
  match d with IntentDurable | ConsumingOutcomeUnknown => true | _ => false end.

Lemma unresolved_spec rs permit :
  permit ∈ unresolved (from_records rs) <-> is_unresolved (disposition (from_records rs) permit) = true.
Proof.
  unfold unresolved, disposition. cbn [from_records permits].
  assert (bt_ok (fold_left ledger_step rs [])) as Hok by (apply ledger_sorted; constructor).
  set (m := fold_left _ _ _) in *. rewrite list_elem_of_In, in_map_iff. split.
  - intros ([p d] & <- & [Hin Hd]%List.filter_In). apply (bt_get_In p d m Hok) in Hin.
    cbn [fst]. by rewrite Hin.
  - destruct (bt_get permit m) as [d|] eqn:E; [|done]. intros Hd. exists (permit, d).
    split; [done|]. apply List.filter_In. split; [by apply bt_get_In|done].
Qed.

(** ** The crash table *)

(** A job admits steps one after another: only the newest permit can be open. *)
Definition serial (rs : list JournalRecord) : Prop :=
  forall permit, permit ∈ unresolved (from_records rs) -> newest_permit rs = Some permit.

(** For a job that was created, reached no terminal outcome and admitted its
    steps one at a time, the crash row is "outcome unknown" exactly when some
    permit of the job has a durable intent or a started dispatch and no receipt
    settles it: an open effect is never reported as safe to cancel. *)
Theorem derive_unknown_iff j job permit :
  let rs := records_of (records j) job in
  existsb is_created rs = true -> find_map outcome_of rs = None -> serial rs ->
  derive j job = CrashOutcomeUnknown permit <-> permit ∈ unresolved (from_records rs).
Proof.
  intros rs Hc Ho Hs. unfold derive. fold rs. rewrite Hc, Ho. cbn [negb]. split.
  - destruct (newest_permit rs) as [p|]; [|done]. intros H. rewrite unresolved_spec.
    destruct (disposition _ p) eqn:E in H; try done; [injection H as ->; by rewrite E..|].
    by destruct (existsb _ _) in H.
  - intros Hu. rewrite (Hs _ Hu). rewrite unresolved_spec in Hu.
    by destruct (disposition (from_records rs) permit).
Qed.

(** Every record says which job it belongs to, as the engine writes them. *)
Definition tagged (rs : list JournalRecord) : Prop :=
  Forall (fun r => exists job, fact_value (facts r) JOB_ID = Some job) rs.

Lemma records_of_app rs ext job :
  tagged rs -> exists more, records_of (rs ++ ext) job = records_of rs job ++ more.
Proof.
  intros Ht. unfold records_of. rewrite List.filter_app. eexists. f_equal.
  generalize (single_job (rs ++ ext) job) (single_job rs job). intros b c.
  induction Ht as [|r rs [k Hk] _ IH]; [done|]. cbn [List.filter]. by rewrite Hk, IH.
Qed.

(** A terminal verdict is final: once the records of a tagged journal
    classify the job, nothing appended later changes what recovery
    concludes. *)
Theorem conclusion_is_final rs ext job state :
  tagged rs -> derive (mkJournal rs) job = Concluded state ->
  derive (mkJournal (rs ++ ext)) job = Concluded state.
Proof.
  intros Ht. unfold derive. cbn [records].
  destruct (records_of_app rs ext job Ht) as [more ->].
  rewrite existsb_app, find_map_app.
  destruct (existsb is_created (records_of rs job)); cbn [negb orb]; [|done].
  destruct (find_map outcome_of (records_of rs job)) as [st|]; [done|].
  destruct (newest_permit _) as [p|]; [|done].
  destruct (disposition _ p); try done. by destruct (existsb _ _).
Qed.

(** ** Samples for the witnesses *)

Definition note (k : JournalRecordKind) (subj : string) (fs : list (string * string)) : JournalRecord :=
  mkRecord 1 1 1 k (fsync_policy k) 1000 (mkId subj)
    (map (fun '(key, value) => (mkId key, value)) fs) CHAIN_ORIGIN CHAIN_ORIGIN.

Definition job_fact : string * string := ("jobId", "JOB-1")%string.
Definition permit_fact : string * string := ("permitId", "PERMIT-1")%string.

Definition interrupted : list JournalRecord :=
  [note JobCreated "JOB-1" [job_fact];
   note StepPermitAccepted "flash" [job_fact; permit_fact];
   note StepIntentRecorded "flash" [job_fact; permit_fact];
   note PermitConsuming "flash" [job_fact; permit_fact]].

Lemma interrupted_serial : serial (records_of interrupted "JOB-1").
Proof. intros p Hp. vm_compute in Hp. by apply list_elem_of_singleton in Hp as ->. Qed.

Lemma derive_unknown_iff_witness : derive (mkJournal interrupted) "JOB-1" = CrashOutcomeUnknown "PERMIT-1".
Proof.
  apply derive_unknown_iff; [reflexivity|reflexivity|exact interrupted_serial|].
  vm_compute. left.
Defined.

Definition failed_job : list JournalRecord :=
  [note JobCreated "JOB-1" [job_fact];
   note OutcomeClassified "JOB-1" [job_fact; ("outcome", "confirmedFailed")%string]].

Lemma conclusion_is_final_witness :
  derive (mkJournal (failed_job ++
    [note OutcomeClassified "JOB-1" [job_fact; ("outcome", "succeeded")%string]])) "JOB-1"
  = Concluded ConfirmedFailed.
Proof.
  apply conclusion_is_final; [|reflexivity].
  repeat (constructor; [eexists; reflexivity|]). constructor.
Defined.

(** ** Untagged records *)

(** Finding: with records that carry no job identifier, which [derive] attributes
    to the only job of the file, the verdict is not final: creating a second job
    in the same file makes the first job's terminal record invisible. *)
Lemma untagged_conclusion_is_lost :
  let rs := [note JobCreated "JOB-1" [];
             note OutcomeClassified "flash" [("outcome", "succeeded")%string]] in
  derive (mkJournal rs) "JOB-1" = Concluded Succeeded /\
  derive (mkJournal (rs ++ [note JobCreated "JOB-2" []])) "JOB-1" = SafeToCancel.
Proof. split; reflexivity. Qed.
