(* ===== verification/StepEngine.v ===== *)
(** * Permit consumption (crates/arkforge-engine/src/step.rs)

    [admit_step], [begin_dispatch], [record_transport_evidence],
    [record_receipt] and [checkpoint] over the durable journal, in a small state
    and error monad, and the theorem that a permit is dispatched at most once,
    through crashes and restarts. *)

From S2P Require Import Prelude Cbor Sha256 Digest Fields Journal Durable Authority Job Recovery.

(** ** Data *)

Record StepContext := mkContext {
  c_job_id : string;
  c_plan_id : string;
  c_step_id : string;
  c_attempt_id : string;
  c_permit_id : string
}.

Record AdmittedStep := mkAdmitted {
  admitted_permit : VerifiedStepPermit;
  admitted_intent_digest : Sha256Digest
}.

Record DispatchInFlight := mkInFlight {
  flight_context : StepContext;
  flight_intent_digest : Sha256Digest;
  dispatch_digest : Sha256Digest
}.

Record CompletedStep := mkCompleted {
  completed_context : StepContext;
  receipt_digest : Sha256Digest;
  receipt_record_digest : Sha256Digest
}.

Inductive StepError : Type :=
| StepAlreadyConsumed (permit_id receipt : string)
| StepOutcomeUnknown (permit_id : string)
| IntentAlreadyRecorded (permit_id : string)
| StepVerification (error : PermitVerificationError)
| StepJournal (error : DurableJournalError)
| UnusableIdentifier (value : string)
| DuplicateFactKey (value : string).

(** ** The monad *)

(** The journal handle a step runs on. [acknowledged] is a specification
    variable: the durable records whose append returned so far. *)
Record Session := mkSession { handle : DurableJournal; acknowledged : list JournalRecord }.

Definition M (A : Type) : Type := Session -> Session * result StepError A.

Definition ret {A} (a : A) : M A := fun s => (s, Ok a).
Definition lift {A} (r : result StepError A) : M A := fun s => (s, r).
Definition bind {A B} (m : M A) (f : A -> M B) : M B := fun s =>
  match m s with
  | (s, Ok a) => f a s
  | (s, Err e) => (s, Err e)
  end.

Notation "'let!' x := m 'in' k" := (bind m (fun x => k))
  (at level 10, x pattern, m at level 100, k at level 200) : ark_scope.

(** What the operating system answers to one append. *)
Record Io := mkIo { io_write : WriteOutcome; io_sync : bool }.

(** [journal.append(..)?] *)
Definition append_step (io : Io) (k : JournalRecordKind) (at_ms revision : Z) (subj : OpaqueId)
    (fs : list (OpaqueId * string)) : M Sha256Digest := fun s =>
  let '(d, r) := durable_append (handle s) k at_ms revision subj fs (io_write io) (io_sync io) in
  (mkSession d (acknowledged s ++ ack k d r), map_err StepJournal r).

(** ** Helpers *)

(** [subject] and [key]. *)
Definition subject_id (value : string) : result StepError OpaqueId :=
  map_err (fun _ => UnusableIdentifier value) (OpaqueId_new value).

Definition key_id (value : string) : result StepError OpaqueId :=
  map_err (fun _ => UnusableIdentifier value) (OpaqueId_new value).

(** [StepContext::from_permit] *)
Definition from_permit (v : VerifiedStepPermit) : StepContext :=
  let p := permit v in
  mkContext (as_str (p_job_id p)) (as_str (p_plan_id p)) (as_str (p_step_id p))
    (as_str (p_attempt_id p)) (as_str (permit_id p)).

(** [StepContext::facts] *)
Definition context_facts (c : StepContext) : result StepError (list (OpaqueId * string)) :=
  let? job := key_id JOB_ID in
  let? plan := key_id PLAN_ID in
  let? step := key_id STEP_ID in
  let? attempt := key_id ATTEMPT_ID in
  let? permit := key_id PERMIT_ID in
  Ok [(job, c_job_id c); (plan, c_plan_id c); (step, c_step_id c); (attempt, c_attempt_id c);
      (permit, c_permit_id c)].

Definition facts_with_receipt (c : StepContext) (receipt : Sha256Digest) :
    result StepError (list (OpaqueId * string)) :=
  let? fs := context_facts c in
  let? receipt_key := key_id RECEIPT_DIGEST in
  Ok (fs ++ [(receipt_key, to_hex receipt)]).

(** The loop of [extend_unique_facts]. *)
Fixpoint extend_loop (seen : list string) (fs : list (OpaqueId * string))
    (extra : list (string * string)) : result StepError (list (OpaqueId * string)) :=
  match extra with
  | [] => Ok fs
  | (name, value) :: extra =>
      let? name := key_id name in
      if bool_decide (as_str name ∈ seen) then Err (DuplicateFactKey (as_str name))
      else extend_loop (as_str name :: seen) (fs ++ [(name, value)]) extra
  end.

Definition extend_unique_facts (fs : list (OpaqueId * string)) (extra : list (string * string)) :
    result StepError (list (OpaqueId * string)) :=
  extend_loop (map (fun f => as_str f.1) fs) fs extra.

(** ** Operations *)

Definition admit_step (p : StepPermit) (secret : ControllerPairingSecret) (intent : DispatchIntent)
    (io1 io2 : Io) : M AdmittedStep := fun s =>
  let id := as_str (permit_id p) in
  match disposition (from_journal (journal (handle s))) id with
  | Consumed receipt => (s, Err (StepAlreadyConsumed id receipt))
  | ConsumingOutcomeUnknown => (s, Err (StepOutcomeUnknown id))
  | IntentDurable | AcceptedIntentNotDurable => (s, Err (IntentAlreadyRecorded id))
  | Unseen =>
      (let! verified := lift (map_err StepVerification (verify_permit p secret intent false)) in
       let context := from_permit verified in
       let! subj := lift (subject_id (c_step_id context)) in
       let! fs := lift (context_facts context) in
       let! _ := append_step io1 StepPermitAccepted (now_epoch_ms intent) 1 subj fs in
       let! subj := lift (subject_id (c_step_id context)) in
       let! fs := lift (context_facts context) in
       let! intent_digest := append_step io2 StepIntentRecorded (now_epoch_ms intent) 1 subj fs in
       ret (mkAdmitted verified intent_digest)) s
  end.

Definition begin_dispatch_with_facts (step : AdmittedStep) (now : Z)
    (extra : list (string * string)) (io1 io2 : Io) : M DispatchInFlight :=
  let context := from_permit (admitted_permit step) in
  let! fs := lift (context_facts context) in
  let! fs := lift (extend_unique_facts fs extra) in
  let! subj := lift (subject_id (c_step_id context)) in
  let! _ := append_step io1 PermitConsuming now 1 subj fs in
  let! subj := lift (subject_id (c_step_id context)) in
  let! digest := append_step io2 ExternalDispatchStarted now 1 subj fs in
  ret (mkInFlight context (admitted_intent_digest step) digest).

Definition begin_dispatch (step : AdmittedStep) (now : Z) (io1 io2 : Io) : M DispatchInFlight :=
  begin_dispatch_with_facts step now [] io1 io2.

Definition record_transport_evidence (flight : DispatchInFlight) (now : Z)
    (extra : list (string * string)) (io : Io) : M unit :=
  let! entries := lift (context_facts (flight_context flight)) in
  let! entries := lift (extend_unique_facts entries extra) in
  let! subj := lift (subject_id (c_step_id (flight_context flight))) in
  let! _ := append_step io TransportEvidenceRecorded now 1 subj entries in
  ret tt.

Definition record_receipt_with_facts (flight : DispatchInFlight) (receipt : Sha256Digest)
    (extra : list (string * string)) (now : Z) (io1 io2 : Io) : M CompletedStep :=
  let context := flight_context flight in
  let! fs := lift (facts_with_receipt context receipt) in
  let! fs := lift (extend_unique_facts fs extra) in
  let! subj := lift (subject_id (c_step_id context)) in
  let! record := append_step io1 SemanticReceiptRecorded now 1 subj fs in
  let! subj := lift (subject_id (c_step_id context)) in
  let! fs := lift (facts_with_receipt context receipt) in
  let! _ := append_step io2 PermitConsumed now 1 subj fs in
  ret (mkCompleted context receipt record).

Definition record_receipt (flight : DispatchInFlight) (receipt : Sha256Digest) (now : Z)
    (io1 io2 : Io) : M CompletedStep :=
  record_receipt_with_facts flight receipt [] now io1 io2.

Definition checkpoint (completed : CompletedStep) (now : Z) (io : Io) : M Sha256Digest :=
  let context := completed_context completed in
  let! subj := lift (subject_id (c_step_id context)) in
  let! fs := lift (facts_with_receipt context (receipt_digest completed)) in
  append_step io StepCheckpointed now 1 subj fs.

(** ** What an operation does to the journal *)

Definition session_world (s : Session) : World := Running (handle s) (acknowledged s).

Definition session_records (s : Session) : list JournalRecord := records (journal (handle s)).

(** Running [m] makes at most [n] appends, all of them steps of the durable
    journal, and if it succeeds its result satisfies [Q]. *)
Definition triple {A} (n : Z) (m : M A) (Q : A -> Session -> Prop) : Prop :=
  forall s s' r, m s = (s', r) -> durable_reachable (session_world s) ->
    zlen (session_records s) + n <= U64_MAX ->
    durable_reachable (session_world s') /\ acknowledged s `prefix_of` acknowledged s' /\
    zlen (session_records s') <= zlen (session_records s) + n /\
    (forall a, r = Ok a -> Q a s').

Lemma triple_ret {A} (a : A) (Q : A -> Session -> Prop) : (forall s, Q a s) -> triple 0 (ret a) Q.
Proof. intros HQ s s' r [= <- <-] ? ?. split_and!; [done|done|lia|]. intros ? [= <-]. auto. Qed.

Lemma triple_lift {A} (x : result StepError A) (Q : A -> Session -> Prop) :
  (forall a s, x = Ok a -> Q a s) -> triple 0 (lift x) Q.
Proof. intros HQ s s' r [= <- <-] ? ?. split_and!; [done|done|lia|]. auto. Qed.

Lemma triple_bind {A B} n k (m : M A) (f : A -> M B) R Q :
  0 <= k -> triple n m R -> (forall a s, R a s -> triple k (f a) Q) -> triple (n + k) (bind m f) Q.
Proof.
  intros Hk Hm Hf s s' r Hrun Hr Hroom. unfold bind in Hrun.
  destruct (m s) as [s1 [a|e]] eqn:E.
  - destruct (Hm s s1 (Ok a) E Hr ltac:(lia)) as (H1 & H2 & H3 & H4).
    destruct (Hf a s1 (H4 a eq_refl) s1 s' r Hrun H1 ltac:(lia)) as (H5 & H6 & H7 & H8).
    split_and!; [done|by etrans|lia|done].
  - injection Hrun as <- <-.
    destruct (Hm s s1 (Err e) E Hr ltac:(lia)) as (H1 & H2 & H3 & _).
    split_and!; [done|done|lia|done].
Qed.

(** A durable record of this kind with these facts has been acknowledged. *)
Definition has_record (k : JournalRecordKind) (fs : list (OpaqueId * string)) (s : Session) : Prop :=
  exists record, record ∈ acknowledged s /\ kind record = k /\ facts record = fs.

Lemma triple_append io k at_ms revision subj fs :
  u64 at_ms -> u64 revision -> id_ok subj -> facts_ok fs ->
  triple 1 (append_step io k at_ms revision subj fs)
    (fun _ s => fsync_policy k = Durable -> has_record k fs s).
Proof.
  intros H1 H2 H3 H4 s s' r Hrun Hr Hroom. unfold append_step in Hrun.
  destruct (durable_append _ _ _ _ _ _ _ _) as [d x] eqn:E. injection Hrun as <- <-.
  pose proof (append_records _ _ _ _ _ _ _ _ _ _ E) as Hrec.
  split_and!.
  - eapply reach_step; [exact Hr|]. eapply step_append; [|exact E]. split; try done.
    unfold session_records in Hroom. lia.
  - by eexists.
  - unfold session_records. cbn [handle]. destruct Hrec as [->|(record & -> & _)]; rewrite ?zlen_app, ?zlen_cons, ?zlen_nil; lia.
  - intros h Hh Hd. destruct x as [h'|]; [|done]. cbn [map_err] in Hh.
    destruct (append_ok_record _ _ _ _ _ _ _ _ _ _ E) as (record & Hlast & Hk & Hf).
    exists record. split_and!; [|done|done]. cbn [acknowledged ack].
    rewrite bool_decide_eq_true_2 by done. rewrite Hlast, last_snoc. apply elem_of_app. right. left.
Qed.

(** ** The facts the engine writes *)

Definition text_ok (t : string) : Prop := str_ok t /\ u64 (str_len t).

Definition context_ok (c : StepContext) : Prop :=
  text_ok (c_job_id c) /\ text_ok (c_plan_id c) /\ text_ok (c_step_id c) /\
  text_ok (c_attempt_id c) /\ text_ok (c_permit_id c).

(** Extra facts a caller may pass: strings, and not astronomically many. *)
Definition extra_ok (extra : list (string * string)) : Prop :=
  Forall (fun e => text_ok e.2) extra /\ zlen extra <= U32_MAX.

(** The facts correlate the record with this permit, unambiguously. *)
Definition names_permit (permit : string) (fs : list (OpaqueId * string)) : Prop :=
  NoDup (map fst fs) /\ fact_value fs PERMIT_ID = Some permit.

Lemma subject_id_ok v i : subject_id v = Ok i -> id_ok i.
Proof.
  unfold subject_id. destruct (OpaqueId_new v) eqn:E; [|done]. intros [= <-].
  by apply id_ok_new in E as [? _].
Qed.

Lemma from_permit_ok v : permit_ok (permit v) -> context_ok (from_permit v).
Proof.
  intros (? & _ & ? & ? & ? & _ & ? & ? & _). unfold context_ok, text_ok, from_permit. cbn.
  split_and!; by apply id_ok_str.
Qed.

Lemma context_facts_eq c :
  context_facts c = Ok [(mkId JOB_ID, c_job_id c); (mkId PLAN_ID, c_plan_id c);
    (mkId STEP_ID, c_step_id c); (mkId ATTEMPT_ID, c_attempt_id c); (mkId PERMIT_ID, c_permit_id c)].
Proof. reflexivity. Qed.

Definition short_facts (fs : list (OpaqueId * string)) : Prop :=
  zlen fs <= 6 /\ Forall (fun f => id_ok f.1 /\ text_ok f.2) fs.

Lemma context_facts_ok c fs :
  context_ok c -> context_facts c = Ok fs -> short_facts fs /\ names_permit (c_permit_id c) fs.
Proof.
  intros (? & ? & ? & ? & ?) Hfs. rewrite context_facts_eq in Hfs. injection Hfs as <-. split.
  - split; [done|]. repeat (apply Forall_cons_2; [by split|]). constructor.
  - split; [apply (bool_decide_unpack _); vm_compute; exact I|done].
Qed.

Lemma digest_hex_text d : digest_ok d -> text_ok (to_hex d).
Proof.
  intros [Hl Hok]. unfold text_ok, to_hex, str_ok, str_len.
  destruct (hex_pairs_ok (digest_bytes d) Hok) as [Hb Hlen].
  fold (hex_pairs (digest_bytes d)). rewrite bytes_of_string_of_bytes by done.
  split; [|unfold zlen; rewrite Hlen, Hl; done].
  apply utf8_ascii. by apply hex_pairs_ascii.
Qed.

Lemma receipt_facts_ok c d fs :
  context_ok c -> digest_ok d -> facts_with_receipt c d = Ok fs ->
  short_facts fs /\ names_permit (c_permit_id c) fs.
Proof.
  intros (? & ? & ? & ? & ?) Hd Hfs. unfold facts_with_receipt in Hfs.
  rewrite context_facts_eq in Hfs. injection Hfs as <-. pose proof (digest_hex_text d Hd). split.
  - split; [done|]. repeat (apply Forall_cons_2; [by split|]). constructor.
  - split; [apply (bool_decide_unpack _); vm_compute; exact I|done].
Qed.

Lemma short_facts_ok fs : short_facts fs -> facts_ok fs.
Proof. intros [Hl Hf]. split; [pose proof (zlen_nonneg fs); zlia|]. exact Hf. Qed.

(** Extending facts keeps their keys distinct and their first entries. *)
Lemma extend_loop_Ok seen fs extra fs' :
  extend_loop seen fs extra = Ok fs' -> (forall f, f ∈ fs -> as_str f.1 ∈ seen) ->
  NoDup (map fst fs) -> Forall (fun e => text_ok e.2) extra ->
  exists more, fs' = fs ++ more /\ NoDup (map fst fs') /\ zlen more = zlen extra /\
    Forall (fun f => id_ok f.1 /\ text_ok f.2) more.
Proof.
  revert seen fs. induction extra as [|[n v] extra IH]; intros seen fs; cbn [extend_loop].
  - intros [= <-] _ Hnd _. exists []. rewrite app_nil_r. split_and!; [done|done|done|constructor].
  - unfold key_id at 1. destruct (OpaqueId_new n) as [i|] eqn:E; cbn [map_err]; [|done].
    case_bool_decide as Hin; [done|]. intros H Hseen Hnd [Hv Hex]%Forall_cons.
    apply IH in H as (more & -> & Hnd' & Hlen & Hmore); [|..|done].
    + exists ((i, v) :: more). rewrite <- app_assoc in *. split_and!; [done|done| |].
      * rewrite !zlen_cons. lia.
      * constructor; [|done]. apply id_ok_new in E as [? _]. by split.
    + intros f [Hf| ->%list_elem_of_singleton]%elem_of_app; [right; auto|left].
    + rewrite map_app. apply NoDup_app. split_and!; [done| |apply NoDup_singleton].
      intros x ([j w] & -> & Hj)%list_elem_of_fmap Hx%list_elem_of_singleton.
      cbn in Hx. subst j. apply Hin. exact (Hseen _ Hj).
Qed.

Lemma fact_value_app fs more key v :
  fact_value fs key = Some v -> fact_value (fs ++ more) key = Some v.
Proof.
  unfold fact_value. induction fs as [|[i w] fs IH]; cbn; [done|].
  by destruct (String.eqb (as_str i) key).
Qed.

Lemma extend_facts_ok permit fs extra fs' :
  extend_unique_facts fs extra = Ok fs' -> short_facts fs -> names_permit permit fs -> extra_ok extra ->
  facts_ok fs' /\ names_permit permit fs'.
Proof.
  unfold extend_unique_facts. intros H [Hl Hf] [Hnd Hp] [Hex Hlen].
  apply extend_loop_Ok in H as (more & -> & Hnd' & Hmore & Hok); [|..|done|done].
  2: { intros f Hin. apply list_elem_of_fmap. by exists f. }
  pose proof (zlen_nonneg fs). pose proof (zlen_nonneg extra).
  split; [split; [rewrite zlen_app; zlia|by apply Forall_app]|]. split; [done|].
  by apply fact_value_app.
Qed.

(** ** Each operation *)

Lemma one_u64 : u64 1.
Proof. zlia. Qed.

Lemma triple_lift_bind {A B} n (x : result StepError A) (f : A -> M B) Q :
  0 <= n -> (forall a, x = Ok a -> triple n (f a) Q) -> triple n (let! a := lift x in f a) Q.
Proof.
  intros Hn H. apply (triple_bind 0 n _ _ (fun a _ => x = Ok a)); [done|by apply triple_lift|auto].
Qed.

Lemma triple_append_bind {B} n io k at_ms subj fs (f : Sha256Digest -> M B) Q :
  0 <= n -> u64 at_ms -> id_ok subj -> facts_ok fs -> (forall h, triple n (f h) Q) ->
  triple (1 + n) (let! h := append_step io k at_ms 1 subj fs in f h) Q.
Proof.
  intros ? ? ? ? H. apply (triple_bind 1 n _ _ (fun _ _ => True)); [done| |auto].
  intros s s' r Hrun Hr Hroom.
  destruct (triple_append io k at_ms 1 subj fs ltac:(done) one_u64 ltac:(done) ltac:(done)
    s s' r Hrun Hr Hroom) as (? & ? & ? & _). by split_and!.
Qed.

(** The last append of an operation that returns what the record proves. *)
Lemma triple_append_ret {B} io k at_ms subj fs (f : Sha256Digest -> B) (Q : B -> Session -> Prop) :
  u64 at_ms -> id_ok subj -> facts_ok fs ->
  (forall h s, (fsync_policy k = Durable -> has_record k fs s) -> Q (f h) s) ->
  triple 1 (let! h := append_step io k at_ms 1 subj fs in ret (f h)) Q.
Proof.
  intros ? ? ? HQ s s' r Hrun Hr Hroom. unfold bind in Hrun.
  destruct (append_step io k at_ms 1 subj fs s) as [s1 x] eqn:E.
  destruct (triple_append io k at_ms 1 subj fs ltac:(done) one_u64 ltac:(done) ltac:(done)
    s s1 x E Hr Hroom) as (K1 & K2 & K3 & K4).
  destruct x as [h|e]; injection Hrun as <- <-; split_and!; try done.
  intros a [= <-]. apply HQ. intros Hd. by apply (K4 h).
Qed.

Definition proves (k : JournalRecordKind) (permit : string) (s : Session) : Prop :=
  exists fs, names_permit permit fs /\ has_record k fs s.

Lemma admit_triple p secret intent io1 io2 :
  permit_ok p -> u64 (now_epoch_ms intent) ->
  triple 2 (admit_step p secret intent io1 io2)
    (fun t s => permit (admitted_permit t) = p /\ proves StepIntentRecorded (as_str (permit_id p)) s).
Proof.
  intros Hp Hnow s s' r Hrun Hr Hroom. unfold admit_step in Hrun.
  destruct (disposition _ _) in Hrun; try (injection Hrun as <- <-; split_and!; by try lia).
  revert s s' r Hrun Hr Hroom.
  match goal with |- forall s s' r, ?m s = _ -> _ => change (triple 2 m
    (fun t s => permit (admitted_permit t) = p /\ proves StepIntentRecorded (as_str (permit_id p)) s)) end.
  apply triple_lift_bind; [lia|]. intros v Hv.
  assert (permit v = p) as Hvp.
  { destruct (verify_permit _ _ _ _) as [w|] eqn:E in Hv; [|done]. injection Hv as <-.
    by apply verified_is_permit in E as ->. }
  assert (context_ok (from_permit v)) as Hc by (apply from_permit_ok; by rewrite Hvp).
  apply triple_lift_bind; [lia|]. intros subj Hs%subject_id_ok.
  apply triple_lift_bind; [lia|]. intros fs Hfs. destruct (context_facts_ok _ _ Hc Hfs) as [Hsf Hn].
  pose proof (short_facts_ok _ Hsf) as Hok.
  apply (triple_append_bind 1); [lia|done..|]. intros _.
  apply triple_lift_bind; [lia|]. intros subj' Hs'%subject_id_ok.
  apply triple_lift_bind; [lia|]. rewrite Hfs. intros fs' [= <-].
  apply triple_append_ret; [done..|]. intros h s Hrec. split; [done|].
  exists fs. split; [|by apply Hrec]. by rewrite <- Hvp.
Qed.

Lemma begin_triple step now extra io1 io2 :
  permit_ok (permit (admitted_permit step)) -> u64 now -> extra_ok extra ->
  triple 2 (begin_dispatch_with_facts step now extra io1 io2)
    (fun f s => flight_context f = from_permit (admitted_permit step) /\
       proves ExternalDispatchStarted (as_str (permit_id (permit (admitted_permit step)))) s).
Proof.
  intros Hp Hnow Hex. pose proof (from_permit_ok _ Hp) as Hc. unfold begin_dispatch_with_facts.
  apply triple_lift_bind; [lia|]. intros fs Hfs. destruct (context_facts_ok _ _ Hc Hfs) as [Hsf Hn].
  apply triple_lift_bind; [lia|]. intros fs' Hfs'.
  destruct (extend_facts_ok _ _ _ _ Hfs' Hsf Hn Hex) as [Hok Hn'].
  apply triple_lift_bind; [lia|]. intros subj Hs%subject_id_ok.
  apply (triple_append_bind 1); [lia|done..|]. intros _.
  apply triple_lift_bind; [lia|]. intros subj' Hs'%subject_id_ok.
  apply triple_append_ret; [done..|]. intros h s Hrec. split; [done|].
  exists fs'. split; [done|by apply Hrec].
Qed.

Lemma evidence_triple flight now extra io :
  context_ok (flight_context flight) -> u64 now -> extra_ok extra ->
  triple 1 (record_transport_evidence flight now extra io) (fun _ _ => True).
Proof.
  intros Hc Hnow Hex. unfold record_transport_evidence.
  apply triple_lift_bind; [lia|]. intros fs Hfs. destruct (context_facts_ok _ _ Hc Hfs) as [Hsf Hn].
  apply triple_lift_bind; [lia|]. intros fs' Hfs'.
  destruct (extend_facts_ok _ _ _ _ Hfs' Hsf Hn Hex) as [Hok _].
  apply triple_lift_bind; [lia|]. intros subj Hs%subject_id_ok.
  by apply triple_append_ret.
Qed.

Lemma receipt_triple flight receipt extra now io1 io2 :
  context_ok (flight_context flight) -> digest_ok receipt -> u64 now -> extra_ok extra ->
  triple 2 (record_receipt_with_facts flight receipt extra now io1 io2)
    (fun c s => completed_context c = flight_context flight /\ receipt_digest c = receipt /\
       proves PermitConsumed (c_permit_id (flight_context flight)) s).
Proof.
  intros Hc Hd Hnow Hex. unfold record_receipt_with_facts.
  apply triple_lift_bind; [lia|]. intros fs Hfs. destruct (receipt_facts_ok _ _ _ Hc Hd Hfs) as [Hsf Hn].
  apply triple_lift_bind; [lia|]. intros fs' Hfs'.
  destruct (extend_facts_ok _ _ _ _ Hfs' Hsf Hn Hex) as [Hok _].
  apply triple_lift_bind; [lia|]. intros subj Hs%subject_id_ok.
  apply (triple_append_bind 1); [lia|done..|]. intros rd.
  apply triple_lift_bind; [lia|]. intros subj' Hs'%subject_id_ok.
  apply triple_lift_bind; [lia|]. rewrite Hfs. intros fs2 [= <-].
  apply triple_append_ret; [done|done|by apply short_facts_ok|]. intros h s Hrec.
  split_and!; [done|done|]. exists fs. split; [done|by apply Hrec].
Qed.

Lemma checkpoint_triple completed now io :
  context_ok (completed_context completed) -> digest_ok (receipt_digest completed) -> u64 now ->
  triple 1 (checkpoint completed now io)
    (fun _ s => proves StepCheckpointed (c_permit_id (completed_context completed)) s).
Proof.
  intros Hc Hd Hnow. unfold checkpoint.
  apply triple_lift_bind; [lia|]. intros subj Hs%subject_id_ok.
  apply triple_lift_bind; [lia|]. intros fs Hfs. destruct (receipt_facts_ok _ _ _ Hc Hd Hfs) as [Hsf Hn].
  intros s s' r Hrun Hr Hroom.
  destruct (triple_append io StepCheckpointed now 1 subj fs Hnow one_u64 Hs (short_facts_ok _ Hsf)
    s s' r Hrun Hr Hroom) as (? & ? & ? & HQ). split_and!; try done.
  intros h Hh. exists fs. split; [done|]. by apply (HQ h Hh).
Qed.

(** ** From a stored record to the ledger *)

Lemma fact_value_perm fs gs key :
  fs ≡ₚ gs -> NoDup (map fst fs) -> fact_value fs key = fact_value gs key.
Proof.
  intros Hp. unfold fact_value. induction Hp as [|[i v] l k Hp IH|[i v] [j w] l|l k m Hp IH1 Hq IH2];
    intros Hnd; cbn [List.find] in *.
  - done.
  - apply NoDup_cons in Hnd as [_ Hnd]. by destruct (String.eqb (as_str i) key); [|apply IH].
  - destruct (String.eqb_spec (as_str j) key), (String.eqb_spec (as_str i) key); try done.
    apply NoDup_cons in Hnd as [Hnin _]. destruct Hnin. cbn.
    assert (i = j) as -> by (destruct i, j; cbn in *; congruence). left.
  - rewrite IH1 by done. apply IH2. by rewrite <- Hp.
Qed.

(** How far a record of each kind moves the permit it names. *)
Definition kind_rank (k : JournalRecordKind) : nat :=
  match k with
  | StepPermitAccepted => 1
  | StepIntentRecorded => 2
  | PermitConsuming | ExternalDispatchStarted | SemanticReceiptRecorded | PermitConsumed => 3
  | _ => 0
  end.

Lemma advance_kind_rank d r : (kind_rank (kind r) <= rank (advance d r))%nat.
Proof.
  unfold advance. destruct (kind r), d; cbn; try lia; destruct (receipt_named r); cbn; lia.
Qed.

(** A record of the journal about a permit bounds the permit's disposition. *)
Lemma record_rank rs r permit :
  r ∈ rs -> fact_value (facts r) PERMIT_ID = Some permit ->
  (kind_rank (kind r) <= rank (disposition (from_records rs) permit))%nat.
Proof.
  intros Hin Hp. apply list_elem_of_split in Hin as (l & k & ->).
  change (r :: k) with ([r] ++ k). rewrite (app_assoc l).
  rewrite disposition_app. etrans; [|apply fold_advance_rank].
  rewrite disposition_app. cbn [List.filter]. unfold about at 1. rewrite bool_decide_eq_true_2 by done.
  cbn [fold_left]. apply advance_kind_rank.
Qed.

(** What a kept durable record still says after any crash and restart. *)
Lemma kept_rank rs r permit :
  kept rs r -> names_permit permit (facts r) ->
  (kind_rank (kind r) <= rank (disposition (from_records rs) permit))%nat.
Proof.
  intros Hk [Hnd Hp]. apply Exists_exists in Hk as (q & Hin & [Hs _]).
  destruct Hs as (_ & _ & _ & Hkind & _ & _ & _ & Hf & _).
  rewrite (fact_value_perm _ _ _ Hf Hnd) in Hp. rewrite Hkind. by apply record_rank.
Qed.

(** ** The engine over time *)

(** A daemon with its journal, the tokens its callers hold, and two histories:
    the permits ever admitted and the permits ever dispatched. Tokens live in
    memory: a crash loses them. *)
Record System := mkSystem {
  world : World;
  admissions : list AdmittedStep;
  flights : list DispatchInFlight;
  completions : list CompletedStep;
  admitted : list string;
  dispatched : list string
}.

Definition token_id (t : AdmittedStep) : string := as_str (permit_id (permit (admitted_permit t))).

Definition on_ok {A B} (r : result StepError A) (f : A -> B) : list B :=
  match r with Ok a => [f a] | Err _ => [] end.

(** Tokens survive while the process does. *)
Definition survive {A} (w w' : World) (l : list A) : list A :=
  match w, w' with Running _ _, Running _ _ => l | _, _ => [] end.

Definition has_room (s : Session) : Prop := zlen (session_records s) + 2 <= U64_MAX.

(** An admission, a dispatch, evidence, a receipt or a checkpoint with any
    outcome of its appends, or any other step of the durable journal: other
    records, syncs, crashes and restarts. A token is consumed by the call it is
    passed to, whether that call succeeds or not. *)
Inductive sys_step : System -> System -> Prop :=
| sys_admit s ad fl co h1 h2 p secret intent io1 io2 s' r :
    permit_ok p -> u64 (now_epoch_ms intent) -> has_room s ->
    admit_step p secret intent io1 io2 s = (s', r) ->
    sys_step (mkSystem (session_world s) ad fl co h1 h2)
      (mkSystem (session_world s') (ad ++ on_ok r (fun t => t)) fl co
        (h1 ++ on_ok r (fun _ => as_str (permit_id p))) h2)
| sys_begin s ad1 t ad2 fl co h1 h2 now extra io1 io2 s' r :
    u64 now -> extra_ok extra -> has_room s ->
    begin_dispatch_with_facts t now extra io1 io2 s = (s', r) ->
    sys_step (mkSystem (session_world s) (ad1 ++ t :: ad2) fl co h1 h2)
      (mkSystem (session_world s') (ad1 ++ ad2) (fl ++ on_ok r (fun f => f)) co h1
        (h2 ++ on_ok r (fun _ => token_id t)))
| sys_evidence s ad fl1 f fl2 co h1 h2 now extra io s' r :
    u64 now -> extra_ok extra -> has_room s ->
    record_transport_evidence f now extra io s = (s', r) ->
    sys_step (mkSystem (session_world s) ad (fl1 ++ f :: fl2) co h1 h2)
      (mkSystem (session_world s') ad (fl1 ++ f :: fl2) co h1 h2)
| sys_receipt s ad fl1 f fl2 co h1 h2 receipt extra now io1 io2 s' r :
    u64 now -> extra_ok extra -> digest_ok receipt -> has_room s ->
    record_receipt_with_facts f receipt extra now io1 io2 s = (s', r) ->
    sys_step (mkSystem (session_world s) ad (fl1 ++ f :: fl2) co h1 h2)
      (mkSystem (session_world s') ad (fl1 ++ fl2) (co ++ on_ok r (fun c => c)) h1 h2)
| sys_checkpoint s ad fl co1 c co2 h1 h2 now io s' r :
    u64 now -> has_room s -> checkpoint c now io s = (s', r) ->
    sys_step (mkSystem (session_world s) ad fl (co1 ++ c :: co2) h1 h2)
      (mkSystem (session_world s') ad fl (co1 ++ co2) h1 h2)
| sys_journal w w' ad fl co h1 h2 :
    durable_step w w' ->
    sys_step (mkSystem w ad fl co h1 h2)
      (mkSystem w' (survive w w' ad) (survive w w' fl) (survive w w' co) h1 h2).

Inductive sys_reachable : System -> Prop :=
| sys_start : sys_reachable (mkSystem (Running fresh_durable []) [] [] [] [] [])
| sys_next y y' : sys_reachable y -> sys_step y y' -> sys_reachable y'.

(** ** Its invariant *)

Definition proved (a : list JournalRecord) (k : JournalRecordKind) (permit : string) : Prop :=
  exists r, r ∈ a /\ kind r = k /\ names_permit permit (facts r).

Record sys_inv (y : System) : Prop := {
  inv_world : durable_reachable (world y);
  inv_once : NoDup (admitted y);
  inv_tokens : map token_id (admissions y) ++ dispatched y ⊆+ admitted y;
  inv_admissions : Forall (fun t => permit_ok (permit (admitted_permit t))) (admissions y);
  inv_flights : Forall (fun f => context_ok (flight_context f)) (flights y);
  inv_completions :
    Forall (fun c => context_ok (completed_context c) /\ digest_ok (receipt_digest c)) (completions y);
  inv_admitted : Forall (proved (acked (world y)) StepIntentRecorded) (admitted y);
  inv_dispatched : Forall (proved (acked (world y)) ExternalDispatchStarted) (dispatched y)
}.

Lemma proved_mono a a' k l :
  a `prefix_of` a' -> Forall (proved a k) l -> Forall (proved a' k) l.
Proof.
  intros [x ->] H. eapply Forall_impl; [exact H|]. intros p (r & Hr & Hk & Hn).
  exists r. split_and!; try done. apply elem_of_app. by left.
Qed.

Lemma proves_proved k permit s : proves k permit s -> proved (acknowledged s) k permit.
Proof. intros (fs & Hn & r & Hr & Hk & <-). by exists r. Qed.

Lemma durable_step_acked w w' : durable_step w w' -> acked w `prefix_of` acked w'.
Proof. destruct 1; cbn [acked]; try done. by eexists. Qed.

Lemma reachable_kept d a r : durable_reachable (Running d a) -> r ∈ a -> kept (records (journal d)) r.
Proof.
  intros (bs & t & m & Hsafe & _)%reachable_inv Hr. apply safe_acked in Hsafe.
  rewrite Forall_forall in Hsafe. auto.
Qed.

(** A proved record is still in the ledger of whatever journal is open. *)
Lemma proved_rank d a k permit :
  durable_reachable (Running d a) -> proved a k permit ->
  (kind_rank k <= rank (disposition (from_journal (journal d)) permit))%nat.
Proof.
  intros Hr (r & Hin & <- & Hn). apply kept_rank; [|done]. by eapply reachable_kept.
Qed.

Lemma admit_Ok_unseen p secret intent io1 io2 s s' t :
  admit_step p secret intent io1 io2 s = (s', Ok t) ->
  disposition (from_journal (journal (handle s))) (as_str (permit_id p)) = Unseen.
Proof. unfold admit_step. by destruct (disposition _ _). Qed.

Lemma admit_inv s ad fl co h1 h2 p secret intent io1 io2 s' r :
  sys_inv (mkSystem (session_world s) ad fl co h1 h2) ->
  permit_ok p -> u64 (now_epoch_ms intent) -> has_room s ->
  admit_step p secret intent io1 io2 s = (s', r) ->
  sys_inv (mkSystem (session_world s') (ad ++ on_ok r (fun t => t)) fl co
             (h1 ++ on_ok r (fun _ => as_str (permit_id p))) h2).
Proof.
  intros [Hw Ho Ht Had Hfl Hco Hadm Hdis] Hp Hnow Hroom Hrun. cbn in *.
  destruct (admit_triple p secret intent io1 io2 Hp Hnow s s' r Hrun Hw Hroom) as (Hw' & Hpre & _ & HQ).
  destruct r as [t|e]; cbn [on_ok]; [|rewrite !app_nil_r; split; try done; by eapply proved_mono].
  destruct (HQ t eq_refl) as [Hpt Hproves]. apply proves_proved in Hproves.
  split; cbn; try done.
  - apply NoDup_app. split_and!; [done| |apply NoDup_singleton].
    intros x Hx ->%list_elem_of_singleton. rewrite Forall_forall in Hadm.
    pose proof (proved_rank _ _ _ _ Hw (Hadm _ Hx)) as Hrank.
    rewrite (admit_Ok_unseen _ _ _ _ _ _ _ _ Hrun) in Hrank. cbn in Hrank. lia.
  - rewrite map_app. cbn [map]. unfold token_id at 2. rewrite Hpt.
    rewrite <- app_assoc, (Permutation_app_comm [_] h2), app_assoc.
    by apply submseteq_app.
  - apply Forall_app. split; [done|]. constructor; [by rewrite Hpt|constructor].
  - apply Forall_app. split; [by eapply proved_mono|]. by constructor.
  - by eapply proved_mono.
Qed.

Lemma begin_inv s ad1 t ad2 fl co h1 h2 now extra io1 io2 s' r :
  sys_inv (mkSystem (session_world s) (ad1 ++ t :: ad2) fl co h1 h2) ->
  u64 now -> extra_ok extra -> has_room s ->
  begin_dispatch_with_facts t now extra io1 io2 s = (s', r) ->
  sys_inv (mkSystem (session_world s') (ad1 ++ ad2) (fl ++ on_ok r (fun f => f)) co h1
             (h2 ++ on_ok r (fun _ => token_id t))).
Proof.
  intros [Hw Ho Ht Had Hfl Hco Hadm Hdis] Hnow Hex Hroom Hrun. cbn in *.
  apply Forall_app in Had as [Had1 [Hpt Had2]%Forall_cons].
  destruct (begin_triple t now extra io1 io2 Hpt Hnow Hex s s' r Hrun Hw Hroom) as (Hw' & Hpre & _ & HQ).
  assert (map token_id (ad1 ++ ad2) ++ h2 ++ [token_id t] ≡ₚ map token_id (ad1 ++ t :: ad2) ++ h2) as Hperm.
  { rewrite !map_app. cbn [map]. solve_Permutation. }
  destruct r as [f|e]; cbn [on_ok].
  - destruct (HQ f eq_refl) as [Hf Hproves]. apply proves_proved in Hproves.
    split; cbn; try done.
    + by rewrite Hperm.
    + by apply Forall_app.
    + apply Forall_app. split; [done|]. constructor; [|constructor]. rewrite Hf. by apply from_permit_ok.
    + by eapply proved_mono.
    + apply Forall_app. split; [by eapply proved_mono|]. by constructor.
  - rewrite !app_nil_r. split; cbn; try done.
    + etrans; [|exact Ht]. rewrite <- Hperm, app_assoc. apply submseteq_inserts_r. done.
    + by apply Forall_app.
    + by eapply proved_mono.
    + by eapply proved_mono.
Qed.

(** The other operations only add to the journal and hand tokens on. *)
Lemma advance_inv w w' ad ad' fl fl' co co' h1 h2 :
  sys_inv (mkSystem w ad fl co h1 h2) ->
  durable_reachable w' -> acked w `prefix_of` acked w' -> ad' = ad \/ ad' = [] ->
  Forall (fun f => context_ok (flight_context f)) fl' ->
  Forall (fun c => context_ok (completed_context c) /\ digest_ok (receipt_digest c)) co' ->
  sys_inv (mkSystem w' ad' fl' co' h1 h2).
Proof.
  intros [Hw Ho Ht Had Hfl Hco Hadm Hdis] Hw' Hpre Had' Hfl' Hco'. cbn in *.
  split; cbn; try done; try (by eapply proved_mono); destruct Had' as [-> | ->]; try done.
  etrans; [|exact Ht]. by apply submseteq_inserts_l.
Qed.

Lemma sys_step_inv y y' : sys_inv y -> sys_step y y' -> sys_inv y'.
Proof.
  intros Hinv Hstep. destruct Hstep as
    [s ad fl co h1 h2 p secret intent io1 io2 s' r Hp Hnow Hroom Hrun
    |s ad1 t ad2 fl co h1 h2 now extra io1 io2 s' r Hnow Hex Hroom Hrun
    |s ad fl1 f fl2 co h1 h2 now extra io s' r Hnow Hex Hroom Hrun
    |s ad fl1 f fl2 co h1 h2 receipt extra now io1 io2 s' r Hnow Hex Hd Hroom Hrun
    |s ad fl co1 c co2 h1 h2 now io s' r Hnow Hroom Hrun
    |w w' ad fl co h1 h2 Hstep].
  - by eapply admit_inv.
  - by eapply begin_inv.
  - pose proof Hinv as [Hw _ _ _ Hfl Hco _ _]. cbn in *.
    pose proof Hfl as [_ [Hf _]%Forall_cons]%Forall_app.
    destruct (evidence_triple f now extra io Hf Hnow Hex s s' r Hrun Hw) as (Hw' & Hpre & _);
      [unfold has_room in Hroom; lia|]. eapply advance_inv; eauto.
  - pose proof Hinv as [Hw _ _ _ Hfl Hco _ _]. cbn in *.
    apply Forall_app in Hfl as [Hfl1 [Hf Hfl2]%Forall_cons].
    destruct (receipt_triple f receipt extra now io1 io2 Hf Hd Hnow Hex s s' r Hrun Hw Hroom)
      as (Hw' & Hpre & _ & HQ).
    eapply advance_inv; [exact Hinv|done|done|by left|by apply Forall_app|].
    destruct r as [c|e]; cbn [on_ok]; [|by rewrite app_nil_r].
    destruct (HQ c eq_refl) as (Hc & Hrd & _). apply Forall_app. split; [done|].
    constructor; [|constructor]. by rewrite Hc, Hrd.
  - pose proof Hinv as [Hw _ _ _ Hfl Hco _ _]. cbn in *.
    apply Forall_app in Hco as [Hco1 [[Hc Hcd] Hco2]%Forall_cons].
    destruct (checkpoint_triple c now io Hc Hcd Hnow s s' r Hrun Hw) as (Hw' & Hpre & _);
      [unfold has_room in Hroom; lia|].
    eapply advance_inv; [exact Hinv|done|done|by left|done|by apply Forall_app].
  - pose proof Hinv as [Hw _ _ _ Hfl Hco _ _]. cbn in *.
    eapply advance_inv; [exact Hinv|by eapply reach_step|by apply durable_step_acked| | |];
      destruct w, w'; cbn; auto.
Qed.

Lemma sys_reachable_inv y : sys_reachable y -> sys_inv y.
Proof.
  induction 1 as [|y y' _ IH Hstep]; [|by eapply sys_step_inv].
  split; cbn; try constructor.
Qed.

(** ** Properties *)

(** C1. A permit reaches the device at most once: in any history of admissions,
    dispatches, receipts, failed and short writes, crashes and restarts, no
    permit is dispatched twice, and the journal of whatever daemon is running
    still shows every dispatched permit as at least consuming. *)
Theorem permit_dispatched_at_most_once y :
  sys_reachable y ->
  NoDup (dispatched y) /\
  forall d a permit, world y = Running d a -> permit ∈ dispatched y ->
    (3 <= rank (disposition (from_journal (journal d)) permit))%nat.
Proof.
  intros [Hw Ho Ht _ _ _ _ Hdis]%sys_reachable_inv. split.
  - apply submseteq_Permutation in Ht as [k Hk]. rewrite Hk in Ho.
    apply NoDup_app in Ho as (Ho & _ & _). by apply NoDup_app in Ho as (_ & _ & ?).
  - intros d a permit Hrun Hin. rewrite Hrun in *. rewrite Forall_forall in Hdis.
    by apply (proved_rank d a ExternalDispatchStarted permit Hw (Hdis _ Hin)).
Qed.

(** A permit that was ever admitted is refused, in this process or after any
    restart: admitting it again fails, appends nothing and hands out no token,
    whoever signed it and whatever the clock says. *)
Theorem admitted_permit_is_refused y d a p secret intent io1 io2 :
  sys_reachable y -> world y = Running d a -> as_str (permit_id p) ∈ admitted y ->
  exists e, admit_step p secret intent io1 io2 (mkSession d a) = (mkSession d a, Err e).
Proof.
  intros [Hw _ _ _ _ _ Hadm _]%sys_reachable_inv Hrun Hin. rewrite Hrun in *.
  rewrite Forall_forall in Hadm. pose proof (proved_rank d a _ _ Hw (Hadm _ Hin)) as Hrank.
  unfold admit_step. cbn [handle]. destruct (disposition _ _); eauto. cbn in Hrank. lia.
Qed.

(** Each successful append adds its record. *)
Lemma append_step_Ok io k at_ms revision subj fs s s' h :
  append_step io k at_ms revision subj fs s = (s', Ok h) ->
  exists record, session_records s' = session_records s ++ [record] /\
    kind record = k /\ facts record = fs.
Proof.
  unfold append_step. destruct (durable_append _ _ _ _ _ _ _ _) as [d r] eqn:E. intros [= <- Hr].
  destruct r as [h'|]; [|done]. by apply append_ok_record in E.
Qed.

(** Inversion of a successful [let!]. *)
Lemma bind_Ok {A B} (m : M A) (f : A -> M B) s s' b :
  bind m f s = (s', Ok b) -> exists a s1, m s = (s1, Ok a) /\ f a s1 = (s', Ok b).
Proof. unfold bind. destruct (m s) as [s1 [a|e]]; [eauto|done]. Qed.

Lemma lift_Ok {A} (x : result StepError A) s s' a : lift x s = (s', Ok a) -> x = Ok a /\ s' = s.
Proof. by intros [= <- ->]. Qed.

Lemma advance_receipt d r h :
  kind r = SemanticReceiptRecorded \/ kind r = PermitConsumed -> receipt_named r = Some h ->
  advance d r = match d with Consumed h' => Consumed h' | _ => Consumed h end.
Proof. intros Hk Hr. unfold advance. by destruct Hk as [-> | ->]; destruct d; rewrite ?Hr. Qed.

Lemma to_hex_nonempty d : digest_ok d -> String.eqb (to_hex d) "" = false.
Proof.
  intros [Hl Hok]. apply String.eqb_neq. intros E.
  apply (f_equal bytes_of_string) in E. unfold to_hex in E. fold (hex_pairs (digest_bytes d)) in E.
  destruct (hex_pairs_ok _ Hok) as [Hb Hlen]. rewrite bytes_of_string_of_bytes in E by done.
  rewrite E, Hl in Hlen. discriminate Hlen.
Qed.

Lemma extend_keeps fs extra fs' key v :
  extend_unique_facts fs extra = Ok fs' -> fact_value fs key = Some v -> fact_value fs' key = Some v.
Proof.
  unfold extend_unique_facts. generalize (map (fun f => as_str f.1) fs). intros seen. revert seen fs.
  induction extra as [|[n w] extra IH]; intros seen fs; cbn [extend_loop]; [by intros [= <-]|].
  destruct (key_id n) as [i|]; [|done]. case_bool_decide; [done|]. intros H1 Hv. eapply IH; [exact H1|].
  by apply fact_value_app.
Qed.

Lemma receipt_facts_eq c d fs :
  facts_with_receipt c d = Ok fs ->
  fact_value fs PERMIT_ID = Some (c_permit_id c) /\ fact_value fs RECEIPT_DIGEST = Some (to_hex d).
Proof. unfold facts_with_receipt. rewrite context_facts_eq. intros [= <-]. split; reflexivity. Qed.

(** A recorded receipt settles the permit: once [record_receipt] returns, the
    ledger shows the permit consumed under that receipt's digest, unless an
    earlier receipt had settled it, which then stands. *)
Theorem receipt_settles_permit flight receipt extra now io1 io2 s s' c :
  digest_ok receipt ->
  record_receipt_with_facts flight receipt extra now io1 io2 s = (s', Ok c) ->
  let permit := c_permit_id (flight_context flight) in
  disposition (from_journal (journal (handle s'))) permit =
    match disposition (from_journal (journal (handle s))) permit with
    | Consumed earlier => Consumed earlier
    | _ => Consumed (to_hex receipt)
    end.
Proof.
  intros Hd H permit. unfold record_receipt_with_facts in H.
  apply bind_Ok in H as (fs & s1 & [Hfs ->]%lift_Ok & H).
  apply bind_Ok in H as (fs' & s1 & [Hfs' ->]%lift_Ok & H).
  apply bind_Ok in H as (subj & s1 & [_ ->]%lift_Ok & H).
  apply bind_Ok in H as (rd & s1 & Happ1 & H).
  apply bind_Ok in H as (subj' & s2 & [_ ->]%lift_Ok & H).
  apply bind_Ok in H as (fs2 & s2 & [Hfs2 ->]%lift_Ok & H).
  apply bind_Ok in H as (x & s2 & Happ2 & H). injection H as <- _.
  assert (fs2 = fs) as -> by congruence. apply receipt_facts_eq in Hfs as [Hp Hr].
  pose proof (extend_keeps _ _ _ _ _ Hfs' Hp) as Hp'. pose proof (extend_keeps _ _ _ _ _ Hfs' Hr) as Hr'.
  apply append_step_Ok in Happ1 as (r1 & E1 & K1 & F1), Happ2 as (r2 & E2 & K2 & F2).
  assert (receipt_named r1 = Some (to_hex receipt)) as N1
    by (unfold receipt_named; rewrite F1, Hr', to_hex_nonempty; done).
  assert (receipt_named r2 = Some (to_hex receipt)) as N2
    by (unfold receipt_named; rewrite F2, Hr, to_hex_nonempty; done).
  unfold from_journal. fold (session_records s2) (session_records s).
  rewrite E2, E1, !disposition_app. cbn [List.filter]. unfold about. rewrite F1, F2, Hp, Hp'.
  rewrite !bool_decide_eq_true_2 by done. cbn [fold_left].
  rewrite (advance_receipt _ r1 _ (or_introl K1) N1), (advance_receipt _ r2 _ (or_intror K2) N2).
  by destruct (disposition _ _).
Qed.

(** ** Samples for the witnesses *)

Definition good_io : Io := mkIo (Wrote 4096) true.

Definition session0 : Session := mkSession fresh_durable [].

Definition run_m {A} (m : M A) (s : Session) (default : A) : Session * A :=
  let '(s', r) := m s in (s', match r with Ok a => a | Err _ => default end).

Definition no_token : AdmittedStep := mkAdmitted (mkVerified sample_permit) CHAIN_ORIGIN.

Definition sample_admission : Session * AdmittedStep :=
  Eval vm_compute in
    run_m (admit_step sample_permit sample_secret sample_intent good_io good_io) session0 no_token.

Definition no_flight : DispatchInFlight :=
  mkInFlight (from_permit (mkVerified sample_permit)) CHAIN_ORIGIN CHAIN_ORIGIN.

Definition sample_dispatch : Session * DispatchInFlight :=
  Eval vm_compute in
    run_m (begin_dispatch sample_admission.2 3000 good_io good_io) sample_admission.1 no_flight.

(** The daemon crashes in mid-dispatch and comes back. *)
Definition crashed_file : File :=
  mkFile (take 4096 (content (file (handle sample_dispatch.1)))) 0
    (stable (file (handle sample_dispatch.1))).

Definition opened
    (o : option (File * result DurableJournalError (DurableJournal * RecoveryReport))) :
    DurableJournal :=
  match o with Some (_, Ok (d, _)) => d | _ => fresh_durable end.

Definition restarted : DurableJournal := Eval vm_compute in opened (open (Some crashed_file) io_ok).

Definition sample_system : System :=
  mkSystem (Running restarted (acknowledged sample_dispatch.1)) [] [] [] ["PERMIT-1"%string]
    ["PERMIT-1"%string].

Lemma sample_system_reachable : sys_reachable sample_system.
Proof.
  assert (sys_reachable (mkSystem (session_world sample_admission.1) [sample_admission.2] [] []
    ["PERMIT-1"%string] [])) as H1.
  { eapply sys_next; [exact sys_start|].
    eapply (sys_admit session0 [] [] [] [] [] sample_permit sample_secret sample_intent good_io good_io
      sample_admission.1 (Ok sample_admission.2)); [by apply permit_with_ok|cbn; zlia|vm_compute; congruence|].
    vm_compute. reflexivity. }
  assert (sys_reachable (mkSystem (session_world sample_dispatch.1) [] [sample_dispatch.2] []
    ["PERMIT-1"%string] ["PERMIT-1"%string])) as H2.
  { eapply sys_next; [exact H1|].
    eapply (sys_begin sample_admission.1 [] sample_admission.2 [] [] [] ["PERMIT-1"%string] [] 3000 []
      good_io good_io sample_dispatch.1 (Ok sample_dispatch.2)); [zlia|by split; [constructor|]|vm_compute; congruence|].
    vm_compute. reflexivity. }
  assert (sys_reachable (mkSystem (Down crashed_file (acknowledged sample_dispatch.1)) [] [] []
    ["PERMIT-1"%string] ["PERMIT-1"%string])) as H3.
  { eapply sys_next; [exact H2|].
    apply (sys_journal (session_world sample_dispatch.1) (Down crashed_file _)).
    apply (step_crash (session_world sample_dispatch.1) 4096). vm_compute. congruence. }
  eapply sys_next; [exact H3|].
  apply (sys_journal (Down crashed_file _) (Running restarted _) [] [] []).
  eapply (step_open _ _ io_ok _ _ _). vm_compute. reflexivity.
Qed.

Lemma permit_dispatched_at_most_once_witness :
  (3 <= rank (disposition (from_journal (journal restarted)) "PERMIT-1"))%nat.
Proof.
  apply (proj2 (permit_dispatched_at_most_once sample_system sample_system_reachable) restarted
    (acknowledged sample_dispatch.1)); [reflexivity|left].
Defined.

Lemma admitted_permit_is_refused_witness :
  exists e, admit_step sample_permit sample_secret sample_intent good_io good_io
    (mkSession restarted (acknowledged sample_dispatch.1)) =
    (mkSession restarted (acknowledged sample_dispatch.1), Err e).
Proof.
  apply (admitted_permit_is_refused sample_system restarted (acknowledged sample_dispatch.1));
    [exact sample_system_reachable|reflexivity|left].
Defined.

Definition sample_receipt : Sha256Digest := mkDigest (replicate 32 9).

Definition no_completion : CompletedStep :=
  mkCompleted (from_permit (mkVerified sample_permit)) CHAIN_ORIGIN CHAIN_ORIGIN.

Definition sample_settled : Session * CompletedStep :=
  Eval vm_compute in
    run_m (record_receipt sample_dispatch.2 sample_receipt 4000 good_io good_io) sample_dispatch.1
      no_completion.

Lemma receipt_settles_permit_witness :
  disposition (from_journal (journal (handle sample_settled.1))) "PERMIT-1" =
    Consumed (to_hex sample_receipt).
Proof.
  refine (eq_trans (receipt_settles_permit sample_dispatch.2 sample_receipt [] 4000 good_io good_io
    sample_dispatch.1 sample_settled.1 sample_settled.2 _ _) _).
  - apply digest_ok_dec. reflexivity.
  - vm_compute. reflexivity.
  - vm_compute. reflexivity.
Defined.
