(* ===== verification/Effect.v ===== *)
(** * Declared effects (crates/arkforge-core/src/effect.rs)

    Byte ranges, persistent and transient effects, data impact, effect sets with
    [validate_executable], their canonical encodings, and the digest that binds
    an effect set. *)

From S2P Require Import Prelude Cbor Sha256 Digest Fields.

(** ** Data *)

Record ByteRange := mkRange { start : Z; length : Z }.

#[global] Instance ByteRange_eq_dec : EqDecision ByteRange.
Proof. solve_decision. Defined.

Inductive BootMetadataField : Type := ActiveSlot | BootCount | UpdaterCommand | LockState.

#[global] Instance BootMetadataField_eq_dec : EqDecision BootMetadataField.
Proof. solve_decision. Defined.

Inductive TypedValue : Type :=
| TypedText (value : string)
| TypedInteger (value : Z)
| TypedBool (value : bool).

#[global] Instance TypedValue_eq_dec : EqDecision TypedValue.
Proof. solve_decision. Defined.

Record DeviceMode := mkMode { mode_str : string }.

#[global] Instance DeviceMode_eq_dec : EqDecision DeviceMode.
Proof. solve_decision. Defined.

Record AgentStage := mkStage { stage_str : string }.

#[global] Instance AgentStage_eq_dec : EqDecision AgentStage.
Proof. solve_decision. Defined.

Record MemoryRegion := mkRegion { base_address : Z; region_length : Z }.

#[global] Instance MemoryRegion_eq_dec : EqDecision MemoryRegion.
Proof. solve_decision. Defined.

Inductive PersistentEffect : Type :=
| ErasePartition (partition : OpaqueId) (range : ByteRange)
| WritePartition (partition : OpaqueId) (range : ByteRange) (content : Sha256Digest)
| WriteRawRegion (region : OpaqueId) (range : ByteRange) (content : Sha256Digest)
| ReplacePartitionTable (layout_digest : Sha256Digest)
| ChangeBootMetadata (field : BootMetadataField) (expected_value : TypedValue).

#[global] Instance PersistentEffect_eq_dec : EqDecision PersistentEffect.
Proof. solve_decision. Defined.

Inductive TransientEffect : Type :=
| EnterMode (from to : DeviceMode)
| LoadEphemeralAgent (stage : AgentStage) (memory_region : MemoryRegion) (content : Sha256Digest)
| UsbDetachReattach (expectation_digest : Sha256Digest)
| Reboot (target_mode : DeviceMode).

#[global] Instance TransientEffect_eq_dec : EqDecision TransientEffect.
Proof. solve_decision. Defined.

Inductive DataImpactState : Type := Preserved | Overwritten | UnknownImpact.

#[global] Instance DataImpactState_eq_dec : EqDecision DataImpactState.
Proof. solve_decision. Defined.

Record DataImpact := mkImpact {
  userdata : DataImpactState;
  calibration : DataImpactState;
  non_volatile_config : DataImpactState;
  secure_storage : DataImpactState
}.

#[global] Instance DataImpact_eq_dec : EqDecision DataImpact.
Proof. solve_decision. Defined.

Record EffectSet := mkEffectSet {
  persistent : list PersistentEffect;
  transient : list TransientEffect;
  data_impact : DataImpact
}.

#[global] Instance EffectSet_eq_dec : EqDecision EffectSet.
Proof. solve_decision. Defined.

Inductive EffectError : Type :=
| EmptyRange
| RangeOverflow (start length : Z)
| InvalidModeName (name : string)
| InvalidAgentStage (name : string)
| UnknownDataImpact (axes : list string)
| OverlappingEffects (partition : string) (first second : ByteRange).

(** ** Byte ranges *)

Definition ByteRange_new (s l : Z) : result EffectError ByteRange :=
  if l =? 0 then Err EmptyRange
  else let? _ := ok_or (checked_add s l) (RangeOverflow s l) in Ok (mkRange s l).

(** [start + length] in [u64], which fits for every range [new] made ([range_ok]); for a
    range written as a literal that does not fit, the checked addition of the release
    profile aborts, and the sum on [Z] stands for no result of the code. *)
Definition end_exclusive (r : ByteRange) : Z := start r + length r.

Definition contains_range (r other : ByteRange) : bool :=
  (start r <=? start other) && (end_exclusive other <=? end_exclusive r).

Definition overlaps (r other : ByteRange) : bool :=
  (start r <? end_exclusive other) && (start other <? end_exclusive r).

(** ** Names *)

Definition boot_field_as_str (f : BootMetadataField) : string :=
  match f with
  | ActiveSlot => "activeSlot"
  | BootCount => "bootCount"
  | UpdaterCommand => "updaterCommand"
  | LockState => "lockState"
  end.

Definition mode_char (b : Z) : bool := in_range 97 122 b || in_range 48 57 b || (b =? 45).

Definition DeviceMode_new (value : string) : result EffectError DeviceMode :=
  if (str_len value =? 0) || (64 <? str_len value) then Err (InvalidModeName value)
  else if negb (forallb mode_char (bytes_of_string value)) then Err (InvalidModeName value)
  else Ok (mkMode value).

Definition AgentStage_new (value : string) : result EffectError AgentStage :=
  if (str_len value =? 0) || (64 <? str_len value) then Err (InvalidAgentStage value)
  else Ok (mkStage value).

Definition impact_as_str (s : DataImpactState) : string :=
  match s with
  | Preserved => "preserved"
  | Overwritten => "overwritten"
  | UnknownImpact => "unknown"
  end.

(** ** Effects *)

Definition effect_partition (e : PersistentEffect) : option OpaqueId :=
  match e with
  | ErasePartition partition _ | WritePartition partition _ _ => Some partition
  | _ => None
  end.

Definition effect_range (e : PersistentEffect) : option ByteRange :=
  match e with
  | ErasePartition _ range | WritePartition _ range _ | WriteRawRegion _ range _ => Some range
  | _ => None
  end.

Definition all_unknown : DataImpact :=
  mkImpact UnknownImpact UnknownImpact UnknownImpact UnknownImpact.

Definition is_unknown (s : DataImpactState) : bool :=
  match s with UnknownImpact => true | _ => false end.

Definition unknown_axes (d : DataImpact) : list string :=
  (if is_unknown (userdata d) then ["userdata"%string] else []) ++
  (if is_unknown (calibration d) then ["calibration"%string] else []) ++
  (if is_unknown (non_volatile_config d) then ["nonVolatileConfig"%string] else []) ++
  (if is_unknown (secure_storage d) then ["secureStorage"%string] else []).

Definition read_only : EffectSet :=
  mkEffectSet [] [] (mkImpact Preserved Preserved Preserved Preserved).

Definition is_destructive (s : EffectSet) : bool := negb (Nat.eqb (List.length (persistent s)) 0).

(** The body of the inner loop, for one pair. *)
Definition conflict (one other : PersistentEffect) : option EffectError :=
  match effect_partition one, effect_partition other with
  | Some left_partition, Some right_partition =>
      if negb (bool_decide (left_partition = right_partition)) then None
      else
        match effect_range one, effect_range other with
        | Some left_range, Some right_range =>
            if overlaps left_range right_range
            then Some (OverlappingEffects (as_str left_partition) left_range right_range)
            else None
        | _, _ => None
        end
  | _, _ => None
  end.

(** The inner loop. *)
Fixpoint check_against (one : PersistentEffect) (others : list PersistentEffect) :
    result EffectError unit :=
  match others with
  | [] => Ok tt
  | other :: others =>
      match conflict one other with
      | Some e => Err e
      | None => check_against one others
      end
  end.

(** The outer loop. *)
Fixpoint check_pairs (es : list PersistentEffect) : result EffectError unit :=
  match es with
  | [] => Ok tt
  | one :: others => let? _ := check_against one others in check_pairs others
  end.

Definition validate_executable (s : EffectSet) : result EffectError unit :=
  let unknown := unknown_axes (data_impact s) in
  if negb (Nat.eqb (List.length unknown) 0) then Err (UnknownDataImpact unknown)
  else check_pairs (persistent s).

(** ** Encodings *)

#[global] Instance range_cbor : CanonicalCbor ByteRange := fun r =>
  map_of [("start", Unsigned (start r)); ("length", Unsigned (length r))]%string.

#[global] Instance typed_cbor : CanonicalCbor TypedValue := fun v =>
  match v with
  | TypedText value => map_of [("text", Text value)]%string
  | TypedInteger value => map_of [("integer", integer value)]%string
  | TypedBool value => map_of [("bool", Bool value)]%string
  end.

#[global] Instance mode_cbor : CanonicalCbor DeviceMode := fun m => Text (mode_str m).

#[global] Instance stage_cbor : CanonicalCbor AgentStage := fun s => Text (stage_str s).

#[global] Instance region_cbor : CanonicalCbor MemoryRegion := fun r =>
  map_of [("baseAddress", Unsigned (base_address r)); ("length", Unsigned (region_length r))]%string.

#[global] Instance persistent_cbor : CanonicalCbor PersistentEffect := fun e =>
  map_of
    (match e with
     | ErasePartition partition range =>
         [("kind", Text "erasePartition"); ("partition", to_cbor partition);
          ("range", to_cbor range)]
     | WritePartition partition range content =>
         [("kind", Text "writePartition"); ("partition", to_cbor partition);
          ("range", to_cbor range); ("content", to_cbor content)]
     | WriteRawRegion region range content =>
         [("kind", Text "writeRawRegion"); ("region", to_cbor region);
          ("range", to_cbor range); ("content", to_cbor content)]
     | ReplacePartitionTable layout_digest =>
         [("kind", Text "replacePartitionTable"); ("layoutDigest", to_cbor layout_digest)]
     | ChangeBootMetadata field expected_value =>
         [("kind", Text "changeBootMetadata"); ("field", Text (boot_field_as_str field));
          ("expectedValue", to_cbor expected_value)]
     end)%string.

#[global] Instance transient_cbor : CanonicalCbor TransientEffect := fun e =>
  map_of
    (match e with
     | EnterMode from to => [("kind", Text "enterMode"); ("from", to_cbor from); ("to", to_cbor to)]
     | LoadEphemeralAgent stage memory_region content =>
         [("kind", Text "loadEphemeralAgent"); ("stage", to_cbor stage);
          ("memoryRegion", to_cbor memory_region); ("content", to_cbor content)]
     | UsbDetachReattach expectation_digest =>
         [("kind", Text "usbDetachReattach"); ("expectationDigest", to_cbor expectation_digest)]
     | Reboot target_mode => [("kind", Text "reboot"); ("targetMode", to_cbor target_mode)]
     end)%string.

#[global] Instance impact_cbor : CanonicalCbor DataImpact := fun d =>
  map_of [("userdata", Text (impact_as_str (userdata d)));
          ("calibration", Text (impact_as_str (calibration d)));
          ("nonVolatileConfig", Text (impact_as_str (non_volatile_config d)));
          ("secureStorage", Text (impact_as_str (secure_storage d)))]%string.

#[global] Instance effect_set_cbor : CanonicalCbor EffectSet := fun s =>
  map_of [("persistent", Array (map to_cbor (persistent s)));
          ("transient", Array (map to_cbor (transient s)));
          ("dataImpact", to_cbor (data_impact s))]%string.

Definition effect_set_digest (s : EffectSet) : result CborError Sha256Digest :=
  digest_canonical DEffectSet s.

(** ** Ranges as sets of addresses *)

(** What [ByteRange::new] guarantees. *)
Definition range_ok (r : ByteRange) : Prop :=
  u64 (start r) /\ 0 < length r /\ start r + length r <= U64_MAX.

Definition covers (r : ByteRange) (address : Z) : Prop := start r <= address < start r + length r.

Lemma range_new_Ok s l r :
  u64 s -> u64 l -> ByteRange_new s l = Ok r <-> r = mkRange s l /\ range_ok r.
Proof.
  intros Hs Hl. unfold ByteRange_new, range_ok, checked_add.
  destruct (Z.eqb_spec l 0); [split; [done|]; intros [-> (_ & ? & _)]; cbn in *; lia|].
  destruct (Z.leb_spec (s + l) U64_MAX); cbn [ok_or].
  - split; [|by intros [-> _]]. intros [= <-]. cbn. split_and!; try done; zlia.
  - split; [done|]. intros [-> (_ & _ & ?)]. cbn in *. lia.
Qed.

(** Byte ranges made by [new] behave as the address sets they describe:
    [contains_range] is inclusion and [overlaps] is a shared address. *)
Theorem byte_range_semantics s l s' l' r r' :
  u64 s -> u64 l -> u64 s' -> u64 l' -> ByteRange_new s l = Ok r -> ByteRange_new s' l' = Ok r' ->
  (contains_range r r' = true <-> forall a, covers r' a -> covers r a) /\
  (overlaps r r' = true <-> exists a, covers r a /\ covers r' a).
Proof.
  intros Hs Hl Hs' Hl' [-> Hr]%range_new_Ok [-> Hr']%range_new_Ok; [|done..].
  unfold contains_range, overlaps. unfold end_exclusive, covers. cbn in *.
  destruct Hr as (_ & ? & _), Hr' as (_ & ? & _). cbn in *.
  rewrite !andb_true_iff, !Z.leb_le, !Z.ltb_lt. split; split.
  - intros. lia.
  - intros Hin. pose proof (Hin s' ltac:(lia)). pose proof (Hin (s' + l' - 1) ltac:(lia)). lia.
  - intros. exists (Z.max s s'). lia.
  - intros (a & ? & ?). lia.
Qed.

(** ** Executable effect sets *)

(** Two effects on one partition share an address. *)
Definition clash (e f : PersistentEffect) : Prop :=
  exists partition r r', effect_partition e = Some partition /\ effect_partition f = Some partition /\
    effect_range e = Some r /\ effect_range f = Some r' /\ overlaps r r' = true.

Lemma conflict_clash e f : conflict e f = None <-> ~ clash e f.
Proof.
  unfold conflict, clash. split.
  - intros H (p & r & r' & Ep & Fp & Er & Fr & Ho). rewrite Ep, Fp, Er, Fr, Ho in H.
    by rewrite bool_decide_eq_true_2 in H.
  - intros Hn. destruct (effect_partition e) as [p|], (effect_partition f) as [q|]; try done.
    case_bool_decide; [subst q|done]. cbn [negb].
    destruct (effect_range e) as [r|], (effect_range f) as [r'|]; try done.
    destruct (overlaps r r') eqn:E; [|done]. destruct Hn. by exists p, r, r'.
Qed.

Lemma check_against_Ok e fs : check_against e fs = Ok tt <-> Forall (fun f => ~ clash e f) fs.
Proof.
  induction fs as [|f fs IH]; cbn [check_against]; [by split|].
  rewrite Forall_cons, <- IH, <- conflict_clash. destruct (conflict e f); split; try done.
  - by intros [? _].
  - by intros [_ ?].
Qed.

Lemma check_pairs_Ok es : check_pairs es = Ok tt <-> ForallOrdPairs (fun e f => ~ clash e f) es.
Proof.
  induction es as [|e es IH]; cbn [check_pairs]; [split; [constructor|done]|].
  destruct (check_against e es) as [[]|] eqn:E.
  - rewrite IH. apply check_against_Ok in E. split; [by constructor|by inversion 1].
  - split; [done|]. inversion 1 as [|? ? Hall]; subst. apply check_against_Ok in Hall. congruence.
Qed.

(** An effect set is executable exactly when every data-impact axis is settled
    and no two of its partition effects touch the same bytes; the error names
    the unknown axes first. *)
Theorem validate_executable_iff s :
  (validate_executable s = Ok tt <->
    userdata (data_impact s) <> UnknownImpact /\ calibration (data_impact s) <> UnknownImpact /\
    non_volatile_config (data_impact s) <> UnknownImpact /\
    secure_storage (data_impact s) <> UnknownImpact /\
    ForallOrdPairs (fun e f => ~ clash e f) (persistent s)) /\
  (forall axes, validate_executable s = Err (UnknownDataImpact axes) <->
    axes = unknown_axes (data_impact s) /\ axes <> []).
Proof.
  unfold validate_executable. rewrite <- check_pairs_Ok.
  assert (forall axes, check_pairs (persistent s) <> Err (UnknownDataImpact axes)) as Hother.
  { intros axes. induction (persistent s) as [|e es IH]; cbn [check_pairs]; [done|].
    enough (check_against e es <> Err (UnknownDataImpact axes)) by by destruct (check_against e es) as [[]|].
    clear. induction es as [|f es IH]; cbn [check_against]; [done|]. unfold conflict.
    by repeat case_match; simplify_eq. }
  destruct (data_impact s) as [[] [] [] []]; cbn; split; try (split; [done|]; tauto);
    try (intros axes; split; [by intros [= <-]|by intros [-> _]]).
  all: try (split; [intros H; split_and!; done|by intros (_ & _ & _ & _ & ?)]).
  all: intros axes; split; [intros H; by apply Hother in H|by intros [-> ?]].
Qed.

(** ** What the encodings identify *)

Lemma integer_inj a b : cbor_eq (integer a) (integer b) -> a = b.
Proof.
  unfold integer. destruct (Z.ltb_spec a 0), (Z.ltb_spec b 0); by inversion 1; subst; lia.
Qed.

Lemma boot_field_inj f g : boot_field_as_str f = boot_field_as_str g -> f = g.
Proof. by destruct f, g. Qed.

Lemma impact_str_inj s t : impact_as_str s = impact_as_str t -> s = t.
Proof. by destruct s, t. Qed.

Lemma range_inj (r q : ByteRange) : cbor_eq (to_cbor r) (to_cbor q) -> r = q.
Proof.
  intros H. same_field H "start" H1. same_field H "length" H2.
  apply cbor_eq_unsigned in H1, H2. destruct r, q. cbn in *. by subst.
Qed.

Lemma region_inj (r q : MemoryRegion) : cbor_eq (to_cbor r) (to_cbor q) -> r = q.
Proof.
  intros H. same_field H "baseAddress" H1. same_field H "length" H2.
  apply cbor_eq_unsigned in H1, H2. destruct r, q. cbn in *. by subst.
Qed.

Lemma mode_inj (m n : DeviceMode) : cbor_eq (to_cbor m) (to_cbor n) -> m = n.
Proof. destruct m, n. intros H%cbor_eq_text. cbn in *. by subst. Qed.

Lemma stage_inj (s t : AgentStage) : cbor_eq (to_cbor s) (to_cbor t) -> s = t.
Proof. destruct s, t. intros H%cbor_eq_text. cbn in *. by subst. Qed.

(** Fields of different names never meet. *)
Ltac no_field H n :=
  let w := fresh "w" in
  destruct (map_of_field _ _ n%string _ H ltac:(apply (bool_decide_unpack _); vm_compute; exact I)
              ltac:(repeat first [left | right])) as (w & ? & _); discriminate.

Lemma typed_inj (v w : TypedValue) : cbor_eq (to_cbor v) (to_cbor w) -> v = w.
Proof.
  intros H. destruct v as [s|n|b], w as [t|m|c];
    try first [no_field H "text" | no_field H "integer" | no_field H "bool"].
  - same_field H "text" H1. by apply cbor_eq_text in H1 as ->.
  - same_field H "integer" H1. by apply integer_inj in H1 as ->.
  - same_field H "bool" H1. by inversion H1.
Qed.

(** Effects of different kinds differ in the "kind" field. *)
Ltac kinds H :=
  let Hk := fresh "Hk" in
  same_field H "kind" Hk; apply cbor_eq_text in Hk; try discriminate Hk; clear Hk.

Lemma persistent_inj (e f : PersistentEffect) : cbor_eq (to_cbor e) (to_cbor f) -> e = f.
Proof.
  intros H. destruct e as [p r|p r c|p r c|l|g v], f as [p' r'|p' r' c'|p' r' c'|l'|g' v'];
    kinds H.
  - same_field H "partition" H1. same_field H "range" H2.
    by apply cbor_eq_id in H1 as ->; apply range_inj in H2 as ->.
  - same_field H "partition" H1. same_field H "range" H2. same_field H "content" H3.
    by apply cbor_eq_id in H1 as ->; apply range_inj in H2 as ->; apply cbor_eq_digest in H3 as ->.
  - same_field H "region" H1. same_field H "range" H2. same_field H "content" H3.
    by apply cbor_eq_id in H1 as ->; apply range_inj in H2 as ->; apply cbor_eq_digest in H3 as ->.
  - same_field H "layoutDigest" H1. by apply cbor_eq_digest in H1 as ->.
  - same_field H "field" H1. same_field H "expectedValue" H2.
    by apply cbor_eq_text, boot_field_inj in H1 as ->; apply typed_inj in H2 as ->.
Qed.

Lemma transient_inj (e f : TransientEffect) : cbor_eq (to_cbor e) (to_cbor f) -> e = f.
Proof.
  intros H. destruct e as [a b|s m c|x|t], f as [a' b'|s' m' c'|x'|t']; kinds H.
  - same_field H "from" H1. same_field H "to" H2. by apply mode_inj in H1 as ->; apply mode_inj in H2 as ->.
  - same_field H "stage" H1. same_field H "memoryRegion" H2. same_field H "content" H3.
    by apply stage_inj in H1 as ->; apply region_inj in H2 as ->; apply cbor_eq_digest in H3 as ->.
  - same_field H "expectationDigest" H1. by apply cbor_eq_digest in H1 as ->.
  - same_field H "targetMode" H1. by apply mode_inj in H1 as ->.
Qed.

Lemma impact_inj (d e : DataImpact) : cbor_eq (to_cbor d) (to_cbor e) -> d = e.
Proof.
  intros H. same_field H "userdata" H1. same_field H "calibration" H2.
  same_field H "nonVolatileConfig" H3. same_field H "secureStorage" H4.
  apply cbor_eq_text, impact_str_inj in H1, H2, H3, H4. destruct d, e. cbn in *. by subst.
Qed.

Lemma array_inj {A} `{CanonicalCbor A} (l k : list A) :
  (forall a b, cbor_eq (to_cbor a) (to_cbor b) -> a = b) ->
  cbor_eq (Array (map to_cbor l)) (Array (map to_cbor k)) -> l = k.
Proof.
  intros Hinj Heq. inversion Heq as [| | | |? ? Hall| | |]; subst. clear Heq. revert k Hall.
  induction l as [|a l IH]; intros [|b k] Hall; inversion Hall; subst; [done|].
  f_equal; [by apply Hinj|auto].
Qed.

Lemma effect_set_inj (s t : EffectSet) : cbor_eq (to_cbor s) (to_cbor t) -> s = t.
Proof.
  intros H. same_field H "persistent" H1. same_field H "transient" H2. same_field H "dataImpact" H3.
  apply (array_inj _ _ persistent_inj) in H1. apply (array_inj _ _ transient_inj) in H2.
  apply impact_inj in H3. destruct s, t. cbn in *. by subst.
Qed.

(** ** Effect sets the constructors build *)

Definition range_typed (r : ByteRange) : Prop := u64 (start r) /\ u64 (length r).

Definition typed_ok (v : TypedValue) : Prop :=
  match v with TypedText s => text_ok s | TypedInteger n => i64 n | TypedBool _ => True end.

Definition region_typed (r : MemoryRegion) : Prop := u64 (base_address r) /\ u64 (region_length r).

Definition persistent_ok (e : PersistentEffect) : Prop :=
  match e with
  | ErasePartition partition range => id_ok partition /\ range_typed range
  | WritePartition partition range content => id_ok partition /\ range_typed range /\ digest_ok content
  | WriteRawRegion region range content => id_ok region /\ range_typed range /\ digest_ok content
  | ReplacePartitionTable layout_digest => digest_ok layout_digest
  | ChangeBootMetadata _ expected_value => typed_ok expected_value
  end.

Definition transient_ok (e : TransientEffect) : Prop :=
  match e with
  | EnterMode from to => text_ok (mode_str from) /\ text_ok (mode_str to)
  | LoadEphemeralAgent stage memory_region content =>
      text_ok (stage_str stage) /\ region_typed memory_region /\ digest_ok content
  | UsbDetachReattach expectation_digest => digest_ok expectation_digest
  | Reboot target_mode => text_ok (mode_str target_mode)
  end.

(** What the Rust types guarantee of an [EffectSet]. *)
Definition effect_set_ok (s : EffectSet) : Prop :=
  u64 (zlen (persistent s)) /\ Forall persistent_ok (persistent s) /\
  u64 (zlen (transient s)) /\ Forall transient_ok (transient s).

Lemma writable_range r : range_typed r -> writable (to_cbor r).
Proof. intros [? ?]. writable_map. Qed.

Lemma writable_region r : region_typed r -> writable (to_cbor r).
Proof. intros [? ?]. writable_map. Qed.

Lemma writable_typed v : typed_ok v -> writable (to_cbor v).
Proof. destruct v; cbn [typed_ok]; intros Hv; writable_map. Qed.

#[local] Hint Resolve writable_range writable_region writable_typed : ark.

Lemma writable_mode m : text_ok (mode_str m) -> writable (to_cbor m).
Proof. apply writable_text. Qed.

Lemma writable_stage s : text_ok (stage_str s) -> writable (to_cbor s).
Proof. apply writable_text. Qed.

#[export] Hint Resolve writable_mode writable_stage : ark.

Lemma writable_persistent e : persistent_ok e -> writable (to_cbor e).
Proof.
  destruct e as [| | | |[] ?]; cbn [persistent_ok]; intros He; destruct_and?; writable_map.
Qed.

Lemma writable_transient e : transient_ok e -> writable (to_cbor e).
Proof. destruct e; cbn [transient_ok]; intros He; destruct_and?; writable_map. Qed.

Lemma writable_impact (d : DataImpact) : writable (to_cbor d).
Proof. destruct d as [[] [] [] []]; writable_map. Qed.

Lemma writable_list {A} `{CanonicalCbor A} (ok : A -> Prop) (l : list A) :
  (forall a, ok a -> writable (to_cbor a)) -> u64 (zlen l) -> Forall ok l ->
  writable (Array (map to_cbor l)).
Proof.
  intros Hw Hl Hall. apply writable_array; [unfold zlen in *; by rewrite length_map|].
  apply Forall_map. eapply Forall_impl; [exact Hall|]. done.
Qed.

Lemma writable_effect_set s : effect_set_ok s -> writable (to_cbor s).
Proof.
  intros (? & ? & ? & ?). writable_map; cbn [snd].
  - by eapply writable_list; [apply writable_persistent|..].
  - by eapply writable_list; [apply writable_transient|..].
  - apply writable_impact.
Qed.

#[global] Instance effect_set_model : CborModel EffectSet effect_set_ok eq.
Proof.
  split; [intros s Hs; by apply writable_effect_set|]. intros s t _ _. apply effect_set_inj.
Qed.

(** The effect-set digest binds the effects: every effect set has one, and two
    sets whose digests agree are the same set, with every range, content digest,
    mode and data-impact axis, unless their encodings are a SHA-256 collision. *)
Theorem effect_set_digest_binds s t :
  effect_set_ok s -> effect_set_ok t ->
  exists bs bt,
    effect_set_digest s = Ok (sha256_spec (as_bytes DEffectSet ++ bs)) /\
    effect_set_digest t = Ok (sha256_spec (as_bytes DEffectSet ++ bt)) /\
    (u64 (zlen bs) -> no_collision (as_bytes DEffectSet ++ bs) (as_bytes DEffectSet ++ bt) ->
     effect_set_digest s = effect_set_digest t -> s = t).
Proof.
  intros Hs Ht. apply (writable_digest_binds DEffectSet s t); [|done..].
  intros u Hu. by apply writable_effect_set.
Qed.

(** ** Instances *)

Definition sample_erase (start length : Z) : PersistentEffect :=
  ErasePartition (mkId "userdata") (mkRange start length).

Definition sample_effects (l : list PersistentEffect) : EffectSet :=
  mkEffectSet l [Reboot (mkMode "normal")] (mkImpact Overwritten Preserved Preserved Preserved).

Lemma sample_effects_ok start length :
  u64 start -> u64 length -> effect_set_ok (sample_effects [sample_erase start length]).
Proof.
  intros Hs Hl. unfold effect_set_ok. cbn [sample_effects persistent transient]. split_and!.
  - vm_compute. split; congruence.
  - apply Forall_singleton. cbn. split; [vm_compute; reflexivity|done].
  - vm_compute. split; congruence.
  - apply Forall_singleton. apply (bool_decide_unpack _). vm_compute. exact I.
Qed.

Lemma byte_range_semantics_witness :
  (contains_range (mkRange 0 10) (mkRange 2 3) = true <->
     forall a, covers (mkRange 2 3) a -> covers (mkRange 0 10) a) /\
  (overlaps (mkRange 0 10) (mkRange 2 3) = true <->
     exists a, covers (mkRange 0 10) a /\ covers (mkRange 2 3) a).
Proof. apply (byte_range_semantics 0 10 2 3); try reflexivity; ints; lia. Defined.

Lemma effect_set_digest_binds_witness :
  exists bs bt,
    effect_set_digest (sample_effects [sample_erase 0 4]) =
      Ok (sha256_spec (as_bytes DEffectSet ++ bs)) /\
    effect_set_digest (sample_effects [sample_erase 0 8]) =
      Ok (sha256_spec (as_bytes DEffectSet ++ bt)).
Proof.
  destruct (effect_set_digest_binds (sample_effects [sample_erase 0 4]) (sample_effects [sample_erase 0 8])
    ltac:(apply sample_effects_ok; zlia) ltac:(apply sample_effects_ok; zlia))
    as (bs & bt & Hs & Ht & _).
  exists bs, bt. split; [exact Hs|exact Ht].
Defined.
