(* ===== verification/FlashStep.v ===== *)
(** * The public step vocabulary (crates/arkforge-core/src/step.rs, outcome.rs)

    Step kinds, effect classes and their severity order, cancellation and binding
    policies, semantic targets, [PublicFlashStep] with its self-consistency check,
    and the digest that binds a step. *)

From S2P Require Import Prelude Cbor Sha256 Digest Fields Effect.

(** ** Step kinds *)

Inductive FlashStepKind : Type :=
| EnsureMode
| ProbeDevice
| ValidateLayout
| LoadAgent
| EraseTarget
| WriteTarget
| VerifyTarget
| AwaitRebind
| RebootDevice
| PostflightProbe.

#[global] Instance FlashStepKind_eq_dec : EqDecision FlashStepKind.
Proof. solve_decision. Defined.

(** [FlashStepKind::ALL]. *)
Definition step_kind_ALL : list FlashStepKind :=
  [EnsureMode; ProbeDevice; ValidateLayout; LoadAgent; EraseTarget; WriteTarget; VerifyTarget;
   AwaitRebind; RebootDevice; PostflightProbe].

Definition step_kind_as_str (k : FlashStepKind) : string :=
  match k with
  | EnsureMode => "ensureMode"
  | ProbeDevice => "probeDevice"
  | ValidateLayout => "validateLayout"
  | LoadAgent => "loadEphemeralAgent"
  | EraseTarget => "eraseTarget"
  | WriteTarget => "writeTarget"
  | VerifyTarget => "verifyTarget"
  | AwaitRebind => "awaitRebind"
  | RebootDevice => "reboot"
  | PostflightProbe => "postflightProbe"
  end.

Definition step_kind_parse (value : string) : option FlashStepKind :=
  List.find (fun kind => String.eqb (step_kind_as_str kind) value) step_kind_ALL.

(** ** Effect classes *)

Inductive WorkflowEffect : Type := EReadOnly | ETransient | EMutating | EDestructive.

#[global] Instance WorkflowEffect_eq_dec : EqDecision WorkflowEffect.
Proof. solve_decision. Defined.

(** The derived [Ord]: declaration order. *)
Definition effect_rank (e : WorkflowEffect) : Z :=
  match e with EReadOnly => 0 | ETransient => 1 | EMutating => 2 | EDestructive => 3 end.

Definition effect_ltb (e f : WorkflowEffect) : bool := effect_rank e <? effect_rank f.

Definition effect_as_str (e : WorkflowEffect) : string :=
  match e with
  | EReadOnly => "readOnly"
  | ETransient => "transient"
  | EMutating => "mutating"
  | EDestructive => "destructive"
  end.

Definition effect_parse (value : string) : option WorkflowEffect :=
  if String.eqb value "readOnly" then Some EReadOnly
  else if String.eqb value "transient" then Some ETransient
  else if String.eqb value "mutating" then Some EMutating
  else if String.eqb value "destructive" then Some EDestructive
  else None.

Definition requires_permit (e : WorkflowEffect) : bool := negb (effect_ltb e EMutating).

Definition minimum_effect (k : FlashStepKind) : WorkflowEffect :=
  match k with
  | ProbeDevice | ValidateLayout | VerifyTarget | AwaitRebind | PostflightProbe => EReadOnly
  | EnsureMode | LoadAgent | RebootDevice => ETransient
  | EraseTarget | WriteTarget => EDestructive
  end.

(** ** Policies *)

Inductive CancellationPolicy : Type :=
| NonInterruptible
| CancellableAtBoundary
| CancellableImmediately.

#[global] Instance CancellationPolicy_eq_dec : EqDecision CancellationPolicy.
Proof. solve_decision. Defined.

Definition cancellation_as_str (c : CancellationPolicy) : string :=
  match c with
  | NonInterruptible => "nonInterruptible"
  | CancellableAtBoundary => "cancellableAtBoundary"
  | CancellableImmediately => "cancellableImmediately"
  end.

Definition cancellation_parse (value : string) : option CancellationPolicy :=
  if String.eqb value "nonInterruptible" then Some NonInterruptible
  else if String.eqb value "cancellableAtBoundary" then Some CancellableAtBoundary
  else if String.eqb value "cancellableImmediately" then Some CancellableImmediately
  else None.

Inductive BindingRequirement : Type := ExactBoundTarget | ExactBoundTargetWithModeLineage.

#[global] Instance BindingRequirement_eq_dec : EqDecision BindingRequirement.
Proof. solve_decision. Defined.

Definition binding_as_str (b : BindingRequirement) : string :=
  match b with
  | ExactBoundTarget => "exactBoundTarget"
  | ExactBoundTargetWithModeLineage => "exactBoundTargetWithModeLineage"
  end.

Definition binding_parse (value : string) : option BindingRequirement :=
  if String.eqb value "exactBoundTarget" then Some ExactBoundTarget
  else if String.eqb value "exactBoundTargetWithModeLineage" then Some ExactBoundTargetWithModeLineage
  else None.

(** ** How an action ended (outcome.rs) *)

Inductive ActionDisposition : Type :=
| SemanticSuccess
| ConfirmedNoEffect
| ConfirmedPartialEffect
| DispositionUnknown.

#[global] Instance ActionDisposition_eq_dec : EqDecision ActionDisposition.
Proof. solve_decision. Defined.

Definition disposition_as_str (d : ActionDisposition) : string :=
  match d with
  | SemanticSuccess => "semanticSuccess"
  | ConfirmedNoEffect => "confirmedNoEffect"
  | ConfirmedPartialEffect => "confirmedPartialEffect"
  | DispositionUnknown => "outcomeUnknown"
  end.

Definition permits_redispatch (_ : ActionDisposition) : bool := false.

(** ** Steps *)

Inductive SemanticTarget : Type :=
| TargetPartition (id : OpaqueId)
| TargetRawRegion (id : OpaqueId)
| TargetBootMetadata (field : BootMetadataField)
| TargetDevice.

#[global] Instance SemanticTarget_eq_dec : EqDecision SemanticTarget.
Proof. solve_decision. Defined.

Record PublicFlashStep := mkStep {
  step_id : OpaqueId;
  kind : FlashStepKind;
  effect : WorkflowEffect;
  cancellation : CancellationPolicy;
  binding : BindingRequirement;
  semantic_target : option SemanticTarget;
  content_digest : option Sha256Digest;
  expected_mode_before : option DeviceMode;
  expected_mode_after : option DeviceMode;
  private_action_digest : Sha256Digest
}.

#[global] Instance PublicFlashStep_eq_dec : EqDecision PublicFlashStep.
Proof. solve_decision. Defined.

Inductive StepError : Type :=
| EffectBelowKindMinimum (step : string) (kind : FlashStepKind) (declared minimum : WorkflowEffect)
| WriteWithoutContentDigest (step : string)
| TargetedStepWithoutTarget (step : string) (kind : FlashStepKind).

(** [matches!(kind, WriteTarget | EraseTarget | VerifyTarget)]. *)
Definition targeted_kind (k : FlashStepKind) : bool :=
  match k with WriteTarget | EraseTarget | VerifyTarget => true | _ => false end.

Definition area_target (t : option SemanticTarget) : bool :=
  match t with Some (TargetPartition _) | Some (TargetRawRegion _) => true | _ => false end.

Definition is_write (k : FlashStepKind) : bool := match k with WriteTarget => true | _ => false end.

Definition validate_self_consistent (s : PublicFlashStep) : result StepError unit :=
  let minimum := minimum_effect (kind s) in
  if effect_ltb (effect s) minimum
  then Err (EffectBelowKindMinimum (as_str (step_id s)) (kind s) (effect s) minimum)
  else if is_write (kind s) && negb (bool_decide (is_Some (content_digest s)))
  then Err (WriteWithoutContentDigest (as_str (step_id s)))
  else if targeted_kind (kind s) && negb (area_target (semantic_target s))
  then Err (TargetedStepWithoutTarget (as_str (step_id s)) (kind s))
  else Ok tt.

(** ** Encodings *)

#[global] Instance target_cbor : CanonicalCbor SemanticTarget := fun t =>
  match t with
  | TargetPartition id => map_of [("partition", to_cbor id)]%string
  | TargetRawRegion id => map_of [("rawRegion", to_cbor id)]%string
  | TargetBootMetadata field => map_of [("bootMetadata", Text (boot_field_as_str field))]%string
  | TargetDevice => map_of [("device", Null)]%string
  end.

(** [match value { Some(value) => value.to_cbor(), None => CborValue::Null }]. *)
Definition option_cbor {A} `{CanonicalCbor A} (o : option A) : CborValue :=
  match o with Some a => to_cbor a | None => Null end.

#[global] Instance step_cbor : CanonicalCbor PublicFlashStep := fun s =>
  map_of
    [("stepId", to_cbor (step_id s));
     ("kind", Text (step_kind_as_str (kind s)));
     ("effect", Text (effect_as_str (effect s)));
     ("cancellation", Text (cancellation_as_str (cancellation s)));
     ("binding", Text (binding_as_str (binding s)));
     ("privateActionDigest", to_cbor (private_action_digest s));
     ("semanticTarget", option_cbor (semantic_target s));
     ("contentDigest", option_cbor (content_digest s));
     ("expectedModeBefore", option_cbor (expected_mode_before s));
     ("expectedModeAfter", option_cbor (expected_mode_after s))]%string.

Definition step_digest (s : PublicFlashStep) : result CborError Sha256Digest :=
  digest_canonical DPublicStep s.

(** ** What a consistent step is *)

Lemma effect_ltb_false e f : effect_ltb e f = false <-> effect_rank f <= effect_rank e.
Proof. apply Z.ltb_ge. Qed.

(** A step is self-consistent exactly when its effect class is at least its
    kind's minimum, a write names its content, and every write, erase and verify
    names a partition or a raw region.  In particular an accepted write or erase
    is destructive, so it needs a permit. *)
Theorem validate_self_consistent_iff s :
  (validate_self_consistent s = Ok tt <->
    effect_rank (minimum_effect (kind s)) <= effect_rank (effect s) /\
    (kind s = WriteTarget -> exists content, content_digest s = Some content) /\
    (kind s ∈ [WriteTarget; EraseTarget; VerifyTarget] ->
      exists id, semantic_target s = Some (TargetPartition id) \/
                 semantic_target s = Some (TargetRawRegion id))) /\
  (validate_self_consistent s = Ok tt -> kind s ∈ [WriteTarget; EraseTarget] ->
    effect s = EDestructive /\ requires_permit (effect s) = true).
Proof.
  assert (validate_self_consistent s = Ok tt <->
    effect_rank (minimum_effect (kind s)) <= effect_rank (effect s) /\
    (kind s = WriteTarget -> is_Some (content_digest s)) /\
    (kind s ∈ [WriteTarget; EraseTarget; VerifyTarget] -> area_target (semantic_target s) = true))
    as Hiff.
  { unfold validate_self_consistent. rewrite <- effect_ltb_false.
    destruct (effect_ltb _ _); [split; [done|by intros (? & _)]|].
    destruct (content_digest s) as [c|], (area_target (semantic_target s)), (kind s); cbn;
      split; try done; try (intros; split_and!; (done || set_solver));
      try (intros (_ & H & _); by destruct (H eq_refl));
      try (intros (_ & _ & H); discriminate H; set_solver). }
  assert (area_target (semantic_target s) = true <->
    exists id, semantic_target s = Some (TargetPartition id) \/
               semantic_target s = Some (TargetRawRegion id)) as Harea.
  { destruct (semantic_target s) as [[]|]; cbn; naive_solver. }
  split; [by rewrite Hiff, Harea|].
  intros [Hle _]%Hiff [Hk|[Hk|Hk%elem_of_nil]%elem_of_cons]%elem_of_cons; [..|done];
    rewrite Hk in Hle; destruct (effect s); cbn in *; (done || lia).
Qed.

Lemma step_kind_parse_as_str k : step_kind_parse (step_kind_as_str k) = Some k.
Proof. by destruct k; vm_compute. Qed.

Lemma effect_parse_as_str e : effect_parse (effect_as_str e) = Some e.
Proof. by destruct e; vm_compute. Qed.

Lemma cancellation_parse_as_str c : cancellation_parse (cancellation_as_str c) = Some c.
Proof. by destruct c; vm_compute. Qed.

Lemma binding_parse_as_str b : binding_parse (binding_as_str b) = Some b.
Proof. by destruct b; vm_compute. Qed.

(** Two names that parse back are equal only for equal values. *)
Lemma parse_inj {A} (print : A -> string) (parse : string -> option A) a b :
  (forall x, parse (print x) = Some x) -> print a = print b -> a = b.
Proof. intros Hp Heq. pose proof (Hp a) as Ha. rewrite Heq, Hp in Ha. congruence. Qed.

(** ** What the step encoding identifies *)

Lemma target_inj (s t : SemanticTarget) : cbor_eq (to_cbor s) (to_cbor t) -> s = t.
Proof.
  intros H. destruct s as [i|i|f|], t as [j|j|g|];
    try first [no_field H "partition" | no_field H "rawRegion" | no_field H "bootMetadata"
              | no_field H "device"].
  - same_field H "partition" H1. by apply cbor_eq_id in H1 as ->.
  - same_field H "rawRegion" H1. by apply cbor_eq_id in H1 as ->.
  - same_field H "bootMetadata" H1. by apply cbor_eq_text, boot_field_inj in H1 as ->.
  - done.
Qed.

Lemma option_inj {A} `{CanonicalCbor A} (o p : option A) :
  (forall a b : A, cbor_eq (to_cbor a) (to_cbor b) -> a = b) ->
  (forall a : A, ~ cbor_eq (to_cbor a) Null) ->
  cbor_eq (option_cbor o) (option_cbor p) -> o = p.
Proof.
  intros Hinj Hnull Heq. destruct o as [a|], p as [b|]; cbn in Heq; [f_equal; auto| | |done].
  - by apply Hnull in Heq.
  - symmetry in Heq. by apply Hnull in Heq.
Qed.

Lemma target_not_null (t : SemanticTarget) : ~ cbor_eq (to_cbor t) Null.
Proof. destruct t; inversion 1. Qed.

Lemma digest_not_null (d : Sha256Digest) : ~ cbor_eq (to_cbor d) Null.
Proof. inversion 1. Qed.

Lemma mode_not_null (m : DeviceMode) : ~ cbor_eq (to_cbor m) Null.
Proof. inversion 1. Qed.

Lemma step_inj (s t : PublicFlashStep) : cbor_eq (to_cbor s) (to_cbor t) -> s = t.
Proof.
  intros H. same_field H "stepId" H1. same_field H "kind" H2. same_field H "effect" H3.
  same_field H "cancellation" H4. same_field H "binding" H5. same_field H "privateActionDigest" H6.
  same_field H "semanticTarget" H7. same_field H "contentDigest" H8.
  same_field H "expectedModeBefore" H9. same_field H "expectedModeAfter" H10.
  apply cbor_eq_id in H1. apply cbor_eq_digest in H6.
  apply cbor_eq_text, (parse_inj _ _ _ _ step_kind_parse_as_str) in H2.
  apply cbor_eq_text, (parse_inj _ _ _ _ effect_parse_as_str) in H3.
  apply cbor_eq_text, (parse_inj _ _ _ _ cancellation_parse_as_str) in H4.
  apply cbor_eq_text, (parse_inj _ _ _ _ binding_parse_as_str) in H5.
  apply (option_inj _ _ target_inj target_not_null) in H7.
  apply (option_inj _ _ cbor_eq_digest digest_not_null) in H8.
  apply (option_inj _ _ mode_inj mode_not_null) in H9, H10.
  destruct s, t. cbn in *. by subst.
Qed.

Definition target_ok (t : SemanticTarget) : Prop :=
  match t with TargetPartition id | TargetRawRegion id => id_ok id | _ => True end.

Definition option_ok {A} (ok : A -> Prop) (o : option A) : Prop :=
  match o with Some a => ok a | None => True end.

(** What the Rust types guarantee of a step. *)
Definition step_ok (s : PublicFlashStep) : Prop :=
  id_ok (step_id s) /\ digest_ok (private_action_digest s) /\
  option_ok target_ok (semantic_target s) /\ option_ok digest_ok (content_digest s) /\
  option_ok (fun m => text_ok (mode_str m)) (expected_mode_before s) /\
  option_ok (fun m => text_ok (mode_str m)) (expected_mode_after s).

Lemma writable_option {A} `{CanonicalCbor A} (ok : A -> Prop) (o : option A) :
  (forall a, ok a -> writable (to_cbor a)) -> option_ok ok o -> writable (option_cbor o).
Proof. intros Hw Ho. destruct o; [by apply Hw|apply writable_null]. Qed.

Lemma writable_target t : target_ok t -> writable (to_cbor t).
Proof. destruct t as [| |[]|]; cbn [target_ok]; intros Ht; writable_map. Qed.

Lemma writable_step_kind k : writable (Text (step_kind_as_str k)).
Proof. destruct k; writable_literal. Qed.

Lemma writable_effect e : writable (Text (effect_as_str e)).
Proof. destruct e; writable_literal. Qed.

Lemma writable_cancellation c : writable (Text (cancellation_as_str c)).
Proof. destruct c; writable_literal. Qed.

Lemma writable_binding b : writable (Text (binding_as_str b)).
Proof. destruct b; writable_literal. Qed.

#[export] Hint Resolve writable_target writable_step_kind writable_effect writable_cancellation
  writable_binding : ark.

Lemma writable_step s : step_ok s -> writable (to_cbor s).
Proof.
  intros (? & ? & Ht & Hd & Hb & Ha). writable_map; cbn [snd].
  - by apply (writable_option target_ok); [apply writable_target|].
  - by apply (writable_option digest_ok); [apply writable_digest|].
  - by apply (writable_option _ _ writable_mode).
  - by apply (writable_option _ _ writable_mode).
Qed.

#[global] Instance step_model : CborModel PublicFlashStep step_ok eq.
Proof. split; [intros s Hs; by apply writable_step|]. intros s t _ _. apply step_inj. Qed.

(** The step digest an authority approves binds every field of the public step
    (kind, effect, policies, target, content, modes and the private action digest),
    unless two encodings are a SHA-256 collision. *)
Theorem public_step_digest_binds s t :
  step_ok s -> step_ok t ->
  exists bs bt,
    step_digest s = Ok (sha256_spec (as_bytes DPublicStep ++ bs)) /\
    step_digest t = Ok (sha256_spec (as_bytes DPublicStep ++ bt)) /\
    (u64 (zlen bs) -> no_collision (as_bytes DPublicStep ++ bs) (as_bytes DPublicStep ++ bt) ->
     step_digest s = step_digest t -> s = t).
Proof.
  intros Hs Ht. apply (writable_digest_binds DPublicStep s t); [|done..].
  intros u Hu. by apply writable_step.
Qed.

(** ** Instances *)

Definition sample_step (kind : FlashStepKind) (effect : WorkflowEffect) : PublicFlashStep :=
  mkStep (mkId "STEP-1") kind effect CancellableImmediately ExactBoundTarget
    (Some (TargetPartition (mkId "system"))) (Some (sha256 [1])) None None (sha256 [2]).

Lemma sample_step_ok k e : step_ok (sample_step k e).
Proof.
  unfold step_ok, option_ok, target_ok. cbn.
  split_and!; try done; try apply sha256_ok; vm_compute; reflexivity.
Qed.

Lemma public_step_digest_binds_witness :
  exists bs bt,
    step_digest (sample_step WriteTarget EDestructive) =
      Ok (sha256_spec (as_bytes DPublicStep ++ bs)) /\
    step_digest (sample_step EraseTarget EDestructive) =
      Ok (sha256_spec (as_bytes DPublicStep ++ bt)).
Proof.
  destruct (public_step_digest_binds (sample_step WriteTarget EDestructive)
    (sample_step EraseTarget EDestructive) (sample_step_ok _ _) (sample_step_ok _ _))
    as (bs & bt & Hs & Ht & _).
  exists bs, bt. split; [exact Hs|exact Ht].
Defined.

Example over_declaring_is_allowed :
  validate_self_consistent (sample_step ProbeDevice EDestructive) = Ok tt.
Proof. reflexivity. Qed.
