(* ===== verification/Projection.v ===== *)
(** * Projection of the private plan (crates/arkforge-core/src/projection.rs)

    Private actions, the stored private plan, [validate_projection] with its effect
    coverage, and the digests a validated projection produces. *)

From S2P Require Import Prelude Cbor Sha256 Digest Fields Effect FlashStep.

(** ** Data *)

Inductive PrivateActionRole : Type := PrimaryEffect | ReadOnlyTransportSubAction.

#[global] Instance PrivateActionRole_eq_dec : EqDecision PrivateActionRole.
Proof. solve_decision. Defined.

Definition role_as_str (r : PrivateActionRole) : string :=
  match r with
  | PrimaryEffect => "primaryEffect"
  | ReadOnlyTransportSubAction => "readOnlyTransportSubAction"
  end.

Record PrivateActionRecord := mkAction {
  action_id : OpaqueId;
  action_step_id : OpaqueId;
  role : PrivateActionRole;
  effect_class : WorkflowEffect;
  declared_target : option SemanticTarget;
  declared_range : option ByteRange;
  action_content : option Sha256Digest;
  action_body : CborValue
}.

Record ActionDigestBinding := mkBinding {
  bound_step_id : OpaqueId;
  bound_action_id : OpaqueId;
  bound_role : PrivateActionRole;
  bound_digest : Sha256Digest
}.

Record ProjectionDigests := mkProjection {
  per_action : list ActionDigestBinding;
  provider_execution_plan_digest : Sha256Digest;
  public_projection_digest : Sha256Digest
}.

Record StoredProviderPlan := mkPlan { actions : list PrivateActionRecord }.

(** [ProjectionPanic] is the panic of the [expect] in [validate_effect_coverage]. *)
Inductive ProjectionError : Type :=
| EmptyPlan
| DuplicateStepId (step : string)
| DuplicateActionId (action : string)
| ActionWithoutPublicStep (action step : string)
| MultiplePrimaryActions (step : string)
| StepWithoutPrimaryAction (step : string)
| SubActionNotReadOnly (action : string) (effect : WorkflowEffect)
| StepActionDigestMismatch (step : string) (declared computed : Sha256Digest)
| PrivateEffectExceedsPublic (step : string) (private_effect public_effect : WorkflowEffect)
| PrivateTargetOutsidePublicTarget (step action : string)
| ContentDigestMismatch (step : string) (public private : Sha256Digest)
| PrivateActionMissingContentDigest (step action : string)
| EffectfulStepWithoutTarget (step : string)
| StepEffectNotDeclared (step : string) (kind : FlashStepKind)
| UnclaimedPersistentEffect (index : nat)
| UnclaimedTransientEffect (index : nat)
| ProjectionStep (e : StepError)
| ProjectionCbor (e : CborError)
| ProjectionPanic.

(** ** Encodings *)

#[global] Instance action_cbor : CanonicalCbor PrivateActionRecord := fun a =>
  map_of
    [("actionId", to_cbor (action_id a));
     ("stepId", to_cbor (action_step_id a));
     ("role", Text (role_as_str (role a)));
     ("effectClass", Text (effect_as_str (effect_class a)));
     ("declaredTarget", option_cbor (declared_target a));
     ("declaredRange", option_cbor (declared_range a));
     ("contentDigest", option_cbor (action_content a));
     ("body", action_body a)]%string.

Definition action_digest (a : PrivateActionRecord) : result CborError Sha256Digest :=
  digest_canonical DPrivateAction a.

#[global] Instance binding_cbor : CanonicalCbor ActionDigestBinding := fun b =>
  map_of
    [("stepId", to_cbor (bound_step_id b));
     ("actionId", to_cbor (bound_action_id b));
     ("role", Text (role_as_str (bound_role b)));
     ("privateActionDigest", to_cbor (bound_digest b))]%string.

(** [StoredProviderPlan::action]. *)
Definition plan_action (p : StoredProviderPlan) (id : OpaqueId) : option PrivateActionRecord :=
  List.find (fun a => bool_decide (action_id a = id)) (actions p).

(** ** The checks, loop by loop *)

(** The loop over the public steps; the result is [seen_steps]. *)
Fixpoint check_steps (seen : list string) (steps : list PublicFlashStep) :
    result ProjectionError (list string) :=
  match steps with
  | [] => Ok seen
  | step :: steps =>
      if bool_decide (as_str (step_id step) ∈ seen)
      then Err (DuplicateStepId (as_str (step_id step)))
      else
        let? _ := map_err ProjectionStep (validate_self_consistent step) in
        check_steps (as_str (step_id step) :: seen) steps
  end.

Fixpoint check_actions (seen_steps seen_actions : list string) (acts : list PrivateActionRecord) :
    result ProjectionError unit :=
  match acts with
  | [] => Ok tt
  | action :: acts =>
      if bool_decide (as_str (action_id action) ∈ seen_actions)
      then Err (DuplicateActionId (as_str (action_id action)))
      else if negb (bool_decide (as_str (action_step_id action) ∈ seen_steps))
      then Err (ActionWithoutPublicStep (as_str (action_id action)) (as_str (action_step_id action)))
      else check_actions seen_steps (as_str (action_id action) :: seen_actions) acts
  end.

(** One primary action per step; sub-actions must be read-only. *)
Fixpoint collect_primaries (primary_by_step : btree PrivateActionRecord)
    (acts : list PrivateActionRecord) : result ProjectionError (btree PrivateActionRecord) :=
  match acts with
  | [] => Ok primary_by_step
  | action :: acts =>
      match role action with
      | PrimaryEffect =>
          let key := as_str (action_step_id action) in
          match bt_get key primary_by_step with
          | Some _ => Err (MultiplePrimaryActions key)
          | None => collect_primaries (bt_insert key action primary_by_step) acts
          end
      | ReadOnlyTransportSubAction =>
          if negb (bool_decide (effect_class action = EReadOnly))
          then Err (SubActionNotReadOnly (as_str (action_id action)) (effect_class action))
          else collect_primaries primary_by_step acts
      end
  end.

(** [private_target] against the public one. *)
Definition check_target (step : PublicFlashStep) (primary : PrivateActionRecord) :
    result ProjectionError unit :=
  match declared_target primary with
  | Some private_target =>
      if bool_decide (semantic_target step = Some private_target) then Ok tt
      else Err (PrivateTargetOutsidePublicTarget (as_str (step_id step)) (as_str (action_id primary)))
  | None => Ok tt
  end.

Definition check_content (step : PublicFlashStep) (primary : PrivateActionRecord) :
    result ProjectionError unit :=
  match content_digest step, action_content primary with
  | Some public_content, Some private_content =>
      if negb (bool_decide (public_content = private_content))
      then Err (ContentDigestMismatch (as_str (step_id step)) public_content private_content)
      else Ok tt
  | Some _, None =>
      Err (PrivateActionMissingContentDigest (as_str (step_id step)) (as_str (action_id primary)))
  | None, _ => Ok tt
  end.

Definition is_sub_action_of (step : PublicFlashStep) (a : PrivateActionRecord) : bool :=
  bool_decide (action_step_id a = step_id step) && negb (bool_decide (role a = PrimaryEffect)).

Definition sub_binding (step : PublicFlashStep) (a : PrivateActionRecord) :
    result ProjectionError ActionDigestBinding :=
  let? digest := map_err ProjectionCbor (action_digest a) in
  Ok (mkBinding (step_id step) (action_id a) (role a) digest).

(** The body of the loop that builds [per_action]. *)
Definition bind_step (primary_by_step : btree PrivateActionRecord)
    (acts : list PrivateActionRecord) (step : PublicFlashStep) :
    result ProjectionError (list ActionDigestBinding) :=
  let? primary := ok_or (bt_get (as_str (step_id step)) primary_by_step)
                    (StepWithoutPrimaryAction (as_str (step_id step))) in
  let? primary_digest := map_err ProjectionCbor (action_digest primary) in
  if negb (bool_decide (primary_digest = private_action_digest step))
  then Err (StepActionDigestMismatch (as_str (step_id step)) (private_action_digest step) primary_digest)
  else if effect_ltb (effect step) (effect_class primary)
  then Err (PrivateEffectExceedsPublic (as_str (step_id step)) (effect_class primary) (effect step))
  else
    let? _ := check_target step primary in
    let? _ := check_content step primary in
    let? subs := collect_results
                   (map (sub_binding step) (List.filter (is_sub_action_of step) acts)) in
    Ok (mkBinding (step_id step) (action_id primary) PrimaryEffect primary_digest :: subs).

Fixpoint bind_steps (primary_by_step : btree PrivateActionRecord)
    (acts : list PrivateActionRecord) (steps : list PublicFlashStep) :
    result ProjectionError (list ActionDigestBinding) :=
  match steps with
  | [] => Ok []
  | step :: steps =>
      let? bindings := bind_step primary_by_step acts step in
      let? rest := bind_steps primary_by_step acts steps in
      Ok (bindings ++ rest)
  end.

(** ** Effect coverage *)

(** The private action's range may not exceed the declared public effect. *)
Definition range_matches (private_range effect_range : option ByteRange) : bool :=
  match private_range, effect_range with
  | Some private_range, Some effect_range => contains_range effect_range private_range
  | None, _ => true
  | Some _, None => false
  end.

Definition persistent_effect_matches (e : PersistentEffect) (step : PublicFlashStep)
    (target : SemanticTarget) (primary : PrivateActionRecord) : bool :=
  match e, target with
  | WritePartition partition range content, TargetPartition step_partition =>
      if negb (bool_decide (kind step = WriteTarget)) then false
      else if negb (bool_decide (content_digest step = Some content)) then false
      else bool_decide (partition = step_partition)
           && range_matches (declared_range primary) (Some range)
  | ErasePartition partition range, TargetPartition step_partition =>
      if negb (bool_decide (kind step = EraseTarget)) then false
      else bool_decide (partition = step_partition)
           && range_matches (declared_range primary) (Some range)
  | WriteRawRegion region range content, TargetRawRegion step_region =>
      if negb (bool_decide (kind step = WriteTarget)) then false
      else if negb (bool_decide (content_digest step = Some content)) then false
      else bool_decide (region = step_region)
           && range_matches (declared_range primary) (Some range)
  | _, _ => false
  end.

Definition transient_effect_matches (e : TransientEffect) (step : PublicFlashStep) : bool :=
  match e, kind step with
  | EnterMode from to, EnsureMode =>
      bool_decide (expected_mode_before step = Some from)
      && bool_decide (expected_mode_after step = Some to)
  | Reboot target_mode, RebootDevice => bool_decide (expected_mode_after step = Some target_mode)
  | LoadEphemeralAgent _ _ _, LoadAgent => true
  | _, _ => false
  end.

(** [iter().enumerate().position(|(index, e)| !claimed[index] && p(e))]. *)
Fixpoint position_unclaimed {A} (p : A -> bool) (es : list A) (claimed : list bool) : option nat :=
  match es, claimed with
  | e :: es, c :: claimed =>
      if negb c && p e then Some O else option_map S (position_unclaimed p es claimed)
  | _, _ => None
  end.

(** [iter().position(|claimed| !claimed)]. *)
Fixpoint first_unclaimed (claimed : list bool) : option nat :=
  match claimed with
  | [] => None
  | c :: claimed => if negb c then Some O else option_map S (first_unclaimed claimed)
  end.

(** The body of the loop over the steps. *)
Definition claim_step (primary_by_step : btree PrivateActionRecord) (effects : EffectSet)
    (step : PublicFlashStep) (claimed : list bool * list bool) :
    result ProjectionError (list bool * list bool) :=
  let (persistent_claimed, transient_claimed) := claimed in
  match kind step with
  | WriteTarget | EraseTarget =>
      let? target := ok_or (semantic_target step)
                       (EffectfulStepWithoutTarget (as_str (step_id step))) in
      let? primary := ok_or (bt_get (as_str (step_id step)) primary_by_step) ProjectionPanic in
      let? index := ok_or (position_unclaimed
                             (fun e => persistent_effect_matches e step target primary)
                             (persistent effects) persistent_claimed)
                      (StepEffectNotDeclared (as_str (step_id step)) (kind step)) in
      Ok (<[index := true]> persistent_claimed, transient_claimed)
  | EnsureMode | RebootDevice | LoadAgent =>
      match position_unclaimed (fun e => transient_effect_matches e step)
              (transient effects) transient_claimed with
      | Some index => Ok (persistent_claimed, <[index := true]> transient_claimed)
      | None => Err (StepEffectNotDeclared (as_str (step_id step)) (kind step))
      end
  | _ => Ok claimed
  end.

Fixpoint claim_steps (primary_by_step : btree PrivateActionRecord) (effects : EffectSet)
    (steps : list PublicFlashStep) (claimed : list bool * list bool) :
    result ProjectionError (list bool * list bool) :=
  match steps with
  | [] => Ok claimed
  | step :: steps =>
      let? claimed := claim_step primary_by_step effects step claimed in
      claim_steps primary_by_step effects steps claimed
  end.

Definition validate_effect_coverage (steps : list PublicFlashStep)
    (primary_by_step : btree PrivateActionRecord) (effects : EffectSet) :
    result ProjectionError unit :=
  let? (persistent_claimed, transient_claimed) :=
    claim_steps primary_by_step effects steps
      (replicate (List.length (persistent effects)) false,
       replicate (List.length (transient effects)) false) in
  match first_unclaimed persistent_claimed with
  | Some index => Err (UnclaimedPersistentEffect index)
  | None =>
      match first_unclaimed transient_claimed with
      | Some index => Err (UnclaimedTransientEffect index)
      | None => Ok tt
      end
  end.

Definition validate_projection (public_steps : list PublicFlashStep)
    (private_plan : StoredProviderPlan) (effect_set : EffectSet) :
    result ProjectionError ProjectionDigests :=
  if Nat.eqb (List.length public_steps) 0 then Err EmptyPlan
  else
    let? seen_steps := check_steps [] public_steps in
    let? _ := check_actions seen_steps [] (actions private_plan) in
    let? primary_by_step := collect_primaries [] (actions private_plan) in
    let? per_action := bind_steps primary_by_step (actions private_plan) public_steps in
    let? _ := validate_effect_coverage public_steps primary_by_step effect_set in
    let provider_execution_plan_digest :=
      digest_ordered DProviderExecutionPlan (map bound_digest per_action) in
    let mapping := Array (map to_cbor per_action) in
    let? mapping_bytes := map_err ProjectionCbor (to_canonical_bytes mapping) in
    Ok (mkProjection per_action provider_execution_plan_digest
          (digest_in_domain DPublicProjection mapping_bytes)).

(** ** Claimed effects *)

(** The effects whose flag is still down. *)
Fixpoint unclaimed {A} (es : list A) (claimed : list bool) : list A :=
  match es, claimed with
  | e :: es, c :: claimed => if c then unclaimed es claimed else e :: unclaimed es claimed
  | _, _ => []
  end.

Lemma unclaimed_start {A} (es : list A) : unclaimed es (replicate (List.length es) false) = es.
Proof. induction es; cbn; congruence. Qed.

Lemma unclaimed_end {A} (es : list A) claimed :
  first_unclaimed claimed = None -> unclaimed es claimed = [].
Proof.
  revert claimed. induction es as [|e es IH]; intros [|[] claimed]; cbn; try done.
  intros H. apply IH. by destruct (first_unclaimed claimed).
Qed.

(** Raising the flag [position_unclaimed] found takes one matching effect away. *)
Lemma position_unclaimed_Some {A} (p : A -> bool) es claimed i :
  position_unclaimed p es claimed = Some i ->
  exists e, p e = true /\ unclaimed es claimed ≡ₚ e :: unclaimed es (<[i := true]> claimed).
Proof.
  revert claimed i. induction es as [|e es IH]; intros [|c claimed] i; cbn; try done.
  destruct c, (p e) eqn:He; cbn; try (intros [= <-]; cbn; eauto; fail).
  all: destruct (position_unclaimed p es claimed) as [j|] eqn:E; [|done]; intros [= <-];
    destruct (IH _ _ E) as (f & Hf & Hp); exists f; (split; [done|]); cbn; try exact Hp.
  rewrite Hp. apply perm_swap.
Qed.

(** The kinds that claim persistent and transient effects. *)
Definition writes (s : PublicFlashStep) : bool :=
  match kind s with WriteTarget | EraseTarget => true | _ => false end.

Definition moves (s : PublicFlashStep) : bool :=
  match kind s with EnsureMode | RebootDevice | LoadAgent => true | _ => false end.

Section Coverage.
Context (primaries : btree PrivateActionRecord) (effects : EffectSet).

(** Step [s] claims effect [e] through its primary action. *)
Definition claims_persistent (s : PublicFlashStep) (e : PersistentEffect) : Prop :=
  exists target primary, semantic_target s = Some target /\
    bt_get (as_str (step_id s)) primaries = Some primary /\
    persistent_effect_matches e s target primary = true.

Definition claims_transient (s : PublicFlashStep) (e : TransientEffect) : Prop :=
  transient_effect_matches e s = true.

Lemma claim_step_Ok step pc tc pc' tc' :
  claim_step primaries effects step (pc, tc) = Ok (pc', tc') ->
  (if writes step then exists e, claims_persistent step e /\
     unclaimed (persistent effects) pc ≡ₚ e :: unclaimed (persistent effects) pc' else pc' = pc) /\
  (if moves step then exists e, claims_transient step e /\
     unclaimed (transient effects) tc ≡ₚ e :: unclaimed (transient effects) tc' else tc' = tc).
Proof.
  unfold claim_step, writes, moves. intros H.
  destruct (kind step) eqn:Hk; try (injection H as <- <-; done).
  1,2,5: destruct (position_unclaimed _ _ _) as [i|] eqn:E; [|done];
    injection H as <- <-; split; [done|]; apply position_unclaimed_Some in E as (e & He & Hp);
    by exists e.
  all: destruct (semantic_target step) as [target|] eqn:Et; [cbn [ok_or] in H|done];
    destruct (bt_get _ _) as [primary|] eqn:Ep; [cbn [ok_or] in H|done];
    destruct (position_unclaimed _ _ _) as [i|] eqn:E; [|done];
    injection H as <- <-; split; [|done]; apply position_unclaimed_Some in E as (e & He & Hp);
    exists e; split; [by exists target, primary|done].
Qed.

Lemma claim_steps_Ok steps pc tc pc' tc' :
  claim_steps primaries effects steps (pc, tc) = Ok (pc', tc') ->
  (exists es, Forall2 claims_persistent (List.filter writes steps) es /\
     unclaimed (persistent effects) pc ≡ₚ es ++ unclaimed (persistent effects) pc') /\
  (exists ts, Forall2 claims_transient (List.filter moves steps) ts /\
     unclaimed (transient effects) tc ≡ₚ ts ++ unclaimed (transient effects) tc').
Proof.
  revert pc tc. induction steps as [|step steps IH]; intros pc tc H; cbn [claim_steps] in H.
  - injection H as <- <-. split; exists []; (split; [constructor|done]).
  - destruct (claim_step _ _ _ _) as [[pc1 tc1]|] eqn:E; [|done].
    apply claim_step_Ok in E as [Hw Hm]. apply IH in H as [(es & Hes & Pes) (ts & Hts & Pts)].
    cbn [List.filter]. split.
    + destruct (writes step); [|subst; by exists es]. destruct Hw as (e & He & Hp).
      exists (e :: es). split; [by constructor|]. by rewrite Hp, Pes.
    + destruct (moves step); [|subst; by exists ts]. destruct Hm as (t & Ht & Hp).
      exists (t :: ts). split; [by constructor|]. by rewrite Hp, Pts.
Qed.

(** Accepted coverage: the declared effects are the claimed ones, each once. *)
Lemma coverage_Ok steps :
  validate_effect_coverage steps primaries effects = Ok tt ->
  (exists es, Forall2 claims_persistent (List.filter writes steps) es /\ es ≡ₚ persistent effects) /\
  (exists ts, Forall2 claims_transient (List.filter moves steps) ts /\ ts ≡ₚ transient effects).
Proof.
  unfold validate_effect_coverage. destruct (claim_steps _ _ _ _) as [[pc tc]|] eqn:E; [|done].
  apply claim_steps_Ok in E as [(es & Hes & Pes) (ts & Hts & Pts)].
  rewrite unclaimed_start in Pes. rewrite unclaimed_start in Pts.
  destruct (first_unclaimed pc) eqn:Ep; [done|]. destruct (first_unclaimed tc) eqn:Et; [done|].
  rewrite unclaimed_end, app_nil_r in Pes by done. rewrite unclaimed_end, app_nil_r in Pts by done.
  intros _.
  split; [exists es|exists ts]; by split.
Qed.
End Coverage.

(** ** What the loops establish *)

Definition step_key (s : PublicFlashStep) : string := as_str (step_id s).
Definition action_key (a : PrivateActionRecord) : string := as_str (action_step_id a).

Definition is_primary (a : PrivateActionRecord) : bool :=
  match role a with PrimaryEffect => true | ReadOnlyTransportSubAction => false end.

Lemma check_steps_Ok seen steps seen' :
  check_steps seen steps = Ok seen' ->
  NoDup (map step_key steps) /\ Forall (fun s => step_key s ∉ seen) steps /\
  Forall (fun s => validate_self_consistent s = Ok tt) steps /\
  (forall k, k ∈ seen' <-> k ∈ seen \/ k ∈ map step_key steps).
Proof.
  revert seen. induction steps as [|s steps IH]; intros seen H; cbn [check_steps] in H.
  - injection H as <-. split_and!; try constructor; [by left|]. intros [?|[]%elem_of_nil]; done.
  - case_bool_decide as Hs; [done|].
    destruct (validate_self_consistent s) as [[]|] eqn:Hv; [cbn [map_err] in H|done].
    apply IH in H as (Hnd & Hout & Hok & Hmem). cbn [map]. rewrite Forall_forall in Hout.
    split_and!.
    + constructor; [|done]. intros (t & Ht & Hin)%list_elem_of_fmap. apply (Hout t Hin).
      rewrite <- Ht. by left.
    + constructor; [done|]. apply Forall_forall. intros t Ht Hin. apply (Hout t Ht). by right.
    + by constructor.
    + intros k. rewrite Hmem, !elem_of_cons. unfold step_key. tauto.
Qed.

Lemma check_actions_Ok steps seen acts :
  check_actions steps seen acts = Ok tt ->
  NoDup (map (fun a => as_str (action_id a)) acts) /\
  Forall (fun a => as_str (action_id a) ∉ seen) acts /\
  Forall (fun a => action_key a ∈ steps) acts.
Proof.
  revert seen. induction acts as [|a acts IH]; intros seen H; cbn [check_actions] in H.
  - split_and!; constructor.
  - case_bool_decide as Ha; [done|]. case_bool_decide as Hs; [|done].
    apply IH in H as (Hnd & Hout & Hmem). cbn [map]. rewrite Forall_forall in Hout. split_and!.
    + constructor; [|done]. intros (b & Hb & Hin)%list_elem_of_fmap. apply (Hout b Hin).
      rewrite <- Hb. by left.
    + constructor; [done|]. apply Forall_forall. intros b Hb Hin. apply (Hout b Hb). by right.
    + by constructor.
Qed.

Lemma collect_primaries_Ok m acts m' :
  collect_primaries m acts = Ok m' ->
  NoDup (map action_key (List.filter is_primary acts)) /\
  Forall (fun a => is_primary a = false -> effect_class a = EReadOnly) acts /\
  Forall (fun a => is_primary a = true -> bt_get (action_key a) m = None) acts /\
  (forall k a, bt_get k m' = Some a <->
     bt_get k m = Some a \/ (a ∈ acts /\ is_primary a = true /\ action_key a = k)).
Proof.
  revert m. induction acts as [|a acts IH]; intros m H; cbn [collect_primaries] in H.
  - injection H as <-. split_and!; try constructor; [by left|].
    intros [?|([]%elem_of_nil & _)]; done.
  - unfold is_primary in *. cbn [List.filter]. destruct (role a) eqn:Hr.
    + destruct (bt_get _ m) eqn:Hg; [done|]. apply IH in H as (Hnd & Hro & Hnew & Hmem).
      fold (action_key a) in Hg, Hnew, Hmem. rewrite Forall_forall in Hnew.
      assert (forall b, b ∈ acts -> is_primary b = true -> action_key b <> action_key a) as Hne.
      { intros b Hb Hp Heq. pose proof (Hnew b Hb Hp) as Hn. by rewrite Heq, bt_get_insert_eq in Hn. }
      split_and!.
      * cbn [map]. constructor; [|done]. intros (b & Hk & Hb)%list_elem_of_fmap.
        apply list_elem_of_In, filter_In in Hb as [Hb Hp]. apply list_elem_of_In in Hb.
        by apply (Hne b Hb Hp).
      * constructor; [by rewrite Hr|done].
      * constructor; [done|]. apply Forall_forall. intros b Hb Hp.
        rewrite <- (Hnew b Hb Hp). symmetry. apply bt_get_insert_ne. symmetry. by apply Hne.
      * intros k b. rewrite Hmem, elem_of_cons.
        destruct (decide (k = action_key a)) as [->|Hk].
        -- rewrite bt_get_insert_eq, Hg. split.
           ++ intros [[= <-]|(Hb & Hp & Hk)]; right; [by rewrite Hr; auto|auto].
           ++ intros [?|([->|Hb] & Hp & Hk)]; [done|by left|]. by destruct (Hne b Hb Hp).
        -- rewrite bt_get_insert_ne by done. split; [tauto|].
           intros [?|([->|Hb] & Hp & <-)]; [by left|done|by right].
    + case_bool_decide as He; [cbn [negb] in H|done]. apply IH in H as (Hnd & Hro & Hnew & Hmem).
      split_and!; [done|by constructor|constructor; [by rewrite Hr|done]|].
      intros k b. rewrite Hmem, elem_of_cons. split; [tauto|].
      intros [?|([->|Hb] & Hp & Hk)]; [by left|by rewrite Hr in Hp|by right].
Qed.

Lemma id_eq (i j : OpaqueId) : as_str i = as_str j -> i = j.
Proof. destruct i, j. cbn. by intros ->. Qed.

(** ** Projected actions *)

(** The public step [s] covers its primary action [a]. *)
Definition authorizes (s : PublicFlashStep) (a : PrivateActionRecord) : Prop :=
  action_step_id a = step_id s /\ role a = PrimaryEffect /\
  action_digest a = Ok (private_action_digest s) /\
  effect_rank (effect_class a) <= effect_rank (effect s) /\
  (forall t, declared_target a = Some t -> semantic_target s = Some t) /\
  (forall c, content_digest s = Some c -> action_content a = Some c).

(** The binding [b] carries the digest of [a]. *)
Definition bound_to (b : ActionDigestBinding) (a : PrivateActionRecord) : Prop :=
  bound_step_id b = action_step_id a /\ bound_action_id b = action_id a /\
  bound_role b = role a /\ action_digest a = Ok (bound_digest b).

Section Bindings.
Context (m : btree PrivateActionRecord) (acts : list PrivateActionRecord).
Hypothesis Hm : forall k a, bt_get k m = Some a <->
  a ∈ acts /\ is_primary a = true /\ action_key a = k.

Lemma check_target_Ok s a :
  check_target s a = Ok tt <-> forall t, declared_target a = Some t -> semantic_target s = Some t.
Proof.
  unfold check_target. destruct (declared_target a) as [t|]; [case_bool_decide|]; split; try done.
  - by intros _ ? [= <-].
  - intros H'. by specialize (H' t eq_refl).
Qed.

Lemma check_content_Ok s a :
  check_content s a = Ok tt <-> forall c, content_digest s = Some c -> action_content a = Some c.
Proof.
  unfold check_content. destruct (content_digest s) as [c|], (action_content a) as [d|]; try done.
  - case_bool_decide as Hcd; cbn [negb]; split; try done.
    + subst. by intros _ ? [= <-].
    + intros H'. specialize (H' c eq_refl). congruence.
  - split; [done|]. intros H'. by specialize (H' c eq_refl).
Qed.

Lemma collect_results_Ok {E A B} (f : A -> result E B) l bs :
  collect_results (map f l) = Ok bs <-> Forall2 (fun b a => f a = Ok b) bs l.
Proof.
  revert bs. induction l as [|a l IH]; intros bs; cbn [map collect_results].
  - split; [intros [= <-]; constructor|by inversion 1].
  - destruct (f a) as [b|] eqn:Hf; [|split; [done|inversion 1; congruence]].
    destruct (collect_results _) as [rest|] eqn:Hc.
    + split; [intros [= <-]; constructor; [done|by apply IH]|]. inversion 1 as [|? ? ? ? H1 H2]; subst.
      apply IH in H2. congruence.
    + split; [done|]. inversion 1 as [|? ? ? ? H1 H2]; subst. by apply IH in H2.
Qed.

Lemma bind_step_Ok s bs :
  bind_step m acts s = Ok bs ->
  exists a, a ∈ acts /\ authorizes s a /\
    Forall2 bound_to bs (a :: List.filter (is_sub_action_of s) acts).
Proof using Hm.
  unfold bind_step. intros H. destruct (bt_get _ m) as [a|] eqn:Hg; [cbn [ok_or] in H|done].
  apply Hm in Hg as (Ha & Hp & Hk). apply id_eq in Hk.
  assert (role a = PrimaryEffect) as Hr by (unfold is_primary in Hp; by destruct (role a)).
  destruct (action_digest a) as [d|] eqn:Hd; [cbn [map_err] in H|done].
  case_bool_decide as He; [cbn [negb] in H|done]. subst d.
  destruct (effect_ltb _ _) eqn:Hlt; [done|]. apply effect_ltb_false in Hlt.
  destruct (check_target s a) as [[]|] eqn:Ht; [|done]. pose proof (proj1 (check_target_Ok s a) Ht) as Ht'.
  destruct (check_content s a) as [[]|] eqn:Hc; [|done]. pose proof (proj1 (check_content_Ok s a) Hc) as Hc'.
  destruct (collect_results _) as [subs|] eqn:Hsubs; [|done]. injection H as <-.
  exists a. split; [done|]. split; [done|]. constructor; [done|].
  apply collect_results_Ok in Hsubs.
  assert (Forall (fun b => is_sub_action_of s b = true) (List.filter (is_sub_action_of s) acts)) as Hall.
  { apply Forall_forall. intros b Hb. by apply list_elem_of_In, filter_In in Hb as [_ ?]. }
  revert Hall. induction Hsubs as [|b a' bs l Hb _ IH]; intros Hall; [constructor|].
  apply Forall_cons in Hall as [Hs Hall]. constructor; [|auto]. clear IH.
  unfold is_sub_action_of in Hs. breflect. unfold sub_binding in Hb.
  destruct (action_digest a') as [d|] eqn:Hd'; [|done]. by injection Hb as <-.
Qed.

Lemma bind_steps_Ok steps bs :
  bind_steps m acts steps = Ok bs ->
  exists prims,
    Forall2 (fun s a => a ∈ acts /\ authorizes s a) steps prims /\
    Forall2 bound_to bs
      (concat (zip_with (fun s a => a :: List.filter (is_sub_action_of s) acts) steps prims)).
Proof using Hm.
  revert bs. induction steps as [|s steps IH]; intros bs H; cbn [bind_steps] in H.
  - injection H as <-. exists []. split; constructor.
  - destruct (bind_step m acts s) as [b1|] eqn:E; [|done].
    destruct (bind_steps m acts steps) as [b2|]; [|done]. injection H as <-.
    destruct (IH b2 eq_refl) as (prims & Hp & Hb). apply bind_step_Ok in E as (a & Ha & Hau & Hb1).
    exists (a :: prims). split; [by constructor|]. cbn [zip_with concat]. by apply Forall2_app.
Qed.
End Bindings.

Lemma NoDup_map_same {A B} (f : A -> B) l a b :
  NoDup (map f l) -> a ∈ l -> b ∈ l -> f a = f b -> a = b.
Proof.
  intros Hnd (i & Hi)%list_elem_of_lookup (j & Hj)%list_elem_of_lookup Heq.
  assert (i = j) as <-; [|congruence]. eapply (NoDup_lookup (map f l)); [done|..].
  - rewrite list_lookup_fmap, Hi. reflexivity.
  - rewrite list_lookup_fmap, Hj. cbn. by rewrite Heq.
Qed.

Lemma primary_elem acts a :
  a ∈ List.filter is_primary acts <-> a ∈ acts /\ role a = PrimaryEffect.
Proof.
  rewrite list_elem_of_In, filter_In, <- list_elem_of_In. unfold is_primary. destruct (role a); intuition congruence.
Qed.

(** Everything an accepted projection went through. *)
Lemma validate_projection_Ok steps plan effects d :
  validate_projection steps plan effects = Ok d ->
  exists seen m prims,
    check_steps [] steps = Ok seen /\ check_actions seen [] (actions plan) = Ok tt /\
    collect_primaries [] (actions plan) = Ok m /\
    bind_steps m (actions plan) steps = Ok (per_action d) /\
    Forall2 (fun s a => a ∈ actions plan /\ authorizes s a) steps prims /\
    Forall2 bound_to (per_action d)
      (concat (zip_with (fun s a => a :: List.filter (is_sub_action_of s) (actions plan)) steps prims)) /\
    validate_effect_coverage steps m effects = Ok tt /\
    provider_execution_plan_digest d =
      digest_ordered DProviderExecutionPlan (map bound_digest (per_action d)) /\
    (exists bytes, enc (Array (map to_cbor (per_action d))) bytes /\
       public_projection_digest d = digest_in_domain DPublicProjection bytes) /\
    (forall k a, bt_get k m = Some a <->
       a ∈ actions plan /\ is_primary a = true /\ action_key a = k).
Proof.
  unfold validate_projection. intros H. destruct (Nat.eqb _ 0); [done|].
  destruct (check_steps [] steps) as [seen|] eqn:Es; [|done].
  destruct (check_actions seen [] (actions plan)) as [[]|] eqn:Ea; [|done].
  destruct (collect_primaries [] (actions plan)) as [m|] eqn:Ep; [|done].
  destruct (bind_steps m (actions plan) steps) as [bs|] eqn:Eb; [|done].
  destruct (validate_effect_coverage steps m effects) as [[]|] eqn:Ec; [|done].
  destruct (to_canonical_bytes _) as [bytes|] eqn:Em; [cbn [map_err] in H|done]. injection H as <-.
  pose proof (collect_primaries_Ok _ _ _ Ep) as (_ & _ & _ & Hmem).
  assert (forall k a, bt_get k m = Some a <->
    a ∈ actions plan /\ is_primary a = true /\ action_key a = k) as Hm.
  { intros k a. rewrite Hmem. cbn. split; [intros [?|?]; done|auto]. }
  destruct (bind_steps_Ok m (actions plan) Hm steps bs Eb) as (prims & Hp & Hb).
  exists seen, m, prims. split_and!; try done. by exists bytes.
Qed.

(** C14. In an accepted projection step ids are distinct, every private action
    belongs to a public step, and each step has exactly one primary action: its
    digest is the one the step declares, its effect class, target and content do
    not exceed the step's, and every other action of the step is read-only. *)
Theorem projection_contains_actions steps plan effects d :
  validate_projection steps plan effects = Ok d ->
  NoDup (map step_id steps) /\
  (forall a, a ∈ actions plan -> exists s, s ∈ steps /\ action_step_id a = step_id s) /\
  (forall s, s ∈ steps -> validate_self_consistent s = Ok tt /\
     exists a, a ∈ actions plan /\ authorizes s a /\
       forall b, b ∈ actions plan -> action_step_id b = step_id s -> b <> a ->
         role b = ReadOnlyTransportSubAction /\ effect_class b = EReadOnly).
Proof.
  intros (seen & m & prims & Es & Ea & Ep & _ & Hp & _ & _ & _ & _ & Hm)%validate_projection_Ok.
  apply check_steps_Ok in Es as (Hnd & _ & Hok & Hseen).
  apply check_actions_Ok in Ea as (_ & _ & Hin).
  apply collect_primaries_Ok in Ep as (Huniq & Hro & _ & _).
  rewrite Forall_forall in Hok. rewrite Forall_forall in Hin, Hro. split_and!.
  - apply (NoDup_fmap_1 as_str). by rewrite map_map.
  - intros a Ha. pose proof (Hin a Ha) as Hk. apply Hseen in Hk as [[]%elem_of_nil|Hk].
    apply list_elem_of_fmap in Hk as (s & Hs & Hk). exists s. split; [done|]. by apply id_eq.
  - intros s Hs. split; [by apply Hok|].
    apply list_elem_of_lookup in Hs as [i Hi].
    destruct (Forall2_lookup_l _ _ _ _ _ Hp Hi) as (a & Hai & Ha & Hau).
    exists a. split; [done|]. split; [done|]. intros b Hb Hbs Hne.
    destruct Hau as (Has & Hrole & _).
    destruct (role b) eqn:Hr.
    + destruct Hne. apply (NoDup_map_same action_key _ _ _ Huniq); [by apply primary_elem..|].
      unfold action_key. by rewrite Hbs, Has.
    + split; [done|]. apply Hro; [done|]. unfold is_primary. by rewrite Hr.
Qed.

(** The step [s], carried out by [a], declares the persistent effect [e]. *)
Definition declares (s : PublicFlashStep) (a : PrivateActionRecord) (e : PersistentEffect) : Prop :=
  let within range := forall q, declared_range a = Some q -> contains_range range q = true in
  match e with
  | WritePartition partition range content =>
      kind s = WriteTarget /\ semantic_target s = Some (TargetPartition partition) /\
      content_digest s = Some content /\ action_content a = Some content /\ within range
  | WriteRawRegion region range content =>
      kind s = WriteTarget /\ semantic_target s = Some (TargetRawRegion region) /\
      content_digest s = Some content /\ action_content a = Some content /\ within range
  | ErasePartition partition range =>
      kind s = EraseTarget /\ semantic_target s = Some (TargetPartition partition) /\ within range
  | ReplacePartitionTable _ | ChangeBootMetadata _ _ => False
  end.

Lemma range_matches_within o range :
  range_matches o (Some range) = true -> forall q, o = Some q -> contains_range range q = true.
Proof. intros H q ->. exact H. Qed.

Lemma matches_declares e s target a :
  semantic_target s = Some target -> authorizes s a ->
  persistent_effect_matches e s target a = true -> declares s a e.
Proof.
  intros Ht (_ & _ & _ & _ & _ & Hc) H. unfold persistent_effect_matches in H.
  destruct e, target; try discriminate H;
    repeat (case_bool_decide; cbn [negb] in H; try discriminate H);
    cbn in H |- *; subst;
    split_and!; eauto using range_matches_within.
Qed.

(** C15. The effect set of an accepted projection is exactly what its steps do: the
    persistent effects are, up to order, one effect for each write and erase step,
    with the step's kind, target and content and a range that contains the private
    action's; the transient effects are one for each mode change, reboot and agent
    load.  No declared effect is left without a step, and none is claimed twice. *)
Theorem projection_effects_exact steps plan effects d :
  validate_projection steps plan effects = Ok d ->
  (exists es, es ≡ₚ persistent effects /\
     Forall2 (fun s e => exists a, a ∈ actions plan /\ authorizes s a /\ declares s a e)
       (List.filter writes steps) es) /\
  (exists ts, ts ≡ₚ transient effects /\
     Forall2 (fun s t => transient_effect_matches t s = true) (List.filter moves steps) ts).
Proof.
  intros (seen & m & prims & Es & Ea & Ep & _ & Hp & _ & Hc & _ & _ & Hm)%validate_projection_Ok.
  apply coverage_Ok in Hc as [(es & Hes & Pes) (ts & Hts & Pts)].
  split; [exists es|exists ts]; (split; [done|]); [|exact Hts].
  assert (forall s, s ∈ List.filter writes steps -> exists a, bt_get (step_key s) m = Some a /\
    a ∈ actions plan /\ authorizes s a) as Hprim.
  { intros s Hs. apply list_elem_of_In, filter_In in Hs as [Hs _].
    apply list_elem_of_In, list_elem_of_lookup in Hs as [i Hi].
    destruct (Forall2_lookup_l _ _ _ _ _ Hp Hi) as (a & _ & Ha & Hau). exists a. split; [|done].
    destruct Hau as (Has & Hr & _). apply Hm. split; [done|]. unfold is_primary, action_key.
    by rewrite Hr, Has. }
  revert Hprim. clear Pes. induction Hes as [|s e l es (target & a & Ht & Ha & Hmatch) _ IH];
    intros Hprim; constructor.
  - destruct (Hprim s ltac:(left)) as (b & Hb & Hin & Hau).
    unfold step_key in Hb. rewrite Ha in Hb. injection Hb as <-.
    exists a. split_and!; [done..|]. by eapply matches_declares.
  - apply IH. intros t Hin. apply Hprim. by right.
Qed.

Lemma elem_of_concat_map {A B} (f : A -> list B) l b :
  b ∈ concat (map f l) <-> exists a, a ∈ l /\ b ∈ f a.
Proof.
  rewrite list_elem_of_In, in_concat. split.
  - intros (x & (a & <- & Ha)%in_map_iff & Hb). exists a.
    split; by apply list_elem_of_In.
  - intros (a & Ha & Hb). exists (f a).
    split; [by apply in_map, list_elem_of_In|by apply list_elem_of_In].
Qed.

Lemma NoDup_concat_keys {A B K} (key : B -> K) (f : A -> list B) (g : A -> K) (l : list A) :
  NoDup (map g l) -> (forall a, a ∈ l -> NoDup (f a) /\ forall b, b ∈ f a -> key b = g a) ->
  NoDup (concat (map f l)).
Proof.
  induction l as [|a l IH]; intros Hnd Hf; [constructor|]. cbn [map concat].
  apply NoDup_cons in Hnd as [Hout Hnd]. apply NoDup_app. split_and!.
  - apply Hf. left.
  - intros b Hb (c & Hc & Hbc)%elem_of_concat_map.
    destruct Hout. apply list_elem_of_fmap. exists c. split; [|done].
    rewrite <- (proj2 (Hf a ltac:(left)) b Hb). by apply Hf; [right|].
  - apply IH; [done|]. intros c Hc. apply Hf. by right.
Qed.

Lemma is_sub_action_elem s acts b :
  b ∈ List.filter (is_sub_action_of s) acts <->
  b ∈ acts /\ action_step_id b = step_id s /\ role b <> PrimaryEffect.
Proof.
  rewrite list_elem_of_In, filter_In, <- list_elem_of_In. unfold is_sub_action_of.
  by rewrite andb_true_iff, negb_true_iff, bool_decide_eq_true, bool_decide_eq_false.
Qed.

(** The primary and the sub-actions of every step are all the actions, each once. *)
Lemma grouped_actions steps acts prims :
  NoDup (map step_id steps) -> NoDup acts ->
  (forall a b, a ∈ acts -> b ∈ acts -> role a = PrimaryEffect -> role b = PrimaryEffect ->
     action_step_id a = action_step_id b -> a = b) ->
  (forall a, a ∈ acts -> exists s, s ∈ steps /\ action_step_id a = step_id s) ->
  Forall2 (fun s a => a ∈ acts /\ authorizes s a) steps prims ->
  concat (zip_with (fun s a => a :: List.filter (is_sub_action_of s) acts) steps prims) ≡ₚ acts.
Proof.
  intros Hnd Hacts Huniq Hcover Hp.
  set (f := fun p : PublicFlashStep * PrivateActionRecord =>
              p.2 :: List.filter (is_sub_action_of p.1) acts).
  assert (zip_with (fun s a => a :: List.filter (is_sub_action_of s) acts) steps prims =
    map f (zip steps prims)) as ->.
  { clear. revert prims. induction steps; intros [|]; cbn; f_equal; auto. }
  assert (forall s a, (s, a) ∈ zip steps prims -> s ∈ steps /\ a ∈ acts /\ authorizes s a) as Hzip.
  { intros s a [i Hi]%list_elem_of_lookup.
    apply lookup_zip_with_Some in Hi as (s' & a' & [= <- <-] & Hs & Ha).
    split; [by eapply list_elem_of_lookup_2|]. by eapply (Forall2_lookup_lr _ _ _ _ _ _ Hp). }
  apply NoDup_Permutation; [|done|].
  - apply (NoDup_concat_keys action_step_id f (fun p => step_id p.1)).
    + rewrite <- (map_map fst step_id).
      change (map fst (zip steps prims)) with (zip steps prims).*1.
      rewrite fst_zip; [done|]. by rewrite (Forall2_length _ _ _ Hp).
    + intros [s a] Hin. destruct (Hzip s a Hin) as (_ & Ha & Has & Hr & _). unfold f. cbn [fst snd]. split.
      * constructor; [by intros (_ & _ & ?)%is_sub_action_elem|].
        apply NoDup_ListNoDup, List.NoDup_filter, NoDup_ListNoDup. done.
      * intros b [->|(_ & ? & _)%is_sub_action_elem]%elem_of_cons; done.
  - intros b. rewrite elem_of_concat_map. split.
    + intros ([s a] & Hin & Hb). destruct (Hzip s a Hin) as (_ & Ha & _).
      unfold f in Hb. cbn [fst snd] in Hb.
      by apply elem_of_cons in Hb as [->|(? & _)%is_sub_action_elem].
    + intros Hb. destruct (Hcover b Hb) as (s & Hs & Hbs).
      apply list_elem_of_lookup in Hs as [i Hi].
      destruct (Forall2_lookup_l _ _ _ _ _ Hp Hi) as (a & Hai & Ha & Has & Hr & _).
      exists (s, a). split.
      * apply list_elem_of_lookup. exists i. by rewrite lookup_zip_with, Hi; cbn; rewrite Hai.
      * unfold f. cbn [fst snd]. destruct (role b) eqn:Hrb.
        -- rewrite (Huniq b a); [left|congruence..].
        -- right. apply is_sub_action_elem. split_and!; [done..|congruence].
Qed.

(** Every private action is covered by the authority's digests: an accepted
    projection binds each action of the plan exactly once, with the action's own
    digest, and the provider execution plan digest and the public projection digest
    are over exactly those bindings. *)
Theorem projection_digests_cover steps plan effects d :
  validate_projection steps plan effects = Ok d ->
  exists ordered,
    ordered ≡ₚ actions plan /\ Forall2 bound_to (per_action d) ordered /\
    provider_execution_plan_digest d =
      digest_ordered DProviderExecutionPlan (map bound_digest (per_action d)) /\
    (exists bytes, enc (Array (map to_cbor (per_action d))) bytes /\
       public_projection_digest d = digest_in_domain DPublicProjection bytes).
Proof.
  intros Hok. pose proof (validate_projection_Ok _ _ _ _ Hok)
    as (seen & m & prims & Es & Ea & Ep & _ & Hp & Hb & _ & Hd & Hpub & _).
  eexists. split; [|split; [exact Hb|by split]].
  apply check_steps_Ok in Es as (Hnd & _ & _ & Hseen).
  apply check_actions_Ok in Ea as (Hids & _ & Hin). rewrite Forall_forall in Hin.
  apply collect_primaries_Ok in Ep as (Huniq & _).
  apply grouped_actions; [| | | |exact Hp].
  - apply (NoDup_fmap_1 as_str). by rewrite map_map.
  - by apply (NoDup_fmap_1 (fun a => as_str (action_id a))).
  - intros a b Ha Hb' Hra Hrb Heq.
    apply (NoDup_map_same action_key _ _ _ Huniq); [by apply primary_elem..|].
    unfold action_key. by rewrite Heq.
  - intros a Ha. pose proof (Hin a Ha) as Hk. apply Hseen in Hk as [[]%elem_of_nil|Hk].
    apply list_elem_of_fmap in Hk as (s & Hs & Hk). exists s. split; [done|]. by apply id_eq.
Qed.

(** ** The [expect] never fires *)

Lemma check_steps_no_panic seen steps : check_steps seen steps <> Err ProjectionPanic.
Proof.
  revert seen. induction steps as [|s steps IH]; intros seen; cbn [check_steps]; [done|].
  case_bool_decide; [done|]. by destruct (validate_self_consistent s) as [[]|]; cbn.
Qed.

Lemma check_actions_no_panic steps seen acts : check_actions steps seen acts <> Err ProjectionPanic.
Proof.
  revert seen. induction acts as [|a acts IH]; intros seen; cbn [check_actions]; [done|].
  by repeat (case_bool_decide; cbn).
Qed.

Lemma collect_primaries_no_panic m acts : collect_primaries m acts <> Err ProjectionPanic.
Proof.
  revert m. induction acts as [|a acts IH]; intros m; cbn [collect_primaries]; [done|].
  destruct (role a); [by destruct (bt_get _ m)|]. by case_bool_decide; cbn.
Qed.

Lemma collect_subs_no_panic step l :
  collect_results (map (sub_binding step) l) <> Err ProjectionPanic.
Proof.
  induction l as [|a l IH]; cbn; [done|]. unfold sub_binding at 1.
  destruct (action_digest a); cbn; [|done]. destruct (collect_results _); [done|congruence].
Qed.

Lemma bind_steps_no_panic m acts steps : bind_steps m acts steps <> Err ProjectionPanic.
Proof.
  induction steps as [|s steps IH]; cbn [bind_steps]; [done|].
  assert (bind_step m acts s <> Err ProjectionPanic) as Hs.
  { unfold bind_step, check_target, check_content. pose proof (collect_subs_no_panic s) as Hsub.
    repeat (case_match; cbn in *; simplify_eq; try done); intros [= ->];
      match goal with
      | H : collect_results _ = Err _ |- _ => by apply Hsub in H
      | H : ok_or ?o _ = Err _ |- _ => by destruct o
      | H : map_err _ ?o = Err _ |- _ => by destruct o
      end. }
  destruct (bind_step m acts s); [|congruence]. destruct (bind_steps m acts steps); [done|congruence].
Qed.

Lemma claim_steps_no_panic m effects steps claimed :
  (forall s, s ∈ steps -> is_Some (bt_get (step_key s) m)) ->
  claim_steps m effects steps claimed <> Err ProjectionPanic.
Proof.
  revert claimed. induction steps as [|s steps IH]; intros claimed Hm; cbn [claim_steps]; [done|].
  assert (claim_step m effects s claimed <> Err ProjectionPanic) as Hs.
  { destruct (Hm s ltac:(left)) as [a Ha]. unfold step_key in Ha. unfold claim_step. rewrite Ha.
    repeat (case_match; cbn in *; simplify_eq; try done);
      intros [= ->]; match goal with H : ok_or ?o _ = Err _ |- _ => by destruct o end. }
  destruct (claim_step m effects s claimed); [|congruence]. apply IH. intros t Ht. apply Hm. by right.
Qed.

(** [validate_projection] is total: the [expect] in its coverage check never
    panics, whatever the steps, the private plan and the effect set. *)
Theorem validate_projection_no_panic steps plan effects :
  validate_projection steps plan effects <> Err ProjectionPanic.
Proof.
  unfold validate_projection. destruct (Nat.eqb _ 0); [done|].
  pose proof (check_steps_no_panic [] steps).
  destruct (check_steps [] steps) as [seen|]; [|congruence].
  pose proof (check_actions_no_panic seen [] (actions plan)).
  destruct (check_actions seen [] (actions plan)) as [[]|]; [|congruence].
  pose proof (collect_primaries_no_panic [] (actions plan)).
  destruct (collect_primaries [] (actions plan)) as [m|] eqn:Ep; [|congruence].
  pose proof (bind_steps_no_panic m (actions plan) steps).
  destruct (bind_steps m (actions plan) steps) as [bs|] eqn:Eb; [|congruence].
  assert (forall k a, bt_get k m = Some a <->
    a ∈ actions plan /\ is_primary a = true /\ action_key a = k) as Hm.
  { intros k a. rewrite (proj2 (proj2 (proj2 (collect_primaries_Ok _ _ _ Ep)))). cbn.
    split; [intros [?|?]; done|auto]. }
  assert (claim_steps m effects steps
    (replicate (List.length (persistent effects)) false,
     replicate (List.length (transient effects)) false) <> Err ProjectionPanic) as Hc.
  { apply claim_steps_no_panic. intros s [i Hi]%list_elem_of_lookup.
    destruct (bind_steps_Ok m (actions plan) Hm steps bs Eb) as (prims & Hp & _).
    destruct (Forall2_lookup_l _ _ _ _ _ Hp Hi) as (a & _ & Ha & Has & Hr & _).
    exists a. apply Hm. split; [done|]. unfold is_primary, action_key. by rewrite Hr, Has. }
  unfold validate_effect_coverage.
  destruct (claim_steps _ _ _ _) as [[pc tc]|]; [|congruence].
  destruct (first_unclaimed pc); [done|]. destruct (first_unclaimed tc); [done|].
  by destruct (to_canonical_bytes _).
Qed.

(** ** Instances *)

Definition sample_action (r : PrivateActionRole) (class : WorkflowEffect) (id : string)
    (target : option SemanticTarget) (range : option ByteRange) (content : option Sha256Digest) :
    PrivateActionRecord :=
  mkAction (mkId id) (mkId "STEP-1") r class target range content Null.

(** The step that names the action's digest. *)
Definition step_for (k : FlashStepKind) (e : WorkflowEffect) (a : PrivateActionRecord) : PublicFlashStep :=
  mkStep (mkId "STEP-1") k e NonInterruptible ExactBoundTarget
    (declared_target a) (action_content a) None None
    (match action_digest a with Ok d => d | Err _ => sha256 [] end).

Definition sample_write : PrivateActionRecord :=
  sample_action PrimaryEffect EDestructive "ACT-1" (Some (TargetPartition (mkId "system")))
    (Some (mkRange 8 8)) (Some (sha256 [1])).

Definition sample_read : PrivateActionRecord :=
  sample_action ReadOnlyTransportSubAction EReadOnly "ACT-2" None None None.

Definition sample_plan : StoredProviderPlan := mkPlan [sample_read; sample_write].

Definition sample_steps : list PublicFlashStep := [step_for WriteTarget EDestructive sample_write].

Definition sample_set (range : ByteRange) : EffectSet :=
  mkEffectSet [WritePartition (mkId "system") range (sha256 [1])] []
    (mkImpact Preserved Preserved Preserved Preserved).

(** The digests of the sample projection. *)
Definition sample_digests : ProjectionDigests :=
  match validate_projection sample_steps sample_plan (sample_set (mkRange 0 64)) with
  | Ok d => d
  | Err _ => mkProjection [] (sha256 []) (sha256 [])
  end.

Lemma sample_projection :
  validate_projection sample_steps sample_plan (sample_set (mkRange 0 64)) = Ok sample_digests.
Proof.
  unfold sample_digests.
  assert (is_ok (validate_projection sample_steps sample_plan (sample_set (mkRange 0 64))) = true) as H
    by (vm_compute; reflexivity).
  by destruct (validate_projection _ _ _).
Qed.

(** A private range beyond the declared one is refused. *)
Example range_beyond_effect :
  validate_projection sample_steps sample_plan (sample_set (mkRange 0 12)) =
    Err (StepEffectNotDeclared "STEP-1" WriteTarget).
Proof. vm_compute. reflexivity. Qed.

Lemma projection_contains_actions_witness :
  exists s, s ∈ sample_steps /\ action_step_id sample_read = step_id s.
Proof.
  apply (proj1 (proj2 (projection_contains_actions sample_steps sample_plan (sample_set (mkRange 0 64))
    sample_digests sample_projection))). left.
Defined.

Lemma projection_effects_exact_witness :
  exists es, es ≡ₚ persistent (sample_set (mkRange 0 64)) /\
    Forall2 (fun s e => exists a, a ∈ actions sample_plan /\ authorizes s a /\ declares s a e)
      (List.filter writes sample_steps) es.
Proof.
  exact (proj1 (projection_effects_exact sample_steps sample_plan (sample_set (mkRange 0 64))
    sample_digests sample_projection)).
Defined.

Lemma projection_digests_cover_witness :
  exists ordered, ordered ≡ₚ actions sample_plan /\ Forall2 bound_to (per_action sample_digests) ordered.
Proof.
  destruct (projection_digests_cover sample_steps sample_plan (sample_set (mkRange 0 64))
    sample_digests sample_projection) as (ordered & Hp & Hb & _).
  exists ordered. split; [exact Hp|exact Hb].
Defined.

(** A destructive action behind a probe step: nothing in the effect set, nothing
    claimed, and the projection is accepted.  Only write and erase steps have to
    claim a persistent effect, and a probe step may declare itself destructive. *)
Definition destructive_probe : PrivateActionRecord :=
  sample_action PrimaryEffect EDestructive "ACT-1" None None None.

Lemma is_ok_Ok {E A} (r : result E A) : is_ok r = true -> exists a, r = Ok a.
Proof. destruct r; [by eexists|done]. Qed.

Lemma destructive_probe_is_accepted :
  effect_class destructive_probe = EDestructive /\ is_destructive read_only = false /\
  exists d,
    validate_projection [step_for ProbeDevice EDestructive destructive_probe]
      (mkPlan [destructive_probe]) read_only = Ok d.
Proof.
  split; [reflexivity|]. split; [reflexivity|]. apply is_ok_Ok. vm_compute. reflexivity.
Qed.
