(* ===== verification/Identity.v ===== *)
(** * Identities and maturity (crates/arkforge-core/src/identity.rs)

    Versions, the identities of providers, profiles, artifacts and toolchains, the
    maturity of a combination, and negotiated capabilities, with their encodings. *)

From S2P Require Import Prelude Cbor Sha256 Digest Fields Authority.

(** ** Versions *)

Record Version := mkVersion { major : Z; minor : Z; patch : Z }.

#[global] Instance Version_eq_dec : EqDecision Version.
Proof. solve_decision. Defined.

(** [str::split('.')], on the bytes of the string. *)
Fixpoint split_dots (l : bytes) : list bytes :=
  match l with
  | [] => [[]]
  | b :: l =>
      if b =? 46 then [] :: split_dots l
      else match split_dots l with
           | [] => [[b]]
           | part :: parts => (b :: part) :: parts
           end
  end.

(** The digits of [u32::from_str], most significant first, with its overflow check. *)
Fixpoint parse_digits (acc : Z) (l : bytes) : option Z :=
  match l with
  | [] => Some acc
  | b :: l =>
      if in_range 48 57 b then
        let acc := acc * 10 + (b - 48) in
        if acc <=? U32_MAX then parse_digits acc l else None
      else None
  end.

(** [str::parse::<u32>]: an optional [+] before at least one digit. *)
Definition parse_u32 (l : bytes) : option Z :=
  match l with
  | [] => None
  | b :: rest =>
      if b =? 43 then match rest with [] => None | _ => parse_digits 0 rest end
      else parse_digits 0 l
  end.

(** [Version::parse]. *)
Definition version_parse (value : string) : option Version :=
  match split_dots (bytes_of_string value) with
  | [a; b; c] =>
      match parse_u32 a, parse_u32 b, parse_u32 c with
      | Some major, Some minor, Some patch => Some (mkVersion major minor patch)
      | _, _, _ => None
      end
  | _ => None
  end.

#[global] Instance version_cbor : CanonicalCbor Version := fun v =>
  Array [Unsigned (major v); Unsigned (minor v); Unsigned (patch v)].

(** ** Identities *)

Record ProviderIdentity := mkProvider {
  provider_id : OpaqueId;
  provider_version : Version;
  implementation_digest : Sha256Digest
}.

#[global] Instance ProviderIdentity_eq_dec : EqDecision ProviderIdentity.
Proof. solve_decision. Defined.

#[global] Instance provider_cbor : CanonicalCbor ProviderIdentity := fun p =>
  map_of [("id", to_cbor (provider_id p)); ("version", to_cbor (provider_version p));
          ("implementationDigest", to_cbor (implementation_digest p))]%string.

Record DeviceProfileIdentity := mkProfile {
  profile_id : OpaqueId;
  profile_version : Version;
  profile_digest : Sha256Digest
}.

#[global] Instance DeviceProfileIdentity_eq_dec : EqDecision DeviceProfileIdentity.
Proof. solve_decision. Defined.

#[global] Instance profile_cbor : CanonicalCbor DeviceProfileIdentity := fun p =>
  map_of [("id", to_cbor (profile_id p)); ("version", to_cbor (profile_version p));
          ("digest", to_cbor (profile_digest p))]%string.

Record ArtifactFormat := mkFormat { format_id : OpaqueId; format_version : Version }.

#[global] Instance ArtifactFormat_eq_dec : EqDecision ArtifactFormat.
Proof. solve_decision. Defined.

#[global] Instance format_cbor : CanonicalCbor ArtifactFormat := fun f =>
  map_of [("id", to_cbor (format_id f)); ("version", to_cbor (format_version f))]%string.

Record ArtifactIdentity := mkArtifact {
  artifact_id : OpaqueId;
  artifact_format : ArtifactFormat;
  artifact_content_digest : Sha256Digest;
  size_bytes : Z;
  manifest_digest : Sha256Digest
}.

#[global] Instance ArtifactIdentity_eq_dec : EqDecision ArtifactIdentity.
Proof. solve_decision. Defined.

#[global] Instance artifact_cbor : CanonicalCbor ArtifactIdentity := fun a =>
  map_of [("artifactId", to_cbor (artifact_id a)); ("format", to_cbor (artifact_format a));
          ("contentDigest", to_cbor (artifact_content_digest a));
          ("sizeBytes", Unsigned (size_bytes a));
          ("manifestDigest", to_cbor (manifest_digest a))]%string.

Inductive ToolchainKind : Type := FixedTool | NativeProtocol | Replay.

#[global] Instance ToolchainKind_eq_dec : EqDecision ToolchainKind.
Proof. solve_decision. Defined.

Definition toolchain_kind_as_str (k : ToolchainKind) : string :=
  match k with
  | FixedTool => "fixedTool"
  | NativeProtocol => "nativeProtocol"
  | Replay => "replay"
  end.

Definition toolchain_kind_parse (value : string) : option ToolchainKind :=
  if String.eqb value "fixedTool" then Some FixedTool
  else if String.eqb value "nativeProtocol" then Some NativeProtocol
  else if String.eqb value "replay" then Some Replay
  else None.

Record ToolchainIdentity := mkToolchain {
  toolchain_id : OpaqueId;
  toolchain_kind : ToolchainKind;
  toolchain_version : Version;
  backend_digest : Sha256Digest;
  upstream_ref : option string
}.

#[global] Instance ToolchainIdentity_eq_dec : EqDecision ToolchainIdentity.
Proof. solve_decision. Defined.

#[global] Instance toolchain_cbor : CanonicalCbor ToolchainIdentity := fun t =>
  map_of [("id", to_cbor (toolchain_id t));
          ("kind", Text (toolchain_kind_as_str (toolchain_kind t)));
          ("version", to_cbor (toolchain_version t));
          ("backendDigest", to_cbor (backend_digest t));
          ("upstreamRef", text_or_null (upstream_ref t))]%string.

Record HostPlatform := mkPlatform { os : OpaqueId; arch : OpaqueId }.

Definition HostPlatform_new (os arch : string) : result IdError HostPlatform :=
  let? os := OpaqueId_new os in let? arch := OpaqueId_new arch in Ok (mkPlatform os arch).

#[global] Instance platform_cbor : CanonicalCbor HostPlatform := fun p =>
  map_of [("os", to_cbor (os p)); ("arch", to_cbor (arch p))]%string.

(** ** Maturity *)

Record MaturityKey := mkMaturityKey {
  mk_provider : ProviderIdentity;
  mk_profile : DeviceProfileIdentity;
  mk_artifact_format : ArtifactFormat;
  mk_toolchain : ToolchainIdentity;
  mk_host_platform : HostPlatform;
  mk_driver_facts_digest : Sha256Digest;
  mk_evidence_set_digest : Sha256Digest
}.

#[global] Instance maturity_key_cbor : CanonicalCbor MaturityKey := fun k =>
  map_of [("provider", to_cbor (mk_provider k)); ("profile", to_cbor (mk_profile k));
          ("artifactFormat", to_cbor (mk_artifact_format k));
          ("toolchain", to_cbor (mk_toolchain k));
          ("hostPlatform", to_cbor (mk_host_platform k));
          ("driverFactsDigest", to_cbor (mk_driver_facts_digest k));
          ("evidenceSetDigest", to_cbor (mk_evidence_set_digest k))]%string.

Definition maturity_key_digest (k : MaturityKey) : result CborError Sha256Digest :=
  digest_canonical DProviderFacts k.

Inductive MaturityState : Type :=
| MProductionVerified
| MHardwareCampaign (campaign : string)
| MHardwareGated (blocker : string)
| MPlanOnly (blocker : string)
| MResearchOnly (blocker : string)
| MUnavailable (reason : string).

#[global] Instance MaturityState_eq_dec : EqDecision MaturityState.
Proof. solve_decision. Defined.

Definition permits_executable_plan (m : MaturityState) : bool :=
  match m with MProductionVerified | MHardwareCampaign _ => true | _ => false end.

Definition is_production_evidence (m : MaturityState) : bool :=
  match m with MProductionVerified => true | _ => false end.

Definition maturity_campaign (m : MaturityState) : option string :=
  match m with MHardwareCampaign campaign => Some campaign | _ => None end.

Definition maturity_as_str (m : MaturityState) : string :=
  match m with
  | MProductionVerified => "productionVerified"
  | MHardwareCampaign _ => "hardwareCampaign"
  | MHardwareGated _ => "hardwareGated"
  | MPlanOnly _ => "planOnly"
  | MResearchOnly _ => "researchOnly"
  | MUnavailable _ => "unavailable"
  end.

Definition maturity_blocker (m : MaturityState) : option string :=
  match m with
  | MProductionVerified | MHardwareCampaign _ => None
  | MHardwareGated blocker | MPlanOnly blocker | MResearchOnly blocker => Some blocker
  | MUnavailable reason => Some reason
  end.

#[global] Instance maturity_cbor : CanonicalCbor MaturityState := fun m =>
  map_of [("state", Text (maturity_as_str m));
          ("blocker", text_or_null (maturity_blocker m));
          ("campaign", text_or_null (maturity_campaign m))]%string.

(** ** Capabilities *)

Record NegotiatedCapabilities := mkCapabilities { entries : list (OpaqueId * bool) }.

#[global] Instance NegotiatedCapabilities_eq_dec : EqDecision NegotiatedCapabilities.
Proof. solve_decision. Defined.

Definition capabilities_empty : NegotiatedCapabilities := mkCapabilities [].

Definition is_enabled (c : NegotiatedCapabilities) (capability : string) : bool :=
  existsb (fun '(id, enabled) => String.eqb (as_str id) capability && enabled) (entries c).

#[global] Instance capabilities_cbor : CanonicalCbor NegotiatedCapabilities := fun c =>
  Map (map (fun '(id, enabled) => (to_cbor id, Bool enabled)) (entries c)).

(** ** Well-formed identities encode *)

Definition version_ok (v : Version) : Prop := u32 (major v) /\ u32 (minor v) /\ u32 (patch v).

Definition option_text_ok (o : option string) : Prop :=
  match o with Some s => text_ok s | None => True end.

Definition provider_ok (p : ProviderIdentity) : Prop :=
  id_ok (provider_id p) /\ version_ok (provider_version p) /\ digest_ok (implementation_digest p).

Definition profile_ok (p : DeviceProfileIdentity) : Prop :=
  id_ok (profile_id p) /\ version_ok (profile_version p) /\ digest_ok (profile_digest p).

Definition format_ok (f : ArtifactFormat) : Prop :=
  id_ok (format_id f) /\ version_ok (format_version f).

Definition artifact_ok (a : ArtifactIdentity) : Prop :=
  id_ok (artifact_id a) /\ format_ok (artifact_format a) /\ digest_ok (artifact_content_digest a) /\
  u64 (size_bytes a) /\ digest_ok (manifest_digest a).

Definition toolchain_ok (t : ToolchainIdentity) : Prop :=
  id_ok (toolchain_id t) /\ version_ok (toolchain_version t) /\ digest_ok (backend_digest t) /\
  option_text_ok (upstream_ref t).

Definition maturity_ok (m : MaturityState) : Prop :=
  option_text_ok (maturity_blocker m) /\ option_text_ok (maturity_campaign m).

(** A capability list of well-formed names, none given twice: the encoder refuses a
    repeated key. *)
Definition capabilities_ok (c : NegotiatedCapabilities) : Prop :=
  u64 (zlen (entries c)) /\ Forall (fun e => id_ok e.1) (entries c) /\ NoDup (map fst (entries c)).

Lemma u32_u64 z : u32 z -> u64 z.
Proof. ints. lia. Qed.

#[export] Hint Resolve u32_u64 : ark.

Lemma writable_version v : version_ok v -> writable (to_cbor v).
Proof.
  intros (? & ? & ?). apply writable_array; [vm_compute; split; congruence|].
  repeat (apply Forall_cons_2; [auto with ark|]). constructor.
Qed.

Lemma writable_text_or_null o : option_text_ok o -> writable (text_or_null o).
Proof. destruct o; cbn; auto with ark. Qed.

#[export] Hint Resolve writable_version writable_text_or_null : ark.

Lemma writable_provider p : provider_ok p -> writable (to_cbor p).
Proof. intros (? & ? & ?). writable_map. Qed.

Lemma writable_profile p : profile_ok p -> writable (to_cbor p).
Proof. intros (? & ? & ?). writable_map. Qed.

Lemma writable_format f : format_ok f -> writable (to_cbor f).
Proof. intros (? & ?). writable_map. Qed.

#[export] Hint Resolve writable_provider writable_profile writable_format : ark.

Lemma writable_artifact a : artifact_ok a -> writable (to_cbor a).
Proof. intros (? & ? & ? & ? & ?). writable_map. Qed.

Lemma writable_toolchain t : toolchain_ok t -> writable (to_cbor t).
Proof. destruct t as [? [] ? ? ?]; intros (? & ? & ? & ?); writable_map. Qed.

Lemma writable_maturity m : maturity_ok m -> writable (to_cbor m).
Proof. destruct m; intros [? ?]; writable_map. Qed.

Lemma capabilities_entries c :
  to_cbor c = Map (text_entries (map (fun e => (as_str e.1, Bool e.2)) (entries c))).
Proof.
  unfold to_cbor, capabilities_cbor, text_entries. f_equal. rewrite map_map. apply map_ext. by intros [].
Qed.

Lemma writable_capabilities c : capabilities_ok c -> writable (to_cbor c).
Proof.
  intros (Hl & Hid & Hnd). split.
  - constructor; [unfold zlen in *; by rewrite length_map|]. apply Forall_map.
    eapply Forall_impl; [exact Hid|]. intros [i b] Hi. cbn in *. split; [by apply id_cbor_ok|constructor].
  - rewrite capabilities_entries. apply text_map_encodes.
    + apply Forall_map. eapply Forall_impl; [exact Hid|]. intros ? ?. by apply id_short.
    + apply Forall_map, Forall_true. intros e. by eexists.
    + rewrite map_map. cbn [fst]. rewrite <- (map_map fst as_str). apply NoDup_fmap_2; [|done].
      intros [] [] [=]. by subst.
Qed.

#[export] Hint Resolve writable_artifact writable_toolchain writable_maturity writable_capabilities : ark.

(** ** Versions read back from their text *)

(** [Display for Version], each component in decimal: the digits of [z], least
    significant last.  Ten rounds print any [u32]. *)
Fixpoint decimal_rounds (rounds : nat) (z : Z) : bytes :=
  match rounds with
  | O => []
  | S rounds => (if z <? 10 then [] else decimal_rounds rounds (z / 10)) ++ [48 + z mod 10]
  end.

Definition decimal (z : Z) : bytes := decimal_rounds 10 z.

Definition version_to_string (v : Version) : string :=
  string_of_bytes (decimal (major v) ++ [46] ++ decimal (minor v) ++ [46] ++ decimal (patch v)).

Definition digit_bytes (l : bytes) : Prop := Forall (fun b => 48 <= b <= 57) l.

Lemma decimal_digits n z : 0 <= z -> digit_bytes (decimal_rounds n z).
Proof.
  revert z. induction n as [|n IH]; intros z Hz; cbn [decimal_rounds]; [constructor|].
  apply Forall_app. pose proof (Z.mod_pos_bound z 10 ltac:(lia)). split.
  - destruct (z <? 10); [constructor|]. apply IH. by apply Z.div_pos.
  - repeat constructor; lia.
Qed.

Lemma parse_digits_app acc l k :
  parse_digits acc (l ++ k) = match parse_digits acc l with Some a => parse_digits a k | None => None end.
Proof.
  revert acc. induction l as [|b l IH]; intros acc; cbn [parse_digits app]; [done|].
  destruct (in_range 48 57 b); [|done]. by destruct (_ <=? U32_MAX).
Qed.

Lemma parse_decimal_rounds n z :
  0 <= z < 10 ^ Z.of_nat (S n) -> z <= U32_MAX -> parse_digits 0 (decimal_rounds (S n) z) = Some z.
Proof.
  revert z. induction n as [|n IH]; intros z Hz Hmax; pose proof (Z.mod_pos_bound z 10 ltac:(lia)) as Hm;
    pose proof (Z.div_mod z 10 ltac:(lia)) as Hd.
  - change (10 ^ Z.of_nat 1) with 10 in Hz. cbn [decimal_rounds].
    destruct (Z.ltb_spec z 10); [|lia]. rewrite Z.mod_small by lia. cbn [app parse_digits].
    unfold in_range. destruct (Z.leb_spec 48 (48 + z)); [|lia]. destruct (Z.leb_spec (48 + z) 57); [|lia].
    cbn [andb]. replace (0 * 10 + (48 + z - 48)) with z by lia.
    by destruct (Z.leb_spec z U32_MAX); [|lia].
  - remember (S n) as m. cbn [decimal_rounds]. rewrite parse_digits_app.
    assert (parse_digits 0 (if z <? 10 then [] else decimal_rounds m (z / 10)) = Some (z / 10)) as ->.
    { subst m. destruct (Z.ltb_spec z 10); [by rewrite Z.div_small by lia|].
      rewrite Nat2Z.inj_succ, Z.pow_succ_r in Hz by lia. apply IH; [|lia].
      split; [apply Z.div_pos; lia|apply Z.div_lt_upper_bound; lia]. }
    cbn [parse_digits]. unfold in_range. destruct (Z.leb_spec 48 (48 + z mod 10)); [|lia].
    destruct (Z.leb_spec (48 + z mod 10) 57); [|lia]. cbn [andb].
    replace (z / 10 * 10 + (48 + z mod 10 - 48)) with z by lia. by destruct (Z.leb_spec z U32_MAX); [|lia].
Qed.

Lemma parse_u32_decimal z : u32 z -> parse_u32 (decimal z) = Some z.
Proof.
  intros Hz. assert (0 <= z < 10 ^ Z.of_nat 10) as Hr by (change (10 ^ Z.of_nat 10) with 10000000000; ints; lia).
  pose proof (parse_decimal_rounds 9 z Hr ltac:(ints; lia)) as Hp. fold (decimal z) in Hp.
  pose proof (decimal_digits 10 z ltac:(ints; lia)) as Hd. fold (decimal z) in Hd.
  assert (decimal z <> []) as Hne by (unfold decimal; cbn [decimal_rounds]; by intros [_ ?]%app_eq_nil).
  unfold parse_u32. destruct (decimal z) as [|b l]; [done|]. inversion Hd; subst.
  destruct (Z.eqb_spec b 43); [lia|done].
Qed.

Lemma split_dots_one l : digit_bytes l -> split_dots l = [l].
Proof.
  induction 1 as [|b l Hb _ IH]; [done|]. cbn [split_dots]. destruct (Z.eqb_spec b 46); [lia|]. by rewrite IH.
Qed.

Lemma split_dots_app l k : digit_bytes l -> split_dots (l ++ 46 :: k) = l :: split_dots k.
Proof.
  induction 1 as [|b l Hb _ IH]; [done|]. cbn [split_dots app]. destruct (Z.eqb_spec b 46); [lia|]. by rewrite IH.
Qed.

(** A version printed as text parses back to itself: [Version::parse] inverts
    [Display] on every version. *)
Theorem version_roundtrip v : version_ok v -> version_parse (version_to_string v) = Some v.
Proof.
  destruct v as [a b c]. intros (Ha & Hb & Hc). cbn [major minor patch] in *.
  assert (forall z, u32 z -> digit_bytes (decimal z)) as Hd
    by (intros z Hz; apply decimal_digits; ints; lia).
  unfold version_parse, version_to_string. cbn [major minor patch].
  rewrite bytes_of_string_of_bytes.
  - cbn [app]. rewrite split_dots_app, split_dots_app, split_dots_one by auto.
    by rewrite !parse_u32_decimal.
  - assert (forall l, digit_bytes l -> bytes_ok l) as Hb8
      by (intros l Hl; eapply Forall_impl; [exact Hl|]; intros; zlia).
    apply bytes_ok_app; split; [by apply Hb8, Hd|]. cbn [app]. apply bytes_ok_cons; [zlia|].
    apply bytes_ok_app; split; [by apply Hb8, Hd|]. apply bytes_ok_cons; [zlia|]. by apply Hb8, Hd.
Qed.

Lemma version_roundtrip_witness :
  version_parse (version_to_string (mkVersion 1 32 4294967295)) = Some (mkVersion 1 32 4294967295).
Proof. apply version_roundtrip. unfold version_ok. cbn. ints. lia. Defined.

Example version_overflow : version_parse "4294967296.0.0" = None.
Proof. reflexivity. Qed.

Example version_plus : version_parse "+1.2.3" = Some (mkVersion 1 2 3).
Proof. reflexivity. Qed.
