(* ===== verification/Verification.v ===== *)
(** * Read-domain-aware verification (crates/arkforge-core/src/verification.rs)

    What a profile declares about reading a target back, what a session measured, and the
    verdict on one attempt.  Outside the measured read domain an observation is no evidence:
    the verdict is a typed skip whatever was read. *)

From S2P Require Import Prelude Cbor Sha256 Digest Fields Effect.

Inductive VerificationStrength : Type := SemanticOnly | PrefixHash | SampledRanges | FullHash.

#[global] Instance VerificationStrength_eq_dec : EqDecision VerificationStrength.
Proof. solve_decision. Defined.

Definition strength_as_str (s : VerificationStrength) : string :=
  match s with
  | SemanticOnly => "semanticOnly"
  | PrefixHash => "prefixHash"
  | SampledRanges => "sampledRanges"
  | FullHash => "fullHash"
  end.

Definition strength_parse (value : string) : option VerificationStrength :=
  if String.eqb value "semanticOnly" then Some SemanticOnly
  else if String.eqb value "prefixHash" then Some PrefixHash
  else if String.eqb value "sampledRanges" then Some SampledRanges
  else if String.eqb value "fullHash" then Some FullHash
  else None.

Inductive ReadDomainDeclaration : Type := ReadFull | ReadCharacterizeAtRuntime.

#[global] Instance ReadDomainDeclaration_eq_dec : EqDecision ReadDomainDeclaration.
Proof. solve_decision. Defined.

Definition read_domain_as_str (d : ReadDomainDeclaration) : string :=
  match d with ReadFull => "full" | ReadCharacterizeAtRuntime => "characterize-at-runtime" end.

Definition read_domain_parse (value : string) : option ReadDomainDeclaration :=
  if String.eqb value "full" then Some ReadFull
  else if String.eqb value "characterize-at-runtime" then Some ReadCharacterizeAtRuntime
  else None.

(** A measured read domain; a window that ends early keeps what was measured. *)
Inductive MeasuredReadDomain : Type :=
| MeasuredFull
| Windowed (detail : string).

(** No boundary is computed inside a window, so the range does not matter. *)
Definition domain_covers (d : MeasuredReadDomain) (range : ByteRange) : bool :=
  match d with MeasuredFull => true | Windowed _ => false end.

Definition domain_detail (d : MeasuredReadDomain) : option string :=
  match d with MeasuredFull => None | Windowed detail => Some detail end.

Inductive ReadbackObservation : Type :=
| ContentMatched
| UniformFiller (byte : Z)
| ContentMismatched (observed : Sha256Digest).

Inductive TypedSkipReason : Type := OutsideReadDomain | ProfileDeclaresUnreachable.

Definition skip_as_str (r : TypedSkipReason) : string :=
  match r with
  | OutsideReadDomain => "skipped-lba-read-window"
  | ProfileDeclaresUnreachable => "profile-declares-unreachable"
  end.

Inductive FailureClassification : Type := ContentMismatch | ErasedMediumFiller.

Definition failure_as_str (c : FailureClassification) : string :=
  match c with ContentMismatch => "content-mismatch" | ErasedMediumFiller => "erased-medium-filler" end.

Inductive VerificationOutcome : Type :=
| Verified (strength : VerificationStrength) (range : ByteRange)
| TypedSkip (range : ByteRange) (reason : TypedSkipReason) (detail : string)
| Failed (range : ByteRange) (classification : FailureClassification).

Definition verified_strength (o : VerificationOutcome) : option VerificationStrength :=
  match o with Verified strength _ => Some strength | _ => None end.

Definition is_failure (o : VerificationOutcome) : bool := match o with Failed _ _ => true | _ => false end.

Definition verdict_as_str (o : VerificationOutcome) : string :=
  match o with Verified _ _ => "verified" | TypedSkip _ _ _ => "typedSkip" | Failed _ _ => "failed" end.

Record VerificationFallback := mkFallback { write_completion_semantics : bool; build_postflight : bool }.

#[global] Instance VerificationFallback_eq_dec : EqDecision VerificationFallback.
Proof. solve_decision. Defined.

Record TargetVerificationDeclaration := mkVerification {
  max_strength_when_readable : VerificationStrength;
  verification_fallback : VerificationFallback
}.

#[global] Instance TargetVerificationDeclaration_eq_dec : EqDecision TargetVerificationDeclaration.
Proof. solve_decision. Defined.

Section Encodings.
Local Open Scope string_scope.

#[global] Instance strength_cbor : CanonicalCbor VerificationStrength := fun s => Text (strength_as_str s).
#[global] Instance read_domain_cbor : CanonicalCbor ReadDomainDeclaration := fun d => Text (read_domain_as_str d).

#[global] Instance measured_cbor : CanonicalCbor MeasuredReadDomain := fun d =>
  match d with
  | MeasuredFull => map_of [("domain", Text "full"); ("detail", Null)]
  | Windowed detail => map_of [("domain", Text "windowed"); ("detail", Text detail)]
  end.

#[global] Instance outcome_cbor : CanonicalCbor VerificationOutcome := fun o =>
  match o with
  | Verified strength range =>
      map_of [("outcome", Text "verified"); ("strength", to_cbor strength); ("range", to_cbor range)]
  | TypedSkip range reason detail =>
      map_of [("outcome", Text "typedSkip"); ("range", to_cbor range);
              ("reason", Text (skip_as_str reason)); ("detail", Text detail)]
  | Failed range classification =>
      map_of [("outcome", Text "failed"); ("range", to_cbor range);
              ("classification", Text (failure_as_str classification))]
  end.

#[global] Instance fallback_cbor : CanonicalCbor VerificationFallback := fun f =>
  map_of [("writeCompletionSemantics", Bool (write_completion_semantics f));
          ("buildPostflight", Bool (build_postflight f))].

#[global] Instance verification_cbor : CanonicalCbor TargetVerificationDeclaration := fun v =>
  map_of [("maxStrengthWhenReadable", to_cbor (max_strength_when_readable v));
          ("fallback", to_cbor (verification_fallback v))].
End Encodings.

(** The read domain is asked first. *)
Definition classify_verification (range : ByteRange) (read_domain : MeasuredReadDomain)
    (declaration : TargetVerificationDeclaration) (observation : option ReadbackObservation) :
    VerificationOutcome :=
  if negb (domain_covers read_domain range) then
    TypedSkip range OutsideReadDomain
      (default "read domain does not cover this range"%string (domain_detail read_domain))
  else
    match observation with
    | None => TypedSkip range ProfileDeclaresUnreachable "no readback was performed for this target"
    | Some ContentMatched => Verified (max_strength_when_readable declaration) range
    | Some (UniformFiller _) => Failed range ErasedMediumFiller
    | Some (ContentMismatched _) => Failed range ContentMismatch
    end.

(** ** What the names and encodings determine *)

Lemma strength_parse_str s : strength_parse (strength_as_str s) = Some s.
Proof. by destruct s. Qed.

Lemma read_domain_parse_str d : read_domain_parse (read_domain_as_str d) = Some d.
Proof. by destruct d. Qed.

Lemma strength_str_inj s t : strength_as_str s = strength_as_str t -> s = t.
Proof. by destruct s, t. Qed.

Lemma read_domain_str_inj s t : read_domain_as_str s = read_domain_as_str t -> s = t.
Proof. by destruct s, t. Qed.

Lemma fallback_inj (f g : VerificationFallback) : cbor_eq (to_cbor f) (to_cbor g) -> f = g.
Proof.
  intros H. same_field H "writeCompletionSemantics" H1. same_field H "buildPostflight" H2.
  destruct f, g. cbn in *. by inversion H1; inversion H2; subst.
Qed.

Lemma verification_inj (v w : TargetVerificationDeclaration) : cbor_eq (to_cbor v) (to_cbor w) -> v = w.
Proof.
  intros H. same_field H "maxStrengthWhenReadable" H1. same_field H "fallback" H2.
  apply cbor_eq_text, strength_str_inj in H1. apply fallback_inj in H2.
  destruct v, w. cbn in *. by subst.
Qed.

Lemma writable_fallback (f : VerificationFallback) : writable (to_cbor f).
Proof. writable_map. Qed.

Lemma writable_strength (s : VerificationStrength) : writable (to_cbor s).
Proof. destruct s; writable_literal. Qed.

#[export] Hint Resolve writable_fallback writable_strength : ark.

Lemma writable_verification (v : TargetVerificationDeclaration) : writable (to_cbor v).
Proof. writable_map. Qed.

#[export] Hint Resolve writable_verification : ark.

(** ** The verdict *)

(** A range counts as verified exactly when the read face reaches the whole medium and the
    content matched, at no other strength than the declared one; outside the read domain
    nothing that was read, not even filler, makes it a failure. *)
Theorem verification_verdicts range domain declaration observation :
  let outcome := classify_verification range domain declaration observation in
  (forall s, verified_strength outcome = Some s <->
     domain = MeasuredFull /\ observation = Some ContentMatched /\ s = max_strength_when_readable declaration) /\
  (is_failure outcome = true <->
     domain = MeasuredFull /\ exists o, observation = Some o /\ o <> ContentMatched) /\
  (forall o, domain <> MeasuredFull -> classify_verification range domain declaration o = outcome).
Proof.
  destruct domain as [|detail], observation as [[| |]|]; cbn; split_and!; try done;
    try (intros s; split; [by intros [= <-]|]; by intros (? & ? & ->));
    split; try done; try (intros (? & ? & ? & ?); congruence); eauto.
Qed.

Lemma verification_verdicts_witness :
  Windowed "short" <> MeasuredFull ->
  classify_verification (mkRange 0 1) (Windowed "short") (mkVerification FullHash (mkFallback true true))
    (Some (UniformFiller 204)) =
  classify_verification (mkRange 0 1) (Windowed "short") (mkVerification FullHash (mkFallback true true))
    (Some ContentMatched).
Proof.
  intros H. destruct (verification_verdicts (mkRange 0 1) (Windowed "short")
    (mkVerification FullHash (mkFallback true true)) (Some ContentMatched)) as (_ & _ & Hsame).
  by apply Hsame.
Defined.
