(* ===== verification/Profile.v ===== *)
(** * Device profiles (crates/arkforge-core/src/profile.rs)

    The facts of a device a plan is built against, as records with their encodings, what a
    loaded profile answers, why one cannot back an executable plan, and [validate].  The
    loader is in [ProfileLoad]. *)

From S2P Require Import Prelude Cbor Sha256 Digest Fields Authority Identity Effect Verification.

Definition PROFILE_SCHEMA_VERSION : string := "arkforge.device-profile/v1".
Definition MAX_IDENTITY_LABEL_LEN : Z := 128.

Record SocIdentity := mkSoc { soc_vendor : OpaqueId; soc_family : OpaqueId }.

Inductive HardwareRevisionPolicy : Type :=
| Allow (revisions : list string)
| AnyRevision (evidence_ref : OpaqueId).

Record ProviderCombination := mkCombination {
  combination_provider : OpaqueId;
  combination_backend : OpaqueId;
  minimum_version : Version;
  maximum_version_exclusive : Version
}.

Record UsbModeIdentity := mkUsbMode {
  usb_mode : DeviceMode;
  vendor_id : Z;
  product_id : Z;
  usb_evidence_ref : OpaqueId
}.

Record ModeDeclaration := mkModeDeclaration { mode_id : DeviceMode; mode_aliases : list DeviceMode }.

Record RebindTolerance := mkRebind {
  require_disconnect : bool;
  tolerance_window_ms : Z;
  tolerate_transient_malformed : bool
}.

Inductive IdentityFieldPolicy : Type := MustMatch | MayChange.

Definition policy_as_str (p : IdentityFieldPolicy) : string :=
  match p with MustMatch => "must-match" | MayChange => "may-change" end.

Definition policy_parse (value : string) : option IdentityFieldPolicy :=
  if String.eqb value "must-match" then Some MustMatch
  else if String.eqb value "may-change" then Some MayChange
  else None.

Record ModeTransition := mkTransition {
  transition_from : DeviceMode;
  transition_to : DeviceMode;
  transition_action : OpaqueId;
  rebind : RebindTolerance;
  serial_policy : IdentityFieldPolicy;
  topology_policy : IdentityFieldPolicy
}.

Record StorageDeclaration := mkStorage { storage_kind : OpaqueId; logical_block_size : option Z }.

Inductive WriteDomainDeclaration : Type := FullDisk | WriteCharacterizeAtRuntime.

Definition write_domain_as_str (d : WriteDomainDeclaration) : string :=
  match d with FullDisk => "full-disk" | WriteCharacterizeAtRuntime => "characterize-at-runtime" end.

Definition write_domain_parse (value : string) : option WriteDomainDeclaration :=
  if String.eqb value "full-disk" then Some FullDisk
  else if String.eqb value "characterize-at-runtime" then Some WriteCharacterizeAtRuntime
  else None.

Record ReadDomainPolicy := mkReadDomain {
  write_face : WriteDomainDeclaration;
  read_face : ReadDomainDeclaration;
  erased_medium_filler : option Z
}.

Record AllowedTarget := mkTarget {
  target_partition : OpaqueId;
  write_order : Z;
  offset_sectors : Z;
  source_member : option string;
  target_verification : TargetVerificationDeclaration
}.

Record RecoveryDeclaration := mkDeclaration {
  supports_complete_overwrite : bool;
  declaration_version : Version;
  covered_effects : list OpaqueId;
  unsupported_states : list string
}.

Definition recovery_unsupported : RecoveryDeclaration :=
  mkDeclaration false (mkVersion 0 0 0) [] ["no published recovery coverage"%string].

Record DeviceProfile := mkDeviceProfile {
  profile_schema_version : string;
  device_id : OpaqueId;
  device_version : Version;
  product_models : list string;
  soc : SocIdentity;
  hardware_revisions : HardwareRevisionPolicy;
  providers : list ProviderCombination;
  artifact_formats : list OpaqueId;
  known_metadata_members : list string;
  modes : list ModeDeclaration;
  usb_identities : list UsbModeIdentity;
  mode_transitions : list ModeTransition;
  storage : StorageDeclaration;
  read_domain : ReadDomainPolicy;
  allowed_targets : list AllowedTarget;
  protected_targets : list OpaqueId;
  device_data_impact : DataImpact;
  recovery : RecoveryDeclaration;
  evidence_refs : list OpaqueId
}.

(** ** Encodings *)

Definition unsigned_or_null (o : option Z) : CborValue := match o with Some n => Unsigned n | None => Null end.

Section Encodings.
Local Open Scope string_scope.

#[global] Instance soc_cbor : CanonicalCbor SocIdentity := fun s =>
  map_of [("vendor", to_cbor (soc_vendor s)); ("family", to_cbor (soc_family s))].

#[global] Instance revisions_cbor : CanonicalCbor HardwareRevisionPolicy := fun h =>
  match h with
  | Allow revisions => map_of [("allow", Array (map Text revisions))]
  | AnyRevision evidence_ref => map_of [("anyRevisionEvidence", to_cbor evidence_ref)]
  end.

#[global] Instance combination_cbor : CanonicalCbor ProviderCombination := fun c =>
  map_of [("providerId", to_cbor (combination_provider c)); ("backend", to_cbor (combination_backend c));
          ("minimumVersion", to_cbor (minimum_version c));
          ("maximumVersionExclusive", to_cbor (maximum_version_exclusive c))].

#[global] Instance usb_cbor : CanonicalCbor UsbModeIdentity := fun u =>
  map_of [("mode", to_cbor (usb_mode u)); ("vendorId", Unsigned (vendor_id u));
          ("productId", Unsigned (product_id u)); ("evidenceRef", to_cbor (usb_evidence_ref u))].

#[global] Instance mode_declaration_cbor : CanonicalCbor ModeDeclaration := fun m =>
  map_of [("id", to_cbor (mode_id m)); ("aliases", Array (map to_cbor (mode_aliases m)))].

#[global] Instance rebind_cbor : CanonicalCbor RebindTolerance := fun r =>
  map_of [("requireDisconnect", Bool (require_disconnect r));
          ("toleranceWindowMs", Unsigned (tolerance_window_ms r));
          ("tolerateTransientMalformed", Bool (tolerate_transient_malformed r))].

#[global] Instance policy_cbor : CanonicalCbor IdentityFieldPolicy := fun p => Text (policy_as_str p).

#[global] Instance transition_cbor : CanonicalCbor ModeTransition := fun t =>
  map_of [("from", to_cbor (transition_from t)); ("to", to_cbor (transition_to t));
          ("action", to_cbor (transition_action t)); ("rebind", to_cbor (rebind t));
          ("serialPolicy", to_cbor (serial_policy t)); ("topologyPolicy", to_cbor (topology_policy t))].

#[global] Instance storage_cbor : CanonicalCbor StorageDeclaration := fun s =>
  map_of [("kind", to_cbor (storage_kind s)); ("logicalBlockSize", unsigned_or_null (logical_block_size s))].

#[global] Instance read_policy_cbor : CanonicalCbor ReadDomainPolicy := fun r =>
  map_of [("write", Text (write_domain_as_str (write_face r))); ("read", to_cbor (read_face r));
          ("erasedMediumFiller", unsigned_or_null (erased_medium_filler r))].

#[global] Instance target_cbor : CanonicalCbor AllowedTarget := fun t =>
  map_of [("partition", to_cbor (target_partition t)); ("writeOrder", Unsigned (write_order t));
          ("offsetSectors", Unsigned (offset_sectors t)); ("sourceMember", text_or_null (source_member t));
          ("verification", to_cbor (target_verification t))].

#[global] Instance declaration_cbor : CanonicalCbor RecoveryDeclaration := fun d =>
  map_of [("supportsCompleteOverwrite", Bool (supports_complete_overwrite d));
          ("version", to_cbor (declaration_version d));
          ("coveredEffects", Array (map to_cbor (covered_effects d)));
          ("unsupportedStates", Array (map Text (unsupported_states d)))].

#[global] Instance device_profile_cbor : CanonicalCbor DeviceProfile := fun p =>
  map_of
    [("schemaVersion", Text (profile_schema_version p));
     ("id", to_cbor (device_id p));
     ("version", to_cbor (device_version p));
     ("productModels", Array (map Text (product_models p)));
     ("soc", to_cbor (soc p));
     ("hardwareRevisions", to_cbor (hardware_revisions p));
     ("providers", Array (map to_cbor (providers p)));
     ("artifactFormats", Array (map to_cbor (artifact_formats p)));
     ("knownMetadataMembers", Array (map Text (known_metadata_members p)));
     ("modes", Array (map to_cbor (modes p)));
     ("usbIdentities", Array (map to_cbor (usb_identities p)));
     ("modeTransitions", Array (map to_cbor (mode_transitions p)));
     ("storage", to_cbor (storage p));
     ("readDomain", to_cbor (read_domain p));
     ("allowedTargets", Array (map to_cbor (allowed_targets p)));
     ("protectedTargets", Array (map to_cbor (protected_targets p)));
     ("dataImpact", to_cbor (device_data_impact p));
     ("recovery", to_cbor (recovery p));
     ("evidenceRefs", Array (map to_cbor (evidence_refs p)))].
End Encodings.

Definition profile_digest_of (p : DeviceProfile) : result CborError Sha256Digest :=
  digest_canonical DDeviceProfile p.

Definition profile_identity (p : DeviceProfile) : result CborError DeviceProfileIdentity :=
  let? digest := profile_digest_of p in Ok (mkProfile (device_id p) (device_version p) digest).

(** ** Lookups *)

(** [Ord] for [Version], field by field. *)
Definition version_compare (v w : Version) : comparison :=
  match major v ?= major w with
  | Eq => match minor v ?= minor w with Eq => patch v ?= patch w | c => c end
  | c => c
  end.

Definition accepts (c : ProviderCombination) (provider backend : OpaqueId) (version : Version) : bool :=
  bool_decide (combination_provider c = provider) && bool_decide (combination_backend c = backend)
  && match version_compare version (minimum_version c) with Lt => false | _ => true end
  && match version_compare version (maximum_version_exclusive c) with Lt => true | _ => false end.

Definition matches (declaration : ModeDeclaration) (observed : DeviceMode) : bool :=
  bool_decide (mode_id declaration = observed)
  || existsb (fun alias => bool_decide (alias = observed)) (mode_aliases declaration).

Definition allowed_target (p : DeviceProfile) (partition : OpaqueId) : option AllowedTarget :=
  List.find (fun target => bool_decide (target_partition target = partition)) (allowed_targets p).

Definition mode (p : DeviceProfile) (mode : DeviceMode) : option ModeDeclaration :=
  List.find (fun declared => matches declared mode) (modes p).

Definition mode_for_usb_identity (p : DeviceProfile) (vendor product : Z) : option DeviceMode :=
  usb_mode <$> List.find (fun identity => (vendor_id identity =? vendor) && (product_id identity =? product))
                 (usb_identities p).

Definition transition (p : DeviceProfile) (from to : DeviceMode) : option ModeTransition :=
  List.find (fun t => bool_decide (transition_from t = from) && bool_decide (transition_to t = to))
    (mode_transitions p).

(** ** What an executable plan lacks *)

Inductive ProfileExecutionBlocker : Type :=
| BlockUnknownDataImpact (axes : list string)
| UnknownBlockSize
| UnknownErasedMediumFiller
| NoHardwareRevisionMeasured
| NoWritableTargets
| NoModeTransitions.

Definition profile_blocker_id (b : ProfileExecutionBlocker) : string :=
  match b with
  | BlockUnknownDataImpact _ => "PROF-B01"
  | UnknownBlockSize => "PROF-B02"
  | UnknownErasedMediumFiller => "PROF-B03"
  | NoHardwareRevisionMeasured => "PROF-B04"
  | NoWritableTargets => "PROF-B05"
  | NoModeTransitions => "PROF-B06"
  end.

Definition is_none {A} (o : option A) : bool := match o with None => true | Some _ => false end.
Definition is_nil {A} (l : list A) : bool := match l with [] => true | _ => false end.

Definition execution_blockers (p : DeviceProfile) : list ProfileExecutionBlocker :=
  let axes := unknown_axes (device_data_impact p) in
  (if is_nil axes then [] else [BlockUnknownDataImpact axes])
  ++ (if is_none (logical_block_size (storage p)) then [UnknownBlockSize] else [])
  ++ (if is_none (erased_medium_filler (read_domain p)) then [UnknownErasedMediumFiller] else [])
  ++ match hardware_revisions p with Allow [] => [NoHardwareRevisionMeasured] | _ => [] end
  ++ (if is_nil (allowed_targets p) then [NoWritableTargets] else [])
  ++ (if is_nil (mode_transitions p) then [NoModeTransitions] else []).

Definition permits_executable_plan (p : DeviceProfile) : bool := is_nil (execution_blockers p).

(** ** Validation *)

(** The errors of a profile that is not well formed. *)
Inductive ProfileInvalid : Type :=
| UnknownSchema (version : string)
| ZeroBlockSize
| WildcardHardwareRevision
| TargetBothAllowedAndProtected (target : OpaqueId)
| DuplicateAllowedTarget (target : OpaqueId)
| WriteOrderNotContiguous (target : OpaqueId)
| WriteOrderNotAscendingByOffset (target : OpaqueId)
| VerificationWithoutFallback (target : OpaqueId)
| UndeclaredMode (mode : DeviceMode)
| ZeroRebindTolerance (from to : DeviceMode)
| AmbiguousModeAlias (alias first second : DeviceMode)
| AmbiguousUsbIdentity (vendor product : Z) (first second : DeviceMode)
| RecoveryWithoutCoverage.

Definition check (holds : bool) (e : ProfileInvalid) : result ProfileInvalid unit := if holds then Ok tt else Err e.

(** A [for] loop whose body only fails. *)
Fixpoint check_each {A} (body : A -> result ProfileInvalid unit) (l : list A) : result ProfileInvalid unit :=
  match l with
  | [] => Ok tt
  | a :: l => let? _ := body a in check_each body l
  end.

Fixpoint check_duplicate_targets (seen : list OpaqueId) (targets : list AllowedTarget) : result ProfileInvalid unit :=
  match targets with
  | [] => Ok tt
  | target :: targets =>
      if bool_decide (target_partition target ∈ seen) then Err (DuplicateAllowedTarget (target_partition target))
      else check_duplicate_targets (target_partition target :: seen) targets
  end.

Definition write_order_leb (a b : AllowedTarget) : bool := write_order a <=? write_order b.

(** [index] and the target before it. *)
Fixpoint check_order (index : Z) (previous : option AllowedTarget) (ordered : list AllowedTarget) :
    result ProfileInvalid unit :=
  match ordered with
  | [] => Ok tt
  | target :: ordered =>
      if negb (write_order target =? index + 1) then Err (WriteOrderNotContiguous (target_partition target))
      else if match previous with Some before => offset_sectors target <=? offset_sectors before | None => false end
      then Err (WriteOrderNotAscendingByOffset (target_partition target))
      else check_order (index + 1) (Some target) ordered
  end.

Definition has_fallback (v : TargetVerificationDeclaration) : bool :=
  write_completion_semantics (verification_fallback v) || build_postflight (verification_fallback v).

Definition check_fallback (p : DeviceProfile) (target : AllowedTarget) : result ProfileInvalid unit :=
  check (negb (bool_decide (read_face (read_domain p) = ReadCharacterizeAtRuntime)
               && negb (has_fallback (target_verification target))))
    (VerificationWithoutFallback (target_partition target)).

Definition check_mode (p : DeviceProfile) (m : DeviceMode) : result ProfileInvalid unit :=
  check (negb (is_none (mode p m))) (UndeclaredMode m).

Definition check_transition (p : DeviceProfile) (t : ModeTransition) : result ProfileInvalid unit :=
  let? _ := check_mode p (transition_from t) in
  let? _ := check_mode p (transition_to t) in
  check (negb (tolerance_window_ms (rebind t) =? 0)) (ZeroRebindTolerance (transition_from t) (transition_to t)).

Definition check_usb_pair (identity other : UsbModeIdentity) : result ProfileInvalid unit :=
  check (negb ((vendor_id identity =? vendor_id other) && (product_id identity =? product_id other)
               && negb (bool_decide (usb_mode identity = usb_mode other))))
    (AmbiguousUsbIdentity (vendor_id identity) (product_id identity) (usb_mode identity) (usb_mode other)).

Fixpoint check_usb_pairs (identities : list UsbModeIdentity) : result ProfileInvalid unit :=
  match identities with
  | [] => Ok tt
  | identity :: others =>
      let? _ := check_each (check_usb_pair identity) others in
      check_usb_pairs others
  end.

(** The names a declaration answers to, each with the declaration's own name. *)
Definition owned_names (d : ModeDeclaration) : list (DeviceMode * DeviceMode) :=
  map (fun name => (name, mode_id d)) (mode_id d :: mode_aliases d).

Fixpoint check_aliases (owners names : list (DeviceMode * DeviceMode)) : result ProfileInvalid unit :=
  match names with
  | [] => Ok tt
  | (name, declared) :: names =>
      match List.find (fun owner => bool_decide (owner.1 = name)) owners with
      | Some (_, owner) => Err (AmbiguousModeAlias name owner declared)
      | None => check_aliases (owners ++ [(name, declared)]) names
      end
  end.

Definition check_revisions (h : HardwareRevisionPolicy) : bool :=
  match h with Allow revisions => negb (existsb (fun r => String.eqb r "*") revisions) | AnyRevision _ => true end.

Definition profile_validate (p : DeviceProfile) : result ProfileInvalid unit :=
  let? _ := check (String.eqb (profile_schema_version p) PROFILE_SCHEMA_VERSION)
              (UnknownSchema (profile_schema_version p)) in
  let? _ := check (negb (bool_decide (logical_block_size (storage p) = Some 0))) ZeroBlockSize in
  let? _ := check (check_revisions (hardware_revisions p)) WildcardHardwareRevision in
  let? _ := check_each (fun target =>
      check (negb (bool_decide (target_partition target ∈ protected_targets p)))
        (TargetBothAllowedAndProtected (target_partition target))) (allowed_targets p) in
  let? _ := check_duplicate_targets [] (allowed_targets p) in
  let? _ := check_order 0 None (sort_by write_order_leb (allowed_targets p)) in
  let? _ := check_each (check_fallback p) (allowed_targets p) in
  let? _ := check_each (check_transition p) (mode_transitions p) in
  let? _ := check_each (fun identity => check_mode p (usb_mode identity)) (usb_identities p) in
  let? _ := check_usb_pairs (usb_identities p) in
  let? _ := check_aliases [] (flat_map owned_names (modes p)) in
  check (negb (supports_complete_overwrite (recovery p) && is_nil (covered_effects (recovery p))))
    RecoveryWithoutCoverage.

(** ** What validation accepts *)

Definition names_of (d : ModeDeclaration) : list DeviceMode := mode_id d :: mode_aliases d.

Definition declared (p : DeviceProfile) (m : DeviceMode) : Prop := exists d, d ∈ modes p /\ m ∈ names_of d.

Record profile_valid (p : DeviceProfile) : Prop := {
  valid_schema : profile_schema_version p = PROFILE_SCHEMA_VERSION;
  valid_block_size : logical_block_size (storage p) <> Some 0;
  valid_revisions : forall revisions, hardware_revisions p = Allow revisions -> "*"%string ∉ revisions;
  valid_disjoint : forall target, target ∈ allowed_targets p -> target_partition target ∉ protected_targets p;
  valid_distinct : NoDup (map target_partition (allowed_targets p));
  (* written in the order of their offsets, numbered from one without a gap *)
  valid_order : exists ordered, ordered ≡ₚ allowed_targets p /\
    map write_order ordered = seqZ 1 (zlen ordered) /\
    StronglySorted (fun a b => offset_sectors a < offset_sectors b) ordered;
  valid_fallback : forall target, target ∈ allowed_targets p ->
    read_face (read_domain p) = ReadCharacterizeAtRuntime -> has_fallback (target_verification target) = true;
  valid_transitions : forall t, t ∈ mode_transitions p ->
    declared p (transition_from t) /\ declared p (transition_to t) /\ tolerance_window_ms (rebind t) <> 0;
  valid_usb_modes : forall identity, identity ∈ usb_identities p -> declared p (usb_mode identity);
  valid_usb : forall i j, i ∈ usb_identities p -> j ∈ usb_identities p ->
    vendor_id i = vendor_id j -> product_id i = product_id j -> usb_mode i = usb_mode j;
  valid_names : NoDup (flat_map names_of (modes p));
  valid_recovery : supports_complete_overwrite (recovery p) = true -> covered_effects (recovery p) <> []
}.

Lemma check_Ok b e : check b e = Ok tt <-> b = true.
Proof. by destruct b. Qed.

Lemma steps_Ok {E} (r k : result E unit) : (let? _ := r in k) = Ok tt <-> r = Ok tt /\ k = Ok tt.
Proof. destruct r as [[]|]; split; intros; destruct_and?; done. Qed.

Lemma check_each_Ok {A} (body : A -> result ProfileInvalid unit) l :
  check_each body l = Ok tt <-> forall a, a ∈ l -> body a = Ok tt.
Proof.
  induction l as [|a l IH]; cbn; [split; [by intros _ ? ?%elem_of_nil|done]|].
  rewrite steps_Ok, IH. setoid_rewrite elem_of_cons. naive_solver.
Qed.

Lemma matches_names d m : matches d m = true <-> m ∈ names_of d.
Proof.
  unfold matches, names_of. rewrite orb_true_iff, bool_decide_eq_true, elem_of_cons, existsb_exists.
  setoid_rewrite bool_decide_eq_true. setoid_rewrite <- list_elem_of_In. naive_solver.
Qed.

Lemma find_declared p m : is_none (mode p m) = false <-> declared p m.
Proof.
  unfold mode, declared. setoid_rewrite <- matches_names. setoid_rewrite list_elem_of_In.
  destruct (List.find _ _) as [d|] eqn:E; cbn; split; try done.
  - intros _. exists d. by apply find_some in E.
  - intros (d & Hin & Hm). pose proof (find_none _ _ E d Hin) as Hf. cbn in Hf. congruence.
Qed.

Lemma check_mode_Ok p m : check_mode p m = Ok tt <-> declared p m.
Proof. unfold check_mode. by rewrite check_Ok, negb_true_iff, find_declared. Qed.

Lemma duplicate_targets_Ok seen targets :
  check_duplicate_targets seen targets = Ok tt <->
  NoDup (map target_partition targets) /\ forall t, t ∈ targets -> target_partition t ∉ seen.
Proof.
  revert seen; induction targets as [|t targets IH]; intros seen; cbn.
  { split; [split; [constructor|by intros ? ?%elem_of_nil]|done]. }
  rewrite NoDup_cons, list_elem_of_fmap. setoid_rewrite elem_of_cons.
  case_bool_decide as Ht; [split; [done|naive_solver]|]. rewrite IH. setoid_rewrite elem_of_cons. naive_solver.
Qed.

Lemma sorted_step {A} (key : A -> Z) a b l :
  StronglySorted (fun x y => key x < key y) (a :: b :: l) <->
  key a < key b /\ StronglySorted (fun x y => key x < key y) (b :: l).
Proof.
  split; [by inversion 1 as [|? ? ? Hall]; inversion Hall|]. intros [Hab Hs]. constructor; [done|].
  inversion Hs as [|? ? ? Hall]; subst. constructor; [done|]. eapply Forall_impl; [exact Hall|]. cbn. lia.
Qed.

Lemma check_order_Ok index previous ordered :
  check_order index previous ordered = Ok tt <->
  map write_order ordered = seqZ (index + 1) (zlen ordered) /\
  StronglySorted (fun a b => offset_sectors a < offset_sectors b) (option_list previous ++ ordered).
Proof.
  revert index previous. induction ordered as [|t ordered IH]; intros index previous; cbn [check_order].
  { rewrite app_nil_r. split; [|done]. intros _. split; [done|]. destruct previous; repeat constructor. }
  pose proof (zlen_nonneg ordered). rewrite zlen_cons, seqZ_cons by lia. cbn [map].
  replace (Z.pred (1 + zlen ordered)) with (zlen ordered) by lia.
  destruct (Z.eqb_spec (write_order t) (index + 1)) as [Hw|Hw]; cbn [negb]; [|split; [done|by intros [[=] _]]].
  replace (Z.succ (index + 1)) with (index + 1 + 1) by lia.
  assert (map write_order ordered = seqZ (index + 1 + 1) (zlen ordered) <->
    write_order t :: map write_order ordered = index + 1 :: seqZ (index + 1 + 1) (zlen ordered)) as <-
    by (split; [intros ->; by rewrite Hw|by intros [=]]).
  destruct previous as [before|]; [|by rewrite IH].
  change (option_list (Some before) ++ t :: ordered) with (before :: t :: ordered). rewrite (sorted_step offset_sectors). destruct (Z.leb_spec (offset_sectors t) (offset_sectors before)); [split; [done|]; lia|].
  rewrite IH. change (option_list (Some t) ++ ordered) with (t :: ordered). naive_solver.
Qed.

Lemma sorted_strict {A} (key : A -> Z) l :
  StronglySorted (fun a b => (key a <=? key b) = true) l -> NoDup (map key l) ->
  StronglySorted (fun a b => key a < key b) l.
Proof.
  induction 1 as [|a l Hs IH Hall]; cbn; intros Hnd; [constructor|]. apply NoDup_cons in Hnd as [Hn Hnd].
  constructor; [by apply IH|]. rewrite Forall_forall in *. intros b Hb. specialize (Hall b Hb). cbn in Hall.
  apply Z.leb_le in Hall. assert (key a <> key b); [|lia]. intros E. apply Hn. rewrite E. by apply list_elem_of_fmap_2.
Qed.

Lemma write_order_total a b : write_order_leb a b = true \/ write_order_leb b a = true.
Proof. unfold write_order_leb. rewrite !Z.leb_le. lia. Qed.

Lemma write_order_trans a b c :
  write_order_leb a b = true -> write_order_leb b c = true -> write_order_leb a c = true.
Proof. unfold write_order_leb. rewrite !Z.leb_le. lia. Qed.

(** Targets numbered from one sort to the order of their numbers. *)
Lemma sort_numbered l k i :
  k ≡ₚ l -> map write_order k = seqZ i (zlen k) -> sort_by write_order_leb l = k.
Proof.
  intros Hp Hk. set (s := sort_by write_order_leb l). pose proof (sort_by_perm write_order_leb l) as Hs.
  assert (NoDup (map write_order k)) as Hnd by (rewrite Hk; apply NoDup_seqZ).
  assert (k ≡ₚ s) as Hks by (unfold s; by rewrite Hs).
  assert (Irreflexive (fun a b => write_order a < write_order b)) by (intros a ?; lia).
  assert (Transitive (fun a b => write_order a < write_order b)) by (intros a b c; lia).
  assert (StronglySorted (fun a b => write_order a < write_order b) s).
  { apply sorted_strict; [apply (sort_by_sorted _ write_order_total write_order_trans)|]. by rewrite <- Hks. }
  symmetry. apply (strict_sorted_unique (fun a b => write_order a < write_order b)); [|done..].
  apply sorted_strict; [|done]. clear - Hk. revert i Hk. induction k as [|a k IH]; intros i Hk; [constructor|].
    pose proof (zlen_nonneg k). cbn [map] in Hk. rewrite zlen_cons, seqZ_cons in Hk by lia. injection Hk as Ha Hk.
    replace (Z.pred (1 + zlen k)) with (zlen k) in Hk by lia. constructor; [by eapply IH|].
    apply Forall_forall. intros b Hb. apply Z.leb_le. apply (list_elem_of_fmap_2 write_order) in Hb.
    change (write_order <$> k) with (map write_order k) in Hb. rewrite Hk in Hb. apply elem_of_seqZ in Hb. lia.
Qed.

Lemma check_usb_Ok l :
  check_usb_pairs l = Ok tt <->
  forall i j, i ∈ l -> j ∈ l -> vendor_id i = vendor_id j -> product_id i = product_id j -> usb_mode i = usb_mode j.
Proof.
  assert (forall i j, check_usb_pair i j = Ok tt <->
    (vendor_id i = vendor_id j -> product_id i = product_id j -> usb_mode i = usb_mode j)) as Hpair.
  { intros i j. unfold check_usb_pair. rewrite check_Ok, negb_true_iff, !andb_false_iff, negb_false_iff,
      bool_decide_eq_true, !Z.eqb_neq. destruct (decide (vendor_id i = vendor_id j)), (decide (product_id i = product_id j));
      naive_solver. }
  induction l as [|i l IH]; cbn; [split; [by intros _ ? ? ?%elem_of_nil|done]|].
  rewrite steps_Ok, check_each_Ok, IH. setoid_rewrite Hpair. setoid_rewrite elem_of_cons. split.
  - intros [H1 H2] a b [->|Ha] [->|Hb] Hv Hp; auto. symmetry. by apply H1.
  - intros H. split; intros; apply H; auto.
Qed.

Lemma check_aliases_Ok owners names :
  check_aliases owners names = Ok tt <->
  NoDup (map fst names) /\ forall name, name ∈ map fst names -> name ∉ map fst owners.
Proof.
  revert owners; induction names as [|[name d] names IH]; intros owners; cbn [check_aliases map fst].
  { split; [split; [constructor|by intros ? ?%elem_of_nil]|done]. }
  assert (List.find (fun owner => bool_decide (owner.1 = name)) owners = None <-> name ∉ map fst owners) as Hfind.
  { split.
    - intros E [o [-> Ho]]%list_elem_of_fmap. apply list_elem_of_In in Ho. pose proof (find_none _ _ E o Ho) as Hn.
      cbn in Hn. by apply bool_decide_eq_false in Hn.
    - intros Hn. destruct (List.find _ _) as [o|] eqn:E; [|done]. apply find_some in E as [Hin Ho%bool_decide_eq_true].
      destruct Hn. rewrite <- Ho. by apply list_elem_of_fmap_2, list_elem_of_In. }
  rewrite NoDup_cons. setoid_rewrite elem_of_cons.
  destruct (List.find _ _) as [[n o]|].
  - split; [done|]. intros [_ H]. discriminate (proj2 Hfind (H name (or_introl eq_refl))).
  - destruct Hfind as [Hfind _]. specialize (Hfind eq_refl). rewrite IH, map_app. cbn [map fst].
    setoid_rewrite elem_of_app. setoid_rewrite list_elem_of_singleton.
    split.
    + intros [Hnd H]. split_and!; [|done|].
      * intros Hin. by apply (H name Hin); right.
      * intros x [->|Hx]; [done|]. intros ?. by apply (H x Hx); left.
    + intros [[Hn Hnd] H]. split; [done|]. intros x Hx [Ho|E]; [by apply (H x); [right|]|]. congruence.
Qed.

Lemma owned_names_fst l : map fst (flat_map owned_names l) = flat_map names_of l.
Proof.
  induction l as [|d l IH]; [done|]. cbn [flat_map]. rewrite map_app, IH. f_equal.
  unfold owned_names. rewrite map_map. apply map_id.
Qed.

Lemma check_revisions_Ok h :
  check_revisions h = true <-> forall revisions, h = Allow revisions -> "*"%string ∉ revisions.
Proof.
  destruct h as [l|]; cbn; [|split; done]. rewrite negb_true_iff, <- not_true_iff_false, existsb_exists.
  setoid_rewrite String.eqb_eq. setoid_rewrite <- list_elem_of_In. naive_solver.
Qed.

Lemma check_fallback_Ok p t :
  check_fallback p t = Ok tt <->
  (read_face (read_domain p) = ReadCharacterizeAtRuntime -> has_fallback (target_verification t) = true).
Proof.
  unfold check_fallback. rewrite check_Ok, negb_true_iff, andb_false_iff, negb_false_iff, bool_decide_eq_false.
  destruct (decide (read_face (read_domain p) = ReadCharacterizeAtRuntime)); naive_solver.
Qed.

Lemma check_transition_Ok p t :
  check_transition p t = Ok tt <->
  declared p (transition_from t) /\ declared p (transition_to t) /\ tolerance_window_ms (rebind t) <> 0.
Proof. unfold check_transition. by rewrite !steps_Ok, !check_mode_Ok, check_Ok, negb_true_iff, Z.eqb_neq. Qed.

Lemma check_recovery_Ok r :
  negb (supports_complete_overwrite r && is_nil (covered_effects r)) = true <->
  (supports_complete_overwrite r = true -> covered_effects r <> []).
Proof. destruct (supports_complete_overwrite r), (covered_effects r); cbn; naive_solver. Qed.

Lemma not_decided (P : Prop) `{Decision P} : negb (bool_decide P) = true <-> ~ P.
Proof. by rewrite negb_true_iff, bool_decide_eq_false. Qed.

(** A profile is accepted exactly when it is well formed: the schema is known, no target
    is both allowed and protected or listed twice, the targets are written in the order of
    their offsets under the numbers 1, 2, ..., a target the read face may not reach has
    other evidence, transitions and USB identities name declared modes, no USB identity
    and no mode name is ambiguous, and a recovery claim covers something. *)
Theorem profile_validate_iff p : profile_validate p = Ok tt <-> profile_valid p.
Proof.
  unfold profile_validate. rewrite !steps_Ok, !check_each_Ok, !check_Ok, duplicate_targets_Ok, check_order_Ok,
    check_usb_Ok, check_aliases_Ok, owned_names_fst, check_revisions_Ok, check_recovery_Ok, not_decided, String.eqb_eq.
  setoid_rewrite check_mode_Ok. setoid_rewrite check_fallback_Ok. setoid_rewrite check_transition_Ok.
  setoid_rewrite check_Ok.
  change (option_list None ++ sort_by write_order_leb (allowed_targets p)) with (sort_by write_order_leb (allowed_targets p)).
  pose proof (sort_by_perm write_order_leb (allowed_targets p)) as Hperm. split.
  - intros (H1 & H2 & H3 & H4 & [H5 _] & [H6 H6'] & H7 & H8 & H9 & H10 & [H11 _] & H12).
    constructor; try done; [|by exists (sort_by write_order_leb (allowed_targets p))].
    intros t Ht. specialize (H4 t Ht). by rewrite not_decided in H4.
  - intros []. destruct valid_order0 as (k & Hk & Hnum & Hoff). rewrite (sort_numbered _ k 1 Hk Hnum).
    split_and!; try done; [|by intros t _ ?%elem_of_nil|by intros name _ ?%elem_of_nil].
    intros t Ht. rewrite not_decided. by apply valid_disjoint0.
Qed.

Lemma find_unique {A} (f : A -> bool) l x :
  (forall y z, y ∈ l -> z ∈ l -> f y = true -> f z = true -> y = z) ->
  List.find f l = Some x <-> x ∈ l /\ f x = true.
Proof.
  intros Hu. rewrite list_elem_of_In. split; [apply find_some|]. intros [Hin Hf].
  destruct (List.find f l) as [y|] eqn:E; [|by rewrite (find_none _ _ E x Hin) in Hf].
  apply find_some in E as [Hy Hfy]. f_equal. apply Hu; by rewrite ?list_elem_of_In.
Qed.

Lemma NoDup_map_unique {A B} (f : A -> B) l x y : NoDup (map f l) -> x ∈ l -> y ∈ l -> f x = f y -> x = y.
Proof.
  induction l as [|a l IH]; cbn; [by intros _ ?%elem_of_nil|]. rewrite NoDup_cons, !elem_of_cons.
  intros [Hn Hnd] [->|Hx] [->|Hy] E; [done| | |by apply IH].
  - destruct Hn. rewrite E. by apply list_elem_of_fmap_2.
  - destruct Hn. rewrite <- E. by apply list_elem_of_fmap_2.
Qed.

Lemma NoDup_names_unique {A B} (f : A -> list B) l x y b :
  NoDup (flat_map f l) -> x ∈ l -> y ∈ l -> b ∈ f x -> b ∈ f y -> x = y.
Proof.
  assert (forall z k, z ∈ k -> b ∈ f z -> b ∈ flat_map f k) as Hin.
  { intros z k. rewrite !list_elem_of_In, in_flat_map. eauto. }
  induction l as [|a l IH]; cbn; [by intros _ ?%elem_of_nil|]. rewrite NoDup_app, !elem_of_cons.
  intros (_ & Hdis & Hnd) [->|Hx] [->|Hy] Hbx Hby; [done| | |by apply IH].
  - destruct (Hdis b Hbx). by apply (Hin y).
  - destruct (Hdis b Hby). by apply (Hin x).
Qed.

(** In a valid profile no lookup depends on the order of the document: a name means the one
    mode declared under it or with it as an alias, a partition its one target, and a USB
    identity the one mode measured for it. *)
Theorem profile_lookups_exact p :
  profile_valid p ->
  (forall m d, mode p m = Some d <-> d ∈ modes p /\ m ∈ names_of d) /\
  (forall n t, allowed_target p n = Some t <-> t ∈ allowed_targets p /\ target_partition t = n) /\
  (forall v q m, mode_for_usb_identity p v q = Some m <->
     exists i, i ∈ usb_identities p /\ vendor_id i = v /\ product_id i = q /\ usb_mode i = m).
Proof.
  intros Hp. split_and!.
  - intros m d. unfold mode. rewrite find_unique, matches_names; [done|]. intros y z Hy Hz Hm%matches_names Hn%matches_names.
    by eapply (NoDup_names_unique names_of); [apply (valid_names p Hp)|..].
  - intros n t. unfold allowed_target. rewrite find_unique, bool_decide_eq_true; [done|].
    intros y z Hy Hz <-%bool_decide_eq_true E%bool_decide_eq_true.
    by eapply (NoDup_map_unique target_partition); [apply (valid_distinct p Hp)|..].
  - intros v q m. unfold mode_for_usb_identity. rewrite fmap_Some. split.
    + intros (i & Hi & ->). apply find_some in Hi as [Hi E]. breflect. exists i. by rewrite list_elem_of_In.
    + intros (i & Hi & <- & <- & <-).
      destruct (List.find _ (usb_identities p)) as [j|] eqn:E.
      * exists j. split; [done|]. apply find_some in E as [Hj E]. breflect.
        apply (valid_usb p Hp); first [done | by rewrite list_elem_of_In | congruence].
      * rewrite list_elem_of_In in Hi. pose proof (find_none _ _ E i Hi) as Hf. cbn in Hf. by rewrite !Z.eqb_refl in Hf.
Qed.

(** A profile permits an executable plan exactly when every fact a plan needs was measured. *)
Theorem permits_executable_iff p :
  permits_executable_plan p = true <->
  unknown_axes (device_data_impact p) = [] /\
  (exists size, logical_block_size (storage p) = Some size) /\
  (exists filler, erased_medium_filler (read_domain p) = Some filler) /\
  hardware_revisions p <> Allow [] /\ allowed_targets p <> [] /\ mode_transitions p <> [].
Proof.
  unfold permits_executable_plan, execution_blockers.
  destruct (unknown_axes _), (logical_block_size _), (erased_medium_filler _), (hardware_revisions p) as [[]|],
    (allowed_targets p), (mode_transitions p); cbn; split; intros H; try done; try (split_and!; by eauto);
    destruct H as (? & [? ?] & [? ?] & ? & ? & ?); congruence.
Qed.

(** ** What the digest binds *)

Definition mode_ok (m : DeviceMode) : Prop := DeviceMode_new (mode_str m) = Ok m.
Definition soc_ok (s : SocIdentity) : Prop := id_ok (soc_vendor s) /\ id_ok (soc_family s).

(** Names are well formed and numbers within their machine types. *)
Definition combination_ok (c : ProviderCombination) : Prop :=
  id_ok (combination_provider c) /\ id_ok (combination_backend c) /\
  version_ok (minimum_version c) /\ version_ok (maximum_version_exclusive c).

Definition u16 (z : Z) : Prop := 0 <= z <= U16_MAX.

Definition usb_ok (u : UsbModeIdentity) : Prop :=
  mode_ok (usb_mode u) /\ u16 (vendor_id u) /\ u16 (product_id u) /\ id_ok (usb_evidence_ref u).
Definition mode_declaration_ok (m : ModeDeclaration) : Prop := mode_ok (mode_id m) /\ Forall mode_ok (mode_aliases m).
Definition transition_ok (t : ModeTransition) : Prop :=
  mode_ok (transition_from t) /\ mode_ok (transition_to t) /\ id_ok (transition_action t) /\
  u64 (tolerance_window_ms (rebind t)).
Definition storage_ok (s : StorageDeclaration) : Prop :=
  id_ok (storage_kind s) /\ forall n, logical_block_size s = Some n -> u32 n.
Definition read_policy_ok (r : ReadDomainPolicy) : Prop := forall n, erased_medium_filler r = Some n -> u8 n.
Definition target_ok (t : AllowedTarget) : Prop :=
  id_ok (target_partition t) /\ u32 (write_order t) /\ u64 (offset_sectors t).
Definition declaration_ok (d : RecoveryDeclaration) : Prop :=
  version_ok (declaration_version d) /\ Forall id_ok (covered_effects d).

Record profile_typed (p : DeviceProfile) : Prop := {
  typed_id : id_ok (device_id p);
  typed_version : version_ok (device_version p);
  typed_soc : soc_ok (soc p);
  typed_revisions : forall e, hardware_revisions p = AnyRevision e -> id_ok e;
  typed_providers : Forall combination_ok (providers p);
  typed_formats : Forall id_ok (artifact_formats p);
  typed_modes : Forall mode_declaration_ok (modes p);
  typed_usb : Forall usb_ok (usb_identities p);
  typed_transitions : Forall transition_ok (mode_transitions p);
  typed_storage : storage_ok (storage p);
  typed_read : read_policy_ok (read_domain p);
  typed_targets : Forall target_ok (allowed_targets p);
  typed_protected : Forall id_ok (protected_targets p);
  typed_recovery : declaration_ok (recovery p);
  typed_evidence : Forall id_ok (evidence_refs p)
}.

(** Text is UTF-8, and nothing is longer than memory. *)
Definition texts_ok (l : list string) : Prop := u64 (zlen l) /\ Forall text_ok l.

Record profile_sized (p : DeviceProfile) : Prop := {
  sized_schema : text_ok (profile_schema_version p);
  sized_models : texts_ok (product_models p);
  sized_revisions : forall l, hardware_revisions p = Allow l -> texts_ok l;
  sized_providers : u64 (zlen (providers p));
  sized_formats : u64 (zlen (artifact_formats p));
  sized_members : texts_ok (known_metadata_members p);
  sized_modes : u64 (zlen (modes p)) /\ Forall (fun m => u64 (zlen (mode_aliases m))) (modes p);
  sized_usb : u64 (zlen (usb_identities p));
  sized_transitions : u64 (zlen (mode_transitions p));
  sized_targets : u64 (zlen (allowed_targets p)) /\
    Forall (fun t => option_text_ok (source_member t)) (allowed_targets p);
  sized_protected : u64 (zlen (protected_targets p));
  sized_recovery : u64 (zlen (covered_effects (recovery p))) /\ texts_ok (unsupported_states (recovery p));
  sized_evidence : u64 (zlen (evidence_refs p))
}.

Definition device_profile_ok (p : DeviceProfile) : Prop := profile_typed p /\ profile_sized p.

Lemma mode_ok_chars m :
  mode_ok m <-> 1 <= str_len (mode_str m) <= 64 /\ Forall (fun b => mode_char b = true) (bytes_of_string (mode_str m)).
Proof.
  unfold mode_ok, DeviceMode_new. rewrite Forall_forall. setoid_rewrite list_elem_of_In. rewrite <- forallb_forall.
  pose proof (zlen_nonneg (bytes_of_string (mode_str m))) as Hn. unfold str_len in *.
  destruct (Z.eqb_spec (zlen (bytes_of_string (mode_str m))) 0); cbn [orb]; [split; [done|]; lia|].
  destruct (Z.ltb_spec 64 (zlen (bytes_of_string (mode_str m)))); [split; [done|]; lia|].
  destruct m; cbn in *. case_match; breflect; split; try done; intros; destruct_and?; try congruence; split_and!; try lia; done.
Qed.

Lemma mode_text_ok m : mode_ok m -> text_ok (mode_str m).
Proof.
  intros [Hl Hall]%mode_ok_chars. split; [|zlia]. apply utf8_ascii. eapply Forall_impl; [exact Hall|].
  intros b. unfold mode_char, in_range. intros H. cbn. repeat (apply orb_true_iff in H as [H|H]); breflect; lia.
Qed.

Lemma writable_mode_ok m : mode_ok m -> writable (to_cbor m).
Proof. intros H. by apply writable_mode, mode_text_ok. Qed.

Lemma u16_u64 z : u16 z -> u64 z.
Proof. unfold u16, U16_MAX. zlia. Qed.

Lemma u8_u64 z : u8 z -> u64 z.
Proof. zlia. Qed.

Lemma writable_unsigned_or_null (ok : Z -> Prop) o :
  (forall n, ok n -> u64 n) -> (forall n, o = Some n -> ok n) -> writable (unsigned_or_null o).
Proof. intros Hok Ho. destruct o as [n|]; cbn; [apply writable_unsigned; auto|apply writable_null]. Qed.

Lemma writable_texts l : texts_ok l -> writable (Array (map Text l)).
Proof.
  intros [Hl Hall]. apply writable_array; [unfold zlen in *; by rewrite length_map|].
  apply Forall_map. eapply Forall_impl; [exact Hall|]. apply writable_text.
Qed.

Lemma writable_ids (l : list OpaqueId) : u64 (zlen l) -> Forall id_ok l -> writable (Array (map to_cbor l)).
Proof. apply writable_list. apply writable_id. Qed.

#[export] Hint Resolve writable_mode_ok u16_u64 writable_texts writable_ids writable_impact : ark.

Lemma writable_soc s : soc_ok s -> writable (to_cbor s).
Proof. intros [? ?]. writable_map. Qed.

Lemma writable_policy (p : IdentityFieldPolicy) : writable (to_cbor p).
Proof. destruct p; writable_literal. Qed.

Lemma writable_rebind r : u64 (tolerance_window_ms r) -> writable (to_cbor r).
Proof. intros ?. writable_map. Qed.

Lemma writable_read_domain (d : ReadDomainDeclaration) : writable (to_cbor d).
Proof. destruct d; writable_literal. Qed.

#[export] Hint Resolve writable_soc writable_policy writable_rebind writable_read_domain : ark.

Lemma writable_combination c : combination_ok c -> writable (to_cbor c).
Proof. intros (? & ? & ? & ?). writable_map. Qed.

Lemma writable_usb u : usb_ok u -> writable (to_cbor u).
Proof. intros (? & ? & ? & ?). writable_map. Qed.

Lemma writable_transition t : transition_ok t -> writable (to_cbor t).
Proof. intros (? & ? & ? & ?). writable_map. Qed.

Lemma writable_mode_declaration m :
  mode_declaration_ok m /\ u64 (zlen (mode_aliases m)) -> writable (to_cbor m).
Proof. intros [[? ?] ?]. writable_map. eapply writable_list; [apply writable_mode_ok|done..]. Qed.

Lemma writable_storage s : storage_ok s -> writable (to_cbor s).
Proof. intros [? ?]. writable_map. by apply (writable_unsigned_or_null u32 _ u32_u64). Qed.

Lemma writable_read_policy r : read_policy_ok r -> writable (to_cbor r).
Proof.
  destruct r as [[] ? ?]; intros ?; writable_map; cbn [snd]; by apply (writable_unsigned_or_null u8 _ u8_u64).
Qed.

Lemma writable_allowed_target t : target_ok t /\ option_text_ok (source_member t) -> writable (to_cbor t).
Proof. intros [(? & ? & ?) ?]. writable_map. Qed.

Lemma writable_declaration d :
  declaration_ok d -> u64 (zlen (covered_effects d)) -> texts_ok (unsupported_states d) -> writable (to_cbor d).
Proof. intros [? ?] ? ?. writable_map. Qed.

Lemma writable_revisions h :
  (forall e, h = AnyRevision e -> id_ok e) -> (forall l, h = Allow l -> texts_ok l) -> writable (to_cbor h).
Proof. destruct h as [l|e]; intros He Hl; [specialize (Hl l eq_refl)|specialize (He e eq_refl)]; writable_map. Qed.

Lemma Forall_both {A} (P Q : A -> Prop) l : Forall P l -> Forall Q l -> Forall (fun a => P a /\ Q a) l.
Proof. rewrite !Forall_forall. auto. Qed.

Lemma writable_device_profile p : device_profile_ok p -> writable (to_cbor p).
Proof.
  intros [[] []]. destruct_and?. unfold device_profile_cbor, to_cbor. writable_map; cbn [snd].
  - by apply writable_revisions.
  - by eapply writable_list; [apply writable_combination|..].
  - eapply writable_list; [apply writable_mode_declaration|done|by apply Forall_both].
  - by eapply writable_list; [apply writable_usb|..].
  - by eapply writable_list; [apply writable_transition|..].
  - by apply writable_storage.
  - by apply writable_read_policy.
  - eapply writable_list; [apply writable_allowed_target|done|by apply Forall_both].
  - by apply writable_declaration.
Qed.

(** ** Encodings determine profiles *)

Lemma texts_inj (l k : list string) : cbor_eq (Array (map Text l)) (Array (map Text k)) -> l = k.
Proof.
  intros Heq. inversion Heq as [| | | |? ? Hall| | |]; subst. clear Heq. revert k Hall.
  induction l as [|a l IH]; intros [|b k] Hall; inversion Hall as [|? ? ? ? Hab]; subst; [done|].
  apply cbor_eq_text in Hab as ->. f_equal. auto.
Qed.

Lemma unsigned_or_null_inj o q : cbor_eq (unsigned_or_null o) (unsigned_or_null q) -> o = q.
Proof. destruct o, q; cbn; intros H; by inversion H. Qed.

Lemma text_or_null_inj o q : cbor_eq (text_or_null o) (text_or_null q) -> o = q.
Proof. destruct o, q; cbn; intros H; by inversion H. Qed.

Lemma bool_inj b c : cbor_eq (Bool b) (Bool c) -> b = c.
Proof. by inversion 1. Qed.

Lemma version_inj (v w : Version) : cbor_eq (to_cbor v) (to_cbor w) -> v = w.
Proof.
  intros H. inversion H as [| | | |? ? Hall| | |]; subst. destruct v, w. cbn in *.
  repeat match goal with Hl : Forall2 _ (_ :: _) _ |- _ => inversion Hl; clear Hl; subst end.
  repeat match goal with He : cbor_eq (Unsigned _) _ |- _ => apply cbor_eq_unsigned in He end. by subst.
Qed.

Lemma soc_inj (s t : SocIdentity) : cbor_eq (to_cbor s) (to_cbor t) -> s = t.
Proof.
  intros H. same_field H "vendor" H1. same_field H "family" H2. apply cbor_eq_id in H1, H2.
  destruct s, t. cbn in *. by subst.
Qed.

Lemma revisions_inj (h k : HardwareRevisionPolicy) : cbor_eq (to_cbor h) (to_cbor k) -> h = k.
Proof.
  intros H. destruct h, k; try first [no_field H "allow" | no_field H "anyRevisionEvidence"].
  - same_field H "allow" H1. by apply texts_inj in H1 as ->.
  - same_field H "anyRevisionEvidence" H1. by apply cbor_eq_id in H1 as ->.
Qed.

Lemma combination_inj (c d : ProviderCombination) : cbor_eq (to_cbor c) (to_cbor d) -> c = d.
Proof.
  intros H. same_field H "providerId" H1. same_field H "backend" H2. same_field H "minimumVersion" H3.
  same_field H "maximumVersionExclusive" H4. apply cbor_eq_id in H1, H2. apply version_inj in H3, H4.
  destruct c, d. cbn in *. by subst.
Qed.

Lemma usb_inj (u w : UsbModeIdentity) : cbor_eq (to_cbor u) (to_cbor w) -> u = w.
Proof.
  intros H. same_field H "mode" H1. same_field H "vendorId" H2. same_field H "productId" H3.
  same_field H "evidenceRef" H4. apply mode_inj in H1. apply cbor_eq_unsigned in H2, H3. apply cbor_eq_id in H4.
  destruct u, w. cbn in *. by subst.
Qed.

Lemma mode_declaration_inj (m n : ModeDeclaration) : cbor_eq (to_cbor m) (to_cbor n) -> m = n.
Proof.
  intros H. same_field H "id" H1. same_field H "aliases" H2. apply mode_inj in H1.
  apply (array_inj _ _ mode_inj) in H2. destruct m, n. cbn in *. by subst.
Qed.

Lemma rebind_inj (r s : RebindTolerance) : cbor_eq (to_cbor r) (to_cbor s) -> r = s.
Proof.
  intros H. same_field H "requireDisconnect" H1. same_field H "toleranceWindowMs" H2.
  same_field H "tolerateTransientMalformed" H3. apply bool_inj in H1, H3. apply cbor_eq_unsigned in H2.
  destruct r, s. cbn in *. by subst.
Qed.

Lemma policy_inj (p q : IdentityFieldPolicy) : cbor_eq (to_cbor p) (to_cbor q) -> p = q.
Proof. intros H%cbor_eq_text. by destruct p, q. Qed.

Lemma transition_inj (t s : ModeTransition) : cbor_eq (to_cbor t) (to_cbor s) -> t = s.
Proof.
  intros H. same_field H "from" H1. same_field H "to" H2. same_field H "action" H3. same_field H "rebind" H4.
  same_field H "serialPolicy" H5. same_field H "topologyPolicy" H6. apply mode_inj in H1, H2.
  apply cbor_eq_id in H3. apply rebind_inj in H4. apply policy_inj in H5, H6. destruct t, s. cbn in *. by subst.
Qed.

Lemma storage_inj (s t : StorageDeclaration) : cbor_eq (to_cbor s) (to_cbor t) -> s = t.
Proof.
  intros H. same_field H "kind" H1. same_field H "logicalBlockSize" H2. apply cbor_eq_id in H1.
  apply unsigned_or_null_inj in H2. destruct s, t. cbn in *. by subst.
Qed.

Lemma read_policy_inj (r s : ReadDomainPolicy) : cbor_eq (to_cbor r) (to_cbor s) -> r = s.
Proof.
  intros H. same_field H "write" H1. same_field H "read" H2. same_field H "erasedMediumFiller" H3.
  apply cbor_eq_text in H1, H2. apply read_domain_str_inj in H2. apply unsigned_or_null_inj in H3.
  destruct r as [[] ? ?], s as [[] ? ?]; cbn in *; by subst.
Qed.

Lemma allowed_target_inj (t s : AllowedTarget) : cbor_eq (to_cbor t) (to_cbor s) -> t = s.
Proof.
  intros H. same_field H "partition" H1. same_field H "writeOrder" H2. same_field H "offsetSectors" H3.
  same_field H "sourceMember" H4. same_field H "verification" H5. apply cbor_eq_id in H1.
  apply cbor_eq_unsigned in H2, H3. apply text_or_null_inj in H4. apply verification_inj in H5.
  destruct t, s. cbn in *. by subst.
Qed.

Lemma declaration_inj (d e : RecoveryDeclaration) : cbor_eq (to_cbor d) (to_cbor e) -> d = e.
Proof.
  intros H. same_field H "supportsCompleteOverwrite" H1. same_field H "version" H2.
  same_field H "coveredEffects" H3. same_field H "unsupportedStates" H4. apply bool_inj in H1.
  apply version_inj in H2. apply (array_inj _ _ (fun a b => cbor_eq_id a b)) in H3. apply texts_inj in H4.
  destruct d, e. cbn in *. by subst.
Qed.

Lemma device_profile_inj (p q : DeviceProfile) : cbor_eq (to_cbor p) (to_cbor q) -> p = q.
Proof.
  intros H.
  same_field H "schemaVersion" H1. same_field H "id" H2. same_field H "version" H3. same_field H "productModels" H4.
  same_field H "soc" H5. same_field H "hardwareRevisions" H6. same_field H "providers" H7.
  same_field H "artifactFormats" H8. same_field H "knownMetadataMembers" H9. same_field H "modes" H10.
  same_field H "usbIdentities" H11. same_field H "modeTransitions" H12. same_field H "storage" H13.
  same_field H "readDomain" H14. same_field H "allowedTargets" H15. same_field H "protectedTargets" H16.
  same_field H "dataImpact" H17. same_field H "recovery" H18. same_field H "evidenceRefs" H19. clear H.
  apply cbor_eq_text in H1. apply cbor_eq_id in H2. apply version_inj in H3. apply texts_inj in H4, H9.
  apply soc_inj in H5. apply revisions_inj in H6. apply (array_inj _ _ combination_inj) in H7.
  apply (array_inj _ _ (fun a b => cbor_eq_id a b)) in H8, H16, H19. apply (array_inj _ _ mode_declaration_inj) in H10.
  apply (array_inj _ _ usb_inj) in H11. apply (array_inj _ _ transition_inj) in H12. apply storage_inj in H13.
  apply read_policy_inj in H14. apply (array_inj _ _ allowed_target_inj) in H15. apply impact_inj in H17.
  apply declaration_inj in H18. destruct p, q. cbn in *. by subst.
Qed.

#[global] Instance device_profile_model : CborModel DeviceProfile device_profile_ok eq.
Proof. split; [intros p Hp; by apply writable_device_profile|]. intros p q _ _. apply device_profile_inj. Qed.
