(* ===== verification/Superseding.v ===== *)
(** * Possible effects, reconciliation and recovery eligibility
    (crates/arkforge-engine/src/superseding.rs)

    The conservative union of what unresolved actions may have done, the verdict
    on read-only observations, and the assessment of a superseding recovery;
    [PossibleEffectSet] (crates/arkforge-authority-api/src/lib.rs).  The profile's
    [RecoveryDeclaration] is in [Profile]. *)

From S2P Require Import Prelude Cbor Sha256 Digest Fields Authority Journal Job Recovery Effect FlashStep.
From S2P Require Import Projection Identity Verification Profile.

(** ** Data *)

Inductive EffectSetCompleteness : Type := Bounded | Unbounded.

#[global] Instance EffectSetCompleteness_eq_dec : EqDecision EffectSetCompleteness.
Proof. solve_decision. Defined.

Record PossibleEffectSet := mkPossible {
  effects : EffectSet;
  completeness : EffectSetCompleteness;
  source_action_ids : list OpaqueId
}.

Inductive EffectBound : Type :=
| BoundNone
| BoundPersistent (e : PersistentEffect)
| BoundUnbounded.

(** Why a reconcile is undecided: the two reasons the code words. *)
Inductive UnknownReason : Type :=
| NothingObserved
| OutOfReach (indeterminate total : nat).

Inductive ReconcileVerdict : Type :=
| VSucceeded
| VConfirmedNotExecuted
| VConfirmedPartial (present absent : nat)
| VStillUnknown (reason : UnknownReason).

Inductive EffectObservation : Type := Present | Absent | Indeterminate.

#[global] Instance EffectObservation_eq_dec : EqDecision EffectObservation.
Proof. solve_decision. Defined.

Inductive RecoveryBlocker : Type :=
| EffectsUnbounded
| NoPublishedCoverage (unsupported_states : list string)
| EffectOutsideCoverage (effects : list string)
| NothingToRecover.

Inductive SupersedingRecoveryAssessment : Type :=
| Eligible (covers : list PersistentEffect)
| Ineligible (blocker : RecoveryBlocker).

#[global] Instance possible_cbor : CanonicalCbor PossibleEffectSet := fun p =>
  map_of
    [("effects", to_cbor (effects p));
     ("completeness",
      Text match completeness p with Bounded => "bounded" | Unbounded => "unbounded" end);
     ("sourceActionIds", Array (map to_cbor (source_action_ids p)))]%string.

Definition permits_recovery_assessment (p : PossibleEffectSet) : bool :=
  bool_decide (completeness p = Bounded).

(** ** Possible effects *)

Definition effect_of (action : PrivateActionRecord) : EffectBound :=
  match effect_class action with
  | EReadOnly => BoundNone
  | ETransient | EMutating => BoundNone
  | EDestructive =>
      match declared_target action, declared_range action with
      | Some (TargetPartition partition), Some range =>
          match action_content action with
          | Some content => BoundPersistent (WritePartition partition range content)
          | None => BoundPersistent (ErasePartition partition range)
          end
      | Some (TargetRawRegion region), Some range =>
          match action_content action with
          | Some content => BoundPersistent (WriteRawRegion region range content)
          | None => BoundUnbounded
          end
      | _, _ => BoundUnbounded
      end
  end.

(** The closure of [find_map]. *)
Definition record_step (permit_id : string) (r : JournalRecord) : option string :=
  if existsb (fun '(key, value) => String.eqb (as_str key) PERMIT_ID && String.eqb value permit_id)
       (facts r)
  then fact_value (facts r) STEP_ID
  else None.

(** [iter().find_map(f)]. *)
Fixpoint find_map {A B} (f : A -> option B) (l : list A) : option B :=
  match l with
  | [] => None
  | a :: l => match f a with Some b => Some b | None => find_map f l end
  end.

Definition step_for_permit (j : Journal) (permit_id : string) : option string :=
  find_map (record_step permit_id) (records j).

(** The three accumulators of [possible_effects]. *)
Record Union := mkUnion {
  u_persistent : list PersistentEffect;
  u_source : list OpaqueId;
  u_completeness : EffectSetCompleteness
}.

(** The inner loop's body. *)
Definition add_action (u : Union) (action : PrivateActionRecord) : Union :=
  let source := u_source u ++ [action_id action] in
  match effect_of action with
  | BoundNone => mkUnion (u_persistent u) source (u_completeness u)
  | BoundPersistent effect =>
      if bool_decide (effect ∈ u_persistent u)
      then mkUnion (u_persistent u) source (u_completeness u)
      else mkUnion (u_persistent u ++ [effect]) source (u_completeness u)
  | BoundUnbounded => mkUnion (u_persistent u) source Unbounded
  end.

Definition set_unbounded (u : Union) : Union := mkUnion (u_persistent u) (u_source u) Unbounded.

Definition actions_of_step (plan : StoredProviderPlan) (step_id : string) : list PrivateActionRecord :=
  List.filter (fun action => String.eqb (as_str (action_step_id action)) step_id) (actions plan).

(** The outer loop's body. *)
Definition add_permit (j : Journal) (plan : StoredProviderPlan) (u : Union) (permit_id : string) :
    Union :=
  match step_for_permit j permit_id with
  | None => set_unbounded u
  | Some step_id =>
      match actions_of_step plan step_id with
      | [] => set_unbounded u
      | acts => fold_left add_action acts u
      end
  end.

Definition all_preserved : DataImpact := mkImpact Preserved Preserved Preserved Preserved.

Definition possible_effects (j : Journal) (plan : StoredProviderPlan)
    (declared_data_impact : DataImpact) : PossibleEffectSet :=
  let unresolved := unresolved (from_journal j) in
  let u := fold_left (add_permit j plan) unresolved (mkUnion [] [] Bounded) in
  let data_impact :=
    if bool_decide (u_persistent u = []) && bool_decide (u_completeness u = Bounded)
    then all_preserved else declared_data_impact in
  mkPossible (mkEffectSet (u_persistent u) [] data_impact) (u_completeness u) (u_source u).

(** ** Reconciliation *)

Definition count_observed (o : EffectObservation)
    (observations : list (PersistentEffect * EffectObservation)) : nat :=
  List.length (List.filter (fun '(_, observation) => bool_decide (observation = o)) observations).

Definition reconcile (observations : list (PersistentEffect * EffectObservation)) : ReconcileVerdict :=
  if Nat.eqb (List.length observations) 0 then VStillUnknown NothingObserved
  else
    let indeterminate := count_observed Indeterminate observations in
    if Nat.ltb 0 indeterminate
    then VStillUnknown (OutOfReach indeterminate (List.length observations))
    else
      let present := count_observed Present observations in
      let absent := (List.length observations - present)%nat in
      match present, absent with
      | _, O => VSucceeded
      | O, _ => VConfirmedNotExecuted
      | _, _ => VConfirmedPartial present absent
      end.

(** ** Eligibility *)

Definition covered (e : PersistentEffect) (recovery : RecoveryDeclaration) : bool :=
  match effect_partition e with
  | None => false
  | Some partition =>
      existsb (fun covered => String.eqb (as_str covered) (as_str partition)) (covered_effects recovery)
  end.

Definition describe_effect (e : PersistentEffect) : string :=
  match effect_partition e with
  | Some partition => as_str partition
  | None => "<non-partition effect>"
  end.

Definition assess_superseding_recovery (possible : PossibleEffectSet)
    (recovery : RecoveryDeclaration) : SupersedingRecoveryAssessment :=
  if bool_decide (completeness possible = Unbounded) then Ineligible EffectsUnbounded
  else if bool_decide (persistent (effects possible) = []) then Ineligible NothingToRecover
  else if negb (supports_complete_overwrite recovery)
  then Ineligible (NoPublishedCoverage (unsupported_states recovery))
  else
    let uncovered :=
      map describe_effect
        (List.filter (fun effect => negb (covered effect recovery)) (persistent (effects possible))) in
    if negb (Nat.eqb (List.length uncovered) 0) then Ineligible (EffectOutsideCoverage uncovered)
    else Eligible (persistent (effects possible)).

Definition blocker_id (b : RecoveryBlocker) : OpaqueId :=
  mkId match b with
  | EffectsUnbounded => "REC-B01"
  | NoPublishedCoverage _ => "REC-B02"
  | EffectOutsideCoverage _ => "REC-B03"
  | NothingToRecover => "REC-B04"
  end.

(** ** What the union contains *)

(** The unresolved permit [permit] may have run the action [a]. *)
Definition may_have_run (j : Journal) (plan : StoredProviderPlan) (permit : string)
    (a : PrivateActionRecord) : Prop :=
  permit ∈ unresolved (from_journal j) /\
  exists step, step_for_permit j permit = Some step /\ a ∈ actions plan /\
    as_str (action_step_id a) = step.

(** The journal and the plan say what [permit] may have run, and each such action
    has an effect that can be named. *)
Definition accounted (j : Journal) (plan : StoredProviderPlan) (permit : string) : Prop :=
  exists step, step_for_permit j permit = Some step /\
    (exists a, a ∈ actions plan /\ as_str (action_step_id a) = step) /\
    forall a, a ∈ actions plan -> as_str (action_step_id a) = step -> effect_of a <> BoundUnbounded.

Lemma actions_of_step_elem plan step a :
  a ∈ actions_of_step plan step <-> a ∈ actions plan /\ as_str (action_step_id a) = step.
Proof.
  unfold actions_of_step. by rewrite list_elem_of_In, List.filter_In, <- list_elem_of_In, String.eqb_eq.
Qed.

(** What folding a list of actions does to each accumulator. *)
Lemma add_actions_spec acts u :
  let u' := fold_left add_action acts u in
  (forall e, e ∈ u_persistent u' <-> e ∈ u_persistent u \/ exists a, a ∈ acts /\ effect_of a = BoundPersistent e) /\
  (NoDup (u_persistent u) -> NoDup (u_persistent u')) /\
  (u_completeness u' = Bounded <->
     u_completeness u = Bounded /\ forall a, a ∈ acts -> effect_of a <> BoundUnbounded) /\
  u_source u' = u_source u ++ map action_id acts.
Proof.
  revert u. induction acts as [|a acts IH]; intros u; cbn [fold_left].
  - split_and!; try done.
    + intros e. split; [by left|]. intros [?|(a & []%elem_of_nil & _)]; done.
    + split; [|by intros [? _]]. intros ?. split; [done|]. by intros a ?%elem_of_nil.
    + by rewrite app_nil_r.
  - destruct (IH (add_action u a)) as (H1 & H2 & H3 & H4). cbn zeta in *.
    assert (forall (P : PrivateActionRecord -> Prop), (exists b, b ∈ a :: acts /\ P b) <->
      P a \/ exists b, b ∈ acts /\ P b) as Hex by (intros P; setoid_rewrite elem_of_cons; naive_solver).
    assert (u_source (add_action u a) = u_source u ++ [action_id a]) as Hsrc
      by (unfold add_action; by repeat case_match).
    split_and!.
    + intros e. rewrite H1, Hex. unfold add_action. destruct (effect_of a) as [|f|] eqn:Ea.
      * naive_solver.
      * case_bool_decide; cbn; [naive_solver|]. rewrite elem_of_app, list_elem_of_singleton. naive_solver.
      * naive_solver.
    + intros Hnd. apply H2. unfold add_action. destruct (effect_of a) as [|f|]; try done.
      case_bool_decide; [done|]. cbn. apply NoDup_app. split_and!; [done| |apply NoDup_singleton].
      by intros e He ->%list_elem_of_singleton.
    + assert ((forall b, b ∈ a :: acts -> effect_of b <> BoundUnbounded) <->
        effect_of a <> BoundUnbounded /\ forall b, b ∈ acts -> effect_of b <> BoundUnbounded) as ->
        by (by rewrite <- !Forall_forall, Forall_cons).
      assert (u_completeness (add_action u a) = Bounded <->
        u_completeness u = Bounded /\ effect_of a <> BoundUnbounded) as Ha
        by (unfold add_action; repeat case_match; cbn; intuition congruence).
      rewrite H3, Ha. tauto.
    + rewrite H4, Hsrc, <- app_assoc. done.
Qed.

(** The step recorded for [permit] has an action that satisfies [P]. *)
Definition names (j : Journal) (plan : StoredProviderPlan) (permit : string)
    (P : PrivateActionRecord -> Prop) : Prop :=
  exists step a, step_for_permit j permit = Some step /\ a ∈ actions_of_step plan step /\ P a.

Lemma add_permit_spec j plan u permit :
  let u' := add_permit j plan u permit in
  (forall e, e ∈ u_persistent u' <-> e ∈ u_persistent u \/
     names j plan permit (fun a => effect_of a = BoundPersistent e)) /\
  (NoDup (u_persistent u) -> NoDup (u_persistent u')) /\
  (u_completeness u' = Bounded <-> u_completeness u = Bounded /\ accounted j plan permit) /\
  (forall i, i ∈ u_source u' <-> i ∈ u_source u \/
     names j plan permit (fun a => action_id a = i)).
Proof.
  unfold add_permit, accounted, names. destruct (step_for_permit j permit) as [step|]; cbn zeta.
  2: { cbn [set_unbounded u_persistent u_source u_completeness]. split_and!; try done.
       - intros e. split; [by left|]. by intros [?|(? & ? & ? & _)].
       - split; [done|]. by intros (_ & ? & ? & _).
       - intros e. split; [by left|]. by intros [?|(? & ? & ? & _)]. }
  destruct (actions_of_step plan step) as [|a0 acts0] eqn:Eacts.
  - cbn [set_unbounded u_persistent u_source u_completeness].
    assert (forall a, a ∉ actions_of_step plan step) as Hno by (intros a; rewrite Eacts; apply not_elem_of_nil).
    split_and!; try done.
    + intros e. split; [by left|]. intros [?|(? & a & [= <-] & Ha & _)]; [done|by apply Hno in Ha].
    + split; [done|]. intros (_ & ? & [= <-] & (a & Ha) & _).
      apply actions_of_step_elem in Ha. by apply Hno in Ha.
    + intros e. split; [by left|]. intros [?|(? & a & [= <-] & Ha & _)]; [done|by apply Hno in Ha].
  - rewrite <- Eacts. destruct (add_actions_spec (actions_of_step plan step) u) as (H1 & H2 & H3 & H4).
    cbn zeta in *. split_and!.
    + intros e. rewrite H1. naive_solver.
    + done.
    + rewrite H3. split.
      * intros [Hc Hall]. split; [done|]. exists step. split; [done|]. split.
        -- exists a0. apply actions_of_step_elem. rewrite Eacts. left.
        -- intros a Ha Hs. apply Hall. by apply actions_of_step_elem.
      * intros (Hc & ? & [= <-] & _ & Hall). split; [done|]. intros a [Ha Hs]%actions_of_step_elem. by apply Hall.
    + intros i. rewrite H4, elem_of_app, list_elem_of_fmap. naive_solver.
Qed.

Lemma add_permits_spec j plan permits u :
  let u' := fold_left (add_permit j plan) permits u in
  (forall e, e ∈ u_persistent u' <-> e ∈ u_persistent u \/
     exists permit, permit ∈ permits /\ names j plan permit (fun a => effect_of a = BoundPersistent e)) /\
  (NoDup (u_persistent u) -> NoDup (u_persistent u')) /\
  (u_completeness u' = Bounded <->
     u_completeness u = Bounded /\ forall permit, permit ∈ permits -> accounted j plan permit) /\
  (forall i, i ∈ u_source u' <-> i ∈ u_source u \/
     exists permit, permit ∈ permits /\ names j plan permit (fun a => action_id a = i)).
Proof.
  revert u. induction permits as [|p permits IH]; intros u; cbn [fold_left].
  - cbn zeta. split_and!; try done.
    + intros e. split; [by left|]. intros [?|(? & []%elem_of_nil & _)]; done.
    + split; [|by intros [? _]]. intros ?. split; [done|]. by intros q ?%elem_of_nil.
    + intros i. split; [by left|]. intros [?|(? & []%elem_of_nil & _)]; done.
  - destruct (IH (add_permit j plan u p)) as (H1 & H2 & H3 & H4).
    destruct (add_permit_spec j plan u p) as (K1 & K2 & K3 & K4). cbn zeta in *.
    assert (forall P : string -> Prop, (exists q, q ∈ p :: permits /\ P q) <->
      P p \/ exists q, q ∈ permits /\ P q) as Hex.
    { intros P. split.
      - intros (q & [->|Hq]%elem_of_cons & HP); [by left|right; by exists q].
      - intros [HP|(q & Hq & HP)]; [exists p; split; [left|done]|exists q; split; [by right|done]]. }
    split_and!.
    + intros e. rewrite H1, K1, Hex. tauto.
    + auto.
    + rewrite H3, K3, <- !Forall_forall, Forall_cons. tauto.
    + intros i. rewrite H4, K4, Hex. tauto.
Qed.

Lemma possible_effects_spec j plan impact :
  let possible := possible_effects j plan impact in
  (forall e, e ∈ persistent (effects possible) <->
     exists permit a, may_have_run j plan permit a /\ effect_of a = BoundPersistent e) /\
  NoDup (persistent (effects possible)) /\
  (forall i, i ∈ source_action_ids possible <->
     exists permit a, may_have_run j plan permit a /\ action_id a = i) /\
  (completeness possible = Bounded <->
     forall permit, permit ∈ unresolved (from_journal j) -> accounted j plan permit).
Proof.
  unfold possible_effects. cbn [effects persistent source_action_ids completeness].
  destruct (add_permits_spec j plan (unresolved (from_journal j)) (mkUnion [] [] Bounded))
    as (H1 & H2 & H3 & H4). cbn [u_persistent u_source u_completeness] in *.
  assert (forall P, (exists permit, permit ∈ unresolved (from_journal j) /\ names j plan permit P) <->
    exists permit a, may_have_run j plan permit a /\ P a) as Hnames.
  { intros P. unfold names, may_have_run. split.
    - intros (p & Hp & step & a & Hs & [Ha Hk]%actions_of_step_elem & HP).
      exists p, a. split; [|done]. split; [done|]. by exists step.
    - intros (p & a & (Hp & step & Hs & Ha & Hk) & HP). exists p. split; [done|].
      exists step, a. split_and!; [done| |done]. by apply actions_of_step_elem. }
  split_and!.
  - intros e. rewrite H1, Hnames. split; [by intros [[]%elem_of_nil|]|by right].
  - apply H2. constructor.
  - intros i. rewrite H4, Hnames. split; [by intros [[]%elem_of_nil|]|by right].
  - rewrite H3. split; [by intros [_ ?]|done].
Qed.

(** C18. The possible-effect set is the conservative union: it holds an effect
    exactly when an action of an unresolved permit's step may have had it, without
    repetition; every such action is a source action; and it is bounded exactly
    when every unresolved permit names a step of the plan whose actions all have a
    nameable effect. *)
Theorem possible_effects_conservative j plan impact :
  let possible := possible_effects j plan impact in
  (forall e, e ∈ persistent (effects possible) <->
     exists permit a, may_have_run j plan permit a /\ effect_of a = BoundPersistent e) /\
  NoDup (persistent (effects possible)) /\
  (forall i, i ∈ source_action_ids possible <->
     exists permit a, may_have_run j plan permit a /\ action_id a = i) /\
  (completeness possible = Bounded <->
     forall permit, permit ∈ unresolved (from_journal j) -> accounted j plan permit).
Proof. exact (possible_effects_spec j plan impact). Qed.

Lemma covered_spec e recovery :
  covered e recovery = true <->
  exists partition, effect_partition e = Some partition /\ partition ∈ covered_effects recovery.
Proof.
  unfold covered. destruct (effect_partition e) as [partition|]; [|split; [done|by intros (? & ? & _)]].
  rewrite existsb_exists. split.
  - intros (c & Hc & Heq%String.eqb_eq%id_eq). exists partition. split; [done|].
    apply list_elem_of_In. by subst.
  - intros (? & [= <-] & Hin). exists partition. split; [by apply list_elem_of_In|apply String.eqb_refl].
Qed.

(** A superseding recovery is assessed eligible exactly when the effects are
    bounded, there is something to recover, the profile publishes a complete
    overwrite, and every possible effect is on a partition it covers; the plan then
    has to cover all of them. *)
Lemma assessment_eligible_iff possible recovery covers :
  assess_superseding_recovery possible recovery = Eligible covers <->
  covers = persistent (effects possible) /\ covers <> [] /\
  completeness possible = Bounded /\ supports_complete_overwrite recovery = true /\
  forall e, e ∈ covers ->
    exists partition, effect_partition e = Some partition /\ partition ∈ covered_effects recovery.
Proof.
  unfold assess_superseding_recovery.
  case_bool_decide as Hc; [split; [done|]; intros (_ & _ & ? & _); congruence|].
  case_bool_decide as Hp; [split; [done|]; intros (-> & ? & _); congruence|].
  destruct (supports_complete_overwrite recovery) eqn:Hs; cbn [negb];
    [|split; [done|]; by intros (_ & _ & _ & ? & _)].
  rewrite length_map.
  destruct (List.filter _ _) as [|e es] eqn:Hf; cbn [List.length Nat.eqb negb].
  - assert (forall e, e ∈ persistent (effects possible) -> covered e recovery = true) as Hall.
    { intros e He. destruct (covered e recovery) eqn:E; [done|].
      assert (e ∈ List.filter (fun effect => negb (covered effect recovery))
        (persistent (effects possible))) as Hin.
      { apply list_elem_of_In, List.filter_In. split; [by apply list_elem_of_In|by rewrite E]. }
      rewrite Hf in Hin. by apply elem_of_nil in Hin. }
    split; [|by intros (-> & _)]. intros [= <-]. split_and!; try done.
    + by destruct (completeness possible).
    + intros e He. by apply covered_spec, Hall.
  - split; [done|]. intros (-> & _ & _ & _ & Hall). exfalso.
    assert (e ∈ e :: es) as He by left. rewrite <- Hf in He.
    apply list_elem_of_In, List.filter_In in He as [He Hn].
    apply list_elem_of_In, Hall, covered_spec in He. by rewrite He in Hn.
Qed.

(** C17. An eligible recovery leaves nothing uncertain: every destructive action any
    unresolved permit may have run wrote or erased a stated range of a partition the
    profile's recovery covers, and that effect is among those to be overwritten. *)
Theorem eligible_recovery_covers j plan impact recovery covers permit a :
  assess_superseding_recovery (possible_effects j plan impact) recovery = Eligible covers ->
  may_have_run j plan permit a -> effect_class a = EDestructive ->
  exists partition range,
    declared_target a = Some (TargetPartition partition) /\ declared_range a = Some range /\
    partition ∈ covered_effects recovery /\
    match action_content a with
    | Some content => WritePartition partition range content
    | None => ErasePartition partition range
    end ∈ covers.
Proof.
  intros (-> & _ & Hb & _ & Hcov)%assessment_eligible_iff Hrun Hd.
  pose proof (possible_effects_spec j plan impact) as (Hin & _ & _ & Hbound).
  pose proof Hrun as (Hu & step & Hs & Ha & Hk).
  destruct (proj1 Hbound Hb permit Hu) as (step' & Hs' & _ & Hnamed).
  rewrite Hs in Hs'. injection Hs' as <-. specialize (Hnamed a Ha Hk).
  assert (forall e, effect_of a = BoundPersistent e -> e ∈ persistent (effects (possible_effects j plan impact)))
    as Hmem by (intros e He; apply Hin; by exists permit, a).
  unfold effect_of in *. rewrite Hd in *.
  destruct (declared_target a) as [[partition|region| |]|]; try done;
    (destruct (declared_range a) as [range|]; [|done]); destruct (action_content a) as [content|]; try done;
    pose proof (Hmem _ eq_refl) as He; destruct (Hcov _ He) as (p & Hp & Hpc);
    cbn in Hp; try discriminate Hp; injection Hp as <-; by exists partition, range.
Qed.

(** ** Verdicts *)

Lemma count_observed_spec o l :
  (count_observed o l <= List.length l)%nat /\
  (count_observed o l = O <-> forall x, x ∈ l -> x.2 <> o) /\
  (count_observed o l = List.length l <-> forall x, x ∈ l -> x.2 = o).
Proof.
  unfold count_observed. induction l as [|[e x] l (IH1 & IH2 & IH3)].
  - cbn. split_and!; try done; split; try done; by intros _ ? ?%elem_of_nil.
  - cbn [List.filter]. setoid_rewrite <- Forall_forall. setoid_rewrite <- Forall_forall in IH2.
    setoid_rewrite <- Forall_forall in IH3. rewrite !Forall_cons. cbn [snd].
    case_bool_decide as Hx; cbn [List.length]; (split; [lia|]); split.
    + split; [done|]. intros [? _]. done.
    + rewrite <- IH3. split; [intros ?; split; [done|lia]|intros [_ ?]; lia].
    + rewrite IH2. tauto.
    + split; [lia|]. intros [? _]. done.
Qed.

Lemma count_observed_sum l :
  (count_observed Present l + count_observed Absent l + count_observed Indeterminate l =
   List.length l)%nat.
Proof.
  unfold count_observed. induction l as [|[e o] l IH]; [done|]. cbn [List.filter List.length].
  destruct o; repeat case_bool_decide; try congruence; cbn [List.length]; lia.
Qed.

(** [reconcile] claims no more than was observed: success only when every
    declared effect is present, non-execution only when every one is absent, a
    partial outcome (with the counts) only when every one was observed and both
    occur, and otherwise the outcome stays unknown. *)
Theorem reconcile_verdicts l :
  (reconcile l = VSucceeded <-> l <> [] /\ forall x, x ∈ l -> x.2 = Present) /\
  (reconcile l = VConfirmedNotExecuted <-> l <> [] /\ forall x, x ∈ l -> x.2 = Absent) /\
  ((exists reason, reconcile l = VStillUnknown reason) <->
     l = [] \/ exists x, x ∈ l /\ x.2 = Indeterminate) /\
  (forall p a, reconcile l = VConfirmedPartial p a <->
     p = count_observed Present l /\ a = count_observed Absent l /\ (0 < p)%nat /\ (0 < a)%nat /\
     forall x, x ∈ l -> x.2 <> Indeterminate).
Proof.
  pose proof (count_observed_sum l) as Hsum.
  destruct (count_observed_spec Present l) as (_ & _ & HP).
  destruct (count_observed_spec Absent l) as (_ & _ & HA).
  destruct (count_observed_spec Indeterminate l) as (_ & HI & _).
  assert ((exists x, x ∈ l /\ x.2 = Indeterminate) <-> (0 < count_observed Indeterminate l)%nat) as HE.
  { split.
    - intros (x & Hx & Hi). destruct (count_observed Indeterminate l); [|lia].
      by destruct (proj1 HI eq_refl x Hx).
    - intros Hpos. unfold count_observed in Hpos.
      destruct (List.filter _ l) as [|x rest] eqn:E; [cbn in Hpos; lia|].
      assert (x ∈ x :: rest) as Hx by left. rewrite <- E in Hx.
      apply list_elem_of_In, List.filter_In in Hx as [Hx Hi]. exists x.
      split; [by apply list_elem_of_In|]. destruct x. by apply bool_decide_eq_true in Hi. }
  rewrite <- HP, <- HA, HE. setoid_rewrite <- HI. unfold reconcile.
  assert (l = [] <-> List.length l = O) as Hnil by (split; [by intros ->|by destruct l]).
  assert (l <> [] <-> List.length l <> O) as -> by (by rewrite Hnil). rewrite Hnil.
  clear HP HA HI HE Hnil. revert Hsum.
  generalize (count_observed Present l) (count_observed Absent l) (count_observed Indeterminate l)
    (List.length l). clear l. intros P A I N Hsum. set (D := (N - P)%nat). assert (D = (N - P)%nat) as HD by done. clearbody D.
  destruct (Nat.eqb_spec N 0); [|destruct (Nat.ltb_spec 0 I);
    [|destruct P as [|P], D as [|D]]];
    (split; [|split; [|split]]); try (split; [done|lia]);
    try (split; [|done]; intros _; lia).
  all: try (split; [intros _; lia|intros _; by eexists]).
  all: try (split; [intros [? ?]; done|lia]).
  intros p a. split; [intros [= <- <-]; lia|intros (-> & -> & _); f_equal; lia].
Qed.

(** ** Instances *)

Definition open_permit : list JournalRecord :=
  [note JobCreated "JOB-1" [job_fact];
   note StepPermitAccepted "flash" [job_fact; permit_fact; ("stepId", "STEP-1")%string];
   note StepIntentRecorded "flash" [job_fact; permit_fact; ("stepId", "STEP-1")%string]].

Definition full_restore : RecoveryDeclaration :=
  mkDeclaration true (mkVersion 1 0 0) [mkId "system"] [].

Lemma eligible_recovery_covers_witness :
  exists partition range,
    declared_target sample_write = Some (TargetPartition partition) /\
    declared_range sample_write = Some range /\
    partition ∈ covered_effects full_restore /\
    WritePartition partition range (sha256 [1]) ∈ [WritePartition (mkId "system") (mkRange 8 8) (sha256 [1])].
Proof.
  apply (eligible_recovery_covers (mkJournal open_permit) sample_plan all_unknown full_restore
    [WritePartition (mkId "system") (mkRange 8 8) (sha256 [1])] "PERMIT-1" sample_write).
  - vm_compute. reflexivity.
  - split; [vm_compute; left|]. exists "STEP-1"%string.
    split; [vm_compute; reflexivity|]. split; [right; left|reflexivity].
  - reflexivity.
Defined.

(** An action the projection let through without a target leaves the set unbounded. *)
Example unbounded_probe :
  completeness (possible_effects (mkJournal open_permit) (mkPlan [destructive_probe]) all_unknown) = Unbounded.
Proof. vm_compute. reflexivity. Qed.

Example blocker_ids_valid b : id_ok (blocker_id b).
Proof. destruct b; reflexivity. Qed.
