(* ===== verification/Wire.v ===== *)
(** * The wire codec and the frame layer
    (crates/arkforge-ipc/src/wire.rs, framing.rs)

    Protobuf varints, tags and fields with their [u64] and [u32] arithmetic, the
    field reader, enum decoding, and length-prefixed frames over a byte stream
    that answers each [read] with as many bytes as it likes. *)

From S2P Require Import Prelude.

Definition MAX_FRAME_BYTES : Z := 16 * 1024 * 1024.
Definition MAX_NESTING : Z := 16.

(** ** Data *)

Inductive WireType : Type := WVarint | WLengthDelimited | WFixed64 | WFixed32.

#[global] Instance WireType_eq_dec : EqDecision WireType.
Proof. solve_decision. Defined.

Inductive WireError : Type :=
| WireTruncated
| VarintTooLong
| UnsupportedWireType (value : Z)
| FieldZero
| WireInvalidUtf8 (field : Z)
| LengthOverflow
| WireDepthLimit
| WireTrailingBytes (count : Z)
| UnknownEnumValue (field value : Z)
| FrameTooLarge (size : Z)
| MissingField (message : string) (field : Z).

#[global] Instance WireError_eq_dec : EqDecision WireError.
Proof. solve_decision. Defined.

Inductive FieldValue : Type :=
| FVarint (value : Z)
| FBytes (value : bytes)
| FFixed64 (value : bytes)
| FFixed32 (value : bytes).

#[global] Instance FieldValue_eq_dec : EqDecision FieldValue.
Proof. solve_decision. Defined.

Record Reader := mkReader { r_input : bytes; r_position : Z; r_depth : Z }.

(** ** Wire types *)

Definition wire_from_tag (value : Z) : result WireError WireType :=
  if value =? 0 then Ok WVarint
  else if value =? 1 then Ok WFixed64
  else if value =? 2 then Ok WLengthDelimited
  else if value =? 5 then Ok WFixed32
  else Err (UnsupportedWireType value).

Definition wire_tag (w : WireType) : Z :=
  match w with WVarint => 0 | WFixed64 => 1 | WLengthDelimited => 2 | WFixed32 => 5 end.

(** ** Writers *)

(** The loop shifts out seven bits a round, so ten rounds empty a [u64]. *)
Fixpoint write_varint_rounds (rounds : nat) (out : bytes) (value : Z) : bytes :=
  match rounds with
  | O => out
  | S rounds =>
      let byte := Z.land value 0x7f in
      let value := Z.shiftr value 7 in
      if value =? 0 then out ++ [byte]
      else write_varint_rounds rounds (out ++ [Z.lor byte 0x80]) value
  end.

Definition write_varint (out : bytes) (value : Z) : bytes := write_varint_rounds 10 out value.

Definition write_tag (out : bytes) (field : Z) (w : WireType) : bytes :=
  write_varint out (Z.lor (Z.shiftl field 3) (wire_tag w)).

Definition write_uint64 (out : bytes) (field value : Z) : bytes :=
  if value =? 0 then out else write_varint (write_tag out field WVarint) value.

Definition write_uint32 (out : bytes) (field value : Z) : bytes := write_uint64 out field value.

Definition write_bool (out : bytes) (field : Z) (value : bool) : bytes :=
  if negb value then out else write_varint (write_tag out field WVarint) 1.

(** [value as u64] sign-extends an [i32]. *)
Definition write_enum (out : bytes) (field value : Z) : bytes :=
  if value =? 0 then out else write_varint (write_tag out field WVarint) (wrap 64 value).

Definition write_bytes (out : bytes) (field : Z) (value : bytes) : bytes :=
  if zlen value =? 0 then out
  else write_varint (write_tag out field WLengthDelimited) (zlen value) ++ value.

Definition write_string (out : bytes) (field : Z) (value : string) : bytes :=
  if str_len value =? 0 then out else write_bytes out field (bytes_of_string value).

Definition write_message (out : bytes) (field : Z) (body : bytes) : bytes :=
  write_varint (write_tag out field WLengthDelimited) (zlen body) ++ body.

(** ** Reading values *)

Definition as_u64 (v : FieldValue) : result WireError Z :=
  match v with FVarint value => Ok value | _ => Err (UnsupportedWireType 9) end.

Definition as_bool (v : FieldValue) : result WireError bool :=
  let? value := as_u64 v in Ok (negb (value =? 0)).

Definition field_bytes (v : FieldValue) : result WireError bytes :=
  match v with FBytes value => Ok value | _ => Err (UnsupportedWireType 9) end.

Definition field_str (v : FieldValue) (field : Z) : result WireError string :=
  let? value := field_bytes v in ok_or (from_utf8 value) (WireInvalidUtf8 field).

(** ** The reader *)

Definition reader_new (input : bytes) : Reader := mkReader input 0 0.

Definition reader_nested (input : bytes) (depth : Z) : Reader := mkReader input 0 depth.

Definition at_position (r : Reader) (position : Z) : Reader :=
  mkReader (r_input r) position (r_depth r).

(** [self.input.get(position)]. *)
Definition byte_at (l : bytes) (position : Z) : option Z := l !! Z.to_nat position.

(** The loop: [shift] grows by 7 up to 63, so ten rounds reach the bound; the bits
    a [u64] shift pushes out are lost. *)
Fixpoint read_varint_rounds (rounds : nat) (r : Reader) (value shift : Z) :
    result WireError (Z * Reader) :=
  match rounds with
  | O => Err VarintTooLong
  | S rounds =>
      if 64 <=? shift then Err VarintTooLong
      else
        let? byte := ok_or (byte_at (r_input r) (r_position r)) WireTruncated in
        let r := at_position r (r_position r + 1) in
        let value := Z.lor value (wrap 64 (Z.shiftl (Z.land byte 0x7f) shift)) in
        if Z.land byte 0x80 =? 0 then Ok (value, r)
        else read_varint_rounds rounds r value (shift + 7)
  end.

Definition read_varint (r : Reader) : result WireError (Z * Reader) := read_varint_rounds 11 r 0 0.

(** [self.input[position..end]], the bounds having been checked. *)
Definition take_slice (r : Reader) (stop : Z) : bytes :=
  take (Z.to_nat (stop - r_position r)) (drop (Z.to_nat (r_position r)) (r_input r)).

Definition read_fixed (r : Reader) (width : Z) : result WireError (bytes * Reader) :=
  let stop := r_position r + width in
  if zlen (r_input r) <? stop then Err WireTruncated
  else Ok (take_slice r stop, at_position r stop).

Definition next_field (r : Reader) : result WireError (option (Z * FieldValue) * Reader) :=
  if zlen (r_input r) <=? r_position r then Ok (None, r)
  else
    let? (key, r) := read_varint r in
    let field := wrap 32 (Z.shiftr key 3) in
    if field =? 0 then Err FieldZero
    else
      let? wire_type := wire_from_tag (Z.land key 0x7) in
      match wire_type with
      | WVarint =>
          let? (value, r) := read_varint r in Ok (Some (field, FVarint value), r)
      | WLengthDelimited =>
          let? (length, r) := read_varint r in
          let? stop := ok_or (checked_add (r_position r) length) LengthOverflow in
          if zlen (r_input r) <? stop then Err LengthOverflow
          else Ok (Some (field, FBytes (take_slice r stop)), at_position r stop)
      | WFixed64 =>
          let? (buffer, r) := read_fixed r 8 in Ok (Some (field, FFixed64 buffer), r)
      | WFixed32 =>
          let? (buffer, r) := read_fixed r 4 in Ok (Some (field, FFixed32 buffer), r)
      end.

Definition nested_reader (r : Reader) (v : FieldValue) : result WireError Reader :=
  if MAX_NESTING <? r_depth r + 1 then Err WireDepthLimit
  else let? body := field_bytes v in Ok (reader_nested body (r_depth r + 1)).

(** [while let Some((field, value)) = reader.next_field()? { .. }], the loop of every
    message decoder; [None] is the fuel running out. *)
Fixpoint read_fields (fuel : nat) (r : Reader) : option (result WireError (list (Z * FieldValue))) :=
  match fuel with
  | O => None
  | S fuel =>
      match next_field r with
      | Err e => Some (Err e)
      | Ok (None, _) => Some (Ok [])
      | Ok (Some f, r) =>
          match read_fields fuel r with
          | None => None
          | Some rest => Some (let? fs := rest in Ok (f :: fs))
          end
      end
  end.

Definition read_message (input : bytes) : option (result WireError (list (Z * FieldValue))) :=
  read_fields (S (length input)) (reader_new input).

(** [raw] is the varint reread as an [i64]. *)
Definition decode_enum {T} (field : Z) (v : FieldValue) (parse : Z -> option T) : result WireError T :=
  let? value := as_u64 v in
  let raw := if value <=? I64_MAX then value else value - 2 ^ 64 in
  if (raw <? -2147483648) || (2147483647 <? raw) then Err (UnknownEnumValue field raw)
  else ok_or (parse raw) (UnknownEnumValue field raw).

(** ** Varints *)

Lemma land_7f z : Z.land z 0x7f = z mod 128.
Proof. apply (Z.land_ones z 7). lia. Qed.

Lemma shiftr_7 z : Z.shiftr z 7 = z / 128.
Proof. by rewrite Z.shiftr_div_pow2. Qed.

(** The encoding of a value below [128 ^ S n], by digits. *)
Fixpoint varint_digits (n : nat) (v : Z) : bytes :=
  match n with
  | O => [v]
  | S n => if v <? 128 then [v] else (v mod 128 + 128) :: varint_digits n (v / 128)
  end.

Lemma lor_80 b : 0 <= b < 128 -> Z.lor b 0x80 = b + 128.
Proof.
  intros Hb. rewrite Z.lor_comm. pose proof (lor_shiftl_add 1 b 7 ltac:(lia) Hb) as H.
  change (Z.shiftl 1 7) with 128 in H. change (2 ^ 7) with 128 in H. lia.
Qed.

Lemma write_varint_rounds_digits n out v :
  0 <= v < 128 ^ Z.of_nat (S n) -> write_varint_rounds (S n) out v = out ++ varint_digits n v.
Proof.
  revert out v. induction n as [|n IH]; intros out v Hv.
  - change (128 ^ Z.of_nat 1) with 128 in Hv. cbn [write_varint_rounds varint_digits].
    rewrite shiftr_7, Z.div_small, land_7f, Z.mod_small by lia. done.
  - remember (S n) as m. cbn [write_varint_rounds]. subst m. cbn [varint_digits].
    rewrite shiftr_7, land_7f. destruct (Z.ltb_spec v 128).
    + rewrite Z.div_small, Z.mod_small by lia. done.
    + pose proof (Z.div_str_pos v 128 ltac:(lia)). destruct (Z.eqb_spec (v / 128) 0); [lia|].
      rewrite IH, <- app_assoc, lor_80 by (try apply Z.mod_pos_bound;
        rewrite ?(Nat2Z.inj_succ (S n)), ?Z.pow_succ_r in Hv by lia;
        split; try lia; apply Z.div_lt_upper_bound; lia). done.
Qed.

Lemma write_varint_digits out v : u64 v -> write_varint out v = out ++ varint_digits 9 v.
Proof. intros Hv. apply write_varint_rounds_digits. cbn. ints. lia. Qed.

(** A reader that has consumed [pre] and has [rest] left. *)
Definition reading (pre rest : bytes) (depth : Z) : Reader :=
  mkReader (pre ++ rest) (zlen pre) depth.

Lemma reading_step pre mid rest depth :
  at_position (reading pre (mid ++ rest) depth) (zlen pre + zlen mid) = reading (pre ++ mid) rest depth.
Proof. unfold reading, at_position. cbn. by rewrite app_assoc, zlen_app. Qed.

Lemma byte_at_reading pre b rest : byte_at (pre ++ b :: rest) (zlen pre) = Some b.
Proof. unfold byte_at, zlen. rewrite Nat2Z.id, lookup_app_r, Nat.sub_diag by lia. done. Qed.

Lemma byte_low b : 0 <= b < 128 -> Z.land b 0x7f = b /\ (Z.land b 0x80 =? 0) = true.
Proof.
  intros Hb. rewrite land_7f, Z.mod_small by done. split; [done|]. apply Z.eqb_eq, Z.bits_inj'.
  intros i Hi. rewrite Z.land_spec, Z.bits_0. change 0x80 with (2 ^ 7).
  destruct (decide (i = 7)) as [->|Hne]; [|rewrite Z.pow2_bits_false by done; apply andb_false_r].
  rewrite <- (Z.mod_small b (2 ^ 7)) by (cbn; lia). by rewrite Z.mod_pow2_bits_high by lia.
Qed.

Lemma byte_high b : 0 <= b < 128 -> Z.land (b + 128) 0x7f = b /\ (Z.land (b + 128) 0x80 =? 0) = false.
Proof.
  intros Hb. split.
  - rewrite land_7f. rewrite <- (Z.mod_small b 128) at 2 by done.
    replace (b + 128) with (b + 1 * 128) by lia. by rewrite Z.mod_add by lia.
  - rewrite <- lor_80, Z.land_lor_distr_l by done.
    destruct (byte_low b Hb) as [_ Hz%Z.eqb_eq]. by rewrite Hz.
Qed.

(** Adding a shifted digit to the accumulator. *)
Lemma accumulate value b shift :
  0 <= shift -> 0 <= value < 2 ^ shift -> 0 <= b -> b * 2 ^ shift < 2 ^ 64 ->
  Z.lor value (wrap 64 (Z.shiftl b shift)) = value + b * 2 ^ shift.
Proof.
  intros Hs Hv Hb Hlt. rewrite wrap_small by (rewrite Z.shiftl_mul_pow2 by done; lia).
  rewrite Z.lor_comm, lor_shiftl_add by done. lia.
Qed.

Lemma read_varint_round rounds pre b rest depth value shift :
  shift < 64 ->
  read_varint_rounds (S rounds) (reading pre (b :: rest) depth) value shift =
    let value := Z.lor value (wrap 64 (Z.shiftl (Z.land b 0x7f) shift)) in
    let r := reading (pre ++ [b]) rest depth in
    if Z.land b 0x80 =? 0 then Ok (value, r) else read_varint_rounds rounds r value (shift + 7).
Proof.
  intros Hs. cbn [read_varint_rounds]. destruct (Z.leb_spec 64 shift); [lia|].
  change (r_input (reading pre (b :: rest) depth)) with (pre ++ b :: rest).
  change (r_position (reading pre (b :: rest) depth)) with (zlen pre).
  rewrite byte_at_reading. cbn [ok_or].
  change (zlen pre + 1) with (zlen pre + zlen [b]).
  change (reading pre (b :: rest) depth) with (reading pre ([b] ++ rest) depth). by rewrite reading_step.
Qed.

Lemma read_varint_digits n rounds pre post depth v value shift :
  (S n <= rounds)%nat -> 0 <= shift -> shift + 7 * Z.of_nat n <= 63 ->
  0 <= v < 128 ^ Z.of_nat (S n) -> 0 <= value < 2 ^ shift -> v * 2 ^ shift < 2 ^ 64 ->
  read_varint_rounds rounds (reading pre (varint_digits n v ++ post) depth) value shift =
    Ok (value + v * 2 ^ shift, reading (pre ++ varint_digits n v) post depth).
Proof.
  revert rounds pre v value shift. induction n as [|n IH];
    intros [|rounds] pre v value shift Hr Hs Hsn Hv Hvalue Hlt; try lia;
    cbn [varint_digits app].
  - change (128 ^ Z.of_nat 1) with 128 in Hv. rewrite read_varint_round by lia. cbn zeta.
    destruct (byte_low v Hv) as [-> ->]. by rewrite accumulate by lia.
  - destruct (Z.ltb_spec v 128) as [Hlow|Hhigh]; cbn [app]; rewrite read_varint_round by lia; cbn zeta.
    + destruct (byte_low v ltac:(lia)) as [-> ->]. by rewrite accumulate by lia.
    + pose proof (Z.mod_pos_bound v 128 ltac:(lia)) as Hm.
      pose proof (Z.div_mod v 128 ltac:(lia)) as Hdm.
      pose proof (Z.div_str_pos v 128 ltac:(lia)) as Hq.
      assert (0 < 2 ^ shift) as Hpos by lia.
      assert (2 ^ (shift + 7) = 2 ^ shift * 128) as Hpow by (by rewrite Z.pow_add_r by lia).
      destruct (byte_high (v mod 128) Hm) as [-> ->]. rewrite accumulate by nia.
      rewrite IH, <- app_assoc, Hpow; [|lia|lia|lia| |nia|nia].
      * cbn [app]. do 2 f_equal. rewrite Hdm at 3. ring.
      * rewrite (Nat2Z.inj_succ (S n)), Z.pow_succ_r in Hv by lia. split; [lia|].
        apply Z.div_lt_upper_bound; lia.
Qed.

Lemma read_write_varint pre post depth v :
  u64 v -> exists enc, (forall out, write_varint out v = out ++ enc) /\ (0 < length enc <= 10)%nat /\
    read_varint (reading pre (enc ++ post) depth) = Ok (v, reading (pre ++ enc) post depth).
Proof.
  intros Hv. exists (varint_digits 9 v). split_and!.
  - intros out. by apply write_varint_digits.
  - by cbn; repeat case_match; cbn; lia.
  - clear. assert (forall n w, (length (varint_digits n w) <= S n)%nat) as H; [|apply (H 9%nat)].
    induction n as [|n IH]; intros w; cbn; [lia|]. case_match; cbn; [lia|]. specialize (IH (w / 128)). lia.
  - unfold read_varint. rewrite read_varint_digits; [|lia|lia|lia| |lia|ints; lia].
    + by rewrite Z.pow_0_r, Z.mul_1_r.
    + split; [ints; lia|]. ints. cbn. lia.
Qed.

(** ** Fields *)

(** One call of a writer, in the order a message encoder makes them. *)
Inductive Emission : Type :=
| EmitUint64 (field value : Z)
| EmitBool (field : Z) (value : bool)
| EmitEnum (field value : Z)
| EmitString (field : Z) (value : string)
| EmitBytes (field : Z) (value : bytes)
| EmitMessage (field : Z) (body : bytes).

Definition emit (out : bytes) (e : Emission) : bytes :=
  match e with
  | EmitUint64 field value => write_uint64 out field value
  | EmitBool field value => write_bool out field value
  | EmitEnum field value => write_enum out field value
  | EmitString field value => write_string out field value
  | EmitBytes field value => write_bytes out field value
  | EmitMessage field body => write_message out field body
  end.

(** What the reader is to find: nothing for a default value. *)
Definition emitted (e : Emission) : list (Z * FieldValue) :=
  match e with
  | EmitUint64 field value => if value =? 0 then [] else [(field, FVarint value)]
  | EmitBool field value => if value then [(field, FVarint 1)] else []
  | EmitEnum field value => if value =? 0 then [] else [(field, FVarint (wrap 64 value))]
  | EmitString field value =>
      if str_len value =? 0 then [] else [(field, FBytes (bytes_of_string value))]
  | EmitBytes field value => if zlen value =? 0 then [] else [(field, FBytes value)]
  | EmitMessage field body => [(field, FBytes body)]
  end.

Definition field_number (field : Z) : Prop := 1 <= field <= U32_MAX.

(** The fields of the Rust types the writers take. *)
Definition emission_ok (e : Emission) : Prop :=
  match e with
  | EmitUint64 field value => field_number field /\ u64 value
  | EmitEnum field value => field_number field /\ -2147483648 <= value <= 2147483647
  | EmitBool field _ => field_number field
  | EmitString field value => field_number field /\ u64 (str_len value)
  | EmitBytes field value => field_number field /\ u64 (zlen value)
  | EmitMessage field body => field_number field /\ u64 (zlen body)
  end.

(** A field appended to a message, and what the reader makes of it. *)
Definition field_read (field : Z) (v : FieldValue) (put : bytes) : Prop :=
  (0 < length put)%nat /\
  forall pre post depth, zlen (pre ++ put ++ post) <= U64_MAX ->
    next_field (reading pre (put ++ post) depth) = Ok (Some (field, v), reading (pre ++ put) post depth).

Lemma reading_nonempty pre rest depth :
  (0 < length rest)%nat ->
  (zlen (r_input (reading pre rest depth)) <=? r_position (reading pre rest depth)) = false.
Proof. intros H. cbn. apply Z.leb_gt. rewrite zlen_app. unfold zlen. lia. Qed.

Lemma tag_key field w :
  field_number field ->
  let key := Z.lor (Z.shiftl field 3) (wire_tag w) in
  u64 key /\ wrap 32 (Z.shiftr key 3) = field /\ Z.land key 0x7 = wire_tag w.
Proof.
  intros Hf key. assert (0 <= wire_tag w < 2 ^ 3) as Hw by (destruct w; cbn; lia).
  assert (key = field * 8 + wire_tag w) as Hkey
    by (unfold key; by rewrite (lor_shiftl_add field (wire_tag w) 3) by lia).
  unfold field_number in Hf. split_and!.
  - ints. lia.
  - rewrite Z.shiftr_div_pow2 by lia. change (2 ^ 3) with 8 in *. rewrite Hkey, Z.div_add_l by lia.
    rewrite Z.div_small, Z.add_0_r by lia. apply wrap_small. ints. lia.
  - change 0x7 with (Z.ones 3). rewrite Z.land_ones by lia. change (2 ^ 3) with 8 in *.
    rewrite Hkey, Z.add_comm, Z.mod_add by lia. by apply Z.mod_small.
Qed.

(** The tag reads back as its key. *)
Lemma read_tag field w :
  field_number field ->
  exists tag, (forall out, write_tag out field w = out ++ tag) /\ (0 < length tag)%nat /\
    forall pre post depth,
      read_varint (reading pre (tag ++ post) depth) =
        Ok (Z.lor (Z.shiftl field 3) (wire_tag w), reading (pre ++ tag) post depth).
Proof.
  intros Hf. destruct (tag_key field w Hf) as (Hk & _).
  destruct (read_write_varint [] [] 0 _ Hk) as (tag & Htag & Hl & _). exists tag.
  split_and!; [exact Htag|lia|]. intros pre post depth.
  destruct (read_write_varint pre post depth _ Hk) as (tag' & Htag' & _ & Hread).
  assert (tag = tag') as ->; [|exact Hread].
  specialize (Htag []). by rewrite Htag' in Htag.
Qed.

Lemma read_varint_field field v :
  field_number field -> u64 v ->
  exists put, (forall out, write_varint (write_tag out field WVarint) v = out ++ put) /\
    field_read field (FVarint v) put.
Proof.
  intros Hf Hv. destruct (read_tag field WVarint Hf) as (tag & Htag & Hl & Hread).
  destruct (tag_key field WVarint Hf) as (_ & Hfield & Hty).
  exists (tag ++ varint_digits 9 v). split.
  - intros out. by rewrite Htag, write_varint_digits, app_assoc.
  - split; [rewrite length_app; lia|]. intros pre post depth _. unfold next_field.
    rewrite reading_nonempty by (rewrite !length_app; lia). rewrite <- app_assoc, Hread, Hfield, Hty.
    destruct (Z.eqb_spec field 0); [unfold field_number in Hf; lia|]. cbn [wire_from_tag wire_tag].
    cbn [Z.eqb]. destruct (read_write_varint (pre ++ tag) post depth v Hv) as (enc & Henc & _ & Hr).
    assert (varint_digits 9 v = enc) as ->.
    { specialize (Henc []). by rewrite write_varint_digits in Henc. }
    by rewrite Hr, <- app_assoc.
Qed.

Lemma take_slice_reading pre body post depth :
  take_slice (reading pre (body ++ post) depth) (zlen pre + zlen body) = body.
Proof.
  unfold take_slice, reading, zlen. cbn [r_input r_position].
  rewrite Nat2Z.id, drop_app_length. replace (Z.to_nat _) with (length body) by lia. apply take_app_length.
Qed.

Lemma read_bytes_field field body :
  field_number field -> u64 (zlen body) ->
  exists put, (forall out, write_message out field body = out ++ put) /\
    field_read field (FBytes body) put.
Proof.
  intros Hf Hv. destruct (read_tag field WLengthDelimited Hf) as (tag & Htag & Hl & Hread).
  destruct (tag_key field WLengthDelimited Hf) as (_ & Hfield & Hty).
  exists (tag ++ varint_digits 9 (zlen body) ++ body). split.
  - intros out. unfold write_message. rewrite Htag, write_varint_digits by done. by rewrite <- !app_assoc.
  - split; [rewrite length_app; lia|]. intros pre post depth Hlen. unfold next_field.
    rewrite reading_nonempty by (rewrite !length_app; lia). rewrite <- app_assoc, Hread, Hfield, Hty.
    destruct (Z.eqb_spec field 0); [unfold field_number in Hf; lia|].
    change (wire_from_tag (wire_tag WLengthDelimited)) with (@Ok WireError _ WLengthDelimited). cbn iota beta.
    destruct (read_write_varint (pre ++ tag) (body ++ post) depth (zlen body) Hv) as (enc & Henc & _ & Hr).
    assert (varint_digits 9 (zlen body) = enc) as Hdigits.
    { specialize (Henc []). by rewrite write_varint_digits in Henc. }
    rewrite Hdigits in Hlen |- *. rewrite <- app_assoc, Hr. autorewrite with ark in Hlen.
    pose proof (zlen_nonneg pre). pose proof (zlen_nonneg post).
    change (r_position (reading ((pre ++ tag) ++ enc) (body ++ post) depth)) with (zlen ((pre ++ tag) ++ enc)).
    unfold checked_add. destruct (Z.leb_spec (zlen ((pre ++ tag) ++ enc) + zlen body) U64_MAX) as [_|Hbad];
      [|rewrite !zlen_app in Hbad; lia]. cbn [ok_or].
    destruct (Z.ltb_spec (zlen (r_input (reading ((pre ++ tag) ++ enc) (body ++ post) depth)))
      (zlen ((pre ++ tag) ++ enc) + zlen body)) as [Hbad|_];
      [cbn in Hbad; rewrite !zlen_app in Hbad; lia|].
    rewrite take_slice_reading, reading_step, <- !app_assoc. done.
Qed.

Lemma emit_field e :
  emission_ok e ->
  (emitted e = [] /\ forall out, emit out e = out) \/
  exists field v put, emitted e = [(field, v)] /\ (forall out, emit out e = out ++ put) /\
    field_read field v put.
Proof.
  destruct e as [f v|f v|f v|f v|f v|f v]; cbn [emission_ok emitted emit];
    unfold write_uint64, write_bool, write_enum, write_string, write_bytes; intros He.
  - destruct He as [Hf Hv]. destruct (v =? 0); [by left|]. right.
    destruct (read_varint_field f v Hf Hv) as (put & ? & ?). by exists f, (FVarint v), put.
  - destruct v; [|by left]. right.
    destruct (read_varint_field f 1 He ltac:(zlia)) as (put & ? & ?). by exists f, (FVarint 1), put.
  - destruct He as [Hf Hv]. destruct (v =? 0); [by left|]. right.
    pose proof (wrap_range 64 v ltac:(lia)) as Hw.
    destruct (read_varint_field f (wrap 64 v) Hf ltac:(ints; lia)) as (put & ? & ?).
    by exists f, (FVarint (wrap 64 v)), put.
  - destruct He as [Hf Hv]. unfold str_len in *. destruct (zlen (bytes_of_string v) =? 0); [by left|]. right.
    destruct (read_bytes_field f (bytes_of_string v) Hf Hv) as (put & ? & ?). by eexists _, _, put.
  - destruct He as [Hf Hv]. destruct (zlen v =? 0); [by left|]. right.
    destruct (read_bytes_field f v Hf Hv) as (put & ? & ?). by eexists _, _, put.
  - destruct He as [Hf Hv]. right.
    destruct (read_bytes_field f v Hf Hv) as (put & ? & ?). by eexists _, _, put.
Qed.

Lemma read_fields_emitted es :
  Forall emission_ok es ->
  exists body, (forall out, foldl emit out es = out ++ body) /\
    forall pre depth fuel, zlen (pre ++ body) <= U64_MAX -> (length body < fuel)%nat ->
      read_fields fuel (reading pre body depth) = Some (Ok (concat (map emitted es))).
Proof.
  induction 1 as [|e es He _ (body & Hbody & Hread)].
  - exists []. split; [intros; by rewrite app_nil_r|]. intros pre depth [|fuel] _ Hf; [cbn in Hf; lia|].
    cbn [read_fields map concat]. unfold next_field. cbn [reading r_input r_position].
    by rewrite app_nil_r, Z.leb_refl.
  - destruct (emit_field e He) as [[Hnone Hemit]|(f & v & put & Hsome & Hemit & Hput & Hnext)];
      cbn [foldl map concat].
    + exists body. rewrite Hnone. split; [intros out; by rewrite Hemit, Hbody|exact Hread].
    + exists (put ++ body). rewrite Hsome. split; [intros out; by rewrite Hemit, Hbody, app_assoc|].
      intros pre depth [|fuel] Hlen Hf; [lia|]. cbn [read_fields]. rewrite Hnext by done.
      rewrite length_app in Hf. rewrite Hread; [done| |lia]. by rewrite <- app_assoc.
Qed.

(** Whatever a message encoder writes, the field reader reads back: the fields in
    order with their numbers and values, the proto3 defaults being the absent ones. *)
Theorem wire_fields_roundtrip es :
  Forall emission_ok es -> zlen (foldl emit [] es) <= U64_MAX ->
  read_message (foldl emit [] es) = Some (Ok (concat (map emitted es))).
Proof.
  intros Hes Hlen. destruct (read_fields_emitted es Hes) as (body & Hbody & Hread).
  rewrite Hbody in *. cbn [app] in *. unfold read_message.
  apply (Hread [] 0 (S (length body))); [done|lia].
Qed.

(** ** Any input *)

Lemma lor_bound a b n : 0 <= n -> 0 <= a < 2 ^ n -> 0 <= b < 2 ^ n -> 0 <= Z.lor a b < 2 ^ n.
Proof.
  intros Hn Ha Hb. split; [apply Z.lor_nonneg; lia|].
  rewrite <- (Z.mod_small a (2 ^ n)), <- (Z.mod_small b (2 ^ n)) by done.
  rewrite <- !Z.land_ones, <- Z.land_lor_distr_l, Z.land_ones by done. by apply Z.mod_pos_bound; lia.
Qed.

(** Reading moves forward and never past the end. *)
Definition moved (r r' : Reader) : Prop :=
  r_input r' = r_input r /\ r_depth r' = r_depth r /\ r_position r < r_position r' <= zlen (r_input r).

Lemma moved_trans r r' r'' : moved r r' -> moved r' r'' -> moved r r''.
Proof. unfold moved. intros (Hi & Hd & ?) (-> & -> & ?). rewrite Hi in *. split_and!; (done || lia). Qed.

Lemma byte_at_inside l p b : byte_at l p = Some b -> 0 <= p -> p < zlen l.
Proof. unfold byte_at, zlen. intros H%lookup_lt_Some ?. lia. Qed.

Lemma read_varint_rounds_any rounds r value shift v r' :
  0 <= r_position r -> 0 <= value < 2 ^ 64 ->
  read_varint_rounds rounds r value shift = Ok (v, r') -> u64 v /\ moved r r'.
Proof.
  revert r value shift. induction rounds as [|rounds IH]; intros r value shift Hp Hv H;
    cbn [read_varint_rounds] in H; [done|].
  destruct (64 <=? shift); [done|]. destruct (byte_at _ _) as [b|] eqn:Hb; [cbn [ok_or] in H|done].
  apply byte_at_inside in Hb; [|done].
  set (value' := Z.lor value _) in H.
  assert (0 <= value' < 2 ^ 64) as Hv'.
  { apply lor_bound; [lia|done|]. apply wrap_range. lia. }
  assert (moved r (at_position r (r_position r + 1))) as Hm by (unfold moved; cbn; split_and!; (done || lia)).
  destruct (_ =? 0).
  - injection H as <- <-. split; [ints; lia|done].
  - apply IH in H as [Hu Hm']; [|cbn; lia|done]. split; [done|]. by eapply moved_trans.
Qed.

Lemma read_varint_any r v r' :
  0 <= r_position r -> read_varint r = Ok (v, r') -> u64 v /\ moved r r'.
Proof. intros Hp. by apply read_varint_rounds_any. Qed.

(** What a field may hold. *)
Definition value_within (input : bytes) (v : FieldValue) : Prop :=
  match v with
  | FVarint n => u64 n
  | FBytes l => exists pre post, input = pre ++ l ++ post
  | FFixed64 l => length l = 8%nat /\ exists pre post, input = pre ++ l ++ post
  | FFixed32 l => length l = 4%nat /\ exists pre post, input = pre ++ l ++ post
  end.

Lemma take_slice_within r stop :
  exists pre post, r_input r = pre ++ take_slice r stop ++ post.
Proof.
  unfold take_slice. set (p := Z.to_nat (r_position r)). set (n := Z.to_nat (stop - r_position r)).
  exists (take p (r_input r)), (drop n (drop p (r_input r))). by rewrite !take_drop.
Qed.

Lemma take_slice_length r stop :
  0 <= r_position r <= stop -> stop <= zlen (r_input r) ->
  length (take_slice r stop) = Z.to_nat (stop - r_position r).
Proof. unfold take_slice, zlen. intros ? ?. rewrite length_take, length_drop. lia. Qed.

Lemma read_fixed_any r width l r' :
  0 <= r_position r -> 0 < width -> read_fixed r width = Ok (l, r') ->
  length l = Z.to_nat width /\ moved r r' /\ exists pre post, r_input r = pre ++ l ++ post.
Proof.
  unfold read_fixed. intros Hp Hw. destruct (Z.ltb_spec (zlen (r_input r)) (r_position r + width)); [done|].
  intros [= <- <-]. split_and!.
  - rewrite take_slice_length by lia. lia.
  - unfold moved. cbn. split_and!; (done || lia).
  - apply take_slice_within.
Qed.

Lemma next_field_any r f v r' :
  0 <= r_position r -> next_field r = Ok (Some (f, v), r') ->
  field_number f /\ value_within (r_input r) v /\ moved r r'.
Proof.
  unfold next_field. intros Hp H. destruct (_ <=? _); [done|].
  destruct (read_varint r) as [[key r1]|] eqn:E; [|done].
  apply read_varint_any in E as [_ Hm]; [|done].
  assert (0 <= r_position r1) as Hp1 by (destruct Hm as (_ & _ & ?); lia).
  pose proof (wrap_range 32 (Z.shiftr key 3) ltac:(lia)) as Hf.
  destruct (Z.eqb_spec (wrap 32 (Z.shiftr key 3)) 0); [done|].
  assert (field_number (wrap 32 (Z.shiftr key 3))) as Hfield
    by (unfold field_number; change (2 ^ 32) with 4294967296 in Hf; ints; lia).
  pose proof (proj1 Hm) as Hi.
  destruct (wire_from_tag _) as [[]|]; [| | | |done].
  - destruct (read_varint r1) as [[w r2]|] eqn:E2; [|done]. injection H as <- <- <-.
    apply read_varint_any in E2 as [Hn Hm2]; [|done]. split_and!; [done|done|by eapply moved_trans].
  - destruct (read_varint r1) as [[w r2]|] eqn:E2; [|done].
    apply read_varint_any in E2 as [Hn Hm2]; [|done].
    destruct (checked_add _ _) as [stop|] eqn:Hstop; [cbn [ok_or] in H|done].
    unfold checked_add in Hstop. destruct (_ <=? U64_MAX); [|done]. injection Hstop as Hstop.
    destruct (Z.ltb_spec (zlen (r_input r2)) stop); [done|]. injection H as <- <- <-.
    split_and!; [done| |].
    + cbn. rewrite <- Hi, <- (proj1 Hm2). apply take_slice_within.
    + eapply moved_trans; [done|]. destruct Hm2 as (Hi2 & Hd2 & ?). unfold moved. cbn.
      rewrite Hi2 in *. split_and!; try done; try lia. ints. lia.
  - destruct (read_fixed r1 8) as [[l r2]|] eqn:E2; [|done]. injection H as <- <- <-.
    apply read_fixed_any in E2 as (Hl & Hm2 & Hin); [|lia..].
    split_and!; [done|cbn; by rewrite <- Hi|by eapply moved_trans].
  - destruct (read_fixed r1 4) as [[l r2]|] eqn:E2; [|done]. injection H as <- <- <-.
    apply read_fixed_any in E2 as (Hl & Hm2 & Hin); [|lia..].
    split_and!; [done|cbn; by rewrite <- Hi|by eapply moved_trans].
Qed.

Lemma read_fields_any fuel r :
  0 <= r_position r -> Z.max 0 (zlen (r_input r) - r_position r) < Z.of_nat fuel ->
  exists out, read_fields fuel r = Some out /\
    forall fs, out = Ok fs -> Forall (fun f => field_number f.1 /\ value_within (r_input r) f.2) fs.
Proof.
  revert r. induction fuel as [|fuel IH]; intros r Hp Hfuel; cbn [read_fields].
  - lia.
  - destruct (next_field r) as [[[[f v]|] r']|e] eqn:E.
    + apply next_field_any in E as (Hf & Hv & (Hi & _ & Hm)); [|done].
      destruct (IH r') as (out & -> & Hout); [lia|rewrite Hi; lia|]. rewrite Hi in Hout.
      eexists. split; [done|]. destruct out as [fs|]; [|done].
      intros ? [= <-]. constructor; [done|]. by apply Hout.
    + eexists. split; [done|]. by intros ? [= <-].
    + by eexists.
Qed.

(** Reading fields is total and safe on any bytes whatever: it ends with a list
    of fields or an error, every field number it reports is a nonzero [u32], every
    varint fits [u64], and every byte field is a slice of the input. *)
Theorem read_message_total input :
  exists out, read_message input = Some out /\
    forall fs, out = Ok fs -> Forall (fun f => field_number f.1 /\ value_within input f.2) fs.
Proof. apply (read_fields_any (S (length input)) (reader_new input)); cbn; unfold zlen; lia. Qed.

(** An enum field decodes only to a value its parser knows: the varint is the
    sign-extended [i32] and [parse] accepts it; every other varint is an error, never
    a default. *)
Theorem decode_enum_iff {T} field n (parse : Z -> option T) t :
  u64 n ->
  decode_enum field (FVarint n) parse = Ok t <->
  exists value, -2147483648 <= value <= 2147483647 /\ wrap 64 value = n /\ parse value = Some t.
Proof.
  intros Hn. unfold decode_enum. cbn [as_u64].
  set (raw := if n <=? I64_MAX then n else n - 2 ^ 64).
  assert (wrap 64 raw = n /\ I64_MIN <= raw <= I64_MAX) as [Hraw Hrange].
  { unfold raw. destruct (Z.leb_spec n I64_MAX).
    - split; [apply wrap_small|]; ints; lia.
    - split; [|ints; lia]. unfold wrap. replace (n - 2 ^ 64) with (n + (-1) * 2 ^ 64) by lia.
      rewrite Z.mod_add by lia. apply Z.mod_small. ints. lia. }
  assert (forall value, -2147483648 <= value <= 2147483647 -> wrap 64 value = n -> value = raw) as Huniq.
  { intros value Hv Hw. unfold wrap in *. rewrite <- Hraw in Hw.
    pose proof (Z.div_mod value (2 ^ 64) ltac:(lia)) as H1.
    pose proof (Z.div_mod raw (2 ^ 64) ltac:(lia)) as H2. rewrite Hw in H1.
    change (2 ^ 64) with 18446744073709551616 in *. ints. lia. }
  destruct (orb _ _) eqn:Hb.
  - split; [done|]. intros (value & Hv & Hw & _). rewrite (Huniq value Hv Hw) in Hv.
    apply orb_true_iff in Hb as [Hb|Hb]; breflect; lia.
  - apply orb_false_iff in Hb as [Hlo Hhi]. breflect. destruct (parse raw) as [u|] eqn:Hp; cbn [ok_or].
    + split.
      * intros [= <-]. exists raw. split_and!; [lia|lia|done|done].
      * intros (value & Hv & Hw & Hpv). rewrite (Huniq value Hv Hw) in Hpv. congruence.
    + split; [done|]. intros (value & Hv & Hw & Hpv). rewrite (Huniq value Hv Hw) in Hpv. congruence.
Qed.

(** ** Frames *)

(** The source of a connection: the bytes still to come, and how the next calls of
    [read] will answer: an I/O error, or a count.  A call returns at least one byte
    while any is left, and never more than the buffer holds. *)
Inductive ReadAnswer : Type := ReadError (errno : Z) | ReadCount (count : nat).

Record Source := mkSource { stream : bytes; answers : list ReadAnswer }.

Inductive FrameError : Type :=
| FrameIo (errno : Z)
| FrameTruncated
| FrameWire (e : WireError).

(** [source.read(&mut buffer)] on a buffer of [room] bytes, [room] being positive. *)
Definition source_read (s : Source) (room : nat) : result Z (bytes * Source) :=
  match answers s with
  | ReadError errno :: _ => Err errno
  | ReadCount count :: rest =>
      let n := Nat.min room (Nat.max 1 count) in
      Ok (take n (stream s), mkSource (drop n (stream s)) rest)
  | [] => Ok (take room (stream s), mkSource (drop room (stream s)) [])
  end.

(** A fill loop, [while filled < size]: the bytes read so far, in order.  [None] is the
    source ending at a count of zero, with what was filled. *)
Fixpoint fill_buffer (rounds : nat) (s : Source) (filled : bytes) (size : nat) :
    result Z (option bytes * bytes * Source) :=
  match rounds with
  | O => Ok (Some filled, filled, s)
  | S rounds =>
      if Nat.ltb (length filled) size then
        let? (chunk, s) := source_read s (size - length filled) in
        match chunk with
        | [] => Ok (None, filled, s)
        | _ => fill_buffer rounds s (filled ++ chunk) size
        end
      else Ok (Some filled, filled, s)
  end.

Definition read_frame (s : Source) : result FrameError (option bytes * Source) :=
  let? (header, s) := map_err FrameIo (fill_buffer 5 s [] 4) in
  match header with
  | (None, []) => Ok (None, s)
  | (None, _) => Err FrameTruncated
  | (Some header, _) =>
      let length := from_be_bytes header in
      if MAX_FRAME_BYTES <? length then Err (FrameWire (FrameTooLarge length))
      else
        let size := Z.to_nat length in
        let? (body, s) := map_err FrameIo (fill_buffer (S size) s [] size) in
        match body with
        | (None, _) => Err FrameTruncated
        | (Some body, _) => Ok (Some body, s)
        end
  end.

(** [write_frame] to a sink that takes every byte. *)
Definition write_frame (sink : bytes) (body : bytes) : result FrameError bytes :=
  if MAX_FRAME_BYTES <? zlen body then Err (FrameWire (FrameTooLarge (zlen body)))
  else Ok ((sink ++ to_be_bytes 4 (wrap 32 (zlen body))) ++ body).

(** The connection's loop: frames until the clean end. *)
Fixpoint read_frames (fuel : nat) (s : Source) : option (result FrameError (list bytes)) :=
  match fuel with
  | O => None
  | S fuel =>
      match read_frame s with
      | Err e => Some (Err e)
      | Ok (None, _) => Some (Ok [])
      | Ok (Some body, s) =>
          match read_frames fuel s with
          | None => None
          | Some rest => Some (let? bodies := rest in Ok (body :: bodies))
          end
      end
  end.

Definition no_io_error (l : list ReadAnswer) : Prop :=
  Forall (fun a => match a with ReadError _ => False | ReadCount _ => True end) l.

(** A read takes between one byte and the room, of the bytes that are left. *)
Lemma source_read_spec s room :
  no_io_error (answers s) -> (0 < room)%nat ->
  exists n l, (1 <= n <= room)%nat /\ no_io_error l /\
    source_read s room = Ok (take n (stream s), mkSource (drop n (stream s)) l).
Proof.
  unfold source_read. intros Ha Hr. destruct (answers s) as [|[e|c] rest].
  - exists room, []. split_and!; try lia; [constructor|done].
  - by inversion Ha.
  - inversion Ha; subst. eexists _, rest. split_and!; [..|done|reflexivity]; lia.
Qed.

Lemma fill_buffer_spec rounds s filled size :
  no_io_error (answers s) -> (length filled <= size)%nat -> (size - length filled < rounds)%nat ->
  let need := (size - length filled)%nat in
  exists l, no_io_error l /\
    fill_buffer rounds s filled size =
      Ok (if Nat.ltb (length (stream s)) need
          then (None, filled ++ stream s, mkSource [] l)
          else (Some (filled ++ take need (stream s)), filled ++ take need (stream s),
                mkSource (drop need (stream s)) l)).
Proof.
  revert s filled. induction rounds as [|rounds IH]; intros s filled Ha Hle Hlt need; [lia|].
  cbn [fill_buffer]. destruct (Nat.ltb_spec (length filled) size) as [Hmore|Hfull].
  - destruct (source_read_spec s (size - length filled) Ha ltac:(lia)) as (n & l & Hn & Hl & Hread).
    rewrite Hread. fold need in Hn |- *.
    destruct (take n (stream s)) as [|b chunk] eqn:Hchunk.
    + assert (stream s = []) as Hs by (destruct (stream s); [done|destruct n; [lia|done]]).
      rewrite Hs in *. exists l. split; [done|]. cbn [length].
      destruct (Nat.ltb_spec 0 need); [|lia]. by rewrite app_nil_r, drop_nil.
    + rewrite <- Hchunk. assert (length (take n (stream s)) <> O) as Hne by by rewrite Hchunk.
      rewrite length_take in Hne.
      destruct (IH (mkSource (drop n (stream s)) l) (filled ++ take n (stream s)))
        as (l' & Hl' & Heq); [done|rewrite length_app, length_take; lia..|].
      exists l'. split; [done|]. cbn [stream answers] in Heq.
      rewrite Heq, length_app, length_take, length_drop.
      destruct (Nat.ltb_spec (length (stream s)) need).
      * destruct (Nat.ltb_spec (length (stream s) - n) (size - (length filled + n `min` length (stream s)))); [|lia].
        by rewrite <- app_assoc, take_drop.
      * destruct (Nat.ltb_spec (length (stream s) - n) (size - (length filled + n `min` length (stream s)))); [lia|].
        replace (size - (length filled + n `min` length (stream s)))%nat with (need - n)%nat by lia.
        rewrite <- app_assoc, drop_drop.
        replace (n + (need - n))%nat with need by lia.
        assert (take n (stream s) ++ take (need - n) (drop n (stream s)) = take need (stream s)) as ->; [|done].
        rewrite <- (take_drop n (stream s)) at 3. rewrite take_app_ge by (rewrite length_take; lia).
        rewrite length_take. do 2 f_equal. lia.
  - exists (answers s). split; [done|]. replace need with O by lia.
    destruct (Nat.ltb_spec (length (stream s)) 0); [lia|]. rewrite take_0, drop_0, app_nil_r. by destruct s.
Qed.

Definition frame_bytes (body : bytes) : bytes := to_be_bytes 4 (zlen body) ++ body.

Lemma write_frame_Ok sink body :
  zlen body <= MAX_FRAME_BYTES -> write_frame sink body = Ok (sink ++ frame_bytes body).
Proof.
  intros Hl. unfold write_frame, frame_bytes, MAX_FRAME_BYTES in *. destruct (Z.ltb_spec (16 * 1024 * 1024) (zlen body)); [lia|].
  rewrite wrap_small by (pose proof (zlen_nonneg body); lia). by rewrite app_assoc.
Qed.

(** Reading a prefix of a frame followed, if it is whole, by anything. *)
Lemma read_frame_prefix body k rest l :
  zlen body <= MAX_FRAME_BYTES -> no_io_error l ->
  (k <= length (frame_bytes body))%nat -> (k = length (frame_bytes body) \/ rest = []) ->
  exists l', no_io_error l' /\
    read_frame (mkSource (take k (frame_bytes body) ++ rest) l) =
      (if Nat.eqb k (length (frame_bytes body)) then Ok (Some body, mkSource rest l')
       else if Nat.eqb k 0 then Ok (None, mkSource [] l') else Err FrameTruncated).
Proof.
  intros Hb Hl Hk Hrest. pose proof (zlen_nonneg body) as Hb0. unfold MAX_FRAME_BYTES in Hb.
  assert (length (frame_bytes body) = (4 + length body)%nat) as Hlen
    by (unfold frame_bytes; by rewrite length_app, to_be_length).
  assert (from_be_bytes (to_be_bytes 4 (zlen body)) = zlen body) as Hhead
    by (rewrite from_to_be; apply Z.mod_small; cbn; lia).
  unfold read_frame. set (s := mkSource _ _).
  destruct (fill_buffer_spec 5 s [] 4 Hl ltac:(cbn; lia) ltac:(cbn; lia)) as (l1 & Hl1 & ->).
  cbn [map_err app length Nat.sub].
  destruct (decide (4 <= k)%nat) as [Hk4|Hk4].
  - assert (stream s = to_be_bytes 4 (zlen body) ++ take (k - 4) body ++ rest) as Hs.
    { unfold s, frame_bytes. cbn [stream]. rewrite take_app_ge, to_be_length by (rewrite to_be_length; lia).
      by rewrite <- app_assoc. }
    rewrite Hs, length_app, to_be_length. destruct (Nat.ltb_spec (4 + length (take (k - 4) body ++ rest)) 4); [lia|].
    rewrite take_app_length' by (by rewrite to_be_length). rewrite drop_app_length' by (by rewrite to_be_length).
    rewrite Hhead. unfold MAX_FRAME_BYTES. destruct (Z.ltb_spec (16 * 1024 * 1024) (zlen body)); [lia|].
    assert (Z.to_nat (zlen body) = length body) as -> by (unfold zlen; lia).
    destruct (fill_buffer_spec (S (length body)) (mkSource (take (k - 4) body ++ rest) l1) [] (length body)
      Hl1 ltac:(cbn; lia) ltac:(cbn; lia)) as (l2 & Hl2 & ->).
    cbn [map_err app length stream]. rewrite Nat.sub_0_r. exists l2. split; [done|].
    destruct (Nat.eqb_spec k (length (frame_bytes body))) as [Hwhole|Hpart].
    + rewrite (take_ge body) by lia. rewrite length_app.
      destruct (Nat.ltb_spec (length body + length rest) (length body)); [lia|].
      by rewrite take_app_length, drop_app_length.
    + destruct Hrest as [?| ->]; [done|]. rewrite app_nil_r, length_take.
      destruct (Nat.ltb_spec ((k - 4) `min` length body) (length body)); [|lia].
      destruct (Nat.eqb_spec k 0); [lia|done].
  - destruct Hrest as [?| ->]; [lia|]. exists l1. split; [done|].
    assert (length (stream s) = k) as Hsl by (unfold s; cbn [stream]; rewrite app_nil_r, length_take; lia).
    rewrite Hsl. destruct (Nat.ltb_spec k 4); [|lia].
    destruct (Nat.eqb_spec k (length (frame_bytes body))); [lia|].
    destruct (Nat.eqb_spec k 0) as [->|Hk0].
    + by destruct (stream s).
    + by destruct (stream s).
Qed.

(** Frames written one after the other. *)
Fixpoint write_frames (sink : bytes) (bodies : list bytes) : result FrameError bytes :=
  match bodies with
  | [] => Ok sink
  | body :: bodies => let? sink := write_frame sink body in write_frames sink bodies
  end.

Lemma write_frames_Ok sink bodies :
  Forall (fun b => zlen b <= MAX_FRAME_BYTES) bodies ->
  write_frames sink bodies = Ok (sink ++ concat (map frame_bytes bodies)).
Proof.
  intros H. revert sink. induction H as [|b bodies Hb _ IH]; intros sink; cbn [write_frames map concat].
  - by rewrite app_nil_r.
  - by rewrite write_frame_Ok, IH, app_assoc.
Qed.

(** C38. Frames survive any fragmentation of the stream: what [write_frame] wrote, read
    back in pieces of whatever sizes the connection delivers, is the same bodies in
    order and then a clean end. *)
Theorem frames_roundtrip bodies l :
  Forall (fun b => zlen b <= MAX_FRAME_BYTES) bodies -> no_io_error l ->
  exists written, write_frames [] bodies = Ok written /\
    read_frames (S (List.length bodies)) (mkSource written l) = Some (Ok bodies).
Proof.
  intros Hb Hl. rewrite write_frames_Ok by done. cbn [app]. eexists. split; [done|].
  revert l Hl. induction Hb as [|b bodies Hb _ IH]; intros l Hl; cbn [map concat List.length].
  - destruct (read_frame_prefix [] 0 [] l ltac:(done) Hl ltac:(lia) ltac:(by right)) as (l' & _ & Hr).
    cbn [read_frames]. cbn in Hr. by rewrite Hr.
  - remember (S (List.length bodies)) as fuel. cbn [read_frames].
    destruct (read_frame_prefix b (length (frame_bytes b)) (concat (map frame_bytes bodies)) l Hb Hl
      ltac:(lia) ltac:(by left)) as (l' & Hl' & Hr).
    rewrite firstn_all, Nat.eqb_refl in Hr. rewrite Hr. subst fuel. by rewrite IH.
Qed.

(** The frame reader never returns a short or an oversized frame: a stream that
    ends inside a frame is an error, one that ends between frames is a clean end, and
    a declared length above the limit is refused whatever follows. *)
Theorem read_frame_refusals l :
  no_io_error l ->
  (forall body k, zlen body <= MAX_FRAME_BYTES -> (0 < k < length (frame_bytes body))%nat ->
     read_frame (mkSource (take k (frame_bytes body)) l) = Err FrameTruncated) /\
  (exists s, read_frame (mkSource [] l) = Ok (None, s)) /\
  (forall size rest, MAX_FRAME_BYTES < size <= U32_MAX ->
     read_frame (mkSource (to_be_bytes 4 size ++ rest) l) = Err (FrameWire (FrameTooLarge size))).
Proof.
  intros Hl. split_and!.
  - intros body k Hb Hk.
    destruct (read_frame_prefix body k [] l Hb Hl ltac:(lia) ltac:(by right)) as (l' & _ & Hr).
    rewrite app_nil_r in Hr. rewrite Hr.
    destruct (Nat.eqb_spec k (length (frame_bytes body))); [lia|]. destruct (Nat.eqb_spec k 0); [lia|done].
  - destruct (read_frame_prefix [] 0 [] l ltac:(done) Hl ltac:(lia) ltac:(by right)) as (l' & _ & Hr).
    cbn in Hr. rewrite Hr. by eexists.
  - intros size rest Hs. unfold read_frame.
    destruct (fill_buffer_spec 5 (mkSource (to_be_bytes 4 size ++ rest) l) [] 4 Hl ltac:(cbn; lia)
      ltac:(cbn; lia)) as (l1 & Hl1 & ->).
    cbn [map_err app length Nat.sub stream]. rewrite length_app, to_be_length.
    destruct (Nat.ltb_spec (4 + length rest) 4); [lia|].
    rewrite take_app_length' by (by rewrite to_be_length).
    rewrite from_to_be, Z.mod_small by (unfold MAX_FRAME_BYTES in Hs; ints; cbn; lia).
    destruct (Z.ltb_spec MAX_FRAME_BYTES size); [done|lia].
Qed.

(** ** Instances *)

Lemma wire_fields_roundtrip_witness :
  let es := [EmitUint64 1 300; EmitBool 2 false; EmitEnum 3 (-1); EmitBytes 4 [1; 2; 3]; EmitMessage 5 []] in
  read_message (foldl emit [] es) =
    Some (Ok [(1, FVarint 300); (3, FVarint 18446744073709551615); (4, FBytes [1; 2; 3]); (5, FBytes [])]).
Proof.
  intros es. assert (Forall emission_ok es) as Hes.
  { repeat apply Forall_cons_2; try apply Forall_nil_2; unfold emission_ok, field_number, zlen; ints;
      cbn [List.length]; lia. }
  exact (wire_fields_roundtrip es Hes ltac:(vm_compute; congruence)).
Defined.

Lemma decode_enum_iff_witness :
  decode_enum 3 (FVarint 2) (fun n => if n =? 2 then Some true else None) = Ok true.
Proof.
  apply (proj2 (decode_enum_iff 3 2 (fun n => if n =? 2 then Some true else None) true ltac:(zlia))).
  exists 2. split_and!; (lia || reflexivity).
Defined.

Lemma frames_roundtrip_witness :
  exists written, write_frames [] [[1; 2]; []] = Ok written /\
    read_frames 3 (mkSource written [ReadCount 3; ReadCount 1]) = Some (Ok [[1; 2]; []]).
Proof.
  apply (frames_roundtrip [[1; 2]; []] [ReadCount 3; ReadCount 1]).
  - repeat apply Forall_cons_2; try apply Forall_nil_2; vm_compute; congruence.
  - repeat constructor.
Defined.

Lemma read_frame_refusals_witness :
  read_frame (mkSource (to_be_bytes 4 U32_MAX ++ [7]) [ReadCount 1]) =
    Err (FrameWire (FrameTooLarge U32_MAX)).
Proof.
  apply (read_frame_refusals [ReadCount 1]); [repeat constructor|]. unfold MAX_FRAME_BYTES. ints. lia.
Defined.

(** Field numbers are taken from the key modulo [2^32]: the number 2^32 + 1 reads as 1. *)
Example field_number_wraps :
  read_message (write_varint (write_varint [] (Z.shiftl (2 ^ 32 + 1) 3)) 7) = Some (Ok [(1, FVarint 7)]).
Proof. vm_compute. reflexivity. Qed.
