(* ===== verification/Plan.v ===== *)
(** * Plan sealing (crates/arkforge-core/src/plan.rs)

    The sealed plan: its input, the body its digest covers, [seal],
    [recompute_digest], [verify_self_digest] and expiry. *)

From S2P Require Import Prelude Cbor Sha256 Digest Fields Authority Identity Effect FlashStep.
From S2P Require Import Projection.

(** ** Data *)

(** [PlanSchemaVersion(1)]; the version is the [u32] itself. *)
Definition SCHEMA_CURRENT : Z := 1.

Inductive ExecutionPurpose : Type := PrimaryFlash | SupersedingRecovery.

#[global] Instance ExecutionPurpose_eq_dec : EqDecision ExecutionPurpose.
Proof. solve_decision. Defined.

Definition purpose_as_str (p : ExecutionPurpose) : string :=
  match p with PrimaryFlash => "primaryFlash" | SupersedingRecovery => "supersedingRecovery" end.

Definition purpose_parse (value : string) : option ExecutionPurpose :=
  if String.eqb value "primaryFlash" then Some PrimaryFlash
  else if String.eqb value "supersedingRecovery" then Some SupersedingRecovery
  else None.

Record PostflightPolicy := mkPostflight {
  require_exact_target_lineage : bool;
  require_mode : option DeviceMode;
  required_runtime_facts : list (OpaqueId * string)
}.

#[global] Instance PostflightPolicy_eq_dec : EqDecision PostflightPolicy.
Proof. solve_decision. Defined.

Definition postflight_none : PostflightPolicy := mkPostflight false None [].

#[global] Instance postflight_cbor : CanonicalCbor PostflightPolicy := fun p =>
  map_of [("requireExactTargetLineage", Bool (require_exact_target_lineage p));
          ("requireMode", option_cbor (require_mode p));
          ("requiredRuntimeFacts", Map (fact_entries (required_runtime_facts p)))]%string.

Record RecoveryContractRef := mkContract {
  contract_id : OpaqueId;
  contract_version : Version;
  contract_digest : Sha256Digest
}.

#[global] Instance RecoveryContractRef_eq_dec : EqDecision RecoveryContractRef.
Proof. solve_decision. Defined.

#[global] Instance contract_cbor : CanonicalCbor RecoveryContractRef := fun c =>
  map_of [("id", to_cbor (contract_id c)); ("version", to_cbor (contract_version c));
          ("digest", to_cbor (contract_digest c))]%string.

Record PlanSealInput := mkSealInput {
  s_schema_version : Z;
  s_plan_id : OpaqueId;
  s_execution_purpose : ExecutionPurpose;
  s_authority_binding : AuthorityBindingRef;
  s_provider : ProviderIdentity;
  s_profile : DeviceProfileIdentity;
  s_artifact : ArtifactIdentity;
  s_toolchain : ToolchainIdentity;
  s_maturity : MaturityState;
  s_authority_support : AuthoritySupportBinding;
  s_negotiated_capabilities : NegotiatedCapabilities;
  s_public_steps : list PublicFlashStep;
  s_effect_set : EffectSet;
  s_projection : ProjectionDigests;
  s_recovery_contract : option RecoveryContractRef;
  s_postflight : PostflightPolicy;
  s_created_at_epoch_ms : Z;
  s_expires_at_epoch_ms : Z
}.

Record FlashPlanEnvelope := mkEnvelope {
  schema_version : Z;
  plan_id : OpaqueId;
  plan_digest : Sha256Digest;
  execution_purpose : ExecutionPurpose;
  authority_binding : AuthorityBindingRef;
  provider : ProviderIdentity;
  profile : DeviceProfileIdentity;
  artifact : ArtifactIdentity;
  toolchain : ToolchainIdentity;
  maturity : MaturityState;
  authority_support : AuthoritySupportBinding;
  negotiated_capabilities : NegotiatedCapabilities;
  public_steps : list PublicFlashStep;
  effect_set : EffectSet;
  e_provider_execution_plan_digest : Sha256Digest;
  e_public_projection_digest : Sha256Digest;
  per_action_digests : list ActionDigestBinding;
  recovery_contract : option RecoveryContractRef;
  postflight : PostflightPolicy;
  created_at_epoch_ms : Z;
  expires_at_epoch_ms : Z
}.

Inductive PlanError : Type :=
| ExpiryNotAfterCreation (created expires : Z)
| DigestMismatch (stored recomputed : Sha256Digest)
| PlanEffect (e : EffectError)
| PlanCbor (e : CborError).

(** ** Sealing *)

Definition plan_digest_fields (i : PlanSealInput) : list (string * CborValue) :=
  [("schemaVersion", Unsigned (s_schema_version i));
   ("planId", to_cbor (s_plan_id i));
   ("executionPurpose", Text (purpose_as_str (s_execution_purpose i)));
   ("authorityBinding", to_cbor (s_authority_binding i));
   ("provider", to_cbor (s_provider i));
   ("profile", to_cbor (s_profile i));
   ("artifact", to_cbor (s_artifact i));
   ("toolchain", to_cbor (s_toolchain i));
   ("maturity", to_cbor (s_maturity i));
   ("authoritySupport", to_cbor (s_authority_support i));
   ("negotiatedCapabilities", to_cbor (s_negotiated_capabilities i));
   ("publicSteps", Array (map to_cbor (s_public_steps i)));
   ("effectSet", to_cbor (s_effect_set i));
   ("providerExecutionPlanDigest", to_cbor (provider_execution_plan_digest (s_projection i)));
   ("publicProjectionDigest", to_cbor (public_projection_digest (s_projection i)));
   ("recoveryContract", option_cbor (s_recovery_contract i));
   ("postflight", to_cbor (s_postflight i));
   ("createdAtEpochMs", Unsigned (s_created_at_epoch_ms i));
   ("expiresAtEpochMs", Unsigned (s_expires_at_epoch_ms i))]%string.

Definition plan_digest_body (i : PlanSealInput) : CborValue := map_of (plan_digest_fields i).

(** The literal of [seal]. *)
Definition envelope_of (i : PlanSealInput) (plan_digest : Sha256Digest) : FlashPlanEnvelope :=
  mkEnvelope (s_schema_version i) (s_plan_id i) plan_digest (s_execution_purpose i)
    (s_authority_binding i) (s_provider i) (s_profile i) (s_artifact i) (s_toolchain i)
    (s_maturity i) (s_authority_support i) (s_negotiated_capabilities i) (s_public_steps i)
    (s_effect_set i) (provider_execution_plan_digest (s_projection i))
    (public_projection_digest (s_projection i)) (per_action (s_projection i))
    (s_recovery_contract i) (s_postflight i) (s_created_at_epoch_ms i) (s_expires_at_epoch_ms i).

Definition seal (i : PlanSealInput) : result PlanError FlashPlanEnvelope :=
  if s_expires_at_epoch_ms i <=? s_created_at_epoch_ms i
  then Err (ExpiryNotAfterCreation (s_created_at_epoch_ms i) (s_expires_at_epoch_ms i))
  else
    let? _ := map_err PlanEffect (validate_executable (s_effect_set i)) in
    let? body := map_err PlanCbor (to_canonical_bytes (plan_digest_body i)) in
    Ok (envelope_of i (digest_in_domain DPlan body)).

(** The literal of [digest_body_bytes]. *)
Definition seal_input_of (e : FlashPlanEnvelope) : PlanSealInput :=
  mkSealInput (schema_version e) (plan_id e) (execution_purpose e) (authority_binding e)
    (provider e) (profile e) (artifact e) (toolchain e) (maturity e) (authority_support e)
    (negotiated_capabilities e) (public_steps e) (effect_set e)
    (mkProjection (per_action_digests e) (e_provider_execution_plan_digest e)
       (e_public_projection_digest e))
    (recovery_contract e) (postflight e) (created_at_epoch_ms e) (expires_at_epoch_ms e).

Definition digest_body_bytes (e : FlashPlanEnvelope) : result PlanError bytes :=
  map_err PlanCbor (to_canonical_bytes (plan_digest_body (seal_input_of e))).

Definition recompute_digest (e : FlashPlanEnvelope) : result PlanError Sha256Digest :=
  let? body := digest_body_bytes e in Ok (digest_in_domain DPlan body).

Definition verify_self_digest (e : FlashPlanEnvelope) : result PlanError unit :=
  let? recomputed := recompute_digest e in
  if negb (bool_decide (recomputed = plan_digest e))
  then Err (DigestMismatch (plan_digest e) recomputed) else Ok tt.

Definition is_expired_at (e : FlashPlanEnvelope) (now_epoch_ms : Z) : bool :=
  expires_at_epoch_ms e <=? now_epoch_ms.

(** ** What sealing establishes *)

Lemma seal_input_of_envelope i d : seal_input_of (envelope_of i d) = i.
Proof. by destruct i as [? ? ? ? ? ? ? ? ? ? ? ? ? [] ? ? ? ?]. Qed.

Lemma envelope_of_seal_input e : envelope_of (seal_input_of e) (plan_digest e) = e.
Proof. by destruct e. Qed.

Lemma seal_Ok i e :
  seal i = Ok e <->
  s_created_at_epoch_ms i < s_expires_at_epoch_ms i /\ validate_executable (s_effect_set i) = Ok tt /\
  exists body, enc (plan_digest_body i) body /\ e = envelope_of i (digest_in_domain DPlan body).
Proof.
  unfold seal, enc. destruct (Z.leb_spec (s_expires_at_epoch_ms i) (s_created_at_epoch_ms i)).
  { split; [done|]. intros [? _]. lia. }
  destruct (validate_executable _) as [[]|]; cbn [map_err]; [|split; [done|by intros (_ & ? & _)]].
  destruct (to_canonical_bytes _) as [body|]; cbn [map_err]; split.
  - intros [= <-]. split_and!; try done. by exists body.
  - by intros (_ & _ & ? & [= <-] & ->).
  - done.
  - by intros (_ & _ & ? & ? & _).
Qed.

Lemma verify_self_digest_Ok e :
  verify_self_digest e = Ok tt <->
  exists body, enc (plan_digest_body (seal_input_of e)) body /\ plan_digest e = digest_in_domain DPlan body.
Proof.
  unfold verify_self_digest, recompute_digest, digest_body_bytes, enc.
  destruct (to_canonical_bytes _) as [body|]; cbn [map_err].
  - case_bool_decide as Hd; cbn [negb]; split; try done.
    + intros _. by exists body.
    + intros (? & [= <-] & ?). by destruct Hd.
  - split; [done|by intros (? & ? & _)].
Qed.

(** Sealing and loading agree: [seal] accepts an input exactly when the plan
    expires after it was created, its effects are executable and its body encodes;
    the envelope then carries the input unchanged and verifies its own digest, and
    an envelope whose digest verifies is the one sealing its contents gives. *)
Theorem seal_verifies i e :
  (seal i = Ok e ->
     seal_input_of e = i /\ verify_self_digest e = Ok tt /\
     s_created_at_epoch_ms i < s_expires_at_epoch_ms i /\
     validate_executable (s_effect_set i) = Ok tt) /\
  (verify_self_digest e = Ok tt -> validate_executable (effect_set e) = Ok tt ->
     created_at_epoch_ms e < expires_at_epoch_ms e -> seal (seal_input_of e) = Ok e).
Proof.
  split.
  - intros (Ht & Hv & body & Hb & ->)%seal_Ok. rewrite seal_input_of_envelope.
    split_and!; try done. apply verify_self_digest_Ok. exists body. by rewrite seal_input_of_envelope.
  - intros (body & Hb & Hd)%verify_self_digest_Ok Hv Ht. apply seal_Ok. split_and!; [done..|].
    exists body. split; [done|]. by rewrite <- Hd, envelope_of_seal_input.
Qed.
