(* ===== verification/PlanCodec.v ===== *)
(** * The stored plan codec (crates/arkforge-engine/src/plan_codec.rs, lib.rs)

    Private storage of a sealed plan: the readers of its fields, [validate],
    [encode] and [decode].  An error that the code turns into text keeps the error
    it came from. *)

From S2P Require Import Prelude Cbor Sha256 Digest Fields Authority Identity Effect FlashStep.
From S2P Require Import Projection Plan.

(** ** Data *)

Inductive CodecError : Type :=
| Message (message : string)
| CheckedCbor (e : CborError)
| CheckedId (e : IdError)
| CheckedEffect (e : EffectError)
| CheckedProjection (e : ProjectionError)
| CheckedPlan (e : PlanError).

Record StoredPlan := mkStored {
  envelope : FlashPlanEnvelope;
  private_plan : StoredProviderPlan
}.

#[global] Instance ActionDigestBinding_eq_dec : EqDecision ActionDigestBinding.
Proof. intros [? ? [] ?] [? ? [] ?]; solve_decision. Defined.

Definition MAX_BYTES : Z := 8 * 1024 * 1024.

(** ** Reading one value *)

Definition as_map (value : CborValue) : result CodecError (list (CborValue * CborValue)) :=
  match value with Map items => Ok items | _ => Err (Message "expected map") end.

Definition as_array (value : CborValue) : result CodecError (list CborValue) :=
  match value with Array items => Ok items | _ => Err (Message "expected array") end.

Definition decode_text (value : CborValue) : result CodecError string :=
  match value with Text text => Ok text | _ => Err (Message "expected text") end.

Definition byte_string (value : CborValue) : result CodecError bytes :=
  match value with Bytes bytes => Ok bytes | _ => Err (Message "expected bytes") end.

Definition uint (value : CborValue) : result CodecError Z :=
  match value with Unsigned number => Ok number | _ => Err (Message "expected unsigned integer") end.

Definition boolean (value : CborValue) : result CodecError bool :=
  match value with Bool value => Ok value | _ => Err (Message "expected boolean") end.

(** [find_map] over the entries, on the key [CborValue::text(key)]. *)
Definition sealed_field (value : CborValue) (key : string) : result CodecError CborValue :=
  let? items := as_map value in
  ok_or (snd <$> List.find (fun '(name, _) =>
           match name with Text text => String.eqb text key | _ => false end) items)
    (Message ("missing sealed field " +:+ key)).

(** [dec(field(value, key)?)?] *)
Definition at_field {A} (dec : CborValue -> result CodecError A) (value : CborValue) (key : string) : result CodecError A :=
  let? v := sealed_field value key in dec v.

Definition decode_list {A} (dec : CborValue -> result CodecError A) (value : CborValue) : result CodecError (list A) :=
  let? items := as_array value in collect_results (map dec items).

Definition optional {A} (dec : CborValue -> result CodecError A) (value : CborValue) : result CodecError (option A) :=
  match value with Null => Ok None | _ => let? a := dec value in Ok (Some a) end.

(** [u32::try_from]. *)
Definition u32_value (value : CborValue) : result CodecError Z :=
  let? number := uint value in
  if number <=? U32_MAX then Ok number
  else Err (Message "out of range integral type conversion attempted").

Definition decode_digest (value : CborValue) : result CodecError Sha256Digest :=
  let? l := byte_string value in
  if zlen l =? 32 then Ok (mkDigest l) else Err (Message "digest must be 32 bytes").

Definition opaque (value : CborValue) : result CodecError OpaqueId :=
  let? text := decode_text value in map_err CheckedId (OpaqueId_new text).

Definition decode_version (value : CborValue) : result CodecError Version :=
  let? items := as_array value in
  match items with
  | [major; minor; patch] =>
      let? major := u32_value major in
      let? minor := u32_value minor in
      let? patch := u32_value patch in
      Ok (mkVersion major minor patch)
  | _ => Err (Message "version must have three components")
  end.

Definition decode_mode (value : CborValue) : result CodecError DeviceMode :=
  let? text := decode_text value in map_err CheckedEffect (DeviceMode_new text).

Definition decode_stage (value : CborValue) : result CodecError AgentStage :=
  let? text := decode_text value in map_err CheckedEffect (AgentStage_new text).

Definition decode_range (value : CborValue) : result CodecError ByteRange :=
  let? start := at_field uint value "start" in
  let? length := at_field uint value "length" in
  map_err CheckedEffect (ByteRange_new start length).

(** A value of an enumeration, from its name. *)
Definition named {A} (parse : string -> option A) (message : string) (value : CborValue) : result CodecError A :=
  let? text := decode_text value in ok_or (parse text) (Message message).

Definition boot_field_parse (text : string) : option BootMetadataField :=
  if String.eqb text "activeSlot" then Some ActiveSlot
  else if String.eqb text "bootCount" then Some BootCount
  else if String.eqb text "updaterCommand" then Some UpdaterCommand
  else if String.eqb text "lockState" then Some LockState
  else None.

Definition boot_field : CborValue -> result CodecError BootMetadataField :=
  named boot_field_parse "unknown boot metadata field".

Definition decode_target (value : CborValue) : result CodecError SemanticTarget :=
  let? items := as_map value in
  match items with
  | [(key, value)] =>
      let? key := decode_text key in
      if String.eqb key "partition" then let? id := opaque value in Ok (TargetPartition id)
      else if String.eqb key "rawRegion" then let? id := opaque value in Ok (TargetRawRegion id)
      else if String.eqb key "bootMetadata" then
        let? field := boot_field value in Ok (TargetBootMetadata field)
      else if String.eqb key "device" && match value with Null => true | _ => false end
      then Ok TargetDevice
      else Err (Message "unknown semantic target")
  | _ => Err (Message "semantic target must have one field")
  end.

Definition workflow_effect : CborValue -> result CodecError WorkflowEffect :=
  named effect_parse "unknown workflow effect".

(** ** Reading a plan's parts *)

Definition decode_step (value : CborValue) : result CodecError PublicFlashStep :=
  let? step_id := at_field opaque value "stepId" in
  let? kind := at_field (named step_kind_parse "unknown step kind") value "kind" in
  let? effect := at_field workflow_effect value "effect" in
  let? cancellation :=
    at_field (named cancellation_parse "unknown cancellation policy") value "cancellation" in
  let? binding := at_field (named binding_parse "unknown binding requirement") value "binding" in
  let? semantic_target := at_field (optional decode_target) value "semanticTarget" in
  let? content_digest := at_field (optional decode_digest) value "contentDigest" in
  let? expected_mode_before := at_field (optional decode_mode) value "expectedModeBefore" in
  let? expected_mode_after := at_field (optional decode_mode) value "expectedModeAfter" in
  let? private_action_digest := at_field decode_digest value "privateActionDigest" in
  Ok (mkStep step_id kind effect cancellation binding semantic_target content_digest
        expected_mode_before expected_mode_after private_action_digest).

Definition role_parse (text : string) : option PrivateActionRole :=
  if String.eqb text "primaryEffect" then Some PrimaryEffect
  else if String.eqb text "readOnlyTransportSubAction" then Some ReadOnlyTransportSubAction
  else None.

Definition decode_action (value : CborValue) : result CodecError PrivateActionRecord :=
  let? action_id := at_field opaque value "actionId" in
  let? step_id := at_field opaque value "stepId" in
  let? role := at_field (named role_parse "unknown action role") value "role" in
  let? effect_class := at_field workflow_effect value "effectClass" in
  let? declared_target := at_field (optional decode_target) value "declaredTarget" in
  let? declared_range := at_field (optional decode_range) value "declaredRange" in
  let? content_digest := at_field (optional decode_digest) value "contentDigest" in
  let? body := sealed_field value "body" in
  Ok (mkAction action_id step_id role effect_class declared_target declared_range content_digest body).

Definition decode_binding (value : CborValue) : result CodecError AuthorityBindingRef :=
  let? namespace := at_field opaque value "authorityNamespace" in
  let? binding_id := at_field opaque value "bindingId" in
  let? binding_revision := at_field uint value "bindingRevision" in
  let? stable_identity_digest := at_field decode_digest value "stableIdentityDigest" in
  Ok (Authority.mkBinding (mkNamespace namespace) binding_id binding_revision stable_identity_digest).

Definition decode_provider (value : CborValue) : result CodecError ProviderIdentity :=
  let? id := at_field opaque value "id" in
  let? version := at_field decode_version value "version" in
  let? implementation_digest := at_field decode_digest value "implementationDigest" in
  Ok (mkProvider id version implementation_digest).

Definition decode_profile (value : CborValue) : result CodecError DeviceProfileIdentity :=
  let? id := at_field opaque value "id" in
  let? version := at_field decode_version value "version" in
  let? digest := at_field decode_digest value "digest" in
  Ok (mkProfile id version digest).

(** The nested literal of [artifact]. *)
Definition decode_format (format : CborValue) : result CodecError ArtifactFormat :=
  let? id := at_field opaque format "id" in
  let? version := at_field decode_version format "version" in
  Ok (mkFormat id version).

Definition decode_artifact (value : CborValue) : result CodecError ArtifactIdentity :=
  let? format := sealed_field value "format" in
  let? artifact_id := at_field opaque value "artifactId" in
  let? format := decode_format format in
  let? content_digest := at_field decode_digest value "contentDigest" in
  let? size_bytes := at_field uint value "sizeBytes" in
  let? manifest_digest := at_field decode_digest value "manifestDigest" in
  Ok (mkArtifact artifact_id format content_digest size_bytes manifest_digest).

Definition decode_toolchain (value : CborValue) : result CodecError ToolchainIdentity :=
  let? id := at_field opaque value "id" in
  let? kind := at_field (named toolchain_kind_parse "unknown toolchain kind") value "kind" in
  let? version := at_field decode_version value "version" in
  let? backend_digest := at_field decode_digest value "backendDigest" in
  let? upstream_ref := at_field (optional decode_text) value "upstreamRef" in
  Ok (mkToolchain id kind version backend_digest upstream_ref).

Definition decode_maturity (value : CborValue) : result CodecError MaturityState :=
  let blocker := at_field decode_text value "blocker" in
  let? state := at_field decode_text value "state" in
  if String.eqb state "productionVerified" then Ok MProductionVerified
  else if String.eqb state "hardwareCampaign" then
    let? campaign := at_field decode_text value "campaign" in Ok (MHardwareCampaign campaign)
  else if String.eqb state "hardwareGated" then let? b := blocker in Ok (MHardwareGated b)
  else if String.eqb state "planOnly" then let? b := blocker in Ok (MPlanOnly b)
  else if String.eqb state "researchOnly" then let? b := blocker in Ok (MResearchOnly b)
  else if String.eqb state "unavailable" then let? b := blocker in Ok (MUnavailable b)
  else Err (Message "unknown maturity state").

(** The nested match of [authority_support]. *)
Definition decode_support_state (state : CborValue) : result CodecError AuthoritySupportState :=
  let? name := at_field decode_text state "state" in
  if String.eqb name "productionVerified" then Ok ProductionVerified
  else if String.eqb name "hardwareCampaign" then
    let? campaign := at_field decode_text state "campaign" in Ok (HardwareCampaign campaign)
  else if String.eqb name "hardwareGated" then
    let? blocker := at_field decode_text state "blocker" in Ok (HardwareGated blocker)
  else Err (Message "unknown authority support state").

Definition decode_support (value : CborValue) : result CodecError AuthoritySupportBinding :=
  let? state := sealed_field value "state" in
  let? key_digest := at_field decode_digest value "keyDigest" in
  let? state := decode_support_state state in
  Ok (mkSupport key_digest state).

Definition decode_contract (value : CborValue) : result CodecError RecoveryContractRef :=
  let? id := at_field opaque value "id" in
  let? version := at_field decode_version value "version" in
  let? digest := at_field decode_digest value "digest" in
  Ok (mkContract id version digest).

(** The entries of a map, each key an identifier. *)
Definition decode_entries {A} (dec : CborValue -> result CodecError A) (value : CborValue) :
    result CodecError (list (OpaqueId * A)) :=
  let? items := as_map value in
  collect_results (map (fun '(key, value) =>
    let? key := opaque key in let? value := dec value in Ok (key, value)) items).

Definition decode_capabilities (value : CborValue) : result CodecError NegotiatedCapabilities :=
  let? entries := decode_entries boolean value in Ok (mkCapabilities entries).

Definition decode_postflight (value : CborValue) : result CodecError PostflightPolicy :=
  let? lineage := at_field boolean value "requireExactTargetLineage" in
  let? mode := at_field (optional decode_mode) value "requireMode" in
  let? facts := at_field (decode_entries decode_text) value "requiredRuntimeFacts" in
  Ok (mkPostflight lineage mode facts).

Definition impact_parse (text : string) : option DataImpactState :=
  if String.eqb text "preserved" then Some Preserved
  else if String.eqb text "overwritten" then Some Overwritten
  else if String.eqb text "unknown" then Some UnknownImpact
  else None.

Definition impact : CborValue -> result CodecError DataImpactState := named impact_parse "unknown data impact".

Definition typed_value (value : CborValue) : result CodecError TypedValue :=
  let? items := as_map value in
  match items with
  | [(key, value)] =>
      let? key := decode_text key in
      if String.eqb key "text" then let? text := decode_text value in Ok (TypedText text)
      else if String.eqb key "bool" then let? b := boolean value in Ok (TypedBool b)
      else if String.eqb key "integer" then
        match value with
        | Negative n => Ok (TypedInteger n)
        | Unsigned n =>
            if n <=? I64_MAX then Ok (TypedInteger n)
            else Err (Message "out of range integral type conversion attempted")
        | _ => Err (Message "expected integer")
        end
      else Err (Message "unknown typed value")
  | _ => Err (Message "typed value must have one field")
  end.

Definition decode_persistent (value : CborValue) : result CodecError PersistentEffect :=
  let? kind := at_field decode_text value "kind" in
  if String.eqb kind "erasePartition" then
    let? partition := at_field opaque value "partition" in
    let? range := at_field decode_range value "range" in
    Ok (ErasePartition partition range)
  else if String.eqb kind "writePartition" then
    let? partition := at_field opaque value "partition" in
    let? range := at_field decode_range value "range" in
    let? content := at_field decode_digest value "content" in
    Ok (WritePartition partition range content)
  else if String.eqb kind "writeRawRegion" then
    let? region := at_field opaque value "region" in
    let? range := at_field decode_range value "range" in
    let? content := at_field decode_digest value "content" in
    Ok (WriteRawRegion region range content)
  else if String.eqb kind "replacePartitionTable" then
    let? layout_digest := at_field decode_digest value "layoutDigest" in
    Ok (ReplacePartitionTable layout_digest)
  else if String.eqb kind "changeBootMetadata" then
    let? field := at_field boot_field value "field" in
    let? expected_value := at_field typed_value value "expectedValue" in
    Ok (ChangeBootMetadata field expected_value)
  else Err (Message "unknown persistent effect").

Definition decode_region (region : CborValue) : result CodecError MemoryRegion :=
  let? base_address := at_field uint region "baseAddress" in
  let? length := at_field uint region "length" in
  Ok (mkRegion base_address length).

Definition decode_transient (value : CborValue) : result CodecError TransientEffect :=
  let? kind := at_field decode_text value "kind" in
  if String.eqb kind "enterMode" then
    let? from := at_field decode_mode value "from" in
    let? to := at_field decode_mode value "to" in
    Ok (EnterMode from to)
  else if String.eqb kind "loadEphemeralAgent" then
    let? region := sealed_field value "memoryRegion" in
    let? stage := at_field decode_stage value "stage" in
    let? memory_region := decode_region region in
    let? content := at_field decode_digest value "content" in
    Ok (LoadEphemeralAgent stage memory_region content)
  else if String.eqb kind "usbDetachReattach" then
    let? expectation_digest := at_field decode_digest value "expectationDigest" in
    Ok (UsbDetachReattach expectation_digest)
  else if String.eqb kind "reboot" then
    let? target_mode := at_field decode_mode value "targetMode" in
    Ok (Reboot target_mode)
  else Err (Message "unknown transient effect").

(** The nested literal of [effects]. *)
Definition decode_impact (data : CborValue) : result CodecError DataImpact :=
  let? userdata := at_field impact data "userdata" in
  let? calibration := at_field impact data "calibration" in
  let? non_volatile_config := at_field impact data "nonVolatileConfig" in
  let? secure_storage := at_field impact data "secureStorage" in
  Ok (mkImpact userdata calibration non_volatile_config secure_storage).

Definition decode_effects (value : CborValue) : result CodecError EffectSet :=
  let? data := sealed_field value "dataImpact" in
  let? persistent := at_field (decode_list decode_persistent) value "persistent" in
  let? transient := at_field (decode_list decode_transient) value "transient" in
  let? data_impact := decode_impact data in
  Ok (mkEffectSet persistent transient data_impact).

(** ** The codec *)

Definition validate (plan : StoredPlan) : result CodecError unit :=
  let e := envelope plan in
  if negb (schema_version e =? SCHEMA_CURRENT) then Err (Message "unsupported sealed plan schema")
  else
    let? _ := map_err CheckedPlan (verify_self_digest e) in
    let? _ := map_err CheckedEffect (validate_executable (effect_set e)) in
    if expires_at_epoch_ms e <=? created_at_epoch_ms e
    then Err (Message "sealed plan expiry precedes creation")
    else
      let? projection := map_err CheckedProjection
        (validate_projection (public_steps e) (private_plan plan) (effect_set e)) in
      if negb (bool_decide (per_action projection = per_action_digests e))
         || negb (bool_decide (provider_execution_plan_digest projection =
                               e_provider_execution_plan_digest e))
         || negb (bool_decide (public_projection_digest projection = e_public_projection_digest e))
      then Err (Message "stored private plan does not match the sealed projection")
      else Ok tt.

Definition storage_fields (plan : StoredPlan) (body : bytes) : list (string * CborValue) :=
  [("storageVersion", Unsigned 1);
   ("planDigest", to_cbor (plan_digest (envelope plan)));
   ("envelope", Bytes body);
   ("privateActions", Array (map to_cbor (actions (private_plan plan))))]%string.

Definition encode (plan : StoredPlan) : result CodecError bytes :=
  let? _ := validate plan in
  let? body := map_err CheckedPlan (digest_body_bytes (envelope plan)) in
  let? stored := map_err CheckedCbor (to_canonical_bytes (map_of (storage_fields plan body))) in
  if MAX_BYTES <? zlen stored then Err (Message "sealed plan exceeds the storage size bound")
  else Ok stored.

(** The literal [PlanSealInput] of [decode]. *)
Definition decode_seal_input (body : CborValue) (schema_version : Z)
    (public_steps : list PublicFlashStep) (effect_set : EffectSet) (projection : ProjectionDigests) :
    result CodecError PlanSealInput :=
  let? plan_id := at_field opaque body "planId" in
  let? purpose := at_field (named purpose_parse "unknown execution purpose") body "executionPurpose" in
  let? authority_binding := at_field decode_binding body "authorityBinding" in
  let? provider := at_field decode_provider body "provider" in
  let? profile := at_field decode_profile body "profile" in
  let? artifact := at_field decode_artifact body "artifact" in
  let? toolchain := at_field decode_toolchain body "toolchain" in
  let? maturity := at_field decode_maturity body "maturity" in
  let? authority_support := at_field decode_support body "authoritySupport" in
  let? capabilities := at_field decode_capabilities body "negotiatedCapabilities" in
  let? recovery_contract := at_field (optional decode_contract) body "recoveryContract" in
  let? postflight := at_field decode_postflight body "postflight" in
  let? created := at_field uint body "createdAtEpochMs" in
  let? expires := at_field uint body "expiresAtEpochMs" in
  Ok (mkSealInput schema_version plan_id purpose authority_binding provider profile artifact toolchain
        maturity authority_support capabilities public_steps effect_set projection recovery_contract
        postflight created expires).

(** The envelope of a stored plan, up to the comparison with the stored bytes. *)
Definition decode_envelope (body : CborValue) (private_plan : StoredProviderPlan) :
    result CodecError FlashPlanEnvelope :=
  let? public_steps := at_field (decode_list decode_step) body "publicSteps" in
  let? effect_set := at_field decode_effects body "effectSet" in
  let? projection := map_err CheckedProjection
    (validate_projection public_steps private_plan effect_set) in
  let? provider_digest := at_field decode_digest body "providerExecutionPlanDigest" in
  let mismatch := Message "private actions do not match sealed projection digests" in
  if negb (bool_decide (provider_execution_plan_digest projection = provider_digest)) then Err mismatch
  else
    let? public_digest := at_field decode_digest body "publicProjectionDigest" in
    if negb (bool_decide (public_projection_digest projection = public_digest)) then Err mismatch
    else
      let? schema_version := at_field u32_value body "schemaVersion" in
      if negb (schema_version =? SCHEMA_CURRENT) then Err (Message "unsupported sealed plan schema")
      else
        let? input := decode_seal_input body schema_version public_steps effect_set projection in
        map_err CheckedPlan (seal input).

Definition decode (stored : bytes) : result CodecError StoredPlan :=
  if MAX_BYTES <? zlen stored then Err (Message "sealed plan exceeds the storage size bound")
  else
    let? storage := map_err CheckedCbor (decode_canonical stored) in
    let? storage_version := at_field uint storage "storageVersion" in
    if negb (storage_version =? 1) then Err (Message "unsupported private plan storage version")
    else
      let? body_bytes := at_field byte_string storage "envelope" in
      let? body := map_err CheckedCbor (decode_canonical body_bytes) in
      let? actions := at_field (decode_list decode_action) storage "privateActions" in
      let plan := mkPlan actions in
      let? envelope := decode_envelope body plan in
      let? digest := at_field decode_digest storage "planDigest" in
      let mismatch := Message "sealed envelope bytes or digest do not match" in
      if negb (bool_decide (plan_digest envelope = digest)) then Err mismatch
      else
        let? again := map_err CheckedPlan (digest_body_bytes envelope) in
        if negb (bool_decide (again = body_bytes)) then Err mismatch
        else
          let stored_plan := mkStored envelope plan in
          let? written := encode stored_plan in
          if negb (bool_decide (written = stored))
          then Err (Message "unsupported or inconsistent private plan storage fields")
          else Ok stored_plan.

(** ** Reading back what was written *)

(** [dec] reads [a] from any value equal to [v] up to the order of map entries. *)
Definition recovers {A} (dec : CborValue -> result CodecError A) (v : CborValue) (a : A) : Prop :=
  forall w, cbor_eq v w -> dec w = Ok a.

(** The same, up to a relation: for values that are maps themselves. *)
Definition recovers_to {A} (dec : CborValue -> result CodecError A) (v : CborValue) (P : A -> Prop) :
    Prop :=
  forall w, cbor_eq v w -> exists a, dec w = Ok a /\ P a.

Create HintDb codec.

Lemma sealed_field_found fs w name v :
  cbor_eq (map_of fs) w -> NoDup (map fst fs) -> (name, v) ∈ fs ->
  exists v', sealed_field w name = Ok v' /\ cbor_eq v v'.
Proof.
  intros (k & -> & Hk)%cbor_eq_map_of Hnd Hin.
  destruct (carries_field k fs name v Hk Hnd Hin) as (v' & Hf & Heq). exists v'. split; [|done].
  unfold sealed_field. cbn [as_map]. unfold field in Hf. by rewrite Hf.
Qed.

Lemma at_field_found {A} (dec : CborValue -> result CodecError A) fs w name v a :
  cbor_eq (map_of fs) w -> NoDup (map fst fs) -> (name, v) ∈ fs -> recovers dec v a ->
  at_field dec w name = Ok a.
Proof.
  intros Hw Hnd Hin Hr. destruct (sealed_field_found fs w name v Hw Hnd Hin) as (v' & Hf & Heq).
  unfold at_field. rewrite Hf. by apply Hr.
Qed.

Lemma at_field_found_to {A} (dec : CborValue -> result CodecError A) fs w name v P :
  cbor_eq (map_of fs) w -> NoDup (map fst fs) -> (name, v) ∈ fs -> recovers_to dec v P ->
  exists a, at_field dec w name = Ok a /\ P a.
Proof.
  intros Hw Hnd Hin Hr. destruct (sealed_field_found fs w name v Hw Hnd Hin) as (v' & Hf & Heq).
  unfold at_field. rewrite Hf. by apply Hr.
Qed.

(** The next field read, from the map [Hw] says [w] is. *)
Ltac literal_nodup := apply (bool_decide_unpack _); vm_compute; exact I.
Ltac literal_member := repeat first [left | right].
Ltac read_fields Hw :=
  repeat match goal with
  | |- context [at_field ?dec ?w ?name] =>
      rewrite (at_field_found dec _ w name _ _ Hw ltac:(literal_nodup) ltac:(literal_member)
                 ltac:(eauto with codec))
  | |- context [sealed_field ?w ?name] =>
      let v' := fresh "v" in let Hf := fresh "Hf" in let Heq := fresh "Heq" in
      destruct (sealed_field_found _ w name _ Hw ltac:(literal_nodup) ltac:(literal_member))
        as (v' & Hf & Heq); rewrite Hf; clear Hf
  end.

(** The comparisons of a literal name, settled; [read_kind] reads the name and picks its arm. *)
Ltac pick_arm :=
  repeat match goal with
  | |- context [String.eqb ?a ?b] =>
      let r := eval vm_compute in (String.eqb a b) in change (String.eqb a b) with r; cbv iota
  end.
Ltac read_kind Hw :=
  match goal with
  | |- context [at_field ?dec ?w ?name] =>
      rewrite (at_field_found dec _ w name _ _ Hw ltac:(literal_nodup) ltac:(literal_member)
                 ltac:(eauto with codec)); pick_arm
  end.

Lemma recovers_text s : recovers decode_text (Text s) s.
Proof. intros w Hw. by inversion Hw. Qed.

Lemma recovers_uint n : recovers uint (Unsigned n) n.
Proof. intros w Hw. by inversion Hw. Qed.

Lemma recovers_bool b : recovers boolean (Bool b) b.
Proof. intros w Hw. by inversion Hw. Qed.

Lemma recovers_bytes l : recovers byte_string (Bytes l) l.
Proof. intros w Hw. by inversion Hw. Qed.

Lemma recovers_u32 n : u32 n -> recovers u32_value (Unsigned n) n.
Proof. intros Hn w Hw. inversion Hw; subst. unfold u32_value. cbn. case_goal; [done|zlia]. Qed.

Lemma recovers_digest d : digest_ok d -> recovers decode_digest (to_cbor d) d.
Proof.
  intros [Hl _] w Hw. inversion Hw; subst. unfold decode_digest. cbn [byte_string].
  unfold zlen. rewrite Hl. by destruct d.
Qed.

Lemma recovers_opaque i : id_ok i -> recovers opaque (to_cbor i) i.
Proof. intros Hi w Hw. inversion Hw; subst. unfold opaque. cbn [decode_text]. unfold id_ok in Hi. by rewrite Hi. Qed.

Lemma recovers_named {A} (parse : string -> option A) m (print : A -> string) a :
  parse (print a) = Some a -> recovers (named parse m) (Text (print a)) a.
Proof. intros Hp w Hw. inversion Hw; subst. unfold named. cbn [decode_text]. by rewrite Hp. Qed.

#[export] Hint Extern 1 (recovers decode_text _ _) => refine (recovers_text _) : codec.
#[export] Hint Resolve recovers_uint recovers_bool recovers_bytes recovers_u32
  recovers_digest recovers_opaque : codec.

Lemma recovers_optional {A} `{CanonicalCbor A} (dec : CborValue -> result CodecError A) o :
  (forall a, o = Some a -> recovers dec (to_cbor a) a /\ ~ cbor_eq (to_cbor a) Null) ->
  recovers (optional dec) (option_cbor o) o.
Proof.
  intros Ho w Hw. destruct o as [a|]; cbn [option_cbor] in Hw; [|by inversion Hw].
  destruct (Ho a eq_refl) as [Hr Hn]. unfold optional. rewrite (Hr w Hw). by destruct w.
Qed.

Lemma recovers_list {A} `{CanonicalCbor A} (dec : CborValue -> result CodecError A) (l : list A) :
  Forall (fun a => recovers dec (to_cbor a) a) l ->
  recovers (decode_list dec) (Array (map to_cbor l)) l.
Proof.
  intros Hl w Hw. inversion Hw as [| | | |? k Hk| | |]; subst. unfold decode_list. cbn [as_array].
  clear Hw. revert k Hk. induction Hl as [|a l Ha _ IH]; intros k Hk; inversion Hk; subst; [done|].
  cbn [map collect_results]. rewrite Ha by done. by rewrite IH.
Qed.

Lemma recovers_mode m : DeviceMode_new (mode_str m) = Ok m -> recovers decode_mode (to_cbor m) m.
Proof. intros Hm w Hw. inversion Hw; subst. unfold decode_mode. cbn [decode_text]. by rewrite Hm. Qed.

Lemma recovers_stage s : AgentStage_new (stage_str s) = Ok s -> recovers decode_stage (to_cbor s) s.
Proof. intros Hm w Hw. inversion Hw; subst. unfold decode_stage. cbn [decode_text]. by rewrite Hm. Qed.

Lemma recovers_range r : range_ok r -> recovers decode_range (to_cbor r) r.
Proof.
  intros Hr w Hw. unfold decode_range. read_fields Hw.
  assert (ByteRange_new (start r) (length r) = Ok r) as ->; [|done].
  destruct Hr as (? & ? & ?). apply range_new_Ok; [done|ints; lia|].
  split; [by destruct r|done].
Qed.

Lemma recovers_version v : version_ok v -> recovers decode_version (to_cbor v) v.
Proof.
  intros (? & ? & ?) w Hw. inversion Hw as [| | | |? k Hk| | |]; subst.
  repeat (let H1 := fresh in let H2 := fresh in
          inversion Hk as [|? ? ? ? H1 H2]; subst; clear Hk; rename H2 into Hk; inversion H1; subst).
  inversion Hk; subst. unfold decode_version. cbn [as_array].
  rewrite (recovers_u32 (major v)), (recovers_u32 (minor v)), (recovers_u32 (patch v)) by done.
  by destruct v.
Qed.

Lemma recovers_boot_field f : recovers boot_field (Text (boot_field_as_str f)) f.
Proof. apply recovers_named. by destruct f. Qed.

Lemma recovers_effect e : recovers workflow_effect (Text (effect_as_str e)) e.
Proof. apply recovers_named, effect_parse_as_str. Qed.

Lemma recovers_step_kind m k : recovers (named step_kind_parse m) (Text (step_kind_as_str k)) k.
Proof. apply recovers_named, step_kind_parse_as_str. Qed.

Lemma recovers_cancellation m c :
  recovers (named cancellation_parse m) (Text (cancellation_as_str c)) c.
Proof. apply recovers_named, cancellation_parse_as_str. Qed.

Lemma recovers_binding_rule m b : recovers (named binding_parse m) (Text (binding_as_str b)) b.
Proof. apply recovers_named, binding_parse_as_str. Qed.

Lemma recovers_role m r : recovers (named role_parse m) (Text (role_as_str r)) r.
Proof. apply recovers_named. by destruct r. Qed.

Lemma recovers_purpose m p : recovers (named purpose_parse m) (Text (purpose_as_str p)) p.
Proof. apply recovers_named. by destruct p. Qed.

Lemma recovers_toolchain_kind m k :
  recovers (named toolchain_kind_parse m) (Text (toolchain_kind_as_str k)) k.
Proof. apply recovers_named. by destruct k. Qed.

Lemma recovers_impact_state s : recovers impact (Text (impact_as_str s)) s.
Proof. apply recovers_named. by destruct s. Qed.

#[export] Hint Resolve recovers_mode recovers_stage recovers_range recovers_version recovers_boot_field
  recovers_effect recovers_step_kind recovers_cancellation recovers_binding_rule recovers_role
  recovers_purpose recovers_toolchain_kind recovers_impact_state : codec.

(** A map of one field. *)
Lemma one_field_map n v w :
  cbor_eq (map_of [(n, v)]) w -> exists v', w = Map [(Text n, v')] /\ cbor_eq v v'.
Proof.
  intros (k & -> & gs & Hp & Hk)%cbor_eq_map_of.
  apply Permutation_singleton_r in Hp as ->.
  inversion Hk as [|? [k1 k2] ? ? [H1 H2] H3]; subst. inversion H3; subst. cbn in *. subst. by exists k2.
Qed.

Lemma recovers_target t : target_ok t -> recovers decode_target (to_cbor t) t.
Proof.
  intros Ht w Hw. destruct t; apply one_field_map in Hw as (v & -> & Hv); unfold decode_target; cbn.
  - by erewrite recovers_opaque by done.
  - by erewrite recovers_opaque by done.
  - by erewrite recovers_boot_field by done.
  - by inversion Hv.
Qed.

Lemma recovers_typed v : typed_ok v -> recovers typed_value (to_cbor v) v.
Proof.
  intros Ht w Hw. destruct v as [s|n|b]; apply one_field_map in Hw as (v & -> & Hv);
    unfold typed_value; cbn.
  - by inversion Hv.
  - unfold integer in Hv. destruct (Z.ltb_spec n 0); inversion Hv; subst; [done|].
    case_goal; [done|]. cbn in Ht. zlia.
  - by inversion Hv.
Qed.

#[export] Hint Resolve recovers_target recovers_typed : codec.

(** ** Well-formed plans: what the constructors of the Rust types guarantee *)

Definition mode_valid (m : DeviceMode) : Prop := DeviceMode_new (mode_str m) = Ok m.
Definition stage_valid (s : AgentStage) : Prop :=
  text_ok (stage_str s) /\ AgentStage_new (stage_str s) = Ok s.

Definition persistent_valid (e : PersistentEffect) : Prop :=
  persistent_ok e /\ option_ok range_ok (effect_range e).

Definition transient_valid (e : TransientEffect) : Prop :=
  match e with
  | EnterMode from to => mode_valid from /\ mode_valid to
  | LoadEphemeralAgent stage memory_region content =>
      stage_valid stage /\ region_typed memory_region /\ digest_ok content
  | UsbDetachReattach expectation_digest => digest_ok expectation_digest
  | Reboot target_mode => mode_valid target_mode
  end.

Definition effect_set_valid (s : EffectSet) : Prop :=
  effect_set_ok s /\ Forall persistent_valid (persistent s) /\ Forall transient_valid (transient s).

Definition step_valid (s : PublicFlashStep) : Prop :=
  step_ok s /\ option_ok mode_valid (expected_mode_before s) /\
  option_ok mode_valid (expected_mode_after s).

(** [body_levels] bounds the nesting of an opaque action body: the storage map, its
    array and the action take three of the decoder's levels. *)
Definition body_levels : nat := 61.

Definition action_valid (a : PrivateActionRecord) : Prop :=
  id_ok (action_id a) /\ id_ok (action_step_id a) /\ option_ok target_ok (declared_target a) /\
  option_ok range_ok (declared_range a) /\ option_ok digest_ok (action_content a) /\
  cbor_ok (action_body a) /\ (depth (action_body a) <= body_levels)%nat.

Definition support_ok (s : AuthoritySupportBinding) : Prop :=
  digest_ok (key_digest s) /\ option_text_ok (support_campaign (support_state s)) /\
  option_text_ok (support_blocker (support_state s)).

Definition contract_ok (c : RecoveryContractRef) : Prop :=
  id_ok (contract_id c) /\ version_ok (contract_version c) /\ digest_ok (contract_digest c).

Definition postflight_ok (p : PostflightPolicy) : Prop :=
  option_ok mode_valid (require_mode p) /\ facts_ok (required_runtime_facts p) /\
  NoDup (map fst (required_runtime_facts p)).

(** A sealed plan. *)
Definition seal_input_ok (i : PlanSealInput) : Prop :=
  u32 (s_schema_version i) /\ id_ok (s_plan_id i) /\ binding_ok (s_authority_binding i) /\
  provider_ok (s_provider i) /\ profile_ok (s_profile i) /\ artifact_ok (s_artifact i) /\
  toolchain_ok (s_toolchain i) /\ maturity_ok (s_maturity i) /\
  support_ok (s_authority_support i) /\ capabilities_ok (s_negotiated_capabilities i) /\
  (u64 (zlen (s_public_steps i)) /\ Forall step_valid (s_public_steps i)) /\
  effect_set_valid (s_effect_set i) /\
  digest_ok (provider_execution_plan_digest (s_projection i)) /\
  digest_ok (public_projection_digest (s_projection i)) /\
  option_ok contract_ok (s_recovery_contract i) /\ postflight_ok (s_postflight i) /\
  u64 (s_created_at_epoch_ms i) /\ u64 (s_expires_at_epoch_ms i).

Definition stored_plan_ok (p : StoredPlan) : Prop :=
  seal_input_ok (seal_input_of (envelope p)) /\ digest_ok (plan_digest (envelope p)) /\
  u64 (zlen (actions (private_plan p))) /\ Forall action_valid (actions (private_plan p)).

Lemma recovers_mode_valid m : mode_valid m -> recovers decode_mode (to_cbor m) m.
Proof. apply recovers_mode. Qed.

Lemma recovers_stage_valid s : stage_valid s -> recovers decode_stage (to_cbor s) s.
Proof. intros [_ ?]. by apply recovers_stage. Qed.

Lemma not_null_map fs : ~ cbor_eq (map_of fs) Null.
Proof. inversion 1. Qed.

(** An optional field, by its decoder's lemma. *)
Lemma recovers_option {A} `{CanonicalCbor A} (dec : CborValue -> result CodecError A) (ok : A -> Prop) o :
  (forall a, ok a -> recovers dec (to_cbor a) a) -> (forall a : A, ~ cbor_eq (to_cbor a) Null) ->
  option_ok ok o -> recovers (optional dec) (option_cbor o) o.
Proof. intros Hr Hn Ho. apply recovers_optional. intros a ->. auto. Qed.

Lemma recovers_option_target o :
  option_ok target_ok o -> recovers (optional decode_target) (option_cbor o) o.
Proof. apply recovers_option; [apply recovers_target|apply target_not_null]. Qed.

Lemma recovers_option_digest o :
  option_ok digest_ok o -> recovers (optional decode_digest) (option_cbor o) o.
Proof. apply recovers_option; [apply recovers_digest|apply digest_not_null]. Qed.

Lemma recovers_option_mode o :
  option_ok mode_valid o -> recovers (optional decode_mode) (option_cbor o) o.
Proof. apply recovers_option; [apply recovers_mode|apply mode_not_null]. Qed.

Lemma recovers_option_range o :
  option_ok range_ok o -> recovers (optional decode_range) (option_cbor o) o.
Proof. apply recovers_option; [apply recovers_range|]. intros ?. apply not_null_map. Qed.

Lemma recovers_option_text o : recovers (optional decode_text) (text_or_null o) o.
Proof. intros w Hw. destruct o; by inversion Hw. Qed.

#[export] Hint Resolve recovers_mode_valid recovers_stage_valid recovers_option_target
  recovers_option_digest recovers_option_mode recovers_option_range recovers_option_text : codec.

Lemma recovers_step s : step_valid s -> recovers decode_step (to_cbor s) s.
Proof.
  intros ((? & ? & ? & ? & _) & ? & ?) w Hw. unfold decode_step. read_fields Hw. by destruct s.
Qed.

Lemma recovers_binding b : binding_ok b -> recovers decode_binding (to_cbor b) b.
Proof.
  intros (? & ? & ? & ?) w Hw. unfold decode_binding. unfold to_cbor, binding_cbor, binding_fields in Hw.
  read_fields Hw. by destruct b as [[] ? ? ?].
Qed.

Lemma recovers_provider p : provider_ok p -> recovers decode_provider (to_cbor p) p.
Proof. intros (? & ? & ?) w Hw. unfold decode_provider. read_fields Hw. by destruct p. Qed.

Lemma recovers_profile p : profile_ok p -> recovers decode_profile (to_cbor p) p.
Proof. intros (? & ? & ?) w Hw. unfold decode_profile. read_fields Hw. by destruct p. Qed.

Lemma recovers_format f : format_ok f -> recovers decode_format (to_cbor f) f.
Proof. intros (? & ?) w Hw. unfold decode_format. read_fields Hw. by destruct f. Qed.

Lemma recovers_artifact a : artifact_ok a -> recovers decode_artifact (to_cbor a) a.
Proof.
  intros (? & ? & ? & ? & ?) w Hw. unfold decode_artifact. read_fields Hw.
  rewrite (recovers_format (artifact_format a)) by done. by destruct a.
Qed.

Lemma recovers_toolchain t : toolchain_ok t -> recovers decode_toolchain (to_cbor t) t.
Proof. intros (? & ? & ? & ?) w Hw. unfold decode_toolchain. read_fields Hw. by destruct t. Qed.

Lemma recovers_maturity m : recovers decode_maturity (to_cbor m) m.
Proof. intros w Hw. unfold decode_maturity. destruct m; read_kind Hw; read_fields Hw; done. Qed.

Lemma recovers_support_state s : recovers decode_support_state (to_cbor s) s.
Proof. intros w Hw. unfold decode_support_state. destruct s; read_kind Hw; read_fields Hw; done. Qed.

Lemma recovers_support s : support_ok s -> recovers decode_support (to_cbor s) s.
Proof.
  intros (? & ? & ?) w Hw. unfold decode_support. read_fields Hw.
  rewrite (recovers_support_state (support_state s)) by done. by destruct s.
Qed.

Lemma recovers_contract c : contract_ok c -> recovers decode_contract (to_cbor c) c.
Proof. intros (? & ? & ?) w Hw. unfold decode_contract. read_fields Hw. by destruct c. Qed.

Lemma recovers_option_contract o :
  option_ok contract_ok o -> recovers (optional decode_contract) (option_cbor o) o.
Proof. apply recovers_option; [apply recovers_contract|]. intros ?. apply not_null_map. Qed.

#[export] Hint Resolve recovers_step recovers_binding recovers_provider recovers_profile
  recovers_artifact recovers_toolchain recovers_maturity recovers_support recovers_option_contract
  : codec.

Lemma recovers_persistent e : persistent_valid e -> recovers decode_persistent (to_cbor e) e.
Proof.
  intros [Ho Hr] w Hw. unfold decode_persistent.
  destruct e; cbn in Ho, Hr; destruct_and?; read_kind Hw; read_fields Hw; done.
Qed.

Lemma recovers_region r : recovers decode_region (to_cbor r) r.
Proof. intros w Hw. unfold decode_region. read_fields Hw. by destruct r. Qed.

Lemma recovers_transient e : transient_valid e -> recovers decode_transient (to_cbor e) e.
Proof.
  intros Ho w Hw. unfold decode_transient.
  destruct e as [from to|stage region content|d|m]; cbn in Ho; destruct_and?; read_kind Hw;
    read_fields Hw; try done. by rewrite (recovers_region region).
Qed.

Lemma recovers_impact d : recovers decode_impact (to_cbor d) d.
Proof. intros w Hw. unfold decode_impact. read_fields Hw. by destruct d. Qed.

Lemma recovers_effects s : effect_set_valid s -> recovers decode_effects (to_cbor s) s.
Proof.
  intros (_ & Hp & Ht) w Hw. unfold decode_effects.
  assert (recovers (decode_list decode_persistent) (Array (map to_cbor (persistent s))) (persistent s)).
  { apply recovers_list. eapply Forall_impl; [exact Hp|]. apply recovers_persistent. }
  assert (recovers (decode_list decode_transient) (Array (map to_cbor (transient s))) (transient s)).
  { apply recovers_list. eapply Forall_impl; [exact Ht|]. apply recovers_transient. }
  read_fields Hw. rewrite (recovers_impact (data_impact s)) by done. by destruct s.
Qed.

Lemma recovers_steps l :
  Forall step_valid l -> recovers (decode_list decode_step) (Array (map to_cbor l)) l.
Proof. intros Hl. apply recovers_list. eapply Forall_impl; [exact Hl|]. apply recovers_step. Qed.

#[export] Hint Resolve recovers_effects recovers_steps : codec.

(** Map entries come back in the order of their keys. *)
Lemma recovers_entries {A} (dec : CborValue -> result CodecError A) (write : A -> CborValue)
    (l : list (OpaqueId * A)) :
  Forall (fun e => id_ok e.1) l -> (forall a, recovers dec (write a) a) ->
  recovers_to (decode_entries dec) (Map (map (fun '(k, a) => (to_cbor k, write a)) l))
    (fun l' => l' ≡ₚ l).
Proof.
  intros Hids Hdec w Hw. inversion Hw as [| | | | |? p k Hp Hpk| |]; subst.
  symmetry in Hp. apply Permutation_map_inv in Hp as (gs & -> & Hgs). exists gs.
  split; [|by symmetry]. rewrite Hgs in Hids. unfold decode_entries. cbn [as_map].
  clear Hw Hgs. revert k Hpk. induction Hids as [|[i a] gs Hi _ IH]; intros k Hk;
    inversion Hk as [|? [k1 k2] ? ? [H1 H2] Hk']; subst; [done|]. cbn [map collect_results fst snd] in *.
  rewrite (recovers_opaque i Hi k1 H1), (Hdec a k2 H2). by rewrite IH.
Qed.

Lemma recovers_capabilities c :
  capabilities_ok c ->
  recovers_to decode_capabilities (to_cbor c) (fun c' => entries c' ≡ₚ entries c).
Proof.
  intros (_ & Hid & _) w Hw.
  destruct (recovers_entries boolean Bool (entries c) Hid recovers_bool w Hw) as (l & Hl & Hp).
  unfold decode_capabilities. rewrite Hl. by exists (mkCapabilities l).
Qed.

(** Two policies that differ at most in the order of their facts. *)
Definition postflight_same (p q : PostflightPolicy) : Prop :=
  require_exact_target_lineage q = require_exact_target_lineage p /\
  require_mode q = require_mode p /\ required_runtime_facts q ≡ₚ required_runtime_facts p.

Lemma recovers_postflight p :
  postflight_ok p -> recovers_to decode_postflight (to_cbor p) (postflight_same p).
Proof.
  intros (Hm & (_ & Hf) & _) w Hw. unfold decode_postflight.
  do 2 read_kind Hw.
  assert (recovers_to (decode_entries decode_text) (Map (fact_entries (required_runtime_facts p)))
            (fun l => l ≡ₚ required_runtime_facts p)) as Hr.
  { apply recovers_entries; [|intros ?; apply recovers_text].
    eapply Forall_impl; [exact Hf|]. by intros ? (? & _). }
  destruct (at_field_found_to _ _ w "requiredRuntimeFacts" _ _ Hw ltac:(literal_nodup)
    ltac:(literal_member) Hr) as (l & -> & Hl).
  eexists. split; [reflexivity|]. by split.
Qed.

(** Two actions that differ at most in the order of map entries inside the body. *)
Definition action_same (a b : PrivateActionRecord) : Prop :=
  action_id b = action_id a /\ action_step_id b = action_step_id a /\ role b = role a /\
  effect_class b = effect_class a /\ declared_target b = declared_target a /\
  declared_range b = declared_range a /\ action_content b = action_content a /\
  cbor_eq (action_body a) (action_body b).

Lemma recovers_action a :
  action_valid a -> recovers_to decode_action (to_cbor a) (action_same a).
Proof.
  intros (? & ? & ? & ? & ? & _ & _) w Hw. unfold decode_action. read_fields Hw.
  eexists. split; [reflexivity|]. by split_and!.
Qed.

Lemma recovers_actions l :
  Forall action_valid l ->
  recovers_to (decode_list decode_action) (Array (map to_cbor l)) (Forall2 action_same l).
Proof.
  intros Hl w Hw. inversion Hw as [| | | |? k Hk| | |]; subst. unfold decode_list. cbn [as_array].
  clear Hw. revert k Hk. induction Hl as [|a l Ha _ IH]; intros k Hk; inversion Hk; subst;
    [by exists []|]. cbn [map collect_results].
  edestruct (recovers_action a) as (a' & -> & Hsame); [done..|]. edestruct IH as (rest & Hrest & ?); [done|].
  cbn [map] in Hrest. rewrite Hrest. exists (a' :: rest). split; [done|by constructor].
Qed.

(** ** Reordering the entries of a body changes nothing that is checked *)

Lemma action_same_cbor a b : action_same a b -> cbor_eq (to_cbor a) (to_cbor b).
Proof.
  intros (H1 & H2 & H3 & H4 & H5 & H6 & H7 & H8). unfold to_cbor, action_cbor, map_of.
  rewrite H1, H2, H3, H4, H5, H6, H7. eapply eq_Map; [reflexivity|]. cbn [map].
  repeat (constructor; [split; reflexivity|]). constructor; [|constructor]. by split.
Qed.

Lemma action_same_digest a b d :
  action_same a b -> action_digest a = Ok d -> action_digest b = Ok d.
Proof.
  intros H%action_same_cbor (x & Hx & ->)%digest_canonical_Ok. apply digest_canonical_Ok.
  exists x. split; [|done]. exact (enc_respects _ _ x H Hx).
Qed.

Definition entry_same (e f : string * PrivateActionRecord) : Prop :=
  f.1 = e.1 /\ action_same e.2 f.2.

Lemma bt_get_same m m' k :
  Forall2 entry_same m m' ->
  match bt_get k m, bt_get k m' with
  | Some a, Some b => action_same a b
  | None, None => True
  | _, _ => False
  end.
Proof.
  induction 1 as [|[k1 a] [k2 b] m m' [Hk Ha] _ IH]; [done|]. cbn in Hk |- *. subst.
  by destruct (str_compare k k1).
Qed.

Lemma bt_insert_same m m' k a b :
  Forall2 entry_same m m' -> action_same a b ->
  Forall2 entry_same (bt_insert k a m) (bt_insert k b m').
Proof.
  intros Hm Hab.
  assert (entry_same (k, a) (k, b)) as Hnew by by split.
  induction Hm as [|[k1 x] [k2 y] m m' [Hk Ha] Hm IH]; [by apply Forall2_cons; split|].
  cbn in Hk, Ha |- *. subst. assert (entry_same (k1, x) (k1, y)) by by split.
  destruct (str_compare k k1); repeat (apply Forall2_cons; split); done.
Qed.

Lemma check_actions_same steps seen l l' :
  Forall2 action_same l l' -> check_actions steps seen l' = check_actions steps seen l.
Proof.
  intros H. revert seen. induction H as [|a b l l' (H1 & H2 & _) _ IH]; intros seen; [done|].
  cbn [check_actions]. rewrite H1, H2. by rewrite IH.
Qed.

Lemma collect_primaries_same l l' m m' p :
  Forall2 action_same l l' -> Forall2 entry_same m m' -> collect_primaries m l = Ok p ->
  exists p', collect_primaries m' l' = Ok p' /\ Forall2 entry_same p p'.
Proof.
  intros H. revert m m'. induction H as [|a b l l' Hab _ IH]; intros m m' Hm; cbn [collect_primaries].
  { intros [= <-]. by exists m'. }
  pose proof Hab as (H1 & H2 & H3 & H4 & _). rewrite H2, H3, H4.
  destruct (role a); [|case_goal; [done|by apply IH]].
  pose proof (bt_get_same m m' (as_str (action_step_id a)) Hm) as Hget.
  destruct (bt_get _ m), (bt_get _ m'); try done. apply IH. by apply bt_insert_same.
Qed.

Lemma filter_same l l' s :
  Forall2 action_same l l' ->
  Forall2 action_same (List.filter (is_sub_action_of s) l) (List.filter (is_sub_action_of s) l').
Proof.
  induction 1 as [|a b l l' Hab _ IH]; [constructor|]. cbn [List.filter].
  assert (is_sub_action_of s b = is_sub_action_of s a) as ->.
  { destruct Hab as (_ & H2 & H3 & _). unfold is_sub_action_of. by rewrite H2, H3. }
  destruct (is_sub_action_of s a); [by constructor|done].
Qed.

Lemma sub_bindings_same l l' s bs :
  Forall2 action_same l l' -> collect_results (map (sub_binding s) l) = Ok bs ->
  collect_results (map (sub_binding s) l') = Ok bs.
Proof.
  rewrite !collect_results_Ok. intros H Hbs. revert l' H.
  induction Hbs as [|b a bs l Hb _ IH]; intros l' H; inversion H as [|? a' ? ? Hab]; subst;
    [constructor|]. constructor; [|auto]. unfold sub_binding in *.
  destruct (action_digest a) as [d|] eqn:E; [|done]. rewrite (action_same_digest a a' d Hab E).
  by destruct Hab as (-> & _ & -> & _).
Qed.

Section Same.
Context (m m' : btree PrivateActionRecord) (l l' : list PrivateActionRecord).
Hypothesis Hm : Forall2 entry_same m m'.
Hypothesis Hl : Forall2 action_same l l'.

Lemma bind_step_same s bs : bind_step m l s = Ok bs -> bind_step m' l' s = Ok bs.
Proof using Hm Hl.
  unfold bind_step. pose proof (bt_get_same m m' (as_str (step_id s)) Hm) as Hget.
  destruct (bt_get _ m) as [a|], (bt_get _ m') as [b|]; try done. cbn [ok_or].
  destruct (action_digest a) as [d|] eqn:E; [|done]. rewrite (action_same_digest a b d Hget E).
  cbn [map_err]. destruct Hget as (H1 & H2 & H3 & H4 & H5 & H6 & H7 & H8).
  assert (check_target s b = check_target s a) as -> by (unfold check_target; by rewrite H5, H1).
  assert (check_content s b = check_content s a) as -> by (unfold check_content; by rewrite H7, H1).
  rewrite H1, H4. destruct (negb _); [done|]. destruct (effect_ltb _ _); [done|].
  destruct (check_target s a); [|done]. destruct (check_content s a); [|done].
  destruct (collect_results _) as [subs|] eqn:Es; [|done].
  by rewrite (sub_bindings_same _ _ s subs (filter_same l l' s Hl) Es).
Qed.

Lemma bind_steps_same steps bs : bind_steps m l steps = Ok bs -> bind_steps m' l' steps = Ok bs.
Proof using Hm Hl.
  revert bs. induction steps as [|s steps IH]; intros bs; [done|]. cbn [bind_steps].
  destruct (bind_step m l s) as [b|] eqn:E; [|done]. rewrite (bind_step_same s b E).
  destruct (bind_steps m l steps) as [r|]; [|done]. by rewrite (IH r eq_refl).
Qed.

Lemma claim_step_same effects s claimed :
  claim_step m' effects s claimed = claim_step m effects s claimed.
Proof using Hm.
  unfold claim_step. destruct claimed as [pc tc].
  destruct (kind s); try done; destruct (semantic_target s) as [t|]; try done; cbn [ok_or];
    pose proof (bt_get_same m m' (as_str (step_id s)) Hm) as Hget;
    destruct (bt_get _ m) as [a|], (bt_get _ m') as [b|]; try done; cbn [ok_or];
    destruct Hget as (_ & _ & _ & _ & _ & Hr & _); unfold persistent_effect_matches; by rewrite Hr.
Qed.

Lemma coverage_same steps effects :
  validate_effect_coverage steps m' effects = validate_effect_coverage steps m effects.
Proof using Hm.
  unfold validate_effect_coverage. f_equal.
  generalize (replicate (List.length (persistent effects)) false,
              replicate (List.length (transient effects)) false).
  induction steps as [|s steps IH]; intros claimed; [done|]. cbn [claim_steps].
  rewrite claim_step_same. by destruct (claim_step m effects s claimed).
Qed.
End Same.

Lemma validate_projection_same steps p p' effects d :
  Forall2 action_same (actions p) (actions p') ->
  validate_projection steps p effects = Ok d -> validate_projection steps p' effects = Ok d.
Proof.
  intros Hl. unfold validate_projection. destruct (Nat.eqb _ _); [done|].
  destruct (check_steps [] steps) as [seen|]; [|done]. rewrite (check_actions_same _ _ _ _ Hl).
  destruct (check_actions _ _ _); [|done].
  destruct (collect_primaries [] (actions p)) as [m|] eqn:Ec; [|done].
  destruct (collect_primaries_same _ _ [] [] m Hl ltac:(constructor) Ec) as (m' & -> & Hm).
  destruct (bind_steps m _ steps) as [bs|] eqn:Eb; [|done].
  rewrite (bind_steps_same m m' _ _ Hm Hl steps bs Eb). by rewrite (coverage_same m m' Hm).
Qed.

(** ** The sealed body *)

(** [i] with its two maps in another order, and with another per-action list, which
    the sealed body does not hold. *)
Definition seal_same (i j : PlanSealInput) : Prop :=
  exists c p projection,
    provider_execution_plan_digest projection = provider_execution_plan_digest (s_projection i) /\
    public_projection_digest projection = public_projection_digest (s_projection i) /\
    entries c ≡ₚ entries (s_negotiated_capabilities i) /\ postflight_same (s_postflight i) p /\
    j = mkSealInput (s_schema_version i) (s_plan_id i) (s_execution_purpose i)
          (s_authority_binding i) (s_provider i) (s_profile i) (s_artifact i) (s_toolchain i)
          (s_maturity i) (s_authority_support i) c (s_public_steps i) (s_effect_set i)
          projection (s_recovery_contract i) p (s_created_at_epoch_ms i)
          (s_expires_at_epoch_ms i).

Lemma recovers_seal_input i w version steps effects projection :
  seal_input_ok i -> cbor_eq (plan_digest_body i) w ->
  version = s_schema_version i -> steps = s_public_steps i -> effects = s_effect_set i ->
  provider_execution_plan_digest projection = provider_execution_plan_digest (s_projection i) ->
  public_projection_digest projection = public_projection_digest (s_projection i) ->
  exists j,
    decode_seal_input w version steps effects projection = Ok j /\
    seal_same i j /\ s_projection j = projection.
Proof.
  intros Hi Hw -> -> -> Hp Hq. red in Hi. destruct_and! Hi. unfold decode_seal_input, plan_digest_body in *.
  read_fields Hw.
  destruct (at_field_found_to decode_capabilities _ w "negotiatedCapabilities" _ _ Hw
    ltac:(literal_nodup) ltac:(literal_member) ltac:(by apply recovers_capabilities)) as (c & -> & Hc).
  destruct (at_field_found_to decode_postflight _ w "postflight" _ _ Hw
    ltac:(literal_nodup) ltac:(literal_member) ltac:(by apply recovers_postflight)) as (p & -> & Hf).
  eexists. split; [reflexivity|]. split; [|done]. by exists c, p, projection.
Qed.

Lemma Forall2_refl {A} (R : A -> A -> Prop) (l : list A) : (forall a, R a a) -> Forall2 R l l.
Proof. intros HR. induction l; by constructor. Qed.

Lemma permuted_map_eq l k : l ≡ₚ k -> cbor_eq (Map l) (Map k).
Proof. intros Hp. apply (eq_Map l k); [done|]. apply Forall2_refl. by split. Qed.

Lemma fields_eq fs gs :
  Forall2 (fun f g => f.1 = g.1 /\ cbor_eq f.2 g.2) fs gs -> cbor_eq (map_of fs) (map_of gs).
Proof.
  intros H. rewrite !map_of_entries. apply (eq_Map _ (text_entries fs)); [done|].
  induction H as [|[n v] [m w] fs gs [Hn Hv] _ IH]; constructor; [|done]. cbn in *. subst. by split.
Qed.

(** Fields that are equal, but for those left to prove. *)
Ltac same_fields :=
  apply fields_eq; repeat (apply Forall2_cons; split; [split; [reflexivity|try reflexivity]|]);
  try apply Forall2_nil_2.

Lemma seal_same_cbor i j : seal_same i j -> cbor_eq (plan_digest_body i) (plan_digest_body j).
Proof.
  intros (c & p & d & Hp & Hq & Hc & (H1 & H2 & H3) & ->).
  unfold plan_digest_body, plan_digest_fields. cbn. rewrite Hp, Hq. same_fields; cbn [snd].
  - apply permuted_map_eq. by rewrite Hc.
  - unfold to_cbor, postflight_cbor. rewrite H1, H2. same_fields. cbn [snd].
    apply permuted_map_eq. unfold fact_entries. by rewrite H3.
Qed.

Lemma mode_char_ascii b : mode_char b = true -> b < 128.
Proof. unfold mode_char, in_range. intros H. repeat (apply orb_true_iff in H as [H|H]); breflect; lia. Qed.

Lemma mode_valid_text m : mode_valid m -> text_ok (mode_str m).
Proof.
  unfold mode_valid, DeviceMode_new. intros H. case_hyp H. breflect.
  split; [|pose proof (zlen_nonneg (bytes_of_string (mode_str m))); unfold str_len in *; zlia].
  apply utf8_ascii, Forall_forall. intros b Hb%list_elem_of_In.
  match goal with Hf : forallb _ _ = true |- _ => rewrite forallb_forall in Hf; by apply mode_char_ascii, Hf end.
Qed.

Lemma range_ok_typed r : range_ok r -> range_typed r.
Proof. intros (? & ? & ?). split; [done|]. ints. lia. Qed.

#[export] Hint Resolve mode_valid_text range_ok_typed : ark.

Lemma writable_support s : support_ok s -> writable (to_cbor s).
Proof.
  intros (? & ? & ?). writable_map; cbn [snd].
  destruct (support_state s); cbn in *; writable_map.
Qed.

Lemma writable_contract c : contract_ok c -> writable (to_cbor c).
Proof. intros (? & ? & ?). writable_map. Qed.

Lemma writable_postflight p : postflight_ok p -> writable (to_cbor p).
Proof.
  intros (Hm & Hf & Hnd). writable_map; cbn [snd].
  - by apply (writable_option mode_valid); [intros ? ?; auto with ark|].
  - split; [by apply fact_entries_ok|]. apply fact_entries_encode; [|done]. destruct Hf as [_ Hf].
    eapply Forall_impl; [exact Hf|]. by intros ? (? & _).
Qed.

Lemma writable_binding_ref b : binding_ok b -> writable (to_cbor b).
Proof. intros (? & ? & ? & ?). unfold to_cbor, binding_cbor, binding_fields. writable_map. Qed.

Lemma writable_purpose p : writable (Text (purpose_as_str p)).
Proof. destruct p; writable_literal. Qed.

#[export] Hint Resolve writable_support writable_contract writable_postflight writable_binding_ref
  writable_purpose : ark.

Lemma writable_seal_input i : seal_input_ok i -> writable (plan_digest_body i).
Proof.
  intros Hi. red in Hi. destruct_and! Hi. unfold plan_digest_body, plan_digest_fields.
  writable_map; cbn [snd]; try (by auto with ark).
  - eapply (writable_list step_ok); [apply writable_step|done|].
    eapply Forall_impl; [eassumption|]. by intros ? (? & _).
  - apply writable_effect_set. by match goal with H : effect_set_valid _ |- _ => destruct H end.
  - by apply (writable_option contract_ok); [apply writable_contract|].
Qed.

Lemma postflight_same_trans p q r : postflight_same p q -> postflight_same p r -> postflight_same q r.
Proof.
  intros (H1 & H2 & H3) (G1 & G2 & G3). split_and!; [congruence..|]. by rewrite G3, H3.
Qed.

Lemma postflight_same_sym p q : postflight_same p q -> postflight_same q p.
Proof. intros (? & ? & ?). by split_and!. Qed.

(** Two inputs the same third one reorders reorder each other. *)
Lemma seal_same_common i j k : seal_same i k -> seal_same j k -> seal_same i j.
Proof.
  intros (c & p & d & Hp & Hq & Hc & Hf & ->) (c' & p' & d' & Hp' & Hq' & Hc' & Hf' & Hk).
  destruct i, j. cbn in *. injection Hk. clear Hk. intros. subst.
  eexists _, _, _. split; [|split; [|split; [|split; [|reflexivity]]]]; cbn.
  - by rewrite <- Hp', <- Hp.
  - by rewrite <- Hq', <- Hq.
  - by rewrite <- Hc, <- Hc'.
  - eapply postflight_same_trans; apply postflight_same_sym; done.
Qed.

(** The sealed body determines the plan it was made from. *)
Lemma seal_input_inj i j :
  seal_input_ok i -> seal_input_ok j -> cbor_eq (plan_digest_body i) (plan_digest_body j) ->
  seal_same i j.
Proof.
  intros Hi Hj H. pose proof H as Hw. unfold plan_digest_body, plan_digest_fields in H.
  same_field H "schemaVersion" H1. same_field H "publicSteps" H2. same_field H "effectSet" H3.
  same_field H "providerExecutionPlanDigest" H4. same_field H "publicProjectionDigest" H5.
  apply cbor_eq_unsigned in H1. apply (array_inj _ _ step_inj) in H2. apply effect_set_inj in H3.
  apply cbor_eq_digest in H4, H5.
  destruct (recovers_seal_input i _ (s_schema_version j) (s_public_steps j) (s_effect_set j)
    (s_projection j) Hi Hw) as (k & Hk & Hs & _); [done..|].
  destruct (recovers_seal_input j _ (s_schema_version j) (s_public_steps j) (s_effect_set j)
    (s_projection j) Hj (cbor_eq_refl _)) as (k' & Hk' & Hs' & _); [done..|].
  pose proof (eq_trans (eq_sym Hk) Hk') as [= <-]. exact (seal_same_common i j k Hs Hs').
Qed.

#[global] Instance seal_input_cbor : CanonicalCbor PlanSealInput := plan_digest_body.

#[global] Instance seal_input_model : CborModel PlanSealInput seal_input_ok seal_same.
Proof.
  split; [intros i Hi; by apply writable_seal_input|]. intros i j Hi Hj. by apply seal_input_inj.
Qed.

(** The plan digest binds the plan: two sealed plans with one digest have the same
    identity, purpose, binding, provider, profile, artifact, toolchain, maturity,
    steps, effects, projection digests, recovery contract, postflight policy and
    times, unless their bodies are a SHA-256 collision. *)
Theorem plan_digest_binds i j e f :
  seal_input_ok i -> seal_input_ok j -> seal i = Ok e -> seal j = Ok f ->
  exists bi bj,
    plan_digest e = sha256_spec (as_bytes DPlan ++ bi) /\
    plan_digest f = sha256_spec (as_bytes DPlan ++ bj) /\
    (u64 (zlen bi) -> no_collision (as_bytes DPlan ++ bi) (as_bytes DPlan ++ bj) ->
     plan_digest e = plan_digest f -> seal_same i j).
Proof.
  intros Hi Hj (_ & _ & bi & Ei & ->)%seal_Ok (_ & _ & bj & Ej & ->)%seal_Ok. exists bi, bj.
  cbn [envelope_of plan_digest]. rewrite !digest_in_domain_is_spec. split_and!; [done..|].
  intros Hu Hnc Heq%Hnc. apply app_inv_head in Heq as <-.
  apply seal_input_inj; [done..|].
  eapply enc_same_read; [by apply writable_seal_input|by apply writable_seal_input|done..].
Qed.

(** ** Storage *)

Lemma projection_eta (d : ProjectionDigests) e :
  d = s_projection (seal_input_of e) <->
  per_action d = per_action_digests e /\
  provider_execution_plan_digest d = e_provider_execution_plan_digest e /\
  public_projection_digest d = e_public_projection_digest e.
Proof.
  destruct d. cbn. split; [by intros [= -> -> ->]|by intros (-> & -> & ->)].
Qed.

Lemma validate_Ok p :
  validate p = Ok tt <->
  schema_version (envelope p) = SCHEMA_CURRENT /\
  verify_self_digest (envelope p) = Ok tt /\
  validate_executable (effect_set (envelope p)) = Ok tt /\
  created_at_epoch_ms (envelope p) < expires_at_epoch_ms (envelope p) /\
  validate_projection (public_steps (envelope p)) (private_plan p) (effect_set (envelope p)) =
    Ok (s_projection (seal_input_of (envelope p))).
Proof.
  unfold validate. destruct (Z.eqb_spec (schema_version (envelope p)) SCHEMA_CURRENT) as [Hs|Hs];
    cbn [negb]; [|by split; [|intros (? & _)]].
  destruct (verify_self_digest _) as [[]|]; cbn [map_err]; [|by split; [|intros (_ & ? & _)]].
  destruct (validate_executable _) as [[]|]; cbn [map_err]; [|by split; [|intros (_ & _ & ? & _)]].
  destruct (Z.leb_spec (expires_at_epoch_ms (envelope p)) (created_at_epoch_ms (envelope p)));
    [split; [done|intros (_ & _ & _ & ? & _); lia]|].
  destruct (validate_projection _ _ _) as [d|]; cbn [map_err]; [|by split; [|intros (_ & _ & _ & _ & ?)]].
  pose proof (projection_eta d (envelope p)) as He.
  repeat case_bool_decide; cbn [negb orb]; split; try done.
  { intros _. split_and!; try done. by rewrite (proj2 He). }
  all: intros (_ & _ & _ & _ & [= H']); by apply He in H' as (? & ? & ?).
Qed.

Lemma encode_Ok p b :
  encode p = Ok b <->
  validate p = Ok tt /\
  exists body, enc (plan_digest_body (seal_input_of (envelope p))) body /\
    enc (map_of (storage_fields p body)) b /\ zlen b <= MAX_BYTES.
Proof.
  unfold encode, digest_body_bytes, enc. destruct (validate p) as [[]|]; [|by split; [|intros [? _]]].
  destruct (to_canonical_bytes (plan_digest_body _)) as [body|]; cbn [map_err];
    [|by split; [|intros (_ & ? & ? & _)]].
  destruct (to_canonical_bytes (map_of _)) as [x|] eqn:E; cbn [map_err].
  - destruct (Z.ltb_spec MAX_BYTES (zlen x)).
    + split; [done|]. intros (_ & ? & [= <-] & Hx & ?). rewrite E in Hx. injection Hx as ->. lia.
    + split; [intros [= <-]; split; [done|by exists body]|]. intros (_ & ? & [= <-] & Hx & ?). congruence.
  - split; [done|]. intros (_ & ? & [= <-] & Hx & _). congruence.
Qed.

(** An encoded field is no longer than the map that holds it. *)
Lemma enc_map_field_length l k v b x : (k, v) ∈ l -> enc (Map l) b -> enc v x -> zlen x <= zlen b.
Proof.
  intros Hin (kvs & Hk & _ & ->)%enc_Map Hx.
  apply list_elem_of_lookup in Hin as [n Hn]. destruct (Forall2_lookup_l _ _ _ _ _ Hk Hn)
    as ([kb vb] & Hkv & _ & Hv). cbn in Hv. unfold enc in *. rewrite Hx in Hv. injection Hv as <-.
  assert ((kb, x) ∈ sort_by entry_leb kvs) as Hin.
  { rewrite sort_by_perm. by eapply list_elem_of_lookup_2. }
  apply list_elem_of_split in Hin as (l1 & l2 & ->).
  rewrite map_app, concat_app. cbn [map concat fst snd]. rewrite !zlen_app.
  pose proof (zlen_nonneg (head_bytes 5 (zlen l))). pose proof (zlen_nonneg kb).
  pose proof (zlen_nonneg (concat (map (fun kv : bytes * bytes => kv.1 ++ kv.2) l1))).
  pose proof (zlen_nonneg (concat (map (fun kv : bytes * bytes => kv.1 ++ kv.2) l2))). lia.
Qed.

Lemma storage_body_length p body b :
  enc (map_of (storage_fields p body)) b -> zlen b <= MAX_BYTES -> u64 (zlen body).
Proof.
  intros Hb Hl. assert (zlen (head_bytes 2 (zlen body) ++ body) <= zlen b) as H.
  { apply (enc_map_field_length (text_entries (storage_fields p body)) (Text "envelope") (Bytes body));
      [repeat first [left | right]|exact Hb|reflexivity]. }
  rewrite zlen_app in H. pose proof (zlen_nonneg (head_bytes 2 (zlen body))).
  pose proof (zlen_nonneg body). unfold MAX_BYTES in Hl. zlia.
Qed.

(** Nesting depth, for the decoder's limit. *)
Lemma depth_map_of fs n : Forall (fun f => depth f.2 <= n)%nat fs -> (depth (map_of fs) <= S n)%nat.
Proof.
  intros H. rewrite map_of_entries. enough (depth (Map (text_entries fs)) < S (S n))%nat by lia.
  apply depth_Map_lt, Forall_map. eapply Forall_impl; [exact H|]. intros [k v]. cbn. lia.
Qed.

Lemma depth_list {A} `{CanonicalCbor A} (l : list A) n :
  Forall (fun a => depth (to_cbor a) <= n)%nat l -> (depth (Array (map to_cbor l)) <= S n)%nat.
Proof.
  intros Hl. enough (depth (Array (map to_cbor l)) < S (S n))%nat by lia.
  apply depth_Array_lt, Forall_map. eapply Forall_impl; [exact Hl|]. cbn. lia.
Qed.

Lemma depth_action (a : PrivateActionRecord) :
  (depth (action_body a) <= body_levels)%nat -> (depth (to_cbor a) <= S body_levels)%nat.
Proof.
  intros H. apply depth_map_of. destruct a as [? ? ? ? t r c ?]. cbn in H.
  repeat (apply Forall_cons; split; [cbn [snd]|]); try apply Forall_nil_2; try done.
  - unfold body_levels. cbn. lia.
  - unfold body_levels. cbn. lia.
  - unfold body_levels. cbn. lia.
  - unfold body_levels. cbn. lia.
  - destruct t as [[]|]; unfold body_levels; cbn; lia.
  - destruct r; unfold body_levels; cbn; lia.
  - destruct c; unfold body_levels; cbn; lia.
Qed.

Ltac each_field := repeat (apply Forall_cons; split; [cbn [snd]|]); try apply Forall_nil_2.

Lemma depth_option {A} `{CanonicalCbor A} (o : option A) n :
  (forall a : A, depth (to_cbor a) <= n)%nat -> (depth (option_cbor o) <= n)%nat.
Proof. intros Ha. destruct o; cbn [option_cbor]; [done|]. cbn. lia. Qed.

Lemma depth_step (s : PublicFlashStep) : (depth (to_cbor s) <= 2)%nat.
Proof.
  apply depth_map_of. each_field; try (cbn; lia); apply depth_option; intros a; try (cbn; lia).
  destruct a; cbn; lia.
Qed.

Lemma depth_effects (s : EffectSet) : (depth (to_cbor s) <= 4)%nat.
Proof.
  apply depth_map_of. each_field.
  - apply depth_list, Forall_true. intros []; try (cbn; lia). destruct expected_value; cbn; unfold integer;
      try case_goal; cbn; lia.
  - apply depth_list, Forall_true. intros []; cbn; lia.
  - destruct (data_impact s). cbn. lia.
Qed.

Lemma depth_seal_input i : (depth (plan_digest_body i) <= MAX_DEPTH)%nat.
Proof.
  enough (depth (plan_digest_body i) <= 5)%nat by (unfold MAX_DEPTH; lia).
  apply depth_map_of. each_field; try (cbn; lia).
  - destruct (s_toolchain i) as [? ? ? ? []]; cbn; lia.
  - destruct (s_maturity i); cbn; lia.
  - destruct (s_authority_support i) as [? []]; cbn; lia.
  - rewrite capabilities_entries. enough (depth (map_of (map (fun e => (as_str e.1, Bool e.2))
      (entries (s_negotiated_capabilities i)))) <= 1)%nat by (rewrite <- map_of_entries; lia).
    apply depth_map_of, Forall_map, Forall_true. intros []. cbn. lia.
  - enough (depth (Array (map to_cbor (s_public_steps i))) <= 3)%nat by lia.
    apply (depth_list (A := PublicFlashStep)), Forall_true, depth_step.
  - pose proof (depth_effects (s_effect_set i)). lia.
  - apply depth_option. intros a. cbn. lia.
  - enough (depth (to_cbor (s_postflight i)) <= 2)%nat by lia. apply depth_map_of. each_field.
    + cbn. lia.
    + apply depth_option. intros a. cbn. lia.
    + apply fact_entries_depth.
Qed.

Lemma storage_depth p body : stored_plan_ok p -> (depth (map_of (storage_fields p body)) <= MAX_DEPTH)%nat.
Proof.
  intros (_ & _ & _ & Ha). change MAX_DEPTH with (S (S (S body_levels))). apply depth_map_of. each_field.
  - cbn. lia.
  - cbn. lia.
  - cbn. lia.
  - apply depth_list. eapply Forall_impl; [exact Ha|]. intros a (_ & _ & _ & _ & _ & _ & H).
    by apply depth_action.
Qed.

Lemma option_cbor_ok {A} `{CanonicalCbor A} (ok : A -> Prop) (o : option A) :
  (forall a, ok a -> writable (to_cbor a)) -> option_ok ok o -> cbor_ok (option_cbor o).
Proof. intros Hw Ho. by apply (writable_option ok o Hw Ho). Qed.

Lemma action_cbor_ok (a : PrivateActionRecord) : action_valid a -> cbor_ok (to_cbor a).
Proof.
  intros (? & ? & Ht & Hr & Hd & Hb & _). apply map_of_ok; [vm_compute; split; congruence|].
  repeat (apply Forall_cons_2; [apply literal_ok; [reflexivity..|]|]); try apply Forall_nil_2.
  - by apply id_cbor_ok.
  - by apply id_cbor_ok.
  - by destruct (role a); writable_literal.
  - apply writable_effect.
  - exact (option_cbor_ok target_ok _ writable_target Ht).
  - refine (option_cbor_ok range_ok _ _ Hr). intros r ?. by apply writable_range, range_ok_typed.
  - exact (option_cbor_ok digest_ok _ writable_digest Hd).
  - done.
Qed.

Lemma storage_cbor_ok p body :
  stored_plan_ok p -> bytes_ok body -> u64 (zlen body) -> cbor_ok (map_of (storage_fields p body)).
Proof.
  intros (_ & Hd & Hl & Ha) Hb Hu. apply map_of_ok; [vm_compute; split; congruence|].
  repeat (apply Forall_cons_2; [apply literal_ok; [reflexivity..|]|]); try apply Forall_nil_2.
  - constructor. vm_compute. split; congruence.
  - by apply digest_cbor_ok.
  - by constructor.
  - constructor; [unfold zlen in *; by rewrite length_map|]. apply Forall_map.
    eapply Forall_impl; [exact Ha|]. intros a. apply action_cbor_ok.
Qed.

(** Two stored plans that differ at most in the order of capabilities, facts and
    the map entries of action bodies. *)
Definition plan_same (p q : StoredPlan) : Prop :=
  seal_same (seal_input_of (envelope p)) (seal_input_of (envelope q)) /\
  plan_digest (envelope q) = plan_digest (envelope p) /\
  per_action_digests (envelope q) = per_action_digests (envelope p) /\
  Forall2 action_same (actions (private_plan p)) (actions (private_plan q)).

(** The envelope read back from the body of a valid plan. *)
Lemma recovers_envelope p body w acts :
  stored_plan_ok p -> validate p = Ok tt ->
  enc (plan_digest_body (seal_input_of (envelope p))) body ->
  cbor_eq (plan_digest_body (seal_input_of (envelope p))) w ->
  Forall2 action_same (actions (private_plan p)) acts ->
  exists j, decode_envelope w (mkPlan acts) = Ok (envelope_of j (plan_digest (envelope p))) /\
    seal_same (seal_input_of (envelope p)) j /\ s_projection j = s_projection (seal_input_of (envelope p)).
Proof.
  intros (Hi & Hd & _) (Hs & Hv & He & Ht & Hp)%validate_Ok Hb Hw Ha.
  set (i := seal_input_of (envelope p)) in *.
  destruct (recovers_seal_input i w (s_schema_version i) (s_public_steps i) (s_effect_set i)
    (s_projection i) Hi Hw) as (j & Hj & Hsame & Hproj); [done..|].
  exists j. split; [|done].
  apply verify_self_digest_Ok in Hv as (body' & Hb' & Hdig). fold i in Hb'.
  assert (body' = body) as -> by (unfold enc in *; congruence).
  pose proof Hi as Hi'. red in Hi'. destruct_and! Hi'.
  unfold decode_envelope, plan_digest_body in *. read_fields Hw.
  apply (validate_projection_same _ (private_plan p) (mkPlan acts) _ _ Ha) in Hp.
  change (validate_projection (s_public_steps i) (mkPlan acts) (s_effect_set i) = Ok (s_projection i)) in Hp.
  change (s_schema_version i = SCHEMA_CURRENT) in Hs. rewrite Hp. cbn [map_err].
  rewrite !bool_decide_eq_true_2 by done. cbn [negb]. rewrite Hs, Z.eqb_refl. cbn [negb].
  rewrite <- Hs, Hj, Hdig.
  enough (seal j = Ok (envelope_of j (digest_in_domain DPlan body))) as -> by done.
  apply seal_Ok. pose proof (enc_respects _ _ body (seal_same_cbor i j Hsame) Hb) as Hbj.
  destruct Hsame as (c & f & d & _ & _ & _ & _ & ->). split_and!; [done..|]. by exists body.
Qed.

(** The decoded copy of an encoded plan encodes to the same bytes. *)
Lemma encode_same p q b :
  plan_same p q -> encode p = Ok b -> encode q = Ok b.
Proof.
  intros (Hs & Hd & Hper & Ha) (Hv & body & Hb & Hst & Hl)%encode_Ok.
  pose proof (enc_respects _ _ body (seal_same_cbor _ _ Hs) Hb) as Hb'.
  apply encode_Ok. split.
  - apply validate_Ok in Hv as (H1 & (body0 & Hb0 & Hdig)%verify_self_digest_Ok & H3 & H4 & H5).
    assert (body0 = body) as -> by (unfold enc in *; congruence).
    apply validate_Ok. destruct Hs as (c & f & d & Hp & Hq & _ & _ & Hj).
    set (e := envelope p) in *. set (e' := envelope q) in *.
    pose proof (f_equal s_schema_version Hj) as J1. pose proof (f_equal s_effect_set Hj) as J2.
    pose proof (f_equal s_public_steps Hj) as J3. pose proof (f_equal s_created_at_epoch_ms Hj) as J4.
    pose proof (f_equal s_expires_at_epoch_ms Hj) as J5. pose proof (f_equal s_projection Hj) as J6.
    cbn in J1, J2, J3, J4, J5. cbn [s_projection] in J6.
    split_and!; [congruence| |congruence|congruence|].
    + apply verify_self_digest_Ok. exists body. split; [done|congruence].
    + rewrite J2, J3. apply (validate_projection_same _ _ _ _ _ Ha).
      rewrite H5. f_equal. apply projection_eta.
      rewrite <- J6 in Hp, Hq. cbn in Hp, Hq. by split_and!; cbn.
  - exists body. split_and!; [done| |done]. refine (enc_respects _ _ b _ Hst).
    unfold storage_fields. rewrite Hd. same_fields. cbn [snd]. constructor.
    apply Forall2_fmap. eapply Forall2_impl; [exact Ha|]. intros. by apply action_same_cbor.
Qed.

Lemma decode_encoded p b :
  stored_plan_ok p -> encode p = Ok b -> exists q, decode b = Ok q /\ plan_same p q.
Proof.
  intros Hok He. pose proof He as (Hv & body & Hb & Hst & Hl)%encode_Ok.
  pose proof Hok as (Hi & Hd & Hlen & Ha).
  pose proof (storage_body_length p body b Hst Hl) as Hu.
  pose proof (enc_bytes_ok _ body (proj1 (writable_seal_input _ Hi)) Hb) as Hbo.
  assert (u64 (zlen b)) as Hub by (pose proof (zlen_nonneg b); unfold MAX_BYTES in Hl; zlia).
  destruct (enc_decodes_top _ b (storage_cbor_ok p body Hok Hbo Hu) (storage_depth p body Hok) Hst Hub)
    as (w & Hw & Heq).
  destruct (enc_decodes_top _ body (proj1 (writable_seal_input _ Hi)) (depth_seal_input _) Hb Hu)
    as (bw & Hbw & Hbeq).
  unfold decode. destruct (Z.ltb_spec MAX_BYTES (zlen b)); [lia|]. rewrite Hw. cbn [map_err].
  unfold storage_fields in Heq. read_fields Heq. cbn [negb Z.eqb Pos.eqb]. rewrite Hbw. cbn [map_err].
  destruct (at_field_found_to (decode_list decode_action) _ w "privateActions" _ _ Heq
    ltac:(literal_nodup) ltac:(literal_member) ltac:(by apply recovers_actions)) as (acts & -> & Hacts).
  destruct (recovers_envelope p body bw acts Hok Hv Hb Hbeq Hacts) as (j & -> & Hsame & Hproj).
  set (e := envelope_of j (plan_digest (envelope p))).
  assert (plan_same p (mkStored e (mkPlan acts))) as Hp.
  { split; [|split; [|split]]; cbn [envelope private_plan actions]; try done.
    - unfold e. by rewrite seal_input_of_envelope.
    - change (per_action (s_projection j) = per_action (s_projection (seal_input_of (envelope p)))).
      by rewrite Hproj. }
  rewrite bool_decide_eq_true_2 by done. cbn [negb].
  assert (digest_body_bytes e = Ok body) as ->.
  { unfold digest_body_bytes, e. rewrite seal_input_of_envelope.
    enough (enc (plan_digest_body j) body) as -> by done.
    exact (enc_respects _ _ body (seal_same_cbor _ _ Hsame) Hb). }
  cbn [map_err]. rewrite bool_decide_eq_true_2 by done. cbn [negb].
  rewrite (encode_same p _ b Hp He), bool_decide_eq_true_2 by done. cbn [negb]. eauto.
Qed.

(** What is decoded re-encodes to the bytes it came from: the last check of [decode]. *)
Lemma decode_Ok b p : decode b = Ok p -> encode p = Ok b.
Proof. unfold decode. intros Hd. repeat case_hyp1 Hd. breflect. congruence. Qed.

Lemma encode_bytes_ok p b : stored_plan_ok p -> encode p = Ok b -> bytes_ok b.
Proof.
  intros Hok (_ & body & Hb & Hst & Hl)%encode_Ok. pose proof Hok as [Hi _].
  pose proof (enc_bytes_ok _ body (proj1 (writable_seal_input _ Hi)) Hb).
  eapply enc_bytes_ok; [|exact Hst]. apply storage_cbor_ok; [done..|]. by eapply storage_body_length.
Qed.

(** C21. Storing a plan and loading it back: a stored plan decodes to the same plan, up to
    the order of capabilities, runtime facts and the entries of opaque action bodies,
    which the canonical encoding does not carry; what was decoded is valid and has the
    same storage bytes. *)
Theorem stored_plan_roundtrip p b :
  stored_plan_ok p -> encode p = Ok b -> exists q, decode b = Ok q /\ plan_same p q /\ validate q = Ok tt /\ encode q = Ok b.
Proof.
  intros Hok He. destruct (decode_encoded p b Hok He) as (q & Hq & Hs). exists q.
  pose proof (encode_same p q b Hs He) as Hq'. pose proof Hq' as (? & _)%encode_Ok. done.
Qed.

(** C22. Loading refuses everything but the exact bytes of a valid plan: what [decode]
    returns has the current schema, verifies its own digest, has executable effects and a projection of its
    private actions, was stored under its own digest, and re-encodes to exactly the
    bytes it was read from.  So a plan has one stored form and no file has two
    readings. *)
Theorem stored_plan_sound b p :
  decode b = Ok p ->
  encode p = Ok b /\ zlen b <= MAX_BYTES /\ schema_version (envelope p) = SCHEMA_CURRENT /\
  verify_self_digest (envelope p) = Ok tt /\ validate_executable (effect_set (envelope p)) = Ok tt /\
  created_at_epoch_ms (envelope p) < expires_at_epoch_ms (envelope p) /\
  exists d, validate_projection (public_steps (envelope p)) (private_plan p)
              (effect_set (envelope p)) = Ok d /\
    per_action d = per_action_digests (envelope p) /\
    provider_execution_plan_digest d = e_provider_execution_plan_digest (envelope p) /\
    public_projection_digest d = e_public_projection_digest (envelope p).
Proof.
  intros He%decode_Ok.
  pose proof He as ((Hsc & Hv & Hx & Ht & Hp)%validate_Ok & _ & _ & _ & Hl)%encode_Ok.
  split_and!; try done. exists (s_projection (seal_input_of (envelope p))). by split_and!.
Qed.

(** ** Instances *)

Definition sample_input : PlanSealInput :=
  let version := mkVersion 1 2 3 in
  mkSealInput SCHEMA_CURRENT (mkId "PLAN-1") PrimaryFlash sample_binding
    (mkProvider (mkId "rockchip") version (sha256 [7]))
    (mkProfile (mkId "dayu200") version (sha256 [8]))
    (mkArtifact (mkId "ART-1") (mkFormat (mkId "tar-images") version) (sha256 [9]) 4096 (sha256 [10]))
    (mkToolchain (mkId "native") NativeProtocol version (sha256 [11]) None)
    (MHardwareCampaign "dayu200-lab")
    (mkSupport (sha256 [12]) (HardwareCampaign "dayu200-lab"))
    (mkCapabilities [(mkId "verify", true); (mkId "erase", false)])
    sample_steps (sample_set (mkRange 0 64)) sample_digests
    (Some (mkContract (mkId "RC-1") version (sha256 [13])))
    (mkPostflight true (Some (mkMode "normal")) [(mkId "const.product.model", "dayu200"%string)])
    1000 5000.

Definition sample_envelope : FlashPlanEnvelope :=
  envelope_of sample_input
    (match to_canonical_bytes (plan_digest_body sample_input) with
     | Ok body => digest_in_domain DPlan body | Err _ => sha256 [] end).

Definition sample_stored : StoredPlan := mkStored sample_envelope sample_plan.

(** The sample is accepted, and fits the storage bound. *)
Lemma sample_stored_encodes : is_ok (encode sample_stored) = true.
Proof. vm_compute. reflexivity. Qed.

Lemma projection_digests_ok steps plan effects d :
  validate_projection steps plan effects = Ok d ->
  digest_ok (provider_execution_plan_digest d) /\ digest_ok (public_projection_digest d).
Proof.
  unfold validate_projection. intros H. repeat case_hyp1 H. injection H as <-.
  split; apply finalize_ok.
Qed.

Lemma action_digest_ok a d : action_digest a = Ok d -> digest_ok d.
Proof.
  unfold action_digest, digest_canonical. destruct (value_bytes a); [|done]. intros [= <-]. apply finalize_ok.
Qed.

Lemma step_for_digest_ok k e a : digest_ok (private_action_digest (step_for k e a)).
Proof.
  cbn. destruct (action_digest a) eqn:E; [by eapply action_digest_ok|]. apply sha256_ok.
Qed.

(** Conditions on literals, settled by computation. *)
Ltac concrete_ok := apply (bool_decide_unpack _); vm_compute; exact I.

(** The parts of a condition, without unfolding the data it speaks of. *)
Ltac conjuncts := repeat match goal with |- _ /\ _ => refine (conj _ _) end.

Lemma sample_write_valid : action_valid sample_write.
Proof.
  unfold action_valid. conjuncts; try (vm_compute; reflexivity).
  - cbn. unfold range_ok. conjuncts; cbn; zlia.
  - apply sha256_ok.
  - constructor.
  - unfold body_levels. cbn. lia.
Qed.

Lemma sample_read_valid : action_valid sample_read.
Proof.
  unfold action_valid. conjuncts; try (vm_compute; reflexivity); try exact I; [constructor|].
  unfold body_levels. cbn. lia.
Qed.

Lemma sample_steps_valid : Forall step_valid sample_steps.
Proof.
  apply Forall_singleton. unfold step_valid, step_ok. conjuncts; try exact I.
  - vm_compute. reflexivity.
  - apply step_for_digest_ok.
  - vm_compute. reflexivity.
  - apply sha256_ok.
Qed.

Lemma sample_set_valid : effect_set_valid (sample_set (mkRange 0 64)).
Proof.
  assert (persistent_ok (WritePartition (mkId "system") (mkRange 0 64) (sha256 [1]))).
  { cbn. conjuncts; [vm_compute; reflexivity|split; cbn; zlia|apply sha256_ok]. }
  unfold effect_set_valid, effect_set_ok. conjuncts.
  - vm_compute. split; congruence.
  - by apply Forall_singleton.
  - vm_compute. split; congruence.
  - constructor.
  - apply Forall_singleton. split; [done|]. cbn. unfold range_ok. conjuncts; cbn; zlia.
  - constructor.
Qed.

Lemma sample_input_ok : seal_input_ok sample_input.
Proof.
  assert (version_ok (mkVersion 1 2 3)) by (unfold version_ok; conjuncts; cbn; zlia).
  assert (forall l, digest_ok (sha256 l)) as Hsha by apply sha256_ok.
  destruct (projection_digests_ok _ _ _ _ sample_projection) as [Hp Hq].
  pose proof sample_steps_valid. pose proof sample_set_valid.
  unfold seal_input_ok, binding_ok, provider_ok, profile_ok, artifact_ok, format_ok, toolchain_ok,
    maturity_ok, support_ok, capabilities_ok, postflight_ok, facts_ok.
  conjuncts;
    lazymatch goal with
    | |- version_ok _ => exact H
    | |- id_ok _ => vm_compute; reflexivity
    | |- option_text_ok _ => first [exact I | split; vm_compute; [reflexivity|split; congruence]]
    | |- u64 _ => vm_compute; split; congruence
    | |- u32 _ => vm_compute; split; congruence
    | |- NoDup _ => concrete_ok
    | |- Forall (fun e => id_ok _) _ => concrete_ok
    | |- _ => idtac
    end.
  - split; [reflexivity|]. apply Forall_replicate. zlia.
  - exact (Hsha _).
  - exact (Hsha _).
  - exact (Hsha _).
  - exact (Hsha _).
  - exact (Hsha _).
  - exact (Hsha _).
  - exact sample_steps_valid.
  - exact sample_set_valid.
  - exact Hp.
  - exact Hq.
  - refine (conj _ (conj H (Hsha _))). vm_compute. reflexivity.
  - vm_compute. reflexivity.
  - concrete_ok.
Qed.

Lemma sample_stored_ok : stored_plan_ok sample_stored.
Proof.
  unfold stored_plan_ok. conjuncts.
  - change (seal_input_ok (seal_input_of sample_envelope)). unfold sample_envelope.
    rewrite seal_input_of_envelope. exact sample_input_ok.
  - change (digest_ok (plan_digest sample_envelope)). unfold sample_envelope, envelope_of. cbn [plan_digest].
    destruct (to_canonical_bytes _); [apply finalize_ok|apply sha256_ok].
  - vm_compute. split; congruence.
  - apply Forall_cons_2; [exact sample_read_valid|]. apply Forall_singleton. exact sample_write_valid.
Qed.

Lemma stored_plan_roundtrip_witness :
  exists b q, encode sample_stored = Ok b /\ decode b = Ok q /\ plan_same sample_stored q.
Proof.
  destruct (encode sample_stored) as [b|] eqn:E.
  - destruct (stored_plan_roundtrip sample_stored b sample_stored_ok E) as (q & Hq & Hs & _).
    exists b, q. split; [reflexivity|]. split; [exact Hq|exact Hs].
  - exfalso. pose proof sample_stored_encodes as H. rewrite E in H. discriminate H.
Defined.

Lemma stored_plan_sound_witness :
  exists b q, decode b = Ok q /\ encode q = Ok b.
Proof.
  destruct (encode sample_stored) as [b|] eqn:E.
  - destruct (decode_encoded sample_stored b sample_stored_ok E) as (q & Hq & _).
    exists b, q. split; [exact Hq|]. exact (proj1 (stored_plan_sound b q Hq)).
  - exfalso. pose proof sample_stored_encodes as H. rewrite E in H. discriminate H.
Defined.

Lemma sample_seals : seal sample_input = Ok sample_envelope.
Proof.
  apply seal_Ok. unfold sample_envelope. destruct (to_canonical_bytes _) as [body|] eqn:E.
  - split; [vm_compute; reflexivity|]. split; [vm_compute; reflexivity|]. by exists body.
  - destruct (proj2 (writable_seal_input _ sample_input_ok)) as [b Hb]. unfold enc in Hb. congruence.
Qed.

Lemma plan_digest_binds_witness :
  exists bi bj,
    plan_digest sample_envelope = sha256_spec (as_bytes DPlan ++ bi) /\
    plan_digest sample_envelope = sha256_spec (as_bytes DPlan ++ bj).
Proof.
  destruct (plan_digest_binds sample_input sample_input sample_envelope sample_envelope
    sample_input_ok sample_input_ok sample_seals sample_seals) as (bi & bj & Hi & Hj & _).
  exists bi, bj. split; [exact Hi|exact Hj].
Defined.
