(* ===== verification/PlanSound.v ===== *)
(** * What decoding a stored plan guarantees (crates/arkforge-engine/src/plan_codec.rs)

    Every reader of the codec returns a value its Rust type admits, so a decoded plan
    is as well formed as one the constructors built. *)

From S2P Require Import Prelude Cbor Sha256 Digest Fields Authority Identity Effect FlashStep.
From S2P Require Import Projection Plan PlanCodec.

(** [dec] only returns values that satisfy [P]. *)
Definition yields {A} (dec : CborValue -> result CodecError A) (P : A -> Prop) : Prop :=
  forall v a, cbor_ok v -> dec v = Ok a -> P a.

Create HintDb yields.

Lemma sealed_field_sound w name v : cbor_ok w -> sealed_field w name = Ok v -> cbor_ok v.
Proof.
  unfold sealed_field. intros Hw H. destruct w as [| | | | |k| |]; try done. cbn [as_map] in H.
  apply (field_sound k Hw name v). unfold field. by destruct (snd <$> _); [injection H as ->|].
Qed.

Lemma at_field_yields {A} (dec : CborValue -> result CodecError A) P w name a :
  at_field dec w name = Ok a -> cbor_ok w -> yields dec P -> P a.
Proof.
  unfold at_field. intros H Hw Hd. destruct (sealed_field w name) as [v|] eqn:E; [|done].
  eapply Hd; [by eapply sealed_field_sound|done].
Qed.

Lemma yields_text : yields decode_text text_ok.
Proof. intros v a Hv H. destruct v; try done. injection H as <-. by inversion Hv. Qed.

Lemma yields_uint : yields uint u64.
Proof. intros v a Hv H. destruct v; try done. injection H as <-. by inversion Hv. Qed.

Lemma yields_u32 : yields u32_value u32.
Proof.
  intros v a Hv. unfold u32_value. destruct (uint v) as [n|] eqn:E; [|done].
  apply yields_uint in E; [|done]. case_goal; [|done]. intros [= <-]. breflect. ints. lia.
Qed.

Lemma yields_digest : yields decode_digest digest_ok.
Proof.
  intros v a Hv. unfold decode_digest. destruct v as [| |l| | | | |]; try done. cbn [byte_string].
  destruct (Z.eqb_spec (zlen l) 32) as [Hl|]; [|done]. intros [= <-]. inversion Hv; subst.
  split; [|done]. unfold zlen in Hl. cbn. lia.
Qed.

Lemma yields_opaque : yields opaque id_ok.
Proof.
  intros v a _. unfold opaque. destruct (decode_text v) as [s|]; [|done].
  destruct (OpaqueId_new s) eqn:E; [|done]. intros [= <-]. by apply id_ok_new in E as [? _].
Qed.

Lemma yields_mode : yields decode_mode mode_valid.
Proof.
  intros v a _. unfold decode_mode. destruct (decode_text v) as [s|]; [|done].
  destruct (DeviceMode_new s) as [m|] eqn:E; [|done]. intros [= <-].
  assert (mode_str m = s) as Hs by (unfold DeviceMode_new in E; case_hyp E; by injection E as <-).
  unfold mode_valid. by rewrite Hs.
Qed.

Lemma yields_stage : yields decode_stage stage_valid.
Proof.
  intros v a Hv. unfold decode_stage. destruct (decode_text v) as [s|] eqn:Ht; [|done].
  apply yields_text in Ht; [|done].
  destruct (AgentStage_new s) as [m|] eqn:E; [|done]. intros [= <-].
  assert (stage_str m = s) as Hs by (unfold AgentStage_new in E; case_hyp E; by injection E as <-).
  unfold stage_valid. by rewrite Hs.
Qed.

(** Fields one after another; what each read guarantees joins the hypotheses. *)
Ltac yield_fields Hw H :=
  repeat match type of H with
  | context [match at_field ?dec ?w ?name with _ => _ end] =>
      let E := fresh "E" in
      destruct (at_field dec w name) eqn:E; [|discriminate H];
      eapply at_field_yields in E; [|exact Hw|solve [eauto with yields]]; cbn beta in E
  end.

Lemma yields_true {A} (dec : CborValue -> result CodecError A) : yields dec (fun _ => True).
Proof. by intros v a. Qed.

#[export] Hint Resolve yields_text yields_uint yields_u32 yields_digest yields_opaque yields_mode
  yields_stage : yields.
#[export] Hint Extern 9 (yields _ _) => apply yields_true : yields.

Lemma yields_range : yields decode_range range_ok.
Proof.
  intros v a Hw H. unfold decode_range in H. yield_fields Hw H.
  destruct (ByteRange_new _ _) as [r|] eqn:En; [|done]. injection H as <-.
  by apply range_new_Ok in En as [_ ?].
Qed.

Lemma yields_version : yields decode_version version_ok.
Proof.
  intros v a Hv H. unfold decode_version in H. destruct v as [| | | |l| | |]; try done. cbn [as_array] in H.
  inversion Hv as [| | | |? _ Hl| | |]; subst. destruct l as [|x [|y [|z [|]]]]; try done.
  apply Forall_cons in Hl as [Hx [Hy [Hz _]%Forall_cons]%Forall_cons].
  destruct (u32_value x) eqn:Ex; [|done]. destruct (u32_value y) eqn:Ey; [|done].
  destruct (u32_value z) eqn:Ez; [|done]. injection H as <-.
  split; [exact (yields_u32 _ _ Hx Ex)|]. split; [exact (yields_u32 _ _ Hy Ey)|exact (yields_u32 _ _ Hz Ez)].
Qed.

Lemma yields_optional {A} (dec : CborValue -> result CodecError A) P :
  yields dec P -> yields (optional dec) (option_ok P).
Proof.
  intros Hd v a Hv. unfold optional. destruct v;
    try (destruct (dec _) eqn:E; [|done]; intros [= <-]; by eapply Hd).
  by intros [= <-].
Qed.

Lemma yields_list {A} (dec : CborValue -> result CodecError A) P :
  yields dec P -> yields (decode_list dec) (fun l => u64 (zlen l) /\ Forall P l).
Proof.
  intros Hd v a Hv. unfold decode_list. destruct v as [| | | |l| | |]; try done. cbn [as_array].
  inversion Hv as [| | | |? Hl Hall| | |]; subst. intros Hc%collect_results_Ok. split.
  - by rewrite (zlen_Forall2 _ _ _ Hc).
  - clear -Hd Hc Hall. induction Hc as [|b v a l Hb _ IH]; constructor;
      apply Forall_cons in Hall as [? ?]; eauto.
Qed.

#[export] Hint Resolve yields_range yields_version yields_optional yields_list : yields.

Ltac yield_record H := injection H as <-; red; conjuncts; eassumption.

Lemma yields_target : yields decode_target target_ok.
Proof.
  intros v a Hv H. unfold decode_target in H. destruct v as [| | | | |k| |]; try done. cbn [as_map] in H.
  destruct k as [|[key x] [|]]; try done. inversion Hv as [| | | | |? _ Hk| |]; subst.
  apply Forall_cons in Hk as [[_ Hx] _]. destruct (decode_text key); [|done].
  repeat case_goal. repeat case_hyp1 H; injection H as <-; try done; by eapply yields_opaque.
Qed.

Lemma yields_typed : yields typed_value typed_ok.
Proof.
  intros v a Hv H. unfold typed_value in H. destruct v as [| | | | |k| |]; try done. cbn [as_map] in H.
  destruct k as [|[key x] [|]]; try done. inversion Hv as [| | | | |? _ Hk| |]; subst.
  apply Forall_cons in Hk as [[_ Hx] _]. destruct (decode_text key); [|done].
  destruct (String.eqb a0 "text"); [destruct (decode_text x) eqn:E; [|done]; injection H as <-;
    by eapply yields_text|].
  destruct (String.eqb a0 "bool"); [destruct (boolean x); [|done]; by injection H as <-|].
  destruct (String.eqb a0 "integer"); [|done].
  destruct x; try done; [case_hyp1 H; breflect|]; injection H as <-; cbn; inversion Hx; subst; [ints; lia|done].
Qed.

#[export] Hint Resolve yields_target yields_typed : yields.

Lemma option_ok_mono {A} (P Q : A -> Prop) o : (forall a, P a -> Q a) -> option_ok P o -> option_ok Q o.
Proof. intros HPQ Ho. destruct o; [by apply HPQ|done]. Qed.

Lemma yields_step : yields decode_step step_valid.
Proof.
  intros v a Hw H. unfold decode_step in H. yield_fields Hw H. injection H as <-.
  unfold step_valid, step_ok. conjuncts;
    first [eassumption | eapply option_ok_mono; [exact mode_valid_text|eassumption]].
Qed.

Lemma yields_binding : yields decode_binding binding_ok.
Proof. intros v a Hw H. unfold decode_binding in H. yield_fields Hw H. yield_record H. Qed.

Lemma yields_provider : yields decode_provider provider_ok.
Proof. intros v a Hw H. unfold decode_provider in H. yield_fields Hw H. yield_record H. Qed.

Lemma yields_profile : yields decode_profile profile_ok.
Proof. intros v a Hw H. unfold decode_profile in H. yield_fields Hw H. yield_record H. Qed.

Lemma yields_format : yields decode_format format_ok.
Proof. intros v a Hw H. unfold decode_format in H. yield_fields Hw H. yield_record H. Qed.

#[export] Hint Resolve yields_step yields_binding yields_provider yields_profile yields_format : yields.

(** A value read apart from its decoder, as the nested literals are. *)
Lemma nested_yields {A} (dec : CborValue -> result CodecError A) P w name v a :
  sealed_field w name = Ok v -> dec v = Ok a -> cbor_ok w -> yields dec P -> P a.
Proof. intros Hv Ha Hw Hd. eapply Hd; [by eapply sealed_field_sound|done]. Qed.

Lemma yields_artifact : yields decode_artifact artifact_ok.
Proof.
  intros v a Hw H. unfold decode_artifact in H. destruct (sealed_field v "format") as [f|] eqn:Ef; [|done].
  yield_fields Hw H. destruct (decode_format f) as [g|] eqn:Eg; [|done].
  pose proof (nested_yields _ _ _ _ _ _ Ef Eg Hw yields_format).
  yield_fields Hw H. yield_record H.
Qed.

Lemma yields_toolchain : yields decode_toolchain toolchain_ok.
Proof.
  intros v a Hw H. unfold decode_toolchain in H. yield_fields Hw H. yield_record H.
Qed.

(** The arms of a match on a name, each reading at most one text. *)
Ltac text_arms Hw H :=
  repeat case_hyp1 H;
  try match goal with E : at_field decode_text _ _ = Ok _ |- _ =>
        eapply at_field_yields in E; [|exact Hw|apply yields_text] end;
  injection H as <-; by split.

Lemma yields_maturity : yields decode_maturity maturity_ok.
Proof.
  intros v a Hw H. unfold decode_maturity in H.
  destruct (at_field decode_text v "state") as [state|]; [|done].
  text_arms Hw H.
Qed.

Lemma yields_support_state : yields decode_support_state (fun s =>
  option_text_ok (support_campaign s) /\ option_text_ok (support_blocker s)).
Proof.
  intros v a Hw H. unfold decode_support_state in H.
  destruct (at_field decode_text v "state") as [state|]; [|done].
  text_arms Hw H.
Qed.

Lemma yields_support : yields decode_support support_ok.
Proof.
  intros v a Hw H. unfold decode_support in H. destruct (sealed_field v "state") as [f|] eqn:Ef; [|done].
  yield_fields Hw H. destruct (decode_support_state f) as [g|] eqn:Eg; [|done].
  destruct (nested_yields _ _ _ _ _ _ Ef Eg Hw yields_support_state). yield_record H.
Qed.

Lemma yields_contract : yields decode_contract contract_ok.
Proof. intros v a Hw H. unfold decode_contract in H. yield_fields Hw H. yield_record H. Qed.

Lemma yields_entries {A} (dec : CborValue -> result CodecError A) P :
  yields dec P ->
  yields (decode_entries dec) (fun l => u64 (zlen l) /\ Forall (fun e => id_ok e.1 /\ P e.2) l).
Proof.
  intros Hd v a Hv. unfold decode_entries. destruct v as [| | | | |k| |]; try done. cbn [as_map].
  inversion Hv as [| | | | |? Hl Hall| |]; subst. intros Hc%collect_results_Ok. split.
  - by rewrite (zlen_Forall2 _ _ _ Hc).
  - clear -Hd Hc Hall. induction Hc as [|[i b] [x y] a l Hb _ IH]; constructor;
      apply Forall_cons in Hall as [[Hx Hy] ?]; [|auto]. cbn in *.
    destruct (opaque x) eqn:Ex; [|done]. destruct (dec y) eqn:Ey; [|done]. injection Hb as <- <-.
    exact (conj (yields_opaque _ _ Hx Ex) (Hd _ _ Hy Ey)).
Qed.

Lemma yields_capabilities : yields decode_capabilities (fun c =>
  u64 (zlen (entries c)) /\ Forall (fun e => id_ok e.1) (entries c)).
Proof.
  intros v a Hv. unfold decode_capabilities. destruct (decode_entries boolean v) eqn:E; [|done].
  intros [= <-]. apply (yields_entries boolean (fun _ => True) (yields_true _)) in E as [Hl Hall]; [|done].
  split; [done|]. eapply Forall_impl; [exact Hall|]. by intros ? [? _].
Qed.

Lemma yields_facts : yields (decode_entries decode_text) facts_ok.
Proof.
  intros v a Hv H. apply (yields_entries _ _ yields_text) in H as [Hl Hall]; [|done].
  split; [done|]. eapply Forall_impl; [exact Hall|]. intros e [Hi [Hs Hu]]. exact (conj Hi (conj Hs Hu)).
Qed.

#[export] Hint Resolve yields_artifact yields_toolchain yields_maturity yields_support yields_contract
  yields_capabilities yields_facts : yields.

Lemma yields_postflight : yields decode_postflight (fun p =>
  option_ok mode_valid (require_mode p) /\ facts_ok (required_runtime_facts p)).
Proof. intros v a Hw H. unfold decode_postflight in H. yield_fields Hw H. by injection H as <-. Qed.

(** The arms of a match on a name, each reading its own fields. *)
Ltac record_arms Hw H :=
  match type of H with
  | (if String.eqb ?k ?n then _ else _) = _ =>
      destruct (String.eqb k n); [yield_fields Hw H|record_arms Hw H]
  | _ => idtac
  end.

Lemma yields_persistent : yields decode_persistent persistent_valid.
Proof.
  intros v a Hw H. unfold decode_persistent in H.
  destruct (at_field decode_text v "kind") as [kind|]; [|done]. record_arms Hw H; try discriminate H;
    injection H as <-; unfold persistent_valid; cbn; conjuncts; auto using range_ok_typed.
Qed.

Lemma yields_region : yields decode_region region_typed.
Proof. intros v a Hw H. unfold decode_region in H. yield_fields Hw H. yield_record H. Qed.

Lemma yields_transient : yields decode_transient transient_valid.
Proof.
  intros v a Hw H. unfold decode_transient in H.
  destruct (at_field decode_text v "kind") as [kind|]; [|done]. record_arms Hw H; try discriminate H;
    try (injection H as <-; cbn; by conjuncts).
  destruct (sealed_field v "memoryRegion") as [f|] eqn:Ef; [|done]. yield_fields Hw H.
  destruct (decode_region f) as [g|] eqn:Eg; [|done].
  pose proof (nested_yields _ _ _ _ _ _ Ef Eg Hw yields_region).
  yield_fields Hw H. injection H as <-. cbn. by conjuncts.
Qed.

#[export] Hint Resolve yields_postflight yields_persistent yields_transient : yields.

Lemma yields_effects : yields decode_effects effect_set_valid.
Proof.
  intros v a Hw H. unfold decode_effects in H. destruct (sealed_field v "dataImpact") as [f|]; [|done].
  yield_fields Hw H. destruct (decode_impact f) as [g|]; [|done]. injection H as <-.
  destruct E as [? Hp], E0 as [? Ht]. unfold effect_set_valid, effect_set_ok. conjuncts; try done.
  - eapply Forall_impl; [exact Hp|]. by intros ? [? _].
  - eapply Forall_impl; [exact Ht|]. intros []; cbn; intros; destruct_and?; conjuncts; auto with ark.
    by match goal with Hs : stage_valid _ |- _ => destruct Hs end.
Qed.

#[export] Hint Resolve yields_effects : yields.

(** ** Nesting *)

Lemma sealed_field_depth w name v : sealed_field w name = Ok v -> (S (depth v) <= depth w)%nat.
Proof.
  unfold sealed_field. destruct w as [| | | | |k| |]; try done. cbn [as_map].
  pose proof (depth_Map k) as Hk. rewrite Forall_forall in Hk.
  destruct (List.find _ k) as [[n x]|] eqn:E; [|done]. cbn. intros [= <-].
  apply find_some in E as [E _]. apply list_elem_of_In in E. by apply Hk in E as [_ ?].
Qed.

Lemma yields_action v a :
  cbor_ok v -> (depth v <= S body_levels)%nat -> decode_action v = Ok a -> action_valid a.
Proof.
  intros Hw Hdepth H. unfold decode_action in H. yield_fields Hw H.
  destruct (sealed_field v "body") as [body|] eqn:Eb; [|done]. injection H as <-.
  unfold action_valid. conjuncts; try eassumption; cbn [action_body].
  - by eapply sealed_field_sound.
  - apply sealed_field_depth in Eb. lia.
Qed.

Lemma yields_actions v l :
  cbor_ok v -> (depth v <= S (S body_levels))%nat -> decode_list decode_action v = Ok l ->
  u64 (zlen l) /\ Forall action_valid l.
Proof.
  intros Hv Hdepth. unfold decode_list. destruct v as [| | | |k| | |]; try done. cbn [as_array].
  inversion Hv as [| | | |? Hl Hall| | |]; subst. intros Hc%collect_results_Ok. split.
  { by rewrite (zlen_Forall2 _ _ _ Hc). }
  pose proof (depth_Array k) as Hk.
  assert (Forall (fun v => depth v <= S body_levels)%nat k) as Hd.
  { eapply Forall_impl; [exact Hk|]. cbn beta. intros. lia. }
  clear -Hc Hall Hd. induction Hc as [|b v a l Hb _ IH]; constructor;
    apply Forall_cons in Hall as [? ?]; apply Forall_cons in Hd as [? ?]; [by eapply yields_action|auto].
Qed.

(** A field of an encodable map encodes. *)
Lemma enc_map_field fs n v b : (n, v) ∈ fs -> enc (map_of fs) b -> encodes v.
Proof.
  rewrite map_of_entries. intros Hin (kvs & Hk & _)%enc_Map.
  assert ((Text n, v) ∈ text_entries fs) as Hin'.
  { apply list_elem_of_fmap. by exists (n, v). }
  apply list_elem_of_lookup in Hin' as [i Hi].
  destruct (Forall2_lookup_l _ _ _ _ _ Hk Hi) as (kv & _ & _ & Hv). by eexists.
Qed.

Lemma capabilities_NoDup c :
  Forall (fun e => id_ok e.1) (entries c) -> encodes (to_cbor c) -> NoDup (map fst (entries c)).
Proof.
  rewrite capabilities_entries. intros Hid Hen. apply text_map_encodes in Hen.
  - rewrite map_map in Hen. cbn [fst] in Hen. rewrite <- (map_map fst as_str) in Hen.
    by apply NoDup_fmap_1 in Hen.
  - apply Forall_map. eapply Forall_impl; [exact Hid|]. intros ? ?. by apply id_short.
  - apply Forall_map, Forall_true. intros e. by eexists.
Qed.

Lemma postflight_NoDup p b :
  facts_ok (required_runtime_facts p) -> enc (to_cbor p) b -> NoDup (map fst (required_runtime_facts p)).
Proof.
  intros [_ Hf] Hb. assert (encodes (Map (fact_entries (required_runtime_facts p)))) as Hen.
  { eapply (enc_map_field _ "requiredRuntimeFacts"); [|exact Hb]. literal_member. }
  apply fact_entries_encode in Hen; [done|]. eapply Forall_impl; [exact Hf|]. by intros ? [? _].
Qed.

(** ** Plans *)

Lemma decode_envelope_ok w plan e :
  cbor_ok w -> decode_envelope w plan = Ok e ->
  seal_input_ok (seal_input_of e) /\ digest_ok (plan_digest e).
Proof.
  intros Hw H. unfold decode_envelope in H. yield_fields Hw H.
  destruct (validate_projection _ _ _) as [d|] eqn:Ep; cbn [map_err] in H; [|done].
  apply projection_digests_ok in Ep as [? ?].
  yield_fields Hw H. case_hyp1 H. yield_fields Hw H. case_hyp1 H. yield_fields Hw H. case_hyp1 H.
  destruct (decode_seal_input _ _ _ _ _) as [i|] eqn:Ei; [|done].
  destruct (seal i) as [e'|] eqn:Es; cbn [map_err] in H; [|done]. injection H as <-.
  apply seal_Ok in Es as (_ & _ & body & Hbody & ->). rewrite seal_input_of_envelope.
  split; [|apply finalize_ok].
  unfold decode_seal_input in Ei. yield_fields Hw Ei. injection Ei as <-.
  unfold seal_input_ok, capabilities_ok, postflight_ok.
  destruct_and?. conjuncts; cbn [s_schema_version s_plan_id s_execution_purpose s_authority_binding
    s_provider s_profile s_artifact s_toolchain s_maturity s_authority_support s_negotiated_capabilities
    s_public_steps s_effect_set s_projection s_recovery_contract s_postflight s_created_at_epoch_ms
    s_expires_at_epoch_ms]; try eassumption.
  - apply capabilities_NoDup; [done|]. eapply (enc_map_field _ "negotiatedCapabilities"); [|exact Hbody].
    literal_member.
  - match goal with |- NoDup (map fst (required_runtime_facts ?p)) =>
      assert (encodes (to_cbor p)) as [bp Hbp] end.
    { eapply (enc_map_field _ "postflight"); [|exact Hbody]. literal_member. }
    refine (postflight_NoDup _ bp _ Hbp). assumption.
Qed.

Lemma decode_well_typed b p : bytes_ok b -> decode b = Ok p -> stored_plan_ok p.
Proof.
  intros Hb H. unfold decode in H. case_hyp1 H.
  destruct (decode_canonical b) as [w|] eqn:Ew; cbn [map_err] in H; [|done].
  destruct (decode_levels b w Ew Hb) as (_ & Hw & Hdepth).
  yield_fields Hw H. case_hyp1 H.
  destruct (at_field byte_string w "envelope") as [body|] eqn:Ebody; [|done].
  assert (bytes_ok body) as Hbody.
  { unfold at_field in Ebody. destruct (sealed_field w "envelope") as [v|] eqn:Ev; [|done].
    apply sealed_field_sound in Ev; [|done]. destruct v; try done. injection Ebody as <-. by inversion Ev. }
  destruct (decode_canonical body) as [bw|] eqn:Ebw; cbn [map_err] in H; [|done].
  destruct (decode_levels body bw Ebw Hbody) as (_ & Hbw & _).
  destruct (at_field (decode_list decode_action) w "privateActions") as [acts|] eqn:Ea; [|done].
  assert (u64 (zlen acts) /\ Forall action_valid acts) as [Hlen Hacts].
  { unfold at_field in Ea. destruct (sealed_field w "privateActions") as [v|] eqn:Ev; [|done].
    pose proof (sealed_field_depth _ _ _ Ev). apply sealed_field_sound in Ev; [|done].
    eapply yields_actions; [exact Ev| |exact Ea]. unfold body_levels, MAX_DEPTH in *. lia. }
  destruct (decode_envelope bw _) as [e|] eqn:Ee; [|done].
  destruct (decode_envelope_ok bw _ e Hbw Ee) as [Hi Hd].
  repeat case_hyp1 H. injection H as <-. by unfold stored_plan_ok; conjuncts.
Qed.

(** Decoding is exact on well-formed plans: what it returns satisfies every bound the
    Rust types promise (identifier syntax, 32-bit versions, 32-byte digests, non-empty
    ranges, valid modes, unrepeated keys), and a byte string is accepted exactly when
    it is the encoding of such a plan. *)
Theorem decoded_plan_well_typed b :
  bytes_ok b ->
  (forall p, decode b = Ok p -> stored_plan_ok p) /\
  ((exists p, decode b = Ok p) <-> exists p, stored_plan_ok p /\ encode p = Ok b).
Proof.
  intros Hb. split; [intros p; by apply decode_well_typed|]. split.
  - intros [p Hp]. exists p. split; [by eapply decode_well_typed|]. by apply decode_Ok.
  - intros (p & Hok & He). destruct (decode_encoded p b Hok He) as (q & Hq & _). by exists q.
Qed.

Lemma decoded_plan_well_typed_witness :
  exists b q, decode b = Ok q /\ stored_plan_ok q.
Proof.
  destruct (encode sample_stored) as [b|] eqn:E.
  - destruct (decode_encoded sample_stored b sample_stored_ok E) as (q & Hq & _).
    exists b, q. split; [exact Hq|].
    exact (proj1 (decoded_plan_well_typed b (encode_bytes_ok _ _ sample_stored_ok E)) q Hq).
  - exfalso. pose proof sample_stored_encodes as H. rewrite E in H. discriminate H.
Defined.

(** ** One encoding, one plan *)

Lemma encode_inj p q b :
  stored_plan_ok p -> stored_plan_ok q -> encode p = Ok b -> encode q = Ok b ->
  exists r, plan_same p r /\ plan_same q r.
Proof.
  intros Hp Hq Ep Eq. destruct (decode_encoded p b Hp Ep) as (r & Hr & Hs).
  destruct (decode_encoded q b Hq Eq) as (r' & Hr' & Hs'). exists r. split; [done|].
  by replace r with r' by congruence.
Qed.

Lemma plan_same_digest p q : plan_same p q -> plan_digest (envelope q) = plan_digest (envelope p).
Proof. by intros (_ & ? & _). Qed.

Lemma plan_same_id p q : plan_same p q -> plan_id (envelope q) = plan_id (envelope p).
Proof.
  intros ((c & f & d & _ & _ & _ & _ & H) & _). exact (f_equal s_plan_id H).
Qed.

Lemma encode_same_digest p q b :
  stored_plan_ok p -> stored_plan_ok q -> encode p = Ok b -> encode q = Ok b ->
  plan_digest (envelope p) = plan_digest (envelope q) /\ plan_id (envelope p) = plan_id (envelope q).
Proof.
  intros Hp Hq Ep Eq. destruct (encode_inj p q b Hp Hq Ep Eq) as (r & H1 & H2).
  pose proof (plan_same_digest _ _ H1). pose proof (plan_same_digest _ _ H2).
  pose proof (plan_same_id _ _ H1). pose proof (plan_same_id _ _ H2). split; congruence.
Qed.
