(* ===== verification/Engine.v ===== *)
(** * The plan store and the execution gate (crates/arkforge-engine/src/lib.rs)

    [PlanStore] over host storage, the standing and per-plan execution blockers, and
    [start_execution].  Host storage is an interface: what [load] and [persist] do, and
    the contract the theorems need of them, which the file storage of the daemon
    implements (PlanFiles). *)

From S2P Require Import Prelude Cbor Sha256 Digest Fields Journal Authority Job Identity Effect FlashStep.
From S2P Require Import Projection Plan PlanCodec PlanSound.

(** ** Data *)

Record BoundToolchain := mkBound { bound_id : OpaqueId; bound_backend_digest : Sha256Digest }.

Record ExecutionReadiness := mkReadiness {
  authority_paired : bool;
  dispatcher : option BoundToolchain
}.

Inductive ExecutionBlocker : Type :=
| NoPairedAuthority
| NoDispatcher
| ToolchainDigestMismatch (plan_expects daemon_bound : Sha256Digest).

Definition blocker_code (b : ExecutionBlocker) : string :=
  match b with
  | NoPairedAuthority => "NO_PAIRED_AUTHORITY"
  | NoDispatcher => "NO_DISPATCHER"
  | ToolchainDigestMismatch _ _ => "TOOLCHAIN_DIGEST_MISMATCH"
  end.

(** The codec's error stands for the text [PlanStorage] carries. *)
Inductive EngineError : Type :=
| UnknownPlan (plan_id : string)
| PlanDigestMismatch (plan_id : string) (expected stored : Sha256Digest)
| StoreCorruption (plan_id : string) (stored recomputed : Sha256Digest)
| IllegalTransition (from to : JobState)
| ExecutionDisabled (blockers : list ExecutionBlocker)
| EnginePlan (e : PlanError)
| EnginePlanStorage (e : CodecError)
| EngineJournal (e : JournalError).

Definition to_storage_bytes (p : StoredPlan) : result EngineError bytes :=
  map_err EnginePlanStorage (encode p).

Definition from_storage_bytes (b : bytes) : result EngineError StoredPlan :=
  map_err EnginePlanStorage (decode b).

(** The trait [PlanStorage]; [S] is the storage and the world it lives in, so a call
    returns the world it leaves behind. *)
Class PlanStorage (S : Type) := {
  storage_load : S -> S * result EngineError (list StoredPlan);
  storage_persist : S -> StoredPlan -> bytes -> S * result EngineError unit
}.

(** ** Readiness *)

Definition standing_blockers (r : ExecutionReadiness) : list ExecutionBlocker :=
  (if negb (authority_paired r) then [NoPairedAuthority] else []) ++
  (match dispatcher r with None => [NoDispatcher] | Some _ => [] end).

Definition is_ready (r : ExecutionReadiness) : bool :=
  match standing_blockers r with [] => true | _ => false end.

Definition blockers_for (r : ExecutionReadiness) (plan : FlashPlanEnvelope) : list ExecutionBlocker :=
  standing_blockers r ++
  match dispatcher r with
  | Some bound =>
      if negb (bool_decide (bound_backend_digest bound = backend_digest (toolchain plan)))
      then [ToolchainDigestMismatch (backend_digest (toolchain plan)) (bound_backend_digest bound)]
      else []
  | None => []
  end.

(** ** The store *)

Section Store.
Context {S : Type} `{PlanStorage S}.

(** [storage] holds the world a call leaves behind; an in-memory store has none. *)
Record PlanStore := mkStore { plans : btree StoredPlan; storage : option S }.

Definition store_new : PlanStore := mkStore [] None.

Definition plan_key (p : StoredPlan) : string := as_str (plan_id (envelope p)).

Definition storage_message (m : string) : EngineError := EnginePlanStorage (Message m).

(** The loop of [open]. *)
Fixpoint open_plans (acc : btree StoredPlan) (loaded : list StoredPlan) :
    result EngineError (btree StoredPlan) :=
  match loaded with
  | [] => Ok acc
  | plan :: loaded =>
      let? _ := map_err EnginePlanStorage (validate plan) in
      match bt_get (plan_key plan) acc with
      | Some _ => Err (storage_message "duplicate sealed plan identifier")
      | None => open_plans (bt_insert (plan_key plan) plan acc) loaded
      end
  end.

Definition store_open (world : S) : result EngineError PlanStore :=
  let (world, loaded) := storage_load world in
  let? loaded := loaded in
  let? plans := open_plans [] loaded in
  Ok (mkStore plans (Some world)).

Definition store_insert (s : PlanStore) (plan : StoredPlan) : PlanStore * result EngineError unit :=
  match map_err EnginePlanStorage (encode plan) with
  | Err e => (s, Err e)
  | Ok written =>
      let owned : result EngineError unit :=
        match bt_get (plan_key plan) (plans s) with
        | Some existing =>
            let? held := map_err EnginePlanStorage (encode existing) in
            if negb (bool_decide (held = written))
            then Err (storage_message "a different sealed plan already owns this identifier")
            else Ok tt
        | None => Ok tt
        end in
      match owned with
      | Err e => (s, Err e)
      | Ok _ =>
          match storage s with
          | Some world =>
              let (world, persisted) := storage_persist world plan written in
              match persisted with
              | Err e => (mkStore (plans s) (Some world), Err e)
              | Ok _ => (mkStore (bt_insert (plan_key plan) plan (plans s)) (Some world), Ok tt)
              end
          | None => (mkStore (bt_insert (plan_key plan) plan (plans s)) None, Ok tt)
          end
      end
  end.

Definition store_get (s : PlanStore) (id : OpaqueId) (expected_digest : Sha256Digest) :
    result EngineError StoredPlan :=
  let? stored := ok_or (bt_get (as_str id) (plans s)) (UnknownPlan (as_str id)) in
  let? recomputed := map_err EnginePlan (recompute_digest (envelope stored)) in
  if negb (bool_decide (recomputed = plan_digest (envelope stored)))
  then Err (StoreCorruption (as_str id) (plan_digest (envelope stored)) recomputed)
  else if negb (bool_decide (plan_digest (envelope stored) = expected_digest))
  then Err (PlanDigestMismatch (as_str id) expected_digest (plan_digest (envelope stored)))
  else
    let? _ := map_err EnginePlanStorage (validate stored) in
    Ok stored.

Definition store_len (s : PlanStore) : Z := zlen (plans s).

Definition store_is_empty (s : PlanStore) : bool := match plans s with [] => true | _ => false end.

(** ** The engine: its one field is the store *)

Definition start_execution (s : PlanStore) (id : OpaqueId) (digest : Sha256Digest)
    (readiness : ExecutionReadiness) : result EngineError StoredPlan :=
  let? stored := store_get s id digest in
  let blockers := blockers_for readiness (envelope stored) in
  if negb (match blockers with [] => true | _ => false end) then Err (ExecutionDisabled blockers)
  else store_get s id digest.

(** ** The store's invariant *)

(** Every plan is valid and filed under its own identifier. *)
Definition store_ok (s : PlanStore) : Prop :=
  bt_ok (plans s) /\
  forall k p, bt_get k (plans s) = Some p -> validate p = Ok tt /\ plan_key p = k.

Lemma store_ok_new : store_ok store_new.
Proof. split; [constructor|]. by intros. Qed.

Lemma bt_get_insert k k' (v : StoredPlan) m :
  bt_get k (bt_insert k' v m) = if bool_decide (k' = k) then Some v else bt_get k m.
Proof. case_bool_decide; [subst; apply bt_get_insert_eq|by apply bt_get_insert_ne]. Qed.

Lemma store_ok_insert m w w' p :
  store_ok (mkStore m w) -> validate p = Ok tt -> store_ok (mkStore (bt_insert (plan_key p) p m) w').
Proof.
  intros [Hbt Hall] Hv. split; [by apply bt_insert_ok|]. cbn [plans] in *. intros k q.
  rewrite bt_get_insert. case_bool_decide; [intros [= <-]; by subst|apply Hall].
Qed.

Lemma store_insert_ok s p : store_ok s -> store_ok (store_insert s p).1.
Proof.
  intros Hs. unfold store_insert. destruct (encode p) as [b|] eqn:E; cbn [map_err]; [|done].
  pose proof E as [Hv _]%encode_Ok.
  destruct (match bt_get (plan_key p) (plans s) with Some _ => _ | None => _ end); [|done].
  destruct s as [m [world|]]; cbn [storage plans]; [|by eapply store_ok_insert].
  destruct (storage_persist world p b) as [world' [[]|]]; cbn; [|done]. by eapply store_ok_insert.
Qed.

Lemma open_plans_ok acc l m w :
  store_ok (mkStore acc w) -> open_plans acc l = Ok m -> store_ok (mkStore m w).
Proof.
  revert acc. induction l as [|p l IH]; intros acc Hacc; cbn [open_plans]; [by intros [= <-]|].
  destruct (validate p) as [[]|] eqn:Hv; cbn [map_err]; [|done].
  destruct (bt_get _ acc); [done|]. apply IH. by eapply store_ok_insert.
Qed.

Lemma store_open_ok world s : store_open world = Ok s -> store_ok s.
Proof.
  unfold store_open. destruct (storage_load world) as [world' [l|]]; [|done].
  destruct (open_plans [] l) as [m|] eqn:E; [|done]. intros [= <-].
  eapply open_plans_ok; [|exact E]. split; [constructor|by intros].
Qed.

(** ** Looking plans up *)

Lemma store_get_cases s id digest :
  store_ok s ->
  store_get s id digest =
    match bt_get (as_str id) (plans s) with
    | None => Err (UnknownPlan (as_str id))
    | Some p =>
        if bool_decide (plan_digest (envelope p) = digest) then Ok p
        else Err (PlanDigestMismatch (as_str id) digest (plan_digest (envelope p)))
    end.
Proof.
  intros [_ Hall]. unfold store_get. destruct (bt_get _ _) as [p|] eqn:E; [|done]. cbn [ok_or].
  destruct (Hall _ _ E) as [Hv _]. pose proof Hv as (_ & Hd & _)%validate_Ok.
  unfold verify_self_digest in Hd. destruct (recompute_digest _) as [d|]; [|done]. cbn [map_err].
  case_bool_decide; cbn [negb] in *; [|done]. case_bool_decide; cbn [negb]; [|done].
  by rewrite Hv.
Qed.

(** A store as the engine builds it: new or opened, then inserted into. *)
Inductive store_reach : PlanStore -> Prop :=
| reach_new : store_reach store_new
| reach_open world s : store_open world = Ok s -> store_reach s
| reach_insert s p : store_reach s -> store_reach (store_insert s p).1.

Lemma store_reach_ok s : store_reach s -> store_ok s.
Proof.
  induction 1; [apply store_ok_new|by eapply store_open_ok|by apply store_insert_ok].
Qed.

Lemma store_get_Ok s id digest p :
  store_ok s ->
  store_get s id digest = Ok p <->
  bt_get (as_str id) (plans s) = Some p /\ plan_digest (envelope p) = digest.
Proof.
  intros Hs. rewrite store_get_cases by done. destruct (bt_get _ _) as [q|]; [|by split; [|intros [? _]]].
  case_bool_decide; split; try done.
  - by intros [= <-].
  - by intros [[= <-] _].
  - by intros [[= <-] ?].
Qed.

(** A plan is served only as asked for: every lookup in a store the engine built
    answers with a valid plan that has exactly the requested identifier and digest,
    reports a missing identifier as unknown, a different digest as a mismatch naming
    the stored one, and never finds its own contents corrupt. *)
Theorem store_get_exact s id digest :
  store_reach s ->
  (forall p, store_get s id digest = Ok p ->
     plan_id (envelope p) = id /\ plan_digest (envelope p) = digest /\ validate p = Ok tt) /\
  (forall e, store_get s id digest = Err e ->
     (e = UnknownPlan (as_str id) /\ bt_get (as_str id) (plans s) = None) \/
     (exists p, bt_get (as_str id) (plans s) = Some p /\ plan_digest (envelope p) <> digest /\
        e = PlanDigestMismatch (as_str id) digest (plan_digest (envelope p)))).
Proof.
  intros Hs%store_reach_ok. split.
  - intros p [Hg Hd]%store_get_Ok; [|done]. destruct Hs as [_ Hall]. destruct (Hall _ _ Hg) as [Hv Hk].
    split_and!; [|done..]. by apply id_eq.
  - rewrite store_get_cases by done. destruct (bt_get _ _) as [p|]; intros e; [|intros [= <-]; by left].
    case_bool_decide; [done|]. intros [= <-]. right. by exists p.
Qed.

(** ** The gate *)

Lemma standing_blockers_nil r :
  standing_blockers r = [] <-> authority_paired r = true /\ exists b, dispatcher r = Some b.
Proof.
  unfold standing_blockers. destruct (authority_paired r), (dispatcher r) as [b|]; cbn; split; try done.
  - intros _. split; [done|by exists b].
  - by intros [_ [? ?]].
  - by intros [? _].
  - by intros [? _].
Qed.

Lemma blockers_for_nil r e :
  blockers_for r e = [] <->
  authority_paired r = true /\
  exists b, dispatcher r = Some b /\ bound_backend_digest b = backend_digest (toolchain e).
Proof.
  unfold blockers_for. split.
  - intros [Hs Ht]%app_eq_nil. apply standing_blockers_nil in Hs as [Ha [b Hb]]. rewrite Hb in Ht.
    split; [done|]. exists b. split; [done|]. by case_bool_decide.
  - intros (Ha & b & Hb & Hd). rewrite (proj2 (standing_blockers_nil r)) by (split; [done|by exists b]).
    rewrite Hb. by rewrite bool_decide_eq_true_2.
Qed.

(** What stands between a plan that wants a toolchain and its execution, in order. *)
Definition in_the_way (r : ExecutionReadiness) (wanted : Sha256Digest) : list ExecutionBlocker :=
  match authority_paired r, dispatcher r with
  | true, Some bound => if decide (bound_backend_digest bound = wanted) then [] else [ToolchainDigestMismatch wanted (bound_backend_digest bound)]
  | true, None => [NoDispatcher]
  | false, Some bound =>
      if decide (bound_backend_digest bound = wanted) then [NoPairedAuthority]
      else [NoPairedAuthority; ToolchainDigestMismatch wanted (bound_backend_digest bound)]
  | false, None => [NoPairedAuthority; NoDispatcher]
  end.

Lemma blockers_for_missing r e : blockers_for r e = in_the_way r (backend_digest (toolchain e)).
Proof.
  unfold blockers_for, standing_blockers, in_the_way. destruct (authority_paired r), (dispatcher r) as [b|]; cbn [negb app]; try done;
    case_bool_decide; by case_decide.
Qed.

(** C23. The execution gate, in every store the engine builds: a plan is handed to a job
    exactly when it is the one stored under the requested identifier, its digest is the
    requested one, an authority is paired and the bound dispatcher has the very toolchain
    digest the plan was made for; it is then valid.  A missing identifier, a digest that
    differs and what stands in the way of execution are refused in that order, the refusal
    naming the stored digest or everything that is missing. *)
Theorem start_execution_iff s id digest r :
  store_reach s ->
  (forall p, start_execution s id digest r = Ok p <->
     bt_get (as_str id) (plans s) = Some p /\ plan_digest (envelope p) = digest /\ authority_paired r = true /\
     exists b, dispatcher r = Some b /\ bound_backend_digest b = backend_digest (toolchain (envelope p))) /\
  (forall p, start_execution s id digest r = Ok p -> plan_id (envelope p) = id /\ validate p = Ok tt) /\
  (forall e, start_execution s id digest r = Err e <->
     match bt_get (as_str id) (plans s) with
     | None => e = UnknownPlan (as_str id)
     | Some p =>
         if decide (plan_digest (envelope p) = digest)
         then let gone := in_the_way r (backend_digest (toolchain (envelope p))) in gone <> [] /\ e = ExecutionDisabled gone
         else e = PlanDigestMismatch (as_str id) digest (plan_digest (envelope p))
     end).
Proof.
  intros Hs%store_reach_ok. unfold start_execution. rewrite (store_get_cases s id digest Hs).
  destruct (bt_get (as_str id) (plans s)) as [p|] eqn:Eg; [|split; [|split]; intros x; [|done|]].
  2: { split; [done|]. by intros [? _]. }
  2: { split; [by intros [= <-]|by intros ->]. }
  destruct Hs as [_ Hall]. destruct (Hall _ _ Eg) as [Hv Hk]. apply id_eq in Hk.
  case_bool_decide as Hd; [|case_decide; [done|]; split; [|split]; intros x; [|done|]].
  2: { split; [done|]. by intros ([= <-] & ? & _). }
  2: { split; [by intros [= <-]|by intros ->]. }
  case_decide as Hd'; [|done]. pose proof (blockers_for_nil r (envelope p)) as Hb. rewrite blockers_for_missing in Hb |- *.
  destruct (in_the_way r _) as [|b bs]; cbn [negb]; split; [|split| |split]; try done.
  - intros x. split; [intros [= <-]|by intros ([= <-] & _)]. destruct (proj1 Hb eq_refl) as [? ?]. by split_and!.
  - by intros x [= <-].
  - intros x. split; [done|]. by intros [? _].
  - intros x. split; [done|]. intros ([= <-] & _ & Hn). discriminate (proj2 Hb Hn).
  - intros x. split; [by intros [= <-]|by intros [_ ->]].
Qed.
End Store.
Arguments PlanStore : clear implicits.

(** Storage that keeps its plans in a list. *)
Definition list_storage : PlanStorage (list StoredPlan) :=
  {| storage_load l := (l, Ok l); storage_persist l p _ := (l ++ [p], Ok tt) |}.

Definition sample_listed : PlanStore (list StoredPlan) := (@store_insert _ list_storage store_new sample_stored).1.

Lemma sample_listed_holds :
  bt_get (as_str (plan_id (envelope sample_stored))) (plans sample_listed) = Some sample_stored.
Proof. vm_compute. reflexivity. Qed.

Lemma store_get_exact_witness :
  @store_reach _ list_storage sample_listed /\
  (forall e, store_get sample_listed (plan_id (envelope sample_stored))
     (plan_digest (envelope sample_stored)) <> Err e).
Proof.
  assert (@store_reach _ list_storage sample_listed) as Hs by (apply reach_insert, reach_new).
  split; [exact Hs|]. intros e He.
  destruct (proj2 (@store_get_exact _ list_storage sample_listed
    (plan_id (envelope sample_stored)) (plan_digest (envelope sample_stored)) Hs) e He)
    as [[_ H]|(p & H & Hne & _)].
  - rewrite sample_listed_holds in H. discriminate H.
  - rewrite sample_listed_holds in H. injection H as H. apply Hne. rewrite H. reflexivity.
Defined.

Definition sample_readiness : ExecutionReadiness :=
  mkReadiness true (Some (mkBound (mkId "dispatcher") (backend_digest (toolchain (envelope sample_stored))))).

Lemma start_execution_iff_witness :
  @store_reach _ list_storage sample_listed /\
  start_execution sample_listed (plan_id (envelope sample_stored)) (plan_digest (envelope sample_stored)) sample_readiness =
    Ok sample_stored.
Proof.
  assert (@store_reach _ list_storage sample_listed) as Hs by (apply reach_insert, reach_new).
  split; [exact Hs|].
  apply (proj1 (@start_execution_iff _ list_storage sample_listed _ (plan_digest (envelope sample_stored)) sample_readiness Hs)).
  split; [exact sample_listed_holds|]. split; [reflexivity|]. split; [reflexivity|].
  eexists. split; reflexivity.
Defined.

(** ** The contract of host storage *)

(** [sound]: what the storage is made of is intact; [committed w k b]: the encoding [b] is
    kept for the plan [k], across crashes; [settled]: what there is under a plan's name, if
    anything, is committed; [crash]: the worlds a crash may leave;
    [faultless]: no call of a load fails. *)
Class PlanStorageLaws (S : Type) `{PlanStorage S} := {
  sound : S -> Prop;
  committed : S -> string -> bytes -> Prop;
  settled : S -> StoredPlan -> Prop;
  crash : S -> S -> Prop;
  faultless : S -> Prop;
  load_sound w : sound w -> sound (storage_load w).1;
  load_keeps w k b : sound w -> committed w k b -> committed (storage_load w).1 k b;
  load_typed w l : sound w -> (storage_load w).2 = Ok l -> Forall stored_plan_ok l;
  load_committed w l k b : sound w -> (storage_load w).2 = Ok l -> committed w k b ->
    exists p, p ∈ l /\ plan_key p = k /\ encode p = Ok b;
  load_total w : sound w -> faultless w ->
    exists l, (storage_load w).2 = Ok l /\ NoDup (map plan_key l) /\
              Forall (fun p => validate p = Ok tt) l;
  persist_sound w p b : sound w -> stored_plan_ok p -> encode p = Ok b ->
    sound (storage_persist w p b).1;
  persist_keeps w p b k c : sound w -> stored_plan_ok p -> encode p = Ok b -> committed w k c ->
    committed (storage_persist w p b).1 k c;
  persist_commits w p b : sound w -> stored_plan_ok p -> encode p = Ok b -> settled w p ->
    (storage_persist w p b).2 = Ok tt -> committed (storage_persist w p b).1 (plan_key p) b;
  crash_sound w w' : sound w -> crash w w' -> sound w';
  crash_keeps w w' k b : sound w -> crash w w' -> committed w k b -> committed w' k b
}.

Section Durable.
Context {S : Type} `{PlanStorageLaws S}.

(** The life of a daemon's store: opened, inserted into, and reopened after a crash or a
    restart.  The list holds the plans whose insertion was acknowledged, less those that were
    inserted over what an earlier failure had left of them. *)
Inductive history : PlanStore S -> list StoredPlan -> Prop :=
| history_open w s : sound w -> store_open w = Ok s -> history s []
| history_insert s acks p w s' : history s acks -> stored_plan_ok p -> storage s = Some w -> settled w p ->
    store_insert s p = (s', Ok tt) -> history s' (p :: acks)
| history_retried s acks p s' : history s acks -> stored_plan_ok p ->
    store_insert s p = (s', Ok tt) -> history s' acks
| history_refused s acks p s' e : history s acks -> stored_plan_ok p ->
    store_insert s p = (s', Err e) -> history s' acks
| history_restart s acks w w' s' : history s acks -> storage s = Some w -> crash w w' ->
    store_open w' = Ok s' -> history s' acks.

(** What the history maintains. *)
Definition kept (s : PlanStore S) (w : S) (p : StoredPlan) : Prop :=
  exists b q, encode p = Ok b /\ committed w (plan_key p) b /\
    bt_get (plan_key p) (plans s) = Some q /\ encode q = Ok b.

Definition durable_ok (s : PlanStore S) (acks : list StoredPlan) : Prop :=
  store_ok s /\ (forall k q, bt_get k (plans s) = Some q -> stored_plan_ok q) /\
  Forall stored_plan_ok acks /\
  exists w, storage s = Some w /\ sound w /\ Forall (kept s w) acks.

Lemma open_plans_get acc l m :
  open_plans acc l = Ok m ->
  (forall k p, bt_get k m = Some p -> bt_get k acc = Some p \/ p ∈ l) /\
  (forall k p, bt_get k acc = Some p -> bt_get k m = Some p) /\
  (forall p, p ∈ l -> bt_get (plan_key p) m = Some p).
Proof.
  revert acc. induction l as [|p l IH]; intros acc; cbn [open_plans].
  { intros [= <-]. split_and!; [by left|done|by intros ? []%elem_of_nil]. }
  destruct (validate p) as [[]|]; cbn [map_err]; [|done].
  destruct (bt_get (plan_key p) acc) eqn:Eg; [done|]. intros (H1 & H2 & H3)%IH. split_and!.
  - intros k q Hq. destruct (H1 k q Hq) as [Hi|Hi]; [|right; by right].
    rewrite bt_get_insert in Hi. case_bool_decide; [injection Hi as <-; right; by left|by left].
  - intros k q Hq. apply H2. rewrite bt_get_insert. case_bool_decide; [congruence|done].
  - intros q [->|Hq]%elem_of_cons; [|by apply H3]. apply H2. apply bt_get_insert_eq.
Qed.

Lemma store_open_keeps w s acks :
  sound w -> store_open w = Ok s -> Forall stored_plan_ok acks ->
  Forall (fun p => exists b, encode p = Ok b /\ committed w (plan_key p) b) acks -> durable_ok s acks.
Proof.
  intros Hw Ho Hty Hack. split; [by eapply store_open_ok|]. unfold store_open in Ho.
  pose proof (load_sound w Hw) as Hs. pose proof (load_keeps w) as Hk.
  pose proof (load_typed w) as Ht. pose proof (load_committed w) as Hc.
  destruct (storage_load w) as [w' [l|]] eqn:El; [|done]. cbn in Hs, Hk, Ht, Hc.
  destruct (open_plans [] l) as [m|] eqn:Em; [|done]. injection Ho as <-.
  destruct (open_plans_get _ _ _ Em) as (Hfrom & _ & Hget). cbn [plans storage].
  specialize (Ht l Hw eq_refl). rewrite Forall_forall in Ht.
  split_and!; [|done|].
  - intros k q Hq. destruct (Hfrom k q Hq) as [?|?]; [done|by apply Ht].
  - exists w'. split_and!; [done..|]. eapply Forall_impl; [exact Hack|].
    intros p (b & Hb & Hcom). destruct (Hc l _ _ Hw eq_refl Hcom) as (q & Hin & Hkey & Hq).
    exists b, q. split_and!; [done|by apply Hk|by rewrite <- Hkey; apply Hget|done].
Qed.

Lemma kept_persist s w p q b :
  sound w -> stored_plan_ok p -> encode p = Ok b -> kept s w q ->
  kept (mkStore (plans s) (Some (storage_persist w p b).1)) (storage_persist w p b).1 q.
Proof.
  intros Hw Hp Hb (c & r & Hc & Hcom & Hg & Hr). exists c, r.
  split_and!; [done|by apply persist_keeps|done..].
Qed.

Lemma insert_keeps s acks p s' r :
  durable_ok s acks -> stored_plan_ok p -> store_insert s p = (s', r) ->
  durable_ok s' acks /\ (r = Ok tt -> forall w, storage s = Some w -> settled w p -> durable_ok s' (p :: acks)).
Proof.
  intros (Hs & Hty & Hacks & w & Hw & Hsound & Hkept) Hp Hins.
  pose proof (store_insert_ok s p Hs) as Hs'. rewrite Hins in Hs'. cbn [fst] in Hs'.
  unfold store_insert in Hins. destruct (encode p) as [b|] eqn:Eb; cbn [map_err] in Hins.
  2: { injection Hins as <- <-. split; [|done]. split_and!; [done..|by exists w]. }
  set (owned := match bt_get (plan_key p) (plans s) with Some _ => _ | None => _ end) in Hins.
  assert (owned = Ok tt -> forall q, bt_get (plan_key p) (plans s) = Some q -> encode q = Ok b) as Howned.
  { unfold owned. intros Ho q Hq. rewrite Hq in Ho. destruct (encode q) as [c|]; [|done].
    cbn [map_err] in Ho. case_bool_decide; [congruence|done]. }
  destruct owned as [[]|]; [|injection Hins as <- <-; split; [|done]; split_and!; [done..|by exists w]].
  specialize (Howned eq_refl). rewrite Hw in Hins.
  pose proof (persist_sound w p b Hsound Hp Eb) as Hsound'.
  pose proof (persist_commits w p b Hsound Hp Eb) as Hcommit.
  pose proof (fun q => kept_persist s w p q b Hsound Hp Eb) as Hkp.
  destruct (storage_persist w p b) as [w' [[]|]]; cbn [fst snd] in *; injection Hins as <- <-.
  - assert (Forall (kept (mkStore (bt_insert (plan_key p) p (plans s)) (Some w')) w') acks) as Hall.
    { eapply Forall_impl; [exact Hkept|]. intros q Hq.
      destruct (Hkp q Hq) as (c & r & Hc & Hcom & Hg & Hr). cbn [plans] in Hg.
      destruct (decide (plan_key p = plan_key q)) as [Hk|Hk].
      - rewrite <- Hk in Hg. specialize (Howned r Hg).
        exists c, p. split_and!; [done..|cbn [plans]; rewrite Hk; apply bt_get_insert_eq|congruence].
      - exists c, r. split_and!; [done..| |done]. cbn [plans]. by rewrite bt_get_insert_ne. }
    assert (forall k q, bt_get k (bt_insert (plan_key p) p (plans s)) = Some q -> stored_plan_ok q) as Htys.
    { intros k q. rewrite bt_get_insert. case_bool_decide; [by intros [= <-]|apply Hty]. }
    split.
    + split; [done|]. split; [done|]. split; [done|]. by exists w'.
    + intros _ w0 Hw0 Hset. rewrite Hw in Hw0. injection Hw0 as <-. split; [done|]. split; [done|]. split; [by constructor|].
      exists w'. split_and!; [done..|]. constructor; [|done].
      exists b, p. split_and!; [done|by apply Hcommit| |done]. apply bt_get_insert_eq.
  - split; [|done]. split; [done|]. cbn [plans storage]. split_and!; [done..|]. exists w'. split_and!; [done..|].
    eapply Forall_impl; [exact Hkept|]. intros q Hq. by apply Hkp.
Qed.

Lemma history_ok s acks : history s acks -> durable_ok s acks.
Proof.
  induction 1 as [w s Hw Ho|s acks p w s' _ IH Hp Hw Hset Hi|s acks p s' _ IH Hp Hi|s acks p s' e _ IH Hp Hi|s acks w w' s' _ IH Hw Hc Ho].
  - by eapply store_open_keeps; [exact Hw|done|constructor|constructor].
  - by apply (proj2 (insert_keeps _ _ _ _ _ IH Hp Hi) eq_refl w).
  - exact (proj1 (insert_keeps _ _ _ _ _ IH Hp Hi)).
  - exact (proj1 (insert_keeps _ _ _ _ _ IH Hp Hi)).
  - destruct IH as (_ & _ & Hty & w0 & Hw0 & Hsound & Hkept). rewrite Hw in Hw0. injection Hw0 as <-.
    eapply store_open_keeps; [by eapply crash_sound|done..|].
    eapply Forall_impl; [exact Hkept|]. intros p (b & q & Hb & Hcom & _).
    exists b. split; [done|]. by eapply crash_keeps.
Qed.

(** Through any history, every acknowledged plan is served; and a restart whose reads
    succeed comes back. *)
Lemma acknowledged_plans_served s acks :
  history s acks ->
  (forall p, p ∈ acks ->
     exists q r, store_get s (plan_id (envelope p)) (plan_digest (envelope p)) = Ok q /\
       plan_same p r /\ plan_same q r) /\
  (forall w w', storage s = Some w -> crash w w' -> faultless w' -> exists s', store_open w' = Ok s').
Proof.
  intros (Hs & Hty & Hacks & w & Hw & Hsound & Hkept)%history_ok. split.
  - intros p Hp. rewrite Forall_forall in Hkept, Hacks.
    destruct (Hkept p Hp) as (b & q & Hb & _ & Hg & Hq). specialize (Hacks p Hp). pose proof (Hty _ _ Hg) as Hqt.
    destruct (encode_inj p q b Hacks Hqt Hb Hq) as (r & Hpr & Hqr). exists q, r. split; [|done].
    apply store_get_Ok; [done|]. split; [done|].
    by destruct (encode_same_digest p q b Hacks Hqt Hb Hq) as [-> _].
  - intros w0 w' Hw0 Hc Hf. rewrite Hw in Hw0. injection Hw0 as <-.
    destruct (load_total w' (crash_sound w w' Hsound Hc) Hf) as (l & Hl & Hnd & Hval).
    unfold store_open. destruct (storage_load w') as [w2 r]. cbn in Hl. subst r.
    assert (forall acc, Forall (fun p => bt_get (plan_key p) acc = None) l ->
      exists m, open_plans acc l = Ok m) as Hopen.
    { clear -Hnd Hval. induction Hval as [|p l Hv _ IH]; intros acc Hacc; [by exists acc|].
      cbn [open_plans]. apply Forall_cons in Hacc as [Hp Hacc]. rewrite Hv. cbn [map_err]. rewrite Hp.
      cbn [map] in Hnd. apply NoDup_cons in Hnd as [Hp' Hnd]. apply IH; [done|].
      apply Forall_forall. intros q Hq. rewrite Forall_forall in Hacc.
      rewrite bt_get_insert_ne; [by apply Hacc|]. intros Heq. apply Hp'. rewrite Heq.
      by apply list_elem_of_fmap_2. }
    destruct (Hopen []) as [m ->]; [by apply Forall_true|]. by eexists.
Qed.
End Durable.
