(* ===== verification/PlanFiles.v ===== *)
(** * Sealed plans on disk (cmd/arkforged/src/plan_storage.rs)

    The daemon's [PlanStorage]: one immutable file per plan, written under a pending name,
    synced, published by a hard link and committed by a directory sync.  The model keeps
    for every file what a crash can take away: bytes no [sync_all] has covered, and names
    no [sync_directory] has covered. *)

From S2P Require Import Prelude Cbor Sha256 Digest Fields Journal Authority Job Identity Effect FlashStep.
From S2P Require Import Projection Plan PlanCodec PlanSound Engine.

(** ** The disk *)

(** A directory entry: whether it is a plain file, its bytes, whether a [sync_all] covers
    them and whether a [sync_directory] covers the name. *)
Record Entry := mkEntry { e_plain : bool; e_bytes : bytes; e_synced : bool; e_linked : bool }.

(** What the operating system does to a call: it may fail, after a write took [n] bytes,
    or the machine may stop there. *)
Inductive Fault : Type := Fails (n : nat) | Stops (n : nat).

(** The plan directory, the faults still to come ([None]: the call works), the answers of
    the random source and whether the machine runs. *)
Record Disk := mkDisk {
  d_root_plain : bool;
  d_files : list (string * Entry);
  d_faults : list (option Fault);
  d_nonces : list bytes;
  d_running : bool
}.

Definition with_files (w : Disk) (files : list (string * Entry)) : Disk :=
  mkDisk (d_root_plain w) files (d_faults w) (d_nonces w) (d_running w).

Definition io (A : Type) : Type := Disk -> Disk * result EngineError A.

Definition ret {A} (a : A) : io A := fun w => (w, Ok a).
Definition fail {A} (message : string) : io A := fun w => (w, Err (EnginePlanStorage (Message message))).
Definition bind {A B} (m : io A) (k : A -> io B) : io B := fun w =>
  match m w with (w, Ok a) => k a w | (w, Err e) => (w, Err e) end.
Notation "'let!' x ':=' m 'in' k" := (bind m (fun x => k))
  (at level 10, x pattern, m at level 200, k at level 200,
   format "'[v' 'let!'  x  ':='  m  'in' '/' k ']'").

(** The text of an operating system error. *)
Definition os_error : string := "operating system error".

(** One call: [Ok] if it works, else the number of bytes a write took. *)
Definition call (w : Disk) : Disk * option nat :=
  let next faults running :=
    mkDisk (d_root_plain w) (d_files w) faults (d_nonces w) running in
  if negb (d_running w) then (w, Some O)
  else
    match d_faults w with
    | [] => (w, None)
    | None :: faults => (next faults true, None)
    | Some (Fails n) :: faults => (next faults true, Some n)
    | Some (Stops n) :: faults => (next faults false, Some n)
    end.

Definition attempt : io unit := fun w =>
  match call w with
  | (w, None) => (w, Ok tt)
  | (w, Some _) => (w, Err (EnginePlanStorage (Message os_error)))
  end.

Definition file_at (files : list (string * Entry)) (name : string) : option Entry :=
  snd <$> List.find (fun f => String.eqb f.1 name) files.

Definition file_set (files : list (string * Entry)) (name : string) (e : Entry) : list (string * Entry) :=
  map (fun f => if String.eqb f.1 name then (name, e) else f) files.

Definition file_delete (files : list (string * Entry)) (name : string) : list (string * Entry) :=
  List.filter (fun f => negb (String.eqb f.1 name)) files.

(** ** Names *)

(** [Path::extension] of a plain file name: what follows the last dot, unless nothing
    precedes it. *)
Fixpoint last_dot (l : bytes) : option (bytes * bytes) :=
  match l with
  | [] => None
  | b :: l =>
      match last_dot l with
      | Some (stem, extension) => Some (b :: stem, extension)
      | None => if b =? 46 then Some ([], l) else None
      end
  end.

Definition extension (name : string) : option bytes :=
  match last_dot (bytes_of_string name) with
  | Some ([], _) | None => None
  | Some (_, extension) => Some extension
  end.

Definition is_extension (name : string) (wanted : string) : bool :=
  bool_decide (extension name = Some (bytes_of_string wanted)).

Definition key_filename (key : string) : string :=
  to_hex (sha256 (bytes_of_string key)) +:+ ".cbor".

Definition filename (plan : StoredPlan) : string := key_filename (plan_key plan).

(** ** The calls of the source *)

Definition plain_message : string := "private plan storage requires plain files and directories".

Definition require_plain_root : io unit :=
  let! _ := attempt in
  fun w => if negb (d_root_plain w) then fail plain_message w else ret tt w.

Definition require_plain (path : string) : io unit :=
  let! _ := attempt in
  fun w => match file_at (d_files w) path with
           | None => fail os_error w
           | Some e => if negb (e_plain e) then fail plain_message w else ret tt w
           end.

Definition read_entry (path : string) : io bytes :=
  let! _ := require_plain path in
  let! _ := attempt in
  let! _ := attempt in
  fun w => match file_at (d_files w) path with
           | None => fail os_error w
           | Some e =>
               if MAX_BYTES <? zlen (e_bytes e)
               then fail "private plan exceeds the storage size bound" w
               else
                 (let! _ := attempt in
                  let taken := take (Z.to_nat (MAX_BYTES + 1)) (e_bytes e) in
                  if MAX_BYTES <? zlen taken
                  then fail "private plan grew beyond the storage size bound"
                  else ret taken) w
           end.

(** The body of the loop of [open]; [None] for a skipped entry. *)
Definition open_entry (path : string) : io (option StoredPlan) :=
  let! _ := attempt in
  let! _ := require_plain path in
  if is_extension path "pending" then ret None
  else if negb (is_extension path "cbor") then fail "unrecognized file in private plan storage"
  else
    let! stored := read_entry path in
    fun w => match from_storage_bytes stored with
             | Err e => (w, Err e)
             | Ok plan =>
                 if negb (String.eqb path (filename plan))
                 then fail "private plan filename does not match its sealed identifier" w
                 else (let! _ := attempt in ret (Some plan)) w
             end.

Fixpoint open_entries (paths : list string) : io (list StoredPlan) :=
  match paths with
  | [] => ret []
  | path :: paths =>
      let! plan := open_entry path in
      let! plans := open_entries paths in
      ret (match plan with Some plan => plan :: plans | None => plans end)
  end.

Definition open : io (list StoredPlan) :=
  let! _ := attempt in
  let! _ := require_plain_root in
  let! _ := attempt in
  let! _ := attempt in
  fun w => open_entries (map fst (d_files w)) w.

Definition verify_existing (path : string) (stored : bytes) : io unit :=
  let! held := read_entry path in
  if negb (bool_decide (held = stored))
  then fail "a different sealed plan already owns this identifier"
  else ret tt.

(** [fill_random] for a 32-byte nonce. *)
Definition fill_random : io bytes :=
  let! _ := attempt in
  fun w => match d_nonces w with
           | [] => (w, Ok (replicate 32 0))
           | nonce :: nonces =>
               (mkDisk (d_root_plain w) (d_files w) (d_faults w) nonces (d_running w), Ok nonce)
           end.

Definition create_new (path : string) : io unit :=
  let! _ := attempt in
  fun w => match file_at (d_files w) path with
           | Some _ => fail os_error w
           | None => (with_files w (d_files w ++ [(path, mkEntry true [] false false)]), Ok tt)
           end.

Definition write_all (path : string) (stored : bytes) : io unit := fun w =>
  match call w with
  | (w, None) => (with_files w (file_set (d_files w) path (mkEntry true stored false false)), Ok tt)
  | (w, Some n) =>
      (with_files w (file_set (d_files w) path (mkEntry true (take n stored) false false)),
       Err (EnginePlanStorage (Message os_error)))
  end.

Definition sync_file (path : string) : io unit :=
  let! _ := attempt in
  fun w => match file_at (d_files w) path with
           | None => fail os_error w
           | Some e =>
               (with_files w (file_set (d_files w) path (mkEntry true (e_bytes e) true (e_linked e))), Ok tt)
           end.

(** [hard_link], whose [AlreadyExists] is checked against the existing file. *)
Definition publish (temporary target : string) (stored : bytes) : io unit :=
  let! _ := attempt in
  fun w => match file_at (d_files w) target, file_at (d_files w) temporary with
           | Some _, _ => verify_existing target stored w
           | None, None => fail os_error w
           | None, Some e =>
               (with_files w (d_files w ++ [(target, mkEntry true (e_bytes e) (e_synced e) false)]), Ok tt)
           end.

Definition sync_directory : io unit :=
  let! _ := attempt in
  fun w => (with_files w (map (fun f => (f.1, mkEntry (e_plain f.2) (e_bytes f.2) (e_synced f.2) true)) (d_files w)), Ok tt).

(** [let _ = fs::remove_file(temporary)]. *)
Definition remove_file (path : string) (w : Disk) : Disk :=
  match call w with
  | (w, None) => with_files w (file_delete (d_files w) path)
  | (w, Some _) => w
  end.

Definition persist (plan : StoredPlan) (stored : bytes) : io unit :=
  let! _ := require_plain_root in
  let target := filename plan in
  let! _ := attempt in
  fun w => match file_at (d_files w) target with
           | Some _ => verify_existing target stored w
           | None =>
               (let! nonce := fill_random in
                let temporary := to_hex (sha256 nonce) +:+ ".pending" in
                let! _ := create_new temporary in
                fun w =>
                  let '(w, r) := (let! _ := attempt in
                                  let! _ := write_all temporary stored in
                                  let! _ := sync_file temporary in
                                  let! _ := publish temporary target stored in
                                  sync_directory) w in
                  (remove_file temporary w, r)) w
           end.

#[global] Instance file_storage : PlanStorage Disk := {
  storage_load := open;
  storage_persist w plan stored := persist plan stored w
}.

(** ** Names tell pending files from plans *)

Lemma last_dot_app stem ext :
  46 ∉ ext -> last_dot (stem ++ 46 :: ext) = Some (stem, ext).
Proof.
  intros Hext. assert (last_dot ext = None) as He.
  { induction ext as [|b ext IH]; [done|]. apply not_elem_of_cons in Hext as [Hb Hext]. cbn [last_dot].
    rewrite IH by done. destruct (Z.eqb_spec b 46); [by subst|done]. }
  induction stem as [|b stem IH]; cbn [app last_dot]; [by rewrite He|by rewrite IH].
Qed.

Lemma hex_name_nonempty d : digest_ok d -> bytes_of_string (to_hex d) <> [].
Proof.
  intros [Hl _] Hnil. unfold to_hex in Hnil. destruct (digest_bytes d) as [|b l]; [done|].
  cbn [flat_map app] in Hnil. unfold string_of_bytes, bytes_of_string in Hnil. cbn in Hnil. done.
Qed.

Lemma extension_of (stem dotted ext : string) :
  bytes_of_string stem <> [] -> bytes_of_string dotted = 46 :: bytes_of_string ext ->
  46 ∉ bytes_of_string ext -> extension (stem +:+ dotted) = Some (bytes_of_string ext).
Proof.
  intros Hstem Hdot Hext. unfold extension. rewrite bytes_of_string_app, Hdot, last_dot_app by done.
  by destruct (bytes_of_string stem).
Qed.

Lemma key_filename_cbor k : extension (key_filename k) = Some (bytes_of_string "cbor").
Proof.
  apply extension_of; [apply hex_name_nonempty, sha256_ok|reflexivity|].
  apply (bool_decide_unpack _). vm_compute. exact I.
Qed.

Lemma pending_name_pending nonce :
  extension (to_hex (sha256 nonce) +:+ ".pending") = Some (bytes_of_string "pending").
Proof.
  apply extension_of; [apply hex_name_nonempty, sha256_ok|reflexivity|].
  apply (bool_decide_unpack _). vm_compute. exact I.
Qed.

Definition is_pending (name : string) : bool := is_extension name "pending".

Lemma key_filename_not_pending k : is_pending (key_filename k) = false.
Proof. unfold is_pending, is_extension. rewrite key_filename_cbor. by apply bool_decide_eq_false. Qed.

Lemma key_filename_is_cbor k : is_extension (key_filename k) "cbor" = true.
Proof. unfold is_extension. rewrite key_filename_cbor. by apply bool_decide_eq_true. Qed.

Lemma pending_name_is_pending nonce : is_pending (to_hex (sha256 nonce) +:+ ".pending") = true.
Proof. unfold is_pending, is_extension. rewrite pending_name_pending. by apply bool_decide_eq_true. Qed.

(** ** Files by name *)

Lemma file_at_elem files n e : NoDup (map fst files) -> (n, e) ∈ files <-> file_at files n = Some e.
Proof.
  unfold file_at. induction files as [|[m f] files IH]; cbn; intros Hnd.
  - split; [by intros ?%elem_of_nil|done].
  - apply NoDup_cons in Hnd as [Hm Hnd]. rewrite elem_of_cons. destruct (String.eqb_spec m n) as [->|Hne]; cbn.
    + split; [|intros [= ->]; by left]. intros [[= ->]|Hin]; [done|]. destruct Hm.
      apply list_elem_of_fmap. by exists (n, e).
    + rewrite <- IH by done. split; [intros [[= <- <-]|?]; done|by right].
Qed.

Lemma file_at_None files n : file_at files n = None <-> n ∉ map fst files.
Proof.
  unfold file_at. induction files as [|[m f] files IH]; cbn; [split; [by intros _ ?%elem_of_nil|done]|].
  rewrite not_elem_of_cons. destruct (String.eqb_spec m n) as [->|Hne]; cbn; [|rewrite IH; naive_solver].
  split; [done|]. intros [? _]. done.
Qed.

Lemma file_at_app files files' n :
  file_at (files ++ files') n = match file_at files n with Some e => Some e | None => file_at files' n end.
Proof.
  unfold file_at. induction files as [|[m f] files IH]; cbn; [done|]. by destruct (String.eqb m n).
Qed.

Lemma file_set_names files n e : map fst (file_set files n e) = map fst files.
Proof.
  unfold file_set. rewrite map_map. apply map_ext. intros [m f]. cbn. by destruct (String.eqb_spec m n).
Qed.

Lemma file_at_set files n e m :
  file_at (file_set files n e) m =
    match file_at files m with Some f => Some (if String.eqb m n then e else f) | None => None end.
Proof.
  unfold file_at, file_set. induction files as [|[k f] files IH]; [done|]. cbn [map List.find fst].
  destruct (String.eqb_spec k n) as [->|Hkn]; cbn [fst].
  - destruct (String.eqb_spec n m) as [->|Hnm]; cbn; [by rewrite String.eqb_refl|done].
  - destruct (String.eqb_spec k m) as [->|Hkm]; cbn; [|done].
    by rewrite ?(proj2 (String.eqb_neq m n) Hkn).
Qed.

Lemma file_at_delete files n m :
  file_at (file_delete files n) m = if String.eqb m n then None else file_at files m.
Proof.
  unfold file_at, file_delete. induction files as [|[k f] files IH]; cbn; [by destruct (String.eqb m n)|].
  destruct (String.eqb_spec k n) as [->|Hkn]; cbn.
  - rewrite IH. destruct (String.eqb m n) eqn:E; [done|]. by rewrite String.eqb_sym, E.
  - destruct (String.eqb_spec k m) as [<-|Hkm]; cbn; [|done]. by rewrite (proj2 (String.eqb_neq k n) Hkn).
Qed.

Lemma file_delete_names files n : NoDup (map fst files) -> NoDup (map fst (file_delete files n)).
Proof.
  unfold file_delete. induction files as [|[k f] files IH]; cbn; [done|]. intros [Hk Hnd]%NoDup_cons.
  destruct (negb _); [|auto]. cbn. constructor; [|auto]. intros (x & Hx & Hin)%list_elem_of_fmap.
  apply list_elem_of_In, filter_In in Hin as [Hin _]. apply Hk. rewrite Hx.
  apply list_elem_of_fmap. exists x. split; [done|]. by apply list_elem_of_In.
Qed.

(** ** Reading leaves the files alone *)

(** [w'] is [w] after calls that change no file. *)
Definition later (w w' : Disk) : Prop :=
  d_files w' = d_files w /\ d_root_plain w' = d_root_plain w /\
  (d_running w' = true -> d_running w = true) /\ (d_faults w = [] -> d_faults w' = []).

Lemma later_refl w : later w w.
Proof. by split_and!. Qed.

Lemma later_trans w1 w2 w3 : later w1 w2 -> later w2 w3 -> later w1 w3.
Proof.
  intros (A1 & B1 & C1 & D1) (A2 & B2 & C2 & D2). split_and!; [congruence..|auto|auto].
Qed.

Definition reading {A} (m : io A) : Prop := forall w, later w (m w).1.

Lemma reading_bind {A B} (m : io A) (k : A -> io B) :
  reading m -> (forall a, reading (k a)) -> reading (bind m k).
Proof.
  intros Hm Hk w. unfold bind. specialize (Hm w). destruct (m w) as [w' [a|e]]; [|done].
  by eapply later_trans; [exact Hm|apply Hk].
Qed.

Lemma reading_ret {A} (a : A) : reading (ret a).
Proof. intros w. apply later_refl. Qed.

Lemma reading_fail {A} m : reading (A := A) (fail m).
Proof. intros w. apply later_refl. Qed.

Lemma call_later w : later w (call w).1.
Proof.
  unfold call. destruct (negb (d_running w)) eqn:Hr; [apply later_refl|]. breflect.
  unfold later. destruct (d_faults w) as [|[[n|n]|] fs] eqn:Ef; cbn; by rewrite ?Ef.
Qed.

Lemma reading_attempt : reading attempt.
Proof. intros w. unfold attempt. pose proof (call_later w). by destruct (call w) as [w' [n|]]. Qed.

Create HintDb reading.
#[export] Hint Resolve reading_bind reading_ret reading_fail reading_attempt later_refl : reading.

Lemma reading_require_plain_root : reading require_plain_root.
Proof. apply reading_bind; [auto with reading|]. intros _ w. case_goal; apply later_refl. Qed.

Lemma reading_require_plain p : reading (require_plain p).
Proof. apply reading_bind; [auto with reading|]. intros _ w. repeat case_goal; apply later_refl. Qed.

#[export] Hint Resolve reading_require_plain_root reading_require_plain : reading.

Lemma reading_read_entry p : reading (read_entry p).
Proof.
  repeat (apply reading_bind; [auto with reading|intros _]). intros w.
  destruct (file_at (d_files w) p) as [e|]; [|apply later_refl].
  destruct (MAX_BYTES <? zlen (e_bytes e)); [apply later_refl|]. refine (reading_bind _ _ _ _ w); [auto with reading|].
  intros _. cbv zeta. match goal with |- context [if ?c then _ else _] => destruct c end; auto with reading.
Qed.
#[export] Hint Resolve reading_read_entry : reading.

Lemma reading_open_entry p : reading (open_entry p).
Proof.
  repeat (apply reading_bind; [auto with reading|intros _]).
  destruct (is_extension p "pending"); [auto with reading|]. destruct (negb _); [auto with reading|].
  apply reading_bind; [auto with reading|]. intros stored w.
  destruct (from_storage_bytes stored) as [plan|]; [|apply later_refl].
  destruct (negb _); [apply later_refl|]. refine (reading_bind _ _ _ _ w); auto with reading.
Qed.
#[export] Hint Resolve reading_open_entry : reading.

Lemma reading_open_entries ps : reading (open_entries ps).
Proof.
  induction ps as [|p ps IH]; cbn [open_entries]; [auto with reading|].
  apply reading_bind; [auto with reading|]. intros plan. apply reading_bind; auto with reading.
Qed.

Lemma reading_open : reading open.
Proof.
  repeat (apply reading_bind; [auto with reading|intros _]). intros w. apply reading_open_entries.
Qed.

Lemma reading_verify p b : reading (verify_existing p b).
Proof. apply reading_bind; [auto with reading|]. intros held. case_goal; auto with reading. Qed.

Lemma reading_fill_random : reading fill_random.
Proof.
  apply reading_bind; [auto with reading|]. intros _ w. destruct (d_nonces w); by split_and!.
Qed.
#[export] Hint Resolve reading_open_entries reading_open reading_verify reading_fill_random : reading.

(** ** What reading returns *)

Lemma io_bind_Ok {A B} (m : io A) (k : A -> io B) w w' b :
  bind m k w = (w', Ok b) -> exists w1 a, m w = (w1, Ok a) /\ k a w1 = (w', Ok b).
Proof. unfold bind. destruct (m w) as [w1 [a|e]]; [|done]. intros H. by exists w1, a. Qed.

Lemma reading_files {A} (m : io A) w w' r : reading m -> m w = (w', r) -> d_files w' = d_files w.
Proof. intros Hm H. specialize (Hm w). rewrite H in Hm. apply Hm. Qed.

Lemma take_all (b : bytes) : zlen b <= MAX_BYTES -> take (Z.to_nat (MAX_BYTES + 1)) b = b.
Proof. intros H. apply take_ge. unfold zlen, MAX_BYTES in *. lia. Qed.

Lemma read_entry_Ok p w w' b :
  read_entry p w = (w', Ok b) ->
  exists e, file_at (d_files w) p = Some e /\ e_bytes e = b /\ zlen b <= MAX_BYTES.
Proof.
  unfold read_entry. intros (w1 & [] & H1 & (w2 & [] & H2 & (w3 & [] & H3 & H)%io_bind_Ok)%io_bind_Ok)%io_bind_Ok.
  rewrite <- (reading_files _ _ _ _ (reading_require_plain p) H1),
    <- (reading_files _ _ _ _ reading_attempt H2), <- (reading_files _ _ _ _ reading_attempt H3).
  destruct (file_at (d_files w3) p) as [e|]; [|done]. exists e. split; [done|].
  destruct (Z.ltb_spec MAX_BYTES (zlen (e_bytes e))) as [|Hl]; [done|].
  apply io_bind_Ok in H as (w4 & [] & _ & H). rewrite take_all in H by done.
  destruct (Z.ltb_spec MAX_BYTES (zlen (e_bytes e))); [lia|]. by injection H as <- <-.
Qed.

Lemma open_entry_Ok p w w' r :
  open_entry p w = (w', Ok r) ->
  exists e, file_at (d_files w) p = Some e /\
  match r with
  | None => is_pending p = true
  | Some plan => is_pending p = false /\ decode (e_bytes e) = Ok plan /\ p = filename plan
  end.
Proof.
  unfold open_entry. intros (w1 & [] & H1 & (w2 & [] & H2 & H)%io_bind_Ok)%io_bind_Ok. fold (is_pending p) in H.
  pose proof (reading_files _ _ _ _ reading_attempt H1) as F1.
  pose proof (reading_files _ _ _ _ (reading_require_plain p) H2) as F2.
  unfold require_plain in H2. apply io_bind_Ok in H2 as (w2' & [] & H2 & H2').
  pose proof (reading_files _ _ _ _ reading_attempt H2) as F3. rewrite F3, F1 in H2'.
  destruct (file_at (d_files w) p) as [e|] eqn:Ef; [|done]. exists e. split; [done|].
  destruct (is_pending p); [by injection H as <- <-|].
  destruct (negb (is_extension p "cbor")); [done|].
  apply io_bind_Ok in H as (w3 & b & H3 & H). apply read_entry_Ok in H3 as (e' & He' & Hb & _).
  rewrite F2, F1, Ef in He'. injection He' as <-. subst b.
  unfold from_storage_bytes in H. destruct (decode (e_bytes e)) as [plan|]; cbn [map_err] in H; [|done].
  destruct (String.eqb_spec p (filename plan)) as [Hp|]; [|done]. cbn [negb] in H.
  apply io_bind_Ok in H as (w4 & [] & _ & H). by injection H as <- <-.
Qed.

Lemma open_entries_Ok ps w w' l :
  open_entries ps w = (w', Ok l) ->
  (forall plan, plan ∈ l -> exists p e, p ∈ ps /\ file_at (d_files w) p = Some e /\
     is_pending p = false /\ decode (e_bytes e) = Ok plan /\ p = filename plan) /\
  (forall p e, p ∈ ps -> file_at (d_files w) p = Some e -> is_pending p = false ->
     exists plan, plan ∈ l /\ decode (e_bytes e) = Ok plan).
Proof.
  revert w w' l. induction ps as [|p ps IH]; intros w w' l; cbn [open_entries].
  { intros [= <- <-]. split; [by intros ? ?%elem_of_nil|by intros ? ? ?%elem_of_nil]. }
  intros (w1 & r & H1 & (w2 & l' & H2 & H)%io_bind_Ok)%io_bind_Ok. injection H as <- <-.
  pose proof (reading_files _ _ _ _ (reading_open_entry p) H1) as F1.
  apply open_entry_Ok in H1 as (e & He & Hr). apply IH in H2 as [Hin Hout]. rewrite F1 in Hin, Hout. split.
  - intros plan Hp. destruct r as [plan'|].
    + apply elem_of_cons in Hp as [->|Hp].
      * destruct Hr as (? & ? & ?). exists p, e. split_and!; try done. by left.
      * destruct (Hin plan Hp) as (q & f & Hq & ? & ? & ? & ?). exists q, f. split_and!; try done. by right.
    + destruct (Hin plan Hp) as (q & f & Hq & ? & ? & ? & ?). exists q, f. split_and!; try done. by right.
  - intros q f [->|Hq]%elem_of_cons Hf Hn.
    + rewrite He in Hf. injection Hf as <-. destruct r as [plan|]; [|congruence].
      destruct Hr as (_ & ? & _). exists plan. split; [by left|done].
    + destruct (Hout q f Hq Hf Hn) as (plan & Hp & ?). exists plan. split; [|done].
      destruct r; [by right|done].
Qed.

Lemma open_Ok w l :
  (open w).2 = Ok l ->
  (forall plan, plan ∈ l -> exists p e, file_at (d_files w) p = Some e /\
     is_pending p = false /\ decode (e_bytes e) = Ok plan /\ p = filename plan) /\
  (forall p e, file_at (d_files w) p = Some e -> is_pending p = false ->
     exists plan, plan ∈ l /\ decode (e_bytes e) = Ok plan).
Proof.
  destruct (open w) as [w' r] eqn:E. cbn. intros ->. unfold open in E.
  apply io_bind_Ok in E as (w1 & [] & H1 & (w2 & [] & H2 & (w3 & [] & H3 & (w4 & [] & H4 & H)%io_bind_Ok)%io_bind_Ok)%io_bind_Ok).
  pose proof (reading_files _ _ _ _ reading_attempt H1) as F1.
  pose proof (reading_files _ _ _ _ reading_require_plain_root H2) as F2.
  pose proof (reading_files _ _ _ _ reading_attempt H3) as F3.
  pose proof (reading_files _ _ _ _ reading_attempt H4) as F4.
  apply open_entries_Ok in H as [Hin Hout]. rewrite F4, F3, F2, F1 in Hin, Hout. split.
  - intros plan Hp. destruct (Hin plan Hp) as (p & e & _ & ?). by exists p, e.
  - intros p e He Hn. apply (Hout p e); [|done..]. destruct (decide (p ∈ map fst (d_files w))) as [|Hno]; [done|].
    apply file_at_None in Hno. congruence.
Qed.

(** ** The invariant *)

(** A published file is whole and holds the plan it is named after. *)
Definition entry_ok (f : string * Entry) : Prop :=
  e_plain f.2 = true /\
  (is_pending f.1 = true \/
   (e_synced f.2 = true /\ exists plan, stored_plan_ok plan /\ decode (e_bytes f.2) = Ok plan /\ f.1 = filename plan)).

Definition disk_ok (w : Disk) : Prop :=
  d_root_plain w = true /\ NoDup (map fst (d_files w)) /\ Forall entry_ok (d_files w).

(** The plan's name, if it is there, is covered by a directory sync. *)
Definition name_settled (w : Disk) (plan : StoredPlan) : Prop := forall e,
  file_at (d_files w) (filename plan) = Some e -> e_linked e = true.

(** Every published file of [w] is in [w'], at least as settled. *)
Definition extends (w w' : Disk) : Prop := forall n e,
  is_pending n = false -> file_at (d_files w) n = Some e ->
  exists e', file_at (d_files w') n = Some e' /\ e_bytes e' = e_bytes e /\
    (e_synced e = true -> e_synced e' = true) /\ (e_linked e = true -> e_linked e' = true).

Lemma extends_trans w1 w2 w3 : extends w1 w2 -> extends w2 w3 -> extends w1 w3.
Proof.
  intros H1 H2 n e Hn He. destruct (H1 n e Hn He) as (e2 & He2 & Hb2 & Hs2 & Hl2).
  destruct (H2 n e2 Hn He2) as (e3 & He3 & Hb3 & Hs3 & Hl3). exists e3. split_and!; [done|congruence|auto..].
Qed.

Lemma extends_same w w' : d_files w' = d_files w -> extends w w'.
Proof. intros Hf n e _ He. exists e. by rewrite Hf. Qed.

Lemma disk_ok_later w w' : later w w' -> disk_ok w -> disk_ok w'.
Proof. intros (Hf & Hr & _ & _). unfold disk_ok. by rewrite Hf, Hr. Qed.

Lemma disk_entry w n e : disk_ok w -> file_at (d_files w) n = Some e -> entry_ok (n, e).
Proof.
  intros (_ & Hnd & Hall) He. rewrite Forall_forall in Hall. apply Hall.
  by apply file_at_elem.
Qed.

(** A disk made of entries that are all right. *)
Lemma disk_ok_files w files :
  disk_ok w -> NoDup (map fst files) ->
  (forall n e, file_at files n = Some e -> entry_ok (n, e)) -> disk_ok (with_files w files).
Proof.
  intros (Hr & _ & _) Hnd Hall. split_and!; [done..|]. apply Forall_forall. intros [n e] Hin.
  apply Hall. by apply file_at_elem.
Qed.

Lemma call_running w w' : call w = (w', None) -> d_running w' = true /\ later w w'.
Proof.
  intros H. pose proof (call_later w) as Hl. rewrite H in Hl. split; [|done].
  unfold call in H. destruct (d_running w) eqn:E; cbn [negb] in H; [|done].
  destruct (d_faults w) as [|[[n|n]|] fs]; try done; by injection H as <-.
Qed.

Lemma attempt_running w w' : attempt w = (w', Ok tt) -> d_running w' = true.
Proof.
  unfold attempt. destruct (call w) as [w1 [n|]] eqn:E; [done|]. intros [= <-]. by apply call_running in E as [? _].
Qed.

(** Writing to a pending file. *)
Lemma disk_set_pending w n e :
  disk_ok w -> is_pending n = true -> e_plain e = true -> disk_ok (with_files w (file_set (d_files w) n e)).
Proof.
  intros Hw Hn He. apply disk_ok_files; [done|rewrite file_set_names; apply Hw|].
  intros m f. rewrite file_at_set. destruct (file_at (d_files w) m) as [g|] eqn:Hg; [|done].
  intros [= <-]. destruct (String.eqb_spec m n) as [->|]; [by split; [|left]|by eapply disk_entry].
Qed.

Lemma extends_set_pending w n e : is_pending n = true -> extends w (with_files w (file_set (d_files w) n e)).
Proof.
  intros Hn m f Hm Hf. exists f. cbn [with_files d_files]. rewrite file_at_set, Hf.
  destruct (String.eqb_spec m n) as [->|]; [congruence|done].
Qed.

Lemma disk_create w n e :
  disk_ok w -> file_at (d_files w) n = None -> entry_ok (n, e) ->
  disk_ok (with_files w (d_files w ++ [(n, e)])) /\ extends w (with_files w (d_files w ++ [(n, e)])).
Proof.
  intros Hw Hn He. split.
  - apply disk_ok_files; [done| |].
    + rewrite map_app. apply NoDup_app. split_and!; [apply Hw| |apply NoDup_singleton].
      intros x Hx ->%list_elem_of_singleton. by apply file_at_None in Hn.
    + intros m f. rewrite file_at_app. destruct (file_at (d_files w) m) as [g|] eqn:Hg.
      * intros [= <-]. by eapply disk_entry.
      * unfold file_at. cbn. destruct (String.eqb_spec n m) as [->|]; [|done]. by intros [= <-].
  - intros m f _ Hf. exists f. cbn [with_files d_files]. by rewrite file_at_app, Hf.
Qed.

Lemma disk_delete w n : disk_ok w -> disk_ok (with_files w (file_delete (d_files w) n)).
Proof.
  intros Hw. apply disk_ok_files; [done|apply file_delete_names, Hw|].
  intros m f. rewrite file_at_delete. destruct (String.eqb m n); [done|]. by apply disk_entry.
Qed.

Lemma extends_delete w n : is_pending n = true -> extends w (with_files w (file_delete (d_files w) n)).
Proof.
  intros Hn m f Hm Hf. exists f. cbn [with_files d_files]. rewrite file_at_delete.
  destruct (String.eqb_spec m n) as [->|]; [congruence|]. by split_and!.
Qed.

(** ** The steps of [persist] *)

(** The outcome of a step that keeps the published files. *)
Definition keeps {A} (m : io A) (w : Disk) : Prop :=
  disk_ok (m w).1 /\ extends w (m w).1.

Lemma keeps_reading {A} (m : io A) w : reading m -> disk_ok w -> keeps m w.
Proof.
  intros Hm Hw. split; [by eapply disk_ok_later|]. apply extends_same, Hm.
Qed.

Lemma keeps_bind {A B} (m : io A) (k : A -> io B) w :
  keeps m w -> (forall w1 a, m w = (w1, Ok a) -> disk_ok w1 -> keeps (k a) w1) -> keeps (bind m k) w.
Proof.
  intros [Hw He] Hk. unfold keeps, bind. destruct (m w) as [w1 [a|e]]; [|done]. cbn in *.
  destruct (Hk w1 a eq_refl Hw) as [Hw' He']. split; [done|]. by eapply extends_trans.
Qed.

Section Persist.
Context (plan : StoredPlan) (stored : bytes) (temporary : string).
Hypothesis Htyped : stored_plan_ok plan.
Hypothesis Hstored : encode plan = Ok stored.
Hypothesis Htemp : is_pending temporary = true.

Lemma write_all_keeps w :
  disk_ok w -> keeps (write_all temporary stored) w /\
  (forall w', write_all temporary stored w = (w', Ok tt) ->
     forall e, file_at (d_files w) temporary = Some e ->
     file_at (d_files w') temporary = Some (mkEntry true stored false false)).
Proof using Htemp.
  intros Hw. unfold keeps, write_all. pose proof (call_later w) as Hl.
  destruct (call w) as [w1 [n|]]; cbn [fst] in Hl |- *.
  - pose proof (disk_ok_later _ _ Hl Hw). split; [|done]. split; [by apply disk_set_pending|].
    eapply extends_trans; [apply extends_same, Hl|by apply extends_set_pending].
  - pose proof (disk_ok_later _ _ Hl Hw). split; [split; [by apply disk_set_pending|]|].
    + eapply extends_trans; [apply extends_same, Hl|by apply extends_set_pending].
    + intros w' [= <-] e He. cbn [with_files d_files]. rewrite file_at_set.
      destruct Hl as (-> & _). by rewrite He, String.eqb_refl.
Qed.

Lemma sync_file_keeps w :
  disk_ok w -> keeps (sync_file temporary) w /\
  (forall w', sync_file temporary w = (w', Ok tt) ->
     exists e, file_at (d_files w) temporary = Some e /\
       file_at (d_files w') temporary = Some (mkEntry true (e_bytes e) true (e_linked e))).
Proof using Htemp.
  intros Hw. split.
  - apply keeps_bind; [apply keeps_reading; auto with reading|]. intros w1 [] _ Hw1. unfold keeps.
    destruct (file_at (d_files w1) temporary) as [e|]; [|split; [done|by apply extends_same]].
    split; [by apply disk_set_pending|by apply extends_set_pending].
  - intros w' (w1 & [] & H1 & H)%io_bind_Ok. pose proof (reading_files _ _ _ _ reading_attempt H1) as F1.
    destruct (file_at (d_files w1) temporary) as [e|] eqn:He; [|done]. injection H as <-.
    exists e. split; [by rewrite <- F1|]. cbn [with_files d_files]. rewrite file_at_set, He.
    by rewrite String.eqb_refl.
Qed.

(** The directory sync settles every name, or fails and leaves all as it was. *)
Lemma sync_directory_settles w :
  disk_ok w ->
  keeps sync_directory w /\
  ((sync_directory w).2 = Ok tt -> forall n e, file_at (d_files w) n = Some e ->
     exists e', file_at (d_files (sync_directory w).1) n = Some e' /\ e_bytes e' = e_bytes e /\
       e_synced e' = e_synced e /\ e_linked e' = true).
Proof.
  intros Hw. unfold keeps, sync_directory, bind. pose proof (reading_attempt w) as Hl.
  destruct (attempt w) as [w1 [[]|]]; cbn [fst snd] in *; pose proof (disk_ok_later _ _ Hl Hw) as Hw1;
    [|by split; [split; [|apply extends_same, Hl]|]].
  set (files := map (fun f : string * Entry =>
    (f.1, mkEntry (e_plain f.2) (e_bytes f.2) (e_synced f.2) true)) (d_files w1)).
  assert (forall n, file_at files n =
    match file_at (d_files w1) n with
    | Some e => Some (mkEntry (e_plain e) (e_bytes e) (e_synced e) true) | None => None end) as Hfile.
  { intros n. unfold files, file_at. generalize (d_files w1). intros fs.
    induction fs as [|[m f] fs IH]; [done|]. cbn. by destruct (String.eqb m n). }
  assert (forall n e, file_at (d_files w) n = Some e -> exists e', file_at files n = Some e' /\
    e_bytes e' = e_bytes e /\ e_synced e' = e_synced e /\ e_linked e' = true) as Hall.
  { intros n e He. destruct Hl as (Hf & _). rewrite Hfile, Hf, He. by eexists. }
  split; [split|done].
  - destruct Hw1 as (A & B & C). split; [done|]. cbn [with_files d_files]. unfold files. split; [by rewrite map_map|].
    apply Forall_map. eapply Forall_impl; [exact C|].
    intros f (Hp & [?|(? & ?)]); (split; [done|]); [by left|by right].
  - intros n e _ He. destruct (Hall n e He) as (e' & He' & Hb & Hs & Hlk). exists e'.
    split_and!; [done..|congruence|done].
Qed.

(** Publishing and committing the synced file. *)
Definition committed_file (w : Disk) : Prop :=
  exists e, file_at (d_files w) (filename plan) = Some e /\ e_bytes e = stored /\
    e_synced e = true /\ e_linked e = true.

(** A file that already holds the plan. *)
Lemma existing_holds w w' :
  disk_ok w -> verify_existing (filename plan) stored w = (w', Ok tt) ->
  exists e, file_at (d_files w) (filename plan) = Some e /\ e_bytes e = stored /\ e_synced e = true.
Proof.
  intros Hw (w1 & b & H1 & H2)%io_bind_Ok. apply read_entry_Ok in H1 as (e & He & Hb & _).
  case_bool_decide as Hbs; [|done]. exists e. split; [done|]. split; [congruence|].
  apply (disk_entry _ _ _ Hw) in He as (_ & [Hp|(Hs & _)]); [|done].
  unfold filename in Hp; cbn [fst] in Hp; by rewrite key_filename_not_pending in Hp.
Qed.

Lemma publish_cases w :
  disk_ok w -> file_at (d_files w) temporary = Some (mkEntry true stored true false) ->
  match publish temporary (filename plan) stored w with
  | (w1, Err _) => disk_ok w1 /\ extends w w1
  | (w1, Ok _) => disk_ok w1 /\ extends w w1 /\
      exists e, file_at (d_files w1) (filename plan) = Some e /\ e_bytes e = stored /\ e_synced e = true
  end.
Proof using Htyped Hstored.
  intros Hw Ht. unfold publish, bind at 1. pose proof (reading_attempt w) as Hl.
  destruct (attempt w) as [w1 [[]|]] eqn:Ea; cbn [fst] in Hl;
    pose proof (disk_ok_later _ _ Hl Hw) as Hw1; [|by split; [|apply extends_same, Hl]].
  pose proof Hl as (Hf & _). rewrite Hf, Ht.
  destruct (file_at (d_files w) (filename plan)) as [e|] eqn:He.
  - pose proof (reading_verify (filename plan) stored w1) as Hl'.
    destruct (verify_existing (filename plan) stored w1) as [w2 [[]|]] eqn:Ev; cbn [fst] in Hl';
      pose proof (disk_ok_later _ _ Hl' Hw1) as Hw2;
      assert (extends w w2) by (apply extends_same; destruct Hl' as (-> & _); done); [|done].
    split; [done|]. split; [done|].
    destruct (existing_holds w1 w2 Hw1 Ev) as (e' & He' & Hb & Hs).
    destruct Hl' as (-> & _). by exists e'.
  - assert (file_at (d_files w1) (filename plan) = None) as Hnone by (by rewrite Hf).
    destruct (decode_encoded plan stored Htyped Hstored) as (q & Hq & Hsame).
    destruct (disk_create w1 (filename plan) (mkEntry true stored true false)) as [Hd Hx]; [done|done|..].
    + split; [done|]. right. split; [done|]. exists q. split_and!.
      * apply (decode_well_typed stored); [|done]. by eapply encode_bytes_ok.
      * done.
      * unfold filename, plan_key. by rewrite (plan_same_id _ _ Hsame).
    + rewrite <- Hf. split_and!; [done|eapply extends_trans; [by apply (extends_same w w1)|done]|].
      exists (mkEntry true stored true false). split; [|done]. cbn [with_files d_files e_bytes e_synced].
      rewrite file_at_app, Hnone. unfold file_at. cbn. by rewrite String.eqb_refl.
Qed.

Lemma publish_keeps w :
  disk_ok w -> file_at (d_files w) temporary = Some (mkEntry true stored true false) ->
  keeps (let! _ := publish temporary (filename plan) stored in sync_directory) w /\
  forall w', (let! _ := publish temporary (filename plan) stored in sync_directory) w = (w', Ok tt) ->
    committed_file w'.
Proof using Htyped Hstored.
  intros Hw Ht. pose proof (publish_cases w Hw Ht) as Hp. unfold keeps, bind.
  destruct (publish _ _ _ w) as [w1 [[]|]]; [|by split]. destruct Hp as (Hd & Hx & e & He & Hb & Hs).
  destruct (sync_directory_settles w1 Hd) as ((Hok & Hx') & Hset). split.
  - split; [done|]. by eapply extends_trans.
  - intros w' Hw'. rewrite Hw' in Hset. cbn in Hset. destruct (Hset eq_refl _ _ He) as (e' & He' & Hb' & Hs' & Hl').
    exists e'. split_and!; [done|congruence|congruence|done].
Qed.

(** The closure of [persist]: everything between the staging file and its removal. *)
Lemma stage_keeps w e :
  disk_ok w -> file_at (d_files w) temporary = Some e ->
  let m := (let! _ := attempt in
            let! _ := write_all temporary stored in
            let! _ := sync_file temporary in
            let! _ := publish temporary (filename plan) stored in
            sync_directory) in
  keeps m w /\ forall w', m w = (w', Ok tt) -> committed_file w'.
Proof using Htyped Hstored Htemp.
  intros Hw He m.
  assert (forall w1, attempt w = (w1, Ok tt) -> disk_ok w1 /\ file_at (d_files w1) temporary = Some e) as H1.
  { intros w1 H. pose proof (reading_attempt w) as Hl. rewrite H in Hl. cbn [fst] in Hl. split; [by eapply disk_ok_later|].
    by rewrite (proj1 Hl). }
  assert (forall w1 w2 w3, attempt w = (w1, Ok tt) -> write_all temporary stored w1 = (w2, Ok tt) ->
    sync_file temporary w2 = (w3, Ok tt) -> disk_ok w2 -> 
    file_at (d_files w3) temporary = Some (mkEntry true stored true false)) as H3.
  { intros w1 w2 w3 Ha Hb Hc Hw2. destruct (H1 w1 Ha) as [Hw1 He1].
    pose proof (proj2 (write_all_keeps w1 Hw1) w2 Hb e He1) as He2.
    destruct (proj2 (sync_file_keeps w2 Hw2) w3 Hc) as (f & Hf & ->). rewrite He2 in Hf.
    by injection Hf as <-. }
  split.
  - apply keeps_bind; [apply keeps_reading; auto with reading|]. intros w1 [] Ha Hw1.
    apply keeps_bind; [by apply write_all_keeps|]. intros w2 [] Hb Hw2.
    apply keeps_bind; [by apply sync_file_keeps|]. intros w3 [] Hc Hw3.
    apply publish_keeps; [done|by eapply H3].
  - intros w' (w1 & [] & Ha & (w2 & [] & Hb & (w3 & [] & Hc & H)%io_bind_Ok)%io_bind_Ok)%io_bind_Ok.
    destruct (H1 w1 Ha) as [Hw1 _]. pose proof (proj1 (proj1 (write_all_keeps w1 Hw1))) as Hw2.
    rewrite Hb in Hw2. pose proof (proj1 (proj1 (sync_file_keeps w2 Hw2))) as Hw3. rewrite Hc in Hw3.
    exact (proj2 (publish_keeps w3 Hw3 (H3 w1 w2 w3 Ha Hb Hc Hw2)) w' H).
Qed.
End Persist.

(** A step that keeps the published files and, if it works where the plan's name is settled,
    leaves the plan committed. *)
Definition commits (plan : StoredPlan) (stored : bytes) (m : io unit) (w : Disk) : Prop :=
  keeps m w /\ (name_settled w plan -> forall w', m w = (w', Ok tt) -> committed_file plan stored w').

Lemma commits_reading {A} plan stored (m : io A) (k : A -> io unit) w :
  reading m -> disk_ok w -> (forall w1 a, m w = (w1, Ok a) -> disk_ok w1 -> commits plan stored (k a) w1) ->
  commits plan stored (bind m k) w.
Proof.
  intros Hm Hw Hk. pose proof (keeps_reading m w Hm Hw) as Hkeep. split.
  - apply keeps_bind; [done|]. intros w1 a H Hw1. by apply Hk.
  - intros Hset w' (w1 & a & H1 & H2)%io_bind_Ok. pose proof (reading_files _ _ _ _ Hm H1) as Hf.
    destruct Hkeep as [Hw1 _]. rewrite H1 in Hw1. apply (Hk w1 a H1 Hw1); [|done]. unfold name_settled. by rewrite Hf.
Qed.

Lemma create_new_keeps w n : disk_ok w -> is_pending n = true -> keeps (create_new n) w.
Proof.
  intros Hw Hn. apply keeps_bind; [apply keeps_reading; auto with reading|]. intros w4 [] _ Hw4. unfold keeps.
  destruct (file_at (d_files w4) n) eqn:He; [split; [done|by apply extends_same]|].
  by apply disk_create; [done..|split; [|left]].
Qed.

Lemma create_new_Ok w w' n : create_new n w = (w', Ok tt) -> exists e, file_at (d_files w') n = Some e.
Proof.
  intros (w1 & [] & _ & H)%io_bind_Ok. destruct (file_at (d_files w1) n) eqn:Hn; [done|].
  injection H as <-. cbn [with_files d_files]. rewrite file_at_app, Hn. unfold file_at. cbn.
  rewrite String.eqb_refl. by eexists.
Qed.

Lemma remove_file_keeps w n : disk_ok w -> is_pending n = true ->
  disk_ok (remove_file n w) /\ extends w (remove_file n w).
Proof.
  intros Hw Hn. unfold remove_file. pose proof (call_later w) as Hl.
  destruct (call w) as [w7 [k|]]; cbn [fst] in Hl; pose proof (disk_ok_later _ _ Hl Hw).
  - split; [done|]. by apply extends_same, Hl.
  - split; [by apply disk_delete|]. eapply extends_trans; [apply extends_same, Hl|by apply extends_delete].
Qed.

Lemma committed_file_extends plan stored w w' :
  committed_file plan stored w -> extends w w' -> committed_file plan stored w'.
Proof.
  intros (e & He & Hb & Hs & Hl) Hx.
  destruct (Hx _ e (key_filename_not_pending _) He) as (e' & He' & Hb' & Hs' & Hl').
  exists e'. split_and!; [done|congruence|auto|auto].
Qed.

Lemma persist_spec plan stored w :
  stored_plan_ok plan -> encode plan = Ok stored -> disk_ok w -> commits plan stored (persist plan stored) w.
Proof.
  intros Hp Hs Hw. unfold persist.
  apply commits_reading; [auto with reading|done|]. intros w1 [] _ Hw1.
  apply commits_reading; [auto with reading|done|]. intros w2 [] H2 Hw2. unfold commits, keeps.
  destruct (file_at (d_files w2) (filename plan)) as [e|] eqn:He.
  { split; [by apply keeps_reading; auto with reading|]. intros Hset w' Hv.
    destruct (existing_holds plan stored w2 w' Hw2 Hv) as (f & Hf & Hb & Hsy). exists f.
    rewrite (reading_files _ _ _ _ (reading_verify _ _) Hv). split_and!; [done..|by apply Hset]. }
  apply commits_reading; [auto with reading|done|]. intros w3 nonce _ Hw3.
  set (temporary := to_hex (sha256 nonce) +:+ ".pending").
  assert (is_pending temporary = true) as Ht by apply pending_name_is_pending.
  assert (forall w4, create_new temporary w3 = (w4, Ok tt) -> disk_ok w4 -> _) as Hstage
    by (intros w4 H4 Hw4; destruct (create_new_Ok _ _ _ H4) as [e Het];
        exact (stage_keeps plan stored temporary Hp Hs Ht w4 e Hw4 Het)).
  pose proof (create_new_keeps w3 temporary Hw3 Ht) as [Hw4 Hx4]. unfold commits, keeps.
  assert (forall k : unit -> io unit, bind (create_new temporary) k w3 =
    match create_new temporary w3 with (w, Ok a) => k a w | (w, Err e) => (w, Err e) end) as Hb by done. rewrite !Hb. clear Hb.
  destruct (create_new temporary w3) as [w4 [[]|]]; cbn [fst] in Hw4, Hx4; [|by split].
  destruct (Hstage w4 eq_refl Hw4) as [[Hw6 Hx] Hc]. clear Hstage.
  match type of Hx with extends _ (?m w4).1 => destruct (m w4) as [w6 r] end. cbn [fst] in *.
  destruct (remove_file_keeps w6 temporary Hw6 Ht) as [Hw7 Hx7].
  split; [split; [done|by eapply extends_trans, extends_trans]|]. intros _ w' [= <- ->].
  eapply committed_file_extends; [by apply Hc|done].
Qed.

(** ** The contract *)

Definition file_committed (w : Disk) (k : string) (b : bytes) : Prop :=
  exists e, file_at (d_files w) (key_filename k) = Some e /\ e_bytes e = b /\
    e_synced e = true /\ e_linked e = true /\ exists p, decode b = Ok p /\ plan_key p = k.

(** What a crash or a restart may leave: every settled file, any other published name only
    with bytes it had if they were synced, and any pending file with any bytes. *)
Definition disk_crash (w w' : Disk) : Prop :=
  d_root_plain w' = d_root_plain w /\ NoDup (map fst (d_files w')) /\
  (forall n e, is_pending n = false -> file_at (d_files w) n = Some e -> e_synced e = true ->
     e_linked e = true -> exists e', file_at (d_files w') n = Some e' /\ e_bytes e' = e_bytes e) /\
  (forall n e', file_at (d_files w') n = Some e' ->
     e_plain e' = true /\ e_synced e' = true /\ e_linked e' = true /\
     (is_pending n = true \/ exists e, file_at (d_files w) n = Some e /\
        (e_synced e = true -> e_bytes e' = e_bytes e))).

Definition disk_faultless (w : Disk) : Prop := d_faults w = [] /\ d_running w = true.

Lemma attempt_faultless w : disk_faultless w -> attempt w = (w, Ok tt).
Proof. intros [Hf Hr]. unfold attempt, call. by rewrite Hr, Hf. Qed.

Lemma bind_run {A B} (m : io A) (k : A -> io B) w a : m w = (w, Ok a) -> bind m k w = k a w.
Proof. intros H. unfold bind. by rewrite H. Qed.

Lemma require_plain_faultless w n e :
  disk_faultless w -> file_at (d_files w) n = Some e -> e_plain e = true -> require_plain n w = (w, Ok tt).
Proof.
  intros Hw He Hp. unfold require_plain. rewrite (bind_run _ _ _ tt) by (by apply attempt_faultless).
  by rewrite He, Hp.
Qed.

Lemma read_entry_faultless w n e :
  disk_faultless w -> file_at (d_files w) n = Some e -> e_plain e = true -> zlen (e_bytes e) <= MAX_BYTES ->
  read_entry n w = (w, Ok (e_bytes e)).
Proof.
  intros Hw He Hp Hl. unfold read_entry.
  rewrite (bind_run _ _ _ tt) by (by eapply require_plain_faultless).
  do 2 rewrite (bind_run _ _ _ tt) by (by apply attempt_faultless). rewrite He.
  destruct (Z.ltb_spec MAX_BYTES (zlen (e_bytes e))); [lia|].
  rewrite (bind_run _ _ _ tt) by (by apply attempt_faultless). cbv zeta. rewrite take_all by done.
  destruct (Z.ltb_spec MAX_BYTES (zlen (e_bytes e))); [lia|done].
Qed.

Lemma open_entry_faultless w n :
  disk_ok w -> disk_faultless w -> n ∈ map fst (d_files w) ->
  exists r, open_entry n w = (w, Ok r) /\
    match r with
    | None => is_pending n = true
    | Some plan => is_pending n = false /\ n = filename plan /\ validate plan = Ok tt
    end.
Proof.
  intros Hok Hw Hn. destruct (file_at (d_files w) n) as [e|] eqn:He; [|by apply file_at_None in He].
  destruct (disk_entry _ _ _ Hok He) as [Hp Hkind]. cbn [fst snd] in Hp, Hkind.
  unfold open_entry. rewrite (bind_run _ _ _ tt) by (by apply attempt_faultless).
  rewrite (bind_run _ _ _ tt) by (by eapply require_plain_faultless). fold (is_pending n).
  destruct (is_pending n) eqn:Hpend; [by exists None|].
  destruct Hkind as [?|(_ & plan & Hty & Hdec & Hname)]; [done|]. subst n.
  pose proof (decode_Ok _ _ Hdec) as Henc. pose proof Henc as (Hval & _ & _ & _ & Hl)%encode_Ok.
  unfold filename at 1. rewrite key_filename_is_cbor. cbn [negb].
  rewrite (bind_run _ _ _ (e_bytes e)) by (by apply read_entry_faultless).
  unfold from_storage_bytes. rewrite Hdec. cbn [map_err]. rewrite String.eqb_refl. cbn [negb].
  rewrite (bind_run _ _ _ tt) by (by apply attempt_faultless). by exists (Some plan).
Qed.

Lemma open_entries_faultless w ps :
  disk_ok w -> disk_faultless w -> Forall (fun n => n ∈ map fst (d_files w)) ps ->
  exists l, open_entries ps w = (w, Ok l) /\ map filename l = List.filter (fun n => negb (is_pending n)) ps /\
    Forall (fun p => validate p = Ok tt) l.
Proof.
  intros Hok Hw. induction 1 as [|n ps Hn _ (l & Hl & Hnames & Hval)]; [by exists []|].
  destruct (open_entry_faultless w n Hok Hw Hn) as (r & Hr & Hcase). cbn [open_entries].
  rewrite (bind_run _ _ _ r), (bind_run _ _ _ l) by done. eexists. split; [reflexivity|]. cbn [List.filter].
  destruct r as [plan|]; [|by rewrite Hcase].
  destruct Hcase as (-> & -> & Hv). cbn. by rewrite Hnames; split; [|constructor].
Qed.

Lemma file_committed_extends w w' k b : file_committed w k b -> extends w w' -> file_committed w' k b.
Proof.
  intros (e & He & Hb & Hs & Hl & Hp) Hx.
  destruct (Hx _ e (key_filename_not_pending _) He) as (e' & He' & Hb' & Hs' & Hl').
  exists e'. split_and!; [done|congruence|auto|auto|done].
Qed.

Lemma load_typed_files w l : disk_ok w -> (open w).2 = Ok l -> Forall stored_plan_ok l.
Proof.
  intros Hw [Hin _]%open_Ok. apply Forall_forall. intros plan Hp.
  destruct (Hin plan Hp) as (n & e & He & Hn & Hd & _).
  destruct (disk_entry _ _ _ Hw He) as [_ [?|(_ & q & Hq & Hdq & _)]]; cbn in *; [congruence|].
  by replace plan with q by congruence.
Qed.

Lemma load_committed_files w l k b :
  (open w).2 = Ok l -> file_committed w k b -> exists p, p ∈ l /\ plan_key p = k /\ encode p = Ok b.
Proof.
  intros [_ Hout]%open_Ok (e & He & Hb & _ & _ & p & Hp & Hk).
  destruct (Hout _ e He (key_filename_not_pending _)) as (q & Hq & Hd). rewrite Hb in Hd.
  replace p with q in * by congruence. exists q. split_and!; [done|done|]. by apply decode_Ok.
Qed.

Lemma load_total_files w :
  disk_ok w -> disk_faultless w ->
  exists l, (open w).2 = Ok l /\ NoDup (map plan_key l) /\ Forall (fun p => validate p = Ok tt) l.
Proof.
  intros Hok Hw. pose proof Hok as (Hr & Hnd & _).
  destruct (open_entries_faultless w (map fst (d_files w)) Hok Hw) as (l & Hl & Hnames & Hval).
  { by apply Forall_forall. }
  exists l. split_and!; [| |done].
  - unfold open. rewrite (bind_run _ _ _ tt) by (by apply attempt_faultless).
    rewrite (bind_run _ _ _ tt).
    { do 2 rewrite (bind_run _ _ _ tt) by (by apply attempt_faultless). by rewrite Hl. }
    unfold require_plain_root. rewrite (bind_run _ _ _ tt) by (by apply attempt_faultless). by rewrite Hr.
  - assert (NoDup (map filename l)) as Hf.
    { rewrite Hnames. clear -Hnd. induction Hnd as [|n ps Hn _ IH]; cbn; [constructor|].
      destruct (negb _); [|done]. constructor; [|done]. intros Hin%list_elem_of_In.
      apply filter_In in Hin as [Hin _]. by apply list_elem_of_In in Hin. }
    unfold filename in Hf. rewrite <- (map_map plan_key key_filename) in Hf. by eapply NoDup_fmap_1.
Qed.

Lemma persist_commits_files w p b :
  disk_ok w -> stored_plan_ok p -> encode p = Ok b -> name_settled w p -> (persist p b w).2 = Ok tt ->
  file_committed (persist p b w).1 (plan_key p) b.
Proof.
  intros Hw Hp Hb Hset Hok. destruct (persist_spec p b w Hp Hb Hw) as [_ Hc].
  destruct (persist p b w) as [w' r]. cbn in *. subst r.
  destruct (Hc Hset w' eq_refl) as (e & He & Hbe & Hs & Hl). exists e. split_and!; [done..|].
  destruct (decode_encoded p b Hp Hb) as (q & Hq & Hsame). exists q. split; [done|].
  unfold plan_key. by rewrite (plan_same_id _ _ Hsame).
Qed.

Lemma crash_disk_ok w w' : disk_ok w -> disk_crash w w' -> disk_ok w'.
Proof.
  intros Hw (Hr & Hnd & _ & Hall). pose proof Hw as (A & _). unfold disk_ok.
  rewrite Hr. split_and!; [done..|]. apply Forall_forall. intros [n e'] Hin%file_at_elem; [|done].
  destruct (Hall n e' Hin) as (Hp & Hsy & Hl & [Hn|(e & He & Hbytes)]); (split; [done|]); [by left|].
  destruct (disk_entry _ _ _ Hw He) as [_ [?|(Hse & q & Hq & Hd & Hf)]]; [by left|right].
  cbn [fst snd] in *. split; [done|]. exists q. by rewrite (Hbytes Hse).
Qed.

Lemma crash_keeps_files w w' k b : disk_crash w w' -> file_committed w k b -> file_committed w' k b.
Proof.
  intros (_ & _ & Hkeep & Hall) (e & He & Hb & Hs & Hl & Hp).
  destruct (Hkeep _ e (key_filename_not_pending _) He Hs Hl) as (e' & He' & Hbytes).
  destruct (Hall _ e' He') as (_ & ? & ? & _). exists e'. split_and!; [done|congruence|done..].
Qed.

(** The file storage keeps the contract the plan store relies on. *)
#[global, refine] Instance file_storage_laws : PlanStorageLaws Disk := {
  sound := disk_ok;
  committed := file_committed;
  settled := name_settled;
  crash := disk_crash;
  faultless := disk_faultless
}.
Proof.
  - intros w Hw. by apply (keeps_reading open w reading_open).
  - intros w k b Hw Hc. eapply file_committed_extends; [done|].
    by apply (keeps_reading open w reading_open).
  - exact load_typed_files.
  - intros w l k b _. apply load_committed_files.
  - exact load_total_files.
  - intros w p b Hw Hp Hb. by apply (persist_spec p b w Hp Hb Hw).
  - intros w p b k c Hw Hp Hb Hc. eapply file_committed_extends; [done|].
    by apply (persist_spec p b w Hp Hb Hw).
  - exact persist_commits_files.
  - exact crash_disk_ok.
  - intros w w' k b _. apply crash_keeps_files.
Defined.

(** C11. The file storage implements the contract of the plan store: after any calls and
    faults, a persist that returns success where the plan's name was not there, or there
    and covered by a directory sync, has committed exactly the encoding it was
    given; no persist and no crash loses or changes a committed plan; a load returns
    every committed plan, only well-formed ones, and succeeds when no call fails. *)
Theorem file_storage_refines w :
  disk_ok w ->
  (forall p b w', stored_plan_ok p -> encode p = Ok b -> name_settled w p -> persist p b w = (w', Ok tt) ->
     file_committed w' (plan_key p) b) /\
  (forall p b k c, stored_plan_ok p -> encode p = Ok b -> file_committed w k c ->
     file_committed (persist p b w).1 k c) /\
  (forall w' k b, disk_crash w w' -> file_committed w k b -> disk_ok w' /\ file_committed w' k b) /\
  (forall l k b, (open w).2 = Ok l -> file_committed w k b ->
     Forall stored_plan_ok l /\ exists p, p ∈ l /\ plan_key p = k /\ encode p = Ok b) /\
  (disk_faultless w -> exists l, (open w).2 = Ok l).
Proof.
  intros Hw. split; [|split; [|split; [|split]]].
  - intros p b w' Hp Hb Hset Hr. pose proof (persist_commits_files w p b Hw Hp Hb Hset) as H.
    rewrite Hr in H. by apply H.
  - intros p b k c Hp Hb Hc. eapply file_committed_extends; [done|]. by apply (persist_spec p b w Hp Hb Hw).
  - intros w' k b Hcr Hc. split; [by eapply crash_disk_ok|by eapply crash_keeps_files].
  - intros l k b Hl Hc. split; [by eapply load_typed_files|by eapply load_committed_files].
  - intros Hf. destruct (load_total_files w Hw Hf) as (l & Hl & _). by exists l.
Qed.

(** C10. An acknowledged plan is never lost: through any history of insertions, refusals,
    machine stops, crashes and restarts over the file storage, in which any call may fail,
    every plan whose insertion returned success, and not over a file that an earlier
    failed insertion had left unsynced in the directory, is served under its identifier
    and digest, as the very plan that was sealed; and a restart whose reads succeed comes
    back. *)
Theorem file_plans_survive (s : PlanStore Disk) acks :
  history s acks ->
  (forall p, p ∈ acks ->
     exists q r, store_get s (plan_id (envelope p)) (plan_digest (envelope p)) = Ok q /\
       plan_same p r /\ plan_same q r) /\
  (forall w w', storage s = Some w -> disk_crash w w' -> disk_faultless w' ->
     exists s', store_open w' = Ok s').
Proof. exact (acknowledged_plans_served s acks). Qed.

(** ** Instances *)

Definition empty_disk (faults : list (option Fault)) : Disk := mkDisk true [] faults [] true.

Lemma empty_disk_ok faults : disk_ok (empty_disk faults).
Proof. split_and!; [done|constructor|constructor]. Qed.

Definition sample_store : PlanStore Disk := mkStore [] (Some (empty_disk [])).

Lemma sample_store_history : history sample_store [].
Proof. apply (history_open (empty_disk [])); [apply empty_disk_ok|reflexivity]. Qed.

Lemma sample_insert_ok : (store_insert sample_store sample_stored).2 = Ok tt.
Proof. vm_compute. reflexivity. Qed.

Lemma file_plans_survive_witness :
  exists s : PlanStore Disk, history s [sample_stored] /\
    exists q, store_get s (plan_id (envelope sample_stored)) (plan_digest (envelope sample_stored)) = Ok q.
Proof.
  destruct (store_insert sample_store sample_stored) as [s r] eqn:E.
  assert (r = Ok tt) as Hr. { pose proof sample_insert_ok as H. rewrite E in H. exact H. }
  rewrite Hr in E. clear Hr.
  assert (history s [sample_stored]) as Hh
    by (refine (history_insert _ _ _ (empty_disk []) _ sample_store_history sample_stored_ok eq_refl _ E); discriminate).
  exists s. split; [exact Hh|].
  destruct (proj1 (file_plans_survive s [sample_stored] Hh) sample_stored) as (q & r' & Hq & _).
  - left.
  - exists q. exact Hq.
Defined.

Lemma file_storage_refines_witness : exists l, (open (empty_disk [])).2 = Ok l.
Proof.
  refine (proj2 (proj2 (proj2 (proj2 (file_storage_refines (empty_disk []) (empty_disk_ok []))))) _).
  split; reflexivity.
Defined.

(** A retry after a failed directory sync reports success without syncing the directory:
    the early return of [persist] for an existing file compares its bytes only, so a
    crash can still take away the name of an acknowledged plan. *)
Lemma retry_skips_directory_sync :
  let first := persist sample_stored [1] (empty_disk (replicate 8 None ++ [Some (Fails 0)])) in
  let second := persist sample_stored [1] first.1 in
  is_ok first.2 = false /\ second.2 = Ok tt /\
  exists w, disk_crash second.1 w /\ d_files w = [].
Proof.
  cbv zeta. refine (conj _ (conj _ _)); [vm_compute; reflexivity|vm_compute; reflexivity|].
  match goal with |- exists w', disk_crash ?w1 w' /\ _ => set (w := w1) end.
  assert (d_root_plain w = true /\ forallb (fun f => negb (e_linked f.2)) (d_files w) = true) as H
    by (split; vm_compute; reflexivity).
  clearbody w. destruct H as (Hr & Hl).
  exists (empty_disk []). split; [|done]. split_and!; [done|constructor| |done].
  intros n e _ He _ Hlk. unfold file_at in He. destruct (List.find _ _) as [[m f]|] eqn:E; [|done].
  injection He as ->. apply find_some in E as [E _]. rewrite forallb_forall in Hl.
  apply Hl in E. cbn in E. by rewrite Hlk in E.
Qed.
