(* ===== verification/Bits.v ===== *)
(** * Bits of a byte stream (crates/arkforge-artifact/src/inflate.rs)

    [BitReader]: least significant bit first over a source that answers reads in chunks
    of its choosing.  The reader is shown to be a cursor into the list of the source's
    bits, whatever the chunks; its 64-bit buffer never overflows. *)

From S2P Require Import Prelude.

(** ** Data *)

(** [io::Error], by how the code makes it: [invalid(message)], [truncated()], or an error
    of the source. *)
Inductive IoError : Type :=
| InvalidData (message : string)
| EndedMidSymbol
| SourceFailed.

#[global] Instance IoError_eq_dec : EqDecision IoError.
Proof. solve_decision. Defined.

(** [source]: the answers to the reads still to come, [None] for a failed one; when they
    are used up the source is at its end.  [pending] is [buffer[position..filled]]. *)
Record BitReader := mkReader {
  source : list (option bytes);
  pending : bytes;
  bit_buffer : Z;
  bit_count : Z;
  source_exhausted : bool
}.

Definition reader_new (source : list (option bytes)) : BitReader := mkReader source [] 0 0 false.

Definition reverse_bits (value : Z) (bits : nat) : Z :=
  foldl (fun out index =>
      Z.lor out (Z.shiftl (Z.land (Z.shiftr value (Z.of_nat index)) 1)
                          (Z.of_nat (bits - 1 - index))))
    0 (seq 0 bits).

Definition next_byte (r : BitReader) : result IoError (option Z * BitReader) :=
  match pending r with
  | byte :: rest => Ok (Some byte, mkReader (source r) rest (bit_buffer r) (bit_count r) (source_exhausted r))
  | [] =>
      if source_exhausted r then Ok (None, r)
      else
        match source r with
        | None :: _ => Err SourceFailed
        | [] | Some [] :: _ =>
            Ok (None, mkReader (tl (source r)) [] (bit_buffer r) (bit_count r) true)
        | Some (byte :: rest) :: source =>
            Ok (Some byte, mkReader source rest (bit_buffer r) (bit_count r) false)
        end
  end.

(** [bit_buffer |= byte << bit_count; bit_count += 8] *)
Definition push_byte (r : BitReader) (byte : Z) : BitReader :=
  mkReader (source r) (pending r) (Z.lor (bit_buffer r) (Z.shiftl byte (bit_count r)))
    (bit_count r + 8) (source_exhausted r).

(** The [while self.bit_count < bits] loops of [need] and [peek], which differ in what the
    end of the source means; each round adds eight bits, so [rounds] covers them. *)
Fixpoint fill_bits (rounds : nat) (bits : Z) (at_end : result IoError unit) (r : BitReader) :
    result IoError BitReader :=
  match rounds with
  | O => Ok r
  | S rounds =>
      if bit_count r <? bits then
        let? (byte, r) := next_byte r in
        match byte with
        | Some byte => fill_bits rounds bits at_end (push_byte r byte)
        | None => let? _ := at_end in Ok r
        end
      else Ok r
  end.

Definition need (bits : Z) (r : BitReader) : result IoError BitReader :=
  fill_bits (Z.to_nat bits) bits (Err EndedMidSymbol) r.

Definition consume (bits : Z) (r : BitReader) : BitReader :=
  mkReader (source r) (pending r) (Z.shiftr (bit_buffer r) bits) (bit_count r - bits) (source_exhausted r).

(** [bit_buffer & ((1 << bits) - 1)] *)
Definition low_bits (bits : Z) (r : BitReader) : Z := Z.land (bit_buffer r) (Z.shiftl 1 bits - 1).

Definition take_bits (bits : Z) (r : BitReader) : result IoError (Z * BitReader) :=
  if bits =? 0 then Ok (0, r)
  else
    let? r := need bits r in
    Ok (low_bits bits r, consume bits r).

Definition peek (bits : Z) (r : BitReader) : result IoError (Z * BitReader) :=
  let? r := fill_bits (Z.to_nat bits) bits (Ok tt) r in
  Ok (low_bits bits r, r).

Definition align_to_byte (r : BitReader) : BitReader := consume (bit_count r mod 8) r.

(** [for slot in out.iter_mut()] over a slice of [count] bytes. *)
Fixpoint read_aligned (count : nat) (r : BitReader) : result IoError (bytes * BitReader) :=
  match count with
  | O => Ok ([], r)
  | S count =>
      let? (byte, r) :=
        (if 8 <=? bit_count r then Ok (Z.land (bit_buffer r) 255, consume 8 r)
         else
           let? (byte, r) := next_byte r in
           match byte with Some byte => Ok (byte, r) | None => Err EndedMidSymbol end) in
      let? (rest, r) := read_aligned count r in
      Ok (byte :: rest, r)
  end.

(** [drain_remaining]: what the buffer still holds, then the source up to 4096 bytes. *)
Fixpoint drain_buffered (rounds : nat) (r : BitReader) : bytes * BitReader :=
  match rounds with
  | O => ([], r)
  | S rounds =>
      if 8 <=? bit_count r then
        let '(out, last) := drain_buffered rounds (consume 8 r) in
        (Z.land (bit_buffer r) 255 :: out, last)
      else ([], r)
  end.

Fixpoint drain_source (rounds : nat) (out : bytes) (r : BitReader) : result IoError bytes :=
  match rounds with
  | O => Ok out
  | S rounds =>
      let? (byte, r) := next_byte r in
      match byte with
      | None => Ok out
      | Some byte =>
          let out := out ++ [byte] in
          if 4096 <? zlen out then Ok out else drain_source rounds out r
      end
  end.

Definition drain_remaining (r : BitReader) : result IoError bytes :=
  let '(out, r) := drain_buffered (Z.to_nat (bit_count r)) (align_to_byte r) in
  drain_source (Z.to_nat 4097) out r.

(** ** Lists of bits *)

(** The [n] low bits of [z], least significant first. *)
Definition bits_of (n : nat) (z : Z) : list bool := map (fun i => Z.testbit z (Z.of_nat i)) (seq 0 n).

(** The values of bits read least and most significant first. *)
Definition lsb_value (l : list bool) : Z := foldr (fun b acc => Z.b2z b + 2 * acc) 0 l.
Definition msb_value (l : list bool) : Z := foldl (fun acc b => 2 * acc + Z.b2z b) 0 l.

Lemma length_bits_of n z : length (bits_of n z) = n.
Proof. unfold bits_of. by rewrite length_map, length_seq. Qed.

Lemma bits_of_lookup n z i : (i < n)%nat -> bits_of n z !! i = Some (Z.testbit z (Z.of_nat i)).
Proof. intros Hi. unfold bits_of. rewrite list_lookup_fmap, lookup_seq_lt by done. done. Qed.

Lemma bits_of_ext n z w :
  (forall i, (i < n)%nat -> Z.testbit z (Z.of_nat i) = Z.testbit w (Z.of_nat i)) -> bits_of n z = bits_of n w.
Proof. intros H. unfold bits_of. apply map_ext_in. intros i Hi%in_seq. apply H. lia. Qed.

Lemma lookup_bits_of n z i b : bits_of n z !! i = Some b -> (i < n)%nat /\ b = Z.testbit z (Z.of_nat i).
Proof.
  intros H. pose proof (lookup_lt_Some _ _ _ H) as Hi. rewrite length_bits_of in Hi.
  rewrite bits_of_lookup in H by done. by injection H.
Qed.

Lemma bits_of_app n m z : 0 <= z -> bits_of (n + m) z = bits_of n z ++ bits_of m (Z.shiftr z (Z.of_nat n)).
Proof.
  intros Hz. apply list_eq. intros i. destruct (decide (i < n)%nat) as [Hi|Hi].
  - rewrite lookup_app_l by (by rewrite length_bits_of). by rewrite !bits_of_lookup by lia.
  - rewrite lookup_app_r by (rewrite length_bits_of; lia). rewrite length_bits_of.
    destruct (decide (i < n + m)%nat).
    + rewrite !bits_of_lookup by lia. rewrite Z.shiftr_spec by lia. f_equal. f_equal. lia.
    + rewrite !lookup_ge_None_2 by (rewrite length_bits_of; lia). done.
Qed.

Lemma bits_of_take n m z : (n <= m)%nat -> take n (bits_of m z) = bits_of n z.
Proof.
  intros H. apply list_eq. intros i. destruct (decide (i < n)%nat).
  - rewrite lookup_take_lt by done. by rewrite !bits_of_lookup by lia.
  - rewrite lookup_take_ge by lia. symmetry. apply lookup_ge_None_2. rewrite length_bits_of. lia.
Qed.

Lemma bits_of_drop n m z : 0 <= z -> (n <= m)%nat -> drop n (bits_of m z) = bits_of (m - n) (Z.shiftr z (Z.of_nat n)).
Proof.
  intros Hz H. replace m with (n + (m - n))%nat at 1 by lia. rewrite bits_of_app by done.
  rewrite <- (length_bits_of n z) at 1. by rewrite drop_app_length.
Qed.

Lemma lsb_bounds l : 0 <= lsb_value l < 2 ^ zlen l.
Proof.
  induction l as [|b l IH]; [by cbn|]. cbn [lsb_value foldr]. fold (lsb_value l).
  replace (zlen (b :: l)) with (Z.succ (zlen l)) by (unfold zlen; cbn; lia).
  rewrite Z.pow_succ_r by (unfold zlen; lia). destruct b; cbn [Z.b2z]; lia.
Qed.

Lemma lsb_testbit l j : 0 <= j -> Z.testbit (lsb_value l) j = nth (Z.to_nat j) l false.
Proof.
  revert j. induction l as [|b l IH]; intros j Hj.
  - cbn. rewrite Z.testbit_0_l. by destruct (Z.to_nat j).
  - cbn [lsb_value foldr]. fold (lsb_value l). rewrite Z.add_comm.
    destruct (decide (j = 0)) as [->|Hne].
    + apply Z.testbit_0_r.
    + replace j with (Z.succ (j - 1)) by lia. rewrite Z.testbit_succ_r by lia. rewrite IH by lia.
      replace (Z.to_nat (Z.succ (j - 1))) with (S (Z.to_nat (j - 1))) by lia. done.
Qed.

Lemma lsb_bits_of n z : lsb_value (bits_of n z) = z mod 2 ^ Z.of_nat n.
Proof.
  apply Z.bits_inj'. intros j Hj. rewrite lsb_testbit by done.
  destruct (decide (j < Z.of_nat n)) as [Hlt|Hge].
  - rewrite Z.mod_pow2_bits_low by done. apply nth_lookup_Some.
    rewrite bits_of_lookup by lia. f_equal. f_equal. lia.
  - rewrite Z.mod_pow2_bits_high by lia. apply nth_overflow. rewrite length_bits_of. lia.
Qed.

Lemma bits_of_lsb l : bits_of (length l) (lsb_value l) = l.
Proof.
  apply list_eq_same_length with (length l); [done|by rewrite length_bits_of|].
  intros i x y Hi [_ ->]%lookup_bits_of Hy. rewrite lsb_testbit by lia. rewrite Nat2Z.id.
  by apply nth_lookup_Some.
Qed.

Lemma msb_lsb l : msb_value l = lsb_value (rev l).
Proof.
  induction l as [|b l IH] using rev_ind; [done|]. unfold msb_value. rewrite foldl_app, rev_app_distr.
  cbn [foldl rev app lsb_value foldr]. unfold msb_value, lsb_value in IH. rewrite IH. lia.
Qed.

Lemma msb_bounds l : 0 <= msb_value l < 2 ^ zlen l.
Proof. rewrite msb_lsb. pose proof (lsb_bounds (rev l)) as H. unfold zlen in *. by rewrite length_rev in H. Qed.

Lemma msb_app l k : msb_value (l ++ k) = msb_value l * 2 ^ zlen k + msb_value k.
Proof.
  unfold msb_value. rewrite foldl_app. generalize (foldl (fun acc b => 2 * acc + Z.b2z b) 0 l). intros a.
  induction k as [|b k IH] using rev_ind; [change (2 ^ zlen []) with 1; cbn [foldl]; lia|]. rewrite !foldl_app. cbn [foldl]. rewrite IH.
  rewrite zlen_app, Z.pow_add_r by (unfold zlen; lia). change (2 ^ zlen [b]) with 2. lia.
Qed.

Lemma msb_inj l k : length l = length k -> msb_value l = msb_value k -> l = k.
Proof.
  intros Hlen. rewrite !msb_lsb. intros H. rewrite <- (rev_involutive l), <- (rev_involutive k). f_equal.
  rewrite <- (bits_of_lsb (rev l)), <- (bits_of_lsb (rev k)), !length_rev. by rewrite Hlen, H.
Qed.

Lemma reverse_bits_spec v n : reverse_bits v n = msb_value (bits_of n v).
Proof.
  rewrite msb_lsb. apply Z.bits_inj'. intros j Hj. rewrite lsb_testbit by done.
  unfold reverse_bits.
  set (f := fun (out : Z) (index : nat) => _).
  assert (forall l, Forall (fun i => (i < n)%nat) l -> forall out,
    Z.testbit (foldl f out l) j =
      Z.testbit out j || existsb (fun i => (Z.of_nat (n - 1 - i) =? j) && Z.testbit v (Z.of_nat i)) l) as Hfold.
  { induction 1 as [|i l Hi _ IH]; intros out; cbn [foldl existsb]; [by rewrite orb_false_r|].
    rewrite IH. unfold f at 1. rewrite Z.lor_spec, <- orb_assoc. f_equal. f_equal.
    rewrite Z.shiftl_spec by done.
    destruct (Z.eqb_spec (Z.of_nat (n - 1 - i)) j) as [Heq|Hne]; cbn [andb].
    - rewrite Heq, Z.sub_diag. rewrite Z.land_spec, Z.shiftr_spec by lia. cbn. by rewrite andb_true_r.
    - destruct (decide (j < Z.of_nat (n - 1 - i))); [apply Z.testbit_neg_r; lia|].
      rewrite Z.land_spec. change 1 with (2 ^ 0). rewrite Z.pow2_bits_false by lia.
      apply andb_false_r. }
  rewrite Hfold by (apply Forall_forall; intros i [_ Hi]%elem_of_seq; lia). rewrite Z.testbit_0_l. cbn [orb].
  destruct (decide (j < Z.of_nat n)) as [Hlt|Hge].
  - rewrite rev_nth by (rewrite length_bits_of; lia). rewrite length_bits_of.
    rewrite (nth_lookup_Some _ _ _ (Z.testbit v (Z.of_nat (n - S (Z.to_nat j))))) by (apply bits_of_lookup; lia).
    apply Bool.eq_iff_eq_true. rewrite existsb_exists. split.
    + intros (i & Hi%in_seq & [He Ht]%andb_prop). apply Z.eqb_eq in He.
      by replace (n - S (Z.to_nat j))%nat with i by lia.
    + intros Ht. exists (n - S (Z.to_nat j))%nat. split; [apply in_seq; lia|].
      rewrite Ht, andb_true_r. apply Z.eqb_eq. lia.
  - rewrite nth_overflow by (rewrite length_rev, length_bits_of; lia).
    apply Bool.not_true_iff_false. rewrite existsb_exists. intros (i & Hi%in_seq & [He _]%andb_prop).
    apply Z.eqb_eq in He. lia.
Qed.

Lemma bits_of_reverse v n : bits_of n (reverse_bits v n) = rev (bits_of n v).
Proof.
  rewrite reverse_bits_spec, msb_lsb. pose proof (bits_of_lsb (rev (bits_of n v))) as H.
  by rewrite length_rev, length_bits_of in H.
Qed.

(** ** The reader as a cursor *)

(** What the source will deliver: it is at its end at the first empty answer. *)
Fixpoint delivered (source : list (option bytes)) : bytes :=
  match source with
  | [] | None :: _ | Some [] :: _ => []
  | Some chunk :: source => chunk ++ delivered source
  end.

Definition remaining (r : BitReader) : bytes :=
  pending r ++ if source_exhausted r then [] else delivered (source r).

(** The bits still to be read. *)
Definition stream (r : BitReader) : list bool :=
  bits_of (Z.to_nat (bit_count r)) (bit_buffer r) ++ flat_map (bits_of 8) (remaining r).

(** The answers are byte slices and no read fails. *)
Definition source_ok (source : list (option bytes)) : Prop :=
  Forall (fun answer => exists chunk, answer = Some chunk /\ bytes_ok chunk) source.

(** The widest field any caller asks for. *)
Definition MAX_FIELD : Z := 16.

(** [bit_buffer] is a [u64] that holds at most [MAX_FIELD + 7] bits, so that the shift of
    the next byte into it loses nothing. *)
Definition reader_ok (r : BitReader) : Prop :=
  source_ok (source r) /\ bytes_ok (pending r) /\
  0 <= bit_count r <= MAX_FIELD + 7 /\ 0 <= bit_buffer r < 2 ^ bit_count r.

Lemma reader_new_ok source : source_ok source -> reader_ok (reader_new source).
Proof. intros H. split_and!; try done. constructor. Qed.

Lemma length_stream r : reader_ok r -> zlen (stream r) = bit_count r + 8 * zlen (remaining r).
Proof.
  intros (_ & _ & Hc & _). unfold stream. rewrite zlen_app. f_equal.
  - unfold zlen. rewrite length_bits_of. lia.
  - unfold zlen. induction (remaining r) as [|b l IH]; [done|]. cbn [flat_map].
    rewrite length_app, length_bits_of. cbn [length]. lia.
Qed.

(** [next_byte] takes the first byte of the remaining ones. *)
Lemma next_byte_spec r :
  reader_ok r ->
  exists r', next_byte r = Ok (head (remaining r), r') /\ remaining r' = tail (remaining r) /\
    reader_ok r' /\ bit_count r' = bit_count r /\ bit_buffer r' = bit_buffer r /\
    Forall u8 (option_list (head (remaining r))).
Proof.
  intros (Hs & Hp & Hc & Hb). unfold next_byte, remaining.
  destruct (pending r) as [|b rest] eqn:Ep; cbn [app].
  - destruct (source_exhausted r) eqn:Ex.
    { exists r. rewrite Ep, Ex. split_and!; unfold reader_ok; rewrite ?Ep; done. }
    destruct (source r) as [|[[|b rest]|] src] eqn:Es.
    + eexists. split; [done|]. split_and!; try done.
    + inversion_clear Hs. eexists. split; [done|]. by split_and!.
    + apply Forall_cons in Hs as [(c & Heq & Hbytes) Hsrc]. injection Heq as <-.
      apply Forall_cons in Hbytes as [? ?].
      eexists. split; [done|]. split_and!; try done. by constructor.
    + by apply Forall_cons in Hs as [(c & ? & _) _].
  - inversion_clear Hp. eexists. split; [done|]. split_and!; try done. by constructor.
Qed.

Lemma push_byte_spec r b rest :
  reader_ok r -> bit_count r < MAX_FIELD -> u8 b -> remaining r = rest ->
  reader_ok (push_byte r b) /\
  stream (push_byte r b) =
    bits_of (Z.to_nat (bit_count r)) (bit_buffer r) ++ bits_of 8 b ++ flat_map (bits_of 8) rest.
Proof.
  intros (Hs & Hp & Hc & Hb) Hroom Hu <-. unfold u8, U8_MAX in Hu.
  assert (Z.lor (bit_buffer r) (Z.shiftl b (bit_count r)) = bit_buffer r + b * 2 ^ bit_count r) as Hlor.
  { rewrite Z.lor_comm, lor_shiftl_add by lia. lia. }
  split.
  - split_and!; cbn [push_byte bit_count bit_buffer]; try done; try lia.
    rewrite Hlor, Z.pow_add_r by lia. change (2 ^ 8) with 256. nia.
  - unfold stream. change (remaining (push_byte r b)) with (remaining r). rewrite app_assoc. f_equal.
    cbn [push_byte bit_count bit_buffer]. rewrite Z2Nat.inj_add, Hlor by lia.
    rewrite bits_of_app by nia. rewrite Z2Nat.id by lia. f_equal.
    + apply bits_of_ext. intros i Hi.
      rewrite <- (Z.mod_pow2_bits_low (_ + _) (bit_count r)), Z.mod_add, Z.mod_small by lia. done.
    + rewrite Z.shiftr_div_pow2, Z.div_add, Z.div_small by lia. done.
Qed.

(** The two filling loops neither lose nor invent a bit, and stop short only at the end of
    the source. *)
Lemma fill_bits_spec rounds bits at_end r :
  reader_ok r -> bits <= MAX_FIELD -> bits <= bit_count r + 8 * Z.of_nat rounds ->
  match fill_bits rounds bits at_end r with
  | Ok r' => stream r' = stream r /\ reader_ok r' /\
      (bits <= bit_count r' \/ remaining r' = [] /\ bit_count r' < bits /\ at_end = Ok tt)
  | Err e => at_end = Err e /\ zlen (stream r) < bits
  end.
Proof.
  revert r. induction rounds as [|rounds IH]; intros r Hr Hmax Hrounds; cbn [fill_bits].
  { split_and!; try done. left. lia. }
  destruct (Z.ltb_spec (bit_count r) bits) as [Hlt|Hge]; [|split_and!; try done; by left].
  destruct (next_byte_spec r Hr) as (r1 & -> & Hrem & Hr1 & Hc & Hb & Hu).
  destruct (remaining r) as [|b rest] eqn:Er; cbn [head tail option_list] in *.
  - destruct at_end as [[]|e].
    + unfold stream. rewrite Hrem, Er, Hc, Hb. split_and!; try done. right. by split_and!.
    + split; [done|]. rewrite length_stream, Er by done. change (zlen []) with 0. lia.
  - apply Forall_cons in Hu as [Hu _].
    destruct (push_byte_spec r1 b rest Hr1 ltac:(lia) Hu Hrem) as [Hr2 Hst].
    specialize (IH (push_byte r1 b) Hr2 Hmax ltac:(cbn [push_byte bit_count]; lia)).
    assert (stream (push_byte r1 b) = stream r) as Hsame.
    { rewrite Hst. unfold stream. rewrite Er, Hc, Hb. cbn [flat_map]. done. }
    rewrite <- Hsame. apply IH.
Qed.

Lemma consume_spec bits r :
  reader_ok r -> 0 <= bits <= bit_count r ->
  reader_ok (consume bits r) /\ stream (consume bits r) = drop (Z.to_nat bits) (stream r).
Proof.
  intros (Hs & Hp & Hc & Hb) Hbits. split.
  - split_and!; cbn [consume bit_count bit_buffer source pending]; try done; try lia.
    + apply Z.shiftr_nonneg. lia.
    + rewrite Z.shiftr_div_pow2 by lia. apply Z.div_lt_upper_bound; [lia|].
      rewrite <- Z.pow_add_r by lia. replace (bits + (bit_count r - bits)) with (bit_count r) by lia. lia.
  - unfold stream. change (remaining (consume bits r)) with (remaining r).
    rewrite drop_app_le by (rewrite length_bits_of; lia). f_equal.
    cbn [consume bit_count bit_buffer]. rewrite bits_of_drop by lia. f_equal; [lia|]. f_equal. lia.
Qed.

Lemma low_bits_spec bits r :
  reader_ok r -> 0 <= bits -> bits <= bit_count r \/ remaining r = [] ->
  low_bits bits r = lsb_value (take (Z.to_nat bits) (stream r)).
Proof.
  intros (_ & _ & Hc & Hb) Hbits Hor. unfold low_bits. rewrite Z.shiftl_mul_pow2, Z.mul_1_l by done.
  replace (2 ^ bits - 1) with (Z.ones bits) by (rewrite Z.ones_equiv; lia). rewrite Z.land_ones by done.
  unfold stream. destruct (decide (bits <= bit_count r)) as [Hle|Hgt].
  - rewrite take_app_le by (rewrite length_bits_of; lia). rewrite bits_of_take by lia.
    rewrite lsb_bits_of. f_equal. f_equal. lia.
  - destruct Hor as [?| ->]; [lia|]. cbn [flat_map]. rewrite app_nil_r, take_ge by (rewrite length_bits_of; lia).
    rewrite lsb_bits_of, Z2Nat.id by lia. rewrite !Z.mod_small; [done|done|].
    split; [lia|]. eapply Z.lt_le_trans; [apply Hb|]. apply Z.pow_le_mono_r; lia.
Qed.

Lemma need_spec bits r :
  reader_ok r -> 0 <= bits <= MAX_FIELD ->
  match need bits r with
  | Ok r' => bits <= zlen (stream r) /\ reader_ok (consume bits r') /\
      stream (consume bits r') = drop (Z.to_nat bits) (stream r)
  | Err e => e = EndedMidSymbol /\ zlen (stream r) < bits
  end.
Proof.
  intros Hr Hbits. unfold need. pose proof Hr as (_ & _ & Hc & _).
  pose proof (fill_bits_spec (Z.to_nat bits) bits (Err EndedMidSymbol) r Hr ltac:(lia) ltac:(lia)) as Hf.
  destruct (fill_bits _ _ _ r) as [r'|e].
  - destruct Hf as (<- & Hr' & [Hle|(_ & _ & ?)]); [|done].
    destruct (consume_spec bits r' Hr' ltac:(lia)) as [? ?].
    rewrite (length_stream r') by done. pose proof (zlen_nonneg (remaining r')). split_and!; [lia|done|done].
  - by destruct Hf as [[= <-] Hlt].
Qed.

Lemma need_low_bits bits r r' :
  reader_ok r -> 0 <= bits <= MAX_FIELD -> need bits r = Ok r' ->
  low_bits bits r' = lsb_value (take (Z.to_nat bits) (stream r)).
Proof.
  intros Hr Hbits Hn. unfold need in Hn. pose proof Hr as (_ & _ & Hc & _).
  pose proof (fill_bits_spec (Z.to_nat bits) bits (Err EndedMidSymbol) r Hr ltac:(lia) ltac:(lia)) as Hf.
  rewrite Hn in Hf. destruct Hf as (<- & Hr' & [Hle|(_ & _ & ?)]); [|done].
  apply low_bits_spec; [done|lia|by left].
Qed.

Lemma take_bits_spec bits r :
  reader_ok r -> 0 <= bits <= MAX_FIELD ->
  if bits <=? zlen (stream r) then
    exists r', take_bits bits r = Ok (lsb_value (take (Z.to_nat bits) (stream r)), r') /\
      stream r' = drop (Z.to_nat bits) (stream r) /\ reader_ok r'
  else take_bits bits r = Err EndedMidSymbol.
Proof.
  intros Hr Hbits. unfold take_bits. destruct (Z.eqb_spec bits 0) as [->|Hne].
  { pose proof (zlen_nonneg (stream r)). destruct (Z.leb_spec 0 (zlen (stream r))); [|lia]. by exists r. }
  pose proof (need_spec bits r Hr ltac:(lia)) as Hneed. destruct (need bits r) as [r'|e] eqn:En.
  - destruct Hneed as (Hle & Hr2 & Hst2). destruct (Z.leb_spec bits (zlen (stream r))); [|lia].
    exists (consume bits r'). split_and!; [|done|done]. by rewrite (need_low_bits bits r r').
  - destruct Hneed as [-> Hlt]. by destruct (Z.leb_spec bits (zlen (stream r))); [lia|].
Qed.

Lemma peek_spec bits r :
  reader_ok r -> 0 <= bits <= MAX_FIELD ->
  exists r', peek bits r = Ok (lsb_value (take (Z.to_nat bits) (stream r)), r') /\
    stream r' = stream r /\ reader_ok r' /\ (bits <= bit_count r' \/ zlen (stream r) = bit_count r').
Proof.
  intros Hr Hbits. unfold peek. pose proof (fill_bits_spec (Z.to_nat bits) bits (Ok tt) r Hr) as Hfill.
  destruct Hr as (_ & _ & Hc & _). specialize (Hfill ltac:(lia) ltac:(lia)).
  destruct (fill_bits _ _ _ r) as [r'|e]; [|by destruct Hfill].
  destruct Hfill as (Hst & Hr' & Hend). exists r'. rewrite <- Hst. split_and!; try done.
  - rewrite low_bits_spec; [done|done|lia|]. destruct Hend as [|(? & _)]; [by left|by right].
  - destruct Hend as [|(Hrem & _)]; [by left|right]. rewrite length_stream, Hrem by done.
    change (zlen []) with 0. lia.
Qed.

Lemma stream_mod_8 r : reader_ok r -> zlen (stream r) mod 8 = bit_count r mod 8.
Proof. intros Hr. rewrite length_stream by done. rewrite Z.mul_comm. by apply Z.mod_add. Qed.

Lemma align_spec r :
  reader_ok r ->
  reader_ok (align_to_byte r) /\ bit_count (align_to_byte r) mod 8 = 0 /\
  stream (align_to_byte r) = drop (Z.to_nat (zlen (stream r) mod 8)) (stream r).
Proof.
  intros Hr. rewrite stream_mod_8 by done. unfold align_to_byte.
  pose proof Hr as (_ & _ & Hc & _). pose proof (Z.mod_pos_bound (bit_count r) 8 ltac:(lia)).
  pose proof (Z.mod_le (bit_count r) 8 ltac:(lia) ltac:(lia)).
  destruct (consume_spec (bit_count r mod 8) r Hr ltac:(lia)) as [? ?]. split_and!; [done| |done].
  cbn [consume bit_count]. rewrite Zminus_mod_idemp_r, Z.sub_diag. done.
Qed.

(** The bytes of a list of bits that starts at a byte. *)
Fixpoint bytes_of_bits (count : nat) (l : list bool) : bytes :=
  match count with
  | O => []
  | S count => lsb_value (take 8 l) :: bytes_of_bits count (drop 8 l)
  end.

(** One round of [read_aligned]. *)
Definition aligned_byte (r : BitReader) : result IoError (Z * BitReader) :=
  if 8 <=? bit_count r then Ok (Z.land (bit_buffer r) 255, consume 8 r)
  else
    let? (byte, r) := next_byte r in
    match byte with Some byte => Ok (byte, r) | None => Err EndedMidSymbol end.

Lemma aligned_byte_spec r :
  reader_ok r -> bit_count r mod 8 = 0 ->
  if 8 <=? zlen (stream r) then
    exists r', aligned_byte r = Ok (lsb_value (take 8 (stream r)), r') /\
      stream r' = drop 8 (stream r) /\ reader_ok r' /\ bit_count r' mod 8 = 0
  else aligned_byte r = Err EndedMidSymbol.
Proof.
  intros Hr Hal. pose proof (length_stream r Hr) as Hlen. pose proof (zlen_nonneg (remaining r)).
  pose proof Hr as (_ & _ & Hc & _). unfold aligned_byte.
  destruct (Z.leb_spec 8 (bit_count r)) as [Hle|Hgt].
  - destruct (Z.leb_spec 8 (zlen (stream r))); [|lia].
    destruct (consume_spec 8 r Hr ltac:(lia)) as [Hr' Hst']. exists (consume 8 r). split_and!; [|done|done|].
    + f_equal. f_equal. rewrite <- (low_bits_spec 8) by (done || lia || by left). done.
    + cbn [consume bit_count]. rewrite Zminus_mod, Hal. done.
  - assert (bit_count r = 0) as Hz by (rewrite Z.mod_small in Hal; lia).
    destruct (next_byte_spec r Hr) as (r1 & -> & Hrem & Hr1 & Hc1 & Hb1 & Hu).
    unfold stream in *. rewrite Hz in *. change (bits_of (Z.to_nat 0) (bit_buffer r)) with (@nil bool) in *.
    cbn [app] in *.
    destruct (remaining r) as [|b rest] eqn:Er; cbn [head tail option_list flat_map] in *; [done|].
    apply Forall_cons in Hu as [Hu _]. rewrite zlen_app. pose proof (zlen_nonneg (flat_map (bits_of 8) rest)).
    destruct (Z.leb_spec 8 (zlen (bits_of 8 b) + zlen (flat_map (bits_of 8) rest))) as [_|Hlt].
    + exists r1. split_and!; [|rewrite Hc1, Hb1, Hrem; done|done|by rewrite Hc1].
      f_equal. f_equal. rewrite take_app_length' by (by rewrite length_bits_of). rewrite lsb_bits_of.
      symmetry. apply Z.mod_small. unfold u8, U8_MAX in Hu. change (2 ^ Z.of_nat 8) with 256. lia.
    + change (zlen (bits_of 8 b)) with 8 in Hlt. lia.
Qed.

Lemma read_aligned_spec count r :
  reader_ok r -> bit_count r mod 8 = 0 ->
  if 8 * Z.of_nat count <=? zlen (stream r) then
    exists r', read_aligned count r = Ok (bytes_of_bits count (stream r), r') /\
      stream r' = drop (8 * count) (stream r) /\ reader_ok r' /\ bit_count r' mod 8 = 0
  else read_aligned count r = Err EndedMidSymbol.
Proof.
  revert r. induction count as [|count IH]; intros r Hr Hal.
  { pose proof (zlen_nonneg (stream r)). destruct (Z.leb_spec (8 * Z.of_nat 0) (zlen (stream r))); [|lia].
    by exists r. }
  cbn [read_aligned bytes_of_bits]. fold (aligned_byte r).
  pose proof (aligned_byte_spec r Hr Hal) as Hbyte.
  destruct (Z.leb_spec 8 (zlen (stream r))) as [Hle|Hgt].
  - destruct Hbyte as (r1 & -> & Hst & Hr1 & Hal1). specialize (IH r1 Hr1 Hal1). rewrite Hst in IH.
    replace (zlen (drop 8 (stream r))) with (zlen (stream r) - 8) in IH
      by (unfold zlen in *; rewrite length_drop; lia).
    destruct (Z.leb_spec (8 * Z.of_nat count) (zlen (stream r) - 8)) as [Hle1|Hgt1],
      (Z.leb_spec (8 * Z.of_nat (S count)) (zlen (stream r))) as [Hle2|Hgt2]; try lia.
    + destruct IH as (r2 & -> & Hst2 & Hr2 & Hal2). exists r2. split_and!; try done.
      rewrite Hst2, drop_drop. f_equal. lia.
    + by rewrite IH.
  - destruct (Z.leb_spec (8 * Z.of_nat (S count)) (zlen (stream r))); [lia|]. by rewrite Hbyte.
Qed.

(** [drain_remaining] gives the bytes that are left, from the next byte on, up to 4097. *)
Lemma bytes_of_bits_app n m l :
  (8 * n <= length l)%nat -> bytes_of_bits (n + m) l = bytes_of_bits n l ++ bytes_of_bits m (drop (8 * n) l).
Proof.
  revert l. induction n as [|n IH]; intros l Hl; cbn [Nat.add bytes_of_bits app]; [by rewrite Nat.mul_0_r|].
  rewrite IH by (rewrite length_drop; lia). rewrite drop_drop. by replace (8 + 8 * n)%nat with (8 * S n)%nat by lia.
Qed.

Lemma length_bytes_of_bits n l : length (bytes_of_bits n l) = n.
Proof. revert l. induction n as [|n IH]; intros l; cbn [bytes_of_bits length]; [done|]. by rewrite IH. Qed.

Lemma drain_buffered_spec rounds r :
  reader_ok r -> bit_count r mod 8 = 0 -> bit_count r <= 8 * Z.of_nat rounds ->
  let k := Z.to_nat (bit_count r / 8) in
  exists r', drain_buffered rounds r = (bytes_of_bits k (stream r), r') /\
    stream r' = drop (8 * k) (stream r) /\ reader_ok r' /\ bit_count r' = 0.
Proof.
  revert r. induction rounds as [|rounds IH]; intros r Hr Hal Hb k; pose proof Hr as (_ & _ & Hc & _).
  { exists r. unfold k. assert (bit_count r = 0) as Hz by lia. rewrite Hz. by split_and!. }
  cbn [drain_buffered]. destruct (Z.leb_spec 8 (bit_count r)) as [Hle|Hgt].
  - pose proof (aligned_byte_spec r Hr Hal) as Hbyte. pose proof (length_stream r Hr). pose proof (zlen_nonneg (remaining r)).
    destruct (Z.leb_spec 8 (zlen (stream r))); [|lia]. unfold aligned_byte in Hbyte.
    rewrite (proj2 (Z.leb_le _ _)) in Hbyte by done. destruct Hbyte as (r1 & Heq & Hst & Hr1 & Hal1).
    injection Heq as -> <-. destruct (IH (consume 8 r) Hr1 Hal1 ltac:(cbn [consume bit_count]; lia)) as (r' & -> & Hst' & Hr' & Hz).
    exists r'. cbn [consume bit_count] in *.
    assert (k = S (Z.to_nat ((bit_count r - 8) / 8))) as ->.
    { unfold k. replace (bit_count r) with (bit_count r - 8 + 1 * 8) at 1 by lia. rewrite Z.div_add by lia.
      pose proof (Z.div_pos (bit_count r - 8) 8). lia. }
    cbn [bytes_of_bits]. rewrite Hst in *. split_and!; try done. rewrite Hst', drop_drop. f_equal. lia.
  - assert (bit_count r = 0) as Hz by (rewrite Z.mod_small in Hal; lia).
    exists r. unfold k. rewrite Hz. by split_and!.
Qed.

Lemma drain_source_spec rounds out r :
  reader_ok r -> bit_count r = 0 -> 4097 - zlen out <= Z.of_nat rounds -> zlen out <= 4096 ->
  drain_source rounds out r =
    Ok (out ++ take (Z.to_nat (4097 - zlen out)) (bytes_of_bits (length (stream r) / 8) (stream r))).
Proof.
  revert out r. induction rounds as [|rounds IH]; intros out r Hr Hz Hrounds Hout; [lia|].
  cbn [drain_source]. pose proof (aligned_byte_spec r Hr ltac:(by rewrite Hz)) as Hbyte. unfold aligned_byte in Hbyte.
  rewrite Hz in Hbyte. cbn [Z.leb Z.compare] in Hbyte.
  destruct (next_byte_spec r Hr) as (r1 & Hn & Hrem & Hr1 & Hc1 & _). rewrite Hn in *.
  destruct (Z.leb_spec 8 (zlen (stream r))) as [Hle|Hgt].
  - destruct (head (remaining r)) as [b|]; [|by destruct Hbyte as (? & ? & _)].
    destruct Hbyte as (r1' & Heq & Hst & _). injection Heq as -> <-.
    assert (length (stream r) / 8 = S (length (stream r1) / 8))%nat as Hdiv.
    { rewrite Hst, length_drop. unfold zlen in Hle. replace (length (stream r)) with (length (stream r) - 8 + 1 * 8)%nat at 1 by lia.
      rewrite Nat.div_add by lia. lia. }
    rewrite Hdiv. cbn [bytes_of_bits]. rewrite <- Hst. set (b := lsb_value _).
    replace (Z.to_nat (4097 - zlen out)) with (S (Z.to_nat (4096 - zlen out))) by lia. cbn [take].
    assert (zlen (out ++ [b]) = zlen out + 1) as Hlen by (by rewrite zlen_app).
    destruct (Z.ltb_spec 4096 (zlen (out ++ [b]))).
    + replace (Z.to_nat (4096 - zlen out)) with O by lia. by rewrite take_0.
    + rewrite IH by (done || congruence || lia). rewrite <- app_assoc, Hlen. cbn [app]. do 4 f_equal. lia.
  - destruct (head (remaining r)) as [b|]; [done|]. unfold zlen in Hgt.
    rewrite Nat.div_small by lia. cbn [bytes_of_bits]. by rewrite take_nil, app_nil_r.
Qed.

Lemma drain_remaining_spec r :
  reader_ok r ->
  let rest := drop (Z.to_nat (zlen (stream r) mod 8)) (stream r) in
  drain_remaining r = Ok (take (Z.to_nat 4097) (bytes_of_bits (length rest / 8) rest)).
Proof.
  intros Hr rest. unfold drain_remaining. destruct (align_spec r Hr) as (Ha & Hal & Hst).
  pose proof Hr as (_ & _ & Hc & _). pose proof Ha as (_ & _ & Hca & _).
  assert (bit_count (align_to_byte r) <= bit_count r) as Hle.
  { cbn [align_to_byte consume bit_count]. pose proof (Z.mod_pos_bound (bit_count r) 8). lia. }
  destruct (drain_buffered_spec (Z.to_nat (bit_count r)) _ Ha Hal ltac:(lia)) as (r' & -> & Hst' & Hr' & Hz).
  fold rest in Hst. rewrite Hst in *. set (k := Z.to_nat (bit_count (align_to_byte r) / 8)) in *.
  assert (8 * k <= length rest)%nat as Hk.
  { pose proof (length_stream _ Ha) as Hl. rewrite Hst in Hl. pose proof (zlen_nonneg (remaining (align_to_byte r))).
    pose proof (Z.mul_div_le (bit_count (align_to_byte r)) 8). pose proof (Z.div_pos (bit_count (align_to_byte r)) 8).
    unfold zlen in Hl. unfold k. lia. }
  assert (zlen (bytes_of_bits k rest) = Z.of_nat k) as Hzk by (unfold zlen; by rewrite length_bytes_of_bits).
  assert (k <= 2)%nat as Hk2.
  { unfold k, MAX_FIELD in *. assert (bit_count (align_to_byte r) / 8 < 3) by (apply Z.div_lt_upper_bound; lia). lia. }
  rewrite (drain_source_spec _ _ r' Hr' Hz) by lia. f_equal. rewrite Hst', length_drop, Hzk.
  assert (length rest / 8 = k + (length rest - 8 * k) / 8)%nat as ->.
  { replace (length rest) with (length rest - 8 * k + k * 8)%nat at 1 by lia. rewrite Nat.div_add by lia. lia. }
  rewrite bytes_of_bits_app by done. rewrite take_app_ge by (rewrite length_bytes_of_bits; lia).
  rewrite length_bytes_of_bits. do 2 f_equal. lia.
Qed.

(** ** Runs of the reader *)

(** What the decoder asks of the reader; a byte-aligned read follows an [align_to_byte]. *)
Inductive reader_op : Type :=
| OpTake (bits : Z)
| OpPeek (bits : Z)
| OpAligned (count : nat).

Definition op_ok (op : reader_op) : Prop :=
  match op with OpTake bits | OpPeek bits => 0 <= bits <= MAX_FIELD | OpAligned _ => True end.

Definition reader_do (op : reader_op) (r : BitReader) : result IoError (list Z * BitReader) :=
  match op with
  | OpTake bits => let? (value, r) := take_bits bits r in Ok ([value], r)
  | OpPeek bits => let? (value, r) := peek bits r in Ok ([value], r)
  | OpAligned count => read_aligned count (align_to_byte r)
  end.

(** The same on the list of bits still to be read. *)
Definition bits_do (op : reader_op) (l : list bool) : result IoError (list Z * list bool) :=
  match op with
  | OpTake bits =>
      if bits <=? zlen l then Ok ([lsb_value (take (Z.to_nat bits) l)], drop (Z.to_nat bits) l)
      else Err EndedMidSymbol
  | OpPeek bits => Ok ([lsb_value (take (Z.to_nat bits) l)], l)
  | OpAligned count =>
      let l := drop (Z.to_nat (zlen l mod 8)) l in
      if 8 * Z.of_nat count <=? zlen l then Ok (bytes_of_bits count l, drop (8 * count) l)
      else Err EndedMidSymbol
  end.

Fixpoint run {A} (step : reader_op -> A -> result IoError (list Z * A)) (ops : list reader_op) (a : A) :
    result IoError (list Z * A) :=
  match ops with
  | [] => Ok ([], a)
  | op :: ops =>
      let? (out, a) := step op a in
      let? (rest, a) := run step ops a in
      Ok (out ++ rest, a)
  end.

(** The two agree, and the reader stays within its bounds. *)
Definition agree (x : result IoError (list Z * BitReader)) (y : result IoError (list Z * list bool)) : Prop :=
  match x, y with
  | Ok (out, r), Ok (out', l) => out = out' /\ stream r = l /\ reader_ok r
  | Err e, Err e' => e = e'
  | _, _ => False
  end.

Lemma reader_do_agrees op r : reader_ok r -> op_ok op -> agree (reader_do op r) (bits_do op (stream r)).
Proof.
  intros Hr Hop. destruct op as [bits|bits|count]; cbn [reader_do bits_do op_ok] in *.
  - pose proof (take_bits_spec bits r Hr Hop) as H. destruct (Z.leb_spec bits (zlen (stream r))).
    + by destruct H as (r' & -> & ? & ?).
    + by rewrite H.
  - by destruct (peek_spec bits r Hr Hop) as (r' & -> & ? & ? & _).
  - destruct (align_spec r Hr) as (Ha & Hal & Hst). rewrite <- Hst.
    pose proof (read_aligned_spec count _ Ha Hal) as H.
    destruct (Z.leb_spec (8 * Z.of_nat count) (zlen (stream (align_to_byte r)))).
    + by destruct H as (r' & -> & ? & ? & _).
    + by rewrite H.
Qed.

Lemma run_agrees ops r :
  reader_ok r -> Forall op_ok ops -> agree (run reader_do ops r) (run bits_do ops (stream r)).
Proof.
  intros Hr Hops. revert r Hr. induction Hops as [|op ops Hop _ IH]; intros r Hr; cbn [run]; [done|].
  pose proof (reader_do_agrees op r Hr Hop) as H. unfold agree in H.
  destruct (reader_do op r) as [[out r1]|e], (bits_do op (stream r)) as [[out' l]|e']; try done.
  destruct H as (-> & <- & Hr1). specialize (IH r1 Hr1). unfold agree in IH |- *.
  destruct (run reader_do ops r1) as [[rest r2]|], (run bits_do ops (stream r1)) as [[rest' l2]|]; try done.
  by destruct IH as (-> & ? & ?).
Qed.

(** The bit reader is a cursor into the bits of its source: any sequence of takes, peeks
    and byte-aligned reads gives the values, the final position and the end-of-input
    errors it gives on the plain list of bits, however the source splits its bytes into
    reads. *)
Theorem reader_refines_bits source ops :
  source_ok source -> Forall op_ok ops ->
  agree (run reader_do ops (reader_new source))
        (run bits_do ops (flat_map (bits_of 8) (delivered source))).
Proof. intros Hs Hops. apply (run_agrees ops (reader_new source)); [by apply reader_new_ok|done]. Qed.

(** The 64-bit buffer never overflows: after any such sequence it holds at most 23 bits
    and no bit beyond its count, so the shift of a next byte into it loses nothing in a
    [u64] and every mask [(1 << bits) - 1] fits. *)
Theorem reader_never_overflows source ops out r :
  source_ok source -> Forall op_ok ops -> run reader_do ops (reader_new source) = Ok (out, r) ->
  0 <= bit_count r <= 23 /\ 0 <= bit_buffer r < 2 ^ bit_count r /\
  (forall byte, u8 byte ->
     wrap 64 (Z.lor (bit_buffer r) (Z.shiftl byte (bit_count r))) =
       Z.lor (bit_buffer r) (Z.shiftl byte (bit_count r))).
Proof.
  intros Hs Hops Hrun. pose proof (run_agrees ops _ (reader_new_ok source Hs) Hops) as H.
  rewrite Hrun in H. unfold agree in H. destruct (run bits_do ops _) as [[out' l]|]; [|done].
  destruct H as (_ & _ & _ & _ & Hc & Hb). unfold MAX_FIELD in Hc. split; [lia|]. split; [done|].
  intros byte Hu. unfold u8, U8_MAX in Hu. apply wrap_small.
  rewrite Z.lor_comm, lor_shiftl_add by lia.
  assert (2 ^ bit_count r <= 2 ^ 23) by (apply Z.pow_le_mono_r; lia).
  change (2 ^ 23) with 8388608 in *. change (2 ^ 64) with 18446744073709551616. nia.
Qed.

(** ** Instances *)

Definition sample_source : list (option bytes) := [Some [165]; Some [3; 255]; Some [7]; Some []; Some [9]].

Lemma sample_source_ok : source_ok sample_source.
Proof.
  repeat apply Forall_cons_2; try constructor; eexists; (split; [reflexivity|repeat constructor; done]).
Qed.

Definition sample_ops : list reader_op := [OpTake 3; OpPeek 9; OpTake 7; OpAligned 2].

Lemma sample_ops_ok : Forall op_ok sample_ops.
Proof. repeat constructor; done. Qed.

Lemma reader_refines_bits_witness :
  run reader_do sample_ops (reader_new sample_source) =
    Ok ([5; 116; 116; 255; 7], mkReader [Some []; Some [9]] [] 0 0 false) /\
  agree (run reader_do sample_ops (reader_new sample_source))
        (run bits_do sample_ops (flat_map (bits_of 8) [165; 3; 255; 7])).
Proof.
  split; [vm_compute; reflexivity|].
  exact (reader_refines_bits sample_source sample_ops sample_source_ok sample_ops_ok).
Defined.

Lemma reader_never_overflows_witness :
  exists r, run reader_do [OpTake 3] (reader_new sample_source) = Ok ([5], r) /\ 0 <= bit_count r <= 23.
Proof.
  exists (mkReader (tl sample_source) [] 20 5 false). split; [vm_compute; reflexivity|].
  apply (reader_never_overflows sample_source [OpTake 3] [5]).
  - exact sample_source_ok.
  - repeat constructor; done.
  - vm_compute. reflexivity.
Defined.
