(* ===== verification/Huffman.v ===== *)
(** * Canonical Huffman codes (crates/arkforge-artifact/src/inflate.rs)

    The canonical Huffman tables with their 9-bit fast table, and [decode] over the bit
    reader of [Bits].  The reference is the code RFC 1951 assigns to a list of lengths;
    [new] accepts exactly the lists that have such a code, and [decode] reads exactly one
    codeword of it. *)

From S2P Require Import Prelude Bits.

(** ** Data *)

Definition MAX_BITS : nat := 15.
Definition FAST_BITS : nat := 9.

Record Huffman := mkHuffman {
  counts : list Z;
  symbols : list Z;
  first_code : list Z;
  first_index : list Z;
  fast : list Z
}.

(** ** Tables *)

(** The loop that counts the codes of each length. *)
Fixpoint count_lengths (counts : list Z) (lengths : list Z) : result IoError (list Z) :=
  match lengths with
  | [] => Ok counts
  | length :: lengths =>
      if Z.of_nat MAX_BITS <? length
      then Err (InvalidData "huffman code length exceeds 15 bits")
      else
        let l := Z.to_nat length in
        count_lengths (<[l := counts !!! l + 1]> counts) lengths
  end.

Fixpoint check_subscription (left : Z) (counts : list Z) : result IoError unit :=
  match counts with
  | [] => Ok tt
  | count :: counts =>
      let left := Z.shiftl left 1 - count in
      if left <? 0 then Err (InvalidData "over-subscribed huffman code set")
      else check_subscription left counts
  end.

(** [1..=MAX_BITS] *)
Definition code_lengths_range : list nat := seq 1 MAX_BITS.

Definition code_offsets (counts : list Z) : list Z :=
  foldl (fun offsets length => <[S length := offsets !!! length + counts !!! length]> offsets)
    (replicate (MAX_BITS + 2) 0) code_lengths_range.

(** The loop that sorts the symbols by length, then by value. *)
Fixpoint place_symbols (symbol : Z) (lengths : list Z) (symbols offsets : list Z) : list Z :=
  match lengths with
  | [] => symbols
  | length :: lengths =>
      if negb (length =? 0) then
        let l := Z.to_nat length in
        place_symbols (symbol + 1) lengths
          (<[Z.to_nat (offsets !!! l) := wrap 16 symbol]> symbols)
          (<[l := offsets !!! l + 1]> offsets)
      else place_symbols (symbol + 1) lengths symbols offsets
  end.

(** The loop over [first_code] and [first_index], with [code] and [index]. *)
Definition decode_state (counts : list Z) : list Z * list Z * Z * Z :=
  foldl (fun '(first_code, first_index, code, index) length =>
      (<[length := code]> first_code, <[length := index]> first_index,
       Z.shiftl (code + counts !!! length) 1, index + counts !!! length))
    (replicate (MAX_BITS + 2) 0, replicate (MAX_BITS + 2) 0, 0, 0) code_lengths_range.

(** [while slot < (1 << FAST_BITS) { fast[slot] = entry; slot += step }]; the slots are
    fewer than [fuel]. *)
Fixpoint fill_slots (fuel : nat) (slot step : nat) (entry : Z) (fast : list Z) : list Z :=
  match fuel with
  | O => fast
  | S fuel =>
      if (slot <? 2 ^ FAST_BITS)%nat
      then fill_slots fuel (slot + step) step entry (<[slot := entry]> fast)
      else fast
  end.

(** [for _ in 0..count], the codes of one length. *)
Fixpoint fill_length (count : nat) (length : nat) (symbols : list Z) (canonical : Z)
    (symbol_index : nat) (fast : list Z) : list Z :=
  match count with
  | O => fast
  | S count =>
      let fast :=
        if (length <=? FAST_BITS)%nat then
          let reversed := reverse_bits canonical length in
          let entry := Z.lor (wrap 16 (Z.shiftl (symbols !!! symbol_index) 4)) (Z.of_nat length) in
          fill_slots (2 ^ FAST_BITS) (Z.to_nat reversed) (2 ^ length) entry fast
        else fast in
      fill_length count length symbols (canonical + 1) (S symbol_index) fast
  end.

Fixpoint fill_lengths (lengths : list nat) (counts symbols : list Z) (canonical : Z)
    (symbol_index : nat) (fast : list Z) : list Z :=
  match lengths with
  | [] => fast
  | length :: lengths =>
      let count := Z.to_nat (counts !!! length) in
      fill_lengths lengths counts symbols (Z.shiftl (canonical + Z.of_nat count) 1)
        (symbol_index + count) (fill_length count length symbols canonical symbol_index fast)
  end.

Definition Huffman_new (lengths : list Z) : result IoError Huffman :=
  let? counts := count_lengths (replicate (S MAX_BITS) 0) lengths in
  let counts := <[O := 0]> counts in
  let? _ := check_subscription 1 (drop 1 counts) in
  let offsets := code_offsets counts in
  let total := Z.to_nat (foldr Z.add 0 counts) in
  let symbols := place_symbols 0 lengths (replicate total 0) offsets in
  let '(first_code, first_index, _, _) := decode_state counts in
  let fast := fill_lengths code_lengths_range counts symbols 0 0 (replicate (2 ^ FAST_BITS) U16_MAX) in
  Ok (mkHuffman counts symbols first_code first_index fast).

(** ** Decoding *)

(** The slow path's loop over [(FAST_BITS + 1)..=MAX_BITS]; [code.wrapping_sub(first)] is
    taken modulo [2^32]. *)
Fixpoint walk (lengths : list nat) (table : Huffman) (code : Z) (r : BitReader) :
    result IoError (Z * BitReader) :=
  match lengths with
  | [] => Err (InvalidData "invalid huffman code")
  | length :: lengths =>
      let? (bit, r) := take_bits 1 r in
      let code := Z.lor (Z.shiftl code 1) bit in
      let count := counts table !!! length in
      let offset := wrap 32 (code - first_code table !!! length) in
      if (0 <? count) && (offset <? count)
      then Ok (symbols table !!! Z.to_nat (first_index table !!! length + offset), r)
      else walk lengths table code r
  end.

Definition decode (table : Huffman) (r : BitReader) : result IoError (Z * BitReader) :=
  let? (window, r) := peek (Z.of_nat FAST_BITS) r in
  let entry := fast table !!! Z.to_nat window in
  let length := Z.land entry 15 in
  if negb (entry =? U16_MAX) && (length <=? bit_count r)
  then Ok (Z.shiftr entry 4, consume length r)
  else
    let code := reverse_bits window FAST_BITS in
    let? r := need (Z.of_nat FAST_BITS) r in
    let r := consume (Z.of_nat FAST_BITS) r in
    walk (seq (S FAST_BITS) (MAX_BITS - FAST_BITS)) table code r.

(** ** The reference code (RFC 1951, 3.2.2)

    Codes are given out in the order of length, then of symbol: the code of a symbol is the
    number of codewords of its length that those of the symbols before it use up. *)

Definition lengths_ok (lengths : list Z) : Prop := Forall (fun l => 0 <= l) lengths.

(** What symbol [s'] uses up of the codewords of length [l], in front of symbol [s]. *)
Definition uses_up (l : Z) (s : nat) (s' : nat) (l' : Z) : Z :=
  if (0 <? l') && ((l' <? l) || ((l' =? l) && (s' <? s)%nat)) then 2 ^ (l - l') else 0.

Fixpoint sum_from {A} (f : nat -> A -> Z) (n : nat) (l : list A) : Z :=
  match l with [] => 0 | x :: l => f n x + sum_from f (S n) l end.

Definition canonical_code (lengths : list Z) (s : nat) : Z :=
  sum_from (uses_up (lengths !!! s) s) 0 lengths.

(** The share of all codewords of [MAX_BITS] bits that the code takes. *)
Definition kraft_sum (lengths : list Z) : Z :=
  sum_from (fun _ l => if 0 <? l then 2 ^ (Z.of_nat MAX_BITS - l) else 0) 0 lengths.

(** [c] is the codeword of symbol [s]. *)
Definition codeword (lengths : list Z) (s : Z) (c : list bool) : Prop :=
  exists l, lengths !! Z.to_nat s = Some l /\ 0 <= s /\ l <> 0 /\ zlen c = l /\
    msb_value c = canonical_code lengths (Z.to_nat s).

(** ** Frequencies *)

Fixpoint freq (lengths : list Z) (l : nat) : Z :=
  match lengths with [] => 0 | x :: xs => (if x =? Z.of_nat l then 1 else 0) + freq xs l end.

Lemma freq_nonneg lengths l : 0 <= freq lengths l.
Proof. induction lengths as [|x xs IH]; cbn; [lia|]. case_goal; lia. Qed.

(** The first code and the first index of each length. *)
Section First.
Context (C : nat -> Z).

Definition coded (l : nat) : Z := match l with O => 0 | _ => C l end.

Fixpoint first_codes (l : nat) : Z :=
  match l with O => 0 | S l => 2 * (first_codes l + coded l) end.

Fixpoint first_indices (l : nat) : Z :=
  match l with O => 0 | S l => first_indices l + coded l end.
End First.

Lemma first_codes_S C l : first_codes C (S l) = 2 * (first_codes C l + coded C l).
Proof. reflexivity. Qed.

Lemma first_codes_add C D l : first_codes (fun x => C x + D x) l = first_codes C l + first_codes D l.
Proof. induction l as [|[|l] IH]; cbn [first_codes coded] in *; lia. Qed.

Lemma first_codes_ext C D l : (forall x, C x = D x) -> first_codes C l = first_codes D l.
Proof. intros H. induction l as [|[|l] IH]; cbn [first_codes coded] in *; rewrite ?H; lia. Qed.

Lemma first_codes_zero l : first_codes (fun _ => 0) l = 0.
Proof. induction l as [|[|l] IH]; cbn [first_codes coded] in *; lia. Qed.

(** One symbol of length [x] adds [2 ^ (l - x)] to the first code of each greater length. *)
Lemma first_codes_one x l :
  first_codes (fun y => if x =? Z.of_nat y then 1 else 0) l =
    if (0 <? x) && (x <? Z.of_nat l) then 2 ^ (Z.of_nat l - x) else 0.
Proof.
  induction l as [|l IH]; [destruct (Z.ltb_spec 0 x), (Z.ltb_spec x (Z.of_nat 0)); cbn [andb first_codes]; lia|].
  cbn [first_codes]. rewrite IH. destruct (Z.ltb_spec 0 x) as [Hx|Hx]; cbn [andb].
  - assert (coded (fun y => if x =? Z.of_nat y then 1 else 0) l = if x =? Z.of_nat l then 1 else 0) as ->.
    { destruct l; [|done]. cbn [coded]. destruct (Z.eqb_spec x (Z.of_nat 0)); lia. }
    destruct (Z.ltb_spec x (Z.of_nat l)), (Z.ltb_spec x (Z.of_nat (S l))), (Z.eqb_spec x (Z.of_nat l)); try lia.
    + replace (Z.of_nat (S l) - x) with (Z.succ (Z.of_nat l - x)) by lia. rewrite Z.pow_succ_r by lia. lia.
    + subst. by replace (Z.of_nat (S l) - Z.of_nat l) with 1 by lia.
  - destruct l as [|l]; cbn [coded]; [lia|]. destruct (Z.eqb_spec x (Z.of_nat (S l))); lia.
Qed.

(** The rank of symbol [s] among those of its length. *)
Definition rank (lengths : list Z) (s : nat) (l : nat) : Z := freq (take s lengths) l.

Lemma sum_uses_up l s n lengths :
  (0 < l)%nat ->
  sum_from (uses_up (Z.of_nat l) s) n lengths =
    first_codes (freq lengths) l + freq (take (s - n) lengths) l.
Proof.
  intros Hl. revert n. induction lengths as [|x xs IH]; intros n.
  - cbn [sum_from]. rewrite take_nil. rewrite (first_codes_ext _ (fun _ => 0)) by done.
    rewrite first_codes_zero. cbn. reflexivity.
  - cbn [sum_from]. rewrite IH.
    rewrite (first_codes_ext (freq (x :: xs)) (fun y => (if x =? Z.of_nat y then 1 else 0) + freq xs y)) by done.
    rewrite first_codes_add, first_codes_one. unfold uses_up.
    destruct (Nat.ltb_spec n s) as [Hn|Hn].
    + replace (s - n)%nat with (S (s - S n)) by lia. cbn [take freq].
      destruct (Z.ltb_spec 0 x), (Z.ltb_spec x (Z.of_nat l)), (Z.eqb_spec x (Z.of_nat l));
        cbn [andb orb]; try lia. subst. replace (Z.of_nat l - Z.of_nat l) with 0 by lia. lia.
    + replace (s - n)%nat with O by lia. replace (s - S n)%nat with O by lia.
      rewrite !take_0. cbn [freq].
      destruct (Z.ltb_spec 0 x), (Z.ltb_spec x (Z.of_nat l)), (Z.eqb_spec x (Z.of_nat l));
        cbn [andb orb]; lia.
Qed.

Lemma canonical_code_split lengths s l :
  lengths !! s = Some (Z.of_nat l) -> (0 < l)%nat ->
  canonical_code lengths s = first_codes (freq lengths) l + rank lengths s l.
Proof.
  intros Hs Hl. unfold canonical_code, rank. rewrite (list_lookup_total_correct _ _ _ Hs).
  rewrite sum_uses_up by done. by rewrite Nat.sub_0_r.
Qed.

Lemma sum_kraft n lengths :
  Forall (fun l => l <= Z.of_nat MAX_BITS) lengths ->
  2 * sum_from (fun _ l => if 0 <? l then 2 ^ (Z.of_nat MAX_BITS - l) else 0) n lengths =
    first_codes (freq lengths) (S MAX_BITS).
Proof.
  intros H. revert n. induction H as [|x xs Hx _ IH]; intros n.
  - cbn [sum_from]. rewrite (first_codes_ext _ (fun _ => 0)) by done. by rewrite first_codes_zero.
  - cbn [sum_from]. rewrite Z.mul_add_distr_l, IH.
    rewrite (first_codes_ext (freq (x :: xs)) (fun y => (if x =? Z.of_nat y then 1 else 0) + freq xs y)) by done.
    rewrite first_codes_add, first_codes_one.
    destruct (Z.ltb_spec 0 x); cbn [andb]; [|lia].
    destruct (Z.ltb_spec x (Z.of_nat (S MAX_BITS))); [|unfold MAX_BITS in *; lia].
    replace (Z.of_nat (S MAX_BITS) - x) with (Z.succ (Z.of_nat MAX_BITS - x)) by lia.
    rewrite Z.pow_succ_r by lia. lia.
Qed.

Lemma count_lengths_spec acc lengths :
  length acc = S MAX_BITS -> lengths_ok lengths ->
  count_lengths acc lengths =
    (if bool_decide (Forall (fun l => l <= Z.of_nat MAX_BITS) lengths)
     then Ok (map (fun l => acc !!! l + freq lengths l) (seq 0 (S MAX_BITS)))
     else Err (InvalidData "huffman code length exceeds 15 bits")).
Proof.
  intros Ha Hl. revert acc Ha. induction Hl as [|x xs Hx _ IH]; intros acc Ha; cbn [count_lengths].
  - rewrite bool_decide_eq_true_2 by constructor. f_equal. rewrite <- Ha.
    apply list_eq. intros i. rewrite list_lookup_fmap.
    destruct (decide (i < length acc)%nat) as [Hi|Hi].
    + rewrite lookup_seq_lt by done. cbn. rewrite Z.add_0_r. by apply list_lookup_lookup_total_lt.
    + rewrite lookup_ge_None_2 by lia. rewrite lookup_seq_ge by lia. done.
  - destruct (Z.ltb_spec (Z.of_nat MAX_BITS) x) as [Hbig|Hsmall].
    + rewrite bool_decide_eq_false_2; [done|]. intros H. apply Forall_cons in H as [? _]. lia.
    + rewrite IH by (by rewrite length_insert).
      rewrite (bool_decide_ext (Forall _ (x :: xs)) (Forall (fun l => l <= Z.of_nat MAX_BITS) xs)).
      2: { rewrite Forall_cons. naive_solver. }
      destruct (bool_decide _); [|done]. f_equal. apply map_ext_in. intros l Hin%in_seq. cbn [freq].
      destruct (Z.eqb_spec x (Z.of_nat l)) as [->|Hne].
      * rewrite Nat2Z.id, list_lookup_total_insert_eq by lia. lia.
      * rewrite list_lookup_total_insert_ne by lia. lia.
Qed.

(** The counts of [new]: the frequency of each length, none for length zero. *)
Definition counts_of (lengths : list Z) : list Z := map (coded (freq lengths)) (seq 0 (S MAX_BITS)).

Lemma counts_spec lengths cs :
  lengths_ok lengths -> count_lengths (replicate (S MAX_BITS) 0) lengths = Ok cs ->
  Forall (fun l => l <= Z.of_nat MAX_BITS) lengths /\ <[O := 0]> cs = counts_of lengths.
Proof.
  intros Hl. rewrite count_lengths_spec by (done || by rewrite length_replicate).
  case_bool_decide as Hm; [|done]. intros [= <-]. split; [done|].
  unfold counts_of. cbn [MAX_BITS seq map]. cbn [insert list_insert]. f_equal.
Qed.

Lemma check_subscription_spec C k m left :
  left = 2 ^ Z.of_nat k - (first_codes C k + coded C k) ->
  check_subscription left (map (coded C) (seq (S k) m)) = Ok tt <->
  forall l, (k < l <= k + m)%nat -> first_codes C l + coded C l <= 2 ^ Z.of_nat l.
Proof.
  revert k left. induction m as [|m IH]; intros k left Hleft; cbn [seq map check_subscription].
  { split; [|done]. intros _ l Hl. lia. }
  assert (Z.shiftl left 1 - coded C (S k) = 2 ^ Z.of_nat (S k) - (first_codes C (S k) + coded C (S k))) as Hnext.
  { rewrite Z.shiftl_mul_pow2 by lia. cbn [first_codes]. subst left.
    rewrite Nat2Z.inj_succ, Z.pow_succ_r by lia. lia. }
  destruct (Z.ltb_spec (Z.shiftl left 1 - coded C (S k)) 0) as [Hneg|Hpos].
  - split; [done|]. intros H. specialize (H (S k) ltac:(lia)). lia.
  - rewrite (IH (S k)) by done. split; intros H l Hl.
    + destruct (decide (l = S k)) as [->|]; [lia|]. apply H. lia.
    + apply H. lia.
Qed.

Lemma check_counts_spec lengths :
  check_subscription 1 (drop 1 (counts_of lengths)) = Ok tt <->
  forall l, (0 < l <= MAX_BITS)%nat ->
    first_codes (freq lengths) l + coded (freq lengths) l <= 2 ^ Z.of_nat l.
Proof. apply (check_subscription_spec (freq lengths) 0 MAX_BITS 1). done. Qed.

Lemma counts_of_lookup lengths l :
  (l <= MAX_BITS)%nat -> counts_of lengths !!! l = coded (freq lengths) l.
Proof.
  intros Hl. apply list_lookup_total_correct. unfold counts_of. rewrite list_lookup_fmap.
  by rewrite lookup_seq_lt by (unfold MAX_BITS in *; lia).
Qed.

Section Tables.
Context (C : nat -> Z) (cs : list Z).
Hypothesis Hcs : forall l, (l <= MAX_BITS)%nat -> cs !!! l = coded C l.
Hypothesis HC : forall l, 0 <= C l.

Lemma coded_nonneg l : 0 <= coded C l.
Proof using HC. destruct l; cbn; [done|apply HC]. Qed.

Lemma first_indices_mono l m : (l < m)%nat -> first_indices C l + coded C l <= first_indices C m.
Proof using HC.
  induction m as [|m IH]; intros Hlm; [lia|]. cbn [first_indices]. pose proof (coded_nonneg m).
  destruct (decide (l = m)) as [->|]; [lia|]. specialize (IH ltac:(lia)). lia.
Qed.

Lemma first_indices_nonneg l : 0 <= first_indices C l.
Proof using HC. induction l as [|l IH]; cbn [first_indices]; [done|]. pose proof (coded_nonneg l). lia. Qed.

Lemma first_codes_nonneg l : 0 <= first_codes C l.
Proof using HC. induction l as [|l IH]; cbn [first_codes]; [done|]. pose proof (coded_nonneg l). lia. Qed.

(** The codes of a length start above every longer prefix of the shorter ones. *)
Lemma first_codes_mono l m :
  (l < m)%nat -> (first_codes C l + coded C l) * 2 ^ (Z.of_nat m - Z.of_nat l) <= first_codes C m.
Proof using HC.
  induction m as [|m IH]; intros Hlm; [lia|]. cbn [first_codes]. pose proof (coded_nonneg m).
  destruct (decide (l = m)) as [->|].
  - replace (Z.of_nat (S m) - Z.of_nat m) with 1 by lia. lia.
  - specialize (IH ltac:(lia)).
    replace (Z.of_nat (S m) - Z.of_nat l) with (Z.succ (Z.of_nat m - Z.of_nat l)) by lia.
    rewrite Z.pow_succ_r by lia. lia.
Qed.

Lemma code_offsets_spec l :
  (0 < l <= S MAX_BITS)%nat -> code_offsets cs !!! l = first_indices C l.
Proof using Hcs.
  unfold code_offsets, code_lengths_range.
  assert (forall k, (k <= MAX_BITS)%nat ->
    length (foldl (fun offsets length => <[S length := offsets !!! length + cs !!! length]> offsets)
      (replicate (MAX_BITS + 2) 0) (seq 1 k)) = (MAX_BITS + 2)%nat /\
    forall l, (l <= S k)%nat ->
      foldl (fun offsets length => <[S length := offsets !!! length + cs !!! length]> offsets)
        (replicate (MAX_BITS + 2) 0) (seq 1 k) !!! l = first_indices C l) as H.
  { induction k as [|k IH]; intros Hk.
    - cbn [seq foldl]. rewrite length_replicate. split; [done|]. intros l' Hl.
      rewrite lookup_total_replicate_2 by (unfold MAX_BITS; lia). destruct l' as [|[|]]; [done|done|lia].
    - destruct (IH ltac:(lia)) as [Hlen Hall]. rewrite seq_S, foldl_app. cbn [foldl Nat.add]. split.
      + by rewrite length_insert.
      + intros l' Hl. destruct (decide (l' = S (S k))) as [->|Hne].
        * rewrite list_lookup_total_insert_eq by (unfold MAX_BITS in *; lia).
          rewrite Hall by lia. rewrite Hcs by lia. done.
        * rewrite list_lookup_total_insert_ne by lia. apply Hall. lia. }
  intros Hl. apply (H MAX_BITS); unfold MAX_BITS in *; lia.
Qed.

Lemma decode_state_spec :
  match decode_state cs with
  | (fc, fi, _, _) => forall l, (0 < l <= MAX_BITS)%nat ->
      fc !!! l = first_codes C l /\ fi !!! l = first_indices C l
  end.
Proof using Hcs.
  unfold decode_state, code_lengths_range.
  set (step := fun '(first_code, first_index, code, index) (length : nat) => _).
  assert (forall k, (k <= MAX_BITS)%nat ->
    match foldl step (replicate (MAX_BITS + 2) 0, replicate (MAX_BITS + 2) 0, 0, 0) (seq 1 k) with
    | (fc, fi, code, index) =>
        length fc = (MAX_BITS + 2)%nat /\ length fi = (MAX_BITS + 2)%nat /\
        code = first_codes C (S k) /\ index = first_indices C (S k) /\
        forall l, (0 < l <= k)%nat -> fc !!! l = first_codes C l /\ fi !!! l = first_indices C l
    end) as H.
  { induction k as [|k IH]; intros Hk; [cbn; split_and!; try done; intros; lia|].
    specialize (IH ltac:(lia)). rewrite seq_S, foldl_app.
    destruct (foldl step _ (seq 1 k)) as [[[fc fi] code] index]. destruct IH as (L1 & L2 & -> & -> & Hall).
    cbn [foldl step Nat.add]. rewrite !length_insert, Hcs by lia. split_and!; try done.
    intros l Hl. destruct (decide (l = S k)) as [->|Hne].
    - by rewrite !list_lookup_total_insert_eq by (unfold MAX_BITS in *; lia).
    - rewrite !list_lookup_total_insert_ne by lia. apply Hall. lia. }
  specialize (H MAX_BITS ltac:(lia)).
  destruct (foldl step _ (seq 1 MAX_BITS)) as [[[fc fi] code] index]. by destruct H as (_ & _ & _ & _ & H).
Qed.
End Tables.

(** ** The symbols in order of length, then of value *)

Lemma freq_app l k n : freq (l ++ k) n = freq l n + freq k n.
Proof. induction l as [|x l IH]; cbn [app freq]; lia. Qed.

Lemma freq_take_le lengths s l : freq (take s lengths) l <= freq lengths l.
Proof.
  rewrite <- (take_drop s lengths) at 2. rewrite freq_app.
  pose proof (freq_nonneg (drop s lengths) l). lia.
Qed.

Lemma rank_bound lengths s l :
  lengths !! s = Some (Z.of_nat l) -> 0 <= rank lengths s l < freq lengths l.
Proof.
  intros Hs. unfold rank. split; [apply freq_nonneg|].
  pose proof (freq_take_le lengths (S s) l) as H. rewrite (take_S_r _ _ _ Hs), freq_app in H.
  cbn [freq] in H. rewrite Z.eqb_refl in H. lia.
Qed.

Lemma rank_exists lengths l i :
  0 <= i < freq lengths l -> exists s, lengths !! s = Some (Z.of_nat l) /\ rank lengths s l = i.
Proof.
  revert i. induction lengths as [|x xs IH] using rev_ind; intros i Hi; [cbn in Hi; lia|].
  rewrite freq_app in Hi. cbn [freq] in Hi. destruct (decide (i < freq xs l)) as [Hlt|Hge].
  - destruct (IH i ltac:(lia)) as (s & Hs & Hr). exists s. apply lookup_lt_Some in Hs as Hlen.
    split; [by rewrite lookup_app_l|]. unfold rank in *. by rewrite take_app_le by lia.
  - destruct (Z.eqb_spec x (Z.of_nat l)) as [->|]; [|lia]. exists (length xs).
    split; [by rewrite lookup_app_r, Nat.sub_diag by lia|]. unfold rank. rewrite take_app_length. lia.
Qed.

Section Place.
Context (lengths : list Z).
Hypothesis Hok : lengths_ok lengths.
Hypothesis Hmax : Forall (fun l => l <= Z.of_nat MAX_BITS) lengths.
Hypothesis Hshort : zlen lengths <= 2 ^ 16.



(** Where symbol [s] of length [l] belongs. *)
Definition place (s l : nat) : nat := Z.to_nat (first_indices (freq lengths) l + rank lengths s l).

Lemma place_bound s l :
  lengths !! s = Some (Z.of_nat l) -> (0 < l <= MAX_BITS)%nat ->
  (place s l < Z.to_nat (first_indices (freq lengths) (S MAX_BITS)))%nat.
Proof using.
  intros Hs Hl. pose proof (rank_bound _ _ _ Hs).
  pose proof (first_indices_mono (freq lengths) (freq_nonneg lengths) l (S MAX_BITS) ltac:(lia)) as Hm.
  pose proof (first_indices_nonneg (freq lengths) (freq_nonneg lengths) l).
  destruct l as [|l]; [lia|]. cbn [coded] in Hm. unfold place. lia.
Qed.

Lemma rank_lt s s' l :
  (s < s')%nat -> lengths !! s = Some (Z.of_nat l) -> rank lengths s l < rank lengths s' l.
Proof using.
  intros Hlt Hs. unfold rank. replace (take s lengths) with (take s (take s' lengths)).
  - assert (take s' lengths !! s = Some (Z.of_nat l)) as Hs' by (by rewrite lookup_take_lt).
    apply (rank_bound (take s' lengths) s l Hs').
  - rewrite take_take. f_equal. lia.
Qed.

Lemma place_inj s l s' l' :
  lengths !! s = Some (Z.of_nat l) -> lengths !! s' = Some (Z.of_nat l') ->
  (0 < l)%nat -> (0 < l')%nat -> place s l = place s' l' -> s = s'.
Proof using.
  intros Hs Hs' Hl Hl' Heq. pose proof (rank_bound _ _ _ Hs). pose proof (rank_bound _ _ _ Hs').
  pose proof (first_indices_nonneg (freq lengths) (freq_nonneg lengths) l).
  pose proof (first_indices_nonneg (freq lengths) (freq_nonneg lengths) l').
  pose proof (first_indices_mono (freq lengths) (freq_nonneg lengths) l l') as Hm.
  pose proof (first_indices_mono (freq lengths) (freq_nonneg lengths) l' l) as Hm'.
  destruct l as [|l]; [lia|]. destruct l' as [|l']; [lia|]. cbn [coded] in Hm, Hm'. unfold place in Heq.
  destruct (lt_eq_lt_dec (S l) (S l')) as [[Hlt|He]|Hlt]; [specialize (Hm Hlt); lia| |specialize (Hm' Hlt); lia].
  injection He as <-. destruct (lt_eq_lt_dec s s') as [[Hlt|He]|Hlt]; [|done|].
  - pose proof (rank_lt s s' (S l) Hlt Hs). lia.
  - pose proof (rank_lt s' s (S l) Hlt Hs'). lia.
Qed.

(** The loop, with the symbols of [take k lengths] already in place. *)
Lemma place_symbols_spec k symbols offsets :
  (k <= length lengths)%nat -> length symbols = Z.to_nat (first_indices (freq lengths) (S MAX_BITS)) ->
  length offsets = (MAX_BITS + 2)%nat ->
  (forall l, (0 < l <= MAX_BITS)%nat -> offsets !!! l = first_indices (freq lengths) l + rank lengths k l) ->
  (forall s l, (s < k)%nat -> lengths !! s = Some (Z.of_nat l) -> (0 < l)%nat ->
     symbols !! place s l = Some (Z.of_nat s)) ->
  forall s l, lengths !! s = Some (Z.of_nat l) -> (0 < l)%nat ->
    place_symbols (Z.of_nat k) (drop k lengths) symbols offsets !! place s l = Some (Z.of_nat s).
Proof using Hok Hmax Hshort.
  intros Hk. remember (length lengths - k)%nat as n eqn:Hn. revert k Hk Hn symbols offsets.
  induction n as [|n IH]; intros k Hk Hn symbols offsets Hsy Hof Hoff Hdone.
  - rewrite drop_ge by lia. cbn [place_symbols]. intros s l Hs. apply Hdone; [|done].
    apply lookup_lt_Some in Hs. lia.
  - destruct (lookup_lt_is_Some_2 lengths k ltac:(lia)) as [x Hx].
    rewrite (drop_S _ _ _ Hx). cbn [place_symbols].
    replace (Z.of_nat k + 1) with (Z.of_nat (S k)) by lia.
    pose proof (proj1 (Forall_lookup _ _) Hok k x Hx) as Hx0.
    pose proof (proj1 (Forall_lookup _ _) Hmax k x Hx) as Hxm. cbn beta in Hx0, Hxm.
    assert (forall l, rank lengths (S k) l = rank lengths k l + if x =? Z.of_nat l then 1 else 0) as Hrank.
    { intros l. unfold rank. rewrite (take_S_r _ _ _ Hx), freq_app. cbn [freq]. lia. }
    destruct (Z.eqb_spec x 0) as [->|Hne]; cbn [negb].
    + apply IH; [lia|lia|done|done| |].
      * intros l Hl. rewrite Hrank, Hoff by done. destruct (Z.eqb_spec 0 (Z.of_nat l)); lia.
      * intros s l Hs Hl Hpos. apply Hdone; [|done|done].
        destruct (decide (s = k)) as [->|]; [|lia]. rewrite Hx in Hl. injection Hl as Hl. lia.
    + set (lx := Z.to_nat x). assert (x = Z.of_nat lx) as Hxl by lia.
      assert (Z.to_nat (offsets !!! lx) = place k lx) as Hplace.
      { unfold place. by rewrite Hoff by lia. }
      assert (wrap 16 (Z.of_nat k) = Z.of_nat k) as Hwrap.
      { apply wrap_small. unfold zlen in Hshort. lia. }
      rewrite Hplace, Hwrap. rewrite Hxl in Hx.
      apply IH; [lia|lia|by rewrite length_insert|by rewrite length_insert| |].
      * intros l Hl. rewrite Hrank. destruct (decide (l = lx)) as [->|Hne'].
        -- rewrite list_lookup_total_insert_eq, Hoff by lia. rewrite (proj2 (Z.eqb_eq x (Z.of_nat lx))) by done. lia.
        -- rewrite list_lookup_total_insert_ne, Hoff by lia. destruct (Z.eqb_spec x (Z.of_nat l)); lia.
      * intros s l Hs Hl Hpos. destruct (decide (s = k)) as [->|Hsk].
        -- assert (l = lx) as -> by (rewrite Hx in Hl; injection Hl; lia).
           apply list_lookup_insert_eq. rewrite Hsy. apply place_bound; [done|lia].
        -- rewrite list_lookup_insert_ne; [apply Hdone; [lia|done|done]|].
           intros Heq. apply (place_inj k lx s l) in Heq; [lia|done|done|lia|done].
Qed.
End Place.

(** ** Acceptance *)

Definition fits (lengths : list Z) : Prop :=
  forall l, (0 < l <= MAX_BITS)%nat ->
    first_codes (freq lengths) l + coded (freq lengths) l <= 2 ^ Z.of_nat l.

Lemma fits_kraft lengths :
  Forall (fun l => l <= Z.of_nat MAX_BITS) lengths ->
  fits lengths <-> kraft_sum lengths <= 2 ^ Z.of_nat MAX_BITS.
Proof.
  intros Hm. pose proof (sum_kraft 0 lengths Hm) as Hk. unfold kraft_sum. split.
  - intros H. specialize (H MAX_BITS ltac:(unfold MAX_BITS; lia)).
    rewrite first_codes_S in Hk. lia.
  - intros H l Hl.
    pose proof (first_codes_mono (freq lengths) (freq_nonneg lengths) l (S MAX_BITS) ltac:(lia)) as Hmono.
    rewrite <- Hk in Hmono. set (d := Z.of_nat (S MAX_BITS) - Z.of_nat l) in Hmono.
    assert (2 * 2 ^ Z.of_nat MAX_BITS = 2 ^ Z.of_nat l * 2 ^ d) as Hpow.
    { rewrite <- Z.pow_add_r by (unfold d, MAX_BITS in *; lia).
      replace (Z.of_nat l + d) with (Z.succ (Z.of_nat MAX_BITS)) by (unfold d, MAX_BITS in *; lia).
      by rewrite Z.pow_succ_r by (unfold MAX_BITS; lia). }
    assert (0 < 2 ^ d) by (apply Z.pow_pos_nonneg; unfold d, MAX_BITS in *; lia). nia.
Qed.

(** The parts of [Huffman_new], for lengths it accepts. *)
Definition table_of (lengths : list Z) : Huffman :=
  let counts := counts_of lengths in
  let symbols := place_symbols 0 lengths (replicate (Z.to_nat (foldr Z.add 0 counts)) 0) (code_offsets counts) in
  let '(first_code, first_index, _, _) := decode_state counts in
  mkHuffman counts symbols first_code first_index
    (fill_lengths code_lengths_range counts symbols 0 0 (replicate (2 ^ FAST_BITS) U16_MAX)).

Lemma check_subscription_err left counts e :
  check_subscription left counts = Err e -> e = InvalidData "over-subscribed huffman code set".
Proof.
  revert left. induction counts as [|c counts IH]; intros left; cbn [check_subscription]; [done|].
  destruct (_ <? 0); [by intros [= <-]|apply IH].
Qed.

Lemma Huffman_new_spec lengths :
  lengths_ok lengths ->
  Huffman_new lengths =
    if bool_decide (Forall (fun l => l <= Z.of_nat MAX_BITS) lengths) then
      if kraft_sum lengths <=? 2 ^ Z.of_nat MAX_BITS then Ok (table_of lengths)
      else Err (InvalidData "over-subscribed huffman code set")
    else Err (InvalidData "huffman code length exceeds 15 bits").
Proof.
  intros Hl. unfold Huffman_new.
  destruct (count_lengths (replicate (S MAX_BITS) 0) lengths) as [cs|e] eqn:Ec.
  - destruct (counts_spec lengths cs Hl Ec) as [Hm ->]. rewrite bool_decide_eq_true_2 by done.
    pose proof (check_counts_spec lengths) as Hc. pose proof (fits_kraft lengths Hm) as Hk. unfold fits in Hk.
    rewrite Hk in Hc. destruct (check_subscription 1 (drop 1 (counts_of lengths))) as [[]|e] eqn:Es.
    + rewrite (proj2 (Z.leb_le _ _)) by (by apply Hc). unfold table_of.
      by destruct (decode_state (counts_of lengths)) as [[[fc fi] code] index].
    + destruct (Z.leb_spec (kraft_sum lengths) (2 ^ Z.of_nat MAX_BITS)) as [Hle|_].
      * by discriminate (proj2 Hc Hle).
      * by rewrite (check_subscription_err _ _ _ Es).
  - rewrite count_lengths_spec in Ec by (done || by rewrite length_replicate).
    case_bool_decide; [done|]. by injection Ec as <-.
Qed.

(** A code set is accepted exactly when no length exceeds 15 and the lengths satisfy
    Kraft's inequality, that is, when a prefix code with these lengths exists; the two
    refusals name which of the two fails. *)
Theorem huffman_new_iff lengths :
  lengths_ok lengths ->
  (is_ok (Huffman_new lengths) = true <->
     Forall (fun l => l <= Z.of_nat MAX_BITS) lengths /\ kraft_sum lengths <= 2 ^ Z.of_nat MAX_BITS) /\
  (Huffman_new lengths = Err (InvalidData "huffman code length exceeds 15 bits") <->
     Exists (fun l => Z.of_nat MAX_BITS < l) lengths) /\
  (Huffman_new lengths = Err (InvalidData "over-subscribed huffman code set") <->
     Forall (fun l => l <= Z.of_nat MAX_BITS) lengths /\ 2 ^ Z.of_nat MAX_BITS < kraft_sum lengths).
Proof.
  intros Hl. rewrite Huffman_new_spec by done.
  assert (Exists (fun l => Z.of_nat MAX_BITS < l) lengths <->
    ~ Forall (fun l => l <= Z.of_nat MAX_BITS) lengths) as Hex.
  { split.
    - intros (x & Hx & Hbig)%Exists_exists H. rewrite Forall_forall in H. specialize (H x Hx). lia.
    - intros H. apply dec_stable. intros Hn. apply H, Forall_forall. intros x Hx. apply dec_stable.
      intros Hx'. apply Hn, Exists_exists. exists x. split; [done|lia]. }
  case_bool_decide as Hm; [destruct (Z.leb_spec (kraft_sum lengths) (2 ^ Z.of_nat MAX_BITS))|]; cbn [is_ok];
    rewrite Hex; split_and!; split; try done; try tauto; intros; exfalso; intuition lia.
Qed.

(** The refusal, when no codeword begins the bits [l]. *)
Definition decode_error (l : list bool) : IoError :=
  if zlen l <? Z.of_nat MAX_BITS then EndedMidSymbol else InvalidData "invalid huffman code".

(** ** The code of accepted lengths *)

Section Code.
Context (lengths : list Z).
Hypothesis Hok : lengths_ok lengths.
Hypothesis Hmax : Forall (fun l => l <= Z.of_nat MAX_BITS) lengths.
Hypothesis Hkraft : kraft_sum lengths <= 2 ^ Z.of_nat MAX_BITS.
Hypothesis Hshort : zlen lengths <= 4096.

(** The first [L] bits of [l] are a code of length [L]. *)
Definition hit (L : nat) (l : list bool) : bool :=
  (L <=? length l)%nat && (first_codes (freq lengths) L <=? msb_value (take L l)) &&
  (msb_value (take L l) <? first_codes (freq lengths) L + coded (freq lengths) L).

Definition symbol_at (L : nat) (l : list bool) : Z :=
  symbols (table_of lengths) !!!
    Z.to_nat (first_indices (freq lengths) L + (msb_value (take L l) - first_codes (freq lengths) L)).

Lemma hit_spec L l :
  hit L l = true <->
  (L <= length l)%nat /\ first_codes (freq lengths) L <= msb_value (take L l) <
    first_codes (freq lengths) L + coded (freq lengths) L.
Proof using. unfold hit. rewrite !andb_true_iff, Nat.leb_le, Z.leb_le, Z.ltb_lt. lia. Qed.

(** No code is a prefix of another. *)
Lemma hit_unique L L' l : (L < L')%nat -> hit L l = true -> hit L' l = true -> False.
Proof using.
  intros Hlt (Hl & Hlo & Hhi)%hit_spec (Hl' & Hlo' & _)%hit_spec.
  pose proof (first_codes_mono (freq lengths) (freq_nonneg lengths) L L' Hlt) as Hm.
  assert (take L' l = take L l ++ take (L' - L) (drop L l)) as Hsplit.
  { rewrite <- (take_drop L (take L' l)) at 1. rewrite take_take, Nat.min_l by lia. f_equal.
    by rewrite skipn_firstn_comm. }
  assert (first_codes (freq lengths) L' <= msb_value (take L' l)) as Hge by done.
  assert (msb_value (take L' l) < (msb_value (take L l) + 1) * 2 ^ (Z.of_nat L' - Z.of_nat L)) as Hup.
  { rewrite Hsplit, msb_app. pose proof (msb_bounds (take (L' - L) (drop L l))) as Hb.
    assert (zlen (take (L' - L) (drop L l)) = Z.of_nat L' - Z.of_nat L) as Hz.
    { unfold zlen. rewrite length_take, length_drop. lia. }
    rewrite Hz in Hb |- *. lia. }
  set (p := 2 ^ (Z.of_nat L' - Z.of_nat L)) in *.
  assert (0 < p) by (apply Z.pow_pos_nonneg; lia). nia.
Qed.

(** The symbols are in place. *)
Lemma total_spec n : foldr Z.add 0 (map (coded (freq lengths)) (seq 0 n)) = first_indices (freq lengths) n.
Proof using.
  induction n as [|n IH]; [done|]. rewrite seq_S, map_app, foldr_app. cbn [map foldr Nat.add first_indices].
  rewrite <- IH, Z.add_0_r. generalize (map (coded (freq lengths)) (seq 0 n)), (coded (freq lengths) n).
  intros l. induction l as [|x l IHl]; intros c; cbn [foldr]; [lia|]. rewrite IHl. lia.
Qed.

Lemma length_code_offsets cs : length (code_offsets cs) = (MAX_BITS + 2)%nat.
Proof using.
  unfold code_offsets. rewrite <- (length_replicate (MAX_BITS + 2) 0) at 2.
  generalize (replicate (MAX_BITS + 2) 0), code_lengths_range. intros l k. revert l.
  induction k as [|x k IH]; intros l; cbn [foldl]; [done|]. by rewrite IH, length_insert.
Qed.

Lemma symbols_spec s l :
  lengths !! s = Some (Z.of_nat l) -> (0 < l)%nat ->
  symbols (table_of lengths) !! place lengths s l = Some (Z.of_nat s).
Proof using Hok Hmax Hshort.
  intros Hs Hl. unfold table_of.
  destruct (decode_state (counts_of lengths)) as [[[fc fi] code] index]. cbn [symbols].
  apply (place_symbols_spec lengths Hok Hmax ltac:(lia) 0); try done; try lia.
  - rewrite length_replicate. unfold counts_of. by rewrite total_spec.
  - intros l' Hl'. rewrite (code_offsets_spec (freq lengths)) by (first [apply counts_of_lookup; lia | lia]).
    unfold rank. rewrite take_0. cbn [freq]. lia.
Qed.

Lemma hit_codeword L l :
  (0 < L <= MAX_BITS)%nat -> hit L l = true ->
  exists s, codeword lengths (Z.of_nat s) (take L l) /\ symbol_at L l = Z.of_nat s /\ (s < length lengths)%nat.
Proof using Hok Hmax Hshort.
  intros HL (Hlen & Hrange)%hit_spec. destruct L as [|L]; [lia|]. cbn [coded] in Hrange.
  destruct (rank_exists lengths (S L) (msb_value (take (S L) l) - first_codes (freq lengths) (S L)))
    as (s & Hs & Hr); [lia|].
  exists s. split_and!.
  - exists (Z.of_nat (S L)). rewrite Nat2Z.id. split_and!; [done|lia|lia| |].
    + unfold zlen. rewrite length_take. lia.
    + rewrite (canonical_code_split _ _ (S L)) by (done || lia). lia.
  - unfold symbol_at. apply list_lookup_total_correct. rewrite <- Hr. apply symbols_spec; [done|lia].
  - by eapply lookup_lt_Some.
Qed.

Lemma codeword_hit s c l :
  codeword lengths s c -> c `prefix_of` l ->
  (0 < length c <= MAX_BITS)%nat /\ hit (length c) l = true /\ take (length c) l = c /\
  symbol_at (length c) l = s.
Proof using Hok Hmax Hshort.
  intros (x & Hs & Hs0 & Hx & Hlen & Hmsb) [k ->]. rewrite take_app_length.
  pose proof (proj1 (Forall_lookup _ _) Hmax _ _ Hs) as Hxm. unfold zlen in Hlen. cbn beta in Hxm.
  subst x. assert (0 < length c)%nat as Hc by lia.
  pose proof (rank_bound _ _ _ Hs) as Hr.
  rewrite (canonical_code_split _ _ _ Hs) in Hmsb by done. split_and!; [lia|lia| |done|].
  - apply hit_spec. rewrite length_app, take_app_length. split; [lia|]. destruct (length c); [lia|].
    cbn [coded]. lia.
  - unfold symbol_at. rewrite take_app_length. apply list_lookup_total_correct.
    replace (first_indices _ _ + _) with (first_indices (freq lengths) (length c) +
      rank lengths (Z.to_nat s) (length c)) by lia.
    rewrite <- (Z2Nat.id s) at 2 by done. by apply symbols_spec.
Qed.

(** *** The fast table *)

Definition FAST_SIZE : nat := 2 ^ FAST_BITS.

(** What slot [s] holds once the codes of up to [k] bits are in. *)
Definition entry_of (L : nat) (l : list bool) : Z :=
  Z.lor (wrap 16 (Z.shiftl (symbol_at L l) 4)) (Z.of_nat L).

Fixpoint slot_entry (k : nat) (s : nat) : Z :=
  match k with
  | O => U16_MAX
  | S k =>
      if hit (S k) (bits_of FAST_BITS (Z.of_nat s)) then entry_of (S k) (bits_of FAST_BITS (Z.of_nat s))
      else slot_entry k s
  end.

Lemma fill_slots_spec fuel slot step entry fast :
  (0 < step)%nat -> length fast = FAST_SIZE -> (FAST_SIZE <= slot + fuel * step)%nat ->
  length (fill_slots fuel slot step entry fast) = FAST_SIZE /\
  forall s, (s < FAST_SIZE)%nat ->
    fill_slots fuel slot step entry fast !!! s =
      if (slot <=? s)%nat && ((s - slot) mod step =? 0)%nat then entry else fast !!! s.
Proof using.
  intros Hstep. revert slot fast. induction fuel as [|fuel IH]; intros slot fast Hlen Hfuel; cbn [fill_slots].
  { split; [done|]. intros s Hs. destruct (Nat.leb_spec slot s); [lia|done]. }
  fold FAST_SIZE. destruct (Nat.ltb_spec slot FAST_SIZE) as [Hlt|Hge].
  - destruct (IH (slot + step)%nat (<[slot := entry]> fast)) as [Hl Hs]; [by rewrite length_insert|lia|].
    split; [done|]. intros s Hss. rewrite Hs by done.
    destruct (Nat.leb_spec slot s) as [Hle|Hgt], (Nat.leb_spec (slot + step) s) as [Hle'|Hgt']; try lia; cbn [andb].
    + replace (s - slot)%nat with ((s - (slot + step)) + 1 * step)%nat by lia. rewrite Nat.Div0.mod_add.
      case_match; [done|]. apply list_lookup_total_insert_ne. lia.
    + rewrite (Nat.mod_small (s - slot)) by lia. destruct (decide (s = slot)) as [->|].
      * rewrite Nat.sub_diag. cbn. apply list_lookup_total_insert_eq. lia.
      * destruct (Nat.eqb_spec (s - slot) 0); [lia|]. apply list_lookup_total_insert_ne. lia.
    + apply list_lookup_total_insert_ne. lia.
  - split; [done|]. intros s Hs. destruct (Nat.leb_spec slot s); [lia|done].
Qed.

(** The slots of a code are those whose low bits read, first bit first, as the code. *)
Lemma slot_matches L canonical s :
  0 <= canonical < 2 ^ Z.of_nat L ->
  (Z.to_nat (reverse_bits canonical L) <=? s)%nat &&
    ((s - Z.to_nat (reverse_bits canonical L)) mod 2 ^ L =? 0)%nat =
  (msb_value (bits_of L (Z.of_nat s)) =? canonical).
Proof using.
  intros Hc. set (slot := Z.to_nat (reverse_bits canonical L)).
  assert (Z.of_nat slot = lsb_value (rev (bits_of L canonical))) as Hslot.
  { unfold slot. rewrite reverse_bits_spec, msb_lsb.
    pose proof (lsb_bounds (rev (bits_of L canonical))). lia. }
  assert ((slot < 2 ^ L)%nat) as Hlt.
  { pose proof (lsb_bounds (rev (bits_of L canonical))) as Hb. unfold zlen in Hb.
    rewrite length_rev, length_bits_of in Hb. apply Nat2Z.inj_lt. rewrite Nat2Z.inj_pow. lia. }
  assert (((slot <=? s)%nat && ((s - slot) mod 2 ^ L =? 0)%nat = true) <-> (s mod 2 ^ L = slot)%nat) as H1.
  { rewrite andb_true_iff, Nat.leb_le, Nat.eqb_eq. split.
    - intros [Hle Hm]. apply Nat.Div0.mod_divides in Hm as [q Hq].
      replace s with (slot + q * 2 ^ L)%nat by lia. rewrite Nat.Div0.mod_add. by apply Nat.mod_small.
    - intros Hm. pose proof (Nat.div_mod_eq s (2 ^ L)) as Hd. rewrite Hm in Hd. split; [lia|].
      replace (s - slot)%nat with (0 + (s / 2 ^ L) * 2 ^ L)%nat by lia. rewrite Nat.Div0.mod_add.
      apply Nat.Div0.mod_0_l. }
  apply Bool.eq_iff_eq_true. rewrite H1, Z.eqb_eq, msb_lsb.
  assert ((s mod 2 ^ L = slot)%nat <-> bits_of L (Z.of_nat s) = rev (bits_of L canonical)) as H2.
  { rewrite <- Nat2Z.inj_iff, Nat2Z.inj_mod, Nat2Z.inj_pow, Hslot. change (Z.of_nat 2) with 2.
    rewrite <- lsb_bits_of. split; [|by intros ->]. intros H.
    rewrite <- (bits_of_lsb (bits_of L (Z.of_nat s))), <- (bits_of_lsb (rev (bits_of L canonical))).
    rewrite H, length_rev, !length_bits_of. done. }
  rewrite H2. split.
  - intros ->. rewrite rev_involutive, lsb_bits_of. by apply Z.mod_small.
  - intros H. rewrite <- H. pose proof (bits_of_lsb (rev (bits_of L (Z.of_nat s)))) as Hb.
    rewrite length_rev, length_bits_of in Hb. rewrite Hb. symmetry. apply rev_involutive.
Qed.

Lemma fill_length_spec count L syms canonical index fast :
  (L <= FAST_BITS)%nat -> length fast = FAST_SIZE -> 0 <= canonical ->
  canonical + Z.of_nat count <= 2 ^ Z.of_nat L ->
  length (fill_length count L syms canonical index fast) = FAST_SIZE /\
  forall s, (s < FAST_SIZE)%nat ->
    fill_length count L syms canonical index fast !!! s =
      let m := msb_value (bits_of L (Z.of_nat s)) in
      if (canonical <=? m) && (m <? canonical + Z.of_nat count)
      then Z.lor (wrap 16 (Z.shiftl (syms !!! (index + Z.to_nat (m - canonical))%nat) 4)) (Z.of_nat L)
      else fast !!! s.
Proof using.
  intros HL. revert canonical index fast. induction count as [|count IH]; intros canonical index fast Hlen Hc Hbound;
    cbn [fill_length].
  { split; [done|]. intros s Hs. cbn zeta. destruct (Z.leb_spec canonical (msb_value (bits_of L (Z.of_nat s)))),
      (Z.ltb_spec (msb_value (bits_of L (Z.of_nat s))) (canonical + Z.of_nat 0)); cbn [andb]; try done; lia. }
  destruct (Nat.leb_spec L FAST_BITS); [|lia]. rewrite Nat2Z.inj_succ in Hbound. fold FAST_SIZE.
  set (entry := Z.lor (wrap 16 (Z.shiftl (syms !!! index) 4)) (Z.of_nat L)).
  assert (0 < 2 ^ L)%nat as Hpos by (apply Nat.neq_0_lt_0, Nat.pow_nonzero; lia).
  destruct (fill_slots_spec FAST_SIZE (Z.to_nat (reverse_bits canonical L)) (2 ^ L) entry fast Hpos Hlen)
    as [Hl1 Hs1]; [nia|].
  destruct (IH (canonical + 1) (S index) _ Hl1 ltac:(lia) ltac:(lia)) as [Hl2 Hs2].
  split; [done|]. intros s Hs. rewrite Hs2 by done. cbn zeta. rewrite Hs1 by done.
  rewrite slot_matches by lia. set (m := msb_value _).
  destruct (Z.leb_spec (canonical + 1) m), (Z.ltb_spec m (canonical + 1 + Z.of_nat count)), (Z.eqb_spec m canonical),
    (Z.leb_spec canonical m), (Z.ltb_spec m (canonical + Z.of_nat (S count))); cbn [andb]; try lia; try done.
  - f_equal. f_equal. f_equal. f_equal. lia.
  - unfold entry. f_equal. f_equal. f_equal. f_equal. lia.
Qed.

Lemma fill_length_long count L syms canonical index fast :
  (FAST_BITS < L)%nat -> fill_length count L syms canonical index fast = fast.
Proof using.
  intros HL. revert canonical index. induction count as [|count IH]; intros canonical index; cbn [fill_length]; [done|].
  destruct (Nat.leb_spec L FAST_BITS); [lia|]. apply IH.
Qed.

Lemma slot_entry_fill L fast syms :
  (S L <= FAST_BITS)%nat -> syms = symbols (table_of lengths) -> length fast = FAST_SIZE ->
  let canonical := first_codes (freq lengths) (S L) in
  let index := Z.to_nat (first_indices (freq lengths) (S L)) in
  let count := Z.to_nat (coded (freq lengths) (S L)) in
  (forall s, (s < FAST_SIZE)%nat -> fast !!! s = slot_entry L s) ->
  length (fill_length count (S L) syms canonical index fast) = FAST_SIZE /\
  forall s, (s < FAST_SIZE)%nat ->
    fill_length count (S L) syms canonical index fast !!! s = slot_entry (S L) s.
Proof using Hmax Hkraft.
  intros HL -> Hlen canonical index count Hprev.
  pose proof (proj2 (fits_kraft lengths Hmax) Hkraft (S L) ltac:(unfold MAX_BITS, FAST_BITS in *; lia)) as Hfit.
  pose proof (first_codes_nonneg (freq lengths) (freq_nonneg lengths) (S L)).
  pose proof (first_indices_nonneg (freq lengths) (freq_nonneg lengths) (S L)).
  pose proof (coded_nonneg (freq lengths) (freq_nonneg lengths) (S L)).
  destruct (fill_length_spec count (S L) (symbols (table_of lengths)) canonical index fast HL Hlen) as [Hl Hs];
    [unfold canonical; lia|unfold canonical, count; lia|].
  split; [done|]. intros s Hss. rewrite Hs by done. cbn zeta. cbn [slot_entry]. unfold hit.
  rewrite length_bits_of, bits_of_take by done. destruct (Nat.leb_spec (S L) FAST_BITS); [|lia].
  change (true && (first_codes (freq lengths) (S L) <=? msb_value (bits_of (S L) (Z.of_nat s))))
    with (first_codes (freq lengths) (S L) <=? msb_value (bits_of (S L) (Z.of_nat s))).
  replace (canonical + Z.of_nat count) with (first_codes (freq lengths) (S L) + coded (freq lengths) (S L))
    by (unfold canonical, count; lia).
  fold canonical. destruct ((canonical <=? _) && _) eqn:E; [|by apply Hprev].
  apply andb_prop in E as [E%Z.leb_le _]. unfold entry_of, symbol_at. rewrite bits_of_take by done.
  f_equal. f_equal. f_equal. f_equal. unfold index. fold canonical. lia.
Qed.

Lemma fill_lengths_spec m k fast :
  (k + m = MAX_BITS)%nat -> length fast = FAST_SIZE ->
  (forall s, (s < FAST_SIZE)%nat -> fast !!! s = slot_entry (Nat.min k FAST_BITS) s) ->
  forall s, (s < FAST_SIZE)%nat ->
    fill_lengths (seq (S k) m) (counts_of lengths) (symbols (table_of lengths))
      (first_codes (freq lengths) (S k)) (Z.to_nat (first_indices (freq lengths) (S k))) fast !!! s =
    slot_entry FAST_BITS s.
Proof using Hmax Hkraft.
  revert k fast. induction m as [|m IH]; intros k fast Hkm Hlen Hprev s Hs; cbn [seq fill_lengths].
  { rewrite Hprev by done. f_equal. unfold MAX_BITS, FAST_BITS in *. lia. }
  rewrite counts_of_lookup by lia.
  pose proof (first_indices_nonneg (freq lengths) (freq_nonneg lengths) (S k)).
  pose proof (coded_nonneg (freq lengths) (freq_nonneg lengths) (S k)) as Hcn.
  rewrite Z2Nat.id, Z.shiftl_mul_pow2 by lia.
  replace ((first_codes (freq lengths) (S k) + coded (freq lengths) (S k)) * 2 ^ 1)
    with (first_codes (freq lengths) (S (S k))) by (rewrite first_codes_S; lia).
  replace (Z.to_nat (first_indices (freq lengths) (S k)) + Z.to_nat (coded (freq lengths) (S k)))%nat
    with (Z.to_nat (first_indices (freq lengths) (S (S k)))) by (cbn [first_indices] in *; lia).
  destruct (decide (S k <= FAST_BITS)%nat) as [Hle|Hgt].
  - rewrite Nat.min_l in Hprev by lia.
    destruct (slot_entry_fill k fast _ Hle eq_refl Hlen Hprev) as [Hl2 Hs2].
    apply IH; [lia|done| |done]. intros s' Hs'. rewrite Nat.min_l by lia. by apply Hs2.
  - rewrite fill_length_long by lia. apply IH; [lia|done| |done]. intros s' Hs'.
    rewrite Hprev by done. f_equal. lia.
Qed.

Lemma fast_spec s : (s < FAST_SIZE)%nat -> fast (table_of lengths) !!! s = slot_entry FAST_BITS s.
Proof using Hmax Hkraft.
  intros Hs. pose proof (fill_lengths_spec MAX_BITS 0 (replicate FAST_SIZE U16_MAX) eq_refl
    (length_replicate _ _)) as H.
  rewrite <- H; [|intros s' Hs'; rewrite lookup_total_replicate_2 by done; done|done].
  unfold table_of. by destruct (decode_state (counts_of lengths)) as [[[fc fi] code] index].
Qed.

Lemma slot_entry_cases k s :
  (slot_entry k s = U16_MAX /\ forall L, (0 < L <= k)%nat -> hit L (bits_of FAST_BITS (Z.of_nat s)) = false) \/
  exists L, (0 < L <= k)%nat /\ hit L (bits_of FAST_BITS (Z.of_nat s)) = true /\
    slot_entry k s = entry_of L (bits_of FAST_BITS (Z.of_nat s)).
Proof using.
  induction k as [|k IH]; [left; split; [done|lia]|]. cbn [slot_entry].
  destruct (hit (S k) _) eqn:E; [right; exists (S k); split_and!; [lia|lia|done|done]|].
  destruct IH as [[-> Hno]|(L & HL & Hh & ->)].
  - left. split; [done|]. intros L HL. destruct (decide (L = S k)) as [->|]; [done|]. apply Hno. lia.
  - right. exists L. split_and!; [lia|lia|done|done].
Qed.

(** A fast entry gives back its length and its symbol. *)
Lemma entry_fields L s : (L <= FAST_BITS)%nat -> 0 <= s < 4096 ->
  let entry := Z.lor (wrap 16 (Z.shiftl s 4)) (Z.of_nat L) in
  Z.land entry 15 = Z.of_nat L /\ Z.shiftr entry 4 = s /\ (entry =? U16_MAX) = false.
Proof using.
  intros HL Hs entry.
  assert (entry = s * 2 ^ 4 + Z.of_nat L) as ->.
  { unfold entry. rewrite wrap_small; [apply lor_shiftl_add; unfold FAST_BITS in HL; lia|].
    rewrite Z.shiftl_mul_pow2 by lia. change (2 ^ 16) with 65536. change (2 ^ 4) with 16. lia. }
  change 15 with (Z.ones 4). rewrite Z.land_ones, Z.shiftr_div_pow2 by lia. change (2 ^ 4) with 16.
  unfold FAST_BITS in HL. split_and!.
  - rewrite Z.add_comm, Z.mod_add by lia. apply Z.mod_small. lia.
  - rewrite Z.div_add_l by lia. rewrite Z.div_small by lia. lia.
  - apply Z.eqb_neq. unfold U16_MAX. intros H. assert ((s * 16 + Z.of_nat L) mod 16 = 65535 mod 16) as Hm by (by rewrite H).
    rewrite Z.add_comm, Z.mod_add in Hm by lia. rewrite Z.mod_small in Hm by lia. change (65535 mod 16) with 15 in Hm. lia.
Qed.

(** *** Decoding *)

(** What [decode] must answer when [l] are the bits to be read. *)
Definition decodes (l : list bool) (answer : result IoError (Z * BitReader)) : Prop :=
  match answer with
  | Ok (s, r') =>
      exists L, (0 < L <= MAX_BITS)%nat /\ hit L l = true /\ s = symbol_at L l /\
        stream r' = drop L l /\ reader_ok r'
  | Err e =>
      (forall L, (0 < L <= MAX_BITS)%nat -> hit L l = false) /\ e = decode_error l
  end.

Lemma hit_short L l : (length l < L)%nat -> hit L l = false.
Proof using. intros H. unfold hit. destruct (Nat.leb_spec L (length l)); [lia|done]. Qed.

Lemma hit_extend L l k : (L <= length l)%nat -> hit L (l ++ k) = hit L l.
Proof using.
  intros H. unfold hit. rewrite take_app_le, length_app by done.
  by rewrite !(proj2 (Nat.leb_le _ _)) by lia.
Qed.

Lemma table_fields :
  counts (table_of lengths) = counts_of lengths /\
  forall L, (0 < L <= MAX_BITS)%nat ->
    first_code (table_of lengths) !!! L = first_codes (freq lengths) L /\
    first_index (table_of lengths) !!! L = first_indices (freq lengths) L.
Proof using.
  unfold table_of. pose proof (decode_state_spec (freq lengths) (counts_of lengths) (counts_of_lookup lengths)) as H.
  by destruct (decode_state (counts_of lengths)) as [[[fc fi] code] index].
Qed.

(** The comparison of the slow path, wrap-around included, is [hit]. *)
Lemma walk_test L code :
  (0 < L <= MAX_BITS)%nat -> 0 <= code < 2 ^ Z.of_nat L ->
  (0 <? coded (freq lengths) L) &&
    (wrap 32 (code - first_codes (freq lengths) L) <? coded (freq lengths) L) =
  (first_codes (freq lengths) L <=? code) && (code <? first_codes (freq lengths) L + coded (freq lengths) L).
Proof using Hmax Hkraft.
  intros HL Hcode. pose proof (proj2 (fits_kraft lengths Hmax) Hkraft L HL) as Hfit.
  pose proof (first_codes_nonneg (freq lengths) (freq_nonneg lengths) L).
  pose proof (coded_nonneg (freq lengths) (freq_nonneg lengths) L).
  assert (2 ^ Z.of_nat L <= 2 ^ 15) as Hpow by (apply Z.pow_le_mono_r; unfold MAX_BITS in HL; lia).
  change (2 ^ 15) with 32768 in Hpow. unfold wrap. change (2 ^ 32) with 4294967296.
  destruct (Z.leb_spec (first_codes (freq lengths) L) code) as [Hle|Hgt].
  - rewrite Z.mod_small by lia.
    destruct (Z.ltb_spec 0 (coded (freq lengths) L)), (Z.ltb_spec (code - first_codes (freq lengths) L) (coded (freq lengths) L)),
      (Z.ltb_spec code (first_codes (freq lengths) L + coded (freq lengths) L)); cbn [andb]; try done; lia.
  - rewrite <- (Z.mod_add _ 1) by lia. rewrite Z.mod_small by lia.
    destruct (Z.ltb_spec (code - first_codes (freq lengths) L + 1 * 4294967296) (coded (freq lengths) L)); [lia|].
    by rewrite andb_false_r.
Qed.

Lemma take_one_bit (r : BitReader) k (full : list bool) b :
  stream r = drop k full -> full !! k = Some b -> lsb_value (take 1 (stream r)) = Z.b2z b.
Proof using.
  intros -> Hb. rewrite (drop_S _ _ _ Hb). cbn. destruct b; done.
Qed.

Lemma walk_spec m k code r full :
  (k + m = MAX_BITS)%nat -> reader_ok r -> stream r = drop k full -> (k <= length full)%nat ->
  code = msb_value (take k full) -> (forall L, (0 < L <= k)%nat -> hit L full = false) ->
  decodes full (walk (seq (S k) m) (table_of lengths) code r).
Proof using Hmax Hkraft.
  destruct table_fields as [Hcounts Hfields].
  revert k code r. induction m as [|m IH]; intros k code r Hkm Hr Hst Hlen Hcode Hno; cbn [seq walk].
  { cbn [decodes]. split; [intros L HL; apply Hno; lia|]. unfold decode_error, zlen.
    destruct (Z.ltb_spec (Z.of_nat (length full)) (Z.of_nat MAX_BITS)); [lia|done]. }
  pose proof (take_bits_spec 1 r Hr ltac:(unfold MAX_FIELD; lia)) as Htake.
  assert (zlen (stream r) = Z.of_nat (length full - k)) as Hz by (rewrite Hst; unfold zlen; by rewrite length_drop).
  destruct (Z.leb_spec 1 (zlen (stream r))) as [Hle|Hgt].
  - destruct Htake as (r1 & -> & Hst1 & Hr1). cbn beta iota zeta.
    destruct (lookup_lt_is_Some_2 full k ltac:(lia)) as [b Hb].
    change (Z.to_nat 1) with 1%nat in *. rewrite (take_one_bit r k full b Hst Hb).
    assert (Z.lor (Z.shiftl code 1) (Z.b2z b) = msb_value (take (S k) full)) as ->.
    { rewrite lor_shiftl_add by (destruct b; cbn; lia). rewrite (take_S_r _ _ _ Hb), msb_app, <- Hcode.
      change (zlen [b]) with 1. unfold msb_value. cbn [foldl]. lia. }
    rewrite Hcounts, counts_of_lookup by lia. destruct (Hfields (S k) ltac:(lia)) as [-> ->].
    pose proof (msb_bounds (take (S k) full)) as Hmb. unfold zlen in Hmb. rewrite length_take, Nat.min_l in Hmb by lia.
    rewrite walk_test by (done || lia).
    assert (stream r1 = drop (S k) full) as Hst1'.
    { rewrite Hst1, Hst, drop_drop. f_equal. lia. }
    destruct ((first_codes (freq lengths) (S k) <=? _) && _) eqn:E.
    + assert (hit (S k) full = true) as Hhit.
      { unfold hit. rewrite (proj2 (Nat.leb_le _ _)) by lia. exact E. }
      apply andb_prop in E as [E1%Z.leb_le E2%Z.ltb_lt].
      exists (S k). split_and!; [lia|lia|done| |done|done]. unfold symbol_at. f_equal. f_equal. f_equal.
      apply wrap_small. assert (2 ^ Z.of_nat (S k) <= 2 ^ 32) by (apply Z.pow_le_mono_r; unfold MAX_BITS in *; lia).
      pose proof (first_codes_nonneg (freq lengths) (freq_nonneg lengths) (S k)). lia.
    + apply IH; [lia|done|done|lia|done|]. intros L HL.
      destruct (decide (L = S k)) as [->|]; [|apply Hno; lia].
      unfold hit. rewrite (proj2 (Nat.leb_le _ _)) by lia. exact E.
  - rewrite Htake. cbn [decodes]. split.
    + intros L HL. destruct (decide (L <= k)%nat); [apply Hno; lia|]. apply hit_short. lia.
    + unfold decode_error, zlen. destruct (Z.ltb_spec (Z.of_nat (length full)) (Z.of_nat MAX_BITS)); [done|lia].
Qed.

(** The window of the fast path: the next nine bits, or all there are and zeros. *)
Lemma window_bits l :
  exists pad, bits_of FAST_BITS (lsb_value (take FAST_BITS l)) = take FAST_BITS l ++ pad.
Proof using.
  exists (drop (length (take FAST_BITS l)) (bits_of FAST_BITS (lsb_value (take FAST_BITS l)))).
  rewrite <- (take_drop (length (take FAST_BITS l)) (bits_of FAST_BITS _)) at 1. f_equal.
  rewrite bits_of_take by (rewrite length_take; lia). apply bits_of_lsb.
Qed.

Lemma window_hit L l :
  (L <= FAST_BITS)%nat -> (L <= length l)%nat ->
  hit L (bits_of FAST_BITS (lsb_value (take FAST_BITS l))) = hit L l /\
  take L (bits_of FAST_BITS (lsb_value (take FAST_BITS l))) = take L l.
Proof using.
  intros HL Hlen. destruct (window_bits l) as [pad ->].
  assert (L <= length (take FAST_BITS l))%nat by (rewrite length_take; lia).
  split; [|by rewrite take_app_le, take_take, Nat.min_l by done].
  rewrite hit_extend by done. rewrite <- (take_drop FAST_BITS l) at 2. by rewrite hit_extend.
Qed.

(** Past the fast path: nine bits that no short code begins with, then the walk. *)
Lemma decode_slow r w :
  reader_ok r -> w = lsb_value (take FAST_BITS (stream r)) ->
  (forall L, (0 < L <= FAST_BITS)%nat -> hit L (stream r) = false) ->
  decodes (stream r)
    (let? r := need (Z.of_nat FAST_BITS) r in
     walk (seq (S FAST_BITS) (MAX_BITS - FAST_BITS)) (table_of lengths) (reverse_bits w FAST_BITS)
       (consume (Z.of_nat FAST_BITS) r)).
Proof using Hmax Hkraft.
  intros Hr -> Hno. pose proof (need_spec (Z.of_nat FAST_BITS) r Hr ltac:(unfold FAST_BITS, MAX_FIELD; lia)) as Hneed.
  rewrite Nat2Z.id in Hneed. destruct (need _ r) as [r2|e].
  - destruct Hneed as (Hlong & Hr2 & Hst). unfold zlen in Hlong.
    apply walk_spec; [done|done|done|lia| |done]. rewrite reverse_bits_spec. f_equal.
    destruct (window_bits (stream r)) as [pad Hpad].
    pose proof (f_equal length Hpad) as Hpl. rewrite length_bits_of, length_app, length_take in Hpl.
    destruct pad; [by rewrite Hpad, app_nil_r|cbn [length] in Hpl; lia].
  - destruct Hneed as [-> Hlt]. unfold zlen in Hlt. cbn [decodes]. split.
    + intros L HL. destruct (decide (L <= FAST_BITS)%nat); [apply Hno; lia|apply hit_short; lia].
    + unfold decode_error, zlen. unfold FAST_BITS in Hlt.
      destruct (Z.ltb_spec (Z.of_nat (length (stream r))) (Z.of_nat MAX_BITS)); [done|unfold MAX_BITS in *; lia].
Qed.

(** A short code that the padding of the window completed is not there. *)
Lemma decode_padded r w L :
  reader_ok r -> w = lsb_value (take FAST_BITS (stream r)) -> (L <= FAST_BITS)%nat ->
  hit L (bits_of FAST_BITS w) = true -> zlen (stream r) < Z.of_nat L ->
  decodes (stream r)
    (let? r := need (Z.of_nat FAST_BITS) r in
     walk (seq (S FAST_BITS) (MAX_BITS - FAST_BITS)) (table_of lengths) (reverse_bits w FAST_BITS)
       (consume (Z.of_nat FAST_BITS) r)).
Proof using Hmax Hkraft.
  intros Hr Hw HL Hhit Hlt. apply decode_slow; [done|done|]. intros L' HL'. unfold zlen in Hlt.
  destruct (decide (L' <= length (stream r))%nat) as [Hle'|]; [|apply hit_short; lia].
  apply Bool.not_true_iff_false. intros Hh.
  rewrite <- (proj1 (window_hit L' (stream r) ltac:(lia) Hle')), <- Hw in Hh.
  by apply (hit_unique L' L (bits_of FAST_BITS w)); [lia|..].
Qed.

Lemma decodes_same l l' answer : l = l' -> decodes l answer -> decodes l' answer.
Proof using. by intros ->. Qed.

Lemma decode_spec r : reader_ok r -> decodes (stream r) (decode (table_of lengths) r).
Proof using Hok Hmax Hkraft Hshort.
  intros Hr. unfold decode.
  destruct (peek_spec (Z.of_nat FAST_BITS) r Hr ltac:(unfold FAST_BITS, MAX_FIELD; lia))
    as (r1 & -> & Hst & Hr1 & Hend).
  rewrite Nat2Z.id, <- Hst in *. cbn beta iota zeta. apply (decodes_same (stream r1)); [done|].
  remember (lsb_value (take FAST_BITS (stream r1))) as w eqn:Hweq.
  pose proof (lsb_bounds (take FAST_BITS (stream r1))) as Hw. rewrite <- Hweq in Hw.
  assert (w < 2 ^ Z.of_nat FAST_BITS) as Hw9.
  { eapply Z.lt_le_trans; [apply Hw|]. apply Z.pow_le_mono_r; [lia|]. unfold zlen. rewrite length_take. lia. }
  assert (Z.to_nat w < FAST_SIZE)%nat as Hslot by (unfold FAST_SIZE; apply Nat2Z.inj_lt; rewrite Nat2Z.inj_pow; lia).
  rewrite fast_spec by done.
  destruct (slot_entry_cases FAST_BITS (Z.to_nat w)) as [[-> Hno]|(L & HL & Hhit & ->)];
    rewrite Z2Nat.id in * by lia.
  - rewrite Z.eqb_refl. cbn [negb andb]. apply decode_slow; [done|done|]. intros L HL.
    destruct (decide (L <= length (stream r1))%nat) as [Hle|]; [|apply hit_short; lia].
    rewrite <- (proj1 (window_hit L (stream r1) ltac:(lia) Hle)), <- Hweq. by apply Hno.
  - destruct (hit_codeword L _ ltac:(unfold MAX_BITS, FAST_BITS in *; lia) Hhit) as (s & _ & Hsym & Hs).
    unfold entry_of. rewrite Hsym. unfold zlen in Hshort.
    destruct (entry_fields L (Z.of_nat s) ltac:(lia) ltac:(lia)) as (Hland & Hshr & Hne).
    rewrite Hland, Hshr, Hne. cbn [negb andb].
    pose proof (length_stream r1 Hr1) as Hlen. pose proof (zlen_nonneg (remaining r1)).
    destruct (Z.leb_spec (Z.of_nat L) (bit_count r1)) as [Hle|Hgt].
    + destruct (window_hit L (stream r1) ltac:(lia) ltac:(unfold zlen in Hlen; lia)) as [Hsame Htake].
      rewrite <- Hweq in Hsame, Htake. pose proof Hr1 as (_ & _ & Hc1 & _).
      destruct (consume_spec (Z.of_nat L) r1 Hr1 ltac:(lia)) as [? Hd]. rewrite Nat2Z.id in Hd.
      exists L. split_and!; [lia|unfold MAX_BITS, FAST_BITS in *; lia|by rewrite <- Hsame| |done|done].
      rewrite <- Hsym. unfold symbol_at. by rewrite Htake.
    + apply (decode_padded r1 w L); try done; lia.
Qed.
End Code.

Lemma accepted lengths table :
  lengths_ok lengths -> Huffman_new lengths = Ok table ->
  Forall (fun l => l <= Z.of_nat MAX_BITS) lengths /\ kraft_sum lengths <= 2 ^ Z.of_nat MAX_BITS /\
  table = table_of lengths.
Proof.
  intros Hl. rewrite Huffman_new_spec by done. case_bool_decide; [|done].
  destruct (Z.leb_spec (kraft_sum lengths) (2 ^ Z.of_nat MAX_BITS)); [|done]. by intros [= <-].
Qed.

(** A symbol and its codeword, or none. *)
Lemma decode_codeword lengths table r :
  lengths_ok lengths -> zlen lengths <= 4096 -> Huffman_new lengths = Ok table -> reader_ok r ->
  match decode table r with
  | Ok (s, r') =>
      exists c, codeword lengths s c /\ stream r = c ++ stream r' /\ reader_ok r' /\
        forall s' c', codeword lengths s' c' -> c' `prefix_of` stream r -> s' = s /\ c' = c
  | Err e =>
      (forall s c, codeword lengths s c -> ~ c `prefix_of` stream r) /\ e = decode_error (stream r)
  end.
Proof.
  intros Hok Hshort Hnew Hr. destruct (accepted _ _ Hok Hnew) as (Hmax & Hkraft & ->).
  pose proof (decode_spec lengths Hok Hmax Hkraft Hshort r Hr) as H.
  destruct (decode (table_of lengths) r) as [[s r']|e]; cbn [decodes] in H.
  - destruct H as (L & HL & Hhit & -> & Hst & Hr').
    destruct (hit_codeword lengths Hok Hmax Hshort L _ HL Hhit) as (s & Hc & Hsym & _).
    rewrite Hsym. exists (take L (stream r)). split_and!; [done| |done|].
    + by rewrite Hst, take_drop.
    + intros s' c' Hc' Hp. destruct (codeword_hit lengths Hok Hmax Hshort s' c' _ Hc' Hp) as (_ & Hhit' & Ht & Hs').
      destruct (lt_eq_lt_dec (length c') L) as [[Hlt|He]|Hlt].
      * exfalso. by eapply (hit_unique lengths (length c') L).
      * rewrite <- He. split; [congruence|done].
      * exfalso. by eapply (hit_unique lengths L (length c')).
  - destruct H as [Hno He]. split; [|done]. intros s c Hc Hp.
    destruct (codeword_hit lengths Hok Hmax Hshort s c _ Hc Hp) as (HL & Hhit & _). by rewrite Hno in Hhit.
Qed.

(** [decode] reads exactly one codeword of the canonical code, whatever mixture of fast
    table, short input and bit-by-bit walk it takes: it answers with a symbol exactly when
    the bits ahead begin with a codeword, which is then the only one and the only bits
    consumed; otherwise it reports an invalid code, or, with fewer than fifteen bits left,
    a truncated stream. *)
Theorem decode_reads_one_codeword lengths table r :
  lengths_ok lengths -> zlen lengths <= 4096 -> Huffman_new lengths = Ok table -> reader_ok r ->
  match decode table r with
  | Ok (s, r') =>
      exists c, codeword lengths s c /\ stream r = c ++ stream r' /\ reader_ok r' /\
        forall s' c', codeword lengths s' c' -> c' `prefix_of` stream r -> s' = s /\ c' = c
  | Err e =>
      (forall s c, codeword lengths s c -> ~ c `prefix_of` stream r) /\ e = decode_error (stream r)
  end.
Proof. exact (decode_codeword lengths table r). Qed.

(** ** Instances *)

(** Four symbols of lengths 2, 1, 3, 3: the codes are 10, 0, 110, 111. *)
Definition sample_lengths : list Z := [2; 1; 3; 3].

Lemma sample_lengths_ok : lengths_ok sample_lengths.
Proof. repeat constructor; done. Qed.

Example sample_decodes :
  (let? table := Huffman_new sample_lengths in
   let? (a, r) := decode table (reader_new [Some [93]]) in
   let? (b, r) := decode table r in
   let? (c, r) := decode table r in
   Ok [a; b; c]) = Ok [0; 3; 1].
Proof. vm_compute. reflexivity. Qed.

Lemma decode_reads_one_codeword_witness :
  exists table r, Huffman_new sample_lengths = Ok table /\ reader_ok r /\
    exists c, codeword sample_lengths 0 c /\ c `prefix_of` stream r.
Proof.
  exists (table_of sample_lengths), (reader_new [Some [93]]).
  assert (Huffman_new sample_lengths = Ok (table_of sample_lengths)) as Hn by (vm_compute; reflexivity).
  assert (reader_ok (reader_new [Some [93]])) as Hr.
  { apply reader_new_ok. apply Forall_cons_2; [|apply Forall_nil_2]. exists [93].
    split; [reflexivity|repeat constructor; done]. }
  split; [exact Hn|]. split; [exact Hr|].
  pose proof (decode_reads_one_codeword sample_lengths _ _ sample_lengths_ok ltac:(vm_compute; discriminate) Hn Hr) as H.
  destruct (decode (table_of sample_lengths) (reader_new [Some [93]])) as [[s r']|e] eqn:E;
    vm_compute in E; [|discriminate E].
  injection E as Es Er. destruct H as (c & Hc & Hst & _). rewrite <- Es in Hc.
  exists c. split; [exact Hc|]. exists (stream r'). exact Hst.
Defined.

Lemma huffman_new_iff_witness :
  is_ok (Huffman_new sample_lengths) = true /\
  Huffman_new [1; 1; 1] = Err (InvalidData "over-subscribed huffman code set").
Proof.
  split.
  - apply (huffman_new_iff sample_lengths sample_lengths_ok).
    split; [repeat constructor; done|vm_compute; discriminate].
  - apply (huffman_new_iff [1; 1; 1]); [repeat constructor; done|].
    split; [repeat constructor; done|vm_compute; reflexivity].
Defined.

(** An incomplete set of more than one symbol is accepted: two codes of two bits. *)
Example incomplete_set_is_accepted :
  is_ok (Huffman_new [2; 2]) = true /\ kraft_sum [2; 2] < 2 ^ Z.of_nat MAX_BITS.
Proof. split; vm_compute; reflexivity. Qed.
