(* ===== verification/Inflate.v ===== *)
(** * Streaming DEFLATE (crates/arkforge-artifact/src/inflate.rs)

    [InflateReader] over an interface of bit sources: the blocks, the symbols of a Huffman
    block, the output window with its compaction, and [read].  Over the bit reader the
    definitions are the code; over a plain list of bits, with the canonical code for the
    tables, they are the one-shot decoder the code is compared with. *)

From S2P Require Import Prelude Bits Huffman.

(** ** Constants *)

Definition WINDOW : Z := 32 * 1024.
Definition COMPACT_THRESHOLD : Z := WINDOW * 4.
Definition STORED_CHUNK : Z := 64 * 1024.

Definition LENGTH_BASE : list Z :=
  [3; 4; 5; 6; 7; 8; 9; 10; 11; 13; 15; 17; 19; 23; 27; 31; 35; 43; 51; 59; 67; 83; 99; 115; 131;
   163; 195; 227; 258].
Definition LENGTH_EXTRA : list Z :=
  [0; 0; 0; 0; 0; 0; 0; 0; 1; 1; 1; 1; 2; 2; 2; 2; 3; 3; 3; 3; 4; 4; 4; 4; 5; 5; 5; 5; 0].
Definition DISTANCE_BASE : list Z :=
  [1; 2; 3; 4; 5; 7; 9; 13; 17; 25; 33; 49; 65; 97; 129; 193; 257; 385; 513; 769; 1025; 1537;
   2049; 3073; 4097; 6145; 8193; 12289; 16385; 24577].
Definition DISTANCE_EXTRA : list Z :=
  [0; 0; 0; 0; 1; 1; 2; 2; 3; 3; 4; 4; 5; 5; 6; 6; 7; 7; 8; 8; 9; 9; 10; 10; 11; 11; 12; 12; 13; 13].
Definition CODE_LENGTH_ORDER : list nat :=
  [16; 17; 18; 0; 8; 7; 9; 6; 10; 5; 11; 4; 12; 3; 13; 2; 14; 1; 15]%nat.

(** ** Sources of bits *)

(** What the decoder uses of a bit reader [A] and of its code tables [T]. *)
Class BitSource (A T : Type) := {
  table_new : list Z -> result IoError T;
  source_take : Z -> A -> result IoError (Z * A);
  source_align : A -> A;
  source_aligned : nat -> A -> result IoError (bytes * A);
  source_decode : T -> A -> result IoError (Z * A);
  bits_left : A -> nat
}.

#[global] Instance reader_source : BitSource BitReader Huffman := {
  table_new := Huffman_new;
  source_take := take_bits;
  source_align := align_to_byte;
  source_aligned := read_aligned;
  source_decode := decode;
  bits_left r := length (stream r)
}.

(** ** Data *)

Inductive BlockState (T : Type) : Type :=
| BNone
| BStored (remaining : Z)
| BHuffman (literal distance : T).
Arguments BNone {T}.
Arguments BStored {T} remaining.
Arguments BHuffman {T} literal distance.

Record InflateReader (A T : Type) := mkInflate {
  bits : A;
  output : bytes;
  read_cursor : Z;
  block : BlockState T;
  final_block_seen : bool;
  finished : bool;
  total_out : Z
}.
Arguments mkInflate {A T} bits output read_cursor block final_block_seen finished total_out.
Arguments bits {A T} i.
Arguments output {A T} i.
Arguments read_cursor {A T} i.
Arguments block {A T} i.
Arguments final_block_seen {A T} i.
Arguments finished {A T} i.
Arguments total_out {A T} i.

Section Decoder.
Context {A T : Type} {src : BitSource A T}.

Definition inflate_new (source : A) : InflateReader A T := mkInflate source [] 0 BNone false false 0.

Definition available (s : InflateReader A T) : Z := zlen (output s) - read_cursor s.

Definition compact (s : InflateReader A T) : InflateReader A T :=
  if COMPACT_THRESHOLD <? read_cursor s then
    let keep_from := Z.max 0 (read_cursor s - WINDOW) in
    mkInflate (bits s) (drop (Z.to_nat keep_from) (output s)) (read_cursor s - keep_from)
      (block s) (final_block_seen s) (finished s) (total_out s)
  else s.

(** ** Block headers *)

Definition stored_block (r : A) : result IoError (BlockState T * A) :=
  let r := source_align r in
  let? (header, r) := source_aligned 4 r in
  let length := header !!! 0%nat + 256 * header !!! 1%nat in
  let complement := header !!! 2%nat + 256 * header !!! 3%nat in
  if negb (length =? U16_MAX - complement)
  then Err (InvalidData "stored block length complement mismatch")
  else Ok (BStored length, r).

Definition fixed_literal_length (symbol : nat) : Z :=
  if (symbol <=? 143)%nat then 8
  else if (symbol <=? 255)%nat then 9
  else if (symbol <=? 279)%nat then 7
  else 8.

Definition fixed_block (r : A) : result IoError (BlockState T * A) :=
  let? literal := table_new (map fixed_literal_length (seq 0 288)) in
  let? distance := table_new (replicate 30 5) in
  Ok (BHuffman literal distance, r).

Fixpoint read_code_lengths (order : list nat) (code_lengths : list Z) (r : A) :
    result IoError (list Z * A) :=
  match order with
  | [] => Ok (code_lengths, r)
  | index :: order =>
      let? (length, r) := source_take 3 r in
      read_code_lengths order (<[index := length]> code_lengths) r
  end.

Fixpoint repeat_length (count : nat) (index : nat) (previous : Z) (lengths : list Z) : list Z :=
  match count with
  | O => lengths
  | S count => repeat_length count (S index) previous (<[index := previous]> lengths)
  end.

(** One round of the loop over [lengths]. *)
Definition lengths_step (table : T) (index : nat) (lengths : list Z) (r : A) :
    result IoError (nat * list Z * A) :=
  let? (symbol, r) := source_decode table r in
  if symbol <=? 15 then Ok (S index, <[index := symbol]> lengths, r)
  else if symbol =? 16 then
    if (index =? 0)%nat then Err (InvalidData "code-length repeat with no previous length")
    else
      let previous := lengths !!! (index - 1)%nat in
      let? (extra, r) := source_take 2 r in
      let repeat := (3 + Z.to_nat extra)%nat in
      if (length lengths <? index + repeat)%nat
      then Err (InvalidData "code-length repeat overruns")
      else Ok ((index + repeat)%nat, repeat_length repeat index previous lengths, r)
  else if symbol =? 17 then
    let? (extra, r) := source_take 3 r in
    let repeat := (3 + Z.to_nat extra)%nat in
    if (length lengths <? index + repeat)%nat
    then Err (InvalidData "code-length zero run overruns")
    else Ok ((index + repeat)%nat, lengths, r)
  else if symbol =? 18 then
    let? (extra, r) := source_take 7 r in
    let repeat := (11 + Z.to_nat extra)%nat in
    if (length lengths <? index + repeat)%nat
    then Err (InvalidData "code-length zero run overruns")
    else Ok ((index + repeat)%nat, lengths, r)
  else Err (InvalidData "invalid code-length symbol").

(** [while index < lengths.len()]; a round advances [index], so there are at most
    [lengths.len()] of them. *)
Fixpoint read_lengths (rounds : nat) (table : T) (index : nat) (lengths : list Z) (r : A) :
    result IoError (list Z * A) :=
  match rounds with
  | O => Ok (lengths, r)
  | S rounds =>
      if (index <? length lengths)%nat then
        let? (index, lengths, r) := lengths_step table index lengths r in
        read_lengths rounds table index lengths r
      else Ok (lengths, r)
  end.

Definition dynamic_block (r : A) : result IoError (BlockState T * A) :=
  let? (literal_count, r) := source_take 5 r in
  let literal_count := literal_count + 257 in
  let? (distance_count, r) := source_take 5 r in
  let distance_count := distance_count + 1 in
  let? (code_length_count, r) := source_take 4 r in
  let code_length_count := code_length_count + 4 in
  if (286 <? literal_count) || (30 <? distance_count)
  then Err (InvalidData "dynamic block declares too many codes")
  else
    let? (code_lengths, r) :=
      read_code_lengths (take (Z.to_nat code_length_count) CODE_LENGTH_ORDER) (replicate 19 0) r in
    let? code_length_table := table_new code_lengths in
    let total := Z.to_nat (literal_count + distance_count) in
    let? (lengths, r) := read_lengths total code_length_table 0 (replicate total 0) r in
    let? literal := table_new (take (Z.to_nat literal_count) lengths) in
    let? distance := table_new (drop (Z.to_nat literal_count) lengths) in
    Ok (BHuffman literal distance, r).

(** The [match block_type] of [start_block]. *)
Definition block_header (block_type : Z) (r : A) : result IoError (BlockState T * A) :=
  if block_type =? 0 then stored_block r
  else if block_type =? 1 then fixed_block r
  else if block_type =? 2 then dynamic_block r
  else Err (InvalidData "reserved DEFLATE block type").

Definition start_block (s : InflateReader A T) : result IoError (bool * InflateReader A T) :=
  if final_block_seen s
  then Ok (false, mkInflate (bits s) (output s) (read_cursor s) (block s) (final_block_seen s) true (total_out s))
  else
    let? (final_bit, r) := source_take 1 (bits s) in
    let is_final := final_bit =? 1 in
    let? (block_type, r) := source_take 2 r in
    let? (block, r) := block_header block_type r in
    Ok (true, mkInflate r (output s) (read_cursor s) block is_final (finished s) (total_out s)).

(** ** Block contents *)

(** [for source in (source..).take(length)] *)
Fixpoint copy_back (length : nat) (source : nat) (output : bytes) : bytes :=
  match length with
  | O => output
  | S length => copy_back length (S source) (output ++ [output !!! source])
  end.

(** The [257..=285] arm, from the output and the bits. *)
Definition back_reference (distance : T) (symbol : Z) (output : bytes) (r : A) :
    result IoError (Z * bytes * A) :=
  let index := Z.to_nat (symbol - 257) in
  let? (extra, r) := source_take (LENGTH_EXTRA !!! index) r in
  let length := LENGTH_BASE !!! index + extra in
  let? (distance_symbol, r) := source_decode distance r in
  if zlen DISTANCE_BASE <=? distance_symbol then Err (InvalidData "invalid distance symbol")
  else
    let index := Z.to_nat distance_symbol in
    let? (extra, r) := source_take (DISTANCE_EXTRA !!! index) r in
    let back := DISTANCE_BASE !!! index + extra in
    if zlen output <? back then Err (InvalidData "back-reference before start of stream")
    else Ok (length, copy_back (Z.to_nat length) (Z.to_nat (zlen output - back)) output, r).

(** One round of [decode_huffman_block]: [false] at the end of the block. *)
Definition huffman_symbol (literal distance : T) (s : InflateReader A T) :
    result IoError (bool * InflateReader A T) :=
  let? (symbol, r) := source_decode literal (bits s) in
  if symbol <=? 255 then
    Ok (true, mkInflate r (output s ++ [symbol]) (read_cursor s) (block s) (final_block_seen s)
                (finished s) (total_out s + 1))
  else if symbol =? 256 then
    Ok (false, mkInflate r (output s) (read_cursor s) BNone (final_block_seen s) (finished s) (total_out s))
  else if symbol <=? 285 then
    let? (length, output, r) := back_reference distance symbol (output s) r in
    Ok (true, mkInflate r output (read_cursor s) (block s) (final_block_seen s) (finished s)
                (total_out s + length))
  else Err (InvalidData "invalid literal/length symbol").

(** [None]: out of fuel. *)
Fixpoint decode_huffman_block (fuel : nat) (literal distance : T) (want : Z) (s : InflateReader A T) :
    option (result IoError (InflateReader A T)) :=
  match fuel with
  | O => None
  | S fuel =>
      if want <=? available s then Some (Ok s)
      else
        match huffman_symbol literal distance s with
        | Err e => Some (Err e)
        | Ok (false, s) => Some (Ok s)
        | Ok (true, s) => decode_huffman_block fuel literal distance want s
        end
  end.

(** The [BlockState::Stored] arm of [fill]. *)
Definition stored_chunk (remaining : Z) (s : InflateReader A T) : result IoError (InflateReader A T) :=
  if remaining =? 0
  then Ok (mkInflate (bits s) (output s) (read_cursor s) BNone (final_block_seen s) (finished s) (total_out s))
  else
    let chunk := Z.min remaining STORED_CHUNK in
    let? (data, r) := source_aligned (Z.to_nat chunk) (bits s) in
    Ok (mkInflate r (output s ++ data) (read_cursor s) (BStored (remaining - chunk)) (final_block_seen s)
          (finished s) (total_out s + chunk)).

Fixpoint fill (fuel : nat) (want : Z) (s : InflateReader A T) :
    option (result IoError (InflateReader A T)) :=
  match fuel with
  | O => None
  | S fuel =>
      if negb (finished s) && (available s <? want) then
        match block s with
        | BNone =>
            match start_block s with
            | Err e => Some (Err e)
            | Ok (false, s) => Some (Ok s)
            | Ok (true, s) => fill fuel want s
            end
        | BStored remaining =>
            match stored_chunk remaining s with
            | Err e => Some (Err e)
            | Ok s => fill fuel want s
            end
        | BHuffman literal distance =>
            match decode_huffman_block fuel literal distance want s with
            | None => None
            | Some (Err e) => Some (Err e)
            | Some (Ok s) => fill fuel want s
            end
        end
      else Some (Ok s)
  end.

(** Enough for every round a state can still take: two per bit left, and three. *)
Definition fuel_for (s : InflateReader A T) : nat := (2 * bits_left (bits s) + 4)%nat.

(** [Read::read] into a buffer of [len] bytes. *)
Definition read (len : Z) (s : InflateReader A T) : option (result IoError (bytes * InflateReader A T)) :=
  if len =? 0 then Some (Ok ([], s))
  else
    match fill (fuel_for s) len s with
    | None => None
    | Some (Err e) => Some (Err e)
    | Some (Ok s) =>
        let count := Z.min (available s) len in
        if count =? 0 then Some (Ok ([], s))
        else
          let data := take (Z.to_nat count) (drop (Z.to_nat (read_cursor s)) (output s)) in
          Some (Ok (data, compact (mkInflate (bits s) (output s) (read_cursor s + count) (block s)
                                     (final_block_seen s) (finished s) (total_out s))))
    end.

(** A caller's reads, up to the first error. *)
Fixpoint reads (lens : list Z) (s : InflateReader A T) : option (list (result IoError bytes)) :=
  match lens with
  | [] => Some []
  | len :: lens =>
      match read len s with
      | None => None
      | Some (Err e) => Some [Err e]
      | Some (Ok (data, s)) => option_map (cons (Ok data)) (reads lens s)
      end
  end.
End Decoder.

(** ** The reference: a list of bits and canonical codes *)

Definition ref_symbol (lengths : list Z) (L : nat) (code : Z) : option nat :=
  List.find (fun s => (lengths !!! s =? Z.of_nat L) && (canonical_code lengths s =? code)) (seq 0 (length lengths)).

(** The shortest prefix of [l] that is a codeword. *)
Fixpoint ref_decode_from (widths : list nat) (lengths : list Z) (l : list bool) : result IoError (Z * list bool) :=
  match widths with
  | [] => Err (decode_error l)
  | L :: widths =>
      match (if (L <=? length l)%nat then ref_symbol lengths L (msb_value (take L l)) else None) with
      | Some s => Ok (Z.of_nat s, drop L l)
      | None => ref_decode_from widths lengths l
      end
  end.

Definition ref_decode (lengths : list Z) (l : list bool) : result IoError (Z * list bool) :=
  ref_decode_from (seq 1 MAX_BITS) lengths l.

Definition ref_table (lengths : list Z) : result IoError (list Z) :=
  if forallb (fun l => l <=? Z.of_nat MAX_BITS) lengths then
    if kraft_sum lengths <=? 2 ^ Z.of_nat MAX_BITS then Ok lengths
    else Err (InvalidData "over-subscribed huffman code set")
  else Err (InvalidData "huffman code length exceeds 15 bits").

Definition ref_take (n : Z) (l : list bool) : result IoError (Z * list bool) :=
  if n <=? zlen l then Ok (lsb_value (take (Z.to_nat n) l), drop (Z.to_nat n) l) else Err EndedMidSymbol.

Definition ref_aligned (count : nat) (l : list bool) : result IoError (bytes * list bool) :=
  if 8 * Z.of_nat count <=? zlen l then Ok (bytes_of_bits count l, drop (8 * count) l) else Err EndedMidSymbol.

#[global] Instance bits_source : BitSource (list bool) (list Z) := {
  table_new := ref_table;
  source_take := ref_take;
  source_align l := drop (Z.to_nat (zlen l mod 8)) l;
  source_aligned := ref_aligned;
  source_decode := ref_decode;
  bits_left := length
}.

(** ** Related sources *)

Definition rel (r : BitReader) (l : list bool) : Prop := reader_ok r /\ stream r = l.

(** A table of at most [4096] symbols, so that a symbol fits beside its length in a [u16]. *)
Definition table_rel (t : Huffman) (lengths : list Z) : Prop :=
  lengths_ok lengths /\ zlen lengths <= 4096 /\ Huffman_new lengths = Ok t.

Definition res_rel {X Y} (R : X -> Y -> Prop) (x : result IoError X) (y : result IoError Y) : Prop :=
  match x, y with
  | Ok a, Ok b => R a b
  | Err e, Err e' => e = e'
  | _, _ => False
  end.

Lemma res_rel_bind {X Y X' Y'} (R : X -> Y -> Prop) (Q : X' -> Y' -> Prop) x y f g :
  res_rel R x y -> (forall a b, R a b -> res_rel Q (f a) (g b)) ->
  res_rel Q (let? a := x in f a) (let? b := y in g b).
Proof. destruct x, y; cbn; try done. intros H Hf. by apply Hf. Qed.

(** A value read alike, and related rests. *)
Definition val_rel {V} (P : V -> Prop) (x : V * BitReader) (y : V * list bool) : Prop :=
  x.1 = y.1 /\ P x.1 /\ rel x.2 y.2.

Lemma take_rel n r l :
  rel r l -> 0 <= n <= MAX_FIELD ->
  res_rel (val_rel (fun v => 0 <= v < 2 ^ n)) (source_take n r) (source_take n l).
Proof.
  intros [Hr <-] Hn. cbn [source_take reader_source bits_source]. unfold ref_take.
  pose proof (take_bits_spec n r Hr Hn) as H. destruct (Z.leb_spec n (zlen (stream r))) as [Hle|Hgt].
  - destruct H as (r' & -> & Hst & Hr'). split_and!; cbn [fst snd]; try done.
    + apply lsb_bounds.
    + pose proof (lsb_bounds (take (Z.to_nat n) (stream r))) as Hb. unfold zlen in *. rewrite length_take in Hb.
      assert (Z.of_nat (Nat.min (Z.to_nat n) (length (stream r))) = n) as Hn' by lia. rewrite Hn' in Hb. lia.
  - by rewrite H.
Qed.

Lemma align_rel r l : rel r l -> rel (source_align r) (source_align l) /\ zlen (source_align l) mod 8 = 0.
Proof.
  intros [Hr <-]. cbn [source_align reader_source bits_source].
  destruct (align_spec r Hr) as (Ha & Hm & Hst). rewrite <- Hst.
  split; [by split|]. by rewrite stream_mod_8.
Qed.

Lemma bytes_of_bits_ok count l : length (bytes_of_bits count l) = count /\ bytes_ok (bytes_of_bits count l).
Proof.
  revert l. induction count as [|count IH]; intros l; cbn [bytes_of_bits]; [by split; [|constructor]|].
  destruct (IH (drop 8 l)) as [Hl Hb]. split; [cbn; by rewrite Hl|]. constructor; [|done].
  pose proof (lsb_bounds (take 8 l)) as H. unfold zlen in H. rewrite length_take in H.
  assert (2 ^ Z.of_nat (Nat.min 8 (length l)) <= 2 ^ 8) by (apply Z.pow_le_mono_r; lia).
  change (2 ^ 8) with 256 in *. unfold u8, U8_MAX. lia.
Qed.

Lemma aligned_rel count r l :
  rel r l -> zlen l mod 8 = 0 ->
  res_rel (fun x y => val_rel (fun data => length data = count /\ bytes_ok data) x y /\ zlen y.2 mod 8 = 0)
    (source_aligned count r) (source_aligned count l).
Proof.
  intros [Hr <-] Hal. rewrite stream_mod_8 in Hal by done. cbn [source_aligned reader_source bits_source].
  unfold ref_aligned. pose proof (read_aligned_spec count r Hr Hal) as H.
  destruct (Z.leb_spec (8 * Z.of_nat count) (zlen (stream r))) as [Hle|Hgt].
  - destruct H as (r' & -> & Hst & Hr' & Hal'). rewrite <- Hst. cbn [res_rel fst snd]. split; [split_and!|];
      cbn [fst snd]; try done; try apply bytes_of_bits_ok. by rewrite stream_mod_8.
  - by rewrite H.
Qed.

Lemma table_new_rel lengths :
  lengths_ok lengths -> zlen lengths <= 4096 ->
  res_rel table_rel (table_new lengths) (table_new (A := list bool) lengths).
Proof.
  intros Hok Hshort. cbn [table_new reader_source bits_source]. unfold ref_table.
  destruct (Huffman_new lengths) as [t|e] eqn:E; pose proof E as E'; rewrite Huffman_new_spec in E' by done;
    destruct (forallb _ lengths) eqn:Ef.
  1,3: rewrite bool_decide_eq_true_2 in E' by (apply Forall_forall; intros x Hx; rewrite forallb_forall in Ef;
         by apply Z.leb_le, Ef, list_elem_of_In);
       destruct (kraft_sum lengths <=? _); try done; by injection E'.
  all: rewrite bool_decide_eq_false_2 in E'; [try done; by injection E'|];
    intros Hf; apply Bool.not_true_iff_false in Ef; apply Ef, forallb_forall; intros x Hx%list_elem_of_In;
    rewrite Forall_forall in Hf; by apply Z.leb_le, Hf.
Qed.

Lemma ref_symbol_Some lengths L c s :
  (0 < L)%nat -> length c = L -> ref_symbol lengths L (msb_value c) = Some s ->
  codeword lengths (Z.of_nat s) c /\ (s < length lengths)%nat.
Proof.
  intros HL Hc H. unfold ref_symbol in H. apply find_some in H as [Hs%in_seq [H1 H2]%andb_prop].
  apply Z.eqb_eq in H1, H2. split; [|lia]. exists (Z.of_nat L). rewrite Nat2Z.id.
  split_and!; [|lia|lia|unfold zlen; lia|lia]. rewrite <- H1. apply list_lookup_lookup_total_lt. lia.
Qed.

Lemma ref_symbol_None lengths L c s :
  ref_symbol lengths L (msb_value c) = None -> codeword lengths s c -> length c = L -> False.
Proof.
  intros H (x & Hx & Hs & _ & Hlen & Hmsb) Hc. unfold ref_symbol in H.
  pose proof (lookup_lt_Some _ _ _ Hx) as Hlt.
  pose proof (find_none _ _ H (Z.to_nat s) ltac:(apply in_seq; lia)) as Hn. cbn beta in Hn.
  rewrite (list_lookup_total_correct _ _ _ Hx), Hmsb, Z.eqb_refl, andb_true_r in Hn.
  apply Z.eqb_neq in Hn. unfold zlen in Hlen. lia.
Qed.

Lemma ref_decode_from_spec k m lengths l :
  (0 < k)%nat ->
  match ref_decode_from (seq k m) lengths l with
  | Ok (s, l') => exists c, codeword lengths s c /\ l = c ++ l' /\ 0 <= s < zlen lengths
  | Err e => e = decode_error l /\
      forall s c, codeword lengths s c -> c `prefix_of` l -> (k <= length c < k + m)%nat -> False
  end.
Proof.
  revert k. induction m as [|m IH]; intros k Hk; cbn [seq ref_decode_from]; [split; [done|lia]|].
  destruct (if (k <=? length l)%nat then ref_symbol lengths k (msb_value (take k l)) else None) as [s|] eqn:E.
  - destruct (Nat.leb_spec k (length l)); [|done].
    apply ref_symbol_Some in E as [Hc Hs]; [|done|rewrite length_take; lia].
    exists (take k l). split_and!; [done|by rewrite take_drop|lia|unfold zlen; lia].
  - specialize (IH (S k) ltac:(lia)). destruct (ref_decode_from _ lengths l) as [[s l']|e]; [done|].
    destruct IH as [-> IH]. split; [done|]. intros s c Hc Hp Hlen.
    destruct (decide (length c = k)) as [Hck|]; [|by eapply (IH s c); [..|lia]].
    destruct Hp as [rest ->]. rewrite length_app in E. destruct (Nat.leb_spec k (length c + length rest)); [|lia].
    rewrite <- Hck, take_app_length in E. by eapply ref_symbol_None.
Qed.

Lemma codeword_length lengths s c :
  Forall (fun l => l <= Z.of_nat MAX_BITS) lengths -> codeword lengths s c -> (0 < length c <= MAX_BITS)%nat.
Proof.
  intros Hmax (x & Hx & _ & Hne & Hlen & _). rewrite Forall_lookup in Hmax. specialize (Hmax _ _ Hx).
  cbn beta in Hmax. unfold zlen in Hlen. lia.
Qed.

Lemma decode_rel t lengths r l :
  table_rel t lengths -> rel r l ->
  res_rel (fun x y => val_rel (fun s => 0 <= s < zlen lengths) x y /\ (length y.2 < length l)%nat)
    (source_decode t r) (source_decode lengths l).
Proof.
  intros (Hok & Hshort & Hnew) [Hr <-]. cbn [source_decode reader_source bits_source]. unfold ref_decode.
  destruct (accepted lengths t Hok Hnew) as (Hmax & _ & _).
  pose proof (decode_codeword lengths t r Hok Hshort Hnew Hr) as Hd.
  pose proof (ref_decode_from_spec 1 MAX_BITS lengths (stream r) ltac:(lia)) as Href.
  destruct (decode t r) as [[s r']|e], (ref_decode_from _ lengths (stream r)) as [[s' l']|e']; cbn [res_rel].
  - destruct Hd as (c & Hc & Hst & Hr' & Huniq), Href as (c' & Hc' & Hl' & Hs').
    destruct (Huniq s' c' Hc' ltac:(by exists l')) as [-> ->].
    rewrite Hl' in Hst. apply app_inv_head in Hst. pose proof (codeword_length _ _ _ Hmax Hc).
    cbn [snd]. split; [split_and!; cbn [fst snd]; try done; lia|]. rewrite Hl', length_app. lia.
  - destruct Hd as (c & Hc & Hst & _), Href as [_ Hno].
    eapply (Hno s c Hc); [by exists (stream r')|]. pose proof (codeword_length _ _ _ Hmax Hc). lia.
  - destruct Hd as [Hno _], Href as (c & Hc & Hl & _). eapply (Hno s' c Hc). by exists l'.
  - by destruct Hd as [_ ->], Href as [-> _].
Qed.

(** ** Related headers *)

Definition block_rel (b : BlockState Huffman) (b' : BlockState (list Z)) (l : list bool) : Prop :=
  match b, b' with
  | BNone, BNone => True
  | BStored n, BStored n' => n = n' /\ 0 <= n /\ zlen l mod 8 = 0
  | BHuffman t d, BHuffman t' d' => table_rel t t' /\ table_rel d d'
  | _, _ => False
  end.

Definition header_rel (x : BlockState Huffman * BitReader) (y : BlockState (list Z) * list bool) : Prop :=
  block_rel x.1 y.1 y.2 /\ rel x.2 y.2.

Lemma lengths_ok_insert i v ls : lengths_ok ls -> 0 <= v -> lengths_ok (<[i := v]> ls).
Proof. intros. by apply Forall_insert. Qed.

Lemma lengths_ok_replicate n v : 0 <= v -> lengths_ok (replicate n v).
Proof. intros. by apply Forall_replicate. Qed.

#[local] Hint Resolve lengths_ok_insert lengths_ok_replicate : ark.

Lemma u16_of_bytes a b : u8 a -> u8 b -> 0 <= a + 256 * b.
Proof. unfold u8. lia. Qed.

Lemma stored_block_rel r l : rel r l -> res_rel header_rel (stored_block r) (stored_block l).
Proof.
  intros Hr. unfold stored_block. destruct (align_rel r l Hr) as [Ha Hal].
  eapply res_rel_bind; [by apply aligned_rel|]. intros [h r1] [h' l1] [(Heq & [Hlen Hb] & Hr1) Hal1].
  cbn [fst snd] in *. subst h'. case_match; [done|]. split; [|done]. split_and!; [done| |done].
  assert (forall i, (i < 4)%nat -> u8 (h !!! i)) as Hu.
  { intros i Hi. unfold bytes_ok in Hb. rewrite Forall_lookup in Hb. apply (Hb i). apply list_lookup_lookup_total_lt. lia. }
  cbn [fst]. apply u16_of_bytes; apply Hu; lia.
Qed.

Lemma fixed_literal_lengths_ok : lengths_ok (map fixed_literal_length (seq 0 288)).
Proof.
  apply Forall_map, Forall_true. intros s. unfold fixed_literal_length. repeat case_match; lia.
Qed.

Lemma tables_rel ls ds r l :
  lengths_ok ls -> lengths_ok ds -> zlen ls <= 4096 -> zlen ds <= 4096 -> rel r l ->
  res_rel header_rel
    (let? t := table_new ls in let? d := table_new ds in Ok (BHuffman t d, r))
    (let? t := table_new (A := list bool) ls in let? d := table_new (A := list bool) ds in Ok (BHuffman t d, l)).
Proof.
  intros Hls Hds Hl Hd Hr.
  eapply res_rel_bind; [by apply table_new_rel|]. intros t t' Ht.
  eapply res_rel_bind; [by apply table_new_rel|]. intros d d' Hd'. by split.
Qed.

Lemma fixed_block_rel r l : rel r l -> res_rel header_rel (fixed_block r) (fixed_block l).
Proof.
  intros Hr. apply tables_rel; [apply fixed_literal_lengths_ok|by apply lengths_ok_replicate|..|done].
  - unfold zlen. rewrite length_map, length_seq. lia.
  - unfold zlen. rewrite length_replicate. lia.
Qed.

(** A list of code lengths under construction. *)
Definition lengths_rel (n : nat) : list Z * BitReader -> list Z * list bool -> Prop :=
  val_rel (fun ls => lengths_ok ls /\ length ls = n).

Lemma read_code_lengths_rel order acc r l :
  rel r l -> lengths_ok acc ->
  res_rel (lengths_rel (length acc)) (read_code_lengths order acc r) (read_code_lengths order acc l).
Proof.
  revert acc r l. induction order as [|i order IH]; intros acc r l Hr Hacc; cbn [read_code_lengths].
  { by split_and!. }
  eapply res_rel_bind; [apply take_rel; [done|unfold MAX_FIELD; lia]|].
  intros [v r1] [v' l1] (Heq & Hv & Hr1). cbn [fst snd] in *. subst v'.
  rewrite <- (length_insert acc i v). apply IH; [done|]. apply lengths_ok_insert; [done|lia].
Qed.

Lemma repeat_length_ok count index v ls :
  lengths_ok ls -> 0 <= v -> lengths_ok (repeat_length count index v ls) /\
  length (repeat_length count index v ls) = length ls.
Proof.
  intros Hls Hv. revert index ls Hls. induction count as [|count IH]; intros index ls Hls; cbn [repeat_length]; [done|].
  destruct (IH (S index) (<[index := v]> ls)) as [? Hl]; [by apply lengths_ok_insert|]. by rewrite length_insert in Hl.
Qed.

Definition step_rel (n : nat) (index : nat) (x : nat * list Z * BitReader) (y : nat * list Z * list bool) : Prop :=
  x.1 = y.1 /\ (index < x.1.1)%nat /\ lengths_ok x.1.2 /\ length x.1.2 = n /\ rel x.2 y.2.

Lemma zero_run_rel bits_ base index ls r l message :
  0 <= bits_ <= MAX_FIELD -> (0 < base)%nat -> lengths_ok ls -> rel r l ->
  res_rel (step_rel (length ls) index)
    (let? (extra, r) := source_take bits_ r in
     let repeat := (base + Z.to_nat extra)%nat in
     if (length ls <? index + repeat)%nat then Err (InvalidData message) else Ok ((index + repeat)%nat, ls, r))
    (let? (extra, l) := source_take bits_ l in
     let repeat := (base + Z.to_nat extra)%nat in
     if (length ls <? index + repeat)%nat then Err (InvalidData message) else Ok ((index + repeat)%nat, ls, l)).
Proof.
  intros Hn Hbase Hls Hr. eapply res_rel_bind; [by apply take_rel|].
  intros [v r1] [v' l1] (Heq & Hv & Hr1). cbn [fst snd] in *. subst v'. cbn zeta.
  case_match; [done|]. split_and!; cbn [fst snd]; try done. lia.
Qed.

Lemma lengths_step_rel t t' index ls r l :
  table_rel t t' -> rel r l -> lengths_ok ls ->
  res_rel (step_rel (length ls) index) (lengths_step t index ls r) (lengths_step t' index ls l).
Proof.
  intros Ht Hr Hls. unfold lengths_step.
  eapply res_rel_bind; [by apply decode_rel|]. intros [s r1] [s' l1] [(Heq & Hs & Hr1) _].
  cbn [fst snd] in *. subst s'. destruct (Z.leb_spec s 15).
  { split_and!; cbn [fst snd]; [done|lia|by apply lengths_ok_insert; [|lia]|by rewrite length_insert|done..]. }
  destruct (s =? 16).
  - destruct (index =? 0)%nat; [done|]. eapply res_rel_bind; [apply take_rel; [done|unfold MAX_FIELD; lia]|].
    intros [v r2] [v' l2] (Heq & Hv & Hr2). cbn [fst snd] in *. subst v'. cbn zeta.
    case_match; [done|].
    assert (0 <= ls !!! (index - 1)%nat) as Hprev.
    { destruct (ls !! (index - 1)%nat) as [x|] eqn:E.
      - rewrite (list_lookup_total_correct _ _ _ E). unfold lengths_ok in Hls. rewrite Forall_lookup in Hls. by eapply Hls.
      - by rewrite list_lookup_total_alt, E. }
    destruct (repeat_length_ok (3 + Z.to_nat v) index (ls !!! (index - 1)%nat) ls Hls Hprev) as [? ?].
    split_and!; cbn [fst snd]; try done. lia.
  - destruct (s =? 17); [apply zero_run_rel; try done; unfold MAX_FIELD; lia|].
    destruct (s =? 18); [apply zero_run_rel; try done; unfold MAX_FIELD; lia|]. done.
Qed.

Lemma read_lengths_rel rounds t t' index ls r l :
  table_rel t t' -> rel r l -> lengths_ok ls ->
  res_rel (lengths_rel (length ls)) (read_lengths rounds t index ls r) (read_lengths rounds t' index ls l).
Proof.
  intros Ht. revert index ls r l. induction rounds as [|rounds IH]; intros index ls r l Hr Hls; cbn [read_lengths].
  { by split_and!. }
  destruct (index <? length ls)%nat; [|by split_and!].
  eapply res_rel_bind; [by apply lengths_step_rel|].
  intros [[i ls1] r1] [[i' ls2] l1] (Heq & _ & Hls1 & Hlen & Hr1). cbn [fst snd] in *. injection Heq as <- <-.
  rewrite <- Hlen. by apply IH.
Qed.

Lemma dynamic_block_rel r l : rel r l -> res_rel header_rel (dynamic_block r) (dynamic_block l).
Proof.
  intros Hr. unfold dynamic_block.
  eapply res_rel_bind; [apply take_rel; [done|unfold MAX_FIELD; lia]|].
  intros [a r1] [a' l1] (Heq & Ha & Hr1). cbn [fst snd] in *. subst a'.
  eapply res_rel_bind; [apply take_rel; [done|unfold MAX_FIELD; lia]|].
  intros [b r2] [b' l2] (Heq & Hb & Hr2). cbn [fst snd] in *. subst b'.
  eapply res_rel_bind; [apply take_rel; [done|unfold MAX_FIELD; lia]|].
  intros [c r3] [c' l3] (Heq & Hc & Hr3). cbn [fst snd] in *. subst c'. cbn zeta.
  destruct ((286 <? a + 257) || (30 <? b + 1)); [done|].
  eapply res_rel_bind; [apply read_code_lengths_rel; [done|by apply lengths_ok_replicate]|].
  intros [cl r4] [cl' l4] (Heq & [Hcl Hlen] & Hr4). cbn [fst snd] in *. subst cl'. rewrite length_replicate in Hlen.
  eapply res_rel_bind; [apply table_new_rel; [done|unfold zlen; lia]|]. intros t t' Ht.
  set (total := Z.to_nat (a + 257 + (b + 1))).
  eapply res_rel_bind; [apply read_lengths_rel; [done|done|by apply lengths_ok_replicate]|].
  intros [ls r5] [ls' l5] (Heq & [Hls Hlen5] & Hr5). cbn [fst snd] in *. subst ls'. rewrite length_replicate in Hlen5.
  change (2 ^ 5) with 32 in *.
  apply tables_rel; [by apply Forall_take|by apply Forall_drop| | |done].
  - unfold zlen. rewrite length_take. lia.
  - unfold zlen. rewrite length_drop. lia.
Qed.

Lemma block_header_rel t r l : rel r l -> res_rel header_rel (block_header t r) (block_header t l).
Proof.
  intros Hr. unfold block_header. destruct (t =? 0); [by apply stored_block_rel|].
  destruct (t =? 1); [by apply fixed_block_rel|]. destruct (t =? 2); [by apply dynamic_block_rel|done].
Qed.

(** ** One step at a time *)

Section Steps.
Context {A T : Type} {src : BitSource A T}.

(** A block header, a stored chunk or a symbol: what one round of the loops does. *)
Definition step (s : InflateReader A T) : result IoError (InflateReader A T) :=
  match block s with
  | BNone => let? (_, s) := start_block s in Ok s
  | BStored remaining => stored_chunk remaining s
  | BHuffman literal distance => let? (_, s) := huffman_symbol literal distance s in Ok s
  end.

(** Steps until [want] bytes are there or the stream is over. *)
Fixpoint run_steps (n : nat) (want : Z) (s : InflateReader A T) : option (result IoError (InflateReader A T)) :=
  match n with
  | O => None
  | S n =>
      if finished s || (want <=? available s) then Some (Ok s)
      else match step s with Err e => Some (Err e) | Ok s => run_steps n want s end
  end.

Lemma huffman_symbol_block literal distance s b s' :
  huffman_symbol literal distance s = Ok (b, s') -> finished s' = finished s /\ (b = true -> block s' = block s).
Proof.
  unfold huffman_symbol. destruct (source_decode literal (bits s)) as [[v r]|]; [|done].
  destruct (v <=? 255); [by intros [= <- <-]|]. destruct (v =? 256); [by intros [= <- <-]|].
  destruct (v <=? 285); [|done]. destruct (back_reference _ _ _ _) as [[[n out] r']|]; [|done]. by intros [= <- <-].
Qed.

(** The loop of [decode_huffman_block] is some of the steps. *)
Lemma huffman_block_advance n fuel literal distance want s x :
  (n <= fuel)%nat -> block s = BHuffman literal distance -> finished s = false -> run_steps n want s = Some x ->
  match decode_huffman_block fuel literal distance want s with
  | None => False
  | Some (Err e) => x = Err e
  | Some (Ok s') => exists n', (n' <= n)%nat /\ run_steps n' want s' = Some x /\
      (available s < want -> (n' < n)%nat)
  end.
Proof.
  revert fuel s. induction n as [|n IH]; intros fuel s Hfuel Hb Hf Hadv; [done|].
  destruct fuel as [|fuel]; [lia|]. cbn [run_steps] in Hadv. cbn [decode_huffman_block]. rewrite Hf in Hadv.
  cbn [orb] in Hadv. destruct (Z.leb_spec want (available s)) as [Hle|Hgt].
  - exists (S n). cbn [run_steps]. rewrite Hf. cbn [orb]. rewrite (proj2 (Z.leb_le _ _)) by done.
    split_and!; [lia|done|lia].
  - unfold step in Hadv. rewrite Hb in Hadv.
    destruct (huffman_symbol literal distance s) as [[[] s']|e] eqn:E; cbn in Hadv.
    + destruct (huffman_symbol_block _ _ _ _ _ E) as [Hf' Hb'].
      specialize (IH fuel s' ltac:(lia) ltac:(rewrite Hb'; done) ltac:(congruence) Hadv).
      destruct (decode_huffman_block _ _ _ _ s') as [[s2|e]|]; try done.
      destruct IH as (n' & Hn & Ha & _). exists n'. split_and!; [lia|done|lia].
    + exists n. split_and!; [lia|done|lia].
    + by injection Hadv as <-.
Qed.

Lemma start_block_false s s' : start_block s = Ok (false, s') -> finished s' = true.
Proof.
  unfold start_block. destruct (final_block_seen s); [by intros [= <-]|].
  destruct (source_take 1 (bits s)) as [[a r]|]; [|done]. destruct (source_take 2 r) as [[b r']|]; [|done].
  by destruct (block_header _ _) as [[]|].
Qed.

(** [fill] is the iteration of the steps. *)
Lemma fill_advance n fuel want s x :
  (n < fuel)%nat -> run_steps n want s = Some x -> fill fuel want s = Some x.
Proof.
  revert n s. induction fuel as [|fuel IH]; intros n s Hn Hadv; [lia|]. destruct n as [|n]; [done|].
  cbn [fill]. pose proof Hadv as Hadv'. cbn [run_steps] in Hadv.
  destruct (finished s) eqn:Hf; cbn [negb andb orb] in *; [done|].
  destruct (Z.leb_spec want (available s)), (Z.ltb_spec (available s) want); try lia; [done|].
  unfold step in Hadv. destruct (block s) as [|remaining|literal distance] eqn:Hb.
  - destruct (start_block s) as [[[] s']|e] eqn:E; cbn in Hadv.
    + apply (IH n); [lia|done].
    + apply start_block_false in E. destruct n; [done|]. cbn [run_steps] in Hadv. by rewrite E in Hadv.
    + by injection Hadv as <-.
  - destruct (stored_chunk remaining s) as [s'|e]; [apply (IH n); [lia|done]|by injection Hadv as <-].
  - pose proof (huffman_block_advance (S n) fuel literal distance want s x ltac:(lia) Hb Hf Hadv') as Hblk.
    destruct (decode_huffman_block _ _ _ _ s) as [[s'|e]|]; [|by subst|done].
    destruct Hblk as (n' & Hn' & Ha & Hlt). apply (IH n'); [lia|done].
Qed.
End Steps.

(** ** Related states *)

(** The code's state [c] and the reference's [a], which keeps the whole output: [dropped]
    bytes of it were compacted away, and [at_] bytes were read. *)
Record state_rel (dropped : nat) (at_ : Z) (c : InflateReader BitReader Huffman)
    (a : InflateReader (list bool) (list Z)) : Prop := mkStateRel {
  sr_bits : rel (bits c) (bits a);
  sr_output : output c = drop dropped (output a);
  sr_dropped : (dropped <= length (output a))%nat;
  sr_block : block_rel (block c) (block a) (bits a);
  sr_final : final_block_seen c = final_block_seen a;
  sr_finished : finished c = finished a;
  sr_total : total_out c = total_out a;
  sr_cursor : read_cursor c + Z.of_nat dropped = at_;
  sr_window : dropped = 0%nat \/ WINDOW <= read_cursor c;
  sr_range : 0 <= read_cursor c <= zlen (output c)
}.

Ltac reduce_state := cbn [fst snd bits output read_cursor block final_block_seen finished total_out].

Lemma available_rel dropped at_ c a : state_rel dropped at_ c a -> available c = zlen (output a) - at_.
Proof.
  intros H. unfold available. rewrite (sr_output _ _ _ _ H). pose proof (sr_dropped _ _ _ _ H).
  rewrite <- (sr_cursor _ _ _ _ H). unfold zlen. rewrite length_drop. lia.
Qed.

Lemma start_block_rel dropped at_ c a :
  state_rel dropped at_ c a -> block a = BNone ->
  res_rel (fun x y => x.1 = y.1 /\ state_rel dropped at_ x.2 y.2) (start_block c) (start_block a).
Proof.
  intros [Hb Ho Hd Hk Hf Hfi Ht Hc Hw Hr] Hnone. unfold start_block. rewrite Hf.
  destruct (final_block_seen a); [split; [done|by split]|].
  eapply res_rel_bind; [apply take_rel; [done|unfold MAX_FIELD; lia]|].
  intros [v r1] [v' l1] (Heq & Hv & Hr1). cbn [fst snd] in *. subst v'.
  eapply res_rel_bind; [apply take_rel; [done|unfold MAX_FIELD; lia]|].
  intros [t r2] [t' l2] (Heq & Ht' & Hr2). cbn [fst snd] in *. subst t'. cbn zeta.
  eapply res_rel_bind; [by apply block_header_rel|].
  intros [b r3] [b' l3] [Hblk Hr3]. cbn [fst snd] in *. split; [done|]. by split.
Qed.

Lemma zlen_app_drop (d : nat) (l k : bytes) : (d <= length l)%nat -> drop d l ++ k = drop d (l ++ k).
Proof. intros. by rewrite drop_app_le. Qed.

Lemma stored_chunk_rel dropped at_ c a n :
  state_rel dropped at_ c a -> block a = BStored n -> 0 <= n -> zlen (bits a) mod 8 = 0 ->
  res_rel (state_rel dropped at_) (stored_chunk n c) (stored_chunk n a).
Proof.
  intros [Hb Ho Hd Hk Hf Hfi Ht Hc Hw Hr] Hblk Hn Hal. unfold stored_chunk.
  destruct (Z.eqb_spec n 0) as [->|Hne]; [by split|]. cbn zeta.
  eapply res_rel_bind; [by apply aligned_rel|].
  intros [h r1] [h' l1] [(Heq & [Hlen _] & Hr1) Hal1]. cbn [fst snd] in *. subst h'.
  split; reduce_state; try done.
  - by rewrite Ho, zlen_app_drop.
  - rewrite length_app. lia.
  - split_and!; [done| |done]. unfold STORED_CHUNK. lia.
  - by rewrite Ht.
  - rewrite zlen_app. pose proof (zlen_nonneg h). lia.
Qed.

(** *** Back references *)

Lemma copy_back_drop d n source out :
  (d <= source)%nat -> (source < length out)%nat ->
  copy_back n (source - d) (drop d out) = drop d (copy_back n source out).
Proof.
  revert source out. induction n as [|n IH]; intros source out Hd Hs; cbn [copy_back]; [done|].
  rewrite lookup_total_drop. replace (d + (source - d))%nat with source by lia.
  rewrite zlen_app_drop by lia. replace (S (source - d)) with (S source - d)%nat by lia.
  apply IH; [lia|]. rewrite length_app. cbn [length]. lia.
Qed.

Lemma copy_back_length n source out : length (copy_back n source out) = (length out + n)%nat.
Proof.
  revert source out. induction n as [|n IH]; intros source out; cbn [copy_back]; [lia|].
  rewrite IH, length_app. cbn [length]. lia.
Qed.

Lemma copy_back_prefix n source out : out `prefix_of` copy_back n source out.
Proof.
  revert source out. induction n as [|n IH]; intros source out; cbn [copy_back]; [done|].
  etrans; [|apply IH]. by eexists.
Qed.

(** The tables: every length and distance is in range, and no distance leaves the window. *)
Lemma length_extra_ok i : (i < 29)%nat -> 0 <= LENGTH_EXTRA !!! i <= MAX_FIELD /\ 0 <= LENGTH_BASE !!! i.
Proof.
  intros Hi. assert (forallb (fun i => (0 <=? LENGTH_EXTRA !!! i) && (LENGTH_EXTRA !!! i <=? MAX_FIELD) &&
    (0 <=? LENGTH_BASE !!! i)) (seq 0 29) = true) as H by (vm_compute; reflexivity).
  rewrite forallb_forall in H. specialize (H i ltac:(apply in_seq; lia)). cbn beta in H.
  rewrite !andb_true_iff, !Z.leb_le in H. lia.
Qed.

Lemma distance_ok i v :
  (i < 30)%nat -> 0 <= v < 2 ^ (DISTANCE_EXTRA !!! i) -> 1 <= DISTANCE_BASE !!! i + v <= WINDOW.
Proof.
  intros Hi Hv. assert (forallb (fun i => (1 <=? DISTANCE_BASE !!! i) &&
    (DISTANCE_BASE !!! i + 2 ^ (DISTANCE_EXTRA !!! i) - 1 <=? WINDOW)) (seq 0 30) = true) as H
    by (vm_compute; reflexivity).
  rewrite forallb_forall in H. specialize (H i ltac:(apply in_seq; lia)). cbn beta in H.
  rewrite !andb_true_iff, !Z.leb_le in H. lia.
Qed.

Lemma distance_extra_ok i : (i < 30)%nat -> 0 <= DISTANCE_EXTRA !!! i <= MAX_FIELD.
Proof.
  intros Hi. assert (forallb (fun i => (0 <=? DISTANCE_EXTRA !!! i) && (DISTANCE_EXTRA !!! i <=? MAX_FIELD))
    (seq 0 30) = true) as H by (vm_compute; reflexivity).
  rewrite forallb_forall in H. specialize (H i ltac:(apply in_seq; lia)). cbn beta in H.
  rewrite !andb_true_iff, !Z.leb_le in H. lia.
Qed.

(** Compaction keeps a window, so a reference that is legal in the whole output is legal in
    what is left of it, and copies the same bytes. *)
Lemma back_reference_rel d t t' symbol out r l (at_ : Z) :
  table_rel t t' -> rel r l -> 257 <= symbol <= 285 -> (d <= length out)%nat ->
  d = 0%nat \/ WINDOW <= zlen (drop d out) ->
  res_rel (fun x y => x.1.1 = y.1.1 /\ x.1.2 = drop d y.1.2 /\ rel x.2 y.2 /\
             out `prefix_of` y.1.2)
    (back_reference t symbol (drop d out) r) (back_reference t' symbol out l).
Proof.
  intros Ht Hr Hsym Hd Hw. unfold back_reference.
  destruct (length_extra_ok (Z.to_nat (symbol - 257)) ltac:(lia)) as [Hle Hlb].
  eapply res_rel_bind; [by apply take_rel|].
  intros [v r1] [v' l1] (Heq & Hv & Hr1). cbn [fst snd] in *. subst v'. cbn zeta.
  eapply res_rel_bind; [by apply decode_rel|]. intros [s r2] [s' l2] [(Heq & Hs & Hr2) _].
  cbn [fst snd] in *. subst s'. change (zlen DISTANCE_BASE) with 30. destruct (Z.leb_spec 30 s); [done|].
  eapply res_rel_bind; [apply take_rel; [done|apply distance_extra_ok; lia]|].
  intros [x r3] [x' l3] (Heq & Hx & Hr3). cbn [fst snd] in *. subst x'.
  pose proof (distance_ok (Z.to_nat s) x ltac:(lia) Hx) as Hback.
  set (back := DISTANCE_BASE !!! Z.to_nat s + x) in *.
  unfold zlen in *. rewrite length_drop in *.
  destruct (Z.ltb_spec (Z.of_nat (length out - d)) back), (Z.ltb_spec (Z.of_nat (length out)) back);
    try done; try (destruct Hw; lia).
  set (n := Z.to_nat _). set (source := Z.to_nat (Z.of_nat (length out) - back)).
  replace (Z.to_nat (Z.of_nat (length out - d) - back)) with (source - d)%nat by lia.
  cbn [res_rel fst snd]. split; [done|]. split; [apply copy_back_drop; lia|]. split; [done|].
  apply copy_back_prefix.
Qed.

Lemma huffman_symbol_rel dropped at_ c a t t' d d' :
  state_rel dropped at_ c a -> table_rel t t' -> table_rel d d' -> block a = BHuffman t' d' ->
  res_rel (fun x y => x.1 = y.1 /\ state_rel dropped at_ x.2 y.2) (huffman_symbol t d c) (huffman_symbol t' d' a).
Proof.
  intros [Hb Ho Hd Hk Hf Hfi Ht Hc Hw Hr] Htl Htd Hblk. unfold huffman_symbol.
  eapply res_rel_bind; [by apply decode_rel|]. intros [s r1] [s' l1] [(Heq & Hs & Hr1) _].
  cbn [fst snd] in *. subst s'. pose proof (zlen_nonneg (output c)) as Hnn.
  assert (block_rel (block c) (block a) l1) as Hk1 by (rewrite Hblk in *; by destruct (block c)).
  destruct (Z.leb_spec s 255).
  { split; [done|]. split; reduce_state; try done.
    - by rewrite Ho, zlen_app_drop.
    - rewrite length_app. lia.
    - by rewrite Ht.
    - rewrite zlen_app. change (zlen [s]) with 1. lia. }
  destruct (Z.eqb_spec s 256); [split; [done|]; by split|].
  destruct (Z.leb_spec s 285); [|done].
  rewrite Ho. eapply res_rel_bind.
  { apply (back_reference_rel dropped d d' s (output a) r1 l1 at_); try done; [lia|].
    rewrite <- Ho. destruct Hw; [by left|right; lia]. }
  intros [[len out] r2] [[len' out'] l2] (Heq & Hout & Hr2 & Hpre). cbn [fst snd] in *. subst len' out.
  apply prefix_length in Hpre as Hlen.
  assert (block_rel (block c) (block a) l2) as Hk2 by (rewrite Hblk in *; by destruct (block c)).
  split; [done|]. split; reduce_state; try done.
  - lia.
  - by rewrite Ht.
  - rewrite Ho in Hr. unfold zlen in *. rewrite length_drop in *. lia.
Qed.

Lemma step_rel_ok dropped at_ c a :
  state_rel dropped at_ c a -> res_rel (state_rel dropped at_) (step c) (step a).
Proof.
  intros H. pose proof (sr_block _ _ _ _ H) as Hk. unfold step.
  destruct (block c) as [|n|t d] eqn:Ec, (block a) as [|n'|t' d'] eqn:Ea; cbn [block_rel] in Hk; try done.
  - eapply res_rel_bind; [by apply start_block_rel|]. intros [? c'] [? a'] [_ ?]. done.
  - destruct Hk as (-> & Hn & Hal). by apply stored_chunk_rel.
  - destruct Hk as [Ht Hd]. eapply res_rel_bind; [by apply huffman_symbol_rel|]. intros [? c'] [? a'] [_ ?]. done.
Qed.

(** ** The reference makes progress *)

Definition ref_state : Type := InflateReader (list bool) (list Z).

Definition shrinks {X} (l : list bool) (x : result IoError (X * list bool)) : Prop :=
  match x with Ok (_, l') => (length l' <= length l)%nat | Err _ => True end.

Lemma shrinks_bind {X Y} l (e : result IoError (X * list bool)) (k : X -> list bool -> result IoError (Y * list bool)) :
  shrinks l e -> (forall x l', shrinks l' (k x l')) -> shrinks l (let? (x, l) := e in k x l).
Proof.
  destruct e as [[x l']|e]; cbn; [|done]. intros He Hk. specialize (Hk x l'). unfold shrinks in *.
  destruct (k x l') as [[y l2]|]; [lia|done].
Qed.

Lemma ref_take_length n l v l' : ref_take n l = Ok (v, l') -> 0 <= n -> (length l' + Z.to_nat n = length l)%nat.
Proof.
  unfold ref_take. destruct (Z.leb_spec n (zlen l)); [|done]. intros [= _ <-] Hn. rewrite length_drop.
  unfold zlen in *. lia.
Qed.

Lemma shrinks_take n l : 0 <= n -> shrinks l (source_take n l).
Proof.
  intros Hn. cbn [source_take bits_source]. destruct (ref_take n l) as [[v l']|] eqn:E; [|done].
  apply ref_take_length in E; [|done]. cbn. lia.
Qed.

Lemma ref_aligned_length count l v l' : ref_aligned count l = Ok (v, l') -> (length l' + 8 * count = length l)%nat.
Proof.
  unfold ref_aligned. destruct (Z.leb_spec (8 * Z.of_nat count) (zlen l)); [|done]. intros [= _ <-].
  rewrite length_drop. unfold zlen in *. lia.
Qed.

Lemma ref_decode_length lengths l s l' : ref_decode lengths l = Ok (s, l') -> (length l' < length l)%nat.
Proof.
  unfold ref_decode. assert (Forall (fun L => (0 < L)%nat) (seq 1 MAX_BITS)) as H.
  { apply Forall_forall. intros L [? _]%elem_of_seq. lia. }
  revert H. generalize (seq 1 MAX_BITS). intros widths. induction 1 as [|L widths HL _ IH]; cbn [ref_decode_from]; [done|].
  destruct (Nat.leb_spec L (length l)); [|apply IH].
  destruct (ref_symbol _ _ _); [|apply IH]. intros [= _ <-]. rewrite length_drop. lia.
Qed.

Lemma shrinks_decode lengths l : shrinks l (source_decode lengths l).
Proof.
  cbn [source_decode bits_source]. destruct (ref_decode lengths l) as [[v l']|] eqn:E; [|done].
  apply ref_decode_length in E. cbn. lia.
Qed.

Ltac shrink_step :=
  match goal with
  | |- shrinks _ (let? _ := source_take _ _ in _) => apply shrinks_bind; [apply shrinks_take; lia|intros]
  | |- shrinks _ (let? _ := source_decode _ _ in _) => apply shrinks_bind; [apply shrinks_decode|intros]
  | |- shrinks _ (match table_new _ with Ok _ => _ | Err _ => _ end) => destruct (table_new _); [|done]
  | |- shrinks _ (if _ then _ else _) => case_match; try done
  | |- shrinks ?l (Ok (_, ?l)) => cbn; lia
  end.

Lemma shrinks_code_lengths order acc l : shrinks l (read_code_lengths order acc l).
Proof.
  revert acc l. induction order as [|i order IH]; intros acc l; cbn [read_code_lengths]; [cbn; lia|].
  shrink_step. apply IH.
Qed.

Lemma shrinks_step t index ls l : shrinks l (lengths_step t index ls l).
Proof. unfold lengths_step. repeat (cbn zeta; shrink_step). Qed.

Lemma shrinks_lengths rounds t index ls l : shrinks l (read_lengths rounds t index ls l).
Proof.
  revert index ls l. induction rounds as [|rounds IH]; intros index ls l; cbn [read_lengths]; [cbn; lia|].
  destruct (index <? length ls)%nat; [|cbn; lia]. pose proof (shrinks_step t index ls l) as H.
  destruct (lengths_step t index ls l) as [[[i ls'] l']|]; [|done]. cbn in H. specialize (IH i ls' l').
  unfold shrinks in *. destruct (read_lengths _ _ _ _ _) as [[? ?]|]; [lia|done].
Qed.

Lemma shrinks_header t l : shrinks l (block_header t l).
Proof.
  unfold block_header, stored_block, fixed_block, dynamic_block. case_match; [|case_match; [|case_match; [|done]]].
  - pose proof (ref_aligned_length 4 (source_align l)) as Hlen. cbn [source_align source_aligned bits_source] in *.
    destruct (ref_aligned _ _) as [[h l']|]; [|done]. specialize (Hlen h l' eq_refl). rewrite length_drop in Hlen.
    cbn zeta. case_match; [done|]. cbn. lia.
  - repeat shrink_step.
  - repeat (cbn zeta; shrink_step). apply shrinks_bind; [apply shrinks_code_lengths|intros].
    shrink_step. apply shrinks_bind; [apply shrinks_lengths|intros]. repeat shrink_step.
Qed.

(** Two for each bit left, one for a stored block to close, one for the end. *)
Definition work (a : ref_state) : nat :=
  (2 * length (bits a) + (match block a with BStored _ => 1 | _ => 0 end) + (if finished a then 0 else 1))%nat.

Lemma back_reference_props t symbol out l n out' l' :
  back_reference t symbol out l = Ok (n, out', l') -> 257 <= symbol <= 285 ->
  (length l' <= length l)%nat /\ out `prefix_of` out'.
Proof.
  unfold back_reference. intros Hb Hs. revert Hb.
  destruct (length_extra_ok (Z.to_nat (symbol - 257)) ltac:(lia)) as [Hle _].
  cbn [source_take source_decode bits_source].
  destruct (ref_take _ l) as [[v l1]|] eqn:E1; [|done]. apply ref_take_length in E1; [|lia]. cbn zeta.
  destruct (ref_decode t l1) as [[s l2]|] eqn:E2; [|done]. apply ref_decode_length in E2.
  change (zlen DISTANCE_BASE) with 30. destruct (Z.leb_spec 30 s); [done|].
  assert (Z.to_nat s < 30)%nat as Hs30 by lia. pose proof (distance_extra_ok _ Hs30).
  destruct (ref_take _ l2) as [[x l3]|] eqn:E3; [|done]. apply ref_take_length in E3; [|lia].
  destruct (_ <? _); [done|]. intros [= <- <- <-]. split; [lia|apply copy_back_prefix].
Qed.

Lemma step_progress (a a' : ref_state) :
  step a = Ok a' -> finished a = false -> (forall n, block a = BStored n -> 0 <= n) ->
  (work a' < work a)%nat /\ output a `prefix_of` output a'.
Proof.
  unfold step, work. intros H Hf Hn. rewrite Hf. destruct (block a) as [|n|t d] eqn:Eb; revert H.
  - unfold start_block. destruct (final_block_seen a); [intros [= <-]; reduce_state; rewrite Eb; by split; [lia|]|].
    cbn [source_take bits_source].
    destruct (ref_take 1 (bits a)) as [[v l1]|] eqn:E1; [|done]. apply ref_take_length in E1; [|lia]. cbn zeta.
    destruct (ref_take 2 l1) as [[v2 l2]|] eqn:E2; [|done]. apply ref_take_length in E2; [|lia].
    pose proof (shrinks_header v2 l2) as Hh. destruct (block_header v2 l2) as [[b l3]|]; [|done].
    intros [= <-]. reduce_state. cbn in Hh. split; [|done]. rewrite Hf. destruct b; lia.
  - specialize (Hn n eq_refl). unfold stored_chunk.
    destruct (Z.eqb_spec n 0); [intros [= <-]; reduce_state; rewrite Hf; by split; [lia|]|].
    cbn zeta. cbn [source_aligned bits_source].
    destruct (ref_aligned _ (bits a)) as [[data l1]|] eqn:E1; [|done]. intros [= <-]. reduce_state.
    rewrite Hf. split; [|by eexists]. apply ref_aligned_length in E1. unfold STORED_CHUNK in E1. lia.
  - unfold huffman_symbol. cbn [source_decode bits_source].
    destruct (ref_decode t (bits a)) as [[s l1]|] eqn:E1; [|done]. apply ref_decode_length in E1.
    destruct (Z.leb_spec s 255); [intros [= <-]; reduce_state; rewrite Hf, Eb; split; [lia|by eexists]|].
    destruct (Z.eqb_spec s 256); [intros [= <-]; reduce_state; rewrite Hf; by split; [lia|]|].
    destruct (Z.leb_spec s 285); [|done].
    destruct (back_reference d s (output a) l1) as [[[len out] l2]|] eqn:E2; [|done].
    destruct (back_reference_props _ _ _ _ _ _ _ E2 ltac:(lia)) as [? ?].
    intros [= <-]. reduce_state. rewrite Hf, Eb. by split; [lia|].
Qed.

(** ** The one-shot decoder *)

(** The last state of a stream, and the error that ends it, if one does. *)
Fixpoint exhaust (n : nat) (a : ref_state) : ref_state * option IoError :=
  match n with
  | O => (a, None)
  | S n =>
      if finished a then (a, None)
      else match step a with Err e => (a, Some e) | Ok a => exhaust n a end
  end.

Definition final (a : ref_state) : ref_state * option IoError := exhaust (S (work a)) a.

(** All the output of a stream. *)
Definition rest_of (a : ref_state) : bytes * option IoError := (output (final a).1, (final a).2).

Definition inflate_bits (l : list bool) : bytes * option IoError := rest_of (inflate_new l).

(** What reads of [lens] bytes see of an output [out] that ends with [err], from [at_] on. *)
Fixpoint slices (out : bytes) (err : option IoError) (at_ : Z) (lens : list Z) : list (result IoError bytes) :=
  match lens with
  | [] => []
  | len :: lens =>
      if at_ + len <=? zlen out
      then Ok (take (Z.to_nat len) (drop (Z.to_nat at_) out)) :: slices out err (at_ + len) lens
      else if len =? 0 then Ok [] :: slices out err at_ lens
      else
        match err with
        | Some e => [Err e]
        | None => Ok (drop (Z.to_nat at_) out) :: slices out err (zlen out) lens
        end
  end.

Lemma stored_nonneg d at_ c a n : state_rel d at_ c a -> block a = BStored n -> 0 <= n.
Proof.
  intros H Hb. pose proof (sr_block _ _ _ _ H) as Hk. rewrite Hb in Hk. destruct (block c); try done. by destruct Hk as (<- & ? & _).
Qed.

Lemma exhaust_fuel n m d at_ c a :
  state_rel d at_ c a -> (work a < n)%nat -> (work a < m)%nat -> exhaust n a = exhaust m a.
Proof.
  revert m c a. induction n as [|n IH]; intros m c a H Hn Hm; [lia|]. destruct m as [|m]; [lia|].
  cbn [exhaust]. destruct (finished a) eqn:Hf; [done|]. pose proof (step_rel_ok _ _ _ _ H) as Hs.
  destruct (step a) as [a'|e] eqn:E; [|done]. destruct (step c) as [c'|]; [|done]. cbn in Hs.
  destruct (step_progress a a' E Hf (fun n => stored_nonneg _ _ _ _ n H)) as [? _]. by apply (IH m c'); [|lia..].
Qed.

Lemma final_finished a : finished a = true -> final a = (a, None).
Proof. intros H. unfold final. cbn [exhaust]. by rewrite H. Qed.

Lemma rest_of_finished a : finished a = true -> rest_of a = (output a, None).
Proof. intros H. unfold rest_of. by rewrite final_finished. Qed.

Lemma final_step d at_ c a a' :
  state_rel d at_ c a -> finished a = false -> step a = Ok a' -> final a = final a'.
Proof.
  intros H Hf E. unfold final at 1. cbn [exhaust]. rewrite Hf, E.
  pose proof (step_rel_ok _ _ _ _ H) as Hs. rewrite E in Hs. destruct (step c) as [c'|]; [|done]. cbn in Hs.
  destruct (step_progress a a' E Hf (fun n => stored_nonneg _ _ _ _ n H)) as [? _].
  destruct (finished a') eqn:Hf'.
  - rewrite final_finished by done. destruct (work a); [lia|]. cbn [exhaust]. by rewrite Hf'.
  - apply (exhaust_fuel _ _ d at_ c'); [done|lia|lia].
Qed.

Lemma rest_of_final a a' : final a' = final a -> rest_of a' = rest_of a.
Proof. unfold rest_of. by intros ->. Qed.

(** The code's loop, followed on the reference. *)
Lemma advance_spec n want d at_ c a :
  state_rel d at_ c a -> (work a < n)%nat ->
  output a `prefix_of` (rest_of a).1 /\
  match run_steps n want c with
  | None => False
  | Some (Err e) => (rest_of a).2 = Some e /\ zlen (rest_of a).1 < at_ + want
  | Some (Ok c') => exists a', state_rel d at_ c' a' /\ final a' = final a /\
      output a' `prefix_of` (rest_of a).1 /\ (at_ + want <= zlen (output a') \/ finished a' = true)
  end.
Proof.
  revert c a. induction n as [|n IH]; intros c a H Hn; [lia|]. cbn [run_steps].
  rewrite (sr_finished _ _ _ _ H), (available_rel _ _ _ _ H).
  destruct (finished a) eqn:Hf; cbn [orb].
  { rewrite rest_of_finished by done. split; [done|]. exists a. by split_and!; [..|right]. }
  pose proof (step_rel_ok _ _ _ _ H) as Hs.
  assert (output a `prefix_of` (rest_of a).1 /\
    match step a with Err e => rest_of a = (output a, Some e) | Ok a' =>
      final a' = final a /\ (work a' < n)%nat end) as [Hpre Hstep].
  { destruct (step a) as [a'|e] eqn:E.
    - pose proof (final_step d at_ c a a' H Hf E) as Hfin. rewrite (rest_of_final a' a) by done.
      destruct (step_progress a a' E Hf (fun n => stored_nonneg _ _ _ _ n H)) as [? Hp].
      destruct (step c) as [c'|]; [|done]. destruct (IH c' a' Hs ltac:(lia)) as [Hp' _].
      split; [by etrans|]. split; [done|lia].
    - unfold rest_of, final. cbn [exhaust]. rewrite Hf, E. done. }
  split; [done|]. destruct (Z.leb_spec want (zlen (output a) - at_)).
  { exists a. split_and!; try done. left. lia. }
  destruct (step a) as [a'|e] eqn:E, (step c) as [c'|e'] eqn:Ec; cbn [res_rel] in Hs; try done.
  - destruct Hstep as [Hrest Hw]. destruct (IH c' a' Hs Hw) as [_ Hadv].
    rewrite <- (rest_of_final a a' Hrest), <- Hrest. done.
  - subst e'. rewrite Hstep. cbn [fst snd]. split; [done|lia].
Qed.

Lemma compact_rel d at_ c a : state_rel d at_ c a -> exists d', state_rel d' at_ (compact c) a.
Proof.
  intros H. unfold compact. destruct (Z.ltb_spec COMPACT_THRESHOLD (read_cursor c)) as [Hlt|]; [|by exists d].
  destruct H as [Hb Ho Hd Hk Hf Hfi Ht Hc Hw Hr]. unfold COMPACT_THRESHOLD, WINDOW in *. cbn zeta.
  rewrite Z.max_r by lia. exists (d + Z.to_nat (read_cursor c - 32 * 1024))%nat.
  rewrite Ho in Hr |- *. unfold zlen in Hr. rewrite length_drop in Hr.
  split; reduce_state; try done.
  - by rewrite drop_drop.
  - lia.
  - lia.
  - right. unfold WINDOW. lia.
  - unfold zlen. rewrite !length_drop. lia.
Qed.

Lemma cursor_rel d at_ c a count :
  state_rel d at_ c a -> 0 <= count <= available c ->
  state_rel d (at_ + count)
    (mkInflate (bits c) (output c) (read_cursor c + count) (block c) (final_block_seen c) (finished c) (total_out c)) a.
Proof.
  intros [Hb Ho Hd Hk Hf Hfi Ht Hc Hw Hr] Hcount. unfold available in Hcount.
  split; reduce_state; try done; [lia| |lia]. destruct Hw; [by left|right; lia].
Qed.

(** ** Reads *)

Lemma work_fuel d at_ c a : state_rel d at_ c a -> (S (work a) < fuel_for c)%nat.
Proof.
  intros H. destruct (sr_bits _ _ _ _ H) as [_ Hst]. unfold work, fuel_for. cbn [bits_left reader_source].
  rewrite Hst. destruct (block a), (finished a); lia.
Qed.

Lemma fill_spec want d at_ c a :
  state_rel d at_ c a ->
  match fill (fuel_for c) want c with
  | None => False
  | Some (Err e) => (rest_of a).2 = Some e /\ zlen (rest_of a).1 < at_ + want
  | Some (Ok c') => exists a', state_rel d at_ c' a' /\ final a' = final a /\
      output a' `prefix_of` (rest_of a).1 /\ (at_ + want <= zlen (output a') \/ finished a' = true)
  end.
Proof.
  intros H. destruct (advance_spec (S (work a)) want d at_ c a H ltac:(lia)) as [_ Hadv].
  destruct (run_steps (S (work a)) want c) as [x|] eqn:E; [|done].
  by rewrite (fill_advance _ _ _ _ _ (work_fuel _ _ _ _ H) E).
Qed.

Lemma slice_prefix (l k : bytes) (at_ len : nat) :
  l `prefix_of` k -> (at_ + len <= length l)%nat -> take len (drop at_ l) = take len (drop at_ k).
Proof.
  intros [rest ->] Hle. rewrite drop_app_le by lia. rewrite take_app_le; [done|]. rewrite length_drop. lia.
Qed.

(** One read, against the one-shot output. *)
Lemma read_spec len d at_ c a :
  state_rel d at_ c a -> 0 <= len -> 0 <= at_ ->
  let (out, err) := rest_of a in
  match read len c with
  | None => False
  | Some (Err e) => err = Some e /\ zlen out < at_ + len /\ len <> 0
  | Some (Ok (data, c')) =>
      (exists d' a', state_rel d' (at_ + zlen data) c' a' /\ final a' = final a /\
         (zlen data < len -> finished a' = true)) /\
      if at_ + len <=? zlen out then data = take (Z.to_nat len) (drop (Z.to_nat at_) out) /\ zlen data = len
      else if len =? 0 then data = []
      else err = None /\ data = drop (Z.to_nat at_) out /\ at_ + zlen data = zlen out
  end.
Proof.
  intros H Hlen Hat. destruct (rest_of a) as [out err] eqn:Erest. unfold read.
  destruct (Z.eqb_spec len 0) as [->|Hne].
  { split; [exists d, a; rewrite Z.add_0_r; by split_and!|]. by case_match. }
  pose proof (fill_spec len d at_ c a H) as Hfill. rewrite Erest in Hfill. cbn [fst snd] in Hfill.
  destruct (fill (fuel_for c) len c) as [[c1|e]|]; [|split_and!; [..|done]; apply Hfill|done].
  destruct Hfill as (a1 & H1 & Hfinal & Hpre & Hend). pose proof (rest_of_final _ _ Hfinal) as Hrest. pose proof (available_rel _ _ _ _ H1) as Hav.
  pose proof (sr_range _ _ _ _ H1) as Hrange. assert (0 <= available c1) as Hav0 by (unfold available; lia).
  assert (zlen (output a1) <= zlen out) as Hle by (apply prefix_length in Hpre; unfold zlen; lia).
  assert (finished a1 = true -> out = output a1 /\ err = None) as Hfin.
  { intros Hf. rewrite (rest_of_finished a1 Hf), Erest in Hrest. by injection Hrest as <- <-. }
  set (count := Z.min (available c1) len).
  assert (at_ + len <= zlen out -> count = len) as Hfull.
  { intros Hlen'. unfold count. rewrite Hav. destruct Hend as [Hw|Hf]; [lia|]. destruct (Hfin Hf) as [-> _]. lia. }
  assert (zlen out < at_ + len -> finished a1 = true /\ at_ + count = zlen out) as Hshort.
  { intros Hlen'. destruct Hend as [Hw|Hf]; [lia|]. split; [done|]. destruct (Hfin Hf) as [-> _].
    unfold count. rewrite Hav in Hav0 |- *. lia. }
  assert (take (Z.to_nat count) (drop (Z.to_nat (read_cursor c1)) (output c1)) =
          take (Z.to_nat count) (drop (Z.to_nat at_) out)) as Hslice.
  { rewrite (sr_output _ _ _ _ H1), drop_drop. pose proof (sr_cursor _ _ _ _ H1) as Hc.
    replace (d + Z.to_nat (read_cursor c1))%nat with (Z.to_nat at_) by lia.
    apply slice_prefix; [done|]. unfold count. unfold zlen in Hav. lia. }
  assert (zlen (take (Z.to_nat count) (drop (Z.to_nat at_) out)) = count) as Hcount.
  { unfold zlen in *. rewrite length_take, length_drop. unfold count in *. lia. }
  destruct (Z.eqb_spec count 0) as [Hz|Hnz].
  - split.
    { exists d, a1. rewrite zlen_nil, Z.add_0_r. split_and!; [done|done|]. intros _. apply Hshort. lia. }
    destruct (Z.leb_spec (at_ + len) (zlen out)) as [Hl|Hl]; [specialize (Hfull Hl); lia|].
    destruct (Z.eqb_spec len 0); [done|]. destruct (Hshort Hl) as [Hf Heq]. destruct (Hfin Hf) as [_ ->].
    split_and!; [done| |change (zlen []) with 0; lia]. symmetry. apply drop_ge. unfold zlen in *. lia.
  - rewrite Hslice, Hcount. split.
    + destruct (compact_rel _ _ _ _ (cursor_rel _ _ _ _ count H1 ltac:(unfold count; lia))) as [d' Hd'].
      exists d', a1. split_and!; [done|done|]. intros Hlt. apply Hshort. lia.
    + destruct (Z.leb_spec (at_ + len) (zlen out)) as [Hl|Hl]; [by rewrite (Hfull Hl) in *|].
      destruct (Z.eqb_spec len 0); [done|]. destruct (Hshort Hl) as [Hf Heq]. destruct (Hfin Hf) as [_ ->].
      split_and!; [done| |done]. apply take_ge. rewrite length_drop. unfold zlen in *. lia.
Qed.

Lemma reads_spec lens d at_ c a :
  state_rel d at_ c a -> Forall (fun len => 0 <= len) lens -> 0 <= at_ ->
  reads lens c = Some (slices (rest_of a).1 (rest_of a).2 at_ lens).
Proof.
  intros H Hlens. revert d at_ c a H. induction Hlens as [|len lens Hlen _ IH]; intros d at_ c a H Hat; [done|].
  cbn [reads slices]. pose proof (read_spec len d at_ c a H Hlen Hat) as Hr.
  destruct (rest_of a) as [out err] eqn:E. cbn [fst snd]. destruct (read len c) as [[[data c']|e]|]; [| |done].
  - destruct Hr as [(d' & a' & H' & Hrest & _) Hdata]. pose proof (zlen_nonneg data).
    rewrite (IH _ _ _ _ H') by lia. rewrite (rest_of_final _ _ Hrest), E. cbn [option_map fst snd].
    destruct (Z.leb_spec (at_ + len) (zlen out)); [by destruct Hdata as [-> ->]|].
    destruct (Z.eqb_spec len 0); [by rewrite Hdata, zlen_nil, Z.add_0_r|].
    destruct Hdata as (-> & -> & ->). done.
  - destruct Hr as (-> & Hlt & Hne). destruct (Z.leb_spec (at_ + len) (zlen out)); [lia|].
    by rewrite (proj2 (Z.eqb_neq len 0)).
Qed.

Lemma inflate_new_rel source :
  source_ok source ->
  state_rel 0 0 (inflate_new (reader_new source)) (inflate_new (flat_map (bits_of 8) (delivered source))).
Proof.
  intros Hs. split; cbn [inflate_new]; reduce_state; try done.
  - split; [by apply reader_new_ok|done].
  - by left.
Qed.

(** C35. Streaming is one-shot: for every source and every sequence of read lengths, the
    reads return, without running out of fuel, exactly the consecutive slices of the
    output that decoding the whole list of bits at once gives, short only at its end, and
    report its error exactly when the output before the error is used up.  Nothing depends
    on how the source splits its bytes, on the lengths asked for, on the fast table or on
    the compaction of the window. *)
Theorem inflate_is_one_shot source lens :
  source_ok source -> Forall (fun len => 0 <= len) lens ->
  reads lens (inflate_new (reader_new source)) =
    let (out, err) := inflate_bits (flat_map (bits_of 8) (delivered source)) in
    Some (slices out err 0 lens).
Proof.
  intros Hs Hlens. rewrite (reads_spec lens 0 0 _ _ (inflate_new_rel source Hs) Hlens) by done.
  unfold inflate_bits. by destruct (rest_of _).
Qed.

(** [total_out] counts the output. *)
Lemma step_total d at_ c a a' :
  state_rel d at_ c a -> step a = Ok a' -> total_out a' - zlen (output a') = total_out a - zlen (output a).
Proof.
  intros H. unfold step. destruct (block a) as [|n|t d'] eqn:Eb.
  - unfold start_block. destruct (final_block_seen a); [by intros [= <-]|].
    destruct (source_take 1 (bits a)) as [[v l]|]; [|done]. cbn zeta. destruct (source_take 2 l) as [[w l']|]; [|done].
    destruct (block_header w l') as [[b l2]|]; [|done]. by intros [= <-].
  - pose proof (stored_nonneg _ _ _ _ n H Eb). unfold stored_chunk.
    destruct (Z.eqb_spec n 0); [by intros [= <-]|]. cbn zeta. cbn [source_aligned bits_source]. unfold ref_aligned.
    destruct (_ <=? _); [|done]. intros [= <-]. reduce_state. rewrite zlen_app. unfold zlen at 2.
    rewrite (proj1 (bytes_of_bits_ok _ _)). unfold STORED_CHUNK. lia.
  - unfold huffman_symbol. destruct (source_decode t (bits a)) as [[s l]|]; [|done].
    destruct (Z.leb_spec s 255).
    { intros [= <-]. reduce_state. rewrite zlen_app. change (zlen [s]) with 1. lia. }
    destruct (s =? 256) eqn:E256; [by intros [= <-]|]. apply Z.eqb_neq in E256.
    destruct (Z.leb_spec s 285); [|done]. unfold back_reference.
    destruct (length_extra_ok (Z.to_nat (s - 257)) ltac:(lia)) as [He Hb].
    cbn [source_take source_decode bits_source]. unfold ref_take at 1.
    destruct (_ <=? zlen l); [|done]. cbn zeta. destruct (ref_decode d' _) as [[ds l2]|]; [|done].
    destruct (_ <=? ds); [done|]. destruct (ref_take _ l2) as [[x l3]|]; [|done]. destruct (_ <? _); [done|].
    intros [= <-]. reduce_state. pose proof (lsb_bounds (take (Z.to_nat (LENGTH_EXTRA !!! Z.to_nat (s - 257))) l)).
    unfold zlen. rewrite copy_back_length. lia.
Qed.

(** ** Memory *)

Lemma take_bits_value n r v r' : take_bits n r = Ok (v, r') -> 0 <= n -> 0 <= v < 2 ^ n.
Proof.
  unfold take_bits. destruct (Z.eqb_spec n 0) as [->|]; [by intros [= <- _]|].
  destruct (need n r) as [r1|]; [|done]. intros [= <- _] Hn. unfold low_bits.
  rewrite Z.shiftl_mul_pow2, Z.mul_1_l by done.
  replace (2 ^ n - 1) with (Z.ones n) by (rewrite Z.ones_equiv; lia). rewrite Z.land_ones by done.
  apply Z.mod_pos_bound. apply Z.pow_pos_nonneg; lia.
Qed.

Lemma read_aligned_length count r data r' : read_aligned count r = Ok (data, r') -> length data = count.
Proof.
  revert r data r'. induction count as [|count IH]; intros r data r'; cbn [read_aligned]; [by intros [= <- _]|].
  destruct (if 8 <=? bit_count r then _ else _) as [[b r1]|]; [|done].
  destruct (read_aligned count r1) as [[rest r2]|] eqn:E; [|done]. intros [= <- _]. cbn [length].
  f_equal. by eapply IH.
Qed.

Lemma length_bound i v :
  (i < 29)%nat -> 0 <= v < 2 ^ (LENGTH_EXTRA !!! i) -> 3 <= LENGTH_BASE !!! i + v <= 258.
Proof.
  intros Hi Hv. assert (forallb (fun i => (3 <=? LENGTH_BASE !!! i) &&
    (LENGTH_BASE !!! i + 2 ^ (LENGTH_EXTRA !!! i) - 1 <=? 258)) (seq 0 29) = true) as H
    by (vm_compute; reflexivity).
  rewrite forallb_forall in H. specialize (H i ltac:(apply in_seq; lia)). cbn beta in H.
  rewrite !andb_true_iff, !Z.leb_le in H. lia.
Qed.

Section Memory.
Context (want : Z).
Hypothesis Hwant : 0 <= want.

Definition code_state : Type := InflateReader BitReader Huffman.

(** [s'] holds at most [STORED_CHUNK] bytes more than [s], or than [want]. *)
Definition grows (s s' : code_state) : Prop :=
  read_cursor s' = read_cursor s /\
  available s <= available s' <= Z.max (available s) (want + STORED_CHUNK).

Lemma grows_step s s' (more : bytes) :
  available s < want -> zlen more <= STORED_CHUNK ->
  read_cursor s' = read_cursor s -> zlen (output s') = zlen (output s) + zlen more -> grows s s'.
Proof using.
  intros Ha Hm Hc Ho. split; [done|]. pose proof (zlen_nonneg more). unfold available in *. lia.
Qed.

Lemma grows_trans s1 s2 s3 : grows s1 s2 -> grows s2 s3 -> grows s1 s3.
Proof using. intros [? ?] [? ?]. split; [congruence|lia]. Qed.

Lemma grows_same s s' : read_cursor s' = read_cursor s -> output s' = output s -> grows s s'.
Proof using. intros Hc Ho. split; [done|]. unfold available. rewrite Hc, Ho. lia. Qed.

Lemma huffman_symbol_grows t d s b s' :
  available s < want -> huffman_symbol t d s = Ok (b, s') -> grows s s'.
Proof using.
  intros Ha. unfold huffman_symbol. cbn [source_decode reader_source].
  destruct (decode t (bits s)) as [[v r]|]; [|done].
  destruct (Z.leb_spec v 255).
  { intros [= <- <-]. apply (grows_step _ _ [v]); reduce_state; [done|done|done|by rewrite zlen_app]. }
  destruct (Z.eqb_spec v 256); [intros [= <- <-]; by apply grows_same|].
  destruct (Z.leb_spec v 285); [|done]. unfold back_reference. cbn [source_take source_decode reader_source].
  destruct (take_bits _ r) as [[x r1]|] eqn:Ex; [|done].
  destruct (length_extra_ok (Z.to_nat (v - 257)) ltac:(lia)) as [He _]. apply take_bits_value in Ex; [|lia].
  pose proof (length_bound (Z.to_nat (v - 257)) x ltac:(lia) Ex) as Hlen.
  cbn zeta. destruct (decode d r1) as [[ds r2]|]; [|done]. destruct (_ <=? ds); [done|].
  destruct (take_bits _ r2) as [[y r3]|]; [|done]. destruct (_ <? _); [done|]. intros [= <- <-].
  apply (grows_step _ _ (replicate (Z.to_nat (LENGTH_BASE !!! Z.to_nat (v - 257) + x)) 0)); reduce_state; [done| |done|].
  - unfold zlen, STORED_CHUNK. rewrite length_replicate. lia.
  - unfold zlen. rewrite copy_back_length, length_replicate. lia.
Qed.

Lemma huffman_block_grows fuel t d s s' :
  decode_huffman_block fuel t d want s = Some (Ok s') -> grows s s'.
Proof using.
  revert s. induction fuel as [|fuel IH]; intros s; cbn [decode_huffman_block]; [done|].
  destruct (Z.leb_spec want (available s)) as [|Ha]; [intros [= <-]; by apply grows_same|].
  destruct (huffman_symbol t d s) as [[[] s1]|] eqn:E; [| |done];
    apply (huffman_symbol_grows t d s _ _ Ha) in E.
  - intros H. eapply grows_trans; [done|by apply IH].
  - by intros [= <-].
Qed.

Lemma start_block_grows s b (s' : code_state) : start_block s = Ok (b, s') -> grows s s'.
Proof using.
  unfold start_block. destruct (final_block_seen s); [intros [= <- <-]; by apply grows_same|].
  destruct (source_take 1 (bits s)) as [[x r]|]; [|done]. cbn zeta. destruct (source_take 2 r) as [[y r1]|]; [|done].
  destruct (block_header y r1) as [[k r2]|]; [|done]. intros [= <- <-]. by apply grows_same.
Qed.

Lemma stored_chunk_grows n s s' : available s < want -> stored_chunk n s = Ok s' -> grows s s'.
Proof using.
  intros Ha. unfold stored_chunk. destruct (n =? 0); [intros [= <-]; by apply grows_same|]. cbn zeta.
  cbn [source_aligned reader_source]. destruct (read_aligned _ (bits s)) as [[data r]|] eqn:E; [|done].
  apply read_aligned_length in E. intros [= <-]. apply (grows_step _ _ data); reduce_state; [done| |done|by rewrite zlen_app].
  unfold zlen, STORED_CHUNK in *. lia.
Qed.

Lemma fill_grows fuel s s' : fill fuel want s = Some (Ok s') -> grows s s'.
Proof using.
  revert s. induction fuel as [|fuel IH]; intros s; cbn [fill]; [done|].
  destruct (negb (finished s) && (available s <? want)) eqn:Ew; [|intros [= <-]; by apply grows_same].
  apply andb_prop in Ew as [_ Ha%Z.ltb_lt]. destruct (block s) as [|n|t d].
  - destruct (start_block s) as [[[] s1]|] eqn:E; [| |done]; apply start_block_grows in E.
    + intros H. eapply grows_trans; [done|by apply IH].
    + by intros [= <-].
  - destruct (stored_chunk n s) as [s1|] eqn:E; [|done]. apply stored_chunk_grows in E; [|done].
    intros H. eapply grows_trans; [done|by apply IH].
  - destruct (decode_huffman_block fuel t d want s) as [[s1|]|] eqn:E; try done. apply huffman_block_grows in E.
    intros H. eapply grows_trans; [done|by apply IH].
Qed.
End Memory.

(** A reader after reads of at most [W] bytes. *)
Inductive read_state (W : Z) : code_state -> Prop :=
| rs_new source : read_state W (inflate_new (reader_new source))
| rs_read s len data s' :
    read_state W s -> 0 <= len <= W -> read len s = Some (Ok (data, s')) -> read_state W s'.

Lemma compact_bound (s : code_state) :
  0 <= read_cursor s <= zlen (output s) ->
  0 <= read_cursor (compact s) <= COMPACT_THRESHOLD /\ available (compact s) = available s.
Proof.
  intros Hr. unfold compact. destruct (Z.ltb_spec COMPACT_THRESHOLD (read_cursor s)); [|split; [lia|done]].
  unfold available, COMPACT_THRESHOLD, WINDOW in *. cbn zeta. rewrite Z.max_r by lia. reduce_state.
  split; [lia|]. unfold zlen in *. rewrite length_drop. lia.
Qed.

Lemma read_state_bound W s :
  0 <= W -> read_state W s ->
  0 <= read_cursor s <= COMPACT_THRESHOLD /\ 0 <= available s <= W + STORED_CHUNK.
Proof.
  intros HW. induction 1 as [source|s len data s' _ [Hc Ha] Hlen Hread].
  { unfold available, STORED_CHUNK, COMPACT_THRESHOLD, WINDOW, inflate_new. reduce_state. change (zlen []) with 0. lia. }
  unfold read in Hread. destruct (len =? 0); [by injection Hread as _ <-|].
  destruct (fill (fuel_for s) len s) as [[s1|]|] eqn:Ef; try done.
  destruct (fill_grows len (fuel_for s) s s1 Ef) as [Hc1 Ha1].
  destruct (Z.eqb_spec (Z.min (available s1) len) 0); injection Hread as _ <-; [lia|].
  set (count := Z.min (available s1) len) in *.
  set (s2 := mkInflate (bits s1) (output s1) (read_cursor s1 + count) (block s1) (final_block_seen s1) (finished s1)
    (total_out s1)).
  assert (available s2 = available s1 - count) as Ha2 by (unfold available, s2; reduce_state; lia).
  destruct (compact_bound s2) as [? ->]; [unfold s2, available in *; reduce_state; lia|]. lia.
Qed.

(** C36. Streaming keeps a bounded window: however much a stream inflates to, after any
    reads of at most [W] bytes the decoder holds at most [COMPACT_THRESHOLD] bytes already
    read and one stored chunk more than [W] bytes ahead, and it holds no more during a
    read. *)
Theorem inflate_memory_bounded W s len s' :
  read_state W s -> 0 <= len <= W -> fill (fuel_for s) len s = Some (Ok s') ->
  zlen (output s) <= COMPACT_THRESHOLD + W + STORED_CHUNK /\
  zlen (output s') <= COMPACT_THRESHOLD + W + STORED_CHUNK.
Proof.
  intros Hs Hlen Hf. destruct (read_state_bound W s ltac:(lia) Hs) as [Hc Ha].
  destruct (fill_grows len (fuel_for s) s s' Hf) as [Hc' Ha']. unfold available in *. lia.
Qed.

(** ** Instances *)

(** [hello hello hello hello], a fixed block with a back reference. *)
Definition sample_stream : list (option bytes) :=
  [Some [203; 72; 205]; Some [201; 201; 87; 200; 64]; Some [39; 1]].

Lemma sample_stream_ok : source_ok sample_stream.
Proof.
  repeat apply Forall_cons_2; try apply Forall_nil_2; eexists; (split; [reflexivity|repeat constructor; done]).
Qed.

(** The code on it, three bytes at a time. *)
Example sample_reads :
  reads [3; 0; 30; 30] (inflate_new (reader_new sample_stream)) =
    Some [Ok (bytes_of_string "hel"); Ok []; Ok (bytes_of_string "lo hello hello hello"); Ok []].
Proof. vm_compute. reflexivity. Qed.

Lemma sample_lens_ok : Forall (fun len => 0 <= len) [3; 0; 30; 30].
Proof. repeat constructor; done. Qed.

Lemma inflate_is_one_shot_witness :
  source_ok sample_stream /\
  reads [3; 0; 30; 30] (inflate_new (reader_new sample_stream)) =
    let (out, err) := inflate_bits (flat_map (bits_of 8) (delivered sample_stream)) in
    Some (slices out err 0 [3; 0; 30; 30]).
Proof.
  split; [exact sample_stream_ok|].
  exact (inflate_is_one_shot sample_stream [3; 0; 30; 30] sample_stream_ok sample_lens_ok).
Defined.

Lemma inflate_memory_bounded_witness :
  exists s', fill (fuel_for (inflate_new (reader_new sample_stream))) 3 (inflate_new (reader_new sample_stream)) =
      Some (Ok s') /\
    zlen (output s') <= COMPACT_THRESHOLD + 3 + STORED_CHUNK.
Proof.
  destruct (fill (fuel_for (inflate_new (reader_new sample_stream))) 3 (inflate_new (reader_new sample_stream)))
    as [[s'|e]|] eqn:E; [|vm_compute in E; discriminate E|vm_compute in E; discriminate E].
  exists s'. split; [reflexivity|].
  refine (proj2 (inflate_memory_bounded 3 (inflate_new (reader_new sample_stream)) 3 s' (rs_new 3 sample_stream) _ E)).
  split; discriminate.
Defined.

(** The reference on a stored block of three bytes that ends inside a second one. *)
Example stored_then_truncated :
  inflate_bits (flat_map (bits_of 8) [0; 3; 0; 252; 255; 104; 105; 106; 1; 2; 0]) =
    ([104; 105; 106], Some EndedMidSymbol).
Proof. vm_compute. reflexivity. Qed.
