(* ===== verification/Text.v ===== *)
(** * Text on UTF-8 bytes

    The [str] and slice functions of Rust's standard library that the parsers use, on the
    bytes of a string: characters, white space, trimming, lines, splitting and numbers. *)

From S2P Require Import Prelude.

(** ** Slices *)

(** [iter().index_of(|byte| *byte == b)], and [str::find] of an ASCII character. *)
Fixpoint index_of (b : Z) (l : bytes) : option nat :=
  match l with
  | [] => None
  | x :: l => if x =? b then Some O else option_map S (index_of b l)
  end.

(** [slice start stop l] is [l[start..stop]]. *)
Definition slice (start stop : nat) (l : bytes) : bytes := take (stop - start) (drop start l).

Fixpoint take_while (f : Z -> bool) (l : bytes) : bytes :=
  match l with [] => [] | x :: l => if f x then x :: take_while f l else [] end.

Fixpoint drop_while {A} (f : A -> bool) (l : list A) : list A :=
  match l with [] => [] | x :: l' => if f x then drop_while f l' else l end.

(** [strip_prefix]. *)
Fixpoint strip_prefix (p l : bytes) : option bytes :=
  match p, l with
  | [], _ => Some l
  | a :: p, b :: l => if a =? b then strip_prefix p l else None
  | _ :: _, [] => None
  end.

Definition starts_with (p l : bytes) : bool := match strip_prefix p l with Some _ => true | None => false end.
Definition ends_with (p l : bytes) : bool := match strip_prefix (rev p) (rev l) with Some _ => true | None => false end.

(** [split_once] at an ASCII character. *)
Definition split_once (b : Z) (l : bytes) : option (bytes * bytes) :=
  option_map (fun i => (take i l, drop (S i) l)) (index_of b l).

(** [split] at an ASCII character. *)
Fixpoint split_on (b : Z) (l : bytes) : list bytes :=
  match l with
  | [] => [[]]
  | c :: l =>
      if c =? b then [] :: split_on b l
      else match split_on b l with part :: parts => (c :: part) :: parts | [] => [[c]] end
  end.

(** ** Characters *)

(** The characters of valid UTF-8, each as its bytes. *)
Fixpoint chars (l : bytes) : list bytes :=
  match l with
  | [] => []
  | a :: l1 =>
      if a <? 128 then [a] :: chars l1
      else match l1 with
      | [] => [[a]]
      | b :: l2 =>
          if a <? 224 then [a; b] :: chars l2
          else match l2 with
          | [] => [[a; b]]
          | c :: l3 =>
              if a <? 240 then [a; b; c] :: chars l3
              else match l3 with [] => [[a; b; c]] | d :: l4 => [a; b; c; d] :: chars l4 end
          end
      end
  end.

(** [char::is_whitespace] (the White_Space property). *)
Definition is_whitespace (c : bytes) : bool :=
  match c with
  | [a] => in_range 9 13 a || (a =? 32)
  | [a; b] => (a =? 0xc2) && ((b =? 0x85) || (b =? 0xa0))
  | [a; b; c] =>
      ((a =? 0xe1) && (b =? 0x9a) && (c =? 0x80))
      || ((a =? 0xe2) && (b =? 0x80) && (in_range 0x80 0x8a c || (c =? 0xa8) || (c =? 0xa9) || (c =? 0xaf)))
      || ((a =? 0xe2) && (b =? 0x81) && (c =? 0x9f))
      || ((a =? 0xe3) && (b =? 0x80) && (c =? 0x80))
  | _ => false
  end.

(** [char::is_control]: C0, delete, and C1. *)
Definition is_control (c : bytes) : bool :=
  match c with
  | [a] => (a <? 32) || (a =? 127)
  | [a; b] => (a =? 0xc2) && in_range 0x80 0x9f b
  | _ => false
  end.

(** [str::trim]. *)
Definition trim (l : bytes) : bytes :=
  concat (rev (drop_while is_whitespace (rev (drop_while is_whitespace (chars l))))).

Fixpoint words_of (word : bytes) (cs : list bytes) : list bytes :=
  match cs with
  | [] => match word with [] => [] | _ => [word] end
  | c :: cs =>
      if is_whitespace c then match word with [] => words_of [] cs | _ => word :: words_of [] cs end
      else words_of (word ++ c) cs
  end.

(** [str::split_whitespace]. *)
Definition split_whitespace (l : bytes) : list bytes := words_of [] (chars l).

Definition strip_cr (line : bytes) : bytes := if ends_with [13] line then removelast line else line.

(** [str::lines]: a line ends with a newline, and a carriage return before it; an empty
    line behind the last newline is none. *)
Definition lines (l : bytes) : list bytes :=
  let parts := split_on 10 l in
  map strip_cr (removelast parts) ++ match List.last parts [] with [] => [] | line => [line] end.

(** ** Numbers *)

Definition digit_value (c : Z) : option Z :=
  if in_range 48 57 c then Some (c - 48)
  else if in_range 97 122 c then Some (c - 87)
  else if in_range 65 90 c then Some (c - 55)
  else None.

Fixpoint radix_digits (radix acc : Z) (l : bytes) : option Z :=
  match l with
  | [] => Some acc
  | c :: l =>
      match digit_value c with
      | Some d =>
          if d <? radix then
            let acc := acc * radix + d in
            if acc <=? U64_MAX then radix_digits radix acc l else None
          else None
      | None => None
      end
  end.

(** [u64::from_str_radix]; [str::parse] is radix ten. *)
Definition from_str_radix (radix : Z) (l : bytes) : option Z :=
  match l with
  | [] | [43] => None
  | 43 :: l => radix_digits radix 0 l
  | _ => radix_digits radix 0 l
  end.

Lemma drop_while_none {A} (f : A -> bool) l : (forall x, x ∈ l -> f x = false) -> drop_while f l = l.
Proof. destruct l as [|b l]; [done|]. intros H. cbn. by rewrite (H b) by (by left). Qed.

Lemma digit_value_nonneg c d : digit_value c = Some d -> 0 <= d.
Proof. unfold digit_value, in_range. repeat case_match; intros [= <-]; breflect; lia. Qed.

Lemma radix_digits_nonneg radix acc l v : 0 <= acc -> 0 <= radix -> radix_digits radix acc l = Some v -> 0 <= v.
Proof.
  intros Ha Hr. revert acc Ha. induction l as [|c l IH]; intros acc Ha; cbn; [by intros [= <-]|].
  destruct (digit_value c) as [d|] eqn:Ed; [|done]. apply digit_value_nonneg in Ed.
  destruct (d <? radix); [|done]. case_match; [|done]. apply IH. nia.
Qed.

Lemma from_str_radix_nonneg radix l v : 0 <= radix -> from_str_radix radix l = Some v -> 0 <= v.
Proof.
  intros Hr. unfold from_str_radix. repeat case_match; try done; by apply radix_digits_nonneg.
Qed.

Lemma digit_value_digit d : 0 <= d < 10 -> digit_value (48 + d) = Some d.
Proof.
  intros Hd. unfold digit_value, in_range. destruct (Z.leb_spec 48 (48 + d)), (Z.leb_spec (48 + d) 57); try lia. cbn.
  f_equal. lia.
Qed.
