(* ===== verification/Source.v ===== *)
(** * Byte sources (the [std::io::Read] bound of the archive readers)

    The tar reader is generic in the source it reads from.  [ReadSource] is the operation
    it needs, [SourceLaws] what an implementation promises of it: an answer is the next
    part of one byte sequence, and only the sequence's own error or end is reported.  The
    sequence itself is the simplest implementation, and the reference for the others. *)

From S2P Require Import Prelude Bits.

(** [Read::read] into a buffer of [n] bytes. *)
Class ReadSource (R E : Type) := src_read : nat -> R -> result E (bytes * R).

(** What a source will deliver: bytes, and then an error or the end. *)
Definition sequence (E : Type) : Type := (bytes * option E)%type.

Class SourceLaws (R E : Type) `{ReadSource R E} := {
  src_delivers : R -> sequence E -> Prop;
  src_read_ok n r data err :
    src_delivers r (data, err) -> (0 < n)%nat ->
    match src_read n r with
    | Ok ([], _) => data = [] /\ err = None
    | Ok (got, r) => (length got <= n)%nat /\ exists rest, data = got ++ rest /\ src_delivers r (rest, err)
    | Err e => err = Some e /\ (length data < n)%nat
    end
}.

(** The sequence as a source: all that is asked for at once. *)
#[global] Instance sequence_source {E} : ReadSource (sequence E) E := fun n s =>
  match s with
  | (data, Some e) => if (length data <? n)%nat then Err e else Ok (take n data, (drop n data, Some e))
  | (data, None) => Ok (take n data, (drop n data, None))
  end.

#[global, program] Instance sequence_laws {E} : SourceLaws (sequence E) E := { src_delivers r s := r = s }.
Next Obligation.
  intros E n r data err -> Hn. unfold src_read, sequence_source.
  assert ((length (take n data) <= n)%nat) as Hl by (rewrite length_take; lia).
  destruct err as [e|].
  - destruct (Nat.ltb_spec (length data) n); [done|]. destruct (take n data) eqn:Et.
    + apply (f_equal length) in Et. rewrite length_take in Et. cbn in Et. lia.
    + split; [done|]. exists (drop n data). by rewrite <- Et, take_drop.
  - destruct (take n data) eqn:Et.
    + destruct n, data; done || lia.
    + split; [done|]. exists (drop n data). by rewrite <- Et, take_drop.
Qed.

(** A list of answers ([None]: the read fails), each cut where a buffer ends. *)
#[global] Instance answers_source : ReadSource (list (option bytes)) IoError := fun n source =>
  match source with
  | [] => Ok ([], [])
  | None :: _ => Err SourceFailed
  | Some chunk :: rest =>
      if (length chunk <=? n)%nat then Ok (chunk, rest)
      else Ok (take n chunk, Some (drop n chunk) :: rest)
  end.

#[global, program] Instance answers_laws : SourceLaws (list (option bytes)) IoError := {
  src_delivers source s := source_ok source /\ s = (delivered source, None)
}.
Next Obligation.
  intros n source data err [Hs [= -> ->]] Hn. unfold src_read, answers_source.
  destruct Hs as [|answer source (chunk & -> & Hc) Hs]; [done|].
  destruct (Nat.leb_spec (length chunk) n).
  - destruct chunk as [|b chunk]; [done|]. split; [done|]. by exists (delivered source).
  - assert (forall c l, c <> [] -> delivered (Some c :: l) = c ++ delivered l) as Hdel by (by intros [] ?).
    assert (take n chunk <> []) as Ht by (intros Ht; apply (f_equal length) in Ht; rewrite length_take in Ht; cbn in Ht; lia).
    assert (drop n chunk <> []) as Hd by (intros Hd; apply (f_equal length) in Hd; rewrite length_drop in Hd; cbn in Hd; lia).
    destruct (take n chunk) as [|b got] eqn:Et; [done|].
    split; [rewrite <- Et, length_take; lia|]. exists (drop n chunk ++ delivered source).
    rewrite <- Et, app_assoc, take_drop. split; [rewrite Hdel; [done|by destruct chunk; [rewrite take_nil in Et|]]|]. split.
    + constructor; [|done]. exists (drop n chunk). split; [done|]. by apply Forall_drop.
    + by rewrite Hdel.
Qed.

(** ** Filling a buffer *)

Section Fill.
Context {R E : Type} `{SourceLaws R E}.

(** The loop that fills a buffer: the bytes it got, fewer than [count] only at the end of
    the source.  A round gets a byte at least. *)
Fixpoint fill_rounds (rounds count : nat) (r : R) : result E (bytes * R) :=
  match count, rounds with
  | O, _ | _, O => Ok ([], r)
  | _, S rounds =>
      let? (got, r) := src_read count r in
      match got with
      | [] => Ok ([], r)
      | _ => let? (rest, r) := fill_rounds rounds (count - length got) r in Ok (got ++ rest, r)
      end
  end.

Definition read_full (count : nat) (r : R) : result E (bytes * R) := fill_rounds count count r.

(** What a filled buffer holds is determined by the sequence. *)
Definition filled (count : nat) (s : sequence E) : result E (bytes * bool) :=
  match s with
  | (data, err) =>
      if (count <=? length data)%nat then Ok (take count data, true)
      else match err with Some e => Err e | None => Ok (data, false) end
  end.

Lemma fill_rounds_spec rounds count r data err :
  (count <= rounds)%nat -> src_delivers r (data, err) ->
  match fill_rounds rounds count r with
  | Ok (got, r) =>
      got = take count data /\
      if (count <=? length data)%nat then src_delivers r (drop count data, err) else err = None
  | Err e => err = Some e /\ (length data < count)%nat
  end.
Proof.
  revert count r data. induction rounds as [|rounds IH]; intros count r data Hle Hr.
  { destruct count; [|lia]. cbn. by rewrite drop_0. }
  destruct count as [|count]; [by cbn; rewrite drop_0|]. cbn [fill_rounds].
  pose proof (src_read_ok (S count) r data err Hr ltac:(lia)) as Hread.
  destruct (src_read (S count) r) as [[got r']|e]; [|done]. destruct got as [|b got]; [by destruct Hread as [-> ->]|].
  destruct Hread as (Hlen & rest & -> & Hr'). set (n := length (b :: got)) in *.
  assert (0 < n)%nat as Hn by (unfold n; cbn; lia).
  specialize (IH (S count - n)%nat r' rest ltac:(lia) Hr'). rewrite length_app. fold n.
  destruct (fill_rounds rounds (S count - n) r') as [[more r'']|e]; [|destruct IH; split; [done|lia]].
  destruct IH as [-> Hrest]. split; [rewrite take_app, (take_ge (b :: got)) by (fold n; lia); done|].
  destruct (Nat.leb_spec (S count - n) (length rest)), (Nat.leb_spec (S count) (n + length rest)); try lia; [|done].
  rewrite drop_app, (drop_ge (b :: got)) by (fold n; lia). done.
Qed.

Lemma read_full_spec count r data err :
  src_delivers r (data, err) ->
  match read_full count r with
  | Ok (got, r) =>
      got = take count data /\
      if (count <=? length data)%nat then src_delivers r (drop count data, err) else err = None
  | Err e => err = Some e /\ (length data < count)%nat
  end.
Proof. by apply fill_rounds_spec. Qed.
End Fill.

(** Two results that agree, with values related by [Rl]. *)
Definition agree {E A B} (Rl : A -> B -> Prop) (x : result E A) (y : result E B) : Prop :=
  match x, y with Ok a, Ok b => Rl a b | Err e, Err f => e = f | _, _ => False end.

Lemma agree_bind {E A B A' B'} (Rl : A -> B -> Prop) (Rl' : A' -> B' -> Prop) (x : result E A) (y : result E B) f g :
  agree Rl x y -> (forall a b, Rl a b -> agree Rl' (f a) (g b)) ->
  agree Rl' (let? a := x in f a) (let? b := y in g b).
Proof. destruct x, y; cbn; naive_solver. Qed.

Lemma agree_map_err {E F A B} (Rl : A -> B -> Prop) (h : E -> F) (x : result E A) (y : result E B) :
  agree Rl x y -> agree Rl (map_err h x) (map_err h y).
Proof. destruct x, y; cbn; naive_solver. Qed.

Lemma agree_refl {E A} (Rl : A -> A -> Prop) (x : result E A) : (forall a, Rl a a) -> agree Rl x x.
Proof. destruct x; cbn; auto. Qed.

(** A filled buffer does not depend on how the source answers. *)
Lemma read_full_agree {R E} `{SourceLaws R E} count (r : R) (s : sequence E) :
  src_delivers r s ->
  agree (fun x y => x.1 = y.1 /\ ((count <= length y.1)%nat -> src_delivers x.2 y.2))
    (read_full count r) (read_full count s).
Proof.
  intros Hr. destruct s as [data err] eqn:Es. pose proof (read_full_spec count r data err Hr) as H1.
  rewrite <- Es. pose proof (read_full_spec count s data err Es) as H2.
  destruct (read_full count r) as [[got r']|e], (read_full count s) as [[got' s']|e'].
  - destruct H1 as [-> H1], H2 as [-> H2]. cbn [agree fst snd]. split; [done|]. rewrite length_take.
    intros Hlen. destruct (Nat.leb_spec count (length data)); [by rewrite H2|lia].
  - destruct H1 as [-> H1], H2 as [-> H2]. destruct (Nat.leb_spec count (length data)); [lia|done].
  - destruct H1 as [-> H1], H2 as [-> H2]. destruct (Nat.leb_spec count (length data)); [lia|done].
  - destruct H1 as [H1 _], H2 as [H2 _]. cbn. congruence.
Qed.
