(* ===== verification/Gzip.v ===== *)
(** * gzip framing (crates/arkforge-artifact/src/inflate.rs)

    [Crc32], against the bit-serial register of RFC 1952 8, and [GzipReader]: the header,
    the inflated reads and the trailer check at the end.  The reads of a gzip stream are
    shown to be the slices of the one-shot output followed by the trailer's verdict. *)

From S2P Require Import Prelude Bits Huffman Inflate Source.

(** ** CRC-32 *)

Definition CRC_POLYNOMIAL : Z := 0xedb88320.

(** The body of the loop over the bits of an index. *)
Definition crc_bit (value : Z) : Z :=
  if negb (Z.land value 1 =? 0) then Z.lxor CRC_POLYNOMIAL (Z.shiftr value 1) else Z.shiftr value 1.

Definition build_crc_table : list Z := map (fun index => Nat.iter 8 crc_bit (Z.of_nat index)) (seq 0 256).

Definition CRC_TABLE : list Z := Eval vm_compute in build_crc_table.

Definition crc_new : Z := 0xffffffff.

Definition crc_update (value : Z) (data : bytes) : Z :=
  foldl (fun value byte =>
      Z.lxor (CRC_TABLE !!! Z.to_nat (Z.land (Z.lxor value byte) 255)) (Z.shiftr value 8)) value data.

Definition crc_finalize (value : Z) : Z := Z.lxor value 0xffffffff.

Definition crc32 (data : bytes) : Z := crc_finalize (crc_update crc_new data).

(** The register of the specification: one bit of the data at a time. *)
Definition crc_register (value : Z) (l : list bool) : Z :=
  foldl (fun value b => crc_bit (Z.lxor value (Z.b2z b))) value l.

Example crc32_reference_value : crc32 (bytes_of_string "123456789") = 0xcbf43926.
Proof. vm_compute. reflexivity. Qed.

(** ** Data *)

Inductive GzipError : Type :=
| NotGzip
| UnsupportedCompressionMethod (method : Z)
| ReservedFlags (flags : Z)
| HeaderChecksum (expected observed : Z)
| GzipTruncated
| CrcMismatch (expected observed : Z)
| LengthMismatch (expected observed : Z)
| TrailingBytes (count : Z).

(** An [io::Error]: one made of a [GzipError], or another. *)
Inductive ReadError : Type := Gz (e : GzipError) | Io (e : IoError).

Record GzipReader := mkGzip {
  inner : option (InflateReader BitReader Huffman);
  gz_crc : Z;
  gz_finished : bool;
  trailer_verified : bool
}.

(** ** The header *)

(** A read of at most [n] bytes from the source; what it leaves of an answer is the next
    one. *)
Definition read_some (n : nat) (source : list (option bytes)) :
    result IoError (bytes * list (option bytes)) :=
  match source with
  | [] => Ok ([], [])
  | None :: _ => Err SourceFailed
  | Some chunk :: rest =>
      if (length chunk <=? n)%nat then Ok (chunk, rest)
      else Ok (take n chunk, Some (drop n chunk) :: rest)
  end.

(** [read_exact_or] with [GzipError::Truncated]; a round reads a byte at least. *)
Fixpoint read_exact_or (rounds : nat) (count : nat) (source : list (option bytes)) :
    result ReadError (bytes * list (option bytes)) :=
  match count, rounds with
  | O, _ | _, O => Ok ([], source)
  | _, S rounds =>
      let? (got, source) := map_err Io (read_some count source) in
      match got with
      | [] => Err (Gz GzipTruncated)
      | _ =>
          let? (rest, source) := read_exact_or rounds (count - length got) source in
          Ok (got ++ rest, source)
      end
  end.

Definition read_exact (count : nat) (source : list (option bytes)) :
    result ReadError (bytes * list (option bytes)) := read_exact_or count count source.

(** [loop] of [read_cstring]: each round reads one of the bytes still to come. *)
Fixpoint read_cstring_rounds (rounds : nat) (sink : bytes) (source : list (option bytes)) :
    result ReadError (bytes * list (option bytes)) :=
  match rounds with
  | O => Err (Gz GzipTruncated)
  | S rounds =>
      let? (byte, source) := read_exact 1 source in
      let sink := sink ++ byte in
      if byte !!! 0%nat =? 0 then Ok (sink, source)
      else if 64 * 1024 <? zlen sink
      then Err (Io (InvalidData "gzip header string is implausibly long"))
      else read_cstring_rounds rounds sink source
  end.

Definition read_cstring (sink : bytes) (source : list (option bytes)) :
    result ReadError (bytes * list (option bytes)) :=
  read_cstring_rounds (S (length (delivered source))) sink source.

Definition le16 (l : bytes) : Z := l !!! 0%nat + 256 * l !!! 1%nat.
Definition le32 (l : bytes) : Z :=
  l !!! 0%nat + 256 * l !!! 1%nat + 65536 * l !!! 2%nat + 16777216 * l !!! 3%nat.

Definition has_flag (flags mask : Z) : bool := negb (Z.land flags mask =? 0).

Definition read_extra (header : bytes) (source : list (option bytes)) :
    result ReadError (bytes * list (option bytes)) :=
  let? (extra_length, source) := read_exact 2 source in
  let? (extra, source) := read_exact (Z.to_nat (le16 extra_length)) source in
  Ok (header ++ extra_length ++ extra, source).

Definition check_header_crc (header : bytes) (source : list (option bytes)) :
    result ReadError (list (option bytes)) :=
  let? (stored, source) := read_exact 2 source in
  let expected := le16 stored in
  let observed := Z.land (crc_finalize (crc_update crc_new header)) 0xffff in
  if negb (expected =? observed) then Err (Gz (HeaderChecksum expected observed)) else Ok source.

(** The header, and the source behind it. *)
Definition read_header (source : list (option bytes)) : result ReadError (list (option bytes)) :=
  let? (header, source) := read_exact 10 source in
  if negb (header !!! 0%nat =? 0x1f) || negb (header !!! 1%nat =? 0x8b) then Err (Gz NotGzip)
  else if negb (header !!! 2%nat =? 8) then Err (Gz (UnsupportedCompressionMethod (header !!! 2%nat)))
  else
    let flags := header !!! 3%nat in
    if has_flag flags 0xe0 then Err (Gz (ReservedFlags flags))
    else
      let? (header, source) :=
        (if has_flag flags 0x04 then read_extra header source else Ok (header, source)) in
      let? (header, source) :=
        (if has_flag flags 0x08 then read_cstring header source else Ok (header, source)) in
      let? (header, source) :=
        (if has_flag flags 0x10 then read_cstring header source else Ok (header, source)) in
      if has_flag flags 0x02 then check_header_crc header source else Ok source.

Definition gzip_start (body : list (option bytes)) : GzipReader :=
  mkGzip (Some (inflate_new (reader_new body))) crc_new false false.

Definition gzip_new (source : list (option bytes)) : result ReadError GzipReader :=
  let? body := read_header source in Ok (gzip_start body).

(** ** Reads *)

(** The checks of [verify_trailer], from the bytes behind the stream. *)
Definition check_trailer (trailing : bytes) (observed_crc total_out : Z) : result ReadError unit :=
  if zlen trailing <? 8 then Err (Gz GzipTruncated)
  else
    let expected_crc := le32 trailing in
    let expected_size := le32 (drop 4 trailing) in
    if negb (expected_crc =? observed_crc) then Err (Gz (CrcMismatch expected_crc observed_crc))
    else if negb (expected_size =? Z.land total_out 0xffffffff)
    then Err (Gz (LengthMismatch expected_size total_out))
    else if 8 <? zlen trailing then Err (Gz (TrailingBytes (zlen trailing - 8)))
    else Ok tt.

Definition verify_trailer (g : GzipReader) : result ReadError GzipReader :=
  match inner g with
  | None => Ok g
  | Some s =>
      let total := total_out s in
      let observed_crc := crc_finalize (gz_crc g) in
      let? trailing := map_err Io (drain_remaining (bits s)) in
      let? _ := check_trailer trailing observed_crc total in
      Ok (mkGzip None (gz_crc g) (gz_finished g) true)
  end.

(** [Read::read] into a buffer of [len] bytes; [None]: out of fuel. *)
Definition gzip_read (len : Z) (g : GzipReader) : option (result ReadError (bytes * GzipReader)) :=
  if gz_finished g then Some (Ok ([], g))
  else
    let finish (s : option (InflateReader BitReader Huffman)) : result ReadError (bytes * GzipReader) :=
      let? g := verify_trailer (mkGzip s (gz_crc g) true (trailer_verified g)) in Ok ([], g) in
    match inner g with
    | None => Some (finish None)
    | Some s =>
        match read len s with
        | None => None
        | Some (Err e) => Some (Err (Io e))
        | Some (Ok (data, s)) =>
            if zlen data =? 0 then Some (finish (Some s))
            else Some (Ok (data, mkGzip (Some s) (crc_update (gz_crc g) data) false (trailer_verified g)))
        end
    end.

Fixpoint gzip_reads (lens : list Z) (g : GzipReader) : option (list (result ReadError bytes)) :=
  match lens with
  | [] => Some []
  | len :: lens =>
      match gzip_read len g with
      | None => None
      | Some (Err e) => Some [Err e]
      | Some (Ok (data, g)) => option_map (cons (Ok data)) (gzip_reads lens g)
      end
  end.

(** ** The register *)

Lemma crc_bit_testbit v i :
  0 <= i -> Z.testbit (crc_bit v) i = xorb (Z.testbit v 0 && Z.testbit CRC_POLYNOMIAL i) (Z.testbit v (i + 1)).
Proof.
  intros Hi. unfold crc_bit. change 1 with (Z.ones 1) at 1. rewrite Z.land_ones by lia.
  change (2 ^ 1) with 2. rewrite Zmod_odd, <- Z.bit0_odd.
  destruct (Z.testbit v 0); cbn [negb Z.eqb andb]; rewrite ?Z.lxor_spec, Z.shiftr_spec by done; [done|].
  by rewrite xorb_false_l.
Qed.

Lemma crc_bit_nonneg v : 0 <= v -> 0 <= crc_bit v.
Proof.
  intros Hv. unfold crc_bit. assert (0 <= Z.shiftr v 1) by (by apply Z.shiftr_nonneg).
  case_match; [|done]. apply Z.lxor_nonneg. unfold CRC_POLYNOMIAL. lia.
Qed.

(** The register is linear over exclusive or. *)
Lemma crc_bit_lxor v w : 0 <= v -> 0 <= w -> crc_bit (Z.lxor v w) = Z.lxor (crc_bit v) (crc_bit w).
Proof.
  intros Hv Hw. apply Z.bits_inj'. intros i Hi. rewrite Z.lxor_spec, !crc_bit_testbit, !Z.lxor_spec by done.
  by destruct (Z.testbit v 0), (Z.testbit w 0), (Z.testbit CRC_POLYNOMIAL i), (Z.testbit v (i + 1)), (Z.testbit w (i + 1)).
Qed.

Lemma iter_nonneg n v : 0 <= v -> 0 <= Nat.iter n crc_bit v.
Proof. intros Hv. induction n as [|n IH]; [done|]. rewrite Nat.iter_succ. by apply crc_bit_nonneg. Qed.

Lemma iter_lxor n v w :
  0 <= v -> 0 <= w -> Nat.iter n crc_bit (Z.lxor v w) = Z.lxor (Nat.iter n crc_bit v) (Nat.iter n crc_bit w).
Proof.
  intros Hv Hw. induction n as [|n IH]; [done|]. rewrite !Nat.iter_succ, IH.
  by apply crc_bit_lxor; apply iter_nonneg.
Qed.

(** Zeros are shifted out. *)
Lemma iter_shift n v : 0 <= v -> Nat.iter n crc_bit (Z.shiftl v (Z.of_nat n)) = v.
Proof.
  revert v. induction n as [|n IH]; intros v Hv; [apply Z.shiftl_0_r|].
  rewrite Nat.iter_succ_r. rewrite <- (IH v) at 2 by done. f_equal.
  apply Z.bits_inj'. intros i Hi. rewrite crc_bit_testbit, !Z.shiftl_spec by lia.
  rewrite (Z.testbit_neg_r v (0 - _)) by lia. rewrite andb_false_l, xorb_false_l. f_equal. lia.
Qed.

(** Feeding bits one at a time is adding them at once and shifting them out. *)
Lemma register_at_once v l : 0 <= v -> crc_register v l = Nat.iter (length l) crc_bit (Z.lxor v (lsb_value l)).
Proof.
  revert v. induction l as [|b l IH]; intros v Hv; [by rewrite Z.lxor_0_r|].
  assert (0 <= Z.b2z b) by (destruct b; cbn; lia).
  assert (0 <= Z.lxor v (Z.b2z b)) by (apply Z.lxor_nonneg; lia). pose proof (lsb_bounds l) as [Hl _].
  change (crc_register v (b :: l)) with (crc_register (crc_bit (Z.lxor v (Z.b2z b))) l).
  rewrite IH by (by apply crc_bit_nonneg). cbn [length]. rewrite Nat.iter_succ_r. f_equal.
  assert (lsb_value (b :: l) = Z.lxor (Z.b2z b) (Z.shiftl (lsb_value l) 1)) as ->.
  { cbn [lsb_value foldr]. fold (lsb_value l). rewrite Z.shiftl_mul_pow2 by lia.
    rewrite <- Z.add_nocarry_lxor; [lia|]. apply Z.bits_inj'. intros i Hi. rewrite Z.land_spec, Z.bits_0.
    destruct (decide (i = 0)) as [->|]; [by rewrite Z.mul_pow2_bits_low, andb_false_r by lia|].
    destruct b; [|by rewrite Z.testbit_0_l].
    change (Z.b2z true) with (2 ^ 0). by rewrite Z.pow2_bits_false by lia. }
  rewrite <- Z.lxor_assoc, (crc_bit_lxor (Z.lxor v (Z.b2z b))) by (done || by apply Z.shiftl_nonneg). f_equal.
  symmetry. exact (iter_shift 1 (lsb_value l) Hl).
Qed.

Lemma register_app v l k : crc_register v (l ++ k) = crc_register (crc_register v l) k.
Proof. unfold crc_register. by rewrite foldl_app. Qed.

Lemma register_nonneg v l : 0 <= v -> 0 <= crc_register v l.
Proof. intros Hv. rewrite register_at_once by done. apply iter_nonneg, Z.lxor_nonneg. pose proof (lsb_bounds l). lia. Qed.

Lemma table_entry i : (i < 256)%nat -> CRC_TABLE !!! i = Nat.iter 8 crc_bit (Z.of_nat i).
Proof.
  intros Hi. change CRC_TABLE with build_crc_table. apply list_lookup_total_correct. unfold build_crc_table.
  by rewrite list_lookup_fmap, lookup_seq_lt.
Qed.

Lemma crc_byte v b :
  0 <= v -> u8 b ->
  Z.lxor (CRC_TABLE !!! Z.to_nat (Z.land (Z.lxor v b) 255)) (Z.shiftr v 8) = crc_register v (bits_of 8 b).
Proof.
  intros Hv Hb. unfold u8, U8_MAX in Hb. rewrite register_at_once, length_bits_of, lsb_bits_of by done.
  change (2 ^ Z.of_nat 8) with 256. rewrite Z.mod_small by lia.
  assert (0 <= Z.lxor v b) as Hx by (apply Z.lxor_nonneg; lia).
  change 255 with (Z.ones 8). rewrite Z.land_ones by lia. change (2 ^ 8) with 256.
  pose proof (Z.mod_pos_bound (Z.lxor v b) 256 ltac:(lia)).
  rewrite table_entry, Z2Nat.id by lia.
  assert (Z.shiftr v 8 = Z.shiftr (Z.lxor v b) 8) as ->.
  { apply Z.bits_inj'. intros i Hi. rewrite !Z.shiftr_spec, Z.lxor_spec by done.
    rewrite (Z.bits_above_log2 b), xorb_false_r; [done|lia|].
    destruct (decide (b = 0)) as [->|]; [cbn; lia|]. apply Z.log2_lt_pow2; [lia|].
    eapply Z.lt_le_trans; [|apply (Z.pow_le_mono_r 2 8); lia]. change (2 ^ 8) with 256. lia. }
  rewrite <- (iter_shift 8 (Z.shiftr (Z.lxor v b) 8)) at 1 by (by apply Z.shiftr_nonneg).
  rewrite <- iter_lxor; [|lia|apply Z.shiftl_nonneg; by apply Z.shiftr_nonneg]. f_equal.
  apply Z.bits_inj'. intros i Hi. rewrite Z.lxor_spec. change (Z.of_nat 8) with 8. rewrite Z.shiftl_spec by lia.
  change 256 with (2 ^ 8). destruct (decide (i < 8)) as [Hlt|Hge].
  - rewrite Z.mod_pow2_bits_low, (Z.testbit_neg_r _ (i - 8)), xorb_false_r by lia. done.
  - rewrite Z.mod_pow2_bits_high, xorb_false_l, Z.shiftr_spec by lia. f_equal. lia.
Qed.

Lemma crc_update_register v data :
  0 <= v -> bytes_ok data -> crc_update v data = crc_register v (flat_map (bits_of 8) data).
Proof.
  intros Hv Hd. revert v Hv. induction Hd as [|b data Hb _ IH]; intros v Hv; [done|].
  cbn [crc_update foldl flat_map]. rewrite crc_byte, register_app by done. apply IH. by apply register_nonneg.
Qed.

(** *** Error detection *)

Definition crc_word (v : Z) : Prop := 0 <= v < 2 ^ 32.

Lemma high_bits_small v : 0 <= v -> (forall i, 32 <= i -> Z.testbit v i = false) -> crc_word v.
Proof.
  intros Hv Hbits. assert (v = v mod 2 ^ 32) as ->.
  { apply Z.bits_inj'. intros i Hi. destruct (decide (i < 32)); [by rewrite Z.mod_pow2_bits_low|].
    rewrite Z.mod_pow2_bits_high by lia. apply Hbits. lia. }
  apply Z.mod_pos_bound. lia.
Qed.

Lemma small_high_bits v i : crc_word v -> 32 <= i -> Z.testbit v i = false.
Proof.
  intros Hv Hi. rewrite <- (Z.mod_small v (2 ^ 32)) by done. apply Z.mod_pow2_bits_high. lia.
Qed.

Lemma crc_bit_u32 v : crc_word v -> crc_word (crc_bit v).
Proof.
  intros Hv. apply high_bits_small; [apply crc_bit_nonneg, Hv|]. intros i Hi.
  rewrite crc_bit_testbit by lia. rewrite (small_high_bits v (i + 1)), (small_high_bits CRC_POLYNOMIAL), andb_false_r by (done || lia).
  done.
Qed.

(** The top bit of the polynomial tells what was shifted out. *)
Lemma crc_bit_inj v w : crc_word v -> crc_word w -> crc_bit v = crc_bit w -> v = w.
Proof.
  intros Hv Hw H.
  assert (forall i, 0 <= i -> Z.testbit (crc_bit v) i = Z.testbit (crc_bit w) i) as Hbits by (intros; by rewrite H).
  assert (Z.testbit v 0 = Z.testbit w 0) as H0.
  { specialize (Hbits 31 ltac:(lia)). rewrite !crc_bit_testbit in Hbits by lia.
    rewrite (small_high_bits v (31 + 1)), (small_high_bits w (31 + 1)) in Hbits by (done || lia).
    change (Z.testbit CRC_POLYNOMIAL 31) with true in Hbits. by rewrite !andb_true_r, !xorb_false_r in Hbits. }
  apply Z.bits_inj'. intros i Hi. destruct (decide (i = 0)) as [->|]; [done|].
  specialize (Hbits (i - 1) ltac:(lia)). rewrite !crc_bit_testbit, H0 in Hbits by lia.
  replace (i - 1 + 1) with i in Hbits by lia. by destruct (_ && _), (Z.testbit v i), (Z.testbit w i).
Qed.

Lemma iter_u32 n v : crc_word v -> crc_word (Nat.iter n crc_bit v).
Proof. intros Hv. induction n as [|n IH]; [done|]. rewrite Nat.iter_succ. by apply crc_bit_u32. Qed.

Lemma iter_inj n v w :
  crc_word v -> crc_word w -> Nat.iter n crc_bit v = Nat.iter n crc_bit w -> v = w.
Proof.
  intros Hv Hw. induction n as [|n IH]; [done|]. rewrite !Nat.iter_succ. intros H.
  apply IH, crc_bit_inj; [by apply iter_u32..|done].
Qed.

Lemma lxor_u32 v l : crc_word v -> (length l <= 32)%nat -> crc_word (Z.lxor v (lsb_value l)).
Proof.
  intros Hv Hl. pose proof (lsb_bounds l) as [Hnn _].
  apply high_bits_small; [apply Z.lxor_nonneg; unfold crc_word in Hv; lia|].
  intros i Hi. rewrite Z.lxor_spec, (small_high_bits v), lsb_testbit by (done || lia).
  by rewrite nth_overflow by lia.
Qed.

Lemma register_u32 v l : crc_word v -> crc_word (crc_register v l).
Proof.
  revert v. induction l as [|b l IH]; intros v Hv; [done|].
  change (crc_register v (b :: l)) with (crc_register (crc_bit (Z.lxor v (Z.b2z b))) l).
  apply IH, crc_bit_u32. pose proof (lxor_u32 v [b] Hv ltac:(cbn; lia)) as H. cbn [lsb_value foldr] in H.
  by replace (Z.b2z b + 2 * 0) with (Z.b2z b) in H by lia.
Qed.

Lemma register_inj v w l : crc_word v -> crc_word w -> crc_register v l = crc_register w l -> v = w.
Proof.
  revert v w. induction l as [|b l IH]; intros v w Hv Hw H; [done|].
  assert (forall x, crc_word x -> crc_word (Z.lxor x (Z.b2z b))) as Hx.
  { intros x Hx. pose proof (lxor_u32 x [b] Hx ltac:(cbn; lia)) as Hb. cbn [lsb_value foldr] in Hb.
    by replace (Z.b2z b + 2 * 0) with (Z.b2z b) in Hb by lia. }
  apply IH in H; [|by apply crc_bit_u32, Hx..]. apply crc_bit_inj in H; [|by apply Hx..].
  apply (f_equal (fun z => Z.lxor z (Z.b2z b))) in H. by rewrite !Z.lxor_assoc, !Z.lxor_nilpotent, !Z.lxor_0_r in H.
Qed.

(** Windows of up to 32 bits from one register value give different register values. *)
Lemma register_burst v l k :
  crc_word v -> length l = length k -> (length l <= 32)%nat -> crc_register v l = crc_register v k -> l = k.
Proof.
  intros Hv Hlen Hl H. pose proof Hv as [Hnn _]. rewrite !register_at_once, Hlen in H by done.
  apply iter_inj in H; [|apply lxor_u32; [done|lia]..].
  apply (f_equal (Z.lxor v)) in H. rewrite <- !Z.lxor_assoc, Z.lxor_nilpotent, !Z.lxor_0_l in H.
  rewrite <- (bits_of_lsb l), <- (bits_of_lsb k), Hlen. by f_equal.
Qed.

Lemma crc32_register data :
  bytes_ok data -> crc32 data = Z.lxor (crc_register 0xffffffff (flat_map (bits_of 8) data)) 0xffffffff.
Proof. intros Hd. unfold crc32, crc_finalize, crc_new. by rewrite crc_update_register. Qed.

(** The table-driven CRC is the bit-serial one, and so catches every burst: two byte
    strings whose bits differ, and differ only inside a window of at most 32 bits, have
    different CRC-32s. *)
Theorem crc32_detects_bursts data data' before window window' after :
  bytes_ok data -> bytes_ok data' ->
  flat_map (bits_of 8) data = before ++ window ++ after ->
  flat_map (bits_of 8) data' = before ++ window' ++ after ->
  length window = length window' -> (length window <= 32)%nat -> window <> window' ->
  crc32 data <> crc32 data'.
Proof.
  intros Hd Hd' E E' Hlen Hw Hne H. rewrite !crc32_register, E, E' in H by done.
  apply (f_equal (fun z => Z.lxor z 0xffffffff)) in H. rewrite !Z.lxor_assoc, !Z.lxor_nilpotent, !Z.lxor_0_r in H.
  rewrite !register_app in H. assert (crc_word 0xffffffff) as Hi by (unfold crc_word; lia).
  assert (crc_word (crc_register 0xffffffff before)) as Hb by (by apply register_u32).
  apply register_inj in H; [|by apply register_u32..]. by apply register_burst in H.
Qed.

(** ** The trailer's verdict on a whole stream *)

(** The bytes behind a stream that ends with the bits [l] unread, up to the 4097 that
    [drain_remaining] takes. *)
Definition trailing_bytes (l : list bool) : bytes :=
  let rest := drop (Z.to_nat (zlen l mod 8)) l in
  take (Z.to_nat 4097) (bytes_of_bits (length rest / 8) rest).

(** The trailer against the output of the one-shot decoder. *)
Definition trailer_verdict (last : ref_state) : result ReadError unit :=
  check_trailer (trailing_bytes (bits last)) (crc32 (output last)) (zlen (output last)).

(** What RFC 1952 asks of a stream's trailer, told from the bits behind the stream and its
    output alone.  The CRC is the division register of the polynomial, fed the output's bits
    one by one. *)
Definition register_bit (v : Z) (b : bool) : Z :=
  if xorb (Z.odd v) b then Z.lxor 0xedb88320 (v / 2) else v / 2.

Definition crc_of (data : bytes) : Z := 2 ^ 32 - 1 - foldl register_bit (2 ^ 32 - 1) (flat_map (bits_of 8) data).

Definition little_endian (l : bytes) : Z := foldr (fun byte v => byte + 256 * v) 0 l.

(** The whole bytes behind a stream that ends with the bits [l] unread. *)
Definition bytes_behind (l : list bool) : bytes :=
  let rest := drop (Z.to_nat (zlen l mod 8)) l in bytes_of_bits (length rest / 8) rest.

(** What the reader may say of the bytes [rest] behind a stream that gave [output]: good when
    they are the CRC-32 and the length, four bytes each, and nothing else.  It looks no
    further than 4097 bytes, so that is as many as it reports. *)
Inductive trailer_says (output rest : bytes) : result ReadError unit -> Prop :=
| trailer_short : zlen rest < 8 -> trailer_says output rest (Err (Gz GzipTruncated))
| trailer_crc stored size extra :
    rest = stored ++ size ++ extra -> zlen stored = 4 -> zlen size = 4 -> little_endian stored <> crc_of output ->
    trailer_says output rest (Err (Gz (CrcMismatch (little_endian stored) (crc_of output))))
| trailer_length stored size extra :
    rest = stored ++ size ++ extra -> zlen stored = 4 -> zlen size = 4 -> little_endian stored = crc_of output ->
    little_endian size <> zlen output mod 2 ^ 32 ->
    trailer_says output rest (Err (Gz (LengthMismatch (little_endian size) (zlen output))))
| trailer_behind stored size extra :
    rest = stored ++ size ++ extra -> zlen stored = 4 -> zlen size = 4 -> little_endian stored = crc_of output ->
    little_endian size = zlen output mod 2 ^ 32 -> extra <> [] ->
    trailer_says output rest (Err (Gz (TrailingBytes (Z.min (zlen extra) 4089))))
| trailer_good stored size :
    rest = stored ++ size -> zlen stored = 4 -> zlen size = 4 -> little_endian stored = crc_of output ->
    little_endian size = zlen output mod 2 ^ 32 -> trailer_says output rest (Ok tt).

(** What reads of [lens] bytes, none of them empty, see of a stream: the slices of its
    output, then its error, or the verdict and, when it is good, the end. *)
Fixpoint gzip_slices (out : bytes) (err : option IoError) (verdict : result ReadError unit) (at_ : Z)
    (lens : list Z) : list (result ReadError bytes) :=
  match lens with
  | [] => []
  | len :: lens =>
      if at_ + len <=? zlen out
      then Ok (take (Z.to_nat len) (drop (Z.to_nat at_) out)) :: gzip_slices out err verdict (at_ + len) lens
      else
        match err with
        | Some e => [Err (Io e)]
        | None =>
            if at_ <? zlen out
            then Ok (drop (Z.to_nat at_) out) :: gzip_slices out err verdict (zlen out) lens
            else match verdict with Err e => [Err e] | Ok _ => Ok [] :: map (fun _ => Ok []) lens end
        end
  end.

Lemma exhaust_total n d at_ c a :
  state_rel d at_ c a ->
  total_out (exhaust n a).1 - zlen (output (exhaust n a).1) = total_out a - zlen (output a).
Proof.
  revert c a. induction n as [|n IH]; intros c a H; [done|]. cbn [exhaust]. destruct (finished a); [done|].
  pose proof (step_rel_ok _ _ _ _ H) as Hs. destruct (step a) as [a'|e] eqn:E; [|done].
  destruct (step c) as [c'|]; [|done]. cbn in Hs. rewrite (IH c' a' Hs). by eapply step_total.
Qed.

Lemma finished_reads lens g : gz_finished g = true -> gzip_reads lens g = Some (map (fun _ => Ok []) lens).
Proof.
  intros Hf. induction lens as [|len lens IH]; [done|]. cbn [gzip_reads map]. unfold gzip_read.
  by rewrite Hf, IH.
Qed.

Section Reads.
Context (last : ref_state) (err : option IoError).
Hypothesis Htotal : total_out last = zlen (output last).

(** The reader with [at_] bytes given out and digested. *)
Definition running (at_ : Z) (g : GzipReader) : Prop :=
  exists c d a, g = mkGzip (Some c) (crc_update crc_new (take (Z.to_nat at_) (output last))) false false /\
    state_rel d at_ c a /\ final a = (last, err) /\ 0 <= at_ <= zlen (output last).

Lemma crc_update_app v l k : crc_update v (l ++ k) = crc_update (crc_update v l) k.
Proof using. unfold crc_update. by rewrite foldl_app. Qed.

Lemma verify_trailer_spec d at_ c a flag :
  state_rel d at_ c a -> finished a = true -> final a = (last, err) ->
  verify_trailer (mkGzip (Some c) (crc_update crc_new (output last)) true flag) =
    let? _ := trailer_verdict last in Ok (mkGzip None (crc_update crc_new (output last)) true true).
Proof using Htotal.
  intros H Hf Hfin. rewrite final_finished in Hfin by done. injection Hfin as -> _.
  destruct (sr_bits _ _ _ _ H) as [Hr Hst]. unfold verify_trailer. cbn [inner gz_crc gz_finished].
  rewrite (drain_remaining_spec _ Hr), Hst, (sr_total _ _ _ _ H), Htotal. cbn [map_err]. done.
Qed.

(** One nonempty read. *)
Lemma gzip_read_spec len at_ g :
  0 < len -> running at_ g ->
  match gzip_read len g with
  | Some (Ok (data, g')) =>
      if at_ + len <=? zlen (output last)
      then data = take (Z.to_nat len) (drop (Z.to_nat at_) (output last)) /\ running (at_ + len) g'
      else err = None /\
        if at_ <? zlen (output last)
        then data = drop (Z.to_nat at_) (output last) /\ running (zlen (output last)) g'
        else data = [] /\ trailer_verdict last = Ok tt /\ gz_finished g' = true
  | Some (Err e) =>
      zlen (output last) < at_ + len /\
      match err with Some e' => e = Io e' | None => zlen (output last) <= at_ /\ trailer_verdict last = Err e end
  | None => False
  end.
Proof using Htotal.
  intros Hlen (c & d & a & -> & H & Hfin & Hat). unfold gzip_read. cbn [gz_finished inner].
  pose proof (read_spec len d at_ c a H ltac:(lia) ltac:(lia)) as Hr.
  assert (rest_of a = (output last, err)) as Hrest by (unfold rest_of; by rewrite Hfin). rewrite Hrest in Hr.
  destruct (read len c) as [[[data c']|e]|]; [| |done].
  2: { destruct Hr as (-> & Hlt & _). split; [lia|done]. }
  destruct Hr as [(d' & a' & H' & Hfin' & Hend) Hdata]. rewrite Hfin in Hfin'.
  destruct (Z.leb_spec (at_ + len) (zlen (output last))) as [Hle|Hgt].
  - destruct Hdata as [Heq Hz]. destruct (Z.eqb_spec (zlen data) 0); [lia|]. cbn [gz_crc trailer_verified].
    split; [done|]. exists c', d', a'. rewrite <- Hz. split_and!; [|done|done|lia|lia].
    f_equal. rewrite <- crc_update_app. f_equal. rewrite Heq at 1. rewrite Hz, Z2Nat.inj_add by lia.
    apply take_take_drop.
  - destruct (Z.eqb_spec len 0); [lia|]. destruct Hdata as (-> & Heq & Hz).
    destruct (Z.ltb_spec at_ (zlen (output last))) as [Hlt|Hall].
    + destruct (Z.eqb_spec (zlen data) 0); [lia|]. cbn [gz_crc trailer_verified].
      split; [done|]. split; [done|]. exists c', d', a'. rewrite <- Hz.
      split_and!; [|done|congruence|lia|lia]. f_equal. rewrite <- crc_update_app. f_equal.
      rewrite Hz, (take_ge (output last) (Z.to_nat (zlen _))) by (unfold zlen; lia). by rewrite Heq, take_drop.
    + destruct (Z.eqb_spec (zlen data) 0); [|lia]. cbn [gz_crc trailer_verified].
      rewrite (take_ge (output last)) by (unfold zlen in *; lia).
      rewrite (verify_trailer_spec d' _ c' a' false H') by (congruence || apply Hend; lia).
      destruct (trailer_verdict last) as [[]|e']; [done|]. split; [lia|]. split; [lia|done].
Qed.

Lemma gzip_reads_spec lens at_ g :
  Forall (fun len => 0 < len) lens -> running at_ g ->
  gzip_reads lens g = Some (gzip_slices (output last) err (trailer_verdict last) at_ lens).
Proof using Htotal.
  intros Hlens. revert at_ g.
  induction Hlens as [|len lens Hlen _ IH]; intros at_ g Hg; [done|]. cbn [gzip_reads gzip_slices].
  pose proof (gzip_read_spec len at_ g Hlen Hg) as Hr. destruct (gzip_read len g) as [[[data g']|e]|]; [| |done].
  - destruct (at_ + len <=? zlen (output last)); [destruct Hr as [-> Hr]; by rewrite (IH _ _ Hr)|].
    destruct Hr as [-> Hr]. destruct (at_ <? zlen (output last)); [destruct Hr as [-> Hr]; by rewrite (IH _ _ Hr)|].
    destruct Hr as (-> & -> & Hf). by rewrite finished_reads.
  - destruct Hr as [Hlt Hr]. destruct (Z.leb_spec (at_ + len) (zlen (output last))); [lia|].
    destruct err; [by subst|]. destruct Hr as [Hge ->]. destruct (Z.ltb_spec at_ (zlen (output last))); [lia|done].
Qed.
End Reads.

Lemma gzip_start_running body :
  source_ok body ->
  let (last, err) := final (inflate_new (flat_map (bits_of 8) (delivered body))) in
  total_out last = zlen (output last) /\ running last err 0 (gzip_start body).
Proof.
  intros Hs. pose proof (inflate_new_rel body Hs) as H.
  pose proof (exhaust_total (S (work (inflate_new (flat_map (bits_of 8) (delivered body))))) _ _ _ _ H) as Ht.
  unfold final. destruct (exhaust _ _) as [last err] eqn:E. cbn [fst] in Ht.
  split; [change (total_out last - zlen (output last) = 0) in Ht; lia|].
  exists (inflate_new (reader_new body)), 0%nat, (inflate_new (flat_map (bits_of 8) (delivered body))).
  split_and!; [done|done|done|done|apply zlen_nonneg].
Qed.

(** *** The code's trailer check against the specification's *)

Lemma register_bit_is v l : 0 <= v -> foldl register_bit v l = crc_register v l.
Proof.
  revert v. induction l as [|b l IH]; intros v Hv; [done|]. cbn [foldl crc_register].
  assert (register_bit v b = crc_bit (Z.lxor v (Z.b2z b))) as ->.
  { unfold register_bit, crc_bit. change 1 with (Z.ones 1) at 1. rewrite Z.land_ones by lia. change (2 ^ 1) with 2.
    rewrite Zmod_odd, <- (Z.bit0_odd (Z.lxor _ _)), Z.lxor_spec, Z.bit0_odd.
    assert (Z.testbit (Z.b2z b) 0 = b) as -> by (by destruct b).
    assert (Z.shiftr (Z.lxor v (Z.b2z b)) 1 = v / 2) as Hs.
    { change (v / 2) with (v / 2 ^ 1). rewrite <- Z.shiftr_div_pow2 by lia. apply Z.bits_inj'. intros i Hi.
      rewrite !Z.shiftr_spec, Z.lxor_spec by done. assert (Z.testbit (Z.b2z b) (i + 1) = false) as ->; [|apply xorb_false_r].
      destruct b; [|apply Z.testbit_0_l]. change (Z.b2z true) with (2 ^ 0). by apply Z.pow2_bits_false; lia. }
    rewrite Hs. by destruct (xorb _ _). }
  apply IH, crc_bit_nonneg, Z.lxor_nonneg. destruct b; cbn; lia.
Qed.

Lemma crc_of_is data : bytes_ok data -> crc_of data = crc32 data.
Proof.
  intros Hd. unfold crc_of. rewrite register_bit_is by done. rewrite crc32_register by done.
  assert (crc_word (crc_register (2 ^ 32 - 1) (flat_map (bits_of 8) data))) as Hw by (apply register_u32; unfold crc_word; lia).
  change (2 ^ 32 - 1) with 0xffffffff in *. set (v := crc_register _ _) in *.
  change 0xffffffff with (Z.ones 32). rewrite Z.lxor_comm.
  assert (Z.lxor (Z.ones 32) v = Z.ldiff (Z.ones 32) v) as ->.
  { apply Z.bits_inj'. intros i Hi. rewrite Z.lxor_spec, Z.ldiff_spec.
    destruct (decide (i < 32)) as [Hlt|Hge]; [by rewrite Z.ones_spec_low by lia|].
    rewrite Z.ones_spec_high, (small_high_bits v) by (done || lia). done. }
  apply Z.sub_nocarry_ldiff. apply Z.bits_inj'. intros i Hi. rewrite Z.ldiff_spec, Z.bits_0.
  destruct (decide (i < 32)) as [Hlt|Hge]; [rewrite Z.ones_spec_low by lia; by rewrite andb_false_r|].
  by rewrite (small_high_bits v) by (done || lia).
Qed.

Lemma word_of (rest : bytes) : 4 <= zlen rest -> le32 rest = little_endian (take 4 rest) /\ zlen (take 4 rest) = 4.
Proof.
  destruct rest as [|a [|b [|c [|d rest]]]]; try by (unfold zlen; cbn; lia).
  intros _. split; [|done].
  change (a + 256 * b + 65536 * c + 16777216 * d = a + 256 * (b + 256 * (c + 256 * (d + 256 * 0)))). lia.
Qed.

Lemma check_trailer_says output behind :
  bytes_ok output -> trailer_says output behind (check_trailer (take (Z.to_nat 4097) behind) (crc32 output) (zlen output)).
Proof.
  intros Ho. rewrite <- crc_of_is by done. unfold check_trailer.
  set (rest := take (Z.to_nat 4097) behind).
  assert (zlen rest = Z.min 4097 (zlen behind)) as Hz by (unfold rest, zlen; rewrite length_take; lia).
  destruct (Z.ltb_spec (zlen rest) 8) as [Hs|Hs]; [apply trailer_short; lia|].
  assert (behind = take 4 behind ++ take 4 (drop 4 behind) ++ drop 8 behind) as Hb.
  { rewrite <- (take_drop 4 behind) at 1. f_equal. rewrite <- (take_drop 4 (drop 4 behind)) at 1. by rewrite drop_drop. }
  assert (take 4 rest = take 4 behind /\ take 4 (drop 4 rest) = take 4 (drop 4 behind)) as [H4 H8].
  { unfold rest. split; [by rewrite take_take|]. by rewrite !take_drop_commute, take_take. }
  destruct (word_of rest ltac:(lia)) as [-> Hl4]. destruct (word_of (drop 4 rest)) as [-> Hl8].
  { unfold zlen in *. rewrite length_drop. lia. }
  rewrite H4 in *. rewrite H8 in *. change 0xffffffff with (Z.ones 32). rewrite Z.land_ones by done. cbn zeta.
  destruct (Z.eqb_spec (little_endian (take 4 behind)) (crc_of output)) as [Hc|Hc]; cbn [negb].
  2: { by apply (trailer_crc _ _ _ (take 4 (drop 4 behind)) (drop 8 behind)). }
  destruct (Z.eqb_spec (little_endian (take 4 (drop 4 behind))) (zlen output mod 2 ^ 32)) as [Hn|Hn]; cbn [negb].
  2: { by apply (trailer_length _ _ (take 4 behind) _ (drop 8 behind)). }
  destruct (Z.ltb_spec 8 (zlen rest)) as [Hgt|Hle].
  - replace (zlen rest - 8) with (Z.min (zlen (drop 8 behind)) 4089).
    2: { unfold zlen in *. rewrite length_drop. lia. }
    apply (trailer_behind _ _ (take 4 behind) (take 4 (drop 4 behind))); try done.
    intros Hnil. apply (f_equal zlen) in Hnil. unfold zlen in *. rewrite length_drop in Hnil. cbn in Hnil. lia.
  - apply (trailer_good _ _ (take 4 behind) (take 4 (drop 4 behind))); try done. rewrite Hb at 1.
    assert (drop 8 behind = []) as ->; [|by rewrite app_nil_r]. apply drop_ge. unfold zlen in *. lia.
Qed.

(** The output of the one-shot decoder is bytes. *)
Lemma ref_decode_nonneg lengths l s l' : ref_decode lengths l = Ok (s, l') -> 0 <= s.
Proof.
  unfold ref_decode. induction (seq 1 MAX_BITS) as [|L widths IH]; [done|]. cbn [ref_decode_from].
  destruct (if (L <=? length l)%nat then _ else None); [intros [= <- _]; lia|done].
Qed.

Lemma copy_back_bytes n source out : bytes_ok out -> bytes_ok (copy_back n source out).
Proof.
  revert source out. induction n as [|n IH]; intros source out Ho; [done|]. cbn [copy_back]. apply IH, bytes_ok_app.
  split; [done|]. constructor; [|constructor]. destruct (out !! source) as [b|] eqn:E.
  - rewrite (list_lookup_total_correct _ _ _ E). by eapply Forall_lookup_1 in E.
  - rewrite list_lookup_total_alt, E. done.
Qed.

Lemma step_bytes (a a' : ref_state) : bytes_ok (output a) -> step a = Ok a' -> bytes_ok (output a').
Proof.
  intros Ho. unfold step. destruct (block a) as [|n|t d].
  - unfold start_block. destruct (final_block_seen a); [by intros [= <-]|].
    destruct (source_take 1 (bits a)) as [[v l]|]; [|done]. cbn zeta. destruct (source_take 2 l) as [[w l']|]; [|done].
    destruct (block_header w l') as [[b l2]|]; [|done]. by intros [= <-].
  - unfold stored_chunk. destruct (n =? 0); [by intros [= <-]|]. cbn zeta. cbn [source_aligned bits_source]. unfold ref_aligned.
    destruct (_ <=? _); [|done]. intros [= <-]. reduce_state. apply bytes_ok_app. split; [done|apply bytes_of_bits_ok].
  - unfold huffman_symbol. cbn [source_decode bits_source].
    destruct (ref_decode t (bits a)) as [[s l]|] eqn:Es; [|done]. apply ref_decode_nonneg in Es.
    destruct (Z.leb_spec s 255).
    { intros [= <-]. reduce_state. apply bytes_ok_app. split; [done|]. constructor; [unfold u8, U8_MAX; lia|constructor]. }
    destruct (s =? 256); [by intros [= <-]|]. destruct (s <=? 285); [|done].
    destruct (back_reference d s (output a) l) as [[[len out] l2]|] eqn:Eb; [|done]. intros [= <-]. reduce_state.
    unfold back_reference in Eb. destruct (source_take _ l) as [[x l3]|]; [|done]. cbn zeta in Eb.
    destruct (source_decode d l3) as [[ds l4]|]; [|done]. destruct (_ <=? ds); [done|].
    destruct (source_take _ l4) as [[y l5]|]; [|done]. destruct (_ <? _); [done|]. injection Eb as _ <- _.
    by apply copy_back_bytes.
Qed.

Lemma exhaust_bytes n (a : ref_state) : bytes_ok (output a) -> bytes_ok (output (exhaust n a).1).
Proof.
  revert a. induction n as [|n IH]; intros a Ha; [done|]. cbn [exhaust]. destruct (finished a); [done|].
  destruct (step a) as [a'|e] eqn:E; [|done]. by eapply IH, step_bytes.
Qed.

(** C34. A gzip stream is read as what it is: for every source and every sequence of
    nonempty reads behind the header, the reads give the slices of the one-shot output in
    order, then the inflater's error if it has one, and otherwise the trailer's verdict:
    good exactly when the bytes behind the stream are the output's CRC-32 and its length
    modulo [2^32], in little-endian order, with nothing behind them, and else the error for
    what is wrong.  The end is reported only after a good verdict. *)
Theorem gzip_reads_are_verified body lens :
  source_ok body -> Forall (fun len => 0 < len) lens ->
  let (last, err) := final (inflate_new (flat_map (bits_of 8) (delivered body))) in
  exists verdict, trailer_says (output last) (bytes_behind (bits last)) verdict /\
    gzip_reads lens (gzip_start body) = Some (gzip_slices (output last) err verdict 0 lens).
Proof.
  intros Hs Hlens. pose proof (gzip_start_running body Hs) as H.
  pose proof (exhaust_bytes (S (work (inflate_new (flat_map (bits_of 8) (delivered body)))))
    (inflate_new (flat_map (bits_of 8) (delivered body))) ltac:(constructor)) as Hb.
  change (exhaust _ _) with (final (inflate_new (flat_map (bits_of 8) (delivered body)))) in Hb.
  destruct (final _) as [last err]. destruct H as [Ht H]. exists (trailer_verdict last).
  split; [by apply check_trailer_says|by apply gzip_reads_spec].
Qed.

(** ** The reader as a source *)

(** [impl Read for GzipReader]; a reader never runs out of fuel. *)
#[global] Instance gzip_source : ReadSource GzipReader ReadError := fun n g =>
  match gzip_read (Z.of_nat n) g with Some r => r | None => Err (Io SourceFailed) end.

(** The error behind the output: the inflater's, or the trailer's. *)
Definition stream_error (err : option IoError) (verdict : result ReadError unit) : option ReadError :=
  match err with Some e => Some (Io e) | None => match verdict with Err e => Some e | Ok _ => None end end.

(** A gzip stream is the sequence of its one-shot output and its verdict. *)
#[global, program] Instance gzip_laws : SourceLaws GzipReader ReadError := {
  src_delivers g s := exists last err at_, total_out last = zlen (output last) /\ running last err at_ g /\
    s = (drop (Z.to_nat at_) (output last), stream_error err (trailer_verdict last))
}.
Next Obligation.
  intros n g data e (last & err & at_ & Ht & Hg & [= -> ->]) Hn. unfold src_read, gzip_source.
  pose proof (gzip_read_spec last err Ht (Z.of_nat n) at_ g ltac:(lia) Hg) as Hr.
  assert (0 <= at_ <= zlen (output last)) as Hat by (destruct Hg as (? & ? & ? & _ & _ & _ & ?); done).
  destruct (gzip_read _ g) as [[[got g']|e]|]; [| |done].
  - destruct (Z.leb_spec (at_ + Z.of_nat n) (zlen (output last))).
    + destruct Hr as [-> Hr]. rewrite Nat2Z.id. destruct (take n _) as [|b got] eqn:Eg.
      { apply (f_equal length) in Eg. rewrite length_take, length_drop in Eg. unfold zlen in *. cbn in Eg. lia. }
      rewrite <- Eg. split; [rewrite length_take; lia|]. exists (drop n (drop (Z.to_nat at_) (output last))).
      split; [by rewrite take_drop|]. exists last, err, (at_ + Z.of_nat n). split_and!; [done|done|].
      f_equal. rewrite drop_drop. f_equal. lia.
    + destruct Hr as [-> Hr]. destruct (Z.ltb_spec at_ (zlen (output last))).
      * destruct Hr as [-> Hr]. destruct (drop _ _) as [|b got] eqn:Eg.
        { apply (f_equal length) in Eg. rewrite length_drop in Eg. unfold zlen in *. cbn in Eg. lia. }
        rewrite <- Eg. split; [rewrite length_drop; unfold zlen in *; lia|]. exists []. rewrite app_nil_r. split; [done|].
        exists last, None, (zlen (output last)). split_and!; [done|done|]. unfold zlen. by rewrite Nat2Z.id, drop_all.
      * destruct Hr as (-> & -> & _). split; [|done]. apply drop_ge. unfold zlen in *. lia.
  - destruct Hr as [Hlt Hr]. rewrite length_drop. split; [|unfold zlen in *; lia].
    destruct err; [by subst|]. by destruct Hr as [_ ->].
Qed.

Lemma gzip_start_delivers body :
  source_ok body ->
  src_delivers (gzip_start body)
    (let (last, err) := final (inflate_new (flat_map (bits_of 8) (delivered body))) in
     (output last, stream_error err (trailer_verdict last))).
Proof.
  intros Hs. pose proof (gzip_start_running body Hs) as H. destruct (final _) as [last err]. destruct H as [Ht H].
  by exists last, err, 0.
Qed.

(** *** Witnesses *)

Definition sample_a : bytes := [1; 2; 3].
Definition sample_b : bytes := [1; 6; 3].

Lemma crc32_detects_bursts_witness : crc32 sample_a <> crc32 sample_b.
Proof.
  refine (crc32_detects_bursts sample_a sample_b (bits_of 8 1) (bits_of 8 2) (bits_of 8 6) (bits_of 8 3)
    _ _ eq_refl eq_refl eq_refl _ _); [repeat constructor; done..|vm_compute; lia|discriminate].
Defined.

(** "abcabcabc" behind a ten-byte header, in three answers. *)
Definition sample_gzip : list (option bytes) :=
  [Some [31; 139; 8; 0]; Some [0; 0; 0; 0; 2; 3; 75]; Some [76; 74; 78; 4; 35; 0; 24; 72; 45; 70; 9; 0; 0; 0]].

Definition sample_body : list (option bytes) :=
  [Some [75]; Some [76; 74; 78; 4; 35; 0; 24; 72; 45; 70; 9; 0; 0; 0]].

Example sample_header : read_header sample_gzip = Ok sample_body.
Proof. vm_compute. reflexivity. Qed.

Lemma gzip_reads_are_verified_witness :
  source_ok sample_body /\
  exists verdict, trailer_says (bytes_of_string "abcabcabc") [24; 72; 45; 70; 9; 0; 0; 0] verdict /\
    gzip_reads [5; 5; 5; 5] (gzip_start sample_body) =
      Some (gzip_slices (bytes_of_string "abcabcabc") None verdict 0 [5; 5; 5; 5]).
Proof.
  assert (source_ok sample_body) as Hs.
  { repeat (constructor; [eexists; split; [reflexivity|repeat constructor; done]|]). constructor. }
  split; [exact Hs|].
  pose proof (gzip_reads_are_verified sample_body [5; 5; 5; 5] Hs ltac:(repeat constructor; done)) as H.
  assert (exists last, final (inflate_new (flat_map (bits_of 8) (delivered sample_body))) = (last, None) /\
    output last = bytes_of_string "abcabcabc" /\ bytes_behind (bits last) = [24; 72; 45; 70; 9; 0; 0; 0])
    as (last & Hf & Ho & Hb) by (eexists; split; [vm_compute; reflexivity|split; vm_compute; reflexivity]).
  rewrite Hf, Ho, Hb in H. exact H.
Defined.

Example sample_gzip_reads :
  gzip_reads [5; 5; 5; 5] (gzip_start sample_body) =
    Some [Ok (bytes_of_string "abcab"); Ok (bytes_of_string "cabc"); Ok []; Ok []].
Proof. vm_compute. reflexivity. Qed.

(** A read into an empty buffer ends the stream: the reader is finished and the trailer is
    looked for in the middle of the data. *)
Example empty_read_ends_the_stream :
  exists e, gzip_reads [0; 5] (gzip_start sample_body) = Some [Err (Gz e)].
Proof. eexists. vm_compute. reflexivity. Qed.
