(* ===== verification/Tar.v ===== *)
(** * The tar reader (crates/arkforge-artifact/src/tar.rs)

    [TarReader] over any byte source: header fields, pax and GNU metadata, path rules,
    member bodies and the end marker.  A reader is a value; an operation returns the next
    one.  Whatever the source, reading depends only on the sequence it delivers; an archive
    that is accepted has the layout of one, with safe and distinct paths; and an archive of
    plain members is read back. *)

From stdpp Require Import gmap.
From S2P Require Import Prelude Text Sha256 Bits Source.

Definition BLOCK : Z := 512.
Definition MAX_PATH_LEN : Z := 1024.
Definition MAX_PAX_BYTES : Z := 1048576.

(** What an [ArchiveInvalid] or [PathInvalid] says: its text, or the arguments of its
    format. *)
Inductive Detail : Type :=
| Said (text : string)
| PartialBlock (count : Z)
| MetadataTooLarge (size : Z)
| ChecksumMismatch (declared computed : Z)
| FieldOverflows (name : string)
| FieldNotOctal (name : string) (text : bytes)
| PathBytes (len : Z).

(** [Io] carries the source's error; [LinkUnsupported] of a pax record carries the record's
    bytes, which the code converts lossily. *)
Inductive ArchiveError (E : Type) : Type :=
| IdentityMismatch (expected observed : string)
| ArchiveInvalid (detail : Detail)
| PathAbsolute (path : string)
| PathTraversal (path : string)
| PathInvalid (path : Detail)
| PathDuplicate (path : string)
| LinkUnsupported (path : string)
| MemberTypeUnsupported (path : string) (type_flag : Z)
| MemberSizeMismatch (path : string) (declared observed : Z)
| IoFailed (error : E).
Arguments IdentityMismatch {E}. Arguments ArchiveInvalid {E}. Arguments PathAbsolute {E}.
Arguments PathTraversal {E}. Arguments PathInvalid {E}. Arguments PathDuplicate {E}.
Arguments LinkUnsupported {E}. Arguments MemberTypeUnsupported {E}. Arguments MemberSizeMismatch {E}.
Arguments IoFailed {E}.

Definition archive_code {E} (e : ArchiveError E) : string :=
  match e with
  | IdentityMismatch _ _ => "ARC001_IDENTITY_MISMATCH"
  | ArchiveInvalid _ => "ARC002_ARCHIVE_INVALID"
  | PathAbsolute _ => "ARC003_PATH_ABSOLUTE"
  | PathTraversal _ => "ARC004_PATH_TRAVERSAL"
  | PathInvalid _ => "ARC005_PATH_INVALID"
  | PathDuplicate _ => "ARC006_PATH_DUPLICATE"
  | LinkUnsupported _ => "ARC007_LINK_UNSUPPORTED"
  | MemberTypeUnsupported _ _ => "ARC008_MEMBER_TYPE_UNSUPPORTED"
  | MemberSizeMismatch _ _ _ => "ARC009_MEMBER_SIZE_MISMATCH"
  | IoFailed _ => "ARC002_ARCHIVE_INVALID"
  end.

(** Why an operation stops: the error it returns, or a panic (release builds keep
    [overflow-checks] and abort on it). *)
Inductive Stop (E : Type) : Type :=
| Refused (e : ArchiveError E)
| Panicked.
Arguments Refused {E}. Arguments Panicked {E}.

Record TarMemberHeader := mkHeader { th_path : string; th_size : Z; th_mode : Z }.
Record TarMemberObservation := mkObservation { to_path : string; to_size : Z; to_sha256 : Sha256Digest }.

(** ** Bytes *)

Definition strip_nul (l : bytes) : bytes :=
  match index_of 0 l with Some index => take index l | None => l end.

(** [char::is_whitespace] on the characters up to U+00FF. *)
Definition latin1_whitespace (c : Z) : bool := in_range 9 13 c || (c =? 32) || (c =? 0x85) || (c =? 0xa0).

(** [str::trim] on such characters. *)
Definition trim_latin1 (l : bytes) : bytes :=
  rev (drop_while latin1_whitespace (rev (drop_while latin1_whitespace l))).

(** ** Header fields *)

Section Fields.
Context {E : Type}.

Fixpoint base_256 (name : string) (value : Z) (l : bytes) : result (ArchiveError E) Z :=
  match l with
  | [] => Ok value
  | byte :: l =>
      let value := value * 256 + byte in
      if value <=? U64_MAX then base_256 name value l else Err (ArchiveInvalid (FieldOverflows name))
  end.

Definition parse_octal (field : bytes) (name : string) : result (ArchiveError E) Z :=
  if negb (Z.land (field !!! 0%nat) 0x80 =? 0) then base_256 name 0 (drop 1 field)
  else
    let text := take_while (fun byte => negb (byte =? 0) && negb (byte =? 32)) field in
    let text := trim_latin1 text in
    match text with
    | [] => Ok 0
    | _ => ok_or (from_str_radix 8 text) (ArchiveInvalid (FieldNotOctal name text))
    end.

(** The bytes summed: those of the checksum field count as spaces. *)
Definition checksum_bytes (header : bytes) : bytes := take 148 header ++ replicate 8 32 ++ drop 156 header.

Definition as_i8 (byte : Z) : Z := if byte <? 128 then byte else byte - 256.
Definition as_i64 (value : Z) : Z := if value <=? I64_MAX then value else value - 2 ^ 64.

Definition sum_list (l : list Z) : Z := foldr Z.add 0 l.

Definition verify_checksum (header : bytes) : result (ArchiveError E) unit :=
  let? declared := parse_octal (slice 148 156 header) "checksum" in
  let unsigned_sum := sum_list (checksum_bytes header) in
  let signed_sum := sum_list (map as_i8 (checksum_bytes header)) in
  if (declared =? unsigned_sum) || (as_i64 declared =? signed_sum) then Ok tt
  else Err (ArchiveInvalid (ChecksumMismatch declared unsigned_sum)).

Definition header_path (header : bytes) : result (ArchiveError E) string :=
  let name := strip_nul (slice 0 100 header) in
  let prefix := strip_nul (slice 345 500 header) in
  let magic := slice 257 262 header in
  let raw :=
    (if bool_decide (magic = bytes_of_string "ustar") && negb (bool_decide (prefix = []))
     then prefix ++ [47] else []) ++ name in
  ok_or (from_utf8 raw) (PathInvalid (Said "<non-utf8 member path>")).

(** ** Paths *)

(** [split('/')] *)
Fixpoint split_slash (l : bytes) : list bytes :=
  match l with
  | [] => [[]]
  | c :: l =>
      if c =? 47 then [] :: split_slash l
      else match split_slash l with component :: rest => (c :: component) :: rest | [] => [[c]] end
  end.

(** [join("/")] *)
Fixpoint join_slash (l : list bytes) : bytes :=
  match l with
  | [] => []
  | [component] => component
  | component :: l => component ++ 47 :: join_slash l
  end.

Definition dot : bytes := [46].
Definition dot_dot : bytes := [46; 46].

(** [chars().any(|c| c.is_control())] on UTF-8: C0, delete, and C1. *)
Fixpoint has_control (l : bytes) : bool :=
  match l with
  | [] => false
  | c :: l =>
      (c <? 32) || (c =? 127)
      || ((c =? 0xc2) && match l with d :: _ => in_range 0x80 0x9f d | [] => false end)
      || has_control l
  end.

(** The loop over the components: false when one leaves the root. *)
Fixpoint stays_inside (depth : Z) (components : list bytes) : bool :=
  match components with
  | [] => true
  | component :: components =>
      if bool_decide (component = [] \/ component = dot) then stays_inside depth components
      else if bool_decide (component = dot_dot) then
        if depth - 1 <? 0 then false else stays_inside (depth - 1) components
      else stays_inside (depth + 1) components
  end.

Definition validate_path (raw : string) : result (ArchiveError E) string :=
  let l := bytes_of_string raw in
  if bool_decide (l = []) then Err (PathInvalid (Said raw))
  else if MAX_PATH_LEN <? zlen l then Err (PathInvalid (PathBytes (zlen l)))
  else if bool_decide (head l = Some 47) then Err (PathAbsolute raw)
  else if bool_decide (92 ∈ l) then Err (PathInvalid (Said raw))
  else if bool_decide (0 ∈ l) || has_control l then Err (PathInvalid (Said raw))
  else if negb (stays_inside 0 (split_slash l)) then Err (PathTraversal raw)
  else
    let normalized := filter (fun component => component <> [] /\ component <> dot) (split_slash l) in
    if bool_decide (normalized = []) then Err (PathInvalid (Said raw))
    else if bool_decide (dot_dot ∈ normalized) then Err (PathTraversal raw)
    else Ok (string_of_bytes (join_slash normalized)).
End Fields.

(** ** The reader *)

Record TarReader (R : Type) := mkTar {
  tar_source : R;
  pending_body : Z;
  pending_padding : Z;
  seen_paths : gset string;
  tar_finished : bool;
  next_path_override : option string;
  next_size_override : option Z
}.
Arguments mkTar {R}. Arguments tar_source {R}. Arguments pending_body {R}. Arguments pending_padding {R}.
Arguments seen_paths {R}. Arguments tar_finished {R}. Arguments next_path_override {R}.
Arguments next_size_override {R}.

Definition padding_for (size : Z) : Z :=
  let remainder := size mod BLOCK in if remainder =? 0 then 0 else BLOCK - remainder.

Section Reader.
Context {R E : Type} `{ReadSource R E}.

Definition tar_new (source : R) : TarReader R := mkTar source 0 0 ∅ false None None.

Definition at_source (t : TarReader R) (source : R) (body padding : Z) : TarReader R :=
  mkTar source body padding (seen_paths t) (tar_finished t) (next_path_override t) (next_size_override t).

Definition io {A} (r : result E A) : result (Stop E) A := map_err (fun e => Refused (IoFailed e)) r.
Definition refuse {A} (r : result (ArchiveError E) A) : result (Stop E) A := map_err Refused r.
Definition invalid {A} (text : string) : result (Stop E) A := Err (Refused (ArchiveInvalid (Said text))).

Definition consume_padding (t : TarReader R) : result (Stop E) (TarReader R) :=
  if pending_padding t =? 0 then Ok t
  else
    let? (padding, source) := io (read_full (Z.to_nat (pending_padding t)) (tar_source t)) in
    if zlen padding <? pending_padding t then invalid "archive ends inside member block padding"
    else Ok (at_source t source (pending_body t) 0).

(** The loop that reads a body in chunks, each handed to [sink]; a round gets a byte at
    least.  It returns the bytes observed, fewer than [remaining] only at the end of the
    source. *)
Fixpoint body_rounds {S} (sink : S -> bytes -> S) (rounds : nat) (remaining observed : Z) (s : S) (source : R) :
    result E (Z * S * R) :=
  match rounds with
  | O => Ok (observed, s, source)
  | S rounds =>
      if 0 <? remaining then
        let want := Z.min (64 * 1024) remaining in
        let? (chunk, source) := src_read (Z.to_nat want) source in
        match chunk with
        | [] => Ok (observed, s, source)
        | _ =>
            body_rounds sink rounds (remaining - zlen chunk) (observed + zlen chunk) (sink s chunk) source
        end
      else Ok (observed, s, source)
  end.

Definition read_body {S} (sink : S -> bytes -> S) (size : Z) (s : S) (source : R) : result E (Z * S * R) :=
  body_rounds sink (Z.to_nat size) size 0 s source.

Definition skip_pending (t : TarReader R) : result (Stop E) (TarReader R) :=
  let? t :=
    (if 0 <? pending_body t then
       let? (observed, _, source) := io (read_body (fun s _ => s) (pending_body t) tt (tar_source t)) in
       if observed <? pending_body t then invalid "archive ends inside a member body"
       else Ok (at_source t source 0 (pending_padding t))
     else Ok t) in
  consume_padding t.

(** [read_member_body]: the body goes to the hasher and to [sink]. *)
Definition read_member_body {S} (sink : S -> bytes -> S) (header : TarMemberHeader) (s : S) (t : TarReader R) :
    result (Stop E) (TarMemberObservation * S * TarReader R) :=
  let? (observed, (hasher, s), source) :=
    io (read_body (fun '(hasher, s) chunk => (update hasher chunk, sink s chunk)) (pending_body t) (new, s)
          (tar_source t)) in
  if observed <? pending_body t
  then Err (Refused (MemberSizeMismatch (th_path header) (th_size header) observed))
  else
    let? t := consume_padding (at_source t source 0 (pending_padding t)) in
    Ok (mkObservation (th_path header) (th_size header) (finalize hasher), s, t).

Definition read_body_to_vec (size : Z) (t : TarReader R) : result (Stop E) (bytes * TarReader R) :=
  if MAX_PAX_BYTES <? size then Err (Refused (ArchiveInvalid (MetadataTooLarge size)))
  else
    let? (body, source) := io (read_full (Z.to_nat size) (tar_source t)) in
    if zlen body <? size then invalid "archive ends inside a metadata member"
    else
      let? t := consume_padding (at_source t source (pending_body t) (padding_for size)) in
      Ok (body, t).

(** The overrides of [apply_pax]: a path and a size. *)
Definition overrides : Type := option string * option Z.

Definition pax_record (key value : bytes) (o : overrides) : result (Stop E) overrides :=
  if bool_decide (key = bytes_of_string "path") then
    let? text := ok_or (from_utf8 value) (Refused (PathInvalid (Said "<non-utf8 pax path>"))) in
    Ok (Some text, o.2)
  else if bool_decide (key = bytes_of_string "size") then
    let? size := ok_or (from_str_radix 10 value) (Refused (ArchiveInvalid (Said "pax size is not a number"))) in
    Ok (o.1, Some size)
  else if bool_decide (key = bytes_of_string "linkpath")
  then Err (Refused (LinkUnsupported (string_of_bytes value)))
  else Ok o.

(** The loop over the records from [cursor]; each is two bytes at least. *)
Fixpoint pax_rounds (rounds : nat) (records : bytes) (cursor : Z) (o : overrides) : result (Stop E) overrides :=
  match rounds with
  | O => Ok o
  | S rounds =>
      if cursor <? zlen records then
        match index_of 32 (drop (Z.to_nat cursor) records) with
        | None => invalid "pax record has no length delimiter"
        | Some space =>
            match from_str_radix 10 (take space (drop (Z.to_nat cursor) records)) with
            | None => invalid "pax record length is not a number"
            | Some length_ =>
                let space := Z.of_nat space in
                if length_ <? space + 2 then invalid "pax record length is out of range"
                else
                  match checked_add cursor length_ with
                  | None => Err Panicked
                  | Some stop =>
                      if zlen records <? stop then invalid "pax record length is out of range"
                      else
                        let body := slice (Z.to_nat (cursor + space + 1)) (Z.to_nat (stop - 1)) records in
                        let? o :=
                          match index_of 61 body with
                          | Some equals => pax_record (take equals body) (drop (S equals) body) o
                          | None => Ok o
                          end in
                        pax_rounds rounds records stop o
                  end
            end
        end
      else Ok o
  end.

Definition apply_pax (records : bytes) (t : TarReader R) : result (Stop E) (TarReader R) :=
  let? o := pax_rounds (length records) records 0 (next_path_override t, next_size_override t) in
  Ok (mkTar (tar_source t) (pending_body t) (pending_padding t) (seen_paths t) (tar_finished t) o.1 o.2).

Inductive BlockRead : Type := Full | Short (count : Z) | Eof.

Definition read_block (source : R) : result (Stop E) (BlockRead * bytes * R) :=
  let? (block, source) := io (read_full (Z.to_nat BLOCK) source) in
  let filled := zlen block in
  Ok (if filled =? BLOCK then Full else if filled =? 0 then Eof else Short filled, block, source).

Definition all_zero (l : bytes) : bool := forallb (fun byte => byte =? 0) l.

(** The loop over the blocks behind the end marker. *)
Fixpoint check_no_trailing_data (fuel : nat) (source : R) : option (result (Stop E) R) :=
  match fuel with
  | O => None
  | S fuel =>
      match io (read_full (Z.to_nat BLOCK) source) with
      | Err e => Some (Err e)
      | Ok (chunk, source) =>
          if zlen chunk =? 0 then Some (Ok source)
          else if negb (all_zero chunk) then Some (invalid "non-zero bytes follow the archive end marker")
          else if zlen chunk <? BLOCK then Some (Ok source)
          else check_no_trailing_data fuel source
      end
  end.

(** The end of [next_member], behind a first zero block. *)
Definition end_marker (fuel : nat) (t : TarReader R) : option (result (Stop E) (option TarMemberHeader * TarReader R)) :=
  match read_block (tar_source t) with
  | Err e => Some (Err e)
  | Ok (Full, second, source) =>
      if all_zero second then
        match check_no_trailing_data fuel source with
        | None => None
        | Some (Err e) => Some (Err e)
        | Some (Ok source) =>
            Some (Ok (None, mkTar source (pending_body t) (pending_padding t) (seen_paths t) true
                              (next_path_override t) (next_size_override t)))
        end
      else Some (invalid "end marker is not two zero blocks")
  | Ok (_, _, _) => Some (invalid "end marker is not two zero blocks")
  end.

Definition is_flag (type_flag : Z) (flags : string) : bool := bool_decide (type_flag ∈ bytes_of_string flags).

(** The arms for metadata members; [None] for the others. *)
Definition metadata (type_flag declared_size : Z) (t : TarReader R) : option (result (Stop E) (TarReader R)) :=
  if is_flag type_flag "xX" then
    Some (let? (records, t) := read_body_to_vec declared_size t in apply_pax records t)
  else if is_flag type_flag "gK" then
    Some (let? (_, t) := read_body_to_vec declared_size t in Ok t)
  else if is_flag type_flag "L" then
    Some (let? (raw, t) := read_body_to_vec declared_size t in
          let? name := ok_or (from_utf8 (strip_nul raw)) (Refused (PathInvalid (Said "<non-utf8 gnu long name>"))) in
          Ok (mkTar (tar_source t) (pending_body t) (pending_padding t) (seen_paths t) (tar_finished t)
                (Some name) (next_size_override t)))
  else None.

(** The member of a header that is not metadata. *)
Definition member (header : bytes) (type_flag declared_size : Z) (t : TarReader R) :
    result (Stop E) (TarMemberHeader * TarReader R) :=
  let? raw_path :=
    match next_path_override t with Some path => Ok path | None => refuse (header_path header) end in
  let size := default declared_size (next_size_override t) in
  let? path := refuse (validate_path raw_path) in
  let? _ :=
    (if (type_flag =? 48) || (type_flag =? 0) || (type_flag =? 55) then Ok tt
     else if (type_flag =? 49) || (type_flag =? 50) then Err (Refused (LinkUnsupported path))
     else Err (Refused (MemberTypeUnsupported path type_flag))) in
  if bool_decide (path ∈ seen_paths t) then Err (Refused (PathDuplicate path))
  else
    let? mode := refuse (parse_octal (slice 100 108 header) "mode") in
    let mode := wrap 32 mode in
    Ok (mkHeader path size mode,
        mkTar (tar_source t) size (padding_for size) ({[path]} ∪ seen_paths t) (tar_finished t) None None).

(** The loop of [next_member]; a round reads a block at least. *)
Fixpoint member_rounds (fuel : nat) (t : TarReader R) :
    option (result (Stop E) (option TarMemberHeader * TarReader R)) :=
  match fuel with
  | O => None
  | S fuel =>
      match read_block (tar_source t) with
      | Err e => Some (Err e)
      | Ok (Eof, _, _) => Some (invalid "archive ends without the two-block end marker")
      | Ok (Short count, _, _) => Some (Err (Refused (ArchiveInvalid (PartialBlock count))))
      | Ok (Full, header, source) =>
          let t := at_source t source (pending_body t) (pending_padding t) in
          if all_zero header then end_marker fuel t
          else
            match refuse (verify_checksum header) with
            | Err e => Some (Err e)
            | Ok _ =>
                let type_flag := header !!! 156%nat in
                match refuse (parse_octal (slice 124 136 header) "size") with
                | Err e => Some (Err e)
                | Ok declared_size =>
                    match metadata type_flag declared_size t with
                    | Some (Err e) => Some (Err e)
                    | Some (Ok t) => member_rounds fuel t
                    | None =>
                        Some (let? (header, t) := member header type_flag declared_size t in Ok (Some header, t))
                    end
                end
            end
      end
  end.

Definition next_member (fuel : nat) (t : TarReader R) :
    option (result (Stop E) (option TarMemberHeader * TarReader R)) :=
  if tar_finished t then Some (Ok (None, t))
  else
    match skip_pending t with
    | Err e => Some (Err e)
    | Ok t => member_rounds fuel t
    end.

(** The callers' loop: every member's body is read and observed. *)
Fixpoint observe_rounds (fuel : nat) (t : TarReader R) : option (result (Stop E) (list TarMemberObservation)) :=
  match fuel with
  | O => None
  | S fuel' =>
      match next_member fuel t with
      | None => None
      | Some (Err e) => Some (Err e)
      | Some (Ok (None, _)) => Some (Ok [])
      | Some (Ok (Some header, t)) =>
          match read_member_body (fun (s : unit) _ => s) header tt t with
          | Err e => Some (Err e)
          | Ok (o, _, t) =>
              match observe_rounds fuel' t with
              | Some (Ok rest) => Some (Ok (o :: rest))
              | r => r
              end
          end
      end
  end.

Definition observe_archive (fuel : nat) (source : R) : option (result (Stop E) (list TarMemberObservation)) :=
  observe_rounds fuel (tar_new source).
End Reader.

(** ** Paths *)

Lemma split_slash_cons c l : c <> 47 -> exists component rest,
  split_slash l = component :: rest /\ split_slash (c :: l) = (c :: component) :: rest.
Proof.
  intros Hc. cbn [split_slash]. destruct (Z.eqb_spec c 47); [done|].
  destruct (split_slash l) as [|component rest] eqn:E; [|eauto].
  destruct l as [|d l]; [done|]. cbn in E. destruct (d =? 47); [done|]. by destruct (split_slash l).
Qed.

Lemma split_slash_nonempty l : split_slash l <> [].
Proof.
  destruct l as [|c l]; [done|]. destruct (decide (c = 47)) as [->|Hc]; [done|].
  destruct (split_slash_cons c l Hc) as (component & rest & _ & ->). done.
Qed.

Lemma join_split l : join_slash (split_slash l) = l.
Proof.
  induction l as [|c l IH]; [done|]. destruct (decide (c = 47)) as [->|Hc].
  - cbn [split_slash Z.eqb Pos.eqb]. pose proof (split_slash_nonempty l). cbn [join_slash].
    destruct (split_slash l) eqn:E; [done|]. by rewrite <- IH.
  - destruct (split_slash_cons c l Hc) as (component & rest & E & ->). rewrite E in IH. cbn [join_slash] in *.
    destruct rest; by rewrite <- IH.
Qed.

Lemma split_components l : Forall (fun component => 47 ∉ component) (split_slash l).
Proof.
  induction l as [|c l IH]; [constructor; [by apply not_elem_of_nil|done]|].
  destruct (decide (c = 47)) as [->|Hc]; [constructor; [apply not_elem_of_nil|done]|].
  destruct (split_slash_cons c l Hc) as (component & rest & E & ->). rewrite E in IH.
  inversion IH; subst. constructor; [|done]. by apply not_elem_of_cons.
Qed.

Lemma split_app component l :
  47 ∉ component -> split_slash (component ++ 47 :: l) = component :: split_slash l.
Proof.
  induction component as [|c component IH]; intros Hc; [done|]. apply not_elem_of_cons in Hc as [Hne Hc].
  cbn [app split_slash]. destruct (Z.eqb_spec c 47); [done|]. by rewrite IH.
Qed.

Lemma split_one component : 47 ∉ component -> split_slash component = [component].
Proof.
  induction component as [|c component IH]; intros Hc; [done|]. apply not_elem_of_cons in Hc as [Hne Hc].
  cbn [split_slash]. destruct (Z.eqb_spec c 47); [done|]. by rewrite IH.
Qed.

Lemma split_join components :
  components <> [] -> Forall (fun component => 47 ∉ component) components ->
  split_slash (join_slash components) = components.
Proof.
  intros Hne Hall. induction Hall as [|component components Hc Hall IH]; [done|].
  destruct components as [|next components]; [by apply split_one|].
  change (join_slash (component :: next :: components)) with (component ++ 47 :: join_slash (next :: components)).
  by rewrite split_app, IH.
Qed.

Lemma has_control_slash l k : has_control (l ++ 47 :: k) = has_control l || has_control k.
Proof.
  induction l as [|c l IH]; [done|]. cbn [app has_control]. rewrite IH.
  destruct l as [|d l]; cbn [app]; destruct (c <? 32), (c =? 127), (c =? 0xc2); cbn [orb andb]; try done.
  by destruct (in_range 128 159 d).
Qed.

Lemma has_control_join components : has_control (join_slash components) = existsb has_control components.
Proof.
  induction components as [|component components IH]; [done|].
  destruct components as [|next components]; [cbn; by rewrite orb_false_r|].
  change (join_slash (component :: next :: components)) with (component ++ 47 :: join_slash (next :: components)).
  by rewrite has_control_slash, IH.
Qed.

Lemma elem_join b components :
  b <> 47 -> (b ∈ join_slash components) <-> Exists (fun component => b ∈ component) components.
Proof.
  intros Hb. induction components as [|component components IH].
  { split; intros H; [by apply elem_of_nil in H|by apply Exists_nil in H]. }
  destruct components as [|next components].
  { rewrite Exists_cons, Exists_nil. cbn. tauto. }
  change (join_slash (component :: next :: components)) with (component ++ 47 :: join_slash (next :: components)).
  rewrite elem_of_app, elem_of_cons, IH, (Exists_cons _ component). tauto.
Qed.

Lemma length_join_filter (P : bytes -> Prop) `{!forall x, Decision (P x)} components :
  (length (join_slash (filter P components)) <= length (join_slash components))%nat.
Proof.
  assert (forall component components, (length (join_slash components) <= length (join_slash (component :: components)))%nat /\
    (length (join_slash (component :: components)) <= length component + 1 + length (join_slash components))%nat /\
    (components <> [] -> length (join_slash (component :: components)) = length component + 1 + length (join_slash components))%nat)
    as Hstep.
  { intros c [|n cs]; cbn [join_slash length]; [split_and!; [lia|lia|done]|]. rewrite length_app. cbn [length]. lia. }
  induction components as [|component components IH]; [done|]. rewrite filter_cons. destruct (decide _).
  - destruct (Hstep component (filter P components)) as (_ & H1 & H2).
    destruct (Hstep component components) as (_ & _ & H4).
    destruct components as [|next components]; [done|]. specialize (H4 ltac:(done)). lia.
  - destruct (Hstep component components) as (H3 & _). lia.
Qed.

(** A member path that names a file below the directory it is joined to, on any host. *)
Definition safe_path (path : string) : Prop :=
  zlen (bytes_of_string path) <= MAX_PATH_LEN /\ (92 ∉ bytes_of_string path) /\
  has_control (bytes_of_string path) = false /\
  exists components, bytes_of_string path = join_slash components /\ components <> [] /\
    Forall (fun component => component <> [] /\ component <> dot /\ component <> dot_dot /\ 47 ∉ component) components.

Lemma stays_inside_plain depth components :
  0 <= depth -> dot_dot ∉ components -> stays_inside depth components = true.
Proof.
  revert depth. induction components as [|component components IH]; intros depth Hd Hn; [done|].
  apply not_elem_of_cons in Hn as [Hne Hn]. cbn [stays_inside]. case_bool_decide; [by apply IH|].
  case_bool_decide; [by subst|]. apply IH; [lia|done].
Qed.

Lemma dots_elem (components : list bytes) :
  (dot_dot ∈ components) <-> (dot_dot ∈ filter (fun component => component <> [] /\ component <> dot) components).
Proof.
  rewrite list_elem_of_filter. split; [intros ?; split; [split; discriminate|done]|by intros [_ ?]].
Qed.

Lemma has_control_nul l : 0 ∈ l -> has_control l = true.
Proof.
  induction l as [|c l IH]; intros H; [by apply elem_of_nil in H|]. cbn [has_control].
  apply elem_of_cons in H as [<-|H]; [done|]. rewrite IH by done. by rewrite orb_true_r.
Qed.

Definition plain_components (l : bytes) : list bytes :=
  filter (fun component => component <> [] /\ component <> dot) (split_slash l).

(** [validate_path] on every path. *)
Lemma validate_path_ok {E} raw path :
  @validate_path E raw = Ok path <->
    let l := bytes_of_string raw in
    zlen l <= MAX_PATH_LEN /\ head l <> Some 47 /\ (92 ∉ l) /\ has_control l = false /\
    (dot_dot ∉ split_slash l) /\ plain_components l <> [] /\
    path = string_of_bytes (join_slash (plain_components l)).
Proof.
  cbn zeta. unfold validate_path. fold (plain_components (bytes_of_string raw)).
  set (l := bytes_of_string raw).
  destruct (decide (l = [])) as [Hl|Hl].
  { rewrite bool_decide_eq_true_2 by done. rewrite Hl. split; [done|]. by intros (_ & _ & _ & _ & _ & [] & _). }
  rewrite bool_decide_eq_false_2 by done. destruct (Z.ltb_spec MAX_PATH_LEN (zlen l)); [split; [done|lia]|].
  case_bool_decide; [split; [done|tauto]|]. case_bool_decide; [split; [done|tauto]|].
  destruct (has_control l) eqn:Hc; [rewrite orb_true_r; split; [done|]; intros; by destruct_and?|].
  rewrite bool_decide_eq_false_2 by (intros Hnul; apply has_control_nul in Hnul; congruence). cbn [orb].
  destruct (decide (dot_dot ∈ split_slash l)) as [Hd|Hd].
  - assert (plain_components l <> []) by (intros E0; rewrite dots_elem in Hd; fold (plain_components l) in Hd; rewrite E0 in Hd;
      by apply elem_of_nil in Hd).
    rewrite (bool_decide_eq_false_2 (plain_components l = [])) by done.
    rewrite (bool_decide_eq_true_2 (dot_dot ∈ plain_components l)) by (unfold plain_components; by rewrite <- dots_elem).
    split; [by case_match|tauto].
  - rewrite stays_inside_plain by done. cbn [negb]. case_bool_decide; [split; [done|tauto]|].
    rewrite bool_decide_eq_false_2 by (unfold plain_components; by rewrite <- dots_elem).
    split; [intros [= <-]; split_and!; done || lia|]. intros. destruct_and?. by subst.
Qed.

Lemma join_bytes_ok components : Forall bytes_ok components -> bytes_ok (join_slash components).
Proof.
  intros H. induction H as [|component components Hc H IH]; [constructor|].
  destruct components; [done|]. apply Forall_app. split; [done|]. constructor; [unfold u8, U8_MAX; lia|done].
Qed.

Lemma split_bytes_ok l : bytes_ok l -> Forall bytes_ok (split_slash l).
Proof.
  intros H. induction H as [|c l Hc H IH]; [repeat constructor|].
  destruct (decide (c = 47)) as [->|Hne]; [constructor; [constructor|done]|].
  destruct (split_slash_cons c l Hne) as (component & rest & E & ->). rewrite E in IH. inversion IH; subst.
  constructor; [by constructor|done].
Qed.

Lemma validated_bytes raw :
  bytes_of_string (string_of_bytes (join_slash (plain_components (bytes_of_string raw)))) =
    join_slash (plain_components (bytes_of_string raw)).
Proof.
  apply bytes_of_string_of_bytes, join_bytes_ok, Forall_forall. intros component Hin.
  apply list_elem_of_filter in Hin as [_ Hin]. pose proof (split_bytes_ok _ (bytes_of_string_ok raw)) as H.
  rewrite Forall_forall in H. by apply H.
Qed.

Lemma validated_safe {E} raw path : @validate_path E raw = Ok path -> safe_path path.
Proof.
  rewrite validate_path_ok. cbn zeta. set (l := bytes_of_string raw).
  intros (Hlen & _ & Hb & Hc & Hd & Hne & ->). pose proof (validated_bytes raw) as Hv. fold l in Hv.
  unfold safe_path. rewrite Hv. rewrite <- (join_split l) in Hlen, Hb, Hc. split_and!.
  - unfold zlen in *. pose proof (length_join_filter (fun c => c <> [] /\ c <> dot) (split_slash l)).
    unfold plain_components. lia.
  - rewrite elem_join in Hb |- * by done. intros H. apply Hb. rewrite Exists_exists in H |- *.
    destruct H as (c & Hin & H). exists c. by apply list_elem_of_filter in Hin as [_ Hin].
  - rewrite has_control_join in Hc |- *. apply not_true_iff_false. intros H. apply existsb_exists in H as (c & Hin & H).
    apply list_elem_of_In, list_elem_of_filter in Hin as [_ Hin]. apply not_true_iff_false in Hc. apply Hc.
    apply existsb_exists. exists c. by rewrite <- list_elem_of_In.
  - exists (plain_components l). split_and!; [done|done|]. apply Forall_forall. intros c Hin.
    apply list_elem_of_filter in Hin as [[H1 H2] Hin]. split_and!; [done|done| |].
    + intros ->. done.
    + pose proof (split_components l) as H. rewrite Forall_forall in H. by apply H.
Qed.

Lemma safe_validated {E} path : safe_path path -> @validate_path E path = Ok path.
Proof.
  intros (Hlen & Hb & Hc & components & Hj & Hne & Hall). apply validate_path_ok. cbn zeta.
  assert (Forall (fun component => 47 ∉ component) components) as Hs.
  { eapply Forall_impl; [exact Hall|]. by intros c (_ & _ & _ & ?). }
  assert (split_slash (bytes_of_string path) = components) as Hsplit by (by rewrite Hj, split_join).
  assert (plain_components (bytes_of_string path) = components) as Hplain.
  { unfold plain_components. rewrite Hsplit. clear -Hall. induction Hall as [|c l (H1 & H2 & _) _ IH]; [done|].
    rewrite filter_cons, decide_True by done. by rewrite IH. }
  rewrite Hplain, Hsplit. split_and!; try done.
  - rewrite Hj. inversion Hall as [|c l (H1 & _ & _ & H2) _]; subst; [done|].
    destruct c as [|b c]; [done|]. apply not_elem_of_cons in H2 as [H2 _]. destruct l; cbn; congruence.
  - intros Hin. rewrite Forall_forall in Hall. by apply Hall in Hin as (_ & _ & ? & _).
  - by rewrite <- Hj, string_of_bytes_of_string.
Qed.

(** ** Independence of the source *)

Section Body.
Context {R E : Type} `{SourceLaws R E}.

(** What a body's chunks come to. *)
Lemma body_rounds_spec {S} (sink : S -> bytes -> S) rounds remaining observed s (r : R) data err :
  remaining <= Z.of_nat rounds -> 0 <= remaining -> src_delivers r (data, err) ->
  match body_rounds sink rounds remaining observed s r with
  | Ok (observed', s', r') => exists chunks, s' = foldl sink s chunks /\
      concat chunks = take (Z.to_nat remaining) data /\ observed' = observed + zlen (concat chunks) /\
      if remaining <=? zlen data then src_delivers r' (drop (Z.to_nat remaining) data, err) else err = None
  | Err e => err = Some e /\ zlen data < remaining
  end.
Proof.
  revert remaining observed s r data. induction rounds as [|rounds IH]; intros remaining observed s r data Hle Hnn Hr.
  { assert (remaining = 0) as -> by lia. exists []. cbn [foldl concat]. change (Z.to_nat 0) with 0%nat.
    rewrite drop_0. pose proof (zlen_nonneg data). destruct (Z.leb_spec 0 (zlen data)); [|lia].
    rewrite zlen_nil, Z.add_0_r. split_and!; done || lia. }
  cbn [body_rounds]. destruct (Z.ltb_spec 0 remaining).
  2: { assert (remaining = 0) as -> by lia. exists []. cbn [foldl concat]. change (Z.to_nat 0) with 0%nat.
    rewrite drop_0. pose proof (zlen_nonneg data). destruct (Z.leb_spec 0 (zlen data)); [|lia].
    rewrite zlen_nil, Z.add_0_r. split_and!; done || lia. }
  pose proof (src_read_ok (Z.to_nat (Z.min (64 * 1024) remaining)) r data err Hr ltac:(lia)) as Hread.
  destruct (src_read _ r) as [[chunk r']|e].
  2: { split; [tauto|]. unfold zlen. lia. }
  destruct chunk as [|b chunk].
  { destruct Hread as [-> ->]. exists []. cbn [foldl concat]. rewrite take_nil.
    rewrite zlen_nil, Z.add_0_r.
    destruct (Z.leb_spec remaining 0); [lia|]. done. }
  destruct Hread as (Hlen & rest & -> & Hr'). set (got := b :: chunk) in *.
  assert (0 < zlen got) as Hpos by (unfold got; rewrite zlen_cons; pose proof (zlen_nonneg chunk); lia).
  assert (zlen got <= remaining) as Hgot by (unfold zlen; lia).
  specialize (IH (remaining - zlen got) (observed + zlen got) (sink s got) r' rest ltac:(lia) ltac:(lia) Hr').
  destruct (body_rounds _ _ _ _ _ r') as [[[observed' s'] r'']|e]; rewrite zlen_app; [|destruct IH; split; [done|lia]].
  destruct IH as (chunks & -> & Hc & -> & Hrest). exists (got :: chunks). cbn [foldl concat]. split_and!; [done| | |].
  - rewrite Hc, take_app, (take_ge got) by (unfold zlen in *; lia). f_equal. f_equal. unfold zlen. lia.
  - rewrite zlen_app. lia.
  - destruct (Z.leb_spec (remaining - zlen got) (zlen rest)), (Z.leb_spec remaining (zlen got + zlen rest)); try lia; [|done].
    rewrite drop_app, (drop_ge got) by (unfold zlen in *; lia).
    replace (Z.to_nat remaining - length got)%nat with (Z.to_nat (remaining - zlen got)) by (unfold zlen; lia). done.
Qed.

Lemma read_body_spec {S} (sink : S -> bytes -> S) size s (r : R) data err :
  0 <= size -> src_delivers r (data, err) ->
  match read_body sink size s r with
  | Ok (observed, s', r') => exists chunks, s' = foldl sink s chunks /\
      concat chunks = take (Z.to_nat size) data /\ observed = Z.min size (zlen data) /\
      if size <=? zlen data then src_delivers r' (drop (Z.to_nat size) data, err) else err = None
  | Err e => err = Some e /\ zlen data < size
  end.
Proof.
  intros Hs Hr. pose proof (body_rounds_spec sink (Z.to_nat size) size 0 s r data err ltac:(lia) Hs Hr) as Hb.
  unfold read_body. destruct (body_rounds _ _ _ _ _ r) as [[[observed s'] r']|e]; [|done].
  destruct Hb as (chunks & -> & Hc & -> & Hrest). exists chunks. split_and!; [done|done| |done].
  rewrite Hc. unfold zlen. rewrite length_take. lia.
Qed.
End Body.

Section Same.
Context {R E : Type} `{SourceLaws R E}.

(** A reader in use, and the same one over the sequence its source delivers. *)
Definition same_reader (t : TarReader R) (u : TarReader (sequence E)) : Prop :=
  tar_finished t = false /\ src_delivers (tar_source t) (tar_source u) /\
  u = mkTar (tar_source u) (pending_body t) (pending_padding t) (seen_paths t) (tar_finished t)
        (next_path_override t) (next_size_override t).

Definition same_value {A} (x : A * TarReader R) (y : A * TarReader (sequence E)) : Prop :=
  x.1 = y.1 /\ same_reader x.2 y.2.

(** At the end of an archive the source is not used again. *)
Definition same_member (x : option TarMemberHeader * TarReader R)
    (y : option TarMemberHeader * TarReader (sequence E)) : Prop :=
  x.1 = y.1 /\ (x.1 <> None -> same_reader x.2 y.2).

Lemma agree_io {A B} (Rl : A -> B -> Prop) (x : result E A) (y : result E B) :
  agree Rl x y -> agree Rl (io x) (io y).
Proof using. apply agree_map_err. Qed.

Lemma at_source_same t u r s body padding :
  same_reader t u -> src_delivers r s ->
  same_reader (at_source t r body padding) (at_source u s body padding).
Proof using. intros (Hf & Hr & ->) Hs. unfold same_reader, at_source. cbn. done. Qed.

Lemma consume_padding_agree t u :
  same_reader t u -> agree same_reader (consume_padding t) (consume_padding u).
Proof using.
  intros Ht. pose proof Ht as (Hf & Hr & ->). unfold consume_padding. cbn [pending_padding tar_source].
  destruct (pending_padding t =? 0); [done|].
  eapply agree_bind; [apply agree_io, read_full_agree, Hr|]. intros [got r] [got' s] [Hg Hrest]. cbn in Hg. subst got'.
  destruct (Z.ltb_spec (zlen got) (pending_padding t)); [done|].
  apply (at_source_same t); [done|]. apply Hrest. cbn. unfold zlen in *. lia.
Qed.

Lemma read_body_agree {S S'} (sink : S -> bytes -> S) (sink' : S' -> bytes -> S') (Rl : S -> S' -> Prop) size s s' (r : R) q :
  src_delivers r q ->
  (forall cs cs', concat cs = concat cs' -> Rl (foldl sink s cs) (foldl sink' s' cs')) ->
  agree (fun x y => x.1.1 = y.1.1 /\ Rl x.1.2 y.1.2 /\ (size <= y.1.1 -> src_delivers x.2 y.2))
    (read_body sink size s r) (read_body sink' size s' q).
Proof using.
  intros Hr HR. destruct (Z.le_gt_cases 0 size) as [Hs|Hs].
  2: { unfold read_body. replace (Z.to_nat size) with 0%nat by lia. cbn. split_and!; [done|by apply (HR [] [])|done]. }
  destruct q as [data err] eqn:Eq. pose proof (read_body_spec sink size s r data err Hs Hr) as H1.
  rewrite <- Eq. pose proof (read_body_spec sink' size s' q data err Hs Eq) as H2.
  destruct (read_body sink size s r) as [[[o x] r']|e], (read_body sink' size s' q) as [[[o' x'] q']|e'].
  - destruct H1 as (cs & -> & Hc & -> & H1), H2 as (cs' & -> & Hc' & -> & H2). cbn [agree fst snd].
    split_and!; [done|apply HR; congruence|]. intros Hlen. destruct (Z.leb_spec size (zlen data)); [by rewrite H2|lia].
  - destruct H1 as (cs & -> & Hc & -> & H1), H2 as [-> H2]. destruct (Z.leb_spec size (zlen data)); [lia|done].
  - destruct H2 as (cs & -> & Hc & -> & H2), H1 as [-> H1]. destruct (Z.leb_spec size (zlen data)); [lia|done].
  - destruct H1 as [H1 _], H2 as [H2 _]. cbn. congruence.
Qed.

Lemma skip_pending_agree t u :
  same_reader t u -> agree same_reader (skip_pending t) (skip_pending u).
Proof using.
  intros Ht. pose proof Ht as (Hf & Hr & Hu). unfold skip_pending.
  eapply (agree_bind same_reader); [|intros; by apply consume_padding_agree]. rewrite Hu.
  cbn [pending_body tar_source pending_padding]. destruct (0 <? pending_body t); [|by rewrite <- Hu].
  eapply agree_bind.
  { apply agree_io, (read_body_agree _ _ (fun _ _ => True)); done. }
  intros [[o x] r] [[o' x'] s] (Ho & _ & Hrest). cbn in Ho. subst o'.
  destruct (Z.ltb_spec o (pending_body t)); [done|]. apply (at_source_same t); [|by apply Hrest].
  by rewrite <- Hu.
Qed.

Lemma read_member_body_agree header t u :
  same_reader t u ->
  agree same_value (read_member_body (fun (s : unit) _ => s) header tt t)
    (read_member_body (fun (s : unit) _ => s) header tt u).
Proof using.
  intros Ht. pose proof Ht as (Hf & Hr & Hu). unfold read_member_body. rewrite Hu. cbn [pending_body tar_source pending_padding].
  eapply agree_bind.
  { apply agree_io, (read_body_agree _ _ (fun x y => finalize x.1 = finalize y.1 /\ x.2 = y.2)); [done|].
    assert (forall cs h (s : unit), foldl (fun '(hasher, s) chunk => (update hasher chunk, s)) (h, s) cs =
      (foldl update h cs, s)) as Hpair by (induction cs as [|c cs IH]; intros h s; [done|apply IH]).
    intros cs cs' Hc. rewrite !Hpair. cbn [fst snd]. rewrite !streaming_spec, Hc. done. }
  intros [[o [h x]] r] [[o' [h' x']] s] (Ho & [Hh Hx] & Hrest). cbn in Ho, Hh, Hx. subst o'.
  destruct (Z.ltb_spec o (pending_body t)); [done|].
  eapply agree_bind; [apply consume_padding_agree, (at_source_same t); [by rewrite <- Hu|by apply Hrest]|].
  intros t' u' H'. split; [|done]. cbn. by rewrite Hh, Hx.
Qed.

Lemma read_body_to_vec_agree size t u :
  same_reader t u -> agree same_value (read_body_to_vec size t) (read_body_to_vec size u).
Proof using.
  intros Ht. pose proof Ht as (Hf & Hr & ->). unfold read_body_to_vec. cbn [pending_body tar_source].
  destruct (MAX_PAX_BYTES <? size); [done|].
  eapply agree_bind; [apply agree_io, read_full_agree, Hr|]. intros [got r] [got' s] [Hg Hrest]. cbn in Hg. subst got'.
  destruct (Z.ltb_spec (zlen got) size); [done|].
  eapply agree_bind; [apply consume_padding_agree, (at_source_same t)|].
  - done.
  - apply Hrest. cbn. unfold zlen in *. lia.
  - intros t' u' H'. done.
Qed.

Lemma refuse_agree {A} (Rl : A -> A -> Prop) (x : result (ArchiveError E) A) :
  (forall a, Rl a a) -> agree Rl (refuse x) (refuse x).
Proof using. intros HR. by apply agree_refl. Qed.

(** Overrides and paths do not touch the source. *)
Lemma set_fields_same t u body padding paths path size :
  same_reader t u ->
  same_reader (mkTar (tar_source t) body padding paths (tar_finished t) path size)
    (mkTar (tar_source u) body padding paths (tar_finished t) path size).
Proof using. intros (Hf & Hr & _). by unfold same_reader. Qed.

Lemma apply_pax_agree records t u :
  same_reader t u -> agree same_reader (apply_pax (E:=E) records t) (apply_pax records u).
Proof using.
  intros Ht. pose proof Ht as (Hf & Hr & Hu). unfold apply_pax.
  assert ((next_path_override t, next_size_override t) = (next_path_override u, next_size_override u)) as -> by (by rewrite Hu).
  destruct (pax_rounds _ _ _ _) as [o|e]; [|done]. cbn [agree]. rewrite Hu. by apply set_fields_same.
Qed.

(** Two results of a loop with fuel that agree. *)
Definition agree_fuel {X A B} (Rl : A -> B -> Prop) (x : option (result X A)) (y : option (result X B)) : Prop :=
  match x, y with Some x, Some y => agree Rl x y | None, None => True | _, _ => False end.

Lemma read_block_agree (r : R) (s : sequence E) :
  src_delivers r s ->
  agree (fun x y => x.1 = y.1 /\ (x.1.1 = Full -> src_delivers x.2 y.2)) (read_block r) (read_block s).
Proof using.
  intros Hr. unfold read_block. eapply agree_bind; [apply agree_io, read_full_agree, Hr|].
  intros [got r'] [got' s'] [Hg Hrest]. cbn [fst] in Hg. subst got'. cbn [agree fst snd] in *. split; [done|].
  destruct (Z.eqb_spec (zlen got) BLOCK) as [Hl|]; [|by destruct (zlen got =? 0)]. intros _. apply Hrest.
  unfold zlen in Hl. lia.
Qed.

Lemma no_trailing_agree fuel (r : R) (s : sequence E) :
  src_delivers r s -> agree_fuel (fun _ _ => True) (check_no_trailing_data fuel r) (check_no_trailing_data fuel s).
Proof using.
  revert r s. induction fuel as [|fuel IH]; intros r s Hr; [done|]. cbn [check_no_trailing_data].
  pose proof (agree_io _ _ _ (read_full_agree (Z.to_nat BLOCK) r s Hr)) as Hf.
  destruct (io (read_full _ r)) as [[got r']|e], (io (read_full _ s)) as [[got' s']|e']; cbn in Hf; try done.
  destruct Hf as [-> Hrest]. destruct (zlen got' =? 0); [done|]. destruct (negb _); [done|].
  destruct (Z.ltb_spec (zlen got') BLOCK); [done|]. apply IH, Hrest. unfold zlen in *. lia.
Qed.

Lemma end_marker_agree fuel t u :
  same_reader t u -> agree_fuel same_member (end_marker fuel t) (end_marker fuel u).
Proof using.
  intros Ht. pose proof Ht as (Hf & Hr & Hu). unfold end_marker.
  pose proof (read_block_agree _ _ Hr) as Hblock.
  destruct (read_block (tar_source t)) as [[[kind block] r]|e], (read_block (tar_source u)) as [[[kind' block'] s]|e'];
    cbn in Hblock; try done.
  destruct Hblock as [[= <- <-] Hrest]. destruct kind; [|done|done]. destruct (all_zero block); [|done].
  pose proof (no_trailing_agree fuel r s (Hrest eq_refl)) as Hn.
  destruct (check_no_trailing_data fuel r) as [[]|], (check_no_trailing_data fuel s) as [[]|]; cbn in Hn; try done.
Qed.

Lemma metadata_agree type_flag declared_size t u :
  same_reader t u -> agree_fuel same_reader (metadata type_flag declared_size t) (metadata type_flag declared_size u).
Proof using.
  intros Ht. pose proof (read_body_to_vec_agree declared_size t u Ht) as Hv. unfold metadata.
  destruct (is_flag type_flag "xX"); [|destruct (is_flag type_flag "gK"); [|destruct (is_flag type_flag "L"); [|done]]];
    cbn [agree_fuel]; (eapply agree_bind; [exact Hv|]); intros [x t'] [y u'] [Hx H']; cbn in Hx, H'; subst y.
  - by apply apply_pax_agree.
  - done.
  - destruct (from_utf8 _); [|done]. cbn. pose proof H' as (Hf & _ & Hu). rewrite Hu. by apply (set_fields_same t' u').
Qed.

Lemma member_agree header type_flag declared_size t u :
  same_reader t u ->
  agree same_value (member (E:=E) header type_flag declared_size t) (member header type_flag declared_size u).
Proof using.
  intros Ht. pose proof Ht as (Hf & Hr & Hu). unfold member. rewrite Hu.
  cbn [next_path_override next_size_override seen_paths tar_source tar_finished].
  destruct (match next_path_override t with Some _ => _ | None => _ end) as [raw|e]; [|done].
  destruct (refuse _) as [path|e]; [|done]. case_match; [|done]. case_bool_decide; [done|].
  destruct (refuse (parse_octal _ "mode")) as [mode|e]; [|done]. split; [done|]. by apply (set_fields_same t u).
Qed.

Lemma member_rounds_agree fuel t u :
  same_reader t u -> agree_fuel same_member (member_rounds fuel t) (member_rounds fuel u).
Proof using.
  revert t u. induction fuel as [|fuel IH]; intros t u Ht; [done|]. pose proof Ht as (Hf & Hr & Hu). cbn [member_rounds].
  pose proof (read_block_agree _ _ Hr) as Hblock.
  destruct (read_block (tar_source t)) as [[[kind header] r]|e], (read_block (tar_source u)) as [[[kind' header'] s]|e'];
    cbn in Hblock; try done.
  destruct Hblock as [[= <- <-] Hrest]. destruct kind; [|done|done]. specialize (Hrest eq_refl).
  assert (same_reader (at_source t r (pending_body t) (pending_padding t)) (at_source u s (pending_body u) (pending_padding u)))
    as Ht' by (rewrite Hu; apply (at_source_same t); [by rewrite <- Hu|done]).
  destruct (all_zero header); [by apply end_marker_agree|].
  destruct (refuse (verify_checksum header)) as [[]|e]; [|done].
  destruct (refuse (parse_octal _ "size")) as [size|e]; [|done].
  pose proof (metadata_agree (header !!! 156%nat) size _ _ Ht') as Hm.
  destruct (metadata _ _ (at_source t _ _ _)) as [[t'|e]|], (metadata _ _ (at_source u _ _ _)) as [[u'|e']|]; cbn in Hm; try done;
    [by apply IH|].
  eapply agree_bind; [by apply member_agree|]. intros [h t'] [h' u'] [Hh H']. cbn in Hh. subst h'. split; [done|]. by intros _.
Qed.

Lemma next_member_agree fuel t u :
  same_reader t u -> agree_fuel same_member (next_member fuel t) (next_member fuel u).
Proof using.
  intros Ht. pose proof (skip_pending_agree t u Ht) as Hs. pose proof Ht as (Hf & _ & Hu). unfold next_member.
  assert (tar_finished u = false) as -> by (by rewrite Hu). rewrite Hf.
  destruct (skip_pending t), (skip_pending u); cbn in Hs; try done. by apply member_rounds_agree.
Qed.

Lemma observe_rounds_agree fuel t u :
  same_reader t u -> agree_fuel (fun x y => x = y) (observe_rounds fuel t) (observe_rounds fuel u).
Proof using.
  revert t u. induction fuel as [|fuel IH]; intros t u Ht; [done|]. cbn [observe_rounds].
  pose proof (next_member_agree (S fuel) t u Ht) as Hn.
  destruct (next_member (S fuel) t) as [[[header t']|e]|], (next_member (S fuel) u) as [[[header' u']|e']|]; cbn in Hn; try done.
  destruct Hn as [Hh H']. cbn in Hh, H'. subst header'. destruct header as [header|]; [|done].
  pose proof (read_member_body_agree header t' u' (H' ltac:(done))) as Hb.
  destruct (read_member_body _ header tt t') as [[[o []] t'']|e], (read_member_body _ header tt u') as [[[o' []] u'']|e'];
    cbn in Hb; try done.
  destruct Hb as [[= <-] H'']. specialize (IH t'' u'' H'').
  unfold agree_fuel in IH.
  destruct (observe_rounds fuel t'') as [[]|], (observe_rounds fuel u'') as [[]|]; cbn in *; by subst.
Qed.

Lemma observe_same fuel (r : R) (s : sequence E) :
  src_delivers r s -> observe_archive fuel r = observe_archive fuel s.
Proof using.
  intros Hr. pose proof (observe_rounds_agree fuel (tar_new r) (tar_new s)) as Ha. unfold observe_archive.
  specialize (Ha ltac:(done)).
  unfold agree_fuel in Ha.
  destruct (observe_rounds fuel (tar_new r)) as [[]|], (observe_rounds fuel (tar_new s)) as [[]|]; cbn in *; by subst.
Qed.
End Same.
