(* ===== verification/TarSound.v ===== *)
(** * Accepted archives (crates/arkforge-artifact/src/tar.rs)

    Reading ends with one result for the bytes, whatever delivers them; an accepted archive
    has the layout of one, with its digests, and safe and distinct paths; and the archives
    the test suite's [TarBuilder] writes are read back. *)

From stdpp Require Import gmap.
From S2P Require Import Prelude Text Sha256 Bits Source Tar.

(** ** What an accepted archive is *)

(** A numeral: an optional plus sign and digits of the radix, ten at most. *)
Definition numeral (radix : Z) (text : bytes) (n : Z) : Prop :=
  exists sign digits, text = sign ++ digits /\ (sign = [] \/ sign = [43]) /\ digits <> [] /\
    Forall (fun c => 48 <= c < 48 + radix) digits /\ n = foldl (fun v c => v * radix + (c - 48)) 0 digits.

(** A numeric header field: base 256 behind its high bit, else octal digits up to a space or
    a NUL, a blank field being zero. *)
Definition octal_field (field : bytes) (n : Z) : Prop :=
  if Z.testbit (field !!! 0%nat) 7 then n = foldl (fun v byte => v * 256 + byte) 0 (drop 1 field)
  else
    exists text rest, field = text ++ rest /\ (0 ∉ text) /\ (32 ∉ text) /\
      (rest = [] \/ head rest = Some 0 \/ head rest = Some 32) /\
      (trim_latin1 text = [] /\ n = 0 \/ numeral 8 (trim_latin1 text) n).

(** The declared checksum is the sum of the header's bytes, signed or not, with its own field
    read as spaces. *)
Definition checksum_ok (header : bytes) : Prop :=
  exists declared, octal_field (slice 148 156 header) declared /\
    let summed := take 148 header ++ replicate 8 32 ++ drop 156 header in
    (declared = foldr Z.add 0 summed \/ as_i64 declared = foldr Z.add 0 (map as_i8 summed)).

(** The text of a field, up to its first NUL. *)
Definition text_of_field (field text : bytes) : Prop :=
  exists rest, field = text ++ rest /\ (0 ∉ text) /\ (rest = [] \/ head rest = Some 0).

(** The name a header gives, with the prefix of a [ustar] one. *)
Definition header_names (header raw : bytes) : Prop :=
  exists name prefix, text_of_field (slice 0 100 header) name /\ text_of_field (slice 345 500 header) prefix /\
    if bool_decide (slice 257 262 header = bytes_of_string "ustar" /\ prefix <> [])
    then raw = prefix ++ 47 :: name else raw = name.

(** The records of a pax header, each "length key=value" and a last byte: a path and a size
    replace what the next member's header says, other keys but [linkpath] change nothing. *)
Inductive pax_records : bytes -> overrides -> overrides -> Prop :=
| pax_end o : pax_records [] o o
| pax_path digits value last rest text o o' :
    bytes_of_string text = value ->
    pax_sized digits (bytes_of_string "path=" ++ value) -> pax_records rest (Some text, o.2) o' ->
    pax_records (digits ++ 32 :: (bytes_of_string "path=" ++ value) ++ last :: rest) o o'
| pax_size digits value last rest n o o' :
    numeral 10 value n ->
    pax_sized digits (bytes_of_string "size=" ++ value) -> pax_records rest (o.1, Some n) o' ->
    pax_records (digits ++ 32 :: (bytes_of_string "size=" ++ value) ++ last :: rest) o o'
| pax_other digits body last rest o o' :
    (forall key value, body = key ++ 61 :: value -> 61 ∉ key ->
       key <> bytes_of_string "path" /\ key <> bytes_of_string "size" /\ key <> bytes_of_string "linkpath") ->
    pax_sized digits body -> pax_records rest o o' ->
    pax_records (digits ++ 32 :: body ++ last :: rest) o o'
with pax_sized : bytes -> bytes -> Prop :=
| pax_length digits body : (32 ∉ digits) -> numeral 10 digits (zlen digits + 1 + zlen body + 1) -> pax_sized digits body.

(** What a metadata member does to the overrides: pax records, a GNU long name; global
    records and long link names are passed over. *)
Definition metadata_effect (type_flag : Z) (body : bytes) (o o' : overrides) : Prop :=
  if is_flag type_flag "xX" then pax_records body o o'
  else if is_flag type_flag "L" then exists text, text_of_field body (bytes_of_string text) /\ o' = (Some text, o.2)
  else is_flag type_flag "gK" = true /\ o' = o.

(** A run of metadata members, each with its checksummed header, its body of the declared
    size and its padding, and the overrides it leaves. *)
Inductive metadata_layout : bytes -> overrides -> overrides -> Prop :=
| metadata_none o : metadata_layout [] o o
| metadata_one header body padding rest o o1 o2 :
    zlen header = BLOCK -> checksum_ok header -> octal_field (slice 124 136 header) (zlen body) ->
    zlen padding = padding_for (zlen body) -> metadata_effect (header !!! 156%nat) body o o1 ->
    metadata_layout rest o1 o2 -> metadata_layout (header ++ body ++ padding ++ rest) o o2.

(** The header of a member: a regular file, of the path and the size that the metadata before
    it give or else its own fields, the path in normal form and relative. *)
Definition member_header (header : bytes) (o : overrides) (path : string) (size : Z) : Prop :=
  zlen header = BLOCK /\ checksum_ok header /\ header !!! 156%nat ∈ [48; 0; 55] /\
  (exists declared, octal_field (slice 124 136 header) declared /\ size = default declared o.2) /\
  exists raw, match o.1 with Some text => raw = bytes_of_string text | None => header_names header raw end /\
    head raw <> Some 47 /\ (dot_dot ∉ split_slash raw) /\
    bytes_of_string path = join_slash (plain_components raw).

(** An archive: for each member its metadata, its header, its body and the padding of its
    last block, and behind them an end marker of two zero blocks or more. *)
Inductive archive_layout : bytes -> list TarMemberObservation -> Prop :=
| layout_end metas zeros o :
    metadata_layout metas (None, None) o -> Forall (fun byte => byte = 0) zeros -> 2 * BLOCK <= zlen zeros ->
    archive_layout (metas ++ zeros) []
| layout_member metas header body padding rest overrides o members :
    metadata_layout metas (None, None) overrides -> member_header header overrides (to_path o) (to_size o) ->
    zlen body = to_size o -> to_sha256 o = sha256 body -> zlen padding = padding_for (to_size o) ->
    archive_layout rest members ->
    archive_layout (metas ++ header ++ body ++ padding ++ rest) (o :: members).

(** *** The code's readers of fields and records against them *)

Lemma radix_digits_value radix acc l n :
  2 <= radix <= 10 -> radix_digits radix acc l = Some n ->
  Forall (fun c => 48 <= c < 48 + radix) l /\ n = foldl (fun v c => v * radix + (c - 48)) acc l.
Proof.
  intros Hr. revert acc. induction l as [|c l IH]; intros acc; [by intros [= <-]|]. cbn [radix_digits].
  destruct (digit_value c) as [d|] eqn:Ed; [|done]. destruct (Z.ltb_spec d radix); [|done].
  destruct (_ <=? _); [|done]. intros H'. apply IH in H' as [Hl ->].
  assert (48 <= c <= 57 /\ d = c - 48) as [Hc ->].
  { unfold digit_value, in_range in Ed. repeat case_match; try done; injection Ed as <-; breflect; lia. }
  split; [|done]. constructor; [lia|done].
Qed.

Lemma from_str_radix_numeral radix l n :
  2 <= radix <= 10 -> from_str_radix radix l = Some n -> numeral radix l n.
Proof.
  intros Hr H. assert (exists sign digits, l = sign ++ digits /\ (sign = [] \/ sign = [43]) /\ digits <> [] /\
    radix_digits radix 0 digits = Some n) as (sign & digits & -> & Hs & Hne & Hd).
  { unfold from_str_radix in H. repeat case_match; try done; subst;
      first [by exists [43], l0; split_and!; [|right|intros ->|] | by eexists [], _; split_and!; [|left| |exact H]
            | idtac]. all: eexists [43], _; split_and!; [reflexivity|by right|done|exact H]. }
  apply radix_digits_value in Hd as [Hf ->]; [|done]. by exists sign, digits.
Qed.

Lemma take_while_split f l : exists rest, l = take_while f l ++ rest /\
  (forall c, c ∈ take_while f l -> f c = true) /\ (rest = [] \/ exists c k, rest = c :: k /\ f c = false).
Proof.
  induction l as [|c l IH]; [exists []; split_and!; [done|intros c H; by apply elem_of_nil in H|by left]|].
  cbn [take_while]. destruct (f c) eqn:Ec.
  - destruct IH as (rest & Hl & Ha & Hr). exists rest. cbn [app]. rewrite <- Hl. split_and!; [done| |done].
    intros d [->|Hd]%elem_of_cons; [done|by apply Ha].
  - exists (c :: l). split_and!; [done|intros d H; by apply elem_of_nil in H|right; by exists c, l].
Qed.

Lemma base_256_value {E} name v l n : @base_256 E name v l = Ok n -> n = foldl (fun v byte => v * 256 + byte) v l.
Proof. revert v. induction l as [|b l IH]; intros v; [by intros [= <-]|]. cbn. case_match; [apply IH|done]. Qed.

Lemma high_bit b : negb (Z.land b 0x80 =? 0) = Z.testbit b 7.
Proof.
  destruct (Z.testbit b 7) eqn:Hb.
  - destruct (Z.eqb_spec (Z.land b 0x80) 0) as [Hz|]; [|done]. apply (f_equal (fun z => Z.testbit z 7)) in Hz.
    rewrite Z.land_spec, Hb in Hz. done.
  - assert (Z.land b 0x80 = 0) as ->; [|done]. apply Z.bits_inj'. intros i Hi. rewrite Z.land_spec, Z.bits_0.
    change 0x80 with (2 ^ 7). rewrite Z.pow2_bits_eqb by lia. destruct (Z.eqb_spec 7 i) as [<-|]; [by rewrite Hb|].
    by rewrite andb_false_r.
Qed.

Lemma parse_octal_field {E} field name n : @parse_octal E field name = Ok n -> octal_field field n.
Proof.
  unfold parse_octal, octal_field. rewrite high_bit. destruct (Z.testbit _ 7); [apply base_256_value|].
  set (text := take_while _ field). intros Hn.
  destruct (take_while_split (fun byte => negb (byte =? 0) && negb (byte =? 32)) field) as (rest & Hf & Ha & Hr).
  fold text in Hf, Ha. exists text, rest. split_and!; [done|intros H; by apply Ha in H|intros H; by apply Ha in H| |].
  - destruct Hr as [->|(c & k & -> & Hc)]; [by left|]. right. cbn.
    destruct (Z.eqb_spec c 0) as [->|]; [by left|]. destruct (Z.eqb_spec c 32) as [->|]; [by right|done].
  - destruct (trim_latin1 text) as [|c l]; [injection Hn as <-; by left|]. right.
    destruct (from_str_radix 8 (c :: l)) eqn:Er; [|done]. injection Hn as <-. by apply from_str_radix_numeral.
Qed.

Lemma verify_checksum_ok {E} header : @verify_checksum E header = Ok tt -> checksum_ok header.
Proof.
  unfold verify_checksum. destruct (parse_octal _ _) as [declared|e] eqn:Ed; [|done].
  intros H. exists declared. split; [by eapply parse_octal_field|]. cbn zeta.
  unfold sum_list, checksum_bytes in H. destruct (_ || _) eqn:Eo; [|done].
  apply orb_true_iff in Eo as [Eo|Eo]; apply Z.eqb_eq in Eo; [by left|by right].
Qed.

Lemma index_of_split b l : match index_of b l with
  | Some i => exists k, l = take i l ++ b :: k /\ (b ∉ take i l) /\ drop (S i) l = k /\ length (take i l) = i
  | None => b ∉ l
  end.
Proof.
  induction l as [|c l IH]; [apply not_elem_of_nil|]. cbn [index_of]. destruct (Z.eqb_spec c b) as [->|Hne].
  { exists l. split_and!; [done|apply not_elem_of_nil|done|done]. }
  destruct (index_of b l) as [i|]; cbn [option_map].
  - destruct IH as (k & Hl & Hn & Hd & Hi). exists k. cbn [take drop app length]. rewrite <- Hl, Hi.
    split_and!; [done| |done|done]. by apply not_elem_of_cons.
  - by apply not_elem_of_cons.
Qed.

Lemma strip_nul_text l : text_of_field l (strip_nul l).
Proof.
  unfold strip_nul. pose proof (index_of_split 0 l) as H. destruct (index_of 0 l) as [i|].
  - destruct H as (k & Hl & Hn & _). exists (0 :: k). split_and!; [done|done|by right].
  - exists []. rewrite app_nil_r. split_and!; [done|done|by left].
Qed.

Lemma slice_bytes_ok start stop l : bytes_ok l -> bytes_ok (slice start stop l).
Proof. intros H. unfold slice. by apply Forall_take, Forall_drop. Qed.

Lemma strip_nul_bytes l : bytes_ok l -> bytes_ok (strip_nul l).
Proof. intros H. unfold strip_nul. case_match; [by apply Forall_take|done]. Qed.

Lemma header_path_names {E} header raw :
  bytes_ok header -> @header_path E header = Ok raw -> header_names header (bytes_of_string raw).
Proof.
  intros Hok. unfold header_path. set (name := strip_nul (slice 0 100 header)). set (prefix := strip_nul (slice 345 500 header)).
  assert (bytes_ok name) by (by apply strip_nul_bytes, slice_bytes_ok).
  assert (bytes_ok prefix) by (by apply strip_nul_bytes, slice_bytes_ok).
  destruct (from_utf8 _) as [text|] eqn:Eu; [|done]. intros [= <-]. apply from_utf8_Some in Eu as [Hb _].
  2: { apply bytes_ok_app. split; [|done]. case_match; [|constructor]. apply bytes_ok_app. split; [done|].
    apply bytes_ok_cons; [unfold u8, U8_MAX; lia|constructor]. }
  exists name, prefix. split_and!; [apply strip_nul_text|apply strip_nul_text|]. rewrite Hb.
  destruct (decide (slice 257 262 header = bytes_of_string "ustar")) as [Hm|Hm].
  - rewrite (bool_decide_eq_true_2 (slice _ _ _ = _)) by done. destruct (decide (prefix = [])) as [->|Hp].
    + rewrite bool_decide_eq_false_2 by tauto. done.
    + rewrite (bool_decide_eq_false_2 (prefix = [])) by done. rewrite bool_decide_eq_true_2 by done.
      cbn [andb negb]. by rewrite <- app_assoc.
  - rewrite (bool_decide_eq_false_2 (slice _ _ _ = _)) by done. rewrite bool_decide_eq_false_2 by tauto. done.
Qed.

Section Accepted.
Context {E : Type}.
Implicit Types (u : TarReader (sequence E)) (err : option E).

Lemma padding_nonneg size : 0 <= padding_for size.
Proof. unfold padding_for, BLOCK. pose proof (Z.mod_pos_bound size 512). case_match; lia. Qed.

Lemma padding_fills size : (size + padding_for size) mod BLOCK = 0.
Proof.
  unfold padding_for, BLOCK. destruct (Z.eqb_spec (size mod 512) 0) as [H|H]; [by rewrite Z.add_0_r|].
  replace (size + (512 - size mod 512)) with ((1 + size / 512) * 512); [by rewrite Z.mod_mul|].
  pose proof (Z.div_mod size 512). lia.
Qed.

(** The parts a reader has taken from the front of its source. *)
Lemma fill_whole count u data err got s :
  tar_source u = (data, err) -> io (read_full (Z.to_nat count) (tar_source u)) = Ok (got, s) ->
  count <= zlen got -> 0 <= count -> exists rest, data = got ++ rest /\ zlen got = count /\ s = (rest, err).
Proof.
  intros Hu Hf Hle Hc. pose proof (read_full_spec (Z.to_nat count) (tar_source u) data err Hu) as H.
  destruct (read_full _ _) as [[got' s']|e]; [|done]. injection Hf as <- <-. destruct H as [-> H].
  exists (drop (Z.to_nat count) data). unfold zlen in *. rewrite length_take in *. rewrite take_drop.
  destruct (Nat.leb_spec (Z.to_nat count) (length data)); [|lia]. split_and!; [done|lia|done].
Qed.

Lemma consume_padding_takes u data err u' :
  tar_source u = (data, err) -> 0 <= pending_padding u -> consume_padding u = Ok u' ->
  exists padding rest, data = padding ++ rest /\ zlen padding = pending_padding u /\
    u' = at_source u (rest, err) (pending_body u) 0.
Proof.
  intros Hu Hp. unfold consume_padding. destruct (Z.eqb_spec (pending_padding u) 0) as [Hz|Hz].
  { intros [= <-]. exists [], data. destruct u; cbn in *; subst. done. }
  destruct (io _) as [[padding s]|e] eqn:Ef; [|done]. destruct (Z.ltb_spec (zlen padding) (pending_padding u)); [done|].
  intros [= <-]. destruct (fill_whole _ _ _ _ _ _ Hu Ef) as (rest & -> & Hl & ->); [done|done|]. by exists padding, rest.
Qed.

Lemma read_body_to_vec_takes size u data err body u' :
  tar_source u = (data, err) -> 0 <= size -> read_body_to_vec size u = Ok (body, u') ->
  exists padding rest, data = body ++ padding ++ rest /\ zlen body = size /\ zlen padding = padding_for size /\
    u' = at_source u (rest, err) (pending_body u) 0.
Proof.
  intros Hu Hs. unfold read_body_to_vec. destruct (MAX_PAX_BYTES <? size); [done|].
  destruct (io _) as [[got s]|e] eqn:Ef; [|done]. destruct (Z.ltb_spec (zlen got) size); [done|].
  destruct (fill_whole _ _ _ _ _ _ Hu Ef) as (rest & -> & Hl & ->); [done|done|].
  destruct (consume_padding _) as [v|e] eqn:Ec; [|done]. intros [= <- <-].
  destruct (consume_padding_takes (at_source u (rest, err) (pending_body u) (padding_for size)) rest err v
    eq_refl (padding_nonneg size) Ec) as (padding & rest' & -> & Hp & ->).
  by exists padding, rest'.
Qed.

Lemma read_member_body_takes header u data err o x u' :
  tar_source u = (data, err) -> 0 <= pending_body u -> 0 <= pending_padding u ->
  read_member_body (fun (s : unit) _ => s) header tt u = Ok (o, x, u') ->
  exists body padding rest, data = body ++ padding ++ rest /\ zlen body = pending_body u /\
    zlen padding = pending_padding u /\ o = mkObservation (th_path header) (th_size header) (sha256 body) /\
    u' = at_source u (rest, err) 0 0.
Proof.
  intros Hu Hb Hp. unfold read_member_body.
  match goal with |- context [read_body ?f _ _ _] => set (sink := f) end.
  pose proof (read_body_spec sink (pending_body u) (new, tt) (tar_source u) data err Hb Hu) as H.
  destruct (read_body _ _ _ _) as [[[observed [h []]] s]|e]; [|done]. cbn [io map_err].
  destruct H as (chunks & Hfold & Hc & -> & H).
  destruct (Z.ltb_spec (Z.min (pending_body u) (zlen data)) (pending_body u)); [done|].
  destruct (Z.leb_spec (pending_body u) (zlen data)); [|lia].
  destruct (consume_padding _) as [v|e] eqn:Ec; [|done]. intros [= <- <- <-].
  destruct (consume_padding_takes (at_source u s 0 (pending_padding u)) (drop (Z.to_nat (pending_body u)) data) err v
    H Hp Ec) as (padding & rest & Hd & Hl & ->).
  exists (take (Z.to_nat (pending_body u)) data), padding, rest. split_and!.
  - by rewrite <- Hd, take_drop.
  - unfold zlen in *. rewrite length_take. lia.
  - done.
  - assert (forall cs h', foldl sink (h', tt) cs = (foldl update h' cs, tt)) as Hpair
      by (induction cs as [|c cs IH]; intros h'; [done|apply IH]).
    rewrite Hpair in Hfold. injection Hfold as ->. f_equal. by rewrite streaming_spec, Hc, sha256_is_spec.
  - done.
Qed.

Lemma take_while_sub f l b : b ∈ take_while f l -> b ∈ l.
Proof.
  induction l as [|c l IH]; [done|]. cbn. destruct (f c); [|by intros ?%elem_of_nil].
  rewrite !elem_of_cons. naive_solver.
Qed.

Lemma base_256_nonneg name v l n : 0 <= v -> bytes_ok l -> @base_256 E name v l = Ok n -> 0 <= n.
Proof.
  intros Hv Hl. revert v Hv. induction Hl as [|b l Hb _ IH]; intros v Hv; cbn; [by intros [= <-]|].
  case_match; [|done]. apply IH. unfold u8 in Hb. lia.
Qed.

Lemma parse_octal_nonneg field name n : bytes_ok field -> @parse_octal E field name = Ok n -> 0 <= n.
Proof.
  intros Hf. unfold parse_octal. case_match; [apply base_256_nonneg; [lia|by apply Forall_drop]|].
  case_match; [by intros [= <-]|]. destruct (from_str_radix _ _) eqn:Er; cbn; [|done].
  intros [= <-]. eapply from_str_radix_nonneg; [|exact Er]. lia.
Qed.

Definition sizes_ok u : Prop :=
  0 <= pending_body u /\ 0 <= pending_padding u /\ 0 <= default 0 (next_size_override u).

Lemma pax_rounds_sizes rounds records cursor o o' :
  0 <= default 0 o.2 -> @pax_rounds E rounds records cursor o = Ok o' -> 0 <= default 0 o'.2.
Proof.
  revert cursor o. induction rounds as [|rounds IH]; intros cursor o Ho; [by intros [= <-]|]. cbn [pax_rounds].
  destruct (cursor <? zlen records); [|by intros [= <-]].
  destruct (index_of 32 _) as [space|]; [|done]. destruct (from_str_radix 10 _) as [length_|]; [|done].
  destruct (length_ <? _); [done|]. destruct (checked_add _ _) as [stop|]; [|done].
  destruct (zlen records <? stop); [done|]. cbn zeta.
  destruct (index_of 61 _) as [equals|]; [|by apply IH]. unfold pax_record.
  case_bool_decide; [destruct (from_utf8 _); [|done]; by apply IH|].
  case_bool_decide; [|by case_bool_decide; [|apply IH]].
  destruct (from_str_radix 10 (drop _ _)) as [n|] eqn:En; [|done]. apply IH. cbn.
  eapply from_str_radix_nonneg; [|exact En]. lia.
Qed.

(** The loop over the records reads them as records. *)
Lemma pax_record_effect body rest digits last o o1 o2 :
  bytes_ok body -> pax_sized digits body ->
  match index_of 61 body with
  | Some equals => @pax_record E (take equals body) (drop (S equals) body) o
  | None => Ok o
  end = Ok o1 ->
  pax_records rest o1 o2 -> pax_records (digits ++ 32 :: body ++ last :: rest) o o2.
Proof.
  intros Hok Hs. pose proof (index_of_split 61 body) as H. destruct (index_of 61 body) as [i|].
  2: { intros [= <-] Hr. apply pax_other; [|done|done]. intros key value -> _. exfalso. apply H.
    apply elem_of_app. right. by left. }
  destruct H as (value & Hb & Hk & -> & _). set (key := take i body) in *. unfold pax_record.
  assert (bytes_ok value) as Hv by (rewrite Hb in Hok; apply bytes_ok_app in Hok as [_ Hok]; by inversion Hok).
  case_bool_decide as H1.
  { destruct (from_utf8 value) as [text|] eqn:Eu; [|done]. intros [= <-] Hr. apply from_utf8_Some in Eu as [Eu _]; [|done].
    rewrite H1 in Hb. change (bytes_of_string "path" ++ 61 :: value) with (bytes_of_string "path=" ++ value) in Hb.
    rewrite Hb in Hs |- *. by apply (pax_path _ _ _ _ text). }
  case_bool_decide as H2.
  { destruct (from_str_radix 10 value) as [n|] eqn:En; [|done]. intros [= <-] Hr. apply from_str_radix_numeral in En; [|done].
    rewrite H2 in Hb. change (bytes_of_string "size" ++ 61 :: value) with (bytes_of_string "size=" ++ value) in Hb.
    rewrite Hb in Hs |- *. by apply (pax_size _ _ _ _ n). }
  case_bool_decide as H3; [done|]. intros [= <-] Hr. apply pax_other; [|done|done].
  intros key' value' Hb' Hk'. assert (key' = key) as ->; [|done].
  rewrite Hb in Hb'. clearbody key. clear -Hb' Hk Hk'. revert key Hb' Hk. induction key' as [|c l IH]; intros [|d key] Hb Hk; [done| | |].
  - cbn in Hb. injection Hb as -> _. exfalso. apply Hk. by left.
  - cbn in Hb. injection Hb as <- _. exfalso. apply Hk'. by left.
  - cbn in Hb. injection Hb as -> Hb. apply not_elem_of_cons in Hk as [_ Hk], Hk' as [_ Hk']. f_equal. by apply IH.
Qed.

Lemma pax_rounds_records rounds records cursor o o' :
  bytes_ok records -> 0 <= cursor <= zlen records -> zlen records - cursor <= Z.of_nat rounds ->
  @pax_rounds E rounds records cursor o = Ok o' -> pax_records (drop (Z.to_nat cursor) records) o o'.
Proof.
  intros Hok. revert cursor o. induction rounds as [|rounds IH]; intros cursor o Hc Hr.
  { intros [= <-]. rewrite drop_ge by (unfold zlen in *; lia). constructor. }
  cbn [pax_rounds]. destruct (Z.ltb_spec cursor (zlen records)).
  2: { intros [= <-]. rewrite drop_ge by (unfold zlen in *; lia). constructor. }
  set (data := drop (Z.to_nat cursor) records). pose proof (index_of_split 32 data) as Hi.
  destruct (index_of 32 data) as [space|]; [|done]. destruct Hi as (k & Hdata & Hsp & Hk & Hlen).
  destruct (from_str_radix 10 _) as [n|] eqn:En; [|done]. destruct (Z.ltb_spec n (Z.of_nat space + 2)); [done|].
  unfold checked_add. destruct (_ <=? U64_MAX); [|done].
  destruct (Z.ltb_spec (zlen records) (cursor + n)); [done|]. cbn zeta.
  set (m := Z.to_nat (n - Z.of_nat space - 2)). set (digits := take space data) in *.
  assert (slice (Z.to_nat (cursor + Z.of_nat space + 1)) (Z.to_nat (cursor + n - 1)) records = take m k) as ->.
  { unfold slice. rewrite <- Hk. unfold data. rewrite drop_drop. f_equal; [|f_equal]; lia. }
  assert (length k = (length records - Z.to_nat cursor - space - 1)%nat) as Hlk
    by (rewrite <- Hk; unfold data; rewrite !length_drop; lia).
  assert (exists last, k = take m k ++ last :: drop (S m) k) as [last Hlast].
  { destruct (drop m k) as [|last rest] eqn:Ed.
    - apply (f_equal length) in Ed. rewrite length_drop in Ed. cbn in Ed. unfold zlen in *. lia.
    - exists last. rewrite <- (take_drop m k) at 1. f_equal. rewrite Ed. f_equal.
      rewrite <- Nat.add_1_r, <- drop_drop, Ed. done. }
  intros Hrest.
  destruct (match index_of 61 (take m k) with Some _ => _ | None => _ end) as [o1|e] eqn:Eo; [|done].
  specialize (IH (cursor + n) o1 ltac:(lia) ltac:(lia) Hrest).
  replace (drop (Z.to_nat (cursor + n)) records) with (drop (S m) k) in IH.
  2: { rewrite <- Hk. unfold data. rewrite !drop_drop. f_equal. lia. }
  rewrite Hdata, Hlast. apply pax_record_effect with (o1 := o1); [| |done|done].
  - assert (bytes_ok k) as Hkk by (rewrite <- Hk; by apply Forall_drop, Forall_drop). by apply Forall_take.
  - constructor; [done|]. apply from_str_radix_numeral in En; [|done].
    replace (zlen digits + 1 + zlen (take m k) + 1) with n; [done|].
    unfold zlen. rewrite Hlen, length_take, Hlk. unfold zlen in *. lia.
Qed.

(** A metadata member is taken whole, to its effect. *)
Definition overrides_of (u : TarReader (sequence E)) : overrides := (next_path_override u, next_size_override u).

Lemma metadata_takes type_flag size u data err u' :
  tar_source u = (data, err) -> bytes_ok data -> 0 <= size -> sizes_ok u -> metadata type_flag size u = Some (Ok u') ->
  exists body padding rest, data = body ++ padding ++ rest /\ zlen body = size /\ zlen padding = padding_for size /\
    metadata_effect type_flag body (overrides_of u) (overrides_of u') /\ tar_source u' = (rest, err) /\
    seen_paths u' = seen_paths u /\ tar_finished u' = tar_finished u /\ sizes_ok u'.
Proof.
  intros Hu Hd Hs (Hb & Hp & Hn).
  assert (sizes_ok (at_source u (data, err) (pending_body u) 0)) as Hok by done.
  unfold metadata, metadata_effect. destruct (read_body_to_vec size u) as [[body v]|e] eqn:Ev; [|by repeat case_match].
  destruct (read_body_to_vec_takes size u data err body v Hu Hs Ev) as (padding & rest & -> & Hl & Hp' & ->).
  apply bytes_ok_app in Hd as [Hbody _].
  destruct (is_flag type_flag "xX"); [|destruct (is_flag type_flag "gK") eqn:Eg; [|destruct (is_flag type_flag "L") eqn:EL; [|done]]].
  - unfold apply_pax. destruct (pax_rounds _ _ _ _) as [o|e] eqn:Eo; [|done]. intros [= <-]. exists body, padding, rest.
    split_and!; try done.
    + apply pax_rounds_records in Eo; [|done|pose proof (zlen_nonneg body); lia|unfold zlen; lia].
      rewrite drop_0 in Eo. by destruct o.
    + unfold sizes_ok. cbn. split_and!; [done|done|]. by eapply pax_rounds_sizes; [|exact Eo].
  - intros [= <-]. exists body, padding, rest. split_and!; try done.
    assert (is_flag type_flag "L" = false) as ->; [|done].
    unfold is_flag in Eg |- *. apply bool_decide_eq_true_1 in Eg. apply bool_decide_eq_false_2. intros H.
    cbn in Eg, H. rewrite list_elem_of_singleton in H. subst. set_solver.
  - destruct (from_utf8 _) as [text|] eqn:Eu; [|done]. intros [= <-]. exists body, padding, rest. split_and!; try done.
    apply from_utf8_Some in Eu as [Eu _]; [|by apply strip_nul_bytes]. exists text. rewrite Eu. split; [apply strip_nul_text|done].
Qed.

Lemma member_takes header size u h u' :
  bytes_ok header -> zlen header = BLOCK -> checksum_ok header -> octal_field (slice 124 136 header) size ->
  0 <= size -> sizes_ok u -> member (E:=E) header (header !!! 156%nat) size u = Ok (h, u') ->
  tar_source u' = tar_source u /\ member_header header (overrides_of u) (th_path h) (th_size h) /\
  safe_path (th_path h) /\ (th_path h ∉ seen_paths u) /\
  seen_paths u' = {[th_path h]} ∪ seen_paths u /\ tar_finished u' = tar_finished u /\ sizes_ok u' /\
  pending_body u' = th_size h /\ pending_padding u' = padding_for (th_size h) /\ overrides_of u' = (None, None).
Proof.
  intros Hok Hh Hc Ho Hs (Hb & Hp & Hn). unfold member.
  destruct (match next_path_override u with Some _ => _ | None => _ end) as [raw|e] eqn:Er; [|done].
  unfold refuse at 1. destruct (validate_path raw) as [path|e] eqn:Ev; [|done]. cbn [map_err].
  destruct (_ || _ || _) eqn:Ef; [|by destruct ((_ =? 49) || _)]. case_bool_decide; [done|].
  destruct (refuse (parse_octal _ _)) as [mode|e]; [|done]. intros [= <- <-].
  cbn [th_path th_size tar_source seen_paths tar_finished pending_body pending_padding]. split_and!; try done.
  - split_and!; [done|done| |by exists size|].
    + apply orb_true_iff in Ef as [Ef|Ef]; [apply orb_true_iff in Ef as [Ef|Ef]|]; apply Z.eqb_eq in Ef; rewrite Ef; set_solver.
    + exists (bytes_of_string raw). pose proof Ev as Ev'. apply validate_path_ok in Ev'. cbn zeta in Ev'.
      destruct Ev' as (_ & H1 & _ & _ & H2 & _ & Hpath). split_and!; [|done|done|by rewrite Hpath, validated_bytes].
      cbn. destruct (next_path_override u) as [text|]; [by injection Er as <-|].
      unfold refuse in Er. destruct (header_path header) as [text|] eqn:Eh; [|done]. injection Er as <-.
      by eapply header_path_names.
  - by eapply validated_safe.
  - unfold sizes_ok. cbn. split_and!; [|apply padding_nonneg|done]. by destruct (next_size_override u).
Qed.

Lemma all_zero_Forall l : all_zero l = true -> Forall (fun byte => byte = 0) l.
Proof. unfold all_zero. rewrite forallb_forall, Forall_forall. intros H b Hb. apply Z.eqb_eq, H. by apply list_elem_of_In. Qed.

Lemma no_trailing_zeros fuel data err s :
  @check_no_trailing_data (sequence E) E _ fuel (data, err) = Some (Ok s) -> Forall (fun byte => byte = 0) data.
Proof.
  revert data. induction fuel as [|fuel IH]; intros data; [done|]. cbn [check_no_trailing_data].
  pose proof (read_full_spec (Z.to_nat BLOCK) ((data, err) : sequence E) data err eq_refl) as H.
  destruct (read_full _ _) as [[got s']|e]; [|done]. cbn [io map_err]. destruct H as [-> H].
  assert (length data < Z.to_nat BLOCK -> take (Z.to_nat BLOCK) data = data)%nat as Htake by (intros; apply take_ge; lia).
  destruct (Z.eqb_spec (zlen (take (Z.to_nat BLOCK) data)) 0) as [Hz|Hz].
  { unfold zlen in Hz. rewrite length_take in Hz. destruct data; [done|]. unfold BLOCK in Hz. cbn [length] in Hz. lia. }
  destruct (all_zero _) eqn:Ea; [|done]. apply all_zero_Forall in Ea. cbn [negb].
  destruct (Z.ltb_spec (zlen (take (Z.to_nat BLOCK) data)) BLOCK) as [Hlt|Hge]; intros Hs.
  - unfold zlen in Hlt. rewrite length_take in Hlt. rewrite Htake in Ea by (unfold BLOCK in *; lia). done.
  - unfold zlen in Hge. rewrite length_take in Hge. destruct (Nat.leb_spec (Z.to_nat BLOCK) (length data)); [|lia].
    rewrite H in Hs. apply IH in Hs. rewrite <- (take_drop (Z.to_nat BLOCK) data). by apply Forall_app.
Qed.

(** A block taken whole. *)
Lemma read_block_full data err block s :
  @read_block (sequence E) E _ (data, err) = Ok (Full, block, s) ->
  exists rest, data = block ++ rest /\ zlen block = BLOCK /\ s = (rest, err).
Proof.
  unfold read_block. destruct (io _) as [[got s']|e] eqn:Ef; [|done]. intros [= Hk <- <-].
  destruct (Z.eqb_spec (zlen got) BLOCK) as [Hl|]; [|by destruct (zlen got =? 0)].
  pose proof (fill_whole BLOCK (tar_new (data, err)) data err got s' eq_refl Ef) as H. unfold BLOCK in *.
  destruct H as (rest & -> & _ & ->); [lia|lia|]. by exists rest.
Qed.

(** What one step of a reader takes off its source, and with which result. *)
Definition takes_member u data err (result_ : option TarMemberHeader) u' : Prop :=
  match result_ with
  | None => exists metas zeros o, data = metas ++ zeros /\ metadata_layout metas (overrides_of u) o /\
      Forall (fun byte => byte = 0) zeros /\ 2 * BLOCK <= zlen zeros
  | Some h => exists metas header rest o, data = metas ++ header ++ rest /\
      metadata_layout metas (overrides_of u) o /\ member_header header o (th_path h) (th_size h) /\
      tar_source u' = (rest, err) /\
      safe_path (th_path h) /\ (th_path h ∉ seen_paths u) /\ seen_paths u' = {[th_path h]} ∪ seen_paths u /\
      tar_finished u' = tar_finished u /\ sizes_ok u' /\ pending_body u' = th_size h /\
      pending_padding u' = padding_for (th_size h) /\ overrides_of u' = (None, None)
  end.

Lemma takes_member_behind u u1 header body padding rest err result_ u' :
  zlen header = BLOCK -> checksum_ok header -> octal_field (slice 124 136 header) (zlen body) ->
  zlen padding = padding_for (zlen body) -> metadata_effect (header !!! 156%nat) body (overrides_of u) (overrides_of u1) ->
  seen_paths u1 = seen_paths u -> tar_finished u1 = tar_finished u ->
  takes_member u1 rest err result_ u' -> takes_member u (header ++ body ++ padding ++ rest) err result_ u'.
Proof.
  intros Hh Hc Ho Hpad He Hp Hf.
  assert (forall metas o, metadata_layout metas (overrides_of u1) o ->
    metadata_layout (header ++ body ++ padding ++ metas) (overrides_of u) o) as Hm by (intros; by eapply metadata_one).
  unfold takes_member. rewrite Hp, Hf. destruct result_ as [h|].
  - intros (metas & hd & r & o & -> & Hmod%Hm & H). exists (header ++ body ++ padding ++ metas), hd, r, o.
    by rewrite <- !app_assoc.
  - intros (metas & zeros & o & -> & Hmod%Hm & H). exists (header ++ body ++ padding ++ metas), zeros, o.
    by rewrite <- !app_assoc.
Qed.

Lemma refuse_ok {A} (r : result (ArchiveError E) A) x : refuse r = Ok x -> r = Ok x.
Proof. unfold refuse. destruct r; [by intros [= <-]|done]. Qed.

Lemma member_rounds_takes fuel u data err x u' :
  bytes_ok data -> sizes_ok u -> tar_source u = (data, err) ->
  member_rounds fuel u = Some (Ok (x, u')) -> takes_member u data err x u'.
Proof.
  revert u data. induction fuel as [|fuel IH]; intros u data Hd Hok Hu; [done|]. cbn [member_rounds].
  rewrite Hu. destruct (read_block _) as [[[kind header] s]|e] eqn:Eb; [|done]. destruct kind; unfold invalid; try done.
  apply read_block_full in Eb as (rest & -> & Hh & ->).
  set (u1 := at_source u (rest, err) (pending_body u) (pending_padding u)).
  apply bytes_ok_app in Hd as [Hdh Hdr].
  destruct (all_zero header) eqn:Ez.
  { unfold end_marker. cbn [u1 at_source tar_source]. subst u1. cbn.
    destruct (read_block _) as [[[kind second] s]|e] eqn:Eb; [|done]. destruct kind; unfold invalid; try done.
    apply read_block_full in Eb as (rest' & -> & Hs & ->). destruct (all_zero second) eqn:Es; unfold invalid; try done.
    destruct (check_no_trailing_data _ _) as [[s|e]|] eqn:Et; [|done|done]. intros [= <- _].
    exists [], (header ++ second ++ rest'), (overrides_of u). split_and!; [done|constructor| |].
    - apply Forall_app. split; [by apply all_zero_Forall|]. apply Forall_app. split; [by apply all_zero_Forall|].
      by eapply no_trailing_zeros.
    - rewrite !zlen_app. pose proof (zlen_nonneg rest'). lia. }
  destruct (refuse (verify_checksum header)) as [[]|e] eqn:Ec; [|done].
  destruct (refuse (parse_octal _ "size")) as [size|e] eqn:Eo; [|done].
  apply refuse_ok, verify_checksum_ok in Ec. apply refuse_ok in Eo.
  assert (0 <= size) as Hsize by (eapply parse_octal_nonneg; [|exact Eo]; by apply slice_bytes_ok).
  apply parse_octal_field in Eo.
  destruct (metadata _ size u1) as [[v|e]|] eqn:Em; [|done|].
  - intros Hr. destruct (metadata_takes _ _ u1 rest err v eq_refl Hdr Hsize Hok Em)
      as (body & padding & rest' & -> & Hl & Hpad & He & Hv & Hp & Hf & Hokv).
    rewrite !bytes_ok_app in Hdr. destruct Hdr as (_ & _ & Hdr). specialize (IH v rest' Hdr Hokv Hv Hr). subst size.
    by apply (takes_member_behind u v).
  - destruct (member _ _ _ u1) as [[h v]|e] eqn:Eh; [|done]. intros [= <- <-].
    destruct (member_takes header size u1 h v) as (Hv & Hm & Hrest); [done..|]. exists [], header, rest, (overrides_of u).
    split_and!; [done|constructor|done|done|by destruct_and?..].
Qed.

Lemma observe_rounds_takes fuel u data err members :
  bytes_ok data -> sizes_ok u -> pending_body u = 0 -> pending_padding u = 0 -> tar_finished u = false ->
  overrides_of u = (None, None) -> tar_source u = (data, err) -> observe_rounds fuel u = Some (Ok members) ->
  archive_layout data members /\ Forall (fun o => safe_path (to_path o) /\ (to_path o ∉ seen_paths u)) members /\
  NoDup (map to_path members).
Proof.
  revert u data members. induction fuel as [|fuel IH]; intros u data members Hd Hok Hb Hp Hf Hov Hu; [done|].
  cbn [observe_rounds]. unfold next_member, skip_pending, consume_padding. rewrite Hf, Hb. cbn [Z.ltb Z.compare].
  rewrite Hp. cbn [Z.eqb]. destruct (member_rounds (S fuel) u) as [[[x u1]|e]|] eqn:Em; [|done|done].
  apply (member_rounds_takes _ u data err) in Em; [|done|done|done].
  destruct x as [h|]; cbn [takes_member] in Em.
  2: { intros [= <-]. destruct Em as (metas & zeros & o & -> & H1 & H2 & H3). rewrite Hov in H1.
    split_and!; [by eapply layout_end|constructor|constructor]. }
  destruct Em as (metas & header & rest & ov & -> & Hm & Hh & Hu1 & Hsafe & Hnew & Hseen & Hf1 & Hok1 & Hb1 & Hp1 & Hov1).
  rewrite Hov in Hm.
  destruct (read_member_body _ h tt u1) as [[[o y] u2]|e] eqn:Er; [|done].
  destruct Hok1 as (Hb0 & Hp0 & Hs0).
  destruct (read_member_body_takes h u1 rest err o y u2 Hu1 Hb0 Hp0 Er) as (body & padding & rest' & -> & Hbody & Hpad & -> & ->).
  destruct (observe_rounds fuel _) as [[os|e]|] eqn:Eo; [|done|done]. intros [= <-].
  rewrite !bytes_ok_app in Hd. destruct Hd as (_ & _ & _ & _ & Hd').
  destruct (IH (at_source u1 (rest', err) 0 0) rest' os Hd') as (Hl & Hall & Hnd); try done.
  { cbn. by rewrite Hf1. }
  split_and!.
  - apply layout_member with ov; cbn; try done; congruence.
  - constructor; [done|]. eapply Forall_impl; [exact Hall|]. cbn. intros o [H1 H2]. split; [done|].
    rewrite Hseen in H2. set_solver.
  - cbn. constructor; [|done]. rewrite list_elem_of_fmap. intros (o & Heq & Hin). rewrite Forall_forall in Hall.
    apply Hall in Hin as [_ Hin]. cbn in Hin. rewrite Hseen, <- Heq in Hin. set_solver.
Qed.
End Accepted.

(** ** Termination *)

Section Total.
Context {E : Type}.
Implicit Types (u : TarReader (sequence E)) (err : option E).

Lemma no_trailing_total fuel data err :
  (length data < fuel)%nat -> @check_no_trailing_data (sequence E) E _ fuel (data, err) <> None.
Proof.
  revert data. induction fuel as [|fuel IH]; intros data Hl; [lia|]. cbn [check_no_trailing_data].
  pose proof (read_full_spec (Z.to_nat BLOCK) ((data, err) : sequence E) data err eq_refl) as H.
  destruct (read_full _ _) as [[got s']|e]; [|done]. cbn [io map_err]. destruct H as [-> H].
  destruct (Z.eqb_spec (zlen (take (Z.to_nat BLOCK) data)) 0); [done|]. destruct (negb _); [done|].
  destruct (Z.ltb_spec (zlen (take (Z.to_nat BLOCK) data)) BLOCK) as [|Hge]; [done|].
  unfold zlen in Hge. rewrite length_take in Hge. destruct (Nat.leb_spec (Z.to_nat BLOCK) (length data)); [|lia].
  rewrite H. apply IH. rewrite length_drop. unfold BLOCK in *. lia.
Qed.

Lemma no_trailing_more {R} `{ReadSource R E} n m (r : R) x :
  (n <= m)%nat -> check_no_trailing_data n r = Some x -> check_no_trailing_data m r = Some x.
Proof.
  revert m r. induction n as [|n IH]; intros [|m] r Hle; try done || lia. cbn [check_no_trailing_data].
  repeat case_match; try done. apply IH. lia.
Qed.

Lemma member_rounds_more n m u x : (n <= m)%nat -> member_rounds n u = Some x -> member_rounds m u = Some x.
Proof.
  revert m u. induction n as [|n IH]; intros [|m] u Hle; try done || lia. cbn [member_rounds].
  destruct (read_block _) as [[[kind header] s]|e]; [|done]. destruct kind; [|done|done].
  destruct (all_zero header).
  { unfold end_marker. destruct (read_block _) as [[[kind second] s']|e]; [|done]. destruct kind; [|done|done].
    destruct (all_zero second); [|done]. destruct (check_no_trailing_data n s') as [y|] eqn:Et; [|done].
    by rewrite (no_trailing_more n m s' y) by (done || lia). }
  destruct (refuse _); [|done]. destruct (refuse (parse_octal _ "size")); [|done].
  destruct (metadata _ _ _) as [[v|e]|]; [|done|done]. apply IH. lia.
Qed.

Lemma member_rounds_total fuel u data err :
  bytes_ok data -> sizes_ok u -> tar_source u = (data, err) -> (length data < fuel)%nat -> member_rounds fuel u <> None.
Proof.
  revert u data. induction fuel as [|fuel IH]; intros u data Hd Hok Hu Hl; [lia|]. cbn [member_rounds].
  rewrite Hu. destruct (read_block _) as [[[kind header] s]|e] eqn:Eb; [|done]. destruct kind; [|done|done].
  apply read_block_full in Eb as (rest & -> & Hh & ->).
  set (u1 := at_source u (rest, err) (pending_body u) (pending_padding u)).
  apply bytes_ok_app in Hd as [Hdh Hdr]. rewrite length_app in Hl. unfold zlen, BLOCK in Hh.
  destruct (all_zero header).
  { unfold end_marker. subst u1. cbn [at_source tar_source].
    destruct (read_block _) as [[[kind second] s]|e] eqn:Eb; [|done]. destruct kind; [|done|done].
    apply read_block_full in Eb as (rest' & -> & Hs & ->). destruct (all_zero second); [|done].
    rewrite length_app in Hl. pose proof (no_trailing_total fuel rest' err ltac:(lia)).
    by destruct (check_no_trailing_data _ _) as [[]|]. }
  destruct (refuse _); [|done]. destruct (refuse (parse_octal _ "size")) as [size|e] eqn:Eo; [|done].
  assert (0 <= size) as Hsize.
  { unfold refuse in Eo. destruct (parse_octal _ _) as [n|] eqn:Ep; [|done]. injection Eo as <-.
    eapply parse_octal_nonneg; [|exact Ep]. unfold slice. by apply Forall_take, Forall_drop. }
  destruct (metadata _ size u1) as [[v|e]|] eqn:Em; [|done|done].
  destruct (metadata_takes _ _ u1 rest err v eq_refl Hdr Hsize Hok Em) as (body & padding & rest' & -> & _ & _ & _ & Hv & _ & _ & Hokv).
  rewrite !bytes_ok_app in Hdr. destruct Hdr as (_ & _ & Hdr). rewrite !length_app in Hl. by apply (IH v rest'); try lia.
Qed.

Lemma next_member_more n m u x : (n <= m)%nat -> next_member n u = Some x -> next_member m u = Some x.
Proof. intros Hle. unfold next_member. repeat case_match; try done. by apply member_rounds_more. Qed.

Lemma observe_more n m u x : (n <= m)%nat -> observe_rounds n u = Some x -> observe_rounds m u = Some x.
Proof.
  revert m u x. induction n as [|n IH]; intros [|m] u x Hle; try done || lia. cbn [observe_rounds].
  destruct (next_member (S n) u) as [y|] eqn:En; [|done]. rewrite (next_member_more (S n) (S m) u y) by (done || lia).
  destruct y as [[[h|] u1]|e]; try done. destruct (read_member_body _ h tt u1) as [[[o z] u2]|e]; [|done].
  destruct (observe_rounds n u2) as [w|] eqn:Eo; [|done]. by rewrite (IH m u2 w) by (done || lia).
Qed.

Lemma observe_total fuel u data err :
  bytes_ok data -> sizes_ok u -> pending_body u = 0 -> pending_padding u = 0 -> tar_source u = (data, err) ->
  (length data < fuel)%nat -> observe_rounds fuel u <> None.
Proof.
  revert u data. induction fuel as [|fuel IH]; intros u data Hd Hok Hb Hp Hu Hl; [lia|].
  cbn [observe_rounds]. unfold next_member, skip_pending, consume_padding. destruct (tar_finished u); [done|].
  rewrite Hb. cbn [Z.ltb Z.compare]. rewrite Hp. cbn [Z.eqb].
  pose proof (member_rounds_total (S fuel) u data err Hd Hok Hu Hl).
  destruct (member_rounds (S fuel) u) as [[[x u1]|e]|] eqn:Em; [|done|done].
  destruct x as [h|]; [|done]. apply (member_rounds_takes _ u data err) in Em; [|done|done|done].
  destruct Em as (metas & header & rest & o1 & -> & _ & (Hh & _) & Hu1 & _ & _ & _ & _ & Hok1 & _).
  destruct (read_member_body _ h tt u1) as [[[o y] u2]|e] eqn:Er; [|done]. destruct Hok1 as (Hb0 & Hp0 & Hs0).
  destruct (read_member_body_takes h u1 rest err o y u2 Hu1 Hb0 Hp0 Er) as (body & padding & rest' & -> & _ & _ & -> & ->).
  rewrite !bytes_ok_app in Hd. rewrite !length_app in Hl. unfold zlen, BLOCK in Hh.
  assert (observe_rounds fuel (at_source u1 (rest', err) 0 0) <> None) as Ho.
  { apply (IH _ rest'); try done; [tauto|lia]. }
  by destruct (observe_rounds fuel _) as [[]|].
Qed.
End Total.

(** C32. Reading an archive ends, and what it yields is a function of the bytes: for every
    lawful source and any way it delivers its bytes there is one result, observations, a
    refusal or a panic, that every large enough fuel gives, and it is the result on the
    plain byte sequence. *)
Theorem tar_reads_any_source {R E} `{SourceLaws R E} (r : R) data err :
  src_delivers r (data, err) -> bytes_ok data ->
  exists result, forall fuel, (length data < fuel)%nat ->
    observe_archive fuel r = Some result /\ observe_archive fuel ((data, err) : sequence E) = Some result.
Proof.
  intros Hr Hd. set (s := (data, err) : sequence E) in *.
  assert (observe_archive (S (length data)) s <> None) as Ht by (apply (observe_total _ _ data err); done || lia).
  destruct (observe_archive (S (length data)) s) as [x|] eqn:Ex; [|done]. exists x. intros fuel Hf.
  rewrite (observe_same fuel r s Hr). assert (observe_archive fuel s = Some x) as ->; [|done].
  eapply observe_more; [|exact Ex]. lia.
Qed.

(** C26. Whatever an accepted archive came from, the whole input is accounted for: every
    block is a checksummed header, a body, padding or part of a zero end marker with nothing
    behind it, metadata members have the effect their format defines, nothing is passed over,
    and each member is a regular file of the path and size its metadata or else its header
    give, with the SHA-256 of exactly the bytes between its header and its padding.  Every
    member's path is in normal form, relative as POSIX reads it and free of parent components,
    and no two members share one. *)
Theorem accepted_archive_is_sound {R E} `{SourceLaws R E} fuel (r : R) data err members :
  src_delivers r (data, err) -> bytes_ok data -> observe_archive fuel r = Some (Ok members) ->
  archive_layout data members /\ Forall (fun o => safe_path (to_path o)) members /\ NoDup (map to_path members).
Proof.
  intros Hr Hd Ho. rewrite (observe_same fuel r _ Hr) in Ho.
  destruct (observe_rounds_takes fuel (tar_new ((data, err) : sequence E)) data err members) as (Hl & Hs & Hn); try done.
  split_and!; [done| |done]. eapply Forall_impl; [exact Hs|]. by intros o [? _].
Qed.

(** The paths a member may have: [validate_path] accepts a path exactly when no rule
    of the archive contract refuses it, and its result is canonical: it is a safe path and
    the only spelling of itself. *)
Theorem validate_path_iff {E} raw path :
  @validate_path E raw = Ok path <->
    let l := bytes_of_string raw in
    zlen l <= MAX_PATH_LEN /\ head l <> Some 47 /\ (92 ∉ l) /\ has_control l = false /\
    (dot_dot ∉ split_slash l) /\ plain_components l <> [] /\ safe_path path /\ @validate_path E path = Ok path /\
    bytes_of_string path = join_slash (plain_components l).
Proof.
  split.
  - intros H. pose proof (validated_safe raw path H) as Hs. pose proof H as H'. apply validate_path_ok in H'. cbn zeta in *.
    destruct H' as (H1 & H2 & H3 & H4 & H5 & H6 & Hp). split_and!; try done; [by apply safe_validated|].
    by rewrite Hp, validated_bytes.
  - cbn zeta. intros (H1 & H2 & H3 & H4 & H5 & H6 & _ & _ & Hp). apply validate_path_ok. cbn zeta. split_and!; try done.
    by rewrite <- Hp, string_of_bytes_of_string.
Qed.

(** ** Archives of plain members *)

(** [write_octal], into a field of [n] bytes: zero-padded octal digits and a NUL. *)
Fixpoint octal_digits (n : nat) (value : Z) : bytes :=
  match n with O => [] | S n => octal_digits n (value / 8) ++ [48 + value mod 8] end.

Definition write_octal (n : nat) (value : Z) : bytes := octal_digits (n - 1) value ++ [0].

(** The header of [TarBuilder::add_with_size], around its checksum field. *)
Definition header_start (path : bytes) (size : Z) : bytes :=
  take 100 path ++ replicate (100 - length path) 0 ++ write_octal 8 420 ++ write_octal 8 0 ++ write_octal 8 0
    ++ write_octal 12 size ++ write_octal 12 0.

Definition header_end (type_flag : Z) : bytes :=
  type_flag :: replicate 100 0 ++ bytes_of_string "ustar" ++ [0] ++ bytes_of_string "00" ++ replicate 247 0.

Definition build_header (path : bytes) (type_flag size : Z) : bytes :=
  let sum := sum_list (header_start path size ++ replicate 8 32 ++ header_end type_flag) in
  header_start path size ++ write_octal 7 sum ++ [32] ++ header_end type_flag.

Definition build_member (path : bytes) (type_flag : Z) (body : bytes) : bytes :=
  build_header path type_flag (zlen body) ++ body ++ replicate (Z.to_nat (padding_for (zlen body))) 0.

(** [add] of every member as a regular file, and [finish]. *)
Fixpoint build_archive (members : list (string * bytes)) : bytes :=
  match members with
  | [] => replicate (2 * Z.to_nat BLOCK) 0
  | (path, body) :: members => build_member (bytes_of_string path) 48 body ++ build_archive members
  end.

Definition observed (m : string * bytes) : TarMemberObservation := mkObservation m.1 (zlen m.2) (sha256 m.2).

(** A member a [ustar] header can name: a short, safe path and a size of eleven octal
    digits. *)
Definition buildable (m : string * bytes) : Prop :=
  safe_path m.1 /\ str_ok m.1 /\ zlen (bytes_of_string m.1) <= 100 /\ zlen m.2 < 8 ^ 11 /\ bytes_ok m.2.

Lemma length_octal n v : length (octal_digits n v) = n.
Proof. revert v. induction n as [|n IH]; intros v; [done|]. cbn. rewrite length_app, IH. cbn. lia. Qed.

Lemma octal_digit n v b : 0 <= v -> b ∈ octal_digits n v -> 48 <= b <= 55.
Proof.
  revert v. induction n as [|n IH]; intros v Hv; cbn; [by intros Hb%elem_of_nil|].
  rewrite elem_of_app, list_elem_of_singleton. pose proof (Z.mod_pos_bound v 8) as Hm.
  intros [H|H]; [|lia]. apply IH in H; [lia|]. apply Z.div_pos; lia.
Qed.

Lemma parse_octal_digits n v acc k :
  0 <= v < 8 ^ Z.of_nat n -> 0 <= acc -> acc * 8 ^ Z.of_nat n + v <= U64_MAX ->
  radix_digits 8 acc (octal_digits n v ++ k) = radix_digits 8 (acc * 8 ^ Z.of_nat n + v) k.
Proof.
  revert v k. induction n as [|n IH]; intros v k Hv Ha Hb.
  { change (8 ^ Z.of_nat 0) with 1 in *. cbn. f_equal. lia. }
  cbn [octal_digits]. pose proof (Z.mod_pos_bound v 8 ltac:(lia)). pose proof (Z.div_mod v 8 ltac:(lia)) as Hdm.
  assert (0 < 8 ^ Z.of_nat n) by (by apply Z.pow_pos_nonneg; lia).
  rewrite Nat2Z.inj_succ, Z.pow_succ_r in Hv, Hb |- * by lia.
  rewrite <- app_assoc, IH; [|split; [apply Z.div_pos; lia|apply Z.div_lt_upper_bound; lia]|lia|nia].
  cbn [app radix_digits]. rewrite digit_value_digit by lia. destruct (Z.ltb_spec (v mod 8) 8); [|lia]. cbn [andb].
  replace ((acc * 8 ^ Z.of_nat n + v / 8) * 8 + v mod 8) with (acc * (8 * 8 ^ Z.of_nat n) + v) by lia.
  destruct (Z.leb_spec (acc * (8 * 8 ^ Z.of_nat n) + v) U64_MAX); [done|lia].
Qed.

Lemma take_while_all f l k : Forall (fun b => f b = true) l -> take_while f (l ++ 0 :: k) = l ++ take_while f (0 :: k).
Proof. intros H. induction H as [|b l Hb _ IH]; [done|]. cbn [app take_while]. by rewrite Hb, IH. Qed.

Lemma trim_none l : (forall b, b ∈ l -> latin1_whitespace b = false) -> trim_latin1 l = l.
Proof.
  intros H. unfold trim_latin1. rewrite (drop_while_none _ l H), drop_while_none, rev_involutive; [done|].
  intros b Hb. apply H. by rewrite list_elem_of_In, <- in_rev, <- list_elem_of_In in Hb.
Qed.

Lemma octal_plain n v b : 0 <= v -> b ∈ octal_digits n v -> latin1_whitespace b = false /\ (negb (b =? 0) && negb (b =? 32)) = true.
Proof.
  intros Hv Hb. apply octal_digit in Hb; [|done].
  assert (b = 48 \/ b = 49 \/ b = 50 \/ b = 51 \/ b = 52 \/ b = 53 \/ b = 54 \/ b = 55) as H by lia.
  by repeat destruct H as [->|H]; subst.
Qed.

Lemma parse_octal_written {E} n v k name :
  (1 <= n)%nat -> 0 <= v < 8 ^ Z.of_nat n -> 8 ^ Z.of_nat n <= U64_MAX ->
  @parse_octal E (octal_digits n v ++ 0 :: k) name = Ok v.
Proof.
  intros Hn Hv Hm. destruct (octal_digits n v) as [|d l] eqn:El.
  { apply (f_equal length) in El. rewrite length_octal in El. cbn in El. lia. }
  assert (forall b, b ∈ d :: l -> 48 <= b <= 55) as Hdig by (intros b; rewrite <- El; apply octal_digit; lia).
  assert (48 <= d <= 55) as Hd by (apply Hdig; by left).
  unfold parse_octal. assert (Z.land (((d :: l) ++ 0 :: k) !!! 0%nat) 0x80 = 0) as ->.
  { cbn. assert (d = 48 \/ d = 49 \/ d = 50 \/ d = 51 \/ d = 52 \/ d = 53 \/ d = 54 \/ d = 55) as H by lia.
    by repeat destruct H as [->|H]; subst. }
  cbn [Z.eqb negb]. rewrite take_while_all; [|apply Forall_forall; intros b Hb; rewrite <- El in Hb; by apply octal_plain in Hb as [_ Hb]; [|lia]].
  cbn [take_while Z.eqb negb andb]. rewrite app_nil_r, trim_none.
  2: { intros b Hb. rewrite <- El in Hb. apply octal_plain in Hb; [tauto|lia]. }
  assert (from_str_radix 8 (d :: l) = radix_digits 8 0 (d :: l)) as Hr.
  { unfold from_str_radix. assert (d = 48 \/ d = 49 \/ d = 50 \/ d = 51 \/ d = 52 \/ d = 53 \/ d = 54 \/ d = 55) as H by lia.
    by repeat destruct H as [->|H]; subst. }
  cbn [app]. rewrite Hr, <- El, <- (app_nil_r (octal_digits n v)), parse_octal_digits by lia. done.
Qed.

(** *** The fields of a built header *)

Lemma slice_at pre mid post start stop :
  length pre = start -> (length mid = stop - start)%nat -> slice start stop (pre ++ mid ++ post) = mid.
Proof. intros <- Hm. unfold slice. by rewrite drop_app_length, <- Hm, take_app_length. Qed.

Lemma sum_bound l : bytes_ok l -> 0 <= sum_list l <= 255 * zlen l.
Proof.
  intros H. induction H as [|b l Hb _ IH]; [done|].
  rewrite zlen_cons. unfold u8, U8_MAX in Hb. change (sum_list (b :: l)) with (b + sum_list l). lia.
Qed.

Lemma octal_bytes n v : 0 <= v -> bytes_ok (octal_digits n v).
Proof.
  intros Hv. apply Forall_forall. intros b Hb. apply octal_digit in Hb; [|done]. unfold u8, U8_MAX. lia.
Qed.

Lemma write_octal_bytes n v : 0 <= v -> bytes_ok (write_octal n v).
Proof. intros Hv. apply Forall_app. split; [by apply octal_bytes|repeat constructor; done]. Qed.

Lemma length_write_octal n v : (1 <= n)%nat -> length (write_octal n v) = n.
Proof. intros Hn. unfold write_octal. rewrite length_app, length_octal. cbn. lia. Qed.

Lemma zeros_bytes n : bytes_ok (replicate n 0).
Proof. by apply Forall_replicate. Qed.

(** The builder cuts a longer path to the field without a word. *)
Lemma long_paths_are_cut path type_flag size :
  build_header path type_flag size = build_header (take 100 path) type_flag size.
Proof.
  assert (header_start path size = header_start (take 100 path) size) as H; [|by unfold build_header; rewrite H].
  unfold header_start. rewrite take_take, length_take. f_equal. f_equal. f_equal. lia.
Qed.

Section Header.
Context (path : bytes) (type_flag size : Z).
Hypothesis Hpath : bytes_ok path /\ (length path <= 100)%nat /\ path <> [] /\ 0 ∉ path.
Hypothesis Hflag : u8 type_flag.
Hypothesis Hsize : 0 <= size < 8 ^ 11.

Let name := take 100 path ++ replicate (100 - length path) 0.

Lemma length_name : length name = 100%nat.
Proof using Hpath. unfold name. rewrite length_app, length_take, length_replicate. lia. Qed.

Lemma length_start : length (header_start path size) = 148%nat.
Proof using Hpath.
  unfold header_start. rewrite app_assoc. fold name. rewrite !length_app, length_name, !length_write_octal by lia. done.
Qed.

Lemma length_end : length (header_end type_flag) = 356%nat.
Proof using. done. Qed.

Lemma start_bytes : bytes_ok (header_start path size).
Proof using Hpath Hsize.
  unfold header_start. rewrite !bytes_ok_app. split_and!; try (apply write_octal_bytes; lia); [|apply zeros_bytes].
  apply Forall_take, Hpath.
Qed.

Lemma end_bytes : bytes_ok (header_end type_flag).
Proof using Hflag.
  unfold header_end. apply bytes_ok_cons; [done|]. rewrite !bytes_ok_app.
  split_and!; try apply zeros_bytes; try apply bytes_of_string_ok. repeat constructor; done.
Qed.

Let sum := sum_list (header_start path size ++ replicate 8 32 ++ header_end type_flag).

Lemma sum_fits : 0 <= sum < 8 ^ 6.
Proof using Hpath Hflag Hsize.
  unfold sum. pose proof (sum_bound (header_start path size ++ replicate 8 32 ++ header_end type_flag)) as H.
  unfold zlen in H. rewrite !length_app, length_start, length_end, length_replicate in H.
  assert (8 ^ 6 = 262144) as -> by done. enough (0 <= sum_list (header_start path size ++ replicate 8 32 ++ header_end type_flag)
    <= 255 * Z.of_nat (148 + (8 + 356))) by lia. apply H.
  rewrite !bytes_ok_app. split_and!; [apply start_bytes| |apply end_bytes]. by apply Forall_replicate.
Qed.

Lemma length_header : length (build_header path type_flag size) = Z.to_nat BLOCK.
Proof using Hpath.
  unfold build_header. rewrite !length_app, length_start, length_write_octal, length_end by lia. done.
Qed.

Lemma header_checksum {E} : @verify_checksum E (build_header path type_flag size) = Ok tt.
Proof using Hpath Hflag Hsize.
  unfold verify_checksum, build_header. fold sum. cbv zeta.
  assert (slice 148 156 (header_start path size ++ write_octal 7 sum ++ [32] ++ header_end type_flag) =
    octal_digits 6 sum ++ 0 :: [32]) as ->.
  { replace (octal_digits 6 sum ++ 0 :: [32]) with (write_octal 7 sum ++ [32]) by (unfold write_octal; by rewrite <- app_assoc).
    rewrite (app_assoc (write_octal 7 sum)). apply slice_at; [apply length_start|].
    by rewrite length_app, length_write_octal by lia. }
  pose proof sum_fits. rewrite parse_octal_written by (done || lia).
  assert (checksum_bytes (header_start path size ++ write_octal 7 sum ++ [32] ++ header_end type_flag) =
    header_start path size ++ replicate 8 32 ++ header_end type_flag) as ->.
  { unfold checksum_bytes. rewrite take_app_length' by (symmetry; apply length_start).
    rewrite drop_app_ge by (rewrite length_start; lia). by rewrite length_start. }
  fold sum. by rewrite Z.eqb_refl.
Qed.

Lemma header_size {E} : @parse_octal E (slice 124 136 (build_header path type_flag size)) "size" = Ok size.
Proof using Hpath Hsize.
  unfold build_header, header_start. cbv zeta.
  match goal with |- context [slice 124 136 ?l] => assert (slice 124 136 l = write_octal 12 size) as -> end.
  { rewrite (app_assoc (take 100 path)). fold name. rewrite <- !app_assoc.
    rewrite (app_assoc name), (app_assoc (name ++ _)), (app_assoc ((name ++ _) ++ _)).
    apply slice_at; [rewrite !length_app, length_name, !length_write_octal by lia|rewrite length_write_octal by lia]; done. }
  apply parse_octal_written; done || lia.
Qed.

Lemma header_mode {E} : @parse_octal E (slice 100 108 (build_header path type_flag size)) "mode" = Ok 420.
Proof using Hpath.
  unfold build_header, header_start. cbv zeta.
  match goal with |- context [slice 100 108 ?l] => assert (slice 100 108 l = write_octal 8 420) as -> end.
  { rewrite (app_assoc (take 100 path)). fold name. rewrite <- !app_assoc.
    apply slice_at; [apply length_name|rewrite length_write_octal by lia; done]. }
  done.
Qed.

Lemma header_flag : build_header path type_flag size !!! 156%nat = type_flag.
Proof using Hpath.
  unfold build_header. cbv zeta. rewrite lookup_total_app_r by (rewrite length_start; lia). rewrite length_start.
  rewrite lookup_total_app_r by (rewrite length_write_octal; lia). by rewrite length_write_octal by lia.
Qed.

Lemma strip_nul_padded l n : 0 ∉ l -> strip_nul (l ++ replicate n 0) = l.
Proof using.
  intros H. unfold strip_nul. assert (index_of 0 (l ++ replicate n 0) = if decide (n = 0%nat) then None else Some (length l)) as ->.
  { induction l as [|b l IH]; [by destruct n|]. apply not_elem_of_cons in H as [Hne H]. cbn [app index_of].
    destruct (Z.eqb_spec b 0); [done|]. rewrite IH by done. by destruct (decide _). }
  destruct (decide (n = 0%nat)) as [->|]; [by rewrite app_nil_r|]. by rewrite take_app_length.
Qed.

Lemma header_name : strip_nul (slice 0 100 (build_header path type_flag size)) = path.
Proof using Hpath.
  unfold build_header, header_start. cbv zeta. rewrite (app_assoc (take 100 path)). fold name. rewrite <- !app_assoc.
  assert (forall k, slice 0 100 (name ++ k) = name) as ->
    by (intros k; apply (slice_at []); [done|by rewrite length_name]).
  unfold name. rewrite take_ge by lia.
  apply strip_nul_padded, Hpath.
Qed.

Lemma header_prefix : strip_nul (slice 345 500 (build_header path type_flag size)) = [].
Proof using Hpath.
  unfold build_header. cbv zeta. unfold header_end.
  set (w := write_octal 7 _). assert (length w = 7%nat) as Hw by (apply length_write_octal; lia).
  match goal with |- context [slice 345 500 ?l] => assert (slice 345 500 l = replicate 155 0) as -> end; [|done].
  unfold slice. rewrite drop_app_ge by (rewrite length_start; lia). rewrite length_start.
  rewrite drop_app_ge by (rewrite Hw; lia). by rewrite Hw.
Qed.

Lemma header_path_built {E} p :
  path = bytes_of_string p -> str_ok p -> @header_path E (build_header path type_flag size) = Ok p.
Proof using Hpath.
  intros Hp Hok. unfold header_path. rewrite header_prefix, header_name. rewrite (bool_decide_eq_true_2 ([] = [])) by done.
  rewrite andb_false_r. cbn [app]. rewrite Hp, from_utf8_of_string by done. done.
Qed.

Lemma header_not_zero : all_zero (build_header path type_flag size) = false.
Proof using Hpath.
  destruct Hpath as (_ & _ & Hne & Hz). destruct path as [|b l]; [done|]. apply not_elem_of_cons in Hz as [Hz _].
  unfold all_zero. cbn. destruct (Z.eqb_spec b 0); [congruence|done].
Qed.
End Header.

(** *** Reading them back *)

Section Build.
Context {E : Type}.
Implicit Types (u : TarReader (sequence E)) (err : option E).

Lemma fill_front got rest err :
  read_full (length got) ((got ++ rest, err) : sequence E) = Ok (got, (rest, err)).
Proof.
  pose proof (read_full_spec (length got) ((got ++ rest, err) : sequence E) (got ++ rest) err eq_refl) as H.
  destruct (read_full _ _) as [[got' s]|e]; [|rewrite length_app in H; lia].
  rewrite take_app_length, drop_app_length in H. destruct H as [-> H]. rewrite length_app in H.
  destruct (Nat.leb_spec (length got) (length got + length rest)); [|lia]. by rewrite H.
Qed.

Lemma read_block_front block rest err :
  zlen block = BLOCK -> @read_block (sequence E) E _ (block ++ rest, err) = Ok (Full, block, (rest, err)).
Proof.
  intros Hb. unfold read_block. replace (Z.to_nat BLOCK) with (length block) by (unfold zlen in Hb; lia).
  rewrite fill_front. cbn [io map_err]. by rewrite Hb.
Qed.

Lemma consume_padding_front u padding rest err :
  tar_source u = (padding ++ rest, err) -> zlen padding = pending_padding u ->
  consume_padding u = Ok (at_source u (rest, err) (pending_body u) 0).
Proof.
  intros Hu Hp. unfold consume_padding. destruct (Z.eqb_spec (pending_padding u) 0) as [Hz|Hz].
  - destruct padding; [|rewrite zlen_cons in Hp; pose proof (zlen_nonneg padding); lia].
    destruct u; cbn in *; by subst.
  - replace (Z.to_nat (pending_padding u)) with (length padding) by (unfold zlen in Hp; lia).
    rewrite Hu, fill_front. cbn [io map_err]. rewrite Hp, Z.ltb_irrefl. done.
Qed.

Lemma read_member_body_front header u body padding rest err :
  tar_source u = (body ++ padding ++ rest, err) -> zlen body = pending_body u -> zlen padding = pending_padding u ->
  read_member_body (fun (s : unit) _ => s) header tt u =
    Ok (mkObservation (th_path header) (th_size header) (sha256 body), tt, at_source u (rest, err) 0 0).
Proof.
  intros Hu Hb Hp. unfold read_member_body.
  match goal with |- context [read_body ?f _ _ _] => set (sink := f) end.
  pose proof (read_body_spec sink (pending_body u) (new, tt) (tar_source u) _ err ltac:(rewrite <- Hb; apply zlen_nonneg) Hu) as H.
  rewrite zlen_app in H. pose proof (zlen_nonneg (padding ++ rest)).
  destruct (read_body _ _ _ _) as [[[o [h []]] s]|e]; [|lia]. destruct H as (chunks & Hf & Hc & -> & H).
  destruct (Z.leb_spec (pending_body u) (zlen body + zlen (padding ++ rest))); [|lia].
  replace (Z.to_nat (pending_body u)) with (length body) in Hc, H by (unfold zlen in Hb; lia).
  rewrite take_app_length in Hc. rewrite drop_app_length in H. cbn [io map_err].
  destruct (Z.ltb_spec (Z.min (pending_body u) (zlen body + zlen (padding ++ rest))) (pending_body u)); [lia|].
  rewrite (consume_padding_front _ padding rest err) by done.
  assert (forall cs h', foldl sink (h', tt) cs = (foldl update h' cs, tt)) as Hpair
    by (induction cs as [|c cs IH]; intros h'; [done|apply IH]).
  rewrite Hpair in Hf. injection Hf as ->. by rewrite streaming_spec, Hc, sha256_is_spec.
Qed.

Lemma safe_path_plain p : safe_path p -> bytes_of_string p <> [] /\ 0 ∉ bytes_of_string p.
Proof.
  intros Hs. pose proof (safe_validated (E:=unit) p Hs) as Hv. apply validate_path_ok in Hv. cbn zeta in Hv.
  destruct Hv as (_ & _ & _ & Hc & _ & Hne & _). split; [intros Hnil; apply Hne; by rewrite Hnil|].
  intros Hin. apply has_control_nul in Hin. congruence.
Qed.

Lemma member_rounds_front fuel u p body rest err :
  tar_source u = (build_header (bytes_of_string p) 48 (zlen body) ++ rest, err) -> buildable (p, body) ->
  next_path_override u = None -> next_size_override u = None -> p ∉ seen_paths u ->
  member_rounds (S fuel) u = Some (Ok (Some (mkHeader p (zlen body) 420),
    mkTar (rest, err) (zlen body) (padding_for (zlen body)) ({[p]} ∪ seen_paths u) (tar_finished u) None None)).
Proof.
  intros Hu (Hsafe & Hstr & Hlen & Hsize & Hbody) Hpo Hso Hnew. cbn [fst snd] in *.
  pose proof (safe_path_plain p Hsafe) as [Hne Hz]. pose proof (zlen_nonneg body).
  assert (bytes_ok (bytes_of_string p) /\ (length (bytes_of_string p) <= 100)%nat /\ bytes_of_string p <> [] /\ 0 ∉ bytes_of_string p)
    as Hp by (split_and!; [apply bytes_of_string_ok|unfold zlen in Hlen; lia|done|done]).
  assert (u8 48) as Hflag by done. assert (0 <= zlen body < 8 ^ 11) as Hs by lia.
  cbn [member_rounds]. rewrite Hu, read_block_front.
  2: { unfold zlen. rewrite (length_header _ _ _ Hp). done. }
  rewrite (header_not_zero _ _ _ Hp). unfold refuse at 1.
  rewrite (header_checksum _ _ _ Hp Hflag Hs).
  cbn [map_err]. rewrite (header_size _ _ _ Hp Hs). cbn [refuse map_err]. rewrite (header_flag _ _ _ Hp).
  assert (forall v, metadata 48 (zlen body) v = @None (result (Stop E) (TarReader (sequence E)))) as -> by done.
  unfold member. cbn [at_source next_path_override next_size_override]. rewrite Hpo, Hso.
  rewrite (header_path_built _ _ _ Hp p) by done. unfold refuse. cbn [map_err].
  rewrite safe_validated by done. cbn [map_err Z.eqb Pos.eqb orb seen_paths]. rewrite bool_decide_eq_false_2 by done.
  rewrite (header_mode _ _ _ Hp). done.
Qed.

Lemma observe_built fuel u members :
  Forall buildable members -> NoDup (map fst members) -> Forall (fun m => m.1 ∉ seen_paths u) members ->
  tar_source u = (build_archive members, None) -> tar_finished u = false -> pending_body u = 0 ->
  pending_padding u = 0 -> next_path_override u = None -> next_size_override u = None ->
  (length members + 2 <= fuel)%nat -> observe_rounds fuel u = Some (Ok (map observed members)).
Proof.
  revert u members. induction fuel as [|fuel IH]; intros u members Hall Hnd Hnew Hu Hf Hb Hp Hpo Hso Hl; [lia|].
  cbn [observe_rounds]. unfold next_member, skip_pending. rewrite Hf, Hb. cbn [Z.ltb Z.compare].
  rewrite (consume_padding_front u [] _ None) by (done || by rewrite Hp).
  set (v := at_source u _ _ 0). destruct Hall as [|[p body] members Hm Hall].
  { cbn [build_archive] in *. destruct fuel as [|fuel]; [lia|]. cbn [member_rounds]. subst v. cbn [at_source tar_source].
    change (2 * Z.to_nat BLOCK)%nat with (Z.to_nat BLOCK + Z.to_nat BLOCK)%nat. rewrite replicate_add.
    rewrite read_block_front by (unfold zlen; by rewrite length_replicate).
    assert (all_zero (replicate (Z.to_nat BLOCK) 0) = true) as Hz by (by vm_compute). rewrite Hz. unfold end_marker.
    cbn [at_source tar_source]. rewrite <- (app_nil_r (replicate _ 0)).
    rewrite read_block_front by (unfold zlen; by rewrite length_replicate). rewrite Hz. done. }
  cbn [build_archive] in Hu. unfold build_member in Hu. rewrite <- !app_assoc in Hu.
  inversion Hnew as [|? ? Hnew1 Hnew2]; subst. cbn [fst] in Hnew1. cbn [map fst] in Hnd. apply NoDup_cons in Hnd as [Hnin Hnd].
  rewrite (member_rounds_front fuel v p body (body ++ replicate (Z.to_nat (padding_for (zlen body))) 0 ++ build_archive members) None).
  2: { subst v. cbn [at_source tar_source build_archive]. unfold build_member. by rewrite <- !app_assoc. }
  2-5: done.
  assert (zlen (replicate (Z.to_nat (padding_for (zlen body))) 0) = padding_for (zlen body)) as Hpad.
  { unfold zlen. rewrite length_replicate. pose proof (padding_nonneg (zlen body)). unfold zlen in *. lia. }
  erewrite read_member_body_front; [|reflexivity|reflexivity|exact Hpad]. cbn [th_path th_size].
  rewrite (IH _ members); try done; cbn; [|cbn in Hl; lia].
  rewrite Forall_forall in Hnew2 |- *. intros m Hin. apply not_elem_of_union. split; [|by apply Hnew2].
  rewrite not_elem_of_singleton. intros Heq. apply Hnin. rewrite <- Heq. by apply list_elem_of_fmap_2.
Qed.
End Build.

(** C33. An archive of plain members is read back: for any members with distinct safe paths of
    at most 100 bytes and bodies whose size has eleven octal digits, the bytes the test suite's
    builder writes, delivered by any lawful source, are observed as those members in order with
    their sizes and digests. *)
Theorem built_archive_reads_back {R E} `{SourceLaws R E} fuel (r : R) members :
  src_delivers r (build_archive members, None) -> Forall buildable members -> NoDup (map fst members) ->
  (length members + 2 <= fuel)%nat -> observe_archive fuel r = Some (Ok (map observed members)).
Proof.
  intros Hr Hall Hnd Hf. rewrite (observe_same fuel r _ Hr). apply observe_built; try done.
  by apply Forall_forall.
Qed.

(** ** Instances *)

Lemma bytes_ok_check l : forallb (in_range 0 255) l = true -> bytes_ok l.
Proof.
  rewrite forallb_forall. intros H. apply Forall_forall. intros b Hb. apply list_elem_of_In, H in Hb.
  unfold in_range in Hb. unfold u8, U8_MAX. lia.
Qed.

Definition sample_members : list (string * bytes) := [("parameter.txt", bytes_of_string "CMDLINE"); ("img/boot.img", [])].

Definition sample_archive : bytes := Eval vm_compute in build_archive sample_members.

(** The archive in two answers. *)
Definition sample_answers : list (option bytes) := [Some (take 700 sample_archive); Some (drop 700 sample_archive)].

Lemma sample_archive_ok : bytes_ok sample_archive.
Proof. apply bytes_ok_check. vm_compute. reflexivity. Qed.

Lemma sample_answers_deliver : src_delivers sample_answers (sample_archive, None).
Proof.
  split; [|vm_compute; reflexivity].
  repeat apply Forall_cons_2; [| |apply Forall_nil_2]; (eexists; split; [reflexivity|]);
    apply bytes_ok_check; vm_compute; reflexivity.
Qed.

Lemma safe_path_check path : @validate_path unit path = Ok path -> safe_path path.
Proof. apply validated_safe. Qed.

Lemma sample_members_ok : Forall buildable sample_members /\ NoDup (map fst sample_members).
Proof.
  split; [|apply (bool_decide_eq_true_1 (NoDup (map fst sample_members))); vm_compute; reflexivity].
  repeat apply Forall_cons_2; [| |apply Forall_nil_2];
    (split_and!; [apply safe_path_check; vm_compute; reflexivity|vm_compute; reflexivity|vm_compute; discriminate
      |vm_compute; reflexivity|apply bytes_ok_check; vm_compute; reflexivity]).
Qed.

Lemma tar_reads_any_source_witness :
  exists result, observe_archive (S (length sample_archive)) sample_answers = Some result.
Proof.
  destruct (tar_reads_any_source sample_answers sample_archive None sample_answers_deliver sample_archive_ok) as [x Hx].
  exists x. exact (proj1 (Hx _ (Nat.lt_succ_diag_r _))).
Defined.

Lemma accepted_archive_is_sound_witness :
  archive_layout sample_archive (map observed sample_members) /\
  Forall (fun o => safe_path (to_path o)) (map observed sample_members) /\
  NoDup (map to_path (map observed sample_members)).
Proof.
  refine (accepted_archive_is_sound 4 sample_answers sample_archive None (map observed sample_members)
    sample_answers_deliver sample_archive_ok _).
  vm_compute. reflexivity.
Defined.

Lemma built_archive_reads_back_witness :
  observe_archive 4 sample_answers = Some (Ok (map observed sample_members)).
Proof.
  refine (built_archive_reads_back 4 sample_answers sample_members _ (proj1 sample_members_ok) (proj2 sample_members_ok) (le_n 4)).
  exact sample_answers_deliver.
Defined.

(** The hazards of the test suite. *)
Definition observe_bytes (data : bytes) : option (result (Stop unit) (list TarMemberObservation)) :=
  observe_archive (S (length data)) ((data, None) : sequence unit).

Example duplicate_after_normalisation :
  observe_bytes (build_archive [("./system.img", [97]); ("system.img", [98])]) =
    Some (Err (Refused (PathDuplicate "system.img"))).
Proof. vm_compute. reflexivity. Qed.

Example traversal_is_refused :
  observe_bytes (build_archive [("a/../system.img", [97])]) = Some (Err (Refused (PathTraversal "a/../system.img"))).
Proof. vm_compute. reflexivity. Qed.

(** A record length whose sum with the cursor overflows [usize] panics. *)
Example pax_length_overflow_panics :
  observe_bytes (build_member (bytes_of_string "pax") 120
      (bytes_of_string "6 a=b " ++ bytes_of_string "18446744073709551615 x=") ++ build_archive []) =
    Some (Err Panicked).
Proof. vm_compute. reflexivity. Qed.

(** A field padded with leading spaces reads as zero. *)
Example leading_spaces_read_as_zero : @parse_octal unit (bytes_of_string "    644 ") "mode" = Ok 0.
Proof. vm_compute. reflexivity. Qed.

(** A drive letter is a path like any other. *)
Example drive_letter_is_accepted : @validate_path unit "C:/boot.img" = Ok "C:/boot.img".
Proof. vm_compute. reflexivity. Qed.
