(* ===== verification/Manifest.v ===== *)
(** * Artifact manifests (crates/arkforge-artifact/src/manifest.rs)

    The facts a parser may produce: members, the partition table, build facts, unknowns and
    the confidence they leave, with their encodings and validation. *)

From stdpp Require Import gmap.
From S2P Require Import Prelude Cbor Sha256 Digest Authority Identity.

(** ** Data *)

Inductive ParserConfidence : Type := ResearchOnly | ProductionManifest.

#[global] Instance ParserConfidence_eq_dec : EqDecision ParserConfidence.
Proof. solve_decision. Defined.

Definition confidence_as_str (c : ParserConfidence) : string :=
  match c with ResearchOnly => "researchOnly" | ProductionManifest => "productionManifest" end.

Inductive MemberRole : Type :=
| PartitionTable
| Loader
| ImageCandidate
| Metadata
| Unclassified.

#[global] Instance MemberRole_eq_dec : EqDecision MemberRole.
Proof. solve_decision. Defined.

Definition role_as_str (r : MemberRole) : string :=
  match r with
  | PartitionTable => "partitionTable"
  | Loader => "loader"
  | ImageCandidate => "imageCandidate"
  | Metadata => "metadata"
  | Unclassified => "unclassified"
  end.

Record ArchiveMemberFact := mkMember {
  member_path : string;
  member_size : Z;
  member_sha256 : Sha256Digest;
  member_role : MemberRole
}.

Inductive PartitionAttribute : Type := Bootable | Grow.

#[global] Instance PartitionAttribute_eq_dec : EqDecision PartitionAttribute.
Proof. solve_decision. Defined.

Definition attribute_as_str (a : PartitionAttribute) : string :=
  match a with Bootable => "bootable" | Grow => "grow" end.

Definition attribute_parse (value : string) : option PartitionAttribute :=
  if String.eqb value "bootable" then Some Bootable
  else if String.eqb value "grow" then Some Grow
  else None.

Inductive GrammarBranch : Type := Fixed | FixedBootable | RemainderGrow.

Definition branch_as_str (b : GrammarBranch) : string :=
  match b with Fixed => "fixed" | FixedBootable => "fixedBootable" | RemainderGrow => "remainderGrow" end.

Record PartitionEntryFact := mkEntry {
  entry_index : Z;
  entry_name : string;
  offset_sectors : Z;
  size_sectors : option Z;
  entry_attribute : option PartitionAttribute;
  grammar_branch : GrammarBranch
}.

Record PartitionTableFact := mkTable {
  table_device : string;
  logical_block_size : Z;
  table_entries : list PartitionEntryFact
}.

(** [ExecutionUnknown] (crates/arkforge-core/src/plan.rs). *)
Record ExecutionUnknown := mkUnknown { unknown_id : OpaqueId; unknown_summary : string }.

Record ArtifactManifest := mkManifest {
  m_format : ArtifactFormat;
  m_content_digest : Sha256Digest;
  m_size_bytes : Z;
  m_members : list ArchiveMemberFact;
  m_partition_table : option PartitionTableFact;
  m_build_facts : list (OpaqueId * string);
  m_unclassified_members : list string;
  m_unknowns : list ExecutionUnknown;
  m_confidence : ParserConfidence
}.

Inductive ManifestError : Type :=
| DuplicateMember (path : string)
| DuplicatePartitionName (name : string)
| OverlappingPartitions (first second : string)
| RemainderNotLast (name : string)
| ZeroLengthPartition (name : string)
| ProductionManifestWithUnknowns (unknowns : list string).

(** ** Encodings *)

#[global] Instance member_cbor : CanonicalCbor ArchiveMemberFact := fun m =>
  map_of [("path", Text (member_path m)); ("sizeBytes", Unsigned (member_size m));
          ("sha256", to_cbor (member_sha256 m)); ("role", Text (role_as_str (member_role m)))]%string.

#[global] Instance entry_cbor : CanonicalCbor PartitionEntryFact := fun e =>
  map_of [("index", Unsigned (entry_index e)); ("name", Text (entry_name e));
          ("offsetSectors", Unsigned (offset_sectors e));
          ("sizeSectors", match size_sectors e with Some size => Unsigned size | None => Null end);
          ("attribute", match entry_attribute e with Some a => Text (attribute_as_str a) | None => Null end);
          ("grammarBranch", Text (branch_as_str (grammar_branch e)))]%string.

#[global] Instance table_cbor : CanonicalCbor PartitionTableFact := fun t =>
  map_of [("device", Text (table_device t)); ("logicalBlockSize", Unsigned (logical_block_size t));
          ("entries", Array (map to_cbor (table_entries t)))]%string.

#[global] Instance unknown_cbor : CanonicalCbor ExecutionUnknown := fun u =>
  map_of [("id", to_cbor (unknown_id u)); ("summary", Text (unknown_summary u))]%string.

#[global] Instance confidence_cbor : CanonicalCbor ParserConfidence := fun c => Text (confidence_as_str c).

#[global] Instance manifest_cbor : CanonicalCbor ArtifactManifest := fun m =>
  map_of [("format", to_cbor (m_format m)); ("contentDigest", to_cbor (m_content_digest m));
          ("sizeBytes", Unsigned (m_size_bytes m)); ("members", Array (map to_cbor (m_members m)));
          ("partitionTable", match m_partition_table m with Some t => to_cbor t | None => Null end);
          ("buildFacts", Map (map (fun '(key, value) => (to_cbor key, Text value)) (m_build_facts m)));
          ("unclassifiedMembers", Array (map Text (m_unclassified_members m)));
          ("executionRelevantUnknowns", Array (map to_cbor (m_unknowns m)));
          ("confidence", to_cbor (m_confidence m))]%string.

Definition manifest_digest_of (m : ArtifactManifest) : result CborError Sha256Digest :=
  digest_canonical DArtifactManifest m.

(** ** Validation *)

(** The loop over names with its [BTreeSet]: the first one seen before. *)
Fixpoint first_duplicate (seen : gset string) (names : list string) : option string :=
  match names with
  | [] => None
  | name :: names => if decide (name ∈ seen) then Some name else first_duplicate ({[name]} ∪ seen) names
  end.

Definition end_sector_exclusive (e : PartitionEntryFact) : option Z :=
  match size_sectors e with Some size => checked_add (offset_sectors e) size | None => None end.

Fixpoint check_sizes (entries : list PartitionEntryFact) : result ManifestError unit :=
  match entries with
  | [] => Ok tt
  | entry :: entries =>
      if bool_decide (size_sectors entry = None) && negb (bool_decide (length entries = 0%nat))
      then Err (RemainderNotLast (entry_name entry))
      else if bool_decide (size_sectors entry = Some 0) then Err (ZeroLengthPartition (entry_name entry))
      else check_sizes entries
  end.

(** The inner loop, for one [lhs] with its end. *)
Fixpoint check_right (lhs : PartitionEntryFact) (lhs_end : Z) (rest : list PartitionEntryFact) :
    result ManifestError unit :=
  match rest with
  | [] => Ok tt
  | rhs :: rest =>
      let rhs_end := default U64_MAX (end_sector_exclusive rhs) in
      if (offset_sectors lhs <? rhs_end) && (offset_sectors rhs <? lhs_end)
      then Err (OverlappingPartitions (entry_name lhs) (entry_name rhs))
      else check_right lhs lhs_end rest
  end.

Fixpoint check_overlaps (entries : list PartitionEntryFact) : result ManifestError unit :=
  match entries with
  | [] => Ok tt
  | lhs :: rest =>
      let? _ :=
        match end_sector_exclusive lhs with Some lhs_end => check_right lhs lhs_end rest | None => Ok tt end in
      check_overlaps rest
  end.

Definition table_validate (t : PartitionTableFact) : result ManifestError unit :=
  match first_duplicate ∅ (map entry_name (table_entries t)) with
  | Some name => Err (DuplicatePartitionName name)
  | None =>
      let? _ := check_sizes (table_entries t) in
      check_overlaps (table_entries t)
  end.

Definition table_entry (t : PartitionTableFact) (name : string) : option PartitionEntryFact :=
  List.find (fun entry => String.eqb (entry_name entry) name) (table_entries t).

Definition manifest_member (m : ArtifactManifest) (path : string) : option ArchiveMemberFact :=
  List.find (fun member => String.eqb (member_path member) path) (m_members m).

Definition manifest_validate (m : ArtifactManifest) : result ManifestError unit :=
  if bool_decide (m_confidence m = ProductionManifest) && negb (bool_decide (length (m_unknowns m) = 0%nat))
  then Err (ProductionManifestWithUnknowns (map (fun u => as_str (unknown_id u)) (m_unknowns m)))
  else
    let? _ := match m_partition_table m with Some table => table_validate table | None => Ok tt end in
    match first_duplicate ∅ (map member_path (m_members m)) with
    | Some path => Err (DuplicateMember path)
    | None => Ok tt
    end.

(** ** What validation means *)

Lemma first_duplicate_None seen names :
  first_duplicate seen names = None <-> NoDup names /\ forall name, name ∈ names -> name ∉ seen.
Proof.
  revert seen. induction names as [|name names IH]; intros seen; cbn [first_duplicate].
  { split; [intros _; split; [constructor|by intros ? ?%elem_of_nil]|done]. }
  rewrite NoDup_cons. destruct (decide (name ∈ seen)) as [Hin|Hin].
  { split; [done|]. intros [_ H]. exfalso. apply (H name); [by left|done]. }
  rewrite IH. split.
  - intros [Hnd H]. split_and!; [|done|].
    + intros Hn. apply (H name Hn). set_solver.
    + intros n [->|Hn]%elem_of_cons; [done|]. specialize (H n Hn). set_solver.
  - intros [[Hn Hnd] H]. split; [done|]. intros n Hin'. assert (n ∉ seen) by (apply H; by right).
    assert (n <> name) by (by intros ->). set_solver.
Qed.

(** A partition holds a sector; a remainder is open at the end. *)
Definition holds (e : PartitionEntryFact) (sector : Z) : Prop :=
  offset_sectors e <= sector /\ match size_sectors e with Some size => sector < offset_sectors e + size | None => True end.

(** Its extent ends inside a [u64]. *)
Definition extent_fits (e : PartitionEntryFact) : Prop :=
  u64 (offset_sectors e) /\ match size_sectors e with Some size => 0 <= size /\ offset_sectors e + size <= U64_MAX | None => True end.

Lemma end_of_fitting e size :
  extent_fits e -> size_sectors e = Some size -> end_sector_exclusive e = Some (offset_sectors e + size).
Proof.
  intros [Ho Hs] Hsize. rewrite Hsize in Hs. unfold end_sector_exclusive, checked_add. rewrite Hsize.
  destruct (Z.leb_spec (offset_sectors e + size) U64_MAX); [done|lia].
Qed.

(** Sectors below the last one a [u64] can number. *)
Definition apart (lhs rhs : PartitionEntryFact) : Prop :=
  forall sector, sector < U64_MAX -> holds lhs sector -> ~ holds rhs sector.

Definition positive (e : PartitionEntryFact) : Prop :=
  match size_sectors e with Some size => 0 < size | None => True end.

Lemma overlap_iff lhs size rhs :
  size_sectors lhs = Some size -> positive lhs -> positive rhs -> extent_fits lhs -> extent_fits rhs ->
  ((offset_sectors lhs <? default U64_MAX (end_sector_exclusive rhs)) &&
    (offset_sectors rhs <? offset_sectors lhs + size) = false <-> apart lhs rhs).
Proof.
  intros Hl Hp Hq Hfl Hfr. pose proof Hfl as [Hlo Hls]. pose proof Hfr as [Hro Hrs]. rewrite Hl in Hls.
  unfold positive in Hp, Hq. rewrite Hl in Hp. unfold apart, holds. rewrite Hl.
  set (lo := offset_sectors lhs) in *. set (ro := offset_sectors rhs) in *. unfold u64, U64_MAX in *.
  destruct (size_sectors rhs) as [rsize|] eqn:Er.
  - rewrite (end_of_fitting rhs rsize Hfr Er). cbn [from_option id]. fold ro.
    rewrite andb_false_iff, !Z.ltb_ge. split; [intros H sector Hs [H1 H2] [H3 H4]; lia|]. intros H.
    destruct (Z.le_gt_cases (ro + rsize) lo); [by left|right]. destruct (Z.le_gt_cases (lo + size) ro); [done|].
    exfalso. apply (H (Z.max lo ro)); lia.
  - assert (end_sector_exclusive rhs = None) as -> by (unfold end_sector_exclusive; by rewrite Er). cbn [from_option id].
    rewrite andb_false_iff, !Z.ltb_ge. split; [intros H sector Hs [H1 H2] [H3 H4]; lia|]. intros H. right.
    destruct (Z.le_gt_cases (lo + size) ro); [done|]. exfalso. apply (H (Z.max lo ro)); lia.
Qed.

Lemma check_right_iff lhs size rest :
  size_sectors lhs = Some size -> Forall positive (lhs :: rest) -> Forall extent_fits (lhs :: rest) ->
  (check_right lhs (offset_sectors lhs + size) rest = Ok tt <-> Forall (apart lhs) rest).
Proof.
  intros Hl Hpos Hfit. apply Forall_cons in Hfit as [Hfl Hfit]. apply Forall_cons in Hpos as [Hpl Hpos].
  induction Hfit as [|rhs rest Hfr _ IH]; cbn [check_right]; [done|]. apply Forall_cons in Hpos as [Hpr Hpos].
  rewrite Forall_cons, <- (IH Hpos). pose proof (overlap_iff lhs size rhs Hl Hpl Hpr Hfl Hfr) as Hiff.
  destruct (_ && _); [|tauto]. split; [done|]. intros [Ha _]. apply Hiff in Ha. done.
Qed.

(** Only the last partition is a remainder, and none is empty. *)
Fixpoint sizes_sound (entries : list PartitionEntryFact) : Prop :=
  match entries with
  | [] => True
  | entry :: entries =>
      (size_sectors entry = None -> entries = []) /\ size_sectors entry <> Some 0 /\ sizes_sound entries
  end.

Lemma check_sizes_iff entries : check_sizes entries = Ok tt <-> sizes_sound entries.
Proof.
  induction entries as [|entry entries IH]; [done|]. cbn [check_sizes sizes_sound].
  repeat case_bool_decide; cbn [andb negb]; rewrite ?IH; try done; destruct entries; naive_solver.
Qed.

Lemma check_overlaps_iff entries :
  Forall positive entries -> Forall extent_fits entries -> sizes_sound entries ->
  (check_overlaps entries = Ok tt <-> ForallOrdPairs apart entries).
Proof.
  intros Hpos Hfit. induction entries as [|lhs rest IH]; intros Hs; [split; [constructor|done]|].
  cbn [check_overlaps]. destruct Hs as (Hlast & _ & Hs). pose proof Hpos as Hpos'. pose proof Hfit as Hfit'.
  apply Forall_cons in Hpos' as [_ Hpos']. apply Forall_cons in Hfit' as [Hfl Hfit'].
  destruct (size_sectors lhs) as [size|] eqn:El.
  - rewrite (end_of_fitting lhs size Hfl El). pose proof (check_right_iff lhs size rest El Hpos Hfit) as Hr.
    destruct (check_right _ _ _) as [[]|e].
    + rewrite (IH Hpos' Hfit' Hs). split; [intros H; constructor; [by apply Hr|done]|by inversion 1].
    + split; [done|]. inversion 1 as [|? ? Hall _]; subst. by apply Hr in Hall.
  - rewrite (Hlast eq_refl). unfold end_sector_exclusive. rewrite El. cbn.
    split; [intros _; repeat constructor|done].
Qed.

(** A partition table whose extents end inside a [u64] is accepted exactly when its
    names are distinct, no partition is empty, only the last is a remainder, and no sector
    below the last a [u64] can number lies in two partitions. *)
Theorem table_validate_iff t :
  Forall extent_fits (table_entries t) ->
  (table_validate t = Ok tt <->
    NoDup (map entry_name (table_entries t)) /\ sizes_sound (table_entries t) /\
    ForallOrdPairs apart (table_entries t)).
Proof.
  intros Hfit. unfold table_validate. set (entries := table_entries t) in *.
  assert (NoDup (map entry_name entries) <-> first_duplicate ∅ (map entry_name entries) = None) as Hnd.
  { rewrite first_duplicate_None. split; [|tauto]. intros ?. split; [done|]. set_solver. }
  rewrite Hnd, <- check_sizes_iff. destruct (first_duplicate _ _); [split; [done|by intros []]|].
  destruct (check_sizes entries) as [[]|e] eqn:Es; [|split; [done|by intros (_ & ? & _)]].
  apply check_sizes_iff in Es. rewrite check_overlaps_iff; [tauto| |done|done].
  clear Hnd. induction entries as [|entry entries IH]; [constructor|]. apply Forall_cons in Hfit as [[_ Hf] Hfit].
  destruct Es as (_ & H0 & Es). constructor; [|by apply IH]. unfold positive.
  destruct (size_sectors entry) as [size|]; [|done]. assert (size <> 0) by congruence. lia.
Qed.

Definition sample_table : PartitionTableFact :=
  mkTable "rk29xxnand" 512
    [mkEntry 0 "uboot" 8192 (Some 8192) None Fixed; mkEntry 1 "misc" 16384 (Some 8192) None Fixed;
     mkEntry 2 "userdata" 19955712 None (Some Grow) RemainderGrow].

Lemma table_validate_iff_witness :
  NoDup (map entry_name (table_entries sample_table)) /\ sizes_sound (table_entries sample_table) /\
  ForallOrdPairs apart (table_entries sample_table).
Proof.
  refine (proj1 (table_validate_iff sample_table _) _); [|vm_compute; reflexivity].
  repeat (constructor; [unfold extent_fits, u64, U64_MAX; cbn; lia|]). constructor.
Defined.

(** A fixed extent that ends past a [u64] has no end, and is compared with nothing behind
    it: these two share their sectors. *)
Example overflowing_extent_overlaps :
  table_validate (mkTable "rk29xxnand" 512
    [mkEntry 0 "a" (2 ^ 63) (Some (2 ^ 63)) None Fixed; mkEntry 1 "b" (2 ^ 63 + 8) (Some 8) None Fixed]) = Ok tt.
Proof. vm_compute. reflexivity. Qed.

(** Extents need not be in order. *)
Example out_of_order_table_is_accepted :
  table_validate (mkTable "rk29xxnand" 512
    [mkEntry 0 "misc" 16384 (Some 8192) None Fixed; mkEntry 1 "uboot" 8192 (Some 8192) None Fixed]) = Ok tt.
Proof. vm_compute. reflexivity. Qed.
