(* ===== verification/Dayu200.v ===== *)
(** * The DAYU200 archive parser (crates/arkforge-artifact/src/dayu200.rs)

    The [mtdparts] grammar of [parameter.txt], the build-fact scanner, and the inspection of
    a decompressed archive, over any byte source. *)

From stdpp Require Import gmap.
From S2P Require Import Prelude Text Cbor Sha256 Digest Authority Identity Bits Source Tar TarSound Manifest.

Definition FORMAT_ID : string := "rockchip-images-targz".
Definition FORMAT_VERSION : Version := mkVersion 1 0 0.
Definition PARTITION_TABLE_MEMBER : string := "parameter.txt".
Definition LOADER_MEMBER : string := "MiniLoaderAll.bin".
Definition BUILD_FACT_KEYS : list string := ["const.ohos.fullname"; "const.product.model"; "const.product.name"]%string.
Definition MAX_VALUE_LEN : nat := 256.

(** ** The partition table grammar *)

Inductive ParameterError : Type :=
| MissingCmdline
| MissingMtdparts
| MissingDevice
| EmptyPartitionList
| MalformedPartition (descriptor : string)
| UnknownAttribute (partition attribute : string)
| BadHex (partition field value : string)
| NotUtf8
| TooLarge (size : Z).

Definition is_ascii_hexdigit (c : Z) : bool := in_range 48 57 c || in_range 65 70 c || in_range 97 102 c.

Definition parse_hex (text : bytes) : option Z :=
  let digits :=
    match strip_prefix (bytes_of_string "0x") text with
    | Some digits => Some digits
    | None => strip_prefix (bytes_of_string "0X") text
    end in
  match digits with
  | None | Some [] => None
  | Some digits => if forallb is_ascii_hexdigit digits then from_str_radix 16 digits else None
  end.

Definition attribute_of (name : string) (text : option bytes) : result ParameterError (option PartitionAttribute) :=
  match text with
  | None => Ok None
  | Some text =>
      let text := string_of_bytes text in
      match attribute_parse text with Some a => Ok (Some a) | None => Err (UnknownAttribute name text) end
  end.

Definition parse_partition (index : Z) (descriptor : bytes) : result ParameterError PartitionEntryFact :=
  let malformed := MalformedPartition (string_of_bytes descriptor) in
  let? (size_text, rest) := ok_or (split_once 64 descriptor) malformed in
  let? open := ok_or (index_of 40 rest) malformed in
  if negb (ends_with [41] rest) then Err malformed
  else
    let offset_text := take open rest in
    let inside := slice (S open) (length rest - 1) rest in
    if bool_decide (inside = []) then Err malformed
    else
      let '(name, attribute_text) :=
        match split_once 58 inside with Some (name, attribute) => (name, Some attribute) | None => (inside, None) end in
      if bool_decide (name = []) then Err malformed
      else
        let name := string_of_bytes name in
        let? attribute := attribute_of name attribute_text in
        let? size_sectors :=
          (if bool_decide (size_text = [45]) then Ok None
           else
             let? size := ok_or (parse_hex size_text) (BadHex name "size" (string_of_bytes size_text)) in
             Ok (Some size)) in
        let? offset_sectors := ok_or (parse_hex offset_text) (BadHex name "offset" (string_of_bytes offset_text)) in
        let? grammar_branch :=
          match size_sectors, attribute with
          | None, Some Grow => Ok RemainderGrow
          | Some _, Some Bootable => Ok FixedBootable
          | Some _, None => Ok Fixed
          | _, _ => Err malformed
          end in
        Ok (mkEntry index name offset_sectors size_sectors attribute grammar_branch).

Fixpoint parse_partitions (index : Z) (descriptors : list bytes) : result ParameterError (list PartitionEntryFact) :=
  match descriptors with
  | [] => Ok []
  | descriptor :: descriptors =>
      let descriptor := trim descriptor in
      if bool_decide (descriptor = []) then Err EmptyPartitionList
      else
        let? entry := parse_partition index descriptor in
        let? entries := parse_partitions (wrap 32 (index + 1)) descriptors in
        Ok (entry :: entries)
  end.

(** [find_map] of a prefix. *)
Fixpoint find_prefixed (p : bytes) (words : list bytes) : option bytes :=
  match words with
  | [] => None
  | word :: words => match strip_prefix p word with Some rest => Some rest | None => find_prefixed p words end
  end.

Definition parse_parameter (text : string) (logical_block_size : Z) : result ParameterError PartitionTableFact :=
  let? cmdline :=
    ok_or (List.find (starts_with (bytes_of_string "CMDLINE:")) (map trim (lines (bytes_of_string text)))) MissingCmdline in
  let body := drop 8 cmdline in
  let? mtdparts := ok_or (find_prefixed (bytes_of_string "mtdparts=") (split_whitespace body)) MissingMtdparts in
  let? (device, list_) := ok_or (split_once 58 mtdparts) MissingDevice in
  if bool_decide (device = []) then Err MissingDevice
  else if bool_decide (list_ = []) then Err EmptyPartitionList
  else
    let? entries := parse_partitions 0 (split_on 44 list_) in
    Ok (mkTable (string_of_bytes device) logical_block_size entries).

(** ** Build facts *)

(** [find]: the first occurrence of [needle]. *)
Fixpoint find_bytes (haystack needle : bytes) : option nat :=
  if bool_decide (needle = []) then None
  else if starts_with needle haystack then Some O
  else match haystack with [] => None | _ :: haystack => option_map S (find_bytes haystack needle) end.

Definition is_terminator (byte : Z) : bool :=
  (byte =? 10) || (byte =? 13) || (byte =? 0) || (byte =? 32) || (byte =? 9).

(** The index of the first byte with a property. *)
Fixpoint index_where (f : Z -> bool) (l : bytes) : option nat :=
  match l with [] => None | x :: l => if f x then Some O else option_map S (index_where f l) end.

Definition value_after (window : bytes) (start : nat) (at_end_of_member : bool) : option bytes :=
  if (length window <? start)%nat then None
  else
    let bounded := take (MAX_VALUE_LEN + 2) (drop start window) in
    match bounded with
    | 34 :: quoted => option_map (fun close => take close quoted) (index_of 34 quoted)
    | _ =>
        match index_where is_terminator bounded with
        | Some index => Some (take index bounded)
        | None => if at_end_of_member then Some bounded else None
        end
    end.

(** The found facts, a [BTreeMap]: the first value of a key stays. *)
Definition found_facts : Type := list (string * string).

Definition insert_first (key value : string) (found : found_facts) : found_facts :=
  match bt_get key found with Some _ => found | None => bt_insert key value found end.

(** The value at one occurrence of a key, as the fact it makes. *)
Definition fact_at (window : bytes) (start : nat) (at_end_of_member : bool) : option string :=
  match value_after window start at_end_of_member with
  | None => None
  | Some value =>
      if bool_decide (value = []) || (MAX_VALUE_LEN <? length value)%nat then None
      else
        match from_utf8 value with
        | None => None
        | Some _ =>
            let text := trim value in
            if bool_decide (text = []) || existsb is_control (chars text) then None
            else Some (string_of_bytes text)
        end
  end.

(** The loop over the occurrences of one key from [from]; each moves past its needle. *)
Fixpoint scan_key (rounds : nat) (key : string) (window : bytes) (from : nat) (at_end_of_member : bool)
    (found : found_facts) : found_facts :=
  match rounds with
  | O => found
  | S rounds =>
      let needle := bytes_of_string key ++ [61] in
      match find_bytes (drop from window) needle with
      | None => found
      | Some offset =>
          let start := (from + offset + length needle)%nat in
          let found :=
            match fact_at window start at_end_of_member with Some text => insert_first key text found | None => found end in
          scan_key rounds key window start at_end_of_member found
      end
  end.

Definition scan (window : bytes) (at_end_of_member : bool) (found : found_facts) : found_facts :=
  foldl (fun found key => scan_key (S (length window)) key window 0 at_end_of_member found) found BUILD_FACT_KEYS.

Record BuildFactScanner := mkScanner { tail_ : bytes; found_ : found_facts }.

Definition scanner_new : BuildFactScanner := mkScanner [] [].

Definition KEEP : nat := MAX_VALUE_LEN + foldr Nat.max 0%nat (map (fun key => length (bytes_of_string key)) BUILD_FACT_KEYS).

Definition push (s : BuildFactScanner) (chunk : bytes) : BuildFactScanner :=
  let window := tail_ s ++ chunk in
  let found := scan window false (found_ s) in
  mkScanner (if (KEEP <? length window)%nat then drop (length window - KEEP) window else window) found.

Definition scanner_finish (s : BuildFactScanner) : found_facts := scan (tail_ s) true (found_ s).

(** ** Inspection *)

Inductive Dayu200ParseError (E : Type) : Type :=
| ArchiveFailed (e : ArchiveError E)
| ParameterFailed (e : ParameterError)
| ManifestFailed (e : ManifestError)
| ContradictoryBuildFact (key first second : string)
| ParsePanicked.
Arguments ArchiveFailed {E}. Arguments ParameterFailed {E}. Arguments ManifestFailed {E}.
Arguments ContradictoryBuildFact {E}. Arguments ParsePanicked {E}.

Definition of_stop {E} (s : Stop E) : Dayu200ParseError E :=
  match s with Refused e => ArchiveFailed e | Panicked => ParsePanicked end.

Definition classify (path : string) : MemberRole :=
  let l := bytes_of_string path in
  if String.eqb path PARTITION_TABLE_MEMBER then PartitionTable
  else if String.eqb path LOADER_MEMBER then Loader
  else if ends_with (bytes_of_string ".img") l then ImageCandidate
  else if ends_with (bytes_of_string ".cfg") l || ends_with (bytes_of_string ".xml") l || ends_with (bytes_of_string ".log") l
  then Metadata
  else Unclassified.

(** What the loop over the members has gathered. *)
Record Gathered := mkGathered {
  g_members : list ArchiveMemberFact;
  g_unclassified : list string;
  g_parameter_text : option string;
  g_build_facts : list (string * (string * string))
}.

(** The facts of one image, merged into those known; a [BTreeMap] iterates by key. *)
Fixpoint merge_facts {E} (path : string) (facts : found_facts) (known : list (string * (string * string))) :
    result (Dayu200ParseError E) (list (string * (string * string))) :=
  match facts with
  | [] => Ok known
  | (key, value) :: facts =>
      match bt_get key known with
      | Some (existing, source) =>
          if negb (String.eqb existing value)
          then Err (ContradictoryBuildFact key (existing ++ " (from " ++ source ++ ")") (value ++ " (from " ++ path ++ ")"))
          else merge_facts path facts known
      | None => merge_facts path facts (bt_insert key (value, path) known)
      end
  end%string.

(** The sink of a member: its bytes for the parameter file, its facts for an image. *)
Definition member_sink (role : MemberRole) (s : bytes * BuildFactScanner) (chunk : bytes) : bytes * BuildFactScanner :=
  (if bool_decide (role = PartitionTable) then s.1 ++ chunk else s.1,
   if bool_decide (role = ImageCandidate) then push s.2 chunk else s.2).

Section Inspect.
Context {R E : Type} `{ReadSource R E}.

(** The body of the loop, for one header. *)
Definition inspect_member (header : TarMemberHeader) (t : TarReader R) (g : Gathered) :
    result (Dayu200ParseError E) (Gathered * TarReader R) :=
  let role := classify (th_path header) in
  let unclassified :=
    if bool_decide (role = Unclassified) then g_unclassified g ++ [th_path header] else g_unclassified g in
  if bool_decide (role = PartitionTable) && (2 ^ 20 <? th_size header)
  then Err (ParameterFailed (TooLarge (th_size header)))
  else
    let? (observation, s, t) :=
      map_err of_stop (read_member_body (member_sink role) header ([], scanner_new) t) in
    let? parameter_text :=
      (if bool_decide (role = PartitionTable) then
         let? text := ok_or (from_utf8 s.1) (ParameterFailed NotUtf8) in Ok (Some text)
       else Ok (g_parameter_text g)) in
    let? build_facts :=
      (if bool_decide (role = ImageCandidate) then merge_facts (th_path header) (scanner_finish s.2) (g_build_facts g)
       else Ok (g_build_facts g)) in
    Ok (mkGathered
          (g_members g ++ [mkMember (to_path observation) (to_size observation) (to_sha256 observation) role])
          unclassified parameter_text build_facts, t).

Fixpoint inspect_rounds (fuel : nat) (t : TarReader R) (g : Gathered) :
    option (result (Dayu200ParseError E) Gathered) :=
  match fuel with
  | O => None
  | S fuel' =>
      match next_member fuel t with
      | None => None
      | Some (Err e) => Some (Err (of_stop e))
      | Some (Ok (None, _)) => Some (Ok g)
      | Some (Ok (Some header, t)) =>
          match inspect_member header t g with
          | Err e => Some (Err e)
          | Ok (g, t) => inspect_rounds fuel' t g
          end
      end
  end.

(** [join] of strings. *)
Fixpoint join_text (separator : string) (l : list string) : string :=
  match l with
  | [] => ""
  | [x] => x
  | x :: l => x ++ separator ++ join_text separator l
  end%string.

Definition literal_id (text : string) : OpaqueId := mkId text.

(** The unknowns a bundle leaves open, and its table. *)
Definition conclude (g : Gathered) : result (Dayu200ParseError E) ArtifactManifest :=
  let? (partition_table, unknowns) :=
    match g_parameter_text g with
    | Some text =>
        let? table := map_err ParameterFailed (parse_parameter text 512) in
        let? _ := map_err ManifestFailed (table_validate table) in
        Ok (Some table, [])
    | None =>
        Ok (None, [mkUnknown (literal_id "RK-A01")
                     ("archive carries no " ++ PARTITION_TABLE_MEMBER ++ "; the on-device layout is undeclared")])
    end in
  let unknowns :=
    if bool_decide (g_unclassified g = []) then unknowns
    else unknowns ++ [mkUnknown (literal_id "RK-A02")
                        ("unclassified archive members: " ++ join_text ", " (g_unclassified g))] in
  let unknowns :=
    if bool_decide (g_build_facts g = []) then
      unknowns ++ [mkUnknown (literal_id "RK-A03") "no build facts were found inside any hashed image member"]
    else unknowns in
  let confidence := if bool_decide (length unknowns = 0%nat) then ProductionManifest else ResearchOnly in
  let manifest :=
    mkManifest (mkFormat (literal_id FORMAT_ID) FORMAT_VERSION) (sha256 []) 0 (g_members g) partition_table
      (omap (fun '(key, (value, _)) =>
         match OpaqueId_new key with Ok id => Some (id, value) | Err _ => None end) (g_build_facts g))
      (g_unclassified g) unknowns confidence in
  let? _ := map_err ManifestFailed (manifest_validate manifest) in
  Ok manifest.

Definition inspect_decompressed (fuel : nat) (source : R) : option (result (Dayu200ParseError E) ArtifactManifest) :=
  match inspect_rounds fuel (tar_new source) (mkGathered [] [] None []) with
  | None => None
  | Some (Err e) => Some (Err e)
  | Some (Ok g) => Some (conclude g)
  end.
End Inspect.

(** ** What an accepted manifest says *)

Section Sound.
Context {R E : Type} `{ReadSource R E}.

(** What a sink keeps does not change what is read. *)
Lemma body_rounds_sinks {S S'} (sink : S -> bytes -> S) (sink' : S' -> bytes -> S') h s s' rounds remaining observed (r : R) :
  agree (fun x y => x.1.1 = y.1.1 /\ x.1.2.1 = y.1.2.1 /\ x.2 = y.2)
    (body_rounds (fun '(h, s) c => (update h c, sink s c)) rounds remaining observed (h, s) r)
    (body_rounds (fun '(h, s) c => (update h c, sink' s c)) rounds remaining observed (h, s') r).
Proof.
  revert h s s' remaining observed r. induction rounds as [|rounds IH]; intros h s s' remaining observed r; [done|].
  cbn [body_rounds]. destruct (0 <? remaining); [|done]. destruct (src_read _ r) as [[chunk r']|e]; [|done].
  destruct chunk; [done|]. apply IH.
Qed.

Lemma member_body_sinks {S S'} (sink : S -> bytes -> S) (sink' : S' -> bytes -> S') header s s' (t : TarReader R) :
  agree (fun x y => x.1.1 = y.1.1 /\ x.2 = y.2) (read_member_body sink header s t) (read_member_body sink' header s' t).
Proof.
  unfold read_member_body, read_body.
  pose proof (body_rounds_sinks sink sink' new s s' (Z.to_nat (pending_body t)) (pending_body t) 0 (tar_source t)) as Hb.
  destruct (body_rounds _ _ _ 0 (new, s) _) as [[[o [h x]] r]|e], (body_rounds _ _ _ 0 (new, s') _) as [[[o' [h' x']] r']|e'];
    cbn in Hb; try done; [|by subst].
  destruct Hb as (-> & -> & ->). cbn [io map_err]. destruct (_ <? _); [done|]. by destruct (consume_padding _).
Qed.

Definition fact_of (o : TarMemberObservation) : ArchiveMemberFact :=
  mkMember (to_path o) (to_size o) (to_sha256 o) (classify (to_path o)).

Definition unclassified_of (obs : list TarMemberObservation) : list string :=
  filter (fun path => classify path = Unclassified) (map to_path obs).

Lemma observation_path {S} (sink : S -> bytes -> S) header s (t : TarReader R) o x t' :
  read_member_body sink header s t = Ok (o, x, t') -> to_path o = th_path header.
Proof.
  unfold read_member_body. destruct (io _) as [[[n [h y]] r]|e]; [|done]. destruct (_ <? _); [done|].
  destruct (consume_padding _); [|done]. by intros [= <- _ _].
Qed.

Lemma inspect_rounds_observe fuel (t : TarReader R) g g' :
  inspect_rounds fuel t g = Some (Ok g') ->
  exists obs, observe_rounds fuel t = Some (Ok obs) /\ g_members g' = g_members g ++ map fact_of obs /\
    g_unclassified g' = g_unclassified g ++ unclassified_of obs.
Proof.
  revert t g. induction fuel as [|fuel IH]; intros t g; [done|]. cbn [inspect_rounds observe_rounds].
  destruct (next_member (Datatypes.S fuel) t) as [[[[header|] t1]|e]|]; try done.
  2: { intros [= <-]. exists []. by rewrite !app_nil_r. }
  unfold inspect_member. set (role := classify (th_path header)). destruct (_ && _); [done|].
  pose proof (member_body_sinks (member_sink role) (fun (s : unit) _ => s) header ([], scanner_new) tt t1) as Hs.
  destruct (read_member_body (member_sink role) header _ t1) as [[[o s] t2]|e] eqn:Er; [|done].
  destruct (read_member_body _ header tt t1) as [[[o' []] t2']|e']; [|done]. cbn in Hs. destruct Hs as [<- <-].
  apply observation_path in Er. cbn [map_err].
  destruct (if bool_decide (role = PartitionTable) then _ else _) as [text|e]; [|done].
  destruct (if bool_decide (role = ImageCandidate) then _ else _) as [facts|e]; [|done].
  intros Hg. apply IH in Hg as (obs & -> & -> & ->). exists (o :: obs). cbn [g_members g_unclassified map].
  rewrite <- app_assoc. cbn [app]. split_and!; [done| |].
  - unfold fact_of at 2. by rewrite Er.
  - unfold unclassified_of. cbn [map]. rewrite filter_cons, Er. fold role.
    destruct (decide (role = Unclassified)) as [Hu|Hu].
    + rewrite bool_decide_eq_true_2 by done. by rewrite <- app_assoc.
    + by rewrite bool_decide_eq_false_2.
Qed.

Lemma conclude_ok (g : Gathered) m :
  conclude (E:=E) g = Ok m ->
  m_members m = g_members g /\ m_unclassified_members m = g_unclassified g /\ manifest_validate m = Ok tt /\
  (m_confidence m = ProductionManifest <-> m_unknowns m = []) /\
  (m_unknowns m = [] <-> g_unclassified g = [] /\ g_build_facts g <> [] /\ is_Some (g_parameter_text g)) /\
  m_partition_table m =
    match g_parameter_text g with
    | Some text => match parse_parameter text 512 with Ok table => Some table | Err _ => None end
    | None => None
    end /\
  (is_Some (g_parameter_text g) -> is_Some (m_partition_table m)).
Proof.
  unfold conclude. intros Hc.
  destruct (g_parameter_text g) as [text|].
  - destruct (parse_parameter text 512) as [table|e]; [|done]. cbn [map_err] in Hc.
    destruct (table_validate table) as [[]|e]; [|done]. cbn [map_err] in Hc.
    match type of Hc with context [manifest_validate ?x] => set (manifest := x) in Hc end.
    destruct (manifest_validate manifest) as [[]|e] eqn:Ev; [|done]. injection Hc as <-. subst manifest.
    cbn [m_members m_unclassified_members m_confidence m_unknowns m_partition_table].
    split_and!; try done; repeat case_bool_decide; cbn; naive_solver.
  - match type of Hc with context [manifest_validate ?x] => set (manifest := x) in Hc end.
    destruct (manifest_validate manifest) as [[]|e] eqn:Ev; [|done]. injection Hc as <-. subst manifest.
    cbn [m_members m_unclassified_members m_confidence m_unknowns m_partition_table].
    split_and!; try done; repeat case_bool_decide; cbn; naive_solver.
Qed.

Lemma body_rounds_chunks {S} (sink : S -> bytes -> S) rounds remaining observed s (r : R) o s' r' :
  body_rounds sink rounds remaining observed s r = Ok (o, s', r') -> exists chunks, s' = foldl sink s chunks.
Proof.
  revert remaining observed s r. induction rounds as [|rounds IH]; intros remaining observed s r; cbn [body_rounds].
  { intros [= _ <- _]. by exists []. }
  destruct (0 <? remaining); [|intros [= _ <- _]; by exists []].
  destruct (src_read _ r) as [[chunk r1]|e]; [|done]. destruct chunk as [|b chunk]; [intros [= _ <- _]; by exists []|].
  intros Hb. apply IH in Hb as [chunks ->]. by exists ((b :: chunk) :: chunks).
Qed.

(** The bytes of the parameter file are those its digest was taken of. *)
Lemma parameter_bytes header (t : TarReader R) o s t' :
  read_member_body (member_sink PartitionTable) header ([], scanner_new) t = Ok (o, s, t') -> to_sha256 o = sha256 s.1.
Proof.
  unfold read_member_body, read_body.
  destruct (body_rounds _ _ _ _ _ _) as [[[n [h y]] r]|e] eqn:Eb; [|done]. cbn [io map_err].
  apply body_rounds_chunks in Eb as [chunks Hc]. destruct (_ <? _); [done|]. destruct (consume_padding _); [|done].
  intros [= <- <- _]. cbn [to_sha256].
  assert (forall cs h0 (b : bytes) z, foldl (fun '(hasher, s) chunk => (update hasher chunk, member_sink PartitionTable s chunk))
    (h0, (b, z)) cs = (foldl update h0 cs, (b ++ concat cs, z))) as Hf.
  { induction cs as [|c cs IH]; intros h0 b z; cbn [foldl concat]; [by rewrite app_nil_r|].
    etransitivity; [apply (IH (update h0 c) (b ++ c) z)|by rewrite <- app_assoc]. }
  unfold scanner_new in Hc. rewrite Hf in Hc. injection Hc as -> ->. cbn [fst]. by rewrite streaming_spec, sha256_is_spec.
Qed.

(** A parameter text was read from a member of that name. *)
Definition parameter_source (obs : list TarMemberObservation) (text : string) : Prop :=
  exists o body, o ∈ obs /\ to_path o = PARTITION_TABLE_MEMBER /\ to_sha256 o = sha256 body /\
    from_utf8 body = Some text.

Lemma classify_table path : classify path = PartitionTable -> path = PARTITION_TABLE_MEMBER.
Proof. unfold classify. destruct (String.eqb_spec path PARTITION_TABLE_MEMBER); [done|]. by repeat case_match. Qed.

Lemma inspect_rounds_parameter fuel (t : TarReader R) g g' obs :
  inspect_rounds fuel t g = Some (Ok g') -> observe_rounds fuel t = Some (Ok obs) ->
  g_parameter_text g' = g_parameter_text g \/
  exists text, g_parameter_text g' = Some text /\ parameter_source obs text.
Proof.
  revert t g obs. induction fuel as [|fuel IH]; intros t g obs; [done|]. cbn [inspect_rounds observe_rounds].
  destruct (next_member (Datatypes.S fuel) t) as [[[[header|] t1]|e]|]; try done.
  2: { intros [= <-]. by left. }
  unfold inspect_member. set (role := classify (th_path header)). destruct (_ && _); [done|].
  pose proof (member_body_sinks (member_sink role) (fun (s : unit) _ => s) header ([], scanner_new) tt t1) as Hs.
  destruct (read_member_body (member_sink role) header _ t1) as [[[o s] t2]|e] eqn:Er; [|done].
  destruct (read_member_body _ header tt t1) as [[[o' []] t2']|e']; [|done]. cbn in Hs. destruct Hs as [<- <-].
  pose proof (observation_path _ _ _ _ _ _ _ Er) as Hp. cbn [map_err].
  destruct (decide (role = PartitionTable)) as [Hrole|Hrole].
  - rewrite bool_decide_eq_true_2 by done. destruct (from_utf8 s.1) as [text|] eqn:Eu; [|done]. cbn [ok_or].
    destruct (if bool_decide _ then _ else _) as [facts|e]; [|done].
    destruct (observe_rounds fuel t2) as [[obs'|e]|] eqn:Eo; [|done|done]. intros Hg [= <-].
    destruct (IH _ _ obs' Hg Eo) as [Hsame|(text' & Ht & o1 & l1 & Hin & Ho1)].
    + right. exists text. split; [done|]. exists o, s.1. split; [by left|]. split; [by rewrite Hp; apply classify_table|].
      rewrite Hrole in Er. by rewrite (parameter_bytes _ _ _ _ _ Er).
    + right. exists text'. split; [done|]. exists o1, l1. split; [by right|done].
  - rewrite bool_decide_eq_false_2 by done. destruct (if bool_decide _ then _ else _) as [facts|e]; [|done].
    destruct (observe_rounds fuel t2) as [[obs'|e]|] eqn:Eo; [|done|done]. intros Hg [= <-].
    destruct (IH _ _ obs' Hg Eo) as [Hsame|(text' & Ht & o1 & l1 & Hin & Ho1)]; [by left|].
    right. exists text'. split; [done|]. exists o1, l1. split; [by right|done].
Qed.
End Sound.

(** C27. An accepted manifest is a true account of the archive: its members are exactly the
    archive's, in order, each with the size and SHA-256 of its own bytes and the role its
    name gives it; the partition table is what the grammar reads in a member named
    [parameter.txt], and valid; unclassified members are listed; and it claims to be a
    production manifest exactly when no unknown is open, which needs every member
    classified and a table. *)
Theorem inspect_is_sound {R E} `{SourceLaws R E} fuel (r : R) data err m :
  src_delivers r (data, err) -> bytes_ok data -> inspect_decompressed fuel r = Some (Ok m) ->
  exists obs, archive_layout data obs /\ m_members m = map fact_of obs /\
    Forall (fun o => safe_path (to_path o)) obs /\ NoDup (map to_path obs) /\
    m_unclassified_members m = unclassified_of obs /\
    (forall table, m_partition_table m = Some table -> table_validate table = Ok tt /\
       exists text, parameter_source obs text /\ parse_parameter text 512 = Ok table) /\
    (m_confidence m = ProductionManifest <-> m_unknowns m = []) /\
    (m_unknowns m = [] -> unclassified_of obs = [] /\ is_Some (m_partition_table m)).
Proof.
  intros Hr Hd. unfold inspect_decompressed. destruct (inspect_rounds _ _ _) as [[g|e]|] eqn:Ei; [|done|done].
  intros [= Hc]. destruct (inspect_rounds_observe _ _ _ _ Ei) as (obs & Ho & Hm & Hu). cbn [g_members g_unclassified app] in Hm, Hu.
  pose proof (inspect_rounds_parameter _ _ _ _ _ Ei Ho) as Hp. exists obs.
  pose proof (observe_same fuel r _ Hr) as Hsame. unfold observe_archive in Hsame. rewrite Ho in Hsame.
  destruct (observe_rounds_takes fuel (tar_new ((data, err) : sequence E)) data err obs) as (Hl & Hs & Hn); try done.
  destruct (conclude_ok g m Hc) as (H1 & H2 & H3 & H4 & H5 & H6 & H7).
  rewrite H1, H2, Hm, Hu. split_and!; try done.
  - eapply Forall_impl; [exact Hs|]. by intros o [? _].
  - intros table Ht. split.
    + unfold manifest_validate in H3. destruct (_ && _); [done|]. rewrite Ht in H3. by destruct (table_validate table) as [[]|].
    + rewrite H6 in Ht. destruct Hp as [Hp|(text & Hp & Hsrc)]; rewrite Hp in Ht; [done|]. exists text. split; [done|].
      by destruct (parse_parameter text 512); [injection Ht as ->|].
  - intros Hnil. apply H5 in Hnil as (Hg & _ & Ht). rewrite <- Hu. split; [done|by apply H7].
Qed.

(** A bundle with a table and one image carrying a build fact. *)
Definition sample_bundle : bytes :=
  build_archive
    [("parameter.txt"%string,
      bytes_of_string "CMDLINE: console=ttyFIQ0 mtdparts=rk29xxnand:0x2000@0x2000(uboot),-@0x4000(userdata:grow)");
     ("system.img"%string, bytes_of_string "const.product.model=DAYU200" ++ [10])].

Lemma sample_bundle_ok : bytes_ok sample_bundle.
Proof. apply bytes_ok_check. vm_compute. reflexivity. Qed.

Lemma sample_bundle_delivers : src_delivers ((sample_bundle, None) : sequence unit) (sample_bundle, None).
Proof. reflexivity. Qed.

Lemma inspect_is_sound_witness :
  exists m obs, inspect_decompressed 4 ((sample_bundle, None) : sequence unit) = Some (Ok m) /\
    archive_layout sample_bundle obs /\ m_members m = map fact_of obs /\ m_confidence m = ProductionManifest.
Proof.
  destruct (inspect_decompressed 4 ((sample_bundle, None) : sequence unit)) as [[m|e]|] eqn:Hm;
    [|vm_compute in Hm; discriminate Hm|vm_compute in Hm; discriminate Hm].
  destruct (inspect_is_sound 4 _ sample_bundle None m sample_bundle_delivers sample_bundle_ok Hm)
    as (obs & Hl & Hmem & _ & _ & _ & _ & Hc & _).
  exists m, obs. split; [reflexivity|]. split; [exact Hl|]. split; [exact Hmem|].
  vm_compute in Hm. injection Hm as <-. reflexivity.
Defined.
