(* ===== verification/Dayu200Grammar.v ===== *)
(** * The partition grammar read back, and the scanner's window

    A table written as its [mtdparts] line is parsed as that table; a build fact whose value
    ends just past the window the scanner keeps is lost with some chunkings. *)

From stdpp Require Import gmap.
From S2P Require Import Prelude Text Cbor Sha256 Digest Authority Identity Bits Source Tar TarSound Manifest Dayu200.

(** Fixed-width hexadecimal digits. *)
Fixpoint hex_digits (n : nat) (v : Z) : bytes :=
  match n with O => [] | S n => hex_digits n (v / 16) ++ [hex_nibble (v mod 16)] end.

Definition print_hex (v : Z) : bytes := bytes_of_string "0x" ++ hex_digits 16 v.

Definition print_partition (e : PartitionEntryFact) : bytes :=
  match size_sectors e with Some size => print_hex size | None => [45] end ++ [64] ++
  print_hex (offset_sectors e) ++ [40] ++ bytes_of_string (entry_name e) ++
  match entry_attribute e with Some a => 58 :: bytes_of_string (attribute_as_str a) | None => [] end ++ [41].

Fixpoint join_with (b : Z) (l : list bytes) : bytes :=
  match l with [] => [] | [x] => x | x :: l => x ++ b :: join_with b l end.

Definition print_table (t : PartitionTableFact) : bytes :=
  bytes_of_string "CMDLINE:mtdparts=" ++ bytes_of_string (table_device t) ++ 58 ::
  join_with 44 (map print_partition (table_entries t)).

(** Graphic ASCII, and what of it a name may hold. *)
Definition graphic (c : Z) : Prop := 33 <= c <= 126.
Definition name_char (c : Z) : Prop := graphic c /\ c <> 40 /\ c <> 41 /\ c <> 44 /\ c <> 58 /\ c <> 64.

Definition printable (e : PartitionEntryFact) : Prop :=
  entry_name e <> ""%string /\ Forall name_char (bytes_of_string (entry_name e)) /\ u64 (offset_sectors e) /\
  match size_sectors e, entry_attribute e with
  | None, Some Grow => grammar_branch e = RemainderGrow
  | Some size, Some Bootable => u64 size /\ grammar_branch e = FixedBootable
  | Some size, None => u64 size /\ grammar_branch e = Fixed
  | _, _ => False
  end.

(** The entries are numbered in order, modulo [2^32]. *)
Fixpoint numbered (index : Z) (entries : list PartitionEntryFact) : Prop :=
  match entries with
  | [] => True
  | e :: entries => entry_index e = index /\ numbered (wrap 32 (index + 1)) entries
  end.

Lemma graphic_chars l : Forall graphic l -> chars l = map (fun b => [b]) l.
Proof.
  intros H. induction H as [|b l Hb _ IH]; [done|]. cbn [chars map]. unfold graphic in Hb.
  destruct (Z.ltb_spec b 128); [by rewrite IH|lia].
Qed.

Lemma graphic_not_space b : graphic b -> is_whitespace [b] = false.
Proof.
  intros Hb. unfold graphic in Hb. cbn. unfold in_range.
  destruct (Z.leb_spec 9 b), (Z.leb_spec b 13), (Z.eqb_spec b 32); try done; lia.
Qed.

Lemma concat_singletons (l : bytes) : concat (map (fun b => [b]) l) = l.
Proof. induction l as [|b l IH]; [done|]. cbn. by rewrite IH. Qed.

Lemma trim_graphic l : Forall graphic l -> trim l = l.
Proof.
  intros H. unfold trim. rewrite (graphic_chars l H).
  assert (forall c, c ∈ map (fun b => [b]) l -> is_whitespace c = false) as Hs.
  { intros c (b & -> & Hb)%list_elem_of_fmap. rewrite Forall_forall in H. by apply graphic_not_space, H. }
  rewrite (drop_while_none _ _ Hs), drop_while_none, rev_involutive; [apply concat_singletons|].
  intros c Hc. apply Hs. by rewrite list_elem_of_In, <- in_rev, <- list_elem_of_In in Hc.
Qed.

Lemma split_whitespace_graphic l : l <> [] -> Forall graphic l -> split_whitespace l = [l].
Proof.
  intros Hne H. unfold split_whitespace. rewrite (graphic_chars l H).
  assert (forall w, w ++ l <> [] -> words_of w (map (fun b => [b]) l) = [w ++ l]) as Hw; [|by apply (Hw [])].
  clear Hne. induction H as [|b l Hb _ IH]; intros w Hw; cbn [map words_of].
  - rewrite app_nil_r in *. by destruct w.
  - rewrite (graphic_not_space b Hb), IH; by rewrite <- app_assoc.
Qed.

Lemma split_on_none b l : b ∉ l -> split_on b l = [l].
Proof.
  induction l as [|c l IH]; intros H; [done|]. apply not_elem_of_cons in H as [Hne H].
  cbn [split_on]. destruct (Z.eqb_spec c b); [congruence|]. by rewrite IH.
Qed.

Lemma split_on_app b l k : b ∉ l -> split_on b (l ++ b :: k) = l :: split_on b k.
Proof.
  induction l as [|c l IH]; intros H; cbn [app split_on]; [by rewrite Z.eqb_refl|].
  apply not_elem_of_cons in H as [Hne H]. destruct (Z.eqb_spec c b); [congruence|]. by rewrite IH.
Qed.

Lemma split_on_join b parts : parts <> [] -> Forall (fun p => b ∉ p) parts -> split_on b (join_with b parts) = parts.
Proof.
  intros Hne Hall. induction Hall as [|p parts Hp Hall IH]; [done|]. destruct parts as [|q parts]; [by apply split_on_none|].
  change (join_with b (p :: q :: parts)) with (p ++ b :: join_with b (q :: parts)). by rewrite split_on_app, IH.
Qed.

Lemma index_of_app b l k : b ∉ l -> index_of b (l ++ b :: k) = Some (length l).
Proof.
  induction l as [|c l IH]; intros H; cbn [app index_of]; [by rewrite Z.eqb_refl|].
  apply not_elem_of_cons in H as [Hne H]. destruct (Z.eqb_spec c b); [congruence|]. by rewrite IH.
Qed.

Lemma split_once_app b l k : b ∉ l -> split_once b (l ++ b :: k) = Some (l, k).
Proof.
  intros H. unfold split_once. rewrite index_of_app by done. cbn [option_map].
  by rewrite take_app_length, drop_app_ge, Nat.sub_succ_l, Nat.sub_diag by lia.
Qed.

Lemma index_of_none b l : b ∉ l -> index_of b l = None.
Proof.
  induction l as [|c l IH]; intros H; [done|]. apply not_elem_of_cons in H as [Hne H].
  cbn [index_of]. destruct (Z.eqb_spec c b); [congruence|]. by rewrite IH.
Qed.

Lemma strip_prefix_app p l : strip_prefix p (p ++ l) = Some l.
Proof. induction p as [|a p IH]; [by destruct l|]. cbn [app strip_prefix]. by rewrite Z.eqb_refl. Qed.

Lemma ends_with_app l k : ends_with k (l ++ k) = true.
Proof. unfold ends_with. by rewrite rev_app_distr, strip_prefix_app. Qed.

(** *** Numbers *)

Lemma hex_nibble_range v : 0 <= v < 16 -> graphic (hex_nibble v) /\ hex_nibble v <> 64 /\ hex_nibble v <> 40 /\
  hex_nibble v <> 44 /\ is_ascii_hexdigit (hex_nibble v) = true /\ digit_value (hex_nibble v) = Some v.
Proof.
  intros Hv. assert (v = 0 \/ v = 1 \/ v = 2 \/ v = 3 \/ v = 4 \/ v = 5 \/ v = 6 \/ v = 7 \/ v = 8 \/ v = 9 \/ v = 10 \/
    v = 11 \/ v = 12 \/ v = 13 \/ v = 14 \/ v = 15) as H by lia.
  unfold graphic. by repeat destruct H as [->|H]; subst.
Qed.

Lemma hex_digits_in n v b : 0 <= v -> b ∈ hex_digits n v -> exists d, 0 <= d < 16 /\ b = hex_nibble d.
Proof.
  revert v. induction n as [|n IH]; intros v Hv; cbn; [by intros ?%elem_of_nil|].
  rewrite elem_of_app, list_elem_of_singleton. intros [H|H].
  - apply IH in H; [done|]. apply Z.div_pos; lia.
  - exists (v mod 16). split; [apply Z.mod_pos_bound; lia|done].
Qed.

Lemma radix_hex n v acc k :
  0 <= v < 16 ^ Z.of_nat n -> 0 <= acc -> acc * 16 ^ Z.of_nat n + v <= U64_MAX ->
  radix_digits 16 acc (hex_digits n v ++ k) = radix_digits 16 (acc * 16 ^ Z.of_nat n + v) k.
Proof.
  revert v k. induction n as [|n IH]; intros v k Hv Ha Hb.
  { change (16 ^ Z.of_nat 0) with 1 in *. cbn. f_equal. lia. }
  cbn [hex_digits]. pose proof (Z.mod_pos_bound v 16 ltac:(lia)) as Hm. pose proof (Z.div_mod v 16 ltac:(lia)) as Hdm.
  assert (0 < 16 ^ Z.of_nat n) by (by apply Z.pow_pos_nonneg; lia).
  rewrite Nat2Z.inj_succ, Z.pow_succ_r in Hv, Hb |- * by lia.
  rewrite <- app_assoc, IH; [|split; [apply Z.div_pos; lia|apply Z.div_lt_upper_bound; lia]|lia|nia].
  cbn [app radix_digits]. destruct (hex_nibble_range (v mod 16) Hm) as (_ & _ & _ & _ & _ & ->).
  destruct (Z.ltb_spec (v mod 16) 16); [|lia].
  replace ((acc * 16 ^ Z.of_nat n + v / 16) * 16 + v mod 16) with (acc * (16 * 16 ^ Z.of_nat n) + v) by lia.
  destruct (Z.leb_spec (acc * (16 * 16 ^ Z.of_nat n) + v) U64_MAX); [done|lia].
Qed.

Lemma length_hex n v : length (hex_digits n v) = n.
Proof. revert v. induction n as [|n IH]; intros v; [done|]. cbn. rewrite length_app, IH. cbn. lia. Qed.

Lemma parse_print_hex v : u64 v -> parse_hex (print_hex v) = Some v.
Proof.
  intros Hv. unfold parse_hex, print_hex. rewrite strip_prefix_app.
  destruct (hex_digits 16 v) as [|d l] eqn:Ed; [apply (f_equal length) in Ed; by rewrite length_hex in Ed|].
  assert (forall b, b ∈ d :: l -> exists x, 0 <= x < 16 /\ b = hex_nibble x) as Hin
    by (intros b Hb; rewrite <- Ed in Hb; eapply hex_digits_in; [|exact Hb]; unfold u64 in Hv; lia).
  assert (forallb is_ascii_hexdigit (d :: l) = true) as ->.
  { apply forallb_forall. intros b Hb. apply list_elem_of_In, Hin in Hb as (x & Hx & ->). by apply hex_nibble_range. }
  assert (from_str_radix 16 (d :: l) = radix_digits 16 0 (d :: l)) as ->.
  { destruct (Hin d ltac:(by left)) as (x & Hx & Hd). unfold from_str_radix.
    assert (d <> 43) by (rewrite Hd; unfold hex_nibble; case_match; lia).
    destruct d as [|p|p]; [done| |done]. do 6 (destruct p; try done). }
  rewrite <- Ed, <- (app_nil_r (hex_digits 16 v)), radix_hex; [done| |lia|]; unfold u64, U64_MAX in *; cbn; lia.
Qed.

(** *** Descriptors *)

Lemma print_hex_chars v b : 0 <= v -> b ∈ print_hex v -> graphic b /\ b <> 64 /\ b <> 40 /\ b <> 44.
Proof.
  intros Hv. unfold print_hex. rewrite elem_of_app. intros [H|H].
  - change (b ∈ [48; 120]) in H. rewrite !elem_of_cons in H. unfold graphic.
    destruct H as [->|[->|H]]; [lia|lia|by apply elem_of_nil in H].
  - apply hex_digits_in in H as (x & Hx & ->); [|done]. pose proof (hex_nibble_range x Hx). tauto.
Qed.

Definition size_text (e : PartitionEntryFact) : bytes :=
  match size_sectors e with Some size => print_hex size | None => [45] end.

Definition inside_text (e : PartitionEntryFact) : bytes :=
  bytes_of_string (entry_name e) ++
  match entry_attribute e with Some a => 58 :: bytes_of_string (attribute_as_str a) | None => [] end.

Lemma print_partition_parts e :
  print_partition e = size_text e ++ 64 :: print_hex (offset_sectors e) ++ 40 :: inside_text e ++ [41].
Proof. unfold print_partition, size_text, inside_text. cbn [app]. by rewrite <- app_assoc. Qed.

Lemma size_text_chars e b : printable e -> b ∈ size_text e -> graphic b /\ b <> 64 /\ b <> 40 /\ b <> 44.
Proof.
  intros (_ & _ & _ & Hs). unfold size_text. destruct (size_sectors e) as [size|].
  - apply print_hex_chars. unfold u64 in Hs. destruct (entry_attribute e) as [[]|]; lia || tauto.
  - rewrite list_elem_of_singleton. intros ->. unfold graphic. lia.
Qed.

Lemma inside_text_chars e b : printable e -> b ∈ inside_text e -> graphic b /\ b <> 64 /\ b <> 44.
Proof.
  intros (_ & Hn & _). unfold inside_text. rewrite elem_of_app. intros [H|H].
  - rewrite Forall_forall in Hn. apply Hn in H. unfold name_char in H. tauto.
  - destruct (entry_attribute e) as [a|]; [|by apply elem_of_nil in H].
    assert (forallb (fun b => (33 <=? b) && (b <=? 126) && negb (b =? 64) && negb (b =? 44))
      (58 :: bytes_of_string (attribute_as_str a)) = true) as Hall by by destruct a.
    rewrite forallb_forall in Hall. specialize (Hall b). rewrite <- list_elem_of_In in Hall. apply Hall in H.
    unfold graphic. lia.
Qed.

Lemma print_partition_chars e b : printable e -> b ∈ print_partition e -> graphic b /\ b <> 44.
Proof.
  intros Hp. rewrite print_partition_parts, elem_of_app, elem_of_cons, elem_of_app, elem_of_cons, elem_of_app, list_elem_of_singleton.
  pose proof Hp as (_ & _ & [Ho _] & _).
  intros [H|[->|[H|[->|[H| ->]]]]]; try (unfold graphic; lia).
  - apply size_text_chars in H; tauto.
  - apply print_hex_chars in H; tauto.
  - apply inside_text_chars in H; tauto.
Qed.

Lemma attribute_roundtrip a : attribute_parse (attribute_as_str a) = Some a.
Proof. by destruct a. Qed.

Lemma parse_print_partition index e :
  printable e -> entry_index e = index -> parse_partition index (print_partition e) = Ok e.
Proof.
  intros Hp Hi. pose proof Hp as (Hne & Hn & Ho & Hs). unfold parse_partition.
  assert (64 ∉ size_text e) as H64 by (intros H; apply size_text_chars in H; tauto).
  assert (40 ∉ print_hex (offset_sectors e)) as H40
    by (intros H; apply print_hex_chars in H; [tauto|destruct Ho; lia]).
  assert (bytes_of_string (entry_name e) <> []) as Hnil.
  { intros H. apply Hne, bytes_of_string_inj. by rewrite H. }
  rewrite print_partition_parts, split_once_app by done. cbn [ok_or].
  rewrite index_of_app by done. cbn [ok_or].
  assert (ends_with [41] (print_hex (offset_sectors e) ++ 40 :: inside_text e ++ [41]) = true) as ->.
  { rewrite app_comm_cons, app_assoc. apply ends_with_app. }
  cbn [negb]. rewrite take_app_length.
  assert (slice (S (length (print_hex (offset_sectors e))))
    (length (print_hex (offset_sectors e) ++ 40 :: inside_text e ++ [41]) - 1)
    (print_hex (offset_sectors e) ++ 40 :: inside_text e ++ [41]) = inside_text e) as ->.
  { unfold slice. rewrite drop_app_ge, Nat.sub_succ_l, Nat.sub_diag by lia. cbn [drop].
    rewrite length_app. cbn [length]. rewrite length_app. cbn [length]. apply take_app_length'. lia. }
  assert (inside_text e <> []) as Hin by (unfold inside_text; by destruct (bytes_of_string (entry_name e))).
  rewrite (bool_decide_eq_false_2 (inside_text e = [])) by done.
  assert (58 ∉ bytes_of_string (entry_name e)) as H58.
  { intros H. rewrite Forall_forall in Hn. apply Hn in H. unfold name_char in H. tauto. }
  assert (match split_once 58 (inside_text e) with Some (name, attribute) => (name, Some attribute) | None => (inside_text e, None) end =
    (bytes_of_string (entry_name e), option_map (fun a => bytes_of_string (attribute_as_str a)) (entry_attribute e))) as ->.
  { unfold inside_text. destruct (entry_attribute e) as [a|].
    - by rewrite split_once_app.
    - rewrite app_nil_r. unfold split_once. by rewrite index_of_none. }
  rewrite (bool_decide_eq_false_2 (bytes_of_string (entry_name e) = [])) by done. rewrite string_of_bytes_of_string.
  assert (attribute_of (entry_name e) (option_map (fun a => bytes_of_string (attribute_as_str a)) (entry_attribute e)) =
    Ok (entry_attribute e)) as ->.
  { destruct (entry_attribute e) as [a|]; [|done]. unfold attribute_of. cbn [option_map].
    by rewrite string_of_bytes_of_string, attribute_roundtrip. }
  rewrite parse_print_hex by done. cbn [ok_or]. unfold size_text.
  destruct e as [i name off [size|] [[]|] branch]; cbn [size_sectors entry_attribute grammar_branch entry_index entry_name offset_sectors] in *; try done.
  - destruct Hs as [Hs ->]. rewrite bool_decide_eq_false_2 by done. rewrite parse_print_hex by done. cbn [ok_or]. by subst.
  - destruct Hs as [Hs ->]. rewrite bool_decide_eq_false_2 by done. rewrite parse_print_hex by done. cbn [ok_or]. by subst.
  - by subst.
Qed.

Lemma parse_print_partitions index entries :
  Forall printable entries -> numbered index entries ->
  parse_partitions index (map print_partition entries) = Ok entries.
Proof.
  intros Hall. revert index. induction Hall as [|e entries Hp _ IH]; intros index Hn; [done|].
  destruct Hn as [Hi Hn]. cbn [map parse_partitions].
  assert (Forall graphic (print_partition e)) as Hg.
  { apply Forall_forall. intros b Hb. by apply print_partition_chars in Hb as [? _]. }
  rewrite (trim_graphic _ Hg). rewrite bool_decide_eq_false_2.
  2: { rewrite print_partition_parts. by destruct (size_text e). }
  by rewrite (parse_print_partition index e Hp Hi), IH.
Qed.

Lemma join_with_chars (P : Z -> Prop) b parts : P b -> Forall (Forall P) parts -> Forall P (join_with b parts).
Proof.
  intros Hb Hall. induction Hall as [|p parts Hp Hall IH]; [constructor|]. destruct parts as [|q parts]; [done|].
  apply Forall_app. split; [done|]. by constructor.
Qed.

(** The partition grammar reads back what it describes: a table of named partitions,
    written as its [mtdparts] line, is parsed as that table, with every size, offset,
    attribute and grammar branch. *)
Theorem parameter_roundtrip t :
  table_device t <> ""%string -> Forall (fun c => graphic c /\ c <> 58) (bytes_of_string (table_device t)) ->
  table_entries t <> [] -> Forall printable (table_entries t) -> numbered 0 (table_entries t) ->
  parse_parameter (string_of_bytes (print_table t)) (logical_block_size t) = Ok t.
Proof.
  intros Hd Hdev Hne Hall Hnum.
  set (mtd := bytes_of_string (table_device t) ++ 58 :: join_with 44 (map print_partition (table_entries t))).
  assert (print_table t = bytes_of_string "CMDLINE:" ++ bytes_of_string "mtdparts=" ++ mtd) as Hprint by done.
  assert (Forall graphic mtd) as Hg.
  { apply Forall_app. split; [eapply Forall_impl; [exact Hdev|]; by intros ? []|]. constructor; [unfold graphic; lia|].
    apply join_with_chars; [unfold graphic; lia|]. apply Forall_map. eapply Forall_impl; [exact Hall|].
    intros e Hp. apply Forall_forall. intros b Hb. by apply print_partition_chars in Hb as [? _]. }
  assert (forall text, Forall graphic (bytes_of_string text) -> Forall graphic (bytes_of_string text ++ mtd)) as Hga
    by (intros text Ht; by apply Forall_app).
  assert (Forall graphic (bytes_of_string "mtdparts=" ++ mtd)) as Hg1 by (apply Hga; repeat constructor; done).
  assert (Forall graphic (print_table t)) as Hg2.
  { rewrite Hprint. apply Forall_app. split; [repeat constructor; done|done]. }
  assert (bytes_ok (print_table t)) as Hok.
  { eapply Forall_impl; [exact Hg2|]. unfold graphic, u8, U8_MAX. intros. lia. }
  unfold parse_parameter. rewrite bytes_of_string_of_bytes by done.
  assert (lines (print_table t) = [print_table t]) as ->.
  { unfold lines. rewrite split_on_none; [|intros H; rewrite Forall_forall in Hg2; apply Hg2 in H; unfold graphic in H; lia].
    by rewrite Hprint. }
  cbn [map]. rewrite (trim_graphic _ Hg2). rewrite Hprint at 1. cbn [List.find].
  assert (starts_with (bytes_of_string "CMDLINE:") (bytes_of_string "CMDLINE:" ++ bytes_of_string "mtdparts=" ++ mtd) = true) as ->
    by (unfold starts_with; by rewrite strip_prefix_app).
  cbn [ok_or]. change (drop 8 (bytes_of_string "CMDLINE:" ++ bytes_of_string "mtdparts=" ++ mtd)) with (bytes_of_string "mtdparts=" ++ mtd).
  rewrite split_whitespace_graphic by done. cbn [find_prefixed]. rewrite strip_prefix_app. cbn [ok_or].
  assert (58 ∉ bytes_of_string (table_device t)) as H58.
  { intros H. rewrite Forall_forall in Hdev. apply Hdev in H. tauto. }
  unfold mtd. rewrite split_once_app by done. cbn [ok_or].
  rewrite bool_decide_eq_false_2 by (intros H; apply Hd, bytes_of_string_inj; by rewrite H).
  assert (Forall (fun p => 44 ∉ p) (map print_partition (table_entries t))) as H44.
  { apply Forall_map. eapply Forall_impl; [exact Hall|]. intros e Hp H. apply print_partition_chars in H; tauto. }
  rewrite bool_decide_eq_false_2.
  2: { destruct (table_entries t) as [|e [|e' entries]]; [done|..]; cbn [map join_with]; rewrite print_partition_parts;
       by destruct (size_text e). }
  rewrite split_on_join; [|by destruct (table_entries t)|done].
  rewrite parse_print_partitions by done. rewrite string_of_bytes_of_string. by destruct t.
Qed.

(** The table of the DAYU200 bundle, in part. *)
Definition sample_table : PartitionTableFact :=
  mkTable "rk29xxnand" 512
    [mkEntry 0 "uboot" 8192 (Some 8192) None Fixed;
     mkEntry 1 "boot_linux" 40960 (Some 196608) (Some Bootable) FixedBootable;
     mkEntry 2 "userdata" 237568 None (Some Grow) RemainderGrow].

Lemma parameter_roundtrip_witness :
  parse_parameter (string_of_bytes (print_table sample_table)) 512 = Ok sample_table.
Proof.
  refine (parameter_roundtrip sample_table _ _ _ _ _).
  - discriminate.
  - cbn. repeat (constructor; [unfold graphic; split; [lia|discriminate]|]). constructor.
  - discriminate.
  - repeat constructor; cbn; unfold u64, U64_MAX; try lia; try discriminate; try reflexivity.
  - cbn. repeat split.
Defined.

(** ** The scanner's window *)

Definition scanned (chunks : list bytes) : found_facts := scanner_finish (foldl push scanner_new chunks).

Definition longest_fact : bytes :=
  bytes_of_string "const.ohos.fullname=" ++ repeat 97 256 ++ [10].

(** A value of the longest length is found in one chunk.  Split before its terminator, the
    window has forgotten the first byte of the key: what is kept is the length of a key and
    of a value, and leaves no room for the [=]. *)
Example longest_fact_found :
  scanned [longest_fact] = [("const.ohos.fullname", string_of_bytes (repeat 97 256))]%string.
Proof. vm_compute. reflexivity. Qed.

Example longest_fact_lost : scanned [take 276 longest_fact; drop 276 longest_fact] = [].
Proof. vm_compute. reflexivity. Qed.
