(* ===== verification/Cas.v ===== *)
(** * The content-addressed store (crates/arkforge-artifact/src/cas.rs)

    Each operation of the store is a program of calls to a file system that other
    operations, in this process or another, use at the same time.  The file system keeps
    what a crash can take away: bytes no [sync_all] covers, and names, which the store never
    syncs.  [run] executes one program; [CasSound] interleaves many. *)

From stdpp Require Import gmap pretty.
From S2P Require Import Prelude Text Cbor Sha256 Digest Bits Source.

(** ** The file system *)

(** A path below the root of the store, by components. *)
Definition path : Type := list string.

(** A file, under any name: its bytes, whether a [sync_all] covers them, its permission bits
    and the time of its last write, in nanoseconds. *)
Record Inode := mkInode { i_bytes : bytes; i_synced : bool; i_mode : Z; i_modified : Z }.

Inductive Node : Type := Dir | File (ino : nat).

(** The names, the files, and every name a file has had since the machine started: a crash
    may bring a name back, or lose it. *)
Record Disk := mkDisk {
  nodes : gmap path Node;
  inodes : gmap nat Inode;
  ever : list (path * nat)
}.

Inductive OsError : Type := NoSuchFile | OtherError.

Record Metadata := mkMetadata { is_dir : bool; len : Z; mode : Z; modified : Z }.

(** What the store asks of the operating system.  Handles are files. *)
Inductive call : Type :=
| Exists (p : path)
| CreateDirAll (p : path)
| SetPermissions (p : path) (mode : Z)
| CreateFile (p : path)
| WriteAll (h : nat) (b : bytes)
| SyncAll (h : nat)
| RemoveFile (p : path)
| RemoveDir (p : path)
| Rename (p q : path)
| Stat (p : path)
| ReadDir (p : path)
| OpenFile (p : path)
| ReadAt (h : nat) (offset n : nat)
| Now
| AvailableBytes.

Definition answer (c : call) : Type :=
  match c with
  | CreateFile _ | OpenFile _ => nat
  | Stat _ => Metadata
  | ReadDir _ => list string
  | ReadAt _ _ _ => bytes
  | Now | AvailableBytes => Z
  | _ => unit
  end.

Definition with_nodes (s : Disk) (n : gmap path Node) : Disk := mkDisk n (inodes s) (ever s).
Definition with_inodes (s : Disk) (i : gmap nat Inode) : Disk := mkDisk (nodes s) i (ever s).

Definition bind_name (s : Disk) (p : path) (ino : nat) : Disk :=
  mkDisk (<[p := File ino]> (nodes s)) (inodes s) ((p, ino) :: ever s).

Definition parent (p : path) : path := take (length p - 1) p.

Definition is_directory (s : Disk) (p : path) : bool :=
  match p with [] => true | _ => match nodes s !! p with Some Dir => true | _ => false end end.

(** Every prefix of a path, shortest first. *)
Definition prefixes (p : path) : list path := map (fun n => take n p) (seq 1 (length p)).

Fixpoint make_dirs (s : Disk) (ps : list path) : Disk * bool :=
  match ps with
  | [] => (s, true)
  | p :: ps =>
      match nodes s !! p with
      | Some Dir => make_dirs s ps
      | Some (File _) => (s, false)
      | None => make_dirs (with_nodes s (<[p := Dir]> (nodes s))) ps
      end
  end.

Definition child_of (p q : path) : option string :=
  if bool_decide (length q = S (length p)) && bool_decide (take (length p) q = p) then last q else None.

Definition children (s : Disk) (p : path) : list string := omap (fun e => child_of p e.1) (map_to_list (nodes s)).

Definition fresh_ino (s : Disk) : nat := fresh (dom (inodes s)).

(** One call: what it does and answers.  [tick] is what the clock, the volume and a write's
    timestamp show. *)
Definition exec (tick : Z) (c : call) (s : Disk) : Disk * result OsError (answer c) :=
  match c return Disk * result OsError (answer c) with
  | Exists p => (s, if bool_decide (is_Some (nodes s !! p)) then Ok tt else Err NoSuchFile)
  | CreateDirAll p => let '(s, made) := make_dirs s (prefixes p) in (s, if made then Ok tt else Err OtherError)
  | SetPermissions p m =>
      match nodes s !! p with
      | None => (s, Err NoSuchFile)
      | Some Dir => (s, Ok tt)
      | Some (File ino) =>
          (with_inodes s (alter (fun i => mkInode (i_bytes i) (i_synced i) m (i_modified i)) ino (inodes s)), Ok tt)
      end
  | CreateFile p =>
      match nodes s !! p with
      | Some Dir => (s, Err OtherError)
      | Some (File ino) =>
          (with_inodes s (alter (fun i => mkInode [] false (i_mode i) tick) ino (inodes s)), Ok ino)
      | None =>
          if negb (is_directory s (parent p)) then (s, Err NoSuchFile)
          else
            let ino := fresh_ino s in
            (bind_name (with_inodes s (<[ino := mkInode [] false 438 tick]> (inodes s))) p ino, Ok ino)
      end
  | WriteAll h b =>
      (with_inodes s (alter (fun i => mkInode (i_bytes i ++ b) false (i_mode i) tick) h (inodes s)), Ok tt)
  | SyncAll h =>
      (with_inodes s (alter (fun i => mkInode (i_bytes i) true (i_mode i) (i_modified i)) h (inodes s)), Ok tt)
  | RemoveFile p =>
      match nodes s !! p with
      | None => (s, Err NoSuchFile)
      | Some Dir => (s, Err OtherError)
      | Some (File _) => (with_nodes s (delete p (nodes s)), Ok tt)
      end
  | RemoveDir p =>
      match nodes s !! p, children s p with
      | Some Dir, [] => (with_nodes s (delete p (nodes s)), Ok tt)
      | None, _ => (s, Err NoSuchFile)
      | _, _ => (s, Err OtherError)
      end
  | Rename p q =>
      match nodes s !! p with
      | Some (File ino) =>
          match nodes s !! q with
          | Some Dir => (s, Err OtherError)
          | _ =>
              if negb (is_directory s (parent q)) then (s, Err NoSuchFile)
              else (bind_name (with_nodes s (delete p (nodes s))) q ino, Ok tt)
          end
      | Some Dir => (s, Err OtherError)
      | None => (s, Err NoSuchFile)
      end
  | Stat p =>
      match nodes s !! p with
      | None => (s, Err NoSuchFile)
      | Some Dir => (s, Ok (mkMetadata true 0 448 0))
      | Some (File ino) =>
          match inodes s !! ino with
          | None => (s, Err OtherError)
          | Some i => (s, Ok (mkMetadata false (zlen (i_bytes i)) (i_mode i) (i_modified i)))
          end
      end
  | ReadDir p => (s, if is_directory s p then Ok (children s p) else Err NoSuchFile)
  | OpenFile p =>
      match nodes s !! p with
      | None => (s, Err NoSuchFile)
      | Some Dir => (s, Err OtherError)
      | Some (File ino) => (s, Ok ino)
      end
  | ReadAt h offset n =>
      match inodes s !! h with
      | None => (s, Err OtherError)
      | Some i => (s, Ok (take n (drop offset (i_bytes i))))
      end
  | Now => (s, Ok tick)
  | AvailableBytes => (s, Ok tick)
  end.

(** A call that fails; a write may have taken some of its bytes. *)
Definition failed (tick : Z) (taken : nat) (c : call) (s : Disk) : Disk :=
  match c with
  | WriteAll h b => (exec tick (WriteAll h (take taken b)) s).1
  | CreateDirAll p => (make_dirs s (take taken (prefixes p))).1
  | _ => s
  end.

(** ** Programs *)

Record CasQuota := mkQuota { max_total_bytes : Z; min_free_bytes : Z; max_artifact_bytes : Z }.

Definition dayu200_default : CasQuota :=
  mkQuota (16 * 1024 * 1024 * 1024) (4 * 1024 * 1024 * 1024) (8 * 1024 * 1024 * 1024).

(** The texts of a refusal, with what they name. *)
Inductive Blocker : Type :=
| PerArtifactLimit (requested limit : Z)
| StoreCeiling (in_use requested ceiling : Z)
| VolumeReserve (available requested reserve : Z).

Record PreflightReport := mkReport {
  requested_bytes : Z;
  store_bytes_in_use : Z;
  volume_available_bytes : Z;
  accepted : bool;
  blocker : option Blocker
}.

Record ImportedObject := mkImported { im_digest : Sha256Digest; im_size_bytes : Z; deduplicated : bool }.

Record GcReport := mkGcReport {
  objects_removed : list Sha256Digest;
  bytes_reclaimed : Z;
  staging_files_removed : nat
}.

Inductive CasError : Type :=
| CasIo (e : OsError)
| QuotaExceeded (report : PreflightReport)
| DigestMismatch (expected observed : Sha256Digest)
| ArtifactTooLarge (size_bytes limit : Z)
| NotFound (digest : Sha256Digest)
| LeaseHeld (digest : Sha256Digest) (holders : nat)
| InvalidHolder (holder : string).

(** A program: a result, or a call and what follows each answer. *)
Inductive prog (A : Type) : Type :=
| Done (r : result CasError A)
| Call (c : call) (k : result OsError (answer c) -> prog A).
Arguments Done {A}.
Arguments Call {A}.

(** What follows a program, whatever its result; [bind] stops at an error. *)
Fixpoint finally {A B} (p : prog A) (k : result CasError A -> prog B) : prog B :=
  match p with
  | Done r => k r
  | Call c q => Call c (fun r => finally (q r) k)
  end.

Definition bind {A B} (p : prog A) (k : A -> prog B) : prog B :=
  finally p (fun r => match r with Ok a => k a | Err e => Done (Err e) end).

Definition ret {A} (a : A) : prog A := Done (Ok a).
Definition fail {A} (e : CasError) : prog A := Done (Err e).
(** A call with [?], and one whose failure the code looks at. *)
Definition os (c : call) : prog (answer c) := Call c (fun r => Done (map_err CasIo r)).
Definition raw (c : call) : prog (result OsError (answer c)) := Call c (fun r => Done (Ok r)).

Notation "'do' x ':=' m 'in' k" := (bind m (fun x => k))
  (at level 10, x pattern, m at level 200, k at level 200,
   format "'[v' 'do'  x  ':='  m  'in' '/' k ']'").

Fixpoint for_each {A S} (l : list A) (f : A -> S -> prog S) (s : S) : prog S :=
  match l with
  | [] => ret s
  | x :: l => do s := f x s in for_each l f s
  end.

(** A loop of at most [2 ^ k] rounds, which a round leaves with a result. *)
Fixpoint loop {S A} (k : nat) (body : S -> prog (S + A)) (s : S) : prog (S + A) :=
  match k with
  | O => body s
  | S k => do r := loop k body s in match r with inl s => loop k body s | inr a => ret (inr a) end
  end.

(** ** The store *)

Definition OBJECTS_DIR : string := "objects".
Definition LEASES_DIR : string := "leases".
Definition STAGING_DIR : string := "staging".
Definition STAGING_GRACE : Z := 6 * 60 * 60 * 1000000000.

Definition object_path (digest : Sha256Digest) : path :=
  let hex := to_hex digest in [OBJECTS_DIR; string_of_bytes (take 2 (bytes_of_string hex)); hex].

Definition lease_dir (digest : Sha256Digest) : path := [LEASES_DIR; to_hex digest].

Definition holder_char (c : Z) : bool :=
  in_range 48 57 c || in_range 65 90 c || in_range 97 122 c || (c =? 46) || (c =? 95) || (c =? 58) || (c =? 45).

Definition sanitize_holder (holder : string) : result CasError string :=
  let l := bytes_of_string holder in
  if negb (bool_decide (l = [])) && (zlen l <=? 128) && forallb holder_char l then Ok holder
  else Err (InvalidHolder holder).

Definition exists_ (p : path) : prog bool := do r := raw (Exists p) in ret (is_ok r).

Definition create_private_dir (p : path) : prog unit :=
  do found := exists_ p in
  do _ := (if found then ret tt else os (CreateDirAll p)) in
  os (SetPermissions p 448).

Definition create_private_file (p : path) : prog nat :=
  do file := os (CreateFile p) in
  do _ := os (SetPermissions p 384) in
  ret file.

Definition open_with_probe : prog unit :=
  for_each [OBJECTS_DIR; LEASES_DIR; STAGING_DIR] (fun d _ => create_private_dir [d]) tt.

Definition digest_leb (a b : Sha256Digest) : bool := bytes_leb (digest_bytes a) (digest_bytes b).

Definition list_objects : prog (list Sha256Digest) :=
  do found := exists_ [OBJECTS_DIR] in
  if negb found then ret []
  else
    do prefixes := os (ReadDir [OBJECTS_DIR]) in
    do digests := for_each prefixes (fun prefix digests =>
        do meta := os (Stat [OBJECTS_DIR; prefix]) in
        if negb (is_dir meta) then ret digests
        else
          do names := os (ReadDir [OBJECTS_DIR; prefix]) in
          ret (digests ++ omap (fun name => match parse_hex name with Ok d => Some d | Err _ => None end) names)) [] in
    ret (sort_by digest_leb digests).

Definition total_bytes : prog Z :=
  do digests := list_objects in
  for_each digests (fun digest total =>
    do meta := raw (Stat (object_path digest)) in
    ret (total + match meta with Ok meta => len meta | Err _ => 0 end)) 0.

Definition saturating_add (a b : Z) : Z := Z.min U64_MAX (a + b).

Section Store.
Context (quota : CasQuota).

Definition preflight_blocker (requested in_use available : Z) : option Blocker :=
  if max_artifact_bytes quota <? requested then Some (PerArtifactLimit requested (max_artifact_bytes quota))
  else if max_total_bytes quota <? saturating_add in_use requested
  then Some (StoreCeiling in_use requested (max_total_bytes quota))
  else if available <? saturating_add requested (min_free_bytes quota)
  then Some (VolumeReserve available requested (min_free_bytes quota))
  else None.

Definition preflight (requested : Z) : prog PreflightReport :=
  do in_use := total_bytes in
  do available := os AvailableBytes in
  let blocker := preflight_blocker requested in_use available in
  ret (mkReport requested in_use available (bool_decide (blocker = None)) blocker).
(** *** Import *)

(** The buffer of the reads: one mebibyte. *)
Definition BUFFER : nat := Z.to_nat 1048576.

Definition staging_path (pid nanos : Z) : path :=
  [STAGING_DIR; "import-" +:+ pretty pid +:+ "-" +:+ pretty nanos +:+ ".part"].

Section Importing.
Context {R E : Type} `{ReadSource R E}.

Definition copy_round (staged : nat) (s : R * Sha256 * Z) : prog (R * Sha256 * Z + Sha256 * Z) :=
  let '(source, hasher, written) := s in
  match src_read BUFFER source with
  | Err _ => fail (CasIo OtherError)
  | Ok ([], _) => ret (inr (hasher, written))
  | Ok (chunk, source) =>
      let written := written + zlen chunk in
      if max_artifact_bytes quota <? written then fail (ArtifactTooLarge written (max_artifact_bytes quota))
      else
        do _ := os (WriteAll staged chunk) in
        ret (inl (source, update hasher chunk, written))
  end.

(** Every round but the last writes a byte at least, and [max_artifact_bytes] is a [u64]:
    the loop ends before its rounds do. *)
Definition copy (staged : nat) (source : R) : prog (Sha256 * Z) :=
  do r := loop 64 (copy_round staged) (source, new, 0) in
  match r with inr hw => ret hw | inl _ => fail (CasIo OtherError) end.

Definition publish (staging : path) (digest : Sha256Digest) (written : Z) : prog ImportedObject :=
  let object := object_path digest in
  do found := exists_ object in
  if found then
    do _ := raw (RemoveFile staging) in
    ret (mkImported digest written true)
  else
    do _ := create_private_dir (parent object) in
    do _ := os (SetPermissions staging 256) in
    do renamed := raw (Rename staging object) in
    match renamed with
    | Ok _ => ret (mkImported digest written false)
    | Err e =>
        do found := exists_ object in
        if found then
          do _ := raw (RemoveFile staging) in
          ret (mkImported digest written true)
        else fail (CasIo e)
    end.

Definition import_staged (staging : path) (source : R) (expected_digest : option Sha256Digest) : prog ImportedObject :=
  do staged := create_private_file staging in
  finally (do hw := copy staged source in do _ := os (SyncAll staged) in ret hw)
    (fun result =>
      match result with
      | Err e => do _ := raw (RemoveFile staging) in fail e
      | Ok (hasher, written) =>
          let digest := finalize hasher in
          match expected_digest with
          | Some expected =>
              if negb (bool_decide (expected = digest))
              then do _ := raw (RemoveFile staging) in fail (DigestMismatch expected digest)
              else publish staging digest written
          | None => publish staging digest written
          end
      end).

Definition import (pid : Z) (source : R) (expected_size : Z) (expected_digest : option Sha256Digest) :
    prog ImportedObject :=
  do report := preflight expected_size in
  if negb (accepted report) then fail (QuotaExceeded report)
  else
    do now := raw Now in
    import_staged (staging_path pid (match now with Ok nanos => nanos | Err _ => 0 end)) source expected_digest.
End Importing.
End Store.

(** *** Objects *)

Definition contains (digest : Sha256Digest) : prog bool := exists_ (object_path digest).

Definition open_object (digest : Sha256Digest) : prog nat :=
  do r := raw (OpenFile (object_path digest)) in
  match r with
  | Ok file => ret file
  | Err NoSuchFile => fail (NotFound digest)
  | Err e => fail (CasIo e)
  end.

(** [fs::metadata(..).map_err(|_| NotFound)] *)
Definition stat_object (digest : Sha256Digest) : prog Metadata :=
  do r := raw (Stat (object_path digest)) in
  match r with Ok meta => ret meta | Err _ => fail (NotFound digest) end.

Definition object_size (digest : Sha256Digest) : prog Z :=
  do meta := stat_object digest in ret (len meta).

Definition seal_object (digest : Sha256Digest) : prog unit :=
  do _ := stat_object digest in
  os (SetPermissions (object_path digest) 256).

Definition is_read_only (m : Metadata) : bool := Z.land (mode m) 146 =? 0.

Definition object_is_sealed (digest : Sha256Digest) : prog bool :=
  do meta := stat_object digest in
  if is_dir meta then ret false else ret (is_read_only meta).

Definition verify_round (file : nat) (s : nat * Sha256) : prog (nat * Sha256 + Sha256) :=
  let '(offset, hasher) := s in
  do chunk := os (ReadAt file offset BUFFER) in
  match chunk with
  | [] => ret (inr hasher)
  | _ => ret (inl ((offset + length chunk)%nat, update hasher chunk))
  end.

(** A file is shorter than [2 ^ 64] bytes, and a round reads one at least. *)
Definition verify_object (digest : Sha256Digest) : prog bool :=
  do file := open_object digest in
  do r := loop 64 (verify_round file) (0%nat, new) in
  match r with
  | inr hasher => ret (bool_decide (finalize hasher = digest))
  | inl _ => fail (CasIo OtherError)
  end.

(** *** Leases *)

Definition acquire_lease (digest : Sha256Digest) (holder : string) : prog unit :=
  do found := contains digest in
  if negb found then fail (NotFound digest)
  else
    do holder := Done (sanitize_holder holder) in
    do _ := create_private_dir (lease_dir digest) in
    do file := create_private_file (lease_dir digest ++ [holder]) in
    do _ := os (WriteAll file (bytes_of_string (to_hex digest))) in
    os (SyncAll file).

Definition release_lease (digest : Sha256Digest) (holder : string) : prog unit :=
  do holder := Done (sanitize_holder holder) in
  do r := raw (RemoveFile (lease_dir digest ++ [holder])) in
  match r with
  | Ok _ | Err NoSuchFile => ret tt
  | Err e => fail (CasIo e)
  end.

Definition str_leb (s t : string) : bool := bytes_leb (bytes_of_string s) (bytes_of_string t).

Definition lease_holders (digest : Sha256Digest) : prog (list string) :=
  do found := exists_ (lease_dir digest) in
  if negb found then ret []
  else
    do names := os (ReadDir (lease_dir digest)) in
    ret (sort_by str_leb (List.filter (fun name => utf8_valid (bytes_of_string name)) names)).

(** *** Garbage *)

Definition collect_object (digest : Sha256Digest) (report : GcReport) : prog GcReport :=
  do holders := lease_holders digest in
  if negb (bool_decide (holders = [])) then ret report
  else
    do meta := raw (Stat (object_path digest)) in
    do _ := os (RemoveFile (object_path digest)) in
    do _ := raw (RemoveDir (lease_dir digest)) in
    ret (mkGcReport (objects_removed report ++ [digest])
           (bytes_reclaimed report + match meta with Ok meta => len meta | Err _ => 0 end)
           (staging_files_removed report)).

Definition collect_staged (now : Z) (name : string) (report : GcReport) : prog GcReport :=
  do meta := os (Stat [STAGING_DIR; name]) in
  let age := if modified meta <=? now then now - modified meta else 0 in
  if STAGING_GRACE <=? age then
    do _ := os (RemoveFile [STAGING_DIR; name]) in
    ret (mkGcReport (objects_removed report) (bytes_reclaimed report) (S (staging_files_removed report)))
  else ret report.

Definition collect_garbage : prog GcReport :=
  do digests := list_objects in
  do report := for_each digests collect_object (mkGcReport [] 0 0) in
  do found := exists_ [STAGING_DIR] in
  if negb found then ret report
  else
    do now := raw Now in
    do names := os (ReadDir [STAGING_DIR]) in
    for_each names (collect_staged (match now with Ok n => n | Err _ => 0 end)) report.

(** ** Running one program *)

(** What the machine does to a call. *)
Inductive Event : Type := Works (tick : Z) | Breaks (tick : Z) (taken : nat).

Definition react (e : Event) (c : call) (s : Disk) : Disk * result OsError (answer c) :=
  match e with
  | Works tick => exec tick c s
  | Breaks tick taken => (failed tick taken c s, Err OtherError)
  end.

(** One event per call; the calls after the last one work, at time zero. *)
Fixpoint run {A} (events : list Event) (p : prog A) (s : Disk) : Disk * result CasError A :=
  match p with
  | Done r => (s, r)
  | Call c k =>
      let '(s, r) := react (default (Works 0) (head events)) c s in
      run (tl events) (k r) s
  end.
