(* ===== verification/CasLogic.v ===== *)
(** * Reasoning about store programs

    A weakest precondition over any reading of the calls, proved once: [CasSound] uses it
    with what one process knows about its own files, and with the disk. *)

From stdpp Require Import gmap.
From S2P Require Import Prelude Sha256 Source Cas.

Section Wp.
Context {S : Type} (step : forall c, S -> (result OsError (answer c) -> S -> Prop) -> Prop).

Class Monotone := step_mono c s (P Q : result OsError (answer c) -> S -> Prop) :
  (forall r s, P r s -> Q r s) -> step c s P -> step c s Q.

Fixpoint wp {A} (p : prog A) (s : S) (Q : result CasError A -> S -> Prop) : Prop :=
  match p with
  | Done r => Q r s
  | Call c k => step c s (fun r s => wp (k r) s Q)
  end.

Context `{Monotone}.

Lemma wp_mono {A} (p : prog A) s (P Q : result CasError A -> S -> Prop) :
  wp p s P -> (forall r s, P r s -> Q r s) -> wp p s Q.
Proof.
  intros Hp HPQ. revert s Hp. induction p as [r|c k IH]; intros s; cbn [wp]; [apply HPQ|].
  apply step_mono. intros r s'. apply IH.
Qed.

Lemma wp_finally {A B} (p : prog A) (k : result CasError A -> prog B) s Q :
  wp p s (fun r s => wp (k r) s Q) -> wp (finally p k) s Q.
Proof.
  revert s. induction p as [r|c q IH]; intros s; cbn [wp finally]; [done|]. apply step_mono. intros r s'. apply IH.
Qed.

Lemma wp_bind {A B} (p : prog A) (k : A -> prog B) s Q :
  wp p s (fun r s => match r with Ok a => wp (k a) s Q | Err e => Q (Err e) s end) -> wp (bind p k) s Q.
Proof. intros Hp. apply wp_finally. eapply wp_mono; [exact Hp|]. by intros [a|e]. Qed.

(** The usual way: an assertion [P] between the two. *)
Lemma wp_seq {A B} (P : A -> S -> Prop) (p : prog A) (k : A -> prog B) s Q :
  wp p s (fun r s => match r with Ok a => P a s | Err e => Q (Err e) s end) ->
  (forall a s, P a s -> wp (k a) s Q) -> wp (bind p k) s Q.
Proof. intros Hp Hk. apply wp_bind. eapply wp_mono; [exact Hp|]. intros [a|e]; auto. Qed.

Lemma wp_os c s (Q : result CasError (answer c) -> S -> Prop) :
  step c s (fun r s => Q (map_err CasIo r) s) -> wp (os c) s Q.
Proof. done. Qed.

Lemma wp_raw c s (Q : result CasError (result OsError (answer c)) -> S -> Prop) :
  step c s (fun r s => Q (Ok r) s) -> wp (raw c) s Q.
Proof. done. Qed.

Lemma wp_for_each {A T} (l : list A) (f : A -> T -> prog T) (I : T -> S -> Prop) t s (Q : result CasError T -> S -> Prop) :
  I t s -> (forall x t s, x ∈ l -> I t s -> wp (f x t) s (fun r s => match r with Ok t => I t s | Err e => Q (Err e) s end)) ->
  (forall t s, I t s -> Q (Ok t) s) -> wp (for_each l f t) s Q.
Proof.
  intros Hi Hf HQ. revert t s Hi. induction l as [|x l IH]; intros t s Hi; cbn [for_each]; [by apply HQ|].
  apply (wp_seq I); [apply Hf; [by left|done]|]. intros t' s' Ht. apply IH; [|done].
  intros y t'' s'' Hy. apply Hf. by right.
Qed.

(** A loop keeps an invariant, [n] counting the rounds done. *)
Lemma wp_loop {T A} k (body : T -> prog (T + A)) (I : Z -> T -> S -> Prop) n t s (Q : result CasError (T + A) -> S -> Prop) :
  I n t s ->
  (forall n t s, I n t s -> wp (body t) s (fun r s =>
    match r with Ok (inl t) => I (n + 1) t s | _ => Q r s end)) ->
  wp (loop k body t) s (fun r s => match r with Ok (inl t) => I (n + 2 ^ Z.of_nat k) t s | _ => Q r s end).
Proof.
  intros Hi Hbody. revert n t s Hi. induction k as [|k IH]; intros n t s Hi; cbn [loop]; [by apply Hbody|].
  apply wp_bind. eapply wp_mono; [by apply IH|]. intros [[t'|a]|e] s'; [|by intros ?..].
  intros Hi'. eapply wp_mono; [by apply IH|]. intros [[t''|a]|e] s''; [|done..].
  replace (2 ^ Z.of_nat (Datatypes.S k)) with (2 ^ Z.of_nat k + 2 ^ Z.of_nat k) by (rewrite Nat2Z.inj_succ, Z.pow_succ_r; lia).
  by rewrite Z.add_assoc.
Qed.
End Wp.

(** ** Programs by the calls they make *)

Fixpoint every {A} (P : call -> Prop) (p : prog A) : Prop :=
  match p with Done _ => True | Call c k => P c /\ forall r, every P (k r) end.

Create HintDb calls.

Section Every.
Context (P : call -> Prop).

Lemma every_finally {A B} (p : prog A) (k : result CasError A -> prog B) :
  every P p -> (forall r, every P (k r)) -> every P (finally p k).
Proof. intros Hp Hk. induction p as [r|c q IH]; [apply Hk|]. destruct Hp as [Hc Hq]. split; [done|]. intros r. by apply IH. Qed.

Lemma every_bind {A B} (p : prog A) (k : A -> prog B) : every P p -> (forall a, every P (k a)) -> every P (bind p k).
Proof. intros Hp Hk. apply every_finally; [done|]. by intros [a|e]. Qed.

Lemma every_os c : P c -> every P (os c).
Proof. by split. Qed.

Lemma every_raw c : P c -> every P (raw c).
Proof. by split. Qed.

Lemma every_for_each {A S} (l : list A) (f : A -> S -> prog S) s :
  (forall x s, every P (f x s)) -> every P (for_each l f s).
Proof. intros Hf. revert s. induction l as [|x l IH]; intros s; [done|]. by apply every_bind. Qed.

Lemma every_loop {S A} k (body : S -> prog (S + A)) s : (forall s, every P (body s)) -> every P (loop k body s).
Proof. intros Hb. revert s. induction k as [|k IH]; intros s; [apply Hb|]. apply every_bind; [done|]. by intros [s'|a]. Qed.

Lemma every_mono {A} (Q : call -> Prop) (p : prog A) : every P p -> (forall c, P c -> Q c) -> every Q p.
Proof. intros Hp HPQ. induction p as [r|c k IH]; [done|]. destruct Hp as [Hc Hk]. split; [auto|]. intros r. by apply IH. Qed.

(** What every such call keeps, the program keeps. *)
Lemma every_wp {S A} (step : forall c, S -> (result OsError (answer c) -> S -> Prop) -> Prop) `{Hm : !Monotone step}
    (I : S -> Prop) (p : prog A) s :
  (forall c s, P c -> I s -> step c s (fun _ s => I s)) -> every P p -> I s -> wp step p s (fun _ s => I s).
Proof.
  intros Hstep. revert s. induction p as [r|c k IH]; intros s Hp Hs; [done|]. destruct Hp as [Hc Hk]. cbn [wp].
  eapply (Hm c s); [|by apply Hstep]. intros r s' Hs'. by apply IH.
Qed.
End Every.

(** By the outermost construction of the program; the named operations by their lemmas. *)
Ltac calls_step :=
  lazymatch goal with
  | |- forall _, _ => intros ?
  | |- every _ (bind _ _) => apply every_bind
  | |- every _ (finally _ _) => apply every_finally
  | |- every _ (os _) => apply every_os; try exact I
  | |- every _ (raw _) => apply every_raw; try exact I
  | |- every _ (for_each _ _ _) => apply every_for_each
  | |- every _ (loop _ _ _) => apply every_loop
  | |- every _ (ret _) => exact I
  | |- every _ (fail _) => exact I
  | |- every _ (Done _) => exact I
  | |- every _ (if ?b then _ else _) => destruct b
  | |- every _ (match ?x with _ => _ end) => destruct x
  | |- every _ (let _ := _ in _) => cbv zeta
  | |- every _ _ => solve [auto with calls nocore]
  end.
Ltac calls := repeat calls_step.

(** Calls that change nothing. *)
Definition reads (c : call) : Prop :=
  match c with Exists _ | Stat _ | ReadDir _ | OpenFile _ | ReadAt _ _ _ | Now | AvailableBytes => True | _ => False end.

Lemma exists_reads p : every reads (exists_ p).
Proof. unfold exists_. calls. Qed.
#[export] Hint Resolve exists_reads : calls.

Lemma list_objects_reads : every reads list_objects.
Proof. unfold list_objects. calls. Qed.
#[export] Hint Resolve list_objects_reads : calls.

Lemma total_bytes_reads : every reads total_bytes.
Proof. unfold total_bytes. calls. Qed.
#[export] Hint Resolve total_bytes_reads : calls.

Lemma preflight_reads quota n : every reads (preflight quota n).
Proof. unfold preflight. calls. Qed.

Lemma stat_object_reads d : every reads (stat_object d).
Proof. unfold stat_object. calls. Qed.
#[export] Hint Resolve stat_object_reads : calls.

Lemma open_object_reads d : every reads (open_object d).
Proof. unfold open_object. calls. Qed.
#[export] Hint Resolve open_object_reads : calls.

Lemma verify_object_reads d : every reads (verify_object d).
Proof. unfold verify_object, verify_round. calls. Qed.

Lemma lease_holders_reads d : every reads (lease_holders d).
Proof. unfold lease_holders. calls. Qed.

(** ** The disk *)

Definition works (e : Event) : Prop := match e with Works _ => True | Breaks _ _ => False end.

(** Any call may fail, unless [faults] is false. *)
Definition on_disk (faults : bool) (c : call) (s : Disk) (P : result OsError (answer c) -> Disk -> Prop) : Prop :=
  forall e, (faults = false -> works e) -> P (react e c s).2 (react e c s).1.

#[global] Instance on_disk_mono faults : Monotone (on_disk faults).
Proof. intros c s P Q HPQ HP e He. apply HPQ, HP, He. Qed.

Lemma run_wp {A} faults (p : prog A) events s Q :
  (faults = false -> Forall works events) -> wp (on_disk faults) p s Q -> Q (run events p s).2 (run events p s).1.
Proof.
  revert events s. induction p as [r|c k IH]; intros events s He Hp; cbn [run]; [done|]. cbn [wp] in Hp.
  specialize (Hp (default (Works 0) (head events))). destruct (react _ c s) as [s' r] eqn:Er. apply IH.
  - intros Hf. destruct (He Hf); [constructor|done].
  - apply Hp. intros Hf. by destruct (He Hf).
Qed.

Lemma reads_nothing e c s : reads c -> (react e c s).1 = s.
Proof.
  intros Hc. destruct e as [tick|tick taken]; cbn [react fst]; destruct c; try done; cbn [exec];
    repeat case_match; done.
Qed.

Lemma reads_wp {A} faults (p : prog A) s : every reads p -> wp (on_disk faults) p s (fun _ s' => s' = s).
Proof.
  intros Hp. apply (every_wp reads (on_disk faults) (fun s' => s' = s) p s); [|done|done].
  intros c s' Hc -> e _. by apply reads_nothing.
Qed.
