(* ===== verification/CasSound.v ===== *)
(** * What the store promises (crates/arkforge-artifact/src/cas.rs)

    Any number of store operations, in any processes, interleave call by call, with failing
    calls, processes that die and machines that crash.  Whatever is published under a digest
    has that digest. *)

From stdpp Require Import gmap pretty.
From S2P Require Import Prelude Text Cbor Sha256 Digest Bits Source Cas CasLogic.

(** ** What a process knows of its own files *)

(** A file staged under a name, with its bytes while no write has failed. *)
Record Staged := mkStaged { st_path : path; st_ino : nat; st_bytes : option bytes; st_synced : bool }.

Record Local := mkLocal { staged : option Staged; leased : list nat }.

Definition idle : Local := mkLocal None [].

Definition in_dir (d : string) (p : path) : Prop := head p = Some d.

#[global] Instance in_dir_dec d p : Decision (in_dir d p).
Proof. unfold in_dir. apply _. Defined.

(** What an operation may do. *)
Definition allowed (c : call) (l : Local) : Prop :=
  match c with
  | CreateFile p => (in_dir STAGING_DIR p /\ staged l = None) \/ in_dir LEASES_DIR p
  | WriteAll h b => (exists st, staged l = Some st /\ st_ino st = h) \/ h ∈ leased l
  | Rename p q =>
      exists st b, staged l = Some st /\ st_path st = p /\ st_bytes st = Some b /\ st_synced st = true /\
        q = object_path (sha256 b)
  | _ => True
  end.

(** What it knows after the answer. *)
Definition advance (c : call) (l : Local) : result OsError (answer c) -> Local :=
  match c return result OsError (answer c) -> Local with
  | CreateFile p => fun r =>
      match r with
      | Ok h =>
          if decide (in_dir STAGING_DIR p) then mkLocal (Some (mkStaged p h (Some []) false)) (leased l)
          else mkLocal (staged l) (h :: leased l)
      | Err _ => l
      end
  | WriteAll h b => fun r =>
      match staged l with
      | Some st =>
          if decide (st_ino st = h)
          then mkLocal (Some (mkStaged (st_path st) h
                 match r with Ok _ => option_map (fun d => d ++ b) (st_bytes st) | Err _ => None end false)) (leased l)
          else l
      | None => l
      end
  | SyncAll h => fun r =>
      match staged l, r with
      | Some st, Ok _ =>
          if decide (st_ino st = h) then mkLocal (Some (mkStaged (st_path st) h (st_bytes st) true)) (leased l) else l
      | _, _ => l
      end
  | Rename _ _ => fun r => match r with Ok _ => mkLocal None (leased l) | Err _ => l end
  | _ => fun _ => l
  end.

Definition by_rules (c : call) (l : Local) (P : result OsError (answer c) -> Local -> Prop) : Prop :=
  allowed c l /\ forall r, P r (advance c l r).

#[global] Instance by_rules_mono : Monotone by_rules.
Proof. intros c l P Q HPQ [Ha HP]. split; [done|]. intros r. apply HPQ, HP. Qed.

(** Calls that change nothing a process knows. *)
Definition quiet_call (c : call) : Prop :=
  match c with CreateFile _ | WriteAll _ _ | SyncAll _ | Rename _ _ => False | _ => True end.

Lemma quiet_wp {A} (p : prog A) l : every quiet_call p -> wp by_rules p l (fun _ l' => l' = l).
Proof.
  induction p as [r|c k IH]; intros Hp; [done|]. destruct Hp as [Hc Hk]. cbn [wp].
  assert (allowed c l /\ forall r, advance c l r = l) as [Ha Hadv] by by destruct c.
  split; [done|]. intros r. rewrite Hadv. by apply IH.
Qed.

Lemma wp_quiet {A B} (p : prog A) (k : A -> prog B) l Q :
  every quiet_call p -> (forall a, wp by_rules (k a) l Q) -> (forall e, Q (Err e) l) -> wp by_rules (bind p k) l Q.
Proof.
  intros Hp Hk He. apply (wp_seq by_rules (fun _ l' => l' = l)).
  - eapply wp_mono; [apply _|by apply quiet_wp|]. intros [a|e] l' ->; done.
  - by intros a l' ->.
Qed.

Lemma reads_quiet {A} (p : prog A) : every reads p -> every quiet_call p.
Proof. intros Hp. eapply every_mono; [exact Hp|]. by intros []. Qed.

Lemma create_private_dir_quiet p : every quiet_call (create_private_dir p).
Proof. unfold create_private_dir. calls. apply reads_quiet. calls. Qed.
#[export] Hint Resolve create_private_dir_quiet : calls.

Lemma collect_garbage_quiet : every quiet_call collect_garbage.
Proof.
  unfold collect_garbage, collect_object, collect_staged.
  calls; apply reads_quiet; auto using lease_holders_reads with calls.
Qed.

(** ** The operations follow the rules *)

Lemma finalize_concat ds : finalize (foldl update new ds) = sha256 (concat ds).
Proof. by rewrite streaming_spec, sha256_is_spec. Qed.

Definition holding (p : path) (h : nat) (ds : list bytes) (synced : bool) : Local :=
  mkLocal (Some (mkStaged p h (Some (concat ds)) synced)) [].

Section Importing.
Context {R E : Type} `{ReadSource R E}.

Definition copied (p : path) (h : nat) (n : Z) (s : R * Sha256 * Z) (l : Local) : Prop :=
  exists ds, s.1.2 = foldl update new ds /\ s.2 = zlen (concat ds) /\ l = holding p h ds false.

(** A copy that ends well has hashed what it wrote. *)
Lemma copy_rules quota p h (source : R) :
  wp by_rules (copy quota h source) (holding p h [] false)
    (fun r l => match r with
                | Ok (hasher, written) => exists ds, hasher = foldl update new ds /\ written = zlen (concat ds) /\ l = holding p h ds false
                | Err _ => True end).
Proof.
  unfold copy. eapply (wp_seq by_rules (fun r l => match r with
    | inr (hasher, written) => exists ds, hasher = foldl update new ds /\ written = zlen (concat ds) /\ l = holding p h ds false
    | inl _ => True end)).
  2: { intros [s|hw] l Hl; [done|]. by destruct hw. }
  eapply wp_mono; [apply _| |].
  { eapply (wp_loop by_rules 64 (copy_round quota h) (copied p h) 0) with (Q := fun r l => match r with
      | Ok (inr (hasher, written)) => exists ds, hasher = foldl update new ds /\ written = zlen (concat ds) /\ l = holding p h ds false
      | _ => True end); [by exists []|].
    intros n [[src hasher] written] l (ds & Hh & Hw & ->). cbn [fst snd] in Hh, Hw. unfold copy_round.
    destruct (src_read BUFFER src) as [[chunk src']|e]; [|done]. destruct chunk as [|b chunk]; [by exists ds|].
    set (c := b :: chunk). destruct (_ <? _); [done|]. apply wp_bind; [apply _|]. apply wp_os. split.
    { left. by eexists. }
    intros [[]|e]; cbn [map_err]; [|done]. cbn [wp ret]. exists (ds ++ [c]). cbn [fst snd].
    rewrite foldl_app, concat_app. cbn [foldl concat]. rewrite app_nil_r. split_and!; [by rewrite Hh|by rewrite zlen_app, Hw|].
    cbn. rewrite decide_True by done. unfold holding. by rewrite concat_app; cbn; rewrite app_nil_r. }
  intros [[s|[hasher written]]|e] l; [done| |done]. done.
Qed.

Lemma publish_rules p h ds :
  wp by_rules (publish p (sha256 (concat ds)) (zlen (concat ds))) (holding p h ds true) (fun _ _ => True).
Proof.
  unfold publish. apply wp_quiet; [apply reads_quiet, exists_reads| |done]. intros [].
  { apply wp_quiet; [by apply every_raw| |done]. done. }
  apply wp_quiet; [apply create_private_dir_quiet| |done]. intros _.
  apply wp_quiet; [by apply every_os| |done]. intros _.
  apply wp_bind; [apply _|]. apply wp_raw. split; [by eexists _, _|].
  intros [[]|e]; [done|]. cbn [advance]. apply wp_quiet; [apply reads_quiet, exists_reads| |done]. intros []; [|done].
  by apply wp_quiet; [by apply every_raw| |].
Qed.

Lemma import_staged_rules quota p (source : R) expected :
  in_dir STAGING_DIR p -> wp by_rules (import_staged quota p source expected) idle (fun _ _ => True).
Proof.
  intros Hp. unfold import_staged, create_private_file. apply wp_bind; [apply _|].
  apply wp_bind; [apply _|]. apply wp_os. split; [by left|].
  intros [h|e]; [|done]. cbn [map_err advance]. rewrite decide_True by done. cbn [idle leased].
  apply wp_quiet; [by apply every_os| |done]. intros _. cbn [ret wp].
  apply wp_finally; [apply _|]. apply wp_bind; [apply _|].
  eapply wp_mono; [apply _|apply (copy_rules quota p h source)|].
  assert (forall e l, wp by_rules (do _ := raw (RemoveFile p) in fail (A:=ImportedObject) e) l (fun _ _ => True)) as Hfail.
  { intros e l. by apply wp_quiet; [by apply every_raw| |]. }
  intros [[hasher written]|e] l; [|intros _; apply Hfail]. intros (ds & -> & -> & ->).
  apply wp_bind; [apply _|]. apply wp_os. split; [done|]. intros [[]|e]; [|apply Hfail].
  cbn [map_err advance staged holding st_ino]. rewrite decide_True by done. cbn [ret wp]. rewrite finalize_concat.
  destruct expected as [expected|]; [|apply publish_rules]. destruct (negb _); [apply Hfail|apply publish_rules].
Qed.

Lemma import_rules quota pid (source : R) size expected :
  wp by_rules (import quota pid source size expected) idle (fun _ _ => True).
Proof.
  unfold import. apply wp_quiet; [apply reads_quiet, preflight_reads| |done]. intros report. destruct (negb _); [done|].
  apply wp_quiet; [by apply every_raw| |done]. intros now. by apply import_staged_rules.
Qed.
End Importing.

Lemma acquire_lease_rules d holder : wp by_rules (acquire_lease d holder) idle (fun _ _ => True).
Proof.
  unfold acquire_lease, contains. apply wp_quiet; [apply reads_quiet, exists_reads| |done]. intros []; [|done]. cbn [negb].
  apply wp_quiet; [done| |done]. intros name. apply wp_quiet; [apply create_private_dir_quiet| |done]. intros _.
  unfold create_private_file. apply wp_bind; [apply _|]. apply wp_bind; [apply _|]. apply wp_os. split; [by right|].
  intros [h|e]; [|done]. cbn [map_err advance]. rewrite decide_False by done. cbn [idle staged leased].
  apply wp_quiet; [by apply every_os| |done]. intros _. cbn [ret wp].
  apply wp_bind; [apply _|]. apply wp_os. split; [right; by left|]. intros [[]|e]; [|done]. cbn [map_err advance staged].
  apply wp_os. by split.
Qed.

(** ** The machine *)

(** Results are forgotten: what a process leaves is what it did. *)
Definition forget {A} (p : prog A) : prog unit := bind p (fun _ => ret tt).

Inductive store_program (quota : CasQuota) : prog unit -> Prop :=
| run_open : store_program quota (forget open_with_probe)
| run_preflight n : store_program quota (forget (preflight quota n))
| run_import {R E} `{ReadSource R E} pid (source : R) size expected :
    store_program quota (forget (import quota pid source size expected))
| run_contains d : store_program quota (forget (contains d))
| run_open_object d : store_program quota (forget (open_object d))
| run_object_size d : store_program quota (forget (object_size d))
| run_seal d : store_program quota (forget (seal_object d))
| run_is_sealed d : store_program quota (forget (object_is_sealed d))
| run_verify d : store_program quota (forget (verify_object d))
| run_acquire d holder : store_program quota (forget (acquire_lease d holder))
| run_release d holder : store_program quota (forget (release_lease d holder))
| run_holders d : store_program quota (forget (lease_holders d))
| run_list : store_program quota (forget list_objects)
| run_total : store_program quota (forget total_bytes)
| run_collect : store_program quota (forget collect_garbage).

Record System := mkSystem { disk : Disk; processes : list (prog unit) }.

Definition file_names (n : gmap path Node) : list (path * nat) :=
  omap (fun e => match e.2 with File ino => Some (e.1, ino) | Dir => None end) (map_to_list n).

(** After a crash a name leads to a file it led to since the machine started, or nowhere;
    the bytes of a file are those synced, or any. *)
Definition crashed (s t : Disk) : Prop :=
  (forall p ino, nodes t !! p = Some (File ino) -> (p, ino) ∈ ever s) /\
  (forall ino i, inodes s !! ino = Some i ->
     exists j, inodes t !! ino = Some j /\ (i_synced i = true -> i_bytes j = i_bytes i /\ i_synced j = true)) /\
  (forall p ino, (p, ino) ∈ ever t <-> nodes t !! p = Some (File ino)).

(** An assumption: the name of a staged file is new.  It carries the process and the
    nanosecond of its import, and zero when the clock fails; two imports that shared one would
    share its file. *)
Definition fresh_name (c : call) (s : Disk) : Prop :=
  match c with
  | CreateFile p => in_dir STAGING_DIR p -> forall ino, (p, ino) ∉ ever s
  | _ => True
  end.

Inductive sys_step (quota : CasQuota) : System -> System -> Prop :=
| sys_start s p : store_program quota p -> sys_step quota s (mkSystem (disk s) (processes s ++ [p]))
| sys_call s n c k e :
    processes s !! n = Some (Call c k) -> fresh_name c (disk s) ->
    sys_step quota s (mkSystem (react e c (disk s)).1 (<[n := k (react e c (disk s)).2]> (processes s)))
| sys_kill s n :
    sys_step quota s (mkSystem (disk s) (<[n := ret tt]> (processes s)))
| sys_crash s t : crashed (disk s) t -> sys_step quota s (mkSystem t []).

Definition empty_store : System := mkSystem (mkDisk ∅ ∅ []) [].

Lemma forget_rules {A} (p : prog A) : wp by_rules p idle (fun _ _ => True) -> wp by_rules (forget p) idle (fun _ _ => True).
Proof. intros Hp. apply wp_bind; [apply _|]. eapply wp_mono; [apply _|exact Hp|]. by intros [a|e]. Qed.

Lemma quiet_rules {A} (p : prog A) : every quiet_call p -> wp by_rules p idle (fun _ _ => True).
Proof. intros Hp. eapply wp_mono; [apply _|by apply quiet_wp|done]. Qed.

Lemma store_program_rules quota p : store_program quota p -> wp by_rules p idle (fun _ _ => True).
Proof.
  intros []; apply forget_rules.
  3: apply import_rules.
  9: apply acquire_lease_rules.
  all: apply quiet_rules.
  all: unfold open_with_probe, contains, object_size, seal_object, object_is_sealed, release_lease; calls.
  all: try solve [apply reads_quiet; auto using preflight_reads, verify_object_reads, lease_holders_reads with calls].
  apply collect_garbage_quiet.
Qed.

(** ** The invariant *)

Definition contents_ok (inodes : gmap nat Inode) (st : Staged) : Prop :=
  exists i, inodes !! st_ino st = Some i /\ (forall b, st_bytes st = Some b -> i_bytes i = b) /\
    (st_synced st = true -> i_synced i = true).

Definition names_ok (ever : list (path * nat)) (st : Staged) : Prop :=
  in_dir STAGING_DIR (st_path st) /\ (st_path st, st_ino st) ∈ ever /\
  (forall p, (p, st_ino st) ∈ ever -> p = st_path st) /\ (forall ino, (st_path st, ino) ∈ ever -> ino = st_ino st).

Definition holds_digest (inodes : gmap nat Inode) (ino : nat) (d : Sha256Digest) : Prop :=
  exists i, inodes !! ino = Some i /\ i_synced i = true /\ sha256 (i_bytes i) = d.

Record Inv (s : Disk) (ls : list Local) : Prop := {
  inv_names p ino : nodes s !! p = Some (File ino) -> (p, ino) ∈ ever s;
  inv_inodes p ino : (p, ino) ∈ ever s -> is_Some (inodes s !! ino);
  inv_objects d ino : digest_ok d -> (object_path d, ino) ∈ ever s -> holds_digest (inodes s) ino d;
  inv_leases p q ino : (p, ino) ∈ ever s -> in_dir LEASES_DIR p -> (q, ino) ∈ ever s -> in_dir LEASES_DIR q;
  inv_staged n l st : ls !! n = Some l -> staged l = Some st -> names_ok (ever s) st /\ contents_ok (inodes s) st;
  inv_apart n m l k st st' :
    ls !! n = Some l -> ls !! m = Some k -> staged l = Some st -> staged k = Some st' ->
    st_ino st = st_ino st' -> n = m;
  inv_leased n l h : ls !! n = Some l -> h ∈ leased l -> exists p, (p, h) ∈ ever s /\ in_dir LEASES_DIR p
}.

Lemma object_in_dir d : in_dir OBJECTS_DIR (object_path d).
Proof. done. Qed.

Lemma dirs_differ p a b : in_dir a p -> in_dir b p -> a = b.
Proof. unfold in_dir. congruence. Qed.

Lemma object_path_inj d e : digest_ok d -> digest_ok e -> object_path d = object_path e -> d = e.
Proof.
  intros Hd He [= _ Hex]. pose proof (parse_hex_to_hex d Hd) as Hp. rewrite Hex, parse_hex_to_hex in Hp by done. congruence.
Qed.

Lemma not_staged_object s ls n l st d :
  Inv s ls -> ls !! n = Some l -> staged l = Some st -> (object_path d, st_ino st) ∉ ever s.
Proof.
  intros Hi Hl Hst Hin. destruct (inv_staged _ _ Hi n l st Hl Hst) as [(Hs & _ & Hn & _) _].
  apply Hn in Hin. rewrite <- Hin in Hs. by apply (dirs_differ _ _ _ (object_in_dir d)) in Hs.
Qed.

Lemma not_leased_object s ls n l h d : Inv s ls -> ls !! n = Some l -> h ∈ leased l -> (object_path d, h) ∉ ever s.
Proof.
  intros Hi Hl Hh Hin. destruct (inv_leased _ _ Hi n l h Hl Hh) as (p & Hp & Hd).
  pose proof (inv_leases _ _ Hi _ _ _ Hp Hd Hin) as Ho. by apply (dirs_differ _ _ _ (object_in_dir d)) in Ho.
Qed.

Lemma not_leased_staged s ls n m l k st h :
  Inv s ls -> ls !! n = Some l -> ls !! m = Some k -> staged k = Some st -> h ∈ leased l -> st_ino st <> h.
Proof.
  intros Hi Hl Hk Hst Hh Heq. destruct (inv_leased _ _ Hi n l h Hl Hh) as (p & Hp & Hd).
  destruct (inv_staged _ _ Hi m k st Hk Hst) as [(Hs & _ & Hn & _) _]. rewrite <- Heq in Hp.
  apply Hn in Hp as ->. by apply (dirs_differ _ _ _ Hs) in Hd.
Qed.

(** Taking names away, or adding directories. *)
Lemma inv_fewer_names s ls nodes' :
  Inv s ls -> (forall p ino, nodes' !! p = Some (File ino) -> nodes s !! p = Some (File ino)) -> Inv (with_nodes s nodes') ls.
Proof. intros [] Hn. constructor; cbn [with_nodes nodes inodes ever]; eauto. Qed.

Lemma lookup_alter_Some (f : Inode -> Inode) h (m : gmap nat Inode) ino i :
  m !! ino = Some i -> alter f h m !! ino = Some (if decide (ino = h) then f i else i).
Proof.
  intros Hi. destruct (decide (ino = h)) as [->|]; [by rewrite lookup_alter_eq, Hi|by rewrite lookup_alter_ne].
Qed.

(** A change of a file that is no object and that no other process has staged. *)
Lemma inv_alter s ls n l l' f h :
  Inv s ls -> ls !! n = Some l -> (forall d, (object_path d, h) ∉ ever s) ->
  (forall m k st, ls !! m = Some k -> staged k = Some st -> m <> n -> st_ino st <> h) ->
  (forall g, g ∈ leased l' -> exists p, (p, g) ∈ ever s /\ in_dir LEASES_DIR p) ->
  (forall st', staged l' = Some st' -> contents_ok (alter f h (inodes s)) st' /\
     exists st, staged l = Some st /\ st_path st' = st_path st /\ st_ino st' = st_ino st) ->
  Inv (with_inodes s (alter f h (inodes s))) (<[n := l']> ls).
Proof.
  intros Hi Hl Hobj Hother Hleased Hst. pose proof Hi as [Hn Hin Ho Hle Hs Ha Hld].
  constructor; cbn [with_inodes nodes inodes ever]; [done| | |done| | |].
  - intros p ino Hp. destruct (Hin p ino Hp) as [i Hino]. by rewrite (lookup_alter_Some f h _ _ i Hino).
  - intros d ino Hd Hp. destruct (Ho d ino Hd Hp) as (i & Hino & Hsync & Hhash). exists i.
    rewrite (lookup_alter_Some f h _ _ i Hino). rewrite decide_False; [done|]. intros ->. by apply (Hobj d).
  - intros m k st Hk Hkst. destruct (decide (m = n)) as [->|Hmn].
    + rewrite list_lookup_insert_eq in Hk by (by eapply lookup_lt_Some). injection Hk as <-.
      destruct (Hst st Hkst) as (Hc & st0 & Hst0 & Hp & Hino). split; [|done].
      destruct (Hs n l st0 Hl Hst0) as [Hnm _]. unfold names_ok in *. by rewrite Hp, Hino.
    + rewrite list_lookup_insert_ne in Hk by done. destruct (Hs m k st Hk Hkst) as [Hnm (i & Hino & Hb & Hsy)].
      split; [done|]. exists i. rewrite (lookup_alter_Some f h _ _ i Hino).
      rewrite decide_False by (by apply (Hother m k st)). done.
  - intros a b la lb sa sb Hla Hlb Hsa Hsb Heq.
    assert (forall m k st, <[n := l']> ls !! m = Some k -> staged k = Some st ->
      exists k0 st0, ls !! m = Some k0 /\ staged k0 = Some st0 /\ st_ino st = st_ino st0) as Hback.
    { intros m k st Hk Hkst. destruct (decide (m = n)) as [->|Hmn].
      - rewrite list_lookup_insert_eq in Hk by (by eapply lookup_lt_Some). injection Hk as <-.
        destruct (Hst st Hkst) as (_ & st0 & Hst0 & _ & Hino). by exists l, st0.
      - rewrite list_lookup_insert_ne in Hk by done. by exists k, st. }
    destruct (Hback _ _ _ Hla Hsa) as (k1 & s1 & H1 & H2 & H3). destruct (Hback _ _ _ Hlb Hsb) as (k2 & s2 & H4 & H5 & H6).
    eapply Ha; [exact H1|exact H4|exact H2|exact H5|congruence].
  - intros m k g Hk Hg. destruct (decide (m = n)) as [->|Hmn].
    + rewrite list_lookup_insert_eq in Hk by (by eapply lookup_lt_Some). injection Hk as <-. by apply Hleased.
    + rewrite list_lookup_insert_ne in Hk by done. by apply (Hld m k).
Qed.

(** The same, with what the process knows described: its staged file moves from [st] to [st']. *)
Lemma inv_local s ls n l l' :
  Inv s ls -> ls !! n = Some l -> leased l' = leased l ->
  (forall st', staged l' = Some st' -> contents_ok (inodes s) st' /\
     exists st, staged l = Some st /\ st_path st' = st_path st /\ st_ino st' = st_ino st) ->
  Inv s (<[n := l']> ls).
Proof.
  intros Hi Hl Hle Hst. destruct s as [nds ins evr]. cbn [inodes] in Hst.
  pose proof (inv_alter (mkDisk nds ins evr) ls n l l' id (fresh (dom ins)) Hi Hl) as Ha.
  unfold with_inodes in Ha. cbn [nodes inodes ever] in Ha. rewrite (alter_id id) in Ha by done.
  assert (forall p, (p, fresh (dom ins)) ∉ evr) as Hfresh.
  { intros p Hin. apply (inv_inodes _ _ Hi) in Hin. cbn [inodes] in Hin. apply elem_of_dom in Hin. by apply is_fresh in Hin. }
  apply Ha; [intros d; apply Hfresh| | |done].
  - intros m k st Hk Hkst _ Heq. destruct (inv_staged _ _ Hi m k st Hk Hkst) as [(_ & Hin & _) _].
    cbn [ever] in Hin. rewrite Heq in Hin. by apply Hfresh in Hin.
  - rewrite Hle. intros g Hg. by apply (inv_leased _ _ Hi n l).
Qed.

Definition keeps_bytes (f : Inode -> Inode) : Prop :=
  forall i, i_bytes (f i) = i_bytes i /\ (i_synced i = true -> i_synced (f i) = true).

Lemma inv_touch s ls f h : Inv s ls -> keeps_bytes f -> Inv (with_inodes s (alter f h (inodes s))) ls.
Proof.
  intros Hi Hf. pose proof Hi as [Hn Hin Ho Hle Hs Ha Hld].
  constructor; cbn [with_inodes nodes inodes ever]; [done| | |done| |done|done].
  - intros p ino Hp. destruct (Hin p ino Hp) as [i Hino]. by rewrite (lookup_alter_Some f h _ _ i Hino).
  - intros d ino Hd Hp. destruct (Ho d ino Hd Hp) as (i & Hino & Hsync & Hhash). eexists.
    rewrite (lookup_alter_Some f h _ _ i Hino). split; [done|]. destruct (Hf i) as [Hb Hsy].
    case_decide; [|done]. rewrite Hb. auto.
  - intros m k st Hk Hkst. destruct (Hs m k st Hk Hkst) as [Hnm (i & Hino & Hb & Hsy)]. split; [done|]. eexists.
    rewrite (lookup_alter_Some f h _ _ i Hino). split; [done|]. destruct (Hf i) as [Hb' Hsy'].
    case_decide; [|done]. rewrite Hb'. auto.
Qed.

Lemma fresh_ino_new s : inodes s !! fresh_ino s = None.
Proof. unfold fresh_ino. apply not_elem_of_dom, is_fresh. Qed.

(** A name for a file that has none, which one process comes to know. *)
Section Bind.
Context (s : Disk) (ls : list Local) (n : nat) (l l' : Local) (p : path) (h : nat) (i : Inode).
Context (Hi : Inv s ls) (Hl : ls !! n = Some l) (Hnone : inodes s !! h = None).
Context (Hobj : forall d, p <> object_path d).
Context (Hst' : forall st', staged l' = Some st' -> names_ok ((p, h) :: ever s) st' /\
           contents_ok (<[h := i]> (inodes s)) st' /\ (staged l = Some st' \/ (staged l = None /\ st_ino st' = h))).
Context (Hle' : forall g, g ∈ leased l' -> g ∈ leased l \/ (g = h /\ in_dir LEASES_DIR p)).
Context (Hp : (forall ino, (p, ino) ∉ ever s) \/ in_dir LEASES_DIR p).

Lemma bound_inode q ino : (q, ino) ∈ ever s -> ino <> h /\ <[h := i]> (inodes s) !! ino = inodes s !! ino.
Proof using Hi Hnone.
  intros Hq. assert (ino <> h) by (intros ->; apply (inv_inodes _ _ Hi) in Hq as [j Hj]; congruence).
  split; [done|]. by rewrite lookup_insert_ne.
Qed.

Lemma bound_names st : names_ok (ever s) st -> names_ok ((p, h) :: ever s) st.
Proof using Hi Hnone Hp i.
  intros (Hd & Hever & Hq1 & Hq2). pose proof (bound_inode _ _ Hever) as [Hne _]. split_and!; [done|by right| |].
  - intros q [Heq|Hq]%elem_of_cons; [|by apply Hq1]. injection Heq as _ Heq. by destruct (Hne Heq).
  - intros ino [Heq|Hq]%elem_of_cons; [|by apply Hq2]. injection Heq as Heq ->. rewrite Heq in Hever, Hd.
    destruct Hp as [Hnew|Hlease]; [by apply Hnew in Hever|by apply (dirs_differ _ _ _ Hd) in Hlease].
Qed.

Lemma bound_staged m k st :
  <[n := l']> ls !! m = Some k -> staged k = Some st ->
  (exists k0, ls !! m = Some k0 /\ staged k0 = Some st) \/ (m = n /\ st_ino st = h).
Proof.
  intros Hk Hkst. destruct (decide (m = n)) as [->|Hmn].
  - rewrite list_lookup_insert_eq in Hk by (by eapply lookup_lt_Some). injection Hk as <-.
    destruct (Hst' st Hkst) as (_ & _ & [?|[_ ?]]); [left; by exists l|by right].
  - rewrite list_lookup_insert_ne in Hk by done. left. by exists k.
Qed.

Lemma inv_bind_new : Inv (bind_name (with_inodes s (<[h := i]> (inodes s))) p h) (<[n := l']> ls).
Proof.
  pose proof Hi as [Hn Hin Ho Hle Hs Ha Hld]. constructor; cbn [bind_name with_inodes nodes inodes ever].
  - intros q ino. destruct (decide (q = p)) as [->|Hq]; [rewrite lookup_insert_eq; intros [= <-]; by left|].
    rewrite lookup_insert_ne by done. right. by apply Hn.
  - intros q ino [[= -> ->]|Hq]%elem_of_cons; [by rewrite lookup_insert_eq|].
    rewrite (proj2 (bound_inode q ino Hq)). by apply Hin in Hq.
  - intros d ino Hd [[= Heq ->]|Hq]%elem_of_cons; [by destruct (Hobj d)|].
    unfold holds_digest. rewrite (proj2 (bound_inode _ _ Hq)). by apply Ho.
  - intros q q' ino Hq Hd Hq'. apply elem_of_cons in Hq as [[= -> ->]|Hq], Hq' as [Heq|Hq'].
    + by injection Heq as ->.
    + by apply bound_inode in Hq' as [? _].
    + injection Heq as -> ->. by apply bound_inode in Hq as [? _].
    + exact (Hle q q' ino Hq Hd Hq').
  - intros m k st Hk Hkst. destruct (decide (m = n)) as [->|Hmn].
    + rewrite list_lookup_insert_eq in Hk by (by eapply lookup_lt_Some). injection Hk as <-.
      destruct (Hst' st Hkst) as (? & ? & _). done.
    + rewrite list_lookup_insert_ne in Hk by done. destruct (Hs m k st Hk Hkst) as [Hnm Hc].
      split; [by apply bound_names|]. unfold contents_ok. destruct Hnm as (_ & Hever & _).
      by rewrite (proj2 (bound_inode _ _ Hever)).
  - intros a b la lb sa sb Hla Hlb Hsa Hsb Heq.
    assert (forall m k st, ls !! m = Some k -> staged k = Some st -> st_ino st <> h) as Hne.
    { intros m k st Hk Hkst. destruct (Hs m k st Hk Hkst) as [(_ & Hever & _) _]. by apply bound_inode in Hever as [? _]. }
    destruct (bound_staged _ _ _ Hla Hsa) as [(k1 & H1 & H2)|[-> H2]], (bound_staged _ _ _ Hlb Hsb) as [(k2 & H3 & H4)|[-> H4]]; [|..|done].
    + by apply (Ha a b _ _ _ _ H1 H3 H2 H4).
    + destruct (Hne _ _ _ H1 H2). congruence.
    + destruct (Hne _ _ _ H3 H4). congruence.
  - intros m k g Hk Hg. destruct (decide (m = n)) as [->|Hmn].
    + rewrite list_lookup_insert_eq in Hk by (by eapply lookup_lt_Some). injection Hk as <-.
      destruct (Hle' g Hg) as [Hg'|[-> Hd]]; [|exists p; split; [by left|done]].
      destruct (Hld n l g Hl Hg') as (q & Hq & Hd). exists q. split; [by right|done].
    + rewrite list_lookup_insert_ne in Hk by done. destruct (Hld m k g Hk Hg) as (q & Hq & Hd). exists q. split; [by right|done].
Qed.
End Bind.

(** A new file under a name no file has had, or under a lease's. *)
Lemma inv_create s ls n l p i :
  Inv s ls -> ls !! n = Some l -> i_bytes i = [] ->
  (in_dir STAGING_DIR p /\ staged l = None /\ (forall ino, (p, ino) ∉ ever s)) \/ in_dir LEASES_DIR p ->
  Inv (bind_name (with_inodes s (<[fresh_ino s := i]> (inodes s))) p (fresh_ino s))
      (<[n := advance (CreateFile p) l (Ok (fresh_ino s))]> ls).
Proof.
  intros Hi Hl Hi0 Hp. pose proof (fresh_ino_new s) as Hnone. set (h := fresh_ino s) in *.
  assert ((forall ino, (p, ino) ∉ ever s) \/ in_dir LEASES_DIR p) as Hp' by tauto.
  apply (inv_bind_new s ls n l); [done|done|done| | | |done].
  - intros d ->. destruct Hp as [[Hd _]|Hd]; by apply (dirs_differ _ _ _ (object_in_dir d)) in Hd.
  - intros st'. cbn [advance]. destruct (decide (in_dir STAGING_DIR p)) as [Hd|Hd]; cbn [staged].
    + destruct Hp as [(_ & Hnone' & Hnew)|Hd']; [|by apply (dirs_differ _ _ _ Hd) in Hd']. intros [= <-]. split_and!.
      * split_and!; cbn [st_path st_ino]; [done|by left| |].
        -- intros q [[= ->]|Hq]%elem_of_cons; [done|]. by apply (bound_inode s ls h i) in Hq as [? _].
        -- intros ino [[= ->]|Hq]%elem_of_cons; [done|by apply Hnew in Hq].
      * exists i. cbn [st_ino st_bytes st_synced]. rewrite lookup_insert_eq. split_and!; [done| |done]. by intros b [= <-].
      * by right.
    + intros Hst. destruct (inv_staged _ _ Hi n l st' Hl Hst) as [Hnm Hc]. split_and!; [|  |by left].
      * eapply (bound_names s ls p h i Hi Hnone Hp'); done.
      * unfold contents_ok. destruct Hnm as (_ & Hever & _). by rewrite (proj2 (bound_inode s ls h i Hi Hnone _ _ Hever)).
  - intros g. cbn [advance]. destruct (decide (in_dir STAGING_DIR p)) as [Hd|Hd]; cbn [leased]; [by left|].
    intros [->|Hg]%elem_of_cons; [|by left]. right. split; [done|]. by destruct Hp as [[? _]|].
Qed.

(** A staged file, whole and synced, gets the name of its digest. *)
Lemma inv_publish s ls n l st b ino :
  Inv s ls -> ls !! n = Some l -> staged l = Some st -> st_bytes st = Some b -> st_synced st = true ->
  nodes s !! st_path st = Some (File ino) ->
  Inv (bind_name (with_nodes s (delete (st_path st) (nodes s))) (object_path (sha256 b)) ino)
      (<[n := mkLocal None (leased l)]> ls).
Proof.
  intros Hi Hl Hst Hb Hsy Hp. pose proof Hi as [Hn Hin Ho Hle Hs Ha Hld].
  destruct (Hs n l st Hl Hst) as [(Hd & Hever & Hq1 & Hq2) (i & Hino & Hbytes & Hsync)].
  pose proof (Hq2 ino (Hn _ _ Hp)) as ->.
  assert (forall m k, <[n := mkLocal None (leased l)]> ls !! m = Some k ->
    (m = n /\ staged k = None /\ leased k = leased l) \/ (m <> n /\ ls !! m = Some k)) as Hback.
  { intros m k Hk. destruct (decide (m = n)) as [->|Hmn].
    - rewrite list_lookup_insert_eq in Hk by (by eapply lookup_lt_Some). injection Hk as <-. by left.
    - rewrite list_lookup_insert_ne in Hk by done. by right. }
  constructor; cbn [bind_name with_nodes nodes inodes ever].
  - intros q ino. destruct (decide (q = object_path (sha256 b))) as [->|Hq]; [rewrite lookup_insert_eq; intros [= <-]; by left|].
    rewrite lookup_insert_ne by done. rewrite lookup_delete_Some. intros [_ Hq']. right. by apply Hn.
  - intros q ino [[= -> ->]|Hq]%elem_of_cons; [by exists i|by apply Hin in Hq].
  - intros d ino Hdo [Heq|Hq]%elem_of_cons; [|by apply Ho]. pose proof (f_equal fst Heq) as Hpath.
    apply (f_equal snd) in Heq. cbn [fst snd] in Hpath, Heq. subst ino. apply object_path_inj in Hpath as ->; [|done|apply sha256_ok]. exists i. by rewrite (Hbytes b Hb), (Hsync Hsy).
  - intros q q' ino Hq Hdq Hq'. apply elem_of_cons in Hq as [Heq|Hq], Hq' as [Heq'|Hq'].
    + injection Heq as -> ->. by apply (dirs_differ _ _ _ (object_in_dir _)) in Hdq.
    + injection Heq as -> ->. by apply (dirs_differ _ _ _ (object_in_dir _)) in Hdq.
    + injection Heq' as -> ->. apply Hq1 in Hq as ->. by apply (dirs_differ _ _ _ Hd) in Hdq.
    + exact (Hle q q' ino Hq Hdq Hq').
  - intros m k st' Hk Hkst. apply Hback in Hk as [(-> & Hnone & _)|[Hmn Hk]]; [congruence|].
    destruct (Hs m k st' Hk Hkst) as [(Hd' & Hever' & Hq1' & Hq2') Hc]. split; [|done]. split_and!; [done|by right| |].
    + intros q [Heq|Hq]%elem_of_cons; [|by apply Hq1']. injection Heq as _ Heq. destruct Hmn.
      by apply (Ha m n k l st' st).
    + intros ino [Heq|Hq]%elem_of_cons; [|by apply Hq2']. injection Heq as Heq _. rewrite Heq in Hd'.
      by apply (dirs_differ _ _ _ (object_in_dir _)) in Hd'.
  - intros a b' la lb sa sb Hla Hlb Hsa Hsb Heq.
    apply Hback in Hla as [(-> & Hnone & _)|[_ Hla]]; [congruence|]. apply Hback in Hlb as [(-> & Hnone & _)|[_ Hlb]]; [congruence|].
    by apply (Ha a b' la lb sa sb).
  - intros m k g Hk Hg. assert (exists k0 m0, ls !! m0 = Some k0 /\ g ∈ leased k0) as (k0 & m0 & Hk0 & Hg0).
    { apply Hback in Hk as [(-> & _ & Hlk)|[_ Hk]]; [rewrite Hlk in Hg; by exists l, n|by exists k, m]. }
    destruct (Hld m0 k0 g Hk0 Hg0) as (q & Hq & Hdq). exists q. split; [by right|done].
Qed.

Lemma make_dirs_files s ps s' b :
  make_dirs s ps = (s', b) ->
  inodes s' = inodes s /\ ever s' = ever s /\ forall p ino, nodes s' !! p = Some (File ino) -> nodes s !! p = Some (File ino).
Proof.
  revert s. induction ps as [|q ps IH]; intros s; cbn [make_dirs]; [by intros [= <- _]|].
  destruct (nodes s !! q) as [[|ino]|] eqn:Eq; [apply IH|by intros [= <- _]|].
  intros Hm. apply IH in Hm as (-> & -> & Hn). split_and!; [done|done|]. intros p ino Hp. apply Hn in Hp.
  cbn [with_nodes nodes] in Hp. destruct (decide (p = q)) as [->|Hpq]; [by rewrite lookup_insert_eq in Hp|].
  by rewrite lookup_insert_ne in Hp.
Qed.

Lemma inv_make_dirs s ls ps s' b : Inv s ls -> make_dirs s ps = (s', b) -> Inv s' ls.
Proof.
  intros Hi Hm. apply make_dirs_files in Hm as (H1 & H2 & H3). pose proof (inv_fewer_names s ls (nodes s') Hi H3) as Hf.
  unfold with_nodes in Hf. rewrite <- H1, <- H2 in Hf. by destruct s'.
Qed.

Lemma insert_same (ls : list Local) n l : ls !! n = Some l -> <[n := l]> ls = ls.
Proof. apply list_insert_id. Qed.

Lemma advance_failed c l e : 
  match c with WriteAll _ _ => True | _ => advance c l (Err e) = l end.
Proof. destruct c; try done. cbn. by destruct (staged l). Qed.

(** A write to a file the process may write, of bytes [taken] when it fails. *)
Lemma inv_write s ls n l h b tick (r : result OsError unit) taken :
  Inv s ls -> ls !! n = Some l -> allowed (WriteAll h b) l -> (is_ok r = true -> taken = b) ->
  Inv (exec tick (WriteAll h taken) s).1 (<[n := advance (WriteAll h b) l r]> ls).
Proof.
  intros Hi Hl Haw Htaken. cbn [exec fst]. apply (inv_alter s ls n l); [done|done| | | |].
  - intros d. destruct Haw as [(st & Hst & <-)|Hh]; [by eapply not_staged_object|by eapply not_leased_object].
  - intros m k st' Hk Hst' Hmn Heq. destruct Haw as [(st & Hst & <-)|Hh].
    + destruct Hmn. by apply (inv_apart _ _ Hi m n k l st' st).
    + by eapply (not_leased_staged s ls n m l k st' h).
  - assert (leased (advance (WriteAll h b) l r) = leased l) as ->.
    { cbn. destruct (staged l); [|done]. by case_decide. }
    intros g Hg. by apply (inv_leased _ _ Hi n l).
  - intros st' Hst'. cbn [advance] in Hst'. destruct (staged l) as [st|] eqn:Est; [|congruence].
    destruct (inv_staged _ _ Hi n l st Hl Est) as [_ (i & Hino & Hb & Hsy)].
    destruct (decide (st_ino st = h)) as [<-|Hne].
    + cbn [staged] in Hst'. injection Hst' as <-. split; [|by exists st]. eexists. cbn [st_ino st_bytes st_synced].
      rewrite lookup_alter_eq, Hino. split_and!; [done| |done]. cbn [i_bytes]. intros d. destruct r; [|done].
      rewrite Htaken by done. destruct (st_bytes st) as [d'|]; [|done]. cbn. intros [= <-]. by rewrite (Hb d').
    + rewrite Est in Hst'. injection Hst' as <-. split; [|by exists st]. exists i. by rewrite lookup_alter_ne.
Qed.

(** A lease taken again: its file is made empty. *)
Lemma inv_truncate s ls n l p ino f :
  Inv s ls -> ls !! n = Some l -> nodes s !! p = Some (File ino) -> in_dir LEASES_DIR p ->
  Inv (with_inodes s (alter f ino (inodes s))) (<[n := advance (CreateFile p) l (Ok ino)]> ls).
Proof.
  intros Hi Hl Hp Hd. pose proof (inv_names _ _ Hi _ _ Hp) as Hever.
  cbn [advance]. rewrite decide_False by (intros Hd'; by apply (dirs_differ _ _ _ Hd) in Hd').
  assert (forall m k st, ls !! m = Some k -> staged k = Some st -> st_ino st <> ino) as Hne.
  { intros m k st Hk Hst <-. destruct (inv_staged _ _ Hi m k st Hk Hst) as [(Hd' & _ & Hq & _) _].
    apply Hq in Hever as ->. by apply (dirs_differ _ _ _ Hd) in Hd'. }
  apply (inv_alter s ls n l); [done|done| | | |].
  - intros d Hin. pose proof (inv_leases _ _ Hi _ _ _ Hever Hd Hin) as Hd'. by apply (dirs_differ _ _ _ (object_in_dir d)) in Hd'.
  - intros m k st Hk Hst _. by apply (Hne m k st).
  - cbn [leased]. intros g [->|Hg]%elem_of_cons; [by exists p|by apply (inv_leased _ _ Hi n l)].
  - cbn [staged]. intros st Hst. split; [|by exists st]. destruct (inv_staged _ _ Hi n l st Hl Hst) as [_ (i & Hino & Hc)].
    exists i. rewrite lookup_alter_ne; [done|]. apply not_eq_sym. by apply (Hne n l st).
Qed.

Lemma inv_sync s ls n l h tick :
  Inv s ls -> ls !! n = Some l ->
  Inv (exec tick (SyncAll h) s).1 (<[n := advance (SyncAll h) l (Ok tt)]> ls).
Proof.
  intros Hi Hl. cbn [exec fst]. assert (keeps_bytes (fun i => mkInode (i_bytes i) true (i_mode i) (i_modified i))) as Hk by done.
  pose proof (inv_touch s ls _ h Hi Hk) as Ht. apply (inv_local _ _ n l); [done|done| |].
  - cbn. destruct (staged l); [|done]. by case_decide.
  - intros st'. cbn [advance]. destruct (staged l) as [st|] eqn:Est; [|congruence].
    destruct (inv_staged _ _ Ht n l st Hl Est) as [_ (i & Hino & Hb & Hsy)]. cbn [with_inodes inodes] in *.
    destruct (decide (st_ino st = h)) as [<-|Hne].
    + cbn [staged]. intros [= <-]. split; [|by exists st]. exists i. cbn [st_ino st_bytes st_synced]. split_and!; [done|done|].
      intros _. rewrite lookup_alter_eq in Hino. by destruct (inodes s !! st_ino st); [injection Hino as <-|].
    + rewrite Est. intros [= <-]. split; [by exists i|by exists st].
Qed.

(** Every call an operation may make keeps the invariant, and what the process knows. *)
Lemma call_keeps s ls n l c e :
  Inv s ls -> ls !! n = Some l -> allowed c l -> fresh_name c s ->
  Inv (react e c s).1 (<[n := advance c l (react e c s).2]> ls).
Proof.
  intros Hi Hl Ha Hf. pose proof (insert_same ls n l Hl) as Hsame.
  assert (forall nodes', (forall p ino, nodes' !! p = Some (File ino) -> nodes s !! p = Some (File ino)) ->
    Inv (with_nodes s nodes') ls) as Hfewer by (intros; by apply inv_fewer_names).
  destruct e as [tick|tick taken]; cbn [react fst snd].
  2: { pose proof (advance_failed c l OtherError) as Hadv. destruct c; cbn [failed]; try (by rewrite Hadv, Hsame).
       - rewrite Hadv, Hsame. destruct (make_dirs s _) as [s' m] eqn:Em. by eapply inv_make_dirs.
       - by apply (inv_write s ls n l h b tick (Err OtherError)). }
  destruct c; cbn [exec fst snd]; try (cbn [advance]; by rewrite Hsame).
  - destruct (make_dirs s _) as [s' m] eqn:Em. cbn [fst advance]. rewrite Hsame. by eapply inv_make_dirs.
  - destruct (nodes s !! p) as [[|ino]|]; cbn [fst advance]; rewrite Hsame; try done. by apply inv_touch.
  - cbn [allowed fresh_name] in Ha, Hf. destruct (nodes s !! p) as [[|ino]|] eqn:Ep.
    + cbn [fst snd advance]. by rewrite Hsame.
    + destruct Ha as [[Hd _]|Hd]; [|by apply inv_truncate].
      by apply (inv_names _ _ Hi), (Hf Hd) in Ep.
    + destruct (is_directory s (parent p)); cbn [negb fst snd]; [|cbn [advance]; by rewrite Hsame].
      apply inv_create; [done|done|done|]. destruct Ha as [[Hd Hnone]|Hd]; [left|by right]. split_and!; [done|done|by apply Hf].
  - by apply (inv_write s ls n l h b tick (Ok tt)).
  - by apply (inv_sync s ls n l h tick).
  - destruct (nodes s !! p) as [[|ino]|]; cbn [fst snd advance]; rewrite Hsame; try done. apply Hfewer.
    intros q ino'. rewrite lookup_delete_Some. tauto.
  - destruct (nodes s !! p) as [[|ino]|], (children s p); cbn [fst snd advance]; rewrite Hsame; try done. apply Hfewer.
    intros q' ino'. rewrite lookup_delete_Some. tauto.
  - destruct Ha as (st & b & Hst & <- & Hb & Hsy & ->). destruct (nodes s !! st_path st) as [[|ino]|] eqn:Ep;
      [cbn [fst snd advance]; by rewrite Hsame| |cbn [fst snd advance]; by rewrite Hsame].
    destruct (nodes s !! object_path (sha256 b)) as [[|ino']|]; [cbn [fst snd advance]; by rewrite Hsame|..].
    all: destruct (is_directory s (parent (object_path (sha256 b)))); cbn [negb fst snd advance]; [|by rewrite Hsame].
    all: by eapply inv_publish.
  - destruct (nodes s !! p) as [[|ino]|]; [| |]; cbn [fst advance]; try by rewrite Hsame. destruct (inodes s !! ino); cbn [fst snd advance]; by rewrite Hsame.
  - destruct (nodes s !! p) as [[|ino]|]; cbn [fst snd advance]; by rewrite Hsame.
  - destruct (inodes s !! h); cbn [fst snd advance]; by rewrite Hsame.
Qed.

Lemma inv_crashed s ls t : Inv s ls -> crashed s t -> Inv t [].
Proof.
  intros Hi (Hnames & Hbytes & Hever). constructor; try (by intros n; rewrite lookup_nil).
  - intros p ino. by rewrite Hever.
  - intros p ino Hp. apply Hever, Hnames, (inv_inodes _ _ Hi) in Hp as [i Hp]. apply Hbytes in Hp as (j & -> & _). done.
  - intros d ino Hd Hp. apply Hever, Hnames, (inv_objects _ _ Hi) in Hp as (i & Hino & Hsy & Hsha); [|done].
    apply Hbytes in Hino as (j & Hj & Hsync). destruct (Hsync Hsy) as [Hb Hsj]. exists j. by rewrite Hb.
  - intros p q ino Hp Hd Hq. apply Hever, Hnames in Hp, Hq. by apply (inv_leases _ _ Hi p q ino).
Qed.

Lemma inv_start s ls : Inv s ls -> Inv s (ls ++ [idle]).
Proof.
  intros Hi. pose proof Hi as [Hn Hin Ho Hle Hs Ha Hld].
  assert (forall m k, (ls ++ [idle]) !! m = Some k -> ls !! m = Some k \/ k = idle) as Hback.
  { intros m k. rewrite lookup_app_Some. intros [?|[_ Hk]]; [by left|]. right.
    destruct (m - length ls)%nat; [|done]. by injection Hk. }
  constructor; [done|done|done|done| | |].
  - intros m k st Hk Hst. apply Hback in Hk as [Hk| ->]; [by apply (Hs m k)|done].
  - intros m m' k k' st st' Hk Hk' Hst Hst'. apply Hback in Hk as [Hk| ->], Hk' as [Hk'| ->]; try done. by apply (Ha m m' k k').
  - intros m k h Hk Hh. apply Hback in Hk as [Hk| ->]; [by apply (Hld m k)|by apply elem_of_nil in Hh].
Qed.

(** A machine on which only store operations run. *)
Definition sound (s : System) : Prop :=
  exists ls, Inv (disk s) ls /\ Forall2 (fun p l => wp by_rules p l (fun _ _ => True)) (processes s) ls.

Lemma sound_step quota s t : sound s -> sys_step quota s t -> sound t.
Proof.
  intros Hs Hstep. revert Hs. destruct Hstep as [s' p Hp|s' n c k e Hn Hf|s' n|s' d Hd];
    intros (ls & Hi & Hall); unfold sound; cbn [disk processes].
  - exists (ls ++ [idle]). split; [by apply inv_start|]. apply Forall2_app; [done|]. constructor; [|done].
    by eapply store_program_rules.
  - destruct (Forall2_lookup_l _ _ _ _ _ Hall Hn) as (l & Hl & [Ha Hk]). eexists. split; [by apply call_keeps|].
    apply Forall2_insert; [done|]. apply Hk.
  - destruct (processes s' !! n) as [p|] eqn:Hn.
    + destruct (Forall2_lookup_l _ _ _ _ _ Hall Hn) as (l & Hl & _). exists (<[n := l]> ls).
      split; [by rewrite insert_same|]. by apply Forall2_insert.
    + exists ls. rewrite list_insert_ge; [done|]. by apply lookup_ge_None.
  - exists []. split; [by eapply inv_crashed|constructor].
Qed.

(** C24. Content addressing: in every state any number of imports, lease changes, seals,
    reads and collections can bring the store to, interleaved call by call, with calls that
    fail, processes that die and machines that crash, as long as no name of a staged file is
    used twice, the file at a digest's object path is synced and its bytes hash to that
    digest. *)
Theorem published_objects_hash quota s d ino :
  rtc (sys_step quota) empty_store s -> digest_ok d -> nodes (disk s) !! object_path d = Some (File ino) ->
  exists i, inodes (disk s) !! ino = Some i /\ i_synced i = true /\ sha256 (i_bytes i) = d.
Proof.
  intros Hreach Hd Hp. assert (sound s) as (ls & Hi & _).
  { apply (rtc_ind_r sound) in Hreach; [done| |].
    - exists []. split; [|constructor]. constructor; cbn; try (intros; by rewrite ?lookup_empty in *); try (by intros ? ? ?%elem_of_nil);
        try (by intros ? ? ? ?%elem_of_nil).
    - intros t u _ Hstep Hs. by eapply sound_step. }
  by apply (inv_objects _ _ Hi), (inv_names _ _ Hi).
Qed.

(** ** A history *)

Definition fresh_nameb (c : call) (s : Disk) : bool :=
  match c with
  | CreateFile p => negb (bool_decide (in_dir STAGING_DIR p)) || forallb (fun e => negb (bool_decide (e.1 = p))) (ever s)
  | _ => true
  end.

Fixpoint fresh_run {A} (events : list Event) (p : prog A) (s : Disk) : bool :=
  match p with
  | Done _ => true
  | Call c k =>
      let e := default (Works 0) (head events) in
      fresh_nameb c s && fresh_run (tl events) (k (react e c s).2) (react e c s).1
  end.

Lemma fresh_nameb_ok c s : fresh_nameb c s = true -> fresh_name c s.
Proof.
  destruct c; try done. cbn [fresh_nameb fresh_name]. intros Hf Hd ino Hin. rewrite bool_decide_eq_true_2 in Hf by done.
  cbn [negb orb] in Hf. rewrite forallb_forall in Hf. specialize (Hf (p, ino)). rewrite <- list_elem_of_In in Hf. specialize (Hf Hin).
  by rewrite bool_decide_eq_true_2 in Hf.
Qed.

(** A process that runs alone to its end is a history of the machine. *)
Lemma run_reaches quota (p : prog unit) events s n procs :
  procs !! n = Some p -> fresh_run events p s = true ->
  exists procs', rtc (sys_step quota) (mkSystem s procs) (mkSystem (run events p s).1 procs').
Proof.
  revert events s procs. induction p as [r|c k IH]; intros events s procs Hn Hf; [by exists procs|].
  cbn [fresh_run run] in *. set (e := default (Works 0) (head events)) in *.
  apply andb_true_iff in Hf as [Hc Hf]. destruct (react e c s) as [s1 r] eqn:Er. cbn [fst snd] in Hf.
  destruct (IH r (tl events) s1 (<[n := k r]> procs)) as [procs' Hrtc]; [|done|].
  { apply list_lookup_insert_eq. by eapply lookup_lt_Some. }
  exists procs'. eapply rtc_l; [|exact Hrtc]. pose proof (sys_call quota (mkSystem s procs) n c k e Hn (fresh_nameb_ok _ _ Hc)) as Hstep.
  cbn [disk processes] in Hstep. by rewrite Er in Hstep.
Qed.

Lemma program_reaches quota p events s procs :
  store_program quota p -> fresh_run events p s = true ->
  exists procs', rtc (sys_step quota) (mkSystem s procs) (mkSystem (run events p s).1 procs').
Proof.
  intros Hp Hf. destruct (run_reaches quota p events s (length procs) (procs ++ [p])) as [procs' Hrtc]; [|done|].
  { by rewrite lookup_app_r, Nat.sub_diag by lia. }
  exists procs'. eapply rtc_l; [|exact Hrtc]. by apply (sys_start quota (mkSystem s procs)).
Qed.

Definition roomy : list Event := repeat (Works (2 ^ 60)) 20.
Definition first_import : prog unit :=
  forget (import dayu200_default 7 ((bytes_of_string "hello", None) : sequence unit) 5 None).
Definition opened_disk : Disk := (run [] (forget open_with_probe) (disk empty_store)).1.
Definition imported_disk : Disk := (run roomy first_import opened_disk).1.

Lemma published_objects_hash_witness :
  exists i, inodes imported_disk !! 0%nat = Some i /\ i_synced i = true /\
    sha256 (i_bytes i) = sha256 (bytes_of_string "hello").
Proof.
  destruct (program_reaches dayu200_default (forget open_with_probe) [] (disk empty_store) []) as [procs1 H1];
    [constructor|vm_compute; reflexivity|].
  destruct (program_reaches dayu200_default first_import roomy opened_disk procs1) as [procs2 H2];
    [apply run_import|vm_compute; reflexivity|].
  refine (published_objects_hash dayu200_default (mkSystem imported_disk procs2) (sha256 (bytes_of_string "hello")) 0 _ _ _).
  - etransitivity; [exact H1|exact H2].
  - apply sha256_ok.
  - vm_compute. reflexivity.
Defined.
