(* ===== verification/CasImport.v ===== *)
(** * What one import does (crates/arkforge-artifact/src/cas.rs)

    An import on its own, over any source and with any calls failing: what it publishes,
    what each of its errors means, and that it does not fail when the machine does not. *)

From stdpp Require Import gmap pretty.
From S2P Require Import Prelude Text Cbor Sha256 Digest Bits Source Cas CasLogic CasSound.

(** ** The names of objects *)

Definition object_node (s : Disk) (d : Sha256Digest) : option Node := nodes s !! object_path d.

Definition objects_kept (s s' : Disk) : Prop := forall d, object_node s' d = object_node s d.

(** Calls that leave them alone. *)
Definition spares_objects (c : call) : Prop :=
  match c with
  | CreateFile p | RemoveFile p | RemoveDir p => ~ in_dir OBJECTS_DIR p
  | CreateDirAll p => (length p <= 2)%nat
  | Rename _ _ => False
  | _ => True
  end.

Lemma object_path_other p d : ~ in_dir OBJECTS_DIR p -> object_path d <> p.
Proof. intros Hp <-. by apply Hp. Qed.

Lemma make_dirs_spares s ps : Forall (fun p => length p <= 2)%nat ps -> objects_kept s (make_dirs s ps).1.
Proof.
  intros Hall. revert s. induction Hall as [|p ps Hp _ IH]; intros s d; cbn [make_dirs]; [done|].
  case_match eqn:Ep; [case_match; [apply IH|done]|]. rewrite IH. unfold object_node. cbn [with_nodes nodes].
  apply lookup_insert_ne. intros ->. cbn in Hp. lia.
Qed.

Lemma prefixes_short p n : (length p <= n)%nat -> Forall (fun q => length q <= n)%nat (prefixes p).
Proof.
  intros Hp. apply Forall_forall. intros q Hq. unfold prefixes in Hq. apply list_elem_of_fmap in Hq as (k & -> & _).
  rewrite length_take. lia.
Qed.

Lemma create_spares tick p s : ~ in_dir OBJECTS_DIR p -> objects_kept s (exec tick (CreateFile p) s).1.
Proof.
  intros Hp d. cbn [exec]. unfold object_node. destruct (nodes s !! p) as [[|ino]|]; [done|done|].
  destruct (negb _); [done|]. cbn. apply lookup_insert_ne. apply not_eq_sym. by apply object_path_other.
Qed.

Lemma remove_spares tick p s : ~ in_dir OBJECTS_DIR p -> objects_kept s (exec tick (RemoveFile p) s).1.
Proof.
  intros Hp d. cbn [exec]. unfold object_node. destruct (nodes s !! p) as [[|ino]|]; [done| |done].
  cbn. apply lookup_delete_ne. apply not_eq_sym. by apply object_path_other.
Qed.

Lemma remove_dir_spares tick p s : ~ in_dir OBJECTS_DIR p -> objects_kept s (exec tick (RemoveDir p) s).1.
Proof.
  intros Hp d. cbn [exec]. unfold object_node. destruct (nodes s !! p) as [[|ino]|], (children s p); try done.
  cbn. apply lookup_delete_ne. apply not_eq_sym. by apply object_path_other.
Qed.

Lemma objects_spared e c s : spares_objects c -> objects_kept s (react e c s).1.
Proof.
  intros Hc. destruct e as [tick|tick taken]; cbn [react fst].
  - destruct c; try (by intros d; cbn [exec]; repeat case_match).
    + cbn [exec]. pose proof (make_dirs_spares s (prefixes p) (prefixes_short p 2 Hc)) as Hm. by destruct (make_dirs _ _).
    + by apply create_spares.
    + by apply remove_spares.
    + by apply remove_dir_spares.
  - destruct c; try done. cbn [failed]. apply make_dirs_spares. cbn in Hc. apply Forall_take. by apply prefixes_short.
Qed.

Lemma spared_wp {A} faults (p : prog A) s s0 :
  every spares_objects p -> objects_kept s0 s -> wp (on_disk faults) p s (fun _ s' => objects_kept s0 s').
Proof.
  intros Hp. apply (every_wp spares_objects (on_disk faults) (objects_kept s0)); [|done].
  intros c s' Hc Hs e _ d. by rewrite objects_spared.
Qed.

(** Programs whose every error is an I/O error. *)
Fixpoint io_only {A} (p : prog A) : Prop :=
  match p with
  | Done (Err (CasIo _)) | Done (Ok _) => True
  | Done (Err _) => False
  | Call c k => forall r, io_only (k r)
  end.

Lemma io_only_bind {A B} (p : prog A) (k : A -> prog B) : io_only p -> (forall a, io_only (k a)) -> io_only (bind p k).
Proof. intros Hp Hk. induction p as [[a|e]|c q IH]; [apply Hk|done|]. intros r. by apply IH. Qed.

Lemma io_only_os c : io_only (os c).
Proof. by intros []. Qed.

Lemma io_only_raw c : io_only (raw c).
Proof. done. Qed.

Lemma io_only_for_each {A S} (l : list A) (f : A -> S -> prog S) s :
  (forall x s, io_only (f x s)) -> io_only (for_each l f s).
Proof. intros Hf. revert s. induction l as [|x l IH]; intros s; [done|]. by apply io_only_bind. Qed.

Ltac io_only :=
  repeat lazymatch goal with
  | |- forall _, _ => intros ?
  | |- io_only (bind _ _) => apply io_only_bind
  | |- io_only (os _) => apply io_only_os
  | |- io_only (raw _) => apply io_only_raw
  | |- io_only (ret _) => exact I
  | |- io_only (for_each _ _ _) => apply io_only_for_each
  | |- io_only (if ?b then _ else _) => destruct b
  end.

Lemma preflight_io_only quota n : io_only (preflight quota n).
Proof. unfold preflight, total_bytes, list_objects, exists_. io_only. Qed.

Lemma create_private_dir_io_only p : io_only (create_private_dir p).
Proof. unfold create_private_dir, exists_. io_only. Qed.

Lemma create_private_file_io_only p : io_only (create_private_file p).
Proof. unfold create_private_file. io_only. Qed.

(** A step of a program by calls that keep an assertion. *)
Lemma kept_bind {A B} faults (C : call -> Prop) (I : Disk -> Prop) (p : prog A) (k : A -> prog B) s Q :
  every C p -> io_only p -> (forall e c s, C c -> I s -> I (react e c s).1) -> I s ->
  (forall a s', I s' -> wp (on_disk faults) (k a) s' Q) ->
  (forall e s', I s' -> Q (Err (CasIo e)) s') ->
  wp (on_disk faults) (bind p k) s Q.
Proof.
  intros Hp Hio HC Hs Hk He. revert s Hs. induction p as [[a|[]]|c q IH]; intros s Hs; try done.
  - by apply Hk.
  - by apply He.
  - destruct Hp as [Hc Hq]. intros ev _. apply IH; [done|done|]. by apply HC.
Qed.

(** A step of a program that spares the objects. *)
Lemma spared_bind {A B} faults (p : prog A) (k : A -> prog B) s s0 Q :
  every spares_objects p -> io_only p -> objects_kept s0 s ->
  (forall a s', objects_kept s0 s' -> wp (on_disk faults) (k a) s' Q) ->
  (forall e s', objects_kept s0 s' -> Q (Err (CasIo e)) s') ->
  wp (on_disk faults) (bind p k) s Q.
Proof.
  intros Hp Hio. apply (kept_bind faults spares_objects (objects_kept s0)); [done|done|].
  intros e c s' Hc Hs d. by rewrite objects_spared.
Qed.

(** A question about a name is answered rightly, or denied. *)
Lemma exists_bind {B} faults p (k : bool -> prog B) s Q :
  (is_Some (nodes s !! p) -> wp (on_disk faults) (k true) s Q) ->
  (faults = true \/ nodes s !! p = None -> wp (on_disk faults) (k false) s Q) ->
  wp (on_disk faults) (bind (exists_ p) k) s Q.
Proof.
  intros Hyes Hno. apply wp_bind; [apply _|]. apply wp_bind; [apply _|]. apply wp_raw.
  intros [tick|tick taken] He; cbn [react exec fst snd failed ret wp].
  - case_bool_decide as Hp; cbn [is_ok]; [by apply Hyes|]. apply Hno. right. by apply eq_None_not_Some.
  - apply Hno. left. destruct faults; [done|by destruct He].
Qed.

Lemma kept_by s0 c : spares_objects c -> forall e s, objects_kept s0 s -> objects_kept s0 (react e c s).1.
Proof. intros Hc e s Hs d. by rewrite objects_spared. Qed.

(** ** The staged file *)

(** Every name leads to a file. *)
Definition linked (s : Disk) : Prop := forall p ino, nodes s !! p = Some (File ino) -> is_Some (inodes s !! ino).

(** The file under a name, its bytes, and that they are synced if they should be. *)
Definition stands (p : path) (h : nat) (b : bytes) (synced : bool) (s : Disk) : Prop :=
  nodes s !! p = Some (File h) /\
  exists i, inodes s !! h = Some i /\ i_bytes i = b /\ (synced = true -> i_synced i = true).

(** Calls that leave it alone. *)
Definition spares_files (c : call) : Prop :=
  match c with CreateDirAll p => (length p <= 2)%nat | SetPermissions _ _ => True | _ => reads c end.

Lemma spares_files_objects c : spares_files c -> spares_objects c.
Proof. by destruct c. Qed.

Lemma make_dirs_keeps s ps p ino :
  nodes s !! p = Some (File ino) -> nodes (make_dirs s ps).1 !! p = Some (File ino) /\ inodes (make_dirs s ps).1 = inodes s.
Proof.
  revert s. induction ps as [|q ps IH]; intros s Hp; cbn [make_dirs]; [done|].
  destruct (nodes s !! q) as [[]|] eqn:Eq; [by apply IH|done|].
  destruct (IH (with_nodes s (<[q := Dir]> (nodes s)))) as [H1 H2]; [|by split].
  cbn [with_nodes nodes]. rewrite lookup_insert_ne; [done|congruence].
Qed.

Lemma stands_spared p h b y e c s : spares_files c -> stands p h b y s -> stands p h b y (react e c s).1.
Proof.
  intros Hc Hs. assert (reads c \/ ~ reads c) as [Hr|Hr] by (destruct c; cbn; auto); [by rewrite reads_nothing|]. destruct Hs as (Hp & i & Hi & Hb & Hy).
  destruct c; try by destruct Hr.
  - assert (forall ps, stands p h b y (make_dirs s ps).1) as Hm.
    { intros ps. destruct (make_dirs_keeps s ps p h Hp) as [H1 H2]. split; [done|]. exists i. by rewrite H2. }
    destruct e as [tick|tick taken]; cbn [react exec failed fst]; [|apply Hm].
    specialize (Hm (prefixes p0)). by destruct (make_dirs s (prefixes p0)).
  - destruct e as [tick|tick taken]; cbn [react exec failed fst]; [|split; [done|by exists i]].
    destruct (nodes s !! p0) as [[|ino]|]; [by split; [|exists i]| |by split; [|exists i]].
    split; [done|]. cbn [fst with_inodes inodes]. rewrite (lookup_alter_Some _ _ _ _ _ Hi). eexists. split; [done|]. by case_decide.
Qed.

(** It is created empty. *)
Lemma create_stands tick p h s :
  linked s -> (exec tick (CreateFile p) s).2 = Ok h -> stands p h [] false (exec tick (CreateFile p) s).1.
Proof.
  intros Hl. cbn [exec]. destruct (nodes s !! p) as [[|ino]|] eqn:Ep; [done| |].
  - destruct (Hl _ _ Ep) as [i Hi]. intros [= <-]. split; [done|]. cbn [fst with_inodes inodes].
    rewrite (lookup_alter_Some _ _ _ _ _ Hi), decide_True by done. by eexists.
  - destruct (negb _); [done|]. intros [= <-]. split; [by cbn; rewrite lookup_insert_eq|]. cbn. rewrite lookup_insert_eq. by eexists.
Qed.

Lemma write_stands tick p h b c s : stands p h b false s -> stands p h (b ++ c) false (exec tick (WriteAll h c) s).1.
Proof.
  intros (Hp & i & Hi & Hb & _). split; [done|]. cbn [exec fst with_inodes inodes].
  rewrite (lookup_alter_Some _ _ _ _ _ Hi), decide_True by done. eexists. split; [done|]. cbn. by rewrite Hb.
Qed.

Lemma sync_stands tick p h b s : stands p h b false s -> stands p h b true (exec tick (SyncAll h) s).1.
Proof.
  intros (Hp & i & Hi & Hb & _). split; [done|]. cbn [exec fst with_inodes inodes].
  rewrite (lookup_alter_Some _ _ _ _ _ Hi), decide_True by done. by eexists.
Qed.

(** ** The copy *)

Section Copying.
Context {R E : Type} `{SourceLaws R E} (quota : CasQuota) (Hquota : u64 (max_artifact_bytes quota)).
Context (source : R) (data : bytes) (err : option E) (Hsource : src_delivers source (data, err)).
Context (faults : bool).

(** [K b]: the bytes [b] are written; [F]: a call may have failed. *)
Context (staged : nat) (K : bytes -> Disk -> Prop) (F : Disk -> Prop).
Context (HKF : forall b s, K b s -> F s).
Context (HK : forall tick b c s, K b s -> K (b ++ c) (exec tick (WriteAll staged c) s).1).
Context (HF : forall e b c s, K b s -> F (react e (WriteAll staged c) s).1).

Definition copying (n : Z) (st : R * Sha256 * Z) (s : Disk) : Prop :=
  let '(src, hasher, written) := st in
  n <= written <= max_artifact_bytes quota /\
  exists ds rest, K (concat ds) s /\ hasher = foldl update new ds /\ written = zlen (concat ds) /\ data = concat ds ++ rest /\
    src_delivers src (rest, err).

(** What the end of a copy says; a call that failed may hide behind an I/O error. *)
Definition copied_all (r : result CasError (Sha256 * Z)) (s : Disk) : Prop :=
  match r with
  | Ok (hasher, written) =>
      K data s /\ err = None /\ finalize hasher = sha256 data /\ written = zlen data /\ zlen data <= max_artifact_bytes quota
  | Err (ArtifactTooLarge size limit) =>
      F s /\ limit = max_artifact_bytes quota /\ max_artifact_bytes quota < size <= zlen data
  | Err (CasIo _) => F s /\ (faults = true \/ is_Some err)
  | Err _ => False
  end.

Lemma BUFFER_pos : (0 < BUFFER)%nat.
Proof. unfold BUFFER. lia. Qed.

Lemma copy_round_exact n st s :
  copying n st s ->
  wp (on_disk faults) (copy_round quota staged st) s (fun r s => match r with
    | Ok (inl st) => copying (n + 1) st s
    | Ok (inr hw) => copied_all (Ok hw) s
    | Err e => copied_all (Err e) s end).
Proof using All.
  destruct st as [[src hasher] written]. intros (Hn & ds & rest & Hs & -> & Hw & Hd & Hsrc). unfold copy_round.
  pose proof (src_read_ok BUFFER src rest err Hsrc BUFFER_pos) as Hread.
  destruct (src_read BUFFER src) as [[[|b chunk] src']|e].
  - destruct Hread as [-> ->]. rewrite app_nil_r in Hd. cbn [wp ret]. unfold copied_all.
    rewrite finalize_concat, <- Hd. rewrite <- Hd in Hw, Hs. split_and!; [done|done|done|done|lia].
  - destruct Hread as (_ & rest' & -> & Hsrc'). set (c := b :: chunk) in *.
    assert (zlen data = written + zlen c + zlen rest') as Hlen by (rewrite Hd, !zlen_app; lia).
    assert (0 < zlen c) as Hc by (unfold c; rewrite zlen_cons; pose proof (zlen_nonneg chunk); lia).
    pose proof (zlen_nonneg rest') as Hr. destruct (Z.ltb_spec (max_artifact_bytes quota) (written + zlen c)).
    { split; [by eapply HKF|]. lia. }
    apply wp_bind; [apply _|]. apply wp_os. intros e Hworks. pose proof (HF e _ c s Hs) as Hfail.
    destruct e as [tick|tick taken]; cbn [react exec snd map_err]; cbn [react] in Hfail.
    + split; [lia|]. exists (ds ++ [c]), rest'.
      rewrite foldl_app, concat_app. cbn [foldl concat]. rewrite app_nil_r, <- app_assoc. split_and!; [by apply (HK tick)|done| |done|done].
      by rewrite zlen_app, Hw.
    + split; [done|]. left. destruct faults; [done|by destruct Hworks].
  - destruct Hread as [Hread _]. split; [by eapply HKF|]. right. by rewrite Hread.
Qed.

Lemma copy_exact s : K [] s -> wp (on_disk faults) (copy quota staged source) s copied_all.
Proof using All.
  intros Hs. unfold copy. apply wp_bind; [apply _|].
  eapply wp_mono; [apply _| |].
  - apply (wp_loop (on_disk faults) 64 (copy_round quota staged) copying 0)
      with (Q := fun r s => match r with Ok (inl _) => False | Ok (inr hw) => copied_all (Ok hw) s | Err e => copied_all (Err e) s end).
    + split; [unfold u64 in Hquota; lia|]. by exists [], data.
    + intros n st s' Hst. eapply wp_mono; [apply _|by apply copy_round_exact|]. by intros [[st'|hw]|e] s''.
  - intros [[[[src hasher] written]|hw]|e] s'; [|done|done]. intros (Hn & _). unfold u64, U64_MAX in Hquota.
    exfalso. change (Z.of_nat 64) with 64 in Hn. lia.
Qed.
End Copying.

(** ** The publication *)

Section Publishing.
Context (data : bytes) (faults : bool).

(** The object's name leads to a synced file of exactly the bytes. *)
Definition holds_bytes (s : Disk) (d : Sha256Digest) (b : bytes) : Prop :=
  exists ino i, object_node s d = Some (File ino) /\ inodes s !! ino = Some i /\ i_bytes i = b /\ i_synced i = true.

(** An import that is not told that the object is there has put it there. *)
Definition published (s0 : Disk) (r : result CasError ImportedObject) (s : Disk) : Prop :=
  match r with
  | Ok im =>
      im_digest im = sha256 data /\ im_size_bytes im = zlen data /\
      (forall d, object_path d <> object_path (sha256 data) -> object_node s d = object_node s0 d) /\
      if deduplicated im then is_Some (object_node s0 (sha256 data)) /\ objects_kept s0 s
      else holds_bytes s (sha256 data) data
  | Err (CasIo _) => objects_kept s0 s
  | Err _ => False
  end.

Lemma rename_publishes tick p d s ino :
  in_dir STAGING_DIR p -> nodes s !! p = Some (File ino) -> object_node s d <> Some Dir -> is_directory s (parent (object_path d)) = true ->
  let s' := (exec tick (Rename p (object_path d)) s).1 in
  (exec tick (Rename p (object_path d)) s).2 = Ok tt /\ object_node s' d = Some (File ino) /\
  forall e, object_path e <> object_path d -> object_node s' e = object_node s e.
Proof.
  intros Hd Hp Hnode Hdir. cbn zeta. cbn [exec]. rewrite Hp. unfold object_node in *.
  destruct (nodes s !! object_path d) as [[|ino']|]; [done|..]; rewrite Hdir; cbn [negb fst snd bind_name with_nodes nodes].
  all: split; [done|]; split; [by rewrite lookup_insert_eq|]; intros e He; rewrite lookup_insert_ne by done;
    apply lookup_delete_ne; intros ->; by apply (dirs_differ _ _ _ (object_in_dir e)) in Hd.
Qed.

Lemma rename_cases tick p h b d s :
  in_dir STAGING_DIR p -> stands p h b true s ->
  match (exec tick (Rename p (object_path d)) s).2 with
  | Ok _ => holds_bytes (exec tick (Rename p (object_path d)) s).1 d b /\
      forall e, object_path e <> object_path d -> object_node (exec tick (Rename p (object_path d)) s).1 e = object_node s e
  | Err _ => (exec tick (Rename p (object_path d)) s).1 = s
  end.
Proof.
  intros Hd (Ep & i & Hi & Hb & Hy). assert (object_node s d = Some Dir \/ object_node s d <> Some Dir) as [Hn|Hn]
    by (destruct (object_node s d) as [[]|]; auto).
  { cbn [exec]. rewrite Ep. unfold object_node in Hn. by rewrite Hn. }
  destruct (is_directory s (parent (object_path d))) eqn:Edir.
  - destruct (rename_publishes tick p d s h Hd Ep Hn Edir) as (-> & H1 & H2). split; [|done]. exists h, i. split; [done|].
    split; [|by auto]. cbn [exec]. rewrite Ep. unfold object_node in Hn.
    destruct (nodes s !! object_path d) as [[]|]; [done|..]; by rewrite Edir.
  - cbn [exec]. rewrite Ep, Edir. unfold object_node in Hn. by destruct (nodes s !! object_path d) as [[]|].
Qed.

Lemma publish_exact s0 s p h :
  in_dir STAGING_DIR p -> objects_kept s0 s -> stands p h data true s ->
  wp (on_disk faults) (publish p (sha256 data) (zlen data)) s (published s0).
Proof.
  intros Hd Hs Hst. assert (~ in_dir OBJECTS_DIR p) as Hno by (intros Ho; by apply (dirs_differ _ _ _ Hd) in Ho).
  assert (forall s', objects_kept s0 s' -> is_Some (nodes s' !! object_path (sha256 data)) ->
    wp (on_disk faults) (do _ := raw (RemoveFile p) in ret (mkImported (sha256 data) (zlen data) true)) s' (published s0)) as Hdedup.
  { intros s' Hs' Hsome. apply spared_bind with (s0 := s0); [by apply every_raw|done|done| |done].
    intros _ s'' Hs''. cbn [ret wp published deduplicated im_digest im_size_bytes]. split_and!; [done|done|by intros; apply Hs''| |done].
    unfold objects_kept in Hs'. by rewrite <- Hs'. }
  set (I := fun s => objects_kept s0 s /\ stands p h data true s).
  assert (forall e c s, spares_files c -> I s -> I (react e c s).1) as HI.
  { intros e c s' Hc [H1 H2]. split; [by apply kept_by; [apply spares_files_objects|]|by apply stands_spared]. }
  unfold publish. apply exists_bind; [by apply Hdedup|]. intros _.
  apply (kept_bind faults spares_files I); [|apply create_private_dir_io_only|done|done| |by intros e s' []].
  { unfold create_private_dir. calls; [|cbn; lia]. eapply every_mono; [apply exists_reads|]. by intros []. }
  intros _ s1 Hs1. apply (kept_bind faults spares_files I); [by apply every_os|by apply io_only_os|done|done| |by intros e s' []].
  intros _ s2 [Hs2 Hst2]. apply wp_bind; [apply _|]. apply wp_raw. intros [tick|tick taken] _; cbn [react fst snd failed].
  - pose proof (rename_cases tick p h data (sha256 data) s2 Hd Hst2) as Hr. destruct (exec _ _ _).2 as [[]|e].
    + destruct Hr as [H1 H2]. cbn [ret wp published deduplicated im_digest im_size_bytes]. split_and!; [done|done| |done].
      intros d Hne. by rewrite H2.
    + rewrite Hr. apply exists_bind; [by apply Hdedup|done].
  - apply exists_bind; [by apply Hdedup|done].
Qed.
End Publishing.

(** ** The count of the preflight *)

Lemma working c s P : (forall tick, P (exec tick c s).2 (exec tick c s).1) -> on_disk false c s P.
Proof. intros HP [tick|tick taken] He; [apply HP|by destruct He]. Qed.

(** Calls that tell the same at any time. *)
Definition steady (c : call) : Prop := match c with Exists _ | Stat _ | ReadDir _ => True | _ => False end.

Lemma steady_run {A} (p : prog A) s : every steady p -> wp (on_disk false) p s (fun r _ => r = (run [] p s).2).
Proof.
  induction p as [r|c k IH]; [done|]. intros [Hc Hk]. cbn [wp run head tl default]. apply working. intros tick.
  assert (exec tick c s = exec 0 c s /\ (exec 0 c s).1 = s) as [-> Hs].
  { split; [by destruct c|]. apply (reads_nothing (Works 0)). by destruct c. }
  cbn [react from_option]. destruct (exec 0 c s) as [s' r]. cbn [fst snd] in *. subst s'. by apply IH.
Qed.

Lemma on_disk_and {A} faults (p : prog A) s P Q : wp (on_disk faults) p s P -> wp (on_disk faults) p s Q ->
  wp (on_disk faults) p s (fun r s' => P r s' /\ Q r s').
Proof. revert s. induction p as [r|c k IH]; intros s Hp Hq; [done|]. intros e He. apply IH; [by apply Hp|by apply Hq]. Qed.

Lemma io_only_reads {A} faults (p : prog A) s : io_only p -> every reads p ->
  wp (on_disk faults) p s (fun r s' => s' = s /\ match r with Ok _ => True | Err e => exists f, e = CasIo f end).
Proof.
  revert s. induction p as [[a|[]]|c k IH]; intros s Hio Hp; cbn [wp]; try done; [split; [done|by eexists]|].
  destruct Hp as [Hc Hk]. intros e _. rewrite reads_nothing by done. by apply IH.
Qed.

Lemma total_bytes_steady : every steady total_bytes.
Proof. unfold total_bytes, list_objects, exists_. calls. Qed.

(** What the preflight counts; on a machine that works, what is there. *)
Lemma total_bytes_wp faults s :
  wp (on_disk faults) total_bytes s (fun r s' => s' = s /\ match r with
    | Ok in_use => faults = false -> (run [] total_bytes s).2 = Ok in_use
    | Err e => exists f, e = CasIo f end).
Proof.
  assert (io_only total_bytes) as Hio by (unfold total_bytes, list_objects, exists_; io_only).
  pose proof (io_only_reads faults total_bytes s Hio total_bytes_reads) as Hr.
  destruct faults; [eapply wp_mono; [apply _|exact Hr|]; by intros [a|e] s' [-> H]|].
  eapply wp_mono; [apply _|exact (on_disk_and false total_bytes s _ _ Hr (steady_run _ s total_bytes_steady))|].
  intros [a|e] s' [[-> H] Hrun]; by split.
Qed.

(** ** The import *)

Section Importing.
Context {R E : Type} `{SourceLaws R E} (quota : CasQuota) (Hquota : u64 (max_artifact_bytes quota)).
Context (source : R) (data : bytes) (err : option E) (Hsource : src_delivers source (data, err)).
Context (faults : bool).

(** What an import did and what its errors say; [size] is the announced one. *)
Definition imported (working : Prop) (size : Z) (expected : option Sha256Digest) (s0 : Disk) (r : result CasError ImportedObject) (s : Disk) : Prop :=
  match r with
  | Ok im =>
      published data s0 r s /\ err = None /\ zlen data <= max_artifact_bytes quota /\
      (forall digest, expected = Some digest -> digest = sha256 data)
  | Err e =>
      objects_kept s0 s /\
      match e with
      | DigestMismatch wanted observed => err = None /\ expected = Some wanted /\ observed = sha256 data /\ wanted <> observed
      | ArtifactTooLarge size limit => limit = max_artifact_bytes quota /\ max_artifact_bytes quota < size <= zlen data
      | QuotaExceeded report =>
          exists b, preflight_blocker quota size (store_bytes_in_use report) (volume_available_bytes report) = Some b /\
            report = mkReport size (store_bytes_in_use report) (volume_available_bytes report) false (Some b) /\
            (working -> (run [] total_bytes s0).2 = Ok (store_bytes_in_use report))
      | CasIo _ => True
      | _ => False
      end
  end.

Lemma import_staged_exact p size expected s :
  in_dir STAGING_DIR p -> linked s -> wp (on_disk faults) (import_staged quota p source expected) s (imported (faults = false) size expected s).
Proof using All.
  intros Hd Hlinked. assert (~ in_dir OBJECTS_DIR p) as Hno by (intros Ho; by apply (dirs_differ _ _ _ Hd) in Ho).
  assert (forall e s', objects_kept s s' -> imported (faults = false) size expected s (Err e) s' ->
    wp (on_disk faults) (do _ := raw (RemoveFile p) in fail e) s' (imported (faults = false) size expected s)) as Hfail.
  { intros e s' Hs' [_ He]. apply spared_bind with (s0 := s); [by apply every_raw|done|done|by split|by split]. }
  unfold import_staged, create_private_file. apply wp_bind; [apply _|]. apply wp_bind; [apply _|]. apply wp_os.
  intros e _. pose proof (kept_by s (CreateFile p) Hno e s (fun d => eq_refl)) as Hs1.
  assert (forall h, (react e (CreateFile p) s).2 = Ok h -> stands p h [] false (react e (CreateFile p) s).1) as Hst1.
  { intros h. destruct e as [tick|tick taken]; [by apply create_stands|done]. }
  destruct (react e (CreateFile p) s) as [s1 [h|f]]; cbn [fst snd map_err] in *; [|by split]. specialize (Hst1 h eq_refl).
  set (I b y := fun s' => objects_kept s s' /\ stands p h b y s').
  apply (kept_bind faults spares_files (I [] false)); [by apply every_os|by apply io_only_os| |done| |by intros e' s' []; split].
  { intros e' c s' Hc [H1 H2]. split; [by apply kept_by; [apply spares_files_objects|]|by apply stands_spared]. }
  intros _ s2 Hs2. cbn [ret wp]. apply wp_finally; [apply _|]. apply wp_bind; [apply _|].
  eapply wp_mono; [apply _|apply (copy_exact quota Hquota source data err Hsource faults h (fun b => I b false) (objects_kept s));
    [by intros b s' []| | |done]|].
  { intros tick b c s' [H1 H2]. split; [by apply (kept_by s (WriteAll h c) Logic.I (Works tick))|by apply write_stands]. }
  { intros e' b c s' [H1 _]. by apply (kept_by s (WriteAll h c)). }
  intros [[hasher written]|e'] s3.
  2: { intros Hr. destruct e'; try done; destruct Hr as [Hs3 ?]; (apply Hfail; [done|]); by split. }
  intros ([Hs3 Hst3] & Herr & Hhash & -> & Hmax). apply wp_bind; [apply _|]. apply wp_os.
  intros [tick|tick taken] _; cbn [react fst snd failed map_err].
  2: { apply Hfail; [done|by split]. }
  pose proof (sync_stands tick p h data s3 Hst3) as Hst4.
  assert (objects_kept s (exec tick (SyncAll h) s3).1) as Hs4 by (by apply (kept_by s (SyncAll h) Logic.I (Works tick))).
  change (exec tick (SyncAll h) s3).2 with (Ok tt : result OsError unit). set (s4 := (exec tick (SyncAll h) s3).1) in *.
  cbn [map_err ret wp]. rewrite Hhash.
  assert (wp (on_disk faults) (publish p (sha256 data) (zlen data)) s4 (fun r s' =>
    match r with Ok im => published data s (Ok im) s' | Err (CasIo _) => objects_kept s s' | Err _ => False end)) as Hpub.
  { eapply wp_mono; [apply _|by apply (publish_exact data faults s _ p h Hd Hs4)|]. by intros [im|f]. }
  destruct expected as [wanted|].
  - case_bool_decide as Heq; cbn [negb].
    + eapply wp_mono; [apply _|exact Hpub|]. intros [im|[]]; try done. intros s' Hp. split_and!; [done|done|done|]. by intros ? [= <-].
    + apply Hfail; [done|]. split; [done|]. done.
  - eapply wp_mono; [apply _|exact Hpub|]. intros [im|[]]; try done.
Qed.

(** The preflight looks, and its refusal is the blocker of what it saw. *)
Lemma preflight_exact size s :
  wp (on_disk faults) (preflight quota size) s (fun r s' => s' = s /\ match r with
    | Ok report => exists in_use available, let b := preflight_blocker quota size in_use available in
        report = mkReport size in_use available (bool_decide (b = None)) b /\
        (faults = false -> (run [] total_bytes s).2 = Ok in_use)
    | Err e => exists f, e = CasIo f end).
Proof.
  unfold preflight. apply wp_bind; [apply _|]. eapply wp_mono; [apply _|apply total_bytes_wp|].
  intros [in_use|e] s' [-> Hr]; [|by split]. apply wp_bind; [apply _|]. apply wp_os. intros [tick|tick taken] _; cbn; eauto 10.
Qed.

Lemma import_exact pid size expected s :
  linked s -> wp (on_disk faults) (import quota pid source size expected) s (imported (faults = false) size expected s).
Proof using All.
  intros Hl. unfold import. apply wp_bind; [apply _|]. eapply wp_mono; [apply _|apply preflight_exact|].
  intros [report|e] s1 [-> Hr]; [|destruct Hr as [f ->]; by split]. destruct Hr as (in_use & available & Hr & Hcount). cbn zeta in Hr.
  destruct (accepted report) eqn:Ea; cbn [negb].
  - apply wp_bind; [apply _|]. apply wp_raw. intros e _.
    assert ((react e Now s).1 = s) as -> by by apply reads_nothing. by apply import_staged_exact.
  - split; [done|]. subst report. cbn [accepted] in Ea. case_bool_decide as Hb; [done|].
    destruct (preflight_blocker _ _ _ _) as [b|] eqn:Eb; [|done]. exists b. by split_and!.
Qed.
End Importing.

(** ** A machine that works *)

(** What [open] and the operations leave: directories where they belong, no directory under
    an object's name or a staged one, and every name leading to a file. *)
Definition ready (s : Disk) : Prop :=
  nodes s !! [STAGING_DIR] = Some Dir /\ nodes s !! [OBJECTS_DIR] = Some Dir /\
  (forall d, nodes s !! parent (object_path d) = None \/ nodes s !! parent (object_path d) = Some Dir) /\
  (forall d, object_node s d <> Some Dir) /\ (forall name, nodes s !! ([STAGING_DIR; name] : path) <> Some Dir) /\ linked s.

Lemma os_works {B} c (k : answer c -> prog B) s Q :
  (forall tick, match (exec tick c s).2 with Ok a => wp (on_disk false) (k a) (exec tick c s).1 Q | Err _ => False end) ->
  wp (on_disk false) (bind (os c) k) s Q.
Proof.
  intros Hk. apply wp_bind; [apply _|]. apply wp_os, working. intros tick. specialize (Hk tick).
  by destruct (exec tick c s).2.
Qed.

Lemma set_permissions_works {B} p m (k : unit -> prog B) s Q :
  is_Some (nodes s !! p) -> (forall s', nodes s' = nodes s -> wp (on_disk false) (k tt) s' Q) ->
  wp (on_disk false) (bind (os (SetPermissions p m)) k) s Q.
Proof.
  intros [node Hp] Hk. apply os_works. intros tick. cbn [exec]. rewrite Hp.
  destruct node; cbn [fst snd]; by apply Hk.
Qed.

Lemma create_private_dir_works {B} d (k : unit -> prog B) s Q :
  nodes s !! [OBJECTS_DIR] = Some Dir ->
  nodes s !! parent (object_path d) = None \/ nodes s !! parent (object_path d) = Some Dir ->
  (forall s', nodes s' = <[parent (object_path d) := Dir]> (nodes s) -> wp (on_disk false) (k tt) s' Q) ->
  wp (on_disk false) (bind (create_private_dir (parent (object_path d))) k) s Q.
Proof.
  set (q := parent (object_path d)). intros Hobj Hq Hk. unfold create_private_dir.
  assert (forall s', nodes s' = <[q := Dir]> (nodes s) ->
    wp (on_disk false) (os (SetPermissions q 448)) s' (fun r s' => match r with Ok a => wp (on_disk false) (k a) s' Q | Err e => Q (Err e) s' end)) as Hset.
  { intros s' Hs'. apply wp_os, working. intros tick. cbn [exec]. rewrite Hs', lookup_insert_eq. cbn [fst snd map_err]. by apply Hk. }
  apply wp_bind; [apply _|]. apply exists_bind.
  - intros [node Hnode]. apply wp_bind; [apply _|]. apply Hset.
    destruct Hq as [Hq|Hq]; [by rewrite Hq in Hnode|]. by rewrite insert_id.
  - intros [Hf|Hnone]; [done|]. cbn [negb]. apply os_works. intros tick. cbn [exec].
    assert (prefixes q = [[OBJECTS_DIR]; q]) as -> by done. cbn [make_dirs].
    assert (nodes s !! ([OBJECTS_DIR] : path) = Some Dir) as -> by done. rewrite Hnone. cbn [fst snd]. by apply Hset.
Qed.

(** A result of a machine that works. *)
Definition no_io {A} (r : result CasError A) (s : Disk) : Prop := forall e, r <> Err (CasIo e).

Lemma child_of_some p q (x : string) : child_of p q = Some x -> q = p ++ [x].
Proof.
  unfold child_of. intros H. destruct (bool_decide (length q = S (length p))) eqn:Hl; [|done].
  destruct (bool_decide (take (length p) q = p)) eqn:Ht; [|done]. cbn [andb] in H.
  apply bool_decide_eq_true in Hl, Ht. apply last_Some in H as [l ->].
  rewrite length_app in Hl. cbn [length] in Hl. rewrite take_app_length' in Ht by lia. by subst.
Qed.

Lemma children_there s p (x : string) : x ∈ children s p -> is_Some (nodes s !! (p ++ [x])).
Proof.
  intros ([q node] & Hin & Hc)%list_elem_of_omap. cbn [fst] in Hc. apply child_of_some in Hc as ->.
  apply elem_of_map_to_list in Hin. by eexists.
Qed.

Lemma stat_works s p : linked s -> is_Some (nodes s !! p) -> forall tick, exists meta,
  (exec tick (Stat p) s).2 = Ok meta /\ (is_dir meta = true -> nodes s !! p = Some Dir).
Proof.
  intros Hl [[|ino] Hp] tick; cbn [exec]; rewrite Hp; [by eexists|]. destruct (Hl _ _ Hp) as [i ->]. by eexists.
Qed.

Lemma list_objects_works s : ready s -> wp (on_disk false) list_objects s (fun r s' => s' = s /\ no_io r s').
Proof.
  intros (_ & Hobj & _ & _ & _ & Hlinked). unfold list_objects.
  apply exists_bind; [|by intros _]. intros _. cbn [negb]. apply os_works. intros tick. cbn [exec is_directory].
  assert (nodes s !! ([OBJECTS_DIR] : path) = Some Dir) as -> by done. cbn [fst snd].
  apply wp_bind; [apply _|].
  apply (wp_for_each (on_disk false) _ _ (fun _ s' => s' = s)) with (Q := fun r s' => match r with
    | Ok a => wp (on_disk false) (ret (sort_by digest_leb a)) s' (fun r s' => s' = s /\ no_io r s')
    | Err e => s' = s /\ no_io (Err e : result CasError (list Sha256Digest)) s' end); [done| |by intros l s' ->].
  intros prefix digests s' Hin ->. apply children_there in Hin. apply os_works. intros tick'.
  destruct (stat_works s ([OBJECTS_DIR] ++ [prefix]) Hlinked Hin tick') as (meta & Hmeta & Hdir). cbn [app] in Hmeta, Hdir.
  rewrite Hmeta, (reads_nothing (Works tick') (Stat _) s I : (exec _ _ _).1 = s).
  destruct (is_dir meta); cbn [negb]; [|done]. apply os_works. intros tick''. cbn [exec is_directory fst snd].
  assert (nodes s !! ([OBJECTS_DIR; prefix] : path) = Some Dir) as -> by by apply Hdir. done.
Qed.

Lemma preflight_works quota size s : ready s -> wp (on_disk false) (preflight quota size) s (fun r s' => s' = s /\ no_io r s').
Proof.
  intros Hs. unfold preflight, total_bytes. apply wp_bind; [apply _|]. apply wp_bind; [apply _|].
  eapply wp_mono; [apply _|by apply list_objects_works|]. intros [digests|e] s' [-> Hr].
  2: { split; [done|]. intros f [= ->]. by apply (Hr f). }
  apply (wp_for_each (on_disk false) _ _ (fun _ s' => s' = s)) with (Q := fun r s' => match r with
    | Ok in_use => wp (on_disk false) (do available := os AvailableBytes in
        let blocker := preflight_blocker quota size in_use available in
        ret (mkReport size in_use available (bool_decide (blocker = None)) blocker)) s' (fun r s' => s' = s /\ no_io r s')
    | Err e => s' = s /\ no_io (Err e : result CasError PreflightReport) s' end); [done| |].
  - intros digest total s' _ ->. apply wp_bind; [apply _|]. apply wp_raw, working. intros tick.
    by rewrite (reads_nothing (Works tick) (Stat _) s I : (exec _ _ _).1 = s).
  - intros in_use s' ->. apply os_works. by intros tick.
Qed.

Section Works.
Context {R E : Type} `{SourceLaws R E} (quota : CasQuota) (Hquota : u64 (max_artifact_bytes quota)).
Context (source : R) (data : bytes) (Hsource : src_delivers source (data, None)).

Lemma publish_works s name ino :
  let p := [STAGING_DIR; name] in
  ready s -> nodes s !! (p : path) = Some (File ino) -> wp (on_disk false) (publish p (sha256 data) (zlen data)) s no_io.
Proof.
  intros p (Hst & Hobj & Hpar & Hdir & _) Hp. set (o := object_path (sha256 data)).
  assert (forall s', wp (on_disk false) (do _ := raw (RemoveFile p) in ret (mkImported (sha256 data) (zlen data) true)) s' no_io) as Hdedup.
  { intros s'. apply wp_bind; [apply _|]. apply wp_raw, working. done. }
  unfold publish. apply exists_bind; [done|]. intros _. apply create_private_dir_works; [done|apply Hpar|].
  intros s1 Hs1. assert (nodes s1 !! (p : path) = Some (File ino)) as Hp1 by (rewrite Hs1; by rewrite lookup_insert_ne).
  apply set_permissions_works; [by eexists|]. intros s2 Hs2. apply wp_bind; [apply _|]. apply wp_raw, working. intros tick.
  destruct (rename_publishes tick p (sha256 data) s2 ino) as (-> & _ & _); [done|by rewrite Hs2| | |done].
  - unfold object_node. rewrite Hs2, Hs1, lookup_insert_ne; [apply Hdir|done].
  - unfold is_directory, o. rewrite Hs2, Hs1, lookup_insert_eq. done.
Qed.

Lemma import_staged_works s name expected :
  let p := [STAGING_DIR; name] in
  ready s -> wp (on_disk false) (import_staged quota p source expected) s no_io.
Proof.
  intros p Hready. pose proof Hready as (Hst & _ & _ & _ & Hp & Hlinked). specialize (Hp name).
  set (staged_as h s' := nodes s' = <[(p : path) := File h]> (nodes s) /\ dom (inodes s') = {[h]} ∪ dom (inodes s)).
  assert (forall h s', staged_as h s' -> ready s' /\ nodes s' !! (p : path) = Some (File h)) as Hready'.
  { intros h s' [Hs' Hi]. destruct Hready as (H1 & H2 & H3 & H4 & H5 & H6). unfold ready, object_node, linked. rewrite Hs'.
    split; [|by rewrite lookup_insert_eq]. split_and!; [by rewrite lookup_insert_ne|by rewrite lookup_insert_ne| | | |].
    - intros d; rewrite lookup_insert_ne by done; auto.
    - intros d; rewrite lookup_insert_ne by done; apply H4.
    - intros other. destruct (decide ((p : path) = [STAGING_DIR; other])) as [<-|]; [by rewrite lookup_insert_eq|].
      rewrite lookup_insert_ne by done. apply H5.
    - intros q ino Hq. apply elem_of_dom. rewrite Hi. destruct (decide ((p : path) = q)) as [<-|].
      + rewrite lookup_insert_eq in Hq. injection Hq as <-. set_solver.
      + rewrite lookup_insert_ne in Hq by done. apply H6, elem_of_dom in Hq. set_solver. }
  assert (forall h f g s', staged_as h s' -> staged_as h (with_inodes s' (alter f g (inodes s')))) as Halter.
  { intros h f g s' [Hs' Hi]. split; [done|]. cbn [with_inodes inodes]. by rewrite dom_alter_L. }
  unfold import_staged, create_private_file. apply wp_bind; [apply _|]. apply os_works. intros tick.
  assert (exists h, (exec tick (CreateFile p) s).2 = Ok h /\ staged_as h (exec tick (CreateFile p) s).1) as (h & -> & Hs1).
  { cbn [exec]. destruct (nodes s !! (p : path)) as [[|ino]|] eqn:Ep; [done| |].
    - exists ino. split; [done|]. split; [by cbn; rewrite insert_id|]. cbn. rewrite dom_alter_L.
      apply Hlinked, elem_of_dom in Ep. set_solver.
    - assert (is_directory s (parent p) = true) as -> by (change (is_directory s (parent p)) with (match nodes s !! ([STAGING_DIR] : path) with Some Dir => true | _ => false end); unfold path in *; by rewrite Hst).
      eexists. split; [done|]. split; [done|]. cbn. by rewrite dom_insert_L. }
  destruct (Hready' h _ Hs1) as [_ Hp1]. set (s1 := (exec tick (CreateFile p) s).1) in *. apply os_works. intros tick2. cbn [exec]. rewrite Hp1. cbn [fst snd].
  set (s2 := with_inodes _ _). assert (staged_as h s2) as Hst2 by by apply Halter. cbn [ret wp].
  apply wp_finally; [apply _|]. apply wp_bind; [apply _|].
  eapply wp_mono; [apply _|apply (copy_exact quota Hquota source data None Hsource false h (fun _ => staged_as h) (staged_as h)); try done|].
  { intros tick' b c s'. apply Halter. }
  { intros [tick'|tick' taken] b c s'; apply Halter. }
  assert (forall e s', (forall f, e <> CasIo f) -> wp (on_disk false) (do _ := raw (RemoveFile p) in fail (A:=ImportedObject) e) s' no_io) as Hfail.
  { intros e s' Hne. apply wp_bind; [apply _|]. apply wp_raw, working. intros tick' f [= Hf]. by apply (Hne f). }
  intros [[hasher written]|e] s3.
  2: { intros Hr. destruct e; try done; first [by apply Hfail|by destruct Hr as [_ [|[? ?]]]]. }
  intros (Hs3 & _ & Hhash & -> & _). apply os_works. intros tick3. cbn [exec fst snd]. cbn [ret wp]. rewrite Hhash.
  destruct (Hready' h (with_inodes s3 (alter (fun i => mkInode (i_bytes i) true (i_mode i) (i_modified i)) h (inodes s3)))) as [Hr4 Hp4]; [by apply Halter|].
  destruct expected as [wanted|]; [|by eapply publish_works]. case_bool_decide; cbn [negb]; [by eapply publish_works|by apply Hfail].
Qed.

Lemma import_works pid size expected s : ready s -> wp (on_disk false) (import quota pid source size expected) s no_io.
Proof.
  intros Hs. unfold import. apply wp_bind; [apply _|]. eapply wp_mono; [apply _|by apply preflight_works|].
  intros [report|e] s1 [-> Hr].
  2: { intros f [= ->]. by apply (Hr f). }
  destruct (negb _); [done|]. apply wp_bind; [apply _|]. apply wp_raw, working. intros tick. cbn [exec fst snd].
  by apply import_staged_works.
Qed.
End Works.

Section Results.
Context {R E : Type} `{SourceLaws R E} (quota : CasQuota) (Hquota : u64 (max_artifact_bytes quota)).

(** What a run says, and what more where every call works. *)
Lemma import_runs pid (source : R) size expected events s data err :
  linked s -> src_delivers source (data, err) ->
  let r := (run events (import quota pid source size expected) s).2 in
  imported quota data err (Forall works events) size expected s r (run events (import quota pid source size expected) s).1 /\
  (Forall works events -> ready s -> forall e, r = Err (CasIo e) -> is_Some err).
Proof using Hquota.
  intros Hl Hsource. cbn zeta. split.
  - pose proof (run_wp true _ events s _ ltac:(done) (import_exact quota Hquota source data err Hsource true pid size expected s Hl)) as Ht.
    assert (Forall works events -> imported quota data err (false = false) size expected s
      (run events (import quota pid source size expected) s).2 (run events (import quota pid source size expected) s).1) as Hf.
    { intros Hw. exact (run_wp false _ events s _ (fun _ => Hw) (import_exact quota Hquota source data err Hsource false pid size expected s Hl)). }
    destruct (run events (import quota pid source size expected) s) as [s' [im|e]]; [done|]. cbn [fst snd] in *. destruct Ht as [H1 H2].
    split; [done|]. destruct e; try done. destruct H2 as (b & Hb & Hr & _). exists b. split; [done|]. split; [done|].
    intros Hw. destruct (Hf Hw) as [_ (b' & _ & _ & Hc)]. by apply Hc.
  - intros Hw Hs e He. destruct err as [f|]; [by eexists|]. exfalso.
    by apply (run_wp false _ events s _ (fun _ => Hw) (import_works quota Hquota source data Hsource pid size expected s Hs) e).
Qed.
End Results.

(** C25. Whatever calls fail, an import that returns an object has read its source to the
    end, under the limit and as expected if a digest was, and returns the SHA-256 and length
    of exactly what it read; unless it found the object there, the object's name leads to a
    synced file of exactly those bytes; no other object changed.  An import that returns an
    error changed no object, and its error is true: a digest that differs, a source over the
    limit, or the blocker of the announced size and of the bytes and the space the preflight
    counted; and where every call works the preflight counts what is there, and only the
    source's own failure is an I/O error. *)
Theorem import_is_exact {R E} `{SourceLaws R E} quota pid (source : R) size expected events s data err :
  u64 (max_artifact_bytes quota) -> linked s -> src_delivers source (data, err) ->
  let r := (run events (import quota pid source size expected) s).2 in
  imported quota data err (Forall works events) size expected s r (run events (import quota pid source size expected) s).1 /\
  (Forall works events -> ready s -> forall e, r = Err (CasIo e) -> is_Some err).
Proof. intros Hq. apply (import_runs quota Hq). Qed.


(** ** Instances *)

Definition some_bytes : bytes := bytes_of_string "hello".

Lemma opened_disk_ready : ready opened_disk.
Proof.
  assert (nodes opened_disk = <[([STAGING_DIR] : path) := Dir]> (<[([LEASES_DIR] : path) := Dir]> (<[([OBJECTS_DIR] : path) := Dir]> ∅))) as Hn
    by (vm_compute; reflexivity).
  unfold ready, object_node, linked. rewrite Hn. split; [reflexivity|]. split; [reflexivity|]. split; [|split; [|split]].
  - intros d. left. by rewrite !lookup_insert_ne.
  - intros d. by rewrite !lookup_insert_ne.
  - intros name. by rewrite !lookup_insert_ne.
  - intros p ino. rewrite !lookup_insert_Some, lookup_empty. naive_solver.
Qed.

Lemma opened_disk_linked : linked opened_disk.
Proof. exact (proj2 (proj2 (proj2 (proj2 (proj2 opened_disk_ready))))). Qed.

Lemma default_limit : u64 (max_artifact_bytes dayu200_default).
Proof. unfold u64, U64_MAX. cbn. lia. Qed.

Definition some_source : sequence unit := (some_bytes, None).

Lemma some_source_delivers : src_delivers some_source (some_bytes, None).
Proof. reflexivity. Qed.

(** An import of five bytes on a volume with room, where every call works. *)
Lemma import_is_exact_witness :
  imported dayu200_default some_bytes (None (A:=unit)) (Forall works roomy) 5 (Some (sha256 some_bytes)) opened_disk
    (run roomy (import dayu200_default 7 some_source 5 (Some (sha256 some_bytes))) opened_disk).2
    (run roomy (import dayu200_default 7 some_source 5 (Some (sha256 some_bytes))) opened_disk).1.
Proof.
  exact (proj1 (import_is_exact dayu200_default 7 some_source 5 (Some (sha256 some_bytes)) roomy opened_disk
    some_bytes None default_limit opened_disk_linked some_source_delivers)).
Defined.

(** What it returned. *)
Example the_import_returned :
  (run roomy (import dayu200_default 7 ((some_bytes, None) : sequence unit) 5 (Some (sha256 some_bytes))) opened_disk).2 =
    Ok (mkImported (sha256 some_bytes) 5 false).
Proof. vm_compute. reflexivity. Qed.



(** The ceiling is checked against the size announced: a source that turns out longer fills
    the store past it. *)
Definition tight : CasQuota := mkQuota 4 0 100.

Example ceiling_is_not_kept :
  let '(s, r) := run roomy (import tight 7 ((some_bytes, None) : sequence unit) 0 None) opened_disk in
  (is_ok r, (run [] total_bytes s).2) = (true, Ok 5).
Proof. vm_compute. reflexivity. Qed.
