(* ===== verification/CasLease.v ===== *)
(** * Leases and garbage (crates/arkforge-artifact/src/cas.rs)

    On a machine that works, and with nobody else at the store, a lease protects its object
    from every collection.  A call that fails, a collection that runs at the same time, or a
    crash can each take a leased object away. *)

From stdpp Require Import gmap pretty.
From S2P Require Import Prelude Text Cbor Sha256 Digest Bits Source Cas CasLogic CasSound CasImport.

Definition lease_path (d : Sha256Digest) (holder : string) : path := lease_dir d ++ [holder].

(** [holder] has a lease on [d]. *)
Definition has_lease (s : Disk) (d : Sha256Digest) (holder : string) : Prop :=
  nodes s !! lease_dir d = Some Dir /\ is_Some (nodes s !! lease_path d holder) /\ str_ok holder.

Lemma child_of_app p (x : string) : child_of p (p ++ [x]) = Some x.
Proof.
  unfold child_of. rewrite length_app. cbn [length]. rewrite bool_decide_eq_true_2 by lia.
  rewrite take_app_length, bool_decide_eq_true_2 by done. cbn [andb]. apply last_snoc.
Qed.

Lemma children_elem s p (x : string) : is_Some (nodes s !! (p ++ [x])) -> x ∈ children s p.
Proof.
  intros [node Hx]. unfold children. apply list_elem_of_omap. exists (p ++ [x], node).
  split; [by apply elem_of_map_to_list|]. apply child_of_app.
Qed.

Lemma lease_holders_sees s d holder (Q : result CasError (list string) -> Disk -> Prop) :
  has_lease s d holder -> (forall l, l <> [] -> Q (Ok l) s) -> wp (on_disk false) (lease_holders d) s Q.
Proof.
  intros (Hdir & Hfile & Hok) HQ. unfold lease_holders. apply exists_bind.
  2: { intros [?|Hn]; [done|]. congruence. }
  intros _. cbn [negb]. apply os_works. intros tick. cbn [exec].
  assert (is_directory s (lease_dir d) = true) as -> by (unfold is_directory; by rewrite Hdir). cbn [fst snd ret wp].
  apply HQ. intros Hnil. pose proof (sort_by_perm str_leb (List.filter (fun name => utf8_valid (bytes_of_string name)) (children s (lease_dir d)))) as Hp.
  rewrite Hnil in Hp. apply Permutation_nil in Hp. pose proof (children_elem s (lease_dir d) holder Hfile) as Hin.
  assert (holder ∈ @nil string) as Hin' by (rewrite <- Hp; apply list_elem_of_In, filter_In; split; [by apply list_elem_of_In|done]).
  by apply elem_of_nil in Hin'.
Qed.

(** What a collection keeps of one object and one lease. *)
Definition untouched (d : Sha256Digest) (holder : string) (s s' : Disk) : Prop :=
  object_node s' d = object_node s d /\ nodes s' !! lease_dir d = nodes s !! lease_dir d /\
  nodes s' !! lease_path d holder = nodes s !! lease_path d holder.

Definition spares_lease (d : Sha256Digest) (holder : string) (c : call) : Prop :=
  reads c \/ match c with
  | RemoveFile p | RemoveDir p => p <> object_path d /\ p <> lease_dir d /\ p <> lease_path d holder
  | _ => False
  end.

Lemma lease_spared d holder e c s s0 : spares_lease d holder c -> untouched d holder s0 s -> untouched d holder s0 (react e c s).1.
Proof.
  intros [Hr|Hc] Hs; [by rewrite reads_nothing|].
  assert (forall p, p <> object_path d /\ p <> lease_dir d /\ p <> lease_path d holder ->
    untouched d holder s0 (with_nodes s (delete p (nodes s)))) as Hdel.
  { intros p (H1 & H2 & H3). unfold untouched, object_node. cbn [with_nodes nodes]. by rewrite !lookup_delete_ne. }
  destruct e as [tick|tick taken]; cbn [react fst]; destruct c; try done; cbn [exec].
  - repeat case_match; try done. by apply Hdel.
  - repeat case_match; try done. by apply Hdel.
Qed.

Lemma lease_spared_wp {A} d holder faults (p : prog A) s s0 :
  every (spares_lease d holder) p -> untouched d holder s0 s ->
  wp (on_disk faults) p s (fun _ s' => untouched d holder s0 s').
Proof.
  intros Hp. apply (every_wp (spares_lease d holder) (on_disk faults) (untouched d holder s0)); [|done].
  intros c s' Hc Hs e _. by apply lease_spared.
Qed.

Lemma has_lease_kept s s' d holder : has_lease s d holder -> untouched d holder s s' -> has_lease s' d holder.
Proof. intros (H1 & H2 & H3) (_ & H5 & H6). unfold has_lease. by rewrite H5, H6. Qed.

Lemma reads_spare {A} d holder (p : prog A) : every reads p -> every (spares_lease d holder) p.
Proof. intros Hp. eapply every_mono; [exact Hp|]. intros c Hc. by left. Qed.

Lemma collect_object_keeps d holder s0 s digest report :
  has_lease s0 d holder -> untouched d holder s0 s ->
  wp (on_disk false) (collect_object digest report) s (fun _ s' => untouched d holder s0 s').
Proof.
  intros Hl Hs. destruct (decide (to_hex digest = to_hex d)) as [Heq|Hne].
  - unfold collect_object. assert (lease_holders digest = lease_holders d) as -> by (unfold lease_holders, lease_dir; by rewrite Heq).
    apply wp_bind; [apply _|]. apply (lease_holders_sees s d holder); [by eapply has_lease_kept|].
    intros l Hnil. rewrite bool_decide_eq_false_2 by done. done.
  - apply lease_spared_wp; [|done]. unfold collect_object. calls.
    + apply reads_spare, lease_holders_reads.
    + by left.
    + right. split_and!; [by intros [= _ ?]|done|done].
    + right. split_and!; [done|by intros [= ?]|done].
Qed.

(** C29. A collection that runs alone, with no other call at the store in between, on a machine
    that works takes no object anyone has a lease on, and no lease, whatever else it removes and
    whatever it returns. *)
Theorem collection_keeps_leased events s d holder :
  Forall works events -> has_lease s d holder ->
  untouched d holder s (run events collect_garbage s).1.
Proof.
  intros He Hl. apply (run_wp false _ events s (fun _ s' => untouched d holder s s')); [done|]. unfold collect_garbage.
  assert (untouched d holder s s) as Hrefl by done.
  assert (forall c, reads c -> spares_lease d holder c) as Hr by (by left).
  apply (wp_seq (on_disk false) (fun _ s' => untouched d holder s s')).
  { eapply wp_mono; [apply _|apply lease_spared_wp, Hrefl; apply reads_spare, list_objects_reads|]. by intros [|]. }
  intros digests s1 Hs1. apply (wp_seq (on_disk false) (fun _ s' => untouched d holder s s')).
  { apply (wp_for_each (on_disk false) _ _ (fun _ s' => untouched d holder s s')); [done| |done].
    intros digest report s' _ Hs'. eapply wp_mono; [apply _|by apply (collect_object_keeps d holder s)|]. by intros [|]. }
  intros report s2 Hs2. apply lease_spared_wp; [|done]. unfold collect_staged. calls.
  - apply reads_spare, exists_reads.
  - by left.
  - by left.
  - by left.
  - right. done.
Qed.

(** ** What takes a leased object away *)

Definition no_store : Disk := mkDisk ∅ ∅ [].
Definition opened : Disk := (run [] open_with_probe no_store).1.

Definition greeting : bytes := bytes_of_string "hello".
Definition greeting_digest : Sha256Digest := sha256 greeting.

(** A store with one object and one lease on it. *)
Definition leased_store : Disk :=
  let s := (run [] (import_staged dayu200_default [STAGING_DIR; "import-1-0.part"] ((greeting, None) : sequence unit) None) opened).1 in
  (run [] (acquire_lease greeting_digest "PLAN-001") s).1.

Lemma leased_store_has_lease : has_lease leased_store greeting_digest "PLAN-001".
Proof. split; [vm_compute; reflexivity|]. split; [vm_compute; eexists; reflexivity|reflexivity]. Qed.

Lemma collection_keeps_leased_witness :
  untouched greeting_digest "PLAN-001" leased_store (run [Works 5] collect_garbage leased_store).1.
Proof.
  apply (collection_keeps_leased [Works 5] leased_store greeting_digest "PLAN-001").
  - repeat constructor.
  - exact leased_store_has_lease.
Defined.

(** [Path::exists] denies a directory it cannot look at, and a lease directory that is not
    there is one nobody holds: the leased object is removed. *)
Example failing_call_collects_leased :
  object_node (run [Works 0; Works 0; Works 0; Works 0; Breaks 0 0] collect_garbage leased_store).1 greeting_digest = None.
Proof. vm_compute. reflexivity. Qed.

(** Two processes, by turns: [true] is a call of the first. *)
Fixpoint alternate {A B} (turns : list bool) (p : prog A) (q : prog B) (s : Disk) : Disk * prog A * prog B :=
  match turns with
  | [] => (s, p, q)
  | true :: turns =>
      match p with
      | Call c k => let '(s, r) := exec 0 c s in alternate turns (k r) q s
      | Done _ => alternate turns p q s
      end
  | false :: turns =>
      match q with
      | Call c k => let '(s, r) := exec 0 c s in alternate turns p (k r) s
      | Done _ => alternate turns p q s
      end
  end.

(** Two imports in one process at one time, as when the clock fails, stage under one name:
    [File::create] empties the file the first one has just synced, and the first one
    publishes it, under the digest of bytes that are gone. *)
Example colliding_imports_publish_wrong_bytes :
  let quota := mkQuota 100 0 100 in
  let start source := import quota 7 (source : sequence unit) 0 None in
  let '(s, first, _) :=
    alternate (repeat true 10 ++ repeat false 5 ++ repeat true 6) (start (some_bytes, None)) (start ([1], None)) opened_disk in
  first = Done (Ok (mkImported (sha256 some_bytes) 5 false)) /\
  match object_node s (sha256 some_bytes) with Some (File ino) => i_bytes <$> inodes s !! ino = Some [] | _ => False end.
Proof. vm_compute. split; reflexivity. Qed.

Definition unleased_store : Disk := (run [] (release_lease greeting_digest "PLAN-001") leased_store).1.

(** A lease taken after the collection has looked for holders, and before it removes the
    object, is granted, and the object is gone. *)
Example racing_collection_takes_leased :
  let '(s, lease, _) :=
    alternate (repeat false 7 ++ repeat true 12 ++ repeat false 12)
      (acquire_lease greeting_digest "PLAN-002") collect_garbage unleased_store in
  lease = Done (Ok tt) /\ is_Some (nodes s !! lease_path greeting_digest "PLAN-002") /\ object_node s greeting_digest = None.
Proof. vm_compute. split; [reflexivity|]. split; [eexists; reflexivity|reflexivity]. Qed.

(** The store syncs the bytes of a lease and never its directory: a crash may lose the
    name, and the next collection takes the object. *)
Definition lose_name (s : Disk) (p : path) : Disk :=
  mkDisk (delete p (nodes s)) (inodes s) (file_names (delete p (nodes s))).

Lemma file_names_spec n p ino : (p, ino) ∈ file_names n <-> n !! p = Some (File ino).
Proof.
  unfold file_names. rewrite list_elem_of_omap. split.
  - intros ([q node] & Hq & Hn). apply elem_of_map_to_list in Hq. destruct node; [done|]. by injection Hn as -> ->.
  - intros Hp. exists (p, File ino). by rewrite elem_of_map_to_list.
Qed.

Lemma crash_may_lose s p :
  (forall q ino, nodes s !! q = Some (File ino) -> (q, ino) ∈ ever s) -> crashed s (lose_name s p).
Proof.
  intros Hn. unfold crashed, lose_name. cbn [nodes inodes ever]. split_and!.
  - intros q ino. rewrite lookup_delete_Some. intros [_ Hq]. by apply Hn.
  - intros ino i Hi. by exists i.
  - intros q ino. apply file_names_spec.
Qed.

Example crash_loses_lease :
  crashed leased_store (lose_name leased_store (lease_path greeting_digest "PLAN-001")) /\
  object_node leased_store greeting_digest <> None /\
  object_node (run [] collect_garbage (lose_name leased_store (lease_path greeting_digest "PLAN-001"))).1 greeting_digest = None.
Proof.
  split; [|vm_compute; split; [discriminate|reflexivity]].
  apply crash_may_lose. intros q ino Hq. apply file_names_spec in Hq.
  assert (Forall (fun e => e ∈ ever leased_store) (file_names (nodes leased_store))) as Hall.
  { apply (bool_decide_eq_true_1 _). vm_compute. reflexivity. }
  rewrite Forall_forall in Hall. by apply Hall.
Qed.
