(* ===== verification/Yaml.v ===== *)
(** * The strict YAML reader (crates/arkforge-core/src/yaml.rs)

    The block grammar profiles are written in: lines with their indentation, mappings and
    sequences by recursion on the nesting the reader allows, and scalars.  A parser takes the
    lines still to read and gives back those it left, where the code moves a cursor. *)

From S2P Require Import Prelude Text.

Inductive YamlValue : Type :=
| Scalar (text : string)
| Sequence (items : list YamlValue)
| Mapping (entries : list (string * YamlValue))
| YNull.

Definition as_scalar (v : YamlValue) : option string := match v with Scalar text => Some text | _ => None end.
Definition as_sequence (v : YamlValue) : option (list YamlValue) := match v with Sequence items => Some items | _ => None end.
Definition as_mapping (v : YamlValue) : option (list (string * YamlValue)) :=
  match v with Mapping entries => Some entries | _ => None end.
Definition get (v : YamlValue) (key : string) : option YamlValue :=
  match as_mapping v with
  | Some entries => snd <$> List.find (fun entry => String.eqb entry.1 key) entries
  | None => None
  end.
Definition is_null (v : YamlValue) : bool := match v with YNull => true | _ => false end.

(** The messages, with what they quote. *)
Inductive YamlMessage : Type :=
| TabsNotPermitted
| IndirectionNotPermitted
| ContentAfterBody
| DepthLimit
| IndentationInMapping
| ItemInMapping
| DuplicateKey (key : string)
| IndentationInSequence
| ExpectedKeyValue (content : string)
| FlowMapping
| MultiLineScalar
| FlowNotClosed
| EmptyFlowItem
| NestedFlow.

Record YamlError := mkYamlError { y_line : nat; y_message : YamlMessage }.

Definition error {A} (line : nat) (message : YamlMessage) : result YamlError A := Err (mkYamlError line message).

Record Line := mkLine { l_number : nat; l_indent : nat; l_content : bytes }.

(** ** Lines *)

Definition trim_start (l : bytes) : bytes := concat (drop_while is_whitespace (chars l)).
Definition trim_end (l : bytes) : bytes := concat (rev (drop_while is_whitespace (rev (chars l)))).

(** The state of the scans that skip quoted text. *)
Record Quotes := mkQuotes { in_single : bool; in_double : bool }.

Definition unquoted (q : Quotes) : bool := negb (in_single q) && negb (in_double q).

Definition quote_step (q : Quotes) (byte : Z) : Quotes :=
  if (byte =? 39) && negb (in_double q) then mkQuotes (negb (in_single q)) (in_double q)
  else if (byte =? 34) && negb (in_single q) then mkQuotes (in_single q) (negb (in_double q))
  else q.

Definition outside : Quotes := mkQuotes false false.

(** [previous] is the byte before, [None] at the start. *)
Fixpoint indirection_from (q : Quotes) (escaped : bool) (previous : option Z) (text : bytes) : bool :=
  match text with
  | [] => false
  | byte :: text =>
      if in_double q && escaped then indirection_from q false (Some byte) text
      else if in_double q && (byte =? 92) then indirection_from q true (Some byte) text
      else
        ((byte =? 38) || (byte =? 42) || (byte =? 33)) && unquoted q &&
          match previous with
          | None => true
          | Some p => (p =? 32) || (p =? 91) || (p =? 44) || (p =? 58) || (p =? 45)
          end
        || indirection_from (quote_step q byte) escaped (Some byte) text
  end.

Definition contains_yaml_indirection (text : bytes) : bool := indirection_from outside false None text.

Fixpoint comment_from (q : Quotes) (previous : option Z) (text : bytes) : bytes :=
  match text with
  | [] => []
  | byte :: text =>
      if (byte =? 35) && unquoted q && match previous with None => true | Some p => p =? 32 end then []
      else byte :: comment_from (quote_step q byte) (Some byte) text
  end.

Definition strip_comment (text : bytes) : bytes := comment_from outside None text.

Fixpoint leading_spaces (l : bytes) : nat :=
  match l with c :: l => if c =? 32 then S (leading_spaces l) else O | [] => O end.

(** One line of the source: nothing, or what is left of it. *)
Definition read_line (number : nat) (raw : bytes) : result YamlError (option Line) :=
  if existsb (Z.eqb 9) raw then error number TabsNotPermitted
  else
    let indent := leading_spaces raw in
    let content := trim_end (strip_comment (drop indent raw)) in
    if bool_decide (content = []) || bool_decide (content = [45; 45; 45]) then Ok None
    else if contains_yaml_indirection content then error number IndirectionNotPermitted
    else Ok (Some (mkLine number indent content)).

Fixpoint read_lines (number : nat) (raws : list bytes) : result YamlError (list Line) :=
  match raws with
  | [] => Ok []
  | raw :: raws =>
      let? line := read_line number raw in
      let? lines := read_lines (S number) raws in
      Ok (match line with Some line => line :: lines | None => lines end)
  end.

(** ** Scalars *)

Definition unquote_simple (text : bytes) : bytes :=
  let trimmed := trim text in
  match trimmed with
  | first :: (_ :: _) as inner =>
      let last := List.last trimmed 0 in
      if ((first =? 34) && (last =? 34)) || ((first =? 39) && (last =? 39)) then removelast inner else trimmed
  | _ => trimmed
  end.

Fixpoint split_key_from (q : Quotes) (before : bytes) (content : bytes) : option (bytes * bytes) :=
  match content with
  | [] => None
  | byte :: rest =>
      if (byte =? 58) && unquoted q && match rest with [] => true | c :: _ => c =? 32 end then
        let key := trim before in
        if bool_decide (key = []) then None else Some (unquote_simple key, trim rest)
      else split_key_from (quote_step q byte) (before ++ [byte]) rest
  end.

Definition try_split_key (content : bytes) : option (string * bytes) :=
  option_map (fun '(key, rest) => (string_of_bytes key, rest)) (split_key_from outside [] content).

Definition split_key (content : bytes) (line : nat) : result YamlError (string * bytes) :=
  ok_or (try_split_key content) (mkYamlError line (ExpectedKeyValue (string_of_bytes content))).

Fixpoint split_flow_from (q : Quotes) (item : bytes) (inner : bytes) (line : nat) : result YamlError (list bytes) :=
  match inner with
  | [] => Ok [item]
  | byte :: inner =>
      if ((byte =? 91) || (byte =? 123)) && unquoted q then error line NestedFlow
      else if (byte =? 44) && unquoted q then
        let? items := split_flow_from q [] inner line in Ok (item :: items)
      else split_flow_from (quote_step q byte) (item ++ [byte]) inner line
  end.

Definition split_flow_items (inner : bytes) (line : nat) : result YamlError (list bytes) :=
  split_flow_from outside [] inner line.

Fixpoint flow_scalars (parts : list bytes) (line : nat) : result YamlError (list YamlValue) :=
  match parts with
  | [] => Ok []
  | part :: parts =>
      let part := trim part in
      if bool_decide (part = []) then error line EmptyFlowItem
      else
        let? items := flow_scalars parts line in
        Ok (Scalar (string_of_bytes (unquote_simple part)) :: items)
  end.

Definition parse_inline_scalar (text : bytes) (line : nat) : result YamlError YamlValue :=
  let text := trim text in
  match text with
  | [] => Ok YNull
  | first :: inner =>
      if first =? 123 then error line FlowMapping
      else if (first =? 124) || (first =? 62) then error line MultiLineScalar
      else if first =? 91 then
        if negb (ends_with [93] text) then error line FlowNotClosed
        else
          let inner := removelast inner in
          if bool_decide (trim inner = []) then Ok (Sequence [])
          else
            let? parts := split_flow_items inner line in
            let? items := flow_scalars parts line in
            Ok (Sequence items)
      else if bool_decide (text = [110; 117; 108; 108]) || bool_decide (text = [126]) then Ok YNull
      else Ok (Scalar (string_of_bytes (unquote_simple text)))
  end.

(** ** Blocks *)

Definition MAX_DEPTH : nat := 64.

Definition is_item (content : bytes) : bool := starts_with [45; 32] content || bool_decide (content = [45]).

Section Block.
(** [parse_block] one level deeper: the lines, and the indentation of the block. *)
Context (block : list Line -> nat -> result YamlError (YamlValue * list Line)).

(** What follows a key or dash with nothing behind it. *)
Definition child_value (indent : nat) (lines : list Line) : result YamlError (YamlValue * list Line) :=
  match lines with
  | next :: _ => if (indent <? l_indent next)%nat then block lines (l_indent next) else Ok (YNull, lines)
  | [] => Ok (YNull, lines)
  end.

Definition value_of (rest : bytes) (number indent : nat) (lines : list Line) : result YamlError (YamlValue * list Line) :=
  if bool_decide (rest = []) then child_value indent lines
  else let? value := parse_inline_scalar rest number in Ok (value, lines).

Definition has_key (key : string) (entries : list (string * YamlValue)) : bool :=
  existsb (fun entry => String.eqb entry.1 key) entries.

(** Every round takes a line at least. *)
Fixpoint mapping_rounds (rounds indent : nat) (entries : list (string * YamlValue)) (lines : list Line) :
    result YamlError (YamlValue * list Line) :=
  match rounds, lines with
  | O, _ | _, [] => Ok (Mapping entries, lines)
  | S rounds, line :: after =>
      if (l_indent line <? indent)%nat then Ok (Mapping entries, lines)
      else if (indent <? l_indent line)%nat then error (l_number line) IndentationInMapping
      else if is_item (l_content line) then error (l_number line) ItemInMapping
      else
        let? (key, rest) := split_key (l_content line) (l_number line) in
        if has_key key entries then error (l_number line) (DuplicateKey key)
        else
          let? (value, lines) := value_of rest (l_number line) indent after in
          mapping_rounds rounds indent (entries ++ [(key, value)]) lines
  end.

(** The lines of a mapping that began behind a dash. *)
Fixpoint item_rounds (rounds column : nat) (entries : list (string * YamlValue)) (lines : list Line) :
    result YamlError (YamlValue * list Line) :=
  match rounds, lines with
  | O, _ | _, [] => Ok (Mapping entries, lines)
  | S rounds, line :: after =>
      if negb (Nat.eqb (l_indent line) column) || starts_with [45; 32] (l_content line) then Ok (Mapping entries, lines)
      else
        let? (key, rest) := split_key (l_content line) (l_number line) in
        if has_key key entries then error (l_number line) (DuplicateKey key)
        else
          let? (value, lines) := value_of rest (l_number line) column after in
          item_rounds rounds column (entries ++ [(key, value)]) lines
  end.

Definition parse_item (line : Line) (indent : nat) (after : list Line) : result YamlError (YamlValue * list Line) :=
  let tail := tl (l_content line) in
  let inline := trim_start tail in
  let column := (indent + (length (l_content line) - length inline))%nat in
  if bool_decide (inline = []) then child_value indent after
  else
    match try_split_key inline with
    | Some (key, rest) =>
        let? (value, lines) := value_of rest (l_number line) column after in
        item_rounds (length lines) column [(key, value)] lines
    | None => let? value := parse_inline_scalar inline (l_number line) in Ok (value, after)
    end.

Fixpoint sequence_rounds (rounds indent : nat) (items : list YamlValue) (lines : list Line) :
    result YamlError (YamlValue * list Line) :=
  match rounds, lines with
  | O, _ | _, [] => Ok (Sequence items, lines)
  | S rounds, line :: after =>
      if (l_indent line <? indent)%nat then Ok (Sequence items, lines)
      else if (indent <? l_indent line)%nat then error (l_number line) IndentationInSequence
      else if negb (is_item (l_content line)) then Ok (Sequence items, lines)
      else
        let? (item, lines) := parse_item line indent after in
        sequence_rounds rounds indent (items ++ [item]) lines
  end.
End Block.

(** [levels]: how many levels of nesting are still allowed. *)
Fixpoint parse_block (levels : nat) (lines : list Line) (indent : nat) : result YamlError (YamlValue * list Line) :=
  match levels with
  | O => error (match lines with line :: _ => l_number line | [] => 1%nat end) DepthLimit
  | S levels =>
      match lines with
      | [] => Ok (YNull, [])
      | line :: _ =>
          if is_item (l_content line) then sequence_rounds (parse_block levels) (length lines) indent [] lines
          else mapping_rounds (parse_block levels) (length lines) indent [] lines
      end
  end.

Definition parse (source : string) : result YamlError YamlValue :=
  let? lines := read_lines 1 (lines (bytes_of_string source)) in
  match lines with
  | [] => Ok YNull
  | first :: _ =>
      let? (value, rest) := parse_block (S MAX_DEPTH) lines (l_indent first) in
      match rest with
      | [] => Ok value
      | line :: _ => error (l_number line) ContentAfterBody
      end
  end.
