(* ===== verification/YamlRound.v ===== *)
(** * YAML documents read back (crates/arkforge-core/src/yaml.rs)

    Every tree of mappings, sequences and scalars within the reader's depth has a text, in
    block style with quoted scalars, that the reader reads as that tree. *)

From S2P Require Import Prelude Text Yaml.

(** ** The text of a tree *)

Definition quoted (s : string) : bytes := 34 :: bytes_of_string s ++ [34].

(** A line as its indentation and content. *)
Definition row : Type := (nat * bytes)%type.

Definition dash (indent : nat) (rows : list row) : list row :=
  match rows with (_, content) :: rows => (indent, [45; 32] ++ content) :: rows | [] => [] end.

Fixpoint print_block (indent : nat) (v : YamlValue) : list row :=
  match v with
  | Mapping entries =>
      flat_map (fun entry =>
        let '(key, x) := entry in
        match x with
        | Scalar s => [(indent, quoted key ++ 58 :: 32 :: quoted s)]
        | Sequence [] => [(indent, quoted key ++ [58; 32; 91; 93])]
        | YNull => [(indent, quoted key ++ [58])]
        | _ => (indent, quoted key ++ [58]) :: print_block (indent + 2) x
        end) entries
  | Sequence items =>
      flat_map (fun x =>
        match x with
        | Scalar s => [(indent, 45 :: 32 :: quoted s)]
        | Sequence [] => [(indent, [45; 32; 91; 93])]
        | YNull => [(indent, [45])]
        | Sequence _ => (indent, [45]) :: print_block (indent + 2) x
        | Mapping _ => dash indent (print_block (indent + 2) x)
        end) items
  | _ => []
  end.

Definition print_row (r : row) : bytes := replicate r.1 32 ++ r.2 ++ [10].
Definition print (v : YamlValue) : string := string_of_bytes (flat_map print_row (print_block 0 v)).

(** Text that can be quoted: printable ASCII without a double quote or backslash. *)
Definition quotable_byte (b : Z) : Prop := 32 <= b <= 126 /\ b <> 34 /\ b <> 92.
Definition quotable (s : string) : Prop := Forall quotable_byte (bytes_of_string s).

Definition leaf (v : YamlValue) : Prop :=
  match v with Scalar s => quotable s | YNull | Sequence [] => True | _ => False end.

(** Trees of at most [n] levels of blocks; a mapping behind a dash is part of its sequence. *)
Fixpoint block_ok (n : nat) (v : YamlValue) : Prop :=
  match n with
  | O => False
  | S n =>
      let entries_ok entries :=
        entries <> [] /\ NoDup (map fst entries) /\
        Forall (fun entry => quotable entry.1 /\ (leaf entry.2 \/ block_ok n entry.2)) entries in
      match v with
      | Mapping entries => entries_ok entries
      | Sequence items =>
          items <> [] /\
          Forall (fun x => leaf x \/ match x with
                                     | Sequence _ => block_ok n x
                                     | Mapping entries => entries_ok entries
                                     | _ => False
                                     end) items
      | _ => False
      end
  end.

Definition entry_ok (n : nat) (entry : string * YamlValue) : Prop :=
  quotable entry.1 /\ (leaf entry.2 \/ block_ok n entry.2).

(** ** Scanning quoted text *)

Definition ascii (l : bytes) : Prop := Forall (fun b => 0 <= b < 128) l.

Lemma chars_ascii l : ascii l -> chars l = map (fun b => [b]) l.
Proof.
  induction 1 as [|b l Hb _ IH]; [done|]. cbn [chars map]. destruct (Z.ltb_spec b 128); [by rewrite IH|lia].
Qed.

Lemma concat_map_singleton (l : bytes) : concat (map (fun b => [b]) l) = l.
Proof. induction l as [|b l IH]; [done|]. cbn. by rewrite IH. Qed.

Definition solid (b : Z) : Prop := 33 <= b < 128.

Lemma solid_not_space b : solid b -> is_whitespace [b] = false.
Proof. unfold solid. intros Hb. cbn. unfold in_range. destruct (Z.leb_spec 9 b), (Z.leb_spec b 13), (Z.eqb_spec b 32); try done; lia. Qed.

Lemma drop_while_solid b l : solid b -> drop_while is_whitespace ([b] :: l) = [b] :: l.
Proof. intros Hb. cbn [drop_while]. by rewrite solid_not_space. Qed.

Lemma trim_start_solid b l : solid b -> ascii l -> trim_start (b :: l) = b :: l.
Proof.
  intros Hb Hl. unfold trim_start. rewrite chars_ascii by (constructor; [unfold solid in Hb; lia|done]).
  cbn [map]. rewrite drop_while_solid by done. cbn. by rewrite concat_map_singleton.
Qed.

Lemma trim_end_solid b l : solid b -> ascii l -> trim_end (l ++ [b]) = l ++ [b].
Proof.
  intros Hb Hl. unfold trim_end. rewrite chars_ascii.
  - rewrite map_app. cbn [map]. rewrite rev_app_distr. cbn [rev app]. rewrite drop_while_solid by done.
    cbn [rev]. rewrite rev_involutive, concat_app, concat_map_singleton. done.
  - apply Forall_app. split; [done|]. constructor; [unfold solid in Hb; lia|done].
Qed.

Lemma trim_parts l : ascii l -> trim l = trim_end (trim_start l).
Proof.
  intros Hl. unfold trim, trim_end, trim_start. rewrite (chars_ascii l) by done.
  assert (forall k, ascii k -> chars (concat (map (fun b => [b]) k)) = map (fun b => [b]) k) as Hk.
  { intros k Hk. by rewrite concat_map_singleton, chars_ascii. }
  assert (exists k, drop_while is_whitespace (map (fun b => [b]) l) = map (fun b => [b]) k /\ ascii k) as (k & -> & Hok).
  { clear Hk. induction Hl as [|b l Hb Hl IH]; [exists []; split; [done|constructor]|]. cbn [map drop_while].
    destruct (is_whitespace [b]); [done|].
    exists (b :: l). split; [done|by constructor]. }
  by rewrite Hk.
Qed.

Lemma trim_solid a l b : solid a -> solid b -> ascii l -> trim (a :: l ++ [b]) = a :: l ++ [b].
Proof.
  intros Ha Hb Hl. assert (ascii (l ++ [b])) as Hlb by (apply Forall_app; split; [done|constructor; [unfold solid in Hb; lia|done]]).
  rewrite trim_parts by (constructor; [unfold solid in Ha; lia|done]). rewrite trim_start_solid by done.
  apply (trim_end_solid b (a :: l)); [done|]. constructor; [unfold solid in Ha; lia|done].
Qed.

Lemma quotable_ascii s : quotable s -> ascii (bytes_of_string s).
Proof. intros Hs. eapply Forall_impl; [exact Hs|]. unfold quotable_byte. intros b Hb. cbn in Hb. lia. Qed.

Lemma quoted_ascii s : quotable s -> ascii (quoted s).
Proof. intros Hs. constructor; [lia|]. apply Forall_app. split; [by apply quotable_ascii|]. constructor; [lia|done]. Qed.

Lemma solid_quote : solid 34.
Proof. unfold solid. lia. Qed.

Lemma trim_quoted s : quotable s -> trim (quoted s) = quoted s.
Proof. intros Hs. apply trim_solid; [apply solid_quote..|by apply quotable_ascii]. Qed.

Lemma unquote_quoted s : quotable s -> unquote_simple (quoted s) = bytes_of_string s.
Proof.
  intros Hs. unfold unquote_simple. rewrite trim_quoted by done. unfold quoted.
  assert (exists c l, bytes_of_string s ++ [34] = c :: l) as (c & l & Heq) by (destruct (bytes_of_string s); by eexists _, _).
  rewrite Heq. assert (List.last (34 :: c :: l) 0 = 34) as -> by (rewrite <- Heq; apply (List.last_last (34 :: bytes_of_string s))).
  cbn [Z.eqb andb orb]. rewrite <- Heq. apply removelast_last.
Qed.

(** Inside double quotes the scans pass over everything up to the next one. *)
Definition inside : Quotes := mkQuotes false true.

Lemma quote_step_inside b : b <> 34 -> quote_step inside b = inside.
Proof. intros Hb. unfold quote_step, inside. cbn. rewrite andb_false_r. by apply Z.eqb_neq in Hb as ->. Qed.

(** Text whose special bytes are all quoted. *)
Fixpoint tame (q : Quotes) (l : bytes) : Prop :=
  match l with
  | [] => True
  | b :: l => (unquoted q = true -> b <> 35 /\ b <> 38 /\ b <> 42 /\ b <> 33) /\ b <> 92 /\ tame (quote_step q b) l
  end.

Lemma tame_quoted s l : quotable s -> tame outside l -> tame outside (quoted s ++ l).
Proof.
  intros Hs Hl. unfold quoted. cbn [app tame]. split; [done|]. split; [done|]. change (quote_step outside 34) with inside.
  rewrite <- app_assoc. induction Hs as [|b k Hb _ IH]; [by cbn|]. cbn [app tame]. unfold quotable_byte in Hb.
  rewrite quote_step_inside by tauto. split_and!; [done|tauto|exact IH].
Qed.

Lemma tame_indirection q previous l : tame q l -> indirection_from q false previous l = false.
Proof.
  revert q previous. induction l as [|b l IH]; intros q previous; cbn [tame indirection_from]; [done|].
  intros (Hq & H92 & Hl). rewrite andb_false_r. apply Z.eqb_neq in H92. rewrite H92, andb_false_r.
  rewrite IH by done. rewrite orb_false_r. destruct (unquoted q) eqn:Eq; [|by rewrite andb_false_r].
  destruct (Hq eq_refl) as (_ & H1 & H2 & H3). apply Z.eqb_neq in H1, H2, H3. by rewrite H1, H2, H3.
Qed.

Lemma tame_comment q previous l : tame q l -> comment_from q previous l = l.
Proof.
  revert q previous. induction l as [|b l IH]; intros q previous; cbn [tame comment_from]; [done|].
  intros (Hq & _ & Hl). rewrite IH by done. destruct (unquoted q) eqn:Eq; [|by rewrite andb_false_r].
  destruct (Hq eq_refl) as (H1 & _). apply Z.eqb_neq in H1. by rewrite H1.
Qed.

(** ** Keys and scalars *)

Lemma split_inside before s l :
  quotable s -> split_key_from inside before (bytes_of_string s ++ 34 :: l) = split_key_from outside (before ++ bytes_of_string s ++ [34]) l.
Proof.
  intros Hs. revert before. induction Hs as [|b k Hb _ IH]; intros before.
  - cbn [app split_key_from]. cbn. done.
  - unfold quotable_byte in Hb. cbn [app split_key_from]. assert (unquoted inside = false) as -> by done.
    rewrite andb_false_r. cbn [andb]. rewrite quote_step_inside by tauto. rewrite IH. by rewrite <- !app_assoc.
Qed.

Lemma split_quoted s l : quotable s -> split_key_from outside [] (quoted s ++ l) = split_key_from outside (quoted s) l.
Proof.
  intros Hs. unfold quoted. cbn [app]. rewrite <- app_assoc. cbn [app split_key_from]. change (quote_step outside 34) with inside.
  assert ((34 =? 58) = false) as -> by done. cbn [andb app]. by rewrite split_inside.
Qed.

Lemma key_split s rest :
  quotable s -> (rest = [] \/ exists l, rest = 32 :: l) -> try_split_key (quoted s ++ 58 :: rest) = Some (s, trim rest).
Proof.
  intros Hs Hr. unfold try_split_key. rewrite split_quoted by done. cbn [split_key_from].
  assert (match rest with [] => true | c :: _ => c =? 32 end = true) as -> by by destruct Hr as [->|[l ->]].
  assert ((58 =? 58) && unquoted outside && true = true) as -> by done.
  rewrite trim_quoted, bool_decide_eq_false_2, unquote_quoted by done. cbn. by rewrite string_of_bytes_of_string.
Qed.

Lemma no_key_quoted s : quotable s -> try_split_key (quoted s) = None.
Proof.
  intros Hs. unfold try_split_key. pose proof (split_quoted s [] Hs) as H. rewrite app_nil_r in H. by rewrite H.
Qed.

Lemma scalar_quoted s line : quotable s -> parse_inline_scalar (quoted s) line = Ok (Scalar s).
Proof.
  intros Hs. unfold parse_inline_scalar. rewrite trim_quoted by done. unfold quoted at 1. cbn [Z.eqb orb Pos.eqb].
  rewrite !bool_decide_eq_false_2 by done. cbn [orb]. rewrite unquote_quoted by done. by rewrite string_of_bytes_of_string.
Qed.

Lemma scalar_empty line : parse_inline_scalar [91; 93] line = Ok (Sequence []).
Proof. by vm_compute. Qed.

Lemma trim_space_quoted s : quotable s -> trim (32 :: quoted s) = quoted s.
Proof.
  intros Hs. rewrite trim_parts by (constructor; [lia|by apply quoted_ascii]).
  assert (trim_start (32 :: quoted s) = trim_start (quoted s)) as ->.
  { unfold trim_start. rewrite !chars_ascii; [done|by apply quoted_ascii|]. constructor; [lia|by apply quoted_ascii]. }
  rewrite <- trim_parts by by apply quoted_ascii. by apply trim_quoted.
Qed.

(** ** Rows *)

(** Content the reader takes as it is. *)
Record content_ok (l : bytes) : Prop := {
  content_ascii : Forall (fun b => 32 <= b < 127) l;
  content_tame : tame outside l;
  content_first : exists b k, l = b :: k /\ solid b;
  content_last : exists k b, l = k ++ [b] /\ solid b;
  content_not_start : l <> [45; 45; 45]
}.

Lemma leading_spaces_row n l : (exists b k, l = b :: k /\ solid b) -> leading_spaces (replicate n 32 ++ l) = n.
Proof.
  intros (b & k & -> & Hb). induction n as [|n IH]; cbn; [|by rewrite IH].
  unfold solid in Hb. by destruct (Z.eqb_spec b 32); [lia|].
Qed.

Lemma read_row number n l :
  content_ok l -> read_line number (replicate n 32 ++ l) = Ok (Some (mkLine number n l)).
Proof.
  intros [Ha Ht Hf (k & b & -> & Hb) Hs]. unfold read_line.
  assert (existsb (Z.eqb 9) (replicate n 32 ++ k ++ [b]) = false) as ->.
  { apply not_true_iff_false. rewrite existsb_exists. intros (x & Hx & Heq). apply Z.eqb_eq in Heq. subst x.
    apply list_elem_of_In, elem_of_app in Hx as [Hx|Hx]; [by apply elem_of_replicate in Hx as [? _]|].
    rewrite Forall_forall in Ha. apply Ha in Hx. lia. }
  rewrite leading_spaces_row by done. rewrite drop_app_length' by (by rewrite length_replicate).
  unfold strip_comment. rewrite tame_comment by done. rewrite trim_end_solid; [|done|].
  - rewrite bool_decide_eq_false_2 by (by destruct k). rewrite bool_decide_eq_false_2 by done. cbn [orb].
    unfold contains_yaml_indirection. by rewrite tame_indirection.
  - apply Forall_app in Ha as [Ha _]. eapply Forall_impl; [exact Ha|]. cbn. intros. lia.
Qed.

Definition row_ok (r : row) : Prop := content_ok r.2.

(** Lines that show some rows, whatever their numbers. *)
Definition shows (lines : list Line) (rows : list row) : Prop :=
  Forall2 (fun line (r : row) => l_indent line = r.1 /\ l_content line = r.2) lines rows.

Lemma read_rows number rows :
  Forall row_ok rows -> exists lines, read_lines number (map (fun r => replicate r.1 32 ++ r.2) rows) = Ok lines /\ shows lines rows.
Proof.
  intros Hall. revert number. induction Hall as [|[n l] rows Hr _ IH]; intros number; [by exists []; split; [|constructor]|].
  cbn [map read_lines fst snd]. rewrite read_row by done. destruct (IH (S number)) as (lines & -> & Hs).
  eexists. split; [done|]. by constructor.
Qed.

Lemma split_on_row b l rest : b ∉ l -> split_on b (l ++ b :: rest) = l :: split_on b rest.
Proof.
  induction l as [|c l IH]; intros Hb; cbn [app split_on]; [by rewrite Z.eqb_refl|].
  rewrite not_elem_of_cons in Hb. destruct Hb as [Hne Hb]. destruct (Z.eqb_spec c b); [by subst|]. by rewrite IH.
Qed.

Lemma strip_cr_row l b : b <> 13 -> strip_cr (l ++ [b]) = l ++ [b].
Proof.
  intros Hb. unfold strip_cr, ends_with. rewrite rev_app_distr. cbn [rev app strip_prefix].
  destruct (Z.eqb_spec 13 b); [by subst|done].
Qed.

Lemma lines_rows rows :
  Forall row_ok rows -> lines (flat_map print_row rows) = map (fun r => replicate r.1 32 ++ r.2) rows.
Proof.
  intros Hall. assert (split_on 10 (flat_map print_row rows) = map (fun r => replicate r.1 32 ++ r.2) rows ++ [[]] /\
    Forall (fun l => exists k b, l = k ++ [b] /\ b <> 13) (map (fun r => replicate r.1 32 ++ r.2) rows)) as [Hs Hl].
  { induction Hall as [|[n l] rows [Ha _ _ (k & b & Hkb & Hb) _] _ [IH1 IH2]]; [by split; [|constructor]|].
    cbn [flat_map map print_row fst snd] in *. split.
    - unfold print_row at 1. cbn [fst snd]. rewrite app_assoc, <- app_assoc. cbn [app]. rewrite split_on_row; [by rewrite IH1|].
      rewrite not_elem_of_app. split; [by intros [? _]%elem_of_replicate|]. rewrite Forall_forall in Ha. intros Hin. apply Ha in Hin. lia.
    - constructor; [|done]. exists (replicate n 32 ++ k), b. subst l. split; [by rewrite app_assoc|]. unfold solid in Hb. lia. }
  unfold lines. rewrite Hs, removelast_last, List.last_last, app_nil_r. clear Hs Hall.
  induction Hl as [|l ls (k & b & -> & Hb) _ IH]; [done|]. cbn [map]. by rewrite strip_cr_row, IH.
Qed.

(** ** The rows of a tree *)

Definition entry_rows (indent : nat) (entry : string * YamlValue) : list row :=
  match entry.2 with
  | Scalar s => [(indent, quoted entry.1 ++ 58 :: 32 :: quoted s)]
  | Sequence [] => [(indent, quoted entry.1 ++ [58; 32; 91; 93])]
  | YNull => [(indent, quoted entry.1 ++ [58])]
  | x => (indent, quoted entry.1 ++ [58]) :: print_block (indent + 2) x
  end.

Definition item_rows (indent : nat) (x : YamlValue) : list row :=
  match x with
  | Scalar s => [(indent, 45 :: 32 :: quoted s)]
  | Sequence [] => [(indent, [45; 32; 91; 93])]
  | YNull => [(indent, [45])]
  | Sequence _ => (indent, [45]) :: print_block (indent + 2) x
  | Mapping _ => dash indent (print_block (indent + 2) x)
  end.

Lemma print_mapping indent entries : print_block indent (Mapping entries) = flat_map (entry_rows indent) entries.
Proof. cbn [print_block]. apply flat_map_ext. intros [key x]. by destruct x as [|[]| |]. Qed.

Lemma print_sequence indent items : print_block indent (Sequence items) = flat_map (item_rows indent) items.
Proof. done. Qed.

Definition entries_ok (n : nat) (entries : list (string * YamlValue)) : Prop :=
  entries <> [] /\ NoDup (map fst entries) /\ Forall (entry_ok n) entries.

Definition item_ok (n : nat) (x : YamlValue) : Prop :=
  leaf x \/ match x with Sequence _ => block_ok n x | Mapping entries => entries_ok n entries | _ => False end.

Lemma block_ok_cases n v :
  block_ok n v ->
  exists m, n = S m /\ ((exists entries, v = Mapping entries /\ entries_ok m entries) \/
                        (exists items, v = Sequence items /\ items <> [] /\ Forall (item_ok m) items)).
Proof.
  destruct n as [|m]; [done|]. cbn [block_ok]. intros Hv. exists m. split; [done|].
  destruct v as [s|items|entries|]; try done; [right; by exists items|left; by exists entries].
Qed.

Lemma ascii_quoted s : quotable s -> Forall (fun b => 32 <= b < 127) (quoted s).
Proof.
  intros Hs. constructor; [lia|]. apply Forall_app. split; [|constructor; [lia|done]].
  eapply Forall_impl; [exact Hs|]. unfold quotable_byte. intros b Hb. cbn in *. lia.
Qed.

(** A key, and behind its colon a given tail, is content the reader takes. *)
Lemma key_content key tail k b :
  quotable key -> Forall (fun b => 32 <= b < 127) tail -> tame outside tail -> 58 :: tail = k ++ [b] -> solid b ->
  content_ok (quoted key ++ 58 :: tail).
Proof.
  intros Hkey Ha Ht Hlast Hb. constructor.
  - apply Forall_app. split; [by apply ascii_quoted|]. constructor; [lia|done].
  - apply tame_quoted; [done|]. cbn [tame]. by split_and!.
  - eexists _, _. split; [unfold quoted; cbn [app]; done|apply solid_quote].
  - rewrite Hlast. exists (quoted key ++ k), b. by rewrite app_assoc.
  - done.
Qed.

Lemma quoted_last s : exists k, quoted s = k ++ [34].
Proof. by exists (34 :: bytes_of_string s). Qed.

Lemma item_content tail k b :
  Forall (fun b => 32 <= b < 127) tail -> tame outside tail -> 45 :: tail = k ++ [b] -> solid b -> tail <> [45; 45] ->
  content_ok (45 :: tail).
Proof.
  intros Ha Ht Hlast Hb Hn. constructor.
  - constructor; [lia|done].
  - cbn [tame]. by split_and!.
  - eexists _, _. split; [done|]. unfold solid. lia.
  - rewrite Hlast. by eexists _, _.
  - congruence.
Qed.

Lemma content_scalar_entry key s : quotable key -> quotable s -> content_ok (quoted key ++ 58 :: 32 :: quoted s).
Proof.
  intros Hk Hs. destruct (quoted_last s) as [k Hq]. apply (key_content key _ (58 :: 32 :: k) 34); [done| | | |apply solid_quote].
  - constructor; [lia|by apply ascii_quoted].
  - cbn [tame]. split_and!; [done|done|]. rewrite <- (app_nil_r (quoted s)). by apply tame_quoted.
  - by rewrite Hq.
Qed.

Lemma content_empty_entry key : quotable key -> content_ok (quoted key ++ [58; 32; 91; 93]).
Proof.
  intros Hk. apply (key_content key _ [58; 32; 91] 93); [done| | |done|unfold solid; lia].
  - repeat (constructor; [lia|]). constructor.
  - by cbn.
Qed.

Lemma content_key_entry key : quotable key -> content_ok (quoted key ++ [58]).
Proof. intros Hk. apply (key_content key [] [] 58); [done|constructor|done|done|unfold solid; lia]. Qed.

Lemma content_dash l : content_ok l -> (exists b k, l = b :: k /\ b <> 45) -> content_ok ([45; 32] ++ l).
Proof.
  intros [Ha Ht (a & k' & Hf & Hsa) (k & b & Hlast & Hb) _] (b0 & k0 & Heq & Hb0). apply (item_content (32 :: l) (45 :: 32 :: k) b).
  - constructor; [lia|done].
  - cbn [tame]. by split_and!.
  - by rewrite Hlast.
  - done.
  - rewrite Heq. congruence.
Qed.

Lemma content_lone_dash : content_ok [45].
Proof. apply (item_content [] [] 45); [constructor|done|done|unfold solid; lia|done]. Qed.

Lemma content_scalar_item s : quotable s -> content_ok (45 :: 32 :: quoted s).
Proof.
  intros Hs. destruct (quoted_last s) as [k Hq]. apply (item_content _ (45 :: 32 :: k) 34); [| | |apply solid_quote|done].
  - constructor; [lia|by apply ascii_quoted].
  - cbn [tame]. split_and!; [done|done|]. rewrite <- (app_nil_r (quoted s)). by apply tame_quoted.
  - by rewrite Hq.
Qed.

Lemma content_empty_item : content_ok [45; 32; 91; 93].
Proof.
  apply (item_content _ [45; 32; 91] 93); [| |done|unfold solid; lia|done].
  - repeat (constructor; [lia|]). constructor.
  - by cbn.
Qed.

Lemma entry_rows_ok (n indent : nat) entry :
  (forall indent v, block_ok n v -> Forall row_ok (print_block indent v)) -> entry_ok n entry -> Forall row_ok (entry_rows indent entry).
Proof.
  intros IH [Hk Hv]. unfold entry_rows, row_ok. destruct entry as [key x]. cbn [fst snd] in *.
  assert (block_ok n x -> Forall (fun r => content_ok r.2) ((indent, quoted key ++ [58]) :: print_block (indent + 2) x)) as Hblock.
  { intros Hb. constructor; [by apply content_key_entry|by apply IH]. }
  destruct x as [s|[|y items]|entries|]; destruct Hv as [Hv|Hv]; try done; try (by apply Hblock); try (by destruct n).
  - constructor; [by apply content_scalar_entry|done].
  - constructor; [by apply content_empty_entry|done].
  - constructor; [by apply content_empty_entry|done].
  - constructor; [by apply content_key_entry|done].
Qed.

(** The first row of a nonempty mapping begins with its first key. *)
Lemma mapping_rows indent key x entries :
  exists content rows, entry_rows indent (key, x) = (indent, content) :: rows /\ (exists tail, content = 34 :: tail) /\
    print_block indent (Mapping ((key, x) :: entries)) = (indent, content) :: rows ++ flat_map (entry_rows indent) entries.
Proof.
  rewrite print_mapping. cbn [flat_map].
  assert (exists content rows, entry_rows indent (key, x) = (indent, content) :: rows /\ exists tail, content = 34 :: tail) as (c & rows & Heq & Hc).
  { unfold entry_rows, quoted. cbn [fst snd app]. destruct x as [s|[|y items]|es|]; by eexists _, _; (split; [done|by eexists]). }
  exists c, rows. rewrite Heq. done.
Qed.

Lemma print_block_ok n : forall indent v, block_ok n v -> Forall row_ok (print_block indent v).
Proof.
  induction n as [|n IH]; intros indent v Hv; [done|]. apply block_ok_cases in Hv as (m & [= <-] & [(entries & -> & Hne & _ & Hall)|(items & -> & Hne & Hall)]).
  - rewrite print_mapping. clear Hne. induction Hall as [|entry entries He _ IHe]; [constructor|]. cbn [flat_map].
    apply Forall_app. split; [by eapply entry_rows_ok|done].
  - rewrite print_sequence. clear Hne. induction Hall as [|x items Hx _ IHx]; [constructor|]. cbn [flat_map].
    apply Forall_app. split; [|done]. clear IHx. unfold item_rows, row_ok.
    destruct x as [s|[|y ys]|es|]; destruct Hx as [Hx|Hx]; try done.
    + constructor; [by apply content_scalar_item|done].
    + constructor; [apply content_empty_item|done].
    + constructor; [apply content_empty_item|done].
    + constructor; [apply content_lone_dash|]. by apply IH.
    + destruct Hx as (Hne & _ & Hes). destruct es as [|[key v] es]; [done|].
      assert (Forall row_ok (print_block (indent + 2) (Mapping ((key, v) :: es)))) as Hrows.
      { rewrite print_mapping. clear Hne. induction Hes as [|entry entries He _ IHe]; [constructor|]. cbn [flat_map].
        apply Forall_app. split; [by eapply entry_rows_ok|done]. }
      destruct (mapping_rows (indent + 2) key v es) as (c & rows & _ & [tail Htail] & Hp). rewrite Hp in *. cbn [dash].
      apply Forall_cons in Hrows as [Hc Hrows]. constructor; [|done]. cbn [snd]. apply content_dash; [done|]. rewrite Htail. by eexists _, _.
    + constructor; [apply content_lone_dash|done].
Qed.

(** ** Reading the rows *)

(** What follows belongs to no block indented past [indent]. *)
Definition within (indent : nat) (after : list Line) : Prop :=
  match after with line :: _ => (l_indent line <= indent)%nat | [] => True end.

Lemma shows_app_inv lines rows1 rows2 :
  shows lines (rows1 ++ rows2) -> exists l1 l2, lines = l1 ++ l2 /\ shows l1 rows1 /\ shows l2 rows2.
Proof. intros Hs. apply Forall2_app_inv_r in Hs as (l1 & l2 & H1 & H2 & ->). by exists l1, l2. Qed.

Lemma shows_cons_inv lines indent content rows :
  shows lines ((indent, content) :: rows) ->
  exists line lines', lines = line :: lines' /\ l_indent line = indent /\ l_content line = content /\ shows lines' rows.
Proof. intros Hs. apply Forall2_cons_inv_r in Hs as (line & lines' & [H1 H2] & H3 & ->). by exists line, lines'. Qed.

(** The first row of a block has the block's indentation. *)
Lemma block_first n indent v :
  block_ok n v -> exists content rows, print_block indent v = (indent, content) :: rows.
Proof.
  intros Hv. apply block_ok_cases in Hv as (m & -> & [(entries & -> & Hne & _ & _)|(items & -> & Hne & Hall)]).
  - destruct entries as [|[key x] entries]; [done|]. destruct (mapping_rows indent key x entries) as (c & rows & _ & _ & ->). by eexists _, _.
  - destruct items as [|x items]; [done|]. apply Forall_cons in Hall as [Hx _]. rewrite print_sequence. cbn [flat_map].
    destruct x as [s|[|y ys]|es|]; cbn [item_rows app]; try by eexists _, _. destruct Hx as [Hx|[Hes _]]; [done|].
    destruct es as [|[key v] es]; [done|]. destruct (mapping_rows (indent + 2) key v es) as (c & rows & _ & _ & ->). by eexists _, _.
Qed.

Section Read.
Context (n : nat) (block : list Line -> nat -> result YamlError (YamlValue * list Line)).
Context (Hblock : forall indent v lines after,
  block_ok n v -> shows lines (print_block indent v) -> within (indent - 1) after -> (0 < indent)%nat ->
  block (lines ++ after) indent = Ok (v, after)).

Lemma read_nested indent v lines after number :
  block_ok n v -> shows lines (print_block (indent + 2) v) -> within indent after ->
  value_of block [] number indent (lines ++ after) = Ok (v, after).
Proof.
  intros Hv Hs Ha. unfold value_of. rewrite bool_decide_eq_true_2 by done. unfold child_value.
  destruct (block_first n (indent + 2) v Hv) as (c & rows & Hp). pose proof Hs as Hs'. rewrite Hp in Hs'.
  apply shows_cons_inv in Hs' as (line & lines' & -> & Hi & _). cbn [app]. rewrite Hi.
  destruct (Nat.ltb_spec indent (indent + 2)); [|lia]. apply (Hblock (indent + 2) v (line :: lines')); [done|done| |lia].
  destruct after as [|next after]; [done|]. cbn in *. lia.
Qed.

Lemma read_empty indent number after : within indent after -> value_of block [] number indent after = Ok (YNull, after).
Proof.
  intros Ha. unfold value_of. rewrite bool_decide_eq_true_2 by done. unfold child_value.
  destruct after as [|next after]; [done|]. cbn in Ha. destruct (Nat.ltb_spec indent (l_indent next)); [lia|done].
Qed.

Lemma read_inline rest v number indent after :
  rest <> [] -> parse_inline_scalar rest number = Ok v -> value_of block rest number indent after = Ok (v, after).
Proof. intros Hr Hp. unfold value_of. by rewrite bool_decide_eq_false_2, Hp by done. Qed.

(** An entry: its key on its first row, and its value there or in the rows below. *)
Lemma read_entry indent key x :
  entry_ok n (key, x) ->
  exists content rows rest, entry_rows indent (key, x) = (indent, content) :: rows /\
    (exists tail, content = 34 :: tail) /\ try_split_key content = Some (key, rest) /\
    forall number lines after, shows lines rows -> within indent after ->
      value_of block rest number indent (lines ++ after) = Ok (x, after).
Proof.
  intros [Hk Hx]. cbn [fst snd] in Hk, Hx. unfold entry_rows. cbn [fst snd].
  assert (block_ok n x -> forall number lines after, shows lines (print_block (indent + 2) x) -> within indent after ->
    value_of block (trim []) number indent (lines ++ after) = Ok (x, after)) as Hnested.
  { intros Hb number lines after Hs Ha. by apply read_nested. }
  assert (try_split_key (quoted key ++ [58]) = Some (key, trim [])) as Hkey by (apply key_split; [done|by left]).
  destruct x as [s|[|y ys]|es|].
  - destruct Hx as [Hx|Hx]; [|by destruct n]. eexists _, _, (quoted s). split; [done|]. split; [by eexists|]. split.
    + rewrite key_split, trim_space_quoted; [done|done|done|]. right. by eexists.
    + intros number lines after Hs Ha. inversion Hs. apply read_inline; [done|]. by apply scalar_quoted.
  - eexists _, _, [91; 93]. split; [done|]. split; [by eexists|]. split.
    + rewrite key_split; [done|done|]. right. by eexists.
    + intros number lines after Hs Ha. inversion Hs. by apply read_inline.
  - destruct Hx as [Hx|Hx]; [done|]. eexists _, _, _. split; [done|]. split; [by eexists|]. split; [exact Hkey|by apply Hnested].
  - destruct Hx as [Hx|Hx]; [done|]. eexists _, _, _. split; [done|]. split; [by eexists|]. split; [exact Hkey|by apply Hnested].
  - eexists _, _, _. split; [done|]. split; [by eexists|]. split; [exact Hkey|].
    intros number lines after Hs Ha. inversion Hs. by apply read_empty.
Qed.

Lemma has_key_false key acc x entries :
  NoDup (map fst (acc ++ (key, x) :: entries)) -> has_key key acc = false.
Proof.
  intros Hnd. apply not_true_iff_false. intros Hk. unfold has_key in Hk. apply existsb_exists in Hk as (e & He & Heq).
  apply String.eqb_eq in Heq. rewrite map_app in Hnd. apply NoDup_app in Hnd as (_ & Hnd & _).
  apply (Hnd key); [|by left]. rewrite <- Heq. apply list_elem_of_In. by apply in_map.
Qed.

Lemma rows_within indent entries lines after :
  shows lines (flat_map (entry_rows indent) entries) -> Forall (entry_ok n) entries -> within indent after -> within indent (lines ++ after).
Proof.
  intros Hs Hall Ha. destruct Hall as [|[key x] entries He _]; [by inversion Hs|]. cbn [flat_map] in Hs.
  destruct (read_entry indent key x He) as (c & rows & rest & Heq & _). rewrite Heq in Hs.
  apply shows_cons_inv in Hs as (line & lines' & -> & Hi & _). cbn. lia.
Qed.

(** The rows of a mapping, entry by entry. *)
Lemma read_mapping indent entries : forall acc rounds lines after,
  Forall (entry_ok n) entries -> NoDup (map fst (acc ++ entries)) ->
  shows lines (flat_map (entry_rows indent) entries) -> within (indent - 1) after -> (0 < indent \/ after = [])%nat ->
  (length entries <= rounds)%nat ->
  mapping_rounds block rounds indent acc (lines ++ after) = Ok (Mapping (acc ++ entries), after).
Proof.
  induction entries as [|[key x] entries IH]; intros acc rounds lines after Hall Hnd Hs Ha Hz Hr.
  - inversion Hs. subst lines. cbn [app]. rewrite app_nil_r. destruct rounds as [|rounds]; [done|].
    destruct after as [|next after]; [done|]. cbn [mapping_rounds]. cbn in Ha. destruct Hz; [|done].
    destruct (Nat.ltb_spec (l_indent next) indent); [done|lia].
  - apply Forall_cons in Hall as [He Hall]. destruct rounds as [|rounds]; [cbn in Hr; lia|]. cbn [flat_map] in Hs.
    destruct (read_entry indent key x He) as (c & rows & rest & Heq & [tail Htail] & Hkey & Hval). rewrite Heq in Hs. cbn [app] in Hs.
    apply shows_cons_inv in Hs as (line & lines' & -> & Hi & Hc & Hs). apply shows_app_inv in Hs as (l1 & l2 & -> & Hs1 & Hs2).
    cbn [app mapping_rounds]. rewrite Hi. destruct (Nat.ltb_spec indent indent); [lia|]. rewrite Hc.
    assert (is_item c = false) as -> by by rewrite Htail.
    unfold split_key. rewrite Hkey. cbn [ok_or]. rewrite (has_key_false key acc x entries Hnd), <- app_assoc, Hval; [|done|].
    + rewrite IH; [by rewrite <- app_assoc|done|by rewrite <- app_assoc|done|done|done|cbn in Hr; lia].
    + eapply rows_within; [done|done|]. destruct after; [done|]. cbn in *. lia.
Qed.

(** The rows of a mapping behind a dash, after its first entry. *)
Lemma read_item_rows column entries : forall acc rounds lines after,
  Forall (entry_ok n) entries -> NoDup (map fst (acc ++ entries)) ->
  shows lines (flat_map (entry_rows column) entries) -> within (column - 1) after -> (0 < column)%nat ->
  (length entries <= rounds)%nat ->
  item_rounds block rounds column acc (lines ++ after) = Ok (Mapping (acc ++ entries), after).
Proof.
  induction entries as [|[key x] entries IH]; intros acc rounds lines after Hall Hnd Hs Ha Hz Hr.
  - inversion Hs. subst lines. cbn [app]. rewrite app_nil_r. destruct rounds as [|rounds]; [done|].
    destruct after as [|next after]; [done|]. cbn [item_rounds]. cbn in Ha.
    destruct (Nat.eqb_spec (l_indent next) column); [lia|done].
  - apply Forall_cons in Hall as [He Hall]. destruct rounds as [|rounds]; [cbn in Hr; lia|]. cbn [flat_map] in Hs.
    destruct (read_entry column key x He) as (c & rows & rest & Heq & [tail Htail] & Hkey & Hval). rewrite Heq in Hs. cbn [app] in Hs.
    apply shows_cons_inv in Hs as (line & lines' & -> & Hi & Hc & Hs). apply shows_app_inv in Hs as (l1 & l2 & -> & Hs1 & Hs2).
    cbn [app item_rounds]. rewrite Hi, Nat.eqb_refl, Hc.
    assert (starts_with [45; 32] c = false) as -> by by rewrite Htail. cbn [negb orb].
    unfold split_key. rewrite Hkey. cbn [ok_or]. rewrite (has_key_false key acc x entries Hnd), <- app_assoc, Hval; [|done|].
    + rewrite IH; [by rewrite <- app_assoc|done|by rewrite <- app_assoc|done|done|done|cbn in Hr; lia].
    + eapply rows_within; [done|done|]. destruct after; [done|]. cbn in *. lia.
Qed.

Lemma shows_length lines rows : shows lines rows -> length lines = length rows.
Proof. apply Forall2_length. Qed.

Lemma entry_rows_count indent entries : (length entries <= length (flat_map (entry_rows indent) entries))%nat.
Proof.
  induction entries as [|[key x] entries IH]; [done|]. cbn [flat_map]. rewrite length_app.
  destruct (mapping_rows indent key x []) as (c & rows & -> & _). cbn. lia.
Qed.

(** A row behind a dash is that row, two columns further in. *)
Lemma behind_dash tail : (exists l, tail = 34 :: l) -> ascii tail -> trim_start (32 :: tail) = tail.
Proof.
  intros [l ->] Ha. unfold trim_start. rewrite chars_ascii by (constructor; [lia|done]).
  cbn [map]. assert (forall t, drop_while is_whitespace ([32] :: t) = drop_while is_whitespace t) as -> by done.
  rewrite drop_while_solid by apply solid_quote.
  cbn. by rewrite concat_map_singleton.
Qed.

Lemma content_is_ascii l : content_ok l -> ascii l.
Proof. intros [Ha _ _ _ _]. eapply Forall_impl; [exact Ha|]. cbn. intros. lia. Qed.

Lemma read_item indent x :
  item_ok n x ->
  exists content rows, item_rows indent x = (indent, content) :: rows /\ is_item content = true /\
    forall line lines after, l_content line = content -> shows lines rows -> within indent after ->
      parse_item block line indent (lines ++ after) = Ok (x, after).
Proof.
  intros Hx. assert (forall l, trim_start l = [] -> forall line after rest v, l_content line = 45 :: l -> block_ok n v ->
    shows rest (print_block (indent + 2) v) -> within indent after -> parse_item block line indent (rest ++ after) = Ok (v, after)) as Hdeep.
  { intros l Hl line after rest v Hc Hv Hs Ha. unfold parse_item. rewrite Hc. cbn [tl]. rewrite Hl, bool_decide_eq_true_2 by done.
    pose proof (read_nested indent v rest after 0 Hv Hs Ha) as Hr. unfold value_of in Hr. by rewrite bool_decide_eq_true_2 in Hr. }
  destruct x as [s|[|y ys]|es|]; cbn [item_rows].
  - destruct Hx as [Hx|Hx]; [|done]. eexists _, _. split; [done|]. split; [done|]. intros line lines after Hc Hs Ha. inversion Hs.
    unfold parse_item. rewrite Hc. cbn [tl app]. rewrite behind_dash by (by eexists || by apply quoted_ascii).
    rewrite bool_decide_eq_false_2, no_key_quoted, scalar_quoted by done. done.
  - eexists _, _. split; [done|]. split; [done|]. intros line lines after Hc Hs Ha. inversion Hs. unfold parse_item. rewrite Hc. done.
  - destruct Hx as [Hx|Hx]; [done|]. eexists _, _. split; [done|]. split; [done|]. intros line lines after Hc Hs Ha. by apply (Hdeep []).
  - destruct Hx as [Hx|(Hne & Hnd & Hall)]; [done|]. destruct es as [|[key v] es]; [done|].
    apply Forall_cons in Hall as [He Hall]. destruct (mapping_rows (indent + 2) key v es) as (c & rows & Hrows & [tail Htail] & ->). cbn [dash].
    destruct (read_entry (indent + 2) key v He) as (c' & rows' & rest & Heq & _ & Hkey & Hval). rewrite Heq in Hrows. injection Hrows as -> ->.
    assert (ascii c) as Hascii.
    { pose proof (entry_rows_ok n (indent + 2) (key, v) (print_block_ok n) He) as Hok. rewrite Heq in Hok.
      apply Forall_cons in Hok as [Hok _]. by apply content_is_ascii. }
    eexists _, _. split; [done|]. split; [done|]. intros line lines after Hc Hs Ha. apply shows_app_inv in Hs as (l1 & l2 & -> & Hs1 & Hs2).
    unfold parse_item. rewrite Hc. cbn [app tl]. rewrite (behind_dash c (ex_intro _ tail Htail) Hascii).
    rewrite bool_decide_eq_false_2 by by rewrite Htail. rewrite Hkey. cbn [length].
    replace (indent + (S (S (length c)) - length c))%nat with (indent + 2)%nat by lia.
    assert (within (indent + 2) after) as Ha2 by (destruct after; [done|]; cbn in *; lia).
    rewrite <- app_assoc, Hval; [|done|by eapply rows_within].
    rewrite (read_item_rows (indent + 2) es [(key, v)]); [done|done|done|done| |lia|].
    + destruct after; [done|]. cbn in *. lia.
    + rewrite length_app, (shows_length _ _ Hs2). pose proof (entry_rows_count (indent + 2) es). lia.
  - eexists _, _. split; [done|]. split; [done|]. intros line lines after Hc Hs Ha. inversion Hs. unfold parse_item. rewrite Hc. cbn [tl app].
    pose proof (read_empty indent 0 after Ha) as Hr. unfold value_of in Hr. by rewrite bool_decide_eq_true_2 in Hr.
Qed.

Lemma items_within indent items lines after :
  shows lines (flat_map (item_rows indent) items) -> Forall (item_ok n) items -> within indent after -> within indent (lines ++ after).
Proof.
  intros Hs Hall Ha. destruct Hall as [|x items Hx _]; [by inversion Hs|]. cbn [flat_map] in Hs.
  destruct (read_item indent x Hx) as (c & rows & Heq & _). rewrite Heq in Hs.
  apply shows_cons_inv in Hs as (line & lines' & -> & Hi & _). cbn. lia.
Qed.

Lemma read_sequence indent items : forall acc rounds lines after,
  Forall (item_ok n) items -> shows lines (flat_map (item_rows indent) items) -> within (indent - 1) after ->
  (0 < indent \/ after = [])%nat -> (length items <= rounds)%nat ->
  sequence_rounds block rounds indent acc (lines ++ after) = Ok (Sequence (acc ++ items), after).
Proof.
  induction items as [|x items IH]; intros acc rounds lines after Hall Hs Ha Hz Hr.
  - inversion Hs. subst lines. cbn [app]. rewrite app_nil_r. destruct rounds as [|rounds]; [done|].
    destruct after as [|next after]; [done|]. cbn [sequence_rounds]. cbn in Ha. destruct Hz; [|done].
    destruct (Nat.ltb_spec (l_indent next) indent); [done|lia].
  - apply Forall_cons in Hall as [Hx Hall]. destruct rounds as [|rounds]; [cbn in Hr; lia|]. cbn [flat_map] in Hs.
    destruct (read_item indent x Hx) as (c & rows & Heq & Hitem & Hval). rewrite Heq in Hs. cbn [app] in Hs.
    apply shows_cons_inv in Hs as (line & lines' & -> & Hi & Hc & Hs). apply shows_app_inv in Hs as (l1 & l2 & -> & Hs1 & Hs2).
    cbn [app sequence_rounds]. rewrite Hi. destruct (Nat.ltb_spec indent indent); [lia|]. rewrite Hc, Hitem. cbn [negb].
    rewrite <- app_assoc, (Hval line); [|done|done|].
    + rewrite IH; [by rewrite <- app_assoc|done|done|done|done|cbn in Hr; lia].
    + eapply items_within; [done|done|]. destruct after; [done|]. cbn in *. lia.
Qed.

Lemma item_rows_count indent items : Forall (item_ok n) items -> (length items <= length (flat_map (item_rows indent) items))%nat.
Proof.
  induction 1 as [|x items Hx _ IH]; [done|]. cbn [flat_map]. rewrite length_app.
  destruct (read_item indent x Hx) as (c & rows & -> & _). cbn. lia.
Qed.
End Read.

(** A block is read back, at any level the reader still allows. *)
Lemma read_block n : forall levels indent v lines after,
  (n <= levels)%nat -> block_ok n v -> shows lines (print_block indent v) -> within (indent - 1) after ->
  (0 < indent \/ after = [])%nat -> parse_block levels (lines ++ after) indent = Ok (v, after).
Proof.
  induction n as [|n IH]; intros levels indent v lines after Hle Hv Hs Ha Hz; [done|].
  destruct levels as [|levels]; [lia|].
  assert (forall indent v lines after, block_ok n v -> shows lines (print_block indent v) -> within (indent - 1) after -> (0 < indent)%nat ->
    parse_block levels (lines ++ after) indent = Ok (v, after)) as Hblock.
  { intros i x l a Hx Hl Hw Hi. apply IH; [lia|done..|by left]. }
  destruct (block_first (S n) indent v Hv) as (c & rows & Hp). pose proof Hs as Hs'. rewrite Hp in Hs'.
  apply shows_cons_inv in Hs' as (line & lines' & Hlines & Hi & Hc & _). cbn [parse_block]. rewrite Hlines at 1. cbn [app]. rewrite Hc.
  apply block_ok_cases in Hv as (m & [= <-] & [(entries & -> & Hne & Hnd & Hall)|(items & -> & Hne & Hall)]).
  - assert (is_item c = false) as ->.
    { destruct entries as [|[key x] entries]; [done|]. destruct (mapping_rows indent key x entries) as (c' & rows' & _ & [tail Htail] & Hp').
      rewrite Hp in Hp'. injection Hp' as -> _. by rewrite Htail. }
    rewrite print_mapping in Hs. rewrite (read_mapping n (parse_block levels) Hblock indent entries []); try done.
    rewrite length_app, (shows_length _ _ Hs). pose proof (entry_rows_count indent entries). lia.
  - assert (is_item c = true) as ->.
    { destruct items as [|x items]; [done|]. pose proof Hall as Hall'. apply Forall_cons in Hall' as [Hx _].
      destruct (read_item n (parse_block levels) Hblock indent x Hx) as (c' & rows' & Heq & Hitem & _).
      rewrite print_sequence in Hp. cbn [flat_map] in Hp. rewrite Heq in Hp. injection Hp as -> _. done. }
    rewrite print_sequence in Hs. rewrite (read_sequence n (parse_block levels) Hblock indent items []); try done.
    rewrite length_app, (shows_length _ _ Hs). pose proof (item_rows_count n (parse_block levels) Hblock indent items Hall). lia.
Qed.

Lemma print_bytes_ok n v : block_ok n v -> bytes_ok (flat_map print_row (print_block 0 v)).
Proof.
  intros Hv. apply print_block_ok with (indent := 0%nat) in Hv. induction Hv as [|[i l] rows [Ha _ _ _ _] _ IH]; [constructor|].
  cbn [flat_map]. apply Forall_app. split; [|done]. unfold print_row. cbn [fst snd] in *.
  assert (Forall u8 [10]) as H10 by (constructor; [unfold u8, U8_MAX; lia|constructor]).
  apply Forall_app. split; [|apply Forall_app; split; [|done]].
  - apply Forall_forall. intros b Hb. apply elem_of_replicate in Hb as [-> _]. unfold u8, U8_MAX. lia.
  - eapply Forall_impl; [exact Ha|]. unfold u8, U8_MAX. cbn. intros. lia.
Qed.

Lemma parse_print n v : (n <= S MAX_DEPTH)%nat -> block_ok n v -> parse (print v) = Ok v.
Proof.
  intros Hn Hv. unfold parse, print. rewrite bytes_of_string_of_bytes by by eapply print_bytes_ok.
  pose proof (print_block_ok _ 0 v Hv) as Hok. rewrite lines_rows by done.
  destruct (read_rows 1 _ Hok) as (lines & -> & Hs). cbn [result_rect].
  destruct (block_first _ 0 v Hv) as (c & rows & Hp). pose proof Hs as Hs'. rewrite Hp in Hs'.
  apply shows_cons_inv in Hs' as (line & lines' & Hlines & Hi & _). rewrite Hlines at 1.
  rewrite Hi. rewrite <- (app_nil_r lines). rewrite (read_block n (S MAX_DEPTH) 0 v lines []); try done. by right.
Qed.

(** C39. Documents read back: every tree that is a non-empty mapping or sequence, built of
    non-empty mappings with distinct keys, sequences, nulls and scalars, its keys and scalars
    of printable ASCII without double quotes and backslashes, and nested no deeper than the
    reader allows, has a document that parses to exactly that tree. *)
Theorem yaml_roundtrip n v : (n <= S MAX_DEPTH)%nat -> block_ok n v -> parse (print v) = Ok v.
Proof. apply parse_print. Qed.

(** ** The rounds suffice *)

(** A loop of the parser is given as many rounds as there are lines, and takes a line in
    each: more rounds change nothing. *)
Section Rounds.
Context (block : list Line -> nat -> result YamlError (YamlValue * list Line)).
Context (Hblock : forall lines indent v rest, block lines indent = Ok (v, rest) -> (length rest <= length lines)%nat).

Lemma value_shrinks text number indent lines v rest :
  value_of block text number indent lines = Ok (v, rest) -> (length rest <= length lines)%nat.
Proof.
  unfold value_of, child_value. case_bool_decide.
  - destruct lines as [|next lines]; [by intros [= _ <-]|]. destruct (_ <? _)%nat; [apply Hblock|by intros [= _ <-]].
  - destruct (parse_inline_scalar text number); [|done]. by intros [= _ <-].
Qed.

Lemma mapping_rounds_more indent r1 : forall r2 entries lines,
  (length lines <= r1)%nat -> (length lines <= r2)%nat ->
  mapping_rounds block r1 indent entries lines = mapping_rounds block r2 indent entries lines.
Proof.
  induction r1 as [|r1 IH]; intros r2 entries lines H1 H2.
  { destruct lines; [|cbn in H1; lia]. by destruct r2. }
  destruct lines as [|line after]; [by destruct r2|]. destruct r2 as [|r2]; [cbn in H2; lia|]. cbn [mapping_rounds].
  repeat (destruct (_ <? _)%nat; [done|]). destruct (is_item _); [done|]. destruct (split_key _ _) as [[key rest]|]; [|done].
  destruct (has_key key entries); [done|]. destruct (value_of _ _ _ _ _) as [[v lines]|] eqn:Ev; [|done].
  apply value_shrinks in Ev. cbn in H1, H2. apply IH; lia.
Qed.

Lemma item_rounds_more column r1 : forall r2 entries lines,
  (length lines <= r1)%nat -> (length lines <= r2)%nat ->
  item_rounds block r1 column entries lines = item_rounds block r2 column entries lines.
Proof.
  induction r1 as [|r1 IH]; intros r2 entries lines H1 H2.
  { destruct lines; [|cbn in H1; lia]. by destruct r2. }
  destruct lines as [|line after]; [by destruct r2|]. destruct r2 as [|r2]; [cbn in H2; lia|]. cbn [item_rounds].
  destruct (_ || _); [done|]. destruct (split_key _ _) as [[key rest]|]; [|done].
  destruct (has_key key entries); [done|]. destruct (value_of _ _ _ _ _) as [[v lines]|] eqn:Ev; [|done].
  apply value_shrinks in Ev. cbn in H1, H2. apply IH; lia.
Qed.

Lemma mapping_rounds_shrink indent rounds : forall entries lines v rest,
  mapping_rounds block rounds indent entries lines = Ok (v, rest) -> (length rest <= length lines)%nat.
Proof.
  induction rounds as [|rounds IH]; intros entries lines v rest; [destruct lines; by intros [= _ <-]|].
  destruct lines as [|line after]; [by intros [= _ <-]|]. cbn [mapping_rounds].
  destruct (_ <? _)%nat; [by intros [= _ <-]|]. destruct (_ <? _)%nat; [done|]. destruct (is_item _); [done|].
  destruct (split_key _ _) as [[key text]|]; [|done]. destruct (has_key key entries); [done|].
  destruct (value_of _ _ _ _ _) as [[x lines]|] eqn:Ev; [|done]. apply value_shrinks in Ev. intros Hm. apply IH in Hm. cbn. lia.
Qed.

Lemma item_rounds_shrink column rounds : forall entries lines v rest,
  item_rounds block rounds column entries lines = Ok (v, rest) -> (length rest <= length lines)%nat.
Proof.
  induction rounds as [|rounds IH]; intros entries lines v rest; [destruct lines; by intros [= _ <-]|].
  destruct lines as [|line after]; [by intros [= _ <-]|]. cbn [item_rounds].
  destruct (_ || _); [by intros [= _ <-]|]. destruct (split_key _ _) as [[key text]|]; [|done]. destruct (has_key key entries); [done|].
  destruct (value_of _ _ _ _ _) as [[x lines]|] eqn:Ev; [|done]. apply value_shrinks in Ev. intros Hm. apply IH in Hm. cbn. lia.
Qed.

Lemma item_shrinks line indent after v rest :
  parse_item block line indent after = Ok (v, rest) -> (length rest <= length after)%nat.
Proof.
  unfold parse_item. case_bool_decide.
  - unfold child_value. destruct after as [|next after]; [by intros [= _ <-]|]. destruct (_ <? _)%nat; [apply Hblock|by intros [= _ <-]].
  - destruct (try_split_key _) as [[key text]|].
    + destruct (value_of _ _ _ _ _) as [[x lines]|] eqn:Ev; [|done]. apply value_shrinks in Ev. intros Hm.
      apply item_rounds_shrink in Hm. lia.
    + destruct (parse_inline_scalar _ _); [|done]. by intros [= _ <-].
Qed.

Lemma sequence_rounds_more indent r1 : forall r2 items lines,
  (length lines <= r1)%nat -> (length lines <= r2)%nat ->
  sequence_rounds block r1 indent items lines = sequence_rounds block r2 indent items lines.
Proof.
  induction r1 as [|r1 IH]; intros r2 items lines H1 H2.
  { destruct lines; [|cbn in H1; lia]. by destruct r2. }
  destruct lines as [|line after]; [by destruct r2|]. destruct r2 as [|r2]; [cbn in H2; lia|]. cbn [sequence_rounds].
  repeat (destruct (_ <? _)%nat; [done|]). destruct (negb _); [done|].
  destruct (parse_item _ _ _ _) as [[v lines]|] eqn:Ev; [|done]. apply item_shrinks in Ev. cbn in H1, H2. apply IH; lia.
Qed.

Lemma sequence_rounds_shrink indent rounds : forall items lines v rest,
  sequence_rounds block rounds indent items lines = Ok (v, rest) -> (length rest <= length lines)%nat.
Proof.
  induction rounds as [|rounds IH]; intros items lines v rest; [destruct lines; by intros [= _ <-]|].
  destruct lines as [|line after]; [by intros [= _ <-]|]. cbn [sequence_rounds].
  destruct (_ <? _)%nat; [by intros [= _ <-]|]. destruct (_ <? _)%nat; [done|]. destruct (negb _); [by intros [= _ <-]|].
  destruct (parse_item _ _ _ _) as [[x lines]|] eqn:Ev; [|done]. apply item_shrinks in Ev. intros Hm. apply IH in Hm. cbn. lia.
Qed.
End Rounds.

Lemma block_shrinks levels : forall lines indent v rest,
  parse_block levels lines indent = Ok (v, rest) -> (length rest <= length lines)%nat.
Proof.
  induction levels as [|levels IH]; intros lines indent v rest; [done|]. cbn [parse_block].
  destruct lines as [|line lines]; [by intros [= _ <-]|].
  destruct (is_item _); [by apply sequence_rounds_shrink|by apply mapping_rounds_shrink].
Qed.

(** So the loops of a block, given more rounds, read the same. *)
Lemma block_rounds levels lines line after indent more :
  lines = line :: after -> (length lines <= more)%nat ->
  parse_block (S levels) lines indent =
    if is_item (l_content line) then sequence_rounds (parse_block levels) more indent [] lines
    else mapping_rounds (parse_block levels) more indent [] lines.
Proof.
  intros -> Hm. cbn [parse_block]. pose proof (block_shrinks levels) as Hb.
  destruct (is_item _); [by apply sequence_rounds_more|by apply mapping_rounds_more].
Qed.

Definition sample_document : YamlValue :=
  Mapping [("schemaVersion", Scalar "arkforge.device-profile/v1");
           ("modes", Sequence [Mapping [("id", Scalar "loader"); ("aliases", Sequence [Scalar "rockusb"; YNull])]; Scalar "#: [x]"]);
           ("storage", Mapping [("kind", Scalar "emmc"); ("empty", Sequence []); ("open", YNull)])]%string.

Lemma sample_document_ok : block_ok 3 sample_document.
Proof.
  assert (forall s, forallb (fun b => (32 <=? b) && (b <=? 126) && negb (b =? 34) && negb (b =? 92)) (bytes_of_string s) = true -> quotable s) as Hq.
  { intros s Hs. apply Forall_forall. intros b Hb. rewrite list_elem_of_In in Hb. rewrite forallb_forall in Hs. apply Hs in Hb.
    unfold quotable_byte. lia. }
  assert (forall l : list string, bool_decide (NoDup l) = true -> NoDup l) as Hnd by (intros l; apply bool_decide_eq_true_1).
  cbn [block_ok sample_document].
  repeat first [ split; [discriminate|] | split; [apply Hnd; reflexivity|] | apply Forall_cons_2 | apply Forall_nil_2
    | split; [apply Hq; reflexivity|] | left; apply Hq; reflexivity | left; exact I | right; cbn ].
Qed.

Lemma yaml_roundtrip_witness : parse (print sample_document) = Ok sample_document.
Proof. apply (yaml_roundtrip 3 sample_document); [unfold MAX_DEPTH; lia|exact sample_document_ok]. Defined.

(** ** Where two readers disagree *)

Definition newline : string := string_of_bytes [10].

(** An apostrophe inside a plain word opens a quotation for the scans: the comment behind it
    stays in the value, and the alias is not refused. *)
Example apostrophe_hides_comment : parse "note: it's fine # not part of it" = Ok (Mapping [("note", Scalar "it's fine # not part of it")])%string.
Proof. vm_compute. reflexivity. Qed.

Example apostrophe_hides_alias : parse "list: [it's, *alias]" = Ok (Mapping [("list", Sequence [Scalar "it's, *alias"])])%string.
Proof. vm_compute. reflexivity. Qed.

(** A document start in the middle joins two documents into one. *)
Example document_start_joins :
  parse ("a: 1" +:+ newline +:+ "---" +:+ newline +:+ "b: 2")%string = Ok (Mapping [("a", Scalar "1"); ("b", Scalar "2")])%string.
Proof. vm_compute. reflexivity. Qed.
