(* ===== verification/ProfileLoad.v ===== *)
(** * Loading profile documents (crates/arkforge-core/src/profile.rs, [load])

    A profile document read field by field from its YAML tree, validated, and checked against
    the digest it pins.  What loads is a valid profile of well-formed facts; every valid
    profile has a document that loads as it. *)

From stdpp Require Import pretty.
From S2P Require Import Prelude Cbor Sha256 Digest Fields Text Identity Effect Verification Profile Yaml ShippedProfile.

(** What a refused field is said to be. *)
Inductive BadDetail : Type :=
| LabelNotScalar
| LabelEmpty
| LabelTooLong (len : Z)
| LabelPadded
| BadIdentifier (e : IdError)
| BadMode (e : EffectError)
| BadHex (e : DigestParseError)
| NotAVersion
| NotABoolean (text : string)
| NotANumber (text : string)
| NotANumberOrUnknown (text : string)
| NoModelListed
| NotAPolicy
| NotAWriteDomain
| NotAReadDomain
| UnknownStrength
| UnknownState (text : string)
| DigestFailed (e : CborError).

Inductive ProfileError : Type :=
| Invalid (e : ProfileInvalid)
| ProfileYaml (e : YamlError)
| MissingField (field : string)
| BadField (field : string) (detail : BadDetail)
| DigestMismatch (expected computed : Sha256Digest).

Definition loaded (A : Type) : Type := result ProfileError A.

Definition missing {A} (field : string) : loaded A := Err (MissingField field).
Definition bad {A} (field : string) (detail : BadDetail) : loaded A := Err (BadField field detail).

(** [value.get(key).and_then(YamlValue::as_scalar)], and the same for a sequence. *)
Definition get_scalar (value : YamlValue) (key : string) : option string := get value key ≫= as_scalar.
Definition get_sequence (value : YamlValue) (key : string) : option (list YamlValue) := get value key ≫= as_sequence.

(** [path.rsplit('.').next()]. *)
Definition last_segment (path : string) : string := string_of_bytes (List.last (split_on 46 (bytes_of_string path)) []).

Definition scalar (value : YamlValue) (path : string) : loaded string :=
  ok_or (get_scalar value (last_segment path)) (MissingField path).

Definition required_scalar (value : YamlValue) (key path : string) : loaded string :=
  ok_or (get_scalar value key) (MissingField path).

Definition identifier_of (path text : string) : loaded OpaqueId :=
  map_err (fun e => BadField path (BadIdentifier e)) (OpaqueId_new text).

Definition identifier (value : YamlValue) (key path : string) : loaded OpaqueId :=
  let? text := required_scalar value key path in identifier_of path text.

Definition mode_of (path text : string) : loaded DeviceMode :=
  map_err (fun e => BadField path (BadMode e)) (DeviceMode_new text).

Definition mode_at (value : YamlValue) (path : string) : loaded DeviceMode :=
  let? text := scalar value path in mode_of path text.

Definition padded (text : bytes) : bool :=
  negb (bool_decide (trim text = text)) || existsb is_control (chars text).

Definition identity_label (value : YamlValue) (path : string) : loaded string :=
  match as_scalar value with
  | None => bad path LabelNotScalar
  | Some text =>
      if str_len text =? 0 then bad path LabelEmpty
      else if MAX_IDENTITY_LABEL_LEN <? str_len text then bad path (LabelTooLong (str_len text))
      else if padded (bytes_of_string text) then bad path LabelPadded
      else Ok text
  end.

Definition boolean (value : YamlValue) (key path : string) : loaded bool :=
  match get_scalar value key with
  | Some text =>
      if String.eqb text "true" then Ok true
      else if String.eqb text "false" then Ok false
      else bad path (NotABoolean text)
  | None => missing path
  end.

(** Decimal, [0x] hexadecimal and [_] separators. *)
Definition parse_number (text : string) : option Z :=
  let cleaned := List.filter (fun c => negb (c =? 95)) (bytes_of_string text) in
  match strip_prefix [48; 120] cleaned with
  | Some hex => from_str_radix 16 hex
  | None =>
      match strip_prefix [48; 88] cleaned with
      | Some hex => from_str_radix 16 hex
      | None => from_str_radix 10 cleaned
      end
  end.

Definition optional_unsigned (value : YamlValue) (key path : string) : loaded (option Z) :=
  let? text := required_scalar value key path in
  if String.eqb text "unknown" then Ok None
  else ok_or (Some <$> parse_number text) (BadField path (NotANumberOrUnknown text)).

Definition unsigned (value : YamlValue) (key path : string) : loaded Z :=
  let? text := required_scalar value key path in ok_or (parse_number text) (BadField path (NotANumber text)).

Definition data_impact_state (text : string) : option DataImpactState :=
  if String.eqb text "preserved" then Some Preserved
  else if String.eqb text "overwritten" then Some Overwritten
  else if String.eqb text "unknown" then Some UnknownImpact
  else None.

(** [items.iter().map(..).collect::<Result<Vec<_>, _>>()], which ends at the first error. *)
Fixpoint load_each {A B} (load : A -> loaded B) (items : list A) : loaded (list B) :=
  match items with
  | [] => Ok []
  | item :: items => let? b := load item in let? rest := load_each load items in Ok (b :: rest)
  end.

(** The same over [enumerate()], the index as it stands in the field's name. *)
Fixpoint labels_from (path : string) (index : nat) (items : list YamlValue) : loaded (list string) :=
  match items with
  | [] => Ok []
  | item :: items =>
      let? label := identity_label item (path +:+ "[" +:+ pretty index +:+ "]") in
      let? rest := labels_from path (S index) items in Ok (label :: rest)
  end.

(** [filter_map(YamlValue::as_scalar)]. *)
Definition scalars (items : list YamlValue) : list string := omap as_scalar items.

(** ** The blocks of a document *)

Section Blocks.
Local Open Scope string_scope.

Definition load_expected (profile_block : YamlValue) : loaded (option Sha256Digest) :=
  match get_scalar profile_block "expectedDigest" with
  | Some text =>
      let hex := default (bytes_of_string text) (strip_prefix (bytes_of_string "sha256:") (bytes_of_string text)) in
      let? digest := map_err (fun e => BadField "profile.expectedDigest" (BadHex e)) (parse_hex (string_of_bytes hex)) in
      Ok (Some digest)
  | None => Ok None
  end.

Definition load_models (identity_block : YamlValue) : loaded (list string) :=
  let? values := ok_or (get_sequence identity_block "productModels") (MissingField "identity.productModels") in
  if is_nil values then bad "identity.productModels" NoModelListed
  else labels_from "identity.productModels" 0 values.

Definition load_soc (identity_block : YamlValue) : loaded SocIdentity :=
  let? soc_block := ok_or (get identity_block "soc") (MissingField "identity.soc") in
  let? vendor := identifier soc_block "vendor" "identity.soc.vendor" in
  let? family := identifier soc_block "family" "identity.soc.family" in
  Ok (mkSoc vendor family).

Definition load_revisions (identity_block : YamlValue) : loaded HardwareRevisionPolicy :=
  let? revisions_block := ok_or (get identity_block "hardwareRevisions") (MissingField "identity.hardwareRevisions") in
  match get_scalar revisions_block "anyRevisionEvidence" with
  | Some evidence =>
      let? evidence_ref := identifier_of "identity.hardwareRevisions.anyRevisionEvidence" evidence in
      Ok (AnyRevision evidence_ref)
  | None =>
      let? values := ok_or (get_sequence revisions_block "allow") (MissingField "identity.hardwareRevisions.allow") in
      let? allow := labels_from "identity.hardwareRevisions.allow" 0 values in
      Ok (Allow allow)
  end.

Definition load_provider (entry : YamlValue) : loaded ProviderCombination :=
  let? text := scalar entry "providers[].minimumVersion" in
  let? minimum := ok_or (version_parse text) (BadField "providers[].minimumVersion" NotAVersion) in
  let? maximum := ok_or (get_scalar entry "maximumVersionExclusive" ≫= version_parse)
                    (MissingField "providers[].maximumVersionExclusive") in
  let? provider := identifier entry "id" "providers[].id" in
  let? backend := identifier entry "backend" "providers[].backend" in
  Ok (mkCombination provider backend minimum maximum).

Definition load_mode (entry : YamlValue) : loaded ModeDeclaration :=
  let? id := mode_at entry "modes[].id" in
  let? aliases := match get_sequence entry "aliases" with
                  | Some items => load_each (mode_of "modes[].aliases") (scalars items)
                  | None => Ok []
                  end in
  Ok (mkModeDeclaration id aliases).

(** The casts [as u16] keep the low bits of the number. *)
Definition load_usb (entry : YamlValue) : loaded UsbModeIdentity :=
  let? mode := mode_at entry "usbIdentities[].mode" in
  let? vendor := unsigned entry "vendorId" "usbIdentities[].vendorId" in
  let? product := unsigned entry "productId" "usbIdentities[].productId" in
  let? evidence_ref := identifier entry "evidenceRef" "usbIdentities[].evidenceRef" in
  Ok (mkUsbMode mode (wrap 16 vendor) (wrap 16 product) evidence_ref).

Definition load_policy (entry : YamlValue) (path : string) : loaded IdentityFieldPolicy :=
  let? text := scalar entry path in ok_or (policy_parse text) (BadField path NotAPolicy).

Definition load_rebind (rebind_block : YamlValue) : loaded RebindTolerance :=
  let? disconnect := boolean rebind_block "requireDisconnect" "modeTransitions[].rebind.requireDisconnect" in
  let? window := unsigned rebind_block "toleranceWindowMs" "modeTransitions[].rebind.toleranceWindowMs" in
  let? malformed := boolean rebind_block "tolerateTransientMalformed"
                      "modeTransitions[].rebind.tolerateTransientMalformed" in
  Ok (mkRebind disconnect window malformed).

Definition load_transition (entry : YamlValue) : loaded ModeTransition :=
  let? rebind_block := ok_or (get entry "rebind") (MissingField "modeTransitions[].rebind") in
  let? from := mode_at entry "modeTransitions[].from" in
  let? to := mode_at entry "modeTransitions[].to" in
  let? action := identifier entry "action" "modeTransitions[].action" in
  let? serial := load_policy entry "modeTransitions[].serialPolicy" in
  let? topology := load_policy entry "modeTransitions[].topologyPolicy" in
  let? tolerance := load_rebind rebind_block in
  Ok (mkTransition from to action tolerance serial topology).

(** The cast [as u32] keeps the low bits. *)
Definition load_storage (document : YamlValue) : loaded StorageDeclaration :=
  let? storage_block := ok_or (get document "storage") (MissingField "storage") in
  let? kind := identifier storage_block "kind" "storage.kind" in
  let? size := optional_unsigned storage_block "logicalBlockSize" "storage.logicalBlockSize" in
  Ok (mkStorage kind (wrap 32 <$> size)).

Definition load_read_domain (document : YamlValue) : loaded ReadDomainPolicy :=
  let? read_block := ok_or (get document "readDomain") (MissingField "readDomain") in
  let? write_text := scalar read_block "readDomain.write" in
  let? write := ok_or (write_domain_parse write_text) (BadField "readDomain.write" NotAWriteDomain) in
  let? read_text := scalar read_block "readDomain.read" in
  let? read := ok_or (read_domain_parse read_text) (BadField "readDomain.read" NotAReadDomain) in
  let? filler := optional_unsigned read_block "erasedMediumFiller" "readDomain.erasedMediumFiller" in
  Ok (mkReadDomain write read (wrap 8 <$> filler)).

Definition load_target (entry : YamlValue) : loaded AllowedTarget :=
  let? verification_block := ok_or (get entry "verification") (MissingField "allowedTargets[].verification") in
  let? fallback_block := ok_or (get verification_block "fallback")
                           (MissingField "allowedTargets[].verification.fallback") in
  let? partition_text := scalar entry "allowedTargets[].partition" in
  let? partition := identifier_of "allowedTargets[].partition" partition_text in
  let? order := unsigned entry "writeOrder" "allowedTargets[].writeOrder" in
  let? offset := unsigned entry "offsetSectors" "allowedTargets[].offsetSectors" in
  let? strength_text := scalar verification_block "allowedTargets[].verification.maxStrengthWhenReadable" in
  let? strength := ok_or (strength_parse strength_text)
                     (BadField "allowedTargets[].verification.maxStrengthWhenReadable" UnknownStrength) in
  let? semantics := boolean fallback_block "writeCompletionSemantics"
                      "allowedTargets[].verification.fallback.writeCompletionSemantics" in
  let? postflight := boolean fallback_block "buildPostflight"
                       "allowedTargets[].verification.fallback.buildPostflight" in
  Ok (mkTarget partition (wrap 32 order) offset (get_scalar entry "sourceMember")
        (mkVerification strength (mkFallback semantics postflight))).

Definition load_axis (impact_block : YamlValue) (key : string) : loaded DataImpactState :=
  let? text := required_scalar impact_block key ("dataImpact." +:+ key) in
  ok_or (data_impact_state text) (BadField ("dataImpact." +:+ key) (UnknownState text)).

Definition load_impact (document : YamlValue) : loaded DataImpact :=
  let? impact_block := ok_or (get document "dataImpact") (MissingField "dataImpact") in
  let? user := load_axis impact_block "userdata" in
  let? calibration := load_axis impact_block "calibration" in
  let? config := load_axis impact_block "nonVolatileConfig" in
  let? secure := load_axis impact_block "secureStorage" in
  Ok (mkImpact user calibration config secure).

Definition load_recovery (document : YamlValue) : loaded RecoveryDeclaration :=
  match get document "recovery" with
  | None => Ok recovery_unsupported
  | Some block =>
      if is_null block then Ok recovery_unsupported
      else
        let? supports := boolean block "supportsCompleteOverwrite" "recovery.supportsCompleteOverwrite" in
        let? version := ok_or (get_scalar block "version" ≫= version_parse) (MissingField "recovery.version") in
        let? covered := load_each (identifier_of "recovery.coveredEffects")
                          (scalars (default [] (get_sequence block "coveredEffects"))) in
        Ok (mkDeclaration supports version covered (scalars (default [] (get_sequence block "unsupportedStates"))))
  end.

Definition load_document (document : YamlValue) : loaded DeviceProfile :=
  let? schema_version := required_scalar document "schemaVersion" "schemaVersion" in
  let? profile_block := ok_or (get document "profile") (MissingField "profile") in
  let? id := identifier profile_block "id" "profile.id" in
  let? version_text := scalar profile_block "profile.version" in
  let? version := ok_or (version_parse version_text) (BadField "profile.version" NotAVersion) in
  let? expected_digest := load_expected profile_block in
  let? identity_block := ok_or (get document "identity") (MissingField "identity") in
  let? product_models := load_models identity_block in
  let? soc := load_soc identity_block in
  let? hardware_revisions := load_revisions identity_block in
  let? provider_entries := ok_or (get_sequence document "providers") (MissingField "providers") in
  let? providers := load_each load_provider provider_entries in
  let? format_entries := ok_or (get document "artifactCompatibility" ≫= fun block => get_sequence block "formats")
                           (MissingField "artifactCompatibility.formats") in
  let? artifact_formats := load_each (identifier_of "artifactCompatibility.formats") (scalars format_entries) in
  let known_metadata_members :=
    scalars (default [] (get document "artifactCompatibility" ≫= fun block => get_sequence block "knownMetadataMembers")) in
  let? mode_entries := ok_or (get_sequence document "modes") (MissingField "modes") in
  let? modes := load_each load_mode mode_entries in
  let? usb_identities := load_each load_usb (default [] (get_sequence document "usbIdentities")) in
  let? mode_transitions := load_each load_transition (default [] (get_sequence document "modeTransitions")) in
  let? storage := load_storage document in
  let? read_domain := load_read_domain document in
  let? allowed_targets := load_each load_target (default [] (get_sequence document "allowedTargets")) in
  let? protected_targets := load_each (identifier_of "protectedTargets")
                              (scalars (default [] (get_sequence document "protectedTargets"))) in
  let? data_impact := load_impact document in
  let? recovery := load_recovery document in
  let? evidence_refs := load_each (identifier_of "evidenceRefs")
                          (scalars (default [] (get_sequence document "evidenceRefs"))) in
  let profile := mkDeviceProfile schema_version id version product_models soc hardware_revisions providers
    artifact_formats known_metadata_members modes usb_identities mode_transitions storage read_domain
    allowed_targets protected_targets data_impact recovery evidence_refs in
  let? _ := map_err Invalid (profile_validate profile) in
  match expected_digest with
  | Some expected =>
      let? computed := map_err (fun e => BadField "digest" (DigestFailed e)) (profile_digest_of profile) in
      if negb (bool_decide (computed = expected)) then Err (DigestMismatch expected computed) else Ok profile
  | None => Ok profile
  end.
End Blocks.

Definition load (source : string) : loaded DeviceProfile :=
  let? document := map_err ProfileYaml (parse source) in load_document document.

(** ** What loads is well formed *)

(** Take the successful steps of a loader apart. *)
Ltac load_inv H :=
  repeat match type of H with
  | (match ?m with Ok _ => _ | Err _ => Err _ end) = Ok _ =>
      let x := fresh "x" in let E := fresh "E" in
      destruct m as [x|x] eqn:E; cbn beta iota in H; [|discriminate H]
  end.

Lemma ok_or_Ok {E A} (o : option A) (e : E) a : ok_or o e = Ok a <-> o = Some a.
Proof. destruct o; cbn; split; congruence. Qed.

Lemma map_err_Ok {E F A} (f : E -> F) (r : result E A) a : map_err f r = Ok a <-> r = Ok a.
Proof. destruct r; cbn; split; congruence. Qed.

Lemma load_each_Ok {A B} (load : A -> loaded B) items l :
  load_each load items = Ok l <-> Forall2 (fun item b => load item = Ok b) items l.
Proof.
  revert l; induction items as [|item items IH]; intros l; cbn.
  { split; [intros [= <-]; constructor|by inversion 1]. }
  split.
  - intros H. load_inv H. injection H as <-. constructor; [done|]. by apply IH.
  - inversion 1 as [|? b ? k Hb Hk]; subst. apply IH in Hk. by rewrite Hb, Hk.
Qed.

Lemma load_each_all {A B} (load : A -> loaded B) (P : B -> Prop) items l :
  (forall item b, load item = Ok b -> P b) -> load_each load items = Ok l -> Forall P l.
Proof. rewrite load_each_Ok. intros HP. induction 1; constructor; eauto. Qed.

Lemma identifier_of_ok path text i : identifier_of path text = Ok i -> id_ok i /\ as_str i = text.
Proof. unfold identifier_of. intros H%map_err_Ok. by apply id_ok_new. Qed.

Lemma identifier_ok value key path i : identifier value key path = Ok i -> id_ok i.
Proof. unfold identifier. intros H. load_inv H. by apply identifier_of_ok in H as [? _]. Qed.

Lemma mode_of_ok path text m : mode_of path text = Ok m -> mode_ok m.
Proof.
  unfold mode_of. intros H%map_err_Ok. unfold mode_ok. assert (mode_str m = text) as ->; [|done].
  unfold DeviceMode_new in H. repeat case_match; by inversion H.
Qed.

Lemma mode_at_ok value path m : mode_at value path = Ok m -> mode_ok m.
Proof. unfold mode_at. intros H. load_inv H. by apply mode_of_ok in H. Qed.

Lemma parse_digits_u32 l acc v : u32 acc -> parse_digits acc l = Some v -> u32 v.
Proof.
  revert acc; induction l as [|b l IH]; intros acc Ha; cbn [parse_digits]; [by intros [= <-]|].
  destruct (in_range 48 57 b) eqn:E; [|done]. case_match; [|done]. breflect. apply IH.
  unfold in_range in E. breflect. zlia.
Qed.

Lemma parse_u32_ok l v : parse_u32 l = Some v -> u32 v.
Proof. unfold parse_u32. repeat case_match; try done; apply parse_digits_u32; zlia. Qed.

Lemma version_parse_ok text v : version_parse text = Some v -> version_ok v.
Proof.
  unfold version_parse. intros H. repeat (case_match; try discriminate H). injection H as <-.
  repeat split; cbn; by eapply parse_u32_ok.
Qed.

Lemma radix_digits_max radix acc l v : acc <= U64_MAX -> radix_digits radix acc l = Some v -> v <= U64_MAX.
Proof.
  revert acc; induction l as [|c l IH]; intros acc Ha; cbn; [by intros [= <-]|].
  repeat (case_match; try done). breflect. by apply IH.
Qed.

Lemma from_str_radix_u64 radix l v : 0 <= radix -> from_str_radix radix l = Some v -> u64 v.
Proof.
  intros Hr H. split; [by eapply from_str_radix_nonneg|].
  unfold from_str_radix in H. repeat (case_match; try done); by (eapply radix_digits_max; [|exact H]).
Qed.

Lemma parse_number_u64 text n : parse_number text = Some n -> u64 n.
Proof. unfold parse_number. repeat case_match; by apply from_str_radix_u64. Qed.

Lemma unsigned_u64 value key path n : unsigned value key path = Ok n -> u64 n.
Proof. unfold unsigned. intros H. load_inv H. by apply ok_or_Ok, parse_number_u64 in H. Qed.

Lemma wrap_u (w : Z) n : 0 <= w -> 0 <= wrap w n <= 2 ^ w - 1.
Proof. intros Hw. unfold wrap. pose proof (Z.mod_pos_bound n (2 ^ w)). lia. Qed.

Lemma wrap_option (w : Z) (o : option Z) n : 0 <= w -> wrap w <$> o = Some n -> 0 <= n <= 2 ^ w - 1.
Proof. intros Hw. destruct o; cbn; [|done]. intros [= <-]. by apply wrap_u. Qed.

(** A label is what an operator can read: bounded, without padding or control characters. *)
Definition label_ok (text : string) : Prop :=
  0 < str_len text <= MAX_IDENTITY_LABEL_LEN /\ padded (bytes_of_string text) = false.

Lemma identity_label_Ok value path text :
  identity_label value path = Ok text <-> value = Scalar text /\ label_ok text.
Proof.
  unfold identity_label, label_ok. pose proof (zlen_nonneg (bytes_of_string text)) as Hn.
  destruct value; cbn; try (split; [done|by intros [? _]]).
  unfold str_len in *. split.
  - intros H. destruct (Z.eqb_spec (zlen (bytes_of_string text0)) 0); [done|].
    destruct (Z.ltb_spec MAX_IDENTITY_LABEL_LEN (zlen (bytes_of_string text0))); [done|].
    destruct (padded _) eqn:E; [done|]. injection H as ->. split_and!; try done; lia.
  - intros ([= ->] & Hl & ->). destruct (Z.eqb_spec (zlen (bytes_of_string text)) 0); [lia|].
    destruct (Z.ltb_spec MAX_IDENTITY_LABEL_LEN (zlen (bytes_of_string text))); [lia|done].
Qed.

Lemma labels_ok path index items l : labels_from path index items = Ok l -> items = map Scalar l /\ Forall label_ok l.
Proof.
  revert index l; induction items as [|item items IH]; intros index l H; cbn in H; [by injection H as <-|].
  load_inv H. injection H as <-. apply identity_label_Ok in E as [-> ?]. apply IH in E0 as [-> ?]. split; [done|by constructor].
Qed.

Lemma load_provider_ok entry c : load_provider entry = Ok c -> combination_ok c.
Proof.
  unfold load_provider. intros H. load_inv H. injection H as <-.
  apply ok_or_Ok, version_parse_ok in E0. apply ok_or_Ok, bind_Some in E1 as (? & _ & E1).
  apply version_parse_ok in E1. by apply identifier_ok in E2, E3.
Qed.

Lemma load_mode_ok entry m : load_mode entry = Ok m -> mode_declaration_ok m.
Proof.
  unfold load_mode. intros H. load_inv H. injection H as <-. apply mode_at_ok in E. split; [done|].
  destruct (get_sequence entry "aliases"); [|by injection E0 as <-].
  eapply load_each_all; [|exact E0]. intros item b. apply mode_of_ok.
Qed.

Lemma load_usb_ok entry u : load_usb entry = Ok u -> usb_ok u.
Proof.
  unfold load_usb. intros H. load_inv H. injection H as <-. apply mode_at_ok in E. apply identifier_ok in E2.
  split_and!; try done; by apply (wrap_u 16).
Qed.

Lemma load_rebind_ok block r : load_rebind block = Ok r -> u64 (tolerance_window_ms r).
Proof. unfold load_rebind. intros H. load_inv H. injection H as <-. by apply unsigned_u64 in E0. Qed.

Lemma load_transition_ok entry t : load_transition entry = Ok t -> transition_ok t.
Proof.
  unfold load_transition. intros H. load_inv H. injection H as <-. apply mode_at_ok in E0, E1. apply identifier_ok in E2.
  by apply load_rebind_ok in E5.
Qed.

Lemma load_storage_ok document s : load_storage document = Ok s -> storage_ok s.
Proof.
  unfold load_storage. intros H. load_inv H. injection H as <-. apply identifier_ok in E0. split; [done|].
  intros n. by apply (wrap_option 32).
Qed.

Lemma load_read_domain_ok document r : load_read_domain document = Ok r -> read_policy_ok r.
Proof. unfold load_read_domain. intros H. load_inv H. injection H as <-. intros n. by apply (wrap_option 8). Qed.

Lemma load_target_ok entry t : load_target entry = Ok t -> target_ok t.
Proof.
  unfold load_target. intros H. load_inv H. injection H as <-. apply identifier_of_ok in E2 as [? _].
  apply unsigned_u64 in E4. split_and!; [done|by apply (wrap_u 32)|done].
Qed.

Lemma load_recovery_ok document d : load_recovery document = Ok d -> declaration_ok d.
Proof.
  unfold load_recovery. intros H. destruct (get document "recovery") as [block|]; [destruct (is_null block)|];
    [injection H as <-; by repeat constructor..| |injection H as <-; by repeat constructor].
  load_inv H. injection H as <-. apply ok_or_Ok, bind_Some in E0 as (? & _ & E0). apply version_parse_ok in E0.
  split; [done|]. eapply load_each_all; [|exact E1]. intros ? ? ?%identifier_of_ok. tauto.
Qed.

Lemma identifiers_ok path items l : load_each (identifier_of path) items = Ok l -> Forall id_ok l.
Proof. apply load_each_all. intros ? ? ?%identifier_of_ok. tauto. Qed.

(** The digest a document pins. *)
Definition pinned_digest (source : string) : option Sha256Digest :=
  match parse source with
  | Ok document =>
      get document "profile" ≫= fun block => match load_expected block with Ok pin => pin | Err _ => None end
  | Err _ => None
  end.

Lemma load_models_ok block l : load_models block = Ok l -> l <> [] /\ Forall label_ok l.
Proof.
  unfold load_models. intros H. load_inv H. destruct x as [|v x]; [done|]. apply labels_ok in H as [Hx ?].
  split; [|done]. by intros ->.
Qed.

Lemma load_revisions_ok block h :
  load_revisions block = Ok h ->
  (forall e, h = AnyRevision e -> id_ok e) /\ (forall l, h = Allow l -> Forall label_ok l).
Proof.
  unfold load_revisions. intros H. load_inv H. destruct (get_scalar _ _); load_inv H; injection H as <-.
  - apply identifier_of_ok in E0 as [? _]. split; [by intros e [= <-]|done].
  - apply labels_ok in E1 as [_ ?]. split; [done|by intros l [= <-]].
Qed.

Lemma load_soc_ok block s : load_soc block = Ok s -> soc_ok s.
Proof. unfold load_soc. intros H. load_inv H. injection H as <-. by apply identifier_ok in E0, E1. Qed.

(** What loading leaves to check once the fields are read. *)
Lemma load_document_Ok document p :
  load_document document = Ok p ->
  profile_validate p = Ok tt /\
  profile_typed p /\
  (product_models p <> [] /\ Forall label_ok (product_models p) /\
   forall l, hardware_revisions p = Allow l -> Forall label_ok l) /\
  exists block, get document "profile" = Some block /\
    exists pin, load_expected block = Ok pin /\ forall d, pin = Some d -> profile_digest_of p = Ok d.
Proof.
  unfold load_document. intros H. load_inv H.
  match type of H with (match ?pin with _ => _ end) = _ => rename pin into expected end.
  match type of E0 with ok_or _ _ = Ok ?b => rename b into profile_block end.
  match goal with E : map_err Invalid (profile_validate ?q) = Ok ?u |- _ => destruct u; apply map_err_Ok in E; rename E into Hv;
    remember q as profile eqn:Hprofile end.
  assert (p = profile) as ->.
  { destruct expected; [|by injection H]. load_inv H. case_match; [done|]. by injection H. }
  split; [done|]. split; [|split].
  - repeat match goal with
    | E : load_each (identifier_of _) _ = Ok _ |- _ => apply identifiers_ok in E
    | E : load_recovery _ = Ok _ |- _ => apply load_recovery_ok in E
    | E : load_storage _ = Ok _ |- _ => apply load_storage_ok in E
    | E : load_read_domain _ = Ok _ |- _ => apply load_read_domain_ok in E
    | E : load_soc _ = Ok _ |- _ => apply load_soc_ok in E
    | E : load_revisions _ = Ok _ |- _ => apply load_revisions_ok in E as [? ?]
    | E : load_each load_provider _ = Ok _ |- _ => apply (load_each_all _ combination_ok) in E; [|apply load_provider_ok]
    | E : load_each load_mode _ = Ok _ |- _ => apply (load_each_all _ mode_declaration_ok) in E; [|apply load_mode_ok]
    | E : load_each load_usb _ = Ok _ |- _ => apply (load_each_all _ usb_ok) in E; [|apply load_usb_ok]
    | E : load_each load_transition _ = Ok _ |- _ => apply (load_each_all _ transition_ok) in E; [|apply load_transition_ok]
    | E : load_each load_target _ = Ok _ |- _ => apply (load_each_all _ target_ok) in E; [|apply load_target_ok]
    | E : identifier _ _ _ = Ok _ |- _ => apply identifier_ok in E
    | E : ok_or (version_parse _) _ = Ok _ |- _ => apply ok_or_Ok, version_parse_ok in E
    end.
    subst profile. by constructor.
  - repeat match goal with
    | E : load_models _ = Ok _ |- _ => apply load_models_ok in E as [? ?]
    | E : load_revisions _ = Ok _ |- _ => apply load_revisions_ok in E as [? ?]
    end. by subst profile.
  - exists profile_block. apply ok_or_Ok in E0. split; [done|]. exists expected. split; [done|]. intros d ->.
    load_inv H. case_match; [done|]. breflect. subst.
    match goal with E : map_err _ _ = Ok _ |- _ => by apply map_err_Ok in E end.
Qed.

(** C30. Whatever document loads, the profile is valid, every identifier, mode name, version and
    number in it is well formed and within its machine type, the labels are bounded and
    free of padding and control characters, at least one model is named, and the profile
    has the digest the document pins. *)
Theorem load_sound source p :
  load source = Ok p ->
  profile_valid p /\ profile_typed p /\
  (product_models p <> [] /\ Forall label_ok (product_models p) /\
   forall l, hardware_revisions p = Allow l -> Forall label_ok l) /\
  (forall d, pinned_digest source = Some d -> profile_digest_of p = Ok d).
Proof.
  unfold load, pinned_digest. intros H. load_inv H. apply map_err_Ok in E. rewrite E.
  apply load_document_Ok in H as (Hv & Ht & (?&?&?) & block & Hb & pin & Hp & Hd). rewrite Hb. cbn. rewrite Hp.
  split_and!; [by apply profile_validate_iff|done..].
Qed.

(** The shipped profile loads, and nothing is missing for an executable plan. *)
Example dayu200_loads :
  match load dayu200_yaml with
  | Ok p => as_str (device_id p) = "org.openharmony.dayu200"%string /\ permits_executable_plan p = true /\
            map (fun t => as_str (target_partition t)) (sort_by write_order_leb (allowed_targets p)) =
              ["uboot"; "resource"; "boot_linux"; "ramdisk"; "system"; "vendor"; "updater"; "chip_ckm"; "userdata"]%string
  | Err _ => False
  end.
Proof. vm_compute. split; [reflexivity|]. split; reflexivity. Qed.

Lemma load_sound_witness : match load dayu200_yaml with Ok p => profile_valid p | Err _ => False end.
Proof.
  destruct (load dayu200_yaml) as [p|e] eqn:E; [by destruct (load_sound _ _ E)|].
  assert (is_ok (load dayu200_yaml) = true) as H by (vm_compute; reflexivity). by rewrite E in H.
Defined.

(** ** What the loader takes without a word *)

Section Silent.
Local Open Scope string_scope.

(** The casts keep the low bits of a number that does not fit: a vendor id of 74247 is read
    as 8711, and a block size of 2^32 + 512 as 512. *)
Example vendor_id_wraps :
  load_usb (Mapping [("mode", Scalar "loader"); ("vendorId", Scalar "74247"); ("productId", Scalar "0x350a");
                     ("evidenceRef", Scalar "AD-1")]) =
  Ok (mkUsbMode (mkMode "loader") 8711 13578 (mkId "AD-1")).
Proof. vm_compute. reflexivity. Qed.

Example block_size_wraps :
  load_storage (Mapping [("storage", Mapping [("kind", Scalar "emmc"); ("logicalBlockSize", Scalar "4294967808")])]) =
  Ok (mkStorage (mkId "emmc") (Some 512)).
Proof. vm_compute. reflexivity. Qed.
End Silent.
