(* ===== verification/ProfileRound.v ===== *)
(** * Profile documents read back (crates/arkforge-core/src/profile.rs)

    The document of a profile, as a tree and then as text; loading it gives the profile, with
    every field where it was and the pinned digest checked. *)

From S2P Require Import Prelude Cbor Sha256 Digest Fields Text Identity Effect Verification Profile.
From S2P Require Import Yaml YamlRound ProfileLoad.

(** ** The document of a profile *)

Definition number_text (n : Z) : string := string_of_bytes (decimal_rounds 20 n).
Definition optional_text (o : option Z) : string := match o with Some n => number_text n | None => "unknown" end.
Definition boolean_text (b : bool) : string := if b then "true" else "false".
Definition strings (l : list string) : YamlValue := Sequence (map Scalar l).
Definition ids (l : list OpaqueId) : YamlValue := strings (map as_str l).

Section Documents.
Local Open Scope string_scope.

Definition provider_entry (c : ProviderCombination) : YamlValue :=
  Mapping [("id", Scalar (as_str (combination_provider c))); ("backend", Scalar (as_str (combination_backend c)));
           ("minimumVersion", Scalar (version_to_string (minimum_version c)));
           ("maximumVersionExclusive", Scalar (version_to_string (maximum_version_exclusive c)))].

Definition mode_entry (m : ModeDeclaration) : YamlValue :=
  Mapping [("id", Scalar (mode_str (mode_id m))); ("aliases", strings (map mode_str (mode_aliases m)))].

Definition usb_entry (u : UsbModeIdentity) : YamlValue :=
  Mapping [("mode", Scalar (mode_str (usb_mode u))); ("vendorId", Scalar (number_text (vendor_id u)));
           ("productId", Scalar (number_text (product_id u))); ("evidenceRef", Scalar (as_str (usb_evidence_ref u)))].

Definition rebind_block (r : RebindTolerance) : YamlValue :=
  Mapping [("requireDisconnect", Scalar (boolean_text (require_disconnect r)));
           ("toleranceWindowMs", Scalar (number_text (tolerance_window_ms r)));
           ("tolerateTransientMalformed", Scalar (boolean_text (tolerate_transient_malformed r)))].

Definition transition_entry (t : ModeTransition) : YamlValue :=
  Mapping [("from", Scalar (mode_str (transition_from t))); ("to", Scalar (mode_str (transition_to t)));
           ("action", Scalar (as_str (transition_action t))); ("serialPolicy", Scalar (policy_as_str (serial_policy t)));
           ("topologyPolicy", Scalar (policy_as_str (topology_policy t))); ("rebind", rebind_block (rebind t))].

Definition fallback_block (f : VerificationFallback) : YamlValue :=
  Mapping [("writeCompletionSemantics", Scalar (boolean_text (write_completion_semantics f)));
           ("buildPostflight", Scalar (boolean_text (build_postflight f)))].

Definition verification_block (v : TargetVerificationDeclaration) : YamlValue :=
  Mapping [("maxStrengthWhenReadable", Scalar (strength_as_str (max_strength_when_readable v)));
           ("fallback", fallback_block (verification_fallback v))].

Definition target_entry (t : AllowedTarget) : YamlValue :=
  Mapping ([("partition", Scalar (as_str (target_partition t))); ("writeOrder", Scalar (number_text (write_order t)));
            ("offsetSectors", Scalar (number_text (offset_sectors t)));
            ("verification", verification_block (target_verification t))]
           ++ match source_member t with Some member => [("sourceMember", Scalar member)] | None => [] end).

Definition revisions_block (h : HardwareRevisionPolicy) : YamlValue :=
  match h with
  | Allow revisions => Mapping [("allow", strings revisions)]
  | AnyRevision evidence => Mapping [("anyRevisionEvidence", Scalar (as_str evidence))]
  end.

Definition soc_block (s : SocIdentity) : YamlValue :=
  Mapping [("vendor", Scalar (as_str (soc_vendor s))); ("family", Scalar (as_str (soc_family s)))].

Definition identity_block (p : DeviceProfile) : YamlValue :=
  Mapping [("productModels", strings (product_models p)); ("soc", soc_block (soc p));
           ("hardwareRevisions", revisions_block (hardware_revisions p))].

Definition pin_text (d : Sha256Digest) : string := "sha256:" +:+ to_hex d.

Definition profile_block (p : DeviceProfile) (pin : option Sha256Digest) : YamlValue :=
  Mapping ([("id", Scalar (as_str (device_id p))); ("version", Scalar (version_to_string (device_version p)))]
           ++ match pin with Some d => [("expectedDigest", Scalar (pin_text d))] | None => [] end).

Definition storage_block (s : StorageDeclaration) : YamlValue :=
  Mapping [("kind", Scalar (as_str (storage_kind s))); ("logicalBlockSize", Scalar (optional_text (logical_block_size s)))].

Definition read_block (r : ReadDomainPolicy) : YamlValue :=
  Mapping [("write", Scalar (write_domain_as_str (write_face r))); ("read", Scalar (read_domain_as_str (read_face r)));
           ("erasedMediumFiller", Scalar (optional_text (erased_medium_filler r)))].

Definition impact_block (d : DataImpact) : YamlValue :=
  Mapping [("userdata", Scalar (impact_as_str (userdata d))); ("calibration", Scalar (impact_as_str (calibration d)));
           ("nonVolatileConfig", Scalar (impact_as_str (non_volatile_config d)));
           ("secureStorage", Scalar (impact_as_str (secure_storage d)))].

Definition recovery_block (r : RecoveryDeclaration) : YamlValue :=
  Mapping [("supportsCompleteOverwrite", Scalar (boolean_text (supports_complete_overwrite r)));
           ("version", Scalar (version_to_string (declaration_version r)));
           ("coveredEffects", ids (covered_effects r)); ("unsupportedStates", strings (unsupported_states r))].

Definition compatibility_block (p : DeviceProfile) : YamlValue :=
  Mapping [("formats", ids (artifact_formats p)); ("knownMetadataMembers", strings (known_metadata_members p))].

Definition document_of (p : DeviceProfile) (pin : option Sha256Digest) : YamlValue :=
  Mapping [("schemaVersion", Scalar (profile_schema_version p)); ("profile", profile_block p pin);
           ("identity", identity_block p); ("providers", Sequence (map provider_entry (providers p)));
           ("artifactCompatibility", compatibility_block p); ("modes", Sequence (map mode_entry (modes p)));
           ("usbIdentities", Sequence (map usb_entry (usb_identities p)));
           ("modeTransitions", Sequence (map transition_entry (mode_transitions p)));
           ("storage", storage_block (storage p)); ("readDomain", read_block (read_domain p));
           ("allowedTargets", Sequence (map target_entry (allowed_targets p)));
           ("protectedTargets", ids (protected_targets p)); ("dataImpact", impact_block (device_data_impact p));
           ("recovery", recovery_block (recovery p)); ("evidenceRefs", ids (evidence_refs p))].
End Documents.

(** ** Scalars read back *)

Lemma bytes_of_text l : Forall (fun b => 0 <= b < 128) l -> bytes_of_string (string_of_bytes l) = l.
Proof. intros H. apply bytes_of_string_of_bytes. eapply Forall_impl; [exact H|]. cbn. intros. zlia. Qed.

Lemma radix_digits_app radix acc l k :
  radix_digits radix acc (l ++ k) = match radix_digits radix acc l with Some a => radix_digits radix a k | None => None end.
Proof. revert acc; induction l as [|c l IH]; intros acc; cbn; [done|]. repeat (case_match; try done). Qed.

Lemma radix_digit acc d : 0 <= d < 10 -> acc * 10 + d <= U64_MAX -> radix_digits 10 acc [48 + d] = Some (acc * 10 + d).
Proof.
  intros Hd Hm. cbn [radix_digits]. rewrite digit_value_digit by done. destruct (Z.ltb_spec d 10); [|lia].
  by destruct (Z.leb_spec (acc * 10 + d) U64_MAX); [|lia].
Qed.

Lemma radix_decimal n z : 0 <= z < 10 ^ Z.of_nat n -> z <= U64_MAX -> radix_digits 10 0 (decimal_rounds n z) = Some z.
Proof.
  revert z; induction n as [|n IH]; intros z Hz Hm; [change (10 ^ Z.of_nat 0) with 1 in Hz; by replace z with 0 by lia|].
  pose proof (Z.mod_pos_bound z 10 ltac:(lia)). pose proof (Z.div_mod z 10 ltac:(lia)).
  cbn [decimal_rounds]. rewrite radix_digits_app.
  assert (radix_digits 10 0 (if z <? 10 then [] else decimal_rounds n (z / 10)) = Some (z / 10)) as ->.
  { destruct (Z.ltb_spec z 10); [by rewrite Z.div_small by lia|].
    rewrite Nat2Z.inj_succ, Z.pow_succ_r in Hz by lia. apply IH; [|lia].
    split; [apply Z.div_pos; lia|apply Z.div_lt_upper_bound; lia]. }
  rewrite radix_digit by lia. f_equal. lia.
Qed.

Lemma number_digits n : u64 n -> digit_bytes (decimal_rounds 20 n).
Proof. intros [? _]. by apply decimal_digits. Qed.

Lemma digits_ascii l : digit_bytes l -> Forall (fun b => 0 <= b < 128) l.
Proof. intros H. eapply Forall_impl; [exact H|]. cbn. lia. Qed.

Lemma decimal_nonempty n z : decimal_rounds (S n) z <> [].
Proof. cbn [decimal_rounds]. by intros [_ ?]%app_eq_nil. Qed.

Lemma parse_number_text n : u64 n -> parse_number (number_text n) = Some n.
Proof.
  intros Hn. pose proof (number_digits n Hn) as Hd. unfold parse_number, number_text.
  rewrite bytes_of_text by by apply digits_ascii.
  assert (radix_digits 10 0 (decimal_rounds 20 n) = Some n) as Hr.
  { apply radix_decimal; [|by destruct Hn]. change (10 ^ Z.of_nat 20) with 100000000000000000000. ints. lia. }
  assert (List.filter (fun c => negb (c =? 95)) (decimal_rounds 20 n) = decimal_rounds 20 n) as ->.
  { clear Hr. induction Hd as [|b l Hb _ IH]; [done|]. cbn. destruct (Z.eqb_spec b 95); [lia|]. cbn. by rewrite IH. }
  pose proof (decimal_nonempty 19 n) as Hne. destruct (decimal_rounds 20 n) as [|b l]; [done|].
  inversion Hd as [|? ? Hb Hl]; subst. assert (strip_prefix [48; 120] (b :: l) = None /\ strip_prefix [48; 88] (b :: l) = None) as [-> ->].
  { destruct l as [|c l]; cbn [strip_prefix]; [by split; destruct (48 =? b)|]. inversion Hl; subst.
    destruct (Z.eqb_spec 120 c), (Z.eqb_spec 88 c); try lia. by split; destruct (48 =? b). }
  unfold from_str_radix. repeat case_match; try done; lia.
Qed.

(** Quotable text: what identifiers, numbers and versions are written with. *)
Lemma quotable_digits l : digit_bytes l -> quotable (string_of_bytes l).
Proof.
  intros H. unfold quotable. rewrite bytes_of_text by by apply digits_ascii.
  eapply Forall_impl; [exact H|]. unfold quotable_byte. cbn. lia.
Qed.

Lemma quotable_number n : u64 n -> quotable (number_text n).
Proof. intros. by apply quotable_digits, number_digits. Qed.

Lemma quotable_id i : id_ok i -> quotable (as_str i).
Proof.
  intros (_ & _ & H)%OpaqueId_new_Ok. eapply Forall_impl; [exact H|]. intros b Hb. unfold quotable_byte.
  unfold id_char, in_range in Hb. repeat (apply orb_true_iff in Hb as [Hb|Hb]); breflect; lia.
Qed.

Lemma quotable_mode m : mode_ok m -> quotable (mode_str m).
Proof.
  intros [_ H]%mode_ok_chars. eapply Forall_impl; [exact H|]. intros b Hb. unfold quotable_byte.
  unfold mode_char, in_range in Hb. repeat (apply orb_true_iff in Hb as [Hb|Hb]); breflect; lia.
Qed.

Lemma quotable_version v : version_ok v -> quotable (version_to_string v).
Proof.
  intros (Ha & Hb & Hc). unfold quotable, version_to_string.
  assert (forall z, u32 z -> Forall quotable_byte (decimal z)) as Hd.
  { intros z [Hz _]. eapply Forall_impl; [by apply (decimal_digits 10)|]. unfold quotable_byte. cbn. lia. }
  assert (quotable_byte 46) by (unfold quotable_byte; lia).
  rewrite bytes_of_string_of_bytes.
  - rewrite !Forall_app. split_and!; auto.
  - unfold bytes_ok. rewrite !Forall_app. assert (forall z, u32 z -> Forall u8 (decimal z)) as Hd8
      by (intros z Hz; eapply Forall_impl; [by apply Hd|]; unfold quotable_byte; intros; zlia).
    split_and!; auto; repeat constructor; zlia.
Qed.

Lemma quotable_closed (s : string) :
  forallb (fun b => (32 <=? b) && (b <=? 126) && negb (b =? 34) && negb (b =? 92)) (bytes_of_string s) = true -> quotable s.
Proof.
  rewrite forallb_forall. intros H. apply Forall_forall. intros b Hb%list_elem_of_In. apply H in Hb. unfold quotable_byte. lia.
Qed.

(** ** Blocks load back *)

Lemma get_here key v entries : get (Mapping ((key, v) :: entries)) key = Some v.
Proof. unfold get. cbn. by rewrite String.eqb_refl. Qed.

Lemma get_skip other key v entries :
  String.eqb other key = false -> get (Mapping ((other, v) :: entries)) key = get (Mapping entries) key.
Proof. intros H. unfold get. cbn. by rewrite H. Qed.

Lemma get_none key : get (Mapping []) key = None.
Proof. done. Qed.

(** Settle the lookups of literal keys in the mappings of a goal. *)
Ltac lookups :=
  unfold scalar, required_scalar, get_scalar, get_sequence;
  repeat match goal with |- context [last_segment ?s] => let k := eval vm_compute in (last_segment s) in change (last_segment s) with k end;
  repeat first [rewrite get_here | rewrite get_skip by reflexivity | rewrite get_none];
  cbn [option_bind mbind as_scalar as_sequence ok_or from_option id app].

Lemma identifier_text path i : id_ok i -> identifier_of path (as_str i) = Ok i.
Proof. intros H. unfold identifier_of. by rewrite H. Qed.

Lemma mode_text path m : mode_ok m -> mode_of path (mode_str m) = Ok m.
Proof. intros H. unfold mode_of. by rewrite H. Qed.

Lemma scalars_strings l : scalars (map Scalar l) = l.
Proof. induction l as [|s l IH]; [done|]. unfold scalars in *. cbn. by rewrite IH. Qed.

Lemma load_each_map {A B C} (load : A -> loaded B) (f : C -> A) (g : C -> B) l :
  Forall (fun c => load (f c) = Ok (g c)) l -> load_each load (map f l) = Ok (map g l).
Proof. induction 1 as [|c l Hc _ IH]; cbn; [done|]. by rewrite Hc, IH. Qed.

Lemma load_each_back {A B} (load : A -> loaded B) (f : B -> A) l :
  Forall (fun b => load (f b) = Ok b) l -> load_each load (map f l) = Ok l.
Proof. intros H. rewrite (load_each_map load f id) by done. by rewrite map_id. Qed.

Lemma load_ids path l : Forall id_ok l -> load_each (identifier_of path) (map as_str l) = Ok l.
Proof. intros H. apply load_each_back. eapply Forall_impl; [exact H|]. apply identifier_text. Qed.

Lemma load_labels path index l : Forall label_ok l -> labels_from path index (map Scalar l) = Ok l.
Proof.
  intros H. revert index. induction H as [|s l Hs _ IH]; intros index; cbn [map labels_from]; [done|].
  rewrite (proj2 (identity_label_Ok _ _ s)) by done. by rewrite IH.
Qed.

Lemma boolean_back value key path b : get_scalar value key = Some (boolean_text b) -> boolean value key path = Ok b.
Proof. unfold boolean. intros ->. by destruct b. Qed.

Lemma unsigned_back value key path n : get_scalar value key = Some (number_text n) -> u64 n -> unsigned value key path = Ok n.
Proof. unfold unsigned, required_scalar. intros -> Hn. cbn [ok_or]. by rewrite parse_number_text. Qed.

Lemma optional_back value key path o :
  (forall n, o = Some n -> u64 n) -> get_scalar value key = Some (optional_text o) -> optional_unsigned value key path = Ok o.
Proof.
  intros Ho. unfold optional_unsigned, required_scalar. intros ->. cbn [ok_or]. destruct o as [n|]; [|done].
  specialize (Ho n eq_refl). pose proof (parse_number_text n Ho) as Hp. cbn [optional_text].
  destruct (String.eqb_spec (number_text n) "unknown") as [E|_]; [|by rewrite Hp].
  rewrite E in Hp. by vm_compute in Hp.
Qed.

Lemma identifier_back value key path i : get_scalar value key = Some (as_str i) -> id_ok i -> identifier value key path = Ok i.
Proof. unfold identifier, required_scalar. intros -> Hi. by apply identifier_text. Qed.

(** The rewriting of a loader over a block it reads back. *)
Ltac fields_back :=
  repeat first
    [ erewrite boolean_back by (lookups; reflexivity)
    | erewrite unsigned_back by first [lookups; reflexivity | eassumption]
    | erewrite identifier_back by first [lookups; reflexivity | eassumption] ];
  lookups; rewrite ?mode_text, ?identifier_text, ?version_roundtrip, ?strength_parse_str, ?read_domain_parse_str by done;
  cbn [option_bind mbind ok_or].

Lemma provider_back c : combination_ok c -> load_provider (provider_entry c) = Ok c.
Proof. intros (? & ? & ? & ?). unfold load_provider, provider_entry.
 fields_back. by destruct c. Qed.

Lemma mode_back m : mode_declaration_ok m -> load_mode (mode_entry m) = Ok m.
Proof.
  intros [Hm Ha]. unfold load_mode, mode_entry, mode_at. fields_back. unfold strings. cbn [as_sequence].
  rewrite scalars_strings, load_each_back; [by destruct m|]. eapply Forall_impl; [exact Ha|]. apply mode_text.
Qed.

Lemma wrap_id w n : 0 <= n < 2 ^ w -> wrap w n = n.
Proof. apply Z.mod_small. Qed.

Lemma usb_back u : usb_ok u -> load_usb (usb_entry u) = Ok u.
Proof.
  intros (Hm & Hv & Hp & He). pose proof (u16_u64 _ Hv). pose proof (u16_u64 _ Hp).
  unfold load_usb, usb_entry, mode_at. fields_back. unfold u16, U16_MAX in *.
  rewrite !wrap_id by (change (2 ^ 16) with 65536; lia). by destruct u.
Qed.

Lemma policy_back p : policy_parse (policy_as_str p) = Some p.
Proof. by destruct p. Qed.

Lemma rebind_back r : u64 (tolerance_window_ms r) -> load_rebind (rebind_block r) = Ok r.
Proof. intros ?. unfold load_rebind, rebind_block. fields_back. by destruct r. Qed.

Lemma transition_back t : transition_ok t -> load_transition (transition_entry t) = Ok t.
Proof.
  intros (? & ? & ? & ?). unfold load_transition, transition_entry, mode_at, load_policy. fields_back.
  rewrite !policy_back. cbn [ok_or]. rewrite rebind_back by done. by destruct t.
Qed.

Lemma target_back t : target_ok t -> load_target (target_entry t) = Ok t.
Proof.
  destruct t as [partition order offset [member|] [strength [semantics postflight]]];
    unfold target_ok, target_entry, verification_block, fallback_block;
    cbn [target_partition write_order offset_sectors source_member target_verification app max_strength_when_readable
         verification_fallback write_completion_semantics build_postflight];
    intros (? & Ho & ?); pose proof (u32_u64 _ Ho); unfold load_target; do 3 fields_back;
    (rewrite wrap_id by (change (2 ^ 32) with 4294967296; ints; lia)); done.
Qed.

Lemma write_domain_back d : write_domain_parse (write_domain_as_str d) = Some d.
Proof. by destruct d. Qed.

Lemma storage_back p document : storage_ok (storage p) -> get document "storage" = Some (storage_block (storage p)) ->
  load_storage document = Ok (storage p).
Proof.
  intros [Hk Hb] Hg. unfold load_storage. rewrite Hg. cbn [ok_or]. unfold storage_block. fields_back.
  erewrite optional_back; [|by intros n ?%Hb%u32_u64|by lookups].
  destruct (storage p) as [k [n|]]; cbn; [|done]. rewrite wrap_id; [done|].
  specialize (Hb n eq_refl). change (2 ^ 32) with 4294967296. ints. lia.
Qed.

Lemma read_domain_back p document : read_policy_ok (read_domain p) -> get document "readDomain" = Some (read_block (read_domain p)) ->
  load_read_domain document = Ok (read_domain p).
Proof.
  intros Hb Hg. unfold load_read_domain. rewrite Hg. cbn [ok_or]. unfold read_block. fields_back.
  rewrite write_domain_back. cbn [ok_or].
  erewrite optional_back; [|by intros n ?%Hb%u8_u64|by lookups].
  destruct (read_domain p) as [w r [n|]]; cbn; [|done]. rewrite wrap_id; [done|].
  specialize (Hb n eq_refl). change (2 ^ 8) with 256. ints. lia.
Qed.

Lemma impact_state_back s : data_impact_state (impact_as_str s) = Some s.
Proof. by destruct s. Qed.

Lemma impact_back p document : get document "dataImpact" = Some (impact_block (device_data_impact p)) ->
  load_impact document = Ok (device_data_impact p).
Proof.
  intros Hg. unfold load_impact. rewrite Hg. cbn [ok_or]. unfold load_axis, impact_block. lookups.
  rewrite !impact_state_back. cbn. by destruct (device_data_impact p).
Qed.

Lemma recovery_back p document : declaration_ok (recovery p) -> get document "recovery" = Some (recovery_block (recovery p)) ->
  load_recovery document = Ok (recovery p).
Proof.
  intros [Hv Hc] Hg. unfold load_recovery. rewrite Hg. cbn [is_null]. unfold recovery_block, ids, strings. cbn [is_null].
  fields_back. rewrite !scalars_strings, load_ids by done. by destruct (recovery p).
Qed.

(** ** Documents the reader can read *)

Definition value_ok (n : nat) (v : YamlValue) : Prop := leaf v \/ block_ok n v.

Lemma value_scalar n s : quotable s -> value_ok n (Scalar s).
Proof. by left. Qed.

Lemma value_strings n l : Forall quotable l -> value_ok (S n) (strings l).
Proof.
  intros H. destruct l as [|s l]; [by left|]. right. cbn [block_ok strings map]. split; [done|].
  change (Scalar s :: map Scalar l) with (map Scalar (s :: l)). apply Forall_map. eapply Forall_impl; [exact H|]. by left.
Qed.

Lemma value_ids n l : Forall id_ok l -> value_ok (S n) (ids l).
Proof.
  intros H. apply value_strings, Forall_map. eapply Forall_impl; [exact H|]. apply quotable_id.
Qed.

Lemma value_mapping n entries : entries_ok n entries -> value_ok (S n) (Mapping entries).
Proof. by right. Qed.

Lemma value_sequence {A} n (f : A -> YamlValue) l :
  Forall (fun a => exists entries, f a = Mapping entries /\ entries_ok n entries) l -> value_ok (S n) (Sequence (map f l)).
Proof.
  intros H. destruct l as [|a l]; [by left|]. right. cbn [block_ok]. split; [done|].
  apply Forall_map. eapply Forall_impl; [exact H|]. intros b (entries & Hb & He). right. cbn. by rewrite Hb.
Qed.

Lemma quotable_policy p : quotable (policy_as_str p).
Proof. destruct p; by apply quotable_closed. Qed.

Lemma quotable_strength s : quotable (strength_as_str s).
Proof. destruct s; by apply quotable_closed. Qed.

Lemma quotable_boolean b : quotable (boolean_text b).
Proof. destruct b; by apply quotable_closed. Qed.

Lemma quotable_write_domain d : quotable (write_domain_as_str d).
Proof. destruct d; by apply quotable_closed. Qed.

Lemma quotable_read_domain d : quotable (read_domain_as_str d).
Proof. destruct d; by apply quotable_closed. Qed.

Lemma quotable_impact s : quotable (impact_as_str s).
Proof. destruct s; by apply quotable_closed. Qed.

Lemma quotable_optional o : (forall n, o = Some n -> u64 n) -> quotable (optional_text o).
Proof. destruct o as [n|]; intros H; [by apply quotable_number, H|by apply quotable_closed]. Qed.

Create HintDb document.

#[local] Hint Resolve quotable_id quotable_mode quotable_version quotable_number quotable_policy quotable_strength
  quotable_boolean quotable_write_domain quotable_read_domain quotable_impact value_scalar value_strings value_ids
  u16_u64 : document.

Lemma entry_value n key v : quotable key -> value_ok n v -> entry_ok n (key, v).
Proof. by split. Qed.

(** The entries of a mapping with literal keys. *)
Ltac entries_ok :=
  split; [discriminate|split; [apply (bool_decide_unpack _); vm_compute; exact I|]];
  repeat (apply Forall_cons_2; [apply entry_value; [apply quotable_closed; reflexivity|]; try solve [auto with document]|]);
  try apply Forall_nil_2.

Lemma provider_entries n c : combination_ok c -> exists entries, provider_entry c = Mapping entries /\ entries_ok n entries.
Proof. intros (? & ? & ? & ?). eexists. split; [done|]. entries_ok. Qed.

Lemma mode_entries n m : mode_declaration_ok m -> exists entries, mode_entry m = Mapping entries /\ entries_ok (S n) entries.
Proof.
  intros [? Ha]. eexists. split; [done|]. entries_ok. apply value_strings, Forall_map.
  eapply Forall_impl; [exact Ha|]. apply quotable_mode.
Qed.

Lemma usb_entries n u : usb_ok u -> exists entries, usb_entry u = Mapping entries /\ entries_ok n entries.
Proof. intros (? & ? & ? & ?). eexists. split; [done|]. entries_ok. Qed.

Lemma transition_entries n t : transition_ok t -> exists entries, transition_entry t = Mapping entries /\ entries_ok (S n) entries.
Proof.
  intros (? & ? & ? & ?). eexists. split; [done|]. entries_ok. apply value_mapping. entries_ok.
Qed.

Definition member_printable (t : AllowedTarget) : Prop := forall m, source_member t = Some m -> quotable m.

Lemma target_entries n t :
  target_ok t /\ member_printable t -> exists entries, target_entry t = Mapping entries /\ entries_ok (S (S n)) entries.
Proof.
  intros [(? & ?%u32_u64 & ?) Hm]. eexists. split; [done|]. unfold verification_block, fallback_block.
  unfold member_printable in Hm. destruct (source_member t) as [m|]; [specialize (Hm m eq_refl)|]; cbn [app]; entries_ok;
    apply value_mapping; entries_ok; apply value_mapping; entries_ok.
Qed.

(** The profiles whose texts a quoted scalar can hold. *)
Record profile_printable (p : DeviceProfile) : Prop := {
  printable_models : product_models p <> [] /\ Forall label_ok (product_models p) /\ Forall quotable (product_models p);
  printable_revisions : forall l, hardware_revisions p = Allow l -> Forall label_ok l /\ Forall quotable l;
  printable_members : Forall quotable (known_metadata_members p);
  printable_targets : Forall member_printable (allowed_targets p);
  printable_states : Forall quotable (unsupported_states (recovery p))
}.

Lemma quotable_pin d : digest_ok d -> quotable (pin_text d).
Proof.
  intros [_ Hb]. unfold quotable, pin_text. rewrite bytes_of_string_app. apply Forall_app. split; [by apply quotable_closed|].
  unfold to_hex. fold (hex_pairs (digest_bytes d)). rewrite bytes_of_string_of_bytes by by apply hex_pairs_ok.
  clear -Hb. induction Hb as [|b l Hb _ IH]; [constructor|].
  destruct (nibbles b Hb) as (H1 & H2 & _).
  assert (forall v, 0 <= v < 16 -> quotable_byte (hex_nibble v)) as Hq.
  { intros v Hv. unfold hex_nibble, quotable_byte. case_match; breflect; lia. }
  change (hex_pairs (b :: l)) with (hex_nibble (Z.shiftr b 4) :: hex_nibble (Z.land b 15) :: hex_pairs l).
  apply Forall_cons_2; [by apply Hq|]. apply Forall_cons_2; [by apply Hq|exact IH].
Qed.

Lemma document_block p pin :
  profile_valid p -> profile_typed p -> profile_printable p -> (forall d, pin = Some d -> digest_ok d) ->
  block_ok 4 (document_of p pin).
Proof.
  intros Hv [] [] Hpin. change (entries_ok 3 (match document_of p pin with Mapping entries => entries | _ => [] end)).
  unfold document_of. entries_ok.
  - rewrite (valid_schema p Hv). by apply value_scalar, quotable_closed.
  - unfold profile_block. destruct pin as [d|]; cbn [app]; apply value_mapping; entries_ok.
    by apply value_scalar, quotable_pin, Hpin.
  - apply value_mapping. unfold identity_block, soc_block, revisions_block. destruct printable_models0 as (? & ? & ?). entries_ok.
    + apply value_mapping. destruct typed_soc. entries_ok.
    + destruct (hardware_revisions p) as [l|e]; apply value_mapping; entries_ok.
      apply value_strings. by apply (printable_revisions0 l).
  - apply value_sequence. eapply Forall_impl; [exact typed_providers|]. apply provider_entries.
  - apply value_mapping. entries_ok.
  - apply value_sequence. eapply Forall_impl; [exact typed_modes|]. apply mode_entries.
  - apply value_sequence. eapply Forall_impl; [exact typed_usb|]. apply usb_entries.
  - apply value_sequence. eapply Forall_impl; [exact typed_transitions|]. apply transition_entries.
  - apply value_mapping. destruct typed_storage as [? Hs]. entries_ok.
    apply value_scalar, quotable_optional. by intros n ?%Hs%u32_u64.
  - apply value_mapping. entries_ok. apply value_scalar, quotable_optional. by intros n ?%typed_read%u8_u64.
  - apply value_sequence. eapply Forall_impl; [exact (Forall_both _ _ _ typed_targets printable_targets0)|]. apply target_entries.
  - apply value_mapping. entries_ok.
  - apply value_mapping. destruct typed_recovery. entries_ok.
Qed.

Lemma expected_back p pin : (forall d, pin = Some d -> digest_ok d) -> load_expected (profile_block p pin) = Ok pin.
Proof.
  intros Hd. unfold load_expected, profile_block. destruct pin as [d|]; cbn [app]; lookups; [|done].
  unfold pin_text. rewrite bytes_of_string_app.
  change (strip_prefix (bytes_of_string "sha256:") (bytes_of_string "sha256:" ++ bytes_of_string (to_hex d)))
    with (Some (bytes_of_string (to_hex d))).
  cbn [default from_option id]. by rewrite string_of_bytes_of_string, (parse_hex_to_hex d (Hd d eq_refl)).
Qed.

Lemma profile_id_back p pin path : id_ok (device_id p) -> identifier (profile_block p pin) "id" path = Ok (device_id p).
Proof. intros H. apply identifier_back; [|done]. unfold profile_block. destruct pin; cbn [app]; by lookups. Qed.

Lemma profile_version_back p pin :
  get (profile_block p pin) "version" = Some (Scalar (version_to_string (device_version p))).
Proof. unfold profile_block. destruct pin; cbn [app]; by lookups. Qed.

Lemma models_back p :
  product_models p <> [] -> Forall label_ok (product_models p) -> load_models (identity_block p) = Ok (product_models p).
Proof.
  intros Hne Hl. unfold load_models, identity_block. lookups. unfold strings. cbn [as_sequence ok_or].
  destruct (product_models p) as [|s l] eqn:E; [done|]. cbn [map is_nil].
  change (Scalar s :: map Scalar l) with (map Scalar (s :: l)). by apply load_labels.
Qed.

Lemma soc_back p : soc_ok (soc p) -> load_soc (identity_block p) = Ok (soc p).
Proof.
  intros [? ?]. unfold load_soc, identity_block. lookups. unfold soc_block. fields_back. by destruct (soc p).
Qed.

Lemma revisions_back p :
  (forall e, hardware_revisions p = AnyRevision e -> id_ok e) ->
  (forall l, hardware_revisions p = Allow l -> Forall label_ok l) ->
  load_revisions (identity_block p) = Ok (hardware_revisions p).
Proof.
  intros He Hl. unfold load_revisions, identity_block. lookups. unfold revisions_block.
  destruct (hardware_revisions p) as [l|e]; lookups.
  - unfold strings. cbn [as_sequence ok_or]. by rewrite load_labels by by apply Hl.
  - by rewrite identifier_text by by apply He.
Qed.

Lemma formats_back p : get (compatibility_block p) "formats" = Some (ids (artifact_formats p)).
Proof. unfold compatibility_block. by lookups. Qed.

Lemma members_back p : get (compatibility_block p) "knownMetadataMembers" = Some (strings (known_metadata_members p)).
Proof. unfold compatibility_block. by lookups. Qed.

Lemma entries_back {B} (load : YamlValue -> loaded B) (f : B -> YamlValue) (ok : B -> Prop) l :
  (forall b, ok b -> load (f b) = Ok b) -> Forall ok l -> load_each load (map f l) = Ok l.
Proof. intros H Hl. apply load_each_back. eapply Forall_impl; [exact Hl|]. exact H. Qed.

Lemma load_document_of p pin :
  profile_valid p -> profile_typed p -> profile_printable p ->
  (forall d, pin = Some d -> digest_ok d /\ profile_digest_of p = Ok d) ->
  load_document (document_of p pin) = Ok p.
Proof.
  intros Hv Ht Hprint Hpin. apply profile_validate_iff in Hv. destruct Ht, Hprint.
  destruct printable_models0 as (Hne & Hmodels & _). unfold load_document, document_of.
  lookups. rewrite profile_id_back, profile_version_back by done. cbn [mbind option_bind as_scalar ok_or].
  rewrite version_roundtrip by done. cbn [ok_or].
  rewrite expected_back by (intros d Hd; by apply Hpin).
  rewrite models_back, soc_back, revisions_back by (try done; intros l Hl; by apply printable_revisions0).
  rewrite (entries_back load_provider provider_entry combination_ok) by (try done; apply provider_back).
  rewrite formats_back, members_back. unfold ids, strings. cbn [mbind option_bind as_sequence ok_or from_option id].
  rewrite !scalars_strings, !load_ids by done.
  rewrite (entries_back load_mode mode_entry mode_declaration_ok) by (try done; apply mode_back).
  rewrite (entries_back load_usb usb_entry usb_ok) by (try done; apply usb_back).
  rewrite (entries_back load_transition transition_entry transition_ok) by (try done; apply transition_back).
  rewrite (storage_back p), (read_domain_back p), (impact_back p), (recovery_back p) by (try done; by lookups).
  rewrite (entries_back load_target target_entry target_ok) by (try done; apply target_back).
  match goal with |- context [profile_validate ?q] => replace q with p by (by destruct p) end.
  rewrite Hv. cbn [map_err]. destruct pin as [d|]; [|done].
  destruct (Hpin d eq_refl) as [_ ->]. cbn [map_err]. by rewrite bool_decide_eq_true_2.
Qed.

Lemma profile_digest_ok p d : profile_digest_of p = Ok d -> digest_ok d.
Proof. unfold profile_digest_of, digest_canonical. intros H. load_inv H. injection H as <-. apply finalize_ok. Qed.

(** C31. Every valid profile of well-formed facts and printable texts has a document, with or
    without its digest pinned, that loads as exactly that profile: no field is lost, moved
    or changed between the text, the YAML tree and the profile. *)
Theorem profile_roundtrip p pin :
  profile_valid p -> profile_typed p -> profile_printable p ->
  (forall d, pin = Some d -> profile_digest_of p = Ok d) ->
  load (print (document_of p pin)) = Ok p.
Proof.
  intros Hv Ht Hp Hpin. assert (forall d, pin = Some d -> digest_ok d) as Hok
    by (intros d Hd; by eapply profile_digest_ok, Hpin).
  unfold load. rewrite (parse_print 4) by first [by apply document_block | unfold MAX_DEPTH; lia].
  cbn [map_err]. apply load_document_of; try done. intros d Hd. auto.
Qed.

(** The pin binds the whole profile: two documents that load with the same pinned digest
    give the same profile, whatever their layout, unless the encodings of the two profiles
    are a SHA-256 collision. *)
Theorem pin_binds_profile s t p q d :
  load s = Ok p -> load t = Ok q -> pinned_digest s = Some d -> pinned_digest t = Some d ->
  profile_sized p -> profile_sized q ->
  exists bp bq,
    value_bytes p = Ok bp /\ value_bytes q = Ok bq /\
    (u64 (zlen bp) -> no_collision (as_bytes DDeviceProfile ++ bp) (as_bytes DDeviceProfile ++ bq) -> p = q).
Proof.
  unfold load, pinned_digest. intros Hp Hq Hs Ht Hsp Hsq. load_inv Hp. load_inv Hq.
  apply map_err_Ok in E, E0. rewrite E in Hs. rewrite E0 in Ht.
  apply load_document_Ok in Hp as (_ & Htp & _ & b1 & Hb1 & pin1 & Hp1 & Hd1).
  apply load_document_Ok in Hq as (_ & Htq & _ & b2 & Hb2 & pin2 & Hp2 & Hd2).
  rewrite Hb1 in Hs. rewrite Hb2 in Ht. cbn in Hs, Ht. rewrite Hp1 in Hs. rewrite Hp2 in Ht.
  specialize (Hd1 d Hs). specialize (Hd2 d Ht). unfold profile_digest_of in Hd1, Hd2.
  pose proof Hd1 as Hd1'. pose proof Hd2 as Hd2'.
  apply digest_canonical_Ok in Hd1' as (bp & Ebp & _). apply digest_canonical_Ok in Hd2' as (bq & Ebq & _).
  exists bp, bq. split_and!; [done..|]. intros Hu Hnc.
  by apply (digest_binding DDeviceProfile p q bp bq d).
Qed.

(** ** A sample *)

Section Sample.
Local Open Scope string_scope.

Definition sample_profile : DeviceProfile :=
  mkDeviceProfile PROFILE_SCHEMA_VERSION (mkId "org.example.board") (mkVersion 1 2 3) ["Example Board"]
    (mkSoc (mkId "vendor") (mkId "family")) (Allow ["rev-a"])
    [mkCombination (mkId "arkforge.rockchip") (mkId "rockusb") (mkVersion 0 1 0) (mkVersion 1 0 0)]
    [mkId "images"] ["readme.txt"]
    [mkModeDeclaration (mkMode "hdc-normal") [mkMode "normal"]; mkModeDeclaration (mkMode "loader") []]
    [mkUsbMode (mkMode "loader") 8711 13578 (mkId "AD-1")]
    [mkTransition (mkMode "normal") (mkMode "loader") (mkId "reboot") (mkRebind true 15000 false) MayChange MustMatch]
    (mkStorage (mkId "emmc") (Some 512)) (mkReadDomain FullDisk ReadCharacterizeAtRuntime (Some 204))
    [mkTarget (mkId "boot") 2 4096 None (mkVerification PrefixHash (mkFallback true false));
     mkTarget (mkId "uboot") 1 8 (Some "uboot.img") (mkVerification FullHash (mkFallback false true))]
    [mkId "misc"] (mkImpact Preserved Overwritten Preserved Preserved) recovery_unsupported [mkId "AD-1"].
End Sample.

Lemma sample_valid : profile_valid sample_profile.
Proof. apply profile_validate_iff. vm_compute. reflexivity. Qed.

Ltac sample_forall :=
  repeat match goal with |- Forall _ (_ :: _) => apply Forall_cons_2 | |- Forall _ [] => apply Forall_nil_2 end.

Lemma sample_typed : profile_typed sample_profile.
Proof.
  constructor; cbn; repeat split; sample_forall; repeat split; cbn; try done; try (by intros; simplify_eq);
    sample_forall; try done; match goal with H : _ = Some _ |- _ => by injection H as <- end.
Qed.

Lemma sample_printable : profile_printable sample_profile.
Proof.
  constructor; cbn.
  - split; [done|]. split; sample_forall; [done|by apply quotable_closed].
  - intros l [= <-]. split; sample_forall; [done|by apply quotable_closed].
  - sample_forall. by apply quotable_closed.
  - sample_forall; intros m [= <-]. by apply quotable_closed.
  - sample_forall. by apply quotable_closed.
Qed.

Definition sample_digest : Sha256Digest :=
  Eval vm_compute in match profile_digest_of sample_profile with Ok d => d | Err _ => mkDigest [] end.

Definition sample_pin : option Sha256Digest := Some sample_digest.

Lemma sample_digest_right : profile_digest_of sample_profile = Ok sample_digest.
Proof. vm_compute. reflexivity. Qed.

Lemma profile_roundtrip_witness :
  load (print (document_of sample_profile sample_pin)) = Ok sample_profile.
Proof.
  apply profile_roundtrip; [exact sample_valid|exact sample_typed|exact sample_printable|].
  intros d [= <-]. exact sample_digest_right.
Defined.

Lemma sample_sized : profile_sized sample_profile.
Proof.
  constructor; cbn; unfold texts_ok; repeat split; sample_forall; repeat split; try done;
    match goal with H : _ = Allow _ |- _ => injection H as <-; sample_forall; by repeat split end.
Qed.

(** Two layouts of the sample, one with a remark. *)
Definition sample_text : string := Eval vm_compute in print (document_of sample_profile sample_pin).
Definition remarked_text : string := Eval vm_compute in (sample_text +:+ "# measured twice")%string.

Lemma sample_loads : load sample_text = Ok sample_profile.
Proof. vm_compute. reflexivity. Qed.

Lemma remarked_loads : load remarked_text = Ok sample_profile.
Proof. vm_compute. reflexivity. Qed.

Lemma sample_pinned : pinned_digest sample_text = Some sample_digest.
Proof. vm_compute. reflexivity. Qed.

Lemma remarked_pinned : pinned_digest remarked_text = Some sample_digest.
Proof. vm_compute. reflexivity. Qed.

Lemma pin_binds_profile_witness :
  exists bp bq, value_bytes sample_profile = Ok bp /\ value_bytes sample_profile = Ok bq /\
    (u64 (zlen bp) -> no_collision (as_bytes DDeviceProfile ++ bp) (as_bytes DDeviceProfile ++ bq) ->
     sample_profile = sample_profile).
Proof.
  exact (pin_binds_profile sample_text remarked_text sample_profile sample_profile sample_digest
           sample_loads remarked_loads sample_pinned remarked_pinned sample_sized sample_sized).
Defined.

(** A list of protected targets written as one name is dropped: the document loads, with a
    writable target the reviewer meant to protect. *)
Definition protected_as_scalar : YamlValue :=
  match document_of sample_profile None with
  | Mapping entries =>
      Mapping (map (fun entry => if String.eqb entry.1 "protectedTargets" then (entry.1, Scalar "boot") else entry) entries)
  | v => v
  end.

Example scalar_protection_is_dropped :
  match load_document protected_as_scalar with
  | Ok p => protected_targets p = [] /\ allowed_target p (mkId "boot") <> None
  | Err _ => False
  end.
Proof. vm_compute. split; [reflexivity|discriminate]. Qed.
