(* ===== verification/Assessment.v ===== *)
(** * Plans that are not sealed (crates/arkforge-core/src/plan.rs)

    What materialization gives when execution is gated: the candidates, the steps and effects
    a plan would have, what is unknown and the evidence that would close it. *)

From S2P Require Import Prelude Cbor Sha256 Digest Fields Authority Identity Effect FlashStep Projection Plan Manifest.

Inductive ExecutionAvailability : Type :=
| Available
| AvailabilityDenied (reason : string).

Definition availability_as_str (a : ExecutionAvailability) : string :=
  match a with Available => "available" | AvailabilityDenied _ => "unavailable" end.

Record EvidenceRequirement := mkRequirement {
  requirement_id : OpaqueId;
  closes : list OpaqueId;
  description : string;
  minimum_grade : string
}.

Record ProviderCandidate := mkProviderCandidate {
  candidate_provider : ProviderIdentity;
  provider_maturity : MaturityState;
  provider_rationale : string
}.

Record ProfileCandidate := mkProfileCandidate {
  candidate_profile : DeviceProfileIdentity;
  profile_maturity : MaturityState;
  profile_rationale : string
}.

(** It has no plan identifier and no plan digest. *)
Record PlanAssessment := mkAssessment {
  provider_candidates : list ProviderCandidate;
  profile_candidates : list ProfileCandidate;
  would_be_steps : list PublicFlashStep;
  known_effects : EffectSet;
  a_unknowns : list ExecutionUnknown;
  evidence_requirements : list EvidenceRequirement;
  availability : ExecutionAvailability
}.

Inductive PlanMaterialization : Type :=
| Executable (plan : FlashPlanEnvelope)
| Assessment (assessment : PlanAssessment).

Definition executable (m : PlanMaterialization) : option FlashPlanEnvelope :=
  match m with Executable plan => Some plan | Assessment _ => None end.

Definition assessment (m : PlanMaterialization) : option PlanAssessment :=
  match m with Assessment a => Some a | Executable _ => None end.

Section Encodings.
Local Open Scope string_scope.

#[global] Instance availability_cbor : CanonicalCbor ExecutionAvailability := fun a =>
  map_of [("availability", Text (availability_as_str a));
          ("reason", match a with Available => Null | AvailabilityDenied reason => Text reason end)].

#[global] Instance requirement_cbor : CanonicalCbor EvidenceRequirement := fun r =>
  map_of [("id", to_cbor (requirement_id r)); ("closes", Array (map to_cbor (closes r)));
          ("description", Text (description r)); ("minimumGrade", Text (minimum_grade r))].

#[global] Instance provider_candidate_cbor : CanonicalCbor ProviderCandidate := fun c =>
  map_of [("provider", to_cbor (candidate_provider c)); ("maturity", to_cbor (provider_maturity c));
          ("rationale", Text (provider_rationale c))].

#[global] Instance profile_candidate_cbor : CanonicalCbor ProfileCandidate := fun c =>
  map_of [("profile", to_cbor (candidate_profile c)); ("maturity", to_cbor (profile_maturity c));
          ("rationale", Text (profile_rationale c))].

#[global] Instance assessment_cbor : CanonicalCbor PlanAssessment := fun a =>
  map_of [("providerCandidates", Array (map to_cbor (provider_candidates a)));
          ("profileCandidates", Array (map to_cbor (profile_candidates a)));
          ("wouldBeSteps", Array (map to_cbor (would_be_steps a)));
          ("knownEffects", to_cbor (known_effects a));
          ("unknowns", Array (map to_cbor (a_unknowns a)));
          ("evidenceRequirements", Array (map to_cbor (evidence_requirements a)));
          ("availability", to_cbor (availability a))].
End Encodings.
