(* ===== verification/Rockchip.v ===== *)
(** * The Rockchip provider (crates/arkforge-provider/src/lib.rs, rockchip.rs)

    Maturity, validation of artifact against profile and device, the lowering of a restore
    into public steps with their private actions, materialization, and the selection of
    read-only actions for reconciliation; [StoredAction] is from
    rockchip_execute/parts/actions.rs and the ramdisk pin from arkforge-artifact's
    preboot.rs.  [Panic] is an arithmetic overflow or a failed [expect], which ends the
    process in the release profile; the step counter is taken to stay within its [u32]. *)

From S2P Require Import Prelude Cbor Sha256 Digest Fields Authority Identity Effect FlashStep Projection.
From S2P Require Import Plan Manifest Dayu200 Verification Profile Assessment.

(** ** The interface (lib.rs) *)

Record ValidationViolation := mkViolation { violation_id : OpaqueId; violation_detail : string }.

Inductive FlashIntent : Type := FullRestore | RestoreRamdisk.

#[global] Instance FlashIntent_eq_dec : EqDecision FlashIntent.
Proof. solve_decision. Defined.

Definition intent_as_str (i : FlashIntent) : string :=
  match i with FullRestore => "fullRestore" | RestoreRamdisk => "restoreRamdisk" end.

(** Of the probe, the mode the observation reports is all these operations read. *)
Record ProviderProbe := mkProbe { observed_mode : DeviceMode }.

Record MaterializeRequest := mkRequest {
  r_plan_id : OpaqueId;
  r_purpose : ExecutionPurpose;
  r_intent : FlashIntent;
  r_artifact : ArtifactManifest;
  r_artifact_id : OpaqueId;
  r_profile : DeviceProfile;
  r_probe : ProviderProbe;
  r_authority_binding : AuthorityBindingRef;
  r_authority_support : AuthoritySupportBinding;
  r_toolchain : ToolchainIdentity;
  r_host_platform : HostPlatform;
  r_driver_facts_digest : Sha256Digest;
  r_evidence_set_digest : Sha256Digest;
  r_created_at_epoch_ms : Z;
  r_plan_lifetime_ms : Z
}.

Record MaterializedPlan := mkMaterialized {
  materialization : PlanMaterialization;
  materialized_private_plan : option StoredProviderPlan
}.

Inductive ProviderDetail : Type :=
| RamdiskNotPermitted
| NoSourceMember (target : OpaqueId)
| MemberMissing (member : string) (target : OpaqueId)
| NoBlockSize (profile : OpaqueId)
| OffsetOverflow (target : OpaqueId)
| EffectDetail (e : EffectError)
| CborDetail (e : CborError)
| ProjectionDetail (e : ProjectionError)
| PlanDetail (e : PlanError)
| Undecodable (what : string)
| ReconcileNotReadOnly (action : OpaqueId) (class : WorkflowEffect).

Inductive ProviderError : Type :=
| Unsupported (d : ProviderDetail)
| FactsInsufficient (d : ProviderDetail)
| Core (d : ProviderDetail)
| Panic.

Abbreviation provided := (result ProviderError).

(** *** Published maturity *)

Definition MaturityRegistry : Type := list (Sha256Digest * MaturityState).

Definition publish_maturity (registry : MaturityRegistry) (key : MaturityKey) (state : MaturityState) :
    provided MaturityRegistry :=
  let? digest := map_err (fun _ => Panic) (maturity_key_digest key) in
  Ok (List.filter (fun entry => negb (bool_decide (entry.1 = digest))) registry ++ [(digest, state)]).

Definition lookup_maturity (registry : MaturityRegistry) (key : MaturityKey) : MaturityState :=
  match maturity_key_digest key with
  | Err _ => MUnavailable "maturity key is not canonicalizable"
  | Ok digest =>
      match List.find (fun entry => bool_decide (entry.1 = digest)) registry with
      | Some (_, state) => state
      | None => MUnavailable "this provider/profile/artifact/toolchain/platform combination is not published"
      end
  end.

(** ** Constants *)

Definition PROVIDER_ID : string := "arkforge.rockchip".
Definition LOADER_MODE : DeviceMode := mkMode "rockusb-loader".
Definition NORMAL_MODE : DeviceMode := mkMode "hdc-normal".

Definition rockchip_identity : ProviderIdentity :=
  mkProvider (mkId PROVIDER_ID) (mkVersion 1 0 0)
    (sha256 (bytes_of_string
       ("arkforge.rockchip/lowering/v1;" ++
        "steps=ensure-mode,probe,validate-layout,write*,verify*,reboot,postflight;" ++
        "actions=enter-loader,probe-loader,validate-partition-table," ++
        "write-partition,characterize-read-domain,readback-partition," ++
        "reset-device,verify-hdc-postflight;intent=fullRestore,restoreRamdisk-v1"))).

Definition rockchip_format : ArtifactFormat := mkFormat (mkId FORMAT_ID) FORMAT_VERSION.

(** The pinned acceptance ramdisk (preboot.rs). *)
Definition RESTORATION_SHA256 : string := "bdd1f4eacbe545f5a553b529980bc487723d37554148058dd551c241abf86de4".
Definition MAX_IMAGE_BYTES : Z := 4 * 1024 * 1024.
Definition restoration_digest : provided Sha256Digest := map_err (fun _ => Panic) (Sha256.parse_hex RESTORATION_SHA256).

(** ** Validation *)

(** [Display] for a [u64]. *)
Definition display (n : Z) : string := string_of_bytes (decimal_rounds 20 n).

Definition checked_mul (a b : Z) : option Z := if a * b <=? U64_MAX then Some (a * b) else None.

Section Validation.
Local Open Scope string_scope.

Definition violation (id detail : string) : ValidationViolation := mkViolation (mkId id) detail.

(** The loop body for one target; a [continue] ends it. *)
Definition validate_target (artifact : ArtifactManifest) (table : PartitionTableFact) (target : AllowedTarget) :
    provided (list ValidationViolation) :=
  let partition := as_str (target_partition target) in
  match table_entry table partition with
  | None =>
      Ok [violation "RK-V04" ("profile permits " ++ partition ++ " but the artifact's table has no such partition")]
  | Some entry =>
      let offsets :=
        if negb (Manifest.offset_sectors entry =? Profile.offset_sectors target)%Z then
          [violation "RK-V05" (partition ++ ": profile offset " ++ display (Profile.offset_sectors target) ++
             " does not match the artifact table's " ++ display (Manifest.offset_sectors entry))]
        else [] in
      match source_member target with
      | None => Ok (app offsets [violation "RK-V06" ("profile target " ++ partition ++ " declares no source member")])
      | Some member_name =>
          match manifest_member artifact member_name with
          | None =>
              Ok (app offsets [violation "RK-V07" ("profile target " ++ partition ++ " needs member " ++ member_name ++
                                                   ", which the artifact lacks")])
          | Some member =>
              match size_sectors entry with
              | None => Ok offsets
              | Some extent_sectors =>
                  let? extent_bytes := ok_or (checked_mul extent_sectors (Manifest.logical_block_size table)) Panic in
                  Ok (app offsets
                        (if (extent_bytes <? member_size member)%Z then
                           [violation "RK-V08" (partition ++ ": member " ++ member_name ++ " is " ++
                              display (member_size member) ++ " bytes but the partition holds " ++ display extent_bytes)]
                         else []))
              end
          end
      end
  end.

Fixpoint validate_targets (artifact : ArtifactManifest) (table : PartitionTableFact) (targets : list AllowedTarget) :
    provided (list ValidationViolation) :=
  match targets with
  | [] => Ok []
  | target :: targets =>
      let? found := validate_target artifact table target in
      let? rest := validate_targets artifact table targets in
      Ok (app found rest)
  end.

Definition validate (artifact : ArtifactManifest) (profile : DeviceProfile) (probe : ProviderProbe) :
    provided (list ValidationViolation) :=
  let format_id := format_id (m_format artifact) in
  let formats :=
    app (if negb (bool_decide (format_id = Identity.format_id rockchip_format)) then
           [violation "RK-V01" ("artifact format " ++ as_str format_id ++ " is not " ++ FORMAT_ID)]
         else [])
        (if negb (bool_decide (format_id ∈ artifact_formats profile)) then
           [violation "RK-V02" ("profile " ++ as_str (device_id profile) ++ " does not accept artifact format " ++
                                as_str format_id)]
         else []) in
  match m_partition_table artifact with
  | None => Ok (app formats [violation "RK-V03" "artifact declares no partition table to agree with"])
  | Some table =>
      let? targets := validate_targets artifact table (allowed_targets profile) in
      let protected :=
        flat_map (fun protected =>
          if is_none (allowed_target profile protected) then []
          else [violation "RK-V09" (as_str protected ++ " is both protected and allowed")]) (protected_targets profile) in
      let observed := observed_mode probe in
      let unknown_mode :=
        if is_none (mode profile observed) then
          [violation "RK-V10" ("device reports mode " ++ mode_str observed ++ ", which the profile does not declare")]
        else [] in
      Ok (app formats (app targets (app protected unknown_mode)))
  end.

Definition join_comma (l : list string) : string := String.concat ", " l.

(** The parser's unknowns, less the one the profile discharges. *)
Definition residual_artifact_unknowns (artifact : ArtifactManifest) (profile : DeviceProfile) : list ExecutionUnknown :=
  let unaccounted :=
    List.filter (fun member => negb (bool_decide (member ∈ known_metadata_members profile))) (m_unclassified_members artifact) in
  omap (fun unknown =>
    if String.eqb (as_str (unknown_id unknown)) "RK-A02" then
      match unaccounted with
      | [] => None
      | _ => Some (mkUnknown (unknown_id unknown)
                     ("archive members the profile does not account for: " ++ join_comma unaccounted))
      end
    else Some unknown) (m_unknowns artifact).

Definition evidence_requirement (blocker : ExecutionUnknown) : EvidenceRequirement :=
  mkRequirement
    (match OpaqueId_new ("EVR-" ++ as_str (unknown_id blocker)) with Ok id => id | Err _ => mkId "EVR-UNNAMED" end)
    [unknown_id blocker] (unknown_summary blocker) "C".
End Validation.

(** ** Lowering *)

(** [format!("{sequence:03}")]. *)
Definition pad3 (n : Z) : string :=
  let digits := decimal n in string_of_bytes (replicate (3 - List.length digits) 48 ++ digits).

Definition step_name (sequence : Z) : OpaqueId := mkId ("STEP-" +:+ pad3 sequence).
Definition action_name (sequence : Z) : OpaqueId := mkId ("ACT-" +:+ pad3 sequence).
Definition sub_action_name (sequence : Z) : OpaqueId := mkId ("SUB-" +:+ pad3 sequence).

(** The vectors [build_steps] fills, and its counter. *)
Record Builder := mkBuilder {
  b_sequence : Z;
  b_steps : list PublicFlashStep;
  b_actions : list PrivateActionRecord;
  b_persistent : list PersistentEffect
}.

Definition digest_of (a : PrivateActionRecord) : provided Sha256Digest :=
  map_err (fun e => Core (CborDetail e)) (action_digest a).

(** What the kinds of step differ in: the public step's fields, the primary action's, the body
    of a sub-action pushed before it, and the persistent effects declared with it. *)
Record Position := mkPosition {
  p_kind : FlashStepKind;
  p_effect : WorkflowEffect;
  p_cancellation : CancellationPolicy;
  p_binding : BindingRequirement;
  p_semantic : SemanticTarget;
  p_content : option Sha256Digest;
  p_before : DeviceMode;
  p_after : DeviceMode;
  p_class : WorkflowEffect;
  p_target : option SemanticTarget;
  p_range : option ByteRange;
  p_body : CborValue;
  p_sub : option CborValue;
  p_declares : list PersistentEffect
}.

Definition primary_at (sequence : Z) (p : Position) : PrivateActionRecord :=
  mkAction (action_name sequence) (step_name sequence) PrimaryEffect (p_class p) (p_target p) (p_range p) (p_content p) (p_body p).

Definition subs_at (sequence : Z) (p : Position) : list PrivateActionRecord :=
  match p_sub p with
  | Some body =>
      [mkAction (sub_action_name sequence) (step_name sequence) ReadOnlyTransportSubAction EReadOnly None None None body]
  | None => []
  end.

Definition step_at (sequence : Z) (p : Position) (digest : Sha256Digest) : PublicFlashStep :=
  mkStep (step_name sequence) (p_kind p) (p_effect p) (p_cancellation p) (p_binding p) (Some (p_semantic p)) (p_content p)
    (Some (p_before p)) (Some (p_after p)) digest.

(** One plan position: the next identifiers, the primary action, the public step that carries
    its digest, and the pushes. *)
Definition push_step (b : Builder) (p : Position) : provided Builder :=
  let sequence := b_sequence b + 1 in
  let? digest := digest_of (primary_at sequence p) in
  Ok (mkBuilder sequence (b_steps b ++ [step_at sequence p digest])
        (b_actions b ++ subs_at sequence p ++ [primary_at sequence p]) (b_persistent b ++ p_declares p)).

Section Steps.
Local Open Scope string_scope.

Definition enter_loader : Position :=
  mkPosition EnsureMode EMutating CancellableAtBoundary ExactBoundTargetWithModeLineage TargetDevice None
    NORMAL_MODE LOADER_MODE ETransient None None
    (map_of [("action", Text "enter-loader"); ("via", Text "managed-device-control-port");
             ("controlAction", Text "enter-updater")]) None [].

Definition probe_loader : Position :=
  mkPosition ProbeDevice EReadOnly CancellableImmediately ExactBoundTargetWithModeLineage TargetDevice None
    LOADER_MODE LOADER_MODE EReadOnly None None (map_of [("action", Text "probe-loader")]) None [].

Definition ordered_targets (targets : list AllowedTarget) : list AllowedTarget := sort_by write_order_leb targets.

(** The [expect] on the encoding of the layout is the [Panic]. *)
Definition layout_digest (profile : DeviceProfile) : provided Sha256Digest :=
  let value :=
    Array (map (fun target => map_of [("partition", Text (as_str (target_partition target)));
                                      ("offsetSectors", Unsigned (Profile.offset_sectors target))])
             (ordered_targets (allowed_targets profile))) in
  let? bytes := map_err (fun _ => Panic) (to_canonical_bytes value) in
  Ok (digest_in_domain DDeviceProfile bytes).

Definition validate_layout (profile : DeviceProfile) : provided Position :=
  let? layout := layout_digest profile in
  Ok (mkPosition ValidateLayout EReadOnly CancellableImmediately ExactBoundTarget TargetDevice None
        LOADER_MODE LOADER_MODE EReadOnly None None
        (map_of [("action", Text "validate-partition-table"); ("expectedLayoutDigest", Bytes (digest_bytes layout))]) None []).

Definition block_size (profile : DeviceProfile) : provided Z :=
  ok_or (Profile.logical_block_size (storage profile)) (FactsInsufficient (NoBlockSize (device_id profile))).

(** The member that supplies a target, and the range it is written to. *)
Definition target_source (artifact : ArtifactManifest) (profile : DeviceProfile) (target : AllowedTarget) :
    provided (string * ArchiveMemberFact * ByteRange) :=
  let? member_name := ok_or (source_member target) (FactsInsufficient (NoSourceMember (target_partition target))) in
  let? member := ok_or (manifest_member artifact member_name)
                   (FactsInsufficient (MemberMissing member_name (target_partition target))) in
  let? block_size := block_size profile in
  let? start := ok_or (checked_mul (Profile.offset_sectors target) block_size)
                  (FactsInsufficient (OffsetOverflow (target_partition target))) in
  let? range := map_err (fun e => FactsInsufficient (EffectDetail e)) (ByteRange_new start (member_size member)) in
  Ok (member_name, member, range).

Definition write_target (artifact : ArtifactManifest) (profile : DeviceProfile) (target : AllowedTarget) :
    provided Position :=
  let? (member_name, member, range) := target_source artifact profile target in
  let partition := target_partition target in
  Ok (mkPosition WriteTarget EDestructive NonInterruptible ExactBoundTargetWithModeLineage (TargetPartition partition)
        (Some (member_sha256 member)) LOADER_MODE LOADER_MODE
        EDestructive (Some (TargetPartition partition)) (Some range)
        (map_of [("action", Text "write-partition"); ("partition", Text (as_str partition));
                 ("beginSector", Unsigned (Profile.offset_sectors target)); ("member", Text member_name)]) None
        [WritePartition partition range (member_sha256 member)]).

(** The same source again: its [expect]s and its unchecked product are [Panic]s. *)
Definition verify_target (artifact : ArtifactManifest) (profile : DeviceProfile) (target : AllowedTarget) :
    provided Position :=
  let? member_name := ok_or (source_member target) Panic in
  let? member := ok_or (manifest_member artifact member_name) Panic in
  let? block_size := block_size profile in
  let? start := ok_or (checked_mul (Profile.offset_sectors target) block_size) Panic in
  let? range := map_err (fun e => FactsInsufficient (EffectDetail e)) (ByteRange_new start (member_size member)) in
  let partition := target_partition target in
  Ok (mkPosition VerifyTarget EReadOnly CancellableImmediately ExactBoundTargetWithModeLineage (TargetPartition partition)
        (Some (member_sha256 member)) LOADER_MODE LOADER_MODE
        EReadOnly (Some (TargetPartition partition)) (Some range)
        (map_of [("action", Text "readback-partition"); ("partition", Text (as_str partition));
                 ("beginSector", Unsigned (Profile.offset_sectors target));
                 ("maxStrengthWhenReadable", Text (strength_as_str (max_strength_when_readable (target_verification target))));
                 ("erasedMediumFiller", unsigned_or_null (erased_medium_filler (read_domain profile)))])
        (Some (map_of [("action", Text "characterize-read-domain"); ("probe", Text "primary-and-backup-gpt");
                       ("policy", Text (read_domain_as_str (read_face (read_domain profile))))])) []).

Definition reset_device : Position :=
  mkPosition RebootDevice EMutating CancellableAtBoundary ExactBoundTargetWithModeLineage TargetDevice None
    LOADER_MODE NORMAL_MODE ETransient None None (map_of [("action", Text "reset-device")]) None [].

Definition postflight_facts (artifact : ArtifactManifest) : list (OpaqueId * string) :=
  List.filter (fun fact => String.eqb (as_str fact.1) "const.ohos.fullname" || String.eqb (as_str fact.1) "const.product.model")
    (m_build_facts artifact).

Definition verify_postflight (artifact : ArtifactManifest) : Position :=
  mkPosition PostflightProbe EReadOnly CancellableImmediately ExactBoundTargetWithModeLineage TargetDevice None
    NORMAL_MODE NORMAL_MODE EReadOnly None None
    (map_of [("action", Text "verify-hdc-postflight"); ("via", Text "managed-device-control-port");
             ("controlAction", Text "read-build-facts");
             ("expect", Map (map (fun fact => (to_cbor fact.1, Text fact.2)) (postflight_facts artifact)))]) None [].
End Steps.

(** A [for] loop over targets. *)
Fixpoint push_targets (body : AllowedTarget -> provided Position) (targets : list AllowedTarget) (b : Builder) :
    provided Builder :=
  match targets with
  | [] => Ok b
  | target :: targets =>
      let? p := body target in
      let? b := push_step b p in
      push_targets body targets b
  end.

Record BuiltPlan := mkBuilt {
  built_steps : list PublicFlashStep;
  built_private_plan : StoredProviderPlan;
  built_effects : EffectSet;
  built_postflight : PostflightPolicy
}.

(** Restoring the ramdisk is for a primary campaign with the pinned image only. *)
Definition ramdisk_permitted (r : MaterializeRequest) : provided bool :=
  if bool_decide (r_intent r = RestoreRamdisk) then
    if negb (bool_decide (r_purpose r = PrimaryFlash)) then Ok false
    else if permits_execution (support_state (r_authority_support r))
            && is_none (support_campaign (support_state (r_authority_support r))) then Ok false
    else
      match manifest_member (r_artifact r) "ramdisk.img" with
      | None => Ok false
      | Some m =>
          let? pinned := restoration_digest in
          Ok (bool_decide (member_sha256 m = pinned) && (member_size m =? MAX_IMAGE_BYTES))
      end
  else Ok true.

Definition selected_targets (r : MaterializeRequest) : list AllowedTarget :=
  ordered_targets
    (List.filter (fun target => bool_decide (r_intent r = FullRestore) || String.eqb (as_str (target_partition target)) "ramdisk")
       (allowed_targets (r_profile r))).

Definition build_steps (r : MaterializeRequest) : provided BuiltPlan :=
  let profile := r_profile r in
  let artifact := r_artifact r in
  let? permitted := ramdisk_permitted r in
  if negb permitted then Err (Unsupported RamdiskNotPermitted)
  else
    let starts_in_loader := bool_decide (observed_mode (r_probe r) = LOADER_MODE) in
    let transient :=
      (if starts_in_loader then [] else [EnterMode NORMAL_MODE LOADER_MODE]) ++ [Reboot NORMAL_MODE] in
    let b := mkBuilder 0 [] [] [] in
    let? b := if starts_in_loader then Ok b else push_step b enter_loader in
    let? b := push_step b probe_loader in
    let? layout := validate_layout profile in
    let? b := push_step b layout in
    let ordered := selected_targets r in
    let? b := push_targets (write_target artifact profile) ordered b in
    let? b := push_targets (verify_target artifact profile) ordered b in
    let? b := push_step b reset_device in
    let? b := push_step b (verify_postflight artifact) in
    let impact := device_data_impact profile in
    let data_impact :=
      if bool_decide (r_intent r = RestoreRamdisk)
      then mkImpact Preserved (calibration impact) (non_volatile_config impact) (secure_storage impact)
      else impact in
    Ok (mkBuilt (b_steps b) (mkPlan (b_actions b)) (mkEffectSet (b_persistent b) transient data_impact)
          (mkPostflight true (Some NORMAL_MODE) (postflight_facts artifact))).

(** ** Materialization *)

Section Materialize.
Local Open Scope string_scope.

Definition maturity_key_of (r : MaterializeRequest) (profile : DeviceProfileIdentity) : MaturityKey :=
  mkMaturityKey rockchip_identity profile rockchip_format (r_toolchain r) (r_host_platform r)
    (r_driver_facts_digest r) (r_evidence_set_digest r).

(** [blocker().map(|b| format!(": {b}")).unwrap_or_default()]. *)
Definition after_colon (o : option string) : string := match o with Some text => ": " ++ text | None => "" end.

Definition plan_blockers (r : MaterializeRequest) (state : MaturityState) (violations : list ValidationViolation) :
    list ExecutionUnknown :=
  app (map (fun v => mkUnknown (violation_id v) (violation_detail v)) violations)
    (app (residual_artifact_unknowns (r_artifact r) (r_profile r))
      (app (if Identity.permits_executable_plan state then []
            else [mkUnknown (mkId "RK-M02")
                    ("provider/profile/artifact/toolchain/platform combination is " ++ maturity_as_str state ++
                     after_colon (maturity_blocker state))])
        (let support := support_state (r_authority_support r) in
         if permits_execution support then []
         else [mkUnknown (mkId "RK-A01")
                 ("authority implementation is " ++ support_as_str support ++ after_colon (support_blocker support))]))).

Definition assessment_of (r : MaterializeRequest) (profile : DeviceProfileIdentity) (state : MaturityState)
    (blockers : list ExecutionUnknown) (built : BuiltPlan) : PlanAssessment :=
  mkAssessment
    [mkProviderCandidate rockchip_identity state "Rockchip RockUSB provider for the DAYU200 vertical"]
    [mkProfileCandidate profile state
       ("profile declares " ++ display (zlen (allowed_targets (r_profile r))) ++ " writable targets")]
    (built_steps built) (built_effects built) blockers (map evidence_requirement blockers)
    (AvailabilityDenied ("materialization is complete but execution is gated; maturity is " ++ maturity_as_str state)).

Definition recovery_contract_of (r : MaterializeRequest) : provided (option RecoveryContractRef) :=
  if bool_decide (r_intent r = FullRestore) && supports_complete_overwrite (recovery (r_profile r)) then
    let? digest := map_err (fun e => Core (CborDetail e)) (digest_canonical DRecoveryCoverage (recovery (r_profile r))) in
    Ok (Some (mkContract (mkId "arkforge.rockchip.complete-overwrite") (declaration_version (recovery (r_profile r))) digest))
  else Ok None.

Definition build_materialized_plan (r : MaterializeRequest) (maturity : MaturityRegistry) : provided MaterializedPlan :=
  let profile := r_profile r in
  let artifact := r_artifact r in
  let? profile_identity := map_err (fun e => Core (CborDetail e)) (profile_identity profile) in
  let state := lookup_maturity maturity (maturity_key_of r profile_identity) in
  let? violations := validate artifact profile (r_probe r) in
  let blockers := plan_blockers r state violations in
  let? built := build_steps r in
  if negb (is_nil blockers) then
    Ok (mkMaterialized (Assessment (assessment_of r profile_identity state blockers built)) (Some (built_private_plan built)))
  else
    let? projection := map_err (fun e => Core (ProjectionDetail e))
                         (validate_projection (built_steps built) (built_private_plan built) (built_effects built)) in
    let? manifest_digest := map_err (fun e => Core (CborDetail e)) (manifest_digest_of artifact) in
    let? contract := recovery_contract_of r in
    let? expires := ok_or (checked_add (r_created_at_epoch_ms r) (r_plan_lifetime_ms r)) Panic in
    let? envelope := map_err (fun e => Core (PlanDetail e))
      (seal (mkSealInput SCHEMA_CURRENT (r_plan_id r) (r_purpose r) (r_authority_binding r) rockchip_identity profile_identity
               (mkArtifact (r_artifact_id r) rockchip_format (m_content_digest artifact) (m_size_bytes artifact) manifest_digest)
               (r_toolchain r) state (r_authority_support r) capabilities_empty (built_steps built) (built_effects built)
               projection contract (built_postflight built) (r_created_at_epoch_ms r) expires)) in
    Ok (mkMaterialized (Executable envelope) (Some (built_private_plan built))).

Definition materialize (r : MaterializeRequest) (maturity : MaturityRegistry) : provided PlanMaterialization :=
  let? plan := build_materialized_plan r maturity in Ok (materialization plan).
End Materialize.

(** ** Stored actions and reconciliation *)

Inductive StoredAction : Type :=
| ManagedControl (control_action : string) (expect : list (string * string))
| ProbeLoader
| ValidatePartitionTable (expected_layout_digest : Sha256Digest)
| StoredWrite (partition member : string) (begin_sector : Z)
| StoredReadback (partition : string) (begin_sector : Z) (max_strength : VerificationStrength) (filler : option Z)
| CharacterizeReadDomain
| ResetDevice.

Section Decode.
Local Open Scope string_scope.

Definition undecodable {A} (what : string) : result string A := Err what.

Definition body_field (entries : list (CborValue * CborValue)) (name : string) : option CborValue :=
  snd <$> List.find (fun entry => match entry.1 with Text text => String.eqb text name | _ => false end) entries.

Definition body_text (entries : list (CborValue * CborValue)) (name : string) : result string string :=
  match body_field entries name with Some (Text value) => Ok value | _ => undecodable name end.

Definition body_unsigned (entries : list (CborValue * CborValue)) (name : string) : result string Z :=
  match body_field entries name with Some (Unsigned value) => Ok value | _ => undecodable name end.

Definition body_digest (entries : list (CborValue * CborValue)) (name : string) : result string Sha256Digest :=
  match body_field entries name with
  | Some (Bytes bytes) => if (zlen bytes =? 32)%Z then Ok (mkDigest bytes) else undecodable name
  | _ => undecodable name
  end.

Fixpoint expect_pairs (pairs : list (CborValue * CborValue)) : result string (list (string * string)) :=
  match pairs with
  | [] => Ok []
  | (Text key, Text value) :: pairs => let? rest := expect_pairs pairs in Ok ((key, value) :: rest)
  | _ => undecodable "expect holds a non-text entry"
  end.

(** The error names what could not be read. *)
Definition stored_action_decode (record : PrivateActionRecord) : result string StoredAction :=
  match action_body record with
  | Map entries =>
      let? action := body_text entries "action" in
      if String.eqb action "enter-loader" then
        let? control := body_text entries "controlAction" in Ok (ManagedControl control [])
      else if String.eqb action "verify-hdc-postflight" then
        let? control := body_text entries "controlAction" in
        match body_field entries "expect" with
        | Some (Map pairs) => let? expect := expect_pairs pairs in Ok (ManagedControl control expect)
        | _ => undecodable "verify-hdc-postflight carries no expect map"
        end
      else if String.eqb action "probe-loader" then Ok ProbeLoader
      else if String.eqb action "validate-partition-table" then
        let? digest := body_digest entries "expectedLayoutDigest" in Ok (ValidatePartitionTable digest)
      else if String.eqb action "write-partition" then
        let? partition := body_text entries "partition" in
        let? member := body_text entries "member" in
        let? begin_sector := body_unsigned entries "beginSector" in
        Ok (StoredWrite partition member begin_sector)
      else if String.eqb action "readback-partition" then
        let? partition := body_text entries "partition" in
        let? begin_sector := body_unsigned entries "beginSector" in
        let? strength_text := body_text entries "maxStrengthWhenReadable" in
        let? strength := ok_or (strength_parse strength_text) ("unknown verification strength " ++ strength_text) in
        match body_field entries "erasedMediumFiller" with
        | Some (Unsigned byte) =>
            if (byte <=? 255)%Z then Ok (StoredReadback partition begin_sector strength (Some byte))
            else undecodable "erasedMediumFiller is neither a byte nor null"
        | Some Null => Ok (StoredReadback partition begin_sector strength None)
        | _ => undecodable "erasedMediumFiller is neither a byte nor null"
        end
      else if String.eqb action "characterize-read-domain" then Ok CharacterizeReadDomain
      else if String.eqb action "reset-device" then Ok ResetDevice
      else undecodable ("unknown stored action " ++ action)
  | _ => undecodable "body is not a map"
  end.
End Decode.

Definition readback_observes (record : PrivateActionRecord) (e : PersistentEffect) : bool :=
  match e, declared_target record with
  | WritePartition partition range content, Some (TargetPartition observed_partition) =>
      bool_decide (observed_partition = partition) && bool_decide (declared_range record = Some range)
      && bool_decide (action_content record = Some content)
  | _, _ => false
  end.

Definition reconcile_selects (possible_effects : list PersistentEffect) (record : PrivateActionRecord) (action : StoredAction) :
    bool :=
  match action with
  | ProbeLoader | ValidatePartitionTable _ | CharacterizeReadDomain => true
  | StoredReadback _ _ _ _ => existsb (readback_observes record) possible_effects
  | ManagedControl _ _ | StoredWrite _ _ _ | ResetDevice => false
  end.

Fixpoint reconcile_read_only (possible_effects : list PersistentEffect) (records : list PrivateActionRecord) :
    provided (list PrivateActionRecord) :=
  match records with
  | [] => Ok []
  | record :: records =>
      let? action := map_err (fun what => Core (Undecodable what)) (stored_action_decode record) in
      if reconcile_selects possible_effects record action then
        if negb (bool_decide (effect_class record = EReadOnly))
        then Err (FactsInsufficient (ReconcileNotReadOnly (action_id record) (effect_class record)))
        else let? rest := reconcile_read_only possible_effects records in Ok (record :: rest)
      else reconcile_read_only possible_effects records
  end.

(** ** Published maturity for the board *)

Definition publish_dayu200_maturity (registry : MaturityRegistry) (profile : DeviceProfile) (toolchain : ToolchainIdentity)
    (host_platform : HostPlatform) (driver_facts_digest evidence_set_digest : Sha256Digest) (campaign : option string) :
    provided MaturityRegistry :=
  let? profile_identity := map_err (fun e => Core (CborDetail e)) (profile_identity profile) in
  let key := mkMaturityKey rockchip_identity profile_identity rockchip_format toolchain host_platform
               driver_facts_digest evidence_set_digest in
  let state :=
    match toolchain_kind toolchain, campaign with
    | Replay, _ => MPlanOnly "transcript replay is not a device; no plan built on it may execute"
    | _, Some campaign => MHardwareCampaign campaign
    | _, None => MHardwareGated
        ("AF-V2 requires a real DAYU200 full-flash pass through ArkForge before this " +:+
         "combination can be ProductionVerified (architecture.md 22 AF-V2)")
    end in
  publish_maturity registry key state.

Definition publish_af_v1_maturity (registry : MaturityRegistry) (profile : DeviceProfile) (toolchain : ToolchainIdentity)
    (host_platform : HostPlatform) (driver_facts_digest evidence_set_digest : Sha256Digest) : provided MaturityRegistry :=
  publish_dayu200_maturity registry profile toolchain host_platform driver_facts_digest evidence_set_digest None.
