(* ===== verification/ProjectionAccepts.v ===== *)
(** * What the projection accepts (crates/arkforge-core/src/projection.rs)

    The converse of the facts in [Projection]: conditions under which each loop of
    [validate_projection] succeeds, for the components that build plans. *)

From S2P Require Import Prelude Cbor Sha256 Digest Fields Effect FlashStep Projection.

Lemma check_steps_accepts seen steps :
  NoDup (map step_key steps) -> Forall (fun s => step_key s ∉ seen) steps ->
  Forall (fun s => validate_self_consistent s = Ok tt) steps ->
  exists seen', check_steps seen steps = Ok seen'.
Proof.
  revert seen. induction steps as [|s steps IH]; intros seen Hnd Hout Hok; cbn [check_steps]; [eauto|].
  apply Forall_cons in Hout as [Hs Hout]. apply Forall_cons in Hok as [-> Hok].
  cbn [map] in Hnd. apply NoDup_cons in Hnd as [Hnew Hnd]. unfold step_key in Hs at 1.
  rewrite bool_decide_eq_false_2 by done. cbn [map_err]. apply IH; [done| |done].
  apply Forall_forall. intros t Ht. rewrite elem_of_cons. intros [E|E].
  - apply Hnew. apply list_elem_of_fmap. by exists t.
  - rewrite Forall_forall in Hout. by apply (Hout t).
Qed.

Lemma check_actions_accepts steps seen acts :
  NoDup (map (fun a => as_str (action_id a)) acts) -> Forall (fun a => as_str (action_id a) ∉ seen) acts ->
  Forall (fun a => action_key a ∈ steps) acts ->
  check_actions steps seen acts = Ok tt.
Proof.
  revert seen. induction acts as [|a acts IH]; intros seen Hnd Hout Hin; cbn [check_actions]; [done|].
  apply Forall_cons in Hout as [Ha Hout]. apply Forall_cons in Hin as [Hs Hin].
  cbn [map] in Hnd. apply NoDup_cons in Hnd as [Hnew Hnd].
  rewrite bool_decide_eq_false_2, bool_decide_eq_true_2 by done. cbn [negb]. apply IH; [done| |done].
  apply Forall_forall. intros b Hb. rewrite elem_of_cons. intros [E|E].
  - apply Hnew. apply list_elem_of_fmap. by exists b.
  - rewrite Forall_forall in Hout. by apply (Hout b).
Qed.

Lemma collect_primaries_accepts m acts :
  NoDup (map action_key (List.filter is_primary acts)) ->
  Forall (fun a => is_primary a = false -> effect_class a = EReadOnly) acts ->
  Forall (fun a => is_primary a = true -> bt_get (action_key a) m = None) acts ->
  exists m', collect_primaries m acts = Ok m'.
Proof.
  revert m. induction acts as [|a acts IH]; intros m Hnd Hro Hnew; cbn [collect_primaries]; [eauto|].
  apply Forall_cons in Hro as [Ha Hro]. apply Forall_cons in Hnew as [Hn Hnew].
  unfold is_primary in Ha, Hn at 1, Hnd. cbn [List.filter] in Hnd. destruct (role a) eqn:Hr.
  - cbn [map] in Hnd. apply NoDup_cons in Hnd as [Hk Hnd]. unfold action_key in Hn at 1.
    rewrite (Hn eq_refl). apply IH; [done..|].
    apply Forall_forall. intros b Hb Hp. rewrite Forall_forall in Hnew. rewrite <- (Hnew b Hb Hp).
    apply bt_get_insert_ne. intros E. apply Hk. apply list_elem_of_fmap. exists b. split; [done|].
    apply list_elem_of_In, filter_In. split; [by apply list_elem_of_In|done].
  - rewrite (Ha eq_refl). cbn. by apply IH.
Qed.

(** A step whose primary action is found and carries its digest, with the rest agreeing. *)
Lemma bind_step_accepts m acts s a :
  bt_get (step_key s) m = Some a -> action_digest a = Ok (private_action_digest s) ->
  effect_ltb (effect s) (effect_class a) = false -> check_target s a = Ok tt -> check_content s a = Ok tt ->
  Forall (fun b => is_ok (action_digest b) = true) acts ->
  exists bs, bind_step m acts s = Ok bs.
Proof.
  intros Hg Hd He Ht Hc Hs. unfold bind_step. fold (step_key s). rewrite Hg. cbn [ok_or]. rewrite Hd. cbn [map_err].
  rewrite bool_decide_eq_true_2 by done. cbn [negb]. rewrite He, Ht, Hc.
  assert (exists subs, collect_results (map (sub_binding s) (List.filter (is_sub_action_of s) acts)) = Ok subs)
    as [subs ->]; [|eauto].
  induction acts as [|b acts IH]; cbn [List.filter map collect_results]; [eauto|].
  apply Forall_cons in Hs as [Hb Hs]. destruct (IH Hs) as [subs E].
  destruct (is_sub_action_of s b); [|eauto]. cbn [map collect_results]. rewrite E.
  unfold sub_binding. destruct (action_digest b); [cbn; eauto|done].
Qed.

Lemma bind_steps_accepts m acts steps :
  Forall (fun s => exists bs, bind_step m acts s = Ok bs) steps -> exists bs, bind_steps m acts steps = Ok bs.
Proof.
  induction 1 as [|s steps [bs E] _ [rest Hr]]; cbn [bind_steps]; [eauto|]. rewrite E, Hr. eauto.
Qed.

(** ** Coverage in order *)

(** The flags once the effects of the steps before are claimed. *)
Definition flags {A} (claimed left : list A) : list bool :=
  replicate (List.length claimed) true ++ replicate (List.length left) false.

Lemma position_unclaimed_next {A} (p : A -> bool) claimed e left :
  p e = true -> position_unclaimed p (claimed ++ e :: left) (flags claimed (e :: left)) = Some (List.length claimed).
Proof.
  intros He. unfold flags. induction claimed as [|c claimed IH]; cbn in *; [by rewrite He|]. by rewrite IH.
Qed.

Lemma flags_claim {A} (claimed : list A) e left :
  <[List.length claimed := true]> (flags claimed (e :: left)) = flags (claimed ++ [e]) left.
Proof. unfold flags. induction claimed as [|c claimed IH]; [done|]. cbn in *. f_equal. exact IH. Qed.

Lemma first_unclaimed_done {A} (claimed : list A) : first_unclaimed (flags claimed []) = None.
Proof. unfold flags. induction claimed as [|c claimed IH]; cbn in *; [done|]. by rewrite IH. Qed.

(** What a step claims: the effect its primary action makes, in the declared order. *)
Definition next_persistent (primaries : btree PrivateActionRecord) (s : PublicFlashStep) (es : list PersistentEffect) : Prop :=
  if writes s then exists e target a, es = [e] /\ semantic_target s = Some target /\
    bt_get (step_key s) primaries = Some a /\ persistent_effect_matches e s target a = true
  else es = [].

Definition next_transient (s : PublicFlashStep) (ts : list TransientEffect) : Prop :=
  if moves s then exists t, ts = [t] /\ transient_effect_matches t s = true else ts = [].

Lemma claim_step_next primaries effects s pdone es pleft tdone ts tleft :
  persistent effects = pdone ++ es ++ pleft -> transient effects = tdone ++ ts ++ tleft ->
  next_persistent primaries s es -> next_transient s ts ->
  claim_step primaries effects s (flags pdone (es ++ pleft), flags tdone (ts ++ tleft)) =
    Ok (flags (pdone ++ es) pleft, flags (tdone ++ ts) tleft).
Proof.
  intros Hp Ht Hw Hm. unfold claim_step, next_persistent, next_transient, writes, moves in *.
  destruct (kind s) eqn:Hk; cbn in Hw, Hm.
  all: try (destruct Hw as (e & target & a & -> & -> & Ha & Hmatch); subst ts; fold (step_key s);
            rewrite Ha; cbn [ok_or]; cbn [app] in *; rewrite Hp;
            rewrite (position_unclaimed_next (fun e => persistent_effect_matches e s target a)) by done;
            cbn [ok_or]; by rewrite flags_claim, !app_nil_r).
  all: try (destruct Hm as (t & -> & Hmatch); subst es; cbn [app] in *; rewrite Ht;
            rewrite (position_unclaimed_next (fun e => transient_effect_matches e s)) by done;
            by rewrite flags_claim, !app_nil_r).
  all: subst es ts; by rewrite !app_nil_r.
Qed.

Lemma claim_steps_next primaries effects steps ess tss pdone tdone :
  persistent effects = pdone ++ concat ess -> transient effects = tdone ++ concat tss ->
  Forall2 (next_persistent primaries) steps ess -> Forall2 next_transient steps tss ->
  claim_steps primaries effects steps (flags pdone (concat ess), flags tdone (concat tss)) =
    Ok (flags (persistent effects) [], flags (transient effects) []).
Proof.
  intros Hp Ht Hw. revert pdone tss tdone Hp Ht.
  induction Hw as [|s es steps ess Hs _ IH]; intros pdone tss tdone Hp Ht Hm; inversion Hm; subst; cbn [concat claim_steps] in *.
  - by rewrite Hp, Ht, !app_nil_r.
  - rewrite (claim_step_next _ _ _ pdone es (concat ess) tdone) by done. apply IH; [| |done].
    + by rewrite <- app_assoc.
    + by rewrite <- app_assoc.
Qed.

Lemma coverage_accepts primaries effects steps ess tss :
  persistent effects = concat ess -> transient effects = concat tss ->
  Forall2 (next_persistent primaries) steps ess -> Forall2 next_transient steps tss ->
  validate_effect_coverage steps primaries effects = Ok tt.
Proof.
  intros Hp Ht Hw Hm. unfold validate_effect_coverage.
  pose proof (claim_steps_next primaries effects steps ess tss [] [] Hp Ht Hw Hm) as H.
  rewrite <- Hp, <- Ht in H. unfold flags in H at 1 2. cbn [List.length replicate app] in H. rewrite H.
  by rewrite !first_unclaimed_done.
Qed.

(** ** The whole check *)

Record projects (steps : list PublicFlashStep) (acts : list PrivateActionRecord) (effects : EffectSet) : Prop := {
  some_step : steps <> [];
  steps_distinct : NoDup (map step_key steps);
  steps_consistent : Forall (fun s => validate_self_consistent s = Ok tt) steps;
  actions_distinct : NoDup (map (fun a => as_str (action_id a)) acts);
  actions_in_steps : Forall (fun a => action_key a ∈ map step_key steps) acts;
  primaries_distinct : NoDup (map action_key (List.filter is_primary acts));
  subs_read_only : Forall (fun a => is_primary a = false -> effect_class a = EReadOnly) acts;
  steps_authorized : Forall (fun s => exists a, a ∈ acts /\ authorizes s a) steps;
  actions_named : Forall (fun a => id_ok (action_id a) /\ id_ok (action_step_id a)) acts;
  actions_encode : Forall (fun a => is_ok (action_digest a) = true) acts;
  actions_counted : u64 (zlen acts);
  effects_in_order : exists ess tss,
    persistent effects = concat ess /\ transient effects = concat tss /\
    Forall2 (fun s es => if writes s then exists e target a, es = [e] /\ semantic_target s = Some target /\
               a ∈ acts /\ is_primary a = true /\ action_key a = step_key s /\
               persistent_effect_matches e s target a = true else es = []) steps ess /\
    Forall2 next_transient steps tss
}.

Lemma writable_role r : writable (Text (role_as_str r)).
Proof. destruct r; writable_literal. Qed.

#[export] Hint Resolve writable_role : ark.

Lemma bindings_writable bs acts :
  Forall2 bound_to bs acts -> u64 (zlen acts) ->
  Forall (fun a => id_ok (action_id a) /\ id_ok (action_step_id a)) acts ->
  writable (Array (map to_cbor bs)).
Proof.
  intros Hb Hl Hok. apply writable_array.
  - unfold zlen in *. rewrite length_map. by rewrite (Forall2_length _ _ _ Hb).
  - apply Forall_map. apply Forall2_flip in Hb. clear Hl. induction Hb as [|a b acts bs Hab _ IH]; [constructor|].
    apply Forall_cons in Hok as [[Ha Hs] Hok]. constructor; [|auto]. destruct Hab as (Es & Ea & Er & Ed).
    apply digest_canonical_Ok in Ed as (bytes & _ & Ed). rewrite <- Es in Hs. rewrite <- Ea in Ha.
    assert (digest_ok (bound_digest b)) by (rewrite Ed, <- sha256_is_spec; apply sha256_ok).
    writable_map.
Qed.

Lemma projection_accepts steps acts effects :
  projects steps acts effects -> exists d, validate_projection steps (mkPlan acts) effects = Ok d.
Proof.
  intros P. unfold validate_projection.
  destruct (Nat.eqb_spec (List.length steps) 0) as [E|_]; [by apply length_zero_iff_nil in E; destruct (some_step _ _ _ P)|].
  destruct (check_steps_accepts [] steps) as [seen Es]; [apply P| |apply P|].
  { apply Forall_true. intros ? []%elem_of_nil. }
  rewrite Es. cbn [actions]. pose proof (check_steps_Ok _ _ _ Es) as (_ & _ & _ & Hseen).
  rewrite (check_actions_accepts seen []); [|apply P|by apply Forall_true; intros ? []%elem_of_nil|].
  2: { eapply Forall_impl; [apply (actions_in_steps _ _ _ P)|]. intros a Ha. apply Hseen. by right. }
  destruct (collect_primaries_accepts [] acts) as [m Ep]; [apply P|apply P|by apply Forall_true|]. rewrite Ep.
  pose proof (collect_primaries_Ok _ _ _ Ep) as (_ & _ & _ & Hmem).
  assert (forall k a, bt_get k m = Some a <-> a ∈ acts /\ is_primary a = true /\ action_key a = k) as Hm.
  { intros k a. rewrite Hmem. cbn. split; [intros [?|?]; done|auto]. }
  destruct (bind_steps_accepts m acts steps) as [bs Eb].
  { eapply Forall_impl; [apply (steps_authorized _ _ _ P)|]. intros s (a & Ha & Has & Hr & Hd & He & Ht & Hc).
    apply (bind_step_accepts m acts s a); [|done| | | |apply P].
    - apply Hm. unfold is_primary, action_key, step_key. by rewrite Hr, Has.
    - by apply effect_ltb_false.
    - by apply check_target_Ok.
    - by apply check_content_Ok. }
  rewrite Eb. destruct (effects_in_order _ _ _ P) as (ess & tss & Hes & Hts & Hw & Hv).
  rewrite (coverage_accepts m effects steps ess tss); [|done..| |done].
  2: { eapply Forall2_impl; [exact Hw|]. intros s es. unfold next_persistent. destruct (writes s); [|done].
    intros (e & target & a & ? & ? & ? & ? & ? & ?). exists e, target, a. split_and!; try done. by apply Hm. }
  assert (writable (Array (map to_cbor bs))) as [_ [bytes ->]]; [|by eexists].
  destruct (bind_steps_Ok m acts Hm steps bs Eb) as (prims & Hp & Hbs).
  assert (NoDup acts) as Hnd by (apply (NoDup_fmap_1 (fun a => as_str (action_id a))), P).
  assert (concat (zip_with (fun s a => a :: List.filter (is_sub_action_of s) acts) steps prims) ≡ₚ acts) as Hperm.
  { apply grouped_actions; [|done| | |exact Hp].
    - apply (NoDup_fmap_1 as_str). rewrite map_map. apply P.
    - intros a b Ha Hb' Hra Hrb Heq. apply (NoDup_map_same action_key _ _ _ (primaries_distinct _ _ _ P)); [by apply primary_elem..|].
      unfold action_key. by rewrite Heq.
    - intros a Ha. pose proof (actions_in_steps _ _ _ P) as Hin. rewrite Forall_forall in Hin.
      destruct (proj1 (list_elem_of_fmap _ _ _) (Hin a Ha)) as (s & Hk & Hs). exists s. split; [done|]. by apply id_eq. }
  eapply bindings_writable; [exact Hbs| |].
  - unfold zlen. rewrite (Permutation_length Hperm). apply P.
  - rewrite Hperm. apply P.
Qed.
