(* ===== verification/RockchipPlan.v ===== *)
(** * The provider's plans project (crates/arkforge-provider/src/rockchip.rs)

    A built plan as the list of its positions, and its acceptance by the projection: whatever
    is lowered, [validate_projection] accepts it, so materialization never fails there. *)

From S2P Require Import Prelude Cbor Sha256 Digest Fields Authority Identity Effect FlashStep Projection.
From S2P Require Import Plan Manifest Verification Profile Assessment Rockchip ProjectionAccepts.

(** ** Generated identifiers *)

Lemma parse_zeros n l : parse_digits 0 (replicate n 48 ++ l) = parse_digits 0 l.
Proof. induction n as [|n IH]; [done|]. cbn [replicate app parse_digits]. exact IH. Qed.

Definition pad3_bytes (n : Z) : bytes := replicate (3 - List.length (decimal n)) 48 ++ decimal n.

Lemma pad3_digits n : u32 n -> digit_bytes (pad3_bytes n).
Proof.
  intros [? _]. apply Forall_app. split; [|by apply decimal_digits]. apply Forall_forall.
  intros b Hb%elem_of_replicate. destruct Hb as [-> _]. lia.
Qed.

Lemma pad3_text n : u32 n -> bytes_of_string (pad3 n) = pad3_bytes n.
Proof.
  intros Hn. apply bytes_of_string_of_bytes. eapply Forall_impl; [by apply pad3_digits|]. cbn. intros. zlia.
Qed.

Lemma pad3_inj m n : u32 m -> u32 n -> pad3 m = pad3 n -> m = n.
Proof.
  intros Hm Hn E. apply (f_equal bytes_of_string) in E. rewrite !pad3_text in E by done.
  assert (forall k, u32 k -> parse_digits 0 (pad3_bytes k) = Some k) as Hp.
  { intros k Hk. unfold pad3_bytes. rewrite parse_zeros. apply (parse_decimal_rounds 9); [|by destruct Hk].
    change (10 ^ Z.of_nat 10) with 10000000000. ints. lia. }
  pose proof (Hp m Hm) as H1. rewrite E, (Hp n Hn) in H1. congruence.
Qed.

Lemma decimal_short n z : (List.length (decimal_rounds n z) <= n)%nat.
Proof.
  revert z; induction n as [|n IH]; intros z; cbn [decimal_rounds]; [done|]. rewrite length_app.
  specialize (IH (z / 10)). destruct (z <? 10); cbn; lia.
Qed.

(** The prefixes are short runs of an identifier. *)
Lemma generated_ok prefix n :
  u32 n -> forallb id_char (bytes_of_string prefix) = true -> 0 < zlen (bytes_of_string prefix) <= 5 ->
  id_ok (mkId (prefix +:+ pad3 n)).
Proof.
  intros Hn Hp Hl. apply OpaqueId_new_Ok. cbn [as_str]. unfold str_len. rewrite bytes_of_string_app, pad3_text by done.
  pose proof (decimal_short 10 n) as Hd. split; [done|]. split.
  - rewrite zlen_app. unfold zlen, pad3_bytes in *. rewrite length_app, length_replicate. unfold decimal, MAX_ID_LEN in *. lia.
  - apply Forall_app. split.
    + apply Forall_forall. intros b Hb%list_elem_of_In. rewrite forallb_forall in Hp. auto.
    + eapply Forall_impl; [by apply pad3_digits|]. intros b Hb. unfold id_char, in_range.
      cbn in Hb. destruct (Z.leb_spec 48 b), (Z.leb_spec b 57); (lia || done).
Qed.

Lemma step_name_ok n : u32 n -> id_ok (step_name n).
Proof. intros Hn. unfold step_name. apply (generated_ok "STEP-" n); done. Qed.

Lemma action_name_ok n : u32 n -> id_ok (action_name n).
Proof. intros Hn. apply (generated_ok "ACT-" n); done. Qed.

Lemma sub_action_name_ok n : u32 n -> id_ok (sub_action_name n).
Proof. intros Hn. apply (generated_ok "SUB-" n); done. Qed.

Lemma append_inj (p s t : string) : p +:+ s = p +:+ t -> s = t.
Proof. induction p as [|c p IH]; cbn; [done|]. intros [= E]. by apply IH. Qed.

Lemma name_inj prefix m n : u32 m -> u32 n -> prefix +:+ pad3 m = prefix +:+ pad3 n -> m = n.
Proof. intros Hm Hn E. apply append_inj in E. by apply pad3_inj. Qed.

(** ** A plan as its positions *)

Definition numbered (ps : list Position) : list (Z * Position) := imap (fun i p => (Z.of_nat i + 1, p)) ps.

Lemma numbered_snoc ps p : numbered (ps ++ [p]) = numbered ps ++ [(zlen ps + 1, p)].
Proof. unfold numbered. rewrite imap_app. cbn. by rewrite Nat.add_0_r. Qed.

Definition actions_at (np : Z * Position) : list PrivateActionRecord := subs_at np.1 np.2 ++ [primary_at np.1 np.2].

Definition declared_step (np : Z * Position) (s : PublicFlashStep) : Prop :=
  exists d, digest_of (primary_at np.1 np.2) = Ok d /\ s = step_at np.1 np.2 d.

Record built_with (ps : list Position) (b : Builder) : Prop := {
  with_sequence : b_sequence b = zlen ps;
  with_steps : Forall2 declared_step (numbered ps) (b_steps b);
  with_actions : b_actions b = concat (map actions_at (numbered ps));
  with_persistent : b_persistent b = concat (map p_declares ps)
}.

Lemma built_nothing : built_with [] (mkBuilder 0 [] [] []).
Proof. by split; constructor. Qed.

Lemma push_step_built ps b p b' : built_with ps b -> push_step b p = Ok b' -> built_with (ps ++ [p]) b'.
Proof.
  intros [Hs Hst Ha Hp] H. unfold push_step in H. rewrite Hs in H.
  destruct (digest_of _) as [d|] eqn:Hd; [|done]. injection H as <-. split; cbn.
  - by rewrite zlen_app.
  - rewrite numbered_snoc. apply Forall2_app; [done|]. constructor; [|constructor]. by exists d.
  - by rewrite numbered_snoc, map_app, concat_app, Ha; cbn; rewrite app_nil_r.
  - by rewrite map_app, concat_app, Hp; cbn; rewrite app_nil_r.
Qed.

Lemma push_targets_built body targets ps b b' :
  built_with ps b -> push_targets body targets b = Ok b' ->
  exists qs, Forall2 (fun t q => body t = Ok q) targets qs /\ built_with (ps ++ qs) b'.
Proof.
  revert ps b. induction targets as [|t targets IH]; intros ps b Hb H; cbn [push_targets] in H.
  - injection H as <-. exists []. by rewrite app_nil_r.
  - destruct (body t) as [q|] eqn:Hq; [|done]. destruct (push_step b q) as [b1|] eqn:E; [|done].
    destruct (IH _ _ (push_step_built _ _ _ _ Hb E) H) as (qs & Hqs & Hb').
    exists (q :: qs). split; [by constructor|]. by rewrite <- app_assoc in Hb'.
Qed.

(** The positions of a restore, in plan order. *)
Definition plan_positions (r : MaterializeRequest) (layout : Position) (writes verifies : list Position) : list Position :=
  (if bool_decide (observed_mode (r_probe r) = LOADER_MODE) then [] else [enter_loader]) ++
  [probe_loader; layout] ++ writes ++ verifies ++ [reset_device; verify_postflight (r_artifact r)].

Definition lowered_effects (r : MaterializeRequest) : list TransientEffect :=
  (if bool_decide (observed_mode (r_probe r) = LOADER_MODE) then [] else [EnterMode NORMAL_MODE LOADER_MODE]) ++
  [Reboot NORMAL_MODE].

Record lowered (r : MaterializeRequest) (built : BuiltPlan) (layout : Position) (writes verifies : list Position) : Prop := {
  lowered_permitted : ramdisk_permitted r = Ok true;
  lowered_layout : validate_layout (r_profile r) = Ok layout;
  lowered_writes : Forall2 (fun t q => write_target (r_artifact r) (r_profile r) t = Ok q) (selected_targets r) writes;
  lowered_verifies : Forall2 (fun t q => verify_target (r_artifact r) (r_profile r) t = Ok q) (selected_targets r) verifies;
  lowered_steps : Forall2 declared_step (numbered (plan_positions r layout writes verifies)) (built_steps built);
  lowered_actions :
    actions (built_private_plan built) = concat (map actions_at (numbered (plan_positions r layout writes verifies)));
  lowered_persistent :
    persistent (built_effects built) = concat (map p_declares (plan_positions r layout writes verifies));
  lowered_transient : transient (built_effects built) = lowered_effects r;
  lowered_impact : data_impact (built_effects built) =
    let impact := device_data_impact (r_profile r) in
    if bool_decide (r_intent r = RestoreRamdisk)
    then mkImpact Preserved (calibration impact) (non_volatile_config impact) (secure_storage impact)
    else impact
}.

Lemma build_steps_lowered r built :
  build_steps r = Ok built -> exists layout writes verifies, lowered r built layout writes verifies.
Proof.
  unfold build_steps. intros H. destruct (ramdisk_permitted r) as [[]|] eqn:Hr; [|done..]. cbn [negb] in H.
  set (b0 := mkBuilder 0 [] [] []) in H.
  set (enter := if bool_decide (observed_mode (r_probe r) = LOADER_MODE) then [] else [enter_loader]).
  destruct (if bool_decide _ then Ok b0 else push_step b0 enter_loader) as [b1|] eqn:E1; [|done].
  assert (built_with enter b1) as B1.
  { unfold enter. case_bool_decide; [injection E1 as <-; apply built_nothing|].
    apply (push_step_built [] _ _ _ built_nothing E1). }
  destruct (push_step b1 _) as [b2|] eqn:E2; [|done]. pose proof (push_step_built _ _ _ _ B1 E2) as B2.
  destruct (validate_layout _) as [layout|] eqn:El; [|done].
  destruct (push_step b2 _) as [b3|] eqn:E3; [|done]. pose proof (push_step_built _ _ _ _ B2 E3) as B3.
  destruct (push_targets _ _ b3) as [b4|] eqn:E4; [|done].
  destruct (push_targets_built _ _ _ _ _ B3 E4) as (writes & Hw & B4).
  destruct (push_targets _ _ b4) as [b5|] eqn:E5; [|done].
  destruct (push_targets_built _ _ _ _ _ B4 E5) as (verifies & Hv & B5).
  destruct (push_step b5 _) as [b6|] eqn:E6; [|done]. pose proof (push_step_built _ _ _ _ B5 E6) as B6.
  destruct (push_step b6 _) as [b7|] eqn:E7; [|done]. pose proof (push_step_built _ _ _ _ B6 E7) as B7.
  injection H as <-. exists layout, writes, verifies.
  repeat rewrite <- app_assoc in B7. change (built_with (plan_positions r layout writes verifies) b7) in B7.
  split; cbn; try done; apply B7.
Qed.

(** ** What each position promises the projection *)

(** The transient effect a position's step claims. *)
Definition p_moves (p : Position) : list TransientEffect :=
  match p_kind p with
  | EnsureMode => [EnterMode (p_before p) (p_after p)]
  | RebootDevice => [Reboot (p_after p)]
  | _ => []
  end.

(** The persistent effects a position declares are those its own write makes. *)
Definition declares_ok (p : Position) : Prop :=
  match p_kind p with
  | WriteTarget => exists partition range content,
      p_semantic p = TargetPartition partition /\ p_content p = Some content /\ p_range p = Some range /\
      p_declares p = [WritePartition partition range content]
  | EraseTarget | LoadAgent => False
  | _ => p_declares p = []
  end.

Record position_ok (p : Position) : Prop := {
  position_consistent : forall k d, validate_self_consistent (step_at k p d) = Ok tt;
  position_effect : effect_rank (p_class p) <= effect_rank (p_effect p);
  position_target : forall t, p_target p = Some t -> p_semantic p = t;
  position_declares : declares_ok p;
  position_sub : forall body, p_sub p = Some body -> writable body
}.

Lemma enter_loader_ok : position_ok enter_loader.
Proof. by split. Qed.

Lemma probe_loader_ok : position_ok probe_loader.
Proof. by split. Qed.

Lemma reset_device_ok : position_ok reset_device.
Proof. by split. Qed.

Lemma verify_postflight_ok artifact : position_ok (verify_postflight artifact).
Proof. by split. Qed.

Lemma validate_layout_ok profile p : validate_layout profile = Ok p -> position_ok p.
Proof. unfold validate_layout. destruct (layout_digest profile); [|done]. intros [= <-]. by split. Qed.

Lemma write_target_ok artifact profile t p : write_target artifact profile t = Ok p -> position_ok p.
Proof.
  unfold write_target. destruct (target_source _ _ _) as [[[? member] range]|]; [|done]. intros [= <-]. split; cbn; try done.
  - by intros ? [= <-].
  - by exists (target_partition t), range, (member_sha256 member).
Qed.

Lemma verify_target_ok artifact profile t p : verify_target artifact profile t = Ok p -> position_ok p.
Proof.
  unfold verify_target. intros H. repeat (case_hyp H; try done). ok_inv H. split; cbn; try done.
  - by intros ? [= <-].
  - intros body [= <-]. destruct (read_face (read_domain profile)); writable_map.
Qed.

Lemma plan_positions_ok r built layout writes verifies :
  lowered r built layout writes verifies -> Forall position_ok (plan_positions r layout writes verifies).
Proof.
  intros [_ Hl Hw Hv _ _ _ _ _]. unfold plan_positions.
  assert (Forall position_ok writes) as Fw.
  { clear -Hw. induction Hw; constructor; [by eapply write_target_ok|done]. }
  assert (Forall position_ok verifies) as Fv.
  { clear -Hv. induction Hv; constructor; [by eapply verify_target_ok|done]. }
  repeat apply Forall_app_2; try done.
  - case_bool_decide; [constructor|]. constructor; [apply enter_loader_ok|constructor].
  - constructor; [apply probe_loader_ok|]. constructor; [by eapply validate_layout_ok|constructor].
  - constructor; [apply reset_device_ok|]. constructor; [apply verify_postflight_ok|constructor].
Qed.

(** ** Numbering *)

Definition after_prefix (s : string) : string :=
  match s with String _ (String _ (String _ (String _ s))) => s | _ => EmptyString end.

Lemma numbered_elem ps np : np ∈ numbered ps -> 1 <= np.1 <= zlen ps /\ np.2 ∈ ps.
Proof.
  intros (i & Hi)%list_elem_of_lookup. unfold numbered in Hi. rewrite list_lookup_imap in Hi.
  destruct (ps !! i) as [p|] eqn:E; [|done]. injection Hi as <-. cbn. split; [|by eapply list_elem_of_lookup_2].
  apply lookup_lt_Some in E. unfold zlen. lia.
Qed.

Lemma numbered_fst ps : map fst (numbered ps) = map (fun i => Z.of_nat i + 1) (List.seq 0 (List.length ps)).
Proof.
  induction ps as [|p ps IH] using rev_ind; [done|].
  rewrite numbered_snoc, map_app, IH, length_app. cbn [List.length map]. rewrite Nat.add_1_r, seq_S, map_app. done.
Qed.

Lemma numbered_snd ps : map snd (numbered ps) = ps.
Proof.
  induction ps as [|p ps IH] using rev_ind; [done|]. by rewrite numbered_snoc, map_app, IH.
Qed.

Section Counted.
Context (ps : list Position) (Hcount : zlen ps <= U32_MAX).

Lemma numbered_u32 np : np ∈ numbered ps -> u32 np.1.
Proof using Hcount. intros [? _]%numbered_elem. zlia. Qed.

Lemma texts_distinct : NoDup (map (fun np => pad3 np.1) (numbered ps)).
Proof using Hcount.
  rewrite <- (map_map fst pad3).
  assert (Forall u32 (map fst (numbered ps))) as Hu.
  { apply Forall_map, Forall_forall. apply numbered_u32. }
  assert (NoDup (map fst (numbered ps))) as Hnd.
  { rewrite numbered_fst. apply NoDup_fmap_2; [intros i j ?; lia|]. apply NoDup_ListNoDup, seq_NoDup. }
  induction Hnd as [|n l Hn _ IH]; cbn [map]; [constructor|]. apply Forall_cons in Hu as [Hn' Hu].
  constructor; [|auto]. intros (m & Hm & Hin)%list_elem_of_fmap. rewrite Forall_forall in Hu.
  apply pad3_inj in Hm; [|done|by apply Hu]. by subst.
Qed.

Lemma step_names_distinct : NoDup (map (fun np => as_str (step_name np.1)) (numbered ps)).
Proof using Hcount.
  change (NoDup (map (fun np => (fun s => "STEP-" +:+ s) ((fun np => pad3 np.1) np)) (numbered ps))).
  rewrite <- map_map.
  apply NoDup_fmap_2; [intros s t; apply append_inj|apply texts_distinct].
Qed.

Lemma action_names_distinct : NoDup (map (fun a => as_str (action_id a)) (concat (map actions_at (numbered ps)))).
Proof using Hcount.
  rewrite concat_map, map_map.
  apply (NoDup_concat_keys after_prefix _ (fun np => pad3 np.1)); [apply texts_distinct|].
  intros [n p] _. unfold actions_at, subs_at. cbn [fst snd]. destruct (p_sub p); cbn; split.
  - repeat (constructor; [|]); try (apply NoDup_nil_2). 
    + by intros [E|[]%elem_of_nil]%elem_of_cons.
    + by intros []%elem_of_nil.
  - intros b [->|[->|[]%elem_of_nil]%elem_of_cons]%elem_of_cons; done.
  - constructor; [by intros []%elem_of_nil|constructor].
  - intros b [->|[]%elem_of_nil]%elem_of_cons; done.
Qed.
End Counted.

(** ** A lowered plan is accepted *)

Definition ready (np : Z * Position) : Prop := u32 np.1 /\ position_ok np.2.

Lemma primaries_of l : List.filter is_primary (concat (map actions_at l)) = map (fun np => primary_at np.1 np.2) l.
Proof.
  induction l as [|np l IH]; [done|]. cbn [map concat]. rewrite List.filter_app, IH.
  unfold actions_at, subs_at. by destruct (p_sub np.2).
Qed.

Lemma actions_elem l a : a ∈ concat (map actions_at l) <-> exists np, np ∈ l /\ a ∈ actions_at np.
Proof. apply elem_of_concat_map. Qed.

Lemma primary_in l np : np ∈ l -> primary_at np.1 np.2 ∈ concat (map actions_at l).
Proof. intros H. apply actions_elem. exists np. split; [done|]. apply elem_of_app. right. by left. Qed.

(** An action is the primary of its position, or a sub-action with the position's body. *)
Lemma actions_at_cases np a :
  a ∈ actions_at np -> a = primary_at np.1 np.2 \/ exists body, p_sub np.2 = Some body /\
    a = mkAction (sub_action_name np.1) (step_name np.1) ReadOnlyTransportSubAction EReadOnly None None None body.
Proof.
  unfold actions_at, subs_at. intros [Ha|[->|[]%elem_of_nil]%elem_of_cons]%elem_of_app; [|by left].
  destruct (p_sub np.2) as [body|]; [|by apply elem_of_nil in Ha].
  apply elem_of_cons in Ha as [->|[]%elem_of_nil]. right. by exists body.
Qed.

Lemma declared_step_authorized np s :
  ready np -> declared_step np s ->
  step_id s = step_name np.1 /\ validate_self_consistent s = Ok tt /\ authorizes s (primary_at np.1 np.2).
Proof.
  intros [_ Hp] (d & Hd & ->). split_and!; [done|by apply Hp|]. unfold authorizes. cbn. split_and!; try done.
  - unfold digest_of in Hd. by destruct (action_digest _) as [?|]; [injection Hd as <-|].
  - by apply Hp.
  - intros t Ht. f_equal. by apply Hp.
Qed.

Lemma declared_keys l steps :
  Forall2 declared_step l steps -> map step_key steps = map (fun np => as_str (step_name np.1)) l.
Proof. induction 1 as [|np s l steps (d & _ & ->) _ IH]; cbn; [done|]. by rewrite IH. Qed.

Lemma action_encodes np a :
  ready np -> is_ok (action_digest (primary_at np.1 np.2)) = true -> a ∈ actions_at np -> is_ok (action_digest a) = true.
Proof.
  intros [Hn Hp] Hd [->|(body & Hb & ->)]%actions_at_cases; [done|].
  pose proof (position_sub _ Hp body Hb). pose proof (step_name_ok _ Hn). pose proof (sub_action_name_ok _ Hn).
  unfold action_digest, digest_canonical, value_bytes.
  assert (writable (to_cbor (mkAction (sub_action_name np.1) (step_name np.1) ReadOnlyTransportSubAction EReadOnly None None
                               None body))) as [_ [bytes ->]]; [|done].
  writable_map; done.
Qed.

Lemma next_persistent_declared l steps :
  Forall2 declared_step l steps -> Forall ready l ->
  Forall2 (fun s es => if writes s then exists e target a, es = [e] /\ semantic_target s = Some target /\
             a ∈ concat (map actions_at l) /\ is_primary a = true /\ action_key a = step_key s /\
             persistent_effect_matches e s target a = true else es = [])
    steps (map p_declares (map snd l)).
Proof.
  intros Hl Hr. rewrite map_map.
  assert (forall np, np ∈ l -> primary_at np.1 np.2 ∈ concat (map actions_at l)) as Hin by apply primary_in.
  set (acts := concat (map actions_at l)) in *. clearbody acts.
  induction Hl as [|np s l steps (d & Hd & ->) _ IH]; cbn [map]; [constructor|].
  apply Forall_cons in Hr as [[_ Hp] Hr]. constructor; [|apply IH; [done|]; intros; apply Hin; by right].
  pose proof (position_declares _ Hp) as Hde. unfold declares_ok in Hde. unfold writes. cbn [kind step_at].
  destruct (p_kind np.2) eqn:Hk; try done.
  destruct Hde as (partition & range & content & Hs & Hc & Hrg & He).
  exists (WritePartition partition range content), (TargetPartition partition), (primary_at np.1 np.2).
  split_and!; [done|cbn; by rewrite Hs|apply Hin; by left|done..|].
  cbn. rewrite Hk, Hc, Hrg. rewrite !bool_decide_eq_true_2 by done. cbn.
  unfold contains_range. by rewrite !Z.leb_refl.
Qed.

Lemma next_transient_declared l steps :
  Forall2 declared_step l steps -> Forall ready l -> Forall2 next_transient steps (map p_moves (map snd l)).
Proof.
  intros Hl Hr. induction Hl as [|np s l steps (d & Hd & ->) _ IH]; cbn [map]; [constructor|].
  apply Forall_cons in Hr as [[_ Hp] Hr]. constructor; [|by apply IH].
  pose proof (position_declares _ Hp) as Hde. unfold declares_ok in Hde.
  unfold next_transient, moves, p_moves. cbn [kind step_at].
  destruct (p_kind np.2) eqn:Hk; try done; eexists; (split; [done|]); cbn; rewrite Hk;
    by rewrite ?bool_decide_eq_true_2.
Qed.

Lemma positions_project ps steps acts effects :
  ps <> [] -> zlen ps <= U32_MAX -> Forall position_ok ps ->
  Forall2 declared_step (numbered ps) steps -> acts = concat (map actions_at (numbered ps)) ->
  persistent effects = concat (map p_declares ps) -> transient effects = concat (map p_moves ps) ->
  projects steps acts effects.
Proof.
  intros Hne Hc Hok Hst -> Hp Ht.
  assert (Forall ready (numbered ps)) as Hready.
  { apply Forall_forall. intros np Hnp. split; [by eapply numbered_u32|]. apply numbered_elem in Hnp as [_ Hin].
    rewrite Forall_forall in Hok. auto. }
  assert (forall np, np ∈ numbered ps -> ready np) as Hr by (by apply Forall_forall).
  assert (forall a, a ∈ concat (map actions_at (numbered ps)) -> exists np, np ∈ numbered ps /\ a ∈ actions_at np) as Ha
    by (intros a; apply actions_elem).
  pose proof (declared_keys _ _ Hst) as Hkeys.
  assert (forall s, s ∈ steps -> exists np, np ∈ numbered ps /\ declared_step np s) as Hs.
  { intros s [i Hi]%list_elem_of_lookup. destruct (Forall2_lookup_r _ _ _ _ _ Hst Hi) as (np & Hnp & Hd).
    exists np. split; [by eapply list_elem_of_lookup_2|done]. }
  split.
  - intros ->. apply Forall2_nil_inv_r in Hst. apply Hne. rewrite <- (numbered_snd ps), Hst. done.
  - rewrite Hkeys. by apply step_names_distinct.
  - apply Forall_forall. intros s (np & Hnp & Hd)%Hs. eapply declared_step_authorized; [by apply Hr|done].
  - by apply action_names_distinct.
  - apply Forall_forall. intros a (np & Hnp & Hin)%Ha. rewrite Hkeys. apply list_elem_of_fmap. exists np. split; [|done].
    by apply actions_at_cases in Hin as [->|(body & _ & ->)].
  - rewrite primaries_of, map_map. by apply step_names_distinct.
  - apply Forall_forall. intros a (np & Hnp & Hin)%Ha. by apply actions_at_cases in Hin as [->|(body & _ & ->)].
  - apply Forall_forall. intros s (np & Hnp & Hd)%Hs. exists (primary_at np.1 np.2). split; [by apply primary_in|].
    eapply declared_step_authorized; [by apply Hr|done].
  - apply Forall_forall. intros a (np & Hnp & Hin)%Ha. destruct (Hr _ Hnp) as [Hn _].
    apply actions_at_cases in Hin as [->|(body & _ & ->)]; cbn [action_id action_step_id primary_at];
      (split; [by apply action_name_ok || by apply sub_action_name_ok|by apply step_name_ok]).
  - apply Forall_forall. intros a (np & Hnp & Hin)%Ha. apply (action_encodes np); [by apply Hr| |done].
    apply list_elem_of_lookup in Hnp as [i Hi]. destruct (Forall2_lookup_l _ _ _ _ _ Hst Hi) as (s & _ & d & Hd & _).
    unfold digest_of in Hd. by destruct (action_digest _).
  - assert (forall l, (List.length (concat (map actions_at l)) <= 2 * List.length l)%nat) as Hlen.
    { clear. intros l. induction l as [|np l IH]; cbn [map concat]; [done|]. rewrite length_app. cbn [List.length].
      assert (List.length (actions_at np) <= 2)%nat by (unfold actions_at, subs_at; destruct (p_sub np.2); cbn; lia). lia. }
    specialize (Hlen (numbered ps)). 
    assert (List.length (numbered ps) = List.length ps) as Hl.
    { pose proof (f_equal List.length (numbered_snd ps)) as E. by rewrite length_map in E. }
    unfold zlen in *. split; [lia|]. ints. lia.
  - exists (map p_declares ps), (map p_moves ps). split_and!; [done..| |].
    + pose proof (next_persistent_declared _ _ Hst Hready) as H. by rewrite numbered_snd in H.
    + pose proof (next_transient_declared _ _ Hst Hready) as H. by rewrite numbered_snd in H.
Qed.

Lemma concat_nils {A B} (f : A -> list B) l : Forall (fun a => f a = []) l -> concat (map f l) = [].
Proof. induction 1 as [|a l E _ IH]; cbn; [done|]. by rewrite E, IH. Qed.

Lemma writes_fixed artifact profile targets ps :
  Forall2 (fun t q => write_target artifact profile t = Ok q) targets ps -> concat (map p_moves ps) = [].
Proof.
  intros H. apply concat_nils. induction H as [|t q ts ps Hq _ IH]; constructor; [|done].
  unfold write_target in Hq. destruct (target_source _ _ _) as [[[? ?] ?]|]; [|done]. by injection Hq as <-.
Qed.

Lemma verifies_fixed artifact profile targets ps :
  Forall2 (fun t q => verify_target artifact profile t = Ok q) targets ps ->
  concat (map p_moves ps) = [] /\ concat (map p_declares ps) = [].
Proof.
  intros H. split; apply concat_nils; induction H as [|t q ts ps Hq _ IH]; constructor; try done;
    unfold verify_target in Hq; repeat (case_hyp Hq; try done); by injection Hq as <-.
Qed.

Lemma lowered_moves r built layout writes verifies :
  lowered r built layout writes verifies ->
  concat (map p_moves (plan_positions r layout writes verifies)) = lowered_effects r.
Proof.
  intros L. unfold plan_positions, lowered_effects. rewrite !map_app, !concat_app.
  rewrite (writes_fixed _ _ _ _ (lowered_writes _ _ _ _ _ L)).
  rewrite (proj1 (verifies_fixed _ _ _ _ (lowered_verifies _ _ _ _ _ L))).
  pose proof (lowered_layout _ _ _ _ _ L) as Hl. unfold validate_layout in Hl.
  destruct (layout_digest _); [|done]. injection Hl as <-. by case_bool_decide.
Qed.

(** The positions of a plan, counted. *)
Lemma positions_count r built layout writes verifies :
  lowered r built layout writes verifies ->
  zlen (plan_positions r layout writes verifies) <= 2 * zlen (selected_targets r) + 5.
Proof.
  intros L. pose proof (Forall2_length _ _ _ (lowered_writes _ _ _ _ _ L)).
  pose proof (Forall2_length _ _ _ (lowered_verifies _ _ _ _ _ L)).
  unfold plan_positions. rewrite !zlen_app. unfold zlen. case_bool_decide; cbn [List.length]; lia.
Qed.

(** The step counter of a plan for this many targets stays within its [u32]. *)
Definition countable (r : MaterializeRequest) : Prop := 2 * zlen (selected_targets r) + 5 <= U32_MAX.

Lemma lowered_projects r built :
  build_steps r = Ok built -> countable r ->
  exists d, validate_projection (built_steps built) (built_private_plan built) (built_effects built) = Ok d.
Proof.
  intros (layout & writes & verifies & L)%build_steps_lowered Hc.
  destruct (built_private_plan built) as [acts] eqn:Ea. apply projection_accepts.
  apply (positions_project (plan_positions r layout writes verifies)).
  - unfold plan_positions. by case_bool_decide.
  - pose proof (positions_count _ _ _ _ _ L). unfold countable in Hc. lia.
  - by eapply plan_positions_ok.
  - apply L.
  - pose proof (lowered_actions _ _ _ _ _ L) as Hact. by rewrite Ea in Hact.
  - apply L.
  - rewrite (lowered_moves _ _ _ _ _ L). apply L.
Qed.
