(* ===== verification/RockchipSafe.v ===== *)
(** * What the provider's plans do (crates/arkforge-provider/src/lib.rs, rockchip.rs)

    The execution gate of materialization, the writes of an executable plan, the published
    maturity, and reconciliation that cannot write. *)

From S2P Require Import Prelude Cbor Sha256 Digest Fields Authority Identity Effect FlashStep Projection.
From S2P Require Import Plan Manifest Verification Profile Assessment Rockchip ProjectionAccepts RockchipPlan.

(** ** Published maturity *)

Lemma find_filter_ne {A} (key : A -> Sha256Digest) (l : list A) d e :
  d <> e -> List.find (fun a => bool_decide (key a = d)) (List.filter (fun a => negb (bool_decide (key a = e))) l) =
            List.find (fun a => bool_decide (key a = d)) l.
Proof.
  intros Hne. induction l as [|a l IH]; cbn; [done|]. destruct (decide (key a = e)) as [E|E].
  - rewrite bool_decide_eq_true_2 by done. cbn. rewrite bool_decide_eq_false_2 by congruence. exact IH.
  - rewrite (bool_decide_eq_false_2 _ E). cbn. by rewrite IH.
Qed.

Lemma find_filter_gone {A} (key : A -> Sha256Digest) (l : list A) e :
  List.find (fun a => bool_decide (key a = e)) (List.filter (fun a => negb (bool_decide (key a = e))) l) = None.
Proof.
  induction l as [|a l IH]; cbn; [done|]. destruct (decide (key a = e)) as [E|E].
  - by rewrite bool_decide_eq_true_2.
  - rewrite bool_decide_eq_false_2 by done. cbn. by rewrite bool_decide_eq_false_2.
Qed.

Lemma find_snoc {A} (p : A -> bool) l a :
  List.find p (l ++ [a]) = match List.find p l with Some b => Some b | None => if p a then Some a else None end.
Proof. induction l as [|b l IH]; cbn; [done|]. by destruct (p b). Qed.

(** The registry is a map by key digest: publishing a combination replaces what was
    published for it and changes nothing else; a key never published is unavailable, so it
    never permits execution. *)
Theorem published_maturity registry registry' key state other d e :
  publish_maturity registry key state = Ok registry' ->
  maturity_key_digest key = Ok d -> maturity_key_digest other = Ok e ->
  lookup_maturity registry' other = (if bool_decide (e = d) then state else lookup_maturity registry other) /\
  Identity.permits_executable_plan (lookup_maturity [] other) = false.
Proof.
  unfold publish_maturity, lookup_maturity. intros H Hd He. rewrite Hd in H. cbn in H. injection H as <-. rewrite He.
  split; [|done]. rewrite find_snoc. cbn [fst]. destruct (decide (e = d)) as [->|Hne].
  - rewrite (find_filter_gone fst). by rewrite !bool_decide_eq_true_2.
  - rewrite (find_filter_ne fst) by done. rewrite (bool_decide_eq_false_2 (e = d)) by done.
    rewrite (bool_decide_eq_false_2 (d = e)) by congruence. by destruct (List.find _ registry).
Qed.

(** ** The execution gate *)


Lemma plan_blockers_nil r state violations :
  plan_blockers r state violations = [] <->
  violations = [] /\ residual_artifact_unknowns (r_artifact r) (r_profile r) = [] /\
  Identity.permits_executable_plan state = true /\ permits_execution (support_state (r_authority_support r)) = true.
Proof.
  unfold plan_blockers. destruct violations; [|split; [done|by intros [? _]]].
  destruct (residual_artifact_unknowns _ _); [|split; [done|by intros (_ & ? & _)]].
  destruct (Identity.permits_executable_plan state); [|split; [done|by intros (_ & _ & ? & _)]].
  by destruct (permits_execution _); split; try done; intros (_ & _ & _ & ?).
Qed.

(** What a materialization that returns went through. *)
Lemma build_materialized_inv r registry m :
  build_materialized_plan r registry = Ok m ->
  exists identity violations built,
    profile_identity (r_profile r) = Ok identity /\ validate (r_artifact r) (r_profile r) (r_probe r) = Ok violations /\
    build_steps r = Ok built /\ materialized_private_plan m = Some (built_private_plan built) /\
    let blockers := plan_blockers r (lookup_maturity registry (maturity_key_of r identity)) violations in
    ((blockers <> [] /\ exists a, materialization m = Assessment a /\ a_unknowns a = blockers) \/
     (blockers = [] /\ exists i plan, materialization m = Executable plan /\ seal i = Ok plan /\
       validate_projection (built_steps built) (built_private_plan built) (built_effects built) = Ok (s_projection i) /\
       s_public_steps i = built_steps built /\ s_effect_set i = built_effects built)).
Proof.
  unfold build_materialized_plan. intros H.
  destruct (profile_identity _) as [identity|] eqn:Hi; [cbn [map_err] in H|done].
  destruct (validate _ _ _) as [violations|] eqn:Hv; [|done].
  destruct (build_steps r) as [built|] eqn:Hb; [|done].
  exists identity, violations, built. split; [done|]. split; [done|]. split; [done|]. cbn zeta.
  destruct (plan_blockers _ _ _) as [|b bs] eqn:Hbl; cbn [negb is_nil] in H.
  - destruct (validate_projection _ _ _) as [d|] eqn:Hp; [cbn [map_err] in H|done].
    destruct (manifest_digest_of _) as [md|]; [cbn [map_err] in H|done].
    destruct (recovery_contract_of r) as [contract|]; [|done].
    destruct (checked_add _ _) as [expires|]; [cbn [ok_or] in H|done].
    match type of H with context [seal ?i] => set (input := i) in H end.
    destruct (seal input) as [plan|] eqn:Hs; [cbn [map_err] in H|done]. injection H as <-.
    split; [done|]. right. split; [done|]. exists input, plan. by split_and!.
  - injection H as <-. split; [done|]. left. split; [done|]. eexists. by split.
Qed.


(** ** What an executable plan writes *)

(** A target the artifact and the profile agree on: the table has the partition at the
    profile's offset, a member supplies it and fits the partition. *)
Definition agreed (artifact : ArtifactManifest) (table : PartitionTableFact) (t : AllowedTarget) : Prop :=
  exists entry name member,
    table_entry table (as_str (target_partition t)) = Some entry /\
    Manifest.offset_sectors entry = Profile.offset_sectors t /\
    source_member t = Some name /\ manifest_member artifact name = Some member /\
    forall sectors, size_sectors entry = Some sectors ->
      member_size member <= sectors * Manifest.logical_block_size table <= U64_MAX.

Lemma validate_target_nil artifact table t : validate_target artifact table t = Ok [] -> agreed artifact table t.
Proof.
  unfold validate_target. intros H. destruct (table_entry _ _) as [entry|] eqn:He; [|done].
  destruct (Z.eqb_spec (Manifest.offset_sectors entry) (Profile.offset_sectors t)) as [Ho|Ho]; cbn [negb] in H.
  2: { repeat (case_hyp H; try done). }
  destruct (source_member t) as [name|] eqn:Hn; [|done].
  destruct (manifest_member artifact name) as [member|] eqn:Hm; [|done].
  exists entry, name, member. split_and!; try done. intros sectors Hs. rewrite Hs in H.
  unfold checked_mul in H. destruct (Z.leb_spec (sectors * Manifest.logical_block_size table) U64_MAX); [cbn [ok_or] in H|done].
  destruct (Z.ltb_spec (sectors * Manifest.logical_block_size table) (member_size member)); [done|]. lia.
Qed.

Lemma validate_targets_nil artifact table targets :
  validate_targets artifact table targets = Ok [] -> Forall (agreed artifact table) targets.
Proof.
  induction targets as [|t targets IH]; cbn [validate_targets]; intros H; [constructor|].
  destruct (validate_target _ _ _) as [found|] eqn:E; [|done].
  destruct (validate_targets _ _ targets) as [rest|]; [|done]. injection H as [-> ->]%app_eq_nil.
  constructor; [by apply validate_target_nil|auto].
Qed.

Lemma flat_map_nil {A B} (f : A -> list B) l : flat_map f l = [] <-> Forall (fun a => f a = []) l.
Proof.
  induction l as [|a l IH]; cbn; [split; [constructor|done]|]. rewrite Forall_cons, <- IH. split.
  - by intros [? ?]%app_eq_nil.
  - by intros [-> ->].
Qed.

Lemma allowed_target_None p id : is_none (allowed_target p id) = true -> Forall (fun t => target_partition t <> id) (allowed_targets p).
Proof.
  unfold allowed_target. intros H. destruct (List.find _ _) eqn:E; [done|]. apply Forall_forall. intros t Ht.
  eapply find_none in E; [|by apply list_elem_of_In]. cbn in E. by apply bool_decide_eq_false in E.
Qed.

(** Validation that finds nothing. *)
Lemma validate_nil artifact profile probe :
  validate artifact profile probe = Ok [] ->
  exists table, m_partition_table artifact = Some table /\ Forall (agreed artifact table) (allowed_targets profile) /\
    Forall (fun t => target_partition t ∉ protected_targets profile) (allowed_targets profile) /\
    (exists d, mode profile (observed_mode probe) = Some d).
Proof.
  unfold validate. intros H. destruct (m_partition_table artifact) as [table|]; cycle 1.
  { injection H as H. by apply app_eq_nil in H as [_ ?]. }
  destruct (validate_targets _ _ _) as [found|] eqn:E; [|done]. injection H as H.
  apply app_eq_nil in H as [_ H]. apply app_eq_nil in H as [-> H]. apply app_eq_nil in H as [Hp Hm].
  exists table. split_and!; [done|by apply validate_targets_nil| |].
  - apply flat_map_nil in Hp. apply Forall_forall. intros t Ht Hin. rewrite Forall_forall in Hp. specialize (Hp _ Hin).
    cbn in Hp. destruct (is_none _) eqn:Ea; [|done]. apply allowed_target_None in Ea. rewrite Forall_forall in Ea. by apply (Ea t).
  - destruct (mode profile _) as [d|]; [by exists d|done].
Qed.

(** The effect a target's write has. *)
Definition writes_target (artifact : ArtifactManifest) (profile : DeviceProfile) (t : AllowedTarget) (e : PersistentEffect) : Prop :=
  exists name member block,
    source_member t = Some name /\ manifest_member artifact name = Some member /\
    Profile.logical_block_size (storage profile) = Some block /\
    e = WritePartition (target_partition t) (mkRange (Profile.offset_sectors t * block) (member_size member)) (member_sha256 member) /\
    Profile.offset_sectors t * block + member_size member <= U64_MAX.

Lemma write_target_writes artifact profile t p :
  write_target artifact profile t = Ok p -> exists e, p_declares p = [e] /\ writes_target artifact profile t e.
Proof.
  unfold write_target, target_source, block_size, checked_mul. intros H.
  destruct (source_member t) as [name|] eqn:Hn; [cbn [ok_or] in H|done].
  destruct (manifest_member artifact name) as [member|] eqn:Hm; [cbn [ok_or] in H|done].
  destruct (Profile.logical_block_size _) as [block|] eqn:Hb; [cbn [ok_or] in H|done].
  destruct (_ <=? U64_MAX); [cbn [ok_or] in H|done].
  destruct (ByteRange_new _ _) as [range|] eqn:Hr; [|done]. injection H as <-.
  unfold ByteRange_new, checked_add in Hr. destruct (_ =? 0); [done|].
  destruct (Z.leb_spec (Profile.offset_sectors t * block + member_size member) U64_MAX); [|done]. injection Hr as <-.
  eexists. split; [reflexivity|]. exists name, member, block. by split_and!.
Qed.

Lemma writes_declare artifact profile targets ps :
  Forall2 (fun t q => write_target artifact profile t = Ok q) targets ps ->
  Forall2 (writes_target artifact profile) targets (concat (map p_declares ps)).
Proof.
  induction 1 as [|t q ts ps Hq _ IH]; cbn [map concat]; [constructor|].
  apply write_target_writes in Hq as (e & -> & He). by constructor.
Qed.

(** The effects a plan declares are the writes of the selected targets, in order. *)
Lemma lowered_declares r built layout writes verifies :
  lowered r built layout writes verifies ->
  Forall2 (writes_target (r_artifact r) (r_profile r)) (selected_targets r) (persistent (built_effects built)).
Proof.
  intros L. rewrite (lowered_persistent _ _ _ _ _ L). unfold plan_positions. rewrite !map_app, !concat_app.
  rewrite (proj2 (verifies_fixed _ _ _ _ (lowered_verifies _ _ _ _ _ L))).
  pose proof (lowered_layout _ _ _ _ _ L) as Hl. unfold validate_layout in Hl.
  destruct (layout_digest _); [|done]. injection Hl as <-.
  replace (concat (map p_declares (if bool_decide _ then [] else [enter_loader]))) with (@nil PersistentEffect)
    by (by case_bool_decide).
  cbn. rewrite app_nil_r. apply writes_declare, L.
Qed.

Lemma selected_elem r t :
  t ∈ selected_targets r <->
  t ∈ allowed_targets (r_profile r) /\ (r_intent r = FullRestore \/ as_str (target_partition t) = "ramdisk"%string).
Proof.
  unfold selected_targets, ordered_targets. rewrite (sort_by_perm write_order_leb).
  rewrite list_elem_of_In, filter_In, <- list_elem_of_In, orb_true_iff, bool_decide_eq_true, String.eqb_eq. done.
Qed.

(** C7. An executable plan writes exactly the profile's selected targets (all of them, or
    the ramdisk alone), in write order, each once: the effect of a target is a write of the
    artifact's member for it, at the profile's offset times its block size and for the
    member's length without overflow, where the artifact's own table has the partition at the
    same offset and with room for the member, and no protected partition is written. *)
Theorem executable_plan_writes r registry m plan :
  build_materialized_plan r registry = Ok m -> executable (materialization m) = Some plan ->
  Forall2 (writes_target (r_artifact r) (r_profile r)) (selected_targets r) (persistent (effect_set plan)) /\
  StronglySorted (fun a b => write_order_leb a b = true) (selected_targets r) /\
  (exists table, m_partition_table (r_artifact r) = Some table /\
     forall t, t ∈ selected_targets r ->
       agreed (r_artifact r) table t /\ t ∈ allowed_targets (r_profile r) /\
       target_partition t ∉ protected_targets (r_profile r)) /\
  validate_executable (effect_set plan) = Ok tt.
Proof.
  intros (identity & violations & built & Hi & Hv & Hb & _ & Hcase)%build_materialized_inv Hx. cbn zeta in Hcase.
  destruct Hcase as [(_ & a & Ha & _)|(Hnil & i & plan' & Hp & Hs & _ & _ & He)].
  { by rewrite Ha in Hx. }
  rewrite Hp in Hx. injection Hx as ->. apply plan_blockers_nil in Hnil as (-> & _).
  apply seal_Ok in Hs as (_ & Hex & body & _ & ->). cbn [effect_set envelope_of]. rewrite He in *.
  apply build_steps_lowered in Hb as (layout & writes & verifies & L).
  apply validate_nil in Hv as (table & Ht & Hag & Hpr & _). split_and!; [by eapply lowered_declares| | |done].
  - apply (sort_by_sorted _ write_order_total write_order_trans).
  - exists table. split; [done|]. intros t [Hin _]%selected_elem. rewrite Forall_forall in Hag, Hpr. auto.
Qed.

(** C16. The provider's lowering always agrees with the core's projection check: whatever
    restore [build_steps] lowers, its public steps, private actions and declared effects are
    accepted by [validate_projection], so materialization never fails there. *)
Theorem lowering_projects r built :
  build_steps r = Ok built -> countable r ->
  exists d, validate_projection (built_steps built) (built_private_plan built) (built_effects built) = Ok d.
Proof. apply lowered_projects. Qed.

(** ** The ramdisk alone *)

(** C40. Restoring the ramdisk is lowered only for the purpose of a primary flash, under a
    campaign where the authority's support permits execution, and for an artifact whose
    [ramdisk.img] is the pinned image at its full size.  The plan reports user data as preserved
    and writes the ramdisk partition alone, with the member the profile names for it: the pinned
    image, at its full size, where that is [ramdisk.img]. *)
Theorem ramdisk_restore_pinned r built :
  build_steps r = Ok built -> r_intent r = RestoreRamdisk ->
  r_purpose r = PrimaryFlash /\
  (permits_execution (support_state (r_authority_support r)) = true -> support_campaign (support_state (r_authority_support r)) <> None) /\
  (exists image, manifest_member (r_artifact r) "ramdisk.img" = Some image /\ member_size image = MAX_IMAGE_BYTES /\
     restoration_digest = Ok (member_sha256 image)) /\
  userdata (data_impact (built_effects built)) = Preserved /\
  Forall2 (fun t e => writes_target (r_artifact r) (r_profile r) t e /\
      exists offset size content, e = WritePartition (mkId "ramdisk") (mkRange offset size) content /\
        (source_member t = Some "ramdisk.img"%string -> size = MAX_IMAGE_BYTES /\ restoration_digest = Ok content))
    (selected_targets r) (persistent (built_effects built)).
Proof.
  intros H Hi. pose proof H as (layout & writes & verifies & L)%build_steps_lowered.
  pose proof (lowered_permitted _ _ _ _ _ L) as Hp. unfold ramdisk_permitted in Hp.
  rewrite bool_decide_eq_true_2 in Hp by done. case_bool_decide as Hpur; [cbn [negb] in Hp|done].
  destruct (permits_execution _ && is_none _) eqn:Hs; [done|].
  destruct (manifest_member (r_artifact r) "ramdisk.img") as [image|] eqn:Himage; [|done].
  destruct restoration_digest as [pinned|] eqn:Hr; [|done]. injection Hp as Hp.
  apply andb_true_iff in Hp as [Hd%bool_decide_eq_true Hz%Z.eqb_eq]. split; [done|]. split.
  { intros Ht. rewrite Ht in Hs. cbn in Hs. intros E. by rewrite E in Hs. }
  split; [exists image; by subst pinned|]. split.
  - rewrite (lowered_impact _ _ _ _ _ L). cbn zeta. by rewrite bool_decide_eq_true_2.
  - pose proof (lowered_declares _ _ _ _ _ L) as Hw. apply Forall2_same_length_lookup.
    split; [by apply Forall2_length in Hw|]. intros i t e Ht He.
    pose proof (Forall2_lookup_lr _ _ _ _ _ _ Hw Ht He) as Hwt. split; [done|].
    destruct Hwt as (name & member & block & Hn & Hm & _ & -> & _).
    apply list_elem_of_lookup_2, selected_elem in Ht as [_ [Ht|Ht]]; [congruence|].
    eexists _, _, _. split; [f_equal; by apply id_eq|]. rewrite Hn. intros [= ->]. rewrite Himage in Hm. injection Hm as <-.
    by subst pinned.
Qed.

(** ** Reconciliation *)

(** The actions that touch the device only to read. *)
Definition reads_only (a : StoredAction) : Prop :=
  match a with
  | ProbeLoader | ValidatePartitionTable _ | CharacterizeReadDomain | StoredReadback _ _ _ _ => True
  | ManagedControl _ _ | StoredWrite _ _ _ | ResetDevice => False
  end.

(** Reconciliation after a crash cannot write: what it selects is the plan's own
    actions in the plan's order, each recorded as read-only and decoding to a probe, a layout
    check, a characterization or the readback of an effect that may have happened - never a
    mode change, a write or a reset. *)
Theorem reconcile_cannot_write possible records selected :
  reconcile_read_only possible records = Ok selected ->
  sublist selected records /\
  Forall (fun record => effect_class record = EReadOnly /\
    exists action, stored_action_decode record = Ok action /\ reads_only action /\
      (forall partition sector strength filler, action = StoredReadback partition sector strength filler ->
         exists p range content, WritePartition p range content ∈ possible /\
           declared_target record = Some (TargetPartition p) /\ declared_range record = Some range /\
           action_content record = Some content)) selected.
Proof.
  revert selected. induction records as [|record records IH]; intros selected H; cbn [reconcile_read_only] in H.
  { injection H as <-. split; constructor. }
  destruct (stored_action_decode record) as [action|] eqn:Hd; [cbn [map_err] in H|done].
  destruct (reconcile_selects possible record action) eqn:Hs.
  - case_bool_decide as He; [cbn [negb] in H|done].
    destruct (reconcile_read_only _ _) as [rest|]; [|done]. injection H as <-.
    destruct (IH rest eq_refl) as [Hsub Hall]. split; [by constructor|]. constructor; [|done]. split; [done|].
    exists action. split; [done|]. split; [by destruct action|].
    intros partition sector strength filler ->. cbn in Hs. apply existsb_exists in Hs as (e & Hin%list_elem_of_In & Hobs).
    destruct e as [|p range content| | |]; cbn in Hobs; try done.
    destruct (declared_target record) as [[]|]; try done. breflect. subst.
    exists p, range, content. by split_and!.
  - apply IH in H as [Hsub Hall]. split; [by constructor|done].
Qed.
