(* ===== verification/RockchipSample.v ===== *)
(** * A sample restore (crates/arkforge-provider/src/rockchip.rs)

    One target, its artifact and a published combination, on which the theorems on the
    provider's plans are instantiated. *)

From S2P Require Import Prelude Cbor Sha256 Digest Fields Authority Identity Effect FlashStep Projection.
From S2P Require Import Plan Manifest Dayu200 Verification Profile Assessment Rockchip ProjectionAccepts RockchipPlan RockchipSafe.

Section Sample.
Local Open Scope string_scope.

Definition board : DeviceProfile :=
  mkDeviceProfile PROFILE_SCHEMA_VERSION (mkId "board") (mkVersion 1 0 0) ["Board"]
    (mkSoc (mkId "vendor") (mkId "family")) (Allow ["a"]) [] [mkId FORMAT_ID] ["readme.txt"]
    [mkModeDeclaration NORMAL_MODE []; mkModeDeclaration LOADER_MODE []] [] []
    (mkStorage (mkId "emmc") (Some 512)) (mkReadDomain FullDisk ReadCharacterizeAtRuntime (Some 204))
    [mkTarget (mkId "ramdisk") 1 4 (Some "ramdisk.img") (mkVerification FullHash (mkFallback false true))]
    [mkId "misc"] (mkImpact Preserved Overwritten Preserved Preserved) recovery_unsupported [].

Definition pinned_image : Sha256Digest :=
  Eval vm_compute in match restoration_digest with Ok d => d | Err _ => mkDigest [] end.

Definition images : ArtifactManifest :=
  mkManifest rockchip_format (mkDigest (replicate 32 1)) 4194304
    [mkMember "ramdisk.img" 4194304 pinned_image ImageCandidate]
    (Some (mkTable "rk29xxnand" 512 [mkEntry 0 "ramdisk" 4 (Some 8192) None Fixed]))
    [(mkId "const.product.model", "board")] ["readme.txt"] [mkUnknown (mkId "RK-A02") "unclassified"] ProductionManifest.

Definition restore (intent : FlashIntent) : MaterializeRequest :=
  mkRequest (mkId "PLAN-1") PrimaryFlash intent images (mkId "ART-1") board (mkProbe LOADER_MODE)
    sample_binding
    (mkSupport (mkDigest (replicate 32 3)) (HardwareCampaign "lab"))
    (mkToolchain (mkId "native") NativeProtocol (mkVersion 1 0 0) (mkDigest (replicate 32 4)) None)
    (mkPlatform (mkId "linux") (mkId "x86_64")) (mkDigest (replicate 32 5)) (mkDigest (replicate 32 6)) 1000 60000.
End Sample.

Definition restore_key : option MaturityKey :=
  match profile_identity board with Ok identity => Some (maturity_key_of (restore FullRestore) identity) | Err _ => None end.

Definition published : MaturityRegistry :=
  Eval vm_compute in
    match restore_key with
    | Some key => match publish_maturity [] key (MHardwareCampaign "lab") with Ok registry => registry | Err _ => [] end
    | None => []
    end.

Definition is_executable (m : provided MaterializedPlan) : bool :=
  match m with Ok m => negb (is_none (executable (materialization m))) | Err _ => false end.

Lemma is_executable_Ok m :
  is_executable m = true -> exists p plan, m = Ok p /\ executable (materialization p) = Some plan.
Proof.
  destruct m as [p|]; cbn; [|done]. intros H. exists p. destruct (executable _) as [plan|]; [by exists plan|done].
Qed.

Lemma restore_executes : is_executable (build_materialized_plan (restore FullRestore) published) = true.
Proof. vm_compute. reflexivity. Qed.

Lemma restore_plan :
  exists m plan, build_materialized_plan (restore FullRestore) published = Ok m /\ executable (materialization m) = Some plan.
Proof. exact (is_executable_Ok _ restore_executes). Qed.

Lemma executable_plan_writes_witness :
  exists plan, Forall2 (writes_target images board) (selected_targets (restore FullRestore)) (persistent (effect_set plan)).
Proof.
  destruct restore_plan as (m & plan & Hm & Hp). exists plan.
  exact (proj1 (executable_plan_writes (restore FullRestore) published m plan Hm Hp)).
Defined.


(** *** What the gate lets through *)

Definition with_profile (r : MaterializeRequest) (artifact : ArtifactManifest) (profile : DeviceProfile) : MaterializeRequest :=
  mkRequest (r_plan_id r) (r_purpose r) (r_intent r) artifact (r_artifact_id r) profile (r_probe r) (r_authority_binding r)
    (r_authority_support r) (r_toolchain r) (r_host_platform r) (r_driver_facts_digest r) (r_evidence_set_digest r)
    (r_created_at_epoch_ms r) (r_plan_lifetime_ms r).

(** A profile that nobody has measured: five of the six execution blockers. *)
Definition unmeasured : DeviceProfile :=
  mkDeviceProfile PROFILE_SCHEMA_VERSION (mkId "board") (mkVersion 1 0 0) ["Board"%string]
    (mkSoc (mkId "vendor") (mkId "family")) (Allow []) [] [mkId FORMAT_ID] ["readme.txt"%string]
    [mkModeDeclaration NORMAL_MODE []; mkModeDeclaration LOADER_MODE []] [] []
    (mkStorage (mkId "emmc") None) (mkReadDomain FullDisk ReadCharacterizeAtRuntime None)
    [] [mkId "misc"] (mkImpact Preserved Overwritten Preserved Preserved) recovery_unsupported [].

Definition unmeasured_registry : MaturityRegistry :=
  Eval vm_compute in
    match profile_identity unmeasured with
    | Ok identity =>
        match publish_maturity [] (maturity_key_of (with_profile (restore FullRestore) images unmeasured) identity) (MHardwareCampaign "lab") with
        | Ok registry => registry
        | Err _ => []
        end
    | Err _ => []
    end.

(** The provider asks for none of them: AF-PROF-020 would have this plan refused. *)
Lemma unmeasured_profile_executes :
  execution_blockers unmeasured =
    [UnknownBlockSize; UnknownErasedMediumFiller; NoHardwareRevisionMeasured; NoWritableTargets; NoModeTransitions] /\
  is_executable (build_materialized_plan (with_profile (restore FullRestore) images unmeasured) unmeasured_registry) = true.
Proof. split; vm_compute; reflexivity. Qed.

(** ** The ramdisk alone, and what a crash may read *)

Lemma ramdisk_lowers : is_ok (build_steps (restore RestoreRamdisk)) = true.
Proof. vm_compute. reflexivity. Qed.

Lemma lowering_projects_witness :
  exists built d, validate_projection (built_steps built) (built_private_plan built) (built_effects built) = Ok d.
Proof.
  destruct (is_ok_Ok _ ramdisk_lowers) as [built Hb]. exists built.
  apply (lowering_projects (restore RestoreRamdisk) built Hb). vm_compute. discriminate.
Defined.

Lemma ramdisk_restore_pinned_witness :
  exists built offset content, userdata (data_impact (built_effects built)) = Preserved /\ restoration_digest = Ok content /\
    persistent (built_effects built) = [WritePartition (mkId "ramdisk") (mkRange offset MAX_IMAGE_BYTES) content].
Proof.
  destruct (is_ok_Ok _ ramdisk_lowers) as [built Hb].
  destruct (ramdisk_restore_pinned (restore RestoreRamdisk) built Hb eq_refl) as (_ & _ & _ & Hu & Hw).
  assert (selected_targets (restore RestoreRamdisk) = allowed_targets board) as Ht by reflexivity. rewrite Ht in Hw.
  apply Forall2_cons_inv_l in Hw as (e & es & (_ & offset & size & content & He & Hpin) & Hrest & Heffects).
  apply Forall2_nil_inv_l in Hrest. destruct (Hpin eq_refl) as [Hz Hdigest]. exists built, offset, content.
  split; [exact Hu|]. split; [exact Hdigest|]. rewrite Heffects, He, Hrest, Hz. reflexivity.
Defined.

(** A profile that takes the ramdisk from another member: the pinned image is looked for, and
    the other one written. *)
Definition other_member : DeviceProfile :=
  mkDeviceProfile PROFILE_SCHEMA_VERSION (mkId "board") (mkVersion 1 0 0) ["Board"%string]
    (mkSoc (mkId "vendor") (mkId "family")) (Allow ["a"%string]) [] [mkId FORMAT_ID] ["readme.txt"%string]
    [mkModeDeclaration NORMAL_MODE []; mkModeDeclaration LOADER_MODE []] [] []
    (mkStorage (mkId "emmc") (Some 512)) (mkReadDomain FullDisk ReadCharacterizeAtRuntime (Some 204))
    [mkTarget (mkId "ramdisk") 1 4 (Some "other.img"%string) (mkVerification FullHash (mkFallback false true))]
    [mkId "misc"] (mkImpact Preserved Overwritten Preserved Preserved) recovery_unsupported [].

Definition two_images : ArtifactManifest :=
  mkManifest rockchip_format (mkDigest (replicate 32 1)) 4194304
    [mkMember "ramdisk.img" 4194304 pinned_image ImageCandidate; mkMember "other.img" 512 (mkDigest (replicate 32 9)) ImageCandidate]
    (m_partition_table images) (m_build_facts images) (m_unclassified_members images) (m_unknowns images) ProductionManifest.

Example pinned_image_not_written :
  match build_steps (with_profile (restore RestoreRamdisk) two_images other_member) with
  | Ok built => persistent (built_effects built) = [WritePartition (mkId "ramdisk") (mkRange 2048 512) (mkDigest (replicate 32 9))]
  | Err _ => False
  end.
Proof. vm_compute. reflexivity. Qed.

Lemma published_maturity_witness :
  exists key d registry,
    maturity_key_digest key = Ok d /\ publish_maturity [] key (MHardwareCampaign "lab") = Ok registry /\
    lookup_maturity registry key = MHardwareCampaign "lab".
Proof.
  set (key := maturity_key_of (restore FullRestore) (mkProfile (mkId "board") (mkVersion 1 0 0) (mkDigest (replicate 32 7)))).
  assert (is_ok (maturity_key_digest key) = true) as Hd by (vm_compute; reflexivity).
  destruct (is_ok_Ok _ Hd) as [d Ed]. clearbody key.
  assert (exists registry, publish_maturity [] key (MHardwareCampaign "lab") = Ok registry) as [registry Er]
    by (unfold publish_maturity; rewrite Ed; by eexists).
  exists key, d, registry. split; [done|]. split; [done|].
  rewrite (proj1 (published_maturity [] registry key (MHardwareCampaign "lab") key d d Er Ed Ed)).
  by rewrite bool_decide_eq_true_2.
Defined.

(** The actions of the sample plan: all but the reset may be read back after the write of the ramdisk. *)
Definition sample_write : PersistentEffect := WritePartition (mkId "ramdisk") (mkRange 2048 4194304) pinned_image.

Definition sample_records : list PrivateActionRecord :=
  match build_steps (restore FullRestore) with Ok built => actions (built_private_plan built) | Err _ => [] end.

Example readback_selected :
  match reconcile_read_only [sample_write] sample_records with Ok l => map (fun a => as_str (action_id a)) l | Err _ => [] end =
  ["ACT-001"; "ACT-002"; "SUB-004"; "ACT-004"]%string.
Proof. vm_compute. reflexivity. Qed.

Lemma reconciles : is_ok (reconcile_read_only [sample_write] sample_records) = true.
Proof. vm_compute. reflexivity. Qed.

Lemma reconcile_cannot_write_witness :
  exists selected, reconcile_read_only [sample_write] sample_records = Ok selected /\
    Forall (fun record => effect_class record = EReadOnly) selected.
Proof.
  destruct (is_ok_Ok _ reconciles) as [selected Hs]. exists selected. split; [exact Hs|].
  exact (Forall_impl _ _ _ (proj2 (reconcile_cannot_write _ _ _ Hs)) (fun record H => proj1 H)).
Defined.
