(* ===== verification/Interaction.v ===== *)
(** * Programs that call their surroundings

    Code that talks to a device, a file system or a trait object is a program of calls whose
    answers it does not choose.  [run] plays a program against an environment with a state of
    its own and gives the calls made; [op] threads a state of the program and an error through
    it, as a method with [&mut self] that returns a [Result] does. *)

From S2P Require Import Prelude.

Section Programs.
Context {C : Type} {answer : C -> Type}.

Inductive prog (A : Type) : Type :=
| Done (a : A)
| Call (c : C) (k : answer c -> prog A).
Arguments Done {A} a.
Arguments Call {A} c k.

Fixpoint prog_bind {A B} (p : prog A) (k : A -> prog B) : prog B :=
  match p with
  | Done a => k a
  | Call c f => Call c (fun r => prog_bind (f r) k)
  end.

(** From a state to a result and the state left. *)
Definition op (S E A : Type) : Type := S -> prog (result E A * S).

Section Ops.
Context {S E : Type}.

Definition op_ret {A} (a : A) : op S E A := fun s => Done (Ok a, s).
Definition op_fail {A} (e : E) : op S E A := fun s => Done (Err e, s).
Definition op_lift {A} (r : result E A) : op S E A := fun s => Done (r, s).
Definition op_bind {A B} (m : op S E A) (k : A -> op S E B) : op S E B := fun s =>
  prog_bind (m s) (fun out =>
    match out.1 with Ok a => k a out.2 | Err e => Done (Err e, out.2) end).

(** The state, and a new one. *)
Definition op_get : op S E S := fun s => Done (Ok s, s).
Definition op_put (s : S) : op S E unit := fun _ => Done (Ok tt, s).

(** A call that cannot fail, and one whose failure is an error here. *)
Definition op_call (c : C) : op S E (answer c) := fun s => Call c (fun r => Done (Ok r, s)).

(** An operation on another state and with other errors: [view] its state, [fail] its errors. *)
Definition op_within {S' E' A} (inner : S') (fail : E' -> E) (m : op S' E' A) : op S E A := fun s =>
  prog_bind (m inner) (fun out => Done (map_err fail out.1, s)).

(** An operation whose error is looked at. *)
Definition op_try {E' A} (m : op S E' A) : op S E (result E' A) := fun s =>
  prog_bind (m s) (fun out => Done (Ok out.1, out.2)).

(** A loop of at most [2 ^ k] rounds, which a round leaves with [inr]. *)
Fixpoint op_loop {L A} (k : nat) (body : L -> op S E (L + A)) (l : L) : op S E (L + A) :=
  match k with
  | O => body l
  | Datatypes.S k => op_bind (op_loop k body l) (fun r =>
      match r with inl l => op_loop k body l | inr a => op_ret (inr a) end)
  end.
End Ops.

(** What a program makes of an environment: its value, the environment's state and the calls
    made, with their answers left out. *)
Section Run.
Context {W : Type} (env : forall c, W -> answer c * W).

Fixpoint run {A} (p : prog A) (w : W) : A * W * list C :=
  match p with
  | Done a => (a, w, [])
  | Call c k =>
      let (r, w) := env c w in
      let '(a, w, calls) := run (k r) w in
      (a, w, c :: calls)
  end.

Lemma run_bind {A B} (p : prog A) (k : A -> prog B) w :
  run (prog_bind p k) w =
    (let '(a, w, calls) := run p w in
     let '(b, w, calls') := run (k a) w in (b, w, calls ++ calls')).
Proof.
  revert w. induction p as [a|c f IH]; intros w; cbn [prog_bind run].
  - by destruct (run (k a) w) as [[b w'] l].
  - destruct (env c w) as [r w1]. rewrite IH. destruct (run (f r) w1) as [[a w2] l].
    by destruct (run (k a) w2) as [[b w3] l'].
Qed.

Context {S E : Type}.

(** A sequence ran to its end, or stopped where its first part did. *)
Lemma run_seq {A B} (m : op S E A) (k : A -> op S E B) s w r s' w' calls :
  run (op_bind m k s) w = (r, s', w', calls) ->
  (exists e, run (m s) w = (Err e, s', w', calls) /\ r = Err e) \/
  (exists a s1 w1 calls1 calls2, run (m s) w = (Ok a, s1, w1, calls1) /\
     run (k a s1) w1 = (r, s', w', calls2) /\ calls = calls1 ++ calls2).
Proof.
  unfold op_bind. rewrite run_bind. destruct (run (m s) w) as [[[[a|e] s1] w1] l]; cbn [fst snd].
  - destruct (run (k a s1) w1) as [[[b s2] w2] l'] eqn:E'. intros [= -> -> -> <-]. right.
    by exists a, s1, w1, l, l'.
  - intros [= <- -> -> <-]. left. exists e. by rewrite app_nil_r.
Qed.

Lemma run_ret {A} (a : A) (s : S) w (r : result E A) s' w' calls :
  run (op_ret a s) w = (r, s', w', calls) -> r = Ok a /\ s' = s /\ w' = w /\ calls = [].
Proof. by intros [= <- <- <- <-]. Qed.

Lemma run_lift {A} (x : result E A) (s : S) w r s' w' calls :
  run (op_lift x s) w = (r, s', w', calls) -> r = x /\ s' = s /\ w' = w /\ calls = [].
Proof. by intros [= <- <- <- <-]. Qed.

Lemma run_get (s : S) w (r : result E S) s' w' calls :
  run (op_get s) w = (r, s', w', calls) -> r = Ok s /\ s' = s /\ w' = w /\ calls = [].
Proof. by intros [= <- <- <- <-]. Qed.

Lemma run_put (n : S) (s : S) w (r : result E unit) s' w' calls :
  run (op_put n s) w = (r, s', w', calls) -> r = Ok tt /\ s' = n /\ w' = w /\ calls = [].
Proof. by intros [= <- <- <- <-]. Qed.

Lemma run_call c (s : S) w (r : result E (answer c)) s' w' calls :
  run (op_call c s) w = (r, s', w', calls) -> calls = [c] /\ s' = s /\ r = Ok (env c w).1 /\ w' = (env c w).2.
Proof. cbn. destruct (env c w) as [x w1]. by intros [= <- <- <- <-]. Qed.

(** A sequence that begins with a call, with a state change, with a result. *)
Lemma run_call_seq {B} c (k : answer c -> op S E B) s w r s' w' calls :
  run (op_bind (op_call c) k s) w = (r, s', w', calls) ->
  exists rest, run (k (env c w).1 s) (env c w).2 = (r, s', w', rest) /\ calls = c :: rest.
Proof.
  intros H. apply run_seq in H as [(e & H & _)|(a & s1 & w1 & c1 & c2 & H1 & H & ->)].
  - by apply run_call in H as (_ & _ & ? & _).
  - apply run_call in H1 as (-> & -> & [= ->] & ->). eauto.
Qed.

Lemma run_get_seq {B} (k : S -> op S E B) s w r s' w' calls :
  run (op_bind op_get k s) w = (r, s', w', calls) -> run (k s s) w = (r, s', w', calls).
Proof. by destruct (run (k s s) w) as [[[? ?] ?] ?] eqn:E'; unfold op_bind, op_get; cbn; rewrite E'. Qed.

Lemma run_put_seq {B} n (k : unit -> op S E B) s w r s' w' calls :
  run (op_bind (op_put n) k s) w = (r, s', w', calls) -> run (k tt n) w = (r, s', w', calls).
Proof. by destruct (run (k tt n) w) as [[[? ?] ?] ?] eqn:E'; unfold op_bind, op_put; cbn; rewrite E'. Qed.

Lemma run_lift_seq {A B} (x : result E A) (k : A -> op S E B) s w r s' w' calls :
  run (op_bind (op_lift x) k s) w = (r, s', w', calls) ->
  (exists e, x = Err e /\ r = Err e /\ s' = s /\ w' = w /\ calls = []) \/
  (exists a, x = Ok a /\ run (k a s) w = (r, s', w', calls)).
Proof.
  intros H. apply run_seq in H as [(e & H & ->)|(a & s1 & w1 & c1 & c2 & H1 & H & ->)].
  - apply run_lift in H as (<- & -> & -> & ->). left. by exists e.
  - apply run_lift in H1 as (<- & -> & -> & ->). right. by exists a.
Qed.

Lemma run_within {S' E' A} (inner : S') (fail : E' -> E) (m : op S' E' A) (s : S) w r s' w' calls :
  run (op_within inner fail m s) w = (r, s', w', calls) ->
  s' = s /\ exists x inner', run (m inner) w = (x, inner', w', calls) /\ r = map_err fail x.
Proof.
  unfold op_within. rewrite run_bind. destruct (run (m inner) w) as [[[x inner'] w1] l]. cbn [run fst snd].
  rewrite app_nil_r. intros [= <- <- <- <-]. eauto.
Qed.

Lemma run_try {E' A} (m : op S E' A) (s : S) w (r : result E (result E' A)) s' w' calls :
  run (op_try m s) w = (r, s', w', calls) -> exists x, run (m s) w = (x, s', w', calls) /\ r = Ok x.
Proof.
  unfold op_try. rewrite run_bind. destruct (run (m s) w) as [[[x s1] w1] l]. cbn [run fst snd].
  rewrite app_nil_r. intros [= <- <- <- <-]. eauto.
Qed.

(** The calls of a run, each with the environment it was made in, and the environment behind
    them. *)
Fixpoint told (calls : list C) (w : W) : list (W * C) :=
  match calls with
  | [] => []
  | c :: calls => (w, c) :: told calls (env c w).2
  end.

Lemma told_calls calls w : map snd (told calls w) = calls.
Proof. revert w. induction calls as [|c calls IH]; intros w; [done|]. cbn. by rewrite IH. Qed.

Lemma told_run {A} (p : prog A) w a w' calls more :
  run p w = (a, w', calls) -> told (calls ++ more) w = told calls w ++ told more w'.
Proof.
  revert w calls. induction p as [x|c k IH]; intros w calls; cbn [run]; [by intros [= <- <- <-]|].
  destruct (env c w) as [r w1] eqn:Ec. destruct (run (k r) w1) as [[x w2] l] eqn:Er. intros [= <- <- <-].
  cbn [app told]. rewrite Ec. cbn [snd]. by rewrite (IH _ _ _ Er).
Qed.

(** What holds of every round holds of the loop: [P] relates the loop state, the calls and
    where it got. *)
Lemma run_loop {L A} (P : L -> S -> list C -> result E (L + A) -> S -> Prop) k (body : L -> op S E (L + A)) l s w r s' w' calls :
  (forall l s w r s' w' calls, run (body l s) w = (r, s', w', calls) -> P l s calls r s') ->
  (forall l s c1 l1 s1 c2 r s2, P l s c1 (Ok (inl l1)) s1 -> P l1 s1 c2 r s2 -> P l s (c1 ++ c2) r s2) ->
  run (op_loop k body l s) w = (r, s', w', calls) -> P l s calls r s'.
Proof.
  intros Hbody Htrans. revert l s w r s' w' calls. induction k as [|k IH]; intros l s w r s' w' calls H; cbn [op_loop] in H; [by eapply Hbody|].
  apply run_seq in H as [(e & H & ->)|([l1|a] & s1 & w1 & c1 & c2 & H1 & H & ->)]; [|eapply Htrans; [by eapply IH|by eapply IH]|].
  - apply IH in H. exact H.
  - apply IH in H1. apply run_ret in H as (-> & -> & -> & ->). by rewrite app_nil_r.
Qed.

(** A loop whose rounds each add to a measure does not run out of rounds below its bound. *)
Lemma run_loop_measure {L A} (mu : L -> Z) k (body : L -> op S E (L + A)) l s w l' s' w' calls :
  (forall l s w l' s' w' calls, run (body l s) w = (Ok (inl l'), s', w', calls) -> mu l + 1 <= mu l') ->
  run (op_loop k body l s) w = (Ok (inl l'), s', w', calls) -> mu l + 2 ^ Z.of_nat k <= mu l'.
Proof.
  intros Hbody. revert l s w l' s' w' calls. induction k as [|k IH]; intros l s w l' s' w' calls H; cbn [op_loop] in H.
  { apply Hbody in H. cbn. lia. }
  apply run_seq in H as [(e & _ & [=])|([l1|a] & s1 & w1 & c1 & c2 & H1 & H & ->)]; [|by apply run_ret in H as ([=] & _)].
  apply IH in H1, H. replace (Z.of_nat (Datatypes.S k)) with (Z.of_nat k + 1) by lia. rewrite Z.pow_add_r by lia. lia.
Qed.
End Run.
End Programs.

Arguments prog {C} answer A.
Arguments Done {C answer A} a.
Arguments Call {C answer A} c k.
Arguments op {C} answer S E A.

(** Comparing programs, unfold the names of operations before how they are put together. *)
#[global] Strategy 100 [op_bind op_loop op_within op_try run prog_bind].

Declare Scope op_scope.
Notation "'let!' x ':=' m 'in' k" := (op_bind m (fun x => k))
  (at level 10, x pattern, m at level 200, k at level 200) : op_scope.

(** Take a run apart at its outermost sequence. *)
Ltac run_step H :=
  lazymatch type of H with
  | run _ (op_bind _ _ _) _ = _ =>
      let e := fresh "e" in let E := fresh "E" in let Hr := fresh "Hr" in
      let a := fresh "a" in let t := fresh "t" in let st := fresh "st" in let c1 := fresh "c" in let c2 := fresh "c" in
      apply run_seq in H as [(e & E & Hr)|(a & t & st & c1 & c2 & E & H & ->)]
  end.

(** The same when it begins with a call. *)
Ltac call_step H :=
  lazymatch type of H with
  | run ?env (op_bind (op_call ?c) _ _) _ = _ => let rest := fresh "rest" in apply (run_call_seq env c) in H as (rest & H & ->)
  end.
