(* ===== verification/Rockusb.v ===== *)
(** * The native RockUSB protocol (crates/arkforge-provider/src/rockusb_protocol.rs)

    Command and status blocks, sector transfers in bounded chunks, and the GPT a device
    reports.  The bulk endpoint is the [RockUsbBulkIo] trait: an operation is a program of its
    calls, with the next tag threaded through. *)

From S2P Require Import Prelude Interaction Authority Identity Manifest.

(** ** The bulk endpoint *)

Inductive call : Type :=
| WriteAll (b : bytes)
| ReadSome (n : Z)
| ReadExact (n : Z).

(** [ReadSome] answers the count it returns and the buffer it leaves. *)
Definition answer (c : call) : Type :=
  match c with WriteAll _ => unit | ReadSome _ => (Z * bytes)%type | ReadExact _ => bytes end.

(** The buffers handed in are slices, so their lengths stay. *)
Definition answer_ok (c : call) : answer c -> Prop :=
  match c return answer c -> Prop with
  | WriteAll _ => fun _ => True
  | ReadSome n => fun r => zlen r.2 = n /\ bytes_ok r.2
  | ReadExact n => fun b => zlen b = n /\ bytes_ok b
  end.

Inductive GptFault : Type :=
| EntryBytesOverflow
| EntryArraySize (entries_bytes : Z)
| NotEfiPart
| HeaderSize (size : Z)
| HeaderCrc (observed expected : Z)
| EntryGeometry (lba count size : Z)
| EntryCrc (observed expected : Z)
| EntryRange (index first last : Z)
| NoName (index : Z)
| InvalidName (index : Z)
| EmptyName (index : Z)
| EntryOrder (index first previous : Z)
| NoEntries
| MissingField (offset : Z).

Inductive ProtocolError : Type :=
| Transport (detail : string)
| AddressOutOfRange (begin_sector sectors : Z)
| TransferTooLarge (sectors : Z)
| EmptyWrite
| CswSignature (observed : bytes)
| CswTag (expected observed : Z)
| CommandFailed (status residue : Z)
| FlashInfoLength (actual : Z)
| ZeroSectors
| MalformedGpt (f : GptFault).

(** An operation of [RockUsbProtocol]: from the next tag to its result and the next tag. *)
Definition op (A : Type) : Type := Interaction.op (fun c => result string (answer c)) Z ProtocolError A.

(** A call of the endpoint; its failure is [Transport]. *)
Definition io (c : call) : op (answer c) := fun tag => Call c (fun r => Done (map_err Transport r, tag)).

(** [self.next_tag], taken and advanced. *)
Definition take_tag : op Z := fun tag => Done (Ok tag, wrap 32 (tag + 1)).

(** ** Constants *)

Definition LOGICAL_BLOCK_BYTES : Z := 512.
Definition ROCKUSB_TRANSFER_CHUNK_SECTORS : Z := 16384.
Definition CBW_BYTES : Z := 31.
Definition CSW_BYTES : Z := 13.
Definition CBW_SIGNATURE : bytes := [85; 83; 66; 67].
Definition CSW_SIGNATURE : bytes := [85; 83; 66; 83].
Definition TEST_UNIT_READY : Z := 0x00.
Definition READ_LBA : Z := 0x14.
Definition WRITE_LBA : Z := 0x15.
Definition READ_FLASH_INFO : Z := 0x1a.
Definition DEVICE_RESET : Z := 0xff.
Definition DEVICE_STRING : string := "rk29xxnand".

Definition to_le_bytes (n : nat) (v : Z) : bytes := rev (to_be_bytes n v).
Definition from_le_bytes (l : bytes) : Z := from_be_bytes (rev l).

Definition ceil_div (numerator denominator : Z) : Z :=
  numerator / denominator + (if numerator mod denominator =? 0 then 0 else 1).

(** ** Command and status blocks *)

Definition command_block (tag opcode address sectors transfer_bytes command_length : Z) (direction_in : bool) : bytes :=
  CBW_SIGNATURE ++ to_le_bytes 4 tag ++ to_le_bytes 4 transfer_bytes ++
  [(if direction_in then 0x80 else 0x00); 0; command_length; opcode; 0] ++
  to_be_bytes 4 address ++ [0] ++ to_be_bytes 2 sectors ++ replicate 7 0.

(** Bytes [from..to] of a slice. *)
Definition slice (b : bytes) (from to : nat) : bytes := firstn (to - from) (skipn from b).

Definition validate_csw (b : bytes) (expected_tag : Z) : result ProtocolError unit :=
  if negb (bool_decide (slice b 0 4 = CSW_SIGNATURE)) then Err (CswSignature (slice b 0 4))
  else
    let tag := from_le_bytes (slice b 4 8) in
    if negb (tag =? expected_tag) then Err (CswTag expected_tag tag)
    else if negb (nth 12 b 0 =? 0) then Err (CommandFailed (nth 12 b 0) (from_le_bytes (slice b 8 12)))
    else Ok tt.

Definition validate_sector_range (begin_sector sectors : Z) : result ProtocolError unit :=
  let? range_end := ok_or (checked_add begin_sector sectors) (AddressOutOfRange begin_sector sectors) in
  if (U32_MAX <? begin_sector) || (U32_MAX + 1 <? range_end) then Err (AddressOutOfRange begin_sector sectors) else Ok tt.

(** ** Commands *)

Section Commands.
Local Open Scope op_scope.

Definition execute_in (opcode address sectors transfer_bytes command_length : Z) : op bytes :=
  let! tag := take_tag in
  let! _ := io (WriteAll (command_block tag opcode address sectors transfer_bytes command_length true)) in
  let! data := (if transfer_bytes =? 0 then op_ret [] else io (ReadExact transfer_bytes)) in
  let! csw := io (ReadExact CSW_BYTES) in
  let! _ := op_lift (validate_csw csw tag) in
  op_ret data.

Definition execute_out (opcode address sectors : Z) (data : bytes) (command_length : Z) : op unit :=
  if U32_MAX <? zlen data then op_fail (TransferTooLarge sectors)
  else
    let! tag := take_tag in
    let! _ := io (WriteAll (command_block tag opcode address sectors (zlen data) command_length false)) in
    let! _ := (if zlen data =? 0 then op_ret tt else io (WriteAll data)) in
    let! csw := io (ReadExact CSW_BYTES) in
    op_lift (validate_csw csw tag).

Definition test_unit_ready : op unit := let! _ := execute_in TEST_UNIT_READY 0 0 0 6 in op_ret tt.

Definition read_capacity_sectors : op Z :=
  let! tag := take_tag in
  let! _ := io (WriteAll (command_block tag READ_FLASH_INFO 0 0 11 6 true)) in
  let! answer := io (ReadSome LOGICAL_BLOCK_BYTES) in
  if negb ((11 <=? answer.1) && (answer.1 <=? LOGICAL_BLOCK_BYTES)) then op_fail (FlashInfoLength answer.1)
  else
    let! csw := io (ReadExact CSW_BYTES) in
    let! _ := op_lift (validate_csw csw tag) in
    let sectors := from_le_bytes (slice answer.2 0 4) in
    if sectors =? 0 then op_fail ZeroSectors else op_ret sectors.

(** The [while] loop of [read_lba]; it makes at most [rounds] rounds. *)
Fixpoint read_rounds (rounds : nat) (position remaining : Z) (all : bytes) : op bytes :=
  match rounds with
  | O => op_ret all
  | S rounds =>
      if remaining <=? 0 then op_ret all
      else
        let chunk := Z.min remaining ROCKUSB_TRANSFER_CHUNK_SECTORS in
        let! bytes := execute_in READ_LBA (wrap 32 position) chunk (chunk * LOGICAL_BLOCK_BYTES) 10 in
        read_rounds rounds (position + chunk) (remaining - chunk) (all ++ bytes)
  end.

(** Past the range check the byte count fits both its types. *)
Definition read_lba (begin_sector sectors : Z) : op bytes :=
  let! _ := op_lift (validate_sector_range begin_sector sectors) in
  if U64_MAX <? sectors * LOGICAL_BLOCK_BYTES then op_fail (TransferTooLarge sectors)
  else read_rounds (Z.to_nat (ceil_div sectors ROCKUSB_TRANSFER_CHUNK_SECTORS)) begin_sector sectors [].

Record RockUsbTransferProgress := mkProgress { payload_bytes : Z; wire_sectors : Z; chunks : Z }.

Definition max_chunk_bytes : Z := ROCKUSB_TRANSFER_CHUNK_SECTORS * LOGICAL_BLOCK_BYTES.

(** The payload of a chunk, zero-filled to whole sectors. *)
Definition padded (payload : bytes) : bytes :=
  payload ++ replicate (Z.to_nat (ceil_div (zlen payload) LOGICAL_BLOCK_BYTES * LOGICAL_BLOCK_BYTES - zlen payload)) 0.

(** The [while] loop of [write_lba]: [rest] are the bytes from [offset] on. *)
Fixpoint write_rounds (rounds : nat) (position : Z) (rest : bytes) (chunks : Z) : op Z :=
  match rounds with
  | O => op_ret chunks
  | S rounds =>
      if zlen rest =? 0 then op_ret chunks
      else
        let payload := firstn (Z.to_nat max_chunk_bytes) rest in
        let chunk_sectors := wrap 16 (ceil_div (zlen payload) LOGICAL_BLOCK_BYTES) in
        let! _ := execute_out WRITE_LBA (wrap 32 position) chunk_sectors (padded payload) 10 in
        write_rounds rounds (position + chunk_sectors) (skipn (Z.to_nat max_chunk_bytes) rest) (chunks + 1)
  end.

Definition write_lba (begin_sector : Z) (data : bytes) : op RockUsbTransferProgress :=
  if zlen data =? 0 then op_fail EmptyWrite
  else
    let sectors := ceil_div (zlen data) LOGICAL_BLOCK_BYTES in
    let! _ := op_lift (validate_sector_range begin_sector sectors) in
    let! chunks := write_rounds (Z.to_nat (ceil_div (zlen data) max_chunk_bytes)) begin_sector data 0 in
    op_ret (mkProgress (zlen data) sectors chunks).

Definition reset_device : op unit := execute_out DEVICE_RESET 0 0 [] 6.
End Commands.

(** ** The partition table *)

Record GptHeader := mkHeader { entry_lba : Z; entry_count : Z; entry_size : Z; entry_crc32 : Z }.

(** [bytes.get(offset..offset + n)], little-endian. *)
Definition le_field (n : nat) (b : bytes) (offset : Z) : result ProtocolError Z :=
  if offset + Z.of_nat n <=? zlen b then Ok (from_le_bytes (firstn n (skipn (Z.to_nat offset) b)))
  else Err (MalformedGpt (MissingField offset)).

Definition le_u32 : bytes -> Z -> result ProtocolError Z := le_field 4.
Definition le_u64 : bytes -> Z -> result ProtocolError Z := le_field 8.

Definition crc_step (crc : Z) : Z :=
  let mask := wrap 32 (0 - Z.land crc 1) in
  Z.lxor (Z.shiftr crc 1) (Z.land 0xedb88320 mask).

Definition crc32 (b : bytes) : Z :=
  Z.lxor (foldl (fun crc byte => Nat.iter 8 crc_step (Z.lxor crc byte)) 0xffffffff b) 0xffffffff.

Definition EFI_PART : bytes := [69; 70; 73; 32; 80; 65; 82; 84].

Definition gpt_header_parse (block : bytes) : result ProtocolError GptHeader :=
  if negb (zlen block =? LOGICAL_BLOCK_BYTES) || negb (bool_decide (slice block 0 8 = EFI_PART))
  then Err (MalformedGpt NotEfiPart)
  else
    let? header_size := le_u32 block 12 in
    if negb ((92 <=? header_size) && (header_size <=? LOGICAL_BLOCK_BYTES)) then Err (MalformedGpt (HeaderSize header_size))
    else
      let? expected_crc := le_u32 block 16 in
      let covered := firstn 16 block ++ replicate 4 0 ++ slice block 20 (Z.to_nat header_size) in
      let observed_crc := crc32 covered in
      if negb (observed_crc =? expected_crc) then Err (MalformedGpt (HeaderCrc observed_crc expected_crc))
      else
        let? entry_lba := le_u64 block 72 in
        let? entry_count := le_u32 block 80 in
        let? entry_size := le_u32 block 84 in
        let? entry_crc32 := le_u32 block 88 in
        if (entry_lba <? 2) || (entry_count =? 0) || (entry_size <? 128) || negb (entry_size mod 8 =? 0)
        then Err (MalformedGpt (EntryGeometry entry_lba entry_count entry_size))
        else Ok (mkHeader entry_lba entry_count entry_size entry_crc32).

(** [String::from_utf16], to UTF-8: surrogates in pairs. *)
Definition utf8_of_scalar (c : Z) : bytes :=
  if c <? 0x80 then [c]
  else if c <? 0x800 then [0xc0 + c / 64; 0x80 + c mod 64]
  else if c <? 0x10000 then [0xe0 + c / 4096; 0x80 + c / 64 mod 64; 0x80 + c mod 64]
  else [0xf0 + c / 262144; 0x80 + c / 4096 mod 64; 0x80 + c / 64 mod 64; 0x80 + c mod 64].

Fixpoint from_utf16 (units : list Z) : option bytes :=
  match units with
  | [] => Some []
  | u :: units =>
      if (u <? 0xd800) || (0xdfff <? u) then option_map (app (utf8_of_scalar u)) (from_utf16 units)
      else if 0xdbff <? u then None
      else
        match units with
        | low :: units =>
            if (low <? 0xdc00) || (0xdfff <? low) then None
            else option_map (app (utf8_of_scalar (0x10000 + (u - 0xd800) * 1024 + (low - 0xdc00)))) (from_utf16 units)
        | [] => None
        end
  end.

(** The name's units, to the first zero. *)
Fixpoint name_units (name : bytes) : list Z :=
  match name with
  | low :: high :: name =>
      let unit := from_le_bytes [low; high] in
      if unit =? 0 then [] else unit :: name_units name
  | _ => []
  end.

Definition Row : Type := (Z * Z * string)%type.

(** One turn of the loop over the entries: [None] is its [continue]. *)
Definition parse_entry (index : Z) (previous : option Z) (entry : bytes) : result ProtocolError (option Row) :=
  if forallb (Z.eqb 0) (firstn 16 entry) then Ok None
  else
    let? first_lba := le_u64 entry 32 in
    let? last_lba := le_u64 entry 40 in
    if (first_lba =? 0) || (last_lba <? first_lba) then Err (MalformedGpt (EntryRange index first_lba last_lba))
    else
      let? name_bytes := if 128 <=? zlen entry then Ok (slice entry 56 128) else Err (MalformedGpt (NoName index)) in
      match from_utf16 (name_units name_bytes) with
      | None => Err (MalformedGpt (InvalidName index))
      | Some [] => Err (MalformedGpt (EmptyName index))
      | Some name =>
          match previous with
          | Some previous =>
              if first_lba <=? previous then Err (MalformedGpt (EntryOrder index first_lba previous))
              else Ok (Some (index, first_lba, string_of_bytes name))
          | None => Ok (Some (index, first_lba, string_of_bytes name))
          end
      end.

(** The loop: [count] entries from [index] on, [rest] the bytes from there. *)
Fixpoint parse_rows (size : Z) (count : nat) (index : Z) (previous : option Z) (rest : bytes) : result ProtocolError (list Row) :=
  match count with
  | O => Ok []
  | S count =>
      let? row := parse_entry index previous (firstn (Z.to_nat size) rest) in
      let rest := skipn (Z.to_nat size) rest in
      match row with
      | None => parse_rows size count (index + 1) previous rest
      | Some row =>
          let? rows := parse_rows size count (index + 1) (Some row.1.2) rest in
          Ok (row :: rows)
      end
  end.

(** A partition runs to the start of the next one. *)
Fixpoint table_of_rows (rows : list Row) : list PartitionEntryFact :=
  match rows with
  | [] => []
  | (index, offset, name) :: rows =>
      let size_sectors := match rows with (_, next_offset, _) :: _ => Some (next_offset - offset) | [] => None end in
      mkEntry index name offset size_sectors None (match size_sectors with Some _ => Fixed | None => RemainderGrow end) :: table_of_rows rows
  end.

(** [b] is the entry array, [entry_count * entry_size] bytes long. *)
Definition parse_partition_entries (header : GptHeader) (b : bytes) : result ProtocolError PartitionTableFact :=
  let observed_crc := crc32 b in
  if negb (observed_crc =? entry_crc32 header) then Err (MalformedGpt (EntryCrc observed_crc (entry_crc32 header)))
  else
    let? rows := parse_rows (entry_size header) (Z.to_nat (entry_count header)) 0 None b in
    match rows with
    | [] => Err (MalformedGpt NoEntries)
    | _ => Ok (mkTable DEVICE_STRING LOGICAL_BLOCK_BYTES (table_of_rows rows))
    end.

Section Table.
Local Open Scope op_scope.

Definition read_partition_table : op PartitionTableFact :=
  let! header_block := read_lba 1 1 in
  let! header := op_lift (gpt_header_parse header_block) in
  let entries_bytes := entry_count header * entry_size header in
  if U64_MAX <? entries_bytes then op_fail (MalformedGpt EntryBytesOverflow)
  else if 16 * 1024 * 1024 <? entries_bytes then op_fail (MalformedGpt (EntryArraySize entries_bytes))
  else
    let! entry_bytes := read_lba (entry_lba header) (ceil_div entries_bytes LOGICAL_BLOCK_BYTES) in
    op_lift (parse_partition_entries header (firstn (Z.to_nat entries_bytes) entry_bytes)).
End Table.
