(* ===== verification/RockusbSound.v ===== *)
(** * What RockUSB commands do (crates/arkforge-provider/src/rockusb_protocol.rs)

    The messages an operation sends, whatever the endpoint answers, and what a device that
    obeys them holds afterwards; status blocks; the partition table a GPT gives. *)

From stdpp Require Import gmap.
From S2P Require Import Prelude Interaction Authority Identity Manifest Rockusb.

(** ** Messages *)

(** What an operation handed to the endpoint to send, delivered or not. *)
Definition sent (calls : list call) : list bytes :=
  omap (fun c => match c with WriteAll b => Some b | _ => None end) calls.

Lemma sent_app l k : sent (l ++ k) = sent l ++ sent k.
Proof. apply omap_app. Qed.

Section Run.
Context {S : Type} (endpoint : forall c, S -> result string (answer c) * S).

Lemma run_io c tag s r tag' s' calls :
  run endpoint (io c tag) s = (r, tag', s', calls) ->
  calls = [c] /\ tag' = tag /\ exists x, endpoint c s = (x, s') /\ r = map_err Transport x.
Proof. cbn. destruct (endpoint c s) as [x s1]. intros [= <- <- <- <-]. eauto. Qed.

Lemma run_tag tag s r tag' s' calls :
  run endpoint (take_tag tag) s = (r, tag', s', calls) -> r = Ok tag /\ tag' = wrap 32 (tag + 1) /\ s' = s /\ calls = [].
Proof. by intros [= <- <- <- <-]. Qed.
End Run.

(** ** Commands *)

(** A command block holds 31 bytes, and its fields where the wire format has them. *)
Definition cbw_opcode (b : bytes) : Z := nth 15 b 0.
Definition cbw_address (b : bytes) : Z := from_be_bytes (slice b 17 21).
Definition cbw_sectors (b : bytes) : Z := from_be_bytes (slice b 22 24).
Definition cbw_tag (b : bytes) : Z := from_le_bytes (slice b 4 8).
Definition cbw_length (b : bytes) : Z := from_le_bytes (slice b 8 12).
Definition cbw_inward (b : bytes) : bool := nth 12 b 0 =? 0x80.

Lemma to_le_length n v : length (to_le_bytes n v) = n.
Proof. unfold to_le_bytes. by rewrite length_rev, to_be_length. Qed.

Lemma from_to_le n v : from_le_bytes (to_le_bytes n v) = v mod 256 ^ Z.of_nat n.
Proof. unfold from_le_bytes, to_le_bytes. by rewrite rev_involutive, from_to_be. Qed.

Lemma list4 (l : bytes) : length l = 4%nat -> exists a b c d, l = [a; b; c; d].
Proof. destruct l as [|a [|b [|c [|d [|]]]]]; try done. intros _. by exists a, b, c, d. Qed.

Lemma list2 (l : bytes) : length l = 2%nat -> exists a b, l = [a; b].
Proof. destruct l as [|a [|b [|]]]; try done. intros _. by exists a, b. Qed.

Lemma command_block_fields tag opcode address sectors transfer length inward :
  u32 tag -> u32 transfer -> u32 address -> 0 <= sectors <= U16_MAX ->
  let b := command_block tag opcode address sectors transfer length inward in
  zlen b = CBW_BYTES /\ slice b 0 4 = CBW_SIGNATURE /\ cbw_tag b = tag /\ cbw_length b = transfer /\
  cbw_inward b = inward /\ nth 14 b 0 = length /\ cbw_opcode b = opcode /\ cbw_address b = address /\ cbw_sectors b = sectors.
Proof.
  intros Ht Hl Ha Hs. cbn zeta. unfold command_block.
  pose proof (from_to_le 4 tag) as Et. pose proof (from_to_le 4 transfer) as El.
  pose proof (from_to_be 4 address) as Ea. pose proof (from_to_be 2 sectors) as Es.
  destruct (list4 _ (to_le_length 4 tag)) as (t0 & t1 & t2 & t3 & E). rewrite E in *. clear E.
  destruct (list4 _ (to_le_length 4 transfer)) as (l0 & l1 & l2 & l3 & E). rewrite E in *. clear E.
  destruct (list4 _ (to_be_length 4 address)) as (a0 & a1 & a2 & a3 & E). rewrite E in *. clear E.
  destruct (list2 _ (to_be_length 2 sectors)) as (s0 & s1 & E). rewrite E in *. clear E.
  unfold cbw_tag, cbw_length, cbw_address, cbw_sectors, cbw_inward, cbw_opcode. unfold CBW_SIGNATURE, slice.
  cbn [app firstn skipn Nat.sub nth replicate].
  change (256 ^ Z.of_nat 4) with 4294967296 in *. change (256 ^ Z.of_nat 2) with 65536 in *. unfold U16_MAX in Hs. ints.
  rewrite Et, El, Ea, Es, !Z.mod_small by lia. split_and!; try done. by destruct inward.
Qed.

(** The messages of an outward command, in order. *)
Definition out_messages (cbw data : bytes) : list bytes := cbw :: (if zlen data =? 0 then [] else [data]).

Section Commands.
Context {S : Type} (endpoint : forall c, S -> result string (answer c) * S).

Lemma run_csw tag t s r t' s' calls :
  run endpoint (op_bind (io (ReadExact CSW_BYTES)) (fun csw => op_lift (validate_csw csw tag)) t) s = (r, t', s', calls) ->
  t' = t /\ sent calls = [] /\ (r = Ok tt -> exists csw, validate_csw csw tag = Ok tt).
Proof.
  intros H. run_step H.
  - apply run_io in E as (-> & -> & x & _ & E). by subst.
  - apply run_io in E as (-> & -> & x & _ & _). apply run_lift in H as (-> & -> & -> & ->).
    split_and!; [done..|]. intros H. by exists a.
Qed.

(** An outward command sends its block and its data, in this order, and succeeds only when
    all was sent and a good status for its tag was read. *)
Lemma run_execute_out opcode address sectors data length tag s r tag' s' calls :
  zlen data <= U32_MAX ->
  run endpoint (execute_out opcode address sectors data length tag) s = (r, tag', s', calls) ->
  let messages := out_messages (command_block tag opcode address sectors (zlen data) length false) data in
  tag' = wrap 32 (tag + 1) /\ sent calls `prefix_of` messages /\
  (r = Ok tt -> sent calls = messages /\ exists csw, validate_csw csw tag = Ok tt).
Proof.
  intros Hd H. cbn zeta. unfold execute_out in H. destruct (Z.ltb_spec U32_MAX (zlen data)); [lia|].
  unfold out_messages. set (cbw := command_block _ _ _ _ _ _ _) in *.
  run_step H; [by apply run_tag in E as (? & _)|]. apply run_tag in E as ([= <-] & -> & -> & ->). fold cbw in H.
  run_step H.
  { apply run_io in E as (-> & -> & _). subst r. cbn. split_and!; [done| |done]. by exists (if zlen data =? 0 then [] else [data]). }
  apply run_io in E as (-> & -> & _). run_step H.
  { destruct (zlen data =? 0); [by apply run_ret in E as (? & _)|].
    apply (run_io endpoint (WriteAll data)) in E as (-> & -> & _). subst r. cbn.
    split_and!; [done|by exists []|done]. }
  apply run_csw in H as (-> & Hc & Hok). destruct (zlen data =? 0).
  - apply run_ret in E as (_ & -> & -> & ->). rewrite !sent_app, Hc. cbn. split_and!; [done|by exists []|]. intros Hr. by split; [|apply Hok].
  - apply (run_io endpoint (WriteAll data)) in E as (-> & -> & _). rewrite !sent_app, Hc. cbn. split_and!; [done|by exists []|]. intros Hr. by split; [|apply Hok].
Qed.

(** An inward command sends its block only, and gives the data stage as it was read. *)
Lemma run_execute_in opcode address sectors transfer length tag s r tag' s' calls :
  run endpoint (execute_in opcode address sectors transfer length tag) s = (r, tag', s', calls) ->
  tag' = wrap 32 (tag + 1) /\
  sent calls = [command_block tag opcode address sectors transfer length true] /\
  (forall data, r = Ok data -> (exists csw, validate_csw csw tag = Ok tt) /\
     ((forall c s, match (endpoint c s).1 with Ok a => answer_ok c a | Err _ => True end) ->
      0 <= transfer -> zlen data = transfer /\ bytes_ok data)).
Proof.
  intros H. unfold execute_in in H.
  run_step H; [by apply run_tag in E as (? & _)|]. apply run_tag in E as ([= <-] & -> & -> & ->).
  run_step H; [apply run_io in E as (-> & -> & x & _ & E); by subst|]. apply run_io in E as (-> & -> & _).
  run_step H.
  { destruct (transfer =? 0); [by apply run_ret in E as (? & _)|].
    apply (run_io endpoint (ReadExact transfer)) in E as (-> & -> & _). by subst r. }
  assert (sent c = [] /\ t = wrap 32 (a + 1) /\
    ((forall c s, match (endpoint c s).1 with Ok a => answer_ok c a | Err _ => True end) -> 0 <= transfer -> zlen a1 = transfer /\ bytes_ok a1))
    as (Hs & -> & Ha).
  { destruct (Z.eqb_spec transfer 0) as [->|Hz].
    - apply run_ret in E as ([= ->] & -> & -> & ->). split_and!; [done..|]. by split; [|constructor].
    - apply (run_io endpoint (ReadExact transfer)) in E as (-> & -> & x & Hx & Ex). split_and!; [done..|]. intros Hep _.
      specialize (Hep (ReadExact transfer) st). rewrite Hx in Hep. cbn [fst] in Hep. by destruct x; [injection Ex as ->|]. }
  run_step H; [apply run_io in E0 as (-> & -> & x & _ & E0); subst; rewrite !sent_app, Hs; by split_and!|].
  apply run_io in E0 as (-> & -> & _). run_step H.
  - apply run_lift in E0 as (? & -> & -> & ->). subst. rewrite !sent_app, Hs. by split_and!.
  - apply run_lift in E0 as (Hcsw & -> & -> & ->). apply run_ret in H as (-> & -> & -> & ->).
    rewrite !sent_app, Hs. cbn. split_and!; [done..|]. intros data [= <-]. split; [|done]. exists a2. by destruct a3.
Qed.
End Commands.

(** ** A device that obeys *)

Definition Medium : Type := Z -> bytes.

(** Sector [i] of a run of sectors. *)
Definition sector_of (b : bytes) (i : Z) : bytes := firstn 512 (skipn (Z.to_nat (512 * i)) b).

Definition place (m : Medium) (address : Z) (data : bytes) : Medium := fun k =>
  if (address <=? k) && (k <? address + zlen data / 512) then sector_of data (k - address) else m k.

(** What the medium holds once the messages are obeyed: a write's block says where its data goes. *)
Fixpoint obey (messages : list bytes) (m : Medium) : Medium :=
  match messages with
  | [] => m
  | cbw :: messages =>
      if cbw_opcode cbw =? WRITE_LBA then
        match messages with data :: messages => obey messages (place m (cbw_address cbw) data) | [] => m end
      else obey messages m
  end.

Lemma ceil_div_bounds n d : 0 < d -> 0 <= n -> 0 <= ceil_div n d /\ n <= ceil_div n d * d < n + d.
Proof.
  intros Hd Hn. unfold ceil_div. pose proof (Z.div_mod n d ltac:(lia)). pose proof (Z.mod_pos_bound n d Hd).
  pose proof (Z.div_pos n d Hn Hd). destruct (Z.eqb_spec (n mod d) 0); split; nia.
Qed.

Lemma ceil_div_step n d : 0 < d -> 0 < n -> ceil_div n d = 1 + ceil_div (Z.max 0 (n - d)) d.
Proof.
  intros Hd Hn. destruct (Z.le_gt_cases n d) as [H|H].
  - rewrite Z.max_l by lia. unfold ceil_div at 2. rewrite Z.mod_0_l, Z.div_0_l by lia. cbn [Z.eqb].
    pose proof (ceil_div_bounds n d Hd ltac:(lia)). nia.
  - rewrite Z.max_r by lia. pose proof (ceil_div_bounds n d Hd ltac:(lia)). pose proof (ceil_div_bounds (n - d) d Hd ltac:(lia)). nia.
Qed.

Lemma zlen_firstn {A} (l : list A) n : 0 <= n -> zlen (firstn (Z.to_nat n) l) = Z.min n (zlen l).
Proof. intros. unfold zlen. rewrite length_firstn. lia. Qed.

Lemma zlen_skipn {A} (l : list A) n : 0 <= n -> zlen (skipn (Z.to_nat n) l) = Z.max 0 (zlen l - n).
Proof. intros. unfold zlen. rewrite length_skipn. lia. Qed.

Lemma zlen_replicate {A} n (x : A) : 0 <= n -> zlen (replicate (Z.to_nat n) x) = n.
Proof. intros. unfold zlen. rewrite length_replicate. lia. Qed.

Lemma padded_length b : zlen (padded b) = ceil_div (zlen b) 512 * 512.
Proof.
  unfold padded, LOGICAL_BLOCK_BYTES. pose proof (zlen_nonneg b). pose proof (ceil_div_bounds (zlen b) 512 ltac:(lia) ltac:(lia)).
  rewrite zlen_app, zlen_replicate; lia.
Qed.

Lemma padded_aligned b : zlen b mod 512 = 0 -> padded b = b.
Proof.
  intros E. unfold padded, ceil_div, LOGICAL_BLOCK_BYTES. rewrite E. cbn [Z.eqb]. pose proof (Z.div_mod (zlen b) 512 ltac:(lia)).
  replace (Z.to_nat _) with O by lia. apply app_nil_r.
Qed.

(** Cutting at a chunk cuts the padded bytes there. *)
Lemma padded_split b :
  padded b = padded (firstn (Z.to_nat max_chunk_bytes) b) ++ padded (skipn (Z.to_nat max_chunk_bytes) b) /\
  ceil_div (zlen b) 512 = ceil_div (zlen (firstn (Z.to_nat max_chunk_bytes) b)) 512 +
                          ceil_div (zlen (skipn (Z.to_nat max_chunk_bytes) b)) 512.
Proof.
  set (M := max_chunk_bytes). assert (0 <= M) by done. destruct (Z.le_gt_cases (zlen b) M) as [Hb|Hb].
  - rewrite firstn_all2, skipn_all2 by (unfold zlen in Hb; lia).
    change (padded []) with (@nil Z). change (ceil_div (zlen (@nil Z)) 512) with 0. rewrite app_nil_r. split; [done|lia].
  - assert (zlen (firstn (Z.to_nat M) b) = M) as Hf by (rewrite zlen_firstn; lia).
    assert (zlen (skipn (Z.to_nat M) b) = zlen b - M) as Hs by (rewrite zlen_skipn; lia).
    assert (M mod 512 = 0) as Hm by done.
    assert (forall n, ceil_div (n + M) 512 = ceil_div n 512 + 16384) as Hc.
    { intros n. unfold ceil_div. replace (n + M) with (n + 16384 * 512) by (unfold M, max_chunk_bytes; done).
      rewrite Z.div_add, Z.mod_add by lia. lia. }
    split.
    + rewrite (padded_aligned (firstn _ b)) by (rewrite Hf; done).
      rewrite <- (firstn_skipn (Z.to_nat M) b) at 1. unfold padded at 1. rewrite <- app_assoc. f_equal. unfold padded. f_equal. f_equal.
      f_equal. rewrite firstn_skipn, Hs. specialize (Hc (zlen b - M)). unfold LOGICAL_BLOCK_BYTES.
      replace (zlen b - M + M) with (zlen b) in Hc by lia. rewrite Hc. unfold M, max_chunk_bytes, ROCKUSB_TRANSFER_CHUNK_SECTORS, LOGICAL_BLOCK_BYTES. lia.
    + rewrite Hf, Hs. specialize (Hc (zlen b - M)). replace (zlen b - M + M) with (zlen b) in Hc by lia. rewrite Hc.
      assert (ceil_div M 512 = 16384) as -> by done. lia.
Qed.

Lemma sector_app_l a b i n : zlen a = n * 512 -> 0 <= i < n -> sector_of (a ++ b) i = sector_of a i.
Proof.
  intros Ha Hi. unfold sector_of, zlen in *. rewrite skipn_app, firstn_app, length_skipn.
  replace (512 - _)%nat with O by lia. cbn. apply app_nil_r.
Qed.

Lemma sector_app_r a b i n : zlen a = n * 512 -> n <= i -> sector_of (a ++ b) i = sector_of b (i - n).
Proof.
  intros Ha Hi. unfold sector_of, zlen in *. rewrite skipn_app, skipn_all2 by lia. cbn [app]. f_equal. f_equal. lia.
Qed.

(** ** Writes *)

Section OneWrite.
Context (tag address sectors : Z) (data : bytes).
Hypothesis (Ht : u32 tag) (Ha : u32 address) (Hs : 0 <= sectors <= U16_MAX) (Hd : 0 < zlen data <= U32_MAX).

Abbreviation write_messages := (out_messages (command_block tag WRITE_LBA address sectors (zlen data) 10 false) data).

Lemma write_block : cbw_opcode (command_block tag WRITE_LBA address sectors (zlen data) 10 false) = WRITE_LBA /\
  cbw_address (command_block tag WRITE_LBA address sectors (zlen data) 10 false) = address.
Proof using Ht Ha Hs Hd.
  assert (u32 (zlen data)) as Hl by zlia.
  by destruct (command_block_fields tag WRITE_LBA address sectors (zlen data) 10 false Ht Hl Ha Hs) as (_ & _ & _ & _ & _ & _ & Ho & Hadd & _).
Qed.

Lemma obey_whole more m : obey (write_messages ++ more) m = obey more (place m address data).
Proof using Ht Ha Hs Hd.
  destruct write_block as [Ho Hadd]. unfold out_messages. destruct (Z.eqb_spec (zlen data) 0); [lia|].
  cbn [app obey]. by rewrite Ho, Hadd.
Qed.

(** Any part of a write's messages leaves the medium as it was or with the write done. *)
Lemma obey_part messages m :
  messages `prefix_of` write_messages -> obey messages m = m \/ obey messages m = place m address data.
Proof using Ht Ha Hs Hd.
  destruct write_block as [Ho Hadd]. unfold out_messages. destruct (Z.eqb_spec (zlen data) 0); [lia|].
  set (cbw := command_block _ _ _ _ _ _ _) in *. clearbody cbw. intros Hp.
  destruct messages as [|m1 messages]; [by left|].
  pose proof (prefix_cons_inv_1 _ _ _ _ Hp) as ->. apply prefix_cons_inv_2 in Hp.
  destruct messages as [|m2 messages]; [left; cbn [obey]; by rewrite Ho|].
  pose proof (prefix_cons_inv_1 _ _ _ _ Hp) as ->. apply prefix_cons_inv_2 in Hp. apply prefix_nil_inv in Hp as ->.
  right. cbn [obey]. by rewrite Ho, Hadd.
Qed.
End OneWrite.

Section Writes.
Context {S : Type} (endpoint : forall c, S -> result string (answer c) * S).

Definition in_run (position : Z) (b : bytes) (k : Z) : Prop := position <= k < position + ceil_div (zlen b) 512.

Lemma write_rounds_lands rounds position rest chunks tag s r tag' s' calls m :
  u32 tag -> 0 <= position -> position + ceil_div (zlen rest) 512 <= U32_MAX + 1 ->
  run endpoint (write_rounds rounds position rest chunks tag) s = (r, tag', s', calls) ->
  u32 tag' /\
  (forall k, obey (sent calls) m k = m k \/ (in_run position rest k /\ obey (sent calls) m k = sector_of (padded rest) (k - position))) /\
  (forall n, r = Ok n -> ceil_div (zlen rest) max_chunk_bytes <= Z.of_nat rounds ->
     n = chunks + ceil_div (zlen rest) max_chunk_bytes /\
     forall k, in_run position rest k -> obey (sent calls) m k = sector_of (padded rest) (k - position)).
Proof.
  revert position rest chunks tag s r tag' s' calls m.
  induction rounds as [|rounds IH]; intros position rest chunks tag s r tag' s' calls m Ht Hpos Hend H; cbn [write_rounds] in H.
  { apply run_ret in H as (-> & -> & -> & ->). split; [done|]. split; [by left|]. intros n [= <-] Hr.
    pose proof (zlen_nonneg rest). pose proof (ceil_div_bounds (zlen rest) max_chunk_bytes ltac:(done) ltac:(done)).
    assert (zlen rest = 0) as E by nia. unfold in_run. rewrite E in *. change (ceil_div 0 max_chunk_bytes) with 0.
    change (ceil_div 0 512) with 0. split; [lia|]. intros k ?. lia. }
  destruct (Z.eqb_spec (zlen rest) 0) as [E|E].
  { apply run_ret in H as (-> & -> & -> & ->). split; [done|]. split; [by left|]. intros n [= <-] _.
    unfold in_run. rewrite E. change (ceil_div 0 max_chunk_bytes) with 0. change (ceil_div 0 512) with 0. split; [lia|]. intros k ?. lia. }
  pose proof (padded_split rest) as [Hsplit Hceil]. set (p := firstn (Z.to_nat max_chunk_bytes) rest) in *.
  set (rest' := skipn (Z.to_nat max_chunk_bytes) rest) in *. unfold LOGICAL_BLOCK_BYTES in H. pose proof (zlen_nonneg rest).
  assert (0 < zlen p <= 8388608) as Hp by (unfold p; rewrite zlen_firstn by done; change max_chunk_bytes with 8388608; lia).
  assert (zlen rest' = Z.max 0 (zlen rest - max_chunk_bytes)) as Hr' by (unfold rest'; by rewrite zlen_skipn).
  pose proof (padded_length p) as Hpl. pose proof (ceil_div_bounds (zlen p) 512 ltac:(lia) ltac:(lia)) as [_ Hcs].
  set (cs := ceil_div (zlen p) 512) in *. pose proof (ceil_div_bounds (zlen rest') 512 ltac:(lia) ltac:(lia)) as [Hc' _].
  rewrite (wrap_small 16 cs), (wrap_small 32 position) in H by (ints; lia).
  assert (zlen (padded p) <= U32_MAX) as Hu by zlia. assert (u32 position) as Hup by zlia.
  assert (forall k, place m position (padded p) k = if (position <=? k) && (k <? position + cs) then sector_of (padded p) (k - position) else m k) as Hplace.
  { intros k. unfold place. rewrite Hpl. by rewrite Z.div_mul by done. }
  assert (forall k, position <= k < position + cs -> sector_of (padded rest) (k - position) = sector_of (padded p) (k - position)) as Hfirst.
  { intros k Hk. rewrite Hsplit. apply (sector_app_l _ _ _ cs); [done|lia]. }
  assert (forall k, in_run position rest k <-> position <= k < position + cs \/ in_run (position + cs) rest' k) as Hrun
    by (intros k; unfold in_run; lia).
  apply run_seq in H as [(e & E1 & ->)|(u & t1 & s1 & c1 & c2 & E1 & H & ->)];
    pose proof (run_execute_out endpoint _ _ _ _ _ _ _ _ _ _ _ Hu E1) as (-> & Hpre & Hok).
  - assert (u32 (wrap 32 (tag + 1))) as Hw by (pose proof (wrap_range 32 (tag + 1) ltac:(lia)); zlia). split; [done|]. split; [|done].
    intros k. destruct (obey_part tag position cs (padded p) Ht Hup ltac:(unfold U16_MAX; lia) ltac:(zlia) _ m Hpre) as [-> | ->]; [by left|].
    rewrite Hplace. destruct (Z.leb_spec position k); cbn [andb]; [|by left]. destruct (Z.ltb_spec k (position + cs)); [|by left].
    right. split; [apply Hrun; lia|]. by rewrite Hfirst.
  - destruct u. destruct (Hok eq_refl) as [Hall _].
    assert (u32 (wrap 32 (tag + 1))) as Hw by (pose proof (wrap_range 32 (tag + 1) ltac:(lia)); zlia).
    assert (obey (sent (c1 ++ c2)) m = obey (sent c2) (place m position (padded p))) as Hobey.
    { rewrite sent_app, Hall. apply obey_whole; [done|done|unfold U16_MAX; lia|zlia]. }
    destruct (IH (position + cs) rest' (chunks + 1) _ _ _ _ _ _ (place m position (padded p)) Hw ltac:(lia) ltac:(lia) H) as (Ht' & Hold & Hnew).
    assert (forall k, position + cs <= k -> sector_of (padded rest) (k - position) = sector_of (padded rest') (k - (position + cs))) as Hlater.
    { intros k Hk. rewrite Hsplit, (sector_app_r _ _ _ cs) by (done || lia). f_equal. lia. }
    split; [done|]. rewrite Hobey. split.
    + intros k. destruct (Hold k) as [-> |[Hk ->]].
      * rewrite Hplace. destruct (Z.leb_spec position k); cbn [andb]; [|by left]. destruct (Z.ltb_spec k (position + cs)); [|by left].
        right. split; [apply Hrun; lia|]. by rewrite Hfirst.
      * right. split; [apply Hrun; by right|]. rewrite Hlater; [done|]. unfold in_run in Hk. lia.
    + intros n -> Hrounds. pose proof (ceil_div_step (zlen rest) max_chunk_bytes ltac:(done) ltac:(lia)) as Hone. rewrite <- Hr' in Hone.
      destruct (Hnew n eq_refl ltac:(lia)) as [-> Hall']. split; [lia|]. intros k [Hk|Hk]%Hrun.
      * destruct (Hold k) as [-> |[Hk' _]]; [|unfold in_run in Hk'; lia]. rewrite Hplace, Hfirst by done.
        destruct (Z.leb_spec position k); [|lia]. destruct (Z.ltb_spec k (position + cs)); [done|lia].
      * rewrite Hall' by done. rewrite Hlater; [done|]. unfold in_run in Hk. lia.
Qed.

(** A write, and the tag it leaves. *)
Lemma write_lba_effect begin_sector data tag s r tag' s' calls m :
  u32 tag -> u64 begin_sector ->
  run endpoint (write_lba begin_sector data tag) s = (r, tag', s', calls) ->
  (forall k, obey (sent calls) m k = m k \/
     (in_run begin_sector data k /\ obey (sent calls) m k = sector_of (padded data) (k - begin_sector))) /\
  (data = [] \/ U32_MAX + 1 < begin_sector + ceil_div (zlen data) 512 -> sent calls = [] /\ exists e, r = Err e) /\
  (forall p, r = Ok p -> u32 tag' /\
     p = mkProgress (zlen data) (ceil_div (zlen data) 512) (ceil_div (zlen data) max_chunk_bytes) /\
     begin_sector + ceil_div (zlen data) 512 <= U32_MAX + 1 /\
     forall k, in_run begin_sector data k -> obey (sent calls) m k = sector_of (padded data) (k - begin_sector)).
Proof.
  intros Ht Hb H. unfold write_lba in H. pose proof (zlen_nonneg data).
  destruct (Z.eqb_spec (zlen data) 0) as [E|E].
  { injection H as <- <- <- <-. split; [by left|]. split; [by eauto|done]. }
  assert (data <> []) as Hne by (intros ->; done).
  pose proof (ceil_div_bounds (zlen data) 512 ltac:(lia) ltac:(lia)) as Hc. unfold LOGICAL_BLOCK_BYTES in H.
  apply run_seq in H as [(e & E1 & ->)|(u & t1 & s1 & c1 & c2 & E1 & H & ->)].
  { apply run_lift in E1 as (_ & -> & -> & ->). split; [by left|]. split; [by eauto|done]. }
  apply run_lift in E1 as (Hv & -> & -> & ->). unfold validate_sector_range, checked_add in Hv.
  destruct (Z.leb_spec (begin_sector + ceil_div (zlen data) 512) U64_MAX); cbn [ok_or] in Hv; [|done].
  destruct (Z.ltb_spec U32_MAX begin_sector); [done|].
  destruct (Z.ltb_spec (U32_MAX + 1) (begin_sector + ceil_div (zlen data) 512)); [done|]. cbn [app].
  pose proof (ceil_div_bounds (zlen data) max_chunk_bytes ltac:(done) ltac:(lia)) as [Hm _].
  assert (0 <= begin_sector) by apply Hb.
  apply run_seq in H as [(e & E2 & ->)|(n & t2 & s2 & c3 & c4 & E2 & H & ->)];
    destruct (write_rounds_lands _ begin_sector data _ _ _ _ _ _ _ m Ht ltac:(done) ltac:(lia) E2) as (Ht' & Hold & Hnew).
  - split; [exact Hold|]. split; [intros [?|?]; [done|lia]|done].
  - apply run_ret in H as (-> & -> & -> & ->). rewrite app_nil_r. split; [exact Hold|].
    split; [intros [?|?]; [done|lia]|]. intros p [= <-].
    destruct (Hnew n eq_refl ltac:(lia)) as [-> Hall]. rewrite Z.add_0_l. split; [done|]. split; [done|]. split; [lia|exact Hall].
Qed.

(** What a write puts on the wire: whatever the endpoint answers, a device that obeys the
    messages changes no sector outside the run the payload needs, leaves every sector of the
    run old or new, and holds exactly the payload, zero-filled to whole sectors, when the
    write succeeds; a run past the 32-bit address space or an empty payload sends nothing. *)
Theorem write_lba_lands begin_sector data tag s r tag' s' calls m :
  u32 tag -> u64 begin_sector ->
  run endpoint (write_lba begin_sector data tag) s = (r, tag', s', calls) ->
  (forall k, obey (sent calls) m k = m k \/
     (in_run begin_sector data k /\ obey (sent calls) m k = sector_of (padded data) (k - begin_sector))) /\
  (data = [] \/ U32_MAX + 1 < begin_sector + ceil_div (zlen data) 512 -> sent calls = [] /\ exists e, r = Err e) /\
  (forall p, r = Ok p ->
     p = mkProgress (zlen data) (ceil_div (zlen data) 512) (ceil_div (zlen data) max_chunk_bytes) /\
     begin_sector + ceil_div (zlen data) 512 <= U32_MAX + 1 /\
     forall k, in_run begin_sector data k -> obey (sent calls) m k = sector_of (padded data) (k - begin_sector)).
Proof.
  intros Ht Hb H. destruct (write_lba_effect _ _ _ _ _ _ _ _ m Ht Hb H) as (Hold & Hnone & Hok).
  split; [exact Hold|]. split; [exact Hnone|]. intros p Hp. exact (proj2 (Hok p Hp)).
Qed.
End Writes.

(** ** Reads *)

(** The block of a command that brings data in or asks for the state. *)
Definition reading (b : bytes) : Prop :=
  zlen b = CBW_BYTES /\ cbw_inward b = true /\ cbw_opcode b ∈ [TEST_UNIT_READY; READ_FLASH_INFO; READ_LBA].

Lemma block_reading tag opcode address sectors transfer length :
  opcode ∈ [TEST_UNIT_READY; READ_FLASH_INFO; READ_LBA] ->
  reading (command_block tag opcode address sectors transfer length true).
Proof.
  intros Ho. unfold reading, command_block, cbw_inward, cbw_opcode.
  destruct (list4 _ (to_le_length 4 tag)) as (t0 & t1 & t2 & t3 & ->).
  destruct (list4 _ (to_le_length 4 transfer)) as (l0 & l1 & l2 & l3 & ->).
  destruct (list4 _ (to_be_length 4 address)) as (a0 & a1 & a2 & a3 & ->).
  by destruct (list2 _ (to_be_length 2 sectors)) as (s0 & s1 & ->).
Qed.

(** A device that obeys only such commands keeps its medium. *)
Lemma obey_reading messages m : Forall reading messages -> obey messages m = m.
Proof.
  induction 1 as [|b messages (_ & _ & Ho) _ IH]; cbn [obey]; [done|].
  destruct (Z.eqb_spec (cbw_opcode b) WRITE_LBA) as [E|]; [|done]. exfalso. rewrite E in Ho.
  repeat (apply elem_of_cons in Ho as [?|Ho]; [done|]). by apply elem_of_nil in Ho.
Qed.

Section Reads.
Context {S : Type} (endpoint : forall c, S -> result string (answer c) * S).

Definition sends_reading {A} (m : op A) : Prop := forall tag s r tag' s' calls,
  run endpoint (m tag) s = (r, tag', s', calls) -> Forall reading (sent calls).

Lemma only_reading_bind {A B} (m : op A) (k : A -> op B) :
  sends_reading m -> (forall a, sends_reading (k a)) -> sends_reading (op_bind m k).
Proof.
  intros Hm Hk tag s r tag' s' calls H. apply run_seq in H as [(e & E & ->)|(a & t1 & s1 & c1 & c2 & E & H & ->)]; [by eapply Hm|].
  rewrite sent_app. apply Forall_app. split; [by eapply Hm|by eapply Hk].
Qed.

Lemma reading_lift {A} (x : result ProtocolError A) : sends_reading (op_lift x).
Proof. intros tag s r tag' s' calls H. apply run_lift in H as (_ & _ & _ & ->). constructor. Qed.

Lemma reading_in opcode address sectors transfer length :
  opcode ∈ [TEST_UNIT_READY; READ_FLASH_INFO; READ_LBA] -> sends_reading (execute_in opcode address sectors transfer length).
Proof.
  intros Ho tag s r tag' s' calls H. apply run_execute_in in H as (_ & -> & _). constructor; [by apply block_reading|constructor].
Qed.

Lemma reading_read_io c : (match c with WriteAll b => reading b | _ => True end) -> sends_reading (io c).
Proof.
  intros Hc tag s r tag' s' calls H. apply run_io in H as (-> & _). destruct c; [constructor; [done|]|..]; constructor.
Qed.

Lemma reading_rounds rounds position remaining all : sends_reading (read_rounds rounds position remaining all).
Proof.
  revert position remaining all. induction rounds as [|rounds IH]; intros position remaining all; cbn [read_rounds];
    [apply (reading_lift (Ok all))|]. destruct (remaining <=? 0); [apply (reading_lift (Ok all))|].
  apply only_reading_bind; [apply reading_in; set_solver|]. intros a. apply IH.
Qed.

Lemma reading_lba begin_sector sectors : sends_reading (read_lba begin_sector sectors).
Proof.
  apply only_reading_bind; [apply reading_lift|]. intros _. destruct (U64_MAX <? _); [apply (reading_lift (Err _))|].
  apply reading_rounds.
Qed.

Lemma reading_ready : sends_reading test_unit_ready.
Proof. apply only_reading_bind; [apply reading_in; set_solver|]. intros _. apply (reading_lift (Ok tt)). Qed.

Lemma reading_capacity : sends_reading read_capacity_sectors.
Proof.
  apply only_reading_bind; [intros tag s r tag' s' calls H; apply run_tag in H as (_ & _ & _ & ->); constructor|]. intros tag.
  apply only_reading_bind; [apply reading_read_io, block_reading; set_solver|]. intros _.
  apply only_reading_bind; [by apply reading_read_io|]. intros [actual buffer]. cbn [fst snd].
  destruct (negb _); [apply (reading_lift (Err _))|]. apply only_reading_bind; [by apply reading_read_io|]. intros csw.
  apply only_reading_bind; [apply reading_lift|]. intros _. cbv zeta. destruct (_ =? 0); apply (reading_lift (_ _)).
Qed.

Lemma reading_table : sends_reading read_partition_table.
Proof.
  apply only_reading_bind; [apply reading_lba|]. intros block. apply only_reading_bind; [apply reading_lift|]. intros header. cbv zeta.
  destruct (U64_MAX <? _); [apply (reading_lift (Err _))|]. destruct (_ <? _); [apply (reading_lift (Err _))|].
  apply only_reading_bind; [apply reading_lba|]. intros b. apply reading_lift.
Qed.

(** Looking does not touch: whatever the endpoint answers, readiness, capacity, sector and
    partition table reads send nothing but inward command blocks, so a device that obeys them
    keeps every sector. *)
Theorem looking_does_not_write :
  sends_reading test_unit_ready /\ sends_reading read_capacity_sectors /\
  (forall begin_sector sectors, sends_reading (read_lba begin_sector sectors)) /\ sends_reading read_partition_table /\
  (forall A (m : op A) tag s r tag' s' calls medium, sends_reading m ->
     run endpoint (m tag) s = (r, tag', s', calls) -> obey (sent calls) medium = medium).
Proof.
  split; [exact reading_ready|]. split; [exact reading_capacity|]. split; [exact reading_lba|]. split; [exact reading_table|].
  intros A m tag s r tag' s' calls medium Hm H. apply obey_reading. by eapply Hm.
Qed.

(** An endpoint in front of a device that serves sector reads from a medium: [pending] is the
    block of the last message sent. *)
Definition serves (pending : S -> bytes) (m : Medium) : Prop := forall s,
  (forall b, (endpoint (WriteAll b) s).1 = Ok tt -> pending (endpoint (WriteAll b) s).2 = b) /\
  (forall n data, (endpoint (ReadExact n) s).1 = Ok data -> zlen data = n /\
     (cbw_opcode (pending s) = READ_LBA -> n = cbw_length (pending s) ->
      forall i, 0 <= i < n / 512 -> sector_of data i = m (cbw_address (pending s) + i))).

(** One read command. *)
Lemma execute_in_serves pending m address sectors tag s r tag' s' calls data :
  serves pending m -> u32 tag -> u32 address -> 0 < sectors <= ROCKUSB_TRANSFER_CHUNK_SECTORS ->
  run endpoint (execute_in READ_LBA address sectors (sectors * LOGICAL_BLOCK_BYTES) 10 tag) s = (r, tag', s', calls) -> r = Ok data ->
  zlen data = sectors * 512 /\ u32 tag' /\ forall i, 0 <= i < sectors -> sector_of data i = m (address + i).
Proof.
  intros Hserve Ht Ha Hs H ->. unfold execute_in, ROCKUSB_TRANSFER_CHUNK_SECTORS, LOGICAL_BLOCK_BYTES in *.
  run_step H; [done|]. apply run_tag in E as ([= ->] & -> & -> & ->).
  run_step H; [done|]. apply run_io in E as (_ & -> & x & Hx & Ex).
  pose proof (proj1 (Hserve s) (command_block tag READ_LBA address sectors (sectors * 512) 10 true)) as Hpend. rewrite Hx in Hpend.
  destruct x as [[]|]; [|done]. specialize (Hpend eq_refl). cbn [snd] in Hpend.
  run_step H; [done|]. destruct (Z.eqb_spec (sectors * 512) 0); [lia|].
  apply (run_io endpoint (ReadExact (sectors * 512))) in E as (_ & -> & x & Hx' & Ex').
  pose proof (proj2 (Hserve st) (sectors * 512)) as Hread. rewrite Hx' in Hread. destruct x as [d|]; [|done]. injection Ex' as <-.
  run_step H; [done|]. apply run_io in E as (_ & -> & _). run_step H; [done|]. apply run_lift in E as (_ & -> & _ & _).
  apply run_ret in H as ([= <-] & -> & _). destruct (Hread _ eq_refl) as [Hl Hsec]. rewrite Hpend in Hsec.
  destruct (command_block_fields tag READ_LBA address sectors (sectors * 512) 10 true Ht ltac:(zlia) Ha ltac:(unfold U16_MAX; lia))
    as (_ & _ & _ & Hlen & _ & _ & Ho & Hadd & _).
  rewrite Ho, Hlen, Hadd, Z.div_mul in Hsec by done. split; [done|].
  split; [pose proof (wrap_range 32 (tag + 1) ltac:(lia)); zlia|]. by apply Hsec.
Qed.

Lemma read_rounds_serves pending m rounds position remaining all tag s r tag' s' calls begin_sector data :
  serves pending m -> u32 tag -> 0 <= begin_sector -> 0 <= remaining -> begin_sector <= position ->
  position + remaining <= U32_MAX + 1 -> ceil_div remaining ROCKUSB_TRANSFER_CHUNK_SECTORS <= Z.of_nat rounds ->
  zlen all = (position - begin_sector) * 512 ->
  (forall i, 0 <= i < position - begin_sector -> sector_of all i = m (begin_sector + i)) ->
  run endpoint (read_rounds rounds position remaining all tag) s = (r, tag', s', calls) -> r = Ok data ->
  zlen data = (position + remaining - begin_sector) * 512 /\
  forall i, 0 <= i < position + remaining - begin_sector -> sector_of data i = m (begin_sector + i).
Proof.
  intros Hserve. revert position remaining all tag s r tag' s' calls.
  induction rounds as [|rounds IH]; intros position remaining all tag s r tag' s' calls Ht Hb Hrem Hpos Hend Hrounds Hlen Hall H ->;
    cbn [read_rounds] in H; pose proof (ceil_div_bounds remaining ROCKUSB_TRANSFER_CHUNK_SECTORS ltac:(done) Hrem) as Hc.
  { apply run_ret in H as ([= <-] & _). replace remaining with 0 by nia. rewrite Z.add_0_r. by split. }
  destruct (Z.leb_spec remaining 0).
  { apply run_ret in H as ([= <-] & _). replace remaining with 0 by lia. rewrite Z.add_0_r. by split. }
  pose proof (ceil_div_step remaining ROCKUSB_TRANSFER_CHUNK_SECTORS ltac:(done) ltac:(lia)) as Hstep.
  set (chunk := Z.min remaining ROCKUSB_TRANSFER_CHUNK_SECTORS) in *.
  assert (0 < chunk <= ROCKUSB_TRANSFER_CHUNK_SECTORS) as Hchunk by (unfold chunk, ROCKUSB_TRANSFER_CHUNK_SECTORS; lia).
  rewrite (wrap_small 32 position) in H by (ints; lia). run_step H; [done|].
  destruct (execute_in_serves pending m position chunk tag s _ _ _ _ a Hserve Ht ltac:(zlia) Hchunk E eq_refl) as (Hl & Ht' & Hsec).
  replace (Z.max 0 (remaining - ROCKUSB_TRANSFER_CHUNK_SECTORS)) with (remaining - chunk) in Hstep by lia.
  replace (position + remaining) with (position + chunk + (remaining - chunk)) by lia.
  refine (IH (position + chunk) (remaining - chunk) (all ++ a) t st _ _ _ _ Ht' Hb _ _ _ _ _ _ H eq_refl);
    [lia..|rewrite zlen_app; lia|].
  intros i Hi. destruct (Z.lt_ge_cases i (position - begin_sector)) as [Hl'|Hl'].
  - rewrite (sector_app_l _ _ _ (position - begin_sector)) by (done || lia). apply Hall. lia.
  - rewrite (sector_app_r _ _ _ (position - begin_sector)) by (done || lia). rewrite Hsec by lia. f_equal. lia.
Qed.

(** A read of any number of transfers. *)
Lemma read_lba_serves pending m begin_sector sectors tag s r tag' s' calls data :
  serves pending m -> u32 tag -> u64 begin_sector -> u64 sectors ->
  run endpoint (read_lba begin_sector sectors tag) s = (r, tag', s', calls) -> r = Ok data ->
  zlen data = sectors * 512 /\ begin_sector + sectors <= U32_MAX + 1 /\
  forall i, 0 <= i < sectors -> sector_of data i = m (begin_sector + i).
Proof.
  intros Hserve Ht Hb Hs H ->. unfold read_lba in H. run_step H; [done|]. apply run_lift in E as (Hv & -> & -> & ->).
  unfold validate_sector_range, checked_add in Hv. destruct (_ <=? U64_MAX); cbn [ok_or] in Hv; [|done].
  destruct (Z.ltb_spec U32_MAX begin_sector); [done|].
  destruct (Z.ltb_spec (U32_MAX + 1) (begin_sector + sectors)); [done|]. destruct (U64_MAX <? _); [done|].
  pose proof (ceil_div_bounds sectors ROCKUSB_TRANSFER_CHUNK_SECTORS ltac:(done) ltac:(zlia)) as [Hc _].
  assert (zlen data = (begin_sector + sectors - begin_sector) * 512 /\
    forall i, 0 <= i < begin_sector + sectors - begin_sector -> sector_of data i = m (begin_sector + i)) as [Hl Hall].
  { refine (read_rounds_serves pending m _ begin_sector sectors [] tag s _ _ _ _ begin_sector data Hserve Ht _ _ _ _ _ _ _ H eq_refl);
      try (intros; ints; lia); by rewrite Z.sub_diag. }
  replace (begin_sector + sectors - begin_sector) with sectors in * by lia. split_and!; [done|lia|done].
Qed.

(** Sector reads are exact: in front of a device that serves its medium, a read that
    succeeds gives the whole run of sectors asked for, in order, however many transfers it
    takes. *)
Theorem read_lba_exact pending m begin_sector sectors tag s r tag' s' calls data :
  serves pending m -> u32 tag -> u64 begin_sector -> u64 sectors ->
  run endpoint (read_lba begin_sector sectors tag) s = (r, tag', s', calls) -> r = Ok data ->
  zlen data = sectors * 512 /\ begin_sector + sectors <= U32_MAX + 1 /\
  forall i, 0 <= i < sectors -> sector_of data i = m (begin_sector + i).
Proof. apply read_lba_serves. Qed.
End Reads.

(** ** A device to try *)

(** A loopback device whose every sector holds sevens: it remembers the last message and the
    tag of the last command block, and answers data stages and status blocks. *)
Definition loopback (c : call) (s : bytes * Z) : result string (answer c) * (bytes * Z) :=
  match c return result string (answer c) * (bytes * Z) with
  | WriteAll b => (Ok tt, (b, if zlen b =? CBW_BYTES then cbw_tag b else s.2))
  | ReadSome n => (Ok (n, replicate (Z.to_nat n) 7), s)
  | ReadExact n =>
      (if n <? 0 then Err "negative" else
       if n =? CSW_BYTES then Ok (CSW_SIGNATURE ++ to_le_bytes 4 s.2 ++ replicate 5 0) else Ok (replicate (Z.to_nat n) 7), s)
  end.

Definition sevens : Medium := fun _ => replicate 512 7.

Lemma sector_of_replicate n i : 0 <= i < n / 512 -> sector_of (replicate (Z.to_nat n) 7) i = replicate 512 7.
Proof.
  intros Hi. unfold sector_of. pose proof (Z.mul_div_le n 512 ltac:(lia)).
  rewrite drop_replicate, take_replicate. f_equal. lia.
Qed.

Lemma loopback_serves : serves loopback fst sevens.
Proof.
  intros s. split; [done|]. intros n data. cbn [loopback fst snd]. destruct (Z.ltb_spec n 0); [done|]. destruct (Z.eqb_spec n CSW_BYTES) as [->|].
  - destruct (list4 _ (to_le_length 4 s.2)) as (t0 & t1 & t2 & t3 & ->). intros [= <-]. split; [done|]. intros _ _ i Hi. change (CSW_BYTES / 512) with 0 in Hi. lia.
  - intros [= <-]. rewrite zlen_replicate by done. split; [done|]. intros _ _ i Hi. by apply sector_of_replicate.
Qed.

Lemma write_lba_lands_witness :
  exists s' calls, run loopback (write_lba 64 [1; 2; 3] 9) ([], 0) = (Ok (mkProgress 3 1 1), 10, s', calls) /\
    obey (sent calls) sevens 64 = [1; 2; 3] ++ replicate 509 0 /\ obey (sent calls) sevens 65 = replicate 512 7.
Proof.
  destruct (run loopback (write_lba 64 [1; 2; 3] 9) ([], 0)) as [[[r tag] s'] calls] eqn:E.
  assert (r = Ok (mkProgress 3 1 1) /\ tag = 10) as [-> ->] by (vm_compute in E; by injection E as <- <- _ _).
  exists s', calls. split; [done|].
  destruct (write_lba_lands loopback 64 [1; 2; 3] 9 ([], 0) _ _ _ _ sevens ltac:(zlia) ltac:(zlia) E) as (Hold & _ & Hok).
  destruct (Hok _ eq_refl) as (_ & _ & Hall). split.
  - rewrite Hall by (split; vm_compute; congruence). by vm_compute.
  - destruct (Hold 65) as [-> |[[_ H] _]]; [done|]. by vm_compute in H.
Defined.

Lemma looking_does_not_write_witness :
  exists s' calls, run loopback (read_capacity_sectors 5) ([], 0) = (Ok 117901063, 6, s', calls) /\ obey (sent calls) sevens = sevens.
Proof.
  destruct (run loopback (read_capacity_sectors 5) ([], 0)) as [[[r tag] s'] calls] eqn:E.
  assert (r = Ok 117901063 /\ tag = 6) as [-> ->] by (vm_compute in E; by injection E as <- <- _ _).
  exists s', calls. split; [done|].
  destruct (looking_does_not_write loopback) as (_ & Hc & _ & _ & Hk). by apply (Hk _ _ _ _ _ _ _ _ _ Hc E).
Defined.

Lemma read_lba_exact_witness :
  exists data s' calls, run loopback (read_lba 8 2 1) ([], 0) = (Ok data, 2, s', calls) /\ zlen data = 1024 /\
    sector_of data 1 = replicate 512 7.
Proof.
  destruct (run loopback (read_lba 8 2 1) ([], 0)) as [[[r tag] s'] calls] eqn:E.
  assert (r = Ok (replicate 1024 7) /\ tag = 2) as [-> ->] by (vm_compute in E; by injection E as <- <- _ _).
  exists (replicate 1024 7), s', calls. split; [done|].
  destruct (read_lba_exact loopback fst sevens 8 2 1 ([], 0) _ _ _ _ (replicate 1024 7)
    loopback_serves ltac:(zlia) ltac:(zlia) ltac:(zlia) E eq_refl) as (Hl & _ & Hs).
  split; [done|]. rewrite Hs by lia. done.
Defined.
