(* ===== verification/GptSound.v ===== *)
(** * What a GPT that is read says (crates/arkforge-provider/src/rockusb_protocol.rs)

    The table a parse gives is the used slots of an array whose CRC-32 is the header's, in
    order, each partition running to the start of the next; the checksum is the one of the
    gzip trailer. *)

From stdpp Require Import gmap.
From S2P Require Import Prelude Bits Huffman Inflate Gzip Manifest Interaction Rockusb.

(** ** The checksum *)

Lemma crc_step_bit v : crc_word v -> crc_step v = crc_bit v.
Proof.
  intros Hv. unfold crc_step, crc_bit.
  assert (Z.land v 1 = v mod 2) as -> by (change 1 with (Z.ones 1); by rewrite Z.land_ones).
  pose proof (Z.mod_pos_bound v 2 ltac:(lia)). rewrite (Z.lxor_comm CRC_POLYNOMIAL).
  assert (v mod 2 = 0 \/ v mod 2 = 1) as [-> | ->] by lia; cbn [Z.eqb negb].
  - change (wrap 32 (0 - 0)) with 0. by rewrite Z.land_0_r, Z.lxor_0_r.
  - f_equal.
Qed.

Lemma iter_step_bit n v : crc_word v -> Nat.iter n crc_step v = Nat.iter n crc_bit v /\ crc_word (Nat.iter n crc_bit v).
Proof.
  intros Hv. induction n as [|n [IH Hw]]; [done|]. rewrite !Nat.iter_succ, IH. split; [by apply crc_step_bit|by apply crc_bit_u32].
Qed.

(** The checksum of the partition table is the CRC-32 of the gzip reader: the masked shift
    and the table of bytes give the same sum of any bytes. *)
Theorem crc32_agree b : bytes_ok b -> Rockusb.crc32 b = Gzip.crc32 b.
Proof.
  intros Hb. unfold Rockusb.crc32, Gzip.crc32, crc_finalize. f_equal. rewrite crc_update_register by done.
  assert (crc_word crc_new) as Hv by done. change 0xffffffff with crc_new. revert Hv. generalize crc_new as v.
  induction Hb as [|x b Hx _ IH]; intros v Hv; [done|]. cbn [foldl flat_map]. unfold u8, U8_MAX in Hx.
  rewrite register_app, (register_at_once v), length_bits_of, lsb_bits_of by apply Hv.
  change (2 ^ Z.of_nat 8) with 256. rewrite Z.mod_small by lia.
  assert (crc_word (Z.lxor v x)) as Hw.
  { apply high_bits_small; [apply Z.lxor_nonneg; unfold crc_word in Hv; lia|]. intros i Hi.
    by rewrite Z.lxor_spec, (small_high_bits v i), (small_high_bits x i) by (done || (unfold crc_word; lia)). }
  destruct (iter_step_bit 8 _ Hw) as [-> Hw']. by apply IH.
Qed.

(** ** Entries *)

Definition slot (size : Z) (b : bytes) (i : Z) : bytes := firstn (Z.to_nat size) (skipn (Z.to_nat (i * size)) b).

(** A slot with a partition type. *)
Definition used (entry : bytes) : bool := negb (forallb (Z.eqb 0) (firstn 16 entry)).

(** What a used slot says: a first sector, a last one not before it, a name. *)
Definition slot_says (entry : bytes) (offset : Z) (name : string) : Prop :=
  le_u64 entry 32 = Ok offset /\ offset <> 0 /\ (exists last, le_u64 entry 40 = Ok last /\ offset <= last) /\
  exists text, from_utf16 (name_units (slice entry 56 128)) = Some text /\ text <> [] /\ name = string_of_bytes text.

(** Every partition but the last ends where the next one starts. *)
Fixpoint chained (entries : list PartitionEntryFact) : Prop :=
  match entries with
  | [] => True
  | entry :: rest =>
      match rest with
      | [] => size_sectors entry = None
      | next :: _ => offset_sectors entry < offset_sectors next /\
                     size_sectors entry = Some (offset_sectors next - offset_sectors entry)
      end /\ chained rest
  end.

Lemma parse_entry_sound index previous entry row :
  parse_entry index previous entry = Ok row ->
  match row with
  | None => used entry = false
  | Some (i, offset, name) =>
      used entry = true /\ i = index /\ slot_says entry offset name /\
      match previous with Some p => p < offset | None => True end
  end.
Proof.
  unfold parse_entry, used. intros H. destruct (forallb _ _); [by injection H as <-|].
  destruct (le_u64 entry 32) as [first|] eqn:Hf; [|done]. destruct (le_u64 entry 40) as [last|] eqn:Hl; [|done].
  destruct (Z.eqb_spec first 0), (Z.ltb_spec last first); try done. cbn [orb] in H. destruct (128 <=? zlen entry); [|done].
  destruct (from_utf16 _) as [[|c text]|] eqn:Hn; try done.
  assert (slot_says entry first (string_of_bytes (c :: text))) by (split_and!; [done..|by exists last|by exists (c :: text)]).
  destruct previous as [p|]; [destruct (Z.leb_spec first p); [done|]|]; injection H as <-; by split_and!.
Qed.

Lemma slot_next size b index i :
  0 <= size -> index + 1 <= i -> slot size (skipn (Z.to_nat size) b) (i - (index + 1)) = slot size b (i - index).
Proof.
  intros Hs Hi. unfold slot. rewrite skipn_skipn. do 2 f_equal. nia.
Qed.

Definition row_index (r : Row) : Z := r.1.1.
Definition row_offset (r : Row) : Z := r.1.2.
Definition row_name (r : Row) : string := r.2.

Lemma parse_rows_sound size count index previous b rows :
  0 <= size -> parse_rows size count index previous b = Ok rows ->
  map row_index rows = List.filter (fun i => used (slot size b (i - index))) (seqZ index (Z.of_nat count)) /\
  Forall (fun r => slot_says (slot size b (row_index r - index)) (row_offset r) (row_name r)) rows /\
  StronglySorted Z.lt (map row_offset rows) /\
  match previous with Some p => Forall (fun r => p < row_offset r) rows | None => True end.
Proof.
  intros Hsize. revert index previous b rows. induction count as [|count IH]; intros index previous b rows H; cbn [parse_rows] in H.
  { injection H as <-. split_and!; [done|constructor|constructor|]. by destruct previous; [constructor|]. }
  destruct (parse_entry _ _ _) as [row|] eqn:E; [|done]. apply parse_entry_sound in E.
  assert (firstn (Z.to_nat size) b = slot size b (index - index)) as Hslot by (by rewrite Z.sub_diag).
  rewrite Hslot in E. rewrite Nat2Z.inj_succ, seqZ_cons, Z.pred_succ by lia. cbn [List.filter].
  assert (forall i, i ∈ seqZ (Z.succ index) (Z.of_nat count) ->
    slot size (skipn (Z.to_nat size) b) (i - (index + 1)) = slot size b (i - index)) as Hnext.
  { intros i Hi%elem_of_seqZ. apply slot_next; lia. }
  assert (forall rows', map row_index rows' =
      List.filter (fun i => used (slot size (skipn (Z.to_nat size) b) (i - (index + 1)))) (seqZ (index + 1) (Z.of_nat count)) ->
      Forall (fun r => slot_says (slot size (skipn (Z.to_nat size) b) (row_index r - (index + 1))) (row_offset r) (row_name r)) rows' ->
      map row_index rows' = List.filter (fun i => used (slot size b (i - index))) (seqZ (Z.succ index) (Z.of_nat count)) /\
      Forall (fun r => slot_says (slot size b (row_index r - index)) (row_offset r) (row_name r)) rows') as Hshift.
  { intros rows' Hmap Hall. unfold Z.succ in *. split.
    - rewrite Hmap. apply filter_ext_in. intros i Hi. rewrite Hnext; [done|by apply list_elem_of_In].
    - eapply Forall_impl; [apply Forall_and; split; [exact Hall|]|].
      + apply Forall_forall. intros r Hr. assert (row_index r ∈ map row_index rows') as Hi by (by apply list_elem_of_In, in_map, list_elem_of_In).
        rewrite Hmap in Hi. apply list_elem_of_In, filter_In in Hi as [Hi _]. exact (proj2 (list_elem_of_In _ _) Hi).
      + intros r [Hr Hi]. by rewrite Hnext in Hr. }
  destruct row as [[[i offset] name]|].
  - destruct E as (Hu & -> & Hs & Hprev). destruct (parse_rows _ _ _ _ _) as [rows'|] eqn:Er; [|done]. injection H as <-.
    destruct (IH _ _ _ _ Er) as (Hmap & Hall & Hsorted & Hgt). cbn in Hgt. destruct (Hshift _ Hmap Hall) as [Hmap' Hall'].
    rewrite Hu. split_and!.
    + cbn [map]. f_equal. exact Hmap'.
    + constructor; [exact Hs|exact Hall'].
    + cbn [map]. constructor; [done|]. apply Forall_forall. intros x Hx. apply list_elem_of_In, in_map_iff in Hx as (r & <- & Hr).
      rewrite Forall_forall in Hgt. by apply Hgt, list_elem_of_In.
    + destruct previous as [p|]; [|done]. constructor; [done|]. eapply Forall_impl; [exact Hgt|]. intros r Hr. cbn in Hr. lia.
  - rewrite E. destruct (IH _ _ _ _ H) as (Hmap & Hall & Hsorted & Hgt). destruct (Hshift _ Hmap Hall) as [Hmap' Hall'].
    by split_and!.
Qed.

(** ** Tables *)

Lemma table_of_rows_fields rows :
  map entry_index (table_of_rows rows) = map row_index rows /\ map entry_name (table_of_rows rows) = map row_name rows /\
  map offset_sectors (table_of_rows rows) = map row_offset rows.
Proof.
  induction rows as [|[[i o] n] rows (H1 & H2 & H3)]; [done|]. cbn [table_of_rows map]. rewrite H1, H2, H3. done.
Qed.

Lemma table_of_rows_chained rows : StronglySorted Z.lt (map row_offset rows) -> chained (table_of_rows rows).
Proof.
  induction rows as [|[[i o] n] rows IH]; [done|]. intros [Hs Hall]%StronglySorted_inv. cbn [table_of_rows chained].
  split; [|by apply IH]. destruct rows as [|[[i' o'] n'] rows]; [done|]. cbn [table_of_rows offset_sectors size_sectors].
  apply Forall_cons in Hall as [Hlt _]. by split.
Qed.

Lemma table_of_rows_Forall (P : Z -> Z -> string -> Prop) rows :
  Forall (fun r => P (row_index r) (row_offset r) (row_name r)) rows ->
  Forall (fun e => P (entry_index e) (offset_sectors e) (entry_name e)) (table_of_rows rows).
Proof. induction rows as [|[[i o] n] rows IH]; [constructor|]. intros [? ?]%Forall_cons. constructor; [done|by apply IH]. Qed.

(** A later partition of a chained table begins behind the sectors of an earlier one. *)
Lemma chained_behind e rest :
  chained (e :: rest) -> Forall (fun later => exists size, size_sectors e = Some size /\ 0 < size /\
    offset_sectors e + size <= offset_sectors later) rest.
Proof.
  revert e. induction rest as [|next rest IH]; intros e [H Hc]; [constructor|]. destruct H as [Hlt Hsize].
  constructor; [exists (offset_sectors next - offset_sectors e); split; [done|lia]|].
  eapply Forall_impl; [exact (IH _ Hc)|]. intros later (size & _ & Hpos & Hle).
  exists (offset_sectors next - offset_sectors e). split; [done|]. lia.
Qed.

(** No sector lies in two partitions of a chained table. *)
Lemma chained_apart entries : chained entries -> ForallOrdPairs (fun lhs rhs => forall sector, holds lhs sector -> ~ holds rhs sector) entries.
Proof.
  induction entries as [|e rest IH]; [constructor|]. intros Hc. pose proof (chained_behind _ _ Hc) as Hb. destruct Hc as [_ Hc].
  constructor; [|by apply IH]. eapply Forall_impl; [exact Hb|]. intros later (size & Hs & _ & Hle) sector [_ H1] [H2 _].
  rewrite Hs in H1. lia.
Qed.

Lemma chained_sizes entries : chained entries -> sizes_sound entries.
Proof.
  induction entries as [|e rest IH]; [done|]. intros [H Hc]. split; [|split; [|by apply IH]].
  - intros Hn. destruct rest; [done|]. destruct H as [_ H]. congruence.
  - destruct rest as [|next rest]; [congruence|]. destruct H as [Hlt ->]. intros [=]. lia.
Qed.

Lemma chained_fits entries : chained entries -> Forall (fun e => u64 (offset_sectors e)) entries -> Forall extent_fits entries.
Proof.
  induction entries as [|e rest IH]; [constructor|]. intros [H Hc] [He Hall]%Forall_cons. constructor; [|by apply IH].
  split; [done|]. destruct rest as [|next rest]; [by rewrite H|]. destruct H as [Hlt ->]. apply Forall_cons in Hall as [Hn _]. zlia.
Qed.

Lemma le_u64_range b offset v : bytes_ok b -> le_u64 b offset = Ok v -> u64 v.
Proof.
  unfold le_u64, le_field. intros Hb H. case_match; [|done]. injection H as <-. unfold from_le_bytes.
  set (l := firstn 8 (skipn (Z.to_nat offset) b)).
  assert (bytes_ok (rev l)) as Hl by (apply Forall_rev, Forall_take, Forall_drop, Hb).
  pose proof (from_be_bound _ Hl) as Hbound. assert (zlen (rev l) <= 8) as Hlen.
  { unfold zlen. rewrite length_rev. unfold l. rewrite length_firstn. lia. }
  pose proof (Z.pow_le_mono_r 256 (zlen (rev l)) 8 ltac:(lia) Hlen). change (256 ^ 8) with 18446744073709551616 in *. zlia.
Qed.

(** What is read from a device is chained. *)
Lemma parse_chained header b t :
  0 <= entry_size header -> parse_partition_entries header b = Ok t -> chained (table_entries t).
Proof.
  intros Hsize H. unfold parse_partition_entries in H. destruct (negb _); [done|].
  destruct (parse_rows _ _ _ _ _) as [rows|] eqn:E; [|done].
  destruct (parse_rows_sound _ _ _ _ _ _ Hsize E) as (_ & _ & Hsorted & _).
  assert (t = mkTable DEVICE_STRING LOGICAL_BLOCK_BYTES (table_of_rows rows)) as -> by (destruct rows; [done|by injection H as <-]).
  by apply table_of_rows_chained.
Qed.

Lemma header_entry_size block header : gpt_header_parse block = Ok header -> 128 <= entry_size header.
Proof.
  unfold gpt_header_parse. intros H. repeat (case_match; try done; cbn [negb orb] in * ). injection H as <-. cbn [entry_size].
  repeat match goal with H : (_ || _) = false |- _ => apply orb_false_iff in H as [? ?] end. lia.
Qed.

Lemma run_table_chained {S} (endpoint : forall c, S -> result string (answer c) * S) tag s t tag' s' calls :
  run endpoint (read_partition_table tag) s = (Ok t, tag', s', calls) -> chained (table_entries t).
Proof.
  intros H. unfold read_partition_table in H. run_step H; [done|].
  apply run_lift_seq in H as [(e & _ & [=] & _)|(header & Hh & H)]. cbv zeta in H.
  destruct (U64_MAX <? _); [done|]. destruct (_ <? _); [done|]. run_step H; [done|]. apply run_lift in H as (H & _). symmetry in H.
  eapply parse_chained; [|exact H]. apply header_entry_size in Hh. lia.
Qed.

(** C20. A partition table that is read is a true account of the array it was read from: the
    array has the header's CRC-32; the entries are its used slots, in order, each with the
    first sector and the name the slot holds; every partition but the last runs to the start
    of the next, so no sector lies in two; and a table with distinct names passes the manifest's
    validation. *)
Theorem gpt_table_sound header b t :
  bytes_ok b -> 0 <= entry_size header -> parse_partition_entries header b = Ok t ->
  let entries := table_entries t in
  Rockusb.crc32 b = entry_crc32 header /\ entries <> [] /\
  map entry_index entries = List.filter (fun i => used (slot (entry_size header) b i)) (seqZ 0 (Z.of_nat (Z.to_nat (entry_count header)))) /\
  Forall (fun e => slot_says (slot (entry_size header) b (entry_index e)) (offset_sectors e) (entry_name e)) entries /\
  chained entries /\ ForallOrdPairs (fun lhs rhs => forall sector, holds lhs sector -> ~ holds rhs sector) entries /\
  (table_validate t = Ok tt <-> NoDup (map entry_name entries)).
Proof.
  intros Hb Hsize H. unfold parse_partition_entries in H. destruct (Z.eqb_spec (Rockusb.crc32 b) (entry_crc32 header)); [|done].
  cbn [negb] in H. destruct (parse_rows _ _ _ _ _) as [rows|] eqn:E; [|done].
  destruct (parse_rows_sound _ _ _ _ _ _ Hsize E) as (Hmap & Hall & Hsorted & _).
  assert (rows <> [] /\ t = mkTable DEVICE_STRING LOGICAL_BLOCK_BYTES (table_of_rows rows)) as [Hne ->] by (destruct rows; [done|by injection H as <-]).
  cbn [table_entries]. destruct (table_of_rows_fields rows) as (Hi & _ & _). pose proof (table_of_rows_chained _ Hsorted) as Hc.
  assert (Forall (fun e => slot_says (slot (entry_size header) b (entry_index e)) (offset_sectors e) (entry_name e)) (table_of_rows rows)) as Hsays.
  { apply (table_of_rows_Forall (fun i o n => slot_says (slot (entry_size header) b i) o n)).
    eapply Forall_impl; [exact Hall|]. intros r Hr. cbn beta in Hr. by rewrite Z.sub_0_r in Hr. }
  split; [done|]. split; [by destruct rows as [|[[? ?] ?]]|]. split.
  { rewrite Hi, Hmap. apply filter_ext. intros i. cbn beta. by rewrite Z.sub_0_r. }
  split; [exact Hsays|]. split; [exact Hc|]. split; [by apply chained_apart|].
  rewrite table_validate_iff; [|apply chained_fits; [done|]]; cbn [table_entries].
  - split; [by intros (? & _)|]. intros Hnd. split; [done|]. split; [by apply chained_sizes|].
    pose proof (chained_apart _ Hc) as Hap. clear -Hap. induction Hap as [|e l He _ IH]; constructor; [|done].
    eapply Forall_impl; [exact He|]. intros x Hx sector _. apply Hx.
  - eapply Forall_impl; [exact Hsays|]. intros x (Ho & _). eapply le_u64_range; [|exact Ho].
    by apply Forall_take, Forall_drop.
Qed.

(** A sample array: two slots, the first unused. *)
Definition sample_name : bytes := flat_map (fun c => [c; 0]) (bytes_of_string "boot").
Definition sample_array : bytes :=
  Eval vm_compute in
    replicate 128 0 ++ replicate 16 1 ++ replicate 16 2 ++ to_le_bytes 8 8192 ++ to_le_bytes 8 16383 ++ replicate 8 0
    ++ sample_name ++ replicate 64 0.
Definition sample_header : GptHeader := Eval vm_compute in mkHeader 2 2 128 (Rockusb.crc32 sample_array).
Definition sample_gpt : PartitionTableFact := mkTable "rk29xxnand" 512 [mkEntry 1 "boot" 8192 None None RemainderGrow].

Lemma gpt_table_sound_witness :
  parse_partition_entries sample_header sample_array = Ok sample_gpt /\
  List.filter (fun i => used (slot 128 sample_array i)) (seqZ 0 2) = [1] /\ table_validate sample_gpt = Ok tt.
Proof.
  assert (parse_partition_entries sample_header sample_array = Ok sample_gpt) as E by (vm_compute; reflexivity).
  split; [exact E|].
  destruct (gpt_table_sound sample_header sample_array sample_gpt) as (_ & _ & Hi & _ & _ & _ & Hv); [|done|exact E|].
  - unfold bytes_ok, u8. apply (bool_decide_unpack _). vm_compute. exact I.
  - split; [exact (eq_sym Hi)|]. apply Hv. cbn. by apply NoDup_singleton.
Defined.

Lemma crc32_agree_witness : Rockusb.crc32 (bytes_of_string "123456789") = 0xcbf43926.
Proof. rewrite (crc32_agree _ (bytes_of_string_ok _)). vm_compute. reflexivity. Defined.
