(* ===== verification/Port.v ===== *)
(** * The RockUSB port and staged images
    (crates/arkforge-provider/src/rockchip_execute/parts/device.rs, errors.rs)

    What an execution asks of its host, the [RockUsbPort] trait as a record of programs, the
    errors an execution ends in, and the staged image that is hashed, kept open and compared
    again before it is written.  The path is the one of hosts other than macOS, which hash in
    the process; the fingerprint is that of Unix.  Display texts are not modelled: errors keep
    what they name. *)

From S2P Require Import Prelude Interaction Cbor Sha256 Digest Manifest Rockusb.

(** ** The host *)

Record UsbInterfaceDescriptor := mkDescriptor {
  vendor_id : Z;
  product_id : Z;
  usb_specification : Z;
  device_release : Z;
  location_id : Z;
  interface_class : Z;
  interface_subclass : Z;
  interface_protocol : Z;
  interface_number : Z;
  serial : option string;
  product_name : option string;
  vendor_name : option string
}.

#[global] Instance UsbInterfaceDescriptor_eq_dec : EqDecision UsbInterfaceDescriptor.
Proof. solve_decision. Defined.

Record StagedFileFingerprint := mkFingerprint {
  f_size_bytes : Z;
  f_readonly : bool;
  f_device : Z;
  f_inode : Z;
  f_mode : Z;
  f_links : Z;
  modified_seconds : Z;
  modified_nanoseconds : Z;
  changed_seconds : Z;
  changed_nanoseconds : Z
}.

#[global] Instance StagedFileFingerprint_eq_dec : EqDecision StagedFileFingerprint.
Proof. solve_decision. Defined.

(** Calls of the host: the claimed interface, the USB bus, the tag counter, files, the clock.
    A file is a handle. *)
Inductive host_call : Type :=
| Usb (c : Rockusb.call)
| Enumerate
| OpenInterface (target : option UsbInterfaceDescriptor)
| FetchTag (step : Z)
| CreateDirAll (path : string)
| OpenFile (path : string)
| FileMetadata (file : Z)
| SeekStart (file : Z)
| ReadFile (file n : Z)
| ElapsedMs
| IsDir (path : string)
| ReadDirNames (path : string)
| SymlinkMetadata (path : string)
| PathExists (path : string)
| RemoveDirAll (path : string)
| CreateDir (path : string)
| SetMode (path : string) (mode : Z)
| SyncDir (path : string)
| Rename (source target : string)
| ClearAway (path : string)
| NowNanos
| ProcessId
| StageMembers (artifact : Sha256Digest) (members : list string) (directory : string).

(** Failures are texts, and metadata says whether it is a regular file.  [StageMembers] opens
    the archive in the store, inspects it and extracts members into a directory: it answers
    the path, size and digest of each file it wrote.  [ClearAway] removes what is there, and
    nobody looks at its answer. *)
Definition reply (c : host_call) : Type :=
  match c with
  | Usb c => result string (answer c)
  | Enumerate => result string (list UsbInterfaceDescriptor)
  | OpenInterface _ => result string unit
  | FetchTag _ => Z
  | CreateDirAll _ => result string unit
  | OpenFile _ => result string Z
  | FileMetadata _ => result string (bool * StagedFileFingerprint)
  | SeekStart _ => result string unit
  | ReadFile _ _ => result string bytes
  | ElapsedMs => Z
  | IsDir _ => bool
  | ReadDirNames _ => result string (list (option string))
  | SymlinkMetadata _ => result string (bool * StagedFileFingerprint)
  | PathExists _ => bool
  | RemoveDirAll _ => result string unit
  | CreateDir _ | SetMode _ _ | SyncDir _ | Rename _ _ => result string unit
  | ClearAway _ => unit
  | NowNanos | ProcessId => Z
  | StageMembers _ _ _ => result string (list (string * (string * Z * Sha256Digest)))
  end.

(** What the types of the answers promise. *)
Definition reply_ok (c : host_call) : reply c -> Prop :=
  match c return reply c -> Prop with
  | Usb c => fun r => forall a, r = Ok a -> answer_ok c a
  | FetchTag _ => fun tag => u32 tag
  | ReadFile _ n => fun r => forall b, r = Ok b -> zlen b <= n /\ bytes_ok b
  | _ => fun _ => True
  end.

Definition host (S E A : Type) : Type := Interaction.op reply S E A.

(** A call with [?], its failure made an error here. *)
Definition try {S E A} (fail : string -> E) (m : host S E (result string A)) : host S E A :=
  op_bind m (fun r => op_lift (map_err fail r)).

(** ** Errors *)

Inductive StagingFault : Type :=
| StagingIo (path detail : string)
| NotRegular (path : string)
| StagedSize (path : string) (observed staged : Z)
| StagedDigest (path : string) (observed staged : Sha256Digest)
| ChangedWhileChecked (path : string)
| ChangedAfterCheck (path : string).

Inductive PortDetail : Type :=
| UsbFault (detail : string)
| LoaderCount (observed : Z)
| NotALoader (descriptor : UsbInterfaceDescriptor)
| ProtocolFault (e : ProtocolError)
| Unimplemented (operation : string)
| EmptyPartitionName
| StagedFile (fault : StagingFault)
| EmptyImage (path : string)
| SectorRangeOverflows
| RangeExceedsProtocol (begin_sector total_sectors : Z)
| FileShorter (path : string)
| FileGrew (path : string)
| PayloadDigest (observed staged : Sha256Digest)
| PayloadDiffers (sent_bytes : Z) (sent : Sha256Digest) (staged_bytes : Z) (staged : Sha256Digest).

Inductive RockUsbPortFailure : Type :=
| BeforeIo (detail : PortDetail)
| AfterIo (detail : PortDetail).

(** [Aborted] is the end of the process on an arithmetic overflow. *)
Inductive ExecutionError : Type :=
| RequiresAuthority (control_action : string)
| ActionUndecodable (detail : string)
| PortRefused (operation : string) (message : PortDetail)
| ExternalIo (operation : string) (message : PortDetail)
| LayoutMismatch (expected observed : Sha256Digest)
| PartitionTableUnreadable (head : string)
| DeviceDeclaresUnknownPartitions (names : list string)
| TableNotObservedYet
| ReadDomainNotCharacterized
| NoTableAtLba1
| TargetNotAllowed (partition : string)
| PartitionNotOnDevice (partition : string)
| TargetOffsetDisagrees (partition : string) (profile plan : Z)
| ImageNotStaged (member : string)
| ImageOverrunsPartition (partition : string) (image_sectors partition_sectors : Z)
| StagingChanged (fault : StagingFault)
| VerificationRangeMissing
| ReadFailed (begin_sector sectors : Z) (output : string)
| ScratchUnusable (path detail : string)
| Aborted.

(** ** Staged images *)

Record StagedImage := mkStaged {
  staged_member : string;
  staged_path : string;
  staged_size : Z;
  staged_sha256 : Sha256Digest
}.

Record ValidatedImage := mkValidated {
  v_staged : StagedImage;
  v_file : Z;
  v_fingerprint : StagedFileFingerprint;
  validation_duration_ms : Z;
  validation_backend : string
}.

Definition HASH_BUFFER : Z := 8388608.

Section Staged.
Local Open Scope op_scope.

Definition fingerprint_read (file : Z) (path : string) : host unit StagingFault StagedFileFingerprint :=
  let! m := try (StagingIo path) (op_call (FileMetadata file)) in
  if negb m.1 then op_fail (NotRegular path) else op_ret m.2.

Definition hash_round (file : Z) (path : string) (s : Sha256 * Z) :
    host unit (option StagingFault) (Sha256 * Z + Sha256Digest * Z) :=
  let! b := try (fun e => Some (StagingIo path e)) (op_call (ReadFile file HASH_BUFFER)) in
  match b with
  | [] => op_ret (inr (finalize s.1, s.2))
  | _ =>
      let! total := op_lift (ok_or (checked_add s.2 (zlen b)) None) in
      op_ret (inl (update s.1 b, total))
  end.

(** The loop of [hash_open_file]: a round adds a byte at least and the count is a [u64], so
    [2 ^ 64] rounds are more than it makes. *)
Definition hash_open_file (file : Z) (path : string) : host unit (option StagingFault) (Sha256Digest * Z * string) :=
  let! r := op_loop 64 (hash_round file path) (new, 0) in
  match r with
  | inr (digest, total) => op_ret (digest, total, "portable-vendored-sha256"%string)
  | inl _ => op_fail None
  end.

(** A fault as an execution error; [None] is the abort. *)
Definition staging_error (e : option StagingFault) : ExecutionError :=
  match e with Some fault => StagingChanged fault | None => Aborted end.

Definition open_and_revalidate (image : StagedImage) : host unit ExecutionError ValidatedImage :=
  let path := staged_path image in
  let! file := try (fun e => StagingChanged (StagingIo path e)) (op_call (OpenFile path)) in
  let! before := op_within tt StagingChanged (fingerprint_read file path) in
  if negb (f_size_bytes before =? staged_size image)
  then op_fail (StagingChanged (StagedSize path (f_size_bytes before) (staged_size image)))
  else
    let! (digest, total, backend) := op_within tt staging_error (hash_open_file file path) in
    if negb (total =? staged_size image) then op_fail (StagingChanged (StagedSize path total (staged_size image)))
    else if negb (bool_decide (digest = staged_sha256 image))
    then op_fail (StagingChanged (StagedDigest path digest (staged_sha256 image)))
    else
      let! after := op_within tt StagingChanged (fingerprint_read file path) in
      if negb (bool_decide (after = before)) then op_fail (StagingChanged (ChangedWhileChecked path))
      else
        let! elapsed := op_call ElapsedMs in
        op_ret (mkValidated image file after elapsed backend).

(** [ValidatedImage::prepare_for_write]: the file, rewound. *)
Definition prepare_for_write (image : ValidatedImage) : host unit StagingFault Z :=
  let path := staged_path (v_staged image) in
  let! current := fingerprint_read (v_file image) path in
  if negb (bool_decide (current = v_fingerprint image)) then op_fail (ChangedAfterCheck path)
  else
    let! _ := try (StagingIo path) (op_call (SeekStart (v_file image))) in
    op_ret (v_file image).
End Staged.

(** ** The port *)

Record RockUsbDevice := mkDevice {
  d_vendor_id : Z;
  d_product_id : Z;
  d_usb_specification : option Z;
  d_location : Z;
  d_mode : string;
  d_serial : option string;
  d_product_name : option string;
  d_vendor_name : option string;
  d_device_release : option Z
}.

(** [{:0n x}] and [{:0n X}] of the machine's formatter. *)
Definition hex_digits (n : nat) (v : Z) : bytes :=
  map (fun i => hex_nibble (Z.land (Z.shiftr v (4 * (Z.of_nat n - 1 - Z.of_nat i))) 15)) (seq 0 n).
Definition hex (n : nat) (v : Z) : string := string_of_bytes (hex_digits n v).
Definition HEX (n : nat) (v : Z) : string :=
  string_of_bytes (map (fun b => if 97 <=? b then b - 32 else b) (hex_digits n v)).

Definition device_summary (d : RockUsbDevice) : string :=
  "vid=" +:+ hex 4 (d_vendor_id d) +:+ " pid=" +:+ hex 4 (d_product_id d) +:+ " iokit=" +:+ hex 8 (d_location d)
  +:+ " mode=" +:+ d_mode d.

Record RockUsbObservation (T : Type) := mkObservation { observed_value : T; observed_evidence : Sha256Digest }.
Arguments mkObservation {T}.
Arguments observed_value {T}.
Arguments observed_evidence {T}.

Record RockUsbWriteProgress := mkWriteProgress {
  write_payload_bytes : Z;
  write_wire_sectors : Z;
  write_chunks : Z;
  write_chunk_sectors : Z;
  payload_digest : Sha256Digest
}.

Record RockUsbMutationReceipt := mkReceipt {
  semantic_success : bool;
  receipt_evidence : Sha256Digest;
  duration_ms : Z;
  receipt_detail : string;
  progress : option RockUsbWriteProgress
}.

(** An operation of a port. *)
Definition port_op (A : Type) : Type := host unit RockUsbPortFailure A.

Record RockUsbPort := mkPort {
  discover : port_op (RockUsbObservation (list RockUsbDevice));
  capacity_sectors : port_op (RockUsbObservation Z);
  port_read_partition_table : port_op (RockUsbObservation PartitionTableFact);
  port_read_sectors : Z -> Z -> string -> port_op (RockUsbObservation bytes);
  port_write_partition : string -> Z -> ValidatedImage -> port_op RockUsbMutationReceipt;
  port_reset_device : port_op RockUsbMutationReceipt
}.
