(* ===== verification/Execute.v ===== *)
(** * Executing stored actions
    (crates/arkforge-provider/src/rockchip_execute/parts/actions.rs, 03_execute_action.rs,
    04_readback_partition.rs)

    A session carries what earlier actions established: the partition table the device showed,
    what its read face turned out to be, the sectors that answered, and the staged images with
    the workers that hash them.  [execute_action] runs one stored action against a port. *)

From S2P Require Import Prelude Interaction Cbor Sha256 Digest Authority Identity Effect FlashStep Projection.
From S2P Require Import Plan Manifest Verification Profile Rockchip Rockusb Port.

(** ** Sessions *)

Record ActionOutcome := mkOutcome {
  out_action_id : OpaqueId;
  out_step_id : OpaqueId;
  out_disposition : ActionDisposition;
  out_facts : list (OpaqueId * string);
  out_evidence : Sha256Digest;
  out_verification : option VerificationOutcome
}.

(** A worker is what it will give when it is joined. *)
Record ExecutionSession := mkSession {
  observed_table : option PartitionTableFact;
  session_read_domain : option MeasuredReadDomain;
  demonstrated_readable : list Z;
  staged : btree StagedImage;
  validating : btree (result ExecutionError ValidatedImage)
}.

Definition session_new (images : btree StagedImage) : ExecutionSession := mkSession None None [] images [].

Definition note_readable_sector (s : ExecutionSession) (sector : Z) : ExecutionSession :=
  if existsb (Z.eqb sector) (demonstrated_readable s) then s
  else mkSession (observed_table s) (session_read_domain s) (demonstrated_readable s ++ [sector]) (staged s) (validating s).

Definition set_read_domain (s : ExecutionSession) (domain : MeasuredReadDomain) : ExecutionSession :=
  mkSession (observed_table s) (Some domain) (demonstrated_readable s) (staged s) (validating s).

Definition set_observed_table (s : ExecutionSession) (table : PartitionTableFact) : ExecutionSession :=
  mkSession (Some table) (session_read_domain s) (demonstrated_readable s) (staged s) (validating s).

Definition stage (s : ExecutionSession) (member : string) (image : StagedImage) : ExecutionSession :=
  mkSession (observed_table s) (session_read_domain s) (demonstrated_readable s) (bt_insert member image (staged s)) (validating s).

Definition with_validating (s : ExecutionSession) (v : btree (result ExecutionError ValidatedImage)) : ExecutionSession :=
  mkSession (observed_table s) (session_read_domain s) (demonstrated_readable s) (staged s) v.

Definition bt_remove {V} (k : string) (m : btree V) : btree V := List.filter (fun e => negb (String.eqb e.1 k)) m.

(** An execution: a program over the host with the session threaded through. *)
Definition exec (A : Type) : Type := host ExecutionSession ExecutionError A.

Section Sessions.
Local Open Scope op_scope.

(** The workers hash concurrently; what one reads is whatever the host answers it, and here it
    reads when it is started. *)
Fixpoint start_workers (images : list (string * StagedImage)) : exec unit :=
  match images with
  | [] => op_ret tt
  | (member, image) :: images =>
      let! s := op_get in
      match bt_get member (validating s) with
      | Some _ => start_workers images
      | None =>
          let! proof := op_try (op_within tt id (open_and_revalidate image)) in
          let! s := op_get in
          let! _ := op_put (with_validating s (bt_insert member proof (validating s))) in
          start_workers images
      end
  end.

Definition begin_parallel_staged_validation : exec unit :=
  let! s := op_get in start_workers (staged s).

(** The image, the time waited and whether a worker had hashed it. *)
Definition take_validated_image (member : string) : exec (ValidatedImage * Z * bool) :=
  let! s := op_get in
  let! (proof, parallel) :=
    match bt_get member (validating s) with
    | Some proof =>
        let! _ := op_put (with_validating s (bt_remove member (validating s))) in op_ret (proof, true)
    | None =>
        let! image := op_lift (ok_or (bt_get member (staged s)) (ImageNotStaged member)) in
        let! proof := op_try (op_within tt id (open_and_revalidate image)) in
        op_ret (proof, false)
    end in
  let! validated := op_lift proof in
  let! waited := op_call ElapsedMs in
  op_ret (validated, waited, parallel).
End Sessions.

(** ** Small parts *)

Definition ROCKUSB_SECTOR_BYTES : Z := 512.

(** [u64::to_string]. *)
Definition dec (z : Z) : string := string_of_bytes (decimal_rounds 20 z).

Definition uniform_byte (b : bytes) : option Z :=
  match b with
  | [] => None
  | first :: _ => if forallb (fun byte => byte =? first) b then Some first else None
  end.

Definition port_error (operation : string) (e : RockUsbPortFailure) : ExecutionError :=
  match e with
  | BeforeIo detail => PortRefused operation detail
  | AfterIo detail => ExternalIo operation detail
  end.

Definition outcome (record : PrivateActionRecord) (disposition : ActionDisposition) (facts : list (OpaqueId * string))
    (evidence : Sha256Digest) (verification : option VerificationOutcome) : ActionOutcome :=
  mkOutcome (action_id record) (action_step_id record) disposition facts evidence verification.

Definition fact (key value : string) : OpaqueId * string := (mkId key, value).

Definition summary (d : MeasuredReadDomain) : string :=
  match d with MeasuredFull => "full" | Windowed _ => "windowed" end.

Definition port_call {A} (operation : string) (m : port_op A) : exec A := op_within tt (port_error operation) m.

Definition read_sectors (port : RockUsbPort) (scratch : string) (begin_sector sectors : Z) (label : string) : exec bytes :=
  let operation_scratch := scratch +:+ "/read-" +:+ label in
  op_bind (try (ScratchUnusable operation_scratch) (op_call (CreateDirAll operation_scratch))) (fun _ =>
  op_bind (port_call "readSectors" (port_read_sectors port begin_sector sectors operation_scratch)) (fun observation =>
  op_ret (observed_value observation))).

(** ** Agreement of the device with the profile *)

Definition find_entry (table : PartitionTableFact) (partition : string) : option PartitionEntryFact :=
  List.find (fun entry => String.eqb (entry_name entry) partition) (table_entries table).

Fixpoint check_targets (observed : PartitionTableFact) (targets : list AllowedTarget) : result ExecutionError unit :=
  match targets with
  | [] => Ok tt
  | target :: targets =>
      let partition := as_str (target_partition target) in
      let? entry := ok_or (find_entry observed partition) (PartitionNotOnDevice partition) in
      if negb (Manifest.offset_sectors entry =? Profile.offset_sectors target)
      then Err (TargetOffsetDisagrees partition (Profile.offset_sectors target) (Manifest.offset_sectors entry))
      else check_targets observed targets
  end.

Definition known_partition (profile : DeviceProfile) (name : string) : bool :=
  existsb (fun target => String.eqb (as_str (target_partition target)) name) (allowed_targets profile)
  || existsb (fun protected => String.eqb (as_str protected) name) (protected_targets profile).

Definition check_conformance (observed : PartitionTableFact) (profile : DeviceProfile) : result ExecutionError unit :=
  let? _ := check_targets observed (allowed_targets profile) in
  let unknown := List.filter (fun name => negb (known_partition profile name)) (map entry_name (table_entries observed)) in
  match unknown with [] => Ok tt | _ => Err (DeviceDeclaresUnknownPartitions unknown) end.

(** [None] is the failed [expect]. *)
Definition profile_layout_digest (profile : DeviceProfile) : option Sha256Digest :=
  let ordered := sort_by write_order_leb (allowed_targets profile) in
  let value :=
    Array (map (fun target => map_of [("partition"%string, Text (as_str (target_partition target)));
                                      ("offsetSectors"%string, Unsigned (Profile.offset_sectors target))]) ordered) in
  match to_canonical_bytes value with
  | Ok b => Some (digest_in_domain DDeviceProfile b)
  | Err _ => None
  end.

Definition layout_line (entry : PartitionEntryFact) : bytes :=
  bytes_of_string (entry_name entry) ++ [64] ++ bytes_of_string (dec (Manifest.offset_sectors entry)) ++ [10].

Definition layout_digest_of (table : PartitionTableFact) : Sha256Digest :=
  finalize (foldl (fun h entry => update h (layout_line entry)) new (table_entries table)).

(** ** Read-back verdicts *)

Definition is_declared_filler (filler : option Z) (byte : Z) : bool :=
  match filler with Some declared => declared =? byte | None => true end.

Definition classify_readback (read : bytes) (range : ByteRange) (expected : Sha256Digest) (max_strength : VerificationStrength)
    (filler : option Z) (domain : MeasuredReadDomain) (start_demonstrated_readable : bool) : VerificationOutcome :=
  let compared :=
    if negb (zlen read =? length range) then
      TypedSkip range OutsideReadDomain
        ("the read face returned " +:+ dec (zlen read) +:+ " of " +:+ dec (length range) +:+ " declared bytes")
    else if bool_decide (sha256 read = expected) then Verified max_strength range
    else Failed range ContentMismatch in
  match uniform_byte read with
  | Some byte =>
      if is_declared_filler filler byte then
        match domain with
        | Windowed detail =>
            TypedSkip range OutsideReadDomain
              ("read 0x" +:+ HEX 2 byte +:+ " throughout; the read face is windowed (" +:+ detail +:+
               "), so filler here carries no information about the medium")
        | MeasuredFull =>
            if start_demonstrated_readable then Failed range ErasedMediumFiller else Failed range ErasedMediumFiller
        end
      else compared
  | None => compared
  end.

(** ** Actions *)

Section Actions.
Local Open Scope op_scope.
Context (port : RockUsbPort) (scratch : string).

(** The far end of the medium the table names; [None] is no entry, an error the overflow of
    an end. *)
Definition far_end (entry : PartitionEntryFact) : result ExecutionError Z :=
  match Manifest.size_sectors entry with
  | Some size => ok_or (checked_add (Manifest.offset_sectors entry) (saturating_sub size 1)) Aborted
  | None => Ok (Manifest.offset_sectors entry)
  end.

Definition far_sector_of (table : PartitionTableFact) : result ExecutionError Z :=
  let? ends := collect_results (map far_end (table_entries table)) in
  match ends with
  | [] => Err TableNotObservedYet
  | first :: ends => Ok (foldl Z.max first ends)
  end.

Definition characterize_read_domain (record : PrivateActionRecord) : exec ActionOutcome :=
  let! primary := read_sectors port scratch 1 1 "primary-table" in
  match uniform_byte primary with
  | Some _ => op_fail NoTableAtLba1
  | None =>
      let! s := op_get in
      let! _ := op_put (note_readable_sector s 1) in
      let! s := op_get in
      let! table := op_lift (ok_or (observed_table s) TableNotObservedYet) in
      let! far_sector := op_lift (far_sector_of table) in
      let! far := read_sectors port scratch far_sector 1 "far-end" in
      let! (domain, detail) :=
        match uniform_byte far with
        | Some byte =>
            let detail := "sector 1 read real data; sector " +:+ dec far_sector +:+ " read uniform 0x" +:+ HEX 2 byte in
            op_ret (Windowed detail, detail)
        | None =>
            let! s := op_get in
            let! _ := op_put (note_readable_sector s far_sector) in
            op_ret (MeasuredFull, "sectors 1 and " +:+ dec far_sector +:+ " both read real data")
        end in
      let! s := op_get in
      let! _ := op_put (set_read_domain s domain) in
      op_ret (outcome record SemanticSuccess
        [fact "addressableMedium" (summary domain); fact "readDomainDetail" detail]
        (sha256 (bytes_of_string detail)) None)
  end.

(** The last [n] characters of a text. *)
Fixpoint last_chars (n : nat) (reversed : bytes) : bytes :=
  match reversed with
  | [] => []
  | b :: reversed =>
      match n with
      | O => []
      | Datatypes.S n' => b :: last_chars (if (128 <=? b) && (b <? 192) then n else n') reversed
      end
  end.
Definition tail_of (detail : string) (n : nat) : string :=
  string_of_bytes (rev (last_chars n (rev (bytes_of_string detail)))).

Definition write_facts (partition member : string) (image : StagedImage) (validated : ValidatedImage) (waited : Z)
    (parallel : bool) (begin_sector : Z) (receipt : RockUsbMutationReceipt) : list (OpaqueId * string) :=
  [fact "partition" partition; fact "member" member; fact "imageSha256" (to_hex (staged_sha256 image));
   fact "imageBytes" (dec (staged_size image));
   fact "imageValidationDurationMs" (dec (validation_duration_ms validated));
   fact "imageValidationWaitMs" (dec waited); fact "imageValidationBackend" (validation_backend validated);
   fact "imageValidationMode" (if parallel then "parallel-open-file" else "inline-open-file");
   fact "beginSector" (dec begin_sector); fact "operationDurationMs" (dec (duration_ms receipt))]
  ++ match progress receipt with
     | Some p =>
         [fact "writePayloadBytes" (dec (write_payload_bytes p)); fact "writeWireSectors" (dec (write_wire_sectors p));
          fact "writeChunks" (dec (write_chunks p)); fact "writeChunkSectors" (dec (write_chunk_sectors p));
          fact "writePayloadSha256" (to_hex (payload_digest p))]
     | None => []
     end.

Definition find_target (profile : DeviceProfile) (partition : string) : option AllowedTarget :=
  List.find (fun target => String.eqb (as_str (target_partition target)) partition) (allowed_targets profile).

(** What is sent differs from what was staged. *)
Definition payload_differs (receipt : RockUsbMutationReceipt) (image : StagedImage) : option PortDetail :=
  match progress receipt with
  | Some p =>
      if negb (write_payload_bytes p =? staged_size image) || negb (bool_decide (payload_digest p = staged_sha256 image))
      then Some (PayloadDiffers (write_payload_bytes p) (payload_digest p) (staged_size image) (staged_sha256 image))
      else None
  | None => None
  end.

Definition disposition_of (receipt : RockUsbMutationReceipt) : ActionDisposition :=
  if semantic_success receipt then SemanticSuccess else DispositionUnknown.

(** The checks of a write, up to the image: the entry of the device's own table. *)
Definition admit_write (s : ExecutionSession) (profile : DeviceProfile) (partition member : string) (begin_sector : Z) :
    result ExecutionError PartitionEntryFact :=
  let? target := ok_or (find_target profile partition) (TargetNotAllowed partition) in
  if negb (Profile.offset_sectors target =? begin_sector)
  then Err (TargetOffsetDisagrees partition (Profile.offset_sectors target) begin_sector)
  else
    let? table := ok_or (observed_table s) TableNotObservedYet in
    let? entry := ok_or (find_entry table partition) (PartitionNotOnDevice partition) in
    if negb (Manifest.offset_sectors entry =? begin_sector)
    then Err (TargetOffsetDisagrees partition begin_sector (Manifest.offset_sectors entry))
    else
      let? image := ok_or (bt_get member (staged s)) (ImageNotStaged member) in
      let image_sectors := ceil_div (staged_size image) ROCKUSB_SECTOR_BYTES in
      match Manifest.size_sectors entry with
      | Some size_sectors =>
          if size_sectors <? image_sectors then Err (ImageOverrunsPartition partition image_sectors size_sectors) else Ok entry
      | None => Ok entry
      end.

Definition write_partition (record : PrivateActionRecord) (profile : DeviceProfile) (partition member : string)
    (begin_sector : Z) : exec ActionOutcome :=
  let! s := op_get in
  let! entry := op_lift (admit_write s profile partition member begin_sector) in
  let! (validated, waited, parallel) := take_validated_image member in
  let image := v_staged validated in
  let! receipt := port_call "writePartition" (port_write_partition port partition (Manifest.offset_sectors entry) validated) in
  match payload_differs receipt image with
  | Some detail => op_fail (ExternalIo "writePartition" detail)
  | None =>
      let facts := write_facts partition member image validated waited parallel begin_sector receipt in
      let tail := if semantic_success receipt then [] else [fact "operationDetailTail" (tail_of (receipt_detail receipt) 400)] in
      op_ret (outcome record (disposition_of receipt) (facts ++ tail) (receipt_evidence receipt) None)
  end.

(** Whether the end of the range answered with the declared filler, through a windowed read
    face. *)
Definition end_probe (domain : MeasuredReadDomain) (partition : string) (begin_sector sectors : Z) (filler : option Z) :
    exec (option (Z * bytes)) :=
  match domain with
  | MeasuredFull => op_ret None
  | Windowed _ =>
      let! last_sector := op_lift (ok_or (checked_add begin_sector (saturating_sub sectors 1)) VerificationRangeMissing) in
      let! tail := read_sectors port scratch last_sector 1 (partition +:+ "-range-end-probe") in
      op_ret (match uniform_byte tail with
              | Some byte => if is_declared_filler filler byte then Some (last_sector, tail) else None
              | None => None
              end)
  end.

Definition readback_partition (record : PrivateActionRecord) (partition : string) (begin_sector : Z)
    (max_strength : VerificationStrength) (filler : option Z) : exec ActionOutcome :=
  let! range := op_lift (ok_or (declared_range record) VerificationRangeMissing) in
  let! expected := op_lift (ok_or (action_content record) VerificationRangeMissing) in
  let! s := op_get in
  let! domain := op_lift (ok_or (session_read_domain s) ReadDomainNotCharacterized) in
  let sectors := ceil_div (length range) ROCKUSB_SECTOR_BYTES in
  let! probed := end_probe domain partition begin_sector sectors filler in
  match probed with
  | Some (last_sector, tail) =>
      let verification :=
        TypedSkip range OutsideReadDomain
          ("range endpoint sector " +:+ dec last_sector +:+
           " returned the measured filler through a windowed read face; the full range was not transferred") in
      op_ret (outcome record SemanticSuccess
        [fact "partition" partition; fact "addressableMedium" (summary domain); fact "outcome" (verdict_as_str verification);
         fact "readbackStrategy" "range-end-probe"; fact "probedSector" (dec last_sector); fact "readbackBytes" (dec (zlen tail))]
        (sha256 tail) (Some verification))
  | None =>
      let! b := read_sectors port scratch begin_sector sectors partition in
      let read := firstn (Z.to_nat (Z.min (length range) (zlen b))) b in
      let! s := op_get in
      let verification :=
        classify_readback read range expected max_strength filler domain (existsb (Z.eqb begin_sector) (demonstrated_readable s)) in
      op_ret (outcome record SemanticSuccess
        [fact "partition" partition; fact "addressableMedium" (summary domain); fact "outcome" (verdict_as_str verification);
         fact "readbackStrategy" "full-range"; fact "readbackBytes" (dec (zlen read))]
        (sha256 read) (Some verification))
  end.

Definition join_semicolon (parts : list string) : string := String.concat "; " parts.

Definition validate_partition_table (record : PrivateActionRecord) (profile : DeviceProfile) (expected : Sha256Digest) :
    exec ActionOutcome :=
  let! digest := op_lift (ok_or (profile_layout_digest profile) Aborted) in
  if negb (bool_decide (digest = expected)) then op_fail (LayoutMismatch expected digest)
  else
    let! receipt := port_call "readPartitionTable" (port_read_partition_table port) in
    let observed := observed_value receipt in
    let! _ := op_lift (check_conformance observed profile) in
    let observed_digest := layout_digest_of observed in
    let! s := op_get in
    let! _ := op_put (set_observed_table s observed) in
    op_ret (outcome record SemanticSuccess
      [fact "observedLayoutDigest" (to_hex observed_digest); fact "planLayoutDigest" (to_hex digest)]
      (observed_evidence receipt) None).

Definition execute_action (action : StoredAction) (record : PrivateActionRecord) (profile : DeviceProfile) : exec ActionOutcome :=
  match action with
  | ManagedControl control_action _ => op_fail (RequiresAuthority control_action)
  | ProbeLoader =>
      let! receipt := port_call "discoverDevices" (discover port) in
      op_ret (outcome record SemanticSuccess
        [fact "rockusbDevices" (join_semicolon (map device_summary (observed_value receipt)))] (observed_evidence receipt) None)
  | ValidatePartitionTable expected => validate_partition_table record profile expected
  | CharacterizeReadDomain => characterize_read_domain record
  | StoredWrite partition member begin_sector => write_partition record profile partition member begin_sector
  | StoredReadback partition begin_sector max_strength filler =>
      readback_partition record partition begin_sector max_strength filler
  | ResetDevice =>
      let! receipt := port_call "resetDevice" (port_reset_device port) in
      op_ret (outcome record (disposition_of receipt) [fact "operation" "DEVICE_RESET"] (receipt_evidence receipt) None)
  end.
End Actions.
