(* ===== verification/NativePort.v ===== *)
(** * The native RockUSB port (cmd/arkforged/src/dispatch.rs, crates/arkforge-usb/src/lib.rs)

    [NativeRockUsbPort] carries out the port's operations: each claims the Loader interface,
    asks it whether it is ready, runs one protocol operation and releases it.  The tag counter
    is shared and atomic: an operation gets whatever it holds. *)

From S2P Require Import Prelude Interaction Sha256 Identity Manifest Rockusb Port Execute.

(** ** Selecting the interface *)

Record UsbInterfaceSelector := mkSelector {
  sel_vendor_id : Z;
  sel_product_id : Z;
  sel_class : Z;
  sel_subclass : Z;
  sel_protocol : Z;
  require_rockchip_loader : bool
}.

Definition dayu200_loader : UsbInterfaceSelector := mkSelector 0x2207 0x350a 0xff 6 5 true.

Definition matches (s : UsbInterfaceSelector) (d : UsbInterfaceDescriptor) : bool :=
  (vendor_id d =? sel_vendor_id s) && (product_id d =? sel_product_id s)
  && (interface_class d =? sel_class s) && (interface_subclass d =? sel_subclass s)
  && (interface_protocol d =? sel_protocol s)
  && (negb (require_rockchip_loader s) || (Z.land (usb_specification d) 1 =? 1)).

Record NativeRockUsbPort := mkNative { selector : UsbInterfaceSelector; target : option UsbInterfaceDescriptor }.

Definition native_new : NativeRockUsbPort := mkNative dayu200_loader None.

Definition for_descriptor (d : UsbInterfaceDescriptor) : result RockUsbPortFailure NativeRockUsbPort :=
  if negb (matches dayu200_loader d) then Err (BeforeIo (NotALoader d)) else Ok (mkNative dayu200_loader (Some d)).

Definition selects (n : NativeRockUsbPort) (d : UsbInterfaceDescriptor) : bool :=
  matches (selector n) d && match target n with Some t => bool_decide (t = d) | None => true end.

(** A protocol operation on the claimed interface. *)
Fixpoint on_wire {A} (p : prog (fun c => result string (answer c)) A) : prog reply A :=
  match p with
  | Done a => Done a
  | Call c k => Call (Usb c) (fun r => on_wire (k r))
  end.

Definition wire {A} (tag : Z) (fail : ProtocolError -> RockUsbPortFailure) (m : Rockusb.op A) : port_op A := fun _ =>
  prog_bind (on_wire (m tag)) (fun out => Done (map_err fail out.1, tt)).

Definition before_io (e : ProtocolError) : RockUsbPortFailure := BeforeIo (ProtocolFault e).
Definition after_io (e : ProtocolError) : RockUsbPortFailure := AfterIo (ProtocolFault e).

Section Native.
Local Open Scope op_scope.
Context (n : NativeRockUsbPort).

Definition matching_descriptors : port_op (list UsbInterfaceDescriptor) :=
  let! records := try (fun e => BeforeIo (UsbFault e)) (op_call Enumerate) in
  op_ret (List.filter (selects n) records).

Definition open_interface : port_op unit :=
  try (fun e => BeforeIo (UsbFault e)) (op_call (OpenInterface (target n))).

(** Two protocol operations of one claim share its tags. *)
Definition with_protocol {A} (operation : Rockusb.op A) : port_op A :=
  let! _ := open_interface in
  let! first_tag := op_call (FetchTag 0x100) in
  wire first_tag after_io (op_bind test_unit_ready (fun _ => operation)).

Definition device_from_descriptor (d : UsbInterfaceDescriptor) : RockUsbDevice :=
  mkDevice (vendor_id d) (product_id d) (Some (usb_specification d)) (location_id d) "loader" (serial d)
    (product_name d) (vendor_name d) (Some (device_release d)).

Definition device_evidence (d : RockUsbDevice) : bytes :=
  bytes_of_string (device_summary d) ++ [0] ++ bytes_of_string (default "" (d_serial d)) ++ [0].

Definition native_discover : port_op (RockUsbObservation (list RockUsbDevice)) :=
  let! descriptors := matching_descriptors in
  if negb (zlen descriptors =? 1) then op_fail (BeforeIo (LoaderCount (zlen descriptors)))
  else
    let! _ := with_protocol (op_ret tt) in
    let devices := map device_from_descriptor descriptors in
    op_ret (mkObservation devices (sha256 (flat_map device_evidence devices))).

Definition native_capacity : port_op (RockUsbObservation Z) :=
  let! sectors := with_protocol read_capacity_sectors in
  op_ret (mkObservation sectors (sha256 (to_be_bytes 8 sectors))).

Definition native_read_table : port_op (RockUsbObservation PartitionTableFact) :=
  let! table := with_protocol read_partition_table in
  op_ret (mkObservation table (sha256 (flat_map layout_line (table_entries table)))).

Definition native_read_sectors (begin_sector sectors : Z) : port_op (RockUsbObservation bytes) :=
  let! b := with_protocol (read_lba begin_sector sectors) in
  op_ret (mkObservation b (sha256 b)).

(** The message of a failure on the host's side. *)
Definition local_failure (detail : PortDetail) (chunks : Z) : RockUsbPortFailure :=
  if chunks =? 0 then BeforeIo detail else AfterIo detail.

(** A round of the loop that fills the buffer: it ends when [wanted] bytes are there. *)
Definition fill_round (file : Z) (path : string) (wanted chunks : Z) (buffer : bytes) : port_op (bytes + bytes) :=
  if zlen buffer <? wanted then
    let! read := try (fun e => local_failure (StagedFile (StagingIo path e)) chunks)
                     (op_call (ReadFile file (wanted - zlen buffer))) in
    match read with
    | [] => op_fail (local_failure (FileShorter path) chunks)
    | _ => op_ret (inl (buffer ++ read))
    end
  else op_ret (inr buffer).

(** A buffer is [2 ^ 23] bytes, and a round reads one at least. *)
Definition fill_buffer (file : Z) (path : string) (wanted chunks : Z) : port_op bytes :=
  let! r := op_loop 24 (fill_round file path wanted chunks) [] in
  match r with inr buffer => op_ret buffer | inl _ => op_fail (local_failure (FileShorter path) chunks) end.

(** What the transfer keeps: the hash so far, the sector it is at, the chunks sent and the
    protocol's next tag. *)
Record Transfer := mkTransfer { hasher : Sha256; position : Z; sent_chunks : Z; next_tag : Z }.

(** A protocol operation that leaves its next tag to the one that follows. *)
Definition wire_tagged {A} (tag : Z) (fail : ProtocolError -> RockUsbPortFailure) (m : Rockusb.op A) : port_op (A * Z) := fun _ =>
  prog_bind (on_wire (m tag)) (fun out => Done (map_err fail (let? a := out.1 in Ok (a, out.2)), tt)).

(** The [while] loop over what remains; it makes at most [rounds] rounds. *)
Fixpoint transfer_rounds (rounds : nat) (file : Z) (path : string) (remaining : Z) (t : Transfer) : port_op Transfer :=
  match rounds with
  | O => op_ret t
  | S rounds =>
      if remaining <=? 0 then op_ret t
      else
        let wanted := Z.min remaining max_chunk_bytes in
        let! filled := fill_buffer file path wanted (sent_chunks t) in
        let! (sent, tag) := wire_tagged (next_tag t) after_io (write_lba (position t) filled) in
        transfer_rounds rounds file path (remaining - zlen filled)
          (mkTransfer (update (hasher t) filled) (position t + wire_sectors sent) (sent_chunks t + chunks sent) tag)
  end.

Definition write_detail (partition : string) (begin_sector : Z) (p : RockUsbWriteProgress) : string :=
  "native WRITE_LBA confirmed partition=" +:+ partition +:+ " begin=" +:+ dec begin_sector +:+ " bytes="
  +:+ dec (write_payload_bytes p) +:+ " sectors=" +:+ dec (write_wire_sectors p) +:+ " chunks=" +:+ dec (write_chunks p).

(** The transfer of a rewound image, on a claimed interface that is ready. *)
Definition transfer (partition : string) (begin_sector : Z) (image : StagedImage) (file total_sectors tag : Z) :
    port_op RockUsbMutationReceipt :=
  let path := staged_path image in
  let! t := transfer_rounds (Z.to_nat (ceil_div (staged_size image) max_chunk_bytes)) file path (staged_size image)
              (mkTransfer new begin_sector 0 tag) in
  let! extra := try (fun e => AfterIo (StagedFile (StagingIo path e))) (op_call (ReadFile file 1)) in
  if negb (zlen extra =? 0) then op_fail (AfterIo (FileGrew path))
  else
    let digest := finalize (hasher t) in
    if negb (bool_decide (digest = staged_sha256 image)) then op_fail (AfterIo (PayloadDigest digest (staged_sha256 image)))
    else
      let p := mkWriteProgress (staged_size image) total_sectors (sent_chunks t) ROCKUSB_TRANSFER_CHUNK_SECTORS digest in
      let detail := write_detail partition begin_sector p in
      let! elapsed := op_call ElapsedMs in
      op_ret (mkReceipt true (sha256 (bytes_of_string (detail +:+ " sha256=" +:+ to_hex digest))) elapsed detail (Some p)).

Definition native_write (partition : string) (begin_sector : Z) (validated : ValidatedImage) : port_op RockUsbMutationReceipt :=
  if String.eqb partition "" then op_fail (BeforeIo EmptyPartitionName)
  else
    let image := v_staged validated in
    let! file := op_within tt (fun fault => BeforeIo (StagedFile fault)) (prepare_for_write validated) in
    let total_bytes := staged_size image in
    if total_bytes =? 0 then op_fail (BeforeIo (EmptyImage (staged_path image)))
    else
      let total_sectors := ceil_div total_bytes 512 in
      let! end_sector := op_lift (ok_or (checked_add begin_sector total_sectors) (BeforeIo SectorRangeOverflows)) in
      if (U32_MAX <? begin_sector) || (U32_MAX + 1 <? end_sector)
      then op_fail (BeforeIo (RangeExceedsProtocol begin_sector total_sectors))
      else
        let! _ := open_interface in
        let! first_tag := op_call (FetchTag 0x100) in
        let! (_, tag) := wire_tagged first_tag before_io test_unit_ready in
        transfer partition begin_sector image file total_sectors tag.

Definition native_reset : port_op RockUsbMutationReceipt :=
  let! _ := open_interface in
  let! first_tag := op_call (FetchTag 0x100) in
  let! (_, tag) := wire_tagged first_tag before_io test_unit_ready in
  let! _ := wire tag after_io reset_device in
  let detail := "native DEVICE_RESET confirmed by matching CSW"%string in
  let! elapsed := op_call ElapsedMs in
  op_ret (mkReceipt true (sha256 (bytes_of_string detail)) elapsed detail None).

Definition native_port : RockUsbPort :=
  mkPort native_discover native_capacity native_read_table (fun begin_sector sectors _ => native_read_sectors begin_sector sectors)
    native_write native_reset.
End Native.
