(* ===== verification/Dispatch.v ===== *)
(** * The dispatcher (cmd/arkforged/src/dispatch.rs)

    Runs a step's private actions outside the service lock and says what happened, with one
    execution session per job: staging of the images, the order of actions, which side of the
    first external I/O a failure falls on, and the read-only run of a reconciliation.  The
    extraction of members from the archive (arkforge-artifact's staging.rs) is a call of the
    host; what it reports, and what the cache holds, is checked here.  Display texts are a
    parameter. *)

From S2P Require Import Prelude Interaction Cbor Sha256 Digest Authority Identity Effect FlashStep Projection Superseding.
From S2P Require Import Plan Manifest Verification Profile Rockchip Port Execute.

Inductive DispatchDetail : Type :=
| Execution (e : ExecutionError)
| Undecoded (detail : string)
| NoPrivateAction
| MarkedStaged (job_id : string)
| NoDeclaredRange (member : string)
| NoDeclaredDigest (member : string)
| Contradictory (member : string)
| InputsDisagree (plan profile : list string)
| CacheIo (detail : string)
| CacheNotDirectory (path : string)
| CacheNonUtf8 (path : string)
| CacheEntriesDisagree (observed wanted : list string)
| NotPlainName (name : string)
| CachedNotRegular (name : string) (size : Z)
| CachedWritable (path : string)
| StagingBytesOverflow
| StagingFailed (detail : string)
| StagedCount (observed wanted : Z)
| StagedMissing (name : string)
| StagedDisagrees (name : string) (observed : Z * Sha256Digest) (required : Z * Sha256Digest)
| ScratchIo (detail : string).

Inductive DispatchFailure : Type :=
| BeforeAnyEffect (detail : DispatchDetail)
| AfterExternalIo (detail : DispatchDetail).

Definition failure_disposition (f : DispatchFailure) : ActionDisposition :=
  match f with BeforeAnyEffect _ => ConfirmedNoEffect | AfterExternalIo _ => DispositionUnknown end.

(** [None] is the end of the process. *)
Definition classify (e : ExecutionError) : option DispatchFailure :=
  match e with
  | RequiresAuthority _ | ActionUndecodable _ | PortRefused _ _ | LayoutMismatch _ _ | PartitionTableUnreadable _
  | DeviceDeclaresUnknownPartitions _ | TableNotObservedYet | ReadDomainNotCharacterized | NoTableAtLba1
  | TargetNotAllowed _ | PartitionNotOnDevice _ | TargetOffsetDisagrees _ _ _ | ImageNotStaged _
  | ImageOverrunsPartition _ _ _ | StagingChanged _ | VerificationRangeMissing | ScratchUnusable _ _ =>
      Some (BeforeAnyEffect (Execution e))
  | ExternalIo _ _ | ReadFailed _ _ _ => Some (AfterExternalIo (Execution e))
  | Aborted => None
  end.

Record PendingPreparation := mkPreparation {
  prep_job_id : string;
  prep_plan_actions : list PrivateActionRecord;
  prep_profile : DeviceProfile;
  prep_artifact_digest : Sha256Digest
}.

Record PendingDispatch := mkDispatch {
  job_id : string;
  step_id : string;
  actions : list PrivateActionRecord;
  plan_actions : list PrivateActionRecord;
  work_profile : DeviceProfile;
  work_artifact_digest : Sha256Digest
}.

Record DispatchOutcome := mkDispatchOutcome {
  disposition : ActionDisposition;
  outcome_facts : list (string * string);
  outcome_evidence : Sha256Digest;
  outcome_verification : option VerificationOutcome
}.

Record PendingReconcile := mkReconcile {
  rec_job_id : string;
  rec_actions : list PrivateActionRecord;
  rec_profile : DeviceProfile;
  possible_effects_to_observe : list PersistentEffect;
  terminal_scope : bool
}.

Record ReconcileDispatchOutcome := mkReconcileOutcome {
  observations : list (PersistentEffect * EffectObservation);
  reconcile_facts : list (string * string);
  reconcile_evidence : Sha256Digest
}.

Record ExpectedImage := mkExpected { expected_size : Z; expected_sha256 : Sha256Digest }.

#[global] Instance ExpectedImage_eq_dec : EqDecision ExpectedImage.
Proof. solve_decision. Defined.

Record StagingUse := mkStagingUse { use_images : btree StagedImage; use_bytes : Z; use_source : string; use_cache_hit : bool }.

Record StagingStats := mkStats {
  stats_duration_ms : Z;
  stats_bytes : Z;
  stats_source : string;
  stats_cache_hit : bool;
  preparation_mode : string
}.

Record Dispatcher := mkDispatcher {
  sessions : btree ExecutionSession;
  staged_jobs : list string;
  staging_stats : btree StagingStats;
  preparation_failures : btree DispatchFailure
}.

Definition dispatcher_new : Dispatcher := mkDispatcher [] [] [] [].

Definition with_sessions (d : Dispatcher) (s : btree ExecutionSession) : Dispatcher :=
  mkDispatcher s (staged_jobs d) (staging_stats d) (preparation_failures d).
Definition mark_staged (d : Dispatcher) (job : string) : Dispatcher :=
  mkDispatcher (sessions d) (staged_jobs d ++ [job]) (staging_stats d) (preparation_failures d).
Definition with_stats (d : Dispatcher) (s : btree StagingStats) : Dispatcher :=
  mkDispatcher (sessions d) (staged_jobs d) s (preparation_failures d).
Definition with_failures (d : Dispatcher) (f : btree DispatchFailure) : Dispatcher :=
  mkDispatcher (sessions d) (staged_jobs d) (staging_stats d) f.

Definition is_staged (d : Dispatcher) (job : string) : bool := existsb (String.eqb job) (staged_jobs d).

Definition session_of (d : Dispatcher) (job : string) : ExecutionSession :=
  default (session_new []) (bt_get job (sessions d)).

(** ** The images a plan writes *)

Definition refuse {A} (detail : DispatchDetail) : result (option DispatchFailure) A := Err (Some (BeforeAnyEffect detail)).

(** The declarations read so far: the images, whether all are the pinned restoration, and how
    many writes there are. *)
Record Inputs := mkInputs { expected : btree ExpectedImage; pinned_only : bool; write_count : Z }.

Definition is_pinned_ramdisk (profile : DeviceProfile) (record : PrivateActionRecord) (partition member : string) (begin_sector : Z)
    (range : ByteRange) (digest : Sha256Digest) : bool :=
  String.eqb partition "ramdisk" && String.eqb member "ramdisk.img"
  && (length range =? MAX_IMAGE_BYTES) && match restoration_digest with Ok pin => bool_decide (digest = pin) | Err _ => false end
  && ((begin_sector * 512 <=? U64_MAX) && (begin_sector * 512 =? start range))
  && match declared_target record with Some (TargetPartition t) => String.eqb (as_str t) "ramdisk" | _ => false end
  && bool_decide (effect_class record = EDestructive)
  && existsb (fun t => String.eqb (as_str (target_partition t)) "ramdisk" && bool_decide (source_member t = Some "ramdisk.img")
                       && (Profile.offset_sectors t =? begin_sector)) (allowed_targets profile).

Definition expect_image (profile : DeviceProfile) (record : PrivateActionRecord) (i : Inputs) : result (option DispatchFailure) Inputs :=
  let? action := map_err (fun e => Some (BeforeAnyEffect (Undecoded e))) (stored_action_decode record) in
  match action with
  | StoredWrite partition member begin_sector =>
      let? range := ok_or (declared_range record) (Some (BeforeAnyEffect (NoDeclaredRange member))) in
      let? digest := ok_or (action_content record) (Some (BeforeAnyEffect (NoDeclaredDigest member))) in
      let image := mkExpected (length range) digest in
      let? _ :=
        match bt_get member (expected i) with
        | Some prior => if bool_decide (prior = image) then Ok tt else refuse (Contradictory member)
        | None => Ok tt
        end in
      Ok (mkInputs (bt_insert member image (expected i))
            (pinned_only i && is_pinned_ramdisk profile record partition member begin_sector range digest) (write_count i + 1))
  | _ => Ok i
  end.

Fixpoint expect_images (profile : DeviceProfile) (records : list PrivateActionRecord) (i : Inputs) :
    result (option DispatchFailure) Inputs :=
  match records with
  | [] => Ok i
  | record :: records => let? i := expect_image profile record i in expect_images profile records i
  end.

(** The keys of a [BTreeSet], in order. *)
Definition set_of (names : list string) : list string := map fst (foldr (fun name m => bt_insert name tt m) [] names).

Definition expected_images (plan_actions : list PrivateActionRecord) (profile : DeviceProfile) :
    result (option DispatchFailure) (btree ExpectedImage) :=
  let? i := expect_images profile plan_actions (mkInputs [] (String.eqb (as_str (device_id profile)) "org.openharmony.dayu200") 0) in
  let profile_members := set_of (omap source_member (allowed_targets profile)) in
  let plan_members := map fst (expected i) in
  if is_nil (expected i)
     || (negb (bool_decide (plan_members = profile_members)) && negb (pinned_only i && (write_count i =? 1)))
  then refuse (InputsDisagree plan_members profile_members)
  else Ok (expected i).

(** ** The staging cache *)

Definition staging_cache_key (artifact_digest : Sha256Digest) (images : btree ExpectedImage) : string :=
  let line := fun entry : string * ExpectedImage =>
    bytes_of_string entry.1 ++ [0] ++ to_be_bytes 8 (expected_size entry.2)
    ++ bytes_of_string (to_hex (expected_sha256 entry.2)) ++ [0] in
  to_hex (sha256 (bytes_of_string "arkforge-staging-cache-v1" ++ [0] ++ bytes_of_string (to_hex artifact_digest) ++ [0]
                  ++ flat_map line images)).

(** A name that is one plain component of a path. *)
Definition plain_name (name : string) : bool :=
  negb (String.eqb name "") && negb (String.eqb name ".") && negb (String.eqb name "..")
  && negb (existsb (Z.eqb 47) (bytes_of_string name)).

(** An operation of the dispatcher; the error [None] is the end of the process. *)
Definition dispatching (A : Type) : Type := host Dispatcher (option DispatchFailure) A.

Section Staging.
Local Open Scope op_scope.
Context (work_root : string).

Definition cache_io {A} (m : dispatching (result string A)) : dispatching A :=
  try (fun e => Some (BeforeAnyEffect (CacheIo e))) m.

Fixpoint utf8_names (directory : string) (names : list (option string)) : result (option DispatchFailure) (list string) :=
  match names with
  | [] => Ok []
  | Some name :: names => let? rest := utf8_names directory names in Ok (name :: rest)
  | None :: _ => refuse (CacheNonUtf8 directory)
  end.

(** The expected images, each checked where it lies. *)
Fixpoint load_images (directory : string) (images : list (string * ExpectedImage)) (loaded : btree StagedImage) (total : Z) :
    dispatching (btree StagedImage * Z) :=
  match images with
  | [] => op_ret (loaded, total)
  | (name, required) :: images =>
      if negb (plain_name name) then op_lift (refuse (NotPlainName name))
      else
        let path := directory +:+ "/" +:+ name in
        let! metadata := cache_io (op_call (SymlinkMetadata path)) in
        if negb metadata.1 || negb (f_size_bytes metadata.2 =? expected_size required)
        then op_lift (refuse (CachedNotRegular name (expected_size required)))
        else if negb (Z.land (f_mode metadata.2) 146 =? 0) then op_lift (refuse (CachedWritable path))
        else
          let! total := op_lift (ok_or (checked_add total (expected_size required)) (Some (BeforeAnyEffect StagingBytesOverflow))) in
          load_images directory images
            (bt_insert name (mkStaged name path (expected_size required) (expected_sha256 required)) loaded) total
  end.

Definition load_staging_cache (directory : string) (images : btree ExpectedImage) (cache_hit : bool) : dispatching StagingUse :=
  let! is_dir := op_call (IsDir directory) in
  if negb is_dir then op_lift (refuse (CacheNotDirectory directory))
  else
    let! names := cache_io (op_call (ReadDirNames directory)) in
    let! observed := op_lift (utf8_names directory names) in
    let wanted := map fst images in
    if negb (bool_decide (set_of observed = wanted)) then op_lift (refuse (CacheEntriesDisagree (set_of observed) wanted))
    else
      let! (loaded, total) := load_images directory images [] 0 in
      op_ret (mkStagingUse loaded total (if cache_hit then "content-addressed-cache" else "artifact-extraction") cache_hit).

Definition create_cache_directory (path : string) : dispatching unit :=
  let! _ := cache_io (op_call (CreateDirAll path)) in cache_io (op_call (SetMode path 448)).

(** Every expected image was extracted as declared, and is made read-only. *)
Fixpoint seal_members (report : list (string * (string * Z * Sha256Digest))) (images : list (string * ExpectedImage)) :
    dispatching unit :=
  match images with
  | [] => op_ret tt
  | (name, required) :: images =>
      let! (path, size, digest) := op_lift (ok_or (bt_get name report) (Some (BeforeAnyEffect (StagedMissing name)))) in
      if negb (size =? expected_size required) || negb (bool_decide (digest = expected_sha256 required))
      then op_lift (refuse (StagedDisagrees name (size, digest) (expected_size required, expected_sha256 required)))
      else
        let! _ := cache_io (op_call (SetMode path 256)) in
        seal_members report images
  end.

Definition build_cache (artifact_digest : Sha256Digest) (images : btree ExpectedImage) (temporary : string) : dispatching unit :=
  let! report := try (fun e => Some (BeforeAnyEffect (StagingFailed e)))
                   (op_call (StageMembers artifact_digest (map fst images) temporary)) in
  if negb (zlen report =? zlen images) then op_lift (refuse (StagedCount (zlen report) (zlen images)))
  else
    let! _ := seal_members report images in
    let! _ := cache_io (op_call (SyncDir temporary)) in
    cache_io (op_call (SetMode temporary 320)).

(** The built directory takes its name, unless somebody else built it first. *)
Definition publish_cache (cache_root temporary directory : string) : dispatching unit :=
  let! renamed := op_call (Rename temporary directory) in
  match (renamed : result string unit) with
  | Ok _ => cache_io (op_call (SyncDir cache_root))
  | Err e =>
      let! found := op_call (PathExists directory) in
      let! _ := op_call (ClearAway temporary) in
      if (found : bool) then
        let! is_dir := op_call (IsDir directory) in
        if (is_dir : bool) then op_ret tt else op_lift (refuse (CacheIo e))
      else op_lift (refuse (CacheIo e))
  end.

Definition materialize_staging_cache (artifact_digest : Sha256Digest) (images : btree ExpectedImage) : dispatching StagingUse :=
  let cache_root := work_root +:+ "/cache" in
  let! _ := create_cache_directory cache_root in
  let key := staging_cache_key artifact_digest images in
  let directory := cache_root +:+ "/" +:+ key in
  let! found := op_call (PathExists directory) in
  if (found : bool) then load_staging_cache directory images true
  else
    let! nanos := op_call NowNanos in
    let! pid := op_call ProcessId in
    let temporary := cache_root +:+ "/." +:+ key +:+ "-" +:+ dec pid +:+ "-" +:+ string_of_bytes (decimal_rounds 39 nanos) +:+ ".part" in
    let! _ := cache_io (op_call (CreateDir temporary)) in
    let! _ := cache_io (op_call (SetMode temporary 448)) in
    let! built := op_try (build_cache artifact_digest images temporary) in
    match built with
    | Err e => let! _ := op_call (ClearAway temporary) in op_fail e
    | Ok _ =>
        let! _ := publish_cache cache_root temporary directory in
        load_staging_cache directory images false
    end.

(** An execution in the session of a job, which it leaves there whatever its result. *)
Definition in_session {A} (job : string) (m : exec A) : dispatching (result ExecutionError A) := fun d =>
  prog_bind (m (session_of d job)) (fun out => Done (Ok out.1, with_sessions d (bt_insert job out.2 (sessions d)))).

Definition stage_images (images : btree StagedImage) : exec unit :=
  let! s := op_get in
  let! _ := op_put (fold_left (fun s entry => stage s entry.1 entry.2) images s) in
  begin_parallel_staged_validation.

Definition stage_job (job : string) (artifact_digest : Sha256Digest) (plan : list PrivateActionRecord) (profile : DeviceProfile)
    (mode : string) : dispatching StagingStats :=
  let! d := op_get in
  if is_staged d job then op_lift (refuse (MarkedStaged job))
  else
    let! images := op_lift (expected_images plan profile) in
    let! use := materialize_staging_cache artifact_digest images in
    let! r := in_session job (stage_images (use_images use)) in
    let! _ := op_lift (map_err classify r) in
    let! d := op_get in
    let! _ := op_put (mark_staged d job) in
    let! elapsed := op_call ElapsedMs in
    op_ret (mkStats elapsed (use_bytes use) (use_source use) (use_cache_hit use) mode).

(** [prepare] keeps a failure for the first write. *)
Definition prepare (work : PendingPreparation) : dispatching unit :=
  let job := prep_job_id work in
  let! d := op_get in
  if is_staged d job || (match bt_get job (preparation_failures d) with Some _ => true | None => false end) then op_ret tt
  else
    let! r := op_try (stage_job job (prep_artifact_digest work) (prep_plan_actions work) (prep_profile work) "job-start-prewarm") in
    let! d := op_get in
    match r with
    | Ok stats => op_put (with_stats d (bt_insert job stats (staging_stats d)))
    | Err (Some failure) => op_put (with_failures d (bt_insert job failure (preparation_failures d)))
    | Err None => op_fail None
    end.

(** ** Running a step *)

Definition is_write (action : StoredAction) : bool := match action with StoredWrite _ _ _ => true | _ => false end.

Definition decode_actions (records : list PrivateActionRecord) : result (option DispatchFailure) (list StoredAction) :=
  collect_results (map (fun record => map_err (fun e => Some (BeforeAnyEffect (Undecoded e))) (stored_action_decode record)) records).

Definition staging_facts (s : StagingStats) (lead : Z) : list (string * string) :=
  [("stagingDurationMs", dec (stats_duration_ms s)); ("stagingBytes", dec (stats_bytes s)); ("stagingSource", stats_source s);
   ("stagingCacheHit", if stats_cache_hit s then "true" else "false"); ("preparationLeadMs", dec lead);
   ("preparationMode", preparation_mode s)]%string.

Context (port : RockUsbPort).

(** The actions in order, the last one's outcome kept. *)
Fixpoint execute_all (job scratch : string) (profile : DeviceProfile) (work : list (StoredAction * PrivateActionRecord))
    (last : option ActionOutcome) : dispatching (option ActionOutcome) :=
  match work with
  | [] => op_ret last
  | (action, record) :: work =>
      let! r := in_session job (execute_action port scratch action record profile) in
      let! outcome := op_lift (map_err classify r) in
      execute_all job scratch profile work (Some outcome)
  end.

(** The images of a job, before its first write. *)
Definition staging_of (work : PendingDispatch) (writes : bool) : dispatching (option StagingStats) :=
  let job := job_id work in
  if negb writes then op_ret None
  else
    let! d := op_get in
    match bt_get job (preparation_failures d) with
    | Some failure =>
        let! _ := op_put (with_failures d (bt_remove job (preparation_failures d))) in op_fail (Some failure)
    | None =>
        if is_staged d job then
          let! _ := op_put (with_stats d (bt_remove job (staging_stats d))) in
          op_ret (bt_get job (staging_stats d))
        else
          let! stats := stage_job job (work_artifact_digest work) (plan_actions work) (work_profile work) "first-write-fallback" in
          op_ret (Some stats)
    end.

Definition try_run (work : PendingDispatch) : dispatching DispatchOutcome :=
  let job := job_id work in
  let! decoded := op_lift (decode_actions (actions work)) in
  let! staging := staging_of work (existsb is_write decoded) in
  let scratch := work_root +:+ "/" +:+ job +:+ "/scratch" in
  let! _ := try (fun e => Some (BeforeAnyEffect (ScratchIo e))) (op_call (CreateDirAll scratch)) in
  let! last := execute_all job scratch (work_profile work) (combine decoded (actions work)) None in
  let! outcome := op_lift (ok_or last (Some (BeforeAnyEffect NoPrivateAction))) in
  let facts := map (fun f => (as_str f.1, f.2)) (out_facts outcome) in
  let! more := match staging with
               | Some stats => let! lead := op_call ElapsedMs in op_ret (staging_facts stats lead)
               | None => op_ret []
               end in
  op_ret (mkDispatchOutcome (out_disposition outcome) (facts ++ more) (out_evidence outcome) (out_verification outcome)).

(** The text of a failure. *)
Context (display : DispatchFailure -> string).

(** A run has no error; [None] is the end of the process. *)
Definition run_work (work : PendingDispatch) : dispatching DispatchOutcome :=
  let! r := op_try (try_run work) in
  match r with
  | Ok outcome => op_ret outcome
  | Err (Some failure) =>
      op_ret (mkDispatchOutcome (failure_disposition failure)
        [("dispatchFailure"%string, display failure); ("step"%string, step_id work)]
        (sha256 (bytes_of_string (display failure))) None)
  | Err None => op_fail None
  end.

Definition release (job : string) : host Dispatcher string unit :=
  let! d := op_get in
  let! _ := op_put (mkDispatcher (bt_remove job (sessions d)) (List.filter (fun j => negb (String.eqb j job)) (staged_jobs d))
                      (bt_remove job (staging_stats d)) (bt_remove job (preparation_failures d))) in
  let root := work_root +:+ "/" +:+ job in
  let! found := op_call (PathExists root) in
  if negb found then op_ret tt
  else try (fun e => root +:+ ": " +:+ e) (op_call (RemoveDirAll root)).

(** ** Reconciliation *)

Inductive ReconcileFault : Type :=
| ReconcileScratch (detail : string)
| EffectfulAction (action : OpaqueId) (effect : WorkflowEffect)
| UndecodableAction (detail : string)
| NotReadOnlyAction (action : OpaqueId)
| ActionFailed (e : ExecutionError)
| NoSemanticSuccess (action : OpaqueId).

Definition only_reads (action : StoredAction) : bool :=
  match action with
  | ProbeLoader | ValidatePartitionTable _ | CharacterizeReadDomain | StoredReadback _ _ _ _ => true
  | ManagedControl _ _ | StoredWrite _ _ _ | ResetDevice => false
  end.

Definition readback_observes_effect (record : PrivateActionRecord) (effect : PersistentEffect) : bool :=
  match effect, declared_target record with
  | WritePartition partition range content, Some (TargetPartition observed_partition) =>
      bool_decide (observed_partition = partition) && bool_decide (declared_range record = Some range)
      && bool_decide (action_content record = Some content)
  | _, _ => false
  end.

(** What the verdicts say of an effect. *)
Definition observe_effect (verdicts : list (PrivateActionRecord * VerificationOutcome)) (effect : PersistentEffect) :
    PersistentEffect * EffectObservation :=
  (effect, match List.find (fun v => readback_observes_effect v.1 effect) verdicts with
           | Some (_, Verified _ _) => Present
           | _ => Indeterminate
           end).

Definition reconciling (A : Type) : Type := host Dispatcher (option ReconcileFault) A.

(** As [in_session], with a reconciliation's errors. *)
Definition in_reconcile_session {A} (job : string) (m : exec A) : reconciling (result ExecutionError A) := fun d =>
  prog_bind (m (session_of d job)) (fun out => Done (Ok out.1, with_sessions d (bt_insert job out.2 (sessions d)))).

Definition action_fault (e : ExecutionError) : option ReconcileFault :=
  match e with Aborted => None | _ => Some (ActionFailed e) end.

Fixpoint reconcile_actions (job scratch : string) (profile : DeviceProfile) (records : list PrivateActionRecord)
    (verdicts : list (PrivateActionRecord * VerificationOutcome)) (evidence : Sha256) :
    reconciling (list (PrivateActionRecord * VerificationOutcome) * Sha256) :=
  match records with
  | [] => op_ret (verdicts, evidence)
  | record :: records =>
      if negb (bool_decide (effect_class record = EReadOnly)) then op_fail (Some (EffectfulAction (action_id record) (effect_class record)))
      else
        let! action := op_lift (map_err (fun e => Some (UndecodableAction e)) (stored_action_decode record)) in
        if negb (only_reads action) then op_fail (Some (NotReadOnlyAction (action_id record)))
        else
          let! r := in_reconcile_session job (execute_action port scratch action record profile) in
          let! outcome := op_lift (map_err action_fault r) in
          if negb (bool_decide (out_disposition outcome = SemanticSuccess)) then op_fail (Some (NoSemanticSuccess (action_id record)))
          else
            let evidence := update evidence (digest_bytes (out_evidence outcome)) in
            let verdicts := match out_verification outcome with Some v => verdicts ++ [(record, v)] | None => verdicts end in
            reconcile_actions job scratch profile records verdicts evidence
  end.

Definition count_indeterminate (l : list (PersistentEffect * EffectObservation)) : Z :=
  zlen (List.filter (fun o => bool_decide (o.2 = Indeterminate)) l).

Definition try_reconcile_read_only (work : PendingReconcile) : reconciling ReconcileDispatchOutcome :=
  let job := rec_job_id work in
  let scratch := work_root +:+ "/" +:+ job +:+ "/reconcile-scratch" in
  let! _ := try (fun e => Some (ReconcileScratch e)) (op_call (CreateDirAll scratch)) in
  let! d := op_get in
  let! _ := op_put (with_sessions d (bt_insert job (session_new []) (sessions d))) in
  let label := bytes_of_string "arkforge-reconcile-read-only-v1" ++ [0] in
  let! (verdicts, evidence) := reconcile_actions job scratch (rec_profile work) (rec_actions work) [] (update new label) in
  let found := map (observe_effect verdicts) (possible_effects_to_observe work) in
  op_ret (mkReconcileOutcome found
    [("readOnly", "true"); ("readOnlyActionCount", dec (zlen (rec_actions work)));
     ("readOnlyObservationCount", dec (zlen (possible_effects_to_observe work)));
     ("indeterminateCount", dec (count_indeterminate found))]%string
    (finalize evidence)).

Context (display_fault : ReconcileFault -> string).

Definition reconcile_work (work : PendingReconcile) : reconciling ReconcileDispatchOutcome :=
  let! r := op_try (try_reconcile_read_only work) in
  match r with
  | Ok outcome => op_ret outcome
  | Err (Some fault) =>
      op_ret (mkReconcileOutcome (map (fun effect => (effect, Indeterminate)) (possible_effects_to_observe work))
        [("reconcileError", display_fault fault); ("readOnly", "true")]%string
        (sha256 (bytes_of_string (display_fault fault))))
  | Err None => op_fail None
  end.
End Staging.
