(* ===== verification/PortSound.v ===== *)
(** * What a port promises

    A device that obeys the messages sent to it, over every call of a host; the laws of
    [RockUsbPort] an execution relies on, as a class; and what operations keep. *)

From stdpp Require Import gmap.
From S2P Require Import Prelude Interaction Sha256 Manifest Rockusb RockusbSound GptSound Port.

(** ** The device *)

(** What the sectors hold, and the address a write waits for its data at. *)
Definition Device : Type := (Medium * option Z)%type.

Definition deliver (d : Device) (message : bytes) : Device :=
  match d.2 with
  | Some address => (place d.1 address message, None)
  | None => if cbw_opcode message =? WRITE_LBA then (d.1, Some (cbw_address message)) else d
  end.

(** Claiming the interface starts the dialogue over. *)
Definition device_step (d : Device) (c : host_call) : Device :=
  match c with
  | Usb (WriteAll b) => deliver d b
  | OpenInterface _ => (d.1, None)
  | _ => d
  end.

Definition device_after (calls : list host_call) (d : Device) : Device := foldl device_step d calls.

Lemma device_app l k d : device_after (l ++ k) d = device_after k (device_after l d).
Proof. apply foldl_app. Qed.

Lemma device_usb calls d : device_after (map Usb calls) d = foldl deliver d (sent calls).
Proof. revert d. induction calls as [|[b|n|n] calls IH]; intros d; [done|..]; cbn [map device_after foldl]; apply IH. Qed.

Lemma obey_deliver messages m : obey messages m = (foldl deliver (m, None) messages).1.
Proof.
  assert (forall n messages m, (List.length messages <= n)%nat -> obey messages m = (foldl deliver (m, None) messages).1) as H;
    [|by eapply H].
  clear. induction n as [|n IH]; intros [|cbw messages] m Hl; cbn in Hl; try done; [lia|].
  cbn [obey foldl]. unfold deliver at 2. cbn [snd fst]. destruct (Z.eqb_spec (cbw_opcode cbw) WRITE_LBA).
  - destruct messages as [|data messages]; [done|]. cbn [foldl]. apply IH. cbn in Hl. lia.
  - apply IH. lia.
Qed.

(** Messages that leave no write waiting. *)
Definition settled (messages : list bytes) : Prop := forall m, (foldl deliver (m, None) messages).2 = None.

Lemma settled_app l k : settled l -> settled k -> settled (l ++ k).
Proof.
  intros Hl Hk m. rewrite foldl_app. specialize (Hl m). destruct (foldl deliver (m, None) l) as [m' p]. cbn in Hl. subst. apply Hk.
Qed.

Lemma deliver_obey messages m : settled messages -> foldl deliver (m, None) messages = (obey messages m, None).
Proof. intros H. rewrite obey_deliver. specialize (H m). by destruct (foldl _ _ _) as [? p]; cbn in *; subst. Qed.

(** Messages that ask for no write leave the device as it is. *)
Definition quiet (b : bytes) : Prop := cbw_opcode b <> WRITE_LBA.

Lemma reading_quiet messages : Forall reading messages -> Forall quiet messages.
Proof.
  intros H. eapply Forall_impl; [exact H|]. intros b (_ & _ & Ho) E. rewrite E in Ho.
  repeat (apply elem_of_cons in Ho as [?|Ho]; [done|]). by apply elem_of_nil in Ho.
Qed.

Lemma deliver_quiet messages m : Forall quiet messages -> foldl deliver (m, None) messages = (m, None).
Proof.
  induction 1 as [|b messages Hb _ IH]; [done|]. cbn [foldl]. unfold deliver at 2. cbn [snd].
  by destruct (Z.eqb_spec (cbw_opcode b) WRITE_LBA).
Qed.

(** ** Hosts *)

Section Host.
Context {W : Type} (env : forall c, W -> reply c * W).

(** A host answers within the types of its answers. *)
Definition env_ok : Prop := forall c w, reply_ok c (env c w).1.

(** The endpoint of the claimed interface. *)
Definition endpoint (c : Rockusb.call) (w : W) : result string (answer c) * W := env (Usb c) w.

(** An operation that leaves every sector as it is, whatever it is answered. *)
Definition keeps_medium {S E A} (m : host S E A) : Prop := forall s w r s' w' calls,
  run env (m s) w = (r, s', w', calls) -> forall d, (device_after calls d).1 = d.1.

Lemma keeps_medium_bind {S E A B} (m : host S E A) (k : A -> host S E B) :
  keeps_medium m -> (forall a, keeps_medium (k a)) -> keeps_medium (op_bind m k).
Proof.
  intros Hm Hk s w r s' w' calls H d. apply run_seq in H as [(e & E' & ->)|(a & s1 & w1 & c1 & c2 & E' & H & ->)]; [by eapply Hm|].
  rewrite device_app. etrans; [by eapply Hk|by eapply Hm].
Qed.

Lemma keeps_lift {S E A} (x : result E A) : keeps_medium (S := S) (op_lift x).
Proof. intros s w r s' w' calls H d. by apply run_lift in H as (_ & _ & _ & ->). Qed.

Lemma keeps_ret {S E A} (x : A) : keeps_medium (S := S) (E := E) (op_ret x).
Proof. apply (keeps_lift (Ok x)). Qed.

Lemma keeps_fail {S E A} (e : E) : keeps_medium (S := S) (A := A) (op_fail e).
Proof. apply (keeps_lift (Err e)). Qed.

Lemma keeps_get {S E} : keeps_medium (op_get (S := S) (E := E)).
Proof. intros s w r s' w' calls H d. by apply run_get in H as (_ & _ & _ & ->). Qed.

Lemma keeps_put {S E} (n : S) : keeps_medium (op_put (E := E) n).
Proof. intros s w r s' w' calls H d. by apply run_put in H as (_ & _ & _ & ->). Qed.

(** Calls that send the device no data. *)
Definition harmless (c : host_call) : Prop := match c with Usb (WriteAll b) => reading b | _ => True end.

Lemma keeps_call {S E} c : match c with Usb _ => False | _ => True end -> keeps_medium (op_call (S := S) (E := E) c).
Proof. intros Hc s w r s' w' calls H d. apply run_call in H as (-> & _). by destruct c. Qed.

Lemma keeps_try {S E A} fail (m : host S E (result string A)) : keeps_medium m -> keeps_medium (try fail m).
Proof. intros Hm. apply keeps_medium_bind; [done|]. intros r. apply keeps_lift. Qed.

Lemma keeps_within {S E S' E' A} (inner : S') (fail : E' -> E) (m : host S' E' A) :
  keeps_medium m -> keeps_medium (S := S) (op_within inner fail m).
Proof. intros Hm s w r s' w' calls H d. apply run_within in H as (_ & x & i & H & _). by eapply Hm. Qed.

Lemma keeps_attempt {S E E' A} (m : host S E' A) : keeps_medium m -> keeps_medium (E := E) (op_try m).
Proof. intros Hm s w r s' w' calls H d. apply run_try in H as (x & H & _). by eapply Hm. Qed.

Lemma keeps_loop {S E L A} k (body : L -> host S E (L + A)) l :
  (forall l, keeps_medium (body l)) -> keeps_medium (op_loop k body l).
Proof.
  intros Hb. revert l. induction k as [|k IH]; intros l; cbn [op_loop]; [apply Hb|].
  apply keeps_medium_bind; [apply IH|]. intros [l'|a]; [apply IH|apply keeps_ret].
Qed.
End Host.

Create HintDb medium.
#[export] Hint Resolve keeps_lift keeps_ret keeps_fail keeps_get keeps_put : medium.
#[export] Hint Extern 1 (keeps_medium ?env (op_call ?c)) => exact (keeps_call env c I) : medium.

(** Go through an operation that sends nothing but what lemmas allow. *)
Ltac keep :=
  repeat first
    [ assumption
    | match goal with
      | |- forall _, _ => intro
      | |- keeps_medium _ (op_bind _ _) => apply keeps_medium_bind
      | |- keeps_medium _ (try _ _) => apply keeps_try
      | |- keeps_medium _ (op_within _ _ _) => apply keeps_within
      | |- keeps_medium _ (op_try _) => apply keeps_attempt
      | |- keeps_medium _ (op_loop _ _ _) => apply keeps_loop
      end
    | solve [auto with medium]
    | case_match ].

(** ** Where an operation leaves its state *)

Section LeadsOf.
Context {W : Type} (env : forall c, W -> reply c * W).

(** [R] relates where an operation starts to where it ends. *)
Definition leads {S E A} (R : S -> S -> Prop) (m : host S E A) (s : S) : Prop := forall w r s' w' calls,
  run env (m s) w = (r, s', w', calls) -> R s s'.

Section Leads.
Context {S E : Type} (R : S -> S -> Prop) `{!PreOrder R}.

Lemma leads_bind {A B} (m : host S E A) (k : A -> host S E B) s :
  leads R m s -> (forall a s', R s s' -> leads R (k a) s') -> leads R (op_bind m k) s.
Proof.
  intros Hm Hk w r s' w' calls H. apply run_seq in H as [(e & H & ->)|(a & s1 & w1 & c1 & c2 & H1 & H & ->)]; [by eapply Hm|].
  pose proof (Hm _ _ _ _ _ H1). etrans; [done|]. by eapply Hk.
Qed.

Lemma leads_get {B} (k : S -> host S E B) s : leads R (k s) s -> leads R (op_bind op_get k) s.
Proof. intros Hk w r s' w' calls H. apply run_get_seq in H. by eapply Hk. Qed.

Lemma leads_put n s : R s n -> leads R (op_put (E := E) n) s.
Proof. intros Hn w r s' w' calls H. by apply run_put in H as (_ & -> & _). Qed.

Lemma leads_lift {A} (x : result E A) s : leads R (op_lift x) s.
Proof. intros w r s' w' calls H. by apply run_lift in H as (_ & -> & _). Qed.

Lemma leads_ret {A} (x : A) s : leads R (op_ret (E := E) x) s.
Proof. apply (leads_lift (Ok x)). Qed.

Lemma leads_fail {A} (e : E) s : leads R (op_fail (A := A) e) s.
Proof. apply (leads_lift (Err e)). Qed.

Lemma leads_call c s : leads R (op_call (E := E) c) s.
Proof. intros w r s' w' calls H. by apply run_call in H as (_ & -> & _). Qed.

Lemma leads_within {S' E' A} (inner : S') (fail : E' -> E) (m : host S' E' A) s : leads R (op_within inner fail m) s.
Proof. intros w r s' w' calls H. by apply run_within in H as (-> & _). Qed.

Lemma leads_try {E' A} (m : host S E' A) s : leads R m s -> leads R (op_try (E := E) m) s.
Proof. intros Hm w r s' w' calls H. apply run_try in H as (x & H & _). by eapply Hm. Qed.

Lemma leads_os {A} fail (m : host S E (result string A)) s : leads R m s -> leads R (try fail m) s.
Proof. intros Hm. apply leads_bind; [done|]. intros r s' _. apply leads_lift. Qed.
End Leads.

End LeadsOf.

(** Go through an operation, to its changes of state. *)
Ltac lead :=
  repeat first
    [ assumption
    | match goal with
      | |- forall _, _ => intro
      | |- leads _ _ (op_bind op_get _) _ => apply leads_get
      | |- leads _ _ (op_bind _ _) _ => apply leads_bind
      | |- leads _ _ (op_put _) _ => apply leads_put
      | |- leads _ _ (op_lift _) _ => apply leads_lift
      | |- leads _ _ (op_ret _) _ => apply leads_ret
      | |- leads _ _ (op_fail _) _ => apply leads_fail
      | |- leads _ _ (op_call ?c) _ => exact (leads_call _ _ c _)
      | |- leads _ _ (op_within _ _ _) _ => apply leads_within
      | |- leads _ _ (op_try _) _ => apply leads_try
      | |- leads _ _ (try _ _) _ => apply leads_os
      | |- PreOrder _ => apply _
      end
    | case_match ].

(** Images of which the sizes fit their type. *)
Definition staged_ok (i : StagedImage) : Prop := u64 (staged_size i) /\ digest_ok (staged_sha256 i).

(** The run of sectors an image takes from a sector on. *)
Definition on_run (begin_sector : Z) (i : StagedImage) (k : Z) : Prop :=
  begin_sector <= k < begin_sector + ceil_div (staged_size i) 512.

(** What is on the medium is the image: bytes of its size that hash to its digest, zero-filled
    to whole sectors. *)
Definition holds_image (m : Medium) (begin_sector : Z) (i : StagedImage) : Prop :=
  exists data, sha256 data = staged_sha256 i /\ zlen data = staged_size i /\
    forall k, on_run begin_sector i k -> m k = sector_of (padded data) (k - begin_sector).

(** The contract of a port: looking does not touch, a table that is read is asked of the host and has its partitions
    one behind the other, a write stays on the run of its image, a
    refusal before I/O touched nothing, a success left the image on the medium, and a read of
    a device that serves its medium is exact. *)
Class PortLaws (port : RockUsbPort) : Prop := {
  law_discover : forall W (env : forall c, W -> reply c * W), env_ok env -> keeps_medium env (discover port);
  law_table : forall W (env : forall c, W -> reply c * W), env_ok env -> keeps_medium env (port_read_partition_table port);
  law_table_chained : forall W (env : forall c, W -> reply c * W) w observation w' calls, env_ok env ->
    run env (port_read_partition_table port tt) w = (Ok observation, tt, w', calls) ->
    calls <> [] /\ chained (table_entries (observed_value observation));
  law_read : forall W (env : forall c, W -> reply c * W) begin_sector sectors scratch, env_ok env ->
    keeps_medium env (port_read_sectors port begin_sector sectors scratch);
  law_reset : forall W (env : forall c, W -> reply c * W), env_ok env -> keeps_medium env (port_reset_device port);
  law_write : forall W (env : forall c, W -> reply c * W) partition begin_sector validated w r w' calls d, env_ok env ->
    u64 begin_sector -> staged_ok (v_staged validated) ->
    run env (port_write_partition port partition begin_sector validated tt) w = (r, tt, w', calls) ->
    let m := (device_after calls d).1 in
    (forall k, m k = d.1 k \/ on_run begin_sector (v_staged validated) k) /\
    (forall detail, r = Err (BeforeIo detail) -> m = d.1) /\
    (forall receipt, r = Ok receipt -> semantic_success receipt = true -> holds_image m begin_sector (v_staged validated));
  law_read_exact : forall W (env : forall c, W -> reply c * W) pending m begin_sector sectors scratch w observation w' calls,
    env_ok env -> serves (endpoint env) pending m -> u64 begin_sector -> u64 sectors ->
    run env (port_read_sectors port begin_sector sectors scratch tt) w = (Ok observation, tt, w', calls) ->
    zlen (observed_value observation) = sectors * 512 /\
    forall i, 0 <= i < sectors -> sector_of (observed_value observation) i = m (begin_sector + i)
}.
