(* ===== verification/NativeSound.v ===== *)
(** * The native port keeps the contract (cmd/arkforged/src/dispatch.rs)

    [NativeRockUsbPort] over the wire protocol is a port in the sense of [PortLaws]. *)

From stdpp Require Import gmap.
From S2P Require Import Prelude Interaction Sha256 Manifest Rockusb RockusbSound GptSound Port PortSound NativePort.

Section Native.
Context {W : Type} (env : forall c, W -> reply c * W) (Henv : env_ok env).

(** ** Protocol operations on the claimed interface *)

Lemma run_on_wire {A} (p : prog (fun c => result string (answer c)) A) w :
  run env (on_wire p) w = (let '(a, w', calls) := run (endpoint env) p w in (a, w', map Usb calls)).
Proof.
  revert w. induction p as [a|c k IH]; intros w; [done|]. cbn [on_wire run]. unfold endpoint at 1.
  destruct (env (Usb c) w) as [x w1]. cbn [reply] in x. rewrite IH. by destruct (run (endpoint env) (k x) w1) as [[a w2] l].
Qed.

Lemma run_wire {A} tag fail (m : Rockusb.op A) w r u w' calls :
  run env (wire tag fail m tt) w = (r, u, w', calls) ->
  exists x tag' cs, run (endpoint env) (m tag) w = (x, tag', w', cs) /\ r = map_err fail x /\ calls = map Usb cs.
Proof.
  unfold wire. rewrite run_bind, run_on_wire. destruct (run (endpoint env) (m tag) w) as [[[x tag'] w1] cs] eqn:E. cbn [run fst].
  rewrite app_nil_r. intros [= <- _ <- <-]. by exists x, tag', cs.
Qed.

Lemma run_wire_tagged {A} tag fail (m : Rockusb.op A) w r u w' calls :
  run env (wire_tagged tag fail m tt) w = (r, u, w', calls) ->
  exists x tag' cs, run (endpoint env) (m tag) w = (x, tag', w', cs) /\ calls = map Usb cs /\
    match x with Ok a => r = Ok (a, tag') | Err e => r = Err (fail e) end.
Proof.
  unfold wire_tagged. rewrite run_bind, run_on_wire. destruct (run (endpoint env) (m tag) w) as [[[x tag'] w1] cs] eqn:E. cbn [run fst snd].
  rewrite app_nil_r. intros [= <- _ <- <-]. exists x, tag', cs. split_and!; [done..|]. by destruct x.
Qed.

(** A device after messages that ask for no write. *)
Lemma device_quiet calls m : Forall quiet (sent calls) -> device_after (map Usb calls) (m, None) = (m, None).
Proof. intros H. rewrite device_usb. by apply deliver_quiet. Qed.

(** Claiming the interface starts a dialogue. *)
Lemma run_open n w r u w' calls : run env (open_interface n tt) w = (r, u, w', calls) -> forall d, device_after calls d = (d.1, None).
Proof.
  unfold open_interface, try. intros H d. run_step H; [apply (run_call env (OpenInterface (target n))) in E as (_ & _ & E & _); done|].
  apply (run_call env (OpenInterface (target n))) in E as (-> & _). by apply run_lift in H as (_ & _ & _ & ->).
Qed.

Lemma keeps_open n : keeps_medium env (open_interface n).
Proof. intros [] w r s' w' calls H d. by rewrite (run_open _ _ _ _ _ _ H d). Qed.

Lemma keeps_with_protocol {A} n (m : Rockusb.op A) : sends_reading (endpoint env) m -> keeps_medium env (with_protocol n m).
Proof.
  intros Hm s w r s' w' calls H d. unfold with_protocol in H. run_step H.
  { by eapply keeps_open. }
  destruct s. pose proof (run_open _ _ _ _ _ _ E d) as Hd.
  call_step H. destruct t. apply run_wire in H as (x & tag' & cs & H & _ & ->).
  assert (Forall reading (sent cs)) as Hr by (eapply only_reading_bind; [apply reading_ready|intros; exact Hm|exact H]).
  rewrite device_app, Hd. change ((device_after (map Usb cs) (d.1, None)).1 = d.1). by rewrite device_quiet by by apply reading_quiet.
Qed.

#[local] Hint Resolve keeps_with_protocol : medium.

Lemma keeps_native_discover n : keeps_medium env (native_discover n).
Proof.
  unfold native_discover, matching_descriptors. keep. apply keeps_with_protocol. apply (reading_lift (endpoint env) (Ok tt)).
Qed.

Lemma keeps_native_table n : keeps_medium env (native_read_table n).
Proof. unfold native_read_table. keep. apply keeps_with_protocol, reading_table. Qed.

Lemma run_native_table n w observation u w' calls :
  run env (native_read_table n tt) w = (Ok observation, u, w', calls) ->
  calls <> [] /\ chained (table_entries (observed_value observation)).
Proof.
  intros H. unfold native_read_table in H. run_step H; [done|]. apply run_ret in H as ([= ->] & _). cbn [observed_value].
  unfold with_protocol in E. run_step E; [done|]. call_step E. split; [match goal with |- (?l ++ _) ++ _ <> [] => by destruct l end|]. destruct t0.
  destruct (env (FetchTag 256) st0) as [tag w1]. apply run_wire in E as (x & tag' & cs & E & Hx & _). destruct x; [|done]. injection Hx as ->.
  run_step E; [done|]. by eapply run_table_chained.
Qed.

Lemma keeps_native_read n begin_sector sectors : keeps_medium env (native_read_sectors n begin_sector sectors).
Proof. unfold native_read_sectors. keep. apply keeps_with_protocol, reading_lba. Qed.

(** Claim, tag and readiness: a failure is before I/O and touches nothing; past them the
    dialogue is at its start. *)
Lemma run_ready {A} n (k : Z -> port_op A) w r u w' calls :
  run env ((op_bind (open_interface n) (fun _ => op_bind (op_call (FetchTag 0x100)) (fun first_tag =>
             op_bind (wire_tagged first_tag before_io test_unit_ready) (fun out => let '(_, tag) := out in k tag)))) tt) w = (r, u, w', calls) ->
  (exists detail, r = Err (BeforeIo detail) /\ forall d, (device_after calls d).1 = d.1) \/
  (exists tag w1 calls1 rest, u32 tag /\ run env (k tag tt) w1 = (r, u, w', rest) /\ calls = calls1 ++ rest /\
     forall d, device_after calls1 d = (d.1, None)).
Proof.
  intros H. run_step H.
  { left. unfold open_interface, try in E. pose proof (run_open n w (Err e) u w' calls E) as Hd. subst r.
    run_step E; [by apply (run_call env (OpenInterface (target n))) in E0 as (_ & _ & ? & _)|].
    apply run_lift in E as (E & _). destruct a; [done|]. injection E as ->. exists (UsbFault e0). split; [done|]. intros d. by rewrite Hd. }
  destruct t. pose proof (run_open _ _ _ _ _ _ E) as Hd. call_step H.
  pose proof (Henv (FetchTag 256) st) as Htag. destruct (env (FetchTag 256) st) as [first_tag w1]. cbn [fst snd reply_ok] in H, Htag.
  run_step H; apply run_wire_tagged in E0 as (x & tag' & cs & E0 & -> & Hx);
    pose proof (reading_quiet _ (reading_ready (endpoint env) _ _ _ _ _ _ E0)) as Hq.
  - destruct x; [done|]. injection Hx as ->. left. exists (ProtocolFault e0). split; [done|]. intros d.
    rewrite device_app, Hd. change ((device_after (map Usb cs) (d.1, None)).1 = d.1). by rewrite device_quiet.
  - destruct x; [|done]. injection Hx as ->. destruct t. right. exists tag', st0, (c ++ FetchTag 256 :: map Usb cs), c1. split_and!.
    + unfold test_unit_ready in E0. run_step E0; [done|]. apply run_execute_in in E1 as (-> & _). apply run_ret in E0 as (_ & -> & _).
      pose proof (wrap_range 32 (first_tag + 1) ltac:(lia)). zlia.
    + done.
    + by rewrite <- app_assoc.
    + intros d. rewrite device_app, Hd. change (device_after (map Usb cs) (d.1, None) = (d.1, None)). by apply device_quiet.
Qed.

(** A reset sends a block that asks for no write. *)
Lemma reset_quiet tag w r u w' calls :
  run env (wire tag after_io reset_device tt) w = (r, u, w', calls) -> exists cs, calls = map Usb cs /\ Forall quiet (sent cs).
Proof.
  intros H. apply run_wire in H as (x & tag' & cs & H & _ & ->). exists cs. split; [done|].
  apply run_execute_out in H as (_ & [k Hk] & _); [|done].
  assert (Forall quiet (sent cs ++ k)) as Hq; [|by apply Forall_app in Hq as [? _]]. rewrite <- Hk.
  constructor; [|constructor]. unfold quiet, cbw_opcode, command_block.
  destruct (list4 _ (to_le_length 4 tag)) as (t0 & t1 & t2 & t3 & ->). done.
Qed.

Lemma keeps_native_reset n : keeps_medium env (native_reset n).
Proof.
  intros [] w r u w' calls H d. unfold native_reset in H.
  apply (run_ready n (fun tag => op_bind (wire tag after_io reset_device) (fun _ =>
    op_bind (op_call ElapsedMs) (fun elapsed => op_ret (mkReceipt true _ elapsed _ None))))) in H
    as [(detail & _ & Hd)|(tag & w1 & calls1 & rest & Htag & H & -> & Hd)]; [done|].
  rewrite device_app, Hd. run_step H; [|call_step H; apply run_ret in H as (_ & _ & _ & ->)];
    (destruct (reset_quiet _ _ _ _ _ _ E) as (cs & -> & Hq)).
  - change ((device_after (map Usb cs) (d.1, None)).1 = d.1). by rewrite device_quiet.
  - rewrite device_app, device_quiet by done. done.
Qed.

(** ** Writes that succeed leave no write waiting *)

Lemma write_settled tag address sectors data n length :
  zlen data <> 0 -> settled (out_messages (command_block tag WRITE_LBA address sectors n length false) data).
Proof.
  intros Hd m. unfold out_messages. destruct (Z.eqb_spec (zlen data) 0); [done|]. cbn [foldl]. unfold deliver at 2. cbn [snd].
  assert (cbw_opcode (command_block tag WRITE_LBA address sectors n length false) = WRITE_LBA) as ->; [|done].
  unfold cbw_opcode, command_block. destruct (list4 _ (to_le_length 4 tag)) as (t0 & t1 & t2 & t3 & ->).
  by destruct (list4 _ (to_le_length 4 n)) as (l0 & l1 & l2 & l3 & ->).
Qed.

Lemma write_rounds_settled rounds position rest chunks tag w n tag' w' calls :
  run (endpoint env) (write_rounds rounds position rest chunks tag) w = (Ok n, tag', w', calls) -> settled (sent calls).
Proof.
  revert position rest chunks tag w calls. induction rounds as [|rounds IH]; intros position rest chunks tag w calls H; cbn [write_rounds] in H.
  { by apply run_ret in H as (_ & _ & _ & ->). }
  destruct (Z.eqb_spec (zlen rest) 0) as [E|E]; [by apply run_ret in H as (_ & _ & _ & ->)|]. pose proof (zlen_nonneg rest).
  set (p := firstn (Z.to_nat max_chunk_bytes) rest) in *.
  assert (0 < zlen p <= 8388608) as Hp by (unfold p; rewrite zlen_firstn by done; change max_chunk_bytes with 8388608; lia).
  pose proof (padded_length p) as Hl. pose proof (ceil_div_bounds (zlen p) 512 ltac:(lia) ltac:(lia)).
  run_step H; [done|]. apply run_execute_out in E0 as (_ & _ & Hok); [|zlia]. destruct a. destruct (Hok eq_refl) as [Hs _].
  rewrite sent_app, Hs. apply settled_app; [apply write_settled; lia|by eapply IH].
Qed.

Lemma write_lba_settled begin_sector data tag w p tag' w' calls :
  run (endpoint env) (write_lba begin_sector data tag) w = (Ok p, tag', w', calls) -> settled (sent calls).
Proof.
  unfold write_lba. destruct (zlen data =? 0); [done|]. intros H. run_step H; [done|]. apply run_lift in E as (_ & _ & _ & ->).
  run_step H; [done|]. apply run_ret in H as (_ & _ & _ & ->). rewrite !app_nil_r. by eapply write_rounds_settled.
Qed.

(** ** Filling the buffer *)

(** A failure that is after I/O, once something was sent. *)
Definition late (chunks : Z) (e : RockUsbPortFailure) : Prop := chunks = 0 \/ exists detail, e = AfterIo detail.

Lemma local_late detail chunks : late chunks (local_failure detail chunks).
Proof. unfold late, local_failure. destruct (Z.eqb_spec chunks 0); [by left|]. right. eauto. Qed.

(** What a round, and so the loop, answers. *)
Definition fills (wanted chunks : Z) (l : bytes) (calls : list host_call) (r : result RockUsbPortFailure (bytes + bytes)) : Prop :=
  (forall d, device_after calls d = d) /\
  match r with
  | Ok (inl b) => zlen l <= wanted -> zlen b <= wanted
  | Ok (inr b) => zlen l <= wanted -> zlen b = wanted
  | Err e => late chunks e
  end.

Lemma run_fill_round file path wanted chunks l s w r s' w' calls :
  run env (fill_round file path wanted chunks l s) w = (r, s', w', calls) -> fills wanted chunks l calls r.
Proof.
  intros H. unfold fill_round in H. destruct (Z.ltb_spec (zlen l) wanted).
  - unfold try in H. apply run_seq in H as [(e & H & ->)|(b & s1 & w1 & c1 & c2 & H1 & H & ->)].
    + call_step H. destruct (env (ReadFile file (wanted - zlen l)) w) as [[read|] w1]; apply run_lift in H as (H & _ & _ & ->);
        [done|]. split; [done|]. injection H as ->. apply local_late.
    + call_step H1. pose proof (Henv (ReadFile file (wanted - zlen l)) w) as Hread.
      destruct (env (ReadFile file (wanted - zlen l)) w) as [[read|] w2]; apply run_lift in H1 as (H1 & -> & -> & ->); [|done].
      cbn [fst reply_ok] in Hread. injection H1 as <-. destruct (Hread _ eq_refl) as [Hlen _]. destruct b as [|x b].
      * injection H as <- _ _ <-. split; [done|]. apply local_late.
      * injection H as <- _ _ <-. split; [done|]. intros _. rewrite zlen_app. lia.
  - injection H as <- _ _ <-. split; [done|]. intros ?. lia.
Qed.

Lemma run_fill_loop k file path wanted chunks l s w r s' w' calls :
  run env (op_loop k (fill_round file path wanted chunks) l s) w = (r, s', w', calls) -> fills wanted chunks l calls r.
Proof.
  intros H. apply (run_loop env (fun l _ calls r _ => fills wanted chunks l calls r)) in H; [done|..].
  - intros. by eapply run_fill_round.
  - intros l1 s1 c1 l2 s2 c2 r2 s3 [Hd1 H1] [Hd2 H2]. split; [intros d; by rewrite device_app, Hd1|].
    destruct r2 as [[b|b]|e]; auto.
Qed.

Lemma run_fill file path wanted chunks w r u w' calls :
  0 <= wanted -> run env (fill_buffer file path wanted chunks tt) w = (r, u, w', calls) ->
  (forall d, device_after calls d = d) /\ match r with Ok b => zlen b = wanted | Err e => late chunks e end.
Proof.
  intros Hw H. unfold fill_buffer in H. apply run_seq in H as [(e & H & ->)|(x & s1 & w1 & c1 & c2 & H1 & H & ->)].
  - by apply run_fill_loop in H.
  - apply run_fill_loop in H1 as [Hd Hx]. destruct x as [b|b]; injection H as <- _ _ <-; rewrite app_nil_r; split; try done.
    + apply local_late.
    + by apply Hx.
Qed.

(** ** The transfer *)

(** Bytes of the run from a position on, where the image is already or the medium as it was. *)
Definition within (position count k : Z) : Prop := position <= k < position + ceil_div count 512.

Lemma ceil_div_chunks remaining filled :
  0 <= remaining -> filled = Z.min remaining max_chunk_bytes -> ceil_div remaining 512 = ceil_div filled 512 + ceil_div (remaining - filled) 512.
Proof.
  intros Hr ->. destruct (Z.le_gt_cases remaining max_chunk_bytes) as [H|H].
  - rewrite Z.min_l by done. replace (remaining - remaining) with 0 by lia. change (ceil_div 0 512) with 0. lia.
  - rewrite Z.min_r by lia. change (ceil_div max_chunk_bytes 512) with 16384. unfold ceil_div.
    replace remaining with (remaining - max_chunk_bytes + 16384 * 512) at 1 2 by (change max_chunk_bytes with 8388608; lia).
    rewrite Z.div_add, Z.mod_add by lia. lia.
Qed.

(** Padding whole chunks in front changes nothing behind them. *)
Lemma padded_chunks a b : zlen a mod 512 = 0 -> padded (a ++ b) = a ++ padded b.
Proof.
  intros Ha. unfold padded, LOGICAL_BLOCK_BYTES, ceil_div. rewrite zlen_app, <- app_assoc. do 2 f_equal.
  pose proof (Z.div_mod (zlen a) 512 ltac:(lia)). replace (zlen a + zlen b) with (zlen b + zlen a / 512 * 512) by lia.
  rewrite Z.div_add, Z.mod_add by lia. f_equal. lia.
Qed.

Lemma padded_parts a b : zlen a mod 512 = 0 \/ b = [] -> padded (a ++ b) = padded a ++ padded b.
Proof.
  intros [Ha| ->]; [by rewrite padded_chunks, (padded_aligned a)|]. change (padded []) with (@nil Z). by rewrite !app_nil_r.
Qed.

Lemma transfer_lands rounds file path remaining t w r u w' calls m :
  0 <= remaining -> u32 (next_tag t) -> 0 <= sent_chunks t -> 0 <= position t ->
  position t + ceil_div remaining 512 <= U32_MAX + 1 ->
  run env (transfer_rounds rounds file path remaining t tt) w = (r, u, w', calls) ->
  let d := device_after calls (m, None) in
  (forall k, d.1 k = m k \/ within (position t) remaining k) /\
  (forall detail, r = Err (BeforeIo detail) -> d.1 = m) /\
  (0 < sent_chunks t -> forall detail, r <> Err (BeforeIo detail)) /\
  (forall t', r = Ok t' -> ceil_div remaining max_chunk_bytes <= Z.of_nat rounds ->
     exists data, zlen data = remaining /\ (forall before, hashes (hasher t) before -> hashes (hasher t') (before ++ data)) /\
       forall k, within (position t) remaining k -> d.1 k = sector_of (padded data) (k - position t)).
Proof.
  revert remaining t w r u w' calls m.
  induction rounds as [|rounds IH]; intros remaining t w r u w' calls m Hrem Htag Hchunks Hpos Hend H; cbn [transfer_rounds] in H.
  { apply run_ret in H as (-> & _ & _ & ->). cbn. split; [by left|]. split; [done|]. split; [done|]. intros t' [= <-] Hc.
    pose proof (ceil_div_bounds remaining max_chunk_bytes ltac:(done) Hrem). assert (remaining = 0) as -> by nia.
    exists []. split; [done|]. split; [intros b Hb; by rewrite app_nil_r|]. intros k Hk. unfold within in Hk.
    change (ceil_div 0 512) with 0 in Hk. lia. }
  destruct (Z.leb_spec remaining 0) as [Hz|Hz].
  { apply run_ret in H as (-> & _ & _ & ->). cbn. split; [by left|]. split; [done|]. split; [done|]. intros t' [= <-] _.
    assert (remaining = 0) as -> by lia. exists []. split; [done|]. split; [intros b Hb; by rewrite app_nil_r|].
    intros k Hk. unfold within in Hk. change (ceil_div 0 512) with 0 in Hk. lia. }
  cbn zeta. set (wanted := Z.min remaining max_chunk_bytes) in *. assert (max_chunk_bytes = 8388608) as Hmax by done.
  run_step H.
  { apply run_fill in E as [Hd Hlate]; [|lia]. rewrite Hd. subst r. split; [by left|]. split; [done|]. split; [|done].
    intros Hc detail [= ->]. destruct Hlate as [?|[? ?]]; [lia|done]. }
  destruct t0. apply run_fill in E as [Hd Hfilled]; [|lia]. rename a into filled. rewrite device_app, Hd.
  pose proof (ceil_div_chunks remaining (zlen filled) Hrem Hfilled) as Hsplit.
  pose proof (ceil_div_bounds (zlen filled) 512 ltac:(lia) ltac:(lia)) as Hcf.
  pose proof (ceil_div_bounds (remaining - zlen filled) 512 ltac:(lia) ltac:(lia)) as Hcr.
  assert (u64 (position t)) as Hp64 by zlia.
  run_step H; apply run_wire_tagged in E as (x & tag' & cs & E & -> & Hx);
    destruct (write_lba_effect _ _ _ _ _ _ _ _ _ m Htag Hp64 E) as (Hold & _ & Hok).
  { destruct x as [p|e']; [done|]. injection Hx as ->. subst r. rewrite device_usb, <- obey_deliver. split; [|done].
    intros k. destruct (Hold k) as [?|[Hk _]]; [by left|right]. unfold in_run in Hk. unfold within. lia. }
  destruct x as [p|e']; [|done]. injection Hx as ->. destruct t0. destruct (Hok p eq_refl) as (Htag' & -> & _ & Hland).
  rewrite device_app, device_usb, (deliver_obey _ _ (write_lba_settled _ _ _ _ _ _ _ _ E)).
  set (m1 := obey (sent cs) m) in *. cbn [wire_sectors chunks] in H.
  pose proof (ceil_div_step (zlen filled) max_chunk_bytes ltac:(done) ltac:(lia)) as Hone.
  rewrite (Z.max_l 0 (zlen filled - max_chunk_bytes)) in Hone by lia. change (ceil_div 0 max_chunk_bytes) with 0 in Hone.
  pose proof (ceil_div_step remaining max_chunk_bytes ltac:(done) Hz) as Hround.
  replace (Z.max 0 (remaining - max_chunk_bytes)) with (remaining - zlen filled) in Hround by lia.
  set (t1 := mkTransfer (update (hasher t) filled) (position t + ceil_div (zlen filled) 512)
                        (sent_chunks t + ceil_div (zlen filled) max_chunk_bytes) tag') in *.
  destruct (IH (remaining - zlen filled) t1 _ _ _ _ _ m1 ltac:(lia) Htag' ltac:(cbn; lia) ltac:(cbn; lia) ltac:(cbn; lia) H)
    as (Hold' & _ & Hnb & Hok'). cbn [t1 next_tag sent_chunks position hasher] in *.
  assert (forall k, within (position t) remaining k <-> in_run (position t) filled k \/
    within (position t + ceil_div (zlen filled) 512) (remaining - zlen filled) k) as Hwithin
    by (intros k; unfold within, in_run; lia).
  split; [|split; [|split]].
  - intros k. destruct (Hold' k) as [-> |Hk]; [|right; apply Hwithin; by right].
    destruct (Hold k) as [?|[Hk _]]; [by left|right; apply Hwithin; by left].
  - intros detail ->. exfalso. eapply Hnb; [|done]. lia.
  - intros _ detail ->. eapply Hnb; [|done]. lia.
  - intros t' Ht' Hr. destruct (Hok' t' Ht' ltac:(lia)) as (data & Hlen & Hhash & Hland'). exists (filled ++ data).
    split; [rewrite zlen_app; lia|]. split.
    { intros before Hb. rewrite app_assoc. apply Hhash, hashes_update, Hb. }
    assert (padded (filled ++ data) = padded filled ++ padded data) as ->.
    { apply padded_parts. destruct (Z.le_gt_cases remaining max_chunk_bytes); [right; apply length_zero_iff_nil; unfold zlen in *; lia|left].
      rewrite Hfilled. unfold wanted. rewrite Z.min_r by lia. done. }
    intros k [Hk|Hk]%Hwithin.
    + destruct (Hold' k) as [-> |Hk']; [|unfold within, in_run in *; lia]. rewrite Hland by done.
      symmetry. apply (sector_app_l _ _ _ (ceil_div (zlen filled) 512)); [apply padded_length|unfold in_run in Hk; lia].
    + rewrite Hland' by done. rewrite (sector_app_r _ _ _ (ceil_div (zlen filled) 512)); [f_equal; lia|apply padded_length|].
      unfold within in Hk. lia.
Qed.

(** The transfer of an image that was rewound, from a dialogue at its start. *)
Lemma run_transfer partition begin_sector image file tag w r u w' calls m :
  u32 tag -> u64 begin_sector -> staged_ok image -> begin_sector + ceil_div (staged_size image) 512 <= U32_MAX + 1 ->
  run env (transfer partition begin_sector image file (ceil_div (staged_size image) 512) tag tt) w = (r, u, w', calls) ->
  let d := device_after calls (m, None) in
  (forall k, d.1 k = m k \/ on_run begin_sector image k) /\
  (forall detail, r = Err (BeforeIo detail) -> d.1 = m) /\
  (forall receipt, r = Ok receipt -> holds_image d.1 begin_sector image).
Proof.
  intros Htag Hb [Hsize _] Hend H. unfold transfer in H.
  pose proof (ceil_div_bounds (staged_size image) max_chunk_bytes ltac:(done) ltac:(zlia)) as [Hrounds _].
  set (t0 := mkTransfer new begin_sector 0 tag) in *. run_step H.
  { destruct (transfer_lands _ _ _ _ t0 _ _ _ _ _ m (proj1 Hsize) Htag ltac:(cbn; lia) (proj1 Hb) Hend E) as (Hold & Hbefore & _).
    subst r. split; [exact Hold|]. split; [|done]. intros detail [= ->]. by eapply Hbefore. }
  destruct (transfer_lands _ _ _ _ t0 _ _ _ _ _ m (proj1 Hsize) Htag ltac:(cbn; lia) (proj1 Hb) Hend E) as (Hold & _ & _ & Hok).
  destruct (Hok a eq_refl ltac:(lia)) as (data & Hlen & Hhash & Hland). clear Hok. destruct t. cbn [position hasher] in *.
  specialize (Hhash [] hashes_new). cbn [app] in Hhash. rewrite device_app.
  set (d1 := device_after c (m, None)) in *.
  assert (device_after c0 d1 = d1 /\ (forall detail, r <> Err (BeforeIo detail)) /\
    (forall receipt, r = Ok receipt -> finalize (hasher a) = staged_sha256 image)) as (-> & Hnb & Hr).
  { clear -H. run_step H.
    { unfold try in E. run_step E; [by apply (run_call env (ReadFile file 1)) in E0 as (_ & _ & ? & _)|].
      apply (run_call env (ReadFile file 1)) in E0 as (-> & _). apply run_lift in E as (E & _ & _ & ->). subst r.
      split; [done|]. split; [|done]. by destruct a0; [|injection E as ->]. }
    unfold try in E. run_step E; [done|]. apply (run_call env (ReadFile file 1)) in E0 as (-> & _).
    apply run_lift in E as (_ & _ & _ & ->).
    destruct (negb (zlen a0 =? 0)); [by injection H as <- _ _ <-|].
    case_bool_decide; cbn [negb] in H; [|by injection H as <- _ _ <-].
    call_step H. injection H as <- _ _ <-. by split_and!. }
  split; [exact Hold|]. split; [by intros detail ?%Hnb|]. intros receipt Hreceipt. exists data. split; [|split; [done|exact Hland]].
  rewrite <- (Hr _ Hreceipt), (finalize_spec _ _ Hhash). apply sha256_is_spec.
Qed.

(** Preparing asks the file system only. *)
Lemma keeps_prepare validated : keeps_medium env (prepare_for_write validated).
Proof. unfold prepare_for_write, fingerprint_read. keep. Qed.

Lemma run_native_write n partition begin_sector validated w r u w' calls d :
  u64 begin_sector -> staged_ok (v_staged validated) ->
  run env (native_write n partition begin_sector validated tt) w = (r, u, w', calls) ->
  let m := (device_after calls d).1 in
  (forall k, m k = d.1 k \/ on_run begin_sector (v_staged validated) k) /\
  (forall detail, r = Err (BeforeIo detail) -> m = d.1) /\
  (forall receipt, r = Ok receipt -> semantic_success receipt = true -> holds_image m begin_sector (v_staged validated)).
Proof.
  intros Hb Himage H. unfold native_write in H. set (image := v_staged validated) in *. cbn zeta.
  assert (forall e calls', r = Err e -> (device_after calls' d).1 = d.1 ->
    (forall k, (device_after calls' d).1 k = d.1 k \/ on_run begin_sector image k) /\
    (forall detail, r = Err (BeforeIo detail) -> (device_after calls' d).1 = d.1) /\
    (forall receipt, r = Ok receipt -> semantic_success receipt = true -> holds_image (device_after calls' d).1 begin_sector image)) as Hfail.
  { intros e calls' -> ->. split; [by left|]. by split. }
  destruct (String.eqb partition ""); [injection H as <- _ _ <-; by eapply Hfail|].
  run_step H; apply run_within in E as (_ & x & inner & E & Ex); pose proof (keeps_prepare _ _ _ _ _ _ _ E d) as Hd.
  { subst r. by eapply Hfail. }
  destruct (Z.eqb_spec (staged_size image) 0); [injection H as <- _ _ <-; rewrite app_nil_r; by eapply Hfail|].
  apply run_lift_seq in H as [(e & _ & -> & -> & -> & ->)|(end_sector & Hsum & H)]; [rewrite app_nil_r; by eapply Hfail|].
  unfold checked_add in Hsum. destruct (_ <=? U64_MAX); [injection Hsum as <-|done].
  destruct (Z.ltb_spec U32_MAX begin_sector); [injection H as <- _ _ <-; rewrite app_nil_r; by eapply Hfail|].
  destruct (Z.ltb_spec (U32_MAX + 1) (begin_sector + ceil_div (staged_size image) 512));
    [injection H as <- _ _ <-; rewrite app_nil_r; by eapply Hfail|]. cbn [orb] in H. destruct t.
  apply (run_ready n (fun tag => transfer partition begin_sector image a _ tag)) in H
    as [(detail & -> & Hq)|(tag & w1 & calls1 & rest & Htag & H & -> & Hq)].
  { eapply Hfail; [done|]. by rewrite device_app, Hq. }
  rewrite device_app, device_app, Hq, Hd.
  destruct (run_transfer _ _ _ _ _ _ _ _ _ _ d.1 Htag Hb Himage ltac:(lia) H) as (Hrun & Hbefore & Hok).
  split; [exact Hrun|]. split; [exact Hbefore|]. intros receipt Hr _. by eapply Hok.
Qed.

(** A read on a claimed interface is exact. *)
Lemma run_native_read n pending m begin_sector sectors w observation u w' calls :
  serves (endpoint env) pending m -> u64 begin_sector -> u64 sectors ->
  run env (native_read_sectors n begin_sector sectors tt) w = (Ok observation, u, w', calls) ->
  zlen (observed_value observation) = sectors * 512 /\
  forall i, 0 <= i < sectors -> sector_of (observed_value observation) i = m (begin_sector + i).
Proof.
  intros Hserve Hb Hs H. unfold native_read_sectors in H. run_step H; [done|]. apply run_ret in H as ([= ->] & _). cbn [observed_value].
  unfold with_protocol in E. run_step E; [done|]. call_step E. destruct t0.
  pose proof (Henv (FetchTag 256) st0) as Htag. destruct (env (FetchTag 256) st0) as [tag w1]. cbn [fst snd reply_ok] in E, Htag.
  apply run_wire in E as (x & tag' & cs & E & Hx & _). destruct x as [b|]; [|done]. injection Hx as ->.
  run_step E; [done|]. assert (u32 t0) as Ht.
  { unfold test_unit_ready in E1. run_step E1; [done|]. apply run_execute_in in E2 as (-> & _). apply run_ret in E1 as (_ & -> & _).
    pose proof (wrap_range 32 (tag + 1) ltac:(lia)). zlia. }
  destruct (read_lba_serves (endpoint env) pending m _ _ _ _ _ _ _ _ _ Hserve Ht Hb Hs E eq_refl) as (? & _ & ?). done.
Qed.
End Native.

(** The native port keeps the contract of a port. *)
#[export] Instance native_laws n : PortLaws (native_port n).
Proof.
  split; cbn [native_port discover port_read_partition_table port_read_sectors port_reset_device port_write_partition].
  - intros W env He. by apply keeps_native_discover.
  - intros W env He. by apply keeps_native_table.
  - intros W env w o w' calls He H. by eapply run_native_table.
  - intros W env b c scratch He. by apply keeps_native_read.
  - intros W env He. by apply keeps_native_reset.
  - intros W env partition b v w r w' calls d He Hb Hv H. by eapply run_native_write.
  - intros W env pending m b c scratch w o w' calls He Hs Hb Hc H. by eapply run_native_read.
Qed.
