(* ===== verification/ExecuteSound.v ===== *)
(** * What executing an action does to the device
    (crates/arkforge-provider/src/rockchip_execute/)

    Against any port that keeps its contract: which sectors an action may change, what its
    errors and its outcome say of the medium, and what a session keeps. *)

From stdpp Require Import gmap.
From S2P Require Import Prelude Interaction Sha256 Digest Authority Identity Effect FlashStep Projection.
From S2P Require Import Plan Manifest Verification Profile Rockchip Rockusb RockusbSound GptSound Port PortSound Execute Dispatch.

(** ** Lookups *)

Lemma bt_get_remove_ne {V} k k' (m : btree V) : bt_ok m -> k <> k' -> bt_get k' (bt_remove k m) = bt_get k' m.
Proof.
  intros Hok Hk. unfold bt_remove. induction m as [|[k1 v] m IH]; [done|]. cbn [List.filter fst].
  pose proof Hok as [Hm Hall]%StronglySorted_inv. specialize (IH Hm).
  destruct (String.eqb_spec k1 k) as [->|Hne]; cbn [negb bt_get].
  - rewrite IH. destruct (str_compare k' k) eqn:E; [apply str_compare_eq in E; by subst| |done].
    apply bt_get_None_lt. eapply Forall_impl; [exact Hall|]. intros x Hx. by eapply str_lt_trans.
  - by rewrite IH.
Qed.

Lemma bt_get_Forall {V} (Q : string * V -> Prop) k v (m : btree V) : Forall Q m -> bt_get k m = Some v -> Q (k, v).
Proof.
  induction 1 as [|[k' v'] m Hk _ IH]; [done|]. cbn [bt_get]. destruct (str_compare k k') eqn:E; [|done|done].
  apply str_compare_eq in E as ->. by intros [= ->].
Qed.

(** The numbers of a declaration fit their types. *)
Definition declared_ok (record : PrivateActionRecord) : Prop :=
  (forall range, declared_range record = Some range -> u64 (length range)) /\
  (forall content, action_content record = Some content -> digest_ok content).

Section Sound.
Context (port : RockUsbPort) {Hport : PortLaws port}.
Context {W : Type} (env : forall c, W -> reply c * W) (Henv : env_ok env).
Context (scratch : string) (profile : DeviceProfile).

(** ** Actions that look *)

Lemma keeps_port_call {A} operation (m : port_op A) : keeps_medium env m -> keeps_medium env (port_call operation m).
Proof. apply keeps_within. Qed.

Lemma keeps_read_sectors begin_sector sectors label : keeps_medium env (read_sectors port scratch begin_sector sectors label).
Proof.
  unfold read_sectors. keep. apply keeps_port_call. by apply law_read.
Qed.

Lemma keeps_revalidate image : keeps_medium env (open_and_revalidate image).
Proof. unfold open_and_revalidate, fingerprint_read, hash_open_file, hash_round. keep. Qed.

Lemma keeps_characterize record : keeps_medium env (characterize_read_domain port scratch record).
Proof.
  unfold characterize_read_domain. keep; apply keeps_read_sectors.
Qed.

Lemma keeps_readback record partition begin_sector strength filler :
  keeps_medium env (readback_partition port scratch record partition begin_sector strength filler).
Proof. unfold readback_partition, end_probe. keep; apply keeps_read_sectors. Qed.

Lemma keeps_table record expected : keeps_medium env (validate_partition_table port record profile expected).
Proof. unfold validate_partition_table. keep. apply keeps_port_call. by apply law_table. Qed.

(** Only a write changes sectors. *)
Lemma keeps_action action record :
  is_write action = false -> keeps_medium env (execute_action port scratch action record profile).
Proof.
  destruct action; intros Hw; try done; cbn [execute_action].
  - auto with medium.
  - keep. apply keeps_port_call. by apply law_discover.
  - apply keeps_table.
  - apply keeps_readback.
  - apply keeps_characterize.
  - keep. apply keeps_port_call. by apply law_reset.
Qed.

(** ** What an action leaves of a session *)

(** The images of a session are of a kind, with the members they are kept under. *)
Definition session_holds (P : string -> StagedImage -> Prop) (s : ExecutionSession) : Prop :=
  bt_ok (validating s) /\ Forall (fun e => P e.1 e.2) (staged s) /\
  (forall member v, bt_get member (validating s) = Some (Ok v) -> P member (v_staged v)).

Lemma bt_remove_ok {V} k (m : btree V) : bt_ok m -> bt_ok (bt_remove k m).
Proof.
  unfold bt_ok, bt_remove. induction m as [|[k1 v] m IH]; [done|]. intros [Hm Hall]%StronglySorted_inv. cbn [List.filter fst].
  destruct (String.eqb k1 k); cbn [negb map]; [by apply IH|]. constructor; [by apply IH|].
  apply Forall_forall. intros x Hx. rewrite Forall_forall in Hall. apply Hall.
  apply list_elem_of_In, in_map_iff in Hx as (e & <- & He). apply filter_In in He as [He _].
  apply list_elem_of_In, in_map. done.
Qed.

Lemma bt_get_remove {V} k k' (m : btree V) v : bt_ok m -> bt_get k' (bt_remove k m) = Some v -> bt_get k' m = Some v.
Proof.
  intros Hm H. destruct (decide (k = k')) as [->|]; [|by rewrite bt_get_remove_ne in H]. exfalso.
  pose proof (bt_remove_ok k' m Hm) as Hok. apply (bt_get_In _ _ _ Hok) in H. unfold bt_remove in H.
  apply filter_In in H as [_ H]. cbn in H. by rewrite String.eqb_refl in H.
Qed.

(** A session later: the same images staged, no new proofs. *)
Definition later (s s' : ExecutionSession) : Prop :=
  staged s' = staged s /\ (bt_ok (validating s) -> bt_ok (validating s') /\
    forall member x, bt_get member (validating s') = Some x -> bt_get member (validating s) = Some x).

#[local] Instance later_preorder : PreOrder later.
Proof.
  split; [by split|]. intros s1 s2 s3 [E1 H1] [E2 H2]. split; [congruence|]. intros H. destruct (H1 H) as [H' Hs].
  destruct (H2 H') as [? Hs']. split; [done|]. intros member x Hx. auto.
Qed.

Lemma later_same s s' : staged s' = staged s -> validating s' = validating s -> later s s'.
Proof. intros H1 H2. split; [done|]. intros H. rewrite H2. by split. Qed.

Lemma later_holds P s s' : later s s' -> session_holds P s -> session_holds P s'.
Proof.
  intros [E H] (Hok & Hs & Hv). destruct (H Hok) as [Hok' Hsub]. split; [done|]. split; [by rewrite E|].
  intros member v Hm. by apply Hv, Hsub.
Qed.

Lemma later_note s sector : later s (note_readable_sector s sector).
Proof. unfold note_readable_sector. case_match; [done|by apply later_same]. Qed.

Lemma leads_read_sectors begin_sector sectors label s : leads env later (read_sectors port scratch begin_sector sectors label) s.
Proof. unfold read_sectors, port_call. lead. Qed.

Lemma leads_take member s : leads env later (take_validated_image member) s.
Proof.
  unfold take_validated_image. lead. split; [done|]. cbn [validating with_validating]. intros Hok.
  split; [by apply bt_remove_ok|]. intros m x Hx. by eapply bt_get_remove.
Qed.

Lemma leads_action action record s : leads env later (execute_action port scratch action record profile) s.
Proof.
  destruct action; cbn [execute_action]; unfold validate_partition_table, characterize_read_domain, write_partition, readback_partition,
    end_probe, port_call; lead; try apply leads_read_sectors; try apply leads_take; try apply later_note; by apply later_same.
Qed.

(** An action keeps what a session holds. *)
Lemma action_holds P action record s w r s' w' calls :
  session_holds P s -> run env (execute_action port scratch action record profile s) w = (r, s', w', calls) -> session_holds P s'.
Proof. intros Hs H. eapply later_holds; [by eapply leads_action|done]. Qed.

(** ** Writes *)

Lemma run_revalidate image s w v s' w' calls :
  run env (open_and_revalidate image s) w = (Ok v, s', w', calls) -> v_staged v = image.
Proof.
  intros H. unfold open_and_revalidate in H. do 2 (run_step H; [done|]). case_match; [done|].
  run_step H; [done|]. destruct a1 as [[digest total] backend]. case_match; [done|]. case_match; [done|].
  run_step H; [done|]. case_match; [done|]. call_step H. by injection H as <- _ _ _.
Qed.

Section Writes.
Context (P : string -> StagedImage -> Prop) (HP : forall member image, P member image -> staged_ok image).

Lemma run_take member s w r s' w' calls :
  session_holds P s -> run env (take_validated_image member s) w = (r, s', w', calls) ->
  (forall d, (device_after calls d).1 = d.1) /\ (forall v waited parallel, r = Ok (v, waited, parallel) -> P member (v_staged v)).
Proof.
  intros (_ & Hstaged & Hvalidating) H. split.
  { revert H. assert (keeps_medium env (take_validated_image member)) as Hk; [|by apply Hk].
    unfold take_validated_image. keep. apply keeps_revalidate. }
  intros v waited parallel ->. unfold take_validated_image in H. apply run_get_seq in H. run_step H; [done|].
  destruct a as [proof b]. apply run_lift_seq in H as [(e & _ & [=] & _)|(image & -> & H)]. call_step H. injection H as -> _ _ _ _ _.
  destruct (bt_get member (validating s)) as [p|] eqn:Hp.
  - apply run_put_seq in E. apply run_ret in E as ([= <- _] & _). by eapply Hvalidating.
  - apply run_lift_seq in E as [(e & _ & [=] & _)|(i & Hi & E)]. destruct (bt_get member (staged s)) as [i'|] eqn:Hs; [|done].
    injection Hi as ->. run_step E; [done|]. apply run_ret in E as ([= <- _] & _).
    apply run_try in E0 as (x & E0 & [= <-]). apply run_within in E0 as (_ & y & inner & E0 & Hy). destruct y; [|done]. injection Hy as ->.
    apply run_revalidate in E0 as ->. by eapply bt_get_Forall in Hstaged.
Qed.

Lemma run_write record partition member begin_sector s w r s' w' calls d :
  session_holds P s -> u64 begin_sector ->
  run env (write_partition port record profile partition member begin_sector s) w = (r, s', w', calls) ->
  let m := (device_after calls d).1 in
  (forall k, m k = d.1 k \/ exists entry image,
     admit_write s profile partition member begin_sector = Ok entry /\ P member image /\ on_run begin_sector image k) /\
  (forall e f, r = Err e -> classify e = Some (BeforeAnyEffect f) -> m = d.1) /\
  (forall o, r = Ok o -> out_disposition o = SemanticSuccess -> exists image, P member image /\ holds_image m begin_sector image).
Proof.
  intros Hs Hb H. unfold write_partition in H. apply run_get_seq in H. cbn zeta.
  apply run_lift_seq in H as [(e & _ & -> & _ & _ & ->)|(entry & Hadmit & H)]; [by split; [left|split]|].
  assert (Manifest.offset_sectors entry = begin_sector) as Hoff.
  { clear -Hadmit. unfold admit_write, ok_or in Hadmit. repeat (case_match; try done; cbn [negb] in * ); try (by injection Hadmit as ->; lia). }
  run_step H; (destruct (run_take _ _ _ _ _ _ _ Hs E) as [Hk Hv]).
  { subst r. rewrite Hk. split; [by left|]. by split. }
  destruct a as [[v waited] parallel]. specialize (Hv _ _ _ eq_refl).
  run_step H; apply run_within in E0 as (_ & x & inner & E0 & Hx); destruct inner; rewrite Hoff in E0;
    (destruct (law_write _ _ _ _ _ _ _ _ _ (device_after c d) Henv Hb (HP _ _ Hv) E0) as (Hrun & Hbefore & Hok));
    rewrite device_app; rewrite Hk in Hrun, Hbefore.
  { destruct x as [|f]; [done|]. injection Hx as ->. subst r. split; [|split; [|done]].
    - intros k. destruct (Hrun k); [by left|right]. by eauto.
    - intros e f' [= <-] Hc. destruct f as [detail|detail]; [by eapply Hbefore|done]. }
  destruct x as [receipt|]; [|done]. injection Hx as <-.
  assert (device_after (c1 ++ c2) (device_after c d) = device_after c1 (device_after c d) /\
    (forall e f, r = Err e -> classify e <> Some (BeforeAnyEffect f)) /\
    (forall o, r = Ok o -> out_disposition o = SemanticSuccess -> semantic_success a = true)) as (-> & Herr & Hsem).
  { rewrite device_app. clear -H. destruct (payload_differs a (v_staged v)); injection H as <- _ _ <-; split; try done; (split; [|done || idtac]).
    - by intros e f [= <-].
    - done.
    - intros o [= <-]. cbn. unfold disposition_of. by destruct (semantic_success a). }
  split; [|split].
  - intros k. destruct (Hrun k); [by left|right]. by eauto.
  - intros e f Hr Hc. by destruct (Herr _ _ Hr Hc).
  - intros o Hr Hd. exists (v_staged v). split; [done|]. eapply Hok; [done|]. by eapply Hsem.
Qed.

(** ** The table a session holds *)

(** A table that the device showed: among the calls made so far, with the environment each was
    made in, are those by which the port read its table then, and this is what it read. *)
Definition table_read (past : list (W * host_call)) (t : PartitionTableFact) : Prop :=
  exists before asked after w0 w1 observation, past = before ++ told env asked w0 ++ after /\ asked <> [] /\
    run env (port_read_partition_table port tt) w0 = (Ok observation, tt, w1, asked) /\ observed_value observation = t.

(** A table the device showed and the profile agrees with. *)
Definition shown (past : list (W * host_call)) (t : PartitionTableFact) : Prop :=
  table_read past t /\ check_conformance t profile = Ok tt /\ chained (table_entries t).

Lemma shown_more past more t : shown past t -> shown (past ++ more) t.
Proof using.
  intros [(before & asked & after & w0 & w1 & o & -> & H) Ht]. split; [|done].
  exists before, asked, (after ++ more), w0, w1, o. by rewrite <- !app_assoc.
Qed.

Definition session_shows (past : list (W * host_call)) (s : ExecutionSession) : Prop :=
  forall t, observed_table s = Some t -> shown past t.

Lemma shows_more past more s : session_shows past s -> session_shows (past ++ more) s.
Proof using. intros H t Ht. by apply shown_more, H. Qed.

Definition same_table (s s' : ExecutionSession) : Prop := observed_table s' = observed_table s.

#[local] Instance same_table_preorder : PreOrder same_table.
Proof. split; [by intros s|]. unfold same_table. intros s1 s2 s3. congruence. Qed.

Lemma table_read_sectors begin_sector sectors label s : leads env same_table (read_sectors port scratch begin_sector sectors label) s.
Proof. unfold read_sectors, port_call. lead. Qed.

Lemma table_take member s : leads env same_table (take_validated_image member) s.
Proof. unfold take_validated_image. lead. done. Qed.

Lemma table_note s sector : same_table s (note_readable_sector s sector).
Proof. unfold note_readable_sector. by case_match. Qed.

Lemma action_shows past action record s w r s' w' calls :
  session_shows past s -> run env (execute_action port scratch action record profile s) w = (r, s', w', calls) ->
  session_shows (past ++ told env calls w) s'.
Proof.
  intros Hs H. assert ((exists expected, action = ValidatePartitionTable expected) \/ (forall expected, action <> ValidatePartitionTable expected))
    as [(expected & ->)|Hno] by (destruct action; eauto).
  - cbn [execute_action] in H. unfold validate_partition_table in H.
    apply run_lift_seq in H as [(e & _ & _ & -> & _)|(digest & _ & H)]; [by apply shows_more|].
    case_bool_decide; [cbn [negb] in H|injection H as _ <- _ _; by apply shows_more].
    run_step H; apply run_within in E as (-> & x & inner & E & Hx); [by apply shows_more|]. destruct x as [o|]; [|done]. injection Hx as ->. destruct inner.
    destruct (law_table_chained _ _ _ _ _ _ Henv E) as [Hasked Hchained].
    apply run_lift_seq in H as [(e & _ & _ & -> & _)|([] & Hc & H)]; [by apply shows_more|]. apply run_get_seq, run_put_seq in H.
    injection H as _ <- _ _. intros t [= <-]. split; [|done]. rewrite (told_run env _ _ _ _ _ _ E). by repeat eexists.
  - assert (leads env same_table (execute_action port scratch action record profile) s) as Hl.
    { destruct action; cbn [execute_action]; unfold characterize_read_domain, write_partition, readback_partition, end_probe, port_call; lead;
        try apply table_read_sectors; try apply table_take; try apply table_note; try done. by destruct (Hno expected_layout_digest). }
    intros t Ht. apply shown_more, Hs. by rewrite <- (Hl _ _ _ _ _ H).
Qed.

(** ** Sectors a write may change *)

(** A sector of a partition the profile allows, where the device's own table has it, and of no
    other partition of that table. *)
Definition allowed_sector (past : list (W * host_call)) (k : Z) : Prop := exists t entry target member image,
  shown past t /\ entry ∈ table_entries t /\ target ∈ allowed_targets profile /\
  entry_name entry = as_str (target_partition target) /\ Manifest.offset_sectors entry = Profile.offset_sectors target /\
  holds entry k /\ (forall other, other ∈ table_entries t -> holds other k -> other = entry) /\
  P member image /\ on_run (Manifest.offset_sectors entry) image k.

Lemma allowed_more past more k : allowed_sector past k -> allowed_sector (past ++ more) k.
Proof using. intros (t & entry & target & member & image & H & Hrest). exists t, entry, target, member, image. split; [by apply shown_more|done]. Qed.

Lemma chained_alone entries entry k :
  chained entries -> entry ∈ entries -> holds entry k -> forall other, other ∈ entries -> holds other k -> other = entry.
Proof.
  intros Hc He Hk other Ho Hk'. apply chained_apart in Hc.
  destruct (ForallOrdPairs_In Hc entry other) as [|[H|H]]; [by apply list_elem_of_In..|done| |]; exfalso; by eapply H.
Qed.

Context (HPsize : forall member i j, P member i -> P member j -> staged_size i = staged_size j).

Lemma admitted_sector past s partition member begin_sector entry image k :
  session_holds P s -> session_shows past s -> admit_write s profile partition member begin_sector = Ok entry ->
  P member image -> on_run begin_sector image k -> allowed_sector past k.
Proof.
  intros (_ & Hstaged & _) Hshows Hadmit Himage [Hlo Hhi]. unfold admit_write in Hadmit.
  destruct (find_target profile partition) as [target|] eqn:Ht; [|done]. cbn [ok_or] in Hadmit.
  destruct (Z.eqb_spec (Profile.offset_sectors target) begin_sector) as [Eo|]; [cbn [negb] in Hadmit|done].
  destruct (observed_table s) as [t|] eqn:Hobs; [|done]. cbn [ok_or] in Hadmit.
  destruct (find_entry t partition) as [found|] eqn:He; [|done]. cbn [ok_or] in Hadmit.
  destruct (Z.eqb_spec (Manifest.offset_sectors found) begin_sector) as [Eb|]; [cbn [negb] in Hadmit|done].
  destruct (bt_get member (staged s)) as [staged_image|] eqn:Hm; [|done]. cbn [ok_or] in Hadmit.
  assert (found = entry /\ forall z, Manifest.size_sectors found = Some z -> ceil_div (staged_size image) 512 <= z) as [-> Hfit].
  { rewrite (HPsize _ _ _ Himage (bt_get_Forall (fun e => P e.1 e.2) _ _ _ Hstaged Hm)). unfold ROCKUSB_SECTOR_BYTES in Hadmit.
    destruct (Manifest.size_sectors found) as [size|]; [|by injection Hadmit as ->].
    destruct (Z.ltb_spec size (ceil_div (staged_size staged_image) 512)); [done|]. injection Hadmit as ->.
    split; [done|]. by intros z [= <-]. }
  apply find_some in Ht as [Ht Htn], He as [He Hen]. apply String.eqb_eq in Htn, Hen.
  assert (holds entry k) as Hk.
  { split; [lia|]. destruct (Manifest.size_sectors entry) as [z|]; [|done]. specialize (Hfit z eq_refl). lia. }
  destruct (Hshows t Hobs) as (Hread & Hconf & Hc). exists t, entry, target, member, image. split_and!; try done.
  - by apply list_elem_of_In.
  - by apply list_elem_of_In.
  - congruence.
  - congruence.
  - apply (chained_alone (table_entries t)); [done|by apply list_elem_of_In|done].
  - rewrite Eb. by split.
Qed.

(** ** Actions *)

(** The sector a decoded write names fits its type. *)
Definition addressed (action : StoredAction) : Prop := forall partition member begin_sector,
  action = StoredWrite partition member begin_sector -> u64 begin_sector.

(** No outcome says that nothing happened. *)
Lemma outcome_speaks action record s w o s' w' calls :
  run env (execute_action port scratch action record profile s) w = (Ok o, s', w', calls) ->
  out_disposition o = SemanticSuccess \/ out_disposition o = DispositionUnknown.
Proof.
  intros H. assert (forall receipt, disposition_of receipt = SemanticSuccess \/ disposition_of receipt = DispositionUnknown) as Hd.
  { intros receipt. unfold disposition_of. destruct (semantic_success receipt); auto. }
  destruct action; cbn [execute_action] in H; try done.
  - run_step H; [done|]. injection H as <- _ _ _. by left.
  - unfold validate_partition_table in H. apply run_lift_seq in H as [(e & _ & [=] & _)|(digest & _ & H)].
    destruct (negb _); [done|]. run_step H; [done|]. apply run_lift_seq in H as [(e & _ & [=] & _)|(u & _ & H)].
    apply run_get_seq, run_put_seq in H. injection H as <- _ _ _. by left.
  - unfold write_partition in H. apply run_get_seq in H. apply run_lift_seq in H as [(e & _ & [=] & _)|(entry & _ & H)].
    run_step H; [done|]. destruct a as [[v waited] parallel]. run_step H; [done|]. destruct (payload_differs _ _); [done|].
    injection H as <- _ _ _. apply Hd.
  - unfold readback_partition in H. do 2 apply run_lift_seq in H as [(e & _ & [=] & _)|(? & _ & H)]. apply run_get_seq in H.
    apply run_lift_seq in H as [(e & _ & [=] & _)|(? & _ & H)]. run_step H; [done|].
    destruct a as [[sector tail]|]; [injection H as <- _ _ _; by left|]. run_step H; [done|]. apply run_get_seq in H.
    injection H as <- _ _ _. by left.
  - unfold characterize_read_domain in H. run_step H; [done|]. destruct (uniform_byte a); [done|]. apply run_get_seq, run_put_seq, run_get_seq in H.
    do 2 apply run_lift_seq in H as [(e & _ & [=] & _)|(? & _ & H)]. run_step H; [done|]. run_step H; [done|].
    destruct a1 as [domain detail]. apply run_get_seq, run_put_seq in H. injection H as <- _ _ _. by left.
  - run_step H; [done|]. injection H as <- _ _ _. apply Hd.
Qed.

Lemma run_action past action record s w r s' w' calls d :
  session_holds P s -> session_shows past s -> addressed action ->
  run env (execute_action port scratch action record profile s) w = (r, s', w', calls) ->
  session_holds P s' /\ session_shows (past ++ told env calls w) s' /\
  let m := (device_after calls d).1 in
  (forall k, m k = d.1 k \/ allowed_sector (past ++ told env calls w) k) /\
  (is_write action = false -> m = d.1) /\
  (forall e f, r = Err e -> classify e = Some (BeforeAnyEffect f) -> m = d.1) /\
  (forall o partition member begin_sector, r = Ok o -> out_disposition o = SemanticSuccess ->
     action = StoredWrite partition member begin_sector -> exists image, P member image /\ holds_image m begin_sector image).
Proof.
  intros Hs Ht Ha H. split; [by eapply action_holds|]. split; [by eapply action_shows|]. cbn zeta.
  destruct (is_write action) eqn:Hw.
  - destruct action; try done. specialize (Ha _ _ _ eq_refl). cbn [execute_action] in H.
    destruct (run_write _ _ _ _ _ _ _ _ _ _ d Hs Ha H) as (Hrun & Herr & Hok). split; [|split; [done|split; [exact Herr|]]].
    + intros k. destruct (Hrun k) as [|(entry & image & Hadmit & Hi & Hk)]; [by left|right]. by eapply allowed_more, admitted_sector.
    + intros o p m b -> Hd [= <- <- <-]. by eapply Hok.
  - pose proof (keeps_action action record Hw _ _ _ _ _ _ H d) as ->. split; [by left|]. split; [done|].
    split; [done|]. intros o p m b _ _ ->. done.
Qed.
End Writes.

(** ** Read-back verdicts *)

(** The medium holds bytes of the range's length that hash to the digest, from a sector on. *)
Definition medium_hashes (m : Medium) (begin_sector : Z) (range : ByteRange) (content : Sha256Digest) : Prop :=
  exists b, zlen b = ceil_div (length range) 512 * 512 /\ sha256 (firstn (Z.to_nat (length range)) b) = content /\
    forall i, 0 <= i < ceil_div (length range) 512 -> sector_of b i = m (begin_sector + i).

(** A verdict is given only on bytes of the range's length with the expected hash. *)
Lemma classify_verified read range expected strength filler domain readable s r :
  classify_readback read range expected strength filler domain readable = Verified s r ->
  r = range /\ s = strength /\ zlen read = length range /\ sha256 read = expected.
Proof.
  unfold classify_readback. intros H.
  assert ((if negb (zlen read =? length range) then TypedSkip range OutsideReadDomain
     ("read face" +:+ "") else if bool_decide (sha256 read = expected) then Verified strength range else Failed range ContentMismatch) = Verified s r) as Hc.
  { destruct (Z.eqb_spec (zlen read) (length range)); cbn [negb] in *.
    - destruct (uniform_byte read); [|exact H]. destruct (is_declared_filler filler z); [|exact H]. destruct domain; [by destruct readable|done].
    - exfalso. destruct (uniform_byte read); [|done]. destruct (is_declared_filler filler z); [|done]. destruct domain; [by destruct readable|done]. }
  destruct (Z.eqb_spec (zlen read) (length range)); cbn [negb] in Hc; [|done]. case_bool_decide; [|done]. by injection Hc as <- <-.
Qed.

Lemma run_read_sectors pending m begin_sector sectors label s w b s' w' calls :
  serves (endpoint env) pending m -> u64 begin_sector -> u64 sectors ->
  run env (read_sectors port scratch begin_sector sectors label s) w = (Ok b, s', w', calls) ->
  zlen b = sectors * 512 /\ forall i, 0 <= i < sectors -> sector_of b i = m (begin_sector + i).
Proof.
  intros Hm Hb Hs H. unfold read_sectors in H. run_step H; [done|]. run_step H; [done|]. apply run_ret in H as ([= ->] & _).
  apply run_within in E0 as (_ & x & [] & E0 & Hx). destruct x; [|done]. injection Hx as ->.
  by apply (law_read_exact _ _ _ _ _ _ _ _ _ _ _ Henv Hm Hb Hs E0).
Qed.

Lemma run_readback pending m record partition begin_sector strength filler s w o s' w' calls verified range :
  serves (endpoint env) pending m -> u64 begin_sector -> declared_ok record ->
  run env (execute_action port scratch (StoredReadback partition begin_sector strength filler) record profile s) w = (Ok o, s', w', calls) ->
  out_verification o = Some (Verified verified range) ->
  declared_range record = Some range /\ exists content, action_content record = Some content /\ medium_hashes m begin_sector range content.
Proof.
  intros Hm Hb [Hrange _] H Hv. cbn [execute_action] in H. unfold readback_partition in H.
  apply run_lift_seq in H as [(e & _ & [=] & _)|(range' & Hr & H)]. destruct (declared_range record) as [r|] eqn:Hdr; [|done]. injection Hr as ->.
  apply run_lift_seq in H as [(e & _ & [=] & _)|(content & Hc & H)]. destruct (action_content record) as [c|] eqn:Hdc; [|done]. injection Hc as ->.
  apply run_get_seq in H. apply run_lift_seq in H as [(e & _ & [=] & _)|(domain & _ & H)]. run_step H; [done|].
  destruct a as [[sector tail]|]; [by injection H as <- _ _ _|]. run_step H; [done|]. apply run_get_seq in H. injection H as <- _ _ _.
  cbn [out_verification outcome] in Hv. injection Hv as Hv. apply classify_verified in Hv as (-> & _ & Hlen & Hhash).
  specialize (Hrange _ eq_refl). pose proof (ceil_div_bounds (length range') 512 ltac:(lia) ltac:(zlia)) as Hceil.
  change (Rockusb.ceil_div (length range') ROCKUSB_SECTOR_BYTES) with (ceil_div (length range') 512) in *.
  assert (u64 (ceil_div (length range') 512)) as Hs by zlia.
  destruct (run_read_sectors _ _ _ _ _ _ _ _ _ _ _ Hm Hb Hs E0) as [Hl Hsec].
  split; [done|]. exists content. split; [done|]. exists a. split; [done|]. split; [|exact Hsec].
  by rewrite Z.min_l in Hhash by lia.
Qed.
End Sound.

(** ** What the checks leave out *)

(** Whether the start of a range was demonstrated readable decides nothing. *)
Lemma readable_makes_no_difference read range expected strength filler domain :
  classify_readback read range expected strength filler domain true = classify_readback read range expected strength filler domain false.
Proof. unfold classify_readback. repeat case_match; congruence. Qed.

(** A read through a window is judged by its hash, where the core's classification skips. *)
Example windowed_read_is_judged declaration observation :
  classify_readback [1; 2] (mkRange 0 2) (sha256 [1; 2]) FullHash None (Windowed "w") false = Verified FullHash (mkRange 0 2) /\
  classify_readback [1; 3] (mkRange 0 2) (sha256 [1; 2]) FullHash None (Windowed "w") false = Failed (mkRange 0 2) ContentMismatch /\
  classify_verification (mkRange 0 2) (Windowed "w") declaration observation = TypedSkip (mkRange 0 2) OutsideReadDomain "w".
Proof. split; [vm_compute; reflexivity|]. split; [vm_compute; reflexivity|]. reflexivity. Qed.

(** A profile of one target, and a device's table that has it last. *)
Definition one_target (protected : list OpaqueId) : DeviceProfile :=
  mkDeviceProfile PROFILE_SCHEMA_VERSION (mkId "board") (mkVersion 1 0 0) ["Board"%string]
    (mkSoc (mkId "vendor") (mkId "family")) (Allow ["a"%string]) [] [] [] [] [] []
    (mkStorage (mkId "emmc") (Some 512)) (mkReadDomain FullDisk ReadCharacterizeAtRuntime (Some 204))
    [mkTarget (mkId "boot") 1 64 (Some "boot.img"%string) (mkVerification FullHash (mkFallback false true))]
    protected (mkImpact Preserved Overwritten Preserved Preserved) (mkDeclaration false (mkVersion 0 0 0) [] []) [].
Definition one_partition : PartitionTableFact := mkTable "rk29xxnand" 512 [mkEntry 0 "boot" 64 None None RemainderGrow].

(** An image of any size is admitted to the last partition of a device. *)
Example last_partition_is_unbounded size digest :
  let s := stage (set_observed_table (session_new []) one_partition) "boot.img" (mkStaged "boot.img" "/boot.img" size digest) in
  admit_write s (one_target []) "boot" "boot.img" 64 = Ok (mkEntry 0 "boot" 64 None None RemainderGrow).
Proof. reflexivity. Qed.

(** A device without the protected partition conforms. *)
Example missing_protection_conforms : check_conformance one_partition (one_target [mkId "misc"]) = Ok tt.
Proof. reflexivity. Qed.
