(* ===== verification/DispatchSound.v ===== *)
(** * What a dispatch does to the device (cmd/arkforged/src/dispatch.rs)

    Running a step's actions over any port that keeps its contract, from any state of the
    dispatcher in which the job's session holds the images of its plan. *)

From stdpp Require Import gmap.
From S2P Require Import Prelude Interaction Sha256 Digest Authority Identity Effect FlashStep Projection Superseding.
From S2P Require Import Plan Manifest Verification Profile Rockchip Rockusb RockusbSound Port PortSound Execute Dispatch ExecuteSound.

(** ** The images of a plan *)

(** The size and digest declared for a member by the writes of a plan. *)
Definition plan_image (plan : list PrivateActionRecord) (profile : DeviceProfile) (member : string) (i : StagedImage) : Prop :=
  exists images e, expected_images plan profile = Ok images /\ bt_get member images = Some e /\
    staged_size i = expected_size e /\ staged_sha256 i = expected_sha256 e.

Definition images_ok (images : btree ExpectedImage) : Prop :=
  bt_ok images /\ forall member e, bt_get member images = Some e -> u64 (expected_size e) /\ digest_ok (expected_sha256 e).

(** A write of the plan, and the image declared for it. *)
Definition declares (record : PrivateActionRecord) (member : string) (e : ExpectedImage) : Prop :=
  exists partition begin_sector range content, stored_action_decode record = Ok (StoredWrite partition member begin_sector) /\
    declared_range record = Some range /\ action_content record = Some content /\ e = mkExpected (length range) content.

Lemma expect_image_spec profile record i i' :
  expect_image profile record i = Ok i' ->
  (expected i' = expected i /\ (forall member e, ~ declares record member e)) \/
  (exists member e, declares record member e /\ expected i' = bt_insert member e (expected i) /\
     forall prior, bt_get member (expected i) = Some prior -> prior = e).
Proof.
  unfold expect_image. intros H. destruct (stored_action_decode record) as [action|] eqn:Hd; [cbn [map_err] in H|done].
  assert ((forall p m b, action <> StoredWrite p m b) -> forall member e, ~ declares record member e) as Hnone.
  { intros Hn member e (p & b & _ & _ & E & _). rewrite Hd in E. injection E as ->. by eapply Hn. }
  destruct action; try (injection H as <-; left; split; [done|]; by apply Hnone).
  destruct (declared_range record) as [range|] eqn:Hr; [|done]. destruct (action_content record) as [content|] eqn:Hc; [|done].
  cbn [ok_or] in H. right. exists member, (mkExpected (length range) content). split; [by exists partition, begin_sector, range, content|].
  destruct (bt_get member (expected i)) as [prior|] eqn:Hp.
  - case_bool_decide; [|done]. injection H as <-. split; [done|]. by intros ? [= <-].
  - injection H as <-. by split.
Qed.

Lemma bt_get_insert_case {V} k k' (v : V) m : bt_get k' (bt_insert k v m) = if decide (k = k') then Some v else bt_get k' m.
Proof. case_decide; [subst; apply bt_get_insert_eq|by apply bt_get_insert_ne]. Qed.

(** What the writes read so far declare is what is expected, and nothing else. *)
Lemma expect_images_spec profile records i i' :
  Forall declared_ok records -> images_ok (expected i) -> expect_images profile records i = Ok i' ->
  images_ok (expected i') /\
  (forall member e, bt_get member (expected i) = Some e -> bt_get member (expected i') = Some e) /\
  (forall record member e, record ∈ records -> declares record member e -> bt_get member (expected i') = Some e).
Proof.
  intros Hall. revert i. induction Hall as [|record records [Hrange Hcontent] _ IH]; intros i Hi H; cbn [expect_images] in H.
  { injection H as <-. split; [done|]. split; [done|]. by intros ? ? ? ?%elem_of_nil. }
  destruct (expect_image profile record i) as [i1|] eqn:E; [|done]. apply expect_image_spec in E.
  assert (images_ok (expected i1) /\ (forall member e, bt_get member (expected i) = Some e -> bt_get member (expected i1) = Some e) /\
    (forall member e, declares record member e -> bt_get member (expected i1) = Some e)) as (Hi1 & Hkeep & Hthis).
  { destruct E as [[-> Hnone]|(member & e & Hdecl & -> & Hprior)].
    - split; [done|]. split; [done|]. intros member e Hd. by destruct (Hnone _ _ Hd).
    - assert (u64 (expected_size e) /\ digest_ok (expected_sha256 e)) as He.
      { destruct Hdecl as (p & b & range & content & _ & Hr & Hc & ->). split; [by apply Hrange|by apply Hcontent]. }
      split; [split; [apply bt_insert_ok, Hi|]|split].
      + intros m x. rewrite bt_get_insert_case. case_decide; [by intros [= <-]|apply Hi].
      + intros m x Hm. rewrite bt_get_insert_case. case_decide; [subst; by rewrite (Hprior _ Hm)|done].
      + intros m x (p & b & range & content & Hd & Hr & Hc & ->). destruct Hdecl as (p' & b' & range' & content' & Hd' & Hr' & Hc' & ->).
        rewrite Hd in Hd'. injection Hd' as -> -> ->. rewrite Hr in Hr'. injection Hr' as ->. rewrite Hc in Hc'. injection Hc' as ->.
        apply bt_get_insert_eq. }
  destruct (IH i1 Hi1 H) as (Hok & Hkeep' & Hrest). split; [done|]. split; [auto|].
  intros r member e [->|Hin]%elem_of_cons Hd; [by apply Hkeep', Hthis|by eapply Hrest].
Qed.

Lemma expected_images_spec plan profile images :
  Forall declared_ok plan -> expected_images plan profile = Ok images ->
  images_ok images /\ (forall record member e, record ∈ plan -> declares record member e -> bt_get member images = Some e).
Proof.
  intros Hall H. unfold expected_images in H. destruct (expect_images _ _ _) as [i|] eqn:E; [|done].
  assert (images_ok (expected (mkInputs [] (String.eqb (as_str (device_id profile)) "org.openharmony.dayu200") 0))) as H0 by (split; [constructor|done]).
  destruct (expect_images_spec _ _ _ _ Hall H0 E) as (Hok & _ & Hd). case_match; [done|]. injection H as <-. by split.
Qed.

(** An image of the plan fits its types, and a write's image is the one declared for it. *)
Lemma plan_image_ok plan profile member i : Forall declared_ok plan -> plan_image plan profile member i -> staged_ok i.
Proof.
  intros Hall (images & e & He & Hm & Hs & Hd). destruct (expected_images_spec _ _ _ Hall He) as [[_ Hok] _].
  unfold staged_ok. rewrite Hs, Hd. by eapply Hok.
Qed.

Lemma plan_image_declared plan profile member i record e :
  Forall declared_ok plan -> plan_image plan profile member i -> record ∈ plan -> declares record member e ->
  staged_size i = expected_size e /\ staged_sha256 i = expected_sha256 e.
Proof.
  intros Hall (images & e' & He & Hm & Hs & Hd) Hr Hdecl. destruct (expected_images_spec _ _ _ Hall He) as [_ Hok].
  rewrite (Hok _ _ _ Hr Hdecl) in Hm. injection Hm as <-. done.
Qed.

Lemma bt_insert_Forall {V} (Q : string * V -> Prop) k v (m : btree V) : Forall Q m -> Q (k, v) -> Forall Q (bt_insert k v m).
Proof.
  intros Hm Hq. induction Hm as [|[k' v'] m Hk Hm IH]; cbn [bt_insert]; [by repeat constructor|].
  destruct (str_compare k k'); constructor; done || (by constructor).
Qed.

(** ** Sessions of jobs *)

Section Jobs.
Context (port : RockUsbPort) {Hport : PortLaws port}.
Context {W : Type} (env : forall c, W -> reply c * W) (Henv : env_ok env).
Context (work_root : string) (display : DispatchFailure -> string) (display_fault : ReconcileFault -> string).

(** Every job has its plan and its profile. *)
Context (plan_of : string -> list PrivateActionRecord) (profile_of : string -> DeviceProfile).
Hypothesis Hplans : forall job, Forall declared_ok (plan_of job).

Abbreviation image_of job := (plan_image (plan_of job) (profile_of job)).

(** [past] are the calls made so far, with the environments they were made in. *)
Implicit Types (past : list (W * host_call)).

Definition ready past (job : string) (s : ExecutionSession) : Prop :=
  session_holds (image_of job) s /\ session_shows port env (profile_of job) past s.

(** The sessions hold images of their jobs' plans, and tables that the device showed and that
    conform to their profiles. *)
Definition all_ready past (d : Dispatcher) : Prop := forall job, ready past job (session_of d job).

Lemma new_ready past job : ready past job (session_new []).
Proof. split; [split; [constructor|by split]|done]. Qed.

Lemma start_ready past : all_ready past dispatcher_new.
Proof. intros job. apply new_ready. Qed.

Lemma all_ready_more past more d : all_ready past d -> all_ready (past ++ more) d.
Proof. intros H job. split; [apply H|]. apply shows_more, H. Qed.

Lemma image_ok job member i : image_of job member i -> staged_ok i.
Proof. by apply plan_image_ok. Qed.

Lemma image_size job member i j : image_of job member i -> image_of job member j -> staged_size i = staged_size j.
Proof.
  intros (images & e & He & Hm & Hs & _) (images' & e' & He' & Hm' & Hs' & _). rewrite He in He'. injection He' as <-.
  rewrite Hm in Hm'. injection Hm' as <-. congruence.
Qed.

(** A new session for one job keeps the others. *)
Lemma insert_ready past d job s :
  all_ready past d -> ready past job s -> all_ready past (with_sessions d (bt_insert job s (sessions d))).
Proof.
  intros Hd Hs j. unfold session_of. cbn [sessions with_sessions]. rewrite bt_get_insert_case. case_decide; [by subst|apply Hd].
Qed.

Lemma run_in_session {A} job (m : exec A) d w r d' w' calls :
  run env (in_session job m d) w = (r, d', w', calls) ->
  exists x s', run env (m (session_of d job)) w = (x, s', w', calls) /\ r = Ok x /\
    d' = with_sessions d (bt_insert job s' (sessions d)).
Proof.
  unfold in_session. rewrite run_bind. destruct (run env (m (session_of d job)) w) as [[[x s'] w1] l]. cbn [run fst snd].
  rewrite app_nil_r. intros [= <- <- <- <-]. by exists x, s'.
Qed.

Lemma keeps_in_session {A} job (m : exec A) : keeps_medium env m -> keeps_medium env (in_session job m).
Proof. intros Hm d w r d' w' calls H dev. apply run_in_session in H as (x & s' & H & _). by eapply Hm. Qed.

(** ** Staging *)

Lemma keeps_load directory images loaded total : keeps_medium env (load_images directory images loaded total).
Proof.
  revert loaded total. induction images as [|[name required] images IH]; intros loaded total; cbn [load_images]; unfold cache_io; keep.
Qed.

Lemma keeps_workers images : keeps_medium env (start_workers images).
Proof.
  induction images as [|[member image] images IH]; cbn [start_workers]; keep. apply keeps_revalidate.
Qed.

Lemma keeps_seal report images : keeps_medium env (seal_members report images).
Proof. induction images as [|[name required] images IH]; cbn [seal_members]; unfold cache_io; keep. Qed.

Lemma keeps_materialize artifact images : keeps_medium env (materialize_staging_cache work_root artifact images).
Proof.
  unfold materialize_staging_cache, create_cache_directory, build_cache, publish_cache, load_staging_cache, cache_io.
  keep; first [apply keeps_seal | apply keeps_load].
Qed.

Lemma keeps_stage_job job artifact plan profile mode : keeps_medium env (stage_job work_root job artifact plan profile mode).
Proof.
  unfold stage_job. keep; [apply keeps_materialize|]. apply keeps_in_session.
  unfold stage_images, begin_parallel_staged_validation. keep. apply keeps_workers.
Qed.

(** What is loaded from the cache is what was expected. *)
Lemma run_load directory images loaded total d w r d' w' calls (Q : string * StagedImage -> Prop) :
  (forall name path required, (name, required) ∈ images ->
     Q (name, mkStaged name path (expected_size required) (expected_sha256 required))) ->
  Forall Q loaded -> run env (load_images directory images loaded total d) w = (r, d', w', calls) ->
  d' = d /\ forall use, r = Ok use -> Forall Q use.1.
Proof.
  revert loaded total w calls. induction images as [|[name required] images IH]; intros loaded total w calls Hq Hl H; cbn [load_images] in H.
  { injection H as <- <- _ _. split; [done|]. by intros use [= <-]. }
  destruct (negb (plain_name name)); [by injection H as <- <- _ _|]. unfold cache_io in H.
  assert (leads env eq (try (fun e => Some (BeforeAnyEffect (CacheIo e))) (op_call (SymlinkMetadata (directory +:+ "/" +:+ name)))) d) as Hsame
    by lead.
  run_step H; apply Hsame in E as <-; [by subst r|].
  destruct (negb a.1 || _); [by injection H as <- <- _ _|]. destruct (negb (Z.land _ _ =? 0)); [by injection H as <- <- _ _|].
  apply run_lift_seq in H as [(e & _ & -> & -> & _)|(total' & _ & H)]; [done|].
  eapply IH; [|..|exact H].
  - intros n p q Hin. apply Hq. by right.
  - apply bt_insert_Forall; [done|]. apply Hq. by left.
Qed.

Lemma stage_all_holds past job (images : btree StagedImage) s :
  Forall (fun e => image_of job e.1 e.2) images -> ready past job s ->
  ready past job (fold_left (fun s entry => stage s entry.1 entry.2) images s).
Proof.
  intros Hall. revert s. induction Hall as [|[member image] images Hi _ IH]; intros s Hs; [done|]. cbn [fold_left fst snd]. apply IH.
  destruct Hs as [(Hok & Hst & Hv) Ht]. split; [|done]. split; [done|]. split; [by apply bt_insert_Forall|done].
Qed.

Lemma run_workers past job images s w r s' w' calls :
  Forall (fun e => image_of job e.1 e.2) images -> ready past job s ->
  run env (start_workers images s) w = (r, s', w', calls) -> ready past job s'.
Proof.
  intros Hall. revert s w calls. induction Hall as [|[member image] images Hi _ IH]; intros s w calls Hs H; cbn [start_workers] in H.
  { by injection H as _ <- _ _. }
  apply run_get_seq in H. destruct (bt_get member (validating s)); [by eapply IH|].
  run_step H; apply run_try in E as (x & E & Hx); apply run_within in E as (-> & y & inner & E & Hy); [done|]. injection Hx as ->.
  apply run_get_seq, run_put_seq in H. eapply IH; [|exact H].
  destruct Hs as [(Hok & Hst & Hv) Ht]. split; [|done]. split; [by apply bt_insert_ok|]. split; [done|].
  intros m v. cbn [validating with_validating]. rewrite bt_get_insert_case. case_decide; [subst m|by apply Hv].
  intros [= ->]. destruct y; [|done]. injection Hy as ->. apply (run_revalidate env) in E as ->. done.
Qed.

Lemma leads_load directory images loaded total d : leads env eq (load_images directory images loaded total) d.
Proof.
  intros w r d' w' calls H. eapply (run_load _ _ _ _ _ _ _ _ _ _ (fun _ => True)) in H as [-> _]; [done..|].
  by apply Forall_true.
Qed.

Lemma leads_seal report images d : leads env eq (seal_members report images) d.
Proof. revert d. induction images as [|[name required] images IH]; intros d; cbn [seal_members]; unfold cache_io; lead; apply IH. Qed.

Lemma leads_materialize artifact images d : leads env eq (materialize_staging_cache work_root artifact images) d.
Proof.
  unfold materialize_staging_cache, create_cache_directory, build_cache, publish_cache, load_staging_cache, cache_io.
  lead; first [apply leads_seal | apply leads_load].
Qed.

(** What the cache gives are images of the plan, whether it was there or has just been built. *)
Lemma run_load_cache job directory images hit d w use d' w' calls :
  expected_images (plan_of job) (profile_of job) = Ok images ->
  run env (load_staging_cache directory images hit d) w = (Ok use, d', w', calls) ->
  Forall (fun e => image_of job e.1 e.2) (use_images use).
Proof.
  intros Hi H. unfold load_staging_cache in H. call_step H.
  destruct (negb _); [done|]. run_step H; [done|]. apply run_lift_seq in H as [(e & _ & [=] & _)|(observed & _ & H)].
  destruct (negb _); [done|]. run_step H; [done|]. destruct a0 as [loaded total]. apply run_ret in H as ([= ->] & _). cbn [use_images].
  eapply run_load in E0 as [_ Hall]; [by apply (Hall (loaded, total))| |constructor].
  intros name path required Hin. exists images, required. split; [done|]. split; [|done].
  destruct (expected_images_spec _ _ _ (Hplans job) Hi) as [[Hok _] _]. by apply bt_get_In, list_elem_of_In.
Qed.

Lemma run_materialize job artifact images d w use d' w' calls :
  expected_images (plan_of job) (profile_of job) = Ok images ->
  run env (materialize_staging_cache work_root artifact images d) w = (Ok use, d', w', calls) ->
  Forall (fun e => image_of job e.1 e.2) (use_images use).
Proof.
  intros Hi H. unfold materialize_staging_cache in H. run_step H; [done|]. call_step H.
  destruct (env _ _).1; [by eapply run_load_cache|]. do 2 call_step H. do 3 (run_step H; [done|]).
  destruct a2; [|by call_step H]. run_step H; [done|]. by eapply run_load_cache.
Qed.

Lemma run_stage_job past job artifact mode d w r d' w' calls :
  all_ready past d -> run env (stage_job work_root job artifact (plan_of job) (profile_of job) mode d) w = (r, d', w', calls) ->
  all_ready past d'.
Proof.
  intros Hd H. unfold stage_job in H. apply run_get_seq in H. destruct (is_staged d job); [by injection H as _ <- _ _|].
  apply run_lift_seq in H as [(e & _ & _ & -> & _)|(images & Hi & H)]; [done|].
  run_step H; pose proof (leads_materialize _ _ _ _ _ _ _ _ E) as <-; [done|].
  pose proof (run_materialize _ _ _ _ _ _ _ _ _ Hi E) as Hall. run_step H; apply run_in_session in E0 as (x & s' & E0 & Hx & ->).
  - done.
  - assert (ready past job s') as Hs'.
    { unfold stage_images, begin_parallel_staged_validation in E0. apply run_get_seq, run_put_seq, run_get_seq in E0.
      pose proof (stage_all_holds past job _ _ Hall (Hd job)) as Hs. eapply run_workers; [|exact Hs|exact E0]. apply Hs. }
    pose proof (insert_ready _ _ _ _ Hd Hs') as Hd'.
    apply run_lift_seq in H as [(e & _ & _ & -> & _)|(u & _ & H)]; [done|]. apply run_get_seq, run_put_seq in H. call_step H.
    injection H as _ <- _ _. intros j. apply Hd'.
Qed.

(** ** Running the actions of a step *)

Abbreviation allowed past job := (allowed_sector port env (profile_of job) (image_of job) past).

(** Every sector is as it was, or allowed to the job. *)
Definition confined past (job : string) (calls : list host_call) : Prop := forall dev k,
  (device_after calls dev).1 k = dev.1 k \/ allowed past job k.

Lemma confined_app past job l k : confined past job l -> confined past job k -> confined past job (l ++ k).
Proof. intros Hl Hk dev x. rewrite device_app. destruct (Hk (device_after l dev) x) as [-> |]; [apply Hl|by right]. Qed.

Lemma kept_confined past job calls : (forall dev, (device_after calls dev).1 = dev.1) -> confined past job calls.
Proof. intros H dev k. rewrite H. by left. Qed.

Lemma confined_more past more job calls : confined past job calls -> confined (past ++ more) job calls.
Proof. intros H dev k. destruct (H dev k); [by left|right; by apply allowed_more]. Qed.

Ltac confine := repeat apply confined_app; first [assumption | apply confined_more; assumption | apply kept_confined; done].

Definition addressed_all (work : list (StoredAction * PrivateActionRecord)) : Prop := Forall (fun x => addressed x.1) work.

(** The end of a run of actions. *)
Definition ends_well (job : string) (work : list (StoredAction * PrivateActionRecord)) (before : option ActionOutcome) (m m' : Medium)
    (o : option ActionOutcome) : Prop :=
  match list.last work with
  | None => o = before /\ m' = m
  | Some (action, record) => exists out, o = Some out /\ out_disposition out <> ConfirmedNoEffect /\
      (out_disposition out = SemanticSuccess -> forall partition member begin_sector,
         action = StoredWrite partition member begin_sector ->
         exists image, image_of job member image /\ holds_image m' begin_sector image)
  end.

Lemma run_all past job scratch work before d w r d' w' calls :
  all_ready past d -> addressed_all work ->
  run env (execute_all port job scratch (profile_of job) work before d) w = (r, d', w', calls) ->
  all_ready (past ++ told env calls w) d' /\ confined (past ++ told env calls w) job calls /\
  (forall f, r = Err (Some (BeforeAnyEffect f)) -> Forall (fun x => is_write x.1 = false) (removelast work) ->
     forall dev, (device_after calls dev).1 = dev.1) /\
  (forall o, r = Ok o -> forall dev, ends_well job work before dev.1 (device_after calls dev).1 o).
Proof.
  revert past before d w calls. induction work as [|[action record] work IH]; intros past before d w calls Hd Ha H; cbn [execute_all] in H.
  { injection H as <- <- _ <-. split; [by apply all_ready_more|]. split; [by apply kept_confined|]. split; [done|]. by intros o [= <-] dev. }
  apply Forall_cons in Ha as [Haction Ha]. cbn [fst] in Haction.
  run_step H; apply run_in_session in E as (x & s' & E & Hx & ->); [done|]. injection Hx as ->.
  assert (forall dev, _) as Hrun
    by (intros dev; exact (run_action _ env Henv scratch (profile_of job) (image_of job) (image_ok job) (image_size job) _ _ _ _ _ _ _ _ _ dev
                             (proj1 (Hd job)) (proj2 (Hd job)) Haction E)).
  assert (all_ready (past ++ told env c w) (with_sessions d (bt_insert job s' (sessions d)))) as Hd'.
  { apply insert_ready; [by apply all_ready_more|]. destruct (Hrun ((fun _ => []), None)) as (? & ? & _). by split. }
  assert (confined (past ++ told env c w) job c) as Hc by (intros dev; apply Hrun).
  apply run_lift_seq in H as [(e & He & -> & -> & -> & ->)|(o1 & Ho & H)].
  { destruct x as [|e']; [done|]. injection He as <-. rewrite app_nil_r. split; [done|]. split; [done|]. split; [|done].
    intros f [= Hf] _ dev. destruct (Hrun dev) as (_ & _ & _ & _ & Herr & _). by eapply Herr. }
  destruct x as [o1'|]; [|done]. injection Ho as ->. destruct (IH _ _ _ _ _ Hd' Ha H) as (Hr & Hcc & Hbefore & Hok).
  rewrite (told_run env _ _ _ _ _ _ E), app_assoc. split; [done|]. split; [apply confined_app; [by apply confined_more|done]|]. split.
  - intros f -> Hw dev. destruct work as [|y work].
    { by injection H as [=]. }
    cbn [removelast] in Hw. apply Forall_cons in Hw as [Hw1 Hw]. destruct (Hrun (dev)) as (_ & _ & _ & Hkeep & _).
    rewrite device_app, (Hbefore f eq_refl Hw). by apply Hkeep.
  - intros o -> dev. specialize (Hok o eq_refl (device_after c dev)). rewrite device_app. unfold ends_well in *.
    destruct work as [|y work].
    2:{ change (list.last ((action, record) :: y :: work)) with (list.last (y :: work)).
        destruct (list.last (y :: work)) as [[a1 r1]|] eqn:Hl; [exact Hok|by apply last_None in Hl]. }
    cbn [list.last] in *.
    destruct Hok as [-> ->]. exists o1. split; [done|]. pose proof E as Hspeak. apply outcome_speaks in Hspeak as [Hs|Hs]; rewrite Hs.
    + split; [done|]. intros _ p m b ->. destruct (Hrun dev) as (_ & _ & _ & _ & _ & Hland). by eapply Hland.
    + by split.
Qed.

(** ** Running a step *)

(** Work of a job: its plan, its profile, and actions whose sectors fit their type. *)
Definition work_ok (work : PendingDispatch) : Prop :=
  plan_actions work = plan_of (job_id work) /\ work_profile work = profile_of (job_id work) /\
  forall record action, record ∈ actions work -> stored_action_decode record = Ok action -> addressed action.

(** Every action but the last one reads. *)
Definition writes_last (work : PendingDispatch) : Prop := forall record action,
  record ∈ removelast (actions work) -> stored_action_decode record = Ok action -> is_write action = false.

Lemma decode_actions_spec records decoded :
  decode_actions records = Ok decoded -> Forall2 (fun action record => stored_action_decode record = Ok action) decoded records.
Proof.
  revert decoded. induction records as [|record records IH]; intros decoded H; unfold decode_actions in H; cbn [map collect_results] in H.
  { by injection H as <-. }
  destruct (stored_action_decode record) as [action|] eqn:E; cbn [map_err] in H; [|done].
  destruct (collect_results _) as [rest|] eqn:Er; [|done]. injection H as <-. constructor; [done|]. by apply IH.
Qed.

Lemma combine_removelast {A B} (l : list A) (k : list B) : List.length l = List.length k -> removelast (combine l k) = combine (removelast l) (removelast k).
Proof.
  revert k. induction l as [|x l IH]; intros [|y k] H; try done. destruct l as [|x' l], k as [|y' k]; try done.
  change (removelast ((x, y) :: combine (x' :: l) (y' :: k)) = (x, y) :: combine (removelast (x' :: l)) (removelast (y' :: k))).
  rewrite <- IH by (cbn in *; lia). done.
Qed.

Lemma combine_last {A B} (R : A -> B -> Prop) l k y : Forall2 R l k -> list.last k = Some y -> exists x, list.last (combine l k) = Some (x, y) /\ R x y.
Proof.
  induction 1 as [|x0 y0 l k H0 H IH]; [done|]. destruct H as [|x1 y1 l k H1 H]; [intros [= <-]; by exists x0|]. exact IH.
Qed.

Lemma combine_Forall {A B} (R : A -> B -> Prop) (Q : A -> B -> Prop) (S : B -> Prop) l k :
  Forall2 R l k -> (forall y, y ∈ k -> S y) -> (forall x y, S y -> R x y -> Q x y) -> Forall (fun e => Q e.1 e.2) (combine l k).
Proof.
  induction 1 as [|x y l k Hxy _ IH]; intros Hs Hq; [constructor|]. cbn [combine]. constructor.
  - apply Hq; [apply Hs; by left|done].
  - apply IH; [|done]. intros z Hz. apply Hs. by right.
Qed.

Lemma Forall2_removelast {A B} (R : A -> B -> Prop) l k : Forall2 R l k -> Forall2 R (removelast l) (removelast k).
Proof.
  induction 1 as [|x y l k Hxy H IH]; [constructor|]. destruct H as [|x' y' l k H1 H2]; [constructor|].
  change (Forall2 R (x :: removelast (x' :: l)) (y :: removelast (y' :: k))). by constructor.
Qed.

Lemma keeps_staging work writes : keeps_medium env (staging_of work_root work writes).
Proof. unfold staging_of. keep. apply keeps_stage_job. Qed.

Lemma run_staging past work writes d w r d' w' calls :
  work_ok work -> all_ready past d -> run env (staging_of work_root work writes d) w = (r, d', w', calls) -> all_ready past d'.
Proof.
  intros (Hplan & Hprofile & _) Hd H. unfold staging_of in H. destruct (negb writes); [by injection H as _ <- _ _|]. apply run_get_seq in H.
  destruct (bt_get _ (preparation_failures d)); [apply run_put_seq in H; injection H as _ <- _ _; intros j; apply Hd|].
  destruct (is_staged d _); [apply run_put_seq in H; injection H as _ <- _ _; intros j; apply Hd|].
  rewrite Hplan, Hprofile in H. run_step H; [by eapply run_stage_job|]. apply run_ret in H as (_ & -> & _). by eapply run_stage_job.
Qed.

Lemma run_try_run past work d w r d' w' calls :
  work_ok work -> all_ready past d -> run env (try_run work_root port work d) w = (r, d', w', calls) ->
  all_ready (past ++ told env calls w) d' /\ confined (past ++ told env calls w) (job_id work) calls /\
  (forall f, r = Err (Some (BeforeAnyEffect f)) -> writes_last work -> forall dev, (device_after calls dev).1 = dev.1) /\
  (forall out, r = Ok out -> disposition out <> ConfirmedNoEffect /\
     (disposition out = SemanticSuccess -> forall record partition member begin_sector dev,
        list.last (actions work) = Some record -> stored_action_decode record = Ok (StoredWrite partition member begin_sector) ->
        exists image, image_of (job_id work) member image /\ holds_image (device_after calls dev).1 begin_sector image)).
Proof.
  intros Hwork Hd H. unfold try_run in H.
  assert (all_ready (past ++ told env [] w) d /\ confined (past ++ told env [] w) (job_id work) [] /\
    (forall f, r = Err (Some (BeforeAnyEffect f)) -> writes_last work -> forall dev, (device_after [] dev).1 = dev.1)) as H0
    by (split_and!; [by apply all_ready_more|by apply kept_confined|done]).
  apply run_lift_seq in H as [(e & _ & -> & -> & -> & ->)|(decoded & Hdec & H)]; [by destruct H0 as (? & ? & ?); split_and!|].
  clear H0. apply decode_actions_spec in Hdec. pose proof Hwork as (_ & Hprofile & Haddr). rewrite Hprofile in H.
  run_step H; pose proof (run_staging _ _ _ _ _ _ _ _ _ Hwork Hd E) as Hd1; pose proof (keeps_staging _ _ _ _ _ _ _ _ E) as Hk1.
  { subst r. split; [by apply all_ready_more|]. split; [by apply kept_confined|]. by split. }
  assert (leads env eq (try (fun e => Some (BeforeAnyEffect (ScratchIo e)))
    (op_call (CreateDirAll (work_root +:+ "/" +:+ job_id work +:+ "/scratch")))) t) as Hsame by lead.
  assert (keeps_medium env (S := Dispatcher) (try (fun e => Some (BeforeAnyEffect (ScratchIo e)))
    (op_call (CreateDirAll (work_root +:+ "/" +:+ job_id work +:+ "/scratch"))))) as Hk by keep.
  run_step H; pose proof (Hk _ _ _ _ _ _ E0) as Hk2; pose proof (fun more => told_run env _ _ _ _ _ more E0) as Ht2; apply Hsame in E0 as <-.
  { subst r. assert (forall dev, (device_after (c ++ c0) dev).1 = dev.1) as Hk3 by (intros dev; by rewrite device_app, Hk2).
    split; [by apply all_ready_more|]. split; [by apply kept_confined|]. by split. }
  assert (addressed_all (combine decoded (actions work))) as Ha.
  { apply (combine_Forall (fun action record => stored_action_decode record = Ok action) (fun action _ => addressed action) (fun y => y ∈ actions work));
      [done|done|]. intros x y Hy Hx. by eapply Haddr. }
  assert (writes_last work -> Forall (fun x => is_write x.1 = false) (removelast (combine decoded (actions work)))) as Hone.
  { intros Ho. rewrite combine_removelast by by eapply Forall2_length.
    apply (combine_Forall (fun action record => stored_action_decode record = Ok action) (fun action _ => is_write action = false)
             (fun y => y ∈ removelast (actions work))); [by apply Forall2_removelast|done|]. intros x y Hy Hx. by eapply Ho. }
  assert (forall more, told env (c ++ c1 ++ more) w = (told env c w ++ told env c1 st) ++ told env more st0) as Hsplit
    by (intros more; by rewrite (told_run env _ _ _ _ _ _ E), Ht2, app_assoc).
  apply (all_ready_more _ (told env c w ++ told env c1 st)) in Hd1. rewrite Hsplit, app_assoc.
  run_step H; (destruct (run_all _ _ _ _ _ _ _ _ _ _ _ Hd1 Ha E0) as (Hd3 & Hc3 & Hbefore & Hends)).
  { subst r. split; [done|]. split; [confine|]. split; [|done].
    intros f [= ->] Ho dev. rewrite !device_app, (Hbefore f eq_refl (Hone Ho)), Hk2. apply Hk1. }
  specialize (Hends _ eq_refl). rewrite (told_run env _ _ _ _ _ _ E0), app_assoc.
  apply run_lift_seq in H as [(e & He & -> & -> & -> & ->)|(out & Hout & H)].
  { split; [by apply all_ready_more|]. split; [confine|]. split; [|done].
    intros f [= ->] _ dev. rewrite app_nil_r, !device_app. 
    match goal with |- (device_after _ ?d2).1 = _ => specialize (Hends d2) end. unfold ends_well in Hends.
    destruct (list.last _) as [[action record]|]; [destruct Hends as (? & -> & _); done|]. destruct Hends as [_ ->]. rewrite Hk2. apply Hk1. }
  assert (a1 = Some out) as -> by (by destruct a1; [injection Hout as ->|]).
  assert (d' = t0 /\ (forall dev, (device_after c3 dev).1 = dev.1) /\
    exists facts, r = Ok (mkDispatchOutcome (out_disposition out) facts (out_evidence out) (out_verification out))) as (-> & Hk4 & facts & ->).
  { clear -H. destruct a.
    - run_step H; call_step E; [done|]. injection E as _ <- _ <-. injection H as <- <- _ <-. by eauto.
    - run_step H; [done|]. injection E as _ <- _ <-. injection H as <- <- _ <-. by eauto. }
  split; [by apply all_ready_more|]. split; [confine|]. split; [done|]. intros o [= <-]. cbn [disposition].
  split.
  - specialize (Hends ((fun _ => []), None)). unfold ends_well in Hends.
    destruct (list.last _) as [[action record]|]; [destruct Hends as (x & [= <-] & Hne & _); exact Hne|by destruct Hends].
  - intros Hs record partition member begin_sector dev Hl Hdecode.
    destruct (combine_last _ _ _ _ Hdec Hl) as (action & Hlast & Haction). rewrite Hdecode in Haction. injection Haction as <-.
    specialize (Hends (device_after c1 (device_after c dev))). unfold ends_well in Hends. rewrite Hlast in Hends.
    destruct Hends as (x & [= <-] & _ & Hland). destruct (Hland Hs _ _ _ eq_refl) as (image & Himage & Hholds).
    exists image. split; [done|]. rewrite !device_app, Hk4. exact Hholds.
Qed.

(** ** The operations of the dispatcher *)

Lemma run_run_work past work d w r d' w' calls :
  work_ok work -> all_ready past d -> run env (run_work work_root port display work d) w = (r, d', w', calls) ->
  all_ready (past ++ told env calls w) d' /\ confined (past ++ told env calls w) (job_id work) calls /\
  (forall out, r = Ok out -> disposition out = ConfirmedNoEffect -> writes_last work -> forall dev, (device_after calls dev).1 = dev.1) /\
  (forall out, r = Ok out -> disposition out = SemanticSuccess -> forall record partition member begin_sector dev,
     list.last (actions work) = Some record -> stored_action_decode record = Ok (StoredWrite partition member begin_sector) ->
     exists image, image_of (job_id work) member image /\ holds_image (device_after calls dev).1 begin_sector image).
Proof.
  intros Hwork Hd H. unfold run_work in H. run_step H; apply run_try in E as (x & E & Hx); [done|]. injection Hx as ->.
  destruct (run_try_run _ _ _ _ _ _ _ _ Hwork Hd E) as (Hr & Hc & Hno & Hok).
  destruct x as [out|[failure|]]; injection H as <- <- _ <-; rewrite app_nil_r; (split; [done|]; split; [done|]).
  - destruct (Hok out eq_refl) as [Hne Hland]. split; [by intros o [= <-]|]. intros o [= <-] Hs. by apply Hland.
  - split; [|intros o [= <-]; by destruct failure]. intros o [= <-] Hs Ho. destruct failure as [detail|detail]; [by eapply Hno|done].
  - by split.
Qed.

Lemma run_prepare past work d w r d' w' calls :
  prep_plan_actions work = plan_of (prep_job_id work) -> prep_profile work = profile_of (prep_job_id work) -> all_ready past d ->
  run env (prepare work_root work d) w = (r, d', w', calls) -> all_ready past d' /\ forall dev, (device_after calls dev).1 = dev.1.
Proof.
  intros Hplan Hprofile Hd H. split.
  - unfold prepare in H. apply run_get_seq in H. destruct (_ || _); [by injection H as _ <- _ _|]. rewrite Hplan, Hprofile in H.
    run_step H; apply run_try in E as (x & E & Hx); [done|]. injection Hx as ->. apply (run_stage_job past) in E; [|done].
    apply run_get_seq in H. destruct x as [stats|[failure|]]; injection H as _ <- _ _; (intros j; apply E).
  - revert H. assert (keeps_medium env (prepare work_root work)) as Hk; [|by intros H; eapply Hk].
    unfold prepare. keep; apply keeps_stage_job.
Qed.

Lemma run_release past job d w r d' w' calls :
  bt_ok (sessions d) -> all_ready past d -> run env (release work_root job d) w = (r, d', w', calls) ->
  all_ready past d' /\ forall dev, (device_after calls dev).1 = dev.1.
Proof.
  intros Hb Hd H. split.
  - unfold release in H. apply run_get_seq, run_put_seq in H. set (d1 := mkDispatcher _ _ _ _) in *.
    assert (all_ready past d1) as Hd1.
    { intros j. unfold session_of. cbn [sessions d1]. destruct (decide (job = j)) as [->|Hne].
      - destruct (bt_get j (bt_remove j (sessions d))) eqn:E; [|apply new_ready]. apply bt_get_remove in E; [|done]. cbn.
        pose proof (Hd j) as Hj. unfold session_of in Hj. by rewrite E in Hj.
      - rewrite bt_get_remove_ne by done. apply Hd. }
    call_step H. destruct (negb _); [by injection H as _ <- _ _|]. unfold try in H.
    run_step H; [by apply (run_call env (RemoveDirAll _)) in E as (_ & _ & ? & _)|]. apply (run_call env (RemoveDirAll _)) in E as (_ & -> & _).
    by apply run_lift in H as (_ & -> & _).
  - revert H. assert (keeps_medium env (release work_root job)) as Hk; [|by intros H; eapply Hk]. unfold release. keep.
Qed.

(** ** Reconciliation *)

Lemma run_in_reconcile {A} job (m : exec A) d w r d' w' calls :
  run env (in_reconcile_session job m d) w = (r, d', w', calls) ->
  exists x s', run env (m (session_of d job)) w = (x, s', w', calls) /\ r = Ok x /\ d' = with_sessions d (bt_insert job s' (sessions d)).
Proof.
  unfold in_reconcile_session. rewrite run_bind. destruct (run env (m (session_of d job)) w) as [[[x s'] w1] l]. cbn [run fst snd].
  rewrite app_nil_r. intros [= <- <- <- <-]. by exists x, s'.
Qed.

Lemma only_reads_writes action : only_reads action = true -> is_write action = false.
Proof. by destruct action. Qed.

Lemma only_reads_addressed action : only_reads action = true -> addressed action.
Proof. intros H p m b ->. done. Qed.

Lemma run_reconcile_actions past job scratch records verdicts evidence d w r d' w' calls :
  all_ready past d -> run env (reconcile_actions port job scratch (profile_of job) records verdicts evidence d) w = (r, d', w', calls) ->
  all_ready (past ++ told env calls w) d' /\ forall dev, (device_after calls dev).1 = dev.1.
Proof.
  revert past verdicts evidence d w calls. induction records as [|record records IH]; intros past verdicts evidence d w calls Hd H; cbn [reconcile_actions] in H.
  { injection H as _ <- _ <-. split; [by apply all_ready_more|done]. }
  destruct (negb _); [injection H as _ <- _ <-; split; [by apply all_ready_more|done]|].
  apply run_lift_seq in H as [(e & _ & _ & -> & _ & ->)|(action & _ & H)]; [split; [by apply all_ready_more|done]|].
  destruct (only_reads action) eqn:Hr; [cbn [negb] in H|injection H as _ <- _ <-; split; [by apply all_ready_more|done]].
  run_step H; apply run_in_reconcile in E as (x & s' & E & Hx & ->); [done|]. injection Hx as ->.
  assert (forall dev, _) as Hrun
    by (intros dev; exact (run_action _ env Henv scratch (profile_of job) (image_of job) (image_ok job) (image_size job) _ _ _ _ _ _ _ _ _ dev
                             (proj1 (Hd job)) (proj2 (Hd job)) (only_reads_addressed _ Hr) E)).
  assert (forall dev, (device_after c dev).1 = dev.1) as Hk.
  { intros dev. destruct (Hrun dev) as (_ & _ & _ & Hk & _). by apply Hk, only_reads_writes. }
  assert (all_ready (past ++ told env c w) (with_sessions d (bt_insert job s' (sessions d)))) as Hd'.
  { apply insert_ready; [by apply all_ready_more|]. destruct (Hrun ((fun _ => []), None)) as (? & ? & _). by split. }
  apply run_lift_seq in H as [(e & _ & _ & -> & _ & ->)|(out & _ & H)]; [by rewrite app_nil_r|].
  destruct (negb _); [injection H as _ <- _ <-; by rewrite app_nil_r|]. eapply IH in H as [Hd'' Hk']; [|exact Hd'].
  rewrite (told_run env _ _ _ _ _ _ E), app_assoc. split; [done|]. intros dev. by rewrite device_app, Hk'.
Qed.

Lemma run_reconcile past work d w r d' w' calls :
  rec_profile work = profile_of (rec_job_id work) -> all_ready past d ->
  run env (reconcile_work work_root port display_fault work d) w = (r, d', w', calls) ->
  all_ready (past ++ told env calls w) d' /\ forall dev, (device_after calls dev).1 = dev.1.
Proof.
  intros Hprofile Hd H. unfold reconcile_work in H. run_step H; apply run_try in E as (x & E & Hx); [done|]. injection Hx as ->.
  assert (all_ready (past ++ told env c w) t /\ forall dev, (device_after c dev).1 = dev.1) as [Ht Hk].
  { clear H. unfold try_reconcile_read_only in E. rewrite Hprofile in E.
    assert (leads env eq (try (fun e => Some (ReconcileScratch e))
      (op_call (CreateDirAll (work_root +:+ "/" +:+ rec_job_id work +:+ "/reconcile-scratch")))) d) as Hsame by lead.
    assert (keeps_medium env (S := Dispatcher) (try (fun e => Some (ReconcileScratch e))
      (op_call (CreateDirAll (work_root +:+ "/" +:+ rec_job_id work +:+ "/reconcile-scratch"))))) as Hkeep by keep.
    run_step E; pose proof (Hkeep _ _ _ _ _ _ E0) as Hk1; pose proof (fun more => told_run env _ _ _ _ _ more E0) as Ht0;
      apply Hsame in E0 as <-; [split; [by apply all_ready_more|done]|].
    apply run_get_seq, run_put_seq in E. pose proof (insert_ready _ d (rec_job_id work) (session_new []) Hd (new_ready _ _)) as Hd1.
    rewrite Ht0, app_assoc. match goal with |- all_ready ((past ++ ?x) ++ _) _ /\ _ => apply (all_ready_more _ x) in Hd1 end.
    run_step E; (eapply run_reconcile_actions in E0 as [Hd2 Hk2]; [|exact Hd1]).
    - split; [done|]. intros dev. by rewrite device_app, Hk2.
    - destruct a0 as [verdicts evidence]. injection E as _ <- _ <-. rewrite app_nil_r. split; [done|]. intros dev. by rewrite device_app, Hk2. }
  destruct x as [out|[fault|]]; injection H as _ <- _ <-; by rewrite app_nil_r.
Qed.
End Jobs.
