(* ===== verification/DispatchSafe.v ===== *)
(** * Dispatches are safe (cmd/arkforged/src/dispatch.rs)

    Histories of a dispatcher over the jobs of a daemon: the sectors they may change, what a
    report of no effect and of success is worth, and that reconciling only looks. *)

From stdpp Require Import gmap.
From S2P Require Import Prelude Interaction Sha256 Digest Authority Identity Effect FlashStep Projection Superseding.
From S2P Require Import Plan Manifest Verification Profile Rockchip Rockusb RockusbSound GptSound Port PortSound Execute Dispatch.
From S2P Require Import ExecuteSound DispatchSound NativePort NativeSound.

(** ** Histories *)

Inductive operation : Type :=
| Prepare (work : PendingPreparation)
| Run (work : PendingDispatch)
| Reconcile (work : PendingReconcile)
| Release (job : string).

(** A write of a plan whose images are known declares its range and digest. *)
Lemma expect_images_writes profile records i i' record partition member begin_sector :
  expect_images profile records i = Ok i' -> record ∈ records ->
  stored_action_decode record = Ok (StoredWrite partition member begin_sector) ->
  exists range content, declared_range record = Some range /\ action_content record = Some content.
Proof.
  revert i. induction records as [|x records IH]; intros i H Hin Hd; [by apply elem_of_nil in Hin|]. cbn [expect_images] in H.
  destruct (expect_image profile x i) as [i1|] eqn:E; [|done]. apply elem_of_cons in Hin as [<-|Hin]; [|by eapply IH].
  unfold expect_image in E. rewrite Hd in E. cbn [map_err] in E.
  destruct (declared_range record) as [range|]; [|done]. destruct (action_content record) as [content|]; [|done]. eauto.
Qed.

Lemma plan_write_declares plan profile member0 image record partition member begin_sector :
  plan_image plan profile member0 image -> record ∈ plan ->
  stored_action_decode record = Ok (StoredWrite partition member begin_sector) ->
  exists range content, declared_range record = Some range /\ action_content record = Some content /\
    declares record member (mkExpected (length range) content).
Proof.
  intros (images & e & He & _) Hin Hd. unfold expected_images in He. destruct (expect_images _ _ _) as [i|] eqn:E; [|done].
  destruct (expect_images_writes _ _ _ _ _ _ _ _ E Hin Hd) as (range & content & Hr & Hc). exists range, content.
  split; [done|]. split; [done|]. by exists partition, begin_sector, range, content.
Qed.

Section Histories.
Context (port : RockUsbPort) {Hport : PortLaws port}.
Context {W : Type} (env : forall c, W -> reply c * W) (Henv : env_ok env).
Context (work_root : string) (display : DispatchFailure -> string) (display_fault : ReconcileFault -> string).
Context (plan_of : string -> list PrivateActionRecord) (profile_of : string -> DeviceProfile).

(** An operation on the dispatcher; when the process ends a new one starts with nothing. *)
Definition perform (o : operation) (d : Dispatcher) (w : W) : Dispatcher * W * list host_call :=
  match o with
  | Prepare work =>
      let '(r, d', w', calls) := run env (prepare work_root work d) w in
      (match r with Ok _ => d' | Err _ => dispatcher_new end, w', calls)
  | Run work =>
      let '(r, d', w', calls) := run env (run_work work_root port display work d) w in
      (match r with Ok _ => d' | Err _ => dispatcher_new end, w', calls)
  | Reconcile work =>
      let '(r, d', w', calls) := run env (reconcile_work work_root port display_fault work d) w in
      (match r with Ok _ => d' | Err _ => dispatcher_new end, w', calls)
  | Release job => let '(_, d', w', calls) := run env (release work_root job d) w in (d', w', calls)
  end.

(** Work is of its job: the job's plan and profile, and sectors that fit their type. *)
Definition operation_ok (o : operation) : Prop :=
  match o with
  | Prepare work => prep_plan_actions work = plan_of (prep_job_id work) /\ prep_profile work = profile_of (prep_job_id work)
  | Run work => work_ok plan_of profile_of work
  | Reconcile work => rec_profile work = profile_of (rec_job_id work)
  | Release _ => True
  end.

(** Keeping the sessions a map. *)
Definition map_kept (d d' : Dispatcher) : Prop := bt_ok (sessions d) -> bt_ok (sessions d').

#[local] Instance map_kept_preorder : PreOrder map_kept.
Proof. split; [intros d H; exact H|]. intros d1 d2 d3 H1 H2 H. exact (H2 (H1 H)). Qed.

Lemma map_in_session {A} job (m : exec A) d : leads env map_kept (in_session job m) d.
Proof. intros w r d' w' calls H. apply run_in_session in H as (x & s' & _ & _ & ->). intros Hd. by apply bt_insert_ok. Qed.

Lemma map_in_reconcile {A} job (m : exec A) d : leads env map_kept (in_reconcile_session job m) d.
Proof. intros w r d' w' calls H. apply run_in_reconcile in H as (x & s' & _ & _ & ->). intros Hd. by apply bt_insert_ok. Qed.

Lemma map_materialize artifact images d : leads env map_kept (materialize_staging_cache work_root artifact images) d.
Proof. intros w r d' w' calls H. by apply leads_materialize in H as <-. Qed.

Lemma map_stage_job job artifact plan profile mode d : leads env map_kept (stage_job work_root job artifact plan profile mode) d.
Proof.
  unfold stage_job. lead; first [apply map_materialize | apply map_in_session | exact (fun H => H)].
Qed.

Lemma map_prepare work d : leads env map_kept (prepare work_root work) d.
Proof. unfold prepare. lead; first [apply map_stage_job | exact (fun H => H)]. Qed.

Lemma map_execute job scratch profile work before d : leads env map_kept (execute_all port job scratch profile work before) d.
Proof.
  revert before d. induction work as [|[action record] work IH]; intros before d; cbn [execute_all]; lead; try apply map_in_session. apply IH.
Qed.

Lemma map_run work d : leads env map_kept (run_work work_root port display work) d.
Proof.
  unfold run_work, try_run, staging_of. lead; first [apply map_stage_job | apply map_execute | exact (fun H => H)].
Qed.

Lemma map_reconcile_actions job scratch profile records verdicts evidence d :
  leads env map_kept (reconcile_actions port job scratch profile records verdicts evidence) d.
Proof.
  revert verdicts evidence d. induction records as [|record records IH]; intros verdicts evidence d; cbn [reconcile_actions];
    lead; try apply map_in_reconcile; apply IH.
Qed.

Lemma map_reconcile work d : leads env map_kept (reconcile_work work_root port display_fault work) d.
Proof.
  unfold reconcile_work, try_reconcile_read_only. lead; try apply map_reconcile_actions. intros Hok. by apply bt_insert_ok.
Qed.

Lemma map_release job d : leads env map_kept (release work_root job) d.
Proof. unfold release. lead. intros Hok. by apply bt_remove_ok. Qed.

Hypothesis Hplans : forall job, Forall declared_ok (plan_of job).

(** What the dispatcher keeps between operations. *)
Definition sound (past : list (W * host_call)) (d : Dispatcher) : Prop :=
  bt_ok (sessions d) /\ all_ready port env plan_of profile_of past d.

Lemma sound_start past : sound past dispatcher_new.
Proof. split; [constructor|]. apply start_ready. Qed.

(** A sector some job may write, by a table the device showed. *)
Definition allowed_to_jobs (past : list (W * host_call)) (k : Z) : Prop :=
  exists job, allowed_sector port env (profile_of job) (plan_image (plan_of job) (profile_of job)) past k.

Lemma allowed_to_jobs_more past more k : allowed_to_jobs past k -> allowed_to_jobs (past ++ more) k.
Proof. intros [job H]. exists job. by apply allowed_more. Qed.

Lemma perform_sound past o d w d' w' calls :
  operation_ok o -> sound past d -> perform o d w = (d', w', calls) ->
  sound (past ++ told env calls w) d' /\
  forall dev k, (device_after calls dev).1 k = dev.1 k \/ allowed_to_jobs (past ++ told env calls w) k.
Proof.
  intros Ho [Hb Hd] H. destruct o as [work|work|work|job]; cbn [perform operation_ok] in *.
  - destruct Ho as [Hplan Hprofile]. destruct (run env _ _) as [[[r d1] w1] c] eqn:E. injection H as <- <- <-.
    destruct (run_prepare port env work_root plan_of profile_of Hplans _ _ _ _ _ _ _ _ Hplan Hprofile Hd E) as [Hr Hk].
    split; [|intros dev k; left; by rewrite Hk]. destruct r; [|apply sound_start]. split; [by eapply map_prepare|by apply all_ready_more].
  - destruct (run env _ _) as [[[r d1] w1] c] eqn:E. injection H as <- <- <-.
    destruct (run_run_work port env Henv work_root display plan_of profile_of Hplans _ _ _ _ _ _ _ _ Ho Hd E) as (Hr & Hc & _).
    split; [|intros dev k; destruct (Hc dev k); [by left|right; by eexists]]. destruct r; [|apply sound_start]. split; [by eapply map_run|done].
  - destruct (run env _ _) as [[[r d1] w1] c] eqn:E. injection H as <- <- <-.
    destruct (run_reconcile port env Henv work_root display_fault plan_of profile_of Hplans _ _ _ _ _ _ _ _ Ho Hd E) as [Hr Hk].
    split; [|intros dev k; left; by rewrite Hk]. destruct r; [|apply sound_start]. split; [by eapply map_reconcile|done].
  - destruct (run env _ _) as [[[r d1] w1] c] eqn:E. injection H as <- <- <-.
    destruct (run_release port env work_root plan_of profile_of _ _ _ _ _ _ _ _ Hb Hd E) as [Hr Hk].
    split; [|intros dev k; left; by rewrite Hk]. split; [by eapply map_release|by apply all_ready_more].
Qed.

(** The life of a daemon: its calls of the host so far, each with the state of the host it was
    made in, and the dispatcher it has.  Before an operation the host may have come to be
    anything. *)
Inductive history : list (W * host_call) -> Dispatcher -> Prop :=
| history_start : history [] dispatcher_new
| history_step past d o w d' w' calls :
    history past d -> operation_ok o -> perform o d w = (d', w', calls) -> history (past ++ told env calls w) d'.

Lemma history_sound past d :
  history past d -> sound past d /\
  forall dev k, (device_after (map snd past) dev).1 k = dev.1 k \/ allowed_to_jobs past k.
Proof.
  induction 1 as [|past d o w d' w' calls _ [Hd Hk] Ho H]; [split; [apply sound_start|by left]|].
  destruct (perform_sound _ _ _ _ _ _ _ Ho Hd H) as [Hd' Hk']. split; [done|]. intros dev k.
  rewrite map_app, told_calls, device_app.
  destruct (Hk' (device_after (map snd past) dev) k) as [-> |]; [|by right].
  destruct (Hk dev k); [by left|right; by apply allowed_to_jobs_more].
Qed.

(** C2. Whatever a dispatcher is asked to do, in whatever order, with whatever a host answers and
    however often the process ends in between, a sector that is not as it was belongs to a
    partition that some job's profile allows to be written, at the place where both the profile
    and a table have it, and to no other partition of that table; and the table is the device's
    own: the port read it, in this history, from the answers the host gave it then. *)
Theorem history_stays_on_targets past d dev k :
  history past d ->
  (device_after (map snd past) dev).1 k = dev.1 k \/
  exists job, allowed_sector port env (profile_of job) (plan_image (plan_of job) (profile_of job)) past k.
Proof. intros H. by apply (history_sound _ _ H). Qed.

(** C6. A report that nothing happened is true: if a step in which no action before the last is a
    write ends in [ConfirmedNoEffect], every sector of the device is as it was. *)
Theorem no_effect_is_true before d work w out d' w' calls dev :
  history before d -> work_ok plan_of profile_of work -> writes_last work ->
  run env (run_work work_root port display work d) w = (Ok out, d', w', calls) -> disposition out = ConfirmedNoEffect ->
  (device_after calls dev).1 = dev.1.
Proof.
  intros [[_ Hd] _]%history_sound Hwork Hone H Hout.
  destruct (run_run_work port env Henv work_root display plan_of profile_of Hplans _ _ _ _ _ _ _ _ Hwork Hd H) as (_ & _ & Hno & _).
  by eapply Hno.
Qed.

(** The end of a step whose last action is a write of its plan. *)
Lemma success_lands before d work w out d' w' calls dev record partition member begin_sector :
  history before d -> work_ok plan_of profile_of work ->
  run env (run_work work_root port display work d) w = (Ok out, d', w', calls) -> disposition out = SemanticSuccess ->
  list.last (actions work) = Some record -> record ∈ plan_of (job_id work) ->
  stored_action_decode record = Ok (StoredWrite partition member begin_sector) ->
  exists range content data, declared_range record = Some range /\ action_content record = Some content /\
    zlen data = length range /\ sha256 data = content /\
    forall k, begin_sector <= k < begin_sector + ceil_div (length range) 512 ->
      (device_after calls dev).1 k = sector_of (padded data) (k - begin_sector).
Proof.
  intros [[_ Hd] _]%history_sound Hwork H Hout Hlast Hin Hdecode.
  destruct (run_run_work port env Henv work_root display plan_of profile_of Hplans _ _ _ _ _ _ _ _ Hwork Hd H) as (_ & _ & _ & Hland).
  destruct (Hland _ eq_refl Hout _ _ _ _ dev Hlast Hdecode) as (image & Himage & data & Hhash & Hlen & Hk).
  destruct (plan_write_declares _ _ _ _ _ _ _ _ Himage Hin Hdecode) as (range & content & Hr & Hc & Hdecl).
  destruct (plan_image_declared _ _ _ _ _ _ (Hplans _) Himage Hin Hdecl) as [Hsize Hdigest]. cbn in Hsize, Hdigest.
  exists range, content, data. unfold on_run in Hk. rewrite Hsize in Hk, Hlen. split_and!; try done. congruence.
Qed.
(** C4. A report of success is true: if a step whose last action is a write of its plan ends in
    [SemanticSuccess], the plan's record declares a range and a digest, and from the sector the
    action names the device holds bytes of the range's length with that digest, the last sector
    filled with zeros. *)
Theorem success_is_on_the_medium before d work w out d' w' calls dev record partition member begin_sector :
  history before d -> work_ok plan_of profile_of work ->
  run env (run_work work_root port display work d) w = (Ok out, d', w', calls) -> disposition out = SemanticSuccess ->
  list.last (actions work) = Some record -> record ∈ plan_of (job_id work) ->
  stored_action_decode record = Ok (StoredWrite partition member begin_sector) ->
  exists range content data, declared_range record = Some range /\ action_content record = Some content /\
    zlen data = length range /\ sha256 data = content /\
    forall k, begin_sector <= k < begin_sector + ceil_div (length range) 512 ->
      (device_after calls dev).1 k = sector_of (padded data) (k - begin_sector).
Proof. apply success_lands. Qed.
End Histories.

(** ** Reconciliation *)

Section Reconciliation.
Context (port : RockUsbPort) {Hport : PortLaws port}.
Context {W : Type} (env : forall c, W -> reply c * W) (Henv : env_ok env).
Context (work_root : string) (display_fault : ReconcileFault -> string).

Lemma keeps_in_reconcile {A} job (m : exec A) : keeps_medium env m -> keeps_medium env (in_reconcile_session job m).
Proof. intros Hm d w r d' w' calls H dev. apply run_in_reconcile in H as (x & s' & H & _). by eapply Hm. Qed.

Lemma keeps_reconcile_actions job scratch profile records verdicts evidence :
  keeps_medium env (reconcile_actions port job scratch profile records verdicts evidence).
Proof.
  revert verdicts evidence. induction records as [|record records IH]; intros verdicts evidence; cbn [reconcile_actions]; keep.
  apply keeps_in_reconcile, (keeps_action port env Henv), only_reads_writes. by destruct (only_reads _).
Qed.

Lemma keeps_reconcile work : keeps_medium env (reconcile_work work_root port display_fault work).
Proof. unfold reconcile_work, try_reconcile_read_only. keep. apply keeps_reconcile_actions. Qed.

(** What a verdict of the read-only run is worth: a record of the work said it, and if it is
    [Verified] the medium holds what the record declares. *)
Definition seen (m : Medium) (records : list PrivateActionRecord) (verdict : PrivateActionRecord * VerificationOutcome) : Prop :=
  verdict.1 ∈ records /\
  forall strength range, verdict.2 = Verified strength range ->
    exists partition begin_sector max_strength filler content,
      stored_action_decode verdict.1 = Ok (StoredReadback partition begin_sector max_strength filler) /\
      declared_range verdict.1 = Some range /\ action_content verdict.1 = Some content /\
      medium_hashes m begin_sector range content.

Lemma seen_more m records records' verdict : (forall r, r ∈ records -> r ∈ records') -> seen m records verdict -> seen m records' verdict.
Proof. intros Hsub [Hin Hv]. split; [by apply Hsub|exact Hv]. Qed.

(** The sectors the read-backs of the work name fit their type. *)
Definition readable (record : PrivateActionRecord) : Prop := declared_ok record /\
  forall partition begin_sector strength filler,
    stored_action_decode record = Ok (StoredReadback partition begin_sector strength filler) -> u64 begin_sector.

(** Only a read-back gives a verdict. *)
Lemma verdict_of_readback scratch action record profile s w o s' w' calls v :
  run env (execute_action port scratch action record profile s) w = (Ok o, s', w', calls) -> only_reads action = true ->
  out_verification o = Some v -> exists partition begin_sector strength filler, action = StoredReadback partition begin_sector strength filler.
Proof.
  intros H Hr Hv. destruct action; try done; cbn [execute_action] in H.
  - run_step H; [done|]. by injection H as <- _ _ _.
  - unfold validate_partition_table in H. apply run_lift_seq in H as [(e & _ & [=] & _)|(digest & _ & H)].
    destruct (negb _); [done|]. run_step H; [done|]. apply run_lift_seq in H as [(e & _ & [=] & _)|(u & _ & H)].
    apply run_get_seq, run_put_seq in H. by injection H as <- _ _ _.
  - eauto.
  - unfold characterize_read_domain in H. run_step H; [done|]. destruct (uniform_byte a); [done|]. apply run_get_seq, run_put_seq, run_get_seq in H.
    do 2 apply run_lift_seq in H as [(e & _ & [=] & _)|(? & _ & H)]. run_step H; [done|]. run_step H; [done|].
    destruct a1 as [domain detail]. apply run_get_seq, run_put_seq in H. by injection H as <- _ _ _.
Qed.

Lemma run_verdicts pending m job scratch profile all records verdicts evidence d w out d' w' calls :
  serves (endpoint env) pending m -> Forall readable records -> (forall r, r ∈ records -> r ∈ all) -> Forall (seen m all) verdicts ->
  run env (reconcile_actions port job scratch profile records verdicts evidence d) w = (Ok out, d', w', calls) ->
  Forall (seen m all) out.1.
Proof.
  intros Hserve Hall. revert verdicts evidence d w calls.
  induction Hall as [|record records [Hdecl Hsector] _ IH]; intros verdicts evidence d w calls Hsub Hv H; cbn [reconcile_actions] in H.
  { by injection H as <- _ _ _. }
  destruct (negb _); [done|]. apply run_lift_seq in H as [(e & _ & [=] & _)|(action & Hdecode & H)].
  destruct (stored_action_decode record) as [a|] eqn:Ea; [|done]. injection Hdecode as ->.
  destruct (only_reads action) eqn:Hr; cbn [negb] in H; [|done].
  run_step H; [done|]. apply run_in_reconcile in E as (x & s' & E & [= ->] & ->).
  apply run_lift_seq in H as [(e & _ & [=] & _)|(o & Ho & H)]. destruct x as [o'|]; [|done]. injection Ho as ->.
  destruct (negb _); [done|]. eapply IH; [|..|exact H]; [intros r Hin; apply Hsub; by right|].
  destruct (out_verification o) as [v|] eqn:Ev; [|done]. apply Forall_app. split; [done|]. constructor; [|constructor].
  split; [apply Hsub; by left|]. cbn [fst snd]. intros strength range ->.
  destruct (verdict_of_readback _ _ _ _ _ _ _ _ _ _ _ E Hr Ev) as (partition & begin_sector & max_strength & filler & ->).
  destruct (run_readback port env Henv _ _ _ _ _ _ _ _ _ _ _ _ _ _ _ _ _ Hserve (Hsector _ _ _ _ eq_refl) Hdecl E Ev) as (Hrange & content & Hc & Hm).
  exists partition, begin_sector, max_strength, filler, content. by split_and!.
Qed.

(** C9. Reconciling only looks, whatever actions it is given, and what it finds is true: it
    answers for each effect it was asked about, in order; and in front of a device that serves
    its medium it says that a partition write is present only if a read-back among the actions
    declares that partition, range and digest and the medium holds bytes of the range's length
    with that digest from the sector the read-back itself names. *)
Theorem reconcile_looks_and_tells_truth work d w out d' w' calls :
  run env (reconcile_work work_root port display_fault work d) w = (Ok out, d', w', calls) ->
  (forall dev, (device_after calls dev).1 = dev.1) /\
  map fst (observations out) = possible_effects_to_observe work /\
  forall pending m effect, serves (endpoint env) pending m -> Forall readable (rec_actions work) ->
    (effect, Present) ∈ observations out ->
    exists partition range content record begin_sector strength filler name,
      effect = WritePartition partition range content /\ record ∈ rec_actions work /\
      declared_target record = Some (TargetPartition partition) /\
      declared_range record = Some range /\ action_content record = Some content /\
      stored_action_decode record = Ok (StoredReadback name begin_sector strength filler) /\
      medium_hashes m begin_sector range content.
Proof.
  intros H. split; [intros dev; by eapply keeps_reconcile|]. unfold reconcile_work in H.
  run_step H; apply run_try in E as (x & E & Hx); [done|]. injection Hx as ->. destruct x as [o|[fault|]]; [..|done]; injection H as <- _ _ _.
  2:{ cbn [observations]. rewrite map_map. cbn [fst]. split; [apply map_id|]. intros pending m effect _ _ Hin.
      apply list_elem_of_In, in_map_iff in Hin as (? & [=] & _). }
  unfold try_reconcile_read_only in E. run_step E; [done|]. apply run_get_seq, run_put_seq in E. run_step E; [done|].
  destruct a0 as [verdicts evidence]. injection E as <- _ _ _. cbn [observations]. rewrite map_map.
  split; [erewrite map_ext; [apply map_id|done]|]. intros pending m effect Hserve Hreadable Hin.
  apply list_elem_of_In, in_map_iff in Hin as (e & He & _). unfold observe_effect in He.
  destruct (List.find _ verdicts) as [[record v]|] eqn:Hf; [|done]. destruct v as [strength range0| |]; try done. injection He as ->.
  apply find_some in Hf as [Hin Hobs]. pose proof (run_verdicts _ _ _ _ _ (rec_actions work) _ _ _ _ _ _ _ _ _ Hserve Hreadable (fun r H => H) (Forall_nil_2 _) E1) as Hseen.
  rewrite Forall_forall in Hseen. apply list_elem_of_In in Hin. destruct (Hseen _ Hin) as [Hrec Hver]. cbn [fst snd] in Hrec, Hver.
  destruct (Hver _ _ eq_refl) as (name & begin_sector & max_strength & filler & content0 & Hd & Hr & Hc & Hm).
  unfold readback_observes_effect in Hobs. cbn [fst] in Hobs. destruct effect as [|partition range content| | |]; try done.
  destruct (declared_target record) as [[p| | |]|] eqn:Ht; try done. repeat case_bool_decide; try done. subst p.
  exists partition, range, content, record, begin_sector, max_strength, filler, name. split_and!; try done. congruence.
Qed.
End Reconciliation.
