(* ===== verification/DispatchSample.v ===== *)
(** * A sample daemon (cmd/arkforged/src/dispatch.rs)

    A host with a device that serves a fixed medium and one file in its archive, and a job that writes
    that file to the device's first partition, on which the theorems on dispatches are
    instantiated. *)

From stdpp Require Import gmap.
From S2P Require Import Prelude Interaction Cbor Sha256 Digest Authority Identity Effect FlashStep Projection Superseding.
From S2P Require Import Plan Manifest Verification Profile Rockchip Rockusb RockusbSound GptSound Port PortSound Execute Dispatch.
From S2P Require Import ExecuteSound DispatchSound NativePort NativeSound RockchipSample DispatchSafe.

(** ** A host *)

(** The last message sent, the tag of the last command block, and where the file is at. *)
Record Bench := mkBench { last_message : bytes; last_tag : Z; at_byte : Z }.

Section Host.
Context (medium : Medium) (file : bytes).

(** Bytes of the medium from a sector on. *)
Definition stretch (address n : Z) : bytes :=
  map (fun j => nth (Z.to_nat (Z.of_nat j mod 512)) (medium (address + Z.of_nat j / 512)) 0) (seq 0 (Z.to_nat n)).

Definition bench_usb (c : call) (w : Bench) : result string (answer c) * Bench :=
  match c return result string (answer c) * Bench with
  | WriteAll b => (Ok tt, mkBench b (if zlen b =? CBW_BYTES then cbw_tag b else last_tag w) (at_byte w))
  | ReadSome _ => (Err "not supported"%string, w)
  | ReadExact n =>
      (if n <? 0 then Err "negative"%string
       else if n =? CSW_BYTES then Ok (CSW_SIGNATURE ++ to_le_bytes 4 (last_tag w) ++ replicate 5 0)
       else Ok (stretch (cbw_address (last_message w)) n), w)
  end.

Definition loader : UsbInterfaceDescriptor := mkDescriptor 0x2207 0x350a 0x201 0x100 1 0xff 6 5 0 None None None.

Definition file_facts : StagedFileFingerprint := mkFingerprint (zlen file) true 1 2 292 1 0 0 0 0.

Definition bench (c : host_call) (w : Bench) : reply c * Bench :=
  match c return reply c * Bench with
  | Usb c => bench_usb c w
  | Enumerate => (Ok [loader], w)
  | OpenInterface _ => (Ok tt, w)
  | FetchTag _ => (1, w)
  | CreateDirAll _ => (Ok tt, w)
  | OpenFile _ => (Ok 3, mkBench (last_message w) (last_tag w) 0)
  | FileMetadata _ => (Ok (true, file_facts), w)
  | SeekStart _ => (Ok tt, mkBench (last_message w) (last_tag w) 0)
  | ReadFile _ n =>
      let b := firstn (Z.to_nat (Z.min n (zlen file))) (skipn (Z.to_nat (at_byte w)) file) in
      (if n <? 0 then Err "negative"%string else Ok b, mkBench (last_message w) (last_tag w) (at_byte w + zlen b))
  | ElapsedMs => (7, w)
  | IsDir _ => (true, w)
  | ReadDirNames _ => (Ok [Some "ramdisk.img"%string], w)
  | SymlinkMetadata _ => (Ok (true, file_facts), w)
  | PathExists _ => (false, w)
  | RemoveDirAll _ => (Ok tt, w)
  | CreateDir _ | SetMode _ _ | SyncDir _ | Rename _ _ => (Ok tt, w)
  | ClearAway _ => (tt, w)
  | NowNanos | ProcessId => (1, w)
  | StageMembers _ _ directory => (Ok [("ramdisk.img"%string, (directory, zlen file, sha256 file))], w)
  end.

Definition new_bench : Bench := mkBench [] 0 0.

Hypothesis Hmedium : forall k, List.length (medium k) = 512%nat /\ bytes_ok (medium k).
Hypothesis Hfile : bytes_ok file.

Lemma zlen_stretch address n : 0 <= n -> zlen (stretch address n) = n.
Proof. intros Hn. unfold stretch, zlen. rewrite length_map, length_seq. lia. Qed.

Lemma stretch_ok address n : bytes_ok (stretch address n).
Proof.
  apply Forall_forall. intros x Hx. apply list_elem_of_In, in_map_iff in Hx as (j & <- & _).
  destruct (Hmedium (address + Z.of_nat j / 512)) as [Hl Hb]. unfold bytes_ok in Hb. rewrite Forall_forall in Hb.
  apply Hb, list_elem_of_In, nth_In. rewrite Hl. pose proof (Z.mod_pos_bound (Z.of_nat j) 512 ltac:(lia)). lia.
Qed.

Lemma sector_of_stretch address n i : 0 <= i < n / 512 -> sector_of (stretch address n) i = medium (address + i).
Proof.
  intros Hi. pose proof (Z.mul_div_le n 512 ltac:(lia)). destruct (Hmedium (address + i)) as [Hl _].
  apply (nth_ext _ _ 0 0).
  - unfold sector_of, stretch. rewrite length_firstn, length_skipn, length_map, length_seq. lia.
  - intros j Hj. unfold sector_of in *. rewrite length_firstn in Hj. rewrite nth_firstn, nth_skipn.
    destruct (Nat.ltb_spec j 512); [|lia]. unfold stretch.
    rewrite (nth_indep _ 0 ((fun j => nth (Z.to_nat (Z.of_nat j mod 512)) (medium (address + Z.of_nat j / 512)) 0) 0%nat))
      by (rewrite length_map, length_seq; lia).
    rewrite (map_nth (fun j => nth (Z.to_nat (Z.of_nat j mod 512)) (medium (address + Z.of_nat j / 512)) 0)), seq_nth by lia.
    replace (Z.of_nat (0 + (Z.to_nat (512 * i) + j))) with (Z.of_nat j + i * 512) by lia.
    rewrite Z.mod_add, Z.div_add, Z.mod_small, Z.div_small by lia. by rewrite Nat2Z.id.
Qed.

Lemma csw_length tag : zlen (CSW_SIGNATURE ++ to_le_bytes 4 tag ++ replicate 5 0) = 13.
Proof. by destruct (list4 _ (to_le_length 4 tag)) as (t0 & t1 & t2 & t3 & ->). Qed.

Lemma csw_ok tag : bytes_ok (CSW_SIGNATURE ++ to_le_bytes 4 tag ++ replicate 5 0).
Proof.
  apply bytes_ok_app. split; [by apply (bool_decide_unpack _); vm_compute|]. apply bytes_ok_app.
  split; [apply Forall_rev, to_be_ok|by apply (bool_decide_unpack _); vm_compute].
Qed.

Lemma bench_ok : env_ok bench.
Proof.
  intros c w. destruct c; try done.
  - destruct c; try done. cbn [bench bench_usb reply_ok fst]. intros b.
    destruct (Z.ltb_spec n 0); [done|]. destruct (Z.eqb_spec n CSW_BYTES) as [->|]; intros [= <-]; split.
    + apply csw_length.
    + apply csw_ok.
    + by apply zlen_stretch.
    + apply stretch_ok.
  - cbn [bench reply_ok fst]. intros b. destruct (Z.ltb_spec n 0); [done|]. intros [= <-]. split.
    + unfold zlen. rewrite length_firstn. lia.
    + by apply Forall_take, Forall_drop.
Qed.

Lemma bench_serves : serves (endpoint bench) last_message medium.
Proof.
  intros w. split; [done|]. intros n data. unfold endpoint. cbn [bench bench_usb fst]. destruct (Z.ltb_spec n 0); [done|].
  destruct (Z.eqb_spec n CSW_BYTES) as [->|]; intros [= <-].
  - split; [apply csw_length|]. intros _ _ i Hi. change (CSW_BYTES / 512) with 0 in Hi. lia.
  - split; [by apply zlen_stretch|]. intros _ _ i. apply sector_of_stretch.
Qed.
End Host.

(** ** A job *)

Definition zeros : bytes := replicate 512 0.

Definition to_sector (b : bytes) : bytes := b ++ replicate (512 - List.length b) 0.

(** A table of one partition, the ramdisk at sector 4. *)
Definition entry_bytes : bytes :=
  Eval vm_compute in
    replicate 16 1 ++ replicate 16 2 ++ to_le_bytes 8 4 ++ to_le_bytes 8 8191 ++ replicate 8 0
    ++ flat_map (fun c => [c; 0]) (bytes_of_string "ramdisk") ++ replicate 58 0.

Definition header_bytes (crc : Z) : bytes :=
  EFI_PART ++ replicate 4 0 ++ to_le_bytes 4 92 ++ to_le_bytes 4 crc ++ replicate 52 0
  ++ to_le_bytes 8 2 ++ to_le_bytes 4 1 ++ to_le_bytes 4 128 ++ to_le_bytes 4 (Rockusb.crc32 entry_bytes).

Definition table_sector : bytes := Eval vm_compute in to_sector (header_bytes (Rockusb.crc32 (header_bytes 0))).
Definition entry_sector : bytes := Eval vm_compute in to_sector entry_bytes.

Definition image : bytes := Eval vm_compute in bytes_of_string "abc".
Definition image_sector : bytes := Eval vm_compute in to_sector image.
Definition image_digest : Sha256Digest := Eval vm_compute in sha256 image.

Definition flash : Medium := fun k =>
  if k =? 1 then table_sector else if k =? 2 then entry_sector else if k =? 4 then image_sector else zeros.

Definition host_env := bench flash image.

Lemma flash_ok k : List.length (flash k) = 512%nat /\ bytes_ok (flash k).
Proof. unfold flash. repeat case_match; (split; [done|]; apply (bool_decide_unpack _); vm_compute; exact I). Qed.

Lemma host_env_ok : env_ok host_env.
Proof. apply bench_ok; [apply flash_ok|]. apply (bool_decide_unpack _). vm_compute. exact I. Qed.

Lemma host_env_serves : serves (endpoint host_env) last_message flash.
Proof. apply bench_serves, flash_ok. Qed.

Definition record_of (step action : string) (effect : WorkflowEffect) (declared : bool) (body : list (CborValue * CborValue)) : PrivateActionRecord :=
  mkAction (mkId action) (mkId step) PrimaryEffect effect
    (if declared then Some (TargetPartition (mkId "ramdisk")) else None)
    (if declared then Some (mkRange 2048 3) else None) (if declared then Some image_digest else None) (Map body).

Definition layout_digest_bytes : bytes :=
  Eval vm_compute in match profile_layout_digest board with Some d => digest_bytes d | None => [] end.

Definition table_record : PrivateActionRecord :=
  record_of "STEP-1" "ACT-1" EReadOnly false
    [(Text "action", Text "validate-partition-table"); (Text "expectedLayoutDigest", Bytes layout_digest_bytes)].
Definition write_record : PrivateActionRecord :=
  record_of "STEP-2" "ACT-2" EDestructive true
    [(Text "action", Text "write-partition"); (Text "partition", Text "ramdisk"); (Text "member", Text "ramdisk.img"); (Text "beginSector", Unsigned 4)].
Definition domain_record : PrivateActionRecord :=
  record_of "STEP-3" "ACT-3" EReadOnly false [(Text "action", Text "characterize-read-domain")].
Definition readback_record : PrivateActionRecord :=
  record_of "STEP-3" "ACT-4" EReadOnly true
    [(Text "action", Text "readback-partition"); (Text "partition", Text "ramdisk"); (Text "beginSector", Unsigned 4);
     (Text "maxStrengthWhenReadable", Text "fullHash"); (Text "erasedMediumFiller", Unsigned 204)].

Definition plan : list PrivateActionRecord := [table_record; write_record; domain_record; readback_record].

Definition prewarm : operation := Prepare (mkPreparation "JOB-1" plan board (mkDigest [])).
Definition step (id : string) (records : list PrivateActionRecord) : PendingDispatch :=
  mkDispatch "JOB-1" id records plan board (mkDigest []).
Definition the_write : PersistentEffect := WritePartition (mkId "ramdisk") (mkRange 2048 3) image_digest.
Definition recover : PendingReconcile := mkReconcile "JOB-1" [table_record; domain_record; readback_record] board [the_write] true.

Definition show (_ : DispatchFailure) : string := "failed".
Definition show_fault (_ : ReconcileFault) : string := "failed".
Definition native : RockUsbPort := native_port native_new.

Definition step_run (d : Dispatcher) (w : Bench) (work : PendingDispatch) :=
  run host_env (run_work "/work" native show work d) w.

(** The plan is prepared, the table is validated and the write is made. *)
Definition prepared :=
  Eval vm_compute in run host_env (prepare "/work" (mkPreparation "JOB-1" plan board (mkDigest [])) dispatcher_new) new_bench.
Definition validated := Eval vm_compute in step_run prepared.1.1.2 prepared.1.2 (step "STEP-1" [table_record]).
Definition written := Eval vm_compute in step_run validated.1.1.2 validated.1.2 (step "STEP-2" [write_record]).
(** A write before the table is known, and a recovery. *)
Definition refused := Eval vm_compute in step_run dispatcher_new new_bench (step "STEP-2" [write_record]).
Definition recovered := Eval vm_compute in run host_env (reconcile_work "/work" native show_fault recover written.1.1.2) written.1.2.

Lemma prepared_runs :
  run host_env (prepare "/work" (mkPreparation "JOB-1" plan board (mkDigest [])) dispatcher_new) new_bench = prepared.
Proof. vm_compute. reflexivity. Qed.

Lemma validated_runs : step_run prepared.1.1.2 prepared.1.2 (step "STEP-1" [table_record]) = validated.
Proof. vm_compute. reflexivity. Qed.

Lemma written_runs : step_run validated.1.1.2 validated.1.2 (step "STEP-2" [write_record]) = written.
Proof. vm_compute. reflexivity. Qed.

Lemma refused_runs : step_run dispatcher_new new_bench (step "STEP-2" [write_record]) = refused.
Proof. vm_compute. reflexivity. Qed.

Lemma recovered_runs : run host_env (reconcile_work "/work" native show_fault recover written.1.1.2) written.1.2 = recovered.
Proof. vm_compute. reflexivity. Qed.

(** How they end. *)
Lemma written_ends :
  exists out, step_run validated.1.1.2 validated.1.2 (step "STEP-2" [write_record]) = (Ok out, written.1.1.2, written.1.2, written.2) /\
    disposition out = SemanticSuccess.
Proof. rewrite written_runs. eexists. split; reflexivity. Qed.

Lemma refused_ends :
  exists out, step_run dispatcher_new new_bench (step "STEP-2" [write_record]) = (Ok out, refused.1.1.2, refused.1.2, refused.2) /\
    disposition out = ConfirmedNoEffect.
Proof. rewrite refused_runs. eexists. split; reflexivity. Qed.

Lemma recovered_ends :
  exists out, run host_env (reconcile_work "/work" native show_fault recover written.1.1.2) written.1.2 =
      (Ok out, recovered.1.1.2, recovered.1.2, recovered.2) /\ observations out = [(the_write, Present)].
Proof. rewrite recovered_runs. eexists. split; reflexivity. Qed.

(** Any job of the daemon is this one. *)
Definition plans (_ : string) : list PrivateActionRecord := plan.
Definition profiles (_ : string) : DeviceProfile := board.

(** By evaluation. *)
Ltac evaluate := unfold u64, bytes_ok, u8; apply (bool_decide_unpack _); vm_compute; exact I.

Lemma plan_ok : Forall declared_ok plan.
Proof.
  assert (declared_ok table_record /\ declared_ok write_record) as [Ht Hw].
  { split; (split; [intros range [=]|intros content [=]]); subst; [evaluate|split; [done|evaluate]]. }
  repeat (apply Forall_cons; split); [exact Ht|exact Hw|exact Ht|exact Hw|apply Forall_nil_2].
Qed.

Lemma plans_ok job : Forall declared_ok (plans job).
Proof. apply plan_ok. Qed.

Lemma table_step_ok : work_ok plans profiles (step "STEP-1" [table_record]).
Proof. split; [done|]. split; [done|]. intros record action ->%list_elem_of_singleton H p m b ->. vm_compute in H. congruence. Qed.

Lemma write_step_ok : work_ok plans profiles (step "STEP-2" [write_record]).
Proof.
  split; [done|]. split; [done|]. intros record action ->%list_elem_of_singleton H p m b ->. vm_compute in H. injection H as _ _ <-. zlia.
Qed.

Abbreviation life := (history native host_env "/work" show show_fault plans profiles).

(** The calls of an operation with the bench they were made on. *)
Abbreviation told_prepared := (told host_env prepared.2 new_bench).
Abbreviation told_validated := (told host_env validated.2 prepared.1.2).
Abbreviation told_written := (told host_env written.2 validated.1.2).

Lemma life_prepared : life told_prepared prepared.1.1.2.
Proof.
  eapply (history_step _ _ _ _ _ _ _ [] dispatcher_new prewarm new_bench _ prepared.1.2); [constructor|done|].
  unfold prewarm, perform. rewrite prepared_runs. reflexivity.
Qed.

Lemma life_validated : life (told_prepared ++ told_validated) validated.1.1.2.
Proof.
  eapply (history_step _ _ _ _ _ _ _ _ _ (Run (step "STEP-1" [table_record])) prepared.1.2 _ validated.1.2);
    [apply life_prepared|apply table_step_ok|].
  unfold perform. pose proof validated_runs as E. unfold step_run in E. rewrite E. reflexivity.
Qed.

Lemma life_written : life ((told_prepared ++ told_validated) ++ told_written) written.1.1.2.
Proof.
  eapply (history_step _ _ _ _ _ _ _ _ _ (Run (step "STEP-2" [write_record])) validated.1.2 _ written.1.2);
    [apply life_validated|apply write_step_ok|].
  unfold perform. pose proof written_runs as E. unfold step_run in E. rewrite E. reflexivity.
Qed.

Lemma recover_readable : Forall readable (rec_actions recover).
Proof.
  pose proof plan_ok as (Ht & Hplan)%Forall_cons. apply Forall_cons in Hplan as (_ & Hplan). apply Forall_cons in Hplan as (Hd & Hplan).
  apply Forall_cons in Hplan as (Hr & _).
  repeat (apply Forall_cons; split); [..|apply Forall_nil_2]; (split; [done|]); intros p b s f H; vm_compute in H; try discriminate H.
  injection H as _ <- _ _. evaluate.
Qed.

(** A device of zeros. *)
Definition blank : Device := (fun _ => zeros, None).

Lemma history_stays_on_targets_witness :
  exists past d job, life past d /\ allowed_sector native host_env (profiles job) (plan_image (plans job) (profiles job)) past 4.
Proof.
  destruct (history_stays_on_targets native host_env host_env_ok "/work" show show_fault plans profiles plans_ok _ _ blank 4 life_written)
    as [H|[job H]].
  - exfalso. rewrite !map_app, !told_calls in H. vm_compute in H. discriminate H.
  - exact (ex_intro _ _ (ex_intro _ _ (ex_intro _ job (conj life_written H)))).
Defined.

Lemma no_effect_is_true_witness :
  exists out, step_run dispatcher_new new_bench (step "STEP-2" [write_record]) = (Ok out, refused.1.1.2, refused.1.2, refused.2) /\
    (device_after refused.2 blank).1 = blank.1.
Proof.
  destruct refused_ends as (out & E & Hout). exists out. split; [exact E|].
  apply (no_effect_is_true native host_env host_env_ok "/work" show show_fault plans profiles plans_ok [] dispatcher_new
           (step "STEP-2" [write_record]) new_bench out refused.1.1.2 refused.1.2 refused.2 blank (history_start _ _ _ _ _ _ _) write_step_ok); [|exact E|exact Hout].
  clear E. intros record action H. by apply elem_of_nil in H.
Defined.

Lemma success_is_on_the_medium_witness :
  exists data, zlen data = 3 /\ sha256 data = image_digest /\ (device_after written.2 blank).1 4 = sector_of (padded data) 0.
Proof.
  destruct written_ends as (out & E & Hout).
  destruct (success_is_on_the_medium native host_env host_env_ok "/work" show show_fault plans profiles plans_ok _ validated.1.1.2
              (step "STEP-2" [write_record]) validated.1.2 out written.1.1.2 written.1.2 written.2 blank write_record "ramdisk" "ramdisk.img" 4
              life_validated write_step_ok E Hout eq_refl) as (range & content & data & Hr & Hc & Hl & Hh & Hk).
  - apply (list_elem_of_lookup_2 _ 1%nat). reflexivity.
  - vm_compute. reflexivity.
  - injection Hr as <-. injection Hc as <-. exists data. split; [exact Hl|]. split; [exact Hh|]. apply (Hk 4).
    split; [lia|]. vm_compute. reflexivity.
Defined.

Lemma reconcile_looks_and_tells_truth_witness :
  exists begin_sector, medium_hashes flash begin_sector (mkRange 2048 3) image_digest.
Proof.
  destruct recovered_ends as (out & E & Hout).
  destruct (reconcile_looks_and_tells_truth native host_env host_env_ok "/work" show_fault recover _ _ out recovered.1.1.2 recovered.1.2 recovered.2 E) as (_ & _ & Htruth).
  destruct (Htruth last_message flash the_write host_env_serves recover_readable)
    as (partition & range & content & record & begin_sector & strength & filler & name & He & _ & _ & _ & _ & _ & Hm).
  - rewrite Hout. apply list_elem_of_singleton. reflexivity.
  - injection He as _ <- <-. exists begin_sector. exact Hm.
Defined.
