(* ===== verification/Deliver.v ===== *)
(** * From a plan to the medium
    (crates/arkforge-provider/src/rockchip.rs, cmd/arkforged/src/jobs, cmd/arkforged/src/dispatch.rs)

    What the provider lowers is what the dispatcher takes: every action of its plans decodes,
    the images the dispatcher expects are the artifact's members, and a job hands each step's
    actions over with its one write last.  So a restore that is reported as done is done. *)

From stdpp Require Import gmap.
From S2P Require Import Prelude Interaction Cbor Sha256 Digest Authority Identity Effect FlashStep Projection Superseding.
From S2P Require Import Plan Manifest Verification Profile Rockchip RockchipPlan RockchipSafe Rockusb RockusbSound Port PortSound Execute Dispatch.
From S2P Require Import ExecuteSound DispatchSound DispatchSafe.

(** ** The actions of a step (jobs/parts/helpers_01_finish_queued_cancellation.rs) *)

(** The loop over the plan: the sub-actions of the step and its last primary action. *)
Fixpoint sort_actions (step : string) (records : list PrivateActionRecord) (sub : list PrivateActionRecord)
    (primary : option PrivateActionRecord) : list PrivateActionRecord * option PrivateActionRecord :=
  match records with
  | [] => (sub, primary)
  | action :: records =>
      if negb (String.eqb (as_str (action_step_id action)) step) then sort_actions step records sub primary
      else
        match role action with
        | PrimaryEffect => sort_actions step records sub (Some action)
        | ReadOnlyTransportSubAction => sort_actions step records (sub ++ [action]) primary
        end
  end.

(** The error is [StepHasNoAction], with the step. *)
Definition ordered_actions (plan : list PrivateActionRecord) (step : string) : result string (list PrivateActionRecord) :=
  let (sub, primary) := sort_actions step plan [] None in
  let? primary := ok_or primary step in
  Ok (sub ++ [primary]).

Lemma sort_app step l k sub primary :
  sort_actions step (l ++ k) sub primary = (let (sub, primary) := sort_actions step l sub primary in sort_actions step k sub primary).
Proof.
  revert sub primary. induction l as [|a l IH]; intros sub primary; [done|]. cbn [app sort_actions].
  destruct (negb _); [apply IH|]. destruct (role a); apply IH.
Qed.

Lemma sort_other step l sub primary :
  Forall (fun a => as_str (action_step_id a) <> step) l -> sort_actions step l sub primary = (sub, primary).
Proof.
  induction 1 as [|a l Ha _ IH]; [done|]. cbn [sort_actions]. destruct (String.eqb_spec (as_str (action_step_id a)) step); [done|]. exact IH.
Qed.

(** The actions of a position belong to its step. *)
Lemma actions_at_step np : Forall (fun a => action_step_id a = step_name np.1) (actions_at np).
Proof. unfold actions_at, subs_at. destruct (p_sub np.2); repeat constructor. Qed.

Lemma positions_ordered ps np :
  zlen ps <= U32_MAX -> np ∈ numbered ps ->
  ordered_actions (concat (map actions_at (numbered ps))) (as_str (step_name np.1)) = Ok (actions_at np).
Proof.
  intros Hps Hin. pose proof (step_names_distinct ps Hps) as Hd.
  apply list_elem_of_split in Hin as (l & k & E). rewrite E in Hd |- *.
  rewrite map_app in Hd. cbn [map] in Hd. apply NoDup_app in Hd as (_ & Hl & Hk%NoDup_cons). destruct Hk as [Hk _].
  assert (forall l', (forall x, x ∈ l' -> as_str (step_name x.1) <> as_str (step_name np.1)) ->
    Forall (fun a => as_str (action_step_id a) <> as_str (step_name np.1)) (concat (map actions_at l'))) as Hother.
  { intros l' Hx. apply Forall_forall. intros a (x & Hin & Ha)%actions_elem. pose proof (actions_at_step x) as Hs.
    rewrite Forall_forall in Hs. rewrite (Hs _ Ha). by apply Hx. }
  unfold ordered_actions. rewrite map_app, concat_app. cbn [map concat].
  rewrite sort_app, sort_other, sort_app.
  2:{ apply Hother. intros x Hx Eq. apply (Hl (as_str (step_name np.1))); [|by left]. rewrite <- Eq.
      apply list_elem_of_In, (in_map (fun np => as_str (step_name np.1))). by apply list_elem_of_In. }
  assert (sort_actions (as_str (step_name np.1)) (actions_at np) [] None = (subs_at np.1 np.2, Some (primary_at np.1 np.2))) as ->.
  { unfold actions_at, subs_at. destruct (p_sub np.2); cbn; by rewrite ?String.eqb_refl. }
  rewrite sort_other; [done|]. apply Hother. intros x Hx Eq. apply Hk. rewrite <- Eq.
  apply list_elem_of_In, (in_map (fun np => as_str (step_name np.1))). by apply list_elem_of_In.
Qed.

(** ** What the actions of a plan say *)

(** The facts of a request fit their types. *)
Record typed (r : MaterializeRequest) : Prop := {
  typed_offsets : Forall (fun t => u64 (Profile.offset_sectors t)) (allowed_targets (r_profile r));
  typed_members : Forall (fun f => u64 (member_size f) /\ digest_ok (member_sha256 f)) (m_members (r_artifact r));
  typed_filler : forall b, erased_medium_filler (read_domain (r_profile r)) = Some b -> b <= 255
}.

(** The member that supplies a target. *)
Definition supplies (r : MaterializeRequest) (t : AllowedTarget) (member : string) (f : ArchiveMemberFact) : Prop :=
  source_member t = Some member /\ manifest_member (r_artifact r) member = Some f.

(** A record declares the member's bytes. *)
Definition declares_member (record : PrivateActionRecord) (f : ArchiveMemberFact) : Prop :=
  (exists range, declared_range record = Some range /\ length range = member_size f) /\ action_content record = Some (member_sha256 f).

(** What an action of the plan does: writes and reads back a target's member, or neither and
    declares nothing. *)
Definition says (r : MaterializeRequest) (record : PrivateActionRecord) (action : StoredAction) : Prop :=
  match action with
  | StoredWrite partition member begin_sector => exists t f, t ∈ selected_targets r /\ supplies r t member f /\
      partition = as_str (target_partition t) /\ begin_sector = Profile.offset_sectors t /\ declares_member record f
  | StoredReadback _ begin_sector _ _ => exists t member f, t ∈ selected_targets r /\ supplies r t member f /\
      begin_sector = Profile.offset_sectors t /\ declares_member record f
  | _ => declared_range record = None /\ action_content record = None
  end.

Definition said (r : MaterializeRequest) (record : PrivateActionRecord) : Prop :=
  exists action, stored_action_decode record = Ok action /\ says r record action.

Lemma target_source_inv r t member f range :
  target_source (r_artifact r) (r_profile r) t = Ok (member, f, range) -> supplies r t member f /\ length range = member_size f.
Proof.
  unfold target_source, supplies. intros H. destruct (source_member t) as [m|]; [|done]. cbn [ok_or] in H.
  destruct (manifest_member (r_artifact r) m) as [g|] eqn:Hm; [|done]. cbn [ok_or] in H. destruct (block_size _) as [z|]; [|done].
  destruct (checked_mul _ _) as [s|]; [|done]. cbn [ok_or] in H. destruct (ByteRange_new s (member_size g)) as [x|] eqn:E; [|done].
  injection H as -> -> ->. split; [done|]. unfold ByteRange_new in E. destruct (_ =? 0); [done|]. destruct (ok_or _ _); [|done].
  by injection E as <-.
Qed.

Lemma write_target_says r n t p :
  t ∈ selected_targets r -> write_target (r_artifact r) (r_profile r) t = Ok p ->
  exists member f, supplies r t member f /\ p_sub p = None /\
    stored_action_decode (primary_at n p) = Ok (StoredWrite (as_str (target_partition t)) member (Profile.offset_sectors t)) /\
    declares_member (primary_at n p) f.
Proof.
  intros Ht H. unfold write_target in H. destruct (target_source _ _ _) as [[[member f] range]|] eqn:E; [|done]. injection H as <-.
  apply target_source_inv in E as [Hs Hl]. exists member, f. split; [done|]. split; [done|]. split; [reflexivity|]. split; [by exists range|done].
Qed.

Lemma verify_target_says r n t p :
  typed r -> t ∈ selected_targets r -> verify_target (r_artifact r) (r_profile r) t = Ok p ->
  exists member f partition strength filler body, supplies r t member f /\ p_sub p = Some body /\
    stored_action_decode (primary_at n p) = Ok (StoredReadback partition (Profile.offset_sectors t) strength filler) /\
    declares_member (primary_at n p) f /\
    forall record, action_body record = body -> stored_action_decode record = Ok CharacterizeReadDomain.
Proof.
  intros [_ _ Hfiller] Ht H. unfold verify_target in H.
  destruct (source_member t) as [m|] eqn:Hm; [|done]. cbn [ok_or] in H.
  destruct (manifest_member (r_artifact r) m) as [g|] eqn:Hg; [|done]. cbn [ok_or] in H. destruct (block_size _) as [z|]; [|done].
  destruct (checked_mul _ _) as [s|]; [|done]. cbn [ok_or] in H. destruct (ByteRange_new s (member_size g)) as [x|] eqn:E; [|done].
  cbn [map_err] in H. injection H as <-.
  assert (length x = member_size g) as Hl.
  { unfold ByteRange_new in E. destruct (_ =? 0); [done|]. destruct (ok_or _ _); [|done]. by injection E as <-. }
  exists m, g, (as_str (target_partition t)), (max_strength_when_readable (target_verification t)), (erased_medium_filler (read_domain (r_profile r))).
  eexists. split; [done|]. split; [reflexivity|]. split; [|split; [split; [by exists x|done]|]].
  - unfold stored_action_decode. cbn -[strength_parse strength_as_str Z.leb]. rewrite strength_parse_str. cbn [ok_or].
    destruct (erased_medium_filler _) as [b|] eqn:Ef; cbn [unsigned_or_null]; [|done].
    specialize (Hfiller b eq_refl). destruct (Z.leb_spec b 255); [done|lia].
  - intros record Hb. unfold stored_action_decode. rewrite Hb. reflexivity.
Qed.

Lemma domain_digest_ok domain payload : digest_ok (digest_in_domain domain payload).
Proof. rewrite digest_in_domain_is_spec, <- sha256_is_spec. apply sha256_ok. Qed.

Lemma decode_layout record d :
  List.length (digest_bytes d) = 32%nat ->
  action_body record = map_of [("action", Text "validate-partition-table"); ("expectedLayoutDigest", Bytes (digest_bytes d))]%string ->
  stored_action_decode record = Ok (ValidatePartitionTable d).
Proof.
  intros Hl Hb. unfold stored_action_decode. rewrite Hb. destruct d as [b]. cbn -[zlen Z.eqb] in *. unfold zlen. by rewrite Hl.
Qed.

Lemma layout_says n profile p :
  validate_layout profile = Ok p -> p_sub p = None /\
  exists digest, stored_action_decode (primary_at n p) = Ok (ValidatePartitionTable digest) /\
    declared_range (primary_at n p) = None /\ action_content (primary_at n p) = None.
Proof.
  unfold validate_layout, layout_digest. intros H. destruct (to_canonical_bytes _) as [b|]; [|done]. cbn [map_err] in H.
  pose proof (proj1 (domain_digest_ok DDeviceProfile b)) as Hl. revert H Hl. generalize (digest_in_domain DDeviceProfile b). intros d [= <-] Hl.
  split; [done|]. exists d. split; [|done]. by apply decode_layout.
Qed.

Lemma expect_facts (facts : list (OpaqueId * string)) :
  exists pairs, expect_pairs (map (fun fact => (to_cbor fact.1, Text fact.2)) facts) = Ok pairs.
Proof. induction facts as [|[key value] facts [pairs IH]]; [by eexists|]. cbn [map expect_pairs]. cbn. rewrite IH. by eexists. Qed.

Lemma decode_postflight record l pairs :
  action_body record = map_of [("action", Text "verify-hdc-postflight"); ("via", Text "managed-device-control-port");
                               ("controlAction", Text "read-build-facts"); ("expect", Map l)]%string ->
  expect_pairs l = Ok pairs -> stored_action_decode record = Ok (ManagedControl "read-build-facts" pairs).
Proof. intros Hb H. unfold stored_action_decode. rewrite Hb. cbn -[expect_pairs]. by rewrite H. Qed.

Lemma postflight_says n artifact :
  exists expect, stored_action_decode (primary_at n (verify_postflight artifact)) = Ok (ManagedControl "read-build-facts" expect).
Proof.
  destruct (expect_facts (postflight_facts artifact)) as [pairs H]. exists pairs. by eapply decode_postflight.
Qed.

Lemma Forall2_right {A B} (R : A -> B -> Prop) l k y : Forall2 R l k -> y ∈ k -> exists x, x ∈ l /\ R x y.
Proof.
  intros H [i Hi]%list_elem_of_lookup. destruct (Forall2_lookup_r _ _ _ _ _ H Hi) as (x & Hx & HR). exists x. split; [|done].
  by eapply list_elem_of_lookup_2.
Qed.

(** Every action of a lowered plan. *)
Lemma lowered_says r built layout writes verifies record :
  lowered r built layout writes verifies -> typed r -> record ∈ Projection.actions (built_private_plan built) -> said r record.
Proof.
  intros L Ht Hin. rewrite (lowered_actions _ _ _ _ _ L) in Hin. apply actions_elem in Hin as ([n p] & [_ Hp]%numbered_elem & Ha).
  cbn [snd] in Hp. unfold actions_at, subs_at in Ha. cbn [fst snd] in Ha. unfold plan_positions in Hp.
  assert (forall q, p = q -> p_sub q = None -> (exists a, stored_action_decode (primary_at n q) = Ok a /\ says r (primary_at n q) a) -> said r record) as Hplain.
  { intros q -> Hsub Hs. rewrite Hsub in Ha. apply list_elem_of_singleton in Ha as ->. exact Hs. }
  rewrite !elem_of_app in Hp. destruct Hp as [Hp|[Hp|[Hp|[Hp|Hp]]]].
  - case_bool_decide; [by apply elem_of_nil in Hp|]. apply list_elem_of_singleton in Hp. apply (Hplain _ Hp); [done|]. by eexists.
  - apply elem_of_cons in Hp as [Hp|Hp%list_elem_of_singleton]; [apply (Hplain _ Hp); [done|]; by eexists|].
    destruct (layout_says n _ _ (lowered_layout _ _ _ _ _ L)) as (Hs & d & Hd & Hr). apply (Hplain _ Hp); [done|]. by exists (ValidatePartitionTable d).
  - destruct (Forall2_right _ _ _ _ (lowered_writes _ _ _ _ _ L) Hp) as (t & Htt & Hw).
    destruct (write_target_says r n t p Htt Hw) as (member & f & Hs & Hsub & Hd & Hdecl). apply (Hplain _ eq_refl); [done|].
    eexists. split; [exact Hd|]. by exists t, f.
  - destruct (Forall2_right _ _ _ _ (lowered_verifies _ _ _ _ _ L) Hp) as (t & Htt & Hw).
    destruct (verify_target_says r n t p Ht Htt Hw) as (member & f & partition & strength & filler & body & Hs & Hsub & Hd & Hdecl & Hbody).
    rewrite Hsub in Ha. apply elem_of_cons in Ha as [->|Ha%list_elem_of_singleton].
    + exists CharacterizeReadDomain. split; [by apply Hbody|done].
    + subst record. eexists. split; [exact Hd|]. by exists t, member, f.
  - apply elem_of_cons in Hp as [Hp|Hp%list_elem_of_singleton]; [apply (Hplain _ Hp); [done|]; by eexists|].
    destruct (postflight_says n (r_artifact r)) as (expect & Hd). apply (Hplain _ Hp); [done|]. by eexists.
Qed.

(** ** The dispatcher takes the plan *)

Lemma supplies_typed r t member f : typed r -> supplies r t member f -> u64 (member_size f) /\ digest_ok (member_sha256 f).
Proof.
  intros [_ Hm _] [_ Hf]. unfold manifest_member in Hf. apply find_some in Hf as [Hin _]. rewrite Forall_forall in Hm.
  by apply Hm, list_elem_of_In.
Qed.

Lemma declares_member_ok r t member record f :
  typed r -> supplies r t member f -> declares_member record f -> declared_ok record.
Proof.
  intros Ht Hs [(range & Hr & Hl) Hc]. destruct (supplies_typed _ _ _ _ Ht Hs) as [Hsize Hdigest].
  split; [rewrite Hr; intros x [= <-]; by rewrite Hl|]. rewrite Hc. by intros x [= <-].
Qed.

Lemma selected_allowed r t : t ∈ selected_targets r -> t ∈ allowed_targets (r_profile r).
Proof. by intros [? _]%selected_elem. Qed.

Lemma said_addressed r record action : typed r -> said r record -> stored_action_decode record = Ok action -> addressed action.
Proof.
  intros [Ho _ _] (a & Hd & Hs) E p m b ->. rewrite E in Hd. injection Hd as <-. destruct Hs as (t & f & Ht & _ & _ & -> & _).
  rewrite Forall_forall in Ho. by apply Ho, selected_allowed.
Qed.

(** The member of the artifact, as the dispatcher expects it. *)
Definition member_image (r : MaterializeRequest) (member : string) : option ExpectedImage :=
  (fun f => mkExpected (member_size f) (member_sha256 f)) <$> manifest_member (r_artifact r) member.

Lemma said_expected r record i :
  said r record -> (forall member e, bt_get member (expected i) = Some e -> member_image r member = Some e) ->
  exists i', expect_image (r_profile r) record i = Ok i' /\
    (forall member e, bt_get member (expected i') = Some e -> member_image r member = Some e) /\
    (forall member, is_Some (bt_get member (expected i')) <-> is_Some (bt_get member (expected i)) \/
       exists partition b, stored_action_decode record = Ok (StoredWrite partition member b)).
Proof.
  intros (action & Hd & Hs) Hi. unfold expect_image. rewrite Hd. cbn [map_err].
  assert ((forall p m b, action <> StoredWrite p m b) -> forall member,
    is_Some (bt_get member (expected i)) <-> is_Some (bt_get member (expected i)) \/
      exists partition b, @Ok string _ action = Ok (StoredWrite partition member b)) as Hsame.
  { intros Hn member. split; [by left|]. intros [?|(p & b & [= ->])]; [done|]. by destruct (Hn p member b). }
  destruct action; try (exists i; split; [done|]; split; [done|]; by apply Hsame).
  destruct Hs as (t & f & Ht & [_ Hf] & _ & _ & (range & Hr & Hl) & Hc). rewrite Hr, Hc. cbn [ok_or].
  assert (member_image r member = Some (mkExpected (length range) (member_sha256 f))) as Hm by (unfold member_image; by rewrite Hf, Hl).
  assert (match bt_get member (expected i) with
          | Some prior => if bool_decide (prior = mkExpected (length range) (member_sha256 f)) then Ok tt else refuse (Contradictory member)
          | None => Ok tt end = Ok tt) as ->.
  { destruct (bt_get member (expected i)) as [prior|] eqn:Hp; [|done]. apply Hi in Hp. rewrite Hm in Hp. injection Hp as <-. by rewrite bool_decide_eq_true_2. }
  eexists. split; [reflexivity|]. cbn [expected]. split.
  - intros m e. rewrite bt_get_insert_case. case_decide; [subst; by intros [= <-]|apply Hi].
  - intros m. rewrite bt_get_insert_case. case_decide as Hmm; [subst|].
    + split; [|by eexists]. intros _. right. by eexists _, _.
    + split; [by left|]. intros [?|(p & b & [= _ E _])]; [done|]. by destruct Hmm.
Qed.

Lemma said_all_expected r records i :
  Forall (said r) records -> (forall member e, bt_get member (expected i) = Some e -> member_image r member = Some e) ->
  exists i', expect_images (r_profile r) records i = Ok i' /\
    (forall member e, bt_get member (expected i') = Some e -> member_image r member = Some e) /\
    (forall member, is_Some (bt_get member (expected i')) <-> is_Some (bt_get member (expected i)) \/
       exists record partition b, record ∈ records /\ stored_action_decode record = Ok (StoredWrite partition member b)).
Proof.
  intros Hall. revert i. induction Hall as [|record records Hr _ IH]; intros i Hi; cbn [expect_images].
  { exists i. split; [done|]. split; [done|]. intros member. split; [by left|]. intros [?|(? & ? & ? & []%elem_of_nil & _)]. done. }
  destruct (said_expected r record i Hr Hi) as (i1 & -> & Hi1 & Hk1). destruct (IH i1 Hi1) as (i2 & -> & Hi2 & Hk2).
  exists i2. split; [done|]. split; [done|]. intros member. rewrite Hk2, Hk1. split.
  - intros [[?|(p & b & E)]|(x & p & b & Hx & E)]; [by left|right; exists record, p, b; split; [by left|done]|right; exists x, p, b; split; [by right|done]].
  - intros [?|(x & p & b & [->|Hx]%elem_of_cons & E)]; [by left; left|left; right; eauto|right; eauto].
Qed.

#[export] Instance str_lt_irreflexive : Irreflexive str_lt.
Proof. intros s. apply str_lt_irrefl. Qed.

#[export] Instance str_lt_transitive : Transitive str_lt.
Proof. intros s t u. apply str_lt_trans. Qed.

(** Strictly ordered keys are told apart by membership. *)
Lemma sorted_keys_eq (l k : list string) :
  StronglySorted str_lt l -> StronglySorted str_lt k -> (forall x, x ∈ l <-> x ∈ k) -> l = k.
Proof.
  intros Hl Hk H.
  assert (forall m, StronglySorted str_lt m -> NoDup m) as Hnd.
  { induction 1 as [|x m Hm IH Hx]; constructor; [|done]. intros Hin. rewrite Forall_forall in Hx. by eapply str_lt_irrefl, Hx. }
  apply (strict_sorted_unique str_lt); [done|done|]. apply NoDup_Permutation; auto.
Qed.

Lemma bt_keys {V} (m : btree V) key : bt_ok m -> (key ∈ map fst m <-> is_Some (bt_get key m)).
Proof.
  intros Hm. rewrite list_elem_of_In, in_map_iff. split.
  - intros ([k v] & <- & Hin). exists v. by apply bt_get_In.
  - intros [v Hv]. exists (key, v). split; [done|]. by apply bt_get_In.
Qed.

Lemma set_of_spec names : StronglySorted str_lt (set_of names) /\ forall key, key ∈ set_of names <-> key ∈ names.
Proof.
  unfold set_of. set (m := foldr _ _ _). assert (bt_ok m /\ forall key, is_Some (bt_get key m) <-> key ∈ names) as [Hok Hk].
  { subst m. induction names as [|n names [Hok IH]]; cbn [foldr]; [split; [constructor|]; intros key; split; [by intros []|by intros []%elem_of_nil]|].
    split; [by apply bt_insert_ok|]. intros key. rewrite bt_get_insert_case, elem_of_cons, <- IH. case_decide; [subst; split; [by left|by eexists]|].
    split; [by right|]. intros [->|?]; [by destruct H|done]. }
  split; [exact Hok|]. intros key. by rewrite bt_keys.
Qed.

Section Plan.
Context (r : MaterializeRequest) (built : BuiltPlan) (Hbuilt : build_steps r = Ok built) (Htyped : typed r).
Abbreviation plan := (Projection.actions (built_private_plan built)).

Lemma plan_said : Forall (said r) plan.
Proof using Hbuilt Htyped.
  destruct (build_steps_lowered _ _ Hbuilt) as (layout & writes & verifies & L). apply Forall_forall. intros record Hin. by eapply lowered_says.
Qed.

Lemma plan_declared : Forall declared_ok plan.
Proof using Hbuilt Htyped.
  pose proof plan_said as Hall. eapply Forall_impl; [exact Hall|]. intros record (action & _ & Hs).
  destruct action; try (destruct Hs as [E1 E2]; split; [by rewrite E1|by rewrite E2]).
  - destruct Hs as (t & f & _ & Hs & _ & _ & Hd). by eapply declares_member_ok.
  - destruct Hs as (t & member & f & _ & Hs & _ & Hd). by eapply declares_member_ok.
Qed.

(** The step that writes a target. *)
Lemma plan_writes t :
  t ∈ selected_targets r -> countable r ->
  exists step record member f, step ∈ built_steps built /\ ordered_actions plan (as_str (FlashStep.step_id step)) = Ok [record] /\ record ∈ plan /\
    supplies r t member f /\ declares_member record f /\
    stored_action_decode record = Ok (StoredWrite (as_str (target_partition t)) member (Profile.offset_sectors t)).
Proof using Hbuilt Htyped.
  intros Ht Hc. destruct (build_steps_lowered _ _ Hbuilt) as (layout & writes & verifies & L).
  pose proof (positions_count _ _ _ _ _ L) as Hcount. unfold countable in Hc. set (ps := plan_positions r layout writes verifies) in *.
  apply list_elem_of_lookup in Ht as [i Hi]. destruct (Forall2_lookup_l _ _ _ _ _ (lowered_writes _ _ _ _ _ L) Hi) as (p & Hp & Hw).
  assert (p ∈ ps) as Hin.
  { unfold ps, plan_positions. rewrite !elem_of_app. right. right. left. by eapply list_elem_of_lookup_2. }
  rewrite <- (numbered_snd ps) in Hin. apply list_elem_of_In, in_map_iff in Hin as (np & Hnp & Hin). apply list_elem_of_In in Hin.
  destruct (write_target_says r np.1 t p (list_elem_of_lookup_2 _ _ _ Hi) Hw) as (member & f & Hs & Hsub & Hd & Hdecl).
  pose proof (positions_ordered ps np ltac:(lia) Hin) as Ho. unfold ps in Ho. rewrite <- (lowered_actions _ _ _ _ _ L) in Ho.
  assert (actions_at np = [primary_at np.1 p]) as Ha by (unfold actions_at, subs_at; by rewrite Hnp, Hsub). rewrite Ha in Ho.
  pose proof Hin as [k Hk]%list_elem_of_lookup. destruct (Forall2_lookup_l _ _ _ _ _ (lowered_steps _ _ _ _ _ L) Hk) as (step & Hstep & d & _ & ->).
  exists (step_at np.1 np.2 d), (primary_at np.1 p), member, f.
  split; [by eapply list_elem_of_lookup_2|]. split; [exact Ho|]. split; [|done].
  rewrite (lowered_actions _ _ _ _ _ L). fold ps. apply actions_elem. exists np. split; [done|]. rewrite Ha. by left.
Qed.

(** The dispatcher expects the members of the targets, as the artifact has them. *)
Lemma plan_expected :
  r_intent r = FullRestore -> countable r -> allowed_targets (r_profile r) <> [] ->
  exists images, expected_images plan (r_profile r) = Ok images /\
    (forall member e, bt_get member images = Some e -> member_image r member = Some e) /\
    (forall member, is_Some (bt_get member images) <-> exists t, t ∈ allowed_targets (r_profile r) /\ source_member t = Some member).
Proof using Hbuilt Htyped.
  intros Hfull Hc Hne. unfold expected_images. set (i0 := mkInputs _ _ _).
  destruct (said_all_expected r plan i0 plan_said ltac:(done)) as (i & Hi & Himg & Hkeys).
  assert (bt_ok (expected i)) as Hok.
  { assert (images_ok (expected i0)) as H0 by (split; [constructor|done]). by destruct (expect_images_spec _ _ _ _ plan_declared H0 Hi) as [[? _] _]. }
  rewrite Hi.
  assert (forall member, is_Some (bt_get member (expected i)) <-> exists t, t ∈ allowed_targets (r_profile r) /\ source_member t = Some member) as Hmem.
  { intros member. rewrite Hkeys. split.
    - intros [[? [=]]|(record & p & b & Hin & Hd)]. pose proof plan_said as Hall. rewrite Forall_forall in Hall.
      destruct (Hall _ Hin) as (action & Hd' & Hs). rewrite Hd in Hd'. injection Hd' as <-. destruct Hs as (t & f & Ht & [Hs _] & _).
      exists t. split; [by apply selected_allowed|done].
    - intros (t & Ht & Hs). right. assert (t ∈ selected_targets r) as Hsel by (apply selected_elem; auto).
      destruct (plan_writes t Hsel Hc) as (step & record & m & f & _ & _ & Hin & [Hs' _] & _ & Hd).
      rewrite Hs in Hs'. injection Hs' as <-. by exists record, (as_str (target_partition t)), (Profile.offset_sectors t). }
  assert (map fst (expected i) = set_of (omap source_member (allowed_targets (r_profile r)))) as Heq.
  { destruct (set_of_spec (omap source_member (allowed_targets (r_profile r)))) as [Hsorted Helem]. apply sorted_keys_eq; [done|done|].
    intros x. rewrite Helem, bt_keys, Hmem, list_elem_of_omap by done. done. }
  exists (expected i). split; [|by split]. rewrite Heq, bool_decide_eq_true_2, orb_false_r by done.
  destruct (is_nil (expected i)) eqn:En; [|done]. exfalso. destruct (allowed_targets (r_profile r)) as [|t targets] eqn:Et; [done|].
  assert (t ∈ selected_targets r) as Hsel by (apply selected_elem; rewrite Et; split; [by left|by left]).
  destruct (plan_writes t Hsel Hc) as (_ & _ & member & f & _ & _ & _ & [Hs _] & _).
  destruct (proj2 (Hmem member)) as [e He]; [exists t; split; [by left|done]|]. by destruct (expected i).
Qed.
(** A public step, its position and the actions handed over for it. *)
Lemma plan_step step :
  step ∈ built_steps built -> countable r ->
  exists n p d, step = step_at n p d /\ ordered_actions plan (as_str (FlashStep.step_id step)) = Ok (subs_at n p ++ [primary_at n p]) /\
    Forall (fun record => record ∈ plan) (subs_at n p ++ [primary_at n p]) /\
    (kind step = WriteTarget -> exists t, t ∈ selected_targets r /\ write_target (r_artifact r) (r_profile r) t = Ok p).
Proof using Hbuilt.
  intros Hstep Hc. destruct (build_steps_lowered _ _ Hbuilt) as (layout & writes & verifies & L).
  pose proof (positions_count _ _ _ _ _ L) as Hcount. unfold countable in Hc.
  destruct (Forall2_right _ _ _ _ (lowered_steps _ _ _ _ _ L) Hstep) as ([n p] & Hin & d & _ & ->). exists n, p, d. split; [done|].
  rewrite (lowered_actions _ _ _ _ _ L).
  split; [apply (positions_ordered (plan_positions r layout writes verifies) (n, p) ltac:(lia) Hin)|]. split.
  - apply Forall_forall. intros record Hr. apply actions_elem. by exists (n, p).
  - cbn [step_at kind fst snd]. intros Hk. apply numbered_elem in Hin as [_ Hin]. cbn [snd] in Hin. unfold plan_positions in Hin. rewrite !elem_of_app in Hin.
    assert (validate_layout (r_profile r) = Ok p -> p_kind p = ValidateLayout) as Hlay.
    { unfold validate_layout. destruct (layout_digest _); [|done]. by intros [= <-]. }
    destruct Hin as [Hin|[Hin|[Hin|[Hin|Hin]]]].
    + case_bool_decide; [by apply elem_of_nil in Hin|]. apply list_elem_of_singleton in Hin as ->. done.
    + apply elem_of_cons in Hin as [->|Hin%list_elem_of_singleton]; [done|]. rewrite Hlay in Hk; [done|]. rewrite Hin. apply L.
    + exact (Forall2_right _ _ _ _ (lowered_writes _ _ _ _ _ L) Hin).
    + destruct (Forall2_right _ _ _ _ (lowered_verifies _ _ _ _ _ L) Hin) as (t & _ & Hv).
      assert (p_kind p = VerifyTarget) as E by (unfold verify_target in Hv; repeat (case_match; try done); by injection Hv as <-). by rewrite E in Hk.
    + apply elem_of_cons in Hin as [->|Hin%list_elem_of_singleton]; [done|]. by subst p.
Qed.

(** The work a job hands over for a step. *)
Definition step_work (job : string) (step : PublicFlashStep) (records : list PrivateActionRecord) (artifact : Sha256Digest) : PendingDispatch :=
  mkDispatch job (as_str (FlashStep.step_id step)) records plan (r_profile r) artifact.

Lemma step_work_ok job step records artifact :
  step ∈ built_steps built -> countable r -> ordered_actions plan (as_str (FlashStep.step_id step)) = Ok records ->
  work_ok (fun _ => plan) (fun _ => r_profile r) (step_work job step records artifact) /\ writes_last (step_work job step records artifact).
Proof using Hbuilt Htyped.
  intros Hstep Hc Ho. destruct (plan_step step Hstep Hc) as (n & p & d & -> & Ho' & Hall & _). rewrite Ho in Ho'. injection Ho' as ->.
  pose proof plan_said as Hsaid. rewrite Forall_forall in Hall, Hsaid. split; [split; [done|]; split; [done|]|].
  - cbn [Dispatch.actions step_work]. intros record action Hin Hd. by eapply said_addressed; [|apply Hsaid, Hall|].
  - intros record action. cbn [Dispatch.actions step_work]. rewrite removelast_last. intros Hin Hd.
    assert (declared_range record = None) as Hnone.
    { unfold subs_at in Hin. destruct (p_sub p); [|by apply elem_of_nil in Hin]. by apply list_elem_of_singleton in Hin as ->. }
    destruct (Hsaid record) as (a & Hd' & Hs); [apply Hall, elem_of_app; by left|]. rewrite Hd in Hd'. injection Hd' as <-.
    destruct action; try done. destruct Hs as (t & f & _ & _ & _ & _ & (range & Hr & _) & _). by rewrite Hnone in Hr.
Qed.
End Plan.

(** C8. Every full restore the provider lowers for a profile with an allowed target passes the
    dispatcher's reading of its plan: [expected_images] accepts the writes and expects exactly
    the members of the targets, each with the artifact's size and digest; a job finds the
    actions of every step, and hands over work that is of the plan and has no write but its
    last action; and every target has a step that writes it.  Loading the staged files, which
    refuses names that are not plain, comes later and is not part of this. *)
Theorem restore_can_be_dispatched r built :
  build_steps r = Ok built -> r_intent r = FullRestore -> countable r -> typed r -> allowed_targets (r_profile r) <> [] ->
  let plan := Projection.actions (built_private_plan built) in
  (exists images, expected_images plan (r_profile r) = Ok images /\
     forall member e, bt_get member images = Some e <->
       exists t f, t ∈ allowed_targets (r_profile r) /\ supplies r t member f /\ e = mkExpected (member_size f) (member_sha256 f)) /\
  (forall step, step ∈ built_steps built -> exists records, ordered_actions plan (as_str (FlashStep.step_id step)) = Ok records /\
     forall job artifact, let work := step_work r built job step records artifact in
       work_ok (fun _ => plan) (fun _ => r_profile r) work /\ writes_last work) /\
  (forall t, t ∈ allowed_targets (r_profile r) -> exists step record member, step ∈ built_steps built /\
     ordered_actions plan (as_str (FlashStep.step_id step)) = Ok [record] /\
     stored_action_decode record = Ok (StoredWrite (as_str (target_partition t)) member (Profile.offset_sectors t))).
Proof.
  intros Hb Hfull Hc Ht Hne. cbn zeta. split; [|split].
  - destruct (plan_expected r built Hb Ht Hfull Hc Hne) as (images & Hi & Himg & Hkeys). exists images. split; [done|]. intros member e. split.
    + intros He. pose proof (Himg _ _ He) as Hm. destruct (proj1 (Hkeys member)) as (t & Hin & Hs); [by eexists|].
      unfold member_image in Hm. destruct (manifest_member (r_artifact r) member) as [f|] eqn:Hf; [|done]. injection Hm as <-. by exists t, f.
    + intros (t & f & Hin & [Hs Hf] & ->). destruct (proj2 (Hkeys member)) as [x Hx]; [by exists t|]. rewrite Hx. f_equal.
      pose proof (Himg _ _ Hx) as Hm. unfold member_image in Hm. rewrite Hf in Hm. by injection Hm as <-.
  - intros step Hstep. destruct (plan_step r built Hb step Hstep Hc) as (n & p & d & E & Ho & _). eexists. split; [exact Ho|].
    intros job artifact. by apply step_work_ok.
  - intros t Hin. destruct (plan_writes r built Hb Ht t) as (step & record & member & f & Hstep & Ho & _ & _ & _ & Hd); [|done|].
    + apply selected_elem. auto.
    + by exists step, record, member.
Qed.

(** ** A restore that is done *)

Section Done.
Context (port : RockUsbPort) {Hport : PortLaws port}.
Context {W : Type} (env : forall c, W -> reply c * W) (Henv : env_ok env).
Context (work_root : string) (display : DispatchFailure -> string) (display_fault : ReconcileFault -> string).
Context (plan_of : string -> list PrivateActionRecord) (profile_of : string -> DeviceProfile).
Hypothesis Hplans : forall job, Forall declared_ok (plan_of job).

(** C3. A restore reported as done is done: when the work of a write step of a lowered plan ends
    in [SemanticSuccess], in whatever state earlier operations left the dispatcher, the step
    writes one of the request's targets, and from the target's sector in the profile the device
    holds bytes with the size and the SHA-256 the artifact's manifest has for its member. *)
Theorem restored_member_is_on_the_medium r built job step records artifact before d w out d' w' calls dev :
  build_steps r = Ok built -> countable r -> typed r ->
  plan_of job = Projection.actions (built_private_plan built) -> profile_of job = r_profile r ->
  step ∈ built_steps built -> kind step = WriteTarget ->
  ordered_actions (plan_of job) (as_str (FlashStep.step_id step)) = Ok records ->
  history port env work_root display display_fault plan_of profile_of before d ->
  run env (run_work work_root port display (step_work r built job step records artifact) d) w = (Ok out, d', w', calls) ->
  disposition out = SemanticSuccess ->
  exists t member f data, t ∈ selected_targets r /\ semantic_target step = Some (TargetPartition (target_partition t)) /\
    supplies r t member f /\ zlen data = member_size f /\ sha256 data = member_sha256 f /\
    forall k, Profile.offset_sectors t <= k < Profile.offset_sectors t + ceil_div (member_size f) 512 ->
      (device_after calls dev).1 k = sector_of (padded data) (k - Profile.offset_sectors t).
Proof.
  intros Hb Hc Ht Hplan Hprofile Hstep Hkind Ho Hh H Hout. rewrite Hplan in Ho.
  destruct (step_work_ok r built Hb Ht job step records artifact Hstep Hc Ho) as [(_ & _ & Haddr) _].
  destruct (plan_step r built Hb step Hstep Hc) as (n & p & e & -> & Ho' & Hall & Hw). rewrite Ho in Ho'. injection Ho' as ->.
  destruct (Hw Hkind) as (t & Htt & Hwt). clear Hw. destruct (write_target_says r n t p Htt Hwt) as (member & f & Hs & Hsub & Hd & Hdecl).
  assert (p_semantic p = TargetPartition (target_partition t)) as Hsem.
  { unfold write_target in Hwt. destruct (target_source _ _ _) as [[[? ?] ?]|]; [|done]. by injection Hwt as <-. }
  assert (work_ok plan_of profile_of (step_work r built job (step_at n p e) (subs_at n p ++ [primary_at n p]) artifact)) as Hwork by (by split_and!).
  destruct (success_lands port env Henv work_root display display_fault plan_of profile_of Hplans _ _ _ _ _ _ _ _ dev
              (primary_at n p) (as_str (target_partition t)) member (Profile.offset_sectors t) Hh Hwork H Hout) as (range & content & data & Hr & Hcon & Hlen & Hhash & Hk).
  - cbn [Dispatch.actions step_work]. apply last_snoc.
  - cbn [job_id step_work]. rewrite Hplan. rewrite Forall_forall in Hall. apply Hall, elem_of_app. right. by left.
  - exact Hd.
  - destruct Hdecl as [(range' & Hr' & Hl) Hc']. rewrite Hr in Hr'. injection Hr' as <-. rewrite Hcon in Hc'. injection Hc' as ->.
    exists t, member, f, data. rewrite Hl in Hlen, Hk. split; [done|]. split; [cbn; by rewrite Hsem|]. by split_and!.
Qed.
End Done.
