(* ===== verification/DeliverSample.v ===== *)
(** * A sample restore, done

    A request whose one member is three bytes long, lowered by the provider and dispatched to
    the sample host: the table step and the write step of its own plan. *)

From stdpp Require Import gmap.
From S2P Require Import Prelude Interaction Cbor Sha256 Digest Authority Identity Effect FlashStep Projection Superseding.
From S2P Require Import Plan Manifest Dayu200 Verification Profile Rockchip RockchipPlan RockchipSample.
From S2P Require Import Rockusb RockusbSound Port PortSound Execute Dispatch ExecuteSound DispatchSound NativePort NativeSound DispatchSafe DispatchSample Deliver.

Section Sample.
Local Open Scope string_scope.

Definition small_images : ArtifactManifest :=
  mkManifest rockchip_format (mkDigest (replicate 32 1)) 3 [mkMember "ramdisk.img" 3 image_digest ImageCandidate]
    (Some (mkTable "rk29xxnand" 512 [mkEntry 0 "ramdisk" 4 (Some 8192) None Fixed])) [(mkId "const.product.model", "board")]
    ["readme.txt"] [] ProductionManifest.

Definition small_request : MaterializeRequest :=
  mkRequest (mkId "PLAN-2") PrimaryFlash FullRestore small_images (mkId "ART-2") board (mkProbe LOADER_MODE)
    sample_binding
    (mkSupport (mkDigest (replicate 32 3)) (HardwareCampaign "lab"))
    (mkToolchain (mkId "native") NativeProtocol (mkVersion 1 0 0) (mkDigest (replicate 32 4)) None)
    (mkPlatform (mkId "linux") (mkId "x86_64")) (mkDigest (replicate 32 5)) (mkDigest (replicate 32 6)) 1000 60000.
End Sample.

Definition small_built : BuiltPlan :=
  Eval vm_compute in
    match build_steps small_request with Ok built => built | Err _ => mkBuilt [] (mkPlan []) (mkEffectSet [] [] (device_data_impact board)) (mkPostflight true None []) end.

Lemma small_builds : build_steps small_request = Ok small_built.
Proof. vm_compute. reflexivity. Qed.

Lemma small_countable : countable small_request.
Proof. unfold countable. apply (bool_decide_unpack _). vm_compute. exact I. Qed.

Lemma small_typed : typed small_request.
Proof.
  split.
  - apply Forall_cons; split; [evaluate|apply Forall_nil_2].
  - apply Forall_cons; split; [split; [evaluate|split; [done|evaluate]]|apply Forall_nil_2].
  - intros b [= <-]. lia.
Qed.

Definition small_plan : list PrivateActionRecord := Eval vm_compute in Projection.actions (built_private_plan small_built).
Definition step_of (i : nat) : PublicFlashStep := nth i (built_steps small_built) (step_at 0 probe_loader (mkDigest [])).
Definition table_step : PublicFlashStep := Eval vm_compute in step_of 1.
Definition write_step : PublicFlashStep := Eval vm_compute in step_of 2.
Definition step_records (s : PublicFlashStep) : list PrivateActionRecord :=
  match ordered_actions small_plan (as_str (FlashStep.step_id s)) with Ok records => records | Err _ => [] end.
Definition table_work : PendingDispatch := Eval vm_compute in step_work small_request small_built "JOB-1" table_step (step_records table_step) (mkDigest []).
Definition write_records : list PrivateActionRecord := Eval vm_compute in step_records write_step.
Definition write_work : PendingDispatch := step_work small_request small_built "JOB-1" write_step write_records (mkDigest []).

Definition tabled := Eval vm_compute in step_run dispatcher_new new_bench table_work.
Definition restored := Eval vm_compute in step_run tabled.1.1.2 tabled.1.2 write_work.

Lemma tabled_runs : step_run dispatcher_new new_bench table_work = tabled.
Proof. vm_compute. reflexivity. Qed.

Lemma restored_runs : step_run tabled.1.1.2 tabled.1.2 write_work = restored.
Proof. vm_compute. reflexivity. Qed.

Lemma restored_ends :
  exists out, step_run tabled.1.1.2 tabled.1.2 write_work = (Ok out, restored.1.1.2, restored.1.2, restored.2) /\
    disposition out = SemanticSuccess.
Proof. rewrite restored_runs. eexists. split; reflexivity. Qed.

Definition small_plans (_ : string) : list PrivateActionRecord := small_plan.

Lemma small_plans_ok job : Forall declared_ok (small_plans job).
Proof. exact (plan_declared small_request small_built small_builds small_typed). Qed.

Lemma table_work_ok : work_ok small_plans profiles table_work.
Proof.
  split; [reflexivity|]. split; [reflexivity|]. intros record action ->%list_elem_of_singleton H p m b ->. vm_compute in H. discriminate H.
Qed.

Abbreviation small_life := (history native host_env "/work" show show_fault small_plans profiles).

Lemma life_tabled : small_life (told host_env tabled.2 new_bench) tabled.1.1.2.
Proof.
  eapply (history_step _ _ _ _ _ _ _ [] dispatcher_new (Run table_work) new_bench _ tabled.1.2); [constructor|apply table_work_ok|].
  unfold perform. pose proof tabled_runs as E. unfold step_run in E. rewrite E. reflexivity.
Qed.

Lemma restored_member_is_on_the_medium_witness :
  exists data, zlen data = 3 /\ sha256 data = image_digest /\ (device_after restored.2 blank).1 4 = sector_of (padded data) 0.
Proof.
  destruct restored_ends as (out & E & Hout).
  destruct (restored_member_is_on_the_medium native host_env host_env_ok "/work" show show_fault small_plans profiles small_plans_ok
              small_request small_built "JOB-1" write_step write_records (mkDigest []) (told host_env tabled.2 new_bench) tabled.1.1.2 tabled.1.2 out
              restored.1.1.2 restored.1.2 restored.2 blank small_builds small_countable small_typed eq_refl eq_refl)
    as (t & member & f & data & Ht & _ & [_ Hf] & Hl & Hh & Hk).
  - apply (list_elem_of_lookup_2 _ 2%nat). reflexivity.
  - reflexivity.
  - vm_compute. reflexivity.
  - apply life_tabled.
  - exact E.
  - exact Hout.
  - assert (t = mkTarget (mkId "ramdisk") 1 4 (Some "ramdisk.img"%string) (mkVerification FullHash (mkFallback false true))) as ->.
    { apply list_elem_of_singleton. exact Ht. }
    unfold manifest_member in Hf. apply find_some in Hf as [Hf _].
    destruct Hf as [<-|[]]. exists data. split; [exact Hl|]. split; [exact Hh|]. apply (Hk 4). split; [cbn; lia|]. vm_compute. reflexivity.
Defined.

Lemma restore_can_be_dispatched_witness :
  exists images e, expected_images small_plan board = Ok images /\ bt_get "ramdisk.img" images = Some e /\ expected_sha256 e = image_digest.
Proof.
  destruct (restore_can_be_dispatched small_request small_built small_builds eq_refl small_countable small_typed) as ((images & Hi & Hm) & _ & _); [done|].
  exists images, (mkExpected 3 image_digest). split; [exact Hi|]. split; [|done]. apply Hm.
  exists (mkTarget (mkId "ramdisk") 1 4 (Some "ramdisk.img"%string) (mkVerification FullHash (mkFallback false true))), (mkMember "ramdisk.img" 3 image_digest ImageCandidate).
  split; [by left|]. split; [|done]. split; reflexivity.
Defined.
